(* ===== verification/_CoqProject ===== *)
-Q . S2P
Prelude.v
Order.v
Text.v
Numeric.v
Quantity.v
Calendar.v
Book.v
Identity.v
Signal.v
Codec.v
Values.v
Event.v
EventCodec.v
MarketState.v
Reducer.v
ReducerLaws.v
StateCanonical.v
Ordering.v
OrderingLaws.v
Replay.v
ReplayLaws.v
ReplayMerge.v
Orders.v
Depth.v
DepthLaws.v
Fill.v
Accounting.v
AccountingLaws.v
LedgerLaws.v
Simulator.v
SimulatorLaws.v
Requests.v
Framing.v
Effects.v
Scheduled.v
ScheduledLaws.v
ScheduledRuns.v
Output.v
Strategy.v
StrategyLaws.v
Control.v
ControlLaws.v
Backtest.v
Runner.v
RunnerLaws.v
Coordinator.v
CoordinatorLaws.v
OrderedSets.v
Framed.v
Sessions.v
SessionsLaws.v
Partition.v
Config.v
ConfigLaws.v
ConfigFrames.v
Planning.v
PlanningLaws.v
EquityQuote.v
EquityQuoteLaws.v
EquityQuoteRuns.v
Taifex.v
TaifexLaws.v
Query.v
Provider.v
ProviderLaws.v
Files.v
Storage.v
Verify.v
VerifyLaws.v
StagingLaws.v
PublishLaws.v
SourceLaws.v
Layout.v
LayoutLaws.v
Cursor.v
CursorLaws.v
Sync.v
SyncLaws.v
SyncRuns.v
Cache.v
