(* ===== verification/Prelude.v ===== *)
(** * Osmium Lab: a verified model of the market-data and execution core

    Osmium Lab replays recorded market data, deterministically, through a
    trading strategy. The source is a workspace of Rust crates under
    src/crates/; this library models the crates that decide what a run
    computes, from the lines of a provider to the cash of a ledger, and
    proves what makes them correct. Definitions are translated function by
    function and keep the source's names; they are executable, so the
    witnesses evaluate them.

    ** How the program fits together

    The planner (run-planner) resolves a request into a run configuration
    with a canonical identity, lays out the sessions of each trading date,
    names the source partitions they need and classifies each into an
    execution plan. A provider (providers/teralion) turns the JSON records of
    a partition into [DomainEvent]s (market-types), which have a canonical
    byte format with a fingerprint. A replay plan names sorted streams of
    them; the replay engine (replay-engine) merges the streams in one total
    order and commits each event to the market state of its instrument
    through the reducer (market-state), hashing what it commits. A strategy
    (strategy-api) sees each event with a trading context derived from that
    state, and answers with order intents. The simulators (execution-sim)
    accept the intents, fill them against later events or visible depth, and
    the ledgers account for the fills. What a provider sends is kept first:
    data-sync stages the pages of an archive on disk, publishes them as a
    revision and verifies it before it is read; the normalized events of a
    partition are kept in a replay cache next to a description of what they
    were made of, which replay streams from. The runner (osmium-runner)
    drives all of them: one event at a time, or through a control queue that
    delays observations, activations and timers by their latencies.

    ** Files

    - Prelude, Order, Text: results and Rust's machine integers with their
      checked operations, [Ord] as a type class with the lexicographic
      combinators, stable sorting and the key order of a BTreeMap, decimal
      digits. Shared lemmas and the tactics live here.
    - Effects: failures that are returned or panic, the state and error
      monad, and the reading loop of the normalizers.
    - Numeric, Quantity, Calendar, Identity, Book, Signal (market-types):
      exact decimals, prices and quantities, dates and instants, identifiers,
      five-level books and trades, auction evidence and annotation bits.
    - Codec, Values, Event, EventCodec (canonical.rs, event.rs): the writer
      and the parser, one [Codec] instance per value, the event frame, and
      the theorems that decoding and encoding are inverse.
    - MarketState, Reducer, ReducerLaws, StateCanonical (market-state): the
      state and its profiles, propose/commit/apply, the receipts, and the
      canonical bytes of a final state set.
    - Ordering, OrderingLaws, Replay, ReplayLaws, ReplayMerge
      (replay-engine): ordering keys, checksum, plan, the replay core and its
      three loops. A stream is the type class the trait is in the source; the
      merge is proved against it.
    - Orders, Requests, Framing, Output, Strategy, StrategyLaws
      (strategy-api): intents, feedback and the trading context; scheduled
      requests and their canonical bytes; outputs, timers and declarations;
      the strategy as a type class whose callbacks may fail or panic, and
      single-session runs.
    - Depth, DepthLaws, Fill, Accounting, AccountingLaws, LedgerLaws,
      Simulator, SimulatorLaws (execution-sim): depth sweeps and atomic legs,
      charges, positions, day-trade tax, ledgers, and the event-driven
      simulator.
    - Scheduled, ScheduledLaws, ScheduledRuns (execution-sim/scheduled.rs):
      the scheduled depth simulator in a state and error monad, its invariant
      and the outcome of each part, and runs of operations on it.
    - Control, ControlLaws, Backtest, Runner, RunnerLaws, Coordinator,
      CoordinatorLaws (osmium-runner): the control queue and the delay of
      observations, the event-driven backtest, and the scheduled backtest
      with its control loops.
    - OrderedSets, Framed, Sessions, SessionsLaws, Partition, Config,
      ConfigLaws, ConfigFrames, Planning, PlanningLaws (run-planner):
      session plans, partition keys, the run configuration with its
      validation and canonical semantics, and execution plans; Framed shows
      that such bytes determine the value.
    - EquityQuote, EquityQuoteLaws, EquityQuoteRuns, Taifex, TaifexLaws
      (providers/teralion): the two normalizers, from a line to a report.
    - Query, Provider, ProviderLaws (providers/teralion): archive queries
      with their identities, and the normalizer and the query selected for a
      planned partition.
    - Files: paths, a disk, the calls on it with their failures, programs of
      calls and triples about all their runs. The files below are programs
      in it.
    - Storage, Verify, VerifyLaws, StagingLaws, PublishLaws, SourceLaws
      (data-sync/storage.rs, verify.rs): staging, resumption, publication and
      verification of a source revision, and what they promise each other.
    - Layout, LayoutLaws (data-sync/partition.rs): the roots of partitions
      and their key files.
    - Cursor, CursorLaws, Sync, SyncLaws, SyncRuns (providers/teralion,
      cursor.rs, sync.rs, provider.rs): the cursor state machine with its
      checkpoint, the loop over the pages of a query, and a partition from
      its plan to its published revision.
    - Cache (data-sync/cache.rs, provider.rs): the replay cache. Module Cache
      has the builder, the catalogue, the reader and the stream factory,
      CacheLaws their theorems, and CacheDemo a cache of the partition that
      SyncRuns fetches.

    ** What the theorems show

    - Replay: order_events has one answer for any input order; the bounded
      merge of sorted streams is the in-memory replay of all their events and
      terminates; a failed event leaves no trace; the checksum and the plan
      identity determine what they cover unless the hash collides; internal
      errors and the duplicate order check are unreachable.
    - Events and values: decode after encode and encode after decode are the
      identity; parsers and printers of decimals, dates and instants agree.
    - Market state: what an accepted event changes and what it leaves alone,
      volume and version invariants, and the segment boundary.
    - Execution: sweeps follow price priority exactly; several legs are all
      or nothing; orders are filled by exactly what they are entitled to and
      never beyond their quantity, limit or latency; terminal orders never
      change.
    - Scheduled execution: over every run of operations, failures included,
      no quantity is lost or filled twice and an order only moves forward
      through its states; an activation that fails changes nothing; nothing
      panics while control times do not go back; identities are distinct.
    - Accounting: multiplication of decimals is exact or refused; charges are
      within the rounding; cash, cost and profit balance exactly in every
      reachable ledger; day-trade queues match all that can be matched;
      charges and multi-instrument cash are consistent.
    - Strategies and runs: a strategy is called once per event in replay
      order and never sees what comes later; the control queue is ordered; a
      backtest ends, books every fill once and leaves no order open; a
      scheduled backtest is the plain loop over its plan, and a completed one
      has shown every event once and a latency late.
    - Planning: a resolved configuration is the normal form of its request,
      is stable and within its bounds, and is determined by its canonical
      bytes; windows run between the hours of their sessions on weekdays of
      the civil calendar, holidays being unknown; an execution plan
      covers its configuration exactly and is determined by its bytes.
    - Normalizers: a quote report is that of a reference definition without
      maps and flags; its events are well-formed and carry exactly the prints
      of the accepted records; nothing panics. A TAIFEX report is in replay
      order and does not depend on the order of its lines.
    - Source storage: a revision verifies exactly when the pointer, the
      manifest and every object are what they say on disk, and its identity
      names the contents up to collisions; publication is atomic wherever it
      is cut short; an interrupted attempt resumes with exactly the pages
      that are durable; whatever interrupts the runs that synchronise a
      partition, the pages fetched are kept and a run that returns leaves a
      revision of all pages of its query, each once and in order. An
      interruption can leave a temporary file after which no run returns.
      A root names its partition and belongs to one key.
    - Replay cache: reading a cache to its end succeeds exactly when the file
      holds what its description says, and gives those events in replay
      order; a cache is published as a whole or not at all and reads back the
      events it was built of; the catalogue answers with the one up-to-date
      cache of a revision; a stream of a plan gives events of its binding only.
    - What the code does not keep: merged auction evidence that its own
      constructor refuses, control actions of one batch that run out of
      order, prints of a warrant that cannot be replayed, a temporary file,
      an unfinished cache or a moved revision that blocks every later
      attempt, and roots of partitions that nest ([merge_breaks_direction_rule],
      [process_before_reorders], [warrant_prints_misordered],
      [stale_temporary_blocks], [interrupted_gets_stuck],
      [interrupted_build_blocks],
      [republication_refused],
      [partition_roots_nest]).

    ** Representation

    Rust's integers are Z with the width written out ([to_u64], [checked]);
    an operation the source checks returns an error, one that would panic or
    abort returns [Panicked] where the panic is not excluded by type. Strings
    and byte vectors are lists of Z in 0..255. A [BTreeMap] is a gmap read in
    key order ([btree_entries], [btree_values]); a [Vec] is a list. Methods
    taking &mut self return the new state with their result, also on the
    error paths, where the source may leave the state half changed. BLAKE3
    and other hashes are parameters (type classes) of the model; a theorem
    about identity says the inputs agree or the hash has collided. The JSON
    decoders of serde_json are parameters too, with the widths the decoded
    fields have ([TypedJson]).

    A disk maps paths to files and directories. A program is a tree of
    calls ([io]); [runs] relates it to every way it can end: any call may
    fail for a reason of its own, and the program may be cut short before or
    inside any call, a write leaving a prefix. Asking for the metadata of a
    path is taken to answer truthfully, and what a call has changed is taken
    to survive in the order of the calls, so a loss of power that reorders
    writes is not covered. zstd, SHA-256, serde_json and the transport are
    type classes with the laws that are relied on; a JSON value is seen
    through the accessors the source calls.

    ** Bounds and fuel

    Recursion that is not structural runs on fuel that is proved to suffice:
    Euclid's loop gets 257 rounds, as the smaller of two 128-bit values is
    halved every second round; the digits of a 128-bit value take at most 39;
    the stream loops take one step per event and one more, which the
    termination theorems state for every content a stream promises; the
    search for the previous business day stops within three days. The control
    loops of the scheduled backtest run on rounds, which a strategy can use
    up by asking for timers without end: running out is an outcome of its
    own, and the theorems hold for any number of rounds. The loop over the
    pages of a query runs on rounds too, and does not use up more than the
    archive has pages; ordinals of pages are printed with eight digits, so a
    revision is taken to have at most 10^8 of them. Reading a cache to its
    end takes one round per record and one more.

    ** Not modelled

    Display texts of errors, Debug and Hash derivations, and the codecs of
    serde, which are third-party or derived code; the HTTP transport, which
    builds requests for a client library; the log of opened streams that an
    environment variable asks for; the artifacts of a run and the configuration file, which are records of serde
    written and read back; the command line, the strategy registry, the
    example strategy and the release tools, which are glue. *)

From stdpp Require Export base gmap list strings sorting numbers.
#[global] Open Scope Z_scope.

(** ** Results

    Rust's [Result<A, E>], as a monad for stdpp's do-notation
    ([x ← e; k] is the [?] operator). *)

Inductive result (E A : Type) : Type :=
| Ok (a : A)
| Err (e : E).
Arguments Ok {E A} a.
Arguments Err {E A} e.

#[export] Instance result_ret {E} : MRet (result E) := @Ok E.
#[export] Instance result_bind {E} : MBind (result E) :=
  λ A B f m, match m with Ok a => f a | Err e => Err e end.
#[export] Instance result_fmap {E} : FMap (result E) :=
  λ A B f m, match m with Ok a => Ok (f a) | Err e => Err e end.

Definition ok_or {E A} (o : option A) (e : E) : result E A :=
  match o with Some a => Ok a | None => Err e end.
Definition map_err {E F A} (f : E → F) (r : result E A) : result F A :=
  match r with Ok a => Ok a | Err e => Err (f e) end.
Definition res_ok {E A} (r : result E A) : option A :=
  match r with Ok a => Some a | Err _ => None end.
Definition is_ok {E A} (r : result E A) : bool :=
  match r with Ok _ => true | Err _ => false end.

Create HintDb osmium.
Declare Scope osmium_scope.
Delimit Scope osmium_scope with osmium.
(** [reject c with e ;; k] is [if c { return Err(e) } k]. *)
Notation "'reject' c 'with' e ';;' k" := (if c then Err e else k)
  (at level 100, c at level 99, e at level 99, k at level 200, right associativity) : osmium_scope.
#[global] Open Scope osmium_scope.

(** Iterator::collect::<Result<Vec<_>, _>>: stops at the first error. *)
Fixpoint collect_results {E A B} (f : A → result E B) (l : list A) : result E (list B) :=
  match l with
  | [] => Ok []
  | x :: xs => y ← f x; ys ← collect_results f xs; Ok (y :: ys)
  end.

(** Iterator::try_fold. *)
Fixpoint try_fold {E A B} (f : B → A → result E B) (acc : B) (l : list A) : result E B :=
  match l with
  | [] => Ok acc
  | x :: xs => acc' ← f acc x; try_fold f acc' xs
  end.

(** ** Machine integers

    A w-bit integer is a [Z]; the range predicates below are what the Rust
    types guarantee, and every checked operation tests them. *)

Definition u8_max : Z := 255.
Definition u16_max : Z := 65535.
Definition u32_max : Z := 4294967295.
Definition u64_max : Z := 18446744073709551615.
Definition u128_max : Z := 340282366920938463463374607431768211455.
Definition i16_max : Z := 32767.
Definition i32_max : Z := 2147483647.
Definition i64_max : Z := 9223372036854775807.
Definition i128_max : Z := 170141183460469231731687303715884105727.
Definition usize_max : Z := u64_max.
Definition isize_max : Z := i64_max.

Definition in_range (lo hi z : Z) : bool := (lo <=? z) && (z <=? hi).
Definition is_u8 (z : Z) : Prop := 0 ≤ z ≤ u8_max.
Definition is_u32 (z : Z) : Prop := 0 ≤ z ≤ u32_max.
Definition is_u64 (z : Z) : Prop := 0 ≤ z ≤ u64_max.
Definition is_u128 (z : Z) : Prop := 0 ≤ z ≤ u128_max.
Definition is_i32 (z : Z) : Prop := - i32_max - 1 ≤ z ≤ i32_max.
Definition is_i64 (z : Z) : Prop := - i64_max - 1 ≤ z ≤ i64_max.
Definition is_i128 (z : Z) : Prop := - i128_max - 1 ≤ z ≤ i128_max.

Definition checked (lo hi z : Z) : option Z := if in_range lo hi z then Some z else None.
Definition to_u32 : Z → option Z := checked 0 u32_max.
Definition to_u64 : Z → option Z := checked 0 u64_max.
Definition to_u128 : Z → option Z := checked 0 u128_max.
Definition to_usize : Z → option Z := checked 0 usize_max.
Definition to_i32 : Z → option Z := checked (- i32_max - 1) i32_max.
Definition to_i64 : Z → option Z := checked (- i64_max - 1) i64_max.
Definition to_i128 : Z → option Z := checked (- i128_max - 1) i128_max.

Ltac unfold_ints :=
  unfold is_u8, is_u32, is_u64, is_u128, is_i32, is_i64, is_i128,
    to_u32, to_u64, to_u128, to_usize, to_i32, to_i64, to_i128, checked, in_range,
    usize_max, isize_max, u8_max, u16_max, u32_max, u64_max, u128_max,
    i16_max, i32_max, i64_max, i128_max in *.

Lemma checked_Some lo hi z z' : checked lo hi z = Some z' ↔ z' = z ∧ lo ≤ z ≤ hi.
Proof. unfold checked, in_range. destruct (Z.leb_spec lo z), (Z.leb_spec z hi); naive_solver lia. Qed.

Lemma checked_None lo hi z : checked lo hi z = None ↔ ¬ (lo ≤ z ≤ hi).
Proof. unfold checked, in_range. destruct (Z.leb_spec lo z), (Z.leb_spec z hi); naive_solver lia. Qed.

Lemma checked_in lo hi z : lo ≤ z ≤ hi → checked lo hi z = Some z.
Proof. intros H. by apply checked_Some. Qed.

(** Case analysis on every [match]/[if]/bind of a result-valued hypothesis. *)
Ltac simplify_res :=
  repeat (simplify_eq/=;
    match goal with
    | H : mbind _ ?m = Ok _ |- _ => let E := fresh "Hok" in destruct m eqn:E; simpl in H; [|discriminate H]
    | H : ok_or ?o _ = Ok _ |- _ => let E := fresh "Hsome" in destruct o eqn:E; simpl in H; [|discriminate H]
    | H : map_err _ ?m = Ok _ |- _ => let E := fresh "Hok" in destruct m eqn:E; simpl in H; [|discriminate H]
    | H : (if ?c then Err _ else _) = Ok _ |- _ => let E := fresh "Hc" in destruct c eqn:E; [discriminate H|]
    | H : checked _ _ _ = Some _ |- _ => apply checked_Some in H; destruct H as [-> H]
    | H : to_u32 _ = Some _ |- _ => apply checked_Some in H; destruct H as [-> H]
    | H : to_u64 _ = Some _ |- _ => apply checked_Some in H; destruct H as [-> H]
    | H : to_u128 _ = Some _ |- _ => apply checked_Some in H; destruct H as [-> H]
    | H : to_usize _ = Some _ |- _ => apply checked_Some in H; destruct H as [-> H]
    | H : to_i32 _ = Some _ |- _ => apply checked_Some in H; destruct H as [-> H]
    | H : to_i64 _ = Some _ |- _ => apply checked_Some in H; destruct H as [-> H]
    | H : to_i128 _ = Some _ |- _ => apply checked_Some in H; destruct H as [-> H]
    end); simplify_eq/=.

Lemma bind_Ok {E A B} (m : result E A) (f : A → result E B) b :
  m ≫= f = Ok b ↔ ∃ a, m = Ok a ∧ f a = Ok b.
Proof. destruct m; naive_solver. Qed.

Lemma bind_Err {E A C} (m : result E A) (f : A → result E C) err : m ≫= f = Err err →
  m = Err err ∨ ∃ a, m = Ok a ∧ f a = Err err.
Proof. destruct m as [a|e]; [|intros [= <-]; by left]. intros H. right. by exists a. Qed.

Lemma bind_assoc {E A B C} (m : result E A) (f : A → result E B) (g : B → result E C) :
  (m ≫= f) ≫= g = m ≫= (λ a, f a ≫= g).
Proof. by destruct m. Qed.

Lemma collect_results_Ok {E A B} (f : A → result E B) l ys :
  collect_results f l = Ok ys ↔ Forall2 (λ x y, f x = Ok y) l ys.
Proof.
  revert ys. induction l as [|x l IH]; intros ys; simpl.
  - split; [by intros [= <-] | by inversion 1].
  - rewrite bind_Ok. setoid_rewrite bind_Ok. split.
    + intros (y & Hy & ys' & Hys & [= <-]). constructor; [done|by apply IH].
    + inversion 1 as [|? y ? ys' Hy Hys]; subst. exists y. split; [done|].
      exists ys'. split; [by apply IH|done].
Qed.

Lemma collect_results_ext {E A B} (f g : A → result E B) l : (∀ x, x ∈ l → f x = g x) → collect_results f l = collect_results g l.
Proof.
  induction l as [|x l IH]; intros H; [done|]. simpl. rewrite (H x) by by left. rewrite IH; [done|]. intros y Hy. apply H. by right.
Qed.
Lemma collect_results_fails {E A B} (f : A → result E B) l x : x ∈ l → is_ok (f x) = false → is_ok (collect_results f l) = false.
Proof.
  induction l as [|y l IH]; [by intros []%not_elem_of_nil|]. simpl. intros [->|Hx]%elem_of_cons Hf.
  - by destruct (f y).
  - destruct (f y); simpl; [|done]. specialize (IH Hx Hf). by destruct (collect_results f l).
Qed.
(** Checks that return nothing. *)
Lemma collect_unit {E A} (f : A → result E ()) l us : collect_results f l = Ok us → ∀ x, x ∈ l → f x = Ok ().
Proof.
  intros H%collect_results_Ok x [n Hn]%list_elem_of_lookup_1. destruct (Forall2_lookup_l _ _ _ _ _ H Hn) as ([] & _ & Hx). done.
Qed.
Lemma collect_unit_all {E A} (f : A → result E ()) l : (∀ x, x ∈ l → f x = Ok ()) → ∃ us, collect_results f l = Ok us.
Proof.
  intros H. exists (replicate (length l) ()). apply collect_results_Ok. induction l as [|x l IH]; [constructor|].
  simpl. constructor; [apply H; by left|]. apply IH. intros y Hy. apply H. by right.
Qed.

Lemma map_err_Ok {E F A} (f : E → F) (r : result E A) a : map_err f r = Ok a ↔ r = Ok a.
Proof. destruct r; naive_solver. Qed.
Lemma fmap_Ok {E A B} (f : A → B) (r : result E A) b : f <$> r = Ok b ↔ ∃ a, r = Ok a ∧ b = f a.
Proof. destruct r; naive_solver. Qed.

Lemma try_fold_app {E A B} (f : B → A → result E B) acc l k :
  try_fold f acc (l ++ k) = (acc' ← try_fold f acc l; try_fold f acc' k).
Proof.
  revert acc. induction l as [|x l IH]; intros acc; simpl; [done|].
  rewrite bind_assoc. destruct (f acc x); simpl; auto.
Qed.

(** An invariant kept by every step of a fallible fold. *)
Lemma try_fold_ind {E A B} (P : B → Prop) (f : B → A → result E B) l acc acc' :
  P acc → (∀ b a b', a ∈ l → P b → f b a = Ok b' → P b') →
  try_fold f acc l = Ok acc' → P acc'.
Proof.
  revert acc. induction l as [|x l IH]; intros acc HP Hstep; simpl; [by intros [= <-]|].
  rewrite bind_Ok. intros (b & Hb & Hrest). eapply IH; [| |done].
  - eapply Hstep; [by left|done|done].
  - intros b0 a0 b1 Ha0. apply Hstep. by right.
Qed.

(** ** Numbered lists *)

(** [iter().enumerate()] from [k] on. *)
Definition number {A} (k : nat) (l : list A) : list (nat * A) := zip (seq k (length l)) l.
Lemma imap_number {A B} (f : nat → A → B) l : imap f l = (λ '(i, x), f i x) <$> number 0 l.
Proof.
  unfold number. assert (∀ k (g : nat → A → B), (∀ i x, g i x = f (k + i)%nat x) → imap g l = (λ '(i, x), f i x) <$> zip (seq k (length l)) l) as H.
  { induction l as [|x l IH]; intros k g Hg; [done|]. cbn [imap length seq zip]. simpl. f_equal; [rewrite Hg; f_equal; lia|].
    apply IH. intros i y. simpl. rewrite Hg. f_equal. lia. }
  by apply H.
Qed.
Lemma imap_pair {A} (l : list A) : imap pair l = number 0 l.
Proof. rewrite imap_number. rewrite <-(list_fmap_id (number 0 l)) at 2. apply list_fmap_ext. by intros ? [] _. Qed.
Lemma number_cons {A} k x (l : list A) : number k (x :: l) = (k, x) :: number (S k) l.
Proof. done. Qed.
Lemma elem_of_number {A} k (l : list A) i x : (i, x) ∈ number k l ↔ ∃ j, i = (k + j)%nat ∧ l !! j = Some x.
Proof.
  revert k. induction l as [|y l IH]; intros k; [rewrite elem_of_nil; naive_solver|]. rewrite number_cons, elem_of_cons, IH. split.
  - intros [[= -> ->]|(j & -> & Hj)]; [exists 0%nat; split; [lia|done]|exists (S j); split; [lia|done]].
  - intros ([|j] & -> & Hj); [injection Hj as ->; left; f_equal; lia|right; exists j; split; [lia|done]].
Qed.

Lemma head_in {A} (l : list A) x : head l = Some x → x ∈ l.
Proof. destruct l; [done|]. intros [= ->]. by left. Qed.

(** ** Bytes *)

(** [z.to_be_bytes()] for an n-byte integer; a negative [z] gives its two's complement. *)
Fixpoint be_bytes (n : nat) (z : Z) : list Z :=
  match n with
  | O => []
  | S n => (z / 256 ^ Z.of_nat n) mod 256 :: be_bytes n z
  end.

(** [uN::from_be_bytes]. *)
Definition from_be (bs : list Z) : Z := foldl (λ acc b, acc * 256 + b) 0 bs.

(** [iN::from_be_bytes]: the two's-complement reading of an n-byte value. *)
Definition from_be_signed (bs : list Z) : Z :=
  let m := 256 ^ Z.of_nat (length bs) in
  let u := from_be bs in if 2 * u <? m then u else u - m.

Lemma length_be_bytes n z : length (be_bytes n z) = n.
Proof. induction n; simpl; congruence. Qed.

Lemma be_bytes_u8 n z : Forall is_u8 (be_bytes n z).
Proof.
  induction n; simpl; constructor; [|done].
  unfold_ints. pose proof (Z.mod_pos_bound (z / 256 ^ Z.of_nat n) 256). lia.
Qed.

Lemma foldl_be_acc bs acc :
  foldl (λ acc b, acc * 256 + b) acc bs = acc * 256 ^ Z.of_nat (length bs) + from_be bs.
Proof.
  unfold from_be. revert acc. induction bs as [|b bs IH]; intros acc; cbn [foldl length].
  - rewrite Z.pow_0_r. lia.
  - rewrite IH, (IH (0 * 256 + b)), Nat2Z.inj_succ, Z.pow_succ_r by lia. lia.
Qed.

Lemma from_be_cons b bs : from_be (b :: bs) = b * 256 ^ Z.of_nat (length bs) + from_be bs.
Proof. unfold from_be at 1. cbn [foldl]. by rewrite foldl_be_acc. Qed.

Lemma from_be_range bs : Forall is_u8 bs → 0 ≤ from_be bs < 256 ^ Z.of_nat (length bs).
Proof.
  induction 1 as [|b bs Hb _ IH]; [done|]. rewrite from_be_cons. cbn [length].
  rewrite Nat2Z.inj_succ, Z.pow_succ_r by lia. unfold_ints. nia.
Qed.

Lemma from_be_bytes_mod n z : from_be (be_bytes n z) = z mod 256 ^ Z.of_nat n.
Proof.
  induction n as [|n IH]; [by rewrite Z.mod_1_r|].
  cbn [be_bytes]. rewrite from_be_cons, length_be_bytes, IH.
  rewrite Nat2Z.inj_succ, Z.pow_succ_r, (Z.mul_comm 256) by lia.
  rewrite Z.rem_mul_r by lia. lia.
Qed.

Lemma from_be_be_bytes n z : 0 ≤ z < 256 ^ Z.of_nat n → from_be (be_bytes n z) = z.
Proof. intros. by rewrite from_be_bytes_mod, Z.mod_small. Qed.

Lemma from_be_signed_be_bytes n z :
  - 256 ^ Z.of_nat n ≤ 2 * z < 256 ^ Z.of_nat n → from_be_signed (be_bytes n z) = z.
Proof.
  intros Hz. unfold from_be_signed. rewrite length_be_bytes, from_be_bytes_mod.
  destruct (Z.leb_spec 0 z).
  - rewrite Z.mod_small by lia. destruct (Z.ltb_spec (2 * z) (256 ^ Z.of_nat n)); lia.
  - assert (z mod 256 ^ Z.of_nat n = z + 256 ^ Z.of_nat n) as ->.
    { symmetry. apply (Z.mod_unique _ _ (-1)); lia. }
    destruct (Z.ltb_spec (2 * (z + 256 ^ Z.of_nat n)) (256 ^ Z.of_nat n)); lia.
Qed.

Lemma be_bytes_add n z k : be_bytes n (z + k * 256 ^ Z.of_nat n) = be_bytes n z.
Proof.
  revert k. induction n as [|n IH]; intros k; [done|]. cbn [be_bytes].
  rewrite Nat2Z.inj_succ, Z.pow_succ_r by lia.
  replace (k * (256 * 256 ^ Z.of_nat n)) with (k * 256 * 256 ^ Z.of_nat n) by lia.
  rewrite IH, Z.div_add by lia. f_equal. by rewrite Z.mod_add by lia.
Qed.

Lemma be_bytes_from_be bs : Forall is_u8 bs → be_bytes (length bs) (from_be bs) = bs.
Proof.
  induction 1 as [|b bs Hb Hbs IH]; [done|].
  cbn [length be_bytes]. rewrite from_be_cons.
  pose proof (from_be_range _ Hbs) as Hr. f_equal.
  - rewrite Z.div_add_l, Z.div_small by lia. rewrite Z.add_0_r. apply Z.mod_small.
    unfold_ints; lia.
  - by rewrite Z.add_comm, be_bytes_add.
Qed.

Lemma be_bytes_from_be_signed bs :
  Forall is_u8 bs → be_bytes (length bs) (from_be_signed bs) = bs.
Proof.
  intros Hbs. unfold from_be_signed. destruct (_ <? _); [by apply be_bytes_from_be|].
  replace (from_be bs - 256 ^ Z.of_nat (length bs))
    with (from_be bs + (-1) * 256 ^ Z.of_nat (length bs)) by lia.
  rewrite be_bytes_add. by apply be_bytes_from_be.
Qed.

Lemma from_be_signed_range bs : Forall is_u8 bs →
  - 256 ^ Z.of_nat (length bs) ≤ 2 * from_be_signed bs < 256 ^ Z.of_nat (length bs).
Proof.
  intros Hbs. pose proof (from_be_range _ Hbs). unfold from_be_signed.
  destruct (Z.ltb_spec (2 * from_be bs) (256 ^ Z.of_nat (length bs))); lia.
Qed.

Lemma be_bytes_inj n x y :
  0 ≤ x < 256 ^ Z.of_nat n → 0 ≤ y < 256 ^ Z.of_nat n → be_bytes n x = be_bytes n y → x = y.
Proof. intros Hx Hy H. by rewrite <-(from_be_be_bytes n x), H, from_be_be_bytes. Qed.

(** Byte lists of concrete values are checked by evaluation. *)
Lemma forallb_u8 bs : forallb (in_range 0 u8_max) bs = true → Forall is_u8 bs.
Proof.
  induction bs as [|b bs IH]; [by constructor|]. cbn [forallb]. intros [Hb Hbs]%andb_prop.
  constructor; [unfold in_range, is_u8 in *; lia|by apply IH].
Qed.

(** Byte strings written as text: [b"OSME"], [.as_bytes()] of a literal. *)
Definition bytes_of (s : string) : list Z := (Z.of_N ∘ Ascii.N_of_ascii) <$> String.list_ascii_of_string s.

(** ASCII digits. *)
Definition is_ascii_digit (b : Z) : bool := in_range 48 57 b.
Definition digit_value (b : Z) : Z := b - 48.

Definition zlen {A} (l : list A) : Z := Z.of_nat (length l).

Lemma zlen_app {A} (l k : list A) : zlen (l ++ k) = zlen l + zlen k.
Proof. unfold zlen. rewrite length_app. lia. Qed.

(** ** Sums over a list *)

Definition sum_of {A} (g : A → Z) (l : list A) : Z := foldr (λ x acc, g x + acc) 0 l.
Lemma sum_of_app {A} (g : A → Z) l k : sum_of g (l ++ k) = sum_of g l + sum_of g k.
Proof. unfold sum_of. induction l; simpl in *; lia. Qed.
Lemma sum_of_cons {A} (g : A → Z) x l : sum_of g (x :: l) = g x + sum_of g l.
Proof. done. Qed.
Lemma sum_of_nonneg {A} (g : A → Z) l : Forall (λ x, 0 ≤ g x) l → 0 ≤ sum_of g l.
Proof. unfold sum_of. induction 1; simpl in *; lia. Qed.
Lemma sum_of_snoc {A} (g : A → Z) l x : sum_of g (l ++ [x]) = sum_of g l + g x.
Proof. rewrite sum_of_app. unfold sum_of. simpl. lia. Qed.
#[global] Instance sum_of_perm {A} (g : A → Z) : Proper ((≡ₚ) ==> (=)) (sum_of g).
Proof. intros l k H. unfold sum_of. induction H; simpl in *; lia. Qed.
Lemma sum_of_abs {A} (g : A → Z) l : Z.abs (sum_of g l) ≤ sum_of (λ x, Z.abs (g x)) l.
Proof. unfold sum_of. induction l as [|x l IH]; simpl in *; lia. Qed.
Lemma sum_of_fmap {A B} (f : B → A) (g : A → Z) l : sum_of g (f <$> l) = sum_of (g ∘ f) l.
Proof. unfold sum_of. induction l as [|x l IH]; [done|]. rewrite fmap_cons. simpl. by rewrite IH. Qed.
