(* ===== verification/Order.v ===== *)
(** Total orders as Rust's [Ord] trait states them, the lexicographic orders
    [#[derive(Ord)]] and [Ordering::then_with] build, stable sorting by a key
    ([sort_by], [sort_by_key]) and the key-ordered view of a [BTreeMap]. *)
From S2P Require Import Prelude.

(** ** The [Ord] interface *)

Class Ord (A : Type) := cmp : A → A → comparison.
#[global] Hint Mode Ord ! : typeclass_instances.

Class OrdLaws (A : Type) `{Ord A} : Prop := {
  cmp_eq_iff (x y : A) : cmp x y = Eq ↔ x = y;
  cmp_antisym (x y : A) : cmp y x = CompOpp (cmp x y);
  cmp_lt_trans (x y z : A) : cmp x y = Lt → cmp y z = Lt → cmp x z = Lt }.

(** [Ordering::then_with]. *)
Definition then_with (c d : comparison) : comparison := match c with Eq => d | _ => c end.

Definition ord_le {A} `{Ord A} (x y : A) : Prop := cmp x y ≠ Gt.
Definition ord_lt {A} `{Ord A} (x y : A) : Prop := cmp x y = Lt.

#[export] Instance ord_le_dec {A} `{Ord A} : RelDecision (ord_le (A:=A)).
Proof. intros x y. unfold ord_le. destruct (cmp x y); [left|left|right]; abstract naive_solver. Defined.
#[export] Instance ord_lt_dec {A} `{Ord A} : RelDecision (ord_lt (A:=A)).
Proof. intros x y. unfold ord_lt. destruct (cmp x y); [right|left|right]; abstract naive_solver. Defined.

Section laws.
Context {A : Type} `{OrdLaws A}.
Implicit Types x y z : A.

Lemma cmp_refl x : cmp x x = Eq.
Proof. by apply cmp_eq_iff. Qed.

Lemma cmp_gt_lt x y : cmp x y = Gt ↔ cmp y x = Lt.
Proof. rewrite (cmp_antisym x y). destruct (cmp x y); naive_solver. Qed.

Lemma ord_le_lt_eq x y : ord_le x y ↔ ord_lt x y ∨ x = y.
Proof. unfold ord_le, ord_lt. rewrite <-cmp_eq_iff. destruct (cmp x y); naive_solver. Qed.

Lemma ord_not_le x y : ¬ ord_le x y ↔ ord_lt y x.
Proof. unfold ord_le, ord_lt. rewrite <-cmp_gt_lt. destruct (cmp x y); naive_solver. Qed.

Lemma ord_not_lt x y : ¬ ord_lt x y ↔ ord_le y x.
Proof. unfold ord_le, ord_lt. rewrite (cmp_antisym x y). destruct (cmp x y); naive_solver. Qed.

#[export] Instance ord_le_refl : Reflexive (ord_le (A:=A)).
Proof. intros x. unfold ord_le. by rewrite cmp_refl. Qed.

#[export] Instance ord_le_trans : Transitive (ord_le (A:=A)).
Proof.
  intros x y z. rewrite !ord_le_lt_eq. unfold ord_lt.
  intros [Hxy| ->] [Hyz| ->]; eauto using cmp_lt_trans.
Qed.

#[export] Instance ord_le_antisym : AntiSymm (=) (ord_le (A:=A)).
Proof.
  intros x y. unfold ord_le. rewrite (cmp_antisym x y), <-cmp_eq_iff.
  destruct (cmp x y); naive_solver.
Qed.

#[export] Instance ord_le_total : Total (ord_le (A:=A)).
Proof. intros x y. unfold ord_le. rewrite (cmp_antisym x y). destruct (cmp x y); naive_solver. Qed.

Lemma ord_lt_le_trans x y z : ord_lt x y → ord_le y z → ord_lt x z.
Proof. unfold ord_lt. rewrite ord_le_lt_eq. unfold ord_lt. intros ? [?| ->]; eauto using cmp_lt_trans. Qed.

Lemma ord_le_lt_trans x y z : ord_le x y → ord_lt y z → ord_lt x z.
Proof. unfold ord_lt. rewrite ord_le_lt_eq. unfold ord_lt. intros [?| ->] ?; eauto using cmp_lt_trans. Qed.

Lemma ord_lt_irrefl x : ¬ ord_lt x x.
Proof. unfold ord_lt. by rewrite cmp_refl. Qed.
End laws.

#[export] Hint Resolve cmp_refl ord_lt_irrefl : osmium.

(** ** Orders built from orders *)

(** [#[derive(Ord)]] on a struct, or a [cmp] that chains field comparisons,
    is the comparison of a tuple of keys. *)
Definition cmp_on {A K} `{Ord K} (f : A → K) : Ord A := λ x y, cmp (f x) (f y).

Lemma cmp_on_laws {A K} `{OrdLaws K} (f : A → K) `{!Inj (=) (=) f} :
  @OrdLaws A (cmp_on f).
Proof.
  split; unfold cmp, cmp_on; intros.
  - rewrite cmp_eq_iff. split; [apply (inj f)|congruence].
  - apply cmp_antisym.
  - by eapply cmp_lt_trans.
Qed.

#[export] Instance Z_ord : Ord Z := Z.compare.
#[export] Instance Z_ord_laws : OrdLaws Z.
Proof.
  split; unfold cmp, Z_ord; intros.
  - apply Z.compare_eq_iff.
  - apply Z.compare_antisym.
  - rewrite Z.compare_lt_iff in *. lia.
Qed.

#[export] Instance prod_ord {A B} `{Ord A, Ord B} : Ord (A * B) :=
  λ '(a1, b1) '(a2, b2), then_with (cmp a1 a2) (cmp b1 b2).
Lemma cmp_pair {A B} `{Ord A, Ord B} (a1 a2 : A) (b1 b2 : B) :
  cmp (a1, b1) (a2, b2) = then_with (cmp a1 a2) (cmp b1 b2).
Proof. done. Qed.

#[export] Instance prod_ord_laws {A B} `{OrdLaws A, OrdLaws B} : OrdLaws (A * B).
Proof.
  split.
  - intros [a1 b1] [a2 b2]. rewrite cmp_pair. unfold then_with. destruct (cmp a1 a2) eqn:E.
    + apply cmp_eq_iff in E as ->. rewrite cmp_eq_iff. naive_solver.
    + split; [done|]. intros [= -> ->]. by rewrite cmp_refl in E.
    + split; [done|]. intros [= -> ->]. by rewrite cmp_refl in E.
  - intros [a1 b1] [a2 b2]. rewrite !cmp_pair, (cmp_antisym a1 a2), (cmp_antisym b1 b2).
    by destruct (cmp a1 a2).
  - intros [a1 b1] [a2 b2] [a3 b3]. rewrite !cmp_pair. unfold then_with.
    destruct (cmp a1 a2) eqn:E12; [apply cmp_eq_iff in E12 as ->| |done].
    + destruct (cmp a2 a3); [|done..]. apply cmp_lt_trans.
    + destruct (cmp a2 a3) eqn:E23; [apply cmp_eq_iff in E23 as ->| |done].
      * by rewrite E12.
      * by rewrite (cmp_lt_trans _ _ _ E12 E23).
Qed.

(** [None < Some _]. *)
#[export] Instance option_ord {A} `{Ord A} : Ord (option A) := λ x y,
  match x, y with
  | None, None => Eq | None, Some _ => Lt | Some _, None => Gt
  | Some a, Some b => cmp a b
  end.
Lemma cmp_Some {A} `{Ord A} (x y : A) : cmp (Some x) (Some y) = cmp x y.
Proof. done. Qed.

#[export] Instance option_ord_laws {A} `{OrdLaws A} : OrdLaws (option A).
Proof.
  split.
  - intros [x|] [y|]; [|done..]. rewrite cmp_Some, cmp_eq_iff. naive_solver.
  - intros [x|] [y|]; [|done..]. rewrite !cmp_Some. apply cmp_antisym.
  - intros [x|] [y|] [z|]; try done. rewrite !cmp_Some. apply cmp_lt_trans.
Qed.

(** Slices compare lexicographically. *)
Fixpoint cmp_list {A} `{Ord A} (l k : list A) : comparison :=
  match l, k with
  | [], [] => Eq | [], _ => Lt | _, [] => Gt
  | x :: l, y :: k => then_with (cmp x y) (cmp_list l k)
  end.
#[export] Instance list_ord {A} `{Ord A} : Ord (list A) := cmp_list.
Lemma cmp_cons {A} `{Ord A} (x y : A) l k : cmp (x :: l) (y :: k) = then_with (cmp x y) (cmp l k).
Proof. done. Qed.

#[export] Instance list_ord_laws {A} `{OrdLaws A} : OrdLaws (list A).
Proof.
  split.
  - intros l. induction l as [|x l IH]; intros [|y k]; try done.
    rewrite cmp_cons. unfold then_with. destruct (cmp x y) eqn:E.
    + apply cmp_eq_iff in E as ->. rewrite IH. naive_solver.
    + split; [done|]. intros [= -> ->]. by rewrite cmp_refl in E.
    + split; [done|]. intros [= -> ->]. by rewrite cmp_refl in E.
  - intros l. induction l as [|x l IH]; intros [|y k]; try done.
    rewrite !cmp_cons, (cmp_antisym x y), IH. by destruct (cmp x y).
  - intros l. induction l as [|x l IH]; intros [|y k] [|z m]; try done.
    rewrite !cmp_cons. unfold then_with. destruct (cmp x y) eqn:E12; [apply cmp_eq_iff in E12 as ->| |done].
    + destruct (cmp y z); [|done..]. apply IH.
    + destruct (cmp y z) eqn:E23; [apply cmp_eq_iff in E23 as ->| |done].
      * by rewrite E12.
      * by rewrite (cmp_lt_trans _ _ _ E12 E23).
Qed.

(** ** Stable sorting by a key *)

Section sort.
Context {A K : Type} `{Ord K} (key : A → K).

Fixpoint insert_on (x : A) (l : list A) : list A :=
  match l with
  | [] => [x]
  | y :: l' => match cmp (key x) (key y) with Gt => y :: insert_on x l' | _ => x :: l end
  end.

(** [v.sort_by(|l, r| key(l).cmp(&key(r)))]: equal keys keep their order. *)
Definition sort_on (l : list A) : list A := foldr insert_on [] l.

Definition key_le (x y : A) : Prop := ord_le (key x) (key y).
End sort.

Lemma StronglySorted_lookup {A} (R : A → A → Prop) l i j x y : StronglySorted R l → (i < j)%nat →
  l !! i = Some x → l !! j = Some y → R x y.
Proof.
  intros Hs. revert i j. induction Hs as [|z l Hs IH Hz]; intros i j Hij Hi Hj; [done|].
  destruct j as [|j]; [lia|]. destruct i as [|i]; simpl in *.
  - injection Hi as ->. rewrite list.Forall_forall in Hz. apply Hz. by eapply list_elem_of_lookup_2.
  - eapply (IH i j); [lia|done|done].
Qed.

Section sort_laws.
Context {A K : Type} `{OrdLaws K} (key : A → K).

#[export] Instance key_le_trans : Transitive (key_le key).
Proof. intros x y z. unfold key_le. apply transitivity. Qed.

Lemma insert_on_perm x l : insert_on key x l ≡ₚ x :: l.
Proof.
  induction l as [|y l IH]; simpl; [done|]. destruct (cmp _ _); [done..|].
  rewrite IH. apply Permutation_swap.
Qed.

Lemma sort_on_perm l : sort_on key l ≡ₚ l.
Proof. induction l as [|x l IH]; simpl; [done|]. by rewrite insert_on_perm, IH. Qed.

Lemma insert_on_sorted x l :
  StronglySorted (key_le key) l → StronglySorted (key_le key) (insert_on key x l).
Proof.
  induction 1 as [|y l Hl IH Hy]; simpl; [by repeat constructor|].
  destruct (cmp (key x) (key y)) eqn:E.
  1,2: assert (key_le key x y) as Hxy by (unfold key_le, ord_le; by rewrite E);
    constructor; [by constructor|constructor; [done|]];
    (eapply Forall_impl; [|exact Hy]); intros z Hz; by etrans.
  constructor; [done|]. rewrite insert_on_perm. constructor; [|done].
  unfold key_le, ord_le. rewrite (cmp_antisym (key x)), E. done.
Qed.

Lemma sort_on_sorted l : StronglySorted (key_le key) (sort_on key l).
Proof. induction l; simpl; [constructor|]. by apply insert_on_sorted. Qed.

Lemma elem_of_sort_on x l : x ∈ sort_on key l ↔ x ∈ l.
Proof. by rewrite sort_on_perm. Qed.

Lemma sort_on_sorted_id l : StronglySorted (key_le key) l → sort_on key l = l.
Proof.
  induction 1 as [|x l Hl IH Hx]; simpl; [done|]. rewrite IH.
  destruct l as [|y l]; simpl; [done|]. apply Forall_cons_1 in Hx as [Hxy _].
  unfold key_le, ord_le in Hxy. by destruct (cmp _ _).
Qed.

(** Two sorted arrangements of the same elements agree when elements with
    equal keys are equal. *)
Lemma sorted_perm_unique l k :
  (∀ x y, x ∈ l → y ∈ l → key x = key y → x = y) →
  StronglySorted (key_le key) l → StronglySorted (key_le key) k → l ≡ₚ k → l = k.
Proof.
  intros Hinj Hl. revert k Hinj. induction Hl as [|x l Hl IH Hx]; intros k Hinj Hk Hp.
  { by apply Permutation_nil_l in Hp as ->. }
  destruct Hk as [|y k Hk Hy]; [by apply Permutation_nil_r in Hp|].
  assert (x = y) as ->.
  { apply Hinj; [set_solver|rewrite Hp; set_solver|].
    apply (anti_symm ord_le).
    - assert (y ∈ x :: l) as Hin by (rewrite Hp; by left).
      apply elem_of_cons in Hin as [->|Hin]; [done|].
      rewrite Forall_forall in Hx. by apply Hx, list_elem_of_In.
    - assert (x ∈ y :: k) as Hin by (rewrite <-Hp; by left).
      apply elem_of_cons in Hin as [->|Hin]; [done|].
      rewrite Forall_forall in Hy. by apply Hy, list_elem_of_In. }
  f_equal. apply IH; [|done|by eapply Permutation_cons_inv].
  intros a b Ha Hb. apply Hinj; by right.
Qed.
End sort_laws.

(** [v.windows(2)]. *)
Definition windows2 {A} (l : list A) : list (A * A) := zip l (tail l).

(** [windows(2).any(|p| key(p[0]) == key(p[1]))] on a sorted vector finds a
    repeated key if there is one. *)
Section unique_keys.
Context {A K : Type} `{OrdLaws K, EqDecision K} (key : A → K).

Definition key_lt (x y : A) : Prop := ord_lt (key x) (key y).
Definition repeats_key (l : list A) : bool :=
  existsb (λ '(x, y), bool_decide (key x = key y)) (windows2 l).

Lemma key_le_lt_eq x y : key_le key x y → key x ≠ key y → key_lt x y.
Proof. unfold key_le, key_lt. rewrite ord_le_lt_eq. by intros [?|?]. Qed.

Lemma repeats_key_false l : StronglySorted (key_le key) l →
  repeats_key l = false ↔ StronglySorted key_lt l.
Proof.
  induction l as [|x [|y l] IH]; intros Hs;
    [split; [intros _; constructor|done]|split; [intros _; repeat constructor|done]|].
  inversion_clear Hs as [|? ? Hs' Hx]. specialize (IH Hs').
  unfold repeats_key in *. change (windows2 (x :: y :: l)) with ((x, y) :: windows2 (y :: l)).
  cbn [existsb]. rewrite orb_false_iff, bool_decide_eq_false, IH. split.
  - intros [Hne Hst]. constructor; [done|].
    assert (key_lt x y) as Hxy by (inversion_clear Hx; by apply key_le_lt_eq).
    constructor; [done|]. inversion_clear Hs' as [|? ? _ Hy].
    eapply Forall_impl; [|exact Hy]. intros w Hw.
    by apply (ord_lt_le_trans (key x) (key y) (key w)).
  - intros Hst. inversion_clear Hst as [|? ? Hst' Hlt]. split; [|done].
    inversion_clear Hlt as [|? ? Hxy _]. intros Heq. unfold key_lt in Hxy.
    rewrite Heq in Hxy. by apply ord_lt_irrefl in Hxy.
Qed.

Lemma key_lt_inj l x y : StronglySorted key_lt l → x ∈ l → y ∈ l → key x = key y → x = y.
Proof.
  intros Hs Hx Hy Hxy. induction Hs as [|z l Hs IH Hz]; [by apply not_elem_of_nil in Hx|].
  rewrite Forall_forall in Hz. unfold key_lt in Hz.
  apply elem_of_cons in Hx as [->|Hx], Hy as [->|Hy]; [done| | |by apply IH].
  - apply list_elem_of_In in Hy. specialize (Hz y Hy). rewrite Hxy in Hz. by apply ord_lt_irrefl in Hz.
  - apply list_elem_of_In in Hx. specialize (Hz x Hx). rewrite Hxy in Hz. by apply ord_lt_irrefl in Hz.
Qed.

Lemma sorted_repeats_NoDup l : StronglySorted (key_le key) l →
  repeats_key l = false ↔ NoDup (key <$> l).
Proof.
  intros Hs. rewrite repeats_key_false by done. split.
  - clear Hs. induction 1 as [|x k Hs IH Hx]; [constructor|].
    rewrite fmap_cons. constructor; [|done]. intros Hin. apply list_elem_of_fmap in Hin as (y & Heq & Hy).
    rewrite Forall_forall in Hx. apply list_elem_of_In in Hy. specialize (Hx y Hy). unfold key_lt in Hx.
    rewrite Heq in Hx. by apply ord_lt_irrefl in Hx.
  - induction Hs as [|x k Hs IH Hx]; [constructor|].
    rewrite fmap_cons. inversion_clear 1 as [|? ? Hni Hn]. constructor; [by apply IH|].
    apply Forall_forall. intros y Hy. rewrite Forall_forall in Hx. apply key_le_lt_eq; [by apply Hx|].
    intros Heq. apply Hni. rewrite Heq. apply list_elem_of_fmap_2. by apply list_elem_of_In.
Qed.

Lemma repeats_key_perm l : repeats_key (sort_on key l) = false ↔ NoDup (key <$> l).
Proof. rewrite sorted_repeats_NoDup by apply sort_on_sorted. by rewrite sort_on_perm. Qed.

(** Without repeated keys, sorting forgets the order of the input. *)
Lemma sort_on_unique l k : repeats_key (sort_on key l) = false → l ≡ₚ k → sort_on key k = sort_on key l.
Proof.
  intros Hr%repeats_key_false Hp; [|apply sort_on_sorted]. symmetry.
  apply (sorted_perm_unique key); [|apply sort_on_sorted..|by rewrite !sort_on_perm].
  intros x y Hx Hy. by apply (key_lt_inj (sort_on key l)).
Qed.
End unique_keys.

(** ** [BTreeMap]: a finite map iterated in key order *)

Section btree.
Context {K V : Type} `{Countable K, Ord K}.

Definition btree_entries (m : gmap K V) : list (K * V) := sort_on fst (map_to_list m).
Definition btree_values (m : gmap K V) : list V := (btree_entries m).*2.
Definition btree_keys (m : gmap K V) : list K := (btree_entries m).*1.
End btree.

Lemma elem_of_btree_entries {K V} `{Countable K, Ord K, !OrdLaws K} (m : gmap K V) k v :
  (k, v) ∈ btree_entries m ↔ m !! k = Some v.
Proof. unfold btree_entries. rewrite elem_of_sort_on. apply elem_of_map_to_list. Qed.

Lemma elem_of_btree_values {K V} `{Countable K, Ord K, !OrdLaws K} (m : gmap K V) v :
  v ∈ btree_values m ↔ ∃ k, m !! k = Some v.
Proof.
  unfold btree_values. rewrite list_elem_of_fmap. setoid_rewrite <-elem_of_btree_entries.
  split; [intros ([k w] & -> & Hin); eauto|intros [k Hin]; eexists (k, v); eauto].
Qed.

Lemma NoDup_btree_keys {K V} `{Countable K, Ord K, !OrdLaws K} (m : gmap K V) :
  NoDup (btree_keys m).
Proof.
  unfold btree_keys, btree_entries. rewrite sort_on_perm. apply NoDup_fst_map_to_list.
Qed.

Lemma elem_of_btree_keys {K V} `{Countable K, Ord K, !OrdLaws K} (m : gmap K V) k :
  k ∈ btree_keys m ↔ is_Some (m !! k).
Proof.
  unfold btree_keys. rewrite list_elem_of_fmap. split.
  - intros ([k' v] & -> & Hin%elem_of_btree_entries). by exists v.
  - intros [v Hv]. exists (k, v). split; [done|by apply elem_of_btree_entries].
Qed.

(** A check over every element, as [existsb] writes its negation. *)
Lemma existsb_false {A} (f : A → bool) l : existsb f l = false ↔ ∀ x, x ∈ l → f x = false.
Proof.
  induction l as [|y l IH]; simpl.
  - split; [by intros _ x ?%not_elem_of_nil|done].
  - rewrite orb_false_iff, IH. split; [intros [Hy Hl] x [->|Hx]%elem_of_cons; auto|].
    intros H. split; [apply H, list_elem_of_here|intros x Hx; by apply H, list_elem_of_further].
Qed.

(** Inserting the entries of a list with distinct keys, one after another. *)
Lemma foldl_insert_map {K V} `{Countable K} (l : list (K * V)) m i : NoDup l.*1 →
  foldl (λ m '(i, v), <[i := v]> m) m l !! i = (list_to_map l ∪ m : gmap K V) !! i.
Proof.
  revert m. induction l as [|[j v] l IH]; intros m Hn; simpl; [by rewrite (left_id_L ∅ (∪))|].
  inversion_clear Hn as [|? ? Hj Hn']. rewrite IH by done. rewrite lookup_union.
  destruct (decide (i = j)) as [->|Hne].
  - rewrite (not_elem_of_list_to_map_1 l j) by done. rewrite lookup_insert_eq, lookup_union, lookup_insert_eq. by destruct (m !! j).
  - by rewrite lookup_insert_ne, lookup_union, lookup_insert_ne by done.
Qed.

Lemma foldl_insert_btree {K V} `{Countable K, Ord K, !OrdLaws K} (s m : gmap K V) :
  foldl (λ m '(i, v), <[i := v]> m) m (btree_entries s) = s ∪ m.
Proof.
  assert (Hn : NoDup (btree_entries s).*1) by apply NoDup_btree_keys.
  apply map_eq. intros i. rewrite foldl_insert_map by done. rewrite !lookup_union. f_equal.
  apply option_eq. intros v. rewrite <-elem_of_list_to_map by done. apply elem_of_btree_entries.
Qed.
