(* ===== verification/Text.v ===== *)
(** Decimal text: the digit scanning, zero-padded formatting ([{n}], [{n:0w}])
    and digit evaluation that the parsers and [Display] impls of market-types share. *)
From S2P Require Import Prelude.

(** ** Scanning *)

(** [while bytes.get(cursor).is_some_and(p) { cursor += 1 }]: the scanned
    prefix and what is left at the cursor. *)
Fixpoint span {A} (p : A → bool) (l : list A) : list A * list A :=
  match l with
  | [] => ([], [])
  | x :: l' => if p x then let '(a, b) := span p l' in (x :: a, b) else ([], l)
  end.

(** [bytes.get(start..end)]: [None] when the range leaves the slice. *)
Definition slice_get {A} (l : list A) (lo hi : Z) : option (list A) :=
  if (0 <=? lo) && (lo <=? hi) && (hi <=? zlen l)
  then Some (take (Z.to_nat (hi - lo)) (drop (Z.to_nat lo) l)) else None.

Definition starts_with_stop {A} (p : A → bool) (l : list A) : Prop :=
  match l with [] => True | x :: _ => p x = false end.

Lemma span_app {A} (p : A → bool) l r :
  Forall (λ x, p x = true) l → starts_with_stop p r → span p (l ++ r) = (l, r).
Proof.
  intros Hl Hr. induction Hl as [|x l Hx _ IH]; simpl.
  - destruct r as [|x r]; simpl in *; [done|]. by rewrite Hr.
  - by rewrite Hx, IH.
Qed.

Lemma span_spec {A} (p : A → bool) l a b :
  span p l = (a, b) → l = a ++ b ∧ Forall (λ x, p x = true) a ∧ starts_with_stop p b.
Proof.
  revert a b. induction l as [|x l IH]; intros a b; simpl.
  - intros [= <- <-]. repeat constructor.
  - destruct (p x) eqn:Hx.
    + destruct (span p l) as [a' b']. intros [= <- <-].
      destruct (IH a' b') as (-> & ? & ?); [done|]. repeat constructor; auto.
    + intros [= <- <-]. repeat constructor; auto.
Qed.

(** ** Digit values *)

Definition is_digit_byte (b : Z) : Prop := is_ascii_digit b = true.

(** [fold(0, |value, digit| value * 10 + (digit - b'0'))]. *)
Definition dec_value (ds : list Z) : Z := foldl (λ v d, v * 10 + digit_value d) 0 ds.

(** The [w]-digit decimal text of [n]. *)
Fixpoint fixed_digits (w : nat) (n : Z) : list Z :=
  match w with
  | O => []
  | S w => (n / 10 ^ Z.of_nat w) mod 10 + 48 :: fixed_digits w n
  end.

(** [{n}] for a non-negative integer; 39 digits hold every 128-bit value. *)
Fixpoint dec_digits_fuel (fuel : nat) (n : Z) : list Z :=
  match fuel with
  | O => []
  | S fuel => if n <? 10 then [n + 48] else dec_digits_fuel fuel (n / 10) ++ [n mod 10 + 48]
  end.
Definition dec_digits (n : Z) : list Z := dec_digits_fuel 39 n.

(** [{n:0w}]: zero-padded to at least [w] characters. *)
Definition pad_zero (w : nat) (n : Z) : list Z :=
  let ds := dec_digits n in replicate (w - length ds) 48 ++ ds.

(** [trim_end_matches('0')]. *)
Fixpoint trim_end_zeros (ds : list Z) : list Z :=
  match ds with
  | [] => []
  | d :: ds' => match trim_end_zeros ds' with
                | [] => if d =? 48 then [] else [d]
                | t => d :: t
                end
  end.

Lemma digit_value_range b : is_digit_byte b → 0 ≤ digit_value b ≤ 9.
Proof. unfold is_digit_byte, is_ascii_digit, digit_value, in_range. lia. Qed.

Lemma is_digit_mod n : is_digit_byte (n mod 10 + 48).
Proof.
  unfold is_digit_byte, is_ascii_digit, in_range. pose proof (Z.mod_pos_bound n 10). lia.
Qed.

Lemma foldl_dec_acc ds acc :
  foldl (λ v d, v * 10 + digit_value d) acc ds = acc * 10 ^ Z.of_nat (length ds) + dec_value ds.
Proof.
  unfold dec_value. revert acc. induction ds as [|d ds IH]; intros acc; cbn [foldl length].
  - rewrite Z.pow_0_r. lia.
  - rewrite IH, (IH (0 * 10 + _)), Nat2Z.inj_succ, Z.pow_succ_r by lia. lia.
Qed.

Lemma dec_value_cons d ds : dec_value (d :: ds) = digit_value d * 10 ^ Z.of_nat (length ds) + dec_value ds.
Proof. unfold dec_value at 1. cbn [foldl]. by rewrite foldl_dec_acc. Qed.

Lemma dec_value_app ds es : dec_value (ds ++ es) = dec_value ds * 10 ^ Z.of_nat (length es) + dec_value es.
Proof. unfold dec_value at 1. rewrite foldl_app. by rewrite foldl_dec_acc. Qed.

Lemma dec_value_range ds : Forall is_digit_byte ds → 0 ≤ dec_value ds < 10 ^ Z.of_nat (length ds).
Proof.
  induction 1 as [|d ds Hd _ IH]; [done|]. rewrite dec_value_cons. cbn [length].
  rewrite Nat2Z.inj_succ, Z.pow_succ_r by lia. pose proof (digit_value_range _ Hd). nia.
Qed.

Lemma length_fixed_digits w n : length (fixed_digits w n) = w.
Proof. induction w; simpl; congruence. Qed.

Lemma fixed_digits_digits w n : Forall is_digit_byte (fixed_digits w n).
Proof. induction w; simpl; constructor; [apply is_digit_mod|done]. Qed.

Lemma dec_value_fixed_mod w n : dec_value (fixed_digits w n) = n mod 10 ^ Z.of_nat w.
Proof.
  induction w as [|w IH]; [by rewrite Z.mod_1_r|].
  cbn [fixed_digits]. rewrite dec_value_cons, length_fixed_digits, IH.
  unfold digit_value. rewrite Nat2Z.inj_succ, Z.pow_succ_r, (Z.mul_comm 10) by lia.
  rewrite Z.rem_mul_r by lia. lia.
Qed.

Lemma dec_value_fixed w n : 0 ≤ n < 10 ^ Z.of_nat w → dec_value (fixed_digits w n) = n.
Proof. intros. by rewrite dec_value_fixed_mod, Z.mod_small. Qed.

Lemma fixed_digits_snoc w n : fixed_digits (S w) n = fixed_digits w (n / 10) ++ [n mod 10 + 48].
Proof.
  induction w as [|w IH]; [cbn; by rewrite Z.div_1_r|].
  cbn [fixed_digits app] in *. rewrite IH. cbn [app]. f_equal.
  rewrite Nat2Z.inj_succ, Z.pow_succ_r, Z.div_div by lia. done.
Qed.

(** [dec_digits] is the shortest decimal text: no leading zero. *)
Lemma dec_digits_fuel_spec fuel n : 0 ≤ n < 10 ^ Z.of_nat fuel → (0 < fuel)%nat →
  ∃ w, dec_digits_fuel fuel n = fixed_digits (S w) n ∧ n < 10 ^ Z.of_nat (S w) ∧
       (w = 0%nat ∨ 10 ^ Z.of_nat w ≤ n).
Proof.
  revert n. induction fuel as [|fuel IH]; intros n Hn Hf; [lia|]. cbn [dec_digits_fuel].
  destruct (Z.ltb_spec n 10) as [Hlt|Hge].
  { exists 0%nat. split; [|split; [simpl; lia|by left]].
    cbn [fixed_digits]. rewrite Z.div_1_r, Z.mod_small by lia. done. }
  rewrite Nat2Z.inj_succ, Z.pow_succ_r in Hn by lia.
  destruct (IH (n / 10)) as (w & Hd & Hhi & Hlo).
  { split; [apply Z.div_pos; lia|apply Z.div_lt_upper_bound; lia]. }
  { destruct fuel; [simpl in Hn; lia|lia]. }
  exists (S w). rewrite Hd, (fixed_digits_snoc (S w)). split; [done|].
  rewrite (Nat2Z.inj_succ (S w)), (Z.pow_succ_r 10 (Z.of_nat (S w))) by lia.
  pose proof (Z.div_mod n 10 ltac:(lia)). pose proof (Z.mod_pos_bound n 10 ltac:(lia)).
  split; [lia|]. right. destruct Hlo as [->|Hlo]; [simpl; lia|].
  rewrite Nat2Z.inj_succ, Z.pow_succ_r by lia. lia.
Qed.

Lemma dec_digits_spec n : 0 ≤ n ≤ u128_max →
  ∃ w, dec_digits n = fixed_digits (S w) n ∧ n < 10 ^ Z.of_nat (S w) ∧
       (w = 0%nat ∨ 10 ^ Z.of_nat w ≤ n).
Proof. intros. apply dec_digits_fuel_spec; [|lia]. unfold u128_max in *. lia. Qed.

Lemma fixed_digits_pad w k n : 0 ≤ n < 10 ^ Z.of_nat w →
  fixed_digits (k + w) n = replicate k 48 ++ fixed_digits w n.
Proof.
  intros Hn. induction k as [|k IH]; [done|]. cbn [Nat.add fixed_digits replicate app].
  rewrite IH. f_equal. rewrite Z.div_small; [done|].
  split; [lia|]. eapply Z.lt_le_trans; [apply Hn|]. apply Z.pow_le_mono_r; lia.
Qed.

(** A value below [10^w] is printed by [{:0w}] with exactly [w] digits. *)
Lemma pad_zero_fixed w n : (0 < w)%nat → 0 ≤ n < 10 ^ Z.of_nat w → n ≤ u128_max →
  pad_zero w n = fixed_digits w n.
Proof.
  intros Hw Hn Hmax. unfold pad_zero. destruct (dec_digits_spec n) as (v & -> & Hhi & Hlo); [lia|].
  rewrite length_fixed_digits.
  assert (S v ≤ w)%nat.
  { destruct Hlo as [->|Hlo]; [lia|]. destruct (decide (S v ≤ w)%nat); [done|].
    pose proof (Z.pow_le_mono_r 10 (Z.of_nat w) (Z.of_nat v) ltac:(lia) ltac:(lia)). lia. }
  rewrite <-fixed_digits_pad by lia. f_equal. lia.
Qed.

(** ** Trimming *)

Lemma trim_end_zeros_app ds : ∃ k, ds = trim_end_zeros ds ++ replicate k 48.
Proof.
  induction ds as [|d ds [k Hk]]; [by exists 0%nat|]. cbn [trim_end_zeros].
  destruct (trim_end_zeros ds) as [|t ts]; simpl in *.
  - destruct (Z.eqb_spec d 48) as [->|]; [exists (S k)|exists k]; simpl; by rewrite Hk at 1.
  - exists k. simpl. by rewrite Hk at 1.
Qed.

Lemma dec_value_zeros k : dec_value (replicate k 48) = 0.
Proof. induction k as [|k IH]; [done|]. cbn [replicate]. rewrite dec_value_cons, IH. done. Qed.

Lemma dec_value_trim ds :
  dec_value ds = dec_value (trim_end_zeros ds) * 10 ^ Z.of_nat (length ds - length (trim_end_zeros ds)).
Proof.
  destruct (trim_end_zeros_app ds) as [k Hk].
  assert (length ds - length (trim_end_zeros ds) = k)%nat as ->.
  { rewrite Hk at 1. rewrite length_app, length_replicate. lia. }
  rewrite Hk at 1. rewrite dec_value_app, dec_value_zeros, length_replicate. lia.
Qed.

Lemma trim_end_zeros_length ds : (length (trim_end_zeros ds) ≤ length ds)%nat.
Proof. destruct (trim_end_zeros_app ds) as [k Hk]. rewrite Hk at 2. rewrite length_app. lia. Qed.

Lemma trim_end_zeros_digits ds : Forall is_digit_byte ds → Forall is_digit_byte (trim_end_zeros ds).
Proof.
  destruct (trim_end_zeros_app ds) as [k Hk]. intros H. rewrite Hk in H. by apply Forall_app in H as [? _].
Qed.

Lemma trim_end_zeros_nil ds : trim_end_zeros ds = [] → dec_value ds = 0.
Proof. intros H. rewrite dec_value_trim, H. done. Qed.

Lemma dec_value_zero ds : Forall is_digit_byte ds →
  dec_value ds = 0 ↔ forallb (λ d, d =? 48) ds = true.
Proof.
  intros Hds. split.
  - induction Hds as [|d ds Hd Hds IH]; [done|]. rewrite dec_value_cons. cbn [forallb].
    pose proof (digit_value_range _ Hd). pose proof (dec_value_range _ Hds). intros Hz.
    assert (0 < 10 ^ Z.of_nat (length ds)) by lia.
    assert (digit_value d = 0) by nia. rewrite IH by lia. unfold digit_value in *. lia.
  - intros H. clear Hds. induction ds as [|d ds IH]; [done|]. cbn [forallb] in H.
    rewrite dec_value_cons. apply andb_prop in H as [->%Z.eqb_eq H]. rewrite IH by done. done.
Qed.

Lemma fixed_digits_dec_value ds : Forall is_digit_byte ds → fixed_digits (length ds) (dec_value ds) = ds.
Proof.
  induction 1 as [|d ds Hd Hds IH]; [done|]. cbn [length fixed_digits]. rewrite dec_value_cons.
  pose proof (dec_value_range _ Hds) as Hr. pose proof (digit_value_range _ Hd).
  rewrite Z.div_add_l, (Z.div_small (dec_value ds)), Z.add_0_r, Z.mod_small by lia.
  f_equal; [unfold digit_value; lia|].
  assert (∀ k v w, fixed_digits k (v * 10 ^ Z.of_nat k + w) = fixed_digits k w) as Hadd; [|by rewrite Hadd].
  clear. intros k. induction k as [|k IH]; intros v w; [done|]. cbn [fixed_digits].
  rewrite Nat2Z.inj_succ, Z.pow_succ_r by lia.
  replace (v * (10 * 10 ^ Z.of_nat k)) with (v * 10 * 10 ^ Z.of_nat k) by lia.
  rewrite IH, Z.div_add_l, (Z.add_comm (v * 10)), Z.mod_add by lia. done.
Qed.

Lemma forallb_digits ds : forallb is_ascii_digit ds = true ↔ Forall is_digit_byte ds.
Proof.
  induction ds as [|d ds IH]; simpl; [by split|].
  rewrite andb_true_iff, IH. split; [by intros [? ?]; constructor|by inversion 1].
Qed.

(** * Hex

    Hexadecimal texts of digests (data-sync/src/lib.rs and the copies of it in
    providers/teralion). *)

Module Hex.

(** [DIGITS[(byte >> 4)]], [DIGITS[(byte & 0x0f)]]. *)
Definition hex_digit (d : Z) : Z := if d <? 10 then 48 + d else 87 + d.
Definition hex (bytes : list Z) : list Z := bytes ≫= λ b, [hex_digit (Z.shiftr b 4); hex_digit (Z.land b 15)].

(** data-sync takes digits of either case, the cursor only lower-case ones. *)
Definition decode_nibble (upper : bool) (v : Z) : option Z :=
  if in_range 48 57 v then Some (v - 48) else
  if in_range 97 102 v then Some (v - 97 + 10) else
  if upper && in_range 65 70 v then Some (v - 65 + 10) else None.
Fixpoint decode_pairs (upper : bool) (text : list Z) : option (list Z) :=
  match text with
  | hi :: lo :: text => h ← decode_nibble upper hi; l ← decode_nibble upper lo; rest ← decode_pairs upper text; Some (Z.lor (Z.shiftl h 4) l :: rest)
  | _ => Some []
  end.
Definition decode_hex_32 (upper : bool) (value : list Z) : option (list Z) :=
  if zlen value =? 64 then decode_pairs upper value else None.

(** ** Round trips *)

Definition is_byte (b : Z) : Prop := 0 ≤ b ≤ u8_max.
Definition is_digest (l : list Z) : Prop := length l = 32%nat ∧ Forall is_byte l.
(** The texts [hex] writes. *)
Definition is_hex_byte (c : Z) : Prop := in_range 48 57 c = true ∨ in_range 97 102 c = true.

Lemma nibbles b : is_byte b → 0 ≤ Z.shiftr b 4 < 16 ∧ 0 ≤ Z.land b 15 < 16 ∧ Z.lor (Z.shiftl (Z.shiftr b 4) 4) (Z.land b 15) = b.
Proof.
  unfold is_byte, u8_max. intros Hb.
  assert (Hall : forallb (λ b, in_range 0 15 (Z.shiftr b 4) && in_range 0 15 (Z.land b 15) &&
                            (Z.lor (Z.shiftl (Z.shiftr b 4) 4) (Z.land b 15) =? b)) (seqZ 0 256) = true) by (vm_compute; reflexivity).
  assert (Hin : In b (seqZ 0 256)) by (apply list_elem_of_In, elem_of_seqZ; lia). apply (proj1 (forallb_forall _ _) Hall) in Hin.
  unfold in_range in Hin. lia.
Qed.

Lemma hex_digit_ok u d : 0 ≤ d < 16 → decode_nibble u (hex_digit d) = Some d ∧ is_hex_byte (hex_digit d).
Proof. intros Hd. unfold decode_nibble, hex_digit, is_hex_byte, in_range. split; repeat case_match; lia || (f_equal; lia). Qed.

Lemma hex_cons b l : hex (b :: l) = hex_digit (Z.shiftr b 4) :: hex_digit (Z.land b 15) :: hex l.
Proof. done. Qed.

Lemma decode_pairs_hex u l : Forall is_byte l → decode_pairs u (hex l) = Some l.
Proof.
  induction 1 as [|b l Hb _ IH]; [done|]. rewrite hex_cons. destruct (nibbles b Hb) as (H1 & H2 & H3). simpl.
  rewrite (proj1 (hex_digit_ok u _ H1)), (proj1 (hex_digit_ok u _ H2)). simpl. rewrite IH. simpl. by rewrite H3.
Qed.
Lemma length_hex l : length (hex l) = (2 * length l)%nat.
Proof. induction l as [|b l IH]; [done|]. rewrite hex_cons. simpl. lia. Qed.

Lemma decode_hex u l : is_digest l → decode_hex_32 u (hex l) = Some l.
Proof.
  intros [Hlen Hb]. unfold decode_hex_32, zlen. rewrite length_hex, Hlen. simpl. by apply decode_pairs_hex.
Qed.
Lemma hex_inj l k : Forall is_byte l → Forall is_byte k → hex l = hex k → l = k.
Proof. intros Hl Hk E. pose proof (decode_pairs_hex true l Hl) as H. rewrite E, decode_pairs_hex in H by done. congruence. Qed.
Lemma hex_bytes l : Forall is_byte l → Forall is_hex_byte (hex l).
Proof.
  induction 1 as [|b l Hb _ IH]; [constructor|]. rewrite hex_cons. destruct (nibbles b Hb) as (H1 & H2 & _).
  constructor; [by apply (hex_digit_ok true)|]. constructor; [by apply (hex_digit_ok true)|done].
Qed.

End Hex.
