(* ===== verification/Numeric.v ===== *)
(** Exact numbers of market-types: the fixed-scale [Decimal] (decimal.rs) with
    its checked arithmetic and its text form. *)
From S2P Require Import Prelude Order Text.

(** ** decimal.rs *)
Module Decimal.

Definition DECIMAL_SCALE : Z := 18.
Definition DECIMAL_SCALE_FACTOR : Z := 1000000000000000000.

(** [struct Decimal(i128)]: signed 10^-18 atoms. *)
Record Decimal : Set := from_atoms { atoms : Z }.

Inductive DecimalError : Set := InvalidFormat | PrecisionLoss | OutOfRange.

#[global] Instance Decimal_eq_dec : EqDecision Decimal.
Proof. solve_decision. Defined.
#[global] Instance DecimalError_eq_dec : EqDecision DecimalError.
Proof. solve_decision. Defined.
#[global] Instance Decimal_ord : Ord Decimal := cmp_on atoms.
#[global] Instance atoms_inj : Inj (=) (=) atoms.
Proof. by intros [] [] [= ->]. Qed.
#[global] Instance Decimal_ord_laws : OrdLaws Decimal.
Proof. apply cmp_on_laws, _. Qed.

(** The invariant of the [i128] field. *)
Definition wf (d : Decimal) : Prop := is_i128 (atoms d).

Definition ZERO : Decimal := from_atoms 0.

Definition to_canonical_bytes (d : Decimal) : list Z := be_bytes 16 (atoms d).

Definition checked_add (d rhs : Decimal) : result DecimalError Decimal :=
  ok_or (from_atoms <$> to_i128 (atoms d + atoms rhs)) OutOfRange.
Definition checked_sub (d rhs : Decimal) : result DecimalError Decimal :=
  ok_or (from_atoms <$> to_i128 (atoms d - atoms rhs)) OutOfRange.
Definition checked_neg (d : Decimal) : result DecimalError Decimal :=
  ok_or (from_atoms <$> to_i128 (- atoms d)) OutOfRange.

(** [impl Display for Decimal]. *)
Definition display (d : Decimal) : list Z :=
  let magnitude := Z.abs (atoms d) in
  let integer := magnitude / DECIMAL_SCALE_FACTOR in
  let fraction := magnitude mod DECIMAL_SCALE_FACTOR in
  (if atoms d <? 0 then [45] else []) ++ dec_digits integer ++
  (if fraction =? 0 then [] else 46 :: trim_end_zeros (pad_zero 18 fraction)).

(** One digit of the accumulation loops: [checked_mul(10)] then [checked_add]. *)
Definition push_digit (to_int : Z → option Z) (magnitude digit : Z) : result DecimalError Z :=
  m ← ok_or (to_int (magnitude * 10)) OutOfRange;
  ok_or (to_int (m + digit_value digit)) OutOfRange.

Definition take_sign (bytes : list Z) : bool * list Z :=
  match bytes with
  | b :: rest => if b =? 45 then (true, rest) else if b =? 43 then (false, rest) else (false, bytes)
  | [] => (false, bytes)
  end.

(** Returns the exponent and the bytes at the next cursor. *)
Definition parse_exponent (bytes : list Z) : result DecimalError (Z * list Z) :=
  let '(negative, rest) := take_sign bytes in
  let '(ds, rest) := span is_ascii_digit rest in
  magnitude ← try_fold (push_digit to_u64) 0 ds;
  reject (bool_decide (ds = [])) with InvalidFormat;;
  exponent ←
    (if (negative : bool) then
       if magnitude =? i64_max + 1 then Ok (- i64_max - 1)
       else m ← ok_or (to_i64 magnitude) OutOfRange; Ok (- m)
     else ok_or (to_i64 magnitude) OutOfRange);
  Ok (exponent, rest).

Definition signed_atoms (magnitude : Z) (negative : bool) : result DecimalError Z :=
  if negative then
    if magnitude =? 2 ^ 127 then Ok (- i128_max - 1)
    else if magnitude <=? i128_max then Ok (- magnitude)
    else Err OutOfRange
  else ok_or (to_i128 magnitude) OutOfRange.

(** [for _ in 0..atom_shift { magnitude = magnitude.checked_mul(10)? }]. *)
Fixpoint scale_up (n : nat) (magnitude : Z) : result DecimalError Z :=
  match n with
  | O => Ok magnitude
  | S n => m ← ok_or (to_u128 (magnitude * 10)) OutOfRange; scale_up n m
  end.

(** How many leading digits survive a negative shift. *)
Definition retain_digits (digits : list Z) (atom_shift : Z) : result DecimalError nat :=
  let total_digits := zlen digits in
  if atom_shift <? 0 then
    let removed_digits := - atom_shift in
    reject (total_digits <? removed_digits) with PrecisionLoss;;
    let retained := Z.to_nat (total_digits - removed_digits) in
    reject (existsb (λ d, negb (d =? 48)) (drop retained digits)) with PrecisionLoss;;
    Ok retained
  else Ok (length digits).

(** The tail of [parse_decimal]: [atom_shift] powers of ten applied to the digits. *)
Definition digits_to_decimal (negative : bool) (digits : list Z) (atom_shift : Z)
    : result DecimalError Decimal :=
  if forallb (λ d, d =? 48) digits then Ok ZERO else
  _ ← ok_or (to_usize (zlen digits)) OutOfRange;
  retained_digits ← retain_digits digits atom_shift;
  magnitude ← try_fold (push_digit to_u128) 0 (take retained_digits digits);
  reject (38 <? atom_shift) with OutOfRange;;
  magnitude ← scale_up (Z.to_nat atom_shift) magnitude;
  from_atoms <$> signed_atoms magnitude negative.

Definition parse_decimal (bytes : list Z) : result DecimalError Decimal :=
  reject (bool_decide (bytes = [])) with InvalidFormat;;
  let '(negative, rest) := take_sign bytes in
  let '(integer_digits, rest) := span is_ascii_digit rest in
  let '(fraction_digits, rest) :=
    match rest with
    | b :: rest' => if b =? 46 then span is_ascii_digit rest' else ([], rest)
    | [] => ([], rest)
    end in
  reject (bool_decide (integer_digits = [] ∧ fraction_digits = [])) with InvalidFormat;;
  '(exponent, rest) ←
    match rest with
    | b :: rest' => if (b =? 101) || (b =? 69) then parse_exponent rest' else Ok (0, rest)
    | [] => Ok (0, rest)
    end;
  reject (negb (bool_decide (rest = []))) with InvalidFormat;;
  fraction_length ← ok_or (to_i64 (zlen fraction_digits)) OutOfRange;
  shifted ← ok_or (to_i64 (DECIMAL_SCALE + exponent)) OutOfRange;
  atom_shift ← ok_or (to_i64 (shifted - fraction_length)) OutOfRange;
  digits_to_decimal negative (integer_digits ++ fraction_digits) atom_shift.

(** [Decimal::parse], [FromStr], [TryFrom<&str>]. *)
Definition parse (input : list Z) : result DecimalError Decimal := parse_decimal input.

Example parse_ex1 : parse (bytes_of "-12.50") = Ok (from_atoms (-12500000000000000000)).
Proof. reflexivity. Qed.
Example parse_ex2 : parse (bytes_of "1.25e-17") = Err PrecisionLoss.
Proof. reflexivity. Qed.
Example display_ex1 : display (from_atoms (-12500000000000000000)) = bytes_of "-12.5".
Proof. reflexivity. Qed.

(** *** What a text denotes

    The abstract specification of parsing: a text is a sign, integer digits,
    an optional fraction and an optional exponent, and it denotes the atoms [a]
    when [a] is exactly the value it writes. *)

Definition sign_text (sg : list Z) (negative : bool) : Prop :=
  (sg = [45] ∧ negative = true) ∨ ((sg = [] ∨ sg = [43]) ∧ negative = false).
Definition signed (negative : bool) (z : Z) : Z := if negative then - z else z.
Definition exponent_text (ep : list Z) (e : Z) : Prop :=
  (ep = [] ∧ e = 0) ∨
  ∃ c sg negative ds, ep = c :: sg ++ ds ∧ (c = 101 ∨ c = 69) ∧ sign_text sg negative ∧
    Forall is_digit_byte ds ∧ ds ≠ [] ∧ e = signed negative (dec_value ds).
Definition decimal_text (s : list Z) (negative : bool) (I F : list Z) (e : Z) : Prop :=
  ∃ sg fp ep, s = sg ++ I ++ fp ++ ep ∧ sign_text sg negative ∧
    Forall is_digit_byte I ∧ Forall is_digit_byte F ∧ (I ≠ [] ∨ F ≠ []) ∧
    (fp = [] ∧ F = [] ∨ fp = 46 :: F) ∧ exponent_text ep e.

(** Multiplying out the powers of ten on both sides keeps the equation in [Z]. *)
Definition exact_atoms (negative : bool) (I F : list Z) (e a : Z) : Prop :=
  let shift := DECIMAL_SCALE + e - zlen F in
  a * 10 ^ Z.max 0 (- shift) = signed negative (dec_value (I ++ F)) * 10 ^ Z.max 0 shift.
Lemma take_sign_spec s negative rest :
  take_sign s = (negative, rest) → ∃ sg, s = sg ++ rest ∧ sign_text sg negative.
Proof.
  unfold take_sign, sign_text. destruct s as [|b s]; [intros [= <- <-]; exists []; naive_solver|].
  destruct (Z.eqb_spec b 45) as [->|]; [intros [= <- <-]; exists [45]; naive_solver|].
  destruct (Z.eqb_spec b 43) as [->|]; intros [= <- <-]; [exists [43]|exists []]; naive_solver.
Qed.

Lemma take_sign_app sg negative rest : sign_text sg negative →
  starts_with_stop (λ b, (b =? 45) || (b =? 43)) rest → take_sign (sg ++ rest) = (negative, rest).
Proof.
  intros [[-> ->]|[[-> | ->] ->]]; [done| |done]. destruct rest as [|b rest]; [done|].
  simpl. by destruct (b =? 45), (b =? 43).
Qed.

Lemma push_digit_Ok hi acc d m : is_digit_byte d → 0 ≤ acc →
  push_digit (checked 0 hi) acc d = Ok m ↔ m = acc * 10 + digit_value d ∧ m ≤ hi.
Proof.
  intros Hd Hacc. pose proof (digit_value_range _ Hd). unfold push_digit. rewrite bind_Ok.
  split.
  - intros (m' & Hm' & Hm). simplify_res. lia.
  - intros [-> Hm]. exists (acc * 10). by rewrite !checked_in by lia.
Qed.

Lemma push_digits_Ok hi acc ds v : 0 ≤ acc ≤ hi → Forall is_digit_byte ds →
  try_fold (push_digit (checked 0 hi)) acc ds = Ok v ↔
  v = acc * 10 ^ Z.of_nat (length ds) + dec_value ds ∧ v ≤ hi.
Proof.
  intros Hacc Hds. revert acc Hacc. induction Hds as [|d ds Hd Hds IH]; intros acc Hacc.
  { cbn. rewrite Z.pow_0_r. split; [intros [= <-]; lia|intros [-> _]; f_equal; unfold dec_value; cbn; lia]. }
  cbn [try_fold length]. rewrite bind_Ok.
  pose proof (digit_value_range _ Hd). pose proof (dec_value_range _ Hds).
  rewrite dec_value_cons, Nat2Z.inj_succ, Z.pow_succ_r by lia.
  set (P := 10 ^ Z.of_nat (length ds)) in *. split.
  - intros (m & Hm & Hv). apply push_digit_Ok in Hm as [-> Hm]; [|done|lia].
    rewrite IH in Hv by lia. lia.
  - intros [-> Hv]. assert (acc * 10 + digit_value d ≤ hi) by nia.
    exists (acc * 10 + digit_value d). rewrite push_digit_Ok, IH by (done || lia). lia.
Qed.

Lemma scale_up_Ok n m v : 0 ≤ m ≤ u128_max →
  scale_up n m = Ok v ↔ v = m * 10 ^ Z.of_nat n ∧ v ≤ u128_max.
Proof.
  revert m. induction n as [|n IH]; intros m Hm.
  { cbn. rewrite Z.pow_0_r, Z.mul_1_r. split; [intros [= <-]; lia|by intros [-> _]]. }
  cbn [scale_up]. rewrite Nat2Z.inj_succ, Z.pow_succ_r by lia.
  destruct (to_u128 (m * 10)) as [m'|] eqn:E; simpl.
  - apply checked_Some in E as [-> E]. rewrite IH by lia. split; intros [-> ?]; split; lia.
  - apply checked_None in E. split; [done|]. intros [-> ?]. nia.
Qed.

Lemma signed_atoms_Ok m negative a : 0 ≤ m →
  signed_atoms m negative = Ok a ↔ a = signed negative m ∧ is_i128 a.
Proof.
  intros Hm. unfold signed_atoms, signed, is_i128.
  assert (0 ≤ i128_max) by (unfold i128_max; lia). destruct negative.
  - change (2 ^ 127) with (i128_max + 1).
    destruct (Z.eqb_spec m (i128_max + 1)); [|destruct (Z.leb_spec m i128_max)].
    + split; [intros [= <-]; lia|intros [-> ?]; f_equal; lia].
    + split; [intros [= <-]; lia|intros [-> ?]; done].
    + split; [done|]. lia.
  - destruct (to_i128 m) as [m'|] eqn:E; simpl.
    + apply checked_Some in E as [-> E]. split; [intros [= <-]; done|by intros [-> ?]].
    + apply checked_None in E. split; [done|]. intros [-> ?]. lia.
Qed.

Lemma existsb_nonzero l : existsb (λ d, negb (d =? 48)) l = negb (forallb (λ d, d =? 48) l).
Proof. induction l as [|d l IH]; simpl; [done|]. rewrite IH. by destruct (d =? 48). Qed.

Lemma dec_value_take_drop r ds : dec_value ds =
  dec_value (take r ds) * 10 ^ zlen (drop r ds) + dec_value (drop r ds).
Proof. rewrite <-(take_drop r ds) at 1. apply dec_value_app. Qed.

(** Keeping digits under a negative shift never loses value, and fails exactly
    when the shift does not divide it. *)
Lemma retain_digits_Ok ds shift r : Forall is_digit_byte ds → retain_digits ds shift = Ok r →
  (r ≤ length ds)%nat ∧ dec_value ds = dec_value (take r ds) * 10 ^ Z.max 0 (- shift).
Proof.
  intros Hds. unfold retain_digits. destruct (Z.ltb_spec shift 0) as [Hs|Hs].
  - intros H. simplify_res. rewrite existsb_nonzero in Hc0. apply negb_false_iff in Hc0.
    unfold zlen in *. split; [lia|]. rewrite (dec_value_take_drop (Z.to_nat (Z.of_nat (length ds) - - shift)) ds) at 1.
    rewrite (proj2 (dec_value_zero _ (Forall_drop _ _ _ Hds))) by done.
    unfold zlen. rewrite length_drop, Z.max_r by lia. rewrite Z.add_0_r. do 2 f_equal. lia.
  - intros [= <-]. split; [done|]. rewrite firstn_all, Z.max_l by lia. lia.
Qed.

Lemma retain_digits_complete ds shift : Forall is_digit_byte ds → dec_value ds ≠ 0 →
  (∃ q, dec_value ds = q * 10 ^ Z.max 0 (- shift)) → ∃ r, retain_digits ds shift = Ok r.
Proof.
  intros Hds Hnz [q Hq]. unfold retain_digits. destruct (Z.ltb_spec shift 0) as [Hs|Hs]; [|by eexists].
  rewrite Z.max_r in Hq by lia. pose proof (dec_value_range _ Hds) as Hr. unfold zlen.
  destruct (Z.ltb_spec (Z.of_nat (length ds)) (- shift)) as [Hlt|Hle].
  { pose proof (Z.pow_le_mono_r 10 (Z.of_nat (length ds)) (- shift) ltac:(lia) ltac:(lia)).
    exfalso. assert (q ≤ 0 ∨ 1 ≤ q) as [] by lia; nia. }
  set (r := Z.to_nat _). rewrite existsb_nonzero.
  pose proof (dec_value_take_drop r ds) as Hd. rewrite Hq in Hd.
  pose proof (dec_value_range _ (Forall_drop _ r _ Hds)) as Hdr.
  replace (zlen (drop r ds)) with (- shift) in Hd by (unfold zlen; rewrite length_drop; lia).
  replace (Z.of_nat (length (drop r ds))) with (- shift) in Hdr by (rewrite length_drop; lia).
  rewrite (proj1 (dec_value_zero _ (Forall_drop _ r _ Hds))); [by eexists|].
  set (t := dec_value (take r ds)) in *.
  assert (q = t ∨ q + 1 ≤ t ∨ t + 1 ≤ q) as [-> |[]] by lia; nia.
Qed.

Lemma is_digit_span ds : Forall (λ x, is_ascii_digit x = true) ds ↔ Forall is_digit_byte ds.
Proof. done. Qed.

Lemma parse_exponent_spec bs e rest : parse_exponent bs = Ok (e, rest) →
  ∃ sg negative ds, bs = sg ++ ds ++ rest ∧ sign_text sg negative ∧ Forall is_digit_byte ds ∧
    ds ≠ [] ∧ e = signed negative (dec_value ds).
Proof.
  unfold parse_exponent. destruct (take_sign bs) as [negative r] eqn:Hs.
  apply take_sign_spec in Hs as (sg & -> & Hsg).
  destruct (span is_ascii_digit r) as [ds rest'] eqn:Hspan.
  apply span_spec in Hspan as (-> & Hds & _).
  intros H. simplify_res. apply bool_decide_eq_false in Hc.
  apply push_digits_Ok in Hok as [-> _]; [|done|done].
  exists sg, negative, ds. do 4 (split; [done|]). unfold signed.
  destruct negative; simplify_res; [|lia].
  destruct (Z.eqb_spec (0 * 10 ^ Z.of_nat (length ds) + dec_value ds) (i64_max + 1)); simplify_res; lia.
Qed.

Lemma parse_exponent_complete sg negative ds : sign_text sg negative →
  Forall is_digit_byte ds → ds ≠ [] → is_i64 (signed negative (dec_value ds)) →
  parse_exponent (sg ++ ds) = Ok (signed negative (dec_value ds), []).
Proof.
  intros Hsg Hds Hne He. unfold parse_exponent. rewrite (take_sign_app sg negative); [|done|].
  2: { destruct Hds as [|d ds Hd _]; [done|]. simpl. pose proof (digit_value_range _ Hd).
       unfold digit_value in *. lia. }
  assert (span is_ascii_digit ds = (ds, [])) as ->.
  { rewrite <-(app_nil_r ds) at 1. by apply span_app. }
  pose proof (dec_value_range _ Hds) as Hr. unfold is_i64, signed in *.
  assert (0 < i64_max ∧ i64_max + 1 ≤ u64_max) as [? ?] by done.
  unfold to_u64. rewrite (proj2 (push_digits_Ok u64_max 0 ds (dec_value ds) ltac:(done) Hds))
    by (destruct negative; lia).
  simpl. rewrite bool_decide_false by done. destruct negative.
  - destruct (Z.eqb_spec (dec_value ds) (i64_max + 1)); simpl; [repeat f_equal; lia|].
    unfold to_i64. by rewrite checked_in by lia.
  - unfold to_i64. by rewrite checked_in by lia.
Qed.

Lemma digits_to_decimal_sound (negative : bool) I F e d :
  Forall is_digit_byte I → Forall is_digit_byte F →
  digits_to_decimal negative (I ++ F) (DECIMAL_SCALE + e - zlen F) = Ok d →
  exact_atoms negative I F e (atoms d) ∧ wf d.
Proof.
  intros HI HF. set (shift := DECIMAL_SCALE + e - zlen F). set (digits := I ++ F).
  assert (Hds : Forall is_digit_byte digits) by by apply Forall_app.
  unfold exact_atoms, digits_to_decimal, wf. fold shift digits.
  destruct (forallb _ digits) eqn:Hz.
  { intros [= <-]. apply dec_value_zero in Hz; [|done]. rewrite Hz. by destruct negative. }
  intros H. simplify_res.
  rename select (retain_digits _ _ = _) into Hret. rename select (try_fold _ _ _ = _) into Hfold.
  rename select (scale_up _ _ = _) into Hscale.
  match type of Hret with _ = Ok ?x => rename x into r end.
  destruct (retain_digits_Ok _ _ _ Hds Hret) as [Hr Hval].
  apply push_digits_Ok in Hfold as [-> Hm0]; [|done|by apply Forall_take].
  pose proof (dec_value_range _ (Forall_take _ r _ Hds)) as Hrange.
  apply scale_up_Ok in Hscale as [-> Hm1]; [|lia].
  destruct (signed_atoms _ negative) as [a'|] eqn:Hs; simplify_eq/=.
  apply signed_atoms_Ok in Hs as [-> Ha]; [|lia]. split; [|done].
  rewrite Hval, Z.mul_0_l, Z.add_0_l. unfold signed.
  destruct (Z.leb_spec 0 shift).
  - rewrite (Z.max_l 0 (- shift)), (Z.max_r 0 shift), Z2Nat.id by lia. destruct negative; lia.
  - rewrite (Z.max_r 0 (- shift)), (Z.max_l 0 shift) by lia.
    replace (Z.to_nat shift) with 0%nat by lia. cbn. destruct negative; lia.
Qed.

Lemma decimal_text_tokens s negative I F e :
  decimal_text s negative I F e → is_i64 e → zlen F ≤ i64_max → is_i64 (DECIMAL_SCALE + e) →
  is_i64 (DECIMAL_SCALE + e - zlen F) →
  parse s = digits_to_decimal negative (I ++ F) (DECIMAL_SCALE + e - zlen F).
Proof.
  intros (sg & fp & ep & -> & Hsg & HI & HF & Hne & Hfp & Hep) He HlF H1 H2.
  assert (Hep_stop : starts_with_stop is_ascii_digit ep).
  { destruct Hep as [[-> _]|(c & ? & ? & ? & -> & [-> | ->] & _)]; done. }
  unfold parse, parse_decimal. rewrite bool_decide_false.
  2: { intros H. apply app_nil in H as [_ H]. apply app_nil in H as [-> H].
       apply app_nil in H as [-> _]. destruct Hfp as [[_ ->]|]; naive_solver. }
  rewrite (take_sign_app sg negative); [|done|].
  2: { destruct HI as [|d I Hd _]; simpl.
       - destruct Hfp as [[-> ->]| ->]; [naive_solver|done].
       - pose proof (digit_value_range _ Hd). unfold digit_value in *. lia. }
  rewrite (span_app is_ascii_digit I); [|done|].
  2: { by destruct Hfp as [[-> _]| ->]. }
  assert (Hfrac : match fp ++ ep with
    | b :: rest' => if b =? 46 then span is_ascii_digit rest' else ([], fp ++ ep)
    | [] => ([], fp ++ ep) end = (F, ep)).
  { destruct Hfp as [[-> ->]| ->]; [|by apply span_app].
    destruct Hep as [[-> _]|(c & ? & ? & ? & -> & [-> | ->] & _)]; done. }
  rewrite Hfrac, bool_decide_false by naive_solver.
  assert (Hexp : match ep with
    | b :: rest' => if (b =? 101) || (b =? 69) then parse_exponent rest' else Ok (0, ep)
    | [] => Ok (0, ep) end = Ok (e, [])).
  { destruct Hep as [[-> ->]|(c & sg' & neg & ds & -> & Hc & Hsg' & Hds & Hnds & ->)]; [done|].
    assert ((c =? 101) || (c =? 69) = true) as -> by lia. by apply parse_exponent_complete. }
  rewrite Hexp. cbn [mbind result_bind]. rewrite bool_decide_true by done. cbn [negb].
  unfold to_i64, is_i64 in *. rewrite !checked_in by (unfold zlen in *; lia). cbn [ok_or mbind result_bind].
  by rewrite !checked_in by lia.
Qed.

Lemma digits_to_decimal_complete (negative : bool) I F e a :
  Forall is_digit_byte I → Forall is_digit_byte F → zlen (I ++ F) ≤ usize_max →
  exact_atoms negative I F e a → is_i128 a →
  digits_to_decimal negative (I ++ F) (DECIMAL_SCALE + e - zlen F) = Ok (from_atoms a).
Proof.
  intros HI HF Hlen. unfold exact_atoms, digits_to_decimal.
  set (shift := DECIMAL_SCALE + e - zlen F). set (digits := I ++ F) in *. intros Hx Ha.
  assert (Hds : Forall is_digit_byte digits) by by apply Forall_app.
  assert (Hpow : ∀ n, 0 < 10 ^ Z.max 0 n) by (intros n; apply Z.pow_pos_nonneg; lia).
  pose proof (Hpow shift) as Hp1. pose proof (Hpow (- shift)) as Hp2.
  destruct (forallb _ digits) eqn:Hz.
  { apply dec_value_zero in Hz; [|done]. rewrite Hz in Hx.
    assert (a = 0) as -> by (destruct negative; simpl in Hx; nia). done. }
  assert (Hnz : dec_value digits ≠ 0) by (intros H; apply dec_value_zero in H; [congruence|done]).
  pose proof (dec_value_range _ Hds) as Hdr.
  unfold to_usize. rewrite checked_in by (unfold zlen in *; lia). cbn [ok_or mbind result_bind].
  assert (Hq : Z.abs a * 10 ^ Z.max 0 (- shift) = dec_value digits * 10 ^ Z.max 0 shift).
  { unfold signed in Hx. destruct negative; nia. }
  assert (Habs : Z.abs a ≤ i128_max + 1) by (unfold is_i128 in Ha; lia).
  destruct (retain_digits_complete digits shift Hds Hnz) as [r Hret].
  { destruct (Z.leb_spec 0 shift).
    - exists (dec_value digits). rewrite Z.max_l by lia. lia.
    - exists (Z.abs a). rewrite Hq, (Z.max_l 0 shift) by lia. lia. }
  rewrite Hret. cbn [mbind result_bind]. destruct (retain_digits_Ok _ _ _ Hds Hret) as [_ Hval].
  pose proof (dec_value_range _ (Forall_take _ r _ Hds)) as Ht.
  set (t := dec_value (take r digits)) in *.
  assert (Hat : Z.abs a = t * 10 ^ Z.max 0 shift) by (rewrite Hval in Hq; nia).
  assert (i128_max + 1 ≤ u128_max ∧ i128_max + 1 < 10 ^ 39) as [Hmax Hbig] by done.
  set (P := 10 ^ Z.max 0 shift) in *.
  assert (Hle : t ≤ Z.abs a) by (rewrite Hat; clear -Ht Hp1; nia).
  assert (Hfold : try_fold (push_digit to_u128) 0 (take r digits) = Ok t).
  { unfold to_u128. rewrite (push_digits_Ok u128_max 0); [|lia|by apply Forall_take].
    fold t. lia. }
  rewrite Hfold.
  cbn [mbind result_bind]. destruct (Z.ltb_spec 38 shift) as [Hs|Hs].
  { exfalso. pose proof (Z.pow_le_mono_r 10 39 (Z.max 0 shift) ltac:(lia) ltac:(lia)).
    assert (t ≠ 0) by (intros E; apply Hnz; rewrite Hval, E; lia).
    fold P in H. clear -Hat Ht Habs Hbig H H0. nia. }
  assert (Hscale : scale_up (Z.to_nat shift) t = Ok (Z.abs a)).
  { apply scale_up_Ok; [lia|]. split; [rewrite Hat; unfold P; do 2 f_equal; lia|lia]. }
  rewrite Hscale. cbn [mbind result_bind].
  assert (Hsign : signed_atoms (Z.abs a) negative = Ok a); [|by rewrite Hsign].
  apply signed_atoms_Ok; [lia|]. split; [|done]. unfold signed in *.
  clear -Hx Hdr Hp1 Hp2. destruct negative; nia.
Qed.

(** [Decimal::parse] never rounds. An accepted text is a decimal text, and its
    value scaled by 10^18 is exactly the returned atoms, within [i128]. *)
Theorem parse_sound s d : parse s = Ok d →
  wf d ∧ ∃ negative I F e, decimal_text s negative I F e ∧ exact_atoms negative I F e (atoms d).
Proof.
  unfold parse, parse_decimal. destruct (bool_decide (s = [])); [done|].
  destruct (take_sign s) as [negative r] eqn:Hs. apply take_sign_spec in Hs as (sg & -> & Hsg).
  destruct (span is_ascii_digit r) as [I r2] eqn:HI. apply span_spec in HI as (-> & HI & _).
  destruct (match r2 with b :: _ => _ | [] => _ end) as [F r3] eqn:HF.
  assert (∃ fp, r2 = fp ++ r3 ∧ Forall is_digit_byte F ∧ (fp = [] ∧ F = [] ∨ fp = 46 :: F))
    as (fp & -> & HFd & Hfp).
  { destruct r2 as [|b r2]; [exists []; naive_solver|].
    destruct (Z.eqb_spec b 46) as [-> |]; [|exists []; naive_solver].
    apply span_spec in HF as (-> & HF & _). exists (46 :: F). naive_solver. }
  clear HF. intros H. simplify_res. apply bool_decide_eq_false in Hc.
  rename select (Z * list Z)%type into er. destruct er as [e rest]. simplify_res.
  rename select (negb _ = false) into Hrest. rename select (_ = Ok (e, rest)) into Hexp.
  apply negb_false_iff, bool_decide_eq_true in Hrest as ->.
  destruct (digits_to_decimal_sound negative I F e d) as [Hex Hwf]; [done..|].
  split; [done|]. exists negative, I, F, e. split; [|done].
  exists sg, fp, r3. repeat split; try done; [destruct I, F; naive_solver|].
  destruct r3 as [|b r3]; simplify_res; [by left|]. right.
  destruct ((b =? 101) || (b =? 69)) eqn:Hb; [|done].
  apply parse_exponent_spec in Hexp as (sg' & neg & ds & -> & ? & ? & ? & ->).
  rewrite app_nil_r. exists b, sg', neg, ds. repeat split; try done. lia.
Qed.

Lemma parse_complete_text s negative I F e a :
  decimal_text s negative I F e → exact_atoms negative I F e a → is_i128 a →
  zlen s ≤ isize_max → Z.abs e ≤ 2 ^ 62 → zlen F ≤ 2 ^ 62 →
  parse s = Ok (from_atoms a).
Proof.
  intros Ht Hx Ha Hlen He HF. pose proof Ht as (sg & fp & ep & -> & _ & HI & HFd & _ & Hfp & _).
  assert (i64_max = 2 ^ 63 - 1 ∧ isize_max ≤ usize_max) as [Hmax ?] by done.
  assert (0 ≤ zlen F) by (unfold zlen; lia).
  rewrite (decimal_text_tokens _ negative I F e) by
    (unfold is_i64, DECIMAL_SCALE; rewrite ?Hmax; (done || lia)).
  apply digits_to_decimal_complete; try done.
  unfold zlen in *. rewrite !length_app in *.
  destruct Hfp as [[-> ->]| ->]; simpl in *; lia.
Qed.

(** Conversely every decimal text whose exact value is representable is
    accepted with that value, the exponent staying in a range where the [i64]
    arithmetic on it cannot overflow. *)
Theorem parse_complete s negative I F e a :
  decimal_text s negative I F e → exact_atoms negative I F e a → is_i128 a →
  zlen s ≤ isize_max → Z.abs e ≤ 2 ^ 62 → zlen F ≤ 2 ^ 62 →
  parse s = Ok (from_atoms a).
Proof. apply parse_complete_text. Qed.

(** The two printed parts: the integer digits, and the fraction digits whose
    trimmed zeros do not change the value. *)
Lemma display_integer q : 0 ≤ q ≤ u128_max → ∃ I, dec_digits q = I ∧ dec_value I = q ∧
  Forall is_digit_byte I ∧ I ≠ [] ∧ zlen I ≤ 39.
Proof.
  intros Hq. destruct (dec_digits_spec _ Hq) as (w & -> & Hhi & Hlo). eexists. split; [done|].
  split; [apply dec_value_fixed; lia|]. split; [apply fixed_digits_digits|]. split; [done|].
  unfold zlen. rewrite length_fixed_digits. destruct Hlo as [-> |Hlo]; [lia|].
  destruct (Z.leb_spec (Z.of_nat (S w)) 39); [done|].
  pose proof (Z.pow_le_mono_r 10 39 (Z.of_nat w) ltac:(lia) ltac:(lia)).
  assert (u128_max < 10 ^ 39) by done. lia.
Qed.

Lemma display_fraction f : 0 ≤ f < DECIMAL_SCALE_FACTOR → ∃ F,
  trim_end_zeros (pad_zero 18 f) = F ∧ Forall is_digit_byte F ∧ (length F ≤ 18)%nat ∧
  f = dec_value F * 10 ^ Z.of_nat (18 - length F).
Proof.
  intros Hf. change DECIMAL_SCALE_FACTOR with (10 ^ Z.of_nat 18) in Hf.
  assert (10 ^ Z.of_nat 18 ≤ u128_max) by done.
  rewrite pad_zero_fixed by lia. eexists. split; [done|].
  split; [apply trim_end_zeros_digits, fixed_digits_digits|].
  pose proof (trim_end_zeros_length (fixed_digits 18 f)) as HFl.
  pose proof (dec_value_trim (fixed_digits 18 f)) as HFv.
  rewrite length_fixed_digits in HFl, HFv. rewrite dec_value_fixed in HFv by lia. done.
Qed.

Lemma exact_atoms_parts negative I F q f a :
  dec_value I = q → (length F ≤ 18)%nat → f = dec_value F * 10 ^ Z.of_nat (18 - length F) →
  a = signed negative (q * DECIMAL_SCALE_FACTOR + f) → exact_atoms negative I F 0 a.
Proof.
  intros HI HF Hf ->. unfold exact_atoms, zlen. change DECIMAL_SCALE with 18.
  rewrite (Z.max_l 0), (Z.max_r 0), Z.pow_0_r, Z.mul_1_r, dec_value_app, HI by lia.
  replace (18 + 0 - Z.of_nat (length F)) with (Z.of_nat (18 - length F)) by lia.
  assert (DECIMAL_SCALE_FACTOR = 10 ^ Z.of_nat (length F) * 10 ^ Z.of_nat (18 - length F)) as ->.
  { rewrite <-Z.pow_add_r by lia. by replace (Z.of_nat (length F) + Z.of_nat (18 - length F)) with 18 by lia. }
  rewrite Hf. unfold signed. destruct negative; lia.
Qed.

(** The printed form denotes the printed value. *)
Lemma display_denotes d : wf d → ∃ negative I F,
  decimal_text (display d) negative I F 0 ∧ exact_atoms negative I F 0 (atoms d) ∧
  zlen F ≤ 18 ∧ zlen (display d) ≤ 59.
Proof.
  intros Hwf. unfold display. set (m := Z.abs (atoms d)).
  assert (Hm : 0 ≤ m ≤ u128_max).
  { unfold wf, is_i128 in Hwf. assert (i128_max + 1 ≤ u128_max) by done. lia. }
  assert (0 < DECIMAL_SCALE_FACTOR) by done.
  pose proof (Z.mod_pos_bound m DECIMAL_SCALE_FACTOR ltac:(lia)) as Hfr.
  pose proof (Z.div_mod m DECIMAL_SCALE_FACTOR ltac:(lia)) as Hdm.
  destruct (display_integer (m / DECIMAL_SCALE_FACTOR)) as (I & -> & HIv & HId & HIne & HIl).
  { split; [apply Z.div_pos; lia|]. apply Z.div_le_upper_bound; nia. }
  destruct (display_fraction _ Hfr) as (F & -> & HFd & HFl & HFv).
  set (neg := atoms d <? 0). set (sg := if neg then [45] else []).
  assert (Hat : atoms d = signed neg m) by (unfold signed, neg, m; destruct (Z.ltb_spec (atoms d) 0); lia).
  assert (Hsign : sign_text sg neg) by (unfold sign_text, sg; destruct neg; eauto).
  assert (zlen sg ≤ 1) by (unfold sg; by destruct neg). exists neg, I.
  destruct (Z.eqb_spec (m mod DECIMAL_SCALE_FACTOR) 0) as [Hf|Hf].
  - exists []. rewrite app_nil_r. split_and!; [..|unfold zlen in *; rewrite !length_app; lia].
    + exists sg, [], []. rewrite !app_nil_r. repeat split; auto. by left.
    + eapply (exact_atoms_parts _ _ _ _ 0); [done|simpl; lia|done|]. rewrite Hat. f_equal. lia.
    + done.
  - exists F. split_and!; [..|unfold zlen in *; rewrite !length_app; simpl; lia].
    + exists sg, (46 :: F), []. rewrite app_nil_r. repeat split; auto. by left.
    + eapply exact_atoms_parts; [done|done|exact HFv|]. rewrite Hat. f_equal. lia.
    + unfold zlen. lia.
Qed.

(** Printing then parsing gives the value back, for every [i128] atom count. *)
Theorem parse_display d : wf d → parse (display d) = Ok d.
Proof.
  intros Hwf. destruct (display_denotes d Hwf) as (negative & I & F & Ht & Hx & HF & Hlen).
  assert (59 ≤ isize_max) by done.
  rewrite (parse_complete_text _ _ _ _ _ _ Ht Hx); [by destruct d|done|lia|lia|lia].
Qed.

Lemma parse_sound_witness : ∃ d, parse (bytes_of "-1.25e1") = Ok d ∧ wf d.
Proof.
  assert (H : ∃ d, parse (bytes_of "-1.25e1") = Ok d) by (eexists; vm_compute; reflexivity).
  destruct H as (d & H). exists d. split; [exact H|]. exact (proj1 (parse_sound _ d H)).
Defined.

Lemma parse_complete_witness : parse (bytes_of "7.5") = Ok (from_atoms 7500000000000000000).
Proof.
  apply (parse_complete _ false [55] [53] 0).
  - exists [], [46; 53], []. split_and!; [done|right; split; [by left|done]| | |by left|by right|by left].
    all: by apply (Forall_cons_2 _); [|apply Forall_nil_2].
  - by vm_compute.
  - by split.
  - by vm_compute.
  - by vm_compute.
  - by vm_compute.
Defined.

Lemma parse_display_witness : parse (display (from_atoms (- i128_max - 1))) = Ok (from_atoms (- i128_max - 1)).
Proof. apply parse_display. by split. Defined.

End Decimal.
