(* ===== verification/Quantity.v ===== *)
(** [Price] with the instrument price policy, [QuantityUnit], the non-zero
    [Quantity] and the cumulative [Volume] of market-types. *)
From S2P Require Import Prelude Order Text Numeric.

(** ** price.rs and [PricePolicy] of instrument_class.rs *)
Module Price.

Record Price : Set := new { as_decimal : Decimal.Decimal }.

Inductive PriceError : Set := InvalidDecimal (e : Decimal.DecimalError) | NonPositive.

#[global] Instance Price_eq_dec : EqDecision Price.
Proof. solve_decision. Defined.
#[global] Instance Price_ord : Ord Price := cmp_on as_decimal.
#[global] Instance as_decimal_inj : Inj (=) (=) as_decimal.
Proof. by intros [] [] [= ->]. Qed.
#[global] Instance Price_ord_laws : OrdLaws Price.
Proof. apply cmp_on_laws, _. Qed.

Definition atoms (p : Price) : Z := Decimal.atoms (as_decimal p).
Definition wf (p : Price) : Prop := Decimal.wf (as_decimal p).

Definition positive (value : Decimal.Decimal) : result PriceError Price :=
  if 0 <? Decimal.atoms value then Ok (new value) else Err NonPositive.
Definition parse (input : list Z) : result PriceError Price :=
  new <$> map_err InvalidDecimal (Decimal.parse input).
Definition parse_positive (input : list Z) : result PriceError Price :=
  d ← map_err InvalidDecimal (Decimal.parse input); positive d.
Definition to_canonical_bytes (p : Price) : list Z := Decimal.to_canonical_bytes (as_decimal p).

Inductive PricePolicy : Set := PositiveOnly | Signed.
#[global] Instance PricePolicy_eq_dec : EqDecision PricePolicy.
Proof. solve_decision. Defined.
Definition accepts (policy : PricePolicy) (price : Price) : bool :=
  match policy with Signed => true | PositiveOnly => 0 <? atoms price end.

Definition le (p q : Price) : bool := match cmp p q with Gt => false | _ => true end.
Definition lt (p q : Price) : bool := match cmp p q with Lt => true | _ => false end.

Lemma le_atoms p q : le p q = true ↔ atoms p ≤ atoms q.
Proof.
  unfold le, atoms. change (cmp p q) with (Z.compare (Decimal.atoms (as_decimal p)) (Decimal.atoms (as_decimal q))).
  destruct (Z.compare_spec (Decimal.atoms (as_decimal p)) (Decimal.atoms (as_decimal q))); split; intros; (done || lia).
Qed.

Lemma lt_atoms p q : lt p q = true ↔ atoms p < atoms q.
Proof.
  unfold lt, atoms. change (cmp p q) with (Z.compare (Decimal.atoms (as_decimal p)) (Decimal.atoms (as_decimal q))).
  destruct (Z.compare_spec (Decimal.atoms (as_decimal p)) (Decimal.atoms (as_decimal q))); split; intros; (done || lia).
Qed.

Lemma positive_accepts d p : positive d = Ok p → accepts PositiveOnly p = true.
Proof. unfold positive, accepts, atoms. destruct (0 <? Decimal.atoms d) eqn:E; naive_solver. Qed.

End Price.

(** ** quantity.rs *)
Module Quantity.

Inductive QuantityUnit : Set := SourceUnit | Share | TradingUnit | Contract.
Inductive QuantityUnitError : Set := UnknownDiscriminant (value : Z).

#[global] Instance QuantityUnit_eq_dec : EqDecision QuantityUnit.
Proof. solve_decision. Defined.

Definition discriminant (unit : QuantityUnit) : Z :=
  match unit with SourceUnit => 0 | Share => 1 | TradingUnit => 2 | Contract => 3 end.
Definition from_discriminant (d : Z) : result QuantityUnitError QuantityUnit :=
  if d =? 0 then Ok SourceUnit else if d =? 1 then Ok Share else
  if d =? 2 then Ok TradingUnit else if d =? 3 then Ok Contract else Err (UnknownDiscriminant d).

Record Quantity : Set := mk { value : Z; unit : QuantityUnit }.
Inductive QuantityError : Set :=
| Zero | UnitMismatch (left right : QuantityUnit) | Overflow | Underflow.

#[global] Instance Quantity_eq_dec : EqDecision Quantity.
Proof. solve_decision. Defined.

(** The constructor's invariant: a non-zero [u64]. *)
Definition wf (q : Quantity) : Prop := 1 ≤ value q ≤ u64_max.

Definition new (v : Z) (u : QuantityUnit) : result QuantityError Quantity :=
  if v =? 0 then Err Zero else Ok (mk v u).

Definition require_same_unit (q rhs : Quantity) : result QuantityError () :=
  if decide (unit q = unit rhs) then Ok () else Err (UnitMismatch (unit q) (unit rhs)).

Definition checked_add (q rhs : Quantity) : result QuantityError Quantity :=
  _ ← require_same_unit q rhs;
  v ← ok_or (to_u64 (value q + value rhs)) Overflow;
  Ok (mk v (unit q)).
Definition checked_sub (q rhs : Quantity) : result QuantityError Quantity :=
  _ ← require_same_unit q rhs;
  v ← ok_or (to_u64 (value q - value rhs)) Underflow;
  new v (unit q).

Definition to_canonical_bytes (q : Quantity) : list Z := discriminant (unit q) :: be_bytes 8 (value q).

Lemma unit_from_discriminant u : from_discriminant (discriminant u) = Ok u.
Proof. by destruct u. Qed.

Lemma unit_discriminant_from d u : from_discriminant d = Ok u → discriminant u = d.
Proof. unfold from_discriminant. repeat case_match; intros; simplify_eq/=; lia. Qed.

Lemma unit_discriminant_u8 u : is_u8 (discriminant u).
Proof. by destruct u. Qed.

Lemma new_wf v u q : is_u64 v → new v u = Ok q → wf q.
Proof. unfold new, wf, is_u64. destruct (Z.eqb_spec v 0); intros; simplify_eq/=; lia. Qed.

Lemma new_quantity_Ok v u q : new v u = Ok q ↔ q = mk v u ∧ v ≠ 0.
Proof. unfold new. destruct (Z.eqb_spec v 0); naive_solver. Qed.

Lemma new_positive v u : 1 ≤ v → new v u = Ok (mk v u).
Proof. intros. apply new_quantity_Ok. split; [done|lia]. Qed.

(** The invariant survives the arithmetic, and subtraction undoes addition. *)
Lemma checked_add_wf q r s : wf q → wf r → checked_add q r = Ok s →
  wf s ∧ value s = value q + value r ∧ unit s = unit q.
Proof. unfold checked_add, wf. intros Hq Hr H. simplify_res. split_and!; (done || lia). Qed.

Lemma checked_sub_wf q r s : checked_sub q r = Ok s →
  wf s ∧ value s = value q - value r ∧ unit s = unit q.
Proof.
  unfold checked_sub, wf. intros H. simplify_res. apply new_quantity_Ok in H as [-> ?].
  simpl. split_and!; (done || lia).
Qed.

Lemma checked_sub_add q r s : wf q → wf r → checked_add q r = Ok s → checked_sub s r = Ok q.
Proof.
  unfold checked_add, checked_sub, require_same_unit, wf. intros Hq Hr H. simplify_res.
  destruct (decide (unit q = unit r)); [|done]. simpl.
  replace (value q + value r - value r) with (value q) by lia.
  unfold to_u64. rewrite checked_in by lia. simpl. rewrite new_positive by lia. by destruct q.
Qed.

End Quantity.

(** ** volume.rs *)
Module Volume.
Import Quantity (QuantityUnit).

Record Volume : Set := new { value : Z; unit : QuantityUnit }.
Inductive VolumeError : Set := UnitMismatch (left right : QuantityUnit) | Overflow | Underflow.

#[global] Instance Volume_eq_dec : EqDecision Volume.
Proof. solve_decision. Defined.

Definition wf (v : Volume) : Prop := is_u64 (value v).

Definition require_same_unit (v rhs : Volume) : result VolumeError () :=
  if decide (unit v = unit rhs) then Ok () else Err (UnitMismatch (unit v) (unit rhs)).
Definition checked_add (v rhs : Volume) : result VolumeError Volume :=
  _ ← require_same_unit v rhs;
  x ← ok_or (to_u64 (value v + value rhs)) Overflow;
  Ok (new x (unit v)).
Definition checked_sub (v rhs : Volume) : result VolumeError Volume :=
  _ ← require_same_unit v rhs;
  x ← ok_or (to_u64 (value v - value rhs)) Underflow;
  Ok (new x (unit v)).

Definition to_canonical_bytes (v : Volume) : list Z := Quantity.discriminant (unit v) :: be_bytes 8 (value v).

(** [From<Quantity>] and [TryFrom<Volume>]. *)
Definition from_quantity (q : Quantity.Quantity) : Volume := new (Quantity.value q) (Quantity.unit q).
Definition try_to_quantity (v : Volume) : result Quantity.QuantityError Quantity.Quantity :=
  Quantity.new (value v) (unit v).

Lemma quantity_roundtrip q : Quantity.wf q → try_to_quantity (from_quantity q) = Ok q.
Proof.
  unfold Quantity.wf, try_to_quantity, from_quantity. intros. cbn.
  rewrite Quantity.new_positive by lia. by destruct q.
Qed.

End Volume.
