(* ===== verification/Calendar.v ===== *)
(** Dates and times of market-types: the proleptic-Gregorian day conversions,
    [TradingDate] with its [YYYY-MM-DD] text and [MatchTime] with its ISO-8601 text. *)
From S2P Require Import Prelude Order Text.

(** ** The civil-date conversions shared by trading_date.rs and match_time.rs *)
Module Civil.

Definition is_leap_year (year : Z) : bool :=
  (year mod 4 =? 0) && (negb (year mod 100 =? 0) || (year mod 400 =? 0)).

(** The [match month] of [validate_date]: [None] is its [_] arm. *)
Definition days_in_month (year month : Z) : option Z :=
  if existsb (Z.eqb month) [1; 3; 5; 7; 8; 10; 12] then Some 31
  else if existsb (Z.eqb month) [4; 6; 9; 11] then Some 30
  else if month =? 2 then Some (if is_leap_year year then 29 else 28)
  else None.

(** [validate_date]; both files return [InvalidDate] on failure. *)
Definition validate_date {E} (InvalidDate : E) (year month day : Z) : result E () :=
  match days_in_month year month with
  | None => Err InvalidDate
  | Some n => if (day =? 0) || (n <? day) then Err InvalidDate else Ok ()
  end.

(** Rust's [/] truncates ([÷]); [div_euclid] by a positive constant is [/]. *)
Definition days_from_civil (year month day : Z) : Z :=
  let year := year - (if month <=? 2 then 1 else 0) in
  let era := year / 400 in
  let year_of_era := year - era * 400 in
  let shifted_month := month + (if 2 <? month then -3 else 9) in
  let day_of_year := (153 * shifted_month + 2) ÷ 5 + day - 1 in
  let day_of_era := year_of_era * 365 + year_of_era ÷ 4 - year_of_era ÷ 100 + day_of_year in
  era * 146097 + day_of_era - 719468.

Definition civil_from_days (epoch_days : Z) : Z * Z * Z :=
  let shifted_days := epoch_days + 719468 in
  let era := shifted_days / 146097 in
  let day_of_era := shifted_days - era * 146097 in
  let year_of_era :=
    (day_of_era - day_of_era ÷ 1460 + day_of_era ÷ 36524 - day_of_era ÷ 146096) ÷ 365 in
  let year := year_of_era + era * 400 in
  let day_of_year := day_of_era - (365 * year_of_era + year_of_era ÷ 4 - year_of_era ÷ 100) in
  let shifted_month := (5 * day_of_year + 2) ÷ 153 in
  let day := day_of_year - (153 * shifted_month + 2) ÷ 5 + 1 in
  let month := shifted_month + (if shifted_month <? 10 then 3 else -9) in
  let year := year + (if month <=? 2 then 1 else 0) in
  (year, month, day).

(** [parse_digits] of both files. *)
Definition parse_digits (bytes : list Z) (start len : Z) : option Z :=
  digits ← slice_get bytes start (start + len);
  if forallb is_ascii_digit digits then Some (dec_value digits) else None.

Example civil_ex1 : days_from_civil 1970 1 1 = 0.
Proof. reflexivity. Qed.
Example civil_ex2 : civil_from_days 11016 = (2000, 2, 29).
Proof. reflexivity. Qed.

Definition valid_date (year month day : Z) : Prop :=
  ∃ n, days_in_month year month = Some n ∧ 1 ≤ day ≤ n.

Lemma validate_date_Ok {E} (e : E) y m d : 0 ≤ d →
  validate_date e y m d = Ok () ↔ valid_date y m d.
Proof.
  intros Hd. unfold validate_date, valid_date. destruct (days_in_month y m) as [n|]; [|naive_solver].
  destruct ((d =? 0) || (n <? d)) eqn:E1; split; try done.
  - intros (? & [= <-] & ?). lia.
  - intros _. exists n. split; [done|]. lia.
Qed.

(** A valid date in March-based coordinates: the shifted month [p] (0 = March)
    and the month lengths the day-of-year formula encodes. *)
Definition month_start (p : Z) : Z := (153 * p + 2) / 5.

Lemma days_in_month_shifted y m n : days_in_month y m = Some n →
  let p := m + (if 2 <? m then -3 else 9) in
  1 ≤ m ≤ 12 ∧ 0 ≤ p ≤ 11 ∧
  month_start p + n = (if m =? 2 then (if is_leap_year y then 366 else 365) else month_start (p + 1)).
Proof.
  intros H p. unfold days_in_month, month_start in *.
  assert (m = 1 ∨ m = 2 ∨ m = 3 ∨ m = 4 ∨ m = 5 ∨ m = 6 ∨ m = 7 ∨ m = 8 ∨ m = 9 ∨ m = 10 ∨ m = 11 ∨ m = 12) as Hm.
  { destruct (existsb (Z.eqb m) [1; 3; 5; 7; 8; 10; 12]) eqn:E1; [simpl in E1; lia|].
    destruct (existsb (Z.eqb m) [4; 6; 9; 11]) eqn:E2; [simpl in E2; lia|].
    destruct (m =? 2) eqn:E3; [lia|done]. }
  subst p. repeat destruct Hm as [-> |Hm]; try subst m; simpl in H; simplify_eq/=;
    (split; [lia|split; [lia|]]); try reflexivity; by destruct (is_leap_year y).
Qed.

(** *** Year of era

    Within a 400-year era a March-based year [y] starts on day
    [365 y + y/4 - y/100], and the quotient formula inverts that. *)
Ltac divlia := Z.to_euclidean_division_equations; lia.

Definition year_start (y : Z) : Z := y * 365 + y / 4 - y / 100.
Definition year_of_doe (doe : Z) : Z := (doe - doe / 1460 + doe / 36524 - doe / 146096) / 365.
Definition leap_next (y : Z) : Prop := (y + 1) mod 4 = 0 ∧ ((y + 1) mod 100 ≠ 0 ∨ (y + 1) mod 400 = 0).

Lemma year_of_doe_start y doy : 0 ≤ y ≤ 399 → 0 ≤ doy ≤ 365 → (doy = 365 → leap_next y) →
  0 ≤ year_start y + doy < 146097 ∧ year_of_doe (year_start y + doy) = y.
Proof.
  unfold leap_next, year_of_doe, year_start. intros Hy Hd Hl.
  split; [divlia|]. set (doe := y * 365 + y / 4 - y / 100 + doy).
  symmetry. apply Z.div_unique with
    (doy - doe / 1460 + doe / 36524 - doe / 146096 + y / 4 - y / 100); [left|]; subst doe; [divlia|lia].
Qed.

Lemma year_of_doe_range doe : 0 ≤ doe < 146097 →
  let y := year_of_doe doe in
  0 ≤ y ≤ 399 ∧ 0 ≤ doe - year_start y ≤ 365 ∧ (doe - year_start y = 365 → leap_next y).
Proof.
  intros Hd y. assert (0 ≤ y ≤ 399) by (subst y; unfold year_of_doe; divlia).
  assert (Hy : 365 * y ≤ doe - doe / 1460 + doe / 36524 - doe / 146096 < 365 * y + 365)
    by (subst y; unfold year_of_doe; divlia).
  clearbody y. unfold year_start, leap_next. split; [done|]. split; [divlia|]. intros. divlia.
Qed.

(** *** Month of year *)
Lemma month_of_doy p doy : 0 ≤ p ≤ 11 → month_start p ≤ doy → (p < 11 → doy < month_start (p + 1)) →
  doy ≤ 365 → (5 * doy + 2) / 153 = p.
Proof. unfold month_start. intros. divlia. Qed.

Lemma month_of_doy_range doy : 0 ≤ doy ≤ 365 →
  let p := (5 * doy + 2) / 153 in
  0 ≤ p ≤ 11 ∧ month_start p ≤ doy ∧ (p < 11 → doy < month_start (p + 1)).
Proof. intros Hd p. subst p. unfold month_start. split; [divlia|]. split; [divlia|]. intros. divlia. Qed.

(** The two conversions with truncated division replaced by floor division. *)
Lemma days_from_civil_eq y m d : 1 ≤ m ≤ 12 →
  days_from_civil y m d =
    let y' := y - (if m <=? 2 then 1 else 0) in
    let p := m + (if 2 <? m then -3 else 9) in
    y' / 400 * 146097 + (year_start (y' mod 400) + (month_start p + d - 1)) - 719468.
Proof.
  intros Hm. unfold days_from_civil, year_start, month_start. cbv zeta.
  set (y' := y - _). assert (y' - y' / 400 * 400 = y' mod 400) as -> by (rewrite Z.mod_eq; lia).
  pose proof (Z.mod_pos_bound y' 400 ltac:(lia)).
  rewrite !Z.quot_div_nonneg; [lia|..]; destruct (2 <? m) eqn:?; lia.
Qed.

Lemma civil_from_days_eq n :
  civil_from_days n =
    let doe := (n + 719468) mod 146097 in
    let yoe := year_of_doe doe in
    let doy := doe - year_start yoe in
    let p := (5 * doy + 2) / 153 in
    let month := p + (if p <? 10 then 3 else -9) in
    (yoe + (n + 719468) / 146097 * 400 + (if month <=? 2 then 1 else 0), month, doy - month_start p + 1).
Proof.
  unfold civil_from_days. cbv zeta. set (s := n + 719468).
  assert (s - s / 146097 * 146097 = s mod 146097) as -> by (rewrite Z.mod_eq; lia).
  pose proof (Z.mod_pos_bound s 146097 ltac:(lia)) as Hdoe. set (doe := s mod 146097) in *.
  destruct (year_of_doe_range doe Hdoe) as (Hy & Hdoy & _).
  pose proof (month_of_doy_range _ Hdoy) as (Hp & _).
  assert ((doe - doe ÷ 1460 + doe ÷ 36524 - doe ÷ 146096) ÷ 365 = year_of_doe doe) as ->.
  { unfold year_of_doe. rewrite !Z.quot_div_nonneg by (try lia; divlia). done. }
  set (yoe := year_of_doe doe) in *.
  assert (doe - (365 * yoe + yoe ÷ 4 - yoe ÷ 100) = doe - year_start yoe) as ->.
  { unfold year_start. rewrite !Z.quot_div_nonneg by lia. lia. }
  rewrite (Z.quot_div_nonneg (5 * _ + 2)) by lia. unfold month_start.
  by rewrite Z.quot_div_nonneg by lia.
Qed.

Lemma leap_next_spec y : leap_next (y mod 400) ↔ is_leap_year (y + 1) = true.
Proof. unfold leap_next, is_leap_year. divlia. Qed.

(** A valid date's day within its March-based year. *)
Lemma day_of_year_range y m d : valid_date y m d →
  let y' := y - (if m <=? 2 then 1 else 0) in
  let p := m + (if 2 <? m then -3 else 9) in
  let doy := month_start p + d - 1 in
  1 ≤ m ≤ 12 ∧ 0 ≤ p ≤ 11 ∧ 0 ≤ doy ≤ 365 ∧ (p < 11 → doy < month_start (p + 1)) ∧
  (doy = 365 → leap_next (y' mod 400)) ∧ 1 ≤ d.
Proof.
  intros (n & Hn & Hd) y' p doy. destruct (days_in_month_shifted _ _ _ Hn) as (Hm & Hp & Hlen).
  cbv zeta in *. fold p in Hp, Hlen. split; [done|]. split; [done|].
  rewrite leap_next_spec. assert (0 ≤ month_start p) by (unfold month_start; divlia).
  destruct (Z.eqb_spec m 2) as [-> |Hm2].
  - assert (y' + 1 = y) as -> by (unfold y'; simpl; lia).
    unfold doy. change p with 11 in *. destruct (is_leap_year y); simpl in Hlen; lia.
  - assert (p < 11) by (unfold p; destruct (2 <? m) eqn:E; lia).
    assert (month_start (p + 1) ≤ 337) by (unfold month_start; divlia). unfold doy. lia.
Qed.

(** Converting a valid civil date to days and back gives the date. *)
Lemma civil_from_days_from_civil y m d : valid_date y m d →
  civil_from_days (days_from_civil y m d) = (y, m, d).
Proof.
  intros Hv. destruct (day_of_year_range _ _ _ Hv) as (Hm & Hp & Hdoy & Hnext & Hleap & Hd).
  rewrite days_from_civil_eq by done. cbv zeta in *.
  set (p := m + _) in *. set (y' := y - _) in *. set (doy := month_start p + d - 1) in *.
  pose proof (Z.mod_pos_bound y' 400 ltac:(lia)) as Hy'.
  destruct (year_of_doe_start (y' mod 400) doy) as [Hr Hyoe]; [lia|done|done|].
  rewrite civil_from_days_eq. cbv zeta.
  replace (y' / 400 * 146097 + (year_start (y' mod 400) + doy) - 719468 + 719468)
    with (y' / 400 * 146097 + (year_start (y' mod 400) + doy)) by lia.
  set (X := year_start (y' mod 400) + doy) in *.
  assert ((y' / 400 * 146097 + X) / 146097 = y' / 400) as ->
    by (rewrite Z.div_add_l, (Z.div_small X) by lia; lia).
  assert ((y' / 400 * 146097 + X) mod 146097 = X) as ->
    by (rewrite Z.add_comm, Z.mod_add, (Z.mod_small X) by lia; lia).
  rewrite Hyoe. replace (X - year_start (y' mod 400)) with doy by (unfold X; lia).
  rewrite (month_of_doy p doy) by (unfold doy in *; (done || lia)).
  pose proof (Z.div_mod y' 400 ltac:(lia)). unfold doy, p, y' in *.
  f_equal; [f_equal|]; destruct (2 <? m) eqn:?; destruct (m <=? 2) eqn:?; simpl in *; try lia;
    repeat (case_match; simpl in *); lia.
Qed.

Lemma days_in_shifted_month y p : 0 ≤ p ≤ 11 →
  let m := p + (if p <? 10 then 3 else -9) in
  days_in_month y m =
    Some (if p =? 11 then (if is_leap_year y then 29 else 28) else month_start (p + 1) - month_start p).
Proof.
  intros Hp m. subst m.
  assert (p = 0 ∨ p = 1 ∨ p = 2 ∨ p = 3 ∨ p = 4 ∨ p = 5 ∨ p = 6 ∨ p = 7 ∨ p = 8 ∨ p = 9 ∨ p = 10 ∨ p = 11) as H by lia.
  by repeat destruct H as [-> |H]; [..|subst p].
Qed.

(** Every day count is a valid civil date that converts back to it. *)
Lemma days_from_civil_from_days n y m d : civil_from_days n = (y, m, d) →
  valid_date y m d ∧ days_from_civil y m d = n.
Proof.
  rewrite civil_from_days_eq. cbv zeta.
  pose proof (Z.mod_pos_bound (n + 719468) 146097 ltac:(lia)) as Hdoe.
  pose proof (Z.div_mod (n + 719468) 146097 ltac:(lia)) as Hdm.
  set (era := (n + 719468) / 146097) in *. set (doe := (n + 719468) mod 146097) in *.
  destruct (year_of_doe_range doe Hdoe) as (Hy & Hdoy & Hleap). set (yoe := year_of_doe doe) in *.
  destruct (month_of_doy_range _ Hdoy) as (Hp & Hlo & Hhi). cbv zeta in *.
  set (doy := doe - year_start yoe) in *. set (p := (5 * doy + 2) / 153) in *.
  intros [= Hyy Hmm Hdd]. pose proof (days_in_shifted_month y p Hp) as Hn. cbv zeta in Hn. rewrite Hmm in Hn.
  assert (Hm2 : (m <=? 2) = (10 <=? p)) by (destruct (p <? 10) eqn:?; lia). rewrite Hmm, Hm2 in Hyy.
  assert (Hyoe : (y - (if 10 <=? p then 1 else 0)) = yoe + era * 400) by lia.
  split.
  - eexists. split; [exact Hn|]. split; [lia|]. destruct (Z.eqb_spec p 11) as [Hp11|]; [|lia].
    rewrite Hp11 in Hdd, Hyoe. change (month_start 11) with 337 in Hdd. simpl in Hyoe.
    destruct (is_leap_year y) eqn:Hly; [lia|]. destruct (decide (doy = 365)) as [H|]; [|lia].
    apply Hleap in H. replace yoe with ((y - 1) mod 400) in H.
    { apply leap_next_spec in H. replace (y - 1 + 1) with y in H by lia. congruence. }
    rewrite Hyoe, Z.mod_add, Z.mod_small by lia. done.
  - assert (Hm : 1 ≤ m ≤ 12) by (destruct (p <? 10) eqn:?; lia).
    rewrite days_from_civil_eq by done. cbv zeta. rewrite Hm2, Hyoe.
    assert (m + (if 2 <? m then -3 else 9) = p) as -> by (destruct (p <? 10) eqn:?, (2 <? m) eqn:?; lia).
    rewrite Z.div_add, (Z.div_small yoe), Z.mod_add, (Z.mod_small yoe) by lia. unfold doy in *. lia.
Qed.

(** Civil dates and day counts are in bijection: a day count stands for one
    valid date, and for no other. *)
Theorem calendar_bijection n y m d :
  civil_from_days n = (y, m, d) ↔ valid_date y m d ∧ days_from_civil y m d = n.
Proof. split; [apply days_from_civil_from_days|]. intros [Hv <-]. by apply civil_from_days_from_civil. Qed.

(** The day counts of the four-digit years: [TradingDate::MIN_EPOCH_DAYS] and
    [MAX_EPOCH_DAYS] are exactly 0000-01-01 and 9999-12-31. *)
Lemma days_from_civil_bounds y m d : valid_date y m d → 0 ≤ y ≤ 9999 →
  -719528 ≤ days_from_civil y m d ≤ 2932896.
Proof.
  intros Hv Hy. destruct (day_of_year_range _ _ _ Hv) as (Hm & Hp & Hdoy & Hnext & _ & Hlo).
  rewrite days_from_civil_eq by done. cbv zeta in *.
  set (p := m + _) in *. set (doy := month_start p + d - 1) in *.
  assert (H9 : p ≤ 9 → doy ≤ 305).
  { intros. assert (month_start (p + 1) ≤ 306) by (unfold month_start; divlia). lia. }
  assert (H10 : 10 ≤ p → 306 ≤ doy).
  { intros. assert (306 ≤ month_start p) by (unfold month_start; divlia). lia. }
  assert (Hyp : (p ≤ 9 ∧ y - (if m <=? 2 then 1 else 0) = y) ∨ (10 ≤ p ∧ y - (if m <=? 2 then 1 else 0) = y - 1)).
  { unfold p. destruct (2 <? m) eqn:?, (m <=? 2) eqn:?; lia. }
  clearbody doy p. unfold year_start. destruct Hyp as [[? ->]|[? ->]]; divlia.
Qed.

Lemma civil_from_days_bounds n y m d : -719528 ≤ n ≤ 2932896 → civil_from_days n = (y, m, d) →
  0 ≤ y ≤ 9999.
Proof.
  intros Hn H. pose proof (days_from_civil_from_days _ _ _ _ H) as [Hv Hd].
  destruct (day_of_year_range _ _ _ Hv) as (Hm & Hp & Hdoy & Hnext & _ & Hlo).
  rewrite days_from_civil_eq in Hd by done. cbv zeta in *.
  set (p := m + _) in *. set (doy := month_start p + d - 1) in *.
  assert (H9 : p ≤ 9 → doy ≤ 305).
  { intros. assert (month_start (p + 1) ≤ 306) by (unfold month_start; divlia). lia. }
  assert (H10 : 10 ≤ p → 306 ≤ doy).
  { intros. assert (306 ≤ month_start p) by (unfold month_start; divlia). lia. }
  assert (Hyp : (p ≤ 9 ∧ y - (if m <=? 2 then 1 else 0) = y) ∨ (10 ≤ p ∧ y - (if m <=? 2 then 1 else 0) = y - 1)).
  { unfold p. destruct (2 <? m) eqn:?, (m <=? 2) eqn:?; lia. }
  clearbody doy p. clear H Hv. unfold year_start in Hd. destruct Hyp as [[? E]|[? E]]; rewrite E in Hd; divlia.
Qed.

End Civil.

(** ** trading_date.rs *)
Module TradingDate.
Import Civil.

(** [struct TradingDate(i32)]: signed days from 1970-01-01. *)
Record TradingDate : Set := mk { as_epoch_days : Z }.
Inductive TradingDateError : Set := InvalidFormat | InvalidDate | OutOfRange.

#[global] Instance TradingDate_eq_dec : EqDecision TradingDate.
Proof. solve_decision. Defined.
#[global] Instance TradingDate_ord : Ord TradingDate := cmp_on as_epoch_days.
#[global] Instance as_epoch_days_inj : Inj (=) (=) as_epoch_days.
Proof. by intros [] [] [= ->]. Qed.
#[global] Instance TradingDate_ord_laws : OrdLaws TradingDate.
Proof. apply cmp_on_laws, _. Qed.

Definition MIN_EPOCH_DAYS : Z := -719528.
Definition MAX_EPOCH_DAYS : Z := 2932896.
Definition wf (d : TradingDate) : Prop := MIN_EPOCH_DAYS ≤ as_epoch_days d ≤ MAX_EPOCH_DAYS.

Definition from_epoch_days (epoch_days : Z) : result TradingDateError TradingDate :=
  if (epoch_days <? MIN_EPOCH_DAYS) || (MAX_EPOCH_DAYS <? epoch_days) then Err OutOfRange
  else Ok (mk epoch_days).

Definition to_canonical_bytes (d : TradingDate) : list Z := be_bytes 4 (as_epoch_days d).

(** [parse]; [days_from_civil_bounds] shows the [expect] on [i32::try_from] never fires. *)
Definition parse (bytes : list Z) : result TradingDateError TradingDate :=
  reject (negb (zlen bytes =? 10)) || negb (bool_decide (bytes !! 4%nat = Some 45)) ||
         negb (bool_decide (bytes !! 7%nat = Some 45)) with InvalidFormat;;
  year ← ok_or (parse_digits bytes 0 4) InvalidFormat;
  month ← ok_or (parse_digits bytes 5 2) InvalidFormat;
  day ← ok_or (parse_digits bytes 8 2) InvalidFormat;
  _ ← validate_date InvalidDate year month day;
  from_epoch_days (days_from_civil year month day).

(** [impl Display for TradingDate]. *)
Definition display (d : TradingDate) : list Z :=
  let '(year, month, day) := civil_from_days (as_epoch_days d) in
  pad_zero 4 year ++ 45 :: pad_zero 2 month ++ 45 :: pad_zero 2 day.

Example date_parse_ex : parse (bytes_of "2026-02-29") = Err InvalidDate.
Proof. reflexivity. Qed.

Lemma from_epoch_days_Ok n d : from_epoch_days n = Ok d ↔ d = mk n ∧ wf d.
Proof.
  unfold from_epoch_days, wf. destruct (_ || _) eqn:E; split.
  - done.
  - intros [-> H]. simpl in H. lia.
  - intros [= <-]. split; [done|]. simpl. lia.
  - by intros [-> _].
Qed.

(** The three numeric fields, at their fixed offsets. *)
Lemma display_digits y m d : 0 ≤ y ≤ 9999 → 0 ≤ m ≤ 99 → 0 ≤ d ≤ 99 →
  pad_zero 4 y ++ 45 :: pad_zero 2 m ++ 45 :: pad_zero 2 d =
  fixed_digits 4 y ++ 45 :: fixed_digits 2 m ++ 45 :: fixed_digits 2 d.
Proof. intros. assert (9999 ≤ u128_max) by done. by rewrite !pad_zero_fixed by lia. Qed.

Lemma valid_date_bounds y m d : valid_date y m d → 1 ≤ m ≤ 12 ∧ 1 ≤ d ≤ 31.
Proof.
  intros (n & Hn & Hd). destruct (days_in_month_shifted _ _ _ Hn) as (Hm & _ & _). split; [done|].
  unfold days_in_month in Hn. repeat case_match; simplify_eq; lia.
Qed.

(** Printing a trading date and parsing it gives the date back. *)
Theorem date_parse_display d : wf d → parse (display d) = Ok d.
Proof.
  intros Hwf. unfold display. destruct (civil_from_days (as_epoch_days d)) as [[y m] dd] eqn:Hc.
  pose proof (civil_from_days_bounds _ _ _ _ Hwf Hc) as Hy.
  destruct (days_from_civil_from_days _ _ _ _ Hc) as [Hv Hd].
  destruct (valid_date_bounds _ _ _ Hv) as [Hm Hdd].
  rewrite display_digits by lia. unfold parse, parse_digits.
  set (a := fixed_digits 4 y). set (b := fixed_digits 2 m). set (c := fixed_digits 2 dd).
  assert (Hslices : slice_get (a ++ 45 :: b ++ 45 :: c) 0 (0 + 4) = Some a ∧
    slice_get (a ++ 45 :: b ++ 45 :: c) 5 (5 + 2) = Some b ∧
    slice_get (a ++ 45 :: b ++ 45 :: c) 8 (8 + 2) = Some c) by done.
  destruct Hslices as (-> & -> & ->). cbn [mbind option_bind].
  rewrite !(proj2 (forallb_digits _)) by apply fixed_digits_digits.
  unfold a, b, c. rewrite !dec_value_fixed by lia. cbn [ok_or mbind result_bind].
  rewrite (proj2 (validate_date_Ok InvalidDate y m dd ltac:(lia)) Hv). simpl. rewrite Hd.
  apply from_epoch_days_Ok. by destruct d.
Qed.

(** Parsing accepts only the canonical text of the date it returns. *)
Theorem date_parse_sound s d : parse s = Ok d → wf d ∧ display d = s.
Proof.
  unfold parse. intros H. destruct (_ || _) eqn:Hshape; [done|].
  apply orb_false_iff in Hshape as [[Hlen Hs4]%orb_false_iff Hs7].
  apply negb_false_iff in Hlen, Hs4, Hs7. apply bool_decide_eq_true in Hs4, Hs7.
  assert (length s = 10%nat) by (unfold zlen in Hlen; lia).
  destruct s as [|s0 [|s1 [|s2 [|s3 [|s4 [|s5 [|s6 [|s7 [|s8 [|s9 [|]]]]]]]]]]]; try done.
  simplify_eq/=. unfold parse_digits in H.
  set (s := [s0; s1; s2; s3; 45; s5; s6; 45; s8; s9]) in *.
  change (slice_get s 0 (0 + 4)) with (Some [s0; s1; s2; s3]) in H.
  change (slice_get s 5 (5 + 2)) with (Some [s5; s6]) in H.
  change (slice_get s 8 (8 + 2)) with (Some [s8; s9]) in H. cbn [mbind option_bind] in H.
  destruct (forallb _ [s0; s1; s2; s3]) eqn:Ha; [|done]. destruct (forallb _ [s5; s6]) eqn:Hb; [|done].
  destruct (forallb _ [s8; s9]) eqn:Hcc; [|done].
  apply forallb_digits in Ha, Hb, Hcc. cbn [ok_or mbind result_bind] in H.
  pose proof (dec_value_range _ Ha). pose proof (dec_value_range _ Hb). pose proof (dec_value_range _ Hcc).
  simplify_res. rename select (validate_date _ _ _ _ = _) into Hv. destruct a.
  apply validate_date_Ok in Hv; [|lia]. apply from_epoch_days_Ok in H as [-> Hwf]. split; [done|].
  unfold display. cbn [as_epoch_days]. rewrite civil_from_days_from_civil by done.
  simpl in *. rewrite display_digits by lia.
  by rewrite (fixed_digits_dec_value _ Ha : fixed_digits 4 _ = _),
    (fixed_digits_dec_value _ Hb : fixed_digits 2 _ = _), (fixed_digits_dec_value _ Hcc : fixed_digits 2 _ = _).
Qed.

Lemma date_parse_display_witness : parse (display (mk MAX_EPOCH_DAYS)) = Ok (mk MAX_EPOCH_DAYS).
Proof. apply date_parse_display. by split. Defined.

Lemma date_parse_sound_witness : ∃ d, parse (bytes_of "2024-02-29") = Ok d ∧ display d = bytes_of "2024-02-29".
Proof.
  assert (H : ∃ d, parse (bytes_of "2024-02-29") = Ok d) by (eexists; vm_compute; reflexivity).
  destruct H as (d & H). exists d. split; [exact H|]. exact (proj2 (date_parse_sound _ d H)).
Defined.

End TradingDate.

(** ** match_time.rs *)
Module MatchTime.
Import Civil.

Definition MICROS_PER_SECOND : Z := 1000000.
Definition SECONDS_PER_DAY : Z := 86400.
Definition MAX_UTC_OFFSET_MINUTES : Z := 1439.
Definition MIN_SUPPORTED_UNIX_MICROSECONDS : Z := -62167219200000000.
Definition MAX_SUPPORTED_UNIX_MICROSECONDS : Z := 253402300799999999.

(** [struct MatchTime(i64)]: Unix microseconds in UTC. *)
Record MatchTime : Set := from_unix_microseconds { as_unix_microseconds : Z }.

#[global] Instance MatchTime_eq_dec : EqDecision MatchTime.
Proof. solve_decision. Defined.
#[global] Instance MatchTime_ord : Ord MatchTime := cmp_on as_unix_microseconds.
#[global] Instance as_unix_microseconds_inj : Inj (=) (=) as_unix_microseconds.
Proof. by intros [] [] [= ->]. Qed.
#[global] Instance MatchTime_ord_laws : OrdLaws MatchTime.
Proof. apply cmp_on_laws, _. Qed.
#[global] Instance MatchTime_countable : Countable MatchTime.
Proof. apply (inj_countable' as_unix_microseconds from_unix_microseconds). by intros []. Defined.

Definition wf (t : MatchTime) : Prop := is_i64 (as_unix_microseconds t).

(** [struct UtcOffsetMinutes(i16)]. *)
Record UtcOffsetMinutes : Set := mk_offset { as_minutes : Z }.
Inductive UtcOffsetMinutesError : Set := OffsetOutOfRange.
Definition wf_offset (o : UtcOffsetMinutes) : Prop :=
  - MAX_UTC_OFFSET_MINUTES ≤ as_minutes o ≤ MAX_UTC_OFFSET_MINUTES.
Definition new_offset (minutes : Z) : result UtcOffsetMinutesError UtcOffsetMinutes :=
  if (minutes <? - MAX_UTC_OFFSET_MINUTES) || (MAX_UTC_OFFSET_MINUTES <? minutes)
  then Err OffsetOutOfRange else Ok (mk_offset minutes).

Definition is_utc_iso8601_representable (t : MatchTime) : bool :=
  (MIN_SUPPORTED_UNIX_MICROSECONDS <=? as_unix_microseconds t) &&
  (as_unix_microseconds t <=? MAX_SUPPORTED_UNIX_MICROSECONDS).

Inductive MatchTimeFormatError : Set := FormatOutOfRange.
Inductive MatchTimeError : Set :=
| InvalidFormat | InvalidDate | InvalidTime | InvalidOffset | PrecisionLoss | OutOfRange.

Definition to_iso8601 (t : MatchTime) (offset : UtcOffsetMinutes) : result MatchTimeFormatError (list Z) :=
  let offset_minutes := as_minutes offset in
  let offset_microseconds := offset_minutes * 60 * MICROS_PER_SECOND in
  local_microseconds ← ok_or (to_i64 (as_unix_microseconds t + offset_microseconds)) FormatOutOfRange;
  let local_seconds := local_microseconds / MICROS_PER_SECOND in
  let microseconds := local_microseconds mod MICROS_PER_SECOND in
  let days := local_seconds / SECONDS_PER_DAY in
  let seconds := local_seconds mod SECONDS_PER_DAY in
  let '(year, month, day) := civil_from_days days in
  reject (negb (in_range 0 9999 year)) with FormatOutOfRange;;
  let hour := seconds ÷ 3600 in
  let minute := Z.rem seconds 3600 ÷ 60 in
  let second := Z.rem seconds 60 in
  let sign := if offset_minutes <? 0 then 45 else 43 in
  let absolute_offset := Z.abs offset_minutes in
  Ok (pad_zero 4 year ++ 45 :: pad_zero 2 month ++ 45 :: pad_zero 2 day ++ 84 ::
      pad_zero 2 hour ++ 58 :: pad_zero 2 minute ++ 58 :: pad_zero 2 second ++ 46 ::
      pad_zero 6 microseconds ++ sign ::
      pad_zero 2 (absolute_offset ÷ 60) ++ 58 :: pad_zero 2 (Z.rem absolute_offset 60)).

(** [Iterator::position]. *)
Fixpoint position (p : Z → bool) (l : list Z) : option Z :=
  match l with
  | [] => None
  | x :: l' => if p x then Some 0 else Z.succ <$> position p l'
  end.

Definition byte_at (bytes : list Z) (i : Z) : option Z := bytes !! Z.to_nat i.

(** Returns the index of the offset marker and the offset in seconds. *)
Definition parse_offset (bytes : list Z) : result MatchTimeError (Z * Z) :=
  index ← ok_or (position (λ b, (b =? 90) || (b =? 43) || (b =? 45)) (drop 19 bytes)) InvalidFormat;
  let offset_start := index + 19 in
  match byte_at bytes offset_start with
  | Some sign =>
    if sign =? 90 then
      if offset_start + 1 =? zlen bytes then Ok (offset_start, 0) else Err InvalidFormat
    else
      reject negb (offset_start + 6 =? zlen bytes) ||
             negb (bool_decide (byte_at bytes (offset_start + 3) = Some 58)) with InvalidOffset;;
      hours ← ok_or (parse_digits bytes (offset_start + 1) 2) InvalidOffset;
      minutes ← ok_or (parse_digits bytes (offset_start + 4) 2) InvalidOffset;
      reject (23 <? hours) || (59 <? minutes) with InvalidOffset;;
      let magnitude := hours * 3600 + minutes * 60 in
      Ok (offset_start, if sign =? 45 then - magnitude else magnitude)
  | None => Err InvalidFormat
  end.

Definition parse_fraction (bytes : list Z) (fraction_end : Z) : result MatchTimeError Z :=
  if fraction_end =? 19 then Ok 0 else
  reject negb (bool_decide (byte_at bytes 19 = Some 46)) || (fraction_end =? 20) with InvalidFormat;;
  let digits := take (Z.to_nat (fraction_end - 20)) (drop 20 bytes) in
  reject negb (forallb is_ascii_digit digits) with InvalidFormat;;
  reject existsb (λ d, negb (d =? 48)) (drop 6 digits) with PrecisionLoss;;
  Ok (dec_value (take 6 digits) * 10 ^ Z.of_nat (6 - length digits)).

Definition parse_match_time (bytes : list Z) : result MatchTimeError MatchTime :=
  let not_at i b := negb (bool_decide (byte_at bytes i = Some b)) in
  reject (zlen bytes <? 20) || not_at 4 45 || not_at 7 45 || not_at 10 84 || not_at 13 58 ||
         not_at 16 58 with InvalidFormat;;
  year ← ok_or (parse_digits bytes 0 4) InvalidFormat;
  month ← ok_or (parse_digits bytes 5 2) InvalidFormat;
  day ← ok_or (parse_digits bytes 8 2) InvalidFormat;
  _ ← validate_date InvalidDate year month day;
  hour ← ok_or (parse_digits bytes 11 2) InvalidFormat;
  minute ← ok_or (parse_digits bytes 14 2) InvalidFormat;
  second ← ok_or (parse_digits bytes 17 2) InvalidFormat;
  reject (23 <? hour) || (59 <? minute) || (59 <? second) with InvalidTime;;
  '(fraction_end, offset_seconds) ← parse_offset bytes;
  microseconds ← parse_fraction bytes fraction_end;
  let epoch_days := days_from_civil year month day in
  x ← ok_or (to_i64 (epoch_days * SECONDS_PER_DAY)) OutOfRange;
  x ← ok_or (to_i64 (x + hour * 3600)) OutOfRange;
  x ← ok_or (to_i64 (x + minute * 60)) OutOfRange;
  local_seconds ← ok_or (to_i64 (x + second)) OutOfRange;
  utc_seconds ← ok_or (to_i64 (local_seconds - offset_seconds)) OutOfRange;
  x ← ok_or (to_i64 (utc_seconds * MICROS_PER_SECOND)) OutOfRange;
  unix_microseconds ← ok_or (to_i64 (x + microseconds)) OutOfRange;
  Ok (from_unix_microseconds unix_microseconds).

Definition parse (input : list Z) : result MatchTimeError MatchTime := parse_match_time input.

Example time_parse_ex : parse (bytes_of "1970-01-01T08:00:00.5+08:00") = Ok (from_unix_microseconds 500000).
Proof. reflexivity. Qed.
Example iso_ex : to_iso8601 (from_unix_microseconds (-1)) (mk_offset (-30)) =
  Ok (bytes_of "1969-12-31T23:29:59.999999-00:30").
Proof. reflexivity. Qed.

Lemma position_app (p : Z → bool) l x r :
  Forall (λ b, p b = false) l → p x = true → position p (l ++ x :: r) = Some (zlen l).
Proof.
  intros Hl Hx. induction Hl as [|b l Hb _ IH]; simpl; [by rewrite Hx|].
  rewrite Hb, IH. simpl. f_equal. unfold zlen. simpl. lia.
Qed.

(** The 32-character text [to_iso8601] writes, field by field. *)
Definition iso_text (y mo d h mi sec us sign oh om : Z) : list Z :=
  fixed_digits 4 y ++ 45 :: fixed_digits 2 mo ++ 45 :: fixed_digits 2 d ++ 84 ::
  fixed_digits 2 h ++ 58 :: fixed_digits 2 mi ++ 58 :: fixed_digits 2 sec ++ 46 ::
  fixed_digits 6 us ++ sign :: fixed_digits 2 oh ++ 58 :: fixed_digits 2 om.

Lemma parse_digits_fixed bytes start w len n : len = Z.of_nat w →
  slice_get bytes start (start + len) = Some (fixed_digits w n) →
  0 ≤ n < 10 ^ Z.of_nat w → parse_digits bytes start len = Some n.
Proof.
  intros -> Hs Hn. unfold parse_digits. rewrite Hs. cbn [mbind option_bind].
  by rewrite (proj2 (forallb_digits _) (fixed_digits_digits _ _)), dec_value_fixed.
Qed.

Lemma iso_parse_offset y mo d h mi sec us sign oh om :
  (sign = 45 ∨ sign = 43) → 0 ≤ oh ≤ 23 → 0 ≤ om ≤ 59 →
  parse_offset (iso_text y mo d h mi sec us sign oh om) =
    Ok (26, let m := oh * 3600 + om * 60 in if sign =? 45 then - m else m).
Proof.
  intros Hsign Hoh Hom. set (t := iso_text _ _ _ _ _ _ _ _ _ _). unfold parse_offset.
  change (drop 19 t) with ((46 :: fixed_digits 6 us) ++ sign :: fixed_digits 2 oh ++ 58 :: fixed_digits 2 om).
  rewrite position_app; [|constructor; [done|]|by destruct Hsign as [-> | ->]].
  2: { eapply Forall_impl; [|apply (fixed_digits_digits 6 us)].
       intros b Hb. pose proof (digit_value_range b Hb). unfold digit_value in *. lia. }
  change (zlen (46 :: fixed_digits 6 us)) with 7. cbn [ok_or mbind result_bind].
  change (byte_at t (7 + 19)) with (Some sign). cbv beta iota.
  assert ((sign =? 90) = false) as -> by (destruct Hsign; lia).
  change (zlen t) with 32. change (byte_at t (7 + 19 + 3)) with (Some 58).
  rewrite bool_decide_true by done. cbn [negb orb].
  rewrite (parse_digits_fixed t (7 + 19 + 1) 2 2 oh) by (done || (simpl; lia)).
  rewrite (parse_digits_fixed t (7 + 19 + 4) 2 2 om) by (done || (simpl; lia)).
  cbn [ok_or mbind result_bind]. assert ((23 <? oh) || (59 <? om) = false) as -> by lia. done.
Qed.

Lemma iso_parse_fraction y mo d h mi sec us sign oh om : 0 ≤ us < 1000000 →
  parse_fraction (iso_text y mo d h mi sec us sign oh om) 26 = Ok us.
Proof.
  intros Hus. set (t := iso_text _ _ _ _ _ _ _ _ _ _). unfold parse_fraction.
  change (26 =? 19) with false. change (byte_at t 19) with (Some 46). rewrite bool_decide_true by done.
  change (take (Z.to_nat (26 - 20)) (drop 20 t)) with (fixed_digits 6 us). cbn [negb orb].
  change (26 =? 20) with false. cbv iota.
  rewrite (proj2 (forallb_digits _) (fixed_digits_digits _ _)). cbn [negb].
  change (drop 6 (fixed_digits 6 us)) with (@nil Z). cbn [existsb].
  change (take 6 (fixed_digits 6 us)) with (fixed_digits 6 us).
  rewrite dec_value_fixed by (simpl; lia). change (length (fixed_digits 6 us)) with 6%nat.
  change (10 ^ Z.of_nat (6 - 6)) with 1. by rewrite Z.mul_1_r.
Qed.

(** Parsing the fixed fields: the instant is the local time less the offset. *)
Lemma parse_fields t y mo d h mi sec us fraction_end off :
  (zlen t <? 20) = false → byte_at t 4 = Some 45 → byte_at t 7 = Some 45 → byte_at t 10 = Some 84 →
  byte_at t 13 = Some 58 → byte_at t 16 = Some 58 → slice_get t 0 4 = Some (fixed_digits 4 y) →
  slice_get t 5 7 = Some (fixed_digits 2 mo) → slice_get t 8 10 = Some (fixed_digits 2 d) →
  slice_get t 11 13 = Some (fixed_digits 2 h) → slice_get t 14 16 = Some (fixed_digits 2 mi) →
  slice_get t 17 19 = Some (fixed_digits 2 sec) →
  parse_offset t = Ok (fraction_end, off) → parse_fraction t fraction_end = Ok us →
  0 ≤ y ≤ 9999 → valid_date y mo d → 0 ≤ h ≤ 23 → 0 ≤ mi ≤ 59 → 0 ≤ sec ≤ 59 → 0 ≤ us < 1000000 → -86400 ≤ off ≤ 86400 →
  parse t = Ok (from_unix_microseconds
    ((days_from_civil y mo d * 86400 + h * 3600 + mi * 60 + sec - off) * 1000000 + us)).
Proof.
  intros Hlen H4 H7 H10 H13 H16 Sy Smo Sd Sh Smi Ssec Ho Hf Hy Hv Hh Hmi Hsec Hus Hoffr.
  pose proof (days_from_civil_bounds _ _ _ Hv Hy) as Hdays.
  destruct (TradingDate.valid_date_bounds _ _ _ Hv) as [Hmo Hd].
  unfold parse, parse_match_time. rewrite Hlen, H4, H7, H10, H13, H16, !bool_decide_true by done. cbn [negb orb].
  rewrite (parse_digits_fixed t 0 4 4 y) by (done || (simpl; lia)).
  rewrite (parse_digits_fixed t 5 2 2 mo) by (done || (simpl; lia)).
  rewrite (parse_digits_fixed t 8 2 2 d) by (done || (simpl; lia)).
  rewrite (parse_digits_fixed t 11 2 2 h) by (done || (simpl; lia)).
  rewrite (parse_digits_fixed t 14 2 2 mi) by (done || (simpl; lia)).
  rewrite (parse_digits_fixed t 17 2 2 sec) by (done || (simpl; lia)).
  cbn [ok_or mbind result_bind]. rewrite (proj2 (validate_date_Ok InvalidDate y mo d ltac:(lia)) Hv).
  cbn [mbind result_bind]. assert ((23 <? h) || (59 <? mi) || (59 <? sec) = false) as -> by lia.
  rewrite Ho. cbn [mbind result_bind]. rewrite Hf. cbn [mbind result_bind].
  assert (i64_max = 9223372036854775807) as Hmax by done. unfold to_i64, SECONDS_PER_DAY, MICROS_PER_SECOND.
  repeat (rewrite checked_in by lia; cbn [ok_or mbind result_bind]). done.
Qed.

Lemma iso_parse y mo d h mi sec us sign oh om off :
  0 ≤ y ≤ 9999 → valid_date y mo d → 0 ≤ h ≤ 23 → 0 ≤ mi ≤ 59 → 0 ≤ sec ≤ 59 → 0 ≤ us < 1000000 →
  (sign = 45 ∨ sign = 43) → 0 ≤ oh ≤ 23 → 0 ≤ om ≤ 59 →
  off = (let m := oh * 3600 + om * 60 in if sign =? 45 then - m else m) →
  parse (iso_text y mo d h mi sec us sign oh om) =
    Ok (from_unix_microseconds
          ((days_from_civil y mo d * 86400 + h * 3600 + mi * 60 + sec - off) * 1000000 + us)).
Proof.
  intros Hy Hv Hh Hmi Hsec Hus Hsign Hoh Hom Hoff. apply (parse_fields _ _ _ _ _ _ _ _ 26); try done.
  - by rewrite iso_parse_offset, <-Hoff.
  - by apply iso_parse_fraction.
  - rewrite Hoff. cbv zeta. destruct (sign =? 45); lia.
Qed.

(** Rendering an instant at any UTC offset and parsing the text gives the
    same instant back. *)
Theorem time_parse_iso8601 t offset s : wf_offset offset →
  to_iso8601 t offset = Ok s → parse s = Ok t.
Proof.
  unfold wf_offset, to_iso8601, MAX_UTC_OFFSET_MINUTES, MICROS_PER_SECOND, SECONDS_PER_DAY.
  intros Hoff H. destruct t as [t], offset as [off].
  cbn [as_unix_microseconds as_minutes] in *. cbv zeta in H.
  apply bind_Ok in H as (l0 & Hl & H). unfold to_i64 in Hl.
  destruct (checked _ _ _) eqn:Hc in Hl; [|discriminate Hl].
  apply checked_Some in Hc as [-> Hc]. injection Hl as <-.
  set (l := t + off * 60 * 1000000) in *.
  pose proof (Z.div_mod l 1000000 ltac:(lia)). pose proof (Z.mod_pos_bound l 1000000 ltac:(lia)).
  set (ls := l / 1000000) in *. set (us := l mod 1000000) in *.
  pose proof (Z.div_mod ls 86400 ltac:(lia)). pose proof (Z.mod_pos_bound ls 86400 ltac:(lia)).
  set (days := ls / 86400) in *. set (sec := ls mod 86400) in *.
  destruct (civil_from_days days) as [[y m] d] eqn:Hciv. cbv iota beta in H.
  destruct (days_from_civil_from_days _ _ _ _ Hciv) as [Hv Hdays].
  destruct (TradingDate.valid_date_bounds _ _ _ Hv) as [Hm Hd].
  destruct (in_range 0 9999 y) eqn:Hy; [|discriminate H]. injection H as <-. unfold in_range in Hy.
  pose proof (Z.mod_pos_bound sec 3600 ltac:(lia)).
  rewrite !Z.rem_mod_nonneg, !Z.quot_div_nonneg by lia.
  assert (Hh : 0 ≤ sec / 3600 ≤ 23) by divlia. assert (Hmi : 0 ≤ sec mod 3600 / 60 ≤ 59) by divlia.
  assert (Hs : 0 ≤ sec mod 60 ≤ 59) by divlia. assert (Hoh : 0 ≤ Z.abs off / 60 ≤ 23) by divlia.
  assert (Hom : 0 ≤ Z.abs off mod 60 ≤ 59) by divlia. assert (Hmax : 1000000 ≤ u128_max) by done.
  rewrite !pad_zero_fixed by (simpl; lia).
  change (parse (iso_text y m d (sec / 3600) (sec mod 3600 / 60) (sec mod 60) us
    (if off <? 0 then 45 else 43) (Z.abs off / 60) (Z.abs off mod 60)) = Ok (from_unix_microseconds t)).
  rewrite (iso_parse y m d _ _ _ us _ _ _ (off * 60)); try done; [|lia|by case_match; auto|].
  - rewrite Hdays. repeat f_equal. divlia.
  - destruct (Z.ltb_spec off 0); simpl; divlia.
Qed.

Lemma time_parse_iso8601_witness : ∃ s,
  to_iso8601 (from_unix_microseconds (-1)) (mk_offset (-570)) = Ok s ∧ parse s = Ok (from_unix_microseconds (-1)).
Proof.
  assert (H : ∃ s, to_iso8601 (from_unix_microseconds (-1)) (mk_offset (-570)) = Ok s) by (eexists; vm_compute; reflexivity).
  destruct H as (s & H). exists s. split; [exact H|].
  exact (time_parse_iso8601 (from_unix_microseconds (-1)) (mk_offset (-570)) s ltac:(by split) H).
Defined.

End MatchTime.
