(* ===== verification/Book.v ===== *)
(** The five-level book of market-types (book.rs) and the trade prints of
    trade.rs: slot arrays, their validation, complete snapshots, and the unit
    check of a trade batch. *)
From S2P Require Import Prelude Order Text Numeric Quantity.

(** ** book.rs *)
Module Book.

Definition BOOK_DEPTH : nat := 5.

Record BookLevel : Set := new_level {
  price : Price.Price;
  displayed_quantity : Quantity.Quantity }.

Inductive BookSideKind : Set := Bid | Ask.

(** [slots] is the array [[Option<BookLevel>; BOOK_DEPTH]]; its length is part
    of [side_wf]. *)
Record BookSide : Set := mk_side {
  kind : BookSideKind;
  market_order_quantity : option Quantity.Quantity;
  slots : list (option BookLevel) }.

Inductive BookError : Set :=
| TooManyLevels (side : BookSideKind) (count : Z)
| NonContiguous (side : BookSideKind) (index : Z)
| PriceOrder (side : BookSideKind) (index : Z)
| UnitMismatch (side : BookSideKind) (expected actual : Quantity.QuantityUnit) (index : Z)
| WrongSide (expected actual : BookSideKind)
| CrossSideUnitMismatch (bid ask : Quantity.QuantityUnit).

#[global] Instance BookLevel_eq_dec : EqDecision BookLevel.
Proof. solve_decision. Defined.
#[global] Instance BookSideKind_eq_dec : EqDecision BookSideKind.
Proof. solve_decision. Defined.
#[global] Instance BookSide_eq_dec : EqDecision BookSide.
Proof. solve_decision. Defined.

(** [slots.iter().map_while(Option::as_ref)]. *)
Fixpoint map_while_some (l : list (option BookLevel)) : list BookLevel :=
  match l with Some level :: l => level :: map_while_some l | _ => [] end.
Definition levels (side : BookSide) : list BookLevel := map_while_some (slots side).

Definition level_unit (level : BookLevel) : Quantity.QuantityUnit := Quantity.unit (displayed_quantity level).

Definition side_quantity_unit (side : BookSide) : option Quantity.QuantityUnit :=
  match Quantity.unit <$> market_order_quantity side with
  | Some unit => Some unit
  | None => level_unit <$> head (levels side)
  end.

(** One slot of [validate]'s loop: the state is [empty_seen], [previous] and [unit]. *)
Definition correctly_ordered (k : BookSideKind) (previous level : BookLevel) : bool :=
  match k with
  | Bid => Price.lt (price level) (price previous)
  | Ask => Price.lt (price previous) (price level)
  end.

Definition expect_unit (k : BookSideKind) (index : Z) (unit : option Quantity.QuantityUnit)
    (actual : Quantity.QuantityUnit) : result BookError (option Quantity.QuantityUnit) :=
  match unit with
  | Some expected =>
      if decide (expected = actual) then Ok (Some expected)
      else Err (UnitMismatch k expected actual index)
  | None => Ok (Some actual)
  end.

Definition expect_order (k : BookSideKind) (index : Z) (previous : option BookLevel)
    (level : BookLevel) : result BookError () :=
  match previous with
  | Some previous => if correctly_ordered k previous level then Ok () else Err (PriceOrder k index)
  | None => Ok ()
  end.

Fixpoint validate_slots (k : BookSideKind) (index : Z) (empty_seen : bool)
    (previous : option BookLevel) (unit : option Quantity.QuantityUnit)
    (l : list (option BookLevel)) : result BookError () :=
  match l with
  | [] => Ok ()
  | None :: l => validate_slots k (index + 1) true previous unit l
  | Some level :: l =>
      reject empty_seen with NonContiguous k index;;
      unit' ← expect_unit k index unit (level_unit level);
      _ ← expect_order k index previous level;
      validate_slots k (index + 1) empty_seen (Some level) unit' l
  end.

Definition displayed_entry_count (side : BookSide) : Z :=
  zlen (levels side) + (if decide (market_order_quantity side = None) then 0 else 1).

Definition validate (side : BookSide) : result BookError () :=
  reject Z.of_nat BOOK_DEPTH <? displayed_entry_count side
    with TooManyLevels (kind side) (displayed_entry_count side);;
  validate_slots (kind side) 0 false None (Quantity.unit <$> market_order_quantity side) (slots side).

Definition from_parts (k : BookSideKind) (m : option Quantity.Quantity)
    (s : list (option BookLevel)) : result BookError BookSide :=
  let side := mk_side k m s in
  _ ← validate side; Ok side.

Definition from_slots (k : BookSideKind) (s : list (option BookLevel)) : result BookError BookSide :=
  from_parts k None s.

Definition with_market_order_quantity (k : BookSideKind) (m : option Quantity.Quantity)
    (ls : list BookLevel) : result BookError BookSide :=
  reject (BOOK_DEPTH <? length ls)%nat with TooManyLevels k (zlen ls);;
  from_parts k m ((Some <$> ls) ++ replicate (BOOK_DEPTH - length ls) None).

Definition new (k : BookSideKind) (ls : list BookLevel) : result BookError BookSide :=
  with_market_order_quantity k None ls.

Record CompleteBookSnapshot : Set := mk_snapshot { bids : BookSide; asks : BookSide }.

#[global] Instance CompleteBookSnapshot_eq_dec : EqDecision CompleteBookSnapshot.
Proof. solve_decision. Defined.

Definition new_snapshot (b a : BookSide) : result BookError CompleteBookSnapshot :=
  reject bool_decide (kind b ≠ Bid) with WrongSide Bid (kind b);;
  reject bool_decide (kind a ≠ Ask) with WrongSide Ask (kind a);;
  match side_quantity_unit b, side_quantity_unit a with
  | Some bid, Some ask =>
      reject bool_decide (bid ≠ ask) with CrossSideUnitMismatch bid ask;; Ok (mk_snapshot b a)
  | _, _ => Ok (mk_snapshot b a)
  end.

Definition quantity_unit (s : CompleteBookSnapshot) : option Quantity.QuantityUnit :=
  match side_quantity_unit (bids s) with
  | Some u => Some u
  | None => side_quantity_unit (asks s)
  end.

(** *** What an accepted book promises *)

(** Prices get strictly worse from one level to the next. *)
Definition better (k : BookSideKind) (x y : BookLevel) : Prop :=
  match k with
  | Bid => Price.atoms (price y) < Price.atoms (price x)
  | Ask => Price.atoms (price x) < Price.atoms (price y)
  end.

Definition side_units (side : BookSide) : list Quantity.QuantityUnit :=
  option_list (Quantity.unit <$> market_order_quantity side) ++ (level_unit <$> levels side).

(** The slots hold the levels first and nothing after them, at most five
    entries are displayed, every quantity has one unit, and prices are
    strictly ordered. *)
Definition side_valid (side : BookSide) : Prop :=
  slots side = (Some <$> levels side) ++ replicate (BOOK_DEPTH - length (levels side)) None ∧
  displayed_entry_count side ≤ Z.of_nat BOOK_DEPTH ∧
  (∀ u, u ∈ side_units side → side_quantity_unit side = Some u) ∧
  StronglySorted (better (kind side)) (levels side).

Definition level_wf (l : BookLevel) : Prop := Price.wf (price l) ∧ Quantity.wf (displayed_quantity l).

Definition side_wf (side : BookSide) : Prop :=
  side_valid side ∧ (∀ q, market_order_quantity side = Some q → Quantity.wf q) ∧
  Forall level_wf (levels side).

Definition snapshot_valid (s : CompleteBookSnapshot) : Prop :=
  kind (bids s) = Bid ∧ kind (asks s) = Ask ∧
  (∀ u, u ∈ side_units (bids s) ++ side_units (asks s) → quantity_unit s = Some u).

Definition snapshot_wf (s : CompleteBookSnapshot) : Prop :=
  side_wf (bids s) ∧ side_wf (asks s) ∧ snapshot_valid s.

(** *** The validator accepts exactly the books of [side_valid] *)

#[global] Instance better_trans k : Transitive (better k).
Proof. intros x y z. destruct k; simpl; lia. Qed.

Lemma correctly_ordered_better k x y : correctly_ordered k x y = true ↔ better k x y.
Proof. destruct k; simpl; apply Price.lt_atoms. Qed.

Lemma map_while_some_app ls n : map_while_some ((Some <$> ls) ++ replicate n None) = ls.
Proof. induction ls as [|l ls IH]; simpl; [by destruct n|by f_equal]. Qed.

Lemma validate_slots_empty k index previous unit l :
  validate_slots k index true previous unit l = Ok () ↔ l = replicate (length l) None.
Proof.
  revert index. induction l as [|[x|] l IH]; intros index; simpl; [done|done|].
  rewrite IH. split; [by intros Hl; f_equal|by intros [= <-]].
Qed.

Lemma expect_unit_Ok k index unit u unit' :
  expect_unit k index unit u = Ok unit' ↔ unit' = Some u ∧ (∀ v, unit = Some v → v = u).
Proof. unfold expect_unit. destruct unit as [v|]; [destruct (decide (v = u))|]; naive_solver. Qed.

Lemma expect_order_Ok k index previous level :
  expect_order k index previous level = Ok () ↔ (∀ p, previous = Some p → better k p level).
Proof.
  unfold expect_order. destruct previous as [p|]; [|naive_solver].
  pose proof (correctly_ordered_better k p level) as Hb.
  destruct (correctly_ordered k p level); naive_solver.
Qed.

(** Every unit of the list is its first one. *)
Definition one_unit (us : list Quantity.QuantityUnit) : Prop := ∀ u, u ∈ us → head us = Some u.

Lemma one_unit_cons unit u us : one_unit (option_list unit ++ u :: us) ↔
  (∀ v, unit = Some v → v = u) ∧ one_unit (u :: us).
Proof.
  unfold one_unit. destruct unit as [v|]; simpl.
  - split; [intros H|intros [Hv H] w].
    + assert (v = u) as -> by (assert (Some v = Some u) by (apply H; set_solver); congruence).
      split; [by intros ? [= ->]|]. intros w Hw. apply H. set_solver.
    + rewrite elem_of_cons. specialize (Hv v eq_refl) as ->. intros [->|Hw]; [done|by apply H].
  - naive_solver.
Qed.

Lemma sorted_option_cons k previous x ls : StronglySorted (better k) (option_list previous ++ x :: ls) ↔
  (∀ p, previous = Some p → better k p x) ∧ StronglySorted (better k) (x :: ls).
Proof.
  destruct previous as [p|]; simpl; [|naive_solver]. split.
  - inversion_clear 1 as [|? ? Hs Hf]. inversion_clear Hf. split; [by intros ? [= <-]|done].
  - intros [Hp Hs]. specialize (Hp p eq_refl). constructor; [done|].
    constructor; [done|]. inversion_clear Hs as [|? ? _ Hf].
    eapply Forall_impl; [|exact Hf]. intros y Hy. by etrans.
Qed.

Lemma validate_slots_Ok k index previous unit l :
  validate_slots k index false previous unit l = Ok () ↔
  l = (Some <$> map_while_some l) ++ replicate (length l - length (map_while_some l)) None ∧
  one_unit (option_list unit ++ (level_unit <$> map_while_some l)) ∧
  StronglySorted (better k) (option_list previous ++ map_while_some l).
Proof.
  revert index previous unit. induction l as [|[x|] l IH]; intros index previous unit; simpl.
  - rewrite !app_nil_r. split; [intros _|done]. split_and!; [done| |].
    + intros u. destruct unit; simpl; [|by intros ?%not_elem_of_nil]. by intros ->%list_elem_of_singleton.
    + destruct previous; simpl; repeat constructor.
  - rewrite one_unit_cons, sorted_option_cons, bind_Ok. setoid_rewrite bind_Ok.
    setoid_rewrite expect_unit_Ok. split.
    + intros (unit' & [-> Hu] & [] & Ho & Hv).
      rewrite expect_order_Ok in Ho. apply IH in Hv as (Hl & H1 & Hs).
      split_and!; try done. simpl. by f_equal.
    + intros (Hl & [Hu H1] & Ho & Hs). exists (Some (level_unit x)). split; [done|]. exists ().
      split; [by apply expect_order_Ok|]. apply IH. split_and!; [by injection Hl|done|done].
  - rewrite validate_slots_empty, !app_nil_r. split.
    + intros Hl. split_and!; [by f_equal| |by destruct previous; simpl; repeat constructor].
      intros u. destruct unit; simpl; [|by intros ?%not_elem_of_nil]. by intros ->%list_elem_of_singleton.
    + intros [[= Hl] _]. done.
Qed.

Lemma side_quantity_unit_head s : side_quantity_unit s = head (side_units s).
Proof.
  unfold side_quantity_unit, side_units. destruct (market_order_quantity s); simpl; [done|].
  by destruct (levels s).
Qed.

Lemma validate_Ok s : length (slots s) = BOOK_DEPTH → validate s = Ok () ↔ side_valid s.
Proof.
  intros Hlen. unfold validate, side_valid. setoid_rewrite side_quantity_unit_head.
  destruct (Z.ltb_spec (Z.of_nat BOOK_DEPTH) (displayed_entry_count s)).
  { split; [done|]. intros (_ & ? & _). lia. }
  rewrite validate_slots_Ok. unfold levels. rewrite Hlen. simpl. split.
  - intros (Hl & H1 & Hs). by split_and!.
  - intros (Hl & _ & H1 & Hs). by split_and!.
Qed.

Lemma from_parts_Ok k m s side : length s = BOOK_DEPTH →
  from_parts k m s = Ok side ↔ side = mk_side k m s ∧ side_valid side.
Proof.
  intros Hlen. unfold from_parts. rewrite bind_Ok. split.
  - intros ([] & Hv & [= <-]). split; [done|]. by apply validate_Ok.
  - intros [-> Hv]. exists (). split; [|done]. by apply validate_Ok.
Qed.

(** A slot array is accepted exactly when it displays at most five entries,
    holds its levels first, strictly price-ordered and in one unit; the
    accepted side is the array unchanged. *)
Theorem from_parts_spec k m s side : length s = BOOK_DEPTH →
  from_parts k m s = Ok side ↔ side = mk_side k m s ∧ side_valid side.
Proof. apply from_parts_Ok. Qed.

Lemma side_valid_slots side : side_valid side → length (slots side) = BOOK_DEPTH.
Proof.
  intros (Hs & Hc & _). rewrite Hs, length_app, length_fmap, length_replicate.
  unfold displayed_entry_count, zlen in Hc. unfold BOOK_DEPTH in *. destruct (decide _); lia.
Qed.

Lemma from_parts_spec_witness : from_parts Bid None [None; None; None; None; None] =
  Ok (mk_side Bid None [None; None; None; None; None]).
Proof.
  apply (from_parts_spec Bid None [None; None; None; None; None]); [reflexivity|].
  split; [reflexivity|]. apply (validate_Ok (mk_side Bid None [None; None; None; None; None])); reflexivity.
Defined.

Lemma length_level_slots (ls : list BookLevel) : (length ls ≤ BOOK_DEPTH)%nat →
  length ((Some <$> ls) ++ replicate (BOOK_DEPTH - length ls) (@None BookLevel)) = BOOK_DEPTH.
Proof. intros. rewrite length_app, length_fmap, length_replicate. lia. Qed.

(** A side built from a list of levels displays exactly that list, and the
    build succeeds exactly when the list is short enough, strictly ordered
    and in one unit. *)
Theorem with_market_order_quantity_spec k m ls :
  (∃ side, with_market_order_quantity k m ls = Ok side ∧ levels side = ls ∧ side_valid side) ↔
  (length ls + length (option_list m) ≤ BOOK_DEPTH)%nat ∧ StronglySorted (better k) ls ∧
  one_unit (option_list (Quantity.unit <$> m) ++ (level_unit <$> ls)).
Proof.
  unfold with_market_order_quantity. set (s := (Some <$> ls) ++ _).
  assert (Hlv : levels (mk_side k m s) = ls) by apply map_while_some_app.
  assert (Hcount : displayed_entry_count (mk_side k m s) = zlen ls + zlen (option_list m)).
  { unfold displayed_entry_count. rewrite Hlv. simpl. by destruct m. }
  assert (Hhead : ∀ u, side_quantity_unit (mk_side k m s) = Some u ↔
    head (option_list (Quantity.unit <$> m) ++ (level_unit <$> ls)) = Some u).
  { intros u. rewrite side_quantity_unit_head. unfold side_units. by rewrite Hlv. }
  unfold zlen in *. split.
  - destruct (BOOK_DEPTH <? length ls)%nat; [by intros (? & ? & _)|].
    intros (side & H & _ & _). unfold from_parts in H. apply bind_Ok in H as ([] & Hv & _).
    destruct (Nat.leb_spec (length ls) BOOK_DEPTH) as [Hle|Hgt].
    + apply validate_Ok in Hv; [|apply length_level_slots; lia].
      destruct Hv as (_ & Hc & Hu & Hs). rewrite Hcount in Hc. rewrite Hlv in Hs.
      split_and!; [lia|done|]. intros u Hin. apply Hhead, Hu. unfold side_units. by rewrite Hlv.
    + unfold validate in Hv. rewrite Hcount in Hv. destruct (Z.ltb_spec (Z.of_nat BOOK_DEPTH)
        (Z.of_nat (length ls) + Z.of_nat (length (option_list m)))); [done|lia].
  - intros (Hlen & Hs & Hu). rewrite (proj2 (Nat.ltb_ge BOOK_DEPTH (length ls))) by lia.
    assert (Hv : side_valid (mk_side k m s)).
    { unfold side_valid. rewrite Hcount, Hlv. split_and!; [done|lia| |done].
      intros u Hin. apply Hhead, Hu. revert Hin. unfold side_units. by rewrite Hlv. }
    exists (mk_side k m s). split_and!; [|done|done]. unfold from_parts.
    assert (validate (mk_side k m s) = Ok ()) as -> by
      (apply validate_Ok; [apply length_level_slots; lia|done]). done.
Qed.

(** A snapshot is accepted exactly when its sides are the right way round and
    share a unit. *)
Lemma new_snapshot_Ok b a s : side_valid b → side_valid a →
  new_snapshot b a = Ok s ↔ s = mk_snapshot b a ∧ snapshot_valid s.
Proof.
  intros (_ & _ & Hb & _) (_ & _ & Ha & _).
  assert (Hub : ∀ u, side_quantity_unit b = Some u → u ∈ side_units b).
  { intros u. rewrite side_quantity_unit_head. destruct (side_units b); [done|]. intros [= ->]. by left. }
  assert (Hua : ∀ u, side_quantity_unit a = Some u → u ∈ side_units a).
  { intros u. rewrite side_quantity_unit_head. destruct (side_units a); [done|]. intros [= ->]. by left. }
  unfold new_snapshot, snapshot_valid.
  assert (Hnew : s = mk_snapshot b a → (∀ u, u ∈ side_units (bids s) ++ side_units (asks s) → quantity_unit s = Some u) ↔
    (∀ x y, side_quantity_unit b = Some x → side_quantity_unit a = Some y → x = y)).
  { intros ->. unfold quantity_unit. simpl. setoid_rewrite elem_of_app. split.
    - intros H x y Hx Hy. specialize (H y (or_intror (Hua y Hy))). rewrite Hx in H. congruence.
    - intros H u [Hu|Hu]; [by rewrite (Hb _ Hu)|]. rewrite (Ha _ Hu) in H |- *.
      destruct (side_quantity_unit b) as [x|] eqn:E; [|done]. f_equal. by apply H. }
  destruct (decide (kind b = Bid)) as [Hkb|Hkb].
  2: { rewrite bool_decide_true by done. split; [done|]. intros (-> & ? & _). done. }
  rewrite bool_decide_false by tauto. destruct (decide (kind a = Ask)) as [Hka|Hka].
  2: { rewrite bool_decide_true by done. split; [done|]. intros (-> & _ & ? & _). done. }
  rewrite bool_decide_false by tauto.
  destruct (side_quantity_unit b) as [x|], (side_quantity_unit a) as [y|]; try case_bool_decide; naive_solver.
Qed.

End Book.

(** ** trade.rs *)
Module Trade.

Inductive TradeObservationKind : Set := Regular | Intermediate.
Definition kind_discriminant (k : TradeObservationKind) : Z :=
  match k with Regular => 0 | Intermediate => 1 end.

Record ObservedTrade : Set := new {
  price : Price.Price; quantity : Quantity.Quantity; observation_kind : TradeObservationKind }.

Inductive TradeBatchOrdering : Set := Unspecified | SourceSequencePreserved.
Definition ordering_discriminant (o : TradeBatchOrdering) : Z :=
  match o with Unspecified => 0 | SourceSequencePreserved => 1 end.

Inductive TradeError : Set :=
| Empty | UnitMismatch (expected actual : Quantity.QuantityUnit) (index : Z).

#[global] Instance TradeObservationKind_eq_dec : EqDecision TradeObservationKind.
Proof. solve_decision. Defined.
#[global] Instance ObservedTrade_eq_dec : EqDecision ObservedTrade.
Proof. solve_decision. Defined.

Definition trade_unit (t : ObservedTrade) : Quantity.QuantityUnit := Quantity.unit (quantity t).

Fixpoint check_units (first : Quantity.QuantityUnit) (index : Z) (l : list ObservedTrade) : result TradeError () :=
  match l with
  | [] => Ok ()
  | t :: l =>
      reject bool_decide (trade_unit t ≠ first) with UnitMismatch first (trade_unit t) index;;
      check_units first (index + 1) l
  end.

Definition validate_trade_units (trades : list ObservedTrade) : result TradeError Quantity.QuantityUnit :=
  first ← ok_or (head trades) Empty;
  _ ← check_units (trade_unit first) 1 (drop 1 trades);
  Ok (trade_unit first).

Definition wf (t : ObservedTrade) : Prop := Price.wf (price t) ∧ Quantity.wf (quantity t).

Lemma check_units_Ok first index l :
  check_units first index l = Ok () ↔ Forall (λ t, trade_unit t = first) l.
Proof.
  revert index. induction l as [|t l IH]; intros index; simpl; [by split|].
  rewrite Forall_cons_iff, <-(IH (index + 1)). case_bool_decide; naive_solver.
Qed.

Lemma check_units_Err first index l e : check_units first index l = Err e ↔
  ∃ pre t post, l = pre ++ t :: post ∧ Forall (λ t, trade_unit t = first) pre ∧
    trade_unit t ≠ first ∧ e = UnitMismatch first (trade_unit t) (index + zlen pre).
Proof.
  revert index. induction l as [|t l IH]; intros index; simpl.
  { split; [done|]. by intros ([|??] & ? & ? & ? & _). }
  case_bool_decide as Ht.
  - split.
    + intros [= <-]. exists [], t, l. unfold zlen. rewrite Z.add_0_r. by repeat constructor.
    + intros ([|t' pre] & t0 & post & [= -> ->] & Hpre & Ht0 & ->); [by rewrite Z.add_0_r|].
      by apply Forall_cons_1 in Hpre as [??].
  - rewrite IH. unfold zlen. split.
    + intros (pre & t0 & post & -> & Hpre & Ht0 & ->). exists (t :: pre), t0, post.
      split_and!; [done|constructor; [by destruct (decide (trade_unit t = first))|done]|done|]. f_equal. simpl. lia.
    + intros ([|t' pre] & t0 & post & [= -> ->] & Hpre & Ht0 & ->); [done|].
      apply Forall_cons_1 in Hpre as [??]. exists pre, t0, post. split_and!; try done. f_equal. simpl. lia.
Qed.

(** A batch is accepted exactly when it is non-empty and every print has
    the returned unit; a rejection names the first print that differs. *)
Theorem validate_trade_units_spec trades :
  match validate_trade_units trades with
  | Ok u => trades ≠ [] ∧ Forall (λ t, trade_unit t = u) trades
  | Err Empty => trades = []
  | Err (UnitMismatch expected actual index) => ∃ pre t post,
      trades = pre ++ t :: post ∧ pre ≠ [] ∧ Forall (λ t, trade_unit t = expected) pre ∧
      actual = trade_unit t ∧ actual ≠ expected ∧ index = zlen pre
  end.
Proof.
  unfold validate_trade_units. destruct trades as [|t l]; simpl; [done|]. rewrite drop_0.
  destruct (check_units (trade_unit t) 1 l) as [[]|e] eqn:E; simpl.
  - apply check_units_Ok in E. split; [done|]. by apply Forall_cons_2.
  - apply check_units_Err in E as (pre & t0 & post & -> & Hpre & Ht0 & ->).
    exists (t :: pre), t0, post. unfold zlen. simpl. split_and!; try done; [by constructor|lia].
Qed.

End Trade.
