(* ===== verification/Identity.v ===== *)
(** Identities of market-types: markets (market.rs), UTF-8 symbols and source
    formats (symbol.rs, source_format.rs) and instruments (instrument.rs),
    with the total orders the replay engine sorts by. *)
From S2P Require Import Prelude Order.

(** ** [str]: byte strings that are valid UTF-8

    [std::str::from_utf8] accepts the well-formed sequences of the Unicode
    standard's table 3-7; a [&str] is the accepted bytes. *)
Module Utf8.

Definition continuation (b : Z) : bool := in_range 128 191 b.

(** The length of the sequence a lead byte starts and the range of its second byte. *)
Definition lead (b : Z) : option (nat * Z * Z) :=
  if in_range 0 127 b then Some (0%nat, 0, 0)
  else if in_range 194 223 b then Some (1%nat, 128, 191)
  else if b =? 224 then Some (2%nat, 160, 191)
  else if in_range 225 236 b || in_range 238 239 b then Some (2%nat, 128, 191)
  else if b =? 237 then Some (2%nat, 128, 159)
  else if b =? 240 then Some (3%nat, 144, 191)
  else if in_range 241 243 b then Some (3%nat, 128, 191)
  else if b =? 244 then Some (3%nat, 128, 143)
  else None.

(** [pending] continuation bytes are still due; the next one must lie in [lo, hi]. *)
Fixpoint scan (pending : nat) (lo hi : Z) (bytes : list Z) : bool :=
  match bytes with
  | [] => match pending with O => true | S _ => false end
  | b :: rest =>
      match pending with
      | S n => in_range lo hi b && scan n 128 191 rest
      | O => match lead b with Some (n, lo, hi) => scan n lo hi rest | None => false end
      end
  end.

Definition valid (bytes : list Z) : bool := scan 0 0 0 bytes.

Example valid_ascii : valid (bytes_of "2330") = true.
Proof. reflexivity. Qed.
Example valid_taiwan : valid [229; 143; 176] = true.
Proof. reflexivity. Qed.
Example surrogate_rejected : valid [237; 160; 128] = false.
Proof. reflexivity. Qed.

Lemma scan_u8 pending lo hi bytes :
  (pending = 0%nat ∨ (0 ≤ lo ∧ hi ≤ 191)) → scan pending lo hi bytes = true → Forall is_u8 bytes.
Proof.
  revert pending lo hi. induction bytes as [|b bytes IH]; intros pending lo hi Hp; [by constructor|].
  cbn [scan]. destruct pending as [|n].
  - unfold lead. intros H. constructor.
    + revert H. unfold in_range, is_u8, u8_max. repeat case_match; intros; (discriminate || lia).
    + revert H. repeat case_match; intros; simplify_eq; (discriminate || (eapply IH; [|done]; (by left) || (right; lia))).
  - destruct Hp as [Hp|Hp]; [done|]. intros [Hb Hs]%andb_prop.
    constructor; [unfold in_range, is_u8, u8_max in *; lia|]. eapply IH; [|done]. right; lia.
Qed.

Lemma valid_u8 bytes : valid bytes = true → Forall is_u8 bytes.
Proof. apply scan_u8. by left. Qed.

End Utf8.

(** ** market.rs *)
Module Market.

Inductive MarketId : Set := Twse | Tpex | Taifex.
Inductive MarketIdError : Set := UnknownDiscriminant (value : Z).

#[global] Instance MarketId_eq_dec : EqDecision MarketId.
Proof. solve_decision. Defined.

Definition discriminant (m : MarketId) : Z := match m with Twse => 1 | Tpex => 2 | Taifex => 3 end.
Definition ordering_rank (m : MarketId) : Z := discriminant m.
Definition from_discriminant (d : Z) : result MarketIdError MarketId :=
  if d =? 1 then Ok Twse else if d =? 2 then Ok Tpex else if d =? 3 then Ok Taifex
  else Err (UnknownDiscriminant d).

#[global] Instance MarketId_ord : Ord MarketId := cmp_on ordering_rank.
#[global] Instance ordering_rank_inj : Inj (=) (=) ordering_rank.
Proof. by intros [] []. Qed.
#[global] Instance MarketId_ord_laws : OrdLaws MarketId.
Proof. apply cmp_on_laws, _. Qed.

#[global] Instance MarketId_countable : Countable MarketId.
Proof.
  apply (inj_countable' discriminant (λ d, match from_discriminant d with Ok m => m | _ => Twse end)).
  by intros [].
Defined.

Lemma from_discriminant_discriminant m : from_discriminant (discriminant m) = Ok m.
Proof. by destruct m. Qed.

Lemma discriminant_from_discriminant d m : from_discriminant d = Ok m → discriminant m = d.
Proof. unfold from_discriminant. repeat case_match; intros; simplify_eq/=; lia. Qed.

Lemma discriminant_u8 m : is_u8 (discriminant m).
Proof. by destruct m. Qed.

End Market.

(** ** symbol.rs *)
Module Symbol.

Record Symbol : Set := mk { as_bytes : list Z }.
Inductive SymbolError : Set := Empty.

#[global] Instance Symbol_eq_dec : EqDecision Symbol.
Proof. solve_decision. Defined.

(** The argument is a [str]; the constructor keeps its bytes. *)
Definition new (value : list Z) : result SymbolError Symbol :=
  match value with [] => Err Empty | _ => Ok (mk value) end.

Definition wf (s : Symbol) : Prop := as_bytes s ≠ [] ∧ Utf8.valid (as_bytes s) = true.

#[global] Instance Symbol_ord : Ord Symbol := cmp_on as_bytes.
#[global] Instance as_bytes_inj : Inj (=) (=) as_bytes.
Proof. by intros [] [] [= ->]. Qed.
#[global] Instance Symbol_ord_laws : OrdLaws Symbol.
Proof. apply cmp_on_laws, _. Qed.
#[global] Instance Symbol_countable : Countable Symbol.
Proof. apply (inj_countable' as_bytes mk). by intros []. Defined.

Lemma new_symbol_Ok value s : new value = Ok s ↔ s = mk value ∧ value ≠ [].
Proof. unfold new. destruct value; naive_solver. Qed.

End Symbol.

(** ** source_format.rs *)
Module SourceFormat.

Record SourceFormatId : Set := mk { as_bytes : list Z }.
Inductive SourceFormatIdError : Set := Empty.

#[global] Instance SourceFormatId_eq_dec : EqDecision SourceFormatId.
Proof. solve_decision. Defined.

Definition new (value : list Z) : result SourceFormatIdError SourceFormatId :=
  match value with [] => Err Empty | _ => Ok (mk value) end.

Definition wf (s : SourceFormatId) : Prop := as_bytes s ≠ [] ∧ Utf8.valid (as_bytes s) = true.

#[global] Instance SourceFormatId_ord : Ord SourceFormatId := cmp_on as_bytes.
#[global] Instance as_bytes_inj : Inj (=) (=) as_bytes.
Proof. by intros [] [] [= ->]. Qed.
#[global] Instance SourceFormatId_ord_laws : OrdLaws SourceFormatId.
Proof. apply cmp_on_laws, _. Qed.
#[global] Instance SourceFormatId_countable : Countable SourceFormatId.
Proof. apply (inj_countable' as_bytes mk). by intros []. Defined.

Lemma new_format_Ok value s : new value = Ok s ↔ s = mk value ∧ value ≠ [].
Proof. unfold new. destruct value; naive_solver. Qed.

End SourceFormat.

(** ** instrument.rs *)
Module Instrument.

Record InstrumentId : Set := new { market : Market.MarketId; symbol : Symbol.Symbol }.

#[global] Instance InstrumentId_eq_dec : EqDecision InstrumentId.
Proof. solve_decision. Defined.

Definition wf (i : InstrumentId) : Prop := Symbol.wf (symbol i).

(** [self.market.cmp(&other.market).then_with(|| self.symbol.cmp(&other.symbol))]. *)
#[global] Instance InstrumentId_ord : Ord InstrumentId := cmp_on (λ i, (market i, symbol i)).
#[global] Instance instrument_key_inj : Inj (=) (=) (λ i, (market i, symbol i)).
Proof. by intros [] [] [= -> ->]. Qed.
#[global] Instance InstrumentId_ord_laws : OrdLaws InstrumentId.
Proof. apply cmp_on_laws, _. Qed.
#[global] Instance InstrumentId_countable : Countable InstrumentId.
Proof. apply (inj_countable' (λ i, (market i, symbol i)) (λ '(m, s), new m s)). by intros []. Defined.

End Instrument.
