(* ===== verification/Signal.v ===== *)
(** What a market event observes: [Observation] and [UnknownValue]
    (observation.rs), auction evidence and market signals (signal.rs) and the
    TWSE/TPEx quote-header bits (annotations.rs). *)
From S2P Require Import Prelude Order Text Numeric Identity.

(** ** observation.rs *)
Module Observation.

(** [Text] holds the bytes of a [Box<str>]. *)
Inductive UnknownValue : Set :=
| Unsigned (v : Z) | Signed (v : Z) | DecimalValue (d : Decimal.Decimal)
| TextValue (text : list Z) | Bytes (bytes : list Z).

Inductive Observation (T : Type) : Type :=
| NoObservation | Set_ (value : T) | Clear | Unknown (value : UnknownValue).
Arguments NoObservation {T}.
Arguments Set_ {T} value.
Arguments Clear {T}.
Arguments Unknown {T} value.

#[global] Instance UnknownValue_eq_dec : EqDecision UnknownValue.
Proof. solve_decision. Defined.
#[global] Instance Observation_eq_dec {T} `{EqDecision T} : EqDecision (Observation T).
Proof. solve_decision. Defined.

Definition discriminant {T} (o : Observation T) : Z :=
  match o with NoObservation => 0 | Set_ _ => 1 | Clear => 2 | Unknown _ => 3 end.
Definition as_set {T} (o : Observation T) : option T :=
  match o with Set_ v => Some v | _ => None end.
Definition unknown_discriminant (u : UnknownValue) : Z :=
  match u with
  | Unsigned _ => 1 | Signed _ => 2 | DecimalValue _ => 3 | TextValue _ => 4 | Bytes _ => 5
  end.

(** What the Rust types guarantee. *)
Definition unknown_wf (u : UnknownValue) : Prop :=
  match u with
  | Unsigned v => is_u64 v
  | Signed v => is_i64 v
  | DecimalValue d => Decimal.wf d
  | TextValue t => Utf8.valid t = true
  | Bytes b => Forall is_u8 b
  end.
Definition wf {T} (P : T → Prop) (o : Observation T) : Prop :=
  match o with Set_ v => P v | Unknown u => unknown_wf u | _ => True end.

End Observation.

(** ** signal.rs *)
Module Signal.

Inductive AuctionPurpose : Set := Opening | Closing | Periodic | VolatilityInterruption.
Inductive VolatilityDirection : Set := Down | Up.
Inductive AuctionEvidence (T : Type) : Type := NoObservation | Known (value : T) | Unknown.
Arguments NoObservation {T}.
Arguments Known {T} value.
Arguments Unknown {T}.

#[global] Instance AuctionPurpose_eq_dec : EqDecision AuctionPurpose.
Proof. solve_decision. Defined.
#[global] Instance VolatilityDirection_eq_dec : EqDecision VolatilityDirection.
Proof. solve_decision. Defined.
#[global] Instance AuctionEvidence_eq_dec {T} `{EqDecision T} : EqDecision (AuctionEvidence T).
Proof. solve_decision. Defined.

Definition purpose_discriminant (p : AuctionPurpose) : Z :=
  match p with Opening => 1 | Closing => 2 | Periodic => 3 | VolatilityInterruption => 4 end.
Definition purpose_from_discriminant (v : Z) : option AuctionPurpose :=
  if v =? 1 then Some Opening else if v =? 2 then Some Closing else
  if v =? 3 then Some Periodic else if v =? 4 then Some VolatilityInterruption else None.
Definition direction_discriminant (d : VolatilityDirection) : Z :=
  match d with Down => 1 | Up => 2 end.
Definition direction_from_discriminant (v : Z) : option VolatilityDirection :=
  if v =? 1 then Some Down else if v =? 2 then Some Up else None.

Definition known_value {T} (e : AuctionEvidence T) : option T :=
  match e with Known v => Some v | _ => None end.

Record AuctionObservation : Set := mk {
  purpose : AuctionEvidence AuctionPurpose;
  delayed : AuctionEvidence bool;
  disposal : AuctionEvidence bool;
  direction : AuctionEvidence VolatilityDirection }.

#[global] Instance AuctionObservation_eq_dec : EqDecision AuctionObservation.
Proof. solve_decision. Defined.

(** A known direction belongs to a volatility interruption only. *)
Definition direction_conflict (p : AuctionEvidence AuctionPurpose)
    (d : AuctionEvidence VolatilityDirection) : bool :=
  match d, p with
  | Known _, Known (Opening | Closing | Periodic) => true
  | _, _ => false
  end.

Definition from_parts (p : AuctionEvidence AuctionPurpose) (dl ds : AuctionEvidence bool)
    (d : AuctionEvidence VolatilityDirection) : option AuctionObservation :=
  if direction_conflict p d then None else Some (mk p dl ds d).

Definition new (p : AuctionPurpose) (dl ds : bool) : AuctionObservation :=
  mk (Known p) (Known dl) (Known ds) NoObservation.
Definition volatility_interruption_with_evidence (d : AuctionEvidence VolatilityDirection)
    (dl ds : AuctionEvidence bool) : AuctionObservation :=
  mk (Known VolatilityInterruption) dl ds d.
Definition volatility_interruption (d : VolatilityDirection) (dl ds : bool) : AuctionObservation :=
  volatility_interruption_with_evidence (Known d) (Known dl) (Known ds).
Definition unclassified : AuctionObservation :=
  mk NoObservation NoObservation NoObservation NoObservation.
Definition unknown_purpose : AuctionObservation :=
  mk Unknown NoObservation NoObservation NoObservation.
Definition opening_with_evidence (dl ds : AuctionEvidence bool) : AuctionObservation :=
  mk (Known Opening) dl ds NoObservation.
Definition opening (dl ds : bool) : AuctionObservation := opening_with_evidence (Known dl) (Known ds).
Definition closing_with_evidence (dl ds : AuctionEvidence bool) : AuctionObservation :=
  mk (Known Closing) dl ds NoObservation.
Definition closing (dl ds : bool) : AuctionObservation := closing_with_evidence (Known dl) (Known ds).
Definition periodic_with_evidence (dl ds : AuctionEvidence bool) : AuctionObservation :=
  mk (Known Periodic) dl ds NoObservation.
Definition periodic (dl ds : bool) : AuctionObservation := periodic_with_evidence (Known dl) (Known ds).

Definition merge_evidence {T} (prior current : AuctionEvidence T) : AuctionEvidence T :=
  match current with NoObservation => prior | Known v => Known v | Unknown => Unknown end.
(** [self.merge(prior)]. *)
Definition merge (self prior : AuctionObservation) : AuctionObservation :=
  mk (merge_evidence (purpose prior) (purpose self)) (merge_evidence (delayed prior) (delayed self))
     (merge_evidence (disposal prior) (disposal self)) (merge_evidence (direction prior) (direction self)).

Inductive MarketSignal : Set :=
| Continuous | AuctionCollecting (o : AuctionObservation)
| AuctionUncross (o : AuctionObservation) | Closed.

#[global] Instance MarketSignal_eq_dec : EqDecision MarketSignal.
Proof. solve_decision. Defined.

Definition signal_discriminant (s : MarketSignal) : Z :=
  match s with Continuous => 1 | AuctionCollecting _ => 2 | AuctionUncross _ => 3 | Closed => 4 end.
Definition auction (s : MarketSignal) : option AuctionObservation :=
  match s with AuctionCollecting o | AuctionUncross o => Some o | _ => None end.
Definition signal_from_discriminant (v : Z) (o : option AuctionObservation) : option MarketSignal :=
  if (v =? 1) && negb (bool_decide (is_Some o)) then Some Continuous
  else if v =? 2 then AuctionCollecting <$> o
  else if v =? 3 then AuctionUncross <$> o
  else if (v =? 4) && negb (bool_decide (is_Some o)) then Some Closed
  else None.

(** The observations [from_parts] can build. *)
Definition wf (o : AuctionObservation) : Prop := direction_conflict (purpose o) (direction o) = false.
Definition signal_wf (s : MarketSignal) : Prop := ∀ o, auction s = Some o → wf o.

Lemma purpose_roundtrip p : purpose_from_discriminant (purpose_discriminant p) = Some p.
Proof. by destruct p. Qed.
Lemma purpose_from_Some v p : purpose_from_discriminant v = Some p → purpose_discriminant p = v.
Proof. unfold purpose_from_discriminant. repeat case_match; intros; simplify_eq/=; lia. Qed.
Lemma direction_roundtrip d : direction_from_discriminant (direction_discriminant d) = Some d.
Proof. by destruct d. Qed.
Lemma direction_from_Some v d : direction_from_discriminant v = Some d → direction_discriminant d = v.
Proof. unfold direction_from_discriminant. repeat case_match; intros; simplify_eq/=; lia. Qed.
Lemma signal_roundtrip s : signal_from_discriminant (signal_discriminant s) (auction s) = Some s.
Proof. by destruct s. Qed.

Lemma from_parts_Some p dl ds d o : from_parts p dl ds d = Some o ↔ o = mk p dl ds d ∧ wf o.
Proof.
  unfold from_parts. destruct (direction_conflict p d) eqn:E.
  - split; [done|]. intros [-> Hw]. unfold wf in Hw. simpl in Hw. congruence.
  - split; [by intros [= <-]|by intros [-> _]].
Qed.

Lemma merge_evidence_assoc {T} (a b c : AuctionEvidence T) :
  merge_evidence a (merge_evidence b c) = merge_evidence (merge_evidence a b) c.
Proof. by destruct c. Qed.

(** Merging a round's records is a monoid action: the record that says
    nothing changes nothing, and a run of records may be folded in any
    grouping. *)
Theorem merge_monoid a b c :
  merge a unclassified = a ∧ merge unclassified a = a ∧ merge c (merge b a) = merge (merge c b) a.
Proof.
  destruct a as [p dl ds d]. unfold merge. simpl. rewrite !merge_evidence_assoc.
  split_and!; [|done|done]. by destruct p, dl, ds, d.
Qed.

(** Merging two observations the constructor accepts gives one it accepts,
    exactly when a direction known after the merge does not meet an opening,
    closing or periodic purpose carried over from the other record; records
    that state both fields always merge well. *)
Theorem merge_wf self prior : wf self → wf prior →
  wf (merge self prior) ↔
    ¬ (purpose self = NoObservation ∧ direction_conflict (purpose prior) (direction self) = true) ∧
    ¬ (direction self = NoObservation ∧ direction_conflict (purpose self) (direction prior) = true).
Proof.
  unfold wf, merge. destruct self as [p dl ds d], prior as [p' dl' ds' d']. simpl.
  destruct p as [|[]|], d as [| |], p' as [|[]|], d'; naive_solver.
Qed.

Lemma merge_wf_witness :
  wf (merge (mk NoObservation NoObservation NoObservation (Known Up)) (opening false false)) ↔
  ¬ (@NoObservation AuctionPurpose = NoObservation ∧ true = true) ∧
  ¬ (Known Up = NoObservation ∧ false = true).
Proof.
  apply (merge_wf (mk NoObservation NoObservation NoObservation (Known Up)) (opening false false));
    reflexivity.
Defined.

(** The named constructors and [from_parts] build every observation of the
    source well-formed. *)
Theorem constructors_wf dl ds edl eds d ed p :
  wf (new p dl ds) ∧ wf (volatility_interruption d dl ds) ∧
  wf (volatility_interruption_with_evidence ed edl eds) ∧ wf unclassified ∧ wf unknown_purpose ∧
  wf (opening dl ds) ∧ wf (closing dl ds) ∧ wf (periodic dl ds) ∧
  wf (opening_with_evidence edl eds) ∧ wf (closing_with_evidence edl eds) ∧
  wf (periodic_with_evidence edl eds).
Proof. unfold wf. destruct ed; by split_and!. Qed.

End Signal.

(** ** annotations.rs *)
Module Annotations.

Inductive MatchingMethod : Set := CallAuction | Continuous.
Inductive LimitPosition : Set := Normal | LowerLimit | UpperLimit | Reserved.
Inductive InstantTrend : Set :=
| TrendNormal | VolatilityInterruptionDown | VolatilityInterruptionUp | TrendReserved.

Definition limit_from_bits (bits : Z) : LimitPosition :=
  if bits =? 0 then Normal else if bits =? 1 then LowerLimit else
  if bits =? 2 then UpperLimit else Reserved.
Definition trend_from_bits (bits : Z) : InstantTrend :=
  if bits =? 0 then TrendNormal else if bits =? 1 then VolatilityInterruptionDown else
  if bits =? 2 then VolatilityInterruptionUp else TrendReserved.

Definition bit (raw mask : Z) : bool := negb (Z.land raw mask =? 0).

(** [QuoteStatusBits]. *)
Definition trial (raw : Z) : bool := bit raw 128.
Definition delayed_open (raw : Z) : bool := trial raw && bit raw 64.
Definition delayed_close (raw : Z) : bool := trial raw && bit raw 32.
Definition matching_method (raw : Z) : MatchingMethod := if bit raw 16 then Continuous else CallAuction.
Definition opening_marker (raw : Z) : bool := bit raw 8.
Definition closing_marker (raw : Z) : bool := bit raw 4.
Definition reserved_bits (raw : Z) : Z := Z.land raw 3.

(** [QuoteLimitBits]. *)
Definition limit_trade (raw : Z) : LimitPosition := limit_from_bits (Z.land (Z.shiftr raw 6) 3).
Definition limit_best_bid (raw : Z) : LimitPosition := limit_from_bits (Z.land (Z.shiftr raw 4) 3).
Definition limit_best_ask (raw : Z) : LimitPosition := limit_from_bits (Z.land (Z.shiftr raw 2) 3).
Definition instant_trend (raw : Z) : InstantTrend := trend_from_bits (Z.land raw 3).

(** [TwseQuoteAnnotations] and [TpexQuoteAnnotations] have the same fields and
    stay separate types. *)
Record TwseQuoteAnnotations : Set := new_twse { twse_status_flags_raw : Z; twse_limit_flags_raw : Z }.
Record TpexQuoteAnnotations : Set := new_tpex { tpex_status_flags_raw : Z; tpex_limit_flags_raw : Z }.

Inductive MarketAnnotations : Set :=
| NoAnnotations | TwseQuote (a : TwseQuoteAnnotations) | TpexQuote (a : TpexQuoteAnnotations).

#[global] Instance MarketAnnotations_eq_dec : EqDecision MarketAnnotations.
Proof.
  assert (EqDecision TwseQuoteAnnotations) by solve_decision.
  assert (EqDecision TpexQuoteAnnotations) by solve_decision. solve_decision.
Defined.

Definition discriminant (a : MarketAnnotations) : Z :=
  match a with NoAnnotations => 0 | TwseQuote _ => 1 | TpexQuote _ => 2 end.

Definition wf (a : MarketAnnotations) : Prop :=
  match a with
  | NoAnnotations => True
  | TwseQuote a => is_u8 (twse_status_flags_raw a) ∧ is_u8 (twse_limit_flags_raw a)
  | TpexQuote a => is_u8 (tpex_status_flags_raw a) ∧ is_u8 (tpex_limit_flags_raw a)
  end.

(** The value of each two-bit field. *)
Definition limit_bits (l : LimitPosition) : Z :=
  match l with Normal => 0 | LowerLimit => 1 | UpperLimit => 2 | Reserved => 3 end.
Definition trend_bits (t : InstantTrend) : Z :=
  match t with
  | TrendNormal => 0 | VolatilityInterruptionDown => 1 | VolatilityInterruptionUp => 2 | TrendReserved => 3
  end.

Lemma limit_bits_from_bits z : 0 ≤ z < 4 → limit_bits (limit_from_bits z) = z.
Proof. intros. assert (z = 0 ∨ z = 1 ∨ z = 2 ∨ z = 3) as [->|[->|[->| ->]]] by lia; done. Qed.
Lemma trend_bits_from_bits z : 0 ≤ z < 4 → trend_bits (trend_from_bits z) = z.
Proof. intros. assert (z = 0 ∨ z = 1 ∨ z = 2 ∨ z = 3) as [->|[->|[->| ->]]] by lia; done. Qed.

Lemma land_3 z : Z.land z 3 = z mod 4.
Proof. apply (Z.land_ones z 2). lia. Qed.

(** The four typed fields of a limit byte determine the byte: the view
    loses nothing. *)
Theorem limit_fields_lossless raw : is_u8 raw →
  raw = limit_bits (limit_trade raw) * 64 + limit_bits (limit_best_bid raw) * 16 +
        limit_bits (limit_best_ask raw) * 4 + trend_bits (instant_trend raw).
Proof.
  intros Hraw. unfold limit_trade, limit_best_bid, limit_best_ask, instant_trend.
  rewrite !land_3, !limit_bits_from_bits, trend_bits_from_bits by (apply Z.mod_pos_bound; lia).
  rewrite !Z.shiftr_div_pow2 by lia. unfold is_u8, u8_max in Hraw.
  change (2 ^ 6) with 64. change (2 ^ 4) with 16. change (2 ^ 2) with 4.
  Z.to_euclidean_division_equations. lia.
Qed.

Lemma limit_fields_lossless_witness :
  216 = limit_bits (limit_trade 216) * 64 + limit_bits (limit_best_bid 216) * 16 +
        limit_bits (limit_best_ask 216) * 4 + trend_bits (instant_trend 216).
Proof. apply (limit_fields_lossless 216). unfold is_u8, u8_max. lia. Defined.

End Annotations.
