(* ===== verification/Codec.v ===== *)
(** The canonical byte format's machinery (canonical.rs, the
    [CanonicalParser] of event.rs): append-only writers, a cursor parser, and
    the interface [Codec] that ties a parser to the writer it inverts. *)
From S2P Require Import Prelude Order Text Identity.

(** ** Writers

    [append_canonical(&self, bytes: &mut Vec<u8>)] threads the buffer; a
    writer is that function of the buffer. *)
Module Writer.

Inductive CanonicalEncodingError : Set := LengthOverflow | InvalidMatchTime.

Definition Writer : Type := list Z → result CanonicalEncodingError (list Z).

(** [bytes.push(b)] and [bytes.extend_from_slice(l)]. *)
Definition extend (l : list Z) : Writer := λ bytes, Ok (bytes ++ l).
Definition push (b : Z) : Writer := extend [b].
(** [w1(bytes)?; w2(bytes)]. *)
Definition seq (w1 w2 : Writer) : Writer := λ bytes, bytes ← w1 bytes; w2 bytes.
Definition refuse (e : CanonicalEncodingError) : Writer := λ _, Err e.

Definition append_length (length : Z) : Writer := λ bytes,
  length ← ok_or (to_u32 length) LengthOverflow;
  extend (be_bytes 4 length) bytes.
Definition append_bytes (value : list Z) : Writer := seq (append_length (zlen value)) (extend value).
Definition append_optional_u64 (value : option Z) : Writer :=
  match value with None => push 0 | Some v => seq (push 1) (extend (be_bytes 8 v)) end.

(** [for x in l { w(x, bytes)?; }]. *)
Fixpoint each {A} (w : A → Writer) (l : list A) : Writer :=
  match l with [] => extend [] | x :: l => seq (w x) (each w l) end.

(** [writes w enc]: whatever the buffer holds, [w] appends [enc] to it. *)
Definition writes (w : Writer) (enc : list Z) : Prop := ∀ bytes, w bytes = Ok (bytes ++ enc).

(** A writer only extends its buffer, by bytes that do not depend on it. *)
Class AppendOnly (w : Writer) : Prop :=
  append_only bytes out : w bytes = Ok out → ∃ enc, out = bytes ++ enc ∧ writes w enc.

Lemma writes_det w enc enc' : writes w enc → writes w enc' → enc = enc'.
Proof. intros H1 H2. specialize (H1 []). specialize (H2 []). rewrite H1 in H2. by injection H2. Qed.

Lemma writes_nil w `{!AppendOnly w} enc : writes w enc ↔ w [] = Ok enc.
Proof. split; [by intros ->|]. intros (e & -> & He)%append_only. done. Qed.

#[global] Instance extend_append_only l : AppendOnly (extend l).
Proof. intros bytes out [= <-]. by exists l. Qed.
#[global] Instance push_append_only b : AppendOnly (push b) := extend_append_only [b].
#[global] Instance refuse_append_only e : AppendOnly (refuse e).
Proof. by intros bytes out. Qed.
#[global] Instance seq_append_only w1 w2 `{!AppendOnly w1, !AppendOnly w2} : AppendOnly (seq w1 w2).
Proof.
  intros bytes out. unfold seq. rewrite bind_Ok. intros (b1 & H1 & H2).
  apply append_only in H1 as (e1 & -> & He1). apply append_only in H2 as (e2 & -> & He2).
  exists (e1 ++ e2). rewrite (assoc_L (++)). split; [done|].
  intros bytes'. rewrite He1. simpl. by rewrite He2, (assoc_L (++)).
Qed.

Lemma writes_extend l enc : writes (extend l) enc ↔ enc = l.
Proof. split; [intros H; by eapply writes_det|by intros ->]. Qed.
Lemma writes_push b enc : writes (push b) enc ↔ enc = [b].
Proof. apply writes_extend. Qed.
Lemma writes_refuse e enc : ¬ writes (refuse e) enc.
Proof. intros H. by specialize (H []). Qed.
Lemma writes_seq w1 w2 `{!AppendOnly w1, !AppendOnly w2} enc :
  writes (seq w1 w2) enc ↔ ∃ e1 e2, enc = e1 ++ e2 ∧ writes w1 e1 ∧ writes w2 e2.
Proof.
  split.
  - rewrite writes_nil by apply _. unfold seq. rewrite bind_Ok. intros (b1 & H1 & H2).
    apply append_only in H1 as (e1 & -> & He1). apply append_only in H2 as (e2 & -> & He2). eauto.
  - intros (e1 & e2 & -> & H1 & H2) bytes. unfold seq. rewrite H1. simpl.
    by rewrite H2, (assoc_L (++)).
Qed.

Lemma writes_push_cons b w `{!AppendOnly w} enc : writes w enc → writes (seq (push b) w) (b :: enc).
Proof. intros Hw. apply writes_seq; [apply _..|]. exists [b], enc. split; [done|]. by split; [apply writes_push|]. Qed.

#[global] Instance append_length_append_only n : AppendOnly (append_length n).
Proof.
  intros bytes out. unfold append_length. destruct (to_u32 n) as [m|] eqn:E; [|done].
  simpl. intros (e & -> & He)%append_only. exists e. split; [done|].
  intros bytes'. by rewrite <-He.
Qed.
Lemma writes_append_length n enc : writes (append_length n) enc ↔ is_u32 n ∧ enc = be_bytes 4 n.
Proof.
  rewrite writes_nil by apply _. unfold append_length, to_u32, is_u32. rewrite bind_Ok. split.
  - intros (m & H & H2). destruct (checked 0 u32_max n) eqn:E; simplify_eq/=.
    apply checked_Some in E as [-> ?]. by injection H2 as <-.
  - intros [Hn ->]. exists n. by rewrite checked_in.
Qed.

#[global] Instance append_bytes_append_only l : AppendOnly (append_bytes l) := _.
Lemma writes_append_bytes l enc :
  writes (append_bytes l) enc ↔ is_u32 (zlen l) ∧ enc = be_bytes 4 (zlen l) ++ l.
Proof.
  unfold append_bytes. rewrite writes_seq by apply _. setoid_rewrite writes_append_length.
  setoid_rewrite writes_extend. split; [by intros (? & ? & -> & [? ->] & ->)|intros [? ->]; eauto 10].
Qed.

#[global] Instance append_optional_u64_append_only v : AppendOnly (append_optional_u64 v).
Proof. destruct v; apply _. Qed.

#[global] Instance each_append_only {A} (w : A → Writer) l :
  (∀ x, AppendOnly (w x)) → AppendOnly (each w l).
Proof. intros Hw. induction l; apply _. Qed.

End Writer.
Import (notations) Writer.
Infix "▷" := Writer.seq (at level 55, right associativity) : osmium_scope.

(** [trait CanonicalValue]. *)
Class CanonicalValue (A : Type) := append_canonical : A → Writer.Writer.
#[global] Hint Mode CanonicalValue ! : typeclass_instances.
Class CanonicalLaws (A : Type) `{CanonicalValue A} : Prop :=
  canonical_append_only (v : A) :: Writer.AppendOnly (append_canonical v).

(** ** The parser *)
Module Parser.

Inductive CanonicalDecodingError : Set :=
| Truncated | LengthOutOfBounds | UnsupportedHeader | InvalidUtf8 | InvalidValue | TrailingBytes.

Record CanonicalParser : Set := mk { bytes : list Z; offset : Z }.

(** [fn(&mut CanonicalParser) -> Result<A, CanonicalDecodingError>]. *)
Definition Parser (A : Type) : Type := CanonicalParser → result CanonicalDecodingError (A * CanonicalParser).

#[global] Instance parser_ret : MRet Parser := λ A a st, Ok (a, st).
#[global] Instance parser_bind : MBind Parser := λ A B f p st, '(a, st') ← p st; f a st'.

Definition fail {A} (e : CanonicalDecodingError) : Parser A := λ _, Err e.
(** [result.map_err(|_| error)?] and [option.ok_or(error)?]. *)
Definition lift {E A} (r : result E A) (e : CanonicalDecodingError) : Parser A :=
  match r with Ok a => mret a | Err _ => fail e end.
Definition lift_option {A} (o : option A) (e : CanonicalDecodingError) : Parser A :=
  match o with Some a => mret a | None => fail e end.

Definition new (bytes : list Z) : CanonicalParser := mk bytes 0.

Definition take (length : Z) : Parser (list Z) := λ st,
  end_ ← ok_or (to_usize (offset st + length)) Truncated;
  value ← ok_or (slice_get (bytes st) (offset st) end_) Truncated;
  Ok (value, mk (bytes st) end_).

(** [array::<N>()] followed by [from_be_bytes]. *)
Definition parse_be (n : nat) : Parser Z := bs ← take (Z.of_nat n); mret (from_be bs).
Definition parse_be_signed (n : nat) : Parser Z := bs ← take (Z.of_nat n); mret (from_be_signed bs).
Definition u8 : Parser Z := parse_be 1.
Definition u16 : Parser Z := parse_be 2.
Definition u32 : Parser Z := parse_be 4.
Definition i32 : Parser Z := parse_be_signed 4.
Definition u64 : Parser Z := parse_be 8.
Definition i64 : Parser Z := parse_be_signed 8.
Definition i128 : Parser Z := parse_be_signed 16.

Definition bytes_value : Parser (list Z) := length ← u32; take length.
Definition string_value : Parser (list Z) :=
  bs ← bytes_value; if Utf8.valid bs then mret bs else fail InvalidUtf8.

Definition is_finished (st : CanonicalParser) : bool := offset st =? zlen (bytes st).
Definition remaining_len (st : CanonicalParser) : Z := zlen (bytes st) - offset st.

(** [for _ in 0..count { vec.push(p()?) }]. *)
Fixpoint repeat {A} (count : nat) (p : Parser A) : Parser (list A) :=
  match count with
  | O => mret []
  | S count => x ← p; xs ← repeat count p; mret (x :: xs)
  end.

(** *** Laws *)

(** A Rust slice is at most [isize::MAX] bytes long. *)
Definition wf (st : CanonicalParser) : Prop :=
  Forall is_u8 (bytes st) ∧ 0 ≤ offset st ≤ zlen (bytes st) ∧ zlen (bytes st) ≤ isize_max.

(** [p] reads exactly [enc], wherever it stands, and yields [v]. *)
Definition decodes {A} (p : Parser A) (enc : list Z) (v : A) : Prop :=
  ∀ pre post, zlen (pre ++ enc ++ post) ≤ isize_max →
    p (mk (pre ++ enc ++ post) (zlen pre)) = Ok (v, mk (pre ++ enc ++ post) (zlen (pre ++ enc))).

(** The bytes between two cursor positions. *)
Definition consumed (st st' : CanonicalParser) (c : list Z) : Prop :=
  bytes st' = bytes st ∧ ∃ pre post, bytes st = pre ++ c ++ post ∧
    offset st = zlen pre ∧ offset st' = zlen (pre ++ c).

(** Whatever [p] accepts, [Q] relates the value to the bytes consumed. *)
Definition sound {A} (p : Parser A) (Q : A → list Z → Prop) : Prop :=
  ∀ st v st', wf st → p st = Ok (v, st') → ∃ c, consumed st st' c ∧ Q v c.

Lemma consumed_wf st st' c : wf st → consumed st st' c → wf st'.
Proof.
  intros (Hu & Ho & Hl) (Hb & pre & post & Hst & Hpre & Hoff). unfold wf.
  rewrite Hb, Hoff. split; [done|]. split; [|done]. rewrite Hst, !zlen_app. unfold zlen. lia.
Qed.

Lemma consumed_trans st st1 st2 c1 c2 :
  consumed st st1 c1 → consumed st1 st2 c2 → consumed st st2 (c1 ++ c2).
Proof.
  intros (Hb1 & pre & post & Hst & Hpre & Hoff) (Hb2 & pre2 & post2 & Hst1 & Hpre2 & Hoff2).
  split; [congruence|]. exists pre, post2.
  assert (pre2 = pre ++ c1) as ->.
  { rewrite Hb1, Hst, (assoc_L (++)) in Hst1.
    apply app_inj_1 in Hst1 as [-> _]; [done|]. unfold zlen in *. lia. }
  rewrite Hoff2, <-Hb1, Hst1, <-!(assoc_L (++)). done.
Qed.

Lemma wf_split st : wf st → ∃ pre rest, bytes st = pre ++ rest ∧ offset st = zlen pre.
Proof.
  intros (_ & Ho & _). exists (firstn (Z.to_nat (offset st)) (bytes st)), (drop (Z.to_nat (offset st)) (bytes st)).
  rewrite firstn_skipn. split; [done|]. unfold zlen in *. rewrite length_firstn. lia.
Qed.

Lemma decodes_ret {A} (v : A) : decodes (mret v) [] v.
Proof. intros pre post _. by rewrite (right_id_L [] (++)). Qed.

Lemma decodes_bind {A B} (p : Parser A) (k : A → Parser B) e1 e2 a b :
  decodes p e1 a → decodes (k a) e2 b → decodes (p ≫= k) (e1 ++ e2) b.
Proof.
  intros Hp Hk pre post Hlen. rewrite <-!(assoc_L (++)) in *.
  unfold mbind, parser_bind. rewrite Hp by done. simpl.
  specialize (Hk (pre ++ e1) post). rewrite <-!(assoc_L (++)) in Hk. by rewrite Hk.
Qed.

Lemma decodes_last {A B} (p : Parser A) (k : A → Parser B) e a b :
  decodes p e a → decodes (k a) [] b → decodes (p ≫= k) e b.
Proof. intros. rewrite <-(right_id_L [] (++) e). by eapply decodes_bind. Qed.

Lemma decodes_pure {A B} (p : Parser A) (k : A → Parser B) e a b :
  decodes p [] a → decodes (k a) e b → decodes (p ≫= k) e b.
Proof. apply (decodes_bind p k []). Qed.

Lemma decodes_take enc n : n = zlen enc → decodes (take n) enc enc.
Proof.
  intros -> pre post Hlen. unfold take. simpl. rewrite !zlen_app in *. unfold zlen in *.
  unfold to_usize. rewrite checked_in by (unfold_ints; lia). simpl.
  unfold slice_get, zlen. rewrite !length_app, !Nat2Z.inj_add.
  rewrite (proj2 (Z.leb_le 0 _)), !(proj2 (Z.leb_le _ _)) by lia. simpl.
  rewrite Z.add_simpl_l, !Nat2Z.id, drop_app_length, take_app_length. done.
Qed.

Lemma decodes_be n z : 0 ≤ z < 256 ^ Z.of_nat n → decodes (parse_be n) (be_bytes n z) z.
Proof.
  intros Hz. eapply decodes_last; [apply decodes_take; unfold zlen; by rewrite length_be_bytes|].
  rewrite <-(from_be_be_bytes n z Hz) at 2. apply decodes_ret.
Qed.
Lemma decodes_be_signed n z : - 256 ^ Z.of_nat n ≤ 2 * z < 256 ^ Z.of_nat n →
  decodes (parse_be_signed n) (be_bytes n z) z.
Proof.
  intros Hz. eapply decodes_last; [apply decodes_take; unfold zlen; by rewrite length_be_bytes|].
  rewrite <-(from_be_signed_be_bytes n z Hz) at 2. apply decodes_ret.
Qed.
Lemma decodes_u8 b : is_u8 b → decodes u8 [b] b.
Proof.
  intros Hb. unfold is_u8, u8_max in Hb. replace [b] with (be_bytes 1 b); [apply decodes_be; simpl; lia|].
  simpl. by rewrite Z.div_1_r, Z.mod_small by lia.
Qed.
Lemma decodes_u32 z : is_u32 z → decodes u32 (be_bytes 4 z) z.
Proof. intros. apply decodes_be. unfold_ints. simpl. lia. Qed.
Lemma decodes_u64 z : is_u64 z → decodes u64 (be_bytes 8 z) z.
Proof. intros. apply decodes_be. unfold_ints. simpl. lia. Qed.
Lemma decodes_i32 z : is_i32 z → decodes i32 (be_bytes 4 z) z.
Proof. intros. apply decodes_be_signed. unfold_ints. simpl. lia. Qed.
Lemma decodes_i64 z : is_i64 z → decodes i64 (be_bytes 8 z) z.
Proof. intros. apply decodes_be_signed. unfold_ints. simpl. lia. Qed.
Lemma decodes_i128 z : is_i128 z → decodes i128 (be_bytes 16 z) z.
Proof. intros. apply decodes_be_signed. unfold_ints. simpl. lia. Qed.

Lemma decodes_bytes l enc : Writer.writes (Writer.append_bytes l) enc → decodes bytes_value enc l.
Proof.
  rewrite Writer.writes_append_bytes. intros [Hlen ->].
  eapply decodes_bind; [by apply decodes_u32|by apply decodes_take].
Qed.
Lemma decodes_string l enc : Utf8.valid l = true →
  Writer.writes (Writer.append_bytes l) enc → decodes string_value enc l.
Proof.
  intros Hv Hw. eapply decodes_last; [by apply decodes_bytes|]. rewrite Hv. apply decodes_ret.
Qed.

Lemma decodes_lift {E A} (r : result E A) e v : r = Ok v → decodes (lift r e) [] v.
Proof. intros ->. apply decodes_ret. Qed.
Lemma decodes_lift_option {A} (o : option A) e v : o = Some v → decodes (lift_option o e) [] v.
Proof. intros ->. apply decodes_ret. Qed.

Lemma sound_ret {A} (v : A) (Q : A → list Z → Prop) : Q v [] → sound (mret v) Q.
Proof.
  intros HQ st v' st' Hwf [= <- <-]. exists []. split; [|done].
  destruct (wf_split _ Hwf) as (pre & rest & Hb & Ho). split; [done|]. exists pre, rest.
  by rewrite (right_id_L [] (++)).
Qed.
Lemma sound_fail {A} e (Q : A → list Z → Prop) : sound (fail e) Q.
Proof. by intros st v st'. Qed.

Lemma sound_bind {A B} (p : Parser A) (k : A → Parser B) Q1 (Q : B → list Z → Prop) :
  sound p Q1 → (∀ a c1, Q1 a c1 → sound (k a) (λ b c2, Q b (c1 ++ c2))) → sound (p ≫= k) Q.
Proof.
  intros Hp Hk st v st' Hwf H. unfold mbind, parser_bind in H.
  apply bind_Ok in H as ([a st1] & H1 & H2). apply Hp in H1 as (c1 & Hc1 & HQ1); [|done].
  apply (Hk _ _ HQ1) in H2 as (c2 & Hc2 & HQ); [|by eapply consumed_wf].
  exists (c1 ++ c2). split; [by eapply consumed_trans|done].
Qed.

Lemma sound_weaken {A} (p : Parser A) (Q Q' : A → list Z → Prop) :
  (∀ v c, Q v c → Q' v c) → sound p Q → sound p Q'.
Proof. intros HQ Hp st v st' Hwf H. destruct (Hp _ _ _ Hwf H) as (c & ? & ?). eauto. Qed.

Lemma sound_take n : sound (take n) (λ v c, v = c ∧ zlen c = n ∧ Forall is_u8 c).
Proof.
  intros st v st' Hwf H. unfold take in H. simplify_res. rename Hsome0 into Hsz, Hsome into Hs.
  destruct (wf_split _ Hwf) as (pre & rest & Hb & Ho). destruct Hwf as (Hu & Hoff & Hlen).
  unfold slice_get in Hs. rewrite Hb, Ho in Hs.
  destruct (Z.leb_spec 0 (zlen pre)), (Z.leb_spec (zlen pre) (zlen pre + n)),
    (Z.leb_spec (zlen pre + n) (zlen (pre ++ rest))); try done. simpl in Hs.
  injection Hs as <-. rewrite zlen_app in *. unfold zlen in *.
  rewrite Z.add_simpl_l, Nat2Z.id, drop_app_length.
  exists (list.take (Z.to_nat n) rest). split_and!; [|done| |].
  - split; [done|]. exists pre, (drop (Z.to_nat n) rest). cbn [bytes offset].
    rewrite take_drop, Ho. split_and!; [done|done|]. rewrite zlen_app. unfold zlen. rewrite length_take. lia.
  - rewrite length_take. lia.
  - apply Forall_take. rewrite Hb in Hu. by apply Forall_app in Hu as [_ ?].
Qed.

Lemma sound_be n : sound (parse_be n) (λ z c, c = be_bytes n z ∧ 0 ≤ z < 256 ^ Z.of_nat n).
Proof.
  eapply sound_bind; [apply sound_take|]. intros ? c (-> & Hl & Hu). unfold zlen in Hl.
  assert (length c = n) as <- by lia.
  apply sound_ret. rewrite (right_id_L [] (++)). split; [by rewrite be_bytes_from_be|by apply from_be_range].
Qed.
Lemma sound_be_signed n : sound (parse_be_signed n) (λ z c, c = be_bytes n z ∧
  - 256 ^ Z.of_nat n ≤ 2 * z < 256 ^ Z.of_nat n).
Proof.
  eapply sound_bind; [apply sound_take|]. intros ? c (-> & Hl & Hu). unfold zlen in Hl.
  assert (length c = n) as <- by lia. apply sound_ret. rewrite (right_id_L [] (++)).
  split; [by rewrite be_bytes_from_be_signed|by apply from_be_signed_range].
Qed.

Lemma sound_u8 : sound u8 (λ z c, c = [z] ∧ is_u8 z).
Proof.
  eapply sound_weaken; [|apply sound_be]. intros z c [-> Hz]. simpl in *. unfold_ints.
  rewrite Z.div_1_r, Z.mod_small by lia. split; [done|lia].
Qed.
Lemma sound_u16 : sound u16 (λ z c, c = be_bytes 2 z).
Proof. eapply sound_weaken; [|apply sound_be]. by intros z c [-> _]. Qed.
Lemma sound_u32 : sound u32 (λ z c, c = be_bytes 4 z ∧ is_u32 z).
Proof. eapply sound_weaken; [|apply sound_be]. intros z c [-> Hz]. split; [done|]. simpl in *. unfold_ints. lia. Qed.
Lemma sound_u64 : sound u64 (λ z c, c = be_bytes 8 z ∧ is_u64 z).
Proof. eapply sound_weaken; [|apply sound_be]. intros z c [-> Hz]. split; [done|]. simpl in *. unfold_ints. lia. Qed.
Lemma sound_i32 : sound i32 (λ z c, c = be_bytes 4 z ∧ is_i32 z).
Proof. eapply sound_weaken; [|apply sound_be_signed]. intros z c [-> Hz]. split; [done|]. simpl in *. unfold_ints. lia. Qed.
Lemma sound_i64 : sound i64 (λ z c, c = be_bytes 8 z ∧ is_i64 z).
Proof. eapply sound_weaken; [|apply sound_be_signed]. intros z c [-> Hz]. split; [done|]. simpl in *. unfold_ints. lia. Qed.
Lemma sound_i128 : sound i128 (λ z c, c = be_bytes 16 z ∧ is_i128 z).
Proof. eapply sound_weaken; [|apply sound_be_signed]. intros z c [-> Hz]. split; [done|]. simpl in *. unfold_ints. lia. Qed.

Lemma sound_bytes : sound bytes_value (λ l c, Writer.writes (Writer.append_bytes l) c ∧ Forall is_u8 l).
Proof.
  eapply sound_bind; [apply sound_u32|]. intros n c1 [-> Hn].
  eapply sound_weaken; [|apply sound_take]. intros l c (-> & Hl & Hu). split; [|done].
  apply Writer.writes_append_bytes. by rewrite Hl.
Qed.
Lemma sound_string : sound string_value (λ l c, Writer.writes (Writer.append_bytes l) c ∧ Utf8.valid l = true).
Proof.
  eapply sound_bind; [apply sound_bytes|]. intros l c [Hw Hu].
  destruct (Utf8.valid l) eqn:E; [|apply sound_fail]. apply sound_ret. by rewrite (right_id_L [] (++)).
Qed.

Lemma sound_lift {E A} (r : result E A) e (Q : A → list Z → Prop) :
  (∀ v, r = Ok v → Q v []) → sound (lift r e) Q.
Proof. intros H. destruct r; [by apply sound_ret, H|apply sound_fail]. Qed.
Lemma sound_lift_option {A} (o : option A) e (Q : A → list Z → Prop) :
  (∀ v, o = Some v → Q v []) → sound (lift_option o e) Q.
Proof. intros H. destruct o; [by apply sound_ret, H|apply sound_fail]. Qed.

End Parser.

(** ** The codec interface

    [p] inverts [w] on the well-formed values [W]: it reads back what [w]
    wrote, and it accepts nothing that [w] would not write. *)
Class Codec {A : Type} (w : A → Writer.Writer) (p : Parser.Parser A) (W : A → Prop) : Prop := {
  codec_append_only v : Writer.AppendOnly (w v);
  codec_decodes v enc : W v → Writer.writes (w v) enc → Parser.decodes p enc v;
  codec_sound : Parser.sound p (λ v c, W v ∧ Writer.writes (w v) c) }.

Section repeat.
Context {A : Type} (w : A → Writer.Writer) (p : Parser.Parser A) (W : A → Prop) `{!Codec w p W}.
#[local] Instance repeat_append_only v : Writer.AppendOnly (w v) := codec_append_only v.

Lemma decodes_repeat l enc : Forall W l → Writer.writes (Writer.each w l) enc →
  Parser.decodes (Parser.repeat (length l) p) enc l.
Proof.
  intros Hl. revert enc. induction Hl as [|x l Hx Hl IH]; intros enc; cbn [Writer.each Parser.repeat length].
  - intros ->%Writer.writes_extend. apply Parser.decodes_ret.
  - intros (e1 & e2 & -> & H1 & H2)%Writer.writes_seq; [|apply _..].
    eapply Parser.decodes_bind; [by apply (codec_decodes (w:=w) (W:=W))|].
    eapply Parser.decodes_last; [by apply IH|]. apply Parser.decodes_ret.
Qed.

Lemma sound_repeat n : Parser.sound (Parser.repeat n p)
  (λ l c, length l = n ∧ Forall W l ∧ Writer.writes (Writer.each w l) c).
Proof.
  induction n as [|n IH]; cbn [Parser.repeat]; [by apply Parser.sound_ret|].
  eapply Parser.sound_bind; [apply codec_sound|]. intros x c1 [Hx Hw].
  eapply Parser.sound_bind; [apply IH|]. intros l c2 (Hn & Hl & Hws).
  apply Parser.sound_ret. rewrite (right_id_L [] (++)). simpl. split_and!; [lia|by constructor|].
  apply Writer.writes_seq; [apply _..|]. eauto.
Qed.
End repeat.

(** A codec's encoding determines the value, and every accepted byte string is
    the encoding of the value it decodes to. *)
Lemma codec_injective {A} (w : A → Writer.Writer) (p : Parser.Parser A) (W : A → Prop) `{!Codec w p W} x y enc :
  W x → W y → zlen enc ≤ isize_max → Writer.writes (w x) enc → Writer.writes (w y) enc → x = y.
Proof.
  intros Hx Hy Hlen Hwx Hwy.
  pose proof (codec_decodes (p:=p) _ _ Hx Hwx [] []) as H1. pose proof (codec_decodes (p:=p) _ _ Hy Hwy [] []) as H2.
  rewrite (right_id_L [] (++)) in *. specialize (H1 Hlen). specialize (H2 Hlen). congruence.
Qed.
