(* ===== verification/Values.v ===== *)
(** Canonical encodings of the market values (canonical.rs, signal.rs) and the
    [CanonicalParser] methods that read them back (event.rs), each pair an
    instance of [Codec]. *)
From S2P Require Import Prelude Order Text Numeric Quantity Calendar Book Identity Signal Codec.
Import Writer(push, extend, append_bytes, each).
Import Parser(u8, u64, i64, i128, fail, lift, lift_option).

Module Values.

(** ** Encoders: [impl CanonicalValue for ...] *)

#[global] Instance price_canonical : CanonicalValue Price.Price := λ p, extend (Price.to_canonical_bytes p).
#[global] Instance quantity_canonical : CanonicalValue Quantity.Quantity :=
  λ q, extend (Quantity.to_canonical_bytes q).
#[global] Instance volume_canonical : CanonicalValue Volume.Volume := λ v, extend (Volume.to_canonical_bytes v).

#[global] Instance trade_canonical : CanonicalValue Trade.ObservedTrade := λ t,
  extend (Price.to_canonical_bytes (Trade.price t)) ▷
  extend (Quantity.to_canonical_bytes (Trade.quantity t)) ▷
  push (Trade.kind_discriminant (Trade.observation_kind t)).

Definition append_market_order (m : option Quantity.Quantity) : Writer.Writer :=
  match m with None => push 0 | Some q => push 1 ▷ extend (Quantity.to_canonical_bytes q) end.
Definition append_slot (slot : option Book.BookLevel) : Writer.Writer :=
  match slot with
  | None => push 0
  | Some level =>
      push 1 ▷ extend (Price.to_canonical_bytes (Book.price level)) ▷
      extend (Quantity.to_canonical_bytes (Book.displayed_quantity level))
  end.
Definition append_side (side : Book.BookSide) : Writer.Writer :=
  append_market_order (Book.market_order_quantity side) ▷ each append_slot (Book.slots side).
#[global] Instance book_canonical : CanonicalValue Book.CompleteBookSnapshot := λ s,
  append_side (Book.bids s) ▷ append_side (Book.asks s).

#[global] Instance purpose_evidence_canonical : CanonicalValue (Signal.AuctionEvidence Signal.AuctionPurpose) := λ e,
  match e with
  | Signal.NoObservation => push 0
  | Signal.Known p => push 1 ▷ push (Signal.purpose_discriminant p)
  | Signal.Unknown => push 2
  end.
#[global] Instance bool_evidence_canonical : CanonicalValue (Signal.AuctionEvidence bool) := λ e,
  match e with
  | Signal.NoObservation => push 0
  | Signal.Known b => push 1 ▷ push (Z.b2z b)
  | Signal.Unknown => push 2
  end.
#[global] Instance direction_evidence_canonical :
    CanonicalValue (Signal.AuctionEvidence Signal.VolatilityDirection) := λ e,
  match e with
  | Signal.NoObservation => push 0
  | Signal.Known d => push 1 ▷ push (Signal.direction_discriminant d)
  | Signal.Unknown => push 2
  end.
#[global] Instance auction_observation_canonical : CanonicalValue Signal.AuctionObservation := λ o,
  append_canonical (Signal.purpose o) ▷ append_canonical (Signal.delayed o) ▷
  append_canonical (Signal.disposal o) ▷ append_canonical (Signal.direction o).
#[global] Instance signal_canonical : CanonicalValue Signal.MarketSignal := λ s,
  push (Signal.signal_discriminant s) ▷
  match s with
  | Signal.AuctionCollecting o | Signal.AuctionUncross o => append_canonical o
  | Signal.Continuous | Signal.Closed => extend []
  end.

#[global] Instance annotations_canonical : CanonicalValue Annotations.MarketAnnotations := λ a,
  push (Annotations.discriminant a) ▷
  match a with
  | Annotations.TwseQuote t =>
      push (Annotations.twse_status_flags_raw t) ▷ push (Annotations.twse_limit_flags_raw t)
  | Annotations.TpexQuote t =>
      push (Annotations.tpex_status_flags_raw t) ▷ push (Annotations.tpex_limit_flags_raw t)
  | Annotations.NoAnnotations => extend []
  end.
#[global] Instance unknown_canonical : CanonicalValue Observation.UnknownValue := λ u,
  push (Observation.unknown_discriminant u) ▷
  match u with
  | Observation.Unsigned v => extend (be_bytes 8 v)
  | Observation.Signed v => extend (be_bytes 8 v)
  | Observation.DecimalValue d => extend (Decimal.to_canonical_bytes d)
  | Observation.TextValue t => append_bytes t
  | Observation.Bytes b => append_bytes b
  end.
#[global] Instance observation_canonical {T} `{CanonicalValue T} :
    CanonicalValue (Observation.Observation T) := λ o,
  push (Observation.discriminant o) ▷
  match o with
  | Observation.Set_ v => append_canonical v
  | Observation.Unknown u => append_canonical u
  | Observation.NoObservation | Observation.Clear => extend []
  end.

(** ** Decoders: the methods of [CanonicalParser] *)

#[local] Abbreviation Parser := Parser.Parser.

Definition price : Parser Price.Price := atoms ← i128; mret (Price.new (Decimal.from_atoms atoms)).
Definition quantity : Parser Quantity.Quantity :=
  d ← u8;
  unit ← lift (Quantity.from_discriminant d) Parser.InvalidValue;
  v ← u64;
  lift (Quantity.new v unit) Parser.InvalidValue.
Definition volume : Parser Volume.Volume :=
  d ← u8;
  unit ← lift (Quantity.from_discriminant d) Parser.InvalidValue;
  v ← u64;
  mret (Volume.new v unit).
Definition trade : Parser Trade.ObservedTrade :=
  p ← price;
  q ← quantity;
  d ← u8;
  kind ← (if d =? 0 then mret Trade.Regular else if d =? 1 then mret Trade.Intermediate
          else fail Parser.InvalidValue);
  mret (Trade.new p q kind).

Definition slot : Parser (option Book.BookLevel) :=
  tag ← u8;
  if tag =? 0 then mret None
  else if tag =? 1 then p ← price; q ← quantity; mret (Some (Book.new_level p q))
  else fail Parser.InvalidValue.
Definition market_order : Parser (option Quantity.Quantity) :=
  tag ← u8;
  if tag =? 0 then mret None else if tag =? 1 then q ← quantity; mret (Some q)
  else fail Parser.InvalidValue.
Definition book_side (k : Book.BookSideKind) : Parser Book.BookSide :=
  m ← market_order;
  slots ← Parser.repeat Book.BOOK_DEPTH slot;
  lift (Book.from_parts k m slots) Parser.InvalidValue.
Definition book : Parser Book.CompleteBookSnapshot :=
  bids ← book_side Book.Bid;
  asks ← book_side Book.Ask;
  lift (Book.new_snapshot bids asks) Parser.InvalidValue.

Definition unknown : Parser Observation.UnknownValue :=
  tag ← u8;
  if tag =? 1 then v ← u64; mret (Observation.Unsigned v)
  else if tag =? 2 then v ← i64; mret (Observation.Signed v)
  else if tag =? 3 then v ← i128; mret (Observation.DecimalValue (Decimal.from_atoms v))
  else if tag =? 4 then t ← Parser.string_value; mret (Observation.TextValue t)
  else if tag =? 5 then b ← Parser.bytes_value; mret (Observation.Bytes b)
  else fail Parser.InvalidValue.
Definition observation {T} (decode : Parser T) : Parser (Observation.Observation T) :=
  tag ← u8;
  if tag =? 0 then mret Observation.NoObservation
  else if tag =? 1 then v ← decode; mret (Observation.Set_ v)
  else if tag =? 2 then mret Observation.Clear
  else if tag =? 3 then u ← unknown; mret (Observation.Unknown u)
  else fail Parser.InvalidValue.

Definition auction_purpose : Parser (Signal.AuctionEvidence Signal.AuctionPurpose) :=
  tag ← u8;
  if tag =? 0 then mret Signal.NoObservation
  else if tag =? 1 then
    d ← u8; p ← lift_option (Signal.purpose_from_discriminant d) Parser.InvalidValue; mret (Signal.Known p)
  else if tag =? 2 then mret Signal.Unknown
  else fail Parser.InvalidValue.
Definition auction_bool : Parser (Signal.AuctionEvidence bool) :=
  tag ← u8;
  if tag =? 0 then mret Signal.NoObservation
  else if tag =? 1 then
    d ← u8;
    if d =? 0 then mret (Signal.Known false) else if d =? 1 then mret (Signal.Known true)
    else fail Parser.InvalidValue
  else if tag =? 2 then mret Signal.Unknown
  else fail Parser.InvalidValue.
Definition auction_direction : Parser (Signal.AuctionEvidence Signal.VolatilityDirection) :=
  tag ← u8;
  if tag =? 0 then mret Signal.NoObservation
  else if tag =? 1 then
    d ← u8; p ← lift_option (Signal.direction_from_discriminant d) Parser.InvalidValue; mret (Signal.Known p)
  else if tag =? 2 then mret Signal.Unknown
  else fail Parser.InvalidValue.
Definition auction_observation : Parser Signal.AuctionObservation :=
  purpose ← auction_purpose;
  delayed ← auction_bool;
  disposal ← auction_bool;
  direction ← auction_direction;
  lift_option (Signal.from_parts purpose delayed disposal direction) Parser.InvalidValue.
Definition market_signal : Parser Signal.MarketSignal :=
  d ← u8;
  o ← (if (d =? 2) || (d =? 3) then o ← auction_observation; mret (Some o)
       else if (d =? 1) || (d =? 4) then mret None
       else fail Parser.InvalidValue);
  lift_option (Signal.signal_from_discriminant d o) Parser.InvalidValue.
Definition annotations : Parser Annotations.MarketAnnotations :=
  tag ← u8;
  if tag =? 0 then mret Annotations.NoAnnotations
  else if tag =? 1 then
    s ← u8; l ← u8; mret (Annotations.TwseQuote (Annotations.new_twse s l))
  else if tag =? 2 then
    s ← u8; l ← u8; mret (Annotations.TpexQuote (Annotations.new_tpex s l))
  else fail Parser.InvalidValue.

(** ** Each decoder inverts its encoder *)

Ltac destruct_writes :=
  repeat match goal with
  | H : Writer.writes (Writer.seq _ _) _ |- _ =>
      apply Writer.writes_seq in H; [destruct H as (? & ? & -> & ? & ?)|apply _..]
  | H : Writer.writes (extend _) _ |- _ => apply Writer.writes_extend in H; subst
  | H : Writer.writes (push _) _ |- _ => apply Writer.writes_push in H; subst
  | H : Writer.writes (Writer.refuse _) _ |- _ => by apply Writer.writes_refuse in H
  end.

(** The converse: the bytes consumed so far are what the writer writes. *)
Ltac solve_writes :=
  repeat match goal with
  | |- Writer.writes (Writer.seq (push _) _) (_ :: _) => apply Writer.writes_push_cons; [apply _|]
  | |- Writer.writes (Writer.seq _ _) _ =>
      apply Writer.writes_seq; [apply _..|eexists _, _; split; [reflexivity|split]]
  | |- Writer.writes (extend _) _ => apply Writer.writes_extend; reflexivity
  | |- Writer.writes (push _) _ => apply Writer.writes_push; reflexivity
  end; try eassumption.

(** One parser step against bytes of known shape. *)
Ltac decode_prim :=
  first [ apply Parser.decodes_u8; done | apply Parser.decodes_u64; done | apply Parser.decodes_i64; done
        | apply Parser.decodes_i128; done | apply Parser.decodes_bytes; eassumption
        | apply Parser.decodes_string; eassumption
        | apply Parser.decodes_lift; eassumption | apply Parser.decodes_lift_option; eassumption
        | eapply codec_decodes; eassumption ].
Ltac decode_step := eapply Parser.decodes_bind; [decode_prim|cbv beta].
Ltac decode_last := eapply Parser.decodes_last; [decode_prim|cbv beta].
Ltac decode_ret := apply Parser.decodes_ret.
Ltac decode := repeat first [decode_ret | decode_last; decode_ret | decode_step].

(** One parser step of a soundness proof: the bytes it consumed join the prefix. *)
Tactic Notation "sound_u8" ident(b) ident(Hb) :=
  eapply Parser.sound_bind; [apply Parser.sound_u8|intros b ? [-> Hb]].
Tactic Notation "sound_step" simple_intropattern(v) simple_intropattern(H) :=
  eapply Parser.sound_bind;
    [first [eassumption|apply Parser.sound_u64|apply Parser.sound_i64|apply Parser.sound_i128|apply Parser.sound_string
           |apply Parser.sound_bytes|eapply codec_sound]|intros v ? H].
Ltac sound_ret := apply Parser.sound_ret; cbv beta; rewrite ?app_nil_r.
(** Case analysis on the tag byte a chain of [if tag =? n] inspects. *)
Ltac sound_tag b :=
  repeat match goal with
  | |- Parser.sound (if b =? ?n then _ else _) _ => destruct (Z.eqb_spec b n) as [->|?]
  end; try apply Parser.sound_fail.

#[global] Instance price_laws : CanonicalLaws Price.Price.
Proof. intros v. apply _. Qed.

#[global] Instance price_codec : Codec append_canonical price Price.wf.
Proof.
  split; [apply _| |].
  - intros [[a]] enc Hw ->%Writer.writes_extend.
    eapply Parser.decodes_last; [by apply Parser.decodes_i128|apply Parser.decodes_ret].
  - eapply Parser.sound_bind; [apply Parser.sound_i128|]. intros a c [-> Ha].
    apply Parser.sound_ret. rewrite (right_id_L [] (++)). split; [done|]. by apply Writer.writes_extend.
Qed.

Lemma decodes_unit u : Parser.decodes
  (d ← u8; lift (Quantity.from_discriminant d) Parser.InvalidValue) [Quantity.discriminant u] u.
Proof.
  eapply Parser.decodes_last; [apply Parser.decodes_u8, Quantity.unit_discriminant_u8|].
  apply Parser.decodes_lift, Quantity.unit_from_discriminant.
Qed.

#[global] Instance quantity_laws : CanonicalLaws Quantity.Quantity.
Proof. intros v. apply _. Qed.
#[global] Instance quantity_codec : Codec append_canonical quantity Quantity.wf.
Proof.
  split; [apply _| |].
  - intros [v u] enc Hw ->%Writer.writes_extend. unfold Quantity.wf in Hw. simpl in Hw.
    change (Quantity.to_canonical_bytes (Quantity.mk v u)) with ([Quantity.discriminant u] ++ [] ++ be_bytes 8 v).
    eapply Parser.decodes_bind; [apply Parser.decodes_u8, Quantity.unit_discriminant_u8|].
    eapply Parser.decodes_bind; [apply Parser.decodes_lift, Quantity.unit_from_discriminant|].
    eapply Parser.decodes_last; [apply Parser.decodes_u64; unfold_ints; lia|].
    apply Parser.decodes_lift, Quantity.new_positive. lia.
  - eapply Parser.sound_bind; [apply Parser.sound_u8|]. intros d ? [-> Hd].
    eapply Parser.sound_bind; [by apply (Parser.sound_lift _ _ (λ u c, c = [] ∧ Quantity.from_discriminant d = Ok u))|].
    intros u ? [-> <-%Quantity.unit_discriminant_from].
    eapply Parser.sound_bind; [apply Parser.sound_u64|]. intros v ? [-> Hv].
    apply Parser.sound_lift. intros q Hq. pose proof (Quantity.new_wf _ _ _ Hv Hq).
    apply Quantity.new_quantity_Ok in Hq as [-> _]. rewrite (right_id_L [] (++)). split; [done|].
    by apply Writer.writes_extend.
Qed.

#[global] Instance volume_laws : CanonicalLaws Volume.Volume.
Proof. intros v. apply _. Qed.
#[global] Instance volume_codec : Codec append_canonical volume Volume.wf.
Proof.
  split; [apply _| |].
  - intros [v u] enc Hw ->%Writer.writes_extend. unfold Volume.wf in Hw. simpl in Hw.
    change (Volume.to_canonical_bytes (Volume.new v u)) with ([Quantity.discriminant u] ++ [] ++ be_bytes 8 v).
    eapply Parser.decodes_bind; [apply Parser.decodes_u8, Quantity.unit_discriminant_u8|].
    eapply Parser.decodes_bind; [apply Parser.decodes_lift, Quantity.unit_from_discriminant|].
    eapply Parser.decodes_last; [by apply Parser.decodes_u64|]. apply Parser.decodes_ret.
  - eapply Parser.sound_bind; [apply Parser.sound_u8|]. intros d ? [-> Hd].
    eapply Parser.sound_bind; [by apply (Parser.sound_lift _ _ (λ u c, c = [] ∧ Quantity.from_discriminant d = Ok u))|].
    intros u ? [-> <-%Quantity.unit_discriminant_from].
    eapply Parser.sound_bind; [apply Parser.sound_u64|]. intros v ? [-> Hv].
    apply Parser.sound_ret. rewrite (right_id_L [] (++)). split; [done|]. by apply Writer.writes_extend.
Qed.

#[global] Instance trade_laws : CanonicalLaws Trade.ObservedTrade.
Proof. intros v. apply _. Qed.
#[global] Instance trade_codec : Codec append_canonical trade Trade.wf.
Proof.
  split; [apply _| |].
  - intros [p q k] enc [Hp Hq] Hw. unfold append_canonical, trade_canonical in Hw. simpl in *.
    change (Writer.writes (append_canonical p ▷ append_canonical q ▷ push (Trade.kind_discriminant k)) enc) in Hw.
    destruct_writes. do 2 decode_step. eapply Parser.decodes_last; [apply Parser.decodes_u8; by destruct k|].
    eapply Parser.decodes_last; [|decode_ret]. destruct k; decode_ret.
  - sound_step p [Hp Hwp]. sound_step q [Hq Hwq]. sound_u8 d Hd.
    assert (Hk : Parser.sound (if d =? 0 then mret Trade.Regular else if d =? 1 then mret Trade.Intermediate
      else fail Parser.InvalidValue) (λ k c, c = [] ∧ Trade.kind_discriminant k = d)).
    { sound_tag d; by sound_ret. }
    sound_step k [-> <-].
    sound_ret. split; [done|]. unfold append_canonical, trade_canonical. simpl.
    change (extend (Price.to_canonical_bytes p)) with (append_canonical p).
    change (extend (Quantity.to_canonical_bytes q)) with (append_canonical q). solve_writes.
Qed.

(** *** Books *)

Definition slot_wf (slot : option Book.BookLevel) : Prop := ∀ l, slot = Some l → Book.level_wf l.

#[global] Instance slot_append_only s : Writer.AppendOnly (append_slot s).
Proof. destruct s; apply _. Qed.
#[global] Instance slot_codec : Codec append_slot slot slot_wf.
Proof.
  split; [apply _| |].
  - intros [[p q]|] enc Hw; simpl; intros Hwr.
    + destruct (Hw _ eq_refl) as [Hp Hq]. simpl in *.
      change (Writer.writes (push 1 ▷ append_canonical p ▷ append_canonical q) enc) in Hwr.
      destruct_writes. decode.
    + destruct_writes. decode.
  - sound_u8 tag Htag. sound_tag tag.
    + sound_ret. split; [by intros ?|]. by apply Writer.writes_push.
    + sound_step p [Hp Hwp]. sound_step q [Hq Hwq]. sound_ret. split; [by intros ? [= <-]|]. simpl.
      change (extend (Price.to_canonical_bytes p)) with (append_canonical p).
      change (extend (Quantity.to_canonical_bytes q)) with (append_canonical q). solve_writes.
Qed.

Definition order_wf (m : option Quantity.Quantity) : Prop := ∀ q, m = Some q → Quantity.wf q.

#[global] Instance market_order_append_only m : Writer.AppendOnly (append_market_order m).
Proof. destruct m; apply _. Qed.
#[global] Instance market_order_codec : Codec append_market_order market_order order_wf.
Proof.
  split; [apply _| |].
  - intros [q|] enc Hw; simpl; intros Hwr.
    + specialize (Hw _ eq_refl). change (Writer.writes (push 1 ▷ append_canonical q) enc) in Hwr.
      destruct_writes. decode.
    + destruct_writes. decode.
  - sound_u8 tag Htag. sound_tag tag.
    + sound_ret. split; [by intros ?|]. by apply Writer.writes_push.
    + sound_step q [Hq Hwq]. sound_ret. split; [by intros ? [= <-]|]. simpl.
      change (extend (Quantity.to_canonical_bytes q)) with (append_canonical q). solve_writes.
Qed.

Lemma side_slots_wf s : Book.side_wf s → Forall slot_wf (Book.slots s).
Proof.
  intros ((-> & _) & _ & Hl). apply Forall_app. split.
  - apply Forall_fmap. eapply Forall_impl; [|exact Hl]. intros l Hlw ? [= <-]. done.
  - apply Forall_replicate. by intros ?.
Qed.

Lemma side_levels_wf l : Forall slot_wf l → Forall Book.level_wf (Book.map_while_some l).
Proof. induction 1 as [|[x|] l Hx Hl IH]; simpl; constructor; [by apply Hx|done]. Qed.

#[global] Instance side_append_only s : Writer.AppendOnly (append_side s) := _.
#[global] Instance book_side_codec k : Codec append_side (book_side k) (λ s, Book.side_wf s ∧ Book.kind s = k).
Proof.
  split; [apply _| |].
  - intros s enc [Hw <-] Hwr. unfold append_side in Hwr. destruct_writes.
    pose proof (Book.side_valid_slots _ (proj1 Hw)) as Hlen.
    eapply Parser.decodes_bind; [eapply codec_decodes; [exact (proj1 (proj2 Hw))|done]|].
    eapply Parser.decodes_last; [rewrite <-Hlen; apply (decodes_repeat append_slot slot slot_wf);
      [by apply side_slots_wf|done]|].
    apply Parser.decodes_lift, Book.from_parts_Ok; [done|]. split; [by destruct s|apply Hw].
  - sound_step m [Hm Hwm]. eapply Parser.sound_bind; [apply (sound_repeat append_slot slot slot_wf)|].
    intros l c (Hlen & Hl & Hwl). apply Parser.sound_lift. intros s Hs.
    apply Book.from_parts_Ok in Hs as [-> Hv]; [|done]. rewrite app_nil_r. split.
    + split; [|done]. split_and!; [done|done|by apply side_levels_wf].
    + unfold append_side. simpl. solve_writes.
Qed.

#[global] Instance book_laws : CanonicalLaws Book.CompleteBookSnapshot.
Proof. intros v. apply _. Qed.
#[global] Instance book_codec : Codec append_canonical book Book.snapshot_wf.
Proof.
  split; [apply _| |].
  - intros [b a] enc (Hb & Ha & Hv) Hwr. simpl in *.
    change (Writer.writes (append_side b ▷ append_side a) enc) in Hwr. destruct_writes.
    assert (Book.side_wf b ∧ Book.kind b = Book.Bid) by (split; [done|apply Hv]).
    assert (Book.side_wf a ∧ Book.kind a = Book.Ask) by (split; [done|apply Hv]).
    decode_step. decode_last. apply Parser.decodes_lift, Book.new_snapshot_Ok; [apply Hb|apply Ha|done].
  - sound_step b [[Hb Hkb] Hwb]. sound_step a [[Ha Hka] Hwa]. apply Parser.sound_lift. intros s Hs.
    apply Book.new_snapshot_Ok in Hs as [-> Hv]; [|apply Hb|apply Ha]. rewrite app_nil_r.
    split; [done|]. unfold append_canonical, book_canonical. simpl. solve_writes.
Qed.

(** *** Auction evidence and signals *)

#[global] Instance purpose_laws : CanonicalLaws (Signal.AuctionEvidence Signal.AuctionPurpose).
Proof. intros []; apply _. Qed.
#[global] Instance purpose_codec : Codec append_canonical auction_purpose (λ _, True).
Proof.
  split; [apply _| |].
  - intros [|p|] enc _ Hwr; unfold append_canonical, purpose_evidence_canonical in Hwr; destruct_writes; [decode| |decode].
    decode_step. simpl. eapply Parser.decodes_last; [apply Parser.decodes_u8; by destruct p|].
    rewrite Signal.purpose_roundtrip. decode.
  - sound_u8 tag Htag. sound_tag tag; [by sound_ret| |by sound_ret].
    sound_u8 d Hd. destruct (Signal.purpose_from_discriminant d) as [p|] eqn:E; [|apply Parser.sound_fail].
    apply Signal.purpose_from_Some in E as <-. sound_ret. split; [done|].
    unfold append_canonical, purpose_evidence_canonical. solve_writes.
Qed.

#[global] Instance bool_laws : CanonicalLaws (Signal.AuctionEvidence bool).
Proof. intros []; apply _. Qed.
#[global] Instance bool_codec : Codec append_canonical auction_bool (λ _, True).
Proof.
  split; [apply _| |].
  - intros [|[]|] enc _ Hwr; unfold append_canonical, bool_evidence_canonical in Hwr; destruct_writes; decode.
  - sound_u8 tag Htag. sound_tag tag; [by sound_ret| |by sound_ret].
    sound_u8 d Hd. sound_tag d; sound_ret; (split; [done|]);
      unfold append_canonical, bool_evidence_canonical; solve_writes.
Qed.

#[global] Instance direction_laws : CanonicalLaws (Signal.AuctionEvidence Signal.VolatilityDirection).
Proof. intros []; apply _. Qed.
#[global] Instance direction_codec : Codec append_canonical auction_direction (λ _, True).
Proof.
  split; [apply _| |].
  - intros [|p|] enc _ Hwr; unfold append_canonical, direction_evidence_canonical in Hwr; destruct_writes; [decode| |decode].
    decode_step. simpl. eapply Parser.decodes_last; [apply Parser.decodes_u8; by destruct p|].
    rewrite Signal.direction_roundtrip. decode.
  - sound_u8 tag Htag. sound_tag tag; [by sound_ret| |by sound_ret].
    sound_u8 d Hd. destruct (Signal.direction_from_discriminant d) as [p|] eqn:E; [|apply Parser.sound_fail].
    apply Signal.direction_from_Some in E as <-. sound_ret. split; [done|].
    unfold append_canonical, direction_evidence_canonical. solve_writes.
Qed.

#[global] Instance auction_observation_laws : CanonicalLaws Signal.AuctionObservation.
Proof. intros v. apply _. Qed.
#[global] Instance auction_observation_codec : Codec append_canonical auction_observation Signal.wf.
Proof.
  split; [apply _| |].
  - intros o enc Hw Hwr. unfold append_canonical, auction_observation_canonical in Hwr. destruct_writes.
    do 3 (eapply Parser.decodes_bind; [by eapply codec_decodes|]).
    eapply Parser.decodes_last; [by eapply codec_decodes|].
    apply Parser.decodes_lift_option, Signal.from_parts_Some. by destruct o.
  - sound_step p [_ Hp]. sound_step dl [_ Hdl]. sound_step ds [_ Hds]. sound_step d [_ Hd].
    apply Parser.sound_lift_option. intros o Ho. apply Signal.from_parts_Some in Ho as [-> Hw].
    rewrite app_nil_r. split; [done|]. unfold append_canonical at 1, auction_observation_canonical. solve_writes.
Qed.

#[global] Instance signal_laws : CanonicalLaws Signal.MarketSignal.
Proof. intros []; apply _. Qed.
#[global] Instance signal_codec : Codec append_canonical market_signal Signal.signal_wf.
Proof.
  split; [apply _| |].
  - intros s enc Hw Hwr. unfold append_canonical at 1, signal_canonical in Hwr.
    destruct s as [|o|o|]; destruct_writes; (eapply Parser.decodes_bind; [by apply Parser.decodes_u8|]);
      simpl; [eapply Parser.decodes_last; decode_ret| | |eapply Parser.decodes_last; decode_ret].
    + specialize (Hw o eq_refl). eapply Parser.decodes_last; [decode_last; decode_ret|]. decode_ret.
    + specialize (Hw o eq_refl). eapply Parser.decodes_last; [decode_last; decode_ret|]. decode_ret.
  - sound_u8 d Hd.
    eapply (Parser.sound_bind _ _ (λ o c, (∀ x, o = Some x → Signal.wf x) ∧
      match o with Some x => Writer.writes (append_canonical x) c | None => c = [] end)).
    + destruct (_ || _); [|destruct (_ || _); [by sound_ret|apply Parser.sound_fail]].
      sound_step o [Ho Hwo]. sound_ret. split; [by intros ? [= <-]|done].
    + intros o c [Ho Hc]. apply Parser.sound_lift_option. intros s Hs. rewrite app_nil_r.
      unfold Signal.signal_from_discriminant in Hs.
      destruct (Z.eqb_spec d 1) as [->|?]; [|destruct (Z.eqb_spec d 2) as [->|?];
        [|destruct (Z.eqb_spec d 3) as [->|?]; [|destruct (Z.eqb_spec d 4) as [->|?]]]];
        destruct o as [o|]; simplify_eq/=; (split; [intros ? [= <-]; auto; done|]);
        apply Writer.writes_push_cons; (apply _ || by apply Writer.writes_extend || done).
Qed.

#[global] Instance annotations_laws : CanonicalLaws Annotations.MarketAnnotations.
Proof. intros []; apply _. Qed.
#[global] Instance annotations_codec : Codec append_canonical annotations Annotations.wf.
Proof.
  split; [apply _| |].
  - intros [|[]|[]] enc Hw Hwr; unfold append_canonical, annotations_canonical in Hwr;
      simpl in *; destruct_writes; [decode|destruct Hw; decode..].
  - sound_u8 tag Htag. sound_tag tag; [sound_ret; split; [done|]; unfold append_canonical, annotations_canonical; solve_writes| |];
      sound_u8 s Hs; sound_u8 l Hl; sound_ret; (split; [done|]);
      unfold append_canonical, annotations_canonical; simpl; solve_writes.
Qed.

(** *** Unknown values and observations *)

#[global] Instance unknown_laws : CanonicalLaws Observation.UnknownValue.
Proof. intros []; apply _. Qed.
#[global] Instance unknown_codec : Codec append_canonical unknown Observation.unknown_wf.
Proof.
  split; [apply _| |].
  - intros [v|v|[a]|t|b] enc Hw Hwr; unfold append_canonical, unknown_canonical in Hwr;
      simpl in *; destruct_writes; decode.
  - sound_u8 tag Htag. sound_tag tag.
    + sound_step v [-> Hv]. sound_ret. split; [done|]. unfold append_canonical, unknown_canonical. simpl. solve_writes.
    + sound_step v [-> Hv]. sound_ret. split; [done|]. unfold append_canonical, unknown_canonical. simpl. solve_writes.
    + sound_step v [-> Hv]. sound_ret. split; [done|]. unfold append_canonical, unknown_canonical. simpl. solve_writes.
    + sound_step v [Hw Hv]. sound_ret. split; [done|]. unfold append_canonical, unknown_canonical. simpl. solve_writes.
    + sound_step v [Hw Hv]. sound_ret. split; [done|]. unfold append_canonical, unknown_canonical. simpl. solve_writes.
Qed.

Section observation.
Context {T : Type} `{CanonicalLaws T} (decode_value : Parser T) (W : T → Prop)
  `{!Codec append_canonical decode_value W}.

#[global] Instance observation_laws : CanonicalLaws (Observation.Observation T).
Proof. intros []; apply _. Qed.
#[global] Instance observation_codec :
  Codec append_canonical (observation decode_value) (Observation.wf W).
Proof using Type*.
  split; [apply _| |].
  - intros [|v| |u] enc Hw Hwr; unfold append_canonical at 1, observation_canonical in Hwr;
      simpl in *; destruct_writes; [decode| |decode|].
    + decode_step. simpl. eapply Parser.decodes_last; [by eapply codec_decodes|]. decode.
    + decode_step. simpl. eapply Parser.decodes_last; [by eapply codec_decodes|]. decode.
  - sound_u8 tag Htag. sound_tag tag; [sound_ret; split; [done|]; unfold append_canonical, observation_canonical; simpl; solve_writes|..|].
    + sound_step v [Hv Hw]. sound_ret. split; [done|].
      unfold append_canonical at 1, observation_canonical. simpl. solve_writes.
    + sound_ret. split; [done|].
      unfold append_canonical at 1, observation_canonical. simpl. solve_writes.
    + sound_step u [Hu Hw]. sound_ret. split; [done|].
      unfold append_canonical at 1, observation_canonical. simpl. solve_writes.
Qed.
End observation.

End Values.
