(* ===== verification/Event.v ===== *)
(** Domain events (event.rs): the five payloads with their unit checks, the
    event record, and the version-9 canonical frame with its encoder, decoder
    and fingerprint. *)
From S2P Require Import Prelude Order Text Numeric Quantity Calendar Book Identity Signal Codec Values.
Import Writer(push, extend, append_bytes, append_length, each).
Import Parser(u8, u16, u32, i32, u64, i64, fail, lift).
Import Values.

(** The hash function of the blake3 crate, which the repository only calls:
    every definition that hashes takes it as an argument. *)
Class Blake3 := blake3 : list Z → list Z.

Module Event.

Definition EVENT_SCHEMA_VERSION : Z := 9.
Definition CANONICAL_EVENT_VERSION : Z := 9.
Definition CANONICAL_MAGIC : list Z := bytes_of "OSME".
Definition CANONICAL_TRADE_BYTES : Z := 16 + 9 + 1.
Definition MIN_TRADE_BATCH_SUFFIX_BYTES : Z := 1 + 1 + 1.

Abbreviation Observation := Observation.Observation.
Abbreviation NoObservation := Observation.NoObservation.
Abbreviation QuantityUnit := Quantity.QuantityUnit.

Inductive EventError : Set :=
| InvalidTrades (e : Trade.TradeError)
| QuantityUnitMismatch (expected actual : QuantityUnit).

(** ** Payloads *)

Record QuoteSnapshot : Set := mk_quote {
  quote_book : Book.CompleteBookSnapshot;
  quote_trade : Observation Trade.ObservedTrade;
  quote_volume : Observation Volume.Volume;
  quote_annotations : Annotations.MarketAnnotations;
  quote_signal : Observation Signal.MarketSignal }.

Record BookSnapshot : Set := mk_book {
  book_book : Book.CompleteBookSnapshot;
  book_annotations : Annotations.MarketAnnotations;
  book_signal : Observation Signal.MarketSignal }.

Record TradeBatch : Set := mk_batch {
  batch_trades : list Trade.ObservedTrade;
  batch_order : Trade.TradeBatchOrdering;
  batch_volume : Observation Volume.Volume;
  batch_annotations : Annotations.MarketAnnotations;
  batch_signal : Observation Signal.MarketSignal }.

Record IndicativeAuction : Set := mk_auction {
  auction_observation : Signal.AuctionObservation;
  auction_price : Observation Price.Price;
  auction_quantity : Observation Quantity.Quantity;
  auction_book : Observation Book.CompleteBookSnapshot;
  auction_volume : Observation Volume.Volume;
  auction_annotations : Annotations.MarketAnnotations }.

Record MarketStatusObservation : Set := mk_status {
  status_volume : Observation Volume.Volume;
  status_annotations : Annotations.MarketAnnotations;
  status_signal : Observation Signal.MarketSignal }.

Inductive EventPayload : Set :=
| QuoteSnapshotP (s : QuoteSnapshot) | BookSnapshotP (s : BookSnapshot) | TradeBatchP (b : TradeBatch)
| IndicativeAuctionP (a : IndicativeAuction) | MarketStatusP (s : MarketStatusObservation).

(** [validate_unit(&mut expected, actual)]: the new [expected]. *)
Definition validate_unit (expected : option QuantityUnit) (actual : QuantityUnit) :
    result EventError (option QuantityUnit) :=
  match expected with
  | Some e => if decide (e = actual) then Ok (Some e) else Err (QuantityUnitMismatch e actual)
  | None => Ok (Some actual)
  end.
(** [if let Observation::Set(x) = o { validate_unit(&mut expected, unit(x))?; }]. *)
Definition validate_observed {T} (unit : T → option QuantityUnit) (expected : option QuantityUnit)
    (o : Observation T) : result EventError (option QuantityUnit) :=
  match Observation.as_set o ≫= unit with Some u => validate_unit expected u | None => Ok expected end.

Definition validate_snapshot_units (book : Book.CompleteBookSnapshot)
    (trade : Observation Trade.ObservedTrade) (volume : Observation Volume.Volume) : result EventError () :=
  let expected := Book.quantity_unit book in
  expected ← validate_observed (λ t, Some (Trade.trade_unit t)) expected trade;
  _ ← validate_observed (λ v, Some (Volume.unit v)) expected volume;
  Ok ().

Definition validate_auction_units (quantity : Observation Quantity.Quantity)
    (book : Observation Book.CompleteBookSnapshot) (volume : Observation Volume.Volume) : result EventError () :=
  let expected := None in
  expected ← validate_observed (λ q, Some (Quantity.unit q)) expected quantity;
  expected ← validate_observed Book.quantity_unit expected book;
  _ ← validate_observed (λ v, Some (Volume.unit v)) expected volume;
  Ok ().

Definition new_quote (book : Book.CompleteBookSnapshot) (trade : Observation Trade.ObservedTrade)
    (volume : Observation Volume.Volume) (annotations : Annotations.MarketAnnotations) :
    result EventError QuoteSnapshot :=
  _ ← validate_snapshot_units book trade volume;
  Ok (mk_quote book trade volume annotations NoObservation).
Definition quote_with_signal (s : QuoteSnapshot) (g : Observation Signal.MarketSignal) : QuoteSnapshot :=
  mk_quote (quote_book s) (quote_trade s) (quote_volume s) (quote_annotations s) g.

Definition new_book (book : Book.CompleteBookSnapshot) (annotations : Annotations.MarketAnnotations) : BookSnapshot :=
  mk_book book annotations NoObservation.
Definition book_with_signal (s : BookSnapshot) (g : Observation Signal.MarketSignal) : BookSnapshot :=
  mk_book (book_book s) (book_annotations s) g.

Definition new_batch (trades : list Trade.ObservedTrade) (order : Trade.TradeBatchOrdering)
    (volume : Observation Volume.Volume) (annotations : Annotations.MarketAnnotations) :
    result EventError TradeBatch :=
  unit ← map_err InvalidTrades (Trade.validate_trade_units trades);
  match volume with
  | Observation.Set_ v =>
      reject bool_decide (Volume.unit v ≠ unit) with QuantityUnitMismatch unit (Volume.unit v);;
      Ok (mk_batch trades order volume annotations NoObservation)
  | _ => Ok (mk_batch trades order volume annotations NoObservation)
  end.
Definition batch_with_signal (b : TradeBatch) (g : Observation Signal.MarketSignal) : TradeBatch :=
  mk_batch (batch_trades b) (batch_order b) (batch_volume b) (batch_annotations b) g.

Definition new_auction (o : Signal.AuctionObservation) (price : Observation Price.Price)
    (quantity : Observation Quantity.Quantity) (book : Observation Book.CompleteBookSnapshot)
    (volume : Observation Volume.Volume) (annotations : Annotations.MarketAnnotations) :
    result EventError IndicativeAuction :=
  _ ← validate_auction_units quantity book volume;
  Ok (mk_auction o price quantity book volume annotations).
Definition with_observation (a : IndicativeAuction) (o : Signal.AuctionObservation) : IndicativeAuction :=
  mk_auction o (auction_price a) (auction_quantity a) (auction_book a) (auction_volume a) (auction_annotations a).

Definition new_status (volume : Observation Volume.Volume) (annotations : Annotations.MarketAnnotations) :
    MarketStatusObservation := mk_status volume annotations NoObservation.
Definition status_with_signal (s : MarketStatusObservation) (g : Observation Signal.MarketSignal) :
    MarketStatusObservation := mk_status (status_volume s) (status_annotations s) g.

Inductive EventKind : Set := QuoteSnapshotK | BookSnapshotK | TradeBatchK | IndicativeAuctionK | MarketStatusK.

#[global] Instance EventKind_eq_dec : EqDecision EventKind.
Proof. solve_decision. Defined.

Definition kind_discriminant (k : EventKind) : Z :=
  match k with
  | QuoteSnapshotK => 10 | BookSnapshotK => 20 | TradeBatchK => 30
  | IndicativeAuctionK => 40 | MarketStatusK => 50
  end.
#[global] Instance EventKind_ord : Ord EventKind := cmp_on kind_discriminant.
#[global] Instance kind_discriminant_inj : Inj (=) (=) kind_discriminant.
Proof. by intros [] []. Qed.
#[global] Instance EventKind_ord_laws : OrdLaws EventKind.
Proof. apply cmp_on_laws, _. Qed.

Definition kind (p : EventPayload) : EventKind :=
  match p with
  | QuoteSnapshotP _ => QuoteSnapshotK | BookSnapshotP _ => BookSnapshotK | TradeBatchP _ => TradeBatchK
  | IndicativeAuctionP _ => IndicativeAuctionK | MarketStatusP _ => MarketStatusK
  end.
Definition payload_discriminant (p : EventPayload) : Z := kind_discriminant (kind p).
Definition payload_signal (p : EventPayload) : Observation Signal.MarketSignal :=
  match p with
  | QuoteSnapshotP s => quote_signal s
  | BookSnapshotP s => book_signal s
  | TradeBatchP b => batch_signal b
  | IndicativeAuctionP a => Observation.Set_ (Signal.AuctionCollecting (auction_observation a))
  | MarketStatusP s => status_signal s
  end.

Record DomainEvent : Set := new {
  instrument : Instrument.InstrumentId;
  trading_date : TradingDate.TradingDate;
  source_format : SourceFormat.SourceFormatId;
  match_time : MatchTime.MatchTime;
  source_sequence : option Z;
  payload : EventPayload }.

(** ** The canonical frame: encoding *)

#[global] Instance auction_canonical : CanonicalValue IndicativeAuction := λ a,
  append_canonical (auction_observation a) ▷ append_canonical (auction_price a) ▷
  append_canonical (auction_quantity a) ▷ append_canonical (auction_book a) ▷
  append_canonical (auction_volume a) ▷ append_canonical (auction_annotations a).

Definition encode_quote (s : QuoteSnapshot) : Writer.Writer :=
  append_canonical (quote_book s) ▷ append_canonical (quote_trade s) ▷ append_canonical (quote_volume s) ▷
  append_canonical (quote_annotations s) ▷ append_canonical (quote_signal s).
Definition encode_book (s : BookSnapshot) : Writer.Writer :=
  append_canonical (book_book s) ▷ append_canonical (book_annotations s) ▷ append_canonical (book_signal s).
Definition encode_batch (b : TradeBatch) : Writer.Writer :=
  append_length (zlen (batch_trades b)) ▷ each append_canonical (batch_trades b) ▷
  push (Trade.ordering_discriminant (batch_order b)) ▷ append_canonical (batch_volume b) ▷
  append_canonical (batch_annotations b) ▷ append_canonical (batch_signal b).
Definition encode_status (s : MarketStatusObservation) : Writer.Writer :=
  append_canonical (status_volume s) ▷ append_canonical (status_annotations s) ▷
  append_canonical (status_signal s).

Definition encode_payload (p : EventPayload) : Writer.Writer :=
  match p with
  | QuoteSnapshotP s => encode_quote s
  | BookSnapshotP s => encode_book s
  | TradeBatchP b => encode_batch b
  | IndicativeAuctionP a => append_canonical a
  | MarketStatusP s => encode_status s
  end.

Definition encode_frame (e : DomainEvent) : Writer.Writer :=
  extend CANONICAL_MAGIC ▷ extend (be_bytes 2 CANONICAL_EVENT_VERSION) ▷
  extend (be_bytes 2 EVENT_SCHEMA_VERSION) ▷
  push (Market.discriminant (Instrument.market (instrument e))) ▷
  append_bytes (Symbol.as_bytes (Instrument.symbol (instrument e))) ▷
  extend (TradingDate.to_canonical_bytes (trading_date e)) ▷
  append_bytes (SourceFormat.as_bytes (source_format e)) ▷
  extend (be_bytes 8 (MatchTime.as_unix_microseconds (match_time e))) ▷
  Writer.append_optional_u64 (source_sequence e) ▷
  push (payload_discriminant (payload e)) ▷ encode_payload (payload e).

Definition to_canonical_bytes (e : DomainEvent) : result Writer.CanonicalEncodingError (list Z) :=
  reject negb (MatchTime.is_utc_iso8601_representable (match_time e)) with Writer.InvalidMatchTime;;
  encode_frame e [].

(** ** The canonical frame: decoding *)

#[local] Abbreviation Parser := Parser.Parser.

Definition decode_quote : Parser QuoteSnapshot :=
  b ← book;
  t ← observation trade;
  v ← observation volume;
  a ← annotations;
  s ← lift (new_quote b t v a) Parser.InvalidValue;
  g ← observation market_signal;
  mret (quote_with_signal s g).

Definition decode_book : Parser BookSnapshot :=
  b ← book;
  a ← annotations;
  g ← observation market_signal;
  mret (book_with_signal (new_book b a) g).

Definition maximum_count (st : Parser.CanonicalParser) : Z :=
  Z.max 0 (Parser.remaining_len st - MIN_TRADE_BATCH_SUFFIX_BYTES) ÷ CANONICAL_TRADE_BYTES.
Definition check_count (count : Z) : Parser () := λ st,
  reject maximum_count st <? count with Parser.LengthOutOfBounds;; Ok ((), st).

Definition trade_order : Parser Trade.TradeBatchOrdering :=
  d ← u8;
  if d =? 0 then mret Trade.Unspecified else if d =? 1 then mret Trade.SourceSequencePreserved
  else fail Parser.InvalidValue.

Definition decode_batch : Parser TradeBatch :=
  count ← u32;
  _ ← check_count count;
  trades ← Parser.repeat (Z.to_nat count) trade;
  order ← trade_order;
  v ← observation volume;
  a ← annotations;
  b ← lift (new_batch trades order v a) Parser.InvalidValue;
  g ← observation market_signal;
  mret (batch_with_signal b g).

Definition decode_auction : Parser IndicativeAuction :=
  o ← Values.auction_observation;
  p ← observation price;
  q ← observation quantity;
  b ← observation book;
  v ← observation volume;
  a ← annotations;
  lift (new_auction o p q b v a) Parser.InvalidValue.

Definition decode_status : Parser MarketStatusObservation :=
  v ← observation volume;
  a ← annotations;
  g ← observation market_signal;
  mret (status_with_signal (new_status v a) g).

Definition decode_payload : Parser EventPayload :=
  d ← u8;
  if d =? 10 then s ← decode_quote; mret (QuoteSnapshotP s)
  else if d =? 20 then s ← decode_book; mret (BookSnapshotP s)
  else if d =? 30 then b ← decode_batch; mret (TradeBatchP b)
  else if d =? 40 then a ← decode_auction; mret (IndicativeAuctionP a)
  else if d =? 50 then s ← decode_status; mret (MarketStatusP s)
  else fail Parser.InvalidValue.

Definition header : Parser () :=
  magic ← Parser.take 4;
  if bool_decide (magic ≠ CANONICAL_MAGIC) then fail Parser.UnsupportedHeader else
  version ← u16;
  if negb (version =? CANONICAL_EVENT_VERSION) then fail Parser.UnsupportedHeader else
  schema ← u16;
  if negb (schema =? EVENT_SCHEMA_VERSION) then fail Parser.UnsupportedHeader else mret ().

Definition decode_match_time : Parser MatchTime.MatchTime :=
  t ← i64;
  let t := MatchTime.from_unix_microseconds t in
  if negb (MatchTime.is_utc_iso8601_representable t) then fail Parser.InvalidValue else mret t.

Definition decode_sequence : Parser (option Z) :=
  tag ← u8;
  if tag =? 0 then mret None else if tag =? 1 then v ← u64; mret (Some v)
  else fail Parser.InvalidValue.

Definition finish : Parser () := λ st,
  reject negb (Parser.is_finished st) with Parser.TrailingBytes;; Ok ((), st).

Definition decode_frame : Parser DomainEvent :=
  _ ← header;
  d ← u8;
  market ← lift (Market.from_discriminant d) Parser.InvalidValue;
  s ← Parser.string_value;
  symbol ← lift (Symbol.new s) Parser.InvalidValue;
  days ← i32;
  date ← lift (TradingDate.from_epoch_days days) Parser.InvalidValue;
  f ← Parser.string_value;
  format ← lift (SourceFormat.new f) Parser.InvalidValue;
  t ← decode_match_time;
  sequence ← decode_sequence;
  p ← decode_payload;
  _ ← finish;
  mret (new (Instrument.new market symbol) date format t sequence p).

Definition from_canonical_bytes (bytes : list Z) : result Parser.CanonicalDecodingError DomainEvent :=
  '(e, _) ← decode_frame (Parser.new bytes); Ok e.

(** [EventFingerprint]: BLAKE3 is a third-party function of the bytes. *)
Section fingerprint.
Context {B : Blake3}.
Definition fingerprint (e : DomainEvent) : result Writer.CanonicalEncodingError (list Z) :=
  bytes ← to_canonical_bytes e; Ok (blake3 bytes).
End fingerprint.

End Event.
