(* ===== verification/EventCodec.v ===== *)
(** The theorems of the canonical event format: payload units, and that the
    decoder and the encoder of event.rs are inverse to each other. *)
From S2P Require Import Prelude Order Text Numeric Quantity Calendar Book Identity Signal Codec Values Event.
Import Writer(push, extend, append_bytes, append_length, each).
Import Parser(u8, u16, u32, i32, u64, i64, fail, lift).
Import Values Event.

Module EventCodec.

(** ** Units *)

(** Every unit that is known is the same. *)
Definition units_agree (us : list (option Quantity.QuantityUnit)) : Prop :=
  ∀ u v, Some u ∈ us → Some v ∈ us → u = v.

Lemma units_agree_cons x us : units_agree (x :: us) ↔
  (∀ u v, x = Some u → Some v ∈ us → u = v) ∧ units_agree us.
Proof.
  unfold units_agree. setoid_rewrite elem_of_cons. split.
  - intros H. split; [|by eauto]. intros u v -> Hv. apply H; auto.
  - intros [H1 H2] u v [Hu|Hu] [Hv|Hv]; [congruence|by eauto| |by eauto]. symmetry. eauto.
Qed.

Lemma validate_observed_Ok {T} (unit : T → option Quantity.QuantityUnit) expected o expected' :
  validate_observed unit expected o = Ok expected' ↔
  (∀ u v, expected = Some u → Observation.as_set o ≫= unit = Some v → u = v) ∧
  expected' = match expected with Some _ => expected | None => Observation.as_set o ≫= unit end.
Proof.
  unfold validate_observed, validate_unit.
  destruct (Observation.as_set o ≫= unit) as [v|], expected as [e|].
  - destruct (decide (e = v)) as [->|Hne].
    + split; [intros [= <-]; split; [congruence|done]|by intros [_ ->]].
    + split; [done|]. intros [H _]. by destruct Hne, (H e v).
  - split; [intros [= <-]; split; [congruence|done]|by intros [_ ->]].
  - split; [intros [= <-]; split; [congruence|done]|by intros [_ ->]].
  - split; [intros [= <-]; split; [congruence|done]|by intros [_ ->]].
Qed.

Definition snapshot_units (b : Book.CompleteBookSnapshot) (t : Observation Trade.ObservedTrade)
    (v : Observation Volume.Volume) : list (option Quantity.QuantityUnit) :=
  [Book.quantity_unit b; Trade.trade_unit <$> Observation.as_set t; Volume.unit <$> Observation.as_set v].
Definition auction_units (q : Observation Quantity.Quantity) (b : Observation Book.CompleteBookSnapshot)
    (v : Observation Volume.Volume) : list (option Quantity.QuantityUnit) :=
  [Quantity.unit <$> Observation.as_set q; Observation.as_set b ≫= Book.quantity_unit;
   Volume.unit <$> Observation.as_set v].

Lemma bind_Some_fmap {A B} (f : A → B) (o : option A) : (o ≫= λ x, Some (f x)) = f <$> o.
Proof. by destruct o. Qed.

(** Three fields checked in order agree pairwise. *)
Lemma agree3 (x y z : option Quantity.QuantityUnit) :
  (∀ u v, x = Some u → y = Some v → u = v) ∧
  (∀ u v, match x with Some _ => x | None => y end = Some u → z = Some v → u = v) ↔
  units_agree [x; y; z].
Proof.
  rewrite !units_agree_cons. split.
  - intros [H1 H2]. split_and!; [|intros u v -> [Hv|[]%not_elem_of_nil]%elem_of_cons
      |by intros u v _ ?%not_elem_of_nil|by intros u v ?%not_elem_of_nil].
    + intros u v -> [Hv|[Hv|[]%not_elem_of_nil]%elem_of_cons]%elem_of_cons; [by apply H1|by apply H2].
    + destruct x as [w|]; [|by apply H2]. rewrite <-(H1 w u eq_refl eq_refl). by apply H2.
  - intros (H1 & H2 & _). split.
    + intros u v Hu ->. apply H1; [done|]. by left.
    + intros u v Hu ->. destruct x as [w|]; [apply H1; [done|]; by right; left|apply H2; [done|by left]].
Qed.

Lemma validate_snapshot_units_Ok b t v :
  validate_snapshot_units b t v = Ok () ↔ units_agree (snapshot_units b t v).
Proof.
  unfold validate_snapshot_units, snapshot_units. rewrite <-agree3, bind_Ok. setoid_rewrite bind_Ok.
  setoid_rewrite validate_observed_Ok. rewrite <-!bind_Some_fmap. split.
  - intros (e & [H1 ->] & ? & [H2 _] & _). done.
  - intros [H1 H2]. eexists. split; [split; [exact H1|reflexivity]|]. eexists. by split; [split; [exact H2|reflexivity]|].
Qed.

Lemma validate_auction_units_Ok q b v :
  validate_auction_units q b v = Ok () ↔ units_agree (auction_units q b v).
Proof.
  unfold validate_auction_units, auction_units. rewrite <-agree3, bind_Ok. setoid_rewrite bind_Ok.
  setoid_rewrite bind_Ok. setoid_rewrite validate_observed_Ok. rewrite <-!bind_Some_fmap. split.
  - intros (e & [_ ->] & ? & [H1 ->] & ? & [H2 _] & _). done.
  - intros [H1 H2]. eexists. split; [split; [done|reflexivity]|].
    eexists. split; [split; [exact H1|reflexivity]|]. eexists. by split; [split; [exact H2|reflexivity]|].
Qed.

Lemma new_quote_Ok b t v a s : new_quote b t v a = Ok s ↔
  s = mk_quote b t v a NoObservation ∧ units_agree (snapshot_units b t v).
Proof.
  unfold new_quote. rewrite bind_Ok. split.
  - intros ([] & H%validate_snapshot_units_Ok & [= <-]). done.
  - intros [-> H%validate_snapshot_units_Ok]. eauto.
Qed.

Lemma new_auction_Ok o p q b v a s : new_auction o p q b v a = Ok s ↔
  s = mk_auction o p q b v a ∧ units_agree (auction_units q b v).
Proof.
  unfold new_auction. rewrite bind_Ok. split.
  - intros ([] & H%validate_auction_units_Ok & [= <-]). done.
  - intros [-> H%validate_auction_units_Ok]. eauto.
Qed.

(** A batch has prints, all in one unit, which is the volume's if it has one. *)
Definition batch_units (ts : list Trade.ObservedTrade) (v : Observation Volume.Volume) : Prop :=
  ts ≠ [] ∧ ∃ u, Forall (λ t, Trade.trade_unit t = u) ts ∧
    ∀ w, Observation.as_set v = Some w → Volume.unit w = u.

Lemma validate_trade_units_Ok ts u : Trade.validate_trade_units ts = Ok u ↔
  ts ≠ [] ∧ Forall (λ t, Trade.trade_unit t = u) ts.
Proof.
  unfold Trade.validate_trade_units. destruct ts as [|t ts]; simpl; [naive_solver|].
  rewrite drop_0, bind_Ok, Forall_cons_iff. split.
  - intros ([] & H%Trade.check_units_Ok & [= <-]). done.
  - intros (_ & <- & H%(Trade.check_units_Ok _ 1)). by exists ().
Qed.

Lemma new_batch_Ok ts o v a s : new_batch ts o v a = Ok s ↔
  s = mk_batch ts o v a NoObservation ∧ batch_units ts v.
Proof.
  unfold new_batch, batch_units. rewrite bind_Ok. split.
  - intros (u & Hu & H). destruct (Trade.validate_trade_units ts) as [u'|] eqn:E; [|done]. injection Hu as ->.
    apply validate_trade_units_Ok in E as [Hne Hall].
    destruct v as [|w| |]; try case_bool_decide as Hw; simplify_eq/=;
      (split; [done|]); (split; [done|]); eexists; (split; [done|]); (intros ? [= <-] || by intros ?); done.
  - intros (-> & Hne & u & Hall & Hv). exists u.
    rewrite (proj2 (validate_trade_units_Ok ts u)) by done. split; [done|].
    destruct v as [|w| |]; try done. rewrite bool_decide_false; [done|]. intros Hw. by apply Hw, Hv.
Qed.

(** ** Payload codecs *)

Definition signal_obs_wf : Observation Signal.MarketSignal → Prop := Observation.wf Signal.signal_wf.
Definition volume_obs_wf : Observation Volume.Volume → Prop := Observation.wf Volume.wf.

Definition quote_wf (s : QuoteSnapshot) : Prop :=
  Book.snapshot_wf (quote_book s) ∧ Observation.wf Trade.wf (quote_trade s) ∧ volume_obs_wf (quote_volume s) ∧
  Annotations.wf (quote_annotations s) ∧ signal_obs_wf (quote_signal s) ∧
  units_agree (snapshot_units (quote_book s) (quote_trade s) (quote_volume s)).
Definition book_wf (s : BookSnapshot) : Prop :=
  Book.snapshot_wf (book_book s) ∧ Annotations.wf (book_annotations s) ∧ signal_obs_wf (book_signal s).
Definition batch_wf (b : TradeBatch) : Prop :=
  Forall Trade.wf (batch_trades b) ∧ volume_obs_wf (batch_volume b) ∧ Annotations.wf (batch_annotations b) ∧
  signal_obs_wf (batch_signal b) ∧ batch_units (batch_trades b) (batch_volume b).
Definition auction_wf (a : IndicativeAuction) : Prop :=
  Signal.wf (auction_observation a) ∧ Observation.wf Price.wf (auction_price a) ∧
  Observation.wf Quantity.wf (auction_quantity a) ∧ Observation.wf Book.snapshot_wf (auction_book a) ∧
  volume_obs_wf (auction_volume a) ∧ Annotations.wf (auction_annotations a) ∧
  units_agree (auction_units (auction_quantity a) (auction_book a) (auction_volume a)).
Definition status_wf (s : MarketStatusObservation) : Prop :=
  volume_obs_wf (status_volume s) ∧ Annotations.wf (status_annotations s) ∧ signal_obs_wf (status_signal s).

Definition payload_wf (p : EventPayload) : Prop :=
  match p with
  | QuoteSnapshotP s => quote_wf s
  | BookSnapshotP s => book_wf s
  | TradeBatchP b => batch_wf b
  | IndicativeAuctionP a => auction_wf a
  | MarketStatusP s => status_wf s
  end.

Definition wf (e : DomainEvent) : Prop :=
  Instrument.wf (instrument e) ∧ TradingDate.wf (trading_date e) ∧ SourceFormat.wf (source_format e) ∧
  MatchTime.wf (match_time e) ∧ (∀ n, source_sequence e = Some n → is_u64 n) ∧ payload_wf (payload e).

Ltac codec_step := eapply Parser.decodes_bind; [by eapply codec_decodes|cbv beta].

#[global] Instance quote_codec : Codec encode_quote decode_quote quote_wf.
Proof.
  split; [apply _| |].
  - intros s enc (Hb & Ht & Hv & Ha & Hg & Hu) Hw. unfold encode_quote in Hw. destruct_writes.
    do 4 codec_step. eapply Parser.decodes_pure;
      [by apply Parser.decodes_lift, new_quote_Ok|].
    eapply Parser.decodes_last; [by eapply codec_decodes|]. destruct s; decode_ret.
  - sound_step b [Hb Hwb]. sound_step t [Ht Hwt]. sound_step v [Hv Hwv]. sound_step a [Ha Hwa].
    eapply Parser.sound_bind; [by apply (Parser.sound_lift _ _ (λ s c, c = [] ∧ new_quote b t v a = Ok s))|].
    intros s ? [-> [-> Hu]%new_quote_Ok]. sound_step g [Hg Hwg]. sound_ret. split; [done|].
    unfold encode_quote. simpl. solve_writes.
Qed.

#[global] Instance book_payload_codec : Codec encode_book decode_book book_wf.
Proof.
  split; [apply _| |].
  - intros s enc (Hb & Ha & Hg) Hw. unfold encode_book in Hw. destruct_writes. do 2 codec_step.
    eapply Parser.decodes_last; [by eapply codec_decodes|]. destruct s; decode_ret.
  - sound_step b [Hb Hwb]. sound_step a [Ha Hwa]. sound_step g [Hg Hwg]. sound_ret. split; [done|].
    unfold encode_book. simpl. solve_writes.
Qed.

#[global] Instance status_codec : Codec encode_status decode_status status_wf.
Proof.
  split; [apply _| |].
  - intros s enc (Hv & Ha & Hg) Hw. unfold encode_status in Hw. destruct_writes. do 2 codec_step.
    eapply Parser.decodes_last; [by eapply codec_decodes|]. destruct s; decode_ret.
  - sound_step v [Hv Hwv]. sound_step a [Ha Hwa]. sound_step g [Hg Hwg]. sound_ret. split; [done|].
    unfold encode_status. simpl. solve_writes.
Qed.

#[global] Instance auction_codec : Codec append_canonical decode_auction auction_wf.
Proof.
  split; [apply _| |].
  - intros s enc (Ho & Hp & Hq & Hb & Hv & Ha & Hu) Hw.
    unfold append_canonical at 1, auction_canonical in Hw. destruct_writes. do 5 codec_step.
    eapply Parser.decodes_last; [by eapply codec_decodes|].
    apply Parser.decodes_lift, new_auction_Ok. by destruct s.
  - sound_step o [Ho Hwo]. sound_step p [Hp Hwp]. sound_step q [Hq Hwq]. sound_step b [Hb Hwb].
    sound_step v [Hv Hwv]. sound_step a [Ha Hwa]. apply Parser.sound_lift.
    intros s [-> Hu]%new_auction_Ok. rewrite app_nil_r. split; [done|].
    unfold append_canonical at 1, auction_canonical. simpl. solve_writes.
Qed.

(** The batch's count is checked against the bytes that remain: the shortest
    encoding of [count] prints and what follows them always fits. *)
Lemma trade_length (t : Trade.ObservedTrade) enc : Writer.writes (append_canonical t) enc → zlen enc = CANONICAL_TRADE_BYTES.
Proof.
  unfold append_canonical, trade_canonical. intros H. destruct_writes. rewrite !zlen_app.
  unfold Price.to_canonical_bytes, Decimal.to_canonical_bytes, Quantity.to_canonical_bytes, zlen.
  cbn [length]. by rewrite !length_be_bytes.
Qed.

Lemma trades_length (ts : list Trade.ObservedTrade) enc : Writer.writes (each append_canonical ts) enc →
  zlen enc = CANONICAL_TRADE_BYTES * zlen ts.
Proof.
  revert enc. induction ts as [|t ts IH]; intros enc; cbn [each].
  - by intros ->%Writer.writes_extend.
  - intros (e1 & e2 & -> & H1%trade_length & H2%IH)%Writer.writes_seq; [|apply _..].
    rewrite zlen_app, H1, H2. unfold zlen, CANONICAL_TRADE_BYTES. simpl. lia.
Qed.

Lemma observation_nonempty {T} `{CanonicalLaws T} (o : Observation T) enc :
  Writer.writes (append_canonical o) enc → 1 ≤ zlen enc.
Proof.
  unfold append_canonical at 1, observation_canonical. intros Hw.
  destruct o; destruct_writes; rewrite zlen_app; unfold zlen; simpl; lia.
Qed.

Lemma annotations_nonempty (a : Annotations.MarketAnnotations) enc : Writer.writes (append_canonical a) enc → 1 ≤ zlen enc.
Proof.
  unfold append_canonical at 1, annotations_canonical. intros Hw.
  destruct a; destruct_writes; rewrite zlen_app; unfold zlen; simpl; lia.
Qed.

Lemma decodes_check {B} count (k : () → Parser.Parser B) enc b : 0 ≤ count →
  CANONICAL_TRADE_BYTES * count + MIN_TRADE_BATCH_SUFFIX_BYTES ≤ zlen enc →
  Parser.decodes (k ()) enc b → Parser.decodes (check_count count ≫= k) enc b.
Proof.
  intros Hc Hlen Hk pre post Hl. unfold mbind, Parser.parser_bind, check_count.
  assert ((maximum_count (Parser.mk (pre ++ enc ++ post) (zlen pre)) <? count) = false) as ->.
  { apply Z.ltb_ge. unfold maximum_count, Parser.remaining_len, CANONICAL_TRADE_BYTES, MIN_TRADE_BATCH_SUFFIX_BYTES in *.
    cbn [Parser.bytes Parser.offset]. rewrite !zlen_app. pose proof (Zle_0_nat (length post)).
    assert (0 ≤ zlen post) by (unfold zlen; lia). rewrite Z.quot_div_nonneg by lia.
    apply Z.div_le_lower_bound; lia. }
  simpl. by apply Hk.
Qed.

Lemma sound_check count : Parser.sound (check_count count) (λ _ c, c = []).
Proof.
  intros st v st' Hwf H. unfold check_count in H. destruct (_ <? _); [done|]. injection H as <- <-.
  exact (Parser.sound_ret () (λ _ c, c = []) eq_refl st () st Hwf eq_refl).
Qed.

Lemma decodes_order o : Parser.decodes trade_order [Trade.ordering_discriminant o] o.
Proof.
  eapply Parser.decodes_last; [apply Parser.decodes_u8; by destruct o|]. destruct o; decode_ret.
Qed.
Lemma sound_order : Parser.sound trade_order (λ o c, c = [Trade.ordering_discriminant o]).
Proof. sound_u8 d Hd. sound_tag d; by sound_ret. Qed.

#[global] Instance batch_codec : Codec encode_batch decode_batch batch_wf.
Proof.
  split; [apply _| |].
  - intros b enc (Ht & Hv & Ha & Hg & Hu) Hw. unfold encode_batch in Hw. destruct_writes.
    match goal with H : Writer.writes (append_length _) _ |- _ =>
      apply Writer.writes_append_length in H as [Hn ->] end.
    eapply Parser.decodes_bind; [by apply Parser.decodes_u32|].
    apply decodes_check; [unfold zlen; lia| |].
    { repeat match goal with
      | H : Writer.writes (each _ _) _ |- _ => apply trades_length in H
      | H : Writer.writes (append_canonical (batch_annotations _)) _ |- _ => apply annotations_nonempty in H
      | H : Writer.writes (append_canonical _) _ |- _ => apply observation_nonempty in H
      end. rewrite !zlen_app. unfold MIN_TRADE_BATCH_SUFFIX_BYTES. unfold zlen in *. simpl. lia. }
    unfold zlen. rewrite Nat2Z.id.
    eapply Parser.decodes_bind; [by apply (decodes_repeat append_canonical trade Trade.wf)|].
    eapply Parser.decodes_bind; [apply decodes_order|]. do 2 codec_step.
    eapply Parser.decodes_pure; [by apply Parser.decodes_lift, new_batch_Ok|].
    eapply Parser.decodes_last; [by eapply codec_decodes|]. destruct b; decode_ret.
  - eapply Parser.sound_bind; [apply Parser.sound_u32|]. intros n ? [-> Hn].
    eapply Parser.sound_bind; [apply sound_check|]. intros [] ? ->.
    eapply Parser.sound_bind; [apply (sound_repeat append_canonical trade Trade.wf)|].
    intros ts c (Hlen & Hts & Hwts). eapply Parser.sound_bind; [apply sound_order|]. intros o ? ->.
    sound_step v [Hv Hwv]. sound_step a [Ha Hwa].
    eapply Parser.sound_bind; [by apply (Parser.sound_lift _ _ (λ s c, c = [] ∧ new_batch ts o v a = Ok s))|].
    intros s ? [-> [-> Hu]%new_batch_Ok]. sound_step g [Hg Hwg]. sound_ret. split; [done|].
    unfold encode_batch, batch_with_signal. unfold is_u32 in Hn.
    cbn [batch_trades batch_order batch_volume batch_annotations batch_signal].
    assert (n = zlen ts) as -> by (unfold zlen; lia).
    rewrite !app_nil_l. apply Writer.writes_seq; [apply _..|]. eexists _, _. split; [reflexivity|].
    split; [by apply Writer.writes_append_length|]. solve_writes.
Qed.

#[global] Instance encode_payload_append_only p : Writer.AppendOnly (encode_payload p).
Proof. destruct p; apply _. Qed.

Definition encode_tagged_payload (p : EventPayload) : Writer.Writer :=
  push (payload_discriminant p) ▷ encode_payload p.

#[global] Instance payload_codec : Codec encode_tagged_payload decode_payload payload_wf.
Proof.
  split; [apply _| |].
  - intros p enc Hw Hwr. unfold encode_tagged_payload in Hwr. destruct_writes.
    eapply Parser.decodes_bind; [apply Parser.decodes_u8; by destruct p|].
    destruct p; simpl in *; (eapply Parser.decodes_last; [by eapply codec_decodes|decode_ret]).
  - sound_u8 d Hd. sound_tag d; sound_step s [Hs Hws]; sound_ret; (split; [done|]);
      (apply Writer.writes_push_cons; [apply _|done]).
Qed.

(** ** The frame *)

Lemma decodes_u16 z : 0 ≤ z ≤ 65535 → Parser.decodes u16 (be_bytes 2 z) z.
Proof. intros. apply Parser.decodes_be. simpl. lia. Qed.

Lemma decodes_header : Parser.decodes header
  (CANONICAL_MAGIC ++ be_bytes 2 CANONICAL_EVENT_VERSION ++ be_bytes 2 EVENT_SCHEMA_VERSION) ().
Proof.
  eapply Parser.decodes_bind; [by apply Parser.decodes_take|]. rewrite bool_decide_false by (intros H; by apply H).
  eapply Parser.decodes_bind; [by apply decodes_u16|].
  eapply Parser.decodes_last; [by apply decodes_u16|]. decode_ret.
Qed.
Lemma sound_header : Parser.sound header (λ _ c,
  c = CANONICAL_MAGIC ++ be_bytes 2 CANONICAL_EVENT_VERSION ++ be_bytes 2 EVENT_SCHEMA_VERSION).
Proof.
  eapply Parser.sound_bind; [apply Parser.sound_take|]. intros magic c (-> & _ & _).
  case_bool_decide as Hm; [apply Parser.sound_fail|]. assert (c = CANONICAL_MAGIC) as -> by by destruct (decide (c = CANONICAL_MAGIC)).
  eapply Parser.sound_bind; [apply Parser.sound_u16|]. intros v ? ->.
  destruct (Z.eqb_spec v CANONICAL_EVENT_VERSION) as [->|]; [|apply Parser.sound_fail]. simpl negb. cbv iota.
  eapply Parser.sound_bind; [apply Parser.sound_u16|]. intros w ? ->.
  destruct (Z.eqb_spec w EVENT_SCHEMA_VERSION) as [->|]; [|apply Parser.sound_fail]. simpl negb. cbv iota.
  by sound_ret.
Qed.

Definition representable (t : MatchTime.MatchTime) : Prop := MatchTime.is_utc_iso8601_representable t = true.

#[global] Instance match_time_codec :
  Codec (λ t, extend (be_bytes 8 (MatchTime.as_unix_microseconds t))) decode_match_time
    (λ t, MatchTime.wf t ∧ representable t).
Proof.
  split; [apply _| |].
  - intros [t] enc [Hw Hr] ->%Writer.writes_extend.
    eapply Parser.decodes_last; [by apply Parser.decodes_i64|]. simpl.
    unfold representable in Hr. rewrite Hr. decode_ret.
  - sound_step t [-> Ht]. simpl.
    destruct (MatchTime.is_utc_iso8601_representable (MatchTime.from_unix_microseconds t)) eqn:E;
      [|apply Parser.sound_fail]. sound_ret. split; [done|]. by apply Writer.writes_extend.
Qed.

#[global] Instance sequence_codec :
  Codec Writer.append_optional_u64 decode_sequence (λ o, ∀ n, o = Some n → is_u64 n).
Proof.
  split; [apply _| |].
  - intros [n|] enc Hw Hwr; unfold Writer.append_optional_u64 in Hwr; destruct_writes;
      [specialize (Hw n eq_refl)|]; decode.
  - sound_u8 tag Htag. sound_tag tag.
    + sound_ret. split; [by intros ?|]. by apply Writer.writes_push.
    + sound_step v [-> Hv]. sound_ret. split; [by intros ? [= <-]|]. unfold Writer.append_optional_u64. solve_writes.
Qed.

(** The last field is followed by the end of the input, and nothing else is. *)
Definition finishes {A} (p : Parser.Parser A) (enc : list Z) (v : A) : Prop :=
  ∀ pre, zlen (pre ++ enc) ≤ isize_max → ∃ st, p (Parser.mk (pre ++ enc) (zlen pre)) = Ok (v, st).
Definition ends {A} (p : Parser.Parser A) : Prop :=
  ∀ st v st', p st = Ok (v, st') → Parser.is_finished st' = true.

Lemma finishes_bind {A B} (p : Parser.Parser A) (k : A → Parser.Parser B) e1 e2 a b :
  Parser.decodes p e1 a → finishes (k a) e2 b → finishes (p ≫= k) (e1 ++ e2) b.
Proof.
  intros Hp Hk pre Hlen. specialize (Hp pre e2 Hlen).
  destruct (Hk (pre ++ e1)) as [st Hst]; [by rewrite <-(assoc_L (++))|].
  exists st. unfold mbind, Parser.parser_bind. rewrite Hp. simpl. by rewrite <-(assoc_L (++)) in Hst.
Qed.
Lemma finishes_pure {A B} (p : Parser.Parser A) (k : A → Parser.Parser B) e a b :
  Parser.decodes p [] a → finishes (k a) e b → finishes (p ≫= k) e b.
Proof. apply (finishes_bind p k []). Qed.
Lemma finishes_finish {A} (v : A) : finishes (finish ≫= λ _, mret v) [] v.
Proof.
  intros pre _. exists (Parser.mk (pre ++ []) (zlen pre)). rewrite app_nil_r.
  unfold mbind, Parser.parser_bind, finish, Parser.is_finished. simpl. by rewrite Z.eqb_refl.
Qed.

Lemma ends_bind {A B} (p : Parser.Parser A) (k : A → Parser.Parser B) : (∀ a, ends (k a)) → ends (p ≫= k).
Proof. intros Hk st v st' H. apply bind_Ok in H as ([a st1] & _ & H). by eapply Hk. Qed.
Lemma decode_frame_ends : ends decode_frame.
Proof.
  unfold decode_frame. do 12 (apply ends_bind; intros ?). intros st v st' H.
  apply bind_Ok in H as ([[] st1] & H & [= _ <-]). unfold finish in H.
  destruct (Parser.is_finished st) eqn:E; [|done]. by injection H as <-.
Qed.

Lemma decode_frame_finishes e enc : wf e → representable (match_time e) →
  Writer.writes (encode_frame e) enc → finishes decode_frame enc e.
Proof.
  intros (Hi & Hd & Hf & Ht & Hs & Hp) Hr Hw. unfold encode_frame in Hw.
  change (push (payload_discriminant (payload e)) ▷ encode_payload (payload e))
    with (encode_tagged_payload (payload e)) in Hw.
  assert (Writer.AppendOnly (encode_tagged_payload (payload e))) by apply _.
  destruct_writes. destruct Hi as [Hne Hutf], Hf as [Hfne Hfutf].
  rewrite !(assoc_L (++) CANONICAL_MAGIC), (assoc_L (++) (CANONICAL_MAGIC ++ _)), <-(assoc_L (++) CANONICAL_MAGIC).
  eapply finishes_bind; [apply decodes_header|].
  eapply finishes_bind; [apply Parser.decodes_u8, Market.discriminant_u8|].
  eapply finishes_pure; [apply Parser.decodes_lift, Market.from_discriminant_discriminant|].
  eapply finishes_bind; [eapply Parser.decodes_string; [exact Hutf|eassumption]|].
  eapply finishes_pure; [apply Parser.decodes_lift, Symbol.new_symbol_Ok; by split|].
  eapply finishes_bind; [apply Parser.decodes_i32; unfold TradingDate.wf, TradingDate.MIN_EPOCH_DAYS,
    TradingDate.MAX_EPOCH_DAYS in Hd; unfold_ints; lia|].
  eapply finishes_pure; [apply Parser.decodes_lift, TradingDate.from_epoch_days_Ok; by split|].
  eapply finishes_bind; [eapply Parser.decodes_string; [exact Hfutf|eassumption]|].
  eapply finishes_pure; [apply Parser.decodes_lift, SourceFormat.new_format_Ok; by split|].
  eapply finishes_bind; [by eapply codec_decodes, Writer.writes_extend|].
  eapply finishes_bind; [by eapply codec_decodes|].
  rewrite <-(app_nil_r x9). eapply finishes_bind; [by eapply codec_decodes|].
  destruct e as [[m [sb]] [dd] [fb] t q p]. apply finishes_finish.
Qed.

Lemma sound_lift_eq {E A} (r : result E A) e : Parser.sound (lift r e) (λ v c, c = [] ∧ r = Ok v).
Proof. by apply Parser.sound_lift. Qed.

Lemma sound_finish : Parser.sound finish (λ _ c, c = []).
Proof.
  intros st v st' Hwf H. unfold finish in H. destruct (negb _); [done|]. injection H as <- <-.
  exact (Parser.sound_ret () (λ _ c, c = []) eq_refl st () st Hwf eq_refl).
Qed.

Lemma decode_frame_sound : Parser.sound decode_frame
  (λ e c, (wf e ∧ representable (match_time e)) ∧ Writer.writes (encode_frame e) c).
Proof.
  eapply Parser.sound_bind; [apply sound_header|]. intros [] ? ->.
  sound_u8 d Hd. eapply Parser.sound_bind; [apply sound_lift_eq|].
  intros m ? [-> <-%Market.discriminant_from_discriminant].
  sound_step s [Hws Hs]. eapply Parser.sound_bind; [apply sound_lift_eq|]. intros sb ? [-> [-> Hsne]%Symbol.new_symbol_Ok].
  eapply Parser.sound_bind; [apply Parser.sound_i32|]. intros z ? [-> _].
  eapply Parser.sound_bind; [apply sound_lift_eq|]. intros dd ? [-> [-> Hdd]%TradingDate.from_epoch_days_Ok].
  sound_step f [Hwf Hf]. eapply Parser.sound_bind; [apply sound_lift_eq|].
  intros fb ? [-> [-> Hfne]%SourceFormat.new_format_Ok].
  sound_step t [[Ht Hr] Hwt]. sound_step q [Hq Hwq]. sound_step p [Hp Hwp].
  eapply Parser.sound_bind; [apply sound_finish|]. intros [] ? ->. sound_ret. split; [by split_and!|].
  unfold encode_frame. cbn [instrument trading_date source_format match_time source_sequence payload
    Instrument.market Instrument.symbol Symbol.as_bytes SourceFormat.as_bytes].
  rewrite !app_nil_l, <-!(assoc_L (++)). fold (encode_tagged_payload p).
  assert (Writer.AppendOnly (encode_tagged_payload p)) by apply _.
  repeat (apply Writer.writes_seq; [apply _..|]; eexists _, _; split; [reflexivity|split];
    [first [by apply Writer.writes_extend | by apply Writer.writes_push | eassumption]|]). done.
Qed.

(** ** The properties of the format *)

Lemma frame_decode_encode e bytes : wf e → zlen bytes ≤ isize_max →
  to_canonical_bytes e = Ok bytes → from_canonical_bytes bytes = Ok e.
Proof.
  intros Hw Hlen H. unfold to_canonical_bytes in H.
  destruct (MatchTime.is_utc_iso8601_representable (match_time e)) eqn:Hr; [|done]. simpl in H.
  apply Writer.writes_nil in H; [|unfold encode_frame; fold (encode_tagged_payload (payload e)); apply _].
  destruct (decode_frame_finishes e bytes Hw Hr H [] Hlen) as [st Hst].
  change (zlen (@nil Z)) with 0 in Hst. rewrite app_nil_l in Hst.
  unfold from_canonical_bytes, Parser.new. by rewrite Hst.
Qed.

(** C37: decoding an event's canonical bytes gives the event back. *)
Theorem event_decode_encode e bytes : wf e → zlen bytes ≤ isize_max →
  to_canonical_bytes e = Ok bytes → from_canonical_bytes bytes = Ok e.
Proof. apply frame_decode_encode. Qed.

(** A batch of one print, the sample the witnesses evaluate. *)
Definition sample_trade : Trade.ObservedTrade :=
  Trade.new (Price.new (Decimal.from_atoms 1000000000000000000)) (Quantity.mk 5 Quantity.Share) Trade.Regular.
Definition sample_at (t : Z) : DomainEvent :=
  new (Instrument.new Market.Twse (Symbol.mk (bytes_of "2330"))) (TradingDate.mk 20000)
    (SourceFormat.mk (bytes_of "twse-v1")) (MatchTime.from_unix_microseconds t) (Some 7)
    (TradeBatchP (mk_batch [sample_trade] Trade.SourceSequencePreserved
       (Observation.Set_ (Volume.new 9 Quantity.Share)) (Annotations.TwseQuote (Annotations.new_twse 16 0))
       (Observation.Set_ Signal.Continuous))).
Definition sample_event : DomainEvent := sample_at 1728000000000000.
Definition sample_bytes : list Z := match to_canonical_bytes sample_event with Ok b => b | Err _ => [] end.

Lemma sample_at_wf t : is_i64 t → wf (sample_at t).
Proof.
  intros Ht. unfold wf, sample_at, TradingDate.wf, MatchTime.wf, TradingDate.MIN_EPOCH_DAYS, TradingDate.MAX_EPOCH_DAYS.
  cbn [instrument trading_date source_format match_time source_sequence payload
    TradingDate.as_epoch_days MatchTime.as_unix_microseconds].
  split_and!; try done; try (unfold_ints; lia); [intros ? [= <-]; by unfold_ints|].
  split_and!; [|by simpl|by simpl|by intros ?|].
  - repeat constructor; by vm_compute.
  - split; [done|]. exists Quantity.Share. split; [by repeat constructor|]. by intros ? [= <-].
Qed.
Lemma sample_event_wf : wf sample_event.
Proof. apply sample_at_wf. by unfold_ints. Qed.

Lemma event_decode_encode_witness : from_canonical_bytes sample_bytes = Ok sample_event.
Proof.
  apply (event_decode_encode sample_event sample_bytes); [apply sample_event_wf|by vm_compute|by vm_compute].
Defined.

(** Every byte string the decoder accepts is the canonical encoding of the
    well-formed event it returns: there is one encoding per event and no
    malformed event comes out. *)
Theorem event_encode_decode bytes e : Forall is_u8 bytes → zlen bytes ≤ isize_max →
  from_canonical_bytes bytes = Ok e → wf e ∧ to_canonical_bytes e = Ok bytes.
Proof.
  intros Hu Hlen H. unfold from_canonical_bytes in H. apply bind_Ok in H as ([e' st'] & H & [= ->]).
  assert (Parser.wf (Parser.new bytes)) as Hwf.
  { split; [done|]. split; [|done]. cbn. unfold zlen. lia. }
  pose proof (decode_frame_ends _ _ _ H) as Hend.
  destruct (decode_frame_sound _ _ _ Hwf H) as (c & (Hb & pre & post & Hst & Hpre & Hoff) & [Hw Hr] & Hwr).
  split; [done|]. simpl in *. assert (pre = []) as ->.
  { destruct pre; [done|]. unfold zlen in Hpre. simpl in Hpre. lia. }
  assert (post = []) as ->.
  { unfold Parser.is_finished in Hend. rewrite Hb, Hoff, Hst in Hend. simpl in Hend.
    apply Z.eqb_eq in Hend. rewrite zlen_app in Hend. destruct post; [done|].
    unfold zlen in Hend. simpl in Hend. lia. }
  rewrite app_nil_r in Hst. simpl in Hst. subst c.
  unfold to_canonical_bytes. rewrite Hr. simpl. apply Hwr.
Qed.

Lemma event_encode_decode_witness : wf sample_event ∧ to_canonical_bytes sample_event = Ok sample_bytes.
Proof.
  apply (event_encode_decode sample_bytes sample_event); [|by vm_compute|by vm_compute].
  apply forallb_u8. by vm_compute.
Defined.

(** Equal fingerprints mean equal events, or a collision of the hash: the
    canonical bytes leave nothing of a well-formed event out. *)
Theorem fingerprint_identifies {B : Blake3} e1 e2 f :
  wf e1 → wf e2 →
  (∀ b, to_canonical_bytes e1 = Ok b ∨ to_canonical_bytes e2 = Ok b → zlen b ≤ isize_max) →
  fingerprint e1 = Ok f → fingerprint e2 = Ok f →
  e1 = e2 ∨ ∃ x y, x ≠ y ∧ blake3 x = blake3 y.
Proof.
  intros H1 H2 Hlen F1 F2. apply bind_Ok in F1 as (b1 & B1 & [= <-]). apply bind_Ok in F2 as (b2 & B2 & [= E]).
  destruct (decide (b1 = b2)) as [->|Hne]; [left|right; eauto].
  pose proof (Hlen b2 (or_intror B2)). apply frame_decode_encode in B1, B2; congruence.
Qed.

Lemma fingerprint_identifies_witness : sample_event = sample_event ∨
  ∃ x y : list Z, x ≠ y ∧ [zlen x] = [zlen y].
Proof.
  apply (@fingerprint_identifies (λ b, [zlen b]) sample_event sample_event [zlen sample_bytes]);
    [apply sample_event_wf|apply sample_event_wf| |by vm_compute|by vm_compute].
  intros b [Hb|Hb]; (assert (b = sample_bytes) as -> by (unfold sample_bytes; by rewrite Hb)); by vm_compute.
Defined.

End EventCodec.
