(* ===== verification/MarketState.v ===== *)
(** The reducer's state (model.rs of market-state) and the market profiles
    that say which events it accepts (profile.rs). *)
From S2P Require Import Prelude Order Text Numeric Quantity Calendar Book Identity Signal Codec Values Event.

(** ** model.rs *)
Module Model.

Record SessionSegmentId : Set := mk_segment { segment_bytes : list Z }.
Inductive SessionSegmentIdError : Set := EmptySegment.
#[global] Instance SessionSegmentId_eq_dec : EqDecision SessionSegmentId.
Proof. solve_decision. Defined.
Definition new_segment (value : list Z) : result SessionSegmentIdError SessionSegmentId :=
  match value with [] => Err EmptySegment | _ => Ok (mk_segment value) end.
#[global] Instance SessionSegmentId_ord : Ord SessionSegmentId := cmp_on segment_bytes.

Record AppliedEventRef : Set := mk_ref {
  ref_match_time : MatchTime.MatchTime;
  ref_source_format : SourceFormat.SourceFormatId;
  ref_source_phase : Z;
  ref_event_kind : Event.EventKind;
  ref_source_sequence : option Z;
  ref_event_fingerprint : list Z }.

#[global] Instance AppliedEventRef_eq_dec : EqDecision AppliedEventRef.
Proof. solve_decision. Defined.

Definition STOCK_REALTIME : list Z := bytes_of "STOCK_REALTIME".

Definition realtime_phase (p : Event.EventPayload) : Z :=
  match p with
  | Event.TradeBatchP _ => 10
  | Event.QuoteSnapshotP _ | Event.BookSnapshotP _ | Event.MarketStatusP _ => 20
  | Event.IndicativeAuctionP a =>
      match Observation.as_set (Event.auction_book a) with Some _ => 20 | None => 10 end
  end.
Definition source_phase_for_event (e : Event.DomainEvent) : Z :=
  match Instrument.market (Event.instrument e) with
  | Market.Taifex => 0
  | Market.Twse | Market.Tpex =>
      if bool_decide (SourceFormat.as_bytes (Event.source_format e) ≠ STOCK_REALTIME) then 0
      else realtime_phase (Event.payload e)
  end.

Definition from_event {B : Blake3} (e : Event.DomainEvent) :
    result Writer.CanonicalEncodingError AppliedEventRef :=
  fp ← Event.fingerprint e;
  Ok (mk_ref (Event.match_time e) (Event.source_format e) (source_phase_for_event e)
        (Event.kind (Event.payload e)) (Event.source_sequence e) fp).

Inductive UnavailableReason : Set := Initial | Cleared (cleared_at : AppliedEventRef).

Record AuctionState : Set := new_auction_state { observation : Signal.AuctionObservation }.
Inductive MarketPhase : Set := Continuous | Auction (a : AuctionState) | Closed.

Inductive StateField (T : Type) : Type :=
| Unavailable (reason : UnavailableReason)
| Known (value : T) (observed_at : AppliedEventRef)
| Unknown (raw : Observation.UnknownValue) (observed_at : AppliedEventRef).
Arguments Unavailable {T} reason.
Arguments Known {T} value observed_at.
Arguments Unknown {T} raw observed_at.

Definition initial {T} : StateField T := Unavailable Initial.
Definition known {T} (f : StateField T) : option T :=
  match f with Known v _ => Some v | _ => None end.
Definition observed_at {T} (f : StateField T) : option AppliedEventRef :=
  match f with
  | Known _ at_ | Unknown _ at_ => Some at_
  | Unavailable (Cleared at_) => Some at_
  | Unavailable Initial => None
  end.

Inductive TradeObservation : Set :=
| Single (t : Trade.ObservedTrade)
| Batch (trades : list Trade.ObservedTrade) (trade_order : Trade.TradeBatchOrdering).
Inductive ModelError : Set := EmptyTradeBatch.

Definition new_trade_batch (trades : list Trade.ObservedTrade) (o : Trade.TradeBatchOrdering) :
    result ModelError TradeObservation :=
  match trades with [] => Err EmptyTradeBatch | _ => Ok (Batch trades o) end.
Definition observed_trades (t : TradeObservation) : list Trade.ObservedTrade :=
  match t with Single t => [t] | Batch ts _ => ts end.
Definition observed_order (t : TradeObservation) : option Trade.TradeBatchOrdering :=
  match t with Single _ => None | Batch _ o => Some o end.

Record MarketState : Set := mk_state {
  instrument : Instrument.InstrumentId;
  trading_date : TradingDate.TradingDate;
  current_segment_id : option SessionSegmentId;
  book : StateField Book.CompleteBookSnapshot;
  recent_trade : StateField TradeObservation;
  cumulative_volume : StateField Volume.Volume;
  indicative_auction : StateField Event.IndicativeAuction;
  market_signal : StateField Signal.MarketSignal;
  phase : StateField MarketPhase;
  last_event : option AppliedEventRef;
  state_version : Z }.

Definition new (i : Instrument.InstrumentId) (d : TradingDate.TradingDate) : MarketState :=
  mk_state i d None initial initial initial initial initial initial None 0.

Definition last_match_time (s : MarketState) : option MatchTime.MatchTime := ref_match_time <$> last_event s.

(** The crate-private setters, one field each. *)
Definition reset_observable_fields (s : MarketState) : MarketState :=
  mk_state (instrument s) (trading_date s) (current_segment_id s) initial initial initial initial initial initial
    (last_event s) (state_version s).
Definition set_segment (x : SessionSegmentId) (s : MarketState) : MarketState :=
  mk_state (instrument s) (trading_date s) (Some x) (book s) (recent_trade s) (cumulative_volume s)
    (indicative_auction s) (market_signal s) (phase s) (last_event s) (state_version s).
Definition set_book (x : StateField Book.CompleteBookSnapshot) (s : MarketState) : MarketState :=
  mk_state (instrument s) (trading_date s) (current_segment_id s) x (recent_trade s) (cumulative_volume s)
    (indicative_auction s) (market_signal s) (phase s) (last_event s) (state_version s).
Definition set_recent_trade (x : StateField TradeObservation) (s : MarketState) : MarketState :=
  mk_state (instrument s) (trading_date s) (current_segment_id s) (book s) x (cumulative_volume s)
    (indicative_auction s) (market_signal s) (phase s) (last_event s) (state_version s).
Definition set_cumulative_volume (x : StateField Volume.Volume) (s : MarketState) : MarketState :=
  mk_state (instrument s) (trading_date s) (current_segment_id s) (book s) (recent_trade s) x
    (indicative_auction s) (market_signal s) (phase s) (last_event s) (state_version s).
Definition set_indicative_auction (x : StateField Event.IndicativeAuction) (s : MarketState) : MarketState :=
  mk_state (instrument s) (trading_date s) (current_segment_id s) (book s) (recent_trade s) (cumulative_volume s)
    x (market_signal s) (phase s) (last_event s) (state_version s).
Definition set_market_signal (x : StateField Signal.MarketSignal) (s : MarketState) : MarketState :=
  mk_state (instrument s) (trading_date s) (current_segment_id s) (book s) (recent_trade s) (cumulative_volume s)
    (indicative_auction s) x (phase s) (last_event s) (state_version s).
Definition set_phase (x : StateField MarketPhase) (s : MarketState) : MarketState :=
  mk_state (instrument s) (trading_date s) (current_segment_id s) (book s) (recent_trade s) (cumulative_volume s)
    (indicative_auction s) (market_signal s) x (last_event s) (state_version s).
Definition finish_event (e : AppliedEventRef) (version : Z) (s : MarketState) : MarketState :=
  mk_state (instrument s) (trading_date s) (current_segment_id s) (book s) (recent_trade s) (cumulative_volume s)
    (indicative_auction s) (market_signal s) (phase s) (Some e) version.

(** [MarketStateView]'s derived reads. *)
Definition best_bid (s : MarketState) : option Book.BookLevel :=
  b ← known (book s); head (Book.levels (Book.bids b)).
Definition best_ask (s : MarketState) : option Book.BookLevel :=
  b ← known (book s); head (Book.levels (Book.asks b)).

Inductive LastTradeUnavailable : Set := StateReason (r : UnavailableReason) | AmbiguousBatchOrder.
Inductive LastTrade : Set :=
| LastKnown (t : Trade.ObservedTrade) | LastUnavailable (r : LastTradeUnavailable)
| LastUnknown (raw : Observation.UnknownValue).

(** [None] stands for the panic of [expect] on an empty batch. *)
Definition last_trade (s : MarketState) : option LastTrade :=
  match recent_trade s with
  | Unavailable reason => Some (LastUnavailable (StateReason reason))
  | Unknown raw _ => Some (LastUnknown raw)
  | Known (Single t) _ => Some (LastKnown t)
  | Known (Batch ts Trade.SourceSequencePreserved) _ => LastKnown <$> list.last ts
  | Known (Batch _ Trade.Unspecified) _ => Some (LastUnavailable AmbiguousBatchOrder)
  end.

End Model.

(** ** profile.rs *)
Module Profile.

Inductive CumulativeVolumePolicy : Set :=
| Unconstrained | NonDecreasingWithinSegment (unit : Quantity.QuantityUnit).

Inductive ProfileError : Set :=
| EmptySourceRules | EmptyEventKindSet | DuplicateSourceFormat | ZeroBoundaryPolicyVersion
| MarketMismatch | UnsupportedSourceFormat | UnsupportedEventKind.

Record SourceFormatRule : Set := mk_rule {
  source_format : SourceFormat.SourceFormatId;
  accepted_event_kinds : list Event.EventKind }.

Record MarketStateProfile : Set := mk_profile {
  market : Market.MarketId;
  source_rules : list SourceFormatRule;
  cumulative_volume_policy : CumulativeVolumePolicy;
  segment_boundary_policy_version : Z }.

(** [Vec::dedup]: drops consecutive repeats. *)
Fixpoint dedup (l : list Event.EventKind) : list Event.EventKind :=
  match l with
  | x :: (y :: _) as l' => if decide (x = y) then dedup l' else x :: dedup l'
  | l => l
  end.

Definition new_rule (f : SourceFormat.SourceFormatId) (kinds : list Event.EventKind) :
    result ProfileError SourceFormatRule :=
  let kinds := dedup (sort_on id kinds) in
  reject bool_decide (kinds = []) with EmptyEventKindSet;; Ok (mk_rule f kinds).

Definition new (m : Market.MarketId) (rules : list SourceFormatRule) (policy : CumulativeVolumePolicy)
    (version : Z) : result ProfileError MarketStateProfile :=
  match rules with
  | [] => Err EmptySourceRules
  | _ =>
      let rules := sort_on source_format rules in
      reject repeats_key source_format rules
        with DuplicateSourceFormat;;
      reject version =? 0 with ZeroBoundaryPolicyVersion;;
      Ok (mk_profile m rules policy version)
  end.

(** The built-in profiles. Their [expect]s are [ok_or]s here: an error would
    be the panic. *)
Definition named_rule (f : string) (kinds : list Event.EventKind) : result ProfileError SourceFormatRule :=
  f ← map_err (λ _, EmptySourceRules) (SourceFormat.new (bytes_of f)); new_rule f kinds.

Definition realtime_kinds : list Event.EventKind :=
  [Event.QuoteSnapshotK; Event.TradeBatchK; Event.IndicativeAuctionK; Event.MarketStatusK].
Definition snapshot_kinds : list Event.EventKind :=
  [Event.QuoteSnapshotK; Event.IndicativeAuctionK; Event.MarketStatusK].

Definition quote_profile (m : Market.MarketId) (realtime snapshot : string) : result ProfileError MarketStateProfile :=
  r ← named_rule realtime realtime_kinds;
  s ← named_rule snapshot snapshot_kinds;
  new m [r; s] (NonDecreasingWithinSegment Quantity.TradingUnit) 1.
Definition twse_regular := quote_profile Market.Twse "STOCK_REALTIME" "STOCK_SNAPSHOT".
Definition twse_warrant := quote_profile Market.Twse "WARRANT_REALTIME" "WARRANT_SNAPSHOT".
Definition tpex_quote := quote_profile Market.Tpex.
Definition tpex_regular := tpex_quote "STOCK_REALTIME" "STOCK_SNAPSHOT".
Definition tpex_warrant := tpex_quote "WARRANT_REALTIME" "WARRANT_SNAPSHOT".
Definition taifex_futures : result ProfileError MarketStateProfile :=
  a ← named_rule "I020" [Event.TradeBatchK];
  b ← named_rule "I022" [Event.IndicativeAuctionK];
  c ← named_rule "I080" [Event.BookSnapshotK];
  d ← named_rule "I082" [Event.BookSnapshotK];
  new Market.Taifex [a; b; c; d] Unconstrained 1.
Definition taifex_options : result ProfileError MarketStateProfile :=
  a ← named_rule "I020" [Event.TradeBatchK];
  b ← named_rule "I022" [Event.IndicativeAuctionK];
  c ← named_rule "I080" [Event.BookSnapshotK];
  d ← named_rule "I082" [Event.BookSnapshotK];
  new Market.Taifex [a; b; c; d] Unconstrained 1.

Definition validate_event (p : MarketStateProfile) (e : Event.DomainEvent) : result ProfileError () :=
  reject bool_decide (Instrument.market (Event.instrument e) ≠ market p) with MarketMismatch;;
  match List.find (λ r, bool_decide (source_format r = Event.source_format e)) (source_rules p) with
  | None => Err UnsupportedSourceFormat
  | Some rule =>
      reject bool_decide (Event.kind (Event.payload e) ∉ accepted_event_kinds rule)
        with UnsupportedEventKind;; Ok ()
  end.

(** *** What a constructed profile promises *)

Definition rule_wf (r : SourceFormatRule) : Prop :=
  accepted_event_kinds r ≠ [] ∧ StronglySorted ord_lt (accepted_event_kinds r).
Definition wf (p : MarketStateProfile) : Prop :=
  source_rules p ≠ [] ∧
  StronglySorted (key_lt source_format) (source_rules p) ∧
  segment_boundary_policy_version p ≠ 0.

Lemma dedup_cons x y l :
  dedup (x :: y :: l) = if decide (x = y) then dedup (y :: l) else x :: dedup (y :: l).
Proof. done. Qed.

Lemma elem_of_dedup x l : x ∈ dedup l ↔ x ∈ l.
Proof.
  induction l as [|y [|z l] IH]; [done|done|]. rewrite dedup_cons.
  destruct (decide (y = z)) as [->|Hne].
  - rewrite IH, !elem_of_cons. naive_solver.
  - rewrite elem_of_cons, IH, (elem_of_cons (z :: l)). done.
Qed.

Lemma dedup_sorted l : StronglySorted (key_le id) l → StronglySorted ord_lt (dedup l).
Proof.
  induction l as [|y l IH]; [constructor|]. intros Hs. inversion_clear Hs as [|? ? Hs' Hy].
  specialize (IH Hs'). destruct l as [|z l]; [repeat constructor|]. rewrite dedup_cons.
  destruct (decide (y = z)) as [->|Hne]; [done|].
  constructor; [done|]. apply Forall_forall. intros w Hw. apply list_elem_of_In in Hw.
  rewrite elem_of_dedup in Hw.
  assert (ord_lt y z) as Hyz.
  { inversion_clear Hy as [|? ? Hyz _]. unfold key_le, id in Hyz. by apply ord_le_lt_eq in Hyz as [?|?]. }
  apply elem_of_cons in Hw as [->|Hw]; [done|]. eapply ord_lt_le_trans; [exact Hyz|].
  inversion_clear Hs' as [|? ? _ Hz]. rewrite Forall_forall in Hz. apply (Hz w). by apply list_elem_of_In.
Qed.

(** An accepted rule lists the given kinds in order, each once. *)
Theorem new_rule_spec f kinds :
  match new_rule f kinds with
  | Ok r => source_format r = f ∧ rule_wf r ∧ (∀ k, k ∈ accepted_event_kinds r ↔ k ∈ kinds)
  | Err e => e = EmptyEventKindSet ∧ kinds = []
  end.
Proof.
  unfold new_rule. assert (Hin : ∀ k, k ∈ dedup (sort_on id kinds) ↔ k ∈ kinds)
    by (intros k; by rewrite elem_of_dedup, elem_of_sort_on).
  case_bool_decide as He.
  - split; [done|]. destruct kinds as [|k ks]; [done|].
    assert (k ∈ dedup (sort_on id (k :: ks))) as Hk by (apply Hin; by left).
    rewrite He in Hk. by apply not_elem_of_nil in Hk.
  - unfold rule_wf. cbn. split_and!; [done|done|apply dedup_sorted, sort_on_sorted|done].
Qed.

(** An accepted profile holds the given rules in format order, one per
    format, and the order they were listed in does not matter. *)
Theorem new_profile_spec m rules policy version p : new m rules policy version = Ok p →
  wf p ∧ source_rules p ≡ₚ rules ∧ market p = m ∧ cumulative_volume_policy p = policy ∧
  segment_boundary_policy_version p = version ∧
  ∀ rules', rules' ≡ₚ rules → new m rules' policy version = Ok p.
Proof.
  assert (Hnew : ∀ rs q, new m rs policy version = Ok q ↔ rs ≠ [] ∧ version ≠ 0 ∧
    q = mk_profile m (sort_on source_format rs) policy version ∧
    repeats_key source_format (sort_on source_format rs) = false).
  { intros rs q. unfold new.
    destruct rs as [|r rs]; [naive_solver|].
    destruct (repeats_key _ _); [naive_solver|]. destruct (Z.eqb_spec version 0); naive_solver. }
  rewrite Hnew. intros (Hne & Hv & -> & Hs). split_and!; cbn; [|apply sort_on_perm|done..|].
  - split_and!; cbn; [|apply repeats_key_false; [apply sort_on_sorted|done]|done].
    intros He. apply Hne, Permutation_nil_r. by rewrite <-He, sort_on_perm.
  - intros rules' Hp. apply Hnew. rewrite (sort_on_unique source_format rules rules') by done.
    split_and!; [|done..]. intros ->. by apply Permutation_nil_l in Hp.
Qed.

Lemma new_profile_spec_witness : ∃ p, taifex_futures = Ok p ∧ wf p.
Proof.
  eexists. split; [vm_compute; reflexivity|].
  eapply (proj1 (new_profile_spec Market.Taifex
    [mk_rule (SourceFormat.mk (bytes_of "I082")) [Event.BookSnapshotK];
     mk_rule (SourceFormat.mk (bytes_of "I022")) [Event.IndicativeAuctionK];
     mk_rule (SourceFormat.mk (bytes_of "I080")) [Event.BookSnapshotK];
     mk_rule (SourceFormat.mk (bytes_of "I020")) [Event.TradeBatchK]] Unconstrained 1 _ _)).
  Unshelve. vm_compute. reflexivity.
Defined.

(** None of the built-in profiles panics, and each is well formed. *)
Theorem built_in_profiles_wf :
  Forall (λ r, ∃ p, r = Ok p ∧ wf p)
    [twse_regular; twse_warrant; tpex_regular; tpex_warrant; taifex_futures; taifex_options].
Proof.
  repeat constructor; eexists; (split; [vm_compute; reflexivity|]);
    (split; [done|split; [|done]]); repeat constructor.
Qed.

End Profile.
