(* ===== verification/Reducer.v ===== *)
(** The market-state reducer (reducer.rs): one accepted event takes a state to
    the next one through a proposal that is committed whole or not at all. *)
From S2P Require Import Prelude Order Text Numeric Quantity Calendar Book Identity Signal Codec Values Event MarketState.

Module Reducer.
Import Model.

Inductive SegmentBoundaryPolicy : Set := Carry | ResetObservableFields.
#[global] Instance SegmentBoundaryPolicy_eq_dec : EqDecision SegmentBoundaryPolicy.
Proof. solve_decision. Defined.

Record ReducerContext : Set := new_context {
  ctx_trading_date : TradingDate.TradingDate;
  session_segment_id : SessionSegmentId;
  segment_boundary_policy : SegmentBoundaryPolicy;
  ctx_policy_version : Z }.

Inductive BoundaryAction : Set := ResetAction.
Inductive ChangedField : Set :=
| CurrentSegmentF | BookF | RecentTradeF | CumulativeVolumeF | IndicativeAuctionF | MarketSignalF | PhaseF | LastEventF.
Inductive StateWarningCode : Set := UnknownRecentTrade | UnknownCumulativeVolume.

Inductive StateTransitionError : Set :=
| InstrumentMismatch | TradingDateMismatch | BoundaryPolicyVersionMismatch
| ProfileErr (e : Profile.ProfileError) | CanonicalEncoding (e : Writer.CanonicalEncodingError)
| MatchTimeRegression | OrderingRegression | InvalidTwseRealtimeShape | InvalidTpexRealtimeShape
| CumulativeVolumeRegression (previous next : Z)
| VolumeUnitMismatch (expected actual : Quantity.QuantityUnit)
| StateVersionOverflow | StaleProposal.

(** The derived [Ord]s follow the order of the variants. *)
Definition field_rank (f : ChangedField) : Z :=
  match f with
  | CurrentSegmentF => 0 | BookF => 1 | RecentTradeF => 2 | CumulativeVolumeF => 3
  | IndicativeAuctionF => 4 | MarketSignalF => 5 | PhaseF => 6 | LastEventF => 7
  end.
Definition warning_rank (w : StateWarningCode) : Z :=
  match w with UnknownRecentTrade => 0 | UnknownCumulativeVolume => 1 end.

#[global] Instance ChangedField_eq_dec : EqDecision ChangedField.
Proof. solve_decision. Defined.
#[global] Instance StateWarningCode_eq_dec : EqDecision StateWarningCode.
Proof. solve_decision. Defined.
#[global] Instance ChangedField_countable : Countable ChangedField.
Proof.
  apply (inj_countable' field_rank (λ z,
    if z =? 0 then CurrentSegmentF else if z =? 1 then BookF else if z =? 2 then RecentTradeF
    else if z =? 3 then CumulativeVolumeF else if z =? 4 then IndicativeAuctionF
    else if z =? 5 then MarketSignalF else if z =? 6 then PhaseF else LastEventF)).
  by intros [].
Defined.
#[global] Instance StateWarningCode_countable : Countable StateWarningCode.
Proof.
  apply (inj_countable' warning_rank (λ z, if z =? 0 then UnknownRecentTrade else UnknownCumulativeVolume)).
  by intros [].
Defined.

(** The locals of [propose]: the [next] state and its two [BTreeSet]s. *)
Record Draft : Set := mk_draft {
  next : MarketState; changed : gset ChangedField; warnings : gset StateWarningCode }.
Definition update (f : MarketState → MarketState) (d : Draft) : Draft := mk_draft (f (next d)) (changed d) (warnings d).
Definition touch (c : ChangedField) (d : Draft) : Draft := mk_draft (next d) ({[c]} ∪ changed d) (warnings d).
Definition warn (w : StateWarningCode) (d : Draft) : Draft := mk_draft (next d) (changed d) ({[w]} ∪ warnings d).

Record TransitionReceipt : Set := mk_receipt {
  receipt_instrument : Instrument.InstrumentId;
  receipt_previous_version : Z;
  receipt_new_version : Z;
  receipt_event : AppliedEventRef;
  boundary_action : option BoundaryAction;
  changed_fields : list ChangedField;
  warning_codes : list StateWarningCode }.
Record ProposedTransition : Set := mk_proposal {
  proposal_previous_version : Z; next_state : MarketState; receipt : TransitionReceipt }.

(** ** The rules of the reducer *)

Definition validate_volume (profile : Profile.MarketStateProfile) (current : StateField Volume.Volume)
    (v : Volume.Volume) (compare_previous : bool) : result StateTransitionError () :=
  match Profile.cumulative_volume_policy profile with
  | Profile.Unconstrained => Ok ()
  | Profile.NonDecreasingWithinSegment unit =>
      reject bool_decide (Volume.unit v ≠ unit) with VolumeUnitMismatch unit (Volume.unit v);;
      match compare_previous, current with
      | true, Known value _ =>
          reject bool_decide (Volume.unit value ≠ unit) with VolumeUnitMismatch unit (Volume.unit value);;
          reject Volume.value v <? Volume.value value
            with CumulativeVolumeRegression (Volume.value value) (Volume.value v);;
          Ok ()
      | _, _ => Ok ()
      end
  end.

Definition apply_volume_observation (profile : Profile.MarketStateProfile)
    (o : Observation.Observation Volume.Volume) (event_ref : AppliedEventRef) (compare_previous : bool)
    (d : Draft) : result StateTransitionError Draft :=
  match o with
  | Observation.NoObservation => Ok d
  | Observation.Set_ v =>
      _ ← validate_volume profile (cumulative_volume (next d)) v compare_previous;
      Ok (touch CumulativeVolumeF (update (set_cumulative_volume (Known v event_ref)) d))
  | Observation.Clear =>
      Ok (touch CumulativeVolumeF (update (set_cumulative_volume (Unavailable (Cleared event_ref))) d))
  | Observation.Unknown raw =>
      Ok (touch CumulativeVolumeF
           (warn UnknownCumulativeVolume (update (set_cumulative_volume (Unknown raw event_ref)) d)))
  end.

Definition apply_trade_observation (o : Observation.Observation Trade.ObservedTrade)
    (event_ref : AppliedEventRef) (d : Draft) : Draft :=
  match o with
  | Observation.NoObservation => d
  | Observation.Set_ t => touch RecentTradeF (update (set_recent_trade (Known (Single t) event_ref)) d)
  | Observation.Clear => touch RecentTradeF (update (set_recent_trade (Unavailable (Cleared event_ref))) d)
  | Observation.Unknown raw =>
      touch RecentTradeF (warn UnknownRecentTrade (update (set_recent_trade (Unknown raw event_ref)) d))
  end.

Definition clear_indicative_auction (cleared_at : AppliedEventRef) (d : Draft) : Draft :=
  match indicative_auction (next d) with
  | Known _ _ | Unknown _ _ =>
      touch IndicativeAuctionF (update (set_indicative_auction (Unavailable (Cleared cleared_at))) d)
  | Unavailable _ => d
  end.

Definition current_auction_observation (s : MarketState) : option Signal.AuctionObservation :=
  match known (phase s) with
  | Some (Auction a) => Some (observation a)
  | Some Continuous | Some Closed | None => Event.auction_observation <$> known (indicative_auction s)
  end.

Definition starts_new_auction (previous current : Signal.AuctionObservation) : bool :=
  match Signal.purpose previous, Signal.purpose current with
  | Signal.Known p, Signal.Known c => bool_decide (p ≠ c)
  | _, _ => false
  end.

Definition merge_with_current_auction (s : MarketState) (o : Signal.AuctionObservation) : Signal.AuctionObservation :=
  match current_auction_observation s with
  | None => o
  | Some previous => if starts_new_auction previous o then o else Signal.merge o previous
  end.

Definition next_periodic_auction_round (r : Signal.AuctionObservation) : Signal.AuctionObservation :=
  Signal.periodic_with_evidence (Signal.Known false) (Signal.disposal r).

Definition post_market_phase (signal : Signal.MarketSignal) : option MarketPhase :=
  match signal with
  | Signal.Continuous => Some Continuous
  | Signal.Closed => Some Closed
  | Signal.AuctionCollecting o => Some (Auction (new_auction_state o))
  | Signal.AuctionUncross o =>
      match Signal.purpose o with
      | Signal.Known Signal.Opening | Signal.Known Signal.VolatilityInterruption => Some Continuous
      | Signal.Known Signal.Closing => Some Closed
      | Signal.Known Signal.Periodic => Some (Auction (new_auction_state (next_periodic_auction_round o)))
      | Signal.NoObservation | Signal.Unknown => None
      end
  end.

Definition merged_signal (s : MarketState) (signal : Signal.MarketSignal) : Signal.MarketSignal :=
  match signal with
  | Signal.AuctionCollecting o => Signal.AuctionCollecting (merge_with_current_auction s o)
  | Signal.AuctionUncross o => Signal.AuctionUncross (merge_with_current_auction s o)
  | Signal.Continuous => Signal.Continuous
  | Signal.Closed => Signal.Closed
  end.
Definition ends_collection (signal : Signal.MarketSignal) : bool :=
  match signal with Signal.AuctionCollecting _ => false | _ => true end.

Definition apply_market_signal (o : Observation.Observation Signal.MarketSignal)
    (event_ref : AppliedEventRef) (d : Draft) : Draft :=
  match o with
  | Observation.NoObservation => d
  | Observation.Set_ signal =>
      let signal := merged_signal (next d) signal in
      let d := if ends_collection signal then clear_indicative_auction event_ref d else d in
      let d := update (set_market_signal (Known signal event_ref)) d in
      let d := update (set_phase
        match post_market_phase signal with
        | Some p => Known p event_ref
        | None => Unknown (Observation.TextValue (bytes_of "auction purpose unavailable")) event_ref
        end) d in
      touch PhaseF (touch MarketSignalF d)
  | Observation.Clear =>
      touch PhaseF (touch MarketSignalF
        (update (set_phase (Unavailable (Cleared event_ref)))
          (update (set_market_signal (Unavailable (Cleared event_ref))) d)))
  | Observation.Unknown raw =>
      touch PhaseF (touch MarketSignalF
        (update (set_phase (Unknown raw event_ref)) (update (set_market_signal (Unknown raw event_ref)) d)))
  end.

Definition validate_realtime_shape (e : Event.DomainEvent) : result StateTransitionError () :=
  let check error :=
    reject bool_decide (SourceFormat.as_bytes (Event.source_format e) = STOCK_REALTIME) &&
           match Event.payload e with
           | Event.QuoteSnapshotP _ | Event.IndicativeAuctionP _ | Event.MarketStatusP _ => false
           | Event.TradeBatchP b =>
               negb (forallb (λ t, bool_decide (Trade.observation_kind t = Trade.Intermediate)) (Event.batch_trades b))
           | Event.BookSnapshotP _ => true
           end with error;; Ok () in
  match Instrument.market (Event.instrument e) with
  | Market.Twse => check InvalidTwseRealtimeShape
  | Market.Tpex => check InvalidTpexRealtimeShape
  | Market.Taifex => Ok ()
  end.

(** [compare_within_instrument]: field by field, as [then_with] chains it. *)
Definition ref_key (r : AppliedEventRef) :=
  (ref_match_time r, (ref_source_format r, (ref_source_phase r, (ref_event_kind r,
    (ref_source_sequence r, ref_event_fingerprint r))))).
#[global] Instance AppliedEventRef_ord : Ord AppliedEventRef := cmp_on ref_key.
#[global] Instance ref_key_inj : Inj (=) (=) ref_key.
Proof. by intros [] [] [= -> -> -> -> -> ->]. Qed.
#[global] Instance AppliedEventRef_ord_laws : OrdLaws AppliedEventRef.
Proof. apply cmp_on_laws, _. Qed.
Definition compare_within_instrument (left right : AppliedEventRef) : comparison := cmp left right.

Definition validate_envelope (profile : Profile.MarketStateProfile) (s : MarketState) (e : Event.DomainEvent)
    (ctx : ReducerContext) : result StateTransitionError () :=
  reject bool_decide (Event.instrument e ≠ instrument s) with InstrumentMismatch;;
  reject bool_decide (Event.trading_date e ≠ trading_date s) || bool_decide (Event.trading_date e ≠ ctx_trading_date ctx)
    with TradingDateMismatch;;
  reject negb (ctx_policy_version ctx =? Profile.segment_boundary_policy_version profile)
    with BoundaryPolicyVersionMismatch;;
  match last_match_time s with
  | Some last_time =>
      reject bool_decide (ord_lt (Event.match_time e) last_time) with MatchTimeRegression;; Ok ()
  | None => Ok ()
  end.

Definition observable_fields : gset ChangedField :=
  {[BookF; RecentTradeF; CumulativeVolumeF; IndicativeAuctionF; MarketSignalF; PhaseF]}.

(** The boundary actions of [propose] when the event opens another segment. *)
Definition cross_boundary (s : MarketState) (ctx : ReducerContext) (event_ref : AppliedEventRef) :
    Draft * option BoundaryAction :=
  let d := mk_draft s ∅ ∅ in
  if bool_decide (current_segment_id s = Some (session_segment_id ctx)) then (d, None)
  else
    let '(d, action) :=
      if bool_decide (is_Some (current_segment_id s)) &&
         bool_decide (segment_boundary_policy ctx = ResetObservableFields)
      then (mk_draft (reset_observable_fields s) observable_fields ∅, Some ResetAction)
      else if bool_decide (segment_boundary_policy ctx = Carry) then (clear_indicative_auction event_ref d, None)
      else (d, None) in
    (touch CurrentSegmentF (update (set_segment (session_segment_id ctx)) d), action).

Definition apply_payload (profile : Profile.MarketStateProfile) (p : Event.EventPayload)
    (event_ref : AppliedEventRef) (same_segment : bool) (d : Draft) : result StateTransitionError Draft :=
  match p with
  | Event.QuoteSnapshotP q =>
      let d := touch BookF (update (set_book (Known (Event.quote_book q) event_ref)) d) in
      let d := apply_trade_observation (Event.quote_trade q) event_ref d in
      apply_volume_observation profile (Event.quote_volume q) event_ref same_segment d
  | Event.BookSnapshotP b =>
      Ok (touch BookF (update (set_book (Known (Event.book_book b) event_ref)) d))
  | Event.TradeBatchP b =>
      let d := touch RecentTradeF (update (set_recent_trade
        (Known (Batch (Event.batch_trades b) (Event.batch_order b)) event_ref)) d) in
      apply_volume_observation profile (Event.batch_volume b) event_ref same_segment d
  | Event.IndicativeAuctionP a =>
      let o := merge_with_current_auction (next d) (Event.auction_observation a) in
      Ok (touch IndicativeAuctionF (update (set_indicative_auction (Known (Event.with_observation a o) event_ref)) d))
  | Event.MarketStatusP st =>
      apply_volume_observation profile (Event.status_volume st) event_ref same_segment d
  end.

(** ** propose, commit, apply *)

Section reducer.
Context {B : Blake3}.

Definition propose (profile : Profile.MarketStateProfile) (s : MarketState) (e : Event.DomainEvent)
    (ctx : ReducerContext) : result StateTransitionError ProposedTransition :=
  _ ← validate_envelope profile s e ctx;
  _ ← map_err ProfileErr (Profile.validate_event profile e);
  _ ← validate_realtime_shape e;
  event_ref ← map_err CanonicalEncoding (from_event e);
  _ ← match last_event s with
      | Some previous =>
          reject bool_decide (compare_within_instrument event_ref previous = Lt) with OrderingRegression;; Ok ()
      | None => Ok ()
      end;
  new_version ← ok_or (to_u64 (state_version s + 1)) StateVersionOverflow;
  let '(d, action) := cross_boundary s ctx event_ref in
  let same_segment := bool_decide (current_segment_id s = Some (session_segment_id ctx)) in
  d ← apply_payload profile (Event.payload e) event_ref same_segment d;
  let d := apply_market_signal (Event.payload_signal (Event.payload e)) event_ref d in
  let d := touch LastEventF (update (finish_event event_ref new_version) d) in
  Ok (mk_proposal (state_version s) (next d)
       (mk_receipt (instrument s) (state_version s) new_version event_ref action
          (sort_on field_rank (elements (changed d))) (sort_on warning_rank (elements (warnings d))))).

(** The state is a [&mut]: an operation gives its result and the state it leaves. *)
Definition commit (s : MarketState) (p : ProposedTransition) :
    result StateTransitionError TransitionReceipt * MarketState :=
  if negb (state_version s =? proposal_previous_version p)
     || bool_decide (instrument s ≠ instrument (next_state p))
     || bool_decide (trading_date s ≠ trading_date (next_state p))
  then (Err StaleProposal, s) else (Ok (receipt p), next_state p).

Definition apply (profile : Profile.MarketStateProfile) (s : MarketState) (e : Event.DomainEvent)
    (ctx : ReducerContext) : result StateTransitionError TransitionReceipt * MarketState :=
  match propose profile s e ctx with
  | Err err => (Err err, s)
  | Ok p => commit s p
  end.

End reducer.

End Reducer.
