(* ===== verification/ReducerLaws.v ===== *)
(** The theorems of the market-state reducer: what an accepted event changes,
    what a rejected one leaves alone, and the invariants of a run of events. *)
From S2P Require Import Prelude Order Text Numeric Quantity Calendar Book Identity Signal Codec Values Event.
From S2P Require Import EventCodec MarketState Reducer.

Module ReducerLaws.
Import Model Reducer.

(** ** Invariants kept by every operation on the draft *)

Section draft_invariant.
(** [P] holds of the start and survives each field assignment that the event
    [ev] makes. *)
Context (ev : AppliedEventRef) (P : Draft → Prop).
Context (P_book : ∀ x d, P d → P (touch BookF (update (set_book (Known x ev)) d))).
Context (P_trade : ∀ x d, P d → observed_at x = Some ev →
  (∀ ts o a, x = Known (Batch ts o) a → False) → P (touch RecentTradeF (update (set_recent_trade x) d))).
Context (P_volume : ∀ x d, P d → observed_at x = Some ev →
  P (touch CumulativeVolumeF (update (set_cumulative_volume x) d))).
Context (P_auction : ∀ x d, P d → observed_at x = Some ev →
  P (touch IndicativeAuctionF (update (set_indicative_auction x) d))).
Context (P_signal : ∀ x y d, P d → observed_at x = Some ev → observed_at y = Some ev →
  P (touch PhaseF (touch MarketSignalF (update (set_phase y) (update (set_market_signal x) d))))).
Context (P_warn : ∀ w d, P d → P (warn w d)).

Lemma clear_indicative_ind d : P d → P (clear_indicative_auction ev d).
Proof using P_auction.
  intros Hd. unfold clear_indicative_auction. destruct (indicative_auction (next d)); [done|by apply P_auction..].
Qed.

Lemma warn_commute c f w d : touch c (warn w (update f d)) = warn w (touch c (update f d)).
Proof. done. Qed.

Lemma volume_ind profile o same d d' : P d → apply_volume_observation profile o ev same d = Ok d' → P d'.
Proof using P_volume P_warn.
  intros Hd H. destruct o as [|v| |raw]; simpl in H; simplify_res; [done|by apply P_volume..|].
  rewrite warn_commute. by apply P_warn, P_volume.
Qed.

Lemma trade_ind o d : P d → P (apply_trade_observation o ev d).
Proof using P_trade P_warn.
  intros Hd. destruct o as [|t| |raw]; simpl; [done|by apply P_trade..|].
  rewrite warn_commute. by apply P_warn, P_trade.
Qed.

Lemma signal_ind o d : P d → P (apply_market_signal o ev d).
Proof using P_auction P_signal.
  intros Hd. destruct o as [|g| |raw]; simpl; [done| |by apply P_signal..].
  apply P_signal; [|done|by destruct (post_market_phase _)].
  destruct (ends_collection _); [by apply clear_indicative_ind|done].
Qed.

Context (P_batch : ∀ b d, P d →
  P (touch RecentTradeF (update (set_recent_trade (Known (Batch (Event.batch_trades b) (Event.batch_order b)) ev)) d))).

Lemma payload_ind profile p same d d' : P d → apply_payload profile p ev same d = Ok d' → P d'.
Proof using P_book P_trade P_volume P_auction P_warn P_batch.
  intros Hd H. destruct p as [q|b|b|a|st]; simpl in H.
  - eapply volume_ind; [|exact H]. by apply trade_ind, P_book.
  - injection H as <-. by apply P_book.
  - eapply volume_ind; [|exact H]. by apply P_batch.
  - injection H as <-. by apply P_auction.
  - by eapply volume_ind.
Qed.
End draft_invariant.

(** ** What an accepted event does *)

Section laws.
Context {B : Blake3}.

(** Everything [propose] checks, and the state it builds. *)
Record accepts (profile : Profile.MarketStateProfile) (s : MarketState) (e : Event.DomainEvent)
    (ctx : ReducerContext) (r : TransitionReceipt) (s' : MarketState) : Prop := {
  acc_envelope : validate_envelope profile s e ctx = Ok ();
  acc_profile : Profile.validate_event profile e = Ok ();
  acc_shape : validate_realtime_shape e = Ok ();
  acc_ref : from_event e = Ok (receipt_event r);
  acc_order : ∀ previous, last_event s = Some previous → ord_le previous (receipt_event r);
  acc_version : 0 ≤ state_version s + 1 ≤ u64_max;
  acc_body : ∃ d, apply_payload profile (Event.payload e) (receipt_event r)
      (bool_decide (current_segment_id s = Some (session_segment_id ctx)))
      (cross_boundary s ctx (receipt_event r)).1 = Ok d ∧
    let d' := apply_market_signal (Event.payload_signal (Event.payload e)) (receipt_event r) d in
    s' = finish_event (receipt_event r) (state_version s + 1) (next d') ∧
    boundary_action r = (cross_boundary s ctx (receipt_event r)).2 ∧
    (∀ f, f ∈ changed_fields r ↔ f ∈ {[LastEventF]} ∪ changed d');
  acc_receipt : receipt_instrument r = instrument s ∧ receipt_previous_version r = state_version s ∧
    receipt_new_version r = state_version s + 1 }.

#[local] Instance field_rank_inj : Inj (=) (=) field_rank.
Proof. by intros [] []. Qed.

Lemma propose_Ok profile s e ctx p : propose profile s e ctx = Ok p →
  accepts profile s e ctx (receipt p) (next_state p) ∧ proposal_previous_version p = state_version s.
Proof.
  unfold propose. intros H. apply bind_Ok in H as ([] & He & H). apply bind_Ok in H as ([] & Hp & H).
  apply bind_Ok in H as ([] & Hs & H). apply bind_Ok in H as (ev & Hev & H).
  apply bind_Ok in H as ([] & Ho & H). apply bind_Ok in H as (v & Hv & H).
  destruct (cross_boundary s ctx ev) as [d0 action] eqn:Hb. apply bind_Ok in H as (d & Hd & [= <-]).
  unfold to_u64, ok_or in Hv. destruct (checked _ _ _) eqn:Hc in Hv; [|done]. apply checked_Some in Hc as [-> Hc].
  injection Hv as <-. split; [|done]. split; cbn [receipt next_state receipt_event boundary_action changed_fields
    receipt_instrument receipt_previous_version receipt_new_version]; try done.
  - by destruct (Profile.validate_event profile e) as [[]|].
  - destruct (from_event e); [by injection Hev as ->|done].
  - intros previous Hprev. rewrite Hprev in Ho. apply ord_not_lt. intros Hlt.
    by rewrite bool_decide_true in Ho.
  - rewrite Hb. exists d. split_and!; [done|done|done|]. intros f. rewrite elem_of_sort_on. set_solver.
Qed.

(** *** The identity of the state never changes *)

Definition same_identity (s s' : MarketState) : Prop :=
  instrument s' = instrument s ∧ trading_date s' = trading_date s.

Lemma cross_boundary_identity s ctx ev : same_identity s (next (cross_boundary s ctx ev).1).
Proof.
  unfold cross_boundary. case_bool_decide; [done|]. destruct (_ && _); [done|]. case_bool_decide; [|done].
  unfold clear_indicative_auction. simpl. by destruct (indicative_auction s).
Qed.

Lemma accepts_identity profile s e ctx r s' : accepts profile s e ctx r s' → same_identity s s'.
Proof.
  intros Ha. destruct (acc_body _ _ _ _ _ _ Ha) as (d & Hd & -> & _).
  apply (signal_ind (receipt_event r) (λ d, same_identity s (next d))); [done..|].
  eapply (payload_ind (receipt_event r) (λ d, same_identity s (next d))); [done..| |exact Hd].
  apply cross_boundary_identity.
Qed.

Lemma apply_cases profile s e ctx :
  (∃ err, apply profile s e ctx = (Err err, s) ∧ propose profile s e ctx = Err err) ∨
  (∃ r s', apply profile s e ctx = (Ok r, s') ∧ accepts profile s e ctx r s').
Proof.
  unfold apply. destruct (propose profile s e ctx) as [p|err] eqn:Hp; [right|left; eauto].
  apply propose_Ok in Hp as [Ha Hv]. pose proof (accepts_identity _ _ _ _ _ _ Ha) as [Hi Hd].
  exists (receipt p), (next_state p). split; [|done]. unfold commit.
  rewrite Hv, Z.eqb_refl, Hi, Hd, !bool_decide_false by tauto. done.
Qed.

Lemma apply_accepts profile s e ctx r s' : apply profile s e ctx = (Ok r, s') → accepts profile s e ctx r s'.
Proof. destruct (apply_cases profile s e ctx) as [(err & -> & _)|(r' & s'' & -> & Ha)]; [done|by intros [= <- <-]]. Qed.

(** *** Errors *)

Definition never_stale {A} (r : result StateTransitionError A) : Prop := r ≠ Err StaleProposal.

Lemma never_stale_bind {A C} (r : result StateTransitionError A) (k : A → result StateTransitionError C) :
  never_stale r → (∀ a, never_stale (k a)) → never_stale (r ≫= k).
Proof. intros Hr Hk. destruct r; [apply Hk|]. intros [= ->]. by apply Hr. Qed.
Lemma never_stale_map_err {E A} (f : E → StateTransitionError) (r : result E A) :
  (∀ e, f e ≠ StaleProposal) → never_stale (map_err f r).
Proof. intros Hf. destruct r; [done|]. intros [= H]. by apply Hf in H. Qed.

Lemma volume_never_stale profile o ev same d : never_stale (apply_volume_observation profile o ev same d).
Proof.
  destruct o as [|v| |raw]; try done. simpl. apply never_stale_bind; [|done].
  unfold validate_volume. destruct (Profile.cumulative_volume_policy profile); [done|].
  destruct (bool_decide _); [done|]. destruct same, (cumulative_volume (next d)); try done.
  destruct (bool_decide _); [done|]. by destruct (_ <? _).
Qed.

Lemma propose_never_stale profile s e ctx : never_stale (propose profile s e ctx).
Proof.
  unfold propose. apply never_stale_bind.
  { unfold validate_envelope. repeat case_match; done. }
  intros _. apply never_stale_bind; [by apply never_stale_map_err|]. intros _. apply never_stale_bind.
  { unfold validate_realtime_shape. destruct (Instrument.market _); [by destruct (_ && _)..|done]. }
  intros _. apply never_stale_bind; [by apply never_stale_map_err|]. intros ev. apply never_stale_bind.
  { destruct (last_event s); [by case_bool_decide|done]. }
  intros _. apply never_stale_bind; [by destruct (to_u64 _)|]. intros v.
  destruct (cross_boundary s ctx ev) as [d0 action]. apply never_stale_bind; [|done].
  destruct (Event.payload e); simpl; try done; apply volume_never_stale.
Qed.

(** *** The segment *)

Lemma cross_boundary_segment s ctx ev :
  current_segment_id (next (cross_boundary s ctx ev).1) = Some (session_segment_id ctx).
Proof.
  unfold cross_boundary. case_bool_decide as H; [done|]. destruct (_ && _); [done|]. by case_bool_decide.
Qed.

Lemma accepts_segment profile s e ctx r s' : accepts profile s e ctx r s' →
  current_segment_id s' = Some (session_segment_id ctx).
Proof.
  intros Ha. destruct (acc_body _ _ _ _ _ _ Ha) as (d & Hd & -> & _).
  apply (signal_ind (receipt_event r) (λ d, current_segment_id (next d) = Some (session_segment_id ctx))); [done..|].
  eapply (payload_ind (receipt_event r) (λ d, current_segment_id (next d) = Some (session_segment_id ctx)));
    [done..| |exact Hd]. apply cross_boundary_segment.
Qed.

(** A rejected event leaves the state exactly as it was and is never
    reported as a stale proposal; an accepted one keeps the state's identity,
    raises its version by one, becomes its last event, is not ordered before
    the previous one and puts the state in the context's segment. *)
Theorem apply_spec profile s e ctx :
  match apply profile s e ctx with
  | (Err err, s') => s' = s ∧ err ≠ StaleProposal
  | (Ok r, s') =>
      same_identity s s' ∧ state_version s' = state_version s + 1 ∧ state_version s' ≤ u64_max ∧
      from_event e = Ok (receipt_event r) ∧ last_event s' = Some (receipt_event r) ∧
      (∀ previous, last_event s = Some previous → ord_le previous (receipt_event r)) ∧
      current_segment_id s' = Some (session_segment_id ctx) ∧
      receipt_previous_version r = state_version s ∧ receipt_new_version r = state_version s'
  end.
Proof.
  destruct (apply_cases profile s e ctx) as [(err & -> & Hp)|(r & s' & -> & Ha)].
  - split; [done|]. intros ->. by eapply propose_never_stale.
  - pose proof (accepts_segment _ _ _ _ _ _ Ha). pose proof (accepts_identity _ _ _ _ _ _ Ha).
    destruct Ha as [_ _ _ Hr Ho Hv (d & _ & -> & _) (_ & Hp & Hn)]. cbn [state_version finish_event last_event].
    split_and!; (done || lia).
Qed.

(** *** Which fields an event changes *)

Definition field_same (f : ChangedField) (s s' : MarketState) : Prop :=
  match f with
  | CurrentSegmentF => current_segment_id s' = current_segment_id s
  | BookF => book s' = book s
  | RecentTradeF => recent_trade s' = recent_trade s
  | CumulativeVolumeF => cumulative_volume s' = cumulative_volume s
  | IndicativeAuctionF => indicative_auction s' = indicative_auction s
  | MarketSignalF => market_signal s' = market_signal s
  | PhaseF => phase s' = phase s
  | LastEventF => last_event s' = last_event s
  end.
Definition frame (s : MarketState) (d : Draft) : Prop := ∀ f, f ∉ changed d → field_same f s (next d).

Lemma frame_touch s c d d' : frame s d → changed d' = {[c]} ∪ changed d →
  (∀ f, f ≠ c → field_same f (next d) (next d')) → frame s d'.
Proof.
  intros Hd Hc Hf f Hn. rewrite Hc in Hn. assert (f ≠ c ∧ f ∉ changed d) as [Hne Hni] by set_solver.
  specialize (Hd f Hni). specialize (Hf f Hne). destruct f; simpl in *; congruence.
Qed.

Lemma frame_signal s x y d : frame s d →
  frame s (touch PhaseF (touch MarketSignalF (update (set_phase y) (update (set_market_signal x) d)))).
Proof.
  intros Hd f Hn. cbn [changed touch update] in Hn.
  assert (f ≠ PhaseF ∧ f ≠ MarketSignalF ∧ f ∉ changed d) as (H1 & H2 & Hni) by set_solver.
  specialize (Hd f Hni). by destruct f.
Qed.

Ltac frame_step := intros; (eapply frame_touch; [eassumption|reflexivity|]); intros []; done.

Lemma frame_cross s ctx ev : frame s (cross_boundary s ctx ev).1.
Proof.
  unfold cross_boundary. case_bool_decide; [by intros []|].
  assert (Hseg : ∀ d, frame s d → frame s (touch CurrentSegmentF (update (set_segment (session_segment_id ctx)) d)))
    by frame_step.
  destruct (_ && _); [|case_bool_decide]; cbn [fst]; apply Hseg; [| |by intros []].
  - intros f Hn. unfold observable_fields in Hn. cbn [changed] in Hn. destruct f; try done; set_solver.
  - unfold clear_indicative_auction. cbn [next].
    assert (frame s (mk_draft s ∅ ∅)) by by intros [].
    destruct (indicative_auction s); [by intros []|frame_step..].
Qed.

(** The receipt is complete: a field it does not list is unchanged. *)
Theorem changed_fields_complete profile s e ctx r s' : apply profile s e ctx = (Ok r, s') →
  ∀ f, f ∉ changed_fields r → field_same f s s'.
Proof.
  intros Ha%apply_accepts f Hf. destruct (acc_body _ _ _ _ _ _ Ha) as (d & Hd & -> & _ & Hc).
  rewrite Hc in Hf.
  assert (Hfr : frame s (apply_market_signal (Event.payload_signal (Event.payload e)) (receipt_event r) d)).
  { apply signal_ind; [frame_step|intros; by apply frame_signal|].
    eapply (payload_ind (receipt_event r)); [frame_step..|done|frame_step| |exact Hd]. apply frame_cross. }
  assert (f ≠ LastEventF ∧ f ∉ changed (apply_market_signal (Event.payload_signal (Event.payload e)) (receipt_event r) d))
    as [Hne Hni] by set_solver.
  specialize (Hfr f Hni). by destruct f.
Qed.

(** *** Runs of accepted events *)

Inductive steps (profile : Profile.MarketStateProfile) :
    MarketState → list (Event.DomainEvent * ReducerContext) → list TransitionReceipt → MarketState → Prop :=
| steps_nil s : steps profile s [] [] s
| steps_cons s e ctx r s1 es rs s2 :
    apply profile s e ctx = (Ok r, s1) → steps profile s1 es rs s2 →
    steps profile s ((e, ctx) :: es) (r :: rs) s2.

(** The executable form: every event of the list must be accepted. *)
Fixpoint run (profile : Profile.MarketStateProfile) (s : MarketState)
    (es : list (Event.DomainEvent * ReducerContext)) : option (list TransitionReceipt * MarketState) :=
  match es with
  | [] => Some ([], s)
  | (e, ctx) :: es =>
      match apply profile s e ctx with
      | (Ok r, s1) => '(rs, s2) ← run profile s1 es; Some (r :: rs, s2)
      | (Err _, _) => None
      end
  end.

Lemma run_steps profile s es rs s' : run profile s es = Some (rs, s') → steps profile s es rs s'.
Proof.
  revert s rs. induction es as [|[e ctx] es IH]; intros s rs H; simpl in H; [injection H as <- <-; constructor|].
  destruct (apply profile s e ctx) as [[r|] s1] eqn:Ha; [|done].
  destruct (run profile s1 es) as [[rs' s2]|] eqn:Hr; [|done]. injection H as <- <-.
  econstructor; [done|by apply IH].
Qed.

Lemma accepts_last_event profile s e ctx r s' : accepts profile s e ctx r s' →
  last_event s' = Some (receipt_event r) ∧ state_version s' = state_version s + 1.
Proof. intros Ha. by destruct (acc_body _ _ _ _ _ _ Ha) as (d & _ & -> & _). Qed.

(** However many events a state absorbs, they are absorbed in replay order
    and counted: the receipts' references are sorted and the version grows by
    their number. *)
Theorem steps_ordered profile s es rs s' : steps profile s es rs s' →
  StronglySorted ord_le (option_list (last_event s) ++ (receipt_event <$> rs)) ∧
  state_version s' = state_version s + zlen rs ∧ length rs = length es.
Proof.
  induction 1 as [s|s e ctx r s1 es rs s2 Ha Hs (IH & Hv & Hl)].
  - split_and!; [destruct (last_event s); simpl; repeat constructor|unfold zlen; simpl; lia|done].
  - apply apply_accepts in Ha. pose proof (acc_order _ _ _ _ _ _ Ha) as Ho.
    apply accepts_last_event in Ha as [Hlast Hv1]. rewrite Hlast in IH. simpl in IH.
    split_and!; [|unfold zlen in *; simpl; lia|simpl; lia].
    destruct (last_event s) as [p|]; [|done]. simpl. specialize (Ho p eq_refl).
    constructor; [done|]. constructor; [done|]. inversion_clear IH as [|? ? _ Hf].
    eapply Forall_impl; [|exact Hf]. intros x Hx. by etrans.
Qed.

(** *** Cumulative volume *)

Definition payload_volume (p : Event.EventPayload) : Observation.Observation Volume.Volume :=
  match p with
  | Event.QuoteSnapshotP q => Event.quote_volume q
  | Event.TradeBatchP b => Event.batch_volume b
  | Event.MarketStatusP st => Event.status_volume st
  | Event.BookSnapshotP _ | Event.IndicativeAuctionP _ => Observation.NoObservation
  end.

Lemma volume_after profile o ev same d d' : apply_volume_observation profile o ev same d = Ok d' →
  match o with
  | Observation.NoObservation => d' = d
  | Observation.Set_ v => validate_volume profile (cumulative_volume (next d)) v same = Ok () ∧
      cumulative_volume (next d') = Known v ev
  | _ => known (cumulative_volume (next d')) = None
  end.
Proof. intros H. destruct o; simpl in H; simplify_res; try done. by destruct a. Qed.

Lemma trade_keeps_volume o ev d :
  cumulative_volume (next (apply_trade_observation o ev d)) = cumulative_volume (next d).
Proof. by destruct o. Qed.

Lemma signal_keeps_volume o ev d :
  cumulative_volume (next (apply_market_signal o ev d)) = cumulative_volume (next d).
Proof.
  destruct o as [|g| |]; try done. simpl. destruct (ends_collection _); [|done].
  unfold clear_indicative_auction. by destruct (indicative_auction (next d)).
Qed.

(** An accepted event's cumulative volume: kept when it observes none, and
    checked against the previous one inside a segment. *)
Lemma accepts_volume profile s e ctx r s' : accepts profile s e ctx r s' →
  current_segment_id s = Some (session_segment_id ctx) →
  match payload_volume (Event.payload e) with
  | Observation.NoObservation => cumulative_volume s' = cumulative_volume s
  | Observation.Set_ v => validate_volume profile (cumulative_volume s) v true = Ok () ∧
      cumulative_volume s' = Known v (receipt_event r)
  | _ => known (cumulative_volume s') = None
  end.
Proof.
  intros Ha Hseg. destruct (acc_body _ _ _ _ _ _ Ha) as (d & Hd & -> & _).
  unfold cross_boundary in Hd. rewrite !bool_decide_true in Hd by done. cbn [fst] in Hd.
  cbn [finish_event cumulative_volume]. rewrite signal_keeps_volume.
  destruct (Event.payload e) as [q|b|b|a|st]; cbn [payload_volume apply_payload] in *.
  - apply volume_after in Hd. rewrite trade_keeps_volume in Hd. destruct (Event.quote_volume q); try done.
    by rewrite Hd, trade_keeps_volume.
  - by injection Hd as <-.
  - apply volume_after in Hd. destruct (Event.batch_volume b); try done. by rewrite Hd.
  - by injection Hd as <-.
  - apply volume_after in Hd. destruct (Event.status_volume st); try done. by rewrite Hd.
Qed.

Definition observes_volume (e : Event.DomainEvent) : Prop :=
  match payload_volume (Event.payload e) with
  | Observation.NoObservation | Observation.Set_ _ => True | _ => False
  end.

(** Inside one segment of a non-decreasing profile, the cumulative volume
    never falls, however many events are applied. *)
Theorem volume_never_falls profile unit seg s es rs s' v :
  Profile.cumulative_volume_policy profile = Profile.NonDecreasingWithinSegment unit →
  steps profile s es rs s' → current_segment_id s = Some seg →
  Forall (λ '(e, ctx), session_segment_id ctx = seg ∧ observes_volume e) es →
  known (cumulative_volume s) = Some v →
  ∃ v', known (cumulative_volume s') = Some v' ∧ Volume.value v ≤ Volume.value v'.
Proof.
  intros Hpol Hsteps. revert v. induction Hsteps as [s|s e ctx r s1 es rs s2 Ha Hs IH]; intros v Hseg Hes Hv.
  { exists v. by split. }
  apply Forall_cons_iff in Hes as [[Hc Ho] Hes]. apply apply_accepts in Ha.
  pose proof (accepts_segment _ _ _ _ _ _ Ha) as Hseg1. rewrite Hc in Hseg1.
  pose proof (accepts_volume _ _ _ _ _ _ Ha ltac:(congruence)) as Hvol. unfold observes_volume in Ho.
  assert (∃ w, known (cumulative_volume s1) = Some w ∧ Volume.value v ≤ Volume.value w) as (w & Hw & Hle).
  { destruct (payload_volume (Event.payload e)) as [|w| |]; try done.
    - rewrite Hvol. exists v. split; [done|lia].
    - destruct Hvol as [Hval ->]. exists w. split; [done|]. unfold validate_volume in Hval. rewrite Hpol in Hval.
      destruct (cumulative_volume s) as [|u a|]; simplify_eq/=. destruct (bool_decide _); [done|].
      destruct (bool_decide _); [done|]. destruct (Z.ltb_spec (Volume.value w) (Volume.value v)); [done|lia]. }
  destruct (IH w Hseg1 Hes Hw) as (v' & Hv' & Hle'). exists v'. split; [done|lia].
Qed.

(** *** Segment boundaries *)

Definition observation_refs (s : MarketState) : list (option AppliedEventRef) :=
  [observed_at (book s); observed_at (recent_trade s); observed_at (cumulative_volume s);
   observed_at (indicative_auction s); observed_at (market_signal s); observed_at (phase s)].

Ltac fresh_step P :=
  intros; unfold P, observation_refs in *;
  cbn [next update touch warn set_book set_recent_trade set_cumulative_volume set_indicative_auction
    set_market_signal set_phase book recent_trade cumulative_volume indicative_auction market_signal phase] in *;
  rewrite ->!Forall_cons_iff in *; cbn [observed_at] in *; intuition.

(** When a resetting context opens another segment, nothing observed in the
    old segment survives: every field is untouched since the reset or was
    observed at this very event. *)
Theorem reset_forgets profile s e ctx r s' : apply profile s e ctx = (Ok r, s') →
  is_Some (current_segment_id s) → current_segment_id s ≠ Some (session_segment_id ctx) →
  segment_boundary_policy ctx = ResetObservableFields →
  boundary_action r = Some ResetAction ∧
  Forall (λ o, o = None ∨ o = Some (receipt_event r)) (observation_refs s').
Proof.
  intros Ha%apply_accepts Hsome Hne Hpol. destruct (acc_body _ _ _ _ _ _ Ha) as (d & Hd & -> & Hact & _).
  assert (Hcross : cross_boundary s ctx (receipt_event r) =
    (touch CurrentSegmentF (update (set_segment (session_segment_id ctx))
       (mk_draft (reset_observable_fields s) observable_fields ∅)), Some ResetAction)).
  { unfold cross_boundary. by rewrite bool_decide_false, !bool_decide_true by done. }
  rewrite Hcross in Hd, Hact. split; [done|].
  set (P d := Forall (λ o, o = None ∨ o = Some (receipt_event r)) (observation_refs (next d))).
  change (P (apply_market_signal (Event.payload_signal (Event.payload e)) (receipt_event r) d)).
  apply signal_ind; [fresh_step P..|].
  eapply (payload_ind (receipt_event r)); [fresh_step P..| |exact Hd].
  unfold P, observation_refs. cbn. repeat constructor; by left.
Qed.

(** *** Auctions *)

Lemma merge_evidence_idem {T} (a b : Signal.AuctionEvidence T) :
  Signal.merge_evidence (Signal.merge_evidence b a) a = Signal.merge_evidence b a.
Proof. by destruct a. Qed.
Lemma merge_idem o p : Signal.merge o (Signal.merge o p) = Signal.merge o p.
Proof. unfold Signal.merge. simpl. by rewrite !merge_evidence_idem. Qed.
Lemma starts_new_merged o p : starts_new_auction (Signal.merge o p) o = false.
Proof.
  unfold starts_new_auction, Signal.merge. simpl. destruct (Signal.purpose o); simpl;
    try (by destruct (Signal.purpose p)). by rewrite bool_decide_false by tauto.
Qed.
Lemma starts_new_self o : starts_new_auction o o = false.
Proof. unfold starts_new_auction. destruct (Signal.purpose o); [done| |done]. by rewrite bool_decide_false by tauto. Qed.
Lemma merge_self o : Signal.merge o o = o.
Proof. destruct o as [p dl ds d]. unfold Signal.merge. simpl. by destruct p, dl, ds, d. Qed.

(** An indicative auction leaves one observation in three places: the
    auction it records, the collecting signal and the auction phase agree. *)
Theorem indicative_coherent profile s e ctx r s' a : apply profile s e ctx = (Ok r, s') →
  Event.payload e = Event.IndicativeAuctionP a →
  ∃ o, known (indicative_auction s') = Some (Event.with_observation a o) ∧
    known (market_signal s') = Some (Signal.AuctionCollecting o) ∧
    known (phase s') = Some (Auction (new_auction_state o)).
Proof.
  intros Ha%apply_accepts Hp. destruct (acc_body _ _ _ _ _ _ Ha) as (d & Hd & -> & _).
  rewrite Hp in Hd |- *. injection Hd as <-.
  set (d0 := (cross_boundary s ctx (receipt_event r)).1). set (raw := Event.auction_observation a).
  set (o := merge_with_current_auction (next d0) raw). exists o. cbn -[merge_with_current_auction].
  set (st := set_indicative_auction _ _). fold raw.
  assert (Hm : merge_with_current_auction st raw = o); [|by rewrite Hm].
  unfold merge_with_current_auction at 1, current_auction_observation, st.
  cbn [set_indicative_auction phase indicative_auction known Event.auction_observation Event.with_observation fmap option_fmap option_map].
  assert (Hraw : (if starts_new_auction o raw then raw else Signal.merge raw o) = o).
  { unfold o, merge_with_current_auction. destruct (current_auction_observation _) as [p|].
    - destruct (starts_new_auction p raw); [by rewrite starts_new_self, merge_self|].
      by rewrite starts_new_merged, merge_idem.
    - by rewrite starts_new_self, merge_self. }
  destruct (known (phase (next d0))) as [[|au|]|] eqn:E; [exact Hraw| |exact Hraw..].
  unfold o, merge_with_current_auction, current_auction_observation. by rewrite E.
Qed.

(** *** The last trade *)

Definition batch_nonempty (s : MarketState) : Prop :=
  ∀ ts o a, recent_trade s = Known (Batch ts o) a → ts ≠ [].

Lemma accepts_batch_nonempty profile s e ctx r s' : accepts profile s e ctx r s' → batch_nonempty s →
  (∀ b, Event.payload e = Event.TradeBatchP b → Event.batch_trades b ≠ []) → batch_nonempty s'.
Proof.
  intros Ha Hs Hb. destruct (acc_body _ _ _ _ _ _ Ha) as (d & Hd & -> & _).
  set (P d := batch_nonempty (next d)).
  change (P (apply_market_signal (Event.payload_signal (Event.payload e)) (receipt_event r) d)).
  apply signal_ind; [done..|].
  assert (Hcross : P (cross_boundary s ctx (receipt_event r)).1).
  { unfold P, cross_boundary. case_bool_decide; [done|]. destruct (_ && _); [by intros ???|].
    case_bool_decide; [|done]. unfold clear_indicative_auction. simpl. by destruct (indicative_auction s). }
  assert (Htrade : ∀ x d, P d → observed_at x = Some (receipt_event r) →
    (∀ ts o a, x = Known (Batch ts o) a → False) → P (touch RecentTradeF (update (set_recent_trade x) d))).
  { intros x d0 _ _ Hx ts o a0 Heq. exfalso. by eapply Hx. }
  destruct (Event.payload e) as [q|b|b|a|st] eqn:Hp; cbn [apply_payload] in Hd.
  - eapply (volume_ind _ P); [done|done| |exact Hd]. by apply trade_ind.
  - injection Hd as <-. done.
  - eapply (volume_ind _ P); [done|done| |exact Hd]. intros ts o a0 Heq. injection Heq as <- _ _. by apply Hb.
  - injection Hd as <-. done.
  - by eapply (volume_ind _ P).
Qed.

(** The panic in [last_trade] is unreachable: from a fresh state, after any
    events whose batches came out of [TradeBatch::new], it returns. *)
Theorem last_trade_total profile i date es rs s' : steps profile (new i date) es rs s' →
  Forall (λ '(e, _), ∀ b, Event.payload e = Event.TradeBatchP b →
    ∃ ts o v an, Event.new_batch ts o v an = Ok (Event.mk_batch (Event.batch_trades b) (Event.batch_order b)
      (Event.batch_volume b) (Event.batch_annotations b) Event.NoObservation)) es →
  is_Some (last_trade s').
Proof.
  intros Hsteps Hes. assert (Hinv : batch_nonempty s').
  { assert (Hnew : batch_nonempty (new i date)) by by intros ???. revert Hnew Hes. generalize (new i date) Hsteps.
    clear Hsteps. intros s Hsteps. induction Hsteps as [s|s e ctx r s1 es rs s2 Ha Hs IH]; intros Hs0 Hes; [done|].
    apply Forall_cons_iff in Hes as [He Hes]. apply IH; [|done].
    eapply accepts_batch_nonempty; [by apply apply_accepts|done|]. intros b Hb.
    destruct (He b Hb) as (ts & o & v & an & [Heq [Hne _]]%EventCodec.new_batch_Ok). by injection Heq as ->. }
  unfold last_trade. destruct (recent_trade s') as [|[t|ts []] a|] eqn:E; try by eexists.
  specialize (Hinv ts _ a E). destruct (list.last ts) eqn:El; [by eexists|]. by apply last_None in El.
Qed.

End laws.

(** ** Concrete runs *)

#[local] Instance demo_hash : Blake3 := λ _, [].
Definition demo_profile : Profile.MarketStateProfile :=
  Profile.mk_profile Market.Twse
    [Profile.mk_rule (SourceFormat.mk (bytes_of "STOCK_SNAPSHOT"))
       [Event.QuoteSnapshotK; Event.TradeBatchK; Event.IndicativeAuctionK; Event.MarketStatusK]]
    (Profile.NonDecreasingWithinSegment Quantity.TradingUnit) 1.
Definition demo_instrument : Instrument.InstrumentId := Instrument.new Market.Twse (Symbol.mk (bytes_of "2330")).
Definition demo_date : TradingDate.TradingDate := TradingDate.mk 20000.
Definition demo_event (t : Z) (p : Event.EventPayload) : Event.DomainEvent :=
  Event.new demo_instrument demo_date (SourceFormat.mk (bytes_of "STOCK_SNAPSHOT"))
    (MatchTime.from_unix_microseconds t) None p.
Definition demo_context (segment : string) (p : SegmentBoundaryPolicy) : ReducerContext :=
  new_context demo_date (mk_segment (bytes_of segment)) p 1.
Definition demo_status (v : Z) (g : Observation.Observation Signal.MarketSignal) : Event.EventPayload :=
  Event.MarketStatusP (Event.mk_status (Observation.Set_ (Volume.new v Quantity.TradingUnit)) Annotations.NoAnnotations g).
Definition demo_state : MarketState := new demo_instrument demo_date.
Definition demo_first := demo_event 1 (demo_status 10 (Observation.Set_ Signal.Continuous)).
Definition demo_second := demo_event 2 (demo_status 12 Observation.NoObservation).
Definition demo_batch := demo_event 3 (Event.TradeBatchP (Event.mk_batch [EventCodec.sample_trade]
  Trade.SourceSequencePreserved Observation.NoObservation Annotations.NoAnnotations Observation.NoObservation)).
Definition demo_auction : Event.IndicativeAuction :=
  Event.mk_auction (Signal.opening false false) Observation.NoObservation Observation.NoObservation
    Observation.NoObservation Observation.NoObservation Annotations.NoAnnotations.
Definition day := demo_context "day" ResetObservableFields.
Definition night := demo_context "night" ResetObservableFields.

Lemma changed_fields_complete_witness : ∃ r s', apply demo_profile demo_state demo_first day = (Ok r, s') ∧
  book s' = book demo_state.
Proof.
  assert (H : ∃ r s', apply demo_profile demo_state demo_first day = (Ok r, s') ∧ BookF ∉ changed_fields r).
  { eexists _, _. split; [vm_compute; reflexivity|]. apply (bool_decide_unpack _). by vm_compute. }
  destruct H as (r & s' & H & Hf). exists r, s'. split; [exact H|].
  exact (changed_fields_complete demo_profile demo_state demo_first day r s' H BookF Hf).
Defined.

Lemma demo_run : ∃ rs s', steps demo_profile demo_state [(demo_first, day); (demo_second, day)] rs s'.
Proof. eexists _, _. apply run_steps. vm_compute. reflexivity. Qed.

Lemma steps_ordered_witness : ∃ rs s',
  steps demo_profile demo_state [(demo_first, day); (demo_second, day)] rs s' ∧ state_version s' = zlen rs.
Proof.
  destruct demo_run as (rs & s' & H). exists rs, s'. split; [exact H|].
  exact (proj1 (proj2 (steps_ordered demo_profile demo_state _ rs s' H))).
Defined.

(** The state after [demo_first], evaluated. *)
Definition demo_open : MarketState := (apply demo_profile demo_state demo_first day).2.

Lemma volume_never_falls_witness : ∃ rs s' v', steps demo_profile demo_open [(demo_second, day)] rs s' ∧
  known (cumulative_volume s') = Some v' ∧ 10 ≤ Volume.value v'.
Proof.
  assert (H : ∃ rs s', steps demo_profile demo_open [(demo_second, day)] rs s')
    by (eexists _, _; apply run_steps; vm_compute; reflexivity).
  destruct H as (rs & s' & H). exists rs, s'.
  destruct (volume_never_falls demo_profile Quantity.TradingUnit (mk_segment (bytes_of "day")) demo_open
    [(demo_second, day)] rs s' (Volume.new 10 Quantity.TradingUnit)) as (v' & Hv & Hle);
    [reflexivity|exact H|vm_compute; reflexivity|repeat constructor|vm_compute; reflexivity|].
  exists v'. split; [exact H|]. split; [exact Hv|exact Hle].
Defined.

Lemma reset_forgets_witness : ∃ r s', apply demo_profile demo_open demo_second night = (Ok r, s') ∧
  boundary_action r = Some ResetAction.
Proof.
  assert (H : ∃ r s', apply demo_profile demo_open demo_second night = (Ok r, s'))
    by (eexists _, _; vm_compute; reflexivity).
  destruct H as (r & s' & H). exists r, s'. split; [exact H|].
  apply (reset_forgets demo_profile demo_open demo_second night r s' H); [by eexists; vm_compute|by vm_compute|done].
Defined.

Lemma indicative_coherent_witness : ∃ r s' o,
  apply demo_profile demo_state (demo_event 1 (Event.IndicativeAuctionP demo_auction)) day = (Ok r, s') ∧
  known (market_signal s') = Some (Signal.AuctionCollecting o).
Proof.
  assert (H : ∃ r s', apply demo_profile demo_state (demo_event 1 (Event.IndicativeAuctionP demo_auction)) day = (Ok r, s'))
    by (eexists _, _; vm_compute; reflexivity).
  destruct H as (r & s' & H).
  destruct (indicative_coherent demo_profile demo_state _ day r s' demo_auction H eq_refl) as (o & _ & Hs & _).
  exists r, s', o. split; [exact H|exact Hs].
Defined.

Lemma last_trade_total_witness : ∃ rs s',
  steps demo_profile demo_state [(demo_batch, day)] rs s' ∧ is_Some (last_trade s').
Proof.
  assert (H : ∃ rs s', steps demo_profile demo_state [(demo_batch, day)] rs s')
    by (eexists _, _; apply run_steps; vm_compute; reflexivity).
  destruct H as (rs & s' & H). exists rs, s'. split; [exact H|].
  apply (last_trade_total demo_profile demo_instrument demo_date [(demo_batch, day)] rs s' H).
  constructor; [|constructor]. intros b [= <-].
  exists [EventCodec.sample_trade], Trade.SourceSequencePreserved, Observation.NoObservation, Annotations.NoAnnotations.
  vm_compute. reflexivity.
Defined.

(** Merging carries a direction into an opening auction: two observations
    the constructor accepts leave a recorded observation it would refuse. *)
Theorem merge_breaks_direction_rule :
  let up := Signal.mk Signal.NoObservation Signal.NoObservation Signal.NoObservation (Signal.Known Signal.Up) in
  let e1 := demo_event 1 (demo_status 10 (Observation.Set_ (Signal.AuctionCollecting (Signal.opening false false)))) in
  let e2 := demo_event 2 (demo_status 10 (Observation.Set_ (Signal.AuctionCollecting up))) in
  EventCodec.wf e1 ∧ EventCodec.wf e2 ∧
  ∃ rs s' o, steps demo_profile demo_state [(e1, day); (e2, day)] rs s' ∧
    known (market_signal s') = Some (Signal.AuctionCollecting o) ∧
    Signal.from_parts (Signal.purpose o) (Signal.delayed o) (Signal.disposal o) (Signal.direction o) = None.
Proof.
  intros up e1 e2.
  assert (Hwf : ∀ t o, 1 ≤ t ≤ 2 → Signal.wf o →
    EventCodec.wf (demo_event t (demo_status 10 (Observation.Set_ (Signal.AuctionCollecting o))))).
  { intros t o Ht Ho. unfold EventCodec.wf, TradingDate.wf, MatchTime.wf, TradingDate.MIN_EPOCH_DAYS,
      TradingDate.MAX_EPOCH_DAYS. cbn -[is_i64 Z.le]. split_and!; try done; try (unfold_ints; lia).
    split; [by unfold EventCodec.volume_obs_wf|]. split; [done|]. by intros o' [= <-]. }
  split; [apply Hwf; [lia|done]|]. split; [apply Hwf; [lia|done]|].
  eexists _, _, _. split; [apply run_steps; vm_compute; reflexivity|]. split; reflexivity.
Qed.

End ReducerLaws.
