(* ===== verification/StateCanonical.v ===== *)
(** The canonical bytes of a market state and of a final state set
    (canonical.rs of market-state), and their checksums. *)
From S2P Require Import Prelude Order Text Numeric Quantity Calendar Book Identity Signal Codec Values Event MarketState.
Import Writer(push, extend, append_bytes, append_length, each).

Module StateCanonical.
Import Model.

Definition MARKET_STATE_VERSION : Z := 7.
Definition CANONICAL_MARKET_STATE_VERSION : Z := 7.
Definition CANONICAL_FINAL_STATE_SET_VERSION : Z := 7.

#[global] Instance auction_state_canonical : CanonicalValue AuctionState := λ a, append_canonical (observation a).
#[global] Instance market_phase_canonical : CanonicalValue MarketPhase := λ p,
  match p with
  | Continuous => push 1
  | Auction a => push 2 ▷ append_canonical a
  | Closed => push 3
  end.
#[global] Instance trade_observation_canonical : CanonicalValue TradeObservation := λ t,
  match t with
  | Single t => push 1 ▷ append_canonical t
  | Batch ts o => push 2 ▷ push (Trade.ordering_discriminant o) ▷ append_length (zlen ts) ▷ each append_canonical ts
  end.

Definition append_instrument (i : Instrument.InstrumentId) : Writer.Writer :=
  push (Market.discriminant (Instrument.market i)) ▷ append_bytes (Symbol.as_bytes (Instrument.symbol i)).

Definition append_event_ref (r : AppliedEventRef) : Writer.Writer :=
  extend (be_bytes 8 (MatchTime.as_unix_microseconds (ref_match_time r))) ▷
  append_bytes (SourceFormat.as_bytes (ref_source_format r)) ▷
  push (ref_source_phase r) ▷ push (Event.kind_discriminant (ref_event_kind r)) ▷
  Writer.append_optional_u64 (ref_source_sequence r) ▷ extend (ref_event_fingerprint r).

Definition append_state_field {T} `{CanonicalValue T} (f : StateField T) : Writer.Writer :=
  match f with
  | Unavailable Initial => push 0
  | Unavailable (Cleared r) => push 1 ▷ append_event_ref r
  | Known v r => push 2 ▷ append_event_ref r ▷ append_canonical v
  | Unknown raw r => push 3 ▷ append_event_ref r ▷ append_canonical raw
  end.

Definition append_segment (s : option SessionSegmentId) : Writer.Writer :=
  match s with None => push 0 | Some s => push 1 ▷ append_bytes (segment_bytes s) end.
Definition append_last_event (r : option AppliedEventRef) : Writer.Writer :=
  match r with None => push 0 | Some r => push 1 ▷ append_event_ref r end.

Definition encode_state (s : MarketState) : Writer.Writer :=
  extend (bytes_of "OSMS") ▷ extend (be_bytes 2 CANONICAL_MARKET_STATE_VERSION) ▷
  extend (be_bytes 2 MARKET_STATE_VERSION) ▷ append_instrument (instrument s) ▷
  extend (TradingDate.to_canonical_bytes (trading_date s)) ▷ append_segment (current_segment_id s) ▷
  extend (be_bytes 8 (state_version s)) ▷ append_state_field (book s) ▷ append_state_field (recent_trade s) ▷
  append_state_field (cumulative_volume s) ▷ append_state_field (indicative_auction s) ▷
  append_state_field (market_signal s) ▷ append_state_field (phase s) ▷ append_last_event (last_event s).
Definition to_canonical_bytes (s : MarketState) : result Writer.CanonicalEncodingError (list Z) := encode_state s [].

Inductive FinalStateEncodingError : Set := Canonical (e : Writer.CanonicalEncodingError) | DuplicateInstrument.

(** One entry of the set: the state's bytes behind their length. *)
Definition append_state (s : MarketState) : Writer.Writer := λ bytes,
  state_bytes ← to_canonical_bytes s; (append_length (zlen state_bytes) ▷ extend state_bytes) bytes.

Definition canonical_final_state_set (states : list MarketState) : result FinalStateEncodingError (list Z) :=
  let states := sort_on instrument states in
  reject repeats_key instrument states with DuplicateInstrument;;
  map_err Canonical
    ((extend (bytes_of "OSMF") ▷ extend (be_bytes 2 CANONICAL_FINAL_STATE_SET_VERSION) ▷
      append_length (zlen states) ▷ each append_state states) []).

Section hashed.
Context {B : Blake3}.
Definition state_fingerprint (s : MarketState) : result Writer.CanonicalEncodingError (list Z) :=
  bytes ← to_canonical_bytes s; Ok (blake3 bytes).
Definition final_state_checksum (states : list MarketState) : result FinalStateEncodingError (list Z) :=
  bytes ← canonical_final_state_set states; Ok (blake3 bytes).
End hashed.

Lemma final_state_duplicate states :
  canonical_final_state_set states = Err DuplicateInstrument ↔ ¬ NoDup (instrument <$> states).
Proof.
  unfold canonical_final_state_set.
  rewrite <-(repeats_key_perm instrument states). destruct (repeats_key instrument (sort_on instrument states)).
  - split; [|done]. by intros _ ?.
  - split; [|by intros []]. unfold map_err. case_match; by intros [=].
Qed.

(** The final-state bytes, hence the checksum, do not depend on the order
    the states come in, and states of one instrument are rejected exactly as
    duplicates. *)
Theorem final_state_set_order {B : Blake3} states states' : states' ≡ₚ states →
  canonical_final_state_set states' = canonical_final_state_set states ∧
  final_state_checksum states' = final_state_checksum states ∧
  (canonical_final_state_set states = Err DuplicateInstrument ↔ ¬ NoDup (instrument <$> states)).
Proof.
  intros Hp. unfold final_state_checksum.
  assert (Heq : canonical_final_state_set states' = canonical_final_state_set states).
  { unfold canonical_final_state_set. destruct (repeats_key instrument (sort_on instrument states)) eqn:E.
    - destruct (repeats_key instrument (sort_on instrument states')) eqn:E'; [done|].
      apply repeats_key_perm in E'. rewrite Hp in E'. apply repeats_key_perm in E'. congruence.
    - by rewrite (sort_on_unique instrument states states'), E. }
  rewrite Heq. split_and!; [done|done|]. apply final_state_duplicate.
Qed.

Lemma final_state_set_order_witness :
  let a := new (Instrument.new Market.Twse (Symbol.mk (bytes_of "2330"))) (TradingDate.mk 1) in
  let b := new (Instrument.new Market.Tpex (Symbol.mk (bytes_of "6488"))) (TradingDate.mk 1) in
  canonical_final_state_set [b; a] = canonical_final_state_set [a; b].
Proof.
  intros a b. apply (@final_state_set_order (λ _, []) [a; b] [b; a]). constructor.
Defined.

End StateCanonical.
