(* ===== verification/Ordering.v ===== *)
(** The replay order (ordering.rs), the event-stream checksum (checksum.rs)
    and the replay plan with its stream interface (plan.rs, stream.rs). *)
From S2P Require Import Prelude Order Text Numeric Quantity Calendar Book Identity Signal Codec Values Event.
From S2P Require Import EventCodec MarketState.

(** ** ordering.rs *)
Module Ordering.

Definition ORDERING_RULE_VERSION : Z := 4.

Record OrderingKey : Set := mk_key {
  match_time : MatchTime.MatchTime;
  market_rank : Z;
  symbol : Symbol.Symbol;
  source_format : SourceFormat.SourceFormatId;
  source_phase_rank : Z;
  event_kind_rank : Z;
  source_sequence : option Z;
  event_fingerprint : list Z }.

(** [#[derive(Ord)]]: the fields, lexicographically. *)
Definition key_fields (k : OrderingKey) :=
  (match_time k, (market_rank k, (symbol k, (source_format k, (source_phase_rank k, (event_kind_rank k,
    (source_sequence k, event_fingerprint k))))))).
#[global] Instance OrderingKey_eq_dec : EqDecision OrderingKey.
Proof. solve_decision. Defined.
#[global] Instance OrderingKey_ord : Ord OrderingKey := cmp_on key_fields.
#[global] Instance key_fields_inj : Inj (=) (=) key_fields.
Proof. by intros [] [] [= -> -> -> -> -> -> -> ->]. Qed.
#[global] Instance OrderingKey_ord_laws : OrdLaws OrderingKey.
Proof. apply cmp_on_laws, _. Qed.

Inductive OrderingError : Set :=
| CanonicalEncoding (e : Writer.CanonicalEncodingError)
| InvalidTwseRealtimeShape | InvalidTpexRealtimeShape | EventFingerprintCollision.

Definition realtime_rank (invalid_shape : OrderingError) (p : Event.EventPayload) : result OrderingError Z :=
  match p with
  | Event.QuoteSnapshotP _ | Event.MarketStatusP _ => Ok 20
  | Event.TradeBatchP b =>
      if negb (bool_decide (Event.batch_trades b = [])) &&
         forallb (λ t, bool_decide (Trade.observation_kind t = Trade.Intermediate)) (Event.batch_trades b)
      then Ok 10 else Err invalid_shape
  | Event.IndicativeAuctionP a =>
      Ok match Observation.as_set (Event.auction_book a) with Some _ => 20 | None => 10 end
  | Event.BookSnapshotP _ => Err invalid_shape
  end.
Definition phase_rank (e : Event.DomainEvent) : result OrderingError Z :=
  let by_format invalid_shape :=
    if bool_decide (SourceFormat.as_bytes (Event.source_format e) ≠ Model.STOCK_REALTIME) then Ok 0
    else realtime_rank invalid_shape (Event.payload e) in
  match Instrument.market (Event.instrument e) with
  | Market.Twse => by_format InvalidTwseRealtimeShape
  | Market.Tpex => by_format InvalidTpexRealtimeShape
  | Market.Taifex => Ok 0
  end.

Section keys.
Context {B : Blake3}.

Definition for_event_with_fingerprint (e : Event.DomainEvent) (fp : list Z) : result OrderingError OrderingKey :=
  rank ← phase_rank e;
  Ok (mk_key (Event.match_time e) (Market.ordering_rank (Instrument.market (Event.instrument e)))
        (Instrument.symbol (Event.instrument e)) (Event.source_format e) rank
        (Event.payload_discriminant (Event.payload e)) (Event.source_sequence e) fp).

Definition for_event_and_canonical (e : Event.DomainEvent) : result OrderingError (OrderingKey * list Z) :=
  canonical ← map_err CanonicalEncoding (Event.to_canonical_bytes e);
  key ← for_event_with_fingerprint e (blake3 canonical);
  Ok (key, canonical).

Definition for_event (e : Event.DomainEvent) : result OrderingError OrderingKey :=
  fst <$> for_event_and_canonical e.

Record PreparedOrderEvent : Set := mk_prepared {
  prepared_event : Event.DomainEvent; prepared_key : OrderingKey; prepared_canonical : list Z }.

Definition prepare (e : Event.DomainEvent) : result OrderingError PreparedOrderEvent :=
  '(key, canonical) ← for_event_and_canonical e; Ok (mk_prepared e key canonical).

Definition collides (p q : PreparedOrderEvent) : bool :=
  bool_decide (prepared_key p = prepared_key q) && bool_decide (prepared_canonical p ≠ prepared_canonical q).

(** [sort_unstable_by] leaves the order of equal keys open; it is fixed here
    to the stable order, and [order_events_unique] shows that no other sorted
    arrangement of accepted events exists. *)
Definition order_events (events : list Event.DomainEvent) : result OrderingError (list Event.DomainEvent) :=
  events ← collect_results prepare events;
  let events := sort_on prepared_key events in
  reject existsb (λ '(p, q), collides p q) (windows2 events) with EventFingerprintCollision;;
  Ok (prepared_event <$> events).

End keys.
End Ordering.

(** ** checksum.rs

    A [blake3::Hasher] is the bytes it was fed; finalising it hashes them. *)
Module Checksum.

Definition CANONICAL_REPLAY_EVENT_STREAM_VERSION : Z := 1.

Record ReplayEventStreamHasher : Set := mk_hasher { hasher : list Z; event_count : Z }.
Record PreparedChecksumRecord : Set := mk_record { canonical : list Z; length_ : Z }.

Definition new : ReplayEventStreamHasher :=
  mk_hasher (bytes_of "OSRS" ++ be_bytes 2 CANONICAL_REPLAY_EVENT_STREAM_VERSION ++
    be_bytes 2 Event.EVENT_SCHEMA_VERSION ++ be_bytes 2 Event.CANONICAL_EVENT_VERSION ++
    be_bytes 2 Ordering.ORDERING_RULE_VERSION) 0.

Definition prepare_canonical (bytes : list Z) : result Writer.CanonicalEncodingError PreparedChecksumRecord :=
  length ← ok_or (to_u32 (zlen bytes)) Writer.LengthOverflow; Ok (mk_record bytes length).

Definition append_prepared (r : PreparedChecksumRecord) (h : ReplayEventStreamHasher) : ReplayEventStreamHasher :=
  mk_hasher (((hasher h ++ [1]) ++ be_bytes 4 (length_ r)) ++ canonical r) (event_count h + 1).

Definition finalized_bytes (h : ReplayEventStreamHasher) : list Z :=
  (hasher h ++ [0]) ++ be_bytes 8 (event_count h).
Definition checksum {B : Blake3} (h : ReplayEventStreamHasher) : list Z := blake3 (finalized_bytes h).

End Checksum.

(** ** plan.rs and stream.rs *)
Module Plan.

Definition REPLAY_PLAN_VERSION : Z := 1.

Record ReplayStreamBinding : Set := new_binding {
  descriptor_id : list Z;
  instrument : Instrument.InstrumentId;
  trading_date : TradingDate.TradingDate;
  source_revision_identity : list Z;
  cache_identity : list Z }.

Inductive ReplayPlanError : Set :=
| EmptyBindings | SingleBindingRequired (count : Z) | DuplicateLogicalStream | CanonicalLength.

Record ReplayPlan : Set := mk_plan {
  upstream_plan_identity : list Z; bindings : list ReplayStreamBinding; identity : list Z }.

Definition append_len (length : Z) (bytes : list Z) : result ReplayPlanError (list Z) :=
  length ← ok_or (to_u32 length) CanonicalLength; Ok (bytes ++ be_bytes 4 length).
Definition append_bytes (value bytes : list Z) : result ReplayPlanError (list Z) :=
  length ← ok_or (to_u32 (zlen value)) CanonicalLength; Ok ((bytes ++ be_bytes 4 length) ++ value).
Definition append_binding (output : list Z) (b : ReplayStreamBinding) : result ReplayPlanError (list Z) :=
  let output := output ++ descriptor_id b ++ [Market.discriminant (Instrument.market (instrument b))] in
  output ← append_bytes (Symbol.as_bytes (Instrument.symbol (instrument b))) output;
  Ok (output ++ TradingDate.to_canonical_bytes (trading_date b) ++ source_revision_identity b ++ cache_identity b).

Definition plan_header (upstream : list Z) : list Z :=
  bytes_of "OSRP" ++ be_bytes 2 REPLAY_PLAN_VERSION ++ upstream.

Definition sort_key (b : ReplayStreamBinding) :=
  (instrument b, (trading_date b, (descriptor_id b, cache_identity b))).
Definition logical_stream (b : ReplayStreamBinding) := (instrument b, trading_date b).

Section plans.
Context {B : Blake3}.

Definition build_single (upstream : list Z) (b : ReplayStreamBinding) : result ReplayPlanError ReplayPlan :=
  canonical ← append_binding (plan_header upstream) b;
  Ok (mk_plan upstream [b] (blake3 canonical)).

Definition build_multi (upstream : list Z) (bs : list ReplayStreamBinding) : result ReplayPlanError ReplayPlan :=
  let bs := sort_on sort_key bs in
  reject repeats_key logical_stream bs with DuplicateLogicalStream;;
  canonical ← append_len (zlen bs) (plan_header upstream);
  canonical ← try_fold append_binding canonical bs;
  Ok (mk_plan upstream bs (blake3 canonical)).

Definition new (upstream : list Z) (bs : list ReplayStreamBinding) : result ReplayPlanError ReplayPlan :=
  match bs with
  | [b] => build_single upstream b
  | [] => Err EmptyBindings
  | _ => Err (SingleBindingRequired (zlen bs))
  end.

Definition new_multi (upstream : list Z) (bs : list ReplayStreamBinding) : result ReplayPlanError ReplayPlan :=
  match bs with [] => Err EmptyBindings | _ => build_multi upstream bs end.
End plans.

(** [trait EventStream] and [trait ReplayStreamFactory]: [next_event] and
    [open] take [&mut self], so they also give the object they leave. *)
Class EventStream (S E : Type) := next_event : S → result E (option Event.DomainEvent) * S.
Class ReplayStreamFactory (F S E : Type) := open : F → ReplayStreamBinding → result E S * F.

End Plan.
