(* ===== verification/OrderingLaws.v ===== *)
(** The theorems of the replay order: sorting accepted events has one answer,
    the stream checksum covers every event, and a plan does not depend on the
    order its streams are named in. *)
From S2P Require Import Prelude Order Text Numeric Quantity Calendar Book Identity Signal Codec Values Event.
From S2P Require Import EventCodec MarketState Ordering.

Module OrderingLaws.
Import Ordering.

(** ** Order of events *)

Lemma collect_results_perm {E A C} (f : A → result E C) l l' ys : l ≡ₚ l' →
  collect_results f l = Ok ys → ∃ ys', collect_results f l' = Ok ys' ∧ ys ≡ₚ ys'.
Proof.
  intros Hp. revert ys. induction Hp as [|x l l' Hp IH|x y l|l l' l'' _ IH1 _ IH2]; intros ys; cbn [collect_results].
  - intros [= <-]. by exists [].
  - rewrite bind_Ok. intros (y & Hy & H). apply bind_Ok in H as (ys' & H & [= <-]).
    destruct (IH _ H) as (zs & Hz & Hperm). exists (y :: zs). rewrite Hy. simpl. rewrite Hz. simpl.
    split; [done|by constructor].
  - intros H. apply bind_Ok in H as (a & Ha & H). apply bind_Ok in H as (ys1 & H & [= <-]).
    apply bind_Ok in H as (b & Hb & H). apply bind_Ok in H as (ys2 & H & [= <-]).
    exists (b :: a :: ys2). rewrite Hb. simpl. rewrite Ha. simpl. rewrite H. simpl. split; [done|constructor].
  - intros H. destruct (IH1 _ H) as (ys1 & H1 & Hp1). destruct (IH2 _ H1) as (ys2 & H2 & Hp2).
    exists ys2. split; [done|by etrans].
Qed.

Section order.
Context {B : Blake3}.

(** What a decoded or constructed event satisfies, and what its bytes fit in. *)
Definition event_fits (e : Event.DomainEvent) : Prop :=
  EventCodec.wf e ∧ ∀ b, Event.to_canonical_bytes e = Ok b → zlen b ≤ isize_max.

Lemma prepare_Ok e p : prepare e = Ok p ↔
  prepared_event p = e ∧ for_event_and_canonical e = Ok (prepared_key p, prepared_canonical p).
Proof.
  unfold prepare. rewrite bind_Ok. split.
  - intros ([k c] & H & [= <-]). done.
  - intros [<- H]. exists (prepared_key p, prepared_canonical p). split; [done|]. by destruct p.
Qed.

Lemma for_event_and_canonical_Ok e k c : for_event_and_canonical e = Ok (k, c) ↔
  Event.to_canonical_bytes e = Ok c ∧ for_event_with_fingerprint e (blake3 c) = Ok k.
Proof.
  unfold for_event_and_canonical. rewrite bind_Ok. split.
  - intros (c' & Hc & H). destruct (Event.to_canonical_bytes e) as [c0|]; [|done]. injection Hc as ->.
    apply bind_Ok in H as (k' & Hk & [= <- <-]). done.
  - intros [-> Hk]. exists c. split; [done|]. by rewrite Hk.
Qed.

Lemma prepared_inj p q e1 e2 : event_fits e1 → event_fits e2 → prepare e1 = Ok p → prepare e2 = Ok q →
  prepared_key p = prepared_key q → prepared_canonical p = prepared_canonical q → p = q.
Proof.
  intros [Hw1 Hl1] [Hw2 Hl2] [He1 H1]%prepare_Ok [He2 H2]%prepare_Ok Hk Hc.
  apply for_event_and_canonical_Ok in H1 as [Hc1 _], H2 as [Hc2 _].
  pose proof (Hl1 _ Hc1). pose proof (Hl2 _ Hc2).
  apply EventCodec.frame_decode_encode in Hc1, Hc2; [|done..]. rewrite Hc in Hc1.
  destruct p, q. simpl in *. congruence.
Qed.

(** Adjacent records with one key have one encoding, hence all of them do. *)
Lemma no_collision_all ps : StronglySorted (key_le prepared_key) ps →
  existsb (λ '(p, q), collides p q) (windows2 ps) = false →
  ∀ p q, p ∈ ps → q ∈ ps → prepared_key p = prepared_key q → prepared_canonical p = prepared_canonical q.
Proof.
  assert (Hhead : ∀ x l, StronglySorted (key_le prepared_key) (x :: l) →
    existsb (λ '(p, q), collides p q) (windows2 (x :: l)) = false →
    ∀ z, z ∈ l → prepared_key x = prepared_key z → prepared_canonical x = prepared_canonical z).
  { intros x l. revert x. induction l as [|y l IH]; intros x Hs Hw z Hz Hk; [by apply not_elem_of_nil in Hz|].
    change (windows2 (x :: y :: l)) with ((x, y) :: windows2 (y :: l)) in Hw. cbn [existsb] in Hw.
    apply orb_false_iff in Hw as [Hxy Hw]. inversion_clear Hs as [|? ? Hs' Hx]. inversion_clear Hx as [|? ? Hle Hx'].
    assert (prepared_key x = prepared_key y) as Hkxy.
    { apply elem_of_cons in Hz as [->|Hz]; [done|]. apply (anti_symm ord_le); [done|]. rewrite Hk.
      inversion_clear Hs' as [|? ? _ Hy]. rewrite Forall_forall in Hy. apply (Hy z). by apply list_elem_of_In. }
    unfold collides in Hxy. rewrite bool_decide_true in Hxy by done. simpl in Hxy.
    apply bool_decide_eq_false in Hxy. assert (prepared_canonical x = prepared_canonical y) as -> by
      by destruct (decide (prepared_canonical x = prepared_canonical y)).
    apply elem_of_cons in Hz as [->|Hz]; [done|]. apply IH; [done|done|done|congruence]. }
  induction ps as [|x l IH]; intros Hs Hw p q Hp Hq Hk; [by apply not_elem_of_nil in Hp|].
  assert (existsb (λ '(p, q), collides p q) (windows2 l) = false) as Hwl.
  { destruct l; [done|]. cbn in Hw. by apply orb_false_iff in Hw as [_ ?]. }
  apply elem_of_cons in Hp as [->|Hp], Hq as [->|Hq]; [done| | |].
  - by eapply Hhead.
  - symmetry. by eapply Hhead.
  - inversion_clear Hs. by apply IH.
Qed.

(** The relation a replay requires of consecutive events. *)
Definition event_le (e1 e2 : Event.DomainEvent) : Prop :=
  ∃ k1 k2, for_event e1 = Ok k1 ∧ for_event e2 = Ok k2 ∧ ord_le k1 k2.

Lemma for_event_prepare e p : prepare e = Ok p → for_event e = Ok (prepared_key p).
Proof. intros [_ H]%prepare_Ok. unfold for_event. by rewrite H. Qed.

Lemma collect_prepare_events es ps : collect_results prepare es = Ok ps → prepared_event <$> ps = es.
Proof.
  intros H%collect_results_Ok. induction H as [|e p es ps [He _]%prepare_Ok _ IH]; [done|].
  by rewrite fmap_cons, IH, He.
Qed.

Lemma sorted_events ps es : collect_results prepare es = Ok ps →
  StronglySorted event_le es → StronglySorted (key_le prepared_key) ps.
Proof.
  intros H%collect_results_Ok Hs. induction H as [|e p es ps He Hes IH]; [constructor|].
  inversion_clear Hs as [|? ? Hs' Hle]. constructor; [by apply IH|].
  apply Forall_forall. intros q Hq%list_elem_of_In.
  apply list_elem_of_lookup in Hq as [i Hi]. destruct (Forall2_lookup_r _ _ _ _ _ Hes Hi) as (e' & He' & Hq).
  apply list_elem_of_lookup_2 in He'. rewrite Forall_forall in Hle. apply list_elem_of_In in He'. destruct (Hle e' He') as (k1 & k2 & H1 & H2 & Hk).
  apply for_event_prepare in He, Hq. unfold key_le. congruence.
Qed.

Lemma events_sorted ps : Forall (λ p, prepare (prepared_event p) = Ok p) ps →
  StronglySorted (key_le prepared_key) ps → StronglySorted event_le (prepared_event <$> ps).
Proof.
  intros Hps Hs. induction Hs as [|p ps Hs IH Hp]; [constructor|]. inversion_clear Hps as [|? ? Hpp Hps'].
  rewrite fmap_cons. constructor; [by apply IH|]. apply Forall_forall. intros e He%list_elem_of_In.
  apply list_elem_of_fmap in He as (q & -> & Hq). rewrite Forall_forall in Hp, Hps'.
  exists (prepared_key p), (prepared_key q). apply list_elem_of_In in Hq.
  split_and!; [by apply for_event_prepare|by apply for_event_prepare, Hps'|by apply Hp].
Qed.

Lemma order_events_unique_sorted es out : Forall event_fits es → order_events es = Ok out →
  out ≡ₚ es ∧ StronglySorted event_le out ∧
  (∀ es', es' ≡ₚ es → order_events es' = Ok out) ∧
  (∀ out', out' ≡ₚ es → StronglySorted event_le out' → out' = out).
Proof.
  intros Hfit H. unfold order_events in H. apply bind_Ok in H as (ps & Hps & H).
  destruct (existsb _ _) eqn:Hw; [done|]. injection H as <-.
  pose proof (collect_prepare_events _ _ Hps) as Hes.
  assert (Hprep : Forall (λ p, prepare (prepared_event p) = Ok p) ps).
  { clear -Hps. apply collect_results_Ok in Hps. induction Hps as [|e p es ps He _ IH]; constructor; [|done].
    pose proof (proj1 (proj1 (prepare_Ok e p) He)) as ->. done. }
  assert (Hfitp : ∀ p, p ∈ ps → event_fits (prepared_event p)).
  { intros p Hp. rewrite Forall_forall in Hfit. apply Hfit, list_elem_of_In. rewrite <-Hes. by apply list_elem_of_fmap_2. }
  assert (Huniq : ∀ qs, ps ≡ₚ qs → StronglySorted (key_le prepared_key) qs → qs = sort_on prepared_key ps).
  { intros qs Hp Hs. symmetry. apply (sorted_perm_unique prepared_key); [|apply sort_on_sorted|done|by rewrite sort_on_perm].
    intros p q Hpi Hqi Hk. pose proof (no_collision_all _ (sort_on_sorted _ _) Hw p q Hpi Hqi Hk) as Hc.
    rewrite elem_of_sort_on in Hpi, Hqi. rewrite Forall_forall in Hprep.
    eapply prepared_inj; [| |apply Hprep|apply Hprep|done|done]; try (by apply Hfitp); by apply list_elem_of_In. }
  split_and!.
  - rewrite <-Hes. by rewrite sort_on_perm.
  - apply events_sorted; [|apply sort_on_sorted]. by rewrite sort_on_perm.
  - intros es' Hp. symmetry in Hp. destruct (collect_results_perm prepare _ _ _ Hp Hps) as (qs & Hqs & Hpq).
    unfold order_events. rewrite Hqs. simpl.
    rewrite (Huniq (sort_on prepared_key qs)); [|by rewrite sort_on_perm|apply sort_on_sorted]. by rewrite Hw.
  - intros out' Hp Hs. symmetry in Hp. destruct (collect_results_perm prepare _ _ _ Hp Hps) as (qs & Hqs & Hpq).
    rewrite <-(Huniq qs Hpq (sorted_events _ _ Hqs Hs)). symmetry. by apply collect_prepare_events.
Qed.

(** Ordered events have keys, and a key belongs to one event. *)
Lemma order_events_keys es out : Forall event_fits es → order_events es = Ok out →
  (∀ e, e ∈ es → ∃ k canonical, for_event_and_canonical e = Ok (k, canonical)) ∧
  (∀ e1 e2 k, e1 ∈ es → e2 ∈ es → for_event e1 = Ok k → for_event e2 = Ok k → e1 = e2).
Proof.
  intros Hfit H. unfold order_events in H. apply bind_Ok in H as (ps & Hps & H).
  destruct (existsb _ _) eqn:Hw; [done|]. clear H.
  assert (Hprep : ∀ e, e ∈ es → ∃ p, p ∈ ps ∧ prepare e = Ok p).
  { intros e [i Hi]%list_elem_of_lookup. apply collect_results_Ok in Hps.
    destruct (Forall2_lookup_l _ _ _ _ _ Hps Hi) as (p & Hp & He). exists p. split; [by eapply list_elem_of_lookup_2|done]. }
  split.
  - intros e He. destruct (Hprep e He) as (p & _ & [_ Hp]%prepare_Ok). eauto.
  - intros e1 e2 k H1 H2 K1 K2. destruct (Hprep e1 H1) as (p1 & Hp1 & E1), (Hprep e2 H2) as (p2 & Hp2 & E2).
    pose proof (for_event_prepare _ _ E1). pose proof (for_event_prepare _ _ E2).
    assert (Hk : prepared_key p1 = prepared_key p2) by congruence.
    pose proof (no_collision_all _ (sort_on_sorted prepared_key ps) Hw p1 p2) as Hc. rewrite !elem_of_sort_on in Hc.
    rewrite Forall_forall in Hfit.
    assert (p1 = p2) as ->.
    { eapply prepared_inj; [apply Hfit|apply Hfit|done..|by apply Hc]; by apply list_elem_of_In. }
    apply prepare_Ok in E1 as [<- _], E2 as [<- _]. done.
Qed.

(** Ordering loses and invents no event and its answer is the only one:
    every arrangement of the same events is ordered alike, and the result is
    the one sorted arrangement that exists, so the unstable sort is
    deterministic. *)
Theorem order_events_unique es out : Forall event_fits es → order_events es = Ok out →
  out ≡ₚ es ∧ StronglySorted event_le out ∧
  (∀ es', es' ≡ₚ es → order_events es' = Ok out) ∧
  (∀ out', out' ≡ₚ es → StronglySorted event_le out' → out' = out).
Proof. apply order_events_unique_sorted. Qed.

End order.

Lemma order_events_unique_witness :
  let e := EventCodec.sample_event in let B : Blake3 := λ b, [zlen b] in
  ∃ out, order_events [e; e] = Ok out ∧ out ≡ₚ [e; e].
Proof.
  intros e B. assert (H : ∃ out, order_events [e; e] = Ok out) by (eexists; vm_compute; reflexivity).
  destruct H as (out & H). exists out. split; [exact H|].
  refine (proj1 (@order_events_unique B [e; e] out _ H)).
  assert (Hfit : event_fits e).
  { split; [apply EventCodec.sample_event_wf|]. intros b Hb.
    assert (b = EventCodec.sample_bytes) as -> by (unfold EventCodec.sample_bytes; fold e; by rewrite Hb). by vm_compute. }
  apply (Forall_cons_2 event_fits); [exact Hfit|apply (Forall_cons_2 event_fits); [exact Hfit|apply Forall_nil_2]].
Defined.

(** ** The stream checksum *)

Section checksum.
Import Checksum.

(** One committed event: its length is checked, then its record is fed. *)
Definition absorb (h : ReplayEventStreamHasher) (event_bytes : list Z) :
    result Writer.CanonicalEncodingError ReplayEventStreamHasher :=
  r ← prepare_canonical event_bytes; Ok (append_prepared r h).

Definition record_bytes (event_bytes : list Z) : list Z := 1 :: be_bytes 4 (zlen event_bytes) ++ event_bytes.

Lemma absorb_Ok h b h' : absorb h b = Ok h' ↔
  is_u32 (zlen b) ∧ h' = mk_hasher (hasher h ++ record_bytes b) (event_count h + 1).
Proof.
  unfold absorb, prepare_canonical. rewrite bind_Ok. split.
  - intros (r & H & [= <-]). apply bind_Ok in H as (n & H & [= <-]). unfold ok_or in H.
    destruct (to_u32 (zlen b)) as [m|] eqn:Hm; [|done]. injection H as ->. apply checked_Some in Hm as [-> Hr].
    split; [done|]. unfold append_prepared, record_bytes. simpl. by rewrite <-!app_assoc.
  - intros [Hr ->]. exists (mk_record b (zlen b)). unfold to_u32. rewrite checked_in by done. split; [done|].
    unfold append_prepared, record_bytes. simpl. by rewrite <-!app_assoc.
Qed.

Lemma absorb_append h b : is_u32 (zlen b) → absorb h b = Ok (append_prepared (mk_record b (zlen b)) h).
Proof. intros Hb. unfold absorb, prepare_canonical, to_u32. by rewrite checked_in. Qed.

Lemma absorb_all h l h' : try_fold absorb h l = Ok h' →
  Forall (λ b, is_u32 (zlen b)) l ∧ hasher h' = hasher h ++ concat (record_bytes <$> l) ∧
  event_count h' = event_count h + zlen l.
Proof.
  revert h. induction l as [|b l IH]; intros h; simpl.
  - intros [= <-]. rewrite app_nil_r. unfold zlen. simpl. split_and!; [constructor|done|lia].
  - rewrite bind_Ok. intros (h1 & [Hb ->]%absorb_Ok & H). apply IH in H as (Hl & Hh & Hc). simpl in *.
    split_and!; [by constructor|by rewrite Hh, <-app_assoc|unfold zlen in *; simpl; lia].
Qed.

Lemma record_bytes_inj b1 b2 r1 r2 : is_u32 (zlen b1) → is_u32 (zlen b2) →
  record_bytes b1 ++ r1 = record_bytes b2 ++ r2 → b1 = b2 ∧ r1 = r2.
Proof.
  intros H1 H2. unfold record_bytes. rewrite <-!app_comm_cons, <-!app_assoc. intros [_ H]%cons_eq_inj.
  apply app_inj_1 in H as [Hn H]; [|by rewrite !length_be_bytes].
  apply be_bytes_inj in Hn; [|unfold_ints; lia..]. apply app_inj_1 in H; [done|]. unfold zlen in Hn. lia.
Qed.

Lemma records_inj l1 l2 r1 r2 : Forall (λ b, is_u32 (zlen b)) l1 → Forall (λ b, is_u32 (zlen b)) l2 →
  concat (record_bytes <$> l1) ++ 0 :: r1 = concat (record_bytes <$> l2) ++ 0 :: r2 → l1 = l2.
Proof.
  intros H1. revert l2. induction H1 as [|b1 l1 Hb1 _ IH]; intros l2 H2; destruct H2 as [|b2 l2 Hb2 H2]; [done|done|done|].
  rewrite !fmap_cons. cbn [concat]. rewrite <-!app_assoc. intros [-> H]%record_bytes_inj; [|done..].
  by rewrite (IH l2).
Qed.

Lemma absorbed_identifies {B : Blake3} l1 l2 h1 h2 :
  try_fold absorb new l1 = Ok h1 → try_fold absorb new l2 = Ok h2 → checksum h1 = checksum h2 →
  l1 = l2 ∨ ∃ x y, x ≠ y ∧ blake3 x = blake3 y.
Proof.
  intros (Hl1 & Hh1 & _)%absorb_all (Hl2 & Hh2 & _)%absorb_all H.
  destruct (decide (finalized_bytes h1 = finalized_bytes h2)) as [He|]; [left|right; eauto].
  unfold finalized_bytes in He. rewrite Hh1, Hh2, <-!app_assoc in He. apply app_inj_1 in He as [_ He]; [|done].
  by eapply records_inj.
Qed.
End checksum.

(** ** The replay plan *)

Section plan.
Import Plan.

Definition binding_bytes (b : ReplayStreamBinding) : list Z :=
  let symbol := Symbol.as_bytes (Instrument.symbol (instrument b)) in
  descriptor_id b ++ Market.discriminant (Instrument.market (instrument b)) ::
  be_bytes 4 (zlen symbol) ++ symbol ++ TradingDate.to_canonical_bytes (trading_date b) ++
  source_revision_identity b ++ cache_identity b.

(** The widths the types of plan.rs give: [[u8; 32]] identities and the [i32]
    of the date. *)
Definition binding_wf (b : ReplayStreamBinding) : Prop :=
  length (descriptor_id b) = 32%nat ∧ length (source_revision_identity b) = 32%nat ∧
  length (cache_identity b) = 32%nat ∧ is_i32 (TradingDate.as_epoch_days (trading_date b)).

Lemma append_binding_Ok out b out' : append_binding out b = Ok out' ↔
  is_u32 (zlen (Symbol.as_bytes (Instrument.symbol (instrument b)))) ∧ out' = out ++ binding_bytes b.
Proof.
  unfold append_binding, append_bytes. set (sym := Symbol.as_bytes _). rewrite bind_Ok. split.
  - intros (o & H & [= <-]). apply bind_Ok in H as (n & H & [= <-]). unfold ok_or in H.
    destruct (to_u32 (zlen sym)) as [m|] eqn:Hm; [|done]. injection H as ->. apply checked_Some in Hm as [-> Hr].
    split; [done|]. unfold binding_bytes. fold sym. by rewrite <-!app_assoc.
  - intros [Hr ->]. eexists. split; [apply bind_Ok; eexists; split; [|done]|].
    + unfold to_u32. by rewrite checked_in.
    + unfold binding_bytes. fold sym. by rewrite <-!app_assoc.
Qed.

Lemma append_bindings_Ok out bs out' : try_fold append_binding out bs = Ok out' →
  Forall (λ b, is_u32 (zlen (Symbol.as_bytes (Instrument.symbol (instrument b))))) bs ∧
  out' = out ++ concat (binding_bytes <$> bs).
Proof.
  revert out. induction bs as [|b bs IH]; intros out; simpl.
  - intros [= <-]. split; [constructor|by rewrite app_nil_r].
  - rewrite bind_Ok. intros (o & [Hb ->]%append_binding_Ok & [Hbs ->]%IH).
    split; [by constructor|]. by rewrite <-app_assoc.
Qed.

Lemma binding_bytes_inj b1 b2 r1 r2 : binding_wf b1 → binding_wf b2 →
  is_u32 (zlen (Symbol.as_bytes (Instrument.symbol (instrument b1)))) →
  is_u32 (zlen (Symbol.as_bytes (Instrument.symbol (instrument b2)))) →
  binding_bytes b1 ++ r1 = binding_bytes b2 ++ r2 → b1 = b2 ∧ r1 = r2.
Proof.
  destruct b1 as [d1 [m1 [s1]] [t1] v1 c1], b2 as [d2 [m2 [s2]] [t2] v2 c2]. unfold binding_wf, binding_bytes.
  cbn [descriptor_id instrument trading_date source_revision_identity cache_identity Instrument.symbol
    Instrument.market Symbol.as_bytes TradingDate.as_epoch_days]. intros (Hd1 & Hv1 & Hc1 & Ht1) (Hd2 & Hv2 & Hc2 & Ht2) Hs1 Hs2 H.
  repeat (rewrite <-app_assoc in H || rewrite <-app_comm_cons in H).
  apply app_inj_1 in H as [-> H]; [|lia]. apply cons_eq_inj in H as [Hm H].
  assert (m1 = m2) as -> by (destruct m1, m2; done).
  apply app_inj_1 in H as [Hn H]; [|by rewrite !length_be_bytes].
  apply be_bytes_inj in Hn; [|unfold_ints; lia..]. apply app_inj_1 in H as [-> H]; [|unfold zlen in Hn; lia].
  apply app_inj_1 in H as [Ht H]; [|unfold TradingDate.to_canonical_bytes; by rewrite !length_be_bytes].
  unfold TradingDate.to_canonical_bytes in Ht. cbn [TradingDate.as_epoch_days] in Ht. apply (f_equal from_be_signed) in Ht.
  rewrite !from_be_signed_be_bytes in Ht by (unfold_ints; lia). subst t2.
  apply app_inj_1 in H as [-> H]; [|lia]. apply app_inj_1 in H as [-> H]; [|lia]. done.
Qed.

Lemma bindings_inj bs1 bs2 : length bs1 = length bs2 → Forall binding_wf bs1 → Forall binding_wf bs2 →
  Forall (λ b, is_u32 (zlen (Symbol.as_bytes (Instrument.symbol (instrument b))))) bs1 →
  Forall (λ b, is_u32 (zlen (Symbol.as_bytes (Instrument.symbol (instrument b))))) bs2 →
  concat (binding_bytes <$> bs1) = concat (binding_bytes <$> bs2) → bs1 = bs2.
Proof.
  revert bs2. induction bs1 as [|b1 bs1 IH]; intros [|b2 bs2] Hl W1 W2 S1 S2; [done|done|done|].
  apply Forall_cons_iff in W1 as [Hw1 W1], W2 as [Hw2 W2], S1 as [Hs1 S1], S2 as [Hs2 S2].
  rewrite !fmap_cons. cbn [concat]. intros [-> H]%binding_bytes_inj; [|done..].
  f_equal. apply IH; [by injection Hl|done..].
Qed.

(** [sort_key] refines [logical_stream]. *)
Lemma sort_key_logical b1 b2 : key_le sort_key b1 b2 → key_le logical_stream b1 b2.
Proof.
  unfold key_le, ord_le, sort_key, logical_stream. rewrite !cmp_pair. intros H Hc. apply H.
  destruct (cmp (instrument b1) (instrument b2)); [|done|done]. simpl in *.
  by destruct (cmp (trading_date b1) (trading_date b2)).
Qed.

Lemma sorted_logical bs : StronglySorted (key_le logical_stream) (sort_on sort_key bs).
Proof.
  pose proof (sort_on_sorted sort_key bs) as H. induction H as [|b l _ IH Hb]; [constructor|].
  constructor; [done|]. eapply Forall_impl; [|exact Hb]. intros. by apply sort_key_logical.
Qed.

Lemma repeats_logical bs :
  repeats_key logical_stream (sort_on sort_key bs) = false ↔ NoDup (logical_stream <$> bs).
Proof.
  pose proof (sorted_repeats_NoDup logical_stream _ (sorted_logical bs)) as H.
  rewrite H. by rewrite (sort_on_perm sort_key bs).
Qed.

Context {B : Blake3}.

Lemma new_multi_Ok upstream bs p : new_multi upstream bs = Ok p →
  NoDup (logical_stream <$> bs) ∧ bindings p = sort_on sort_key bs ∧ upstream_plan_identity p = upstream ∧
  ∃ canonical, identity p = blake3 canonical ∧ is_u32 (zlen bs) ∧
    Forall (λ b, is_u32 (zlen (Symbol.as_bytes (Instrument.symbol (instrument b))))) (sort_on sort_key bs) ∧
    canonical = plan_header upstream ++ be_bytes 4 (zlen bs) ++ concat (binding_bytes <$> sort_on sort_key bs).
Proof.
  intros H. assert (Hb : build_multi upstream bs = Ok p) by (by destruct bs). clear H.
  unfold build_multi in Hb. destruct (repeats_key _ _) eqn:Hr; [done|]. apply repeats_logical in Hr.
  apply bind_Ok in Hb as (c & Hc & H). apply bind_Ok in H as (c' & Hc' & [= <-]).
  apply append_bindings_Ok in Hc' as [Hs ->]. apply bind_Ok in Hc as (n & Hn & [= <-]). unfold ok_or in Hn.
  destruct (to_u32 (zlen (sort_on sort_key bs))) as [m|] eqn:Hm; [|done]. injection Hn as ->.
  apply checked_Some in Hm as [-> Hm]. assert (zlen (sort_on sort_key bs) = zlen bs) as Hz.
  { unfold zlen. by rewrite (Permutation_length (sort_on_perm sort_key bs)). }
  rewrite Hz in *. split_and!; [done..|]. eexists. split_and!; [done|done|done|].
  exact (eq_sym (app_assoc (plan_header upstream) (be_bytes 4 (zlen bs)) _)).
Qed.

(** A multi-stream plan depends only on the set of its bindings, and two
    streams for one instrument and day are always refused. *)
Theorem plan_order_free upstream bs bs' p : new_multi upstream bs = Ok p → bs' ≡ₚ bs →
  NoDup (logical_stream <$> bs) ∧ bindings p ≡ₚ bs ∧ new_multi upstream bs' = Ok p.
Proof.
  intros H Hp. pose proof H as (Hn & Hb & _)%new_multi_Ok.
  split_and!; [done|rewrite Hb; apply sort_on_perm|].
  assert (Hs : sort_on sort_key bs' = sort_on sort_key bs).
  { apply (sort_on_unique sort_key bs bs'); [|done]. apply repeats_key_perm.
    by apply (NoDup_fmap_1 (λ k, (k.1, k.2.1))); rewrite <-list_fmap_compose. }
  assert (Hd : ∀ l, l ≡ₚ bs → new_multi upstream l = build_multi upstream l).
  { intros [|] Hl; [|done]. apply Permutation_nil_l in Hl. subst bs. done. }
  rewrite (Hd bs') by done. rewrite (Hd bs) in H by done. unfold build_multi in *. by rewrite Hs.
Qed.

(** Equal plan identities mean the same upstream plan and the same bindings,
    or a collision of the hash. *)
Theorem plan_identifies u1 u2 bs1 bs2 p1 p2 : length u1 = length u2 →
  Forall binding_wf bs1 → Forall binding_wf bs2 → new_multi u1 bs1 = Ok p1 → new_multi u2 bs2 = Ok p2 →
  identity p1 = identity p2 → p1 = p2 ∧ bs1 ≡ₚ bs2 ∨ ∃ x y, x ≠ y ∧ blake3 x = blake3 y.
Proof.
  intros Hu W1 W2 (_ & Hb1 & Hu1 & c1 & Hi1 & Hz1 & S1 & Hc1)%new_multi_Ok
    (_ & Hb2 & Hu2 & c2 & Hi2 & Hz2 & S2 & Hc2)%new_multi_Ok Hi.
  destruct (decide (c1 = c2)) as [He|]; [left|right; exists c1, c2; split; [done|congruence]].
  rewrite Hc1, Hc2 in He. unfold plan_header in He. rewrite <-!app_assoc in He.
  apply app_inj_1 in He as [_ He]; [|done]. apply app_inj_1 in He as [_ He]; [|done].
  apply app_inj_1 in He as [-> He]; [|done]. apply app_inj_1 in He as [Hn He]; [|by rewrite !length_be_bytes].
  apply be_bytes_inj in Hn; [|unfold_ints; lia..].
  assert (Hs : sort_on sort_key bs1 = sort_on sort_key bs2).
  { apply bindings_inj; [|by rewrite sort_on_perm..|done|done|done].
    rewrite !(Permutation_length (sort_on_perm sort_key _)). unfold zlen in Hn. lia. }
  split; [|by rewrite <-(sort_on_perm sort_key bs1), Hs, sort_on_perm].
  destruct p1, p2. simpl in *. congruence.
Qed.
End plan.

(** Two bindings of one day, named in either order. *)
Definition demo_binding (symbol : string) : Plan.ReplayStreamBinding :=
  Plan.new_binding (repeat 1 32) (Instrument.new Market.Twse (Symbol.mk (bytes_of symbol))) (TradingDate.mk 20000)
    (repeat 2 32) (repeat 3 32).

Lemma plan_order_free_witness : let B : Blake3 := λ b, b in
  ∃ p, Plan.new_multi [] [demo_binding "2330"; demo_binding "1101"] = Ok p ∧
    Plan.new_multi [] [demo_binding "1101"; demo_binding "2330"] = Ok p.
Proof.
  intros B. assert (H : ∃ p, Plan.new_multi [] [demo_binding "2330"; demo_binding "1101"] = Ok p)
    by (eexists; vm_compute; reflexivity).
  destruct H as (p & H). exists p. split; [exact H|].
  exact (proj2 (proj2 (@plan_order_free B [] _ _ p H (perm_swap _ _ [])))).
Defined.

Lemma plan_identifies_witness : let B : Blake3 := λ b, b in
  ∃ p, Plan.new_multi [] [demo_binding "2330"; demo_binding "1101"] = Ok p ∧
  (p = p ∧ [demo_binding "2330"; demo_binding "1101"] ≡ₚ [demo_binding "1101"; demo_binding "2330"] ∨
   ∃ x y : list Z, x ≠ y ∧ blake3 x = blake3 y).
Proof.
  intros B. assert (H : ∃ p, Plan.new_multi [] [demo_binding "2330"; demo_binding "1101"] = Ok p ∧
    Plan.new_multi [] [demo_binding "1101"; demo_binding "2330"] = Ok p) by (eexists; split; vm_compute; reflexivity).
  destruct H as (p & H & H'). exists p. split; [exact H|].
  assert (W : ∀ s, binding_wf (demo_binding s)) by (intros s; split_and!; [done|done|done|split; by vm_compute]).
  apply (@plan_identifies B [] [] _ _ p p); [done|by repeat constructor|by repeat constructor|exact H|exact H'|done].
Defined.

End OrderingLaws.
