(* ===== verification/Replay.v ===== *)
(** The replay core (engine.rs): construction, the commit of one ordered event,
    the replay loops over memory, a stream and several merged streams, and
    completion. *)
From S2P Require Import Prelude Order Text Numeric Quantity Calendar Book Identity Signal Codec Values Event.
From S2P Require Import EventCodec MarketState Reducer StateCanonical Ordering.

Module Replay.
Import Reducer(ReducerContext, ctx_trading_date, TransitionReceipt).

Definition REPLAY_ENGINE_VERSION : Z := 1.

(** ** Context windows and the clock *)

Record ReplayContextWindow : Set := mk_window {
  start : MatchTime.MatchTime; end_exclusive : MatchTime.MatchTime; context : ReducerContext }.
Inductive ReplayContextWindowError : Set := InvalidRange.

Definition new_window (start end_exclusive : MatchTime.MatchTime) (context : ReducerContext) :
    result ReplayContextWindowError ReplayContextWindow :=
  reject bool_decide (cmp start end_exclusive ≠ Lt) with InvalidRange;;
  Ok (mk_window start end_exclusive context).

Definition contains (w : ReplayContextWindow) (t : MatchTime.MatchTime) : bool :=
  bool_decide (cmp (start w) t ≠ Gt) && bool_decide (cmp t (end_exclusive w) = Lt).

Inductive ReplayClock : Set := Unstarted | At (match_time : MatchTime.MatchTime) (event_ordinal : Z).
Definition event_ordinal (c : ReplayClock) : Z := match c with Unstarted => 0 | At _ n => n end.
Definition match_time (c : ReplayClock) : option MatchTime.MatchTime :=
  match c with Unstarted => None | At t _ => Some t end.
#[global] Instance ReplayClock_eq_dec : EqDecision ReplayClock.
Proof. solve_decision. Defined.

Inductive ReplayError : Set :=
| EmptyUniverse | DuplicateInstrument | ReducerConfigurationMismatch | InvalidContextSchedule
| EventOutsideContextSchedule (instrument : Instrument.InstrumentId) (match_time : MatchTime.MatchTime)
| StateTradingDateMismatch | ReplayAlreadyStarted | InstrumentOutsideUniverse
| OrderingE (e : Ordering.OrderingError) | CanonicalEncoding (e : Writer.CanonicalEncodingError)
| GlobalOrderingRegression | EventFingerprintCollision | EventOrdinalOverflow
| StateTransition (e : Reducer.StateTransitionError)
| FinalStateEncoding (e : StateCanonical.FinalStateEncodingError)
| PlanOutsideUniverse | PlanTradingDateMismatch
| StreamOpen (text : string) | Stream (text : string) | Callback (text : string).

Record EventOccurrence : Set := mk_occurrence {
  run_event_ordinal : Z; ordering_key : Ordering.OrderingKey;
  event_fingerprint : list Z; instrument_state_version : Z }.
Record CoreCommit : Set := mk_commit { occurrence : EventOccurrence; transition : TransitionReceipt }.

(** ** The core *)

Abbreviation ByInstrument V := (gmap Instrument.InstrumentId V).

Record ReplayCore : Set := mk_core {
  states : ByInstrument Model.MarketState;
  reducers : ByInstrument Profile.MarketStateProfile;
  reducer_contexts : ByInstrument ReducerContext;
  reducer_context_windows : ByInstrument (list ReplayContextWindow);
  clock : ReplayClock;
  last_ordering_key : option Ordering.OrderingKey;
  last_canonical_event : option (list Z);
  event_stream : Checksum.ReplayEventStreamHasher;
  first_match_time : option MatchTime.MatchTime }.

(** [BTreeMap] from a [Vec] of pairs: a later pair replaces an earlier one. *)
Definition collect_map {V} (l : list (Instrument.InstrumentId * V)) : ByInstrument V :=
  foldl (λ m '(i, v), <[i := v]> m) ∅ l.

Definition insert_state (m : ByInstrument Model.MarketState) (s : Model.MarketState) :
    result ReplayError (ByInstrument Model.MarketState) :=
  reject bool_decide (is_Some (m !! Model.instrument s)) with DuplicateInstrument;;
  Ok (<[Model.instrument s := s]> m).

Definition overlaps : ReplayContextWindow * ReplayContextWindow → bool :=
  λ '(w1, w2), bool_decide (cmp (end_exclusive w1) (start w2) = Gt).

Definition insert_schedule {A B C} (by_instrument : ByInstrument A) (reducers : ByInstrument B)
    (contexts : ByInstrument C) (m : ByInstrument (list ReplayContextWindow))
    (schedule : Instrument.InstrumentId * list ReplayContextWindow) :
    result ReplayError (ByInstrument (list ReplayContextWindow)) :=
  let '(i, windows) := schedule in
  reject negb (bool_decide (is_Some (by_instrument !! i))) || negb (bool_decide (is_Some (reducers !! i)))
      || negb (bool_decide (is_Some (contexts !! i)))
    with ReducerConfigurationMismatch;;
  let windows := sort_on start windows in
  reject existsb overlaps (windows2 windows) with InvalidContextSchedule;;
  reject bool_decide (is_Some (m !! i)) with InvalidContextSchedule;;
  Ok (<[i := windows]> m).

Definition new_multi_with_schedules (states : list Model.MarketState)
    (reducers : list (Instrument.InstrumentId * Profile.MarketStateProfile))
    (contexts : list (Instrument.InstrumentId * ReducerContext))
    (schedules : list (Instrument.InstrumentId * list ReplayContextWindow)) : result ReplayError ReplayCore :=
  reject bool_decide (states = []) with EmptyUniverse;;
  by_instrument ← try_fold insert_state ∅ states;
  let reducer_count := length reducers in
  let context_count := length contexts in
  let reducers := collect_map reducers in
  let contexts := collect_map contexts in
  reject negb (bool_decide (size reducers = size by_instrument)) || negb (bool_decide (reducer_count = size reducers))
      || negb (bool_decide (size contexts = size by_instrument)) || negb (bool_decide (context_count = size contexts))
      || existsb (λ i, negb (bool_decide (is_Some (reducers !! i))) || negb (bool_decide (is_Some (contexts !! i))))
           (btree_keys by_instrument)
    with ReducerConfigurationMismatch;;
  reject existsb (λ '(i, s), match contexts !! i with
                             | None => true
                             | Some c => bool_decide (ctx_trading_date c ≠ Model.trading_date s)
                             end) (btree_entries by_instrument)
    with StateTradingDateMismatch;;
  windows ← try_fold (insert_schedule by_instrument reducers contexts) ∅ schedules;
  Ok (mk_core by_instrument reducers contexts windows Unstarted None None Checksum.new None).

Definition new_multi (states : list Model.MarketState)
    (reducers : list (Instrument.InstrumentId * Profile.MarketStateProfile))
    (contexts : list (Instrument.InstrumentId * ReducerContext)) : result ReplayError ReplayCore :=
  new_multi_with_schedules states reducers contexts [].

Definition new (states : list Model.MarketState) (reducer : Profile.MarketStateProfile) (context : ReducerContext) :
    result ReplayError ReplayCore :=
  let contexts := (λ s, (Model.instrument s, context)) <$> states in
  let reducers := (λ s, (Model.instrument s, reducer)) <$> states in
  new_multi states reducers contexts.

Definition fork_unstarted (c : ReplayCore) : result ReplayError ReplayCore :=
  reject bool_decide (clock c ≠ Unstarted) with ReplayAlreadyStarted;;
  new_multi_with_schedules (btree_values (states c)) (btree_entries (reducers c)) (btree_entries (reducer_contexts c))
    (btree_entries (reducer_context_windows c)).

Definition state (c : ReplayCore) (i : Instrument.InstrumentId) : option Model.MarketState := states c !! i.
Definition processed_prefix_checksum {B : Blake3} (c : ReplayCore) : list Z := Checksum.checksum (event_stream c).

Definition validate_global_order (c : ReplayCore) (current : Ordering.OrderingKey) (canonical : list Z) :
    result ReplayError () :=
  match last_ordering_key c with
  | None => Ok ()
  | Some previous =>
      match cmp current previous with
      | Lt => Err GlobalOrderingRegression
      | Eq => if bool_decide (last_canonical_event c ≠ Some canonical) then Err EventFingerprintCollision else Ok ()
      | Gt => Ok ()
      end
  end.

Definition context_for_event (c : ReplayCore) (i : Instrument.InstrumentId) (t : MatchTime.MatchTime) :
    option ReducerContext :=
  match reducer_context_windows c !! i with
  | Some windows => context <$> List.find (λ w, contains w t) windows
  | None => reducer_contexts c !! i
  end.

Definition has_scheduled_trading_date (c : ReplayCore) (i : Instrument.InstrumentId) (d : TradingDate.TradingDate) : bool :=
  match reducer_context_windows c !! i with
  | Some windows => existsb (λ w, bool_decide (ctx_trading_date (context w) = d)) windows
  | None => false
  end.

Definition with_states (m : ByInstrument Model.MarketState) (c : ReplayCore) : ReplayCore :=
  mk_core m (reducers c) (reducer_contexts c) (reducer_context_windows c) (clock c) (last_ordering_key c)
    (last_canonical_event c) (event_stream c) (first_match_time c).

(** The bookkeeping after a committed transition. *)
Definition record_event (e : Event.DomainEvent) (ordinal : Z) (key : Ordering.OrderingKey)
    (prepared : Checksum.PreparedChecksumRecord) (c : ReplayCore) : ReplayCore :=
  mk_core (states c) (reducers c) (reducer_contexts c) (reducer_context_windows c)
    (At (Event.match_time e) ordinal) (Some key) (Some (Checksum.canonical prepared))
    (Checksum.append_prepared prepared (event_stream c))
    (Some (default (Event.match_time e) (first_match_time c))).

Section core.
Context {B : Blake3}.

(** The transition: in place for an event of the state's own day, in a fresh
    state, inserted once committed, for an event of another day. *)
Definition transition_state (c : ReplayCore) (reducer : Profile.MarketStateProfile) (e : Event.DomainEvent)
    (ctx : ReducerContext) : result ReplayError TransitionReceipt * ByInstrument Model.MarketState :=
  let i := Event.instrument e in
  let update s :=
    match Reducer.propose reducer s e ctx with
    | Err err => (Err (StateTransition err), s)
    | Ok p => let '(r, s') := Reducer.commit s p in (map_err StateTransition r, s')
    end in
  match states c !! i with
  | Some s =>
      if bool_decide (Model.trading_date s = Event.trading_date e) then
        let '(r, s') := update s in (r, <[i := s']> (states c))
      else
        match update (Model.new i (Event.trading_date e)) with
        | (Err err, _) => (Err err, states c)
        | (Ok r, s') => (Ok r, <[i := s']> (states c))
        end
  | None => (Err InstrumentOutsideUniverse, states c)
  end.

(** What [apply_prepared_ordered] checks before the transition: the checksum
    record, the next ordinal, the event's context and its reducer. *)
Definition prepare_commit (c : ReplayCore) (e : Event.DomainEvent) (key : Ordering.OrderingKey) (canonical : list Z) :
    result ReplayError (Checksum.PreparedChecksumRecord * Z * ReducerContext * Profile.MarketStateProfile) :=
  prepared ← map_err CanonicalEncoding (Checksum.prepare_canonical canonical);
  _ ← validate_global_order c key (Checksum.canonical prepared);
  reject negb (bool_decide (is_Some (states c !! Event.instrument e))) with InstrumentOutsideUniverse;;
  ordinal ← ok_or (to_u64 (event_ordinal (clock c) + 1)) EventOrdinalOverflow;
  ctx ← ok_or (context_for_event c (Event.instrument e) (Event.match_time e))
          (EventOutsideContextSchedule (Event.instrument e) (Event.match_time e));
  reducer ← ok_or (reducers c !! Event.instrument e) ReducerConfigurationMismatch;
  Ok (prepared, ordinal, ctx, reducer).

Definition apply_prepared_ordered (c : ReplayCore) (e : Event.DomainEvent) (key : Ordering.OrderingKey)
    (canonical : list Z) : result ReplayError CoreCommit * ReplayCore :=
  match prepare_commit c e key canonical with
  | Err err => (Err err, c)
  | Ok (prepared, ordinal, ctx, reducer) =>
      let '(r, states') := transition_state c reducer e ctx in
      let c := with_states states' c in
      match r with
      | Err err => (Err err, c)
      | Ok transition =>
          (Ok (mk_commit (mk_occurrence ordinal key (Ordering.event_fingerprint key)
                            (Reducer.receipt_new_version transition)) transition),
           record_event e ordinal key prepared c)
      end
  end.

Definition apply_ordered (c : ReplayCore) (e : Event.DomainEvent) : result ReplayError CoreCommit * ReplayCore :=
  match map_err OrderingE (Ordering.for_event_and_canonical e) with
  | Err err => (Err err, c)
  | Ok (key, canonical) => apply_prepared_ordered c e key canonical
  end.

(** The loop of [replay] over ordered events. *)
Fixpoint apply_all (c : ReplayCore) (events : list Event.DomainEvent) : result ReplayError () * ReplayCore :=
  match events with
  | [] => (Ok (), c)
  | e :: events =>
      match apply_ordered c e with
      | (Ok _, c) => apply_all c events
      | (Err err, c) => (Err err, c)
      end
  end.

Definition replay (c : ReplayCore) (events : list Event.DomainEvent) : result ReplayError () * ReplayCore :=
  match map_err OrderingE (Ordering.order_events events) with
  | Err err => (Err err, c)
  | Ok ordered => apply_all c ordered
  end.

Record ReplaySummary : Set := mk_summary {
  event_count : Z; summary_first_match_time : option MatchTime.MatchTime;
  summary_last_match_time : option MatchTime.MatchTime;
  event_checksum : list Z; final_state_checksum : list Z }.
Record CompletedReplay : Set := mk_completed {
  completed_states : ByInstrument Model.MarketState; summary : ReplaySummary }.

Definition complete (c : ReplayCore) : result ReplayError CompletedReplay :=
  let event_checksum := Checksum.checksum (event_stream c) in
  final_state_checksum ←
    map_err FinalStateEncoding (StateCanonical.final_state_checksum (btree_values (states c)));
  Ok (mk_completed (states c)
       (mk_summary (Checksum.event_count (event_stream c)) (first_match_time c) (match_time (clock c))
          event_checksum final_state_checksum)).
End core.

(** ** Streams

    A loop over streams may run for ever, so it takes fuel; [Panic] is the
    [expect] on a merge head. *)

Class ErrorText (E : Type) := to_string : E → string.

Inductive Outcome (A : Type) : Type := Done (a : A) | Panic | OutOfFuel.
Arguments Done {A} a.
Arguments Panic {A}.
Arguments OutOfFuel {A}.

Section streams.
Context {B : Blake3} {F S E : Type} `{!Plan.EventStream S E, !Plan.ReplayStreamFactory F S E, !ErrorText E}.

Definition next_event (stream : S) : result ReplayError (option Event.DomainEvent) * S :=
  let '(r, stream) := Plan.next_event stream in (map_err (Stream ∘ to_string) r, stream).
Definition open (factory : F) (b : Plan.ReplayStreamBinding) : result ReplayError S * F :=
  let '(r, factory) := Plan.open factory b in (map_err (StreamOpen ∘ to_string) r, factory).

Fixpoint replay_stream (fuel : nat) (c : ReplayCore) (stream : S) :
    Outcome (result ReplayError () * ReplayCore * S) :=
  match fuel with
  | O => OutOfFuel
  | Datatypes.S fuel =>
      match next_event stream with
      | (Err err, stream) => Done (Err err, c, stream)
      | (Ok None, stream) => Done (Ok (), c, stream)
      | (Ok (Some event), stream) =>
          match apply_ordered c event with
          | (Err err, c) => Done (Err err, c, stream)
          | (Ok _, c) => replay_stream fuel c stream
          end
      end
  end.

Definition replay_frozen (fuel : nat) (c : ReplayCore) (plan : Plan.ReplayPlan) (factory : F) :
    Outcome (result ReplayError () * ReplayCore * F) :=
  match Plan.bindings plan with
  | [] => Panic
  | binding :: _ =>
      match states c !! Plan.instrument binding with
      | None => Done (Err PlanOutsideUniverse, c, factory)
      | Some s =>
          if bool_decide (Model.trading_date s ≠ Plan.trading_date binding)
          then Done (Err PlanTradingDateMismatch, c, factory)
          else
            match open factory binding with
            | (Err err, factory) => Done (Err err, c, factory)
            | (Ok stream, factory) =>
                match replay_stream fuel c stream with
                | Done (r, c, _) => Done (r, c, factory)
                | Panic => Panic
                | OutOfFuel => OutOfFuel
                end
            end
      end
  end.

(** *** The merge *)

Definition Head : Type := option (Event.DomainEvent * list Z).
Definition Pending : Type := list (Ordering.OrderingKey * nat).

(** [BinaryHeap<Reverse<_>>]: [push] in any order, [pop] the least entry. *)
Definition push (x : Ordering.OrderingKey * nat) (pending : Pending) : Pending := x :: pending.
Definition pending_key (x : Ordering.OrderingKey * nat) := (x.1, Z.of_nat x.2).
Definition pop (pending : Pending) : option ((Ordering.OrderingKey * nat) * Pending) :=
  match sort_on pending_key pending with [] => None | x :: rest => Some (x, rest) end.

Fixpoint open_streams (c : ReplayCore) (factory : F) (bindings : list Plan.ReplayStreamBinding) :
    result ReplayError (list S) * F :=
  match bindings with
  | [] => (Ok [], factory)
  | binding :: bindings =>
      match states c !! Plan.instrument binding with
      | None => (Err PlanOutsideUniverse, factory)
      | Some s =>
          if bool_decide (Model.trading_date s ≠ Plan.trading_date binding) &&
             negb (has_scheduled_trading_date c (Plan.instrument binding) (Plan.trading_date binding))
          then (Err PlanTradingDateMismatch, factory)
          else
            match open factory binding with
            | (Err err, factory) => (Err err, factory)
            | (Ok stream, factory) =>
                match open_streams c factory bindings with
                | (Ok streams, factory) => (Ok (stream :: streams), factory)
                | (Err err, factory) => (Err err, factory)
                end
            end
      end
  end.

(** Reads the next event of one stream into its head. *)
Record Merge : Type := mk_merge { streams : list S; heads : list Head; pending : Pending }.

Definition refill (m : Merge) (index : nat) (stream : S) : result ReplayError () * Merge :=
  match next_event stream with
  | (Err err, stream) => (Err err, mk_merge (<[index := stream]> (streams m)) (heads m) (pending m))
  | (Ok None, stream) => (Ok (), mk_merge (<[index := stream]> (streams m)) (heads m) (pending m))
  | (Ok (Some event), stream) =>
      match map_err OrderingE (Ordering.for_event_and_canonical event) with
      | Err err => (Err err, mk_merge (<[index := stream]> (streams m)) (heads m) (pending m))
      | Ok (key, canonical) =>
          (Ok (), mk_merge (<[index := stream]> (streams m)) (<[index := Some (event, canonical)]> (heads m))
                    (push (key, index) (pending m)))
      end
  end.

Fixpoint prime (m : Merge) (index : nat) (opened : list S) : result ReplayError () * Merge :=
  match opened with
  | [] => (Ok (), m)
  | stream :: opened =>
      match refill m index stream with
      | (Ok _, m) => prime m (index + 1) opened
      | (Err err, m) => (Err err, m)
      end
  end.

(** The callback gets the core by [&mut]. *)
Context {K : Type} (callback : K → ReplayCore → Event.DomainEvent → CoreCommit → result string () * (K * ReplayCore)).

Fixpoint merge_loop (fuel : nat) (c : ReplayCore) (k : K) (m : Merge) : Outcome (result ReplayError () * ReplayCore * K) :=
  match fuel with
  | O => OutOfFuel
  | Datatypes.S fuel =>
      match pop (pending m) with
      | None => Done (Ok (), c, k)
      | Some ((key, selected), rest) =>
          match mjoin (heads m !! selected), streams m !! selected with
          | Some (event, canonical), Some stream =>
              let m := mk_merge (streams m) (<[selected := None]> (heads m)) rest in
              match apply_prepared_ordered c event key canonical with
              | (Err err, c) => Done (Err err, c, k)
              | (Ok commit, c) =>
                  match callback k c event commit with
                  | (Err text, (k, c)) => Done (Err (Callback text), c, k)
                  | (Ok _, (k, c)) =>
                      match refill m selected stream with
                      | (Err err, _) => Done (Err err, c, k)
                      | (Ok _, m) => merge_loop fuel c k m
                      end
                  end
              end
          | _, _ => Panic
          end
      end
  end.

Definition replay_frozen_multi_with (fuel : nat) (c : ReplayCore) (plan : Plan.ReplayPlan) (factory : F) (k : K) :
    Outcome (result ReplayError () * ReplayCore * (F * K)) :=
  match open_streams c factory (Plan.bindings plan) with
  | (Err err, factory) => Done (Err err, c, (factory, k))
  | (Ok opened, factory) =>
      match prime (mk_merge opened (replicate (length opened) None) []) 0 opened with
      | (Err err, _) => Done (Err err, c, (factory, k))
      | (Ok _, m) =>
          match merge_loop fuel c k m with
          | Done (r, c, k) => Done (r, c, (factory, k))
          | Panic => Panic
          | OutOfFuel => OutOfFuel
          end
      end
  end.
End streams.

Definition no_callback (k : ()) (c : ReplayCore) (e : Event.DomainEvent) (r : CoreCommit) : result string () * (() * ReplayCore) :=
  (Ok (), (k, c)).

Definition replay_frozen_multi {B : Blake3} {F S E : Type} `{!Plan.EventStream S E, !Plan.ReplayStreamFactory F S E, !ErrorText E}
    (fuel : nat) (c : ReplayCore) (plan : Plan.ReplayPlan) (factory : F) : Outcome (result ReplayError () * ReplayCore * (F * ())) :=
  replay_frozen_multi_with no_callback fuel c plan factory ().

End Replay.
