(* ===== verification/ReplayLaws.v ===== *)
(** The theorems of the replay core: a failed event leaves no trace, a run
    accounts for exactly the events it committed, and the reducer's order
    checks cannot fail behind the replay order. *)
From S2P Require Import Prelude Order Text Numeric Quantity Calendar Book Identity Signal Codec Values Event.
From S2P Require Import EventCodec MarketState Reducer ReducerLaws StateCanonical Ordering OrderingLaws Replay.

Module ReplayLaws.
Import Replay.

Section laws.
Context {B : Blake3}.

(** ** One event *)

(** The state an event's transition starts from. *)
Definition target_state (c : ReplayCore) (e : Event.DomainEvent) : option Model.MarketState :=
  s ← states c !! Event.instrument e;
  Some (if bool_decide (Model.trading_date s = Event.trading_date e) then s
        else Model.new (Event.instrument e) (Event.trading_date e)).

(** Everything a committed event went through, and the core it leaves. *)
Record committed (c : ReplayCore) (e : Event.DomainEvent) (r : CoreCommit) (c' : ReplayCore)
    (key : Ordering.OrderingKey) (canonical : list Z) (s s' : Model.MarketState) : Prop := {
  com_key : Ordering.for_event_and_canonical e = Ok (key, canonical);
  com_length : is_u32 (zlen canonical);
  com_order : validate_global_order c key canonical = Ok ();
  com_target : target_state c e = Some s;
  com_ordinal : 0 ≤ event_ordinal (clock c) + 1 ≤ u64_max;
  com_apply : ∃ ctx reducer, context_for_event c (Event.instrument e) (Event.match_time e) = Some ctx ∧
    reducers c !! Event.instrument e = Some reducer ∧ Reducer.apply reducer s e ctx = (Ok (transition r), s');
  com_core : c' = record_event e (event_ordinal (clock c) + 1) key (Checksum.mk_record canonical (zlen canonical))
    (with_states (<[Event.instrument e := s']> (states c)) c);
  com_occurrence : occurrence r = mk_occurrence (event_ordinal (clock c) + 1) key (Ordering.event_fingerprint key)
    (Reducer.receipt_new_version (transition r)) }.

Lemma with_states_id c i s : states c !! i = Some s → with_states (<[i := s]> (states c)) c = c.
Proof. intros H. destruct c. unfold with_states. simpl in *. by rewrite insert_id. Qed.
Lemma with_states_same c : with_states (states c) c = c.
Proof. by destruct c. Qed.

(** The transition is the reducer's [apply] on the target state. *)
Lemma transition_state_apply c reducer e ctx :
  transition_state c reducer e ctx =
  match target_state c e with
  | None => (Err InstrumentOutsideUniverse, states c)
  | Some s => match Reducer.apply reducer s e ctx with
              | (Err err, _) => (Err (StateTransition err), states c)
              | (Ok r, s') => (Ok r, <[Event.instrument e := s']> (states c))
              end
  end.
Proof.
  unfold transition_state, target_state. destruct (states c !! Event.instrument e) as [s|] eqn:Hs; simpl; [|done].
  case_bool_decide.
  - unfold Reducer.apply. destruct (Reducer.propose reducer s e ctx) as [p|err]; [|by rewrite insert_id].
    unfold Reducer.commit. destruct (_ || _); [by rewrite insert_id|done].
  - unfold Reducer.apply. destruct (Reducer.propose _ _ e ctx) as [p|err]; [|done].
    unfold Reducer.commit. by destruct (_ || _).
Qed.

Lemma prepare_commit_Ok c e key canonical prepared ordinal ctx reducer :
  prepare_commit c e key canonical = Ok (prepared, ordinal, ctx, reducer) ↔
  is_u32 (zlen canonical) ∧ prepared = Checksum.mk_record canonical (zlen canonical) ∧
  validate_global_order c key canonical = Ok () ∧ is_Some (states c !! Event.instrument e) ∧
  0 ≤ event_ordinal (clock c) + 1 ≤ u64_max ∧ ordinal = event_ordinal (clock c) + 1 ∧
  context_for_event c (Event.instrument e) (Event.match_time e) = Some ctx ∧
  reducers c !! Event.instrument e = Some reducer.
Proof.
  unfold prepare_commit, Checksum.prepare_canonical. split.
  - intros H. apply bind_Ok in H as (p & Hp & H). apply bind_Ok in H as ([] & Ho & H).
    destruct (bool_decide (is_Some (states c !! Event.instrument e))) eqn:Hs; [|done].
    apply bool_decide_eq_true in Hs. cbn [negb] in H.
    apply bind_Ok in H as (n & Hn & H). apply bind_Ok in H as (x & Hx & H). apply bind_Ok in H as (y & Hy & [= <- <- <- <-]).
    unfold to_u32, to_u64, ok_or in *.
    destruct (checked 0 u32_max _) as [?|] eqn:Hl in Hp; [|done]. apply checked_Some in Hl as [-> Hl].
    injection Hp as <-. destruct (checked 0 u64_max _) as [?|] eqn:Hu in Hn; [|done].
    apply checked_Some in Hu as [-> Hu]. injection Hn as <-.
    destruct (context_for_event _ _ _); [|done]. injection Hx as ->.
    destruct (reducers c !! _); [|done]. injection Hy as ->. done.
  - intros (Hl & -> & Ho & Hs & Hu & -> & Hx & Hy). unfold to_u32, to_u64.
    rewrite (checked_in _ _ (zlen canonical)) by done. cbn. rewrite Ho. simpl.
    rewrite bool_decide_true by done. cbn [negb]. rewrite checked_in by done. simpl. by rewrite Hx, Hy.
Qed.

Lemma apply_ordered_cases c e :
  (∃ err, apply_ordered c e = (Err err, c)) ∨
  (∃ r c' key canonical s s', apply_ordered c e = (Ok r, c') ∧ committed c e r c' key canonical s s').
Proof.
  unfold apply_ordered. destruct (Ordering.for_event_and_canonical e) as [[key canonical]|] eqn:Hk; [|left; by eexists].
  unfold map_err, apply_prepared_ordered.
  destruct (prepare_commit c e key canonical) as [[[[prepared ordinal] ctx] reducer]|] eqn:Hp; [|left; by eexists].
  apply prepare_commit_Ok in Hp as (Hl & -> & Ho & Hs & Hu & -> & Hx & Hy).
  rewrite transition_state_apply. destruct (target_state c e) as [s|] eqn:Ht;
    [|left; eexists; by rewrite with_states_same].
  destruct (Reducer.apply reducer s e ctx) as [[t|err] s'] eqn:Ha; [right|left; eexists; by rewrite with_states_same].
  do 6 eexists. split; [done|]. split; try done. by exists ctx, reducer.
Qed.

Lemma apply_ordered_Ok c e r c' : apply_ordered c e = (Ok r, c') →
  ∃ key canonical s s', committed c e r c' key canonical s s'.
Proof.
  intros H. destruct (apply_ordered_cases c e) as [[err H']|(r1 & c1 & key & can & s & s' & H' & Hc)]; [congruence|].
  rewrite H in H'. injection H' as -> ->. eauto.
Qed.

(** What the replay order demands of the next key. *)
Lemma validate_global_order_Ok c key canonical : validate_global_order c key canonical = Ok () ↔
  ∀ previous, last_ordering_key c = Some previous →
    ord_le previous key ∧ (key = previous → last_canonical_event c = Some canonical).
Proof.
  unfold validate_global_order. destruct (last_ordering_key c) as [p|]; [|done]. unfold ord_le. split.
  - intros H ? [= <-]. rewrite (cmp_antisym key p). destruct (cmp key p) eqn:E; [|done|].
    + case_bool_decide; [done|]. split; [done|]. intros _. by destruct (decide (last_canonical_event c = Some canonical)).
    + split; [done|]. intros ->. by rewrite cmp_refl in E.
  - intros H. destruct (H p eq_refl) as [Hle Hc]. rewrite (cmp_antisym key p) in Hle.
    destruct (cmp key p) eqn:E; [|done|done]. apply cmp_eq_iff in E. by rewrite bool_decide_false by auto.
Qed.

(** A failing event leaves the core exactly as it was; a committed one
    takes the next ordinal, is not ordered before the previous event, advances
    clock, checksum and the state of its own instrument, and nothing else. *)
Theorem apply_ordered_spec c e :
  match apply_ordered c e with
  | (Err _, c') => c' = c
  | (Ok r, c') =>
      run_event_ordinal (occurrence r) = event_ordinal (clock c) + 1 ∧
      clock c' = At (Event.match_time e) (event_ordinal (clock c) + 1) ∧ event_ordinal (clock c') ≤ u64_max ∧
      Ordering.for_event e = Ok (ordering_key (occurrence r)) ∧ last_ordering_key c' = Some (ordering_key (occurrence r)) ∧
      (∀ previous, last_ordering_key c = Some previous → ord_le previous (ordering_key (occurrence r))) ∧
      (∃ s', states c' = <[Event.instrument e := s']> (states c) ∧
        Model.state_version s' = instrument_state_version (occurrence r) ∧ Model.trading_date s' = Event.trading_date e) ∧
      Checksum.event_count (event_stream c') = Checksum.event_count (event_stream c) + 1 ∧
      first_match_time c' = Some (default (Event.match_time e) (first_match_time c)) ∧
      reducers c' = reducers c ∧ reducer_contexts c' = reducer_contexts c ∧
      reducer_context_windows c' = reducer_context_windows c
  end.
Proof.
  destruct (apply_ordered_cases c e) as [[err ->]|(r & c' & key & can & s & s' & -> & H)]; [done|].
  destruct H as [Hk _ Ho Ht Hu (ctx & reducer & _ & _ & Ha) -> ->].
  pose proof (proj1 (validate_global_order_Ok c key can) Ho) as Hord.
  apply ReducerLaws.apply_accepts in Ha.
  pose proof (ReducerLaws.accepts_identity _ _ _ _ _ _ Ha) as [_ Hd].
  pose proof (ReducerLaws.acc_receipt _ _ _ _ _ _ Ha) as (_ & _ & Hv).
  apply ReducerLaws.accepts_last_event in Ha as [_ Hv'].
  cbn [occurrence run_event_ordinal ordering_key instrument_state_version clock record_event with_states last_ordering_key
    event_stream first_match_time states reducers reducer_contexts reducer_context_windows event_ordinal].
  split_and!; try done; [lia|unfold Ordering.for_event; by rewrite Hk|intros p Hp; apply (Hord p Hp)|].
  exists s'. split_and!; [done|congruence|]. rewrite Hd.
  unfold target_state in Ht. destruct (states c !! _) as [s0|]; simplify_eq/=. by case_bool_decide.
Qed.

(** ** A run of events *)

(** What every constructor gives. *)
Definition fresh (c : ReplayCore) : Prop :=
  clock c = Unstarted ∧ last_ordering_key c = None ∧ last_canonical_event c = None ∧
  event_stream c = Checksum.new ∧ first_match_time c = None.

Lemma apply_all_cons c e es c' : apply_all c (e :: es) = (Ok (), c') →
  ∃ r c1, apply_ordered c e = (Ok r, c1) ∧ apply_all c1 es = (Ok (), c').
Proof. simpl. destruct (apply_ordered c e) as [[r|] c1]; [eauto|done]. Qed.

Lemma apply_all_sorted c es c' : apply_all c es = (Ok (), c') →
  StronglySorted OrderingLaws.event_le es ∧
  ∀ e p, e ∈ es → last_ordering_key c = Some p → ∃ k, Ordering.for_event e = Ok k ∧ ord_le p k.
Proof.
  revert c. induction es as [|e es IH]; intros c H; [split; [constructor|]; by intros e p ?%not_elem_of_nil|].
  apply apply_all_cons in H as (r & c1 & He & H). apply IH in H as [Hs Hle].
  apply apply_ordered_Ok in He as (key & can & s & s' & [Hk _ Ho _ _ _ -> _]).
  assert (Hfe : Ordering.for_event e = Ok key) by (unfold Ordering.for_event; by rewrite Hk).
  pose proof (proj1 (validate_global_order_Ok c key can) Ho) as Hord. split.
  - constructor; [done|]. apply Forall_forall. intros e' He'%list_elem_of_In.
    destruct (Hle e' key He' eq_refl) as (k & Hk' & Hkk). by exists key, k.
  - intros e' p [->|He']%elem_of_cons Hp; [exists key; split; [done|by apply Hord]|].
    destruct (Hle e' key He' eq_refl) as (k & Hk' & Hkk). exists k. split; [done|].
    etrans; [by apply Hord|done].
Qed.

Lemma apply_all_accounts c es c' : apply_all c es = (Ok (), c') →
  event_ordinal (clock c') = event_ordinal (clock c) + zlen es ∧
  first_match_time c' = (if first_match_time c is Some t then Some t else Event.match_time <$> head es) ∧
  match_time (clock c') = (if list.last es is Some e then Some (Event.match_time e) else match_time (clock c)) ∧
  ∃ encs, Forall2 (λ e b, Event.to_canonical_bytes e = Ok b) es encs ∧
    try_fold OrderingLaws.absorb (event_stream c) encs = Ok (event_stream c').
Proof.
  revert c. induction es as [|e es IH]; intros c H.
  - injection H as <-. unfold zlen. simpl. split_and!; [lia|by destruct (first_match_time c)|done|].
    exists []. by split; [constructor|].
  - apply apply_all_cons in H as (r & c1 & He & H). apply IH in H as (Hn & Hf & Hl & encs & Hencs & Hfold).
    apply apply_ordered_Ok in He as (key & can & s & s' & [Hk Hlen Ho _ _ _ -> _]).
    cbn [clock record_event event_ordinal first_match_time match_time event_stream with_states] in *.
    split_and!.
    + rewrite Hn. unfold zlen. simpl. lia.
    + rewrite Hf. by destruct (first_match_time c).
    + rewrite Hl. destruct es as [|e2 es]; [done|]. rewrite last_cons_cons.
      destruct (list.last (e2 :: es)) eqn:E; [done|by apply last_None in E].
    + exists (can :: encs). apply OrderingLaws.for_event_and_canonical_Ok in Hk as [Hcan _].
      split; [by constructor|]. cbn [try_fold]. rewrite OrderingLaws.absorb_append by done. exact Hfold.
Qed.

(** A successful replay accounts for exactly its events: they are in replay
    order, the ordinal and the checksum's count are their number, the first
    and last match times are theirs, and the checksum absorbed the canonical
    bytes of each, in order. *)
Theorem replay_accounts c es c' : fresh c → apply_all c es = (Ok (), c') →
  StronglySorted OrderingLaws.event_le es ∧
  event_ordinal (clock c') = zlen es ∧ Checksum.event_count (event_stream c') = zlen es ∧
  first_match_time c' = Event.match_time <$> head es ∧
  match_time (clock c') = Event.match_time <$> list.last es ∧
  ∃ encs, Forall2 (λ e b, Event.to_canonical_bytes e = Ok b) es encs ∧
    try_fold OrderingLaws.absorb Checksum.new encs = Ok (event_stream c').
Proof.
  intros (Hc & _ & _ & He & Hf) H. pose proof (apply_all_sorted _ _ _ H) as [Hs _].
  apply apply_all_accounts in H as (Hn & Hft & Hl & encs & Hencs & Hfold). rewrite Hc, He, Hf in *.
  split_and!; [done|by rewrite Hn| |done|rewrite Hl; by destruct (list.last es)|by exists encs].
  apply OrderingLaws.absorb_all in Hfold as (_ & _ & ->). unfold zlen.
  by rewrite (Forall2_length Hencs).
Qed.

(** C36: two replays, of whatever cores, that end with equal stream checksums
    committed the same events in the same order, or the hash has a collision. *)
Theorem replay_checksum_identifies c1 c2 es1 es2 c1' c2' : fresh c1 → fresh c2 →
  Forall OrderingLaws.event_fits es1 → Forall OrderingLaws.event_fits es2 →
  apply_all c1 es1 = (Ok (), c1') → apply_all c2 es2 = (Ok (), c2') →
  processed_prefix_checksum c1' = processed_prefix_checksum c2' →
  es1 = es2 ∨ ∃ x y, x ≠ y ∧ blake3 x = blake3 y.
Proof.
  intros (_ & _ & _ & He1 & _) (_ & _ & _ & He2 & _) F1 F2
    (_ & _ & _ & encs1 & Hencs1 & Hfold1)%apply_all_accounts (_ & _ & _ & encs2 & Hencs2 & Hfold2)%apply_all_accounts Hc.
  rewrite He1 in Hfold1. rewrite He2 in Hfold2.
  destruct (OrderingLaws.absorbed_identifies _ _ _ _ Hfold1 Hfold2 Hc) as [<-|]; [left|by right].
  clear -Hencs1 Hencs2 F1 F2. revert es2 Hencs2 F2. induction Hencs1 as [|e1 b es1 encs H1 _ IH]; intros es2 Hencs2 F2;
    inversion Hencs2 as [|e2 b' es2' encs' H2 Hencs2']; subst; [done|].
  apply Forall_cons_iff in F1 as [[W1 L1] F1], F2 as [[W2 L2] F2]. f_equal; [|by apply IH].
  pose proof (L1 _ H1). apply EventCodec.frame_decode_encode in H1, H2; [congruence|done..].
Qed.

(** ** The replay order refines the order within an instrument *)

Lemma ord_le_fst {X Y} `{Ord X, Ord Y} (a1 a2 : X) (b1 b2 : Y) : ord_le (a1, b1) (a2, b2) → ord_le a1 a2.
Proof. unfold ord_le. rewrite cmp_pair. by destruct (cmp a1 a2). Qed.

Lemma phase_rank_agrees e rank : Ordering.phase_rank e = Ok rank → rank = Model.source_phase_for_event e.
Proof.
  unfold Ordering.phase_rank, Model.source_phase_for_event.
  destruct (Instrument.market _); [| |by intros [= <-]];
    (destruct (bool_decide _); [by intros [= <-]|]); unfold Ordering.realtime_rank, Model.realtime_phase;
    (destruct (Event.payload e); [by intros [= <-]|done| |by intros [= <-]|by intros [= <-]]);
    (destruct (_ && _); [by intros [= <-]|done]).
Qed.

Lemma order_agrees_lemma e1 e2 k1 k2 r1 r2 : Event.instrument e1 = Event.instrument e2 →
  Ordering.for_event e1 = Ok k1 → Ordering.for_event e2 = Ok k2 →
  Model.from_event e1 = Ok r1 → Model.from_event e2 = Ok r2 →
  cmp k1 k2 = Reducer.compare_within_instrument r1 r2.
Proof.
  assert (Hkey : ∀ e k r, Ordering.for_event e = Ok k → Model.from_event e = Ok r →
    k = Ordering.mk_key (Model.ref_match_time r) (Market.ordering_rank (Instrument.market (Event.instrument e)))
          (Instrument.symbol (Event.instrument e)) (Model.ref_source_format r) (Model.ref_source_phase r)
          (Event.kind_discriminant (Model.ref_event_kind r)) (Model.ref_source_sequence r) (Model.ref_event_fingerprint r)).
  { intros e k r Hk Hr. unfold Ordering.for_event in Hk.
    destruct (Ordering.for_event_and_canonical e) as [[k0 can]|] eqn:E; [|done]. injection Hk as ->.
    apply OrderingLaws.for_event_and_canonical_Ok in E as [Hcan E].
    unfold Ordering.for_event_with_fingerprint in E. apply bind_Ok in E as (rank & Hrank & [= <-]).
    apply phase_rank_agrees in Hrank as ->.
    unfold Model.from_event, Event.fingerprint in Hr. rewrite Hcan in Hr. by injection Hr as <-. }
  intros Hi H1 H2 R1 R2. rewrite (Hkey _ _ _ H1 R1), (Hkey _ _ _ H2 R2), Hi.
  unfold Reducer.compare_within_instrument. change (cmp r1 r2) with (cmp (Reducer.ref_key r1) (Reducer.ref_key r2)).
  change (cmp (A:=Ordering.OrderingKey)) with (λ a b : Ordering.OrderingKey, cmp (Ordering.key_fields a) (Ordering.key_fields b)).
  unfold Ordering.key_fields, Reducer.ref_key. cbn [Ordering.match_time Ordering.market_rank Ordering.symbol Ordering.source_format
    Ordering.source_phase_rank Ordering.event_kind_rank Ordering.source_sequence Ordering.event_fingerprint].
  rewrite !cmp_pair, !cmp_refl. done.
Qed.

(** For two events of one instrument, the replay order and the reducer's own
    order within an instrument are one order, though each is computed by its
    own code from its own key. *)
Theorem order_agrees e1 e2 k1 k2 r1 r2 : Event.instrument e1 = Event.instrument e2 →
  Ordering.for_event e1 = Ok k1 → Ordering.for_event e2 = Ok k2 →
  Model.from_event e1 = Ok r1 → Model.from_event e2 = Ok r2 →
  cmp k1 k2 = Reducer.compare_within_instrument r1 r2.
Proof. apply order_agrees_lemma. Qed.

(** ** The invariant of a core *)

Record core_wf (c : ReplayCore) : Prop := {
  wf_instrument : ∀ i s, states c !! i = Some s → Model.instrument s = i;
  wf_reducer : ∀ i, is_Some (states c !! i) → is_Some (reducers c !! i);
  wf_last : ∀ i s r, states c !! i = Some s → Model.last_event s = Some r →
    ∃ e k p, Event.instrument e = i ∧ Model.from_event e = Ok r ∧ Ordering.for_event e = Ok k ∧
      last_ordering_key c = Some p ∧ ord_le k p }.

Lemma commit_wf c e r c' key can s s' : core_wf c → committed c e r c' key can s s' → core_wf c'.
Proof.
  intros [Hi Hr Hl] [Hk _ Ho Ht _ (ctx & reducer & _ & Hred & Ha) -> _].
  pose proof (proj1 (validate_global_order_Ok c key can) Ho) as Hord.
  assert (Hs : Model.instrument s = Event.instrument e).
  { unfold target_state in Ht. destruct (states c !! _) as [s0|] eqn:E; simplify_eq/=. case_bool_decide; [by apply Hi|done]. }
  apply ReducerLaws.apply_accepts in Ha. pose proof (ReducerLaws.accepts_identity _ _ _ _ _ _ Ha) as [Hid _].
  pose proof (ReducerLaws.acc_ref _ _ _ _ _ _ Ha) as Href.
  pose proof (ReducerLaws.accepts_last_event _ _ _ _ _ _ Ha) as [Hlast _].
  assert (Hfe : Ordering.for_event e = Ok key) by (unfold Ordering.for_event; by rewrite Hk).
  split; cbn [states with_states record_event reducers last_ordering_key].
  - intros i x [[<- <-]|[_ Hx]]%lookup_insert_Some; [congruence|by apply Hi].
  - intros i [x [[<- _]|[_ Hx]]%lookup_insert_Some]; [by exists reducer|by apply Hr].
  - intros i x rx [[<- <-]|[_ Hx]]%lookup_insert_Some Hrx.
    + rewrite Hlast in Hrx. injection Hrx as <-. exists e, key, key. by split_and!.
    + destruct (Hl i x rx Hx Hrx) as (e0 & k0 & p & He0 & Hr0 & Hk0 & Hp & Hle). exists e0, k0, key.
      split_and!; [done..|]. etrans; [exact Hle|]. by apply Hord.
Qed.

Lemma apply_all_wf c es r c' : core_wf c → apply_all c es = (r, c') → core_wf c'.
Proof.
  revert c. induction es as [|e es IH]; intros c Hc H; [by injection H as _ <-|]. simpl in H.
  destruct (apply_ordered_cases c e) as [[err He]|(r1 & c1 & key & can & s & s' & He & Hcom)]; rewrite He in H.
  - by injection H as _ <-.
  - eapply IH; [|exact H]. by eapply commit_wf.
Qed.

(** Failures of the reducer's envelope that a core rules out. *)
Definition internal (err : ReplayError) : Prop :=
  match err with
  | ReducerConfigurationMismatch | FinalStateEncoding StateCanonical.DuplicateInstrument => True
  | StateTransition Reducer.InstrumentMismatch | StateTransition Reducer.MatchTimeRegression
  | StateTransition Reducer.OrderingRegression | StateTransition Reducer.StaleProposal => True
  | _ => False
  end.

(** A reducer step all of whose errors may reach the caller of a core. *)
Definition external {A} (r : result Reducer.StateTransitionError A) : Prop :=
  ∀ err, r = Err err → ¬ internal (StateTransition err).

Lemma external_bind {A C} (r : result Reducer.StateTransitionError A) (k : A → result Reducer.StateTransitionError C) :
  external r → (∀ a, r = Ok a → external (k a)) → external (r ≫= k).
Proof. intros Hr Hk. destruct r as [a|e]; [by apply Hk|]. intros err [= <-]. by apply Hr. Qed.
Lemma external_map_err {E A} (f : E → Reducer.StateTransitionError) (r : result E A) :
  (∀ e, ¬ internal (StateTransition (f e))) → external (map_err f r).
Proof. intros Hf. destruct r; intros err [= <-]. apply Hf. Qed.
Lemma external_Ok {A} (a : A) : external (Ok a).
Proof. by intros err. Qed.

Lemma external_volume profile o ev same d : external (Reducer.apply_volume_observation profile o ev same d).
Proof.
  destruct o as [|v| |raw]; try apply external_Ok. apply external_bind; [|intros; apply external_Ok].
  unfold Reducer.validate_volume. intros err H. repeat case_match; simplify_eq/=; tauto.
Qed.

Lemma external_shape e : external (Reducer.validate_realtime_shape e).
Proof. unfold Reducer.validate_realtime_shape. intros err H. repeat case_match; simplify_eq/=; tauto. Qed.

(** The envelope and the order check pass when the state's last event is not
    ordered after this one. *)
Lemma external_envelope profile s e ctx : Model.instrument s = Event.instrument e →
  (∀ p r, Model.last_event s = Some p → Model.from_event e = Ok r → ord_le p r) →
  is_ok (Model.from_event e) = true → external (Reducer.validate_envelope profile s e ctx).
Proof.
  intros Hi Hle Hok err. unfold Reducer.validate_envelope. rewrite bool_decide_false by (intros H; by apply H).
  destruct (bool_decide _ || bool_decide _); [intros [= <-] []|].
  destruct (negb _); [intros [= <-] []|].
  unfold Model.last_match_time. destruct (Model.last_event s) as [p|] eqn:Hp; [|done]. simpl.
  destruct (Model.from_event e) as [r|] eqn:Hr; [|done]. specialize (Hle p r eq_refl eq_refl).
  assert (Model.ref_match_time r = Event.match_time e) as Ht.
  { unfold Model.from_event in Hr. destruct (Event.fingerprint e); [|done]. by injection Hr as <-. }
  apply (ord_le_fst (X:=MatchTime.MatchTime)) in Hle. rewrite Ht in Hle.
  by rewrite bool_decide_false by by apply ord_not_lt.
Qed.

Lemma external_propose profile s e ctx : Model.instrument s = Event.instrument e →
  (∀ p r, Model.last_event s = Some p → Model.from_event e = Ok r → ord_le p r) →
  is_ok (Model.from_event e) = true → external (Reducer.propose profile s e ctx).
Proof.
  intros Hi Hle Hok. unfold Reducer.propose. apply external_bind; [by apply external_envelope|].
  intros _ _. apply external_bind; [apply external_map_err; simpl; tauto|]. intros _ _.
  apply external_bind; [apply external_shape|]. intros _ _.
  apply external_bind; [apply external_map_err; simpl; tauto|]. intros ev Hev.
  assert (Hr : Model.from_event e = Ok ev) by (destruct (Model.from_event e); [by injection Hev as ->|done]).
  apply external_bind.
  { destruct (Model.last_event s) as [p|]; [|apply external_Ok]. rewrite bool_decide_false; [apply external_Ok|].
    intros H. by apply (ord_not_le p ev) in H; auto. }
  intros _ _. apply external_bind; [destruct (to_u64 _); [apply external_Ok|intros err [= <-] []]|].
  intros v _. destruct (Reducer.cross_boundary s ctx ev) as [d0 action].
  apply external_bind; [|intros; apply external_Ok].
  destruct (Event.payload e); simpl; try apply external_Ok; apply external_volume.
Qed.


Lemma prepare_commit_external c e key canonical err : core_wf c →
  prepare_commit c e key canonical = Err err → ¬ internal err.
Proof.
  intros Hwf H. unfold prepare_commit in H. apply bind_Err in H as [H|(p & _ & H)].
  { destruct (Checksum.prepare_canonical canonical); [done|]. injection H as <-. by intros []. }
  apply bind_Err in H as [H|([] & _ & H)].
  { unfold validate_global_order in H. destruct (last_ordering_key c); [|done].
    destruct (cmp _ _); [case_bool_decide; [|done]| |done]; injection H as <-; by intros []. }
  destruct (bool_decide (is_Some (states c !! Event.instrument e))) eqn:Hs; [|injection H as <-; by intros []].
  apply bool_decide_eq_true, (wf_reducer _ Hwf) in Hs as [red Hs]. cbn [negb] in H.
  apply bind_Err in H as [H|(n & _ & H)]; [destruct (to_u64 _); [done|injection H as <-; by intros []]|].
  apply bind_Err in H as [H|(ctx & _ & H)]; [destruct (context_for_event _ _ _); [done|injection H as <-; by intros []]|].
  by rewrite Hs in H.
Qed.

Lemma apply_ordered_external c e err c' : core_wf c → apply_ordered c e = (Err err, c') → ¬ internal err.
Proof.
  intros Hwf. unfold apply_ordered.
  destruct (Ordering.for_event_and_canonical e) as [[key canonical]|] eqn:Hk; [|by intros [= <- _] []].
  unfold map_err, apply_prepared_ordered.
  destruct (prepare_commit c e key canonical) as [[[[prepared ordinal] ctx] reducer]|] eqn:Hp.
  - apply prepare_commit_Ok in Hp as (_ & -> & Ho & _ & _ & -> & _ & Hy).
    rewrite transition_state_apply. destruct (target_state c e) as [s|] eqn:Ht; [|by intros [= <- _] []].
    pose proof (proj1 (validate_global_order_Ok c key canonical) Ho) as Hord.
    assert (Hfe : Ordering.for_event e = Ok key) by (unfold Ordering.for_event; by rewrite Hk).
    assert (Hext : external (Reducer.propose reducer s e ctx)).
    { unfold target_state in Ht. destruct (states c !! _) as [s0|] eqn:E; simplify_eq/=.
      apply external_propose.
      - case_bool_decide; [by eapply wf_instrument|done].
      - intros p r Hlast Hr. case_bool_decide; [|done].
        destruct (wf_last _ Hwf _ _ _ E Hlast) as (e0 & k0 & p0 & Hi0 & Hr0 & Hk0 & Hp0 & Hle).
        unfold ord_le. change (cmp p r) with (Reducer.compare_within_instrument p r).
        rewrite <-(order_agrees_lemma e0 e k0 key p r Hi0 Hk0 Hfe Hr0 Hr).
        change (ord_le k0 key). etrans; [exact Hle|]. by apply Hord.
      - apply OrderingLaws.for_event_and_canonical_Ok in Hk as [Hcan _].
        unfold Model.from_event, Event.fingerprint. by rewrite Hcan. }
    destruct (ReducerLaws.apply_cases reducer s e ctx) as [(err' & -> & Herr)|(r & s' & -> & _)]; [|done].
    intros [= <- _]. by apply Hext.
  - intros [= <- _]. by eapply prepare_commit_external.
Qed.

(** ** Construction *)

Lemma insert_states_Ok m ss m' : try_fold insert_state m ss = Ok m' →
  NoDup (Model.instrument <$> ss) ∧ (∀ s, s ∈ ss → m !! Model.instrument s = None) ∧
  ∀ i s, m' !! i = Some s ↔ m !! i = Some s ∨ s ∈ ss ∧ Model.instrument s = i.
Proof.
  revert m. induction ss as [|x ss IH]; intros m H.
  - injection H as <-. split_and!; [constructor|by intros s ?%not_elem_of_nil|].
    intros i s. split; [by left|intros [?|[?%not_elem_of_nil _]]; done].
  - cbn [try_fold] in H. apply bind_Ok in H as (m1 & H1 & H). unfold insert_state in H1.
    case_bool_decide as Hn; [done|]. injection H1 as <-. rewrite <-eq_None_not_Some in Hn.
    apply IH in H as (Hnd & Hnone & Hin). split_and!.
    + rewrite fmap_cons. constructor; [|done]. intros (s & Hs & Hx)%list_elem_of_fmap.
      specialize (Hnone s Hx). rewrite <-Hs, lookup_insert_eq in Hnone. done.
    + intros s [->|Hs]%elem_of_cons; [done|]. specialize (Hnone s Hs).
      by apply lookup_insert_None in Hnone as [? _].
    + intros i s. rewrite Hin, lookup_insert_Some, elem_of_cons. split.
      * intros [[[<- <-]|[_ Hm]]|[Hs Hi]]; [right|by left|right]; tauto.
      * intros [Hm|[[->|Hs] Hi]]; [|by left; left|by right]. left. right. split; [|done]. congruence.
Qed.

Record constructed (ss : list Model.MarketState) (schedules : list (Instrument.InstrumentId * list ReplayContextWindow))
    (c : ReplayCore) : Prop := {
  con_fresh : fresh c;
  con_distinct : NoDup (Model.instrument <$> ss);
  con_states : ∀ i s, states c !! i = Some s ↔ s ∈ ss ∧ Model.instrument s = i;
  con_nonempty : ss ≠ [];
  con_reducers : ∀ i, is_Some (states c !! i) → is_Some (reducers c !! i);
  con_sizes : size (reducers c) = size (states c) ∧ size (reducer_contexts c) = size (states c);
  con_covered : ∀ i, is_Some (reducer_context_windows c !! i) →
    is_Some (states c !! i) ∧ is_Some (reducers c !! i) ∧ is_Some (reducer_contexts c !! i);
  con_dates : ∀ i s, states c !! i = Some s →
    ∃ ctx, reducer_contexts c !! i = Some ctx ∧ Reducer.ctx_trading_date ctx = Model.trading_date s;
  con_windows : ∀ i ws, reducer_context_windows c !! i = Some ws →
    ∃ l, (i, l) ∈ schedules ∧ ws = sort_on start l ∧ existsb overlaps (windows2 ws) = false;
  con_scheduled : ∀ i l, (i, l) ∈ schedules → reducer_context_windows c !! i = Some (sort_on start l) }.

Lemma insert_schedules_Ok {X Y Z} (by_i : gmap Instrument.InstrumentId X) (rs : gmap Instrument.InstrumentId Y)
    (xs : gmap Instrument.InstrumentId Z) m schedules m' : try_fold (insert_schedule by_i rs xs) m schedules = Ok m' →
  (∀ i ws, m' !! i = Some ws → m !! i = Some ws ∨
    ∃ l, (i, l) ∈ schedules ∧ ws = sort_on start l ∧ existsb overlaps (windows2 ws) = false) ∧
  (∀ i ws, m !! i = Some ws → m' !! i = Some ws) ∧
  (∀ i l, (i, l) ∈ schedules → m' !! i = Some (sort_on start l) ∧
    is_Some (by_i !! i) ∧ is_Some (rs !! i) ∧ is_Some (xs !! i)).
Proof.
  revert m. induction schedules as [|[i l] schedules IH]; intros m H.
  - injection H as <-. split_and!; [by left|done|by intros i l ?%not_elem_of_nil].
  - cbn [try_fold] in H. apply bind_Ok in H as (m1 & H1 & H). unfold insert_schedule in H1.
    destruct (_ || _) eqn:Hcov; [done|]. destruct (existsb overlaps _) eqn:Ho; [done|]. case_bool_decide as Hn; [done|].
    rewrite !orb_false_iff, !negb_false_iff, !bool_decide_eq_true in Hcov.
    injection H1 as <-. rewrite <-eq_None_not_Some in Hn. apply IH in H as (H1 & H2 & H3). split_and!.
    + intros j ws Hj. apply H1 in Hj as [[[<- <-]|[_ Hj]]%lookup_insert_Some|(l' & Hl' & Hws)].
      * right. exists l. split; [left|done].
      * by left.
      * right. exists l'. split; [by right|done].
    + intros j ws Hj. apply H2. rewrite lookup_insert_ne; [done|congruence].
    + intros j l' [[= -> ->]|Hl']%elem_of_cons; [split; [apply H2, lookup_insert_eq|tauto]|by apply H3].
Qed.

Lemma new_constructed ss rs xs schedules c : new_multi_with_schedules ss rs xs schedules = Ok c →
  constructed ss schedules c.
Proof.
  unfold new_multi_with_schedules. case_bool_decide as Hne; [done|]. intros H0. apply bind_Ok in H0 as (m & Hm & H0).
  apply insert_states_Ok in Hm as (Hnd & _ & Hin).
  destruct (_ || existsb _ (btree_keys m)) eqn:Hcfg in H0; [done|].
  destruct (existsb _ (btree_entries m)) eqn:Hd in H0; [done|].
  apply bind_Ok in H0 as (ws & Hws & [= <-]). apply insert_schedules_Ok in Hws as (Hw1 & _ & Hw3).
  rewrite !orb_false_iff, !negb_false_iff, !bool_decide_eq_true in Hcfg.
  destruct Hcfg as [[[[Hs1 _] Hs2] _] Hcfg].
  split; cbn [states reducers reducer_contexts reducer_context_windows].
  - done.
  - done.
  - intros i s. rewrite Hin, lookup_empty. naive_solver.
  - done.
  - intros i Hi. apply elem_of_btree_keys in Hi. apply (proj1 (existsb_false _ _) Hcfg) in Hi.
    apply orb_false_iff in Hi as [Hi _]. by destruct (collect_map rs !! i).
  - done.
  - intros i [l Hl]. apply Hw1 in Hl as [Hl|(l' & Hl' & _)]; [by rewrite lookup_empty in Hl|].
    by apply Hw3 in Hl' as [_ ?].
  - intros i s Hs. apply elem_of_btree_entries in Hs. apply (proj1 (existsb_false _ _) Hd) in Hs. simpl in Hs.
    destruct (collect_map xs !! i) as [ctx|]; [|done]. exists ctx. split; [done|].
    apply bool_decide_eq_false in Hs. by destruct (decide (Reducer.ctx_trading_date ctx = Model.trading_date s)).
  - intros i l Hl. apply Hw1 in Hl as [Hl|Hl]; [|done]. by rewrite lookup_empty in Hl.
  - intros i l Hl. by apply Hw3 in Hl as [? _].
Qed.

Lemma constructed_wf ss schedules c : constructed ss schedules c →
  Forall (λ s, Model.last_event s = None) ss → core_wf c.
Proof.
  intros H Hss. split; [|apply H|].
  - intros i s Hs. by apply (con_states _ _ _ H) in Hs as [_ <-].
  - intros i s r Hs Hr. apply (con_states _ _ _ H) in Hs as [Hs _].
    rewrite Forall_forall in Hss. rewrite Hss in Hr; [done|by apply list_elem_of_In].
Qed.

Lemma values_instruments (m : gmap Instrument.InstrumentId Model.MarketState) :
  (∀ i s, m !! i = Some s → Model.instrument s = i) → Model.instrument <$> btree_values m = btree_keys m.
Proof.
  intros Hm. unfold btree_values, btree_keys. rewrite <-list_fmap_compose. apply list_fmap_ext.
  intros n [i s] Hn. apply list_elem_of_lookup_2, elem_of_btree_entries in Hn. by apply Hm.
Qed.

(** A core built over fresh states, after any run, never fails with an error
    that would mean its own order or wiring is broken: the reducer's instrument
    and order checks, the stale-proposal check, the missing reducer and the
    duplicate final state are unreachable behind the core's checks. *)
Theorem internal_errors_unreachable ss rs xs schedules c es r c' :
  new_multi_with_schedules ss rs xs schedules = Ok c → Forall (λ s, Model.last_event s = None) ss →
  apply_all c es = (r, c') →
  (∀ e err c'', apply_ordered c' e = (Err err, c'') → ¬ internal err) ∧
  (∀ err, complete c' = Err err → ¬ internal err).
Proof.
  intros Hc%new_constructed Hss Hr. pose proof (apply_all_wf _ _ _ _ (constructed_wf _ _ _ Hc Hss) Hr) as Hwf.
  split; [intros e err c''; by apply apply_ordered_external|].
  intros err H. unfold complete in H. apply bind_Err in H as [H|(? & _ & [=])].
  unfold StateCanonical.final_state_checksum in H.
  destruct (StateCanonical.canonical_final_state_set (btree_values (states c'))) as [|[|]] eqn:E; [done| |].
  - injection H as <-. by intros [].
  - apply StateCanonical.final_state_duplicate in E. exfalso. apply E.
    rewrite values_instruments by apply Hwf. apply NoDup_btree_keys.
Qed.

(** ** Context windows *)

Definition positive (w : ReplayContextWindow) : Prop := ord_lt (start w) (end_exclusive w).
Definition before (w1 w2 : ReplayContextWindow) : Prop := ord_le (end_exclusive w1) (start w2).

Lemma new_window_Ok a b ctx w : new_window a b ctx = Ok w ↔ w = mk_window a b ctx ∧ ord_lt a b.
Proof.
  unfold new_window. case_bool_decide as H; [split; [done|by intros [_ ?]]|].
  destruct (decide (cmp a b = Lt)); [|done]. split; [by intros [= <-]|by intros [-> _]].
Qed.

Lemma contains_true w t : contains w t = true ↔ ord_le (start w) t ∧ ord_lt t (end_exclusive w).
Proof. unfold contains. by rewrite andb_true_iff, !bool_decide_eq_true. Qed.

Lemma windows_disjoint ws : Forall positive ws → existsb overlaps (windows2 ws) = false → StronglySorted before ws.
Proof.
  intros Hp. induction Hp as [|w ws Hw Hws IH]; intros H; [constructor|].
  destruct ws as [|w2 ws]; [by repeat constructor|]. change (windows2 (w :: w2 :: ws)) with ((w, w2) :: windows2 (w2 :: ws)) in H.
  cbn [existsb] in H. apply orb_false_iff in H as [Ho H]. specialize (IH H).
  assert (Hb : before w w2) by by apply bool_decide_eq_false in Ho.
  constructor; [done|]. constructor; [done|]. inversion_clear IH as [|? ? _ Hf].
  eapply Forall_impl; [|exact Hf]. intros w3 H3. unfold before in *. inversion_clear Hws as [|? ? Hw2 _].
  etrans; [exact Hb|]. apply ord_le_lt_eq. left. eapply ord_lt_le_trans; [exact Hw2|exact H3].
Qed.

Lemma find_window ws w t : Forall positive ws → StronglySorted before ws → w ∈ ws → contains w t = true →
  List.find (λ w, contains w t) ws = Some w.
Proof.
  intros _ Hs. induction Hs as [|x ws Hs IH Hx]; intros Hw Ht; [by apply not_elem_of_nil in Hw|].
  apply elem_of_cons in Hw as [->|Hw]; cbn [List.find]; [by rewrite Ht|].
  destruct (contains x t) eqn:Hxt; [|by apply IH]. exfalso. rewrite Forall_forall in Hx.
  apply list_elem_of_In in Hw. specialize (Hx w Hw). apply contains_true in Hxt as [_ Hxt], Ht as [Ht _].
  apply (ord_lt_irrefl t). eapply ord_lt_le_trans; [exact Hxt|]. etrans; [exact Hx|exact Ht].
Qed.

(** The context of a scheduled instrument's event is that of the one window
    that contains its time, in whatever order the windows were given; outside
    every window there is none, whatever the instrument's default context. *)
Theorem context_of_schedule ss rs xs schedules c i l t :
  new_multi_with_schedules ss rs xs schedules = Ok c → (i, l) ∈ schedules →
  Forall (λ w, new_window (start w) (end_exclusive w) (context w) = Ok w) l →
  (∀ w, w ∈ l → contains w t = true → context_for_event c i t = Some (context w)) ∧
  ((∀ w, w ∈ l → contains w t = false) → context_for_event c i t = None).
Proof.
  intros Hc%new_constructed Hl Hpos. pose proof (con_scheduled _ _ _ Hc i l Hl) as Hw.
  destruct (con_windows _ _ _ Hc i _ Hw) as (_ & _ & _ & Ho).
  assert (Hp : Forall positive (sort_on start l)).
  { rewrite sort_on_perm. eapply Forall_impl; [|exact Hpos]. by intros w [_ Hlt]%new_window_Ok. }
  pose proof (windows_disjoint _ Hp Ho) as Hs. unfold context_for_event. rewrite Hw. split.
  - intros w Hin Ht. rewrite (find_window _ w t Hp Hs); [done|by apply elem_of_sort_on|done].
  - intros Hnone. destruct (List.find _ _) as [w|] eqn:E; [|done].
    apply find_some in E as [Hin Ht]. apply list_elem_of_In, elem_of_sort_on in Hin. by rewrite Hnone in Ht.
Qed.

(** ** Forking *)

Lemma insert_state_new m s : m !! Model.instrument s = None → insert_state m s = Ok (<[Model.instrument s := s]> m).
Proof. intros H. unfold insert_state. rewrite H. by rewrite bool_decide_false by by intros []. Qed.

Lemma insert_states_total m ss : NoDup (Model.instrument <$> ss) →
  (∀ s, s ∈ ss → m !! Model.instrument s = None) → ∃ m', try_fold insert_state m ss = Ok m'.
Proof.
  revert m. induction ss as [|s ss IH]; intros m Hn Hm; [by exists m|]. rewrite fmap_cons in Hn.
  inversion_clear Hn as [|? ? Hs Hn']. cbn [try_fold]. rewrite insert_state_new by apply Hm, list_elem_of_here.
  apply IH; [done|]. intros s' Hs'. apply lookup_insert_None. split; [by apply Hm, list_elem_of_further|].
  intros He. apply Hs. rewrite He. by apply list_elem_of_fmap_2.
Qed.

Lemma insert_states_values m : (∀ i s, m !! i = Some s → Model.instrument s = i) →
  try_fold insert_state ∅ (btree_values m) = Ok m.
Proof.
  intros Hm. destruct (insert_states_total ∅ (btree_values m)) as [m' H].
  { rewrite values_instruments by done. apply NoDup_btree_keys. }
  { intros s _. apply lookup_empty. }
  rewrite H. f_equal. apply insert_states_Ok in H as (_ & _ & H). apply map_eq. intros i. apply option_eq. intros s.
  rewrite H, lookup_empty, elem_of_btree_values. split.
  - intros [?|[[j Hj] <-]]; [done|]. by rewrite (Hm j s Hj).
  - intros Hs. right. split; [by exists i|by apply Hm].
Qed.

Lemma collect_map_entries {V} (m : gmap Instrument.InstrumentId V) : collect_map (btree_entries m) = m.
Proof.
  assert (Hn : NoDup (btree_entries m).*1) by apply NoDup_btree_keys.
  apply map_eq. intros i. unfold collect_map. rewrite foldl_insert_map by done. rewrite (right_id_L ∅ (∪)).
  apply option_eq. intros v. rewrite <-elem_of_list_to_map by done. apply elem_of_btree_entries.
Qed.

Lemma insert_schedule_new {X Y Z} (by_i : gmap Instrument.InstrumentId X) (rs : gmap Instrument.InstrumentId Y)
    (xs : gmap Instrument.InstrumentId Z) m i ws :
  m !! i = None → is_Some (by_i !! i) ∧ is_Some (rs !! i) ∧ is_Some (xs !! i) →
  existsb overlaps (windows2 (sort_on start ws)) = false →
  insert_schedule by_i rs xs m (i, ws) = Ok (<[i := sort_on start ws]> m).
Proof.
  intros Hm (H1 & H2 & H3) Ho. unfold insert_schedule. rewrite Ho, Hm, !(bool_decide_true (is_Some (_ !! i))) by done.
  by rewrite bool_decide_false by by intros [].
Qed.

Lemma insert_schedules_total {X Y Z} (by_i : gmap Instrument.InstrumentId X) (rs : gmap Instrument.InstrumentId Y)
    (xs : gmap Instrument.InstrumentId Z) m l : NoDup l.*1 →
  (∀ i ws, (i, ws) ∈ l → m !! i = None ∧ (is_Some (by_i !! i) ∧ is_Some (rs !! i) ∧ is_Some (xs !! i)) ∧
    existsb overlaps (windows2 (sort_on start ws)) = false) →
  ∃ m', try_fold (insert_schedule by_i rs xs) m l = Ok m'.
Proof.
  revert m. induction l as [|[i ws] l IH]; intros m Hn Hl; [by exists m|].
  inversion_clear Hn as [|? ? Hi Hn']. cbn [try_fold].
  destruct (Hl i ws (list_elem_of_here _ _)) as (Hm & Hc & Ho). rewrite insert_schedule_new by done. apply IH; [done|]. intros j ws' Hj.
  destruct (Hl j ws' (list_elem_of_further _ _ _ Hj)) as (Hm' & ? & ?). split; [|done].
  apply lookup_insert_None. split; [done|]. intros <-. apply Hi. apply (list_elem_of_fmap_2 fst) in Hj. exact Hj.
Qed.

Lemma insert_schedules_entries {X Y Z} (by_i : gmap Instrument.InstrumentId X) (rs : gmap Instrument.InstrumentId Y)
    (xs : gmap Instrument.InstrumentId Z) (m : gmap Instrument.InstrumentId (list ReplayContextWindow)) :
  (∀ i ws, m !! i = Some ws → (is_Some (by_i !! i) ∧ is_Some (rs !! i) ∧ is_Some (xs !! i)) ∧
    sort_on start ws = ws ∧ existsb overlaps (windows2 ws) = false) →
  try_fold (insert_schedule by_i rs xs) ∅ (btree_entries m) = Ok m.
Proof.
  intros Hm. destruct (insert_schedules_total by_i rs xs ∅ (btree_entries m)) as [m' H]; [apply NoDup_btree_keys| |].
  { intros i ws Hi%elem_of_btree_entries. destruct (Hm i ws Hi) as (? & Hs & ?). rewrite Hs.
    split; [apply lookup_empty|done]. }
  rewrite H. f_equal. apply insert_schedules_Ok in H as (H1 & _ & H3). apply map_eq. intros i. apply option_eq.
  intros ws. split.
  - intros Hws. apply H1 in Hws as [Hws|(l & Hl%elem_of_btree_entries & -> & _)]; [by rewrite lookup_empty in Hws|].
    by destruct (Hm i l Hl) as (_ & -> & _).
  - intros Hws. destruct (Hm i ws Hws) as (_ & Hs & _). apply elem_of_btree_entries, H3 in Hws as [Hws _]. by rewrite Hs in Hws.
Qed.

Lemma fork_constructed ss schedules c : constructed ss schedules c → fork_unstarted c = Ok c.
Proof.
  intros Hc. destruct (con_fresh _ _ _ Hc) as (Hclock & Hkey & Hcan & Hes & Hfirst).
  assert (Hi : ∀ i s, states c !! i = Some s → Model.instrument s = i) by (intros i s0 H; by apply (con_states _ _ _ Hc) in H as [_ <-]).
  unfold fork_unstarted, new_multi_with_schedules. rewrite Hclock, bool_decide_false by tauto.
  rewrite bool_decide_false; last first.
  { intros Hnil. destruct ss as [|s0 ss]; [by apply (con_nonempty _ _ _ Hc)|].
    assert (Hs0 : states c !! Model.instrument s0 = Some s0) by (apply (con_states _ _ _ Hc); split; [left|done]).
    assert (Hin : s0 ∈ btree_values (states c)) by (apply elem_of_btree_values; by eexists).
    rewrite Hnil in Hin. by apply not_elem_of_nil in Hin. }
  rewrite insert_states_values by done. cbn [mbind result_bind]. rewrite !collect_map_entries.
  destruct (con_sizes _ _ _ Hc) as [-> ->].
  assert (Hlen : ∀ V (m : gmap Instrument.InstrumentId V), length (btree_entries m) = size m).
  { intros V m. unfold btree_entries. rewrite sort_on_perm. apply length_map_to_list. }
  rewrite !Hlen. destruct (con_sizes _ _ _ Hc) as [-> ->]. rewrite !(bool_decide_true (size _ = size _)) by done.
  cbn [negb orb]. rewrite (proj2 (existsb_false _ (btree_keys (states c)))); last first.
  { intros i [x Hx]%elem_of_btree_keys. destruct (con_reducers _ _ _ Hc i (ex_intro _ x Hx)) as [? Hr].
    destruct (con_dates _ _ _ Hc i x Hx) as (? & Hd & _). rewrite Hr, Hd. by rewrite !bool_decide_true by by eexists. }
  rewrite (proj2 (existsb_false _ (btree_entries (states c)))); last first.
  { intros [i x] Hx%elem_of_btree_entries. destruct (con_dates _ _ _ Hc i x Hx) as (ctx & -> & ->).
    apply bool_decide_eq_false. tauto. }
  rewrite insert_schedules_entries; [simpl; destruct c; simpl in *; congruence|]. intros i ws Hws.
  split; [by apply (con_covered _ _ _ Hc); eexists|]. destruct (con_windows _ _ _ Hc i ws Hws) as (l & _ & -> & Ho).
  split; [|done]. apply sort_on_sorted_id, sort_on_sorted.
Qed.

(** Forking an unstarted core gives back that very core, and a core that
    committed an event is never forked. *)
Theorem fork_unstarted_spec ss rs xs schedules c e r c' :
  new_multi_with_schedules ss rs xs schedules = Ok c → apply_ordered c e = (Ok r, c') →
  fork_unstarted c = Ok c ∧ fork_unstarted c' = Err ReplayAlreadyStarted.
Proof.
  intros Hc%new_constructed (key & can & s & s' & Hcom)%apply_ordered_Ok. split; [by eapply fork_constructed|].
  rewrite (com_core _ _ _ _ _ _ _ _ Hcom). unfold fork_unstarted. by rewrite bool_decide_true.
Qed.

End laws.

(** ** Concrete replays *)

#[local] Instance demo_hash : Blake3 := λ b, b.
Definition demo_event : Z → Event.DomainEvent := EventCodec.sample_at.
Definition demo_instrument : Instrument.InstrumentId := Event.instrument (demo_event 0).
Definition demo_date : TradingDate.TradingDate := Event.trading_date (demo_event 0).
Definition demo_profile : Profile.MarketStateProfile :=
  Profile.mk_profile Market.Twse [Profile.mk_rule (Event.source_format (demo_event 0)) [Event.TradeBatchK]]
    Profile.Unconstrained 1.
Definition demo_context (segment : string) : Reducer.ReducerContext :=
  Reducer.new_context demo_date (Model.mk_segment (bytes_of segment)) Reducer.Carry 1.
Definition demo_window (a b : Z) (segment : string) : ReplayContextWindow :=
  mk_window (MatchTime.from_unix_microseconds a) (MatchTime.from_unix_microseconds b) (demo_context segment).
Definition demo_schedule : list (Instrument.InstrumentId * list ReplayContextWindow) :=
  [(demo_instrument, [demo_window 10 20 "late"; demo_window 0 10 "early"])].
Definition demo_new : result ReplayError ReplayCore :=
  new_multi_with_schedules [Model.new demo_instrument demo_date] [(demo_instrument, demo_profile)]
    [(demo_instrument, demo_context "default")] demo_schedule.
Definition demo_core : ReplayCore :=
  match demo_new with Ok c => c | Err _ => mk_core ∅ ∅ ∅ ∅ Unstarted None None Checksum.new None end.
Definition demo_done : ReplayCore := (apply_all demo_core [demo_event 5; demo_event 15]).2.

Lemma demo_built : demo_new = Ok demo_core.
Proof. by vm_compute. Qed.
Lemma demo_fresh : fresh demo_core.
Proof. by vm_compute. Qed.
Lemma demo_replayed : apply_all demo_core [demo_event 5; demo_event 15] = (Ok (), demo_done).
Proof. by vm_compute. Qed.
Lemma demo_fits : Forall OrderingLaws.event_fits [demo_event 5; demo_event 15].
Proof.
  assert (H : ∀ t, is_i64 t → (∃ b, Event.to_canonical_bytes (demo_event t) = Ok b ∧ zlen b ≤ isize_max) →
    OrderingLaws.event_fits (demo_event t)).
  { intros t Ht (b & Hb & Hl). split; [by apply EventCodec.sample_at_wf|]. intros b'. rewrite Hb. by intros [= <-]. }
  apply (Forall_cons_2 _); [|apply (Forall_cons_2 _); [|apply Forall_nil_2]]; apply H; try (by unfold_ints);
    eexists; (split; [vm_compute; reflexivity|by vm_compute]).
Qed.

Lemma replay_accounts_witness : event_ordinal (clock demo_done) = 2.
Proof. exact (proj1 (proj2 (replay_accounts demo_core _ demo_done demo_fresh demo_replayed))). Defined.

Lemma replay_checksum_identifies_witness : [demo_event 5; demo_event 15] = [demo_event 5; demo_event 15] ∨
  ∃ x y : list Z, x ≠ y ∧ blake3 x = blake3 y.
Proof.
  exact (replay_checksum_identifies demo_core demo_core _ _ demo_done demo_done demo_fresh demo_fresh demo_fits demo_fits
    demo_replayed demo_replayed eq_refl).
Defined.

Lemma order_agrees_witness : ∃ k1 k2 r1 r2, Ordering.for_event (demo_event 5) = Ok k1 ∧
  Model.from_event (demo_event 15) = Ok r2 ∧ cmp k1 k2 = Reducer.compare_within_instrument r1 r2.
Proof.
  assert (H : ∃ k1 k2 r1 r2, Ordering.for_event (demo_event 5) = Ok k1 ∧ Ordering.for_event (demo_event 15) = Ok k2 ∧
    Model.from_event (demo_event 5) = Ok r1 ∧ Model.from_event (demo_event 15) = Ok r2)
    by (do 4 eexists; split_and!; vm_compute; reflexivity).
  destruct H as (k1 & k2 & r1 & r2 & H1 & H2 & H3 & H4). exists k1, k2, r1, r2. split_and!; [done|done|].
  exact (order_agrees (demo_event 5) (demo_event 15) k1 k2 r1 r2 eq_refl H1 H2 H3 H4).
Defined.

Lemma internal_errors_unreachable_witness : demo_new = Ok demo_core ∧
  ¬ (complete demo_done = Err (FinalStateEncoding StateCanonical.DuplicateInstrument)).
Proof.
  split; [exact demo_built|]. intros H.
  refine (proj2 (internal_errors_unreachable _ _ _ _ demo_core [demo_event 5; demo_event 15] _ demo_done demo_built _
    demo_replayed) _ H I).
  apply (Forall_cons_2 _); [done|apply Forall_nil_2].
Defined.

Lemma context_of_schedule_witness :
  context_for_event demo_core demo_instrument (MatchTime.from_unix_microseconds 15) = Some (demo_context "late").
Proof.
  refine (proj1 (context_of_schedule _ _ _ _ demo_core demo_instrument _ (MatchTime.from_unix_microseconds 15) demo_built
    (list_elem_of_here _ _) _) (demo_window 10 20 "late") (list_elem_of_here _ _) _); [|by vm_compute].
  repeat (apply (Forall_cons_2 _); [by vm_compute|]). apply Forall_nil_2.
Defined.

Lemma fork_unstarted_spec_witness : fork_unstarted demo_core = Ok demo_core.
Proof.
  assert (H : ∃ r c', apply_ordered demo_core (demo_event 5) = (Ok r, c')) by (do 2 eexists; vm_compute; reflexivity).
  destruct H as (r & c' & H). exact (proj1 (fork_unstarted_spec _ _ _ _ demo_core (demo_event 5) r c' demo_built H)).
Defined.
End ReplayLaws.
