(* ===== verification/ReplayMerge.v ===== *)
(** The k-way merge of replay_frozen_multi: over streams that promise a finite
    sorted content, it is the in-memory replay of all their events. *)
From S2P Require Import Prelude Order Text Numeric Quantity Calendar Book Identity Signal Codec Values Event.
From S2P Require Import EventCodec MarketState Reducer StateCanonical Ordering OrderingLaws Replay ReplayLaws.

(** ** What a stream and a factory promise *)

(** A stream that hands out a fixed list of events, then [None]. *)
Class FiniteStream (S E : Type) `{!Plan.EventStream S E} := {
  contents : S → list Event.DomainEvent;
  next_contents s : match contents s with
                    | [] => ∃ s', Plan.next_event s = (Ok None, s') ∧ contents s' = []
                    | e :: l => ∃ s', Plan.next_event s = (Ok (Some e), s') ∧ contents s' = l
                    end }.

(** A factory whose streams' contents are settled by the binding. *)
Class FrozenFactory (F S E : Type) `{FiniteStream S E, !Plan.ReplayStreamFactory F S E} := {
  frozen : F → Plan.ReplayStreamBinding → list Event.DomainEvent;
  open_frozen f b : ∃ s f', Plan.open f b = (Ok s, f') ∧ contents s = frozen f b ∧ ∀ b', frozen f' b' = frozen f b' }.

Module ReplayMerge.
Import Replay.

Section merge.
Context {B : Blake3} {F S E : Type} `{!Plan.EventStream S E, !FiniteStream S E, !Plan.ReplayStreamFactory F S E,
  !FrozenFactory F S E, !ErrorText E}.

Lemma next_event_nil s : contents s = [] → ∃ s', next_event s = (Ok None, s') ∧ contents s' = [].
Proof.
  intros Hc. pose proof (next_contents s) as Hn. rewrite Hc in Hn. destruct Hn as (s' & Hn & Hs). exists s'.
  unfold next_event. by rewrite Hn.
Qed.
Lemma next_event_cons s e l : contents s = e :: l → ∃ s', next_event s = (Ok (Some e), s') ∧ contents s' = l.
Proof.
  intros Hc. pose proof (next_contents s) as Hn. rewrite Hc in Hn. destruct Hn as (s' & Hn & Hs). exists s'.
  unfold next_event. by rewrite Hn.
Qed.

(** Replaying a stream is applying its events in the order it gives them;
    one unit of fuel per event and one for the end are enough. *)
Theorem replay_stream_spec c s fuel : (length (contents s) < fuel)%nat →
  ∃ s', replay_stream fuel c s = Done (apply_all c (contents s), s').
Proof.
  revert c s. induction fuel as [|fuel IH]; intros c s Hf; [lia|]. simpl.
  destruct (contents s) as [|e l] eqn:Hc.
  - destruct (next_event_nil s Hc) as (s' & -> & _). by exists s'.
  - destruct (next_event_cons s e l Hc) as (s' & -> & Hl). simpl.
    destruct (apply_ordered c e) as [[r|err] c1]; [|by exists s'].
    destruct (IH c1 s') as [s2 H2]; [rewrite Hl; simpl in Hf; lia|]. exists s2. by rewrite H2, Hl.
Qed.

(** ** Opening *)

Definition admits (c : ReplayCore) (b : Plan.ReplayStreamBinding) : Prop :=
  ∃ s, states c !! Plan.instrument b = Some s ∧
    (Model.trading_date s = Plan.trading_date b ∨
     has_scheduled_trading_date c (Plan.instrument b) (Plan.trading_date b) = true).

Lemma open_streams_Ok c f bs : Forall (admits c) bs → ∃ opened f',
  open_streams c f bs = (Ok opened, f') ∧ contents <$> opened = frozen f <$> bs.
Proof.
  intros Hbs. revert f. induction Hbs as [|b bs (s & Hs & Hd) _ IH]; intros f; simpl; [by exists [], f|].
  rewrite Hs. replace (bool_decide _ && _) with false; last first.
  { symmetry. apply andb_false_iff. destruct Hd as [->| ->]; [left; apply bool_decide_eq_false; tauto|by right]. }
  destruct (open_frozen f b) as (st & f1 & Ho & Hst & Hf1). unfold open. rewrite Ho. simpl.
  destruct (IH f1) as (opened & f2 & -> & Hopened). exists (st :: opened), f2. split; [done|].
  rewrite fmap_cons, Hst, Hopened. f_equal. apply list_fmap_ext. intros. apply Hf1.
Qed.

(** ** The invariant of the merge *)

(** The events an index still holds: its head, then its stream. *)
Definition remaining (h : Head) (s : S) : list Event.DomainEvent := option_list (fst <$> h) ++ contents s.
Definition remainings (m : Merge) : list (list Event.DomainEvent) := zip_with remaining (heads m) (streams m).

(** [rest]: the remaining events in replay order. [filled] are the indices
    whose stream has been read since their head was taken. *)
Record merge_inv (filled : nat → Prop) (m : Merge) (rest : list Event.DomainEvent) : Prop := {
  mi_length : length (heads m) = length (streams m);
  mi_perm : concat (remainings m) ≡ₚ rest;
  mi_sorted : Forall (StronglySorted OrderingLaws.event_le) (remainings m);
  mi_heads : ∀ i s, filled i → heads m !! i = Some None → streams m !! i = Some s → contents s = [];
  mi_pending : ∀ key i, (key, i) ∈ pending m ↔
    ∃ e canonical, heads m !! i = Some (Some (e, canonical)) ∧ Ordering.for_event_and_canonical e = Ok (key, canonical);
  mi_keys : ∀ e canonical i, heads m !! i = Some (Some (e, canonical)) →
    ∃ key, Ordering.for_event_and_canonical e = Ok (key, canonical);
  mi_nodup : NoDup (pending m).*2 }.

Definition has_keys (es : list Event.DomainEvent) : Prop :=
  ∀ e, e ∈ es → ∃ k canonical, Ordering.for_event_and_canonical e = Ok (k, canonical).
Definition keys_injective (es : list Event.DomainEvent) : Prop :=
  ∀ e1 e2 k, e1 ∈ es → e2 ∈ es → Ordering.for_event e1 = Ok k → Ordering.for_event e2 = Ok k → e1 = e2.

Lemma remainings_lookup m i h s : heads m !! i = Some h → streams m !! i = Some s →
  remainings m !! i = Some (remaining h s).
Proof. intros Hh Hs. unfold remainings. by rewrite lookup_zip_with, Hh, Hs. Qed.

Lemma remainings_elem m rest filled i h s e : merge_inv filled m rest → heads m !! i = Some h → streams m !! i = Some s →
  e ∈ remaining h s → e ∈ rest.
Proof.
  intros Hm Hh Hs He. rewrite <-(mi_perm _ _ _ Hm). apply list_elem_of_In, in_concat.
  exists (remaining h s). split; apply list_elem_of_In; [|done].
  eapply list_elem_of_lookup_2. by apply remainings_lookup.
Qed.

Lemma remainings_insert m i h s p : remainings (mk_merge (<[i := s]> (streams m)) (<[i := h]> (heads m)) p) =
  <[i := remaining h s]> (remainings m).
Proof. unfold remainings. simpl. symmetry. apply insert_zip_with. Qed.

(** *** Reading the next event of an index *)

Lemma refill_inv filled m rest i s : merge_inv filled m rest → has_keys rest →
  heads m !! i = Some None → streams m !! i = Some s →
  ∃ m', refill m i s = (Ok (), m') ∧ merge_inv (λ j, j = i ∨ filled j) m' rest ∧
    length (streams m') = length (streams m) ∧
    ∀ j, j ≠ i → heads m' !! j = heads m !! j ∧ streams m' !! j = streams m !! j.
Proof.
  intros Hm Hkeys Hh Hs. pose proof (mi_length _ _ _ Hm) as Hlen.
  assert (Hi : (i < length (heads m))%nat) by (by eapply lookup_lt_Some).
  assert (Hrem : remainings m !! i = Some (contents s)) by (by rewrite (remainings_lookup m i None s)).
  assert (Hold : ∀ h s' p, remaining h s' = contents s →
    concat (remainings (mk_merge (<[i := s']> (streams m)) (<[i := h]> (heads m)) p)) ≡ₚ rest ∧
    Forall (StronglySorted OrderingLaws.event_le) (remainings (mk_merge (<[i := s']> (streams m)) (<[i := h]> (heads m)) p))).
  { intros h s' p Hr. rewrite remainings_insert, list_insert_id by (by rewrite Hr). split; apply Hm. }
  assert (Hno : ∀ key, (key, i) ∉ pending m).
  { intros key (e & can & Hc & _)%(mi_pending _ _ _ Hm). congruence. }
  unfold refill. destruct (contents s) as [|e l] eqn:Hc.
  - destruct (next_event_nil s Hc) as (s' & -> & Hs'). eexists. split; [done|].
    destruct (Hold None s' (pending m)) as [Hp Hsort]; [by unfold remaining; rewrite Hs'|].
    rewrite (list_insert_id (heads m)) in Hp, Hsort by done. split_and!; [|by simpl; rewrite length_insert|].
    + split; cbn [streams heads pending]; [by rewrite length_insert|done|done| |apply Hm..].
      intros j sj Hf Hj Hsj. destruct (decide (j = i)) as [->|Hne].
      * rewrite list_lookup_insert_eq in Hsj by lia. by injection Hsj as <-.
      * rewrite list_lookup_insert_ne in Hsj by done. destruct Hf as [->|Hf]; [done|]. by eapply (mi_heads _ _ _ Hm j).
    + intros j Hj. split; [done|]. simpl. by rewrite list_lookup_insert_ne.
  - destruct (next_event_cons s e l Hc) as (s' & -> & Hs').
    destruct (Hkeys e) as (key & can & Hk).
    { eapply (remainings_elem m rest filled i None s); [done..|]. unfold remaining. simpl. rewrite Hc. left. }
    rewrite Hk. cbn [map_err]. eexists. split; [done|].
    destruct (Hold (Some (e, can)) s' (push (key, i) (pending m))) as [Hp Hsort]; [by unfold remaining; simpl; rewrite Hs'|].
    split_and!; [|by simpl; rewrite length_insert|].
    + split; cbn [streams heads pending]; [by rewrite !length_insert|done|done| | | |].
      * intros j sj Hf Hj Hsj. destruct (decide (j = i)) as [->|Hne]; [by rewrite list_lookup_insert_eq in Hj|].
        rewrite list_lookup_insert_ne in Hj by done. rewrite list_lookup_insert_ne in Hsj by done. destruct Hf as [->|Hf]; [done|]. by eapply (mi_heads _ _ _ Hm j).
      * intros k j. unfold push. rewrite elem_of_cons, (mi_pending _ _ _ Hm). destruct (decide (j = i)) as [->|Hne].
        -- rewrite list_lookup_insert_eq by done. split.
           ++ intros [[= ->]|(? & ? & Hx & _)]; [by eexists _, _|congruence].
           ++ intros (e' & can' & [= <- <-] & Hk'). left. congruence.
        -- rewrite list_lookup_insert_ne by done. split; [intros [[=]|?]; [done|done]|by right].
      * intros e' can' j. destruct (decide (j = i)) as [->|Hne].
        -- rewrite list_lookup_insert_eq by done. intros [= <- <-]. by eexists.
        -- rewrite list_lookup_insert_ne by done. apply Hm.
      * cbn [push fmap list_fmap]. constructor; [|apply Hm].
        intros ([k j] & Heq & Hin)%list_elem_of_fmap. simpl in Heq. subst j. by apply (Hno k).
    + intros j Hj. simpl. by rewrite !list_lookup_insert_ne.
Qed.

(** *** Taking the least head *)

Lemma pop_Some (p : Pending) x rest : pop p = Some (x, rest) →
  x :: rest ≡ₚ p ∧ ∀ y, y ∈ p → ord_le x.1 y.1.
Proof.
  unfold pop. intros Hp. destruct (sort_on pending_key p) as [|z l] eqn:Eq; [done|]. injection Hp as -> ->.
  pose proof (sort_on_perm pending_key p) as Hperm. rewrite Eq in Hperm. split; [done|].
  intros y Hy. rewrite <-Hperm in Hy. apply elem_of_cons in Hy as [->|Hy]; [done|].
  pose proof (sort_on_sorted pending_key p) as Hs. rewrite Eq in Hs. inversion_clear Hs as [|? ? _ Hf].
  rewrite Forall_forall in Hf. apply list_elem_of_In, Hf in Hy. unfold key_le, pending_key in Hy.
  by apply (ReplayLaws.ord_le_fst (X:=Ordering.OrderingKey)) in Hy.
Qed.

Lemma pop_None (p : Pending) : pop p = None ↔ p = [].
Proof.
  unfold pop. destruct (sort_on pending_key p) eqn:Eq; split; try done.
  - intros _. apply Permutation_nil_r. by rewrite <-Eq, sort_on_perm.
  - intros ->. done.
Qed.

(** Every remaining event is at or behind the head of its index. *)
Lemma head_least m rest y : merge_inv (λ _, True) m rest → y ∈ rest →
  ∃ key i, (key, i) ∈ pending m ∧ (∀ k, Ordering.for_event y = Ok k → ord_le key k).
Proof.
  intros Hm Hy. rewrite <-(mi_perm _ _ _ Hm) in Hy. apply list_elem_of_In, in_concat in Hy as (l & Hl & Hy).
  apply list_elem_of_In, list_elem_of_lookup in Hl as [i Hl]. apply list_elem_of_In in Hy.
  pose proof (mi_sorted _ _ _ Hm) as Hs. rewrite Forall_forall in Hs.
  assert (Hsl : StronglySorted OrderingLaws.event_le l) by (apply Hs, list_elem_of_In; by eapply list_elem_of_lookup_2).
  unfold remainings in Hl. apply lookup_zip_with_Some in Hl as (h & s & -> & Hh & Hsi).
  destruct h as [[e can]|].
  - destruct (mi_keys _ _ _ Hm e can i Hh) as [key Hk]. exists key, i.
    split; [apply (mi_pending _ _ _ Hm); eauto|]. intros k Hyk. unfold remaining in *. simpl in *.
    assert (He : Ordering.for_event e = Ok key) by (unfold Ordering.for_event; by rewrite Hk).
    apply elem_of_cons in Hy as [->|Hy]; [rewrite He in Hyk; by injection Hyk as ->|].
    inversion_clear Hsl as [|? ? _ Hf]. rewrite Forall_forall in Hf. apply list_elem_of_In, Hf in Hy as (k1 & k2 & H1 & H2 & Hle).
    congruence.
  - exfalso. unfold remaining in Hy. rewrite (mi_heads _ _ _ Hm i s I Hh Hsi) in Hy. by apply not_elem_of_nil in Hy.
Qed.

Lemma concat_insert_tail {A} (ls : list (list A)) i x l : ls !! i = Some (x :: l) →
  concat ls ≡ₚ x :: concat (<[i := l]> ls).
Proof.
  revert i. induction ls as [|k ls IH]; intros i; [done|]. destruct i as [|i]; simpl.
  - by intros [= ->].
  - intros Hi%IH. rewrite Hi. symmetry. apply Permutation_middle.
Qed.

(** The popped head is the first of the remaining events, and taking it leaves
    a merge with one index to refill. *)
Lemma pop_inv m x rest : merge_inv (λ _, True) m (x :: rest) →
  StronglySorted OrderingLaws.event_le (x :: rest) → has_keys (x :: rest) → keys_injective (x :: rest) →
  ∃ key i p can s, pop (pending m) = Some ((key, i), p) ∧ heads m !! i = Some (Some (x, can)) ∧ streams m !! i = Some s ∧
    Ordering.for_event_and_canonical x = Ok (key, can) ∧
    merge_inv (λ j, j ≠ i) (mk_merge (streams m) (<[i := None]> (heads m)) p) rest.
Proof.
  intros Hm Hsorted Hkeys Hinj.
  destruct (pop (pending m)) as [[[key i] p]|] eqn:Hpop; last first.
  { apply pop_None in Hpop. destruct (head_least m _ x Hm (list_elem_of_here _ _)) as (key & i & Hin & _).
    rewrite Hpop in Hin. by apply not_elem_of_nil in Hin. }
  apply pop_Some in Hpop as [Hperm Hleast].
  destruct (proj1 (mi_pending _ _ _ Hm key i)) as (e & can & Hh & Hk); [rewrite <-Hperm; left|].
  assert (Hi : (i < length (heads m))%nat) by (by eapply lookup_lt_Some).
  destruct (lookup_lt_is_Some_2 (streams m) i) as [s Hs]; [by rewrite <-(mi_length _ _ _ Hm)|].
  assert (He : e ∈ x :: rest) by (eapply remainings_elem; [done..|left]).
  assert (Hfe : Ordering.for_event e = Ok key) by (unfold Ordering.for_event; by rewrite Hk).
  assert (e = x) as ->.
  { destruct (Hkeys x (list_elem_of_here _ _)) as (kx & canx & Hkx).
    assert (Hfx : Ordering.for_event x = Ok kx) by (unfold Ordering.for_event; by rewrite Hkx).
    destruct (head_least m _ x Hm (list_elem_of_here _ _)) as (key' & i' & Hin & Hle).
    assert (H1 : ord_le key kx) by (etrans; [by apply (Hleast (key', i'))|by apply Hle]).
    apply elem_of_cons in He as [->|He]; [done|]. inversion_clear Hsorted as [|? ? _ Hf]. rewrite Forall_forall in Hf.
    destruct (Hf e) as (k1 & k2 & E1 & E2 & Hle2); [by apply list_elem_of_In|].
    assert (key = kx) as -> by (apply (anti_symm ord_le); congruence).
    apply (Hinj e x kx); [by right|left|done|done]. }
  exists key, i, p, can, s. split_and!; [done|done|done|done|].
  pose proof (remainings_lookup m i _ s Hh Hs) as Hrem. unfold remaining in Hrem. simpl in Hrem.
  assert (Hrems : remainings (mk_merge (streams m) (<[i:=None]> (heads m)) p) = <[i := contents s]> (remainings m)).
  { rewrite <-(list_insert_id (streams m) i s Hs) at 1. apply remainings_insert. }
  pose proof (mi_nodup _ _ _ Hm) as Hnd. rewrite <-Hperm in Hnd. simpl in Hnd. inversion_clear Hnd as [|? ? Hnot Hnd'].
  split; cbn [streams heads pending].
  - rewrite length_insert. apply Hm.
  - rewrite Hrems. apply (Permutation_cons_inv (a:=x)). rewrite <-(mi_perm _ _ _ Hm). symmetry. by apply concat_insert_tail.
  - rewrite Hrems. apply Forall_insert; [apply Hm|]. pose proof (mi_sorted _ _ _ Hm) as Hall. rewrite Forall_forall in Hall.
    assert (Hx : StronglySorted OrderingLaws.event_le (x :: contents s)) by (apply Hall, list_elem_of_In; by eapply list_elem_of_lookup_2).
    by inversion_clear Hx.
  - intros j sj Hj Hhj. rewrite list_lookup_insert_ne in Hhj by done. by apply (mi_heads _ _ _ Hm).
  - intros k j. destruct (decide (j = i)) as [->|Hne].
    + rewrite list_lookup_insert_eq by done. split; [|by intros (? & ? & [=] & _)].
      intros Hin. exfalso. apply Hnot. apply (list_elem_of_fmap_2 snd) in Hin. exact Hin.
    + rewrite list_lookup_insert_ne by done. rewrite <-(mi_pending _ _ _ Hm), <-Hperm, elem_of_cons.
      split; [by right|intros [[= _ ->]|?]; [done|done]].
  - intros e c j. destruct (decide (j = i)) as [->|Hne]; [by rewrite list_lookup_insert_eq|].
    rewrite list_lookup_insert_ne by done. apply Hm.
  - done.
Qed.

(** ** The loops *)

Lemma inv_all filled m rest : (∀ i, (i < length (streams m))%nat → filled i) →
  merge_inv filled m rest → merge_inv (λ _, True) m rest.
Proof.
  intros Hf Hm. destruct Hm as [H1 H2 H3 H4 H5 H6 H7]. split; try done.
  intros i s _ Hh Hs. apply (H4 i s); [|done..]. apply Hf. by eapply lookup_lt_Some.
Qed.

Lemma prime_inv opened m idx rest : has_keys rest → merge_inv (λ j, (j < idx)%nat) m rest →
  length (streams m) = (idx + length opened)%nat →
  (∀ k, (k < length opened)%nat → heads m !! (idx + k)%nat = Some None ∧ streams m !! (idx + k)%nat = opened !! k) →
  ∃ m', prime m idx opened = (Ok (), m') ∧ merge_inv (λ _, True) m' rest.
Proof.
  intros Hkeys. revert m idx. induction opened as [|s opened IH]; intros m idx Hm Hlen Hidx; simpl.
  - exists m. split; [done|]. eapply inv_all; [|exact Hm]. simpl in *. intros. lia.
  - destruct (Hidx 0%nat) as [Hh Hs]; [simpl; lia|]. rewrite Nat.add_0_r in Hh, Hs.
    destruct (refill_inv _ m rest idx s Hm Hkeys Hh Hs) as (m1 & -> & Hm1 & Hl1 & Hsame).
    apply IH.
    + destruct Hm1 as [H1 H2 H3 H4 H5 H6 H7]. split; try done. intros j sj Hj. apply H4. destruct (decide (j = idx)); [by left|right; lia].
    + rewrite Hl1, Hlen. simpl. lia.
    + intros k Hk. destruct (Hsame (idx + 1 + k)%nat) as [E1 E2]; [lia|].
      destruct (Hidx (Datatypes.S k)) as [E3 E4]; [simpl; lia|].
      replace (idx + Datatypes.S k)%nat with (idx + 1 + k)%nat in E3, E4 by lia.
      split; [exact (eq_trans E1 E3)|exact (eq_trans E2 E4)].
Qed.

(** Opened streams, primed: the merge holds all their events. *)
Lemma primed_inv opened rest : concat (contents <$> opened) ≡ₚ rest → Forall (StronglySorted OrderingLaws.event_le) (contents <$> opened) →
  has_keys rest → ∃ m, prime (mk_merge opened (replicate (length opened) None) []) 0 opened = (Ok (), m) ∧ merge_inv (λ _, True) m rest.
Proof.
  intros Hperm Hsorted Hkeys. set (m0 := mk_merge opened (replicate (length opened) None) []).
  assert (Hrem : remainings m0 = contents <$> opened).
  { unfold remainings, m0. simpl. clear. induction opened; [done|]. simpl. by f_equal. }
  assert (Hm0 : merge_inv (λ j, (j < 0)%nat) m0 rest).
  { split; cbn [streams heads pending m0].
    - apply length_replicate.
    - by rewrite Hrem.
    - by rewrite Hrem.
    - intros; lia.
    - intros key i. split; [by intros ?%not_elem_of_nil|]. by intros (? & ? & [[=] _]%lookup_replicate & _).
    - by intros e can i [[=] _]%lookup_replicate.
    - constructor. }
  apply (prime_inv opened m0 0 rest Hkeys Hm0); [done|]. intros j Hj. split; [|done]. by apply lookup_replicate_2.
Qed.

Context {K : Type} (callback : K → ReplayCore → Event.DomainEvent → CoreCommit → result string () * (K * ReplayCore)).

(** The loop over ordered events that the merge stands for. *)
Fixpoint apply_all_with (c : ReplayCore) (k : K) (events : list Event.DomainEvent) : result ReplayError () * ReplayCore * K :=
  match events with
  | [] => (Ok (), c, k)
  | e :: events =>
      match apply_ordered c e with
      | (Err err, c) => (Err err, c, k)
      | (Ok commit, c) =>
          match callback k c e commit with
          | (Err text, (k, c)) => (Err (Callback text), c, k)
          | (Ok _, (k, c)) => apply_all_with c k events
          end
      end
  end.

Lemma merge_loop_inv rest fuel c k m : (length rest < fuel)%nat → merge_inv (λ _, True) m rest →
  StronglySorted OrderingLaws.event_le rest → has_keys rest → keys_injective rest →
  merge_loop callback fuel c k m = Done (apply_all_with c k rest).
Proof.
  revert fuel c k m. induction rest as [|x rest IH]; intros fuel c k m Hf Hm Hsorted Hkeys Hinj;
    (destruct fuel as [|fuel]; [simpl in Hf; lia|]); cbn [merge_loop apply_all_with].
  - destruct (pop (pending m)) as [[[key i] p]|] eqn:Hp; [|done]. exfalso.
    apply pop_Some in Hp as [Hp _]. destruct (proj1 (mi_pending _ _ _ Hm key i)) as (e & can & Hh & _); [rewrite <-Hp; left|].
    destruct (lookup_lt_is_Some_2 (streams m) i) as [s Hs];
      [rewrite <-(mi_length _ _ _ Hm); by eapply lookup_lt_Some|].
    assert (He : e ∈ []) by (eapply remainings_elem; [done..|left]). by apply not_elem_of_nil in He.
  - destruct (pop_inv m x rest Hm Hsorted Hkeys Hinj) as (key & i & p & can & s & -> & Hh & Hs & Hk & Hm1).
    rewrite Hh, Hs. cbn [mjoin option_join streams heads]. unfold apply_ordered. rewrite Hk. cbn [map_err].
    destruct (apply_prepared_ordered c x key can) as [[commit|err] c1]; [|done].
    destruct (callback k c1 x commit) as [[[]|text] [k2 c2]]; [|done].
    assert (Hkeys' : has_keys rest) by (intros e He; apply Hkeys; by right).
    assert (Hinj' : keys_injective rest) by (intros e1 e2 ky He1 He2; apply Hinj; by right).
    destruct (refill_inv _ _ rest i s Hm1 Hkeys') as (m2 & -> & Hm2 & _ & _); [|done|].
    { simpl. rewrite list_lookup_insert_eq; [done|]. by eapply lookup_lt_Some. }
    inversion_clear Hsorted. apply IH; [simpl in Hf; lia| |done..].
    eapply inv_all; [|exact Hm2]. intros j _. destruct (decide (j = i)); [by left|by right].
Qed.

Lemma replay_frozen_multi_with_lemma fuel c plan f k ordered :
  Forall (admits c) (Plan.bindings plan) →
  Forall (StronglySorted OrderingLaws.event_le) (frozen f <$> Plan.bindings plan) →
  Forall OrderingLaws.event_fits (concat (frozen f <$> Plan.bindings plan)) →
  Ordering.order_events (concat (frozen f <$> Plan.bindings plan)) = Ok ordered →
  (length ordered < fuel)%nat →
  ∃ f' r c' k', replay_frozen_multi_with callback fuel c plan f k = Done (r, c', (f', k')) ∧
    apply_all_with c k ordered = (r, c', k').
Proof.
  intros Hadm Hsorted Hfit Hord Hfuel. unfold replay_frozen_multi_with.
  destruct (open_streams_Ok c f _ Hadm) as (opened & f' & -> & Hopened).
  destruct (OrderingLaws.order_events_keys _ _ Hfit Hord) as [Hkeys Hinj].
  destruct (OrderingLaws.order_events_unique_sorted _ _ Hfit Hord) as (Hperm & Hs & _).
  assert (Hkeys' : has_keys ordered) by (intros e He; apply Hkeys; by rewrite <-Hperm).
  assert (Hinj' : keys_injective ordered) by (intros e1 e2 ky He1 He2; apply Hinj; by rewrite <-Hperm).
  destruct (primed_inv opened ordered) as (m1 & -> & Hm1); [by rewrite Hopened|by rewrite Hopened|done|].
  rewrite (merge_loop_inv ordered) by done. destruct (apply_all_with c k ordered) as [[r c'] k'].
  by exists f', r, c', k'.
Qed.

(** C2: merging the streams of a plan, with whatever callback, is the loop over
    their events in the one order of order_events: it ends within one step
    per event and one more, never panics on a merge head, and fails exactly
    where the loop fails, with the same core. *)
Theorem replay_frozen_multi_with_spec fuel c plan f k ordered :
  Forall (admits c) (Plan.bindings plan) →
  Forall (StronglySorted OrderingLaws.event_le) (frozen f <$> Plan.bindings plan) →
  Forall OrderingLaws.event_fits (concat (frozen f <$> Plan.bindings plan)) →
  Ordering.order_events (concat (frozen f <$> Plan.bindings plan)) = Ok ordered →
  (length ordered < fuel)%nat →
  ∃ f' r c' k', replay_frozen_multi_with callback fuel c plan f k = Done (r, c', (f', k')) ∧
    apply_all_with c k ordered = (r, c', k').
Proof. apply replay_frozen_multi_with_lemma. Qed.

End merge.

Section no_callback.
Context {B : Blake3} {F S E : Type} `{!Plan.EventStream S E, !FiniteStream S E, !Plan.ReplayStreamFactory F S E,
  !FrozenFactory F S E, !ErrorText E}.

Lemma apply_all_no_callback c es : apply_all_with no_callback c () es = (apply_all c es, ()).
Proof. revert c. induction es as [|e es IH]; intros c; [done|]. simpl. by destruct (apply_ordered c e) as [[r|err] c1]. Qed.

(** C1: the bounded-memory replay of a plan equals the in-memory replay of all
    its events, with the same result and the same final core. *)
Theorem replay_frozen_multi_is_replay fuel c plan f ordered :
  Forall (admits c) (Plan.bindings plan) →
  Forall (StronglySorted OrderingLaws.event_le) (frozen f <$> Plan.bindings plan) →
  Forall OrderingLaws.event_fits (concat (frozen f <$> Plan.bindings plan)) →
  Ordering.order_events (concat (frozen f <$> Plan.bindings plan)) = Ok ordered →
  (length ordered < fuel)%nat →
  ∃ f', replay_frozen_multi fuel c plan f =
    Done (replay c (concat (frozen f <$> Plan.bindings plan)), (f', ())).
Proof.
  intros Hadm Hsorted Hfit Hord Hfuel. unfold replay_frozen_multi, replay. rewrite Hord. cbn [map_err].
  destruct (replay_frozen_multi_with_lemma no_callback fuel c plan f () ordered Hadm Hsorted Hfit Hord Hfuel)
    as (f' & r & c' & [] & -> & Happ).
  rewrite apply_all_no_callback in Happ. injection Happ as ->. by exists f'.
Qed.
End no_callback.
(** ** A plan of two list streams *)

Definition list_stream : Type := list Event.DomainEvent.
Definition list_factory : Type := Plan.ReplayStreamBinding → list Event.DomainEvent.
#[local] Instance list_event_stream : Plan.EventStream list_stream Empty_set :=
  λ s, match s with [] => (Ok None, []) | e :: s => (Ok (Some e), s) end.
#[local] Instance list_stream_factory : Plan.ReplayStreamFactory list_factory list_stream Empty_set :=
  λ f b, (Ok (f b), f).
#[local] Instance list_finite : FiniteStream list_stream Empty_set.
Proof. refine {| contents s := s |}. intros [|e s]; by eexists. Defined.
#[local] Instance list_frozen : FrozenFactory list_factory list_stream Empty_set.
Proof. refine {| frozen f := f |}. intros f b. by exists (f b), f. Defined.
#[local] Instance no_text : ErrorText Empty_set := λ e, match e with end.
#[local] Instance demo_hash : Blake3 := λ b, b.

Definition demo_binding (id : Z) : Plan.ReplayStreamBinding :=
  Plan.new_binding [id] ReplayLaws.demo_instrument ReplayLaws.demo_date [] [].
Definition demo_factory : list_factory := λ b,
  if bool_decide (Plan.descriptor_id b = [1]) then [ReplayLaws.demo_event 5; ReplayLaws.demo_event 15]
  else [ReplayLaws.demo_event 3; ReplayLaws.demo_event 5; ReplayLaws.demo_event 17].
Definition demo_plan : Plan.ReplayPlan := Plan.mk_plan [] [demo_binding 1; demo_binding 2] [].
Definition demo_events : list Event.DomainEvent :=
  ReplayLaws.demo_event <$> [5; 15; 3; 5; 17].

Lemma demo_admits : Forall (admits ReplayLaws.demo_core) (Plan.bindings demo_plan).
Proof. repeat (apply (Forall_cons_2 _); [eexists; split; [by vm_compute|by left]|]). apply Forall_nil_2. Qed.
Lemma demo_sorted : Forall (StronglySorted OrderingLaws.event_le) (frozen demo_factory <$> Plan.bindings demo_plan).
Proof.
  repeat (apply (Forall_cons_2 _); [repeat constructor|]); [..|apply Forall_nil_2];
    (do 2 eexists; split_and!; [vm_compute; reflexivity|vm_compute; reflexivity|by vm_compute]).
Qed.
Lemma streams_fit : Forall OrderingLaws.event_fits (concat (frozen demo_factory <$> Plan.bindings demo_plan)).
Proof.
  assert (H : ∀ t, is_i64 t → (∃ b, Event.to_canonical_bytes (ReplayLaws.demo_event t) = Ok b ∧ zlen b ≤ isize_max) →
    OrderingLaws.event_fits (ReplayLaws.demo_event t)).
  { intros t Ht (b & Hb & Hl). split; [by apply EventCodec.sample_at_wf|]. intros b'. rewrite Hb. by intros [= <-]. }
  repeat (apply (Forall_cons_2 _); [apply H; [by unfold_ints|eexists; split; [vm_compute; reflexivity|by vm_compute]]|]).
  apply Forall_nil_2.
Qed.
Lemma demo_ordered : ∃ ordered, Ordering.order_events (concat (frozen demo_factory <$> Plan.bindings demo_plan)) = Ok ordered ∧
  (length ordered < 6)%nat.
Proof. eexists. split; [vm_compute; reflexivity|simpl; lia]. Qed.

Lemma replay_stream_spec_witness : ∃ s', replay_stream 3 ReplayLaws.demo_core (demo_factory (demo_binding 1) : list_stream) =
  Done (Ok (), ReplayLaws.demo_done, s').
Proof.
  destruct (replay_stream_spec ReplayLaws.demo_core (demo_factory (demo_binding 1) : list_stream) 3) as [s' H]; [vm_compute; lia|].
  exists s'. rewrite H. by vm_compute.
Defined.

Lemma replay_frozen_multi_with_spec_witness : ∃ f' r c' k',
  replay_frozen_multi_with (λ n c _ _, (Ok (), (S n, c))) 6 ReplayLaws.demo_core demo_plan demo_factory 0%nat = Done (r, c', (f', k')).
Proof.
  destruct demo_ordered as (ordered & Hord & Hlen).
  destruct (replay_frozen_multi_with_spec (λ n c _ _, (Ok (), (S n, c))) 6 ReplayLaws.demo_core demo_plan demo_factory 0%nat ordered
    demo_admits demo_sorted streams_fit Hord Hlen) as (f' & r & c' & k' & H & _). by exists f', r, c', k'.
Defined.

Lemma replay_frozen_multi_is_replay_witness : ∃ f',
  replay_frozen_multi 6 ReplayLaws.demo_core demo_plan demo_factory = Done (replay ReplayLaws.demo_core demo_events, (f', ())).
Proof.
  destruct demo_ordered as (ordered & Hord & Hlen).
  exact (replay_frozen_multi_is_replay 6 ReplayLaws.demo_core demo_plan demo_factory ordered
    demo_admits demo_sorted streams_fit Hord Hlen).
Defined.

End ReplayMerge.
