(* ===== verification/Orders.v ===== *)
(** The order and trading-context types of strategy-api: order intents with
    their canonical bytes, order feedback (orders.rs), and the trading context
    an event puts a strategy in (context.rs). *)
From S2P Require Import Prelude Order Text Numeric Quantity Calendar Book Identity Signal Codec Values Event MarketState.
From S2P Require Import Replay.

(** ** orders.rs *)
Module Orders.
Import Writer(push, extend, append_bytes).

Definition ORDER_INTENT_VERSION : Z := 1.

Inductive OrderSide : Set := Buy | Sell.
Inductive OrderType : Set := MarketOrder | Limit (limit_price : Price.Price).
Inductive TimeInForce : Set := Day.

#[global] Instance OrderSide_eq_dec : EqDecision OrderSide.
Proof. solve_decision. Defined.
#[global] Instance OrderType_eq_dec : EqDecision OrderType.
Proof. solve_decision. Defined.

Definition side_discriminant (s : OrderSide) : Z := match s with Buy => 1 | Sell => 2 end.
Definition tif_discriminant (t : TimeInForce) : Z := match t with Day => 1 end.

Record OrderIntent : Set := new_intent {
  instrument : Instrument.InstrumentId; side : OrderSide; quantity : Quantity.Quantity; order_type : OrderType }.
Definition time_in_force (i : OrderIntent) : TimeInForce := Day.

Definition append_order_type (t : OrderType) : Writer.Writer :=
  match t with
  | MarketOrder => push 1
  | Limit limit_price => push 2 ▷ extend (Price.to_canonical_bytes limit_price)
  end.
Definition encode_intent (i : OrderIntent) : Writer.Writer :=
  extend (bytes_of "OSOI") ▷ extend (be_bytes 2 ORDER_INTENT_VERSION) ▷
  push (Market.discriminant (Instrument.market (instrument i))) ▷
  append_bytes (Symbol.as_bytes (Instrument.symbol (instrument i))) ▷
  push (side_discriminant (side i)) ▷ extend (Quantity.to_canonical_bytes (quantity i)) ▷
  append_order_type (order_type i) ▷ push (tif_discriminant (time_in_force i)).
Definition to_canonical_bytes (i : OrderIntent) : result Writer.CanonicalEncodingError (list Z) := encode_intent i [].

(** [OrderId]: 32 bytes. *)
Definition OrderId : Type := list Z.

Inductive RejectionReason : Set :=
| InstrumentOutsideUniverse | QuantityUnitMismatch | NewOrderEntryBlocked | UnsupportedOrderType
| PriceNotAllowedByInstrumentProfile.
Inductive CancellationReason : Set :=
| EndOfRun | SegmentEnd | VolatilityInterruption | Expired | Replaced | StrategyCancelled.
Inductive ExecutionFailureReason : Set :=
| MissingVisibleDepth | StaleVisibleDepth | MatchingDisabled | FailedNewOrderEntryBlocked
| InsufficientVisibleDepth | PriceNotMarketable.

Inductive OrderFeedback : Set :=
| Accepted (order_id : list Z)
| Activated (order_id : list Z)
| Rejected (reason : RejectionReason)
| PartiallyFilled (order_id : list Z) (filled remaining : Quantity.Quantity)
| Filled (order_id : list Z) (filled : Quantity.Quantity)
| Cancelled (order_id : list Z) (reason : CancellationReason)
| ExecutionFailed (order_id : list Z) (reason : ExecutionFailureReason) (filled : option Quantity.Quantity)
    (remaining : Quantity.Quantity)
| MatchAttempted (order_id : list Z) (filled : option Quantity.Quantity) (remaining : Quantity.Quantity).

End Orders.

(** ** context.rs *)
Module Trading.

Definition WARM_UP_MICROSECONDS : Z := 5 * 60 * 1000000.

Inductive SessionKind : Set := RegularSession | AfterHours.
Inductive SessionPhase : Set := WarmUp | Active | CoolDown.
#[global] Instance SessionPhase_eq_dec : EqDecision SessionPhase.
Proof. solve_decision. Defined.

Inductive ContextError : Set :=
| InvalidSessionWindow | SessionWindowOverflow | OutsideReplayWindow | TradingDateMismatch | InstrumentMismatch
| SegmentMismatch | StateVersionMismatch | MissingAppliedEvent | EventIdentityMismatch.

Record SessionSegment : Set := mk_segment {
  id : Model.SessionSegmentId; kind : SessionKind; trading_date : TradingDate.TradingDate;
  open : MatchTime.MatchTime; close : MatchTime.MatchTime }.

Definition replay_window (s : SessionSegment) : result ContextError (Z * Z) :=
  replay_start ← ok_or (to_i64 (MatchTime.as_unix_microseconds (open s) - WARM_UP_MICROSECONDS)) SessionWindowOverflow;
  replay_end ← ok_or (to_i64 (MatchTime.as_unix_microseconds (close s) + WARM_UP_MICROSECONDS)) SessionWindowOverflow;
  Ok (replay_start, replay_end).

Definition new_segment (i : Model.SessionSegmentId) (k : SessionKind) (d : TradingDate.TradingDate)
    (o c : MatchTime.MatchTime) : result ContextError SessionSegment :=
  reject bool_decide (cmp o c ≠ Lt) with InvalidSessionWindow;;
  let s := mk_segment i k d o c in
  _ ← replay_window s;
  Ok s.

Definition segment_phase (s : SessionSegment) (t : MatchTime.MatchTime) : result ContextError SessionPhase :=
  let value := MatchTime.as_unix_microseconds t in
  '(replay_start, replay_end) ← replay_window s;
  reject (value <? replay_start) || (replay_end <=? value) with OutsideReplayWindow;;
  Ok (if bool_decide (cmp t (open s) = Lt) then WarmUp
      else if bool_decide (cmp t (close s) ≠ Gt) then Active else CoolDown).

Record SessionCallbackContext : Set := mk_session {
  segment_id : Model.SessionSegmentId; session_kind : SessionKind; phase : SessionPhase }.

Inductive OrderRestrictionReason : Set := PreOpenLimitOrdersOnly | AuctionCollecting.
Inductive OrderBlockReason : Set := BlockedCoolDown | ClosingResult.
Inductive NewOrderEntry : Set :=
| Allowed | Restricted (r : OrderRestrictionReason) | Blocked (r : OrderBlockReason) | UnknownEntry.
Inductive MatchingState : Set := Enabled (m : Annotations.MatchingMethod) | MatchingClosed | UnknownMatching.

Record TradingContext : Set := mk_context {
  event_fingerprint : list Z; instrument_state_version : Z; session : SessionCallbackContext;
  new_order_entry : NewOrderEntry; matching : MatchingState; auction : option Signal.AuctionObservation;
  market_signal : option Signal.MarketSignal; market_rule_name : string; market_rule_version : Z }.

Definition matching_for_signal (signal : Observation.Observation Signal.MarketSignal)
    (state_phase : Model.StateField Model.MarketPhase) : MatchingState * option Signal.AuctionObservation :=
  match signal with
  | Observation.Set_ Signal.Continuous => (Enabled Annotations.Continuous, None)
  | Observation.Set_ (Signal.AuctionCollecting o) | Observation.Set_ (Signal.AuctionUncross o) =>
      (Enabled Annotations.CallAuction, Some o)
  | Observation.Set_ Signal.Closed => (MatchingClosed, None)
  | Observation.NoObservation =>
      match Model.known state_phase with
      | Some Model.Continuous => (Enabled Annotations.Continuous, None)
      | Some (Model.Auction a) => (Enabled Annotations.CallAuction, Some (Model.observation a))
      | Some Model.Closed => (MatchingClosed, None)
      | None => (UnknownMatching, None)
      end
  | Observation.Clear | Observation.Unknown _ => (UnknownMatching, None)
  end.

Definition collecting_restriction (o : Signal.AuctionObservation) : OrderRestrictionReason :=
  match Signal.purpose o with
  | Signal.Known Signal.Opening => PreOpenLimitOrdersOnly
  | _ => AuctionCollecting
  end.

Definition order_entry_for_signal (signal : Observation.Observation Signal.MarketSignal) (m : MatchingState)
    (a : option Signal.AuctionObservation) (session_phase : SessionPhase) : NewOrderEntry :=
  if bool_decide (session_phase = CoolDown) then Blocked BlockedCoolDown else
  match signal with
  | Observation.Set_ (Signal.AuctionCollecting o) => Restricted (collecting_restriction o)
  | Observation.Set_ (Signal.AuctionUncross o) =>
      match Signal.purpose o with
      | Signal.Known Signal.Closing => Blocked ClosingResult
      | Signal.Known Signal.Periodic => Restricted AuctionCollecting
      | Signal.Known Signal.Opening | Signal.Known Signal.VolatilityInterruption => Allowed
      | Signal.NoObservation | Signal.Unknown => UnknownEntry
      end
  | Observation.Set_ Signal.Closed => Blocked ClosingResult
  | Observation.Set_ Signal.Continuous => Allowed
  | Observation.NoObservation =>
      match a with
      | Some o => Restricted (collecting_restriction o)
      | None =>
          match m with MatchingClosed => Blocked ClosingResult | Enabled _ => Allowed | UnknownMatching => UnknownEntry end
      end
  | Observation.Clear | Observation.Unknown _ => UnknownEntry
  end.

Definition validate_event_state (e : Event.DomainEvent) (occ : Replay.EventOccurrence) (s : Model.MarketState)
    (segment : SessionSegment) : result ContextError () :=
  reject bool_decide (Event.trading_date e ≠ trading_date segment) || bool_decide (Model.trading_date s ≠ trading_date segment)
    with TradingDateMismatch;;
  reject bool_decide (Event.instrument e ≠ Model.instrument s) with InstrumentMismatch;;
  reject bool_decide (Model.current_segment_id s ≠ Some (id segment)) with SegmentMismatch;;
  reject negb (Replay.instrument_state_version occ =? Model.state_version s) with StateVersionMismatch;;
  last_event ← ok_or (Model.last_event s) MissingAppliedEvent;
  reject bool_decide (Model.ref_event_fingerprint last_event ≠ Replay.event_fingerprint occ)
      || bool_decide (Model.ref_match_time last_event ≠ Event.match_time e)
    with EventIdentityMismatch;;
  Ok ().

Definition evaluate (e : Event.DomainEvent) (occ : Replay.EventOccurrence) (s : Model.MarketState)
    (segment : SessionSegment) : result ContextError TradingContext :=
  _ ← validate_event_state e occ s segment;
  p ← segment_phase segment (Event.match_time e);
  let signal := Event.payload_signal (Event.payload e) in
  let '(m, a) := matching_for_signal signal (Model.phase s) in
  let entry := order_entry_for_signal signal m a p in
  Ok (mk_context (Replay.event_fingerprint occ) (Replay.instrument_state_version occ)
        (mk_session (id segment) (kind segment) p) entry m a (Observation.as_set signal) "market.signal" 3).

End Trading.
