(* ===== verification/Depth.v ===== *)
(** Visible-depth execution (depth.rs of execution-sim): the sweep of the
    displayed levels, the quantity a strategy has consumed of them, and the
    all-or-nothing execution of several legs. *)
From S2P Require Import Prelude Order Text Numeric Quantity Calendar Book Identity Orders.

Module Depth.
Import Orders(OrderSide, OrderType, Buy, Sell, MarketOrder, Limit).

Record LevelFill : Set := mk_fill { level_index : Z; price : Price.Price; quantity : Quantity.Quantity }.
Record DepthSweepResult : Set := mk_sweep {
  fills : list LevelFill; requested : Quantity.Quantity; filled_value : Z }.

Inductive DepthSweepError : Set :=
| InvalidDepthLevels (levels : Z) | InvalidAdversePriceDelta
| ConsumedQuantityExceedsDisplayed (level_index : Z)
| QuantityUnitMismatch (expected actual : Quantity.QuantityUnit) | QuantityOverflow.

(** How a sweep fails: with its error type, or by a failed [expect] or an index
    out of range, which [sweep_total] excludes. *)
Inductive Failure : Set := Returned (e : DepthSweepError) | Panicked.

Definition filled (r : DepthSweepResult) : option Quantity.Quantity :=
  res_ok (Quantity.new (filled_value r) (Quantity.unit (requested r))).
Definition remaining (r : DepthSweepResult) : option Quantity.Quantity :=
  res_ok (Quantity.new (Quantity.value (requested r) - filled_value r) (Quantity.unit (requested r))).
Definition is_complete (r : DepthSweepResult) : bool := filled_value r =? Quantity.value (requested r).

Definition apply_adverse_price (p : Price.Price) (side : OrderSide) (adverse_price_delta : Decimal.Decimal) :
    result Failure Price.Price :=
  let adjusted :=
    match side with
    | Buy => Decimal.checked_add (Price.as_decimal p) adverse_price_delta
    | Sell => Decimal.checked_sub (Price.as_decimal p) adverse_price_delta
    end in
  Price.new <$> map_err (λ _, Returned InvalidAdversePriceDelta) adjusted.

Definition is_marketable (p : Price.Price) (side : OrderSide) (t : OrderType) : bool :=
  match t with
  | MarketOrder => true
  | Limit limit_price =>
      match side with Buy => Price.le p limit_price | Sell => Price.le limit_price p end
  end.

(** The loop over the levels, [index] counting from zero. *)
Fixpoint sweep_levels (side : OrderSide) (unit : Quantity.QuantityUnit) (order_type : OrderType)
    (adverse_price_delta : Decimal.Decimal) (consumed : list Z) (index : nat) (levels : list Book.BookLevel)
    (remaining : Z) : result Failure (list LevelFill * Z) :=
  match levels with
  | [] => Ok ([], remaining)
  | level :: levels =>
      if remaining =? 0 then Ok ([], remaining) else
      p ← apply_adverse_price (Book.price level) side adverse_price_delta;
      if negb (is_marketable p side order_type) then Ok ([], remaining) else
      c ← ok_or (consumed !! index) Panicked;
      available ← ok_or (to_u64 (Quantity.value (Book.displayed_quantity level) - c))
                    (Returned (ConsumedQuantityExceedsDisplayed (Z.of_nat index + 1)));
      if available =? 0 then
        sweep_levels side unit order_type adverse_price_delta consumed (S index) levels remaining
      else
        let fill_value := Z.min remaining available in
        q ← map_err (λ _, Panicked) (Quantity.new fill_value unit);
        '(fills, remaining) ←
          sweep_levels side unit order_type adverse_price_delta consumed (S index) levels (remaining - fill_value);
        Ok (mk_fill (Z.of_nat index + 1) p q :: fills, remaining)
  end.

Definition side_levels (book : Book.CompleteBookSnapshot) (side : OrderSide) : list Book.BookLevel :=
  match side with Buy => Book.levels (Book.asks book) | Sell => Book.levels (Book.bids book) end.

Definition sweep_marketable_depth_with_consumed (book : Book.CompleteBookSnapshot) (side : OrderSide)
    (requested : Quantity.Quantity) (depth_levels : Z) (order_type : OrderType)
    (adverse_price_delta : Decimal.Decimal) (consumed : list Z) : result Failure DepthSweepResult :=
  reject negb (in_range 1 (Z.of_nat Book.BOOK_DEPTH) depth_levels) with Returned (InvalidDepthLevels depth_levels);;
  reject Decimal.atoms adverse_price_delta <? 0 with Returned InvalidAdversePriceDelta;;
  reject match Book.quantity_unit book with
         | Some actual => bool_decide (actual ≠ Quantity.unit requested)
         | None => false
         end
    with Returned (QuantityUnitMismatch (Quantity.unit requested)
                     (default (Quantity.unit requested) (Book.quantity_unit book)));;
  '(fills, remaining) ←
    sweep_levels side (Quantity.unit requested) order_type adverse_price_delta consumed 0
      (take (Z.to_nat depth_levels) (side_levels book side)) (Quantity.value requested);
  Ok (mk_sweep fills requested (Quantity.value requested - remaining)).

Definition no_consumption : list Z := replicate Book.BOOK_DEPTH 0.

Definition sweep_marketable_depth (book : Book.CompleteBookSnapshot) (side : OrderSide)
    (requested : Quantity.Quantity) (depth_levels : Z) (order_type : OrderType)
    (adverse_price_delta : Decimal.Decimal) : result Failure DepthSweepResult :=
  sweep_marketable_depth_with_consumed book side requested depth_levels order_type adverse_price_delta no_consumption.

Definition sweep_visible_depth (book : Book.CompleteBookSnapshot) (side : OrderSide)
    (requested : Quantity.Quantity) (depth_levels : Z) : result Failure DepthSweepResult :=
  sweep_marketable_depth book side requested depth_levels MarketOrder Decimal.ZERO.

(** ** Consumable depth *)

Record ConsumableDepth : Set := mk_depth {
  book : Book.CompleteBookSnapshot; consumed_bids : list Z; consumed_asks : list Z }.

Definition new (b : Book.CompleteBookSnapshot) : ConsumableDepth := mk_depth b no_consumption no_consumption.
Definition replace (b : Book.CompleteBookSnapshot) (d : ConsumableDepth) : ConsumableDepth :=
  mk_depth b no_consumption no_consumption.

Definition consumed_on (d : ConsumableDepth) (side : OrderSide) : list Z :=
  match side with Buy => consumed_asks d | Sell => consumed_bids d end.
Definition set_consumed (side : OrderSide) (l : list Z) (d : ConsumableDepth) : ConsumableDepth :=
  match side with
  | Buy => mk_depth (book d) (consumed_bids d) l
  | Sell => mk_depth (book d) l (consumed_asks d)
  end.

Definition preview (d : ConsumableDepth) (side : OrderSide) (requested : Quantity.Quantity) (depth_levels : Z) :
    result Failure DepthSweepResult :=
  sweep_marketable_depth_with_consumed (book d) side requested depth_levels MarketOrder Decimal.ZERO (consumed_on d side).

Definition consume_fill (consumed : list Z) (f : LevelFill) : result Failure (list Z) :=
  let index := Z.to_nat (level_index f - 1) in
  c ← ok_or (consumed !! index) Panicked;
  c' ← ok_or (to_u64 (c + Quantity.value (quantity f))) (Returned QuantityOverflow);
  Ok (<[index := c']> consumed).
Definition apply (d : ConsumableDepth) (side : OrderSide) (sweep : DepthSweepResult) : result Failure ConsumableDepth :=
  consumed ← try_fold consume_fill (consumed_on d side) (fills sweep);
  Ok (set_consumed side consumed d).

(** ** Several legs at once *)

Record AtomicDepthLeg : Set := mk_leg { instrument : Instrument.InstrumentId; side : OrderSide }.
Record AtomicDepthFill : Set := mk_leg_fill { leg : AtomicDepthLeg; sweep : DepthSweepResult }.
Abbreviation Books := (gmap Instrument.InstrumentId ConsumableDepth).

(** [staged]: a copy of the book of each leg's instrument. [None] is the early
    [return Ok(None)]. *)
Fixpoint stage (books staged : Books) (legs : list AtomicDepthLeg) : option Books :=
  match legs with
  | [] => Some staged
  | l :: legs =>
      book ← books !! instrument l;
      stage books (match staged !! instrument l with Some _ => staged | None => <[instrument l := book]> staged end) legs
  end.

Fixpoint fill_legs (staged : Books) (requested : Quantity.Quantity) (depth_levels : Z) (legs : list AtomicDepthLeg) :
    result Failure (option (list AtomicDepthFill * Books)) :=
  match legs with
  | [] => Ok (Some ([], staged))
  | l :: legs =>
      match staged !! instrument l with
      | None => Ok None
      | Some book =>
          sw ← preview book (side l) requested depth_levels;
          if negb (is_complete sw) then Ok None else
          book ← apply book (side l) sw;
          rest ← fill_legs (<[instrument l := book]> staged) requested depth_levels legs;
          Ok match rest with Some (fills, staged) => Some (mk_leg_fill l sw :: fills, staged) | None => None end
      end
  end.

(** The books are a [&mut]: the staged ones are inserted only at the end. *)
Definition execute_atomic_depth (books : Books) (legs : list AtomicDepthLeg) (requested : Quantity.Quantity)
    (depth_levels : Z) : result Failure (option (list AtomicDepthFill)) * Books :=
  match stage books ∅ legs with
  | None => (Ok None, books)
  | Some staged =>
      match fill_legs staged requested depth_levels legs with
      | Err e => (Err e, books)
      | Ok None => (Ok None, books)
      | Ok (Some (fills, staged)) =>
          (Ok (Some fills), foldl (λ m '(i, book), <[i := book]> m) books (btree_entries staged))
      end
  end.

End Depth.
