(* ===== verification/DepthLaws.v ===== *)
(** The theorems of visible-depth execution: the sweep takes from each level
    exactly what price priority leaves for it, and several legs are executed
    all or not at all without ever over-consuming a level. *)
From S2P Require Import Prelude Order Text Numeric Quantity Calendar Book Identity Orders Depth.

Module DepthLaws.
Import Depth Orders(OrderSide, OrderType, Buy, Sell, MarketOrder, Limit).

Definition sum_list (l : list Z) : Z := foldr Z.add 0 l.
Lemma sum_list_app l k : sum_list (l ++ k) = sum_list l + sum_list k.
Proof. unfold sum_list. induction l; simpl in *; lia. Qed.
Lemma sum_list_nonneg l : Forall (λ x, 0 ≤ x) l → 0 ≤ sum_list l.
Proof. unfold sum_list. induction 1; simpl in *; lia. Qed.

(** ** What the sweep should take *)

(** The quantity taken from level [i], counting from one. *)
Definition filled_at (fs : list LevelFill) (i : Z) : Z :=
  sum_list ((λ f, if level_index f =? i then Quantity.value (quantity f) else 0) <$> fs).

(** What the levels offer, up to the first one that cannot be traded. *)
Fixpoint offered (side : OrderSide) (t : OrderType) (delta : Decimal.Decimal) (consumed : list Z) (levels : list Book.BookLevel) :
    list Z :=
  match levels, consumed with
  | level :: levels, c :: consumed =>
      match apply_adverse_price (Book.price level) side delta with
      | Ok p => if is_marketable p side t
                then Quantity.value (Book.displayed_quantity level) - c :: offered side t delta consumed levels
                else []
      | Err _ => []
      end
  | _, _ => []
  end.

(** Price priority: a level gets what the better ones leave, up to its offer. *)
Definition due (offers : list Z) (requested : Z) (i : nat) : Z :=
  Z.max 0 (Z.min (default 0 (offers !! i)) (requested - sum_list (take i offers))).

(** A fill comes from one of [levels], the first of which is level [n], at
    that level's adverse price. *)
Definition fill_of (side : OrderSide) (t : OrderType) (delta : Decimal.Decimal) (unit : Quantity.QuantityUnit)
    (levels : list Book.BookLevel) (n : nat) (f : LevelFill) : Prop :=
  ∃ i level, level_index f = Z.of_nat (n + i) + 1 ∧ levels !! i = Some level ∧
    apply_adverse_price (Book.price level) side delta = Ok (price f) ∧ is_marketable (price f) side t = true ∧
    Quantity.wf (quantity f) ∧ Quantity.unit (quantity f) = unit ∧
    Quantity.value (quantity f) ≤ Quantity.value (Book.displayed_quantity level).

(** No more is consumed of a level than it displays. *)
Definition room (level : Book.BookLevel) (c : Z) : Prop := 0 ≤ c ≤ Quantity.value (Book.displayed_quantity level).

Section sweep.
Context (side : OrderSide) (t : OrderType) (delta : Decimal.Decimal) (unit : Quantity.QuantityUnit).

Lemma filled_at_low fs i : Forall (λ f, i < level_index f) fs → filled_at fs i = 0.
Proof.
  unfold filled_at. induction 1 as [|f fs Hf _ IH]; [done|]. rewrite fmap_cons. cbn [sum_list foldr].
  destruct (Z.eqb_spec (level_index f) i); [lia|]. exact IH.
Qed.

Lemma filled_at_cons f fs i : filled_at (f :: fs) i =
  (if level_index f =? i then Quantity.value (quantity f) else 0) + filled_at fs i.
Proof. done. Qed.

Lemma offered_nonneg levels cs : Forall2 room levels cs → Forall (λ x, 0 ≤ x) (offered side t delta cs levels).
Proof.
  induction 1 as [|level c levels cs Hr _ IH]; simpl; [constructor|]. unfold room in Hr.
  destruct (apply_adverse_price _ _ _); [|constructor]. destruct (is_marketable _ _ _); constructor; [lia|done].
Qed.

Lemma due_nil q i : due [] q i = 0.
Proof. unfold due. rewrite take_nil. simpl. lia. Qed.
Lemma due_zero_offer offers q i : due (0 :: offers) q (S i) = due offers q i.
Proof. unfold due. cbn [lookup list_lookup take sum_list foldr]. by rewrite Z.add_0_l. Qed.
Lemma due_head x offers q : 0 ≤ x → 0 ≤ q → due (x :: offers) q 0 = Z.min x q.
Proof. unfold due. simpl. lia. Qed.
Lemma due_tail x offers q i : due (x :: offers) q (S i) = due offers (q - x) i.
Proof. unfold due. cbn [lookup list_lookup take sum_list foldr]. f_equal. f_equal. unfold sum_list. lia. Qed.
Lemma due_spent offers q i : q ≤ 0 → Forall (λ x, 0 ≤ x) offers → due offers q i = 0.
Proof.
  intros Hq Ho. unfold due. pose proof (sum_list_nonneg _ (Forall_take _ i _ Ho)). lia.
Qed.

Lemma adverse_price_Err p e : apply_adverse_price p side delta = Err e → e = Returned InvalidAdversePriceDelta.
Proof.
  unfold apply_adverse_price. set (adjusted := match side with Buy => _ | Sell => _ end).
  destruct adjusted; simpl; [done|by intros [= <-]].
Qed.

(** The loop against its specification, from any level on. *)
Definition swept (pre : nat) (offers : list Z) (remaining : Z) (r : result Failure (list LevelFill * Z)) : Prop :=
  match r with
  | Ok (fs, remaining') =>
      remaining' = remaining - Z.min remaining (sum_list offers) ∧
      Forall (λ f, Z.of_nat pre < level_index f) fs ∧ StronglySorted (λ f g, level_index f < level_index g) fs ∧
      ∀ i, filled_at fs (Z.of_nat (pre + i) + 1) = due offers remaining i
  | Err e => e = Returned InvalidAdversePriceDelta
  end.

Lemma swept_nothing pre offers remaining : Forall (λ x, 0 ≤ x) offers → remaining = 0 ∨ offers = [] → 0 ≤ remaining →
  swept pre offers remaining (Ok ([], remaining)).
Proof.
  intros Ho Hor Hr. pose proof (sum_list_nonneg _ Ho). split_and!.
  - destruct Hor as [->| ->]; [lia|]. unfold sum_list. simpl. lia.
  - constructor.
  - constructor.
  - intros i. destruct Hor as [->| ->]; [by rewrite due_spent|by rewrite due_nil].
Qed.

(** One level further on. *)
Lemma swept_skip pre offers remaining r : swept (S pre) offers remaining r → swept pre (0 :: offers) remaining r.
Proof.
  destruct r as [[fs rem']|e]; [|done]. intros (Hr & Hl & Hs & Hf). split_and!; [done| |done|].
  - eapply Forall_impl; [|exact Hl]. intros f Hlt. cbv beta in *. lia.
  - intros [|i].
    + rewrite filled_at_low; [unfold due; simpl; lia|]. eapply Forall_impl; [|exact Hl]. intros f Hlt. cbv beta in *. lia.
    + rewrite due_zero_offer, <-Hf. f_equal. lia.
Qed.

Lemma swept_take pre x offers remaining p q fs rem' : 0 < x → 0 < remaining → Forall (λ x, 0 ≤ x) offers →
  Quantity.value q = Z.min remaining x →
  swept (S pre) offers (remaining - Z.min remaining x) (Ok (fs, rem')) →
  swept pre (x :: offers) remaining (Ok (mk_fill (Z.of_nat pre + 1) p q :: fs, rem')).
Proof.
  intros Hx Hrem Ho Hq (Hr & Hl & Hs & Hf). pose proof (sum_list_nonneg _ Ho). split_and!.
  - change (sum_list (x :: offers)) with (x + sum_list offers). lia.
  - constructor; [simpl; lia|]. eapply Forall_impl; [|exact Hl]. intros f Hlt. cbv beta in *. lia.
  - constructor; [done|]. eapply Forall_impl; [|exact Hl]. intros f Hlt. cbv beta in *. simpl. lia.
  - intros i. rewrite filled_at_cons. cbn [level_index quantity]. destruct i as [|i].
    + rewrite due_head by lia. replace (pre + 0)%nat with pre by lia. rewrite Z.eqb_refl, filled_at_low; [lia|].
      eapply Forall_impl; [|exact Hl]. intros f Hlt. cbv beta in *. lia.
    + destruct (Z.eqb_spec (Z.of_nat pre + 1) (Z.of_nat (pre + S i) + 1)); [lia|].
      replace (Z.of_nat (pre + S i)) with (Z.of_nat (S pre + i)) by lia. rewrite Hf, due_tail.
      rewrite Z.add_0_l. destruct (Z.le_gt_cases remaining x); [by rewrite !due_spent by (done || lia)|]. by rewrite Z.min_r by lia.
Qed.

Lemma sweep_levels_spec consumed pre cs post levels remaining : consumed = pre ++ cs ++ post →
  Forall2 room levels cs → Forall Book.level_wf levels → 0 ≤ remaining ≤ u64_max →
  swept (length pre) (offered side t delta cs levels) remaining
    (sweep_levels side unit t delta consumed (length pre) levels remaining).
Proof.
  intros Hc Hroom. revert pre remaining Hc. induction Hroom as [|level c levels cs Hr Hroom IH]; intros pre remaining Hc Hwf Hrem.
  { apply swept_nothing; [constructor|by right|lia]. }
  apply Forall_cons_iff in Hwf as [[_ Hq] Hwf]. unfold room in Hr. unfold Quantity.wf in Hq.
  pose proof (offered_nonneg (level :: levels) (c :: cs) ltac:(by constructor)) as Hoff.
  cbn [sweep_levels]. destruct (Z.eqb_spec remaining 0) as [->|Hne]; [by apply swept_nothing; [|left|]|].
  cbn [offered] in *. destruct (apply_adverse_price (Book.price level) side delta) as [p|e] eqn:Hp; cbn [mbind result_bind].
  2: by apply adverse_price_Err in Hp.
  destruct (is_marketable p side t); [|by apply swept_nothing; [constructor|right|lia]].
  cbn [negb]. assert (Hci : consumed !! length pre = Some c) by (rewrite Hc; by apply list_lookup_middle).
  rewrite Hci. cbn [ok_or mbind result_bind]. unfold to_u64. rewrite checked_in by lia. cbn [ok_or mbind result_bind].
  assert (Hc' : consumed = (pre ++ [c]) ++ cs ++ post) by (by rewrite Hc, <-app_assoc).
  assert (Hlen : S (length pre) = length (pre ++ [c])) by (rewrite length_app; simpl; lia).
  inversion_clear Hoff as [|? ? Hx Hoff'].
  destruct (Z.eqb_spec (Quantity.value (Book.displayed_quantity level) - c) 0) as [->|Hpos].
  { apply swept_skip. rewrite Hlen. by apply IH. }
  rewrite Quantity.new_positive by lia. cbn [map_err mbind result_bind].
  set (x := Quantity.value (Book.displayed_quantity level) - c) in *.
  pose proof (IH (pre ++ [c]) (remaining - Z.min remaining x) Hc' Hwf ltac:(lia)) as H. rewrite <-Hlen in H.
  destruct (sweep_levels _ _ _ _ _ _ _ _) as [[fs rem']|e]; [|exact H].
  apply swept_take; [lia|lia|done|done|exact H].
Qed.

Lemma sweep_levels_fills consumed pre cs post levels remaining fs remaining' : consumed = pre ++ cs ++ post →
  Forall2 room levels cs → 0 ≤ remaining ≤ u64_max →
  sweep_levels side unit t delta consumed (length pre) levels remaining = Ok (fs, remaining') →
  Forall (fill_of side t delta unit levels (length pre)) fs.
Proof.
  intros Hc Hroom. revert pre remaining fs Hc. induction Hroom as [|level c levels cs Hr Hroom IH]; intros pre remaining fs Hc Hrem H.
  { injection H as <- _. constructor. }
  assert (Hci : consumed !! length pre = Some c) by (rewrite Hc; by apply list_lookup_middle).
  assert (Hc' : consumed = (pre ++ [c]) ++ cs ++ post) by (by rewrite Hc, <-app_assoc).
  assert (Hlen : S (length pre) = length (pre ++ [c])) by (rewrite length_app; simpl; lia).
  assert (Hnext : ∀ rem fs', 0 ≤ rem ≤ u64_max →
    sweep_levels side unit t delta consumed (S (length pre)) levels rem = Ok (fs', remaining') →
    Forall (fill_of side t delta unit (level :: levels) (length pre)) fs').
  { intros rem fs' Hrem' H'. rewrite Hlen in H'. eapply Forall_impl; [|by eapply IH]. intros f (i & l & Hi & Hl & Hf1 & Hf2 & Hf3 & Hf4 & Hf5).
    exists (S i), l. split_and!; [rewrite Hi, length_app; simpl; lia|done..]. }
  cbn [sweep_levels] in H. destruct (Z.eqb_spec remaining 0); [injection H as <- _; constructor|].
  apply bind_Ok in H as (p & Hp & H). destruct (is_marketable p side t) eqn:Hmk; [|injection H as <- _; constructor].
  cbn [negb] in H. rewrite Hci in H. cbn [ok_or mbind result_bind] in H. apply bind_Ok in H as (a & Ha & H).
  unfold to_u64, ok_or in Ha. destruct (checked _ _ _) eqn:Hch in Ha; [|done]. apply checked_Some in Hch as [-> Hch]. injection Ha as <-.
  destruct (Z.eqb_spec (Quantity.value (Book.displayed_quantity level) - c) 0) as [_|Hpos]; [exact (Hnext _ _ Hrem H)|].
  rewrite Quantity.new_positive in H by lia. cbn [map_err mbind result_bind] in H.
  apply bind_Ok in H as ([fs' rem'] & H & [= <- <-]). constructor; [|eapply Hnext; [|exact H]; lia].
  exists 0%nat, level. unfold room, Quantity.wf in *. cbn [level_index price quantity Quantity.value Quantity.unit].
  split_and!; (done || lia).
Qed.
End sweep.
(** ** The sweep of a book *)

(** Later fills of a sweep trade at strictly worse prices. *)
Definition worse (side : OrderSide) (p q : Price.Price) : Prop :=
  match side with Buy => Price.atoms p < Price.atoms q | Sell => Price.atoms q < Price.atoms p end.

Definition rooms (book : Book.CompleteBookSnapshot) (side : OrderSide) (consumed : list Z) : Prop :=
  ∀ i level c, side_levels book side !! i = Some level → consumed !! i = Some c → room level c.

Lemma offered_take side t delta consumed levels :
  offered side t delta (take (length levels) consumed) levels = offered side t delta consumed levels.
Proof.
  revert consumed. induction levels as [|level levels IH]; intros [|c consumed]; try done. simpl.
  destruct (apply_adverse_price _ _ _); [|done]. by rewrite IH.
Qed.

Lemma visible_levels_wf book side : Book.snapshot_wf book →
  Forall Book.level_wf (side_levels book side) ∧ (length (side_levels book side) ≤ Book.BOOK_DEPTH)%nat ∧
  StronglySorted (λ x y, worse side (Book.price x) (Book.price y)) (side_levels book side).
Proof.
  assert (Hlen : ∀ s, Book.side_valid s → (length (Book.levels s) ≤ Book.BOOK_DEPTH)%nat).
  { intros s Hs. pose proof (Book.side_valid_slots _ Hs) as Hl. destruct Hs as (Hs & _). rewrite Hs, length_app, length_fmap in Hl. lia. }
  intros ((Hb & _ & Hbl) & (Ha & _ & Hal) & (Hbk & Hak & _)). destruct side; simpl.
  - split_and!; [done|by apply Hlen|]. destruct Ha as (_ & _ & _ & Hs). by rewrite Hak in Hs.
  - split_and!; [done|by apply Hlen|]. destruct Hb as (_ & _ & _ & Hs). by rewrite Hbk in Hs.
Qed.

Lemma rooms_Forall2 book side consumed n : (length (side_levels book side) ≤ length consumed)%nat → rooms book side consumed →
  Forall2 room (take n (side_levels book side)) (take (length (take n (side_levels book side))) consumed).
Proof.
  intros Hlen Hr. apply Forall2_same_length_lookup. split.
  - rewrite !length_take. lia.
  - intros i level c Hl Hc. apply lookup_take_Some in Hl as [Hl _], Hc as [Hc _]. by eapply Hr.
Qed.

Lemma adverse_price_atoms p side delta p' : apply_adverse_price p side delta = Ok p' →
  Price.atoms p' = match side with Buy => Price.atoms p + Decimal.atoms delta | Sell => Price.atoms p - Decimal.atoms delta end.
Proof.
  unfold apply_adverse_price, Decimal.checked_add, Decimal.checked_sub, to_i128, ok_or. destruct side; simpl.
  all: destruct (checked _ _ _) as [z|] eqn:Hc; simpl; [|done]; intros [= <-]; by apply checked_Some in Hc as [-> _].
Qed.

Lemma fills_worsen side t delta unit levels fs : StronglySorted (λ x y, worse side (Book.price x) (Book.price y)) levels →
  Forall (fill_of side t delta unit levels 0) fs → StronglySorted (λ f g, level_index f < level_index g) fs →
  StronglySorted (λ f g, level_index f < level_index g ∧ worse side (price f) (price g)) fs.
Proof.
  intros Hl Hfs Hs. induction Hs as [|f fs Hs IH Hf]; [constructor|]. apply Forall_cons_iff in Hfs as [Hff Hfs].
  constructor; [by apply IH|]. rewrite Forall_forall in *. intros g Hg. specialize (Hf g Hg). split; [done|].
  destruct Hff as (i & li & Hi & Hli & Hpi & _), (Hfs g Hg) as (j & lj & Hj & Hlj & Hpj & _).
  pose proof (StronglySorted_lookup _ _ i j _ _ Hl ltac:(lia) Hli Hlj) as Hw.
  apply adverse_price_atoms in Hpi, Hpj. destruct side; simpl in *; lia.
Qed.

Lemma sweep_spec_lemma book side q n t delta consumed : Book.snapshot_wf book → Quantity.wf q →
  length consumed = Book.BOOK_DEPTH → rooms book side consumed →
  let levels := take (Z.to_nat n) (side_levels book side) in
  let offers := offered side t delta consumed levels in
  match sweep_marketable_depth_with_consumed book side q n t delta consumed with
  | Ok r =>
      requested r = q ∧ filled_value r = Z.min (Quantity.value q) (sum_list offers) ∧ 0 ≤ sum_list offers ∧
      (∀ i, filled_at (fills r) (Z.of_nat i + 1) = due offers (Quantity.value q) i) ∧
      Forall (fill_of side t delta (Quantity.unit q) levels 0) (fills r) ∧
      StronglySorted (λ f g, level_index f < level_index g ∧ worse side (price f) (price g)) (fills r)
  | Err e =>
      e = Returned (InvalidDepthLevels n) ∨ e = Returned InvalidAdversePriceDelta ∨
      ∃ u, Book.quantity_unit book = Some u ∧ u ≠ Quantity.unit q ∧ e = Returned (QuantityUnitMismatch (Quantity.unit q) u)
  end.
Proof.
  intros Hwf Hq Hlen Hroom levels offers. unfold sweep_marketable_depth_with_consumed.
  destruct (negb _); [by left|]. destruct (_ <? 0); [by right; left|].
  destruct (match Book.quantity_unit book with Some _ => _ | None => _ end) eqn:Hu.
  { right; right. destruct (Book.quantity_unit book) as [u|]; [|done]. apply bool_decide_eq_true in Hu. by exists u. }
  destruct (visible_levels_wf book side Hwf) as (Hlw & Hdepth & Hsorted). fold levels.
  pose proof (rooms_Forall2 book side consumed (Z.to_nat n) ltac:(lia) Hroom) as Hr. fold levels in Hr.
  unfold Quantity.wf in Hq. pose proof (take_drop (length levels) consumed) as Hsplit. symmetry in Hsplit.
  pose proof (sweep_levels_spec side t delta (Quantity.unit q) consumed [] _ _ levels (Quantity.value q) Hsplit Hr
    ltac:(by apply Forall_take) ltac:(lia)) as Hsp.
  pose proof (offered_nonneg side t delta _ _ Hr) as Hnn. rewrite offered_take in Hsp, Hnn. fold offers in Hsp, Hnn.
  simpl length in Hsp. destruct (sweep_levels _ _ _ _ _ 0 levels _) as [[fs rem']|e] eqn:Hsw; [|by right; left].
  destruct Hsp as (Hrem & _ & Hidx & Hfill). pose proof (sum_list_nonneg _ Hnn).
  pose proof (sweep_levels_fills side t delta (Quantity.unit q) consumed [] _ _ levels (Quantity.value q) fs rem' Hsplit Hr
    ltac:(lia) Hsw) as Hff.
  cbn [mbind result_bind fills requested filled_value]. split_and!; [done|lia|done|exact Hfill|exact Hff|].
  eapply fills_worsen; [|exact Hff|done]. clear -Hsorted. subst levels. revert n.
  assert (H : ∀ k, StronglySorted (λ x y, worse side (Book.price x) (Book.price y)) (take k (side_levels book side))); [|done].
  induction Hsorted as [|x l _ IH Hx]; intros [|k]; simpl; constructor; [done|by apply Forall_take].
Qed.

(** A sweep fills exactly what price priority gives: each of the first
    levels gets its remaining display until the request is spent, at the
    level's adverse price, no level is passed over, prices only worsen, and a
    well-formed book never makes it panic or find a level over-consumed. *)
Theorem sweep_spec book side q n t delta consumed : Book.snapshot_wf book → Quantity.wf q →
  length consumed = Book.BOOK_DEPTH → rooms book side consumed →
  let levels := take (Z.to_nat n) (side_levels book side) in
  let offers := offered side t delta consumed levels in
  match sweep_marketable_depth_with_consumed book side q n t delta consumed with
  | Ok r =>
      requested r = q ∧ filled_value r = Z.min (Quantity.value q) (sum_list offers) ∧ 0 ≤ sum_list offers ∧
      (∀ i, filled_at (fills r) (Z.of_nat i + 1) = due offers (Quantity.value q) i) ∧
      Forall (fill_of side t delta (Quantity.unit q) levels 0) (fills r) ∧
      StronglySorted (λ f g, level_index f < level_index g ∧ worse side (price f) (price g)) (fills r)
  | Err e =>
      e = Returned (InvalidDepthLevels n) ∨ e = Returned InvalidAdversePriceDelta ∨
      ∃ u, Book.quantity_unit book = Some u ∧ u ≠ Quantity.unit q ∧ e = Returned (QuantityUnitMismatch (Quantity.unit q) u)
  end.
Proof. apply sweep_spec_lemma. Qed.

(** The sample book the witnesses evaluate: two bids, two asks, in trading units. *)
Definition sample_quantity (v : Z) : Quantity.Quantity := Quantity.mk v Quantity.TradingUnit.
Definition sample_level (p v : Z) : Book.BookLevel := Book.new_level (Price.new (Decimal.from_atoms (p * 10 ^ 18))) (sample_quantity v).
Definition sample_side (k : Book.BookSideKind) (ls : list Book.BookLevel) : Book.BookSide :=
  Book.mk_side k None ((Some <$> ls) ++ replicate (Book.BOOK_DEPTH - length ls) None).
Definition sample_book : Book.CompleteBookSnapshot :=
  Book.mk_snapshot (sample_side Book.Bid [sample_level 99 4; sample_level 98 6])
    (sample_side Book.Ask [sample_level 100 3; sample_level 101 5]).

Lemma sample_book_wf : Book.snapshot_wf sample_book.
Proof.
  assert (Hb : Book.side_valid (Book.bids sample_book)) by by apply Book.validate_Ok.
  assert (Ha : Book.side_valid (Book.asks sample_book)) by by apply Book.validate_Ok.
  split_and!; [split_and!; [done|done|]|split_and!; [done|done|]|].
  1,2: repeat constructor; simpl; unfold Price.wf, Decimal.wf, Quantity.wf; simpl; unfold_ints; lia.
  by apply (Book.new_snapshot_Ok (Book.bids sample_book) (Book.asks sample_book) sample_book Hb Ha).
Qed.

Definition sample_sweep : DepthSweepResult :=
  match sweep_visible_depth sample_book Buy (sample_quantity 7) 2 with
  | Ok r => r
  | Err _ => mk_sweep [] (sample_quantity 7) 0
  end.

Lemma sweep_spec_witness : filled_value sample_sweep = 7 ∧
  filled_at (fills sample_sweep) 1 = due [3; 5] 7 0 ∧ filled_at (fills sample_sweep) 2 = due [3; 5] 7 1.
Proof.
  assert (H : rooms sample_book Buy no_consumption).
  { intros [|[|i]] level c; [intros [= <-] [= <-]|intros [= <-] [= <-]|done]; unfold room; simpl; lia. }
  pose proof (sweep_spec sample_book Buy (sample_quantity 7) 2 MarketOrder Decimal.ZERO no_consumption sample_book_wf
    ltac:(by unfold Quantity.wf; simpl; unfold_ints) eq_refl H) as Hs.
  cbv zeta in Hs.
  assert (sweep_marketable_depth_with_consumed sample_book Buy (sample_quantity 7) 2 MarketOrder Decimal.ZERO no_consumption =
    Ok sample_sweep) as E by by vm_compute.
  rewrite E in Hs. destruct Hs as (_ & Hv & _ & Hf & _).
  assert (offered Buy MarketOrder Decimal.ZERO no_consumption (take (Z.to_nat 2) (side_levels sample_book Buy)) = [3; 5]) as Ho by by vm_compute.
  rewrite Ho in Hv, Hf. split; [exact Hv|]. split; [exact (Hf 0%nat)|exact (Hf 1%nat)].
Defined.


(** ** Consumption *)

(** Both sides remember what was taken of each slot, never more than it shows. *)
Definition depth_wf (d : ConsumableDepth) : Prop :=
  Book.snapshot_wf (book d) ∧ ∀ side, length (consumed_on d side) = Book.BOOK_DEPTH ∧
    Forall is_u64 (consumed_on d side) ∧ rooms (book d) side (consumed_on d side).

Lemma no_consumption_room b side : Book.snapshot_wf b → rooms b side no_consumption.
Proof.
  intros Hwf i level c Hl Hc. apply lookup_replicate in Hc as [-> _]. destruct (visible_levels_wf b side Hwf) as (Hq & _).
  apply (Forall_lookup_1 _ _ _ _ Hq) in Hl as [_ Hl]. unfold room, Quantity.wf in *. lia.
Qed.

Lemma new_depth_wf b : Book.snapshot_wf b → depth_wf (new b).
Proof. 
  intros Hwf. split; [done|]. intros side.
  split_and!; [by destruct side| |destruct side; by apply no_consumption_room].
  destruct side; by repeat constructor.
Qed.

Lemma consumed_on_set d side side' l : consumed_on (set_consumed side l d) side' =
  if bool_decide (side' = side) then l else consumed_on d side'.
Proof. by destruct side, side'. Qed.

Lemma consume_fills fs : ∀ consumed,
  Forall (λ f, 1 ≤ level_index f ≤ zlen consumed ∧ 0 ≤ Quantity.value (quantity f)) fs →
  (∀ i c, consumed !! i = Some c → 0 ≤ c ∧ c + filled_at fs (Z.of_nat i + 1) ≤ u64_max) →
  ∃ consumed', try_fold consume_fill consumed fs = Ok consumed' ∧ length consumed' = length consumed ∧
    ∀ i c, consumed !! i = Some c → consumed' !! i = Some (c + filled_at fs (Z.of_nat i + 1)).
Proof.
  induction fs as [|f fs IH]; intros consumed Hf Hc.
  { exists consumed. split_and!; [done|done|]. intros i c Hi. rewrite Hi. f_equal. unfold filled_at. simpl. lia. }
  apply Forall_cons_iff in Hf as [[Hi Hq] Hf]. unfold zlen in *.
  assert (Hnn : ∀ i, 0 ≤ filled_at fs i).
  { intros i. apply sum_list_nonneg, Forall_fmap. eapply Forall_impl; [|exact Hf]. intros g [_ Hg]. cbv beta in *. simpl. by destruct (_ =? _). }
  set (k := Z.to_nat (level_index f - 1)). destruct (lookup_lt_is_Some_2 consumed k ltac:(lia)) as [c Hk].
  destruct (Hc k c Hk) as [Hc0 Hcu]. rewrite filled_at_cons, (proj2 (Z.eqb_eq _ _)) in Hcu by lia.
  specialize (Hnn (Z.of_nat k + 1)) as Hn. unfold u64_max in *.
  cbn [try_fold]. unfold consume_fill at 2. fold k. rewrite Hk. cbn [ok_or mbind result_bind].
  unfold to_u64. rewrite checked_in by (unfold u64_max; lia). cbn [ok_or mbind result_bind].
  destruct (IH (<[k := c + Quantity.value (quantity f)]> consumed)) as (consumed' & Hr & Hlen & Hval).
  - eapply Forall_impl; [|exact Hf]. intros g Hg. cbv beta in *. by rewrite length_insert.
  - intros i c' Hi'. destruct (decide (i = k)) as [->|Hne].
    + rewrite list_lookup_insert_eq in Hi' by lia. injection Hi' as <-. lia.
    + rewrite list_lookup_insert_ne in Hi' by done. specialize (Hc i c' Hi'). rewrite filled_at_cons in Hc.
      destruct (_ =? _); [|lia]. lia.
  - exists consumed'. split_and!; [done|by rewrite Hlen, length_insert|]. intros i c' Hi'. rewrite filled_at_cons.
    destruct (decide (i = k)) as [->|Hne].
    + rewrite Hk in Hi'. injection Hi' as <-. rewrite (proj2 (Z.eqb_eq _ _)) by lia.
      rewrite Z.add_assoc. apply Hval. by apply list_lookup_insert_eq; lia.
    + rewrite (proj2 (Z.eqb_neq _ _)) by lia. rewrite Z.add_0_l. apply Hval. by rewrite list_lookup_insert_ne.
Qed.

Lemma offered_lookup side t delta consumed levels i x :
  offered side t delta consumed levels !! i = Some x →
  ∃ level c, levels !! i = Some level ∧ consumed !! i = Some c ∧ x = Quantity.value (Book.displayed_quantity level) - c.
Proof.
  revert consumed i. induction levels as [|level levels IH]; intros [|c consumed] i; simpl; try done.
  destruct (apply_adverse_price _ _ _); simpl; [|done]. destruct (is_marketable _ _ _); [|done].
  destruct i as [|i]; simpl; [|apply IH]. intros [= <-]. by exists level, c.
Qed.

(** Applying a sweep consumes exactly what it fills, on the swept side only. *)
Lemma apply_sweep d side q n t delta sw : depth_wf d → Quantity.wf q →
  sweep_marketable_depth_with_consumed (book d) side q n t delta (consumed_on d side) = Ok sw →
  ∃ d', apply d side sw = Ok d' ∧ depth_wf d' ∧ book d' = book d ∧ ∀ side' i c, consumed_on d side' !! i = Some c →
    consumed_on d' side' !! i = Some (c + if bool_decide (side' = side) then filled_at (fills sw) (Z.of_nat i + 1) else 0).
Proof.
  intros [Hwf Hd] Hq Hp. destruct (Hd side) as (Hlen & Hu & Hroom).
  pose proof (sweep_spec_lemma (book d) side q n t delta (consumed_on d side) Hwf Hq Hlen Hroom) as Hs.
  cbv zeta in Hs. rewrite Hp in Hs. destruct Hs as (_ & _ & _ & Hdue & Hfills & _).
  destruct (visible_levels_wf (book d) side Hwf) as (_ & Hdepth & _).
  set (offers := offered side t delta _ _) in Hdue.
  assert (Hfit : ∀ i c, consumed_on d side !! i = Some c → filled_at (fills sw) (Z.of_nat i + 1) = 0 ∨
    ∃ level, side_levels (book d) side !! i = Some level ∧ 0 ≤ filled_at (fills sw) (Z.of_nat i + 1) ∧ room level c ∧
      c + filled_at (fills sw) (Z.of_nat i + 1) ≤ Quantity.value (Book.displayed_quantity level)).
  { intros i c Hi. rewrite Hdue. unfold due. destruct (offers !! i) as [x|] eqn:Hx; simpl; [|left; lia].
    apply offered_lookup in Hx as (level & c' & Hl & Hc' & ->). apply lookup_take_Some in Hl as [Hl _].
    rewrite Hi in Hc'. injection Hc' as <-. pose proof (Hroom i level c Hl Hi) as Hr. right. exists level. unfold room in *. split_and!; try done; lia. }
  assert (Hfit64 : ∀ i c, consumed_on d side !! i = Some c → is_u64 (c + filled_at (fills sw) (Z.of_nat i + 1))).
  { intros i c Hi. pose proof (Forall_lookup_1 _ _ _ _ Hu Hi) as Hcu. unfold is_u64 in *.
    destruct (Hfit i c Hi) as [->|(level & Hl & H0 & Hrc & Hsum)]; [lia|].
    destruct (visible_levels_wf (book d) side Hwf) as (Hlw & _). apply (Forall_lookup_1 _ _ _ _ Hlw) in Hl as [_ Hl].
    unfold Quantity.wf, room in *. lia. }
  destruct (consume_fills (fills sw) (consumed_on d side)) as (consumed' & Hr & Hlen' & Hval).
  - eapply Forall_impl; [|exact Hfills]. intros f (i & level & Hi & Hl & _ & _ & Hqf & _). cbv beta in *.
    apply lookup_take_Some in Hl as [Hl _]. apply lookup_lt_Some in Hl. unfold zlen, Quantity.wf, Book.BOOK_DEPTH in *. lia.
  - intros i c Hi. specialize (Hfit64 i c Hi). pose proof (Forall_lookup_1 _ _ _ _ Hu Hi) as Hcu. unfold is_u64 in *. lia.
  - unfold apply. rewrite Hr. cbn [mbind result_bind]. exists (set_consumed side consumed' d). split; [done|].
    assert (Hbook : book (set_consumed side consumed' d) = book d) by by destruct side.
    assert (Hback : ∀ i c', consumed' !! i = Some c' → ∃ c, consumed_on d side !! i = Some c ∧
      c' = c + filled_at (fills sw) (Z.of_nat i + 1)).
    { intros i c' Hi. pose proof (lookup_lt_Some _ _ _ Hi) as Hlt. rewrite Hlen' in Hlt.
      destruct (lookup_lt_is_Some_2 _ _ Hlt) as [c Hc]. exists c. split; [done|]. rewrite (Hval i c Hc) in Hi. by injection Hi. }
    split_and!; [|done|].
    + split; [by rewrite Hbook|]. intros side'. rewrite Hbook, consumed_on_set. case_bool_decide as Hs'; [subst side'|exact (Hd side')].
      split_and!; [by rewrite Hlen'| |].
      * apply Forall_lookup. intros i c' Hi. destruct (Hback i c' Hi) as (c & Hc & ->). by apply Hfit64.
      * intros i level c' Hl Hi. destruct (Hback i c' Hi) as (c & Hc & ->).
        pose proof (Hroom i level c Hl Hc) as Hrc. destruct (Hfit i c Hc) as [->|(level' & Hl' & H0 & _ & Hsum)].
        { by rewrite Z.add_0_r. }
        rewrite Hl in Hl'. injection Hl' as <-. unfold room in *. lia.
    + intros side' i c Hi. rewrite consumed_on_set. case_bool_decide as Hs'; [subst side'; by apply Hval|by rewrite Z.add_0_r].
Qed.

Lemma apply_preview d side q n sw : depth_wf d → Quantity.wf q → preview d side q n = Ok sw →
  ∃ d', apply d side sw = Ok d' ∧ depth_wf d' ∧ book d' = book d ∧ ∀ side' i c, consumed_on d side' !! i = Some c →
    consumed_on d' side' !! i = Some (c + if bool_decide (side' = side) then filled_at (fills sw) (Z.of_nat i + 1) else 0).
Proof. apply apply_sweep. Qed.

(** What a sweep reports filled is what its fills add up to. *)
Lemma sweep_levels_total side unit t delta consumed levels : ∀ index remaining fs remaining',
  sweep_levels side unit t delta consumed index levels remaining = Ok (fs, remaining') →
  sum_of (λ f, Quantity.value (quantity f)) fs = remaining - remaining'.
Proof.
  induction levels as [|level levels IH]; intros index remaining fs remaining'; cbn [sweep_levels].
  { intros [= <- <-]. simpl. lia. }
  destruct (remaining =? 0); [intros [= <- <-]; simpl; lia|]. intros H. apply bind_Ok in H as (p & _ & H).
  destruct (negb _); [injection H as <- <-; simpl; lia|]. apply bind_Ok in H as (c & _ & H). apply bind_Ok in H as (a & _ & H).
  destruct (a =? 0); [by apply IH in H|]. apply bind_Ok in H as (q & Hq & H).
  apply bind_Ok in H as ([fs1 r1] & H1 & [= <- <-]). apply IH in H1. rewrite sum_of_cons, H1. cbn [quantity].
  unfold map_err in Hq. destruct (Quantity.new _ _) as [q'|] eqn:E; [|done]. injection Hq as <-.
  unfold Quantity.new in E. destruct (_ =? 0); [done|]. injection E as <-. simpl. lia.
Qed.

Lemma sweep_total book side q n t delta consumed r : sweep_marketable_depth_with_consumed book side q n t delta consumed = Ok r →
  sum_of (λ f, Quantity.value (quantity f)) (fills r) = filled_value r.
Proof.
  unfold sweep_marketable_depth_with_consumed. destruct (negb _); [done|]. destruct (_ <? 0); [done|].
  destruct (match Book.quantity_unit book with Some _ => _ | None => _ end); [done|].
  intros H. apply bind_Ok in H as ([fs rem] & H & [= <-]). apply sweep_levels_total in H. simpl. lia.
Qed.

(** ** Several legs *)

Section legs.
Context (q : Quantity.Quantity) (n : Z).

(** The legs executed one after another on the books themselves, each in full. *)
Inductive legs_run : Books → list AtomicDepthLeg → list AtomicDepthFill → Books → Prop :=
| run_done books : legs_run books [] [] books
| run_leg books l d sw d' legs fs books' : books !! instrument l = Some d → preview d (side l) q n = Ok sw →
    is_complete sw = true → apply d (side l) sw = Ok d' → legs_run (<[instrument l := d']> books) legs fs books' →
    legs_run books (l :: legs) (mk_leg_fill l sw :: fs) books'.

Lemma fill_legs_run base legs : ∀ staged, (∀ l, l ∈ legs → is_Some (staged !! instrument l)) →
  match fill_legs staged q n legs with
  | Ok (Some (fs, staged')) => legs_run (staged ∪ base) legs fs (staged' ∪ base)
  | _ => ∀ fs m, ¬ legs_run (staged ∪ base) legs fs m
  end.
Proof.
  induction legs as [|l legs IH]; intros staged Hk; simpl; [constructor|].
  destruct (Hk l ltac:(by left)) as [d Hd]. rewrite Hd.
  assert (Hb : (staged ∪ base) !! instrument l = Some d) by by apply lookup_union_Some_l.
  destruct (preview d (side l) q n) as [sw|e] eqn:Hp; cbn [mbind result_bind].
  2: { intros fs m Hrun. inversion Hrun; simplify_eq; congruence. }
  destruct (is_complete sw) eqn:Hcm; cbn [negb].
  2: { intros fs m Hrun. inversion Hrun; simplify_eq; congruence. }
  destruct (apply d (side l) sw) as [d'|e] eqn:Ha; cbn [mbind result_bind].
  2: { intros fs m Hrun. inversion Hrun; simplify_eq; congruence. }
  specialize (IH (<[instrument l := d']> staged)). rewrite <-insert_union_l in IH.
  assert (Hno : (∀ fs m, ¬ legs_run (<[instrument l := d']> (staged ∪ base)) legs fs m) →
    ∀ fs m, ¬ legs_run (staged ∪ base) (l :: legs) fs m).
  { intros Hn fs m Hrun. inversion Hrun as [|? ? d0 sw0 d0' ? fs0 ? Hd0 Hp0 _ Ha0 Hrun']; subst. rewrite Hb in Hd0. injection Hd0 as <-.
    rewrite Hp in Hp0. injection Hp0 as <-. rewrite Ha in Ha0. injection Ha0 as <-. exact (Hn _ _ Hrun'). }
  assert (Hk' : ∀ l', l' ∈ legs → is_Some (<[instrument l := d']> staged !! instrument l')).
  { intros l' Hl'. apply lookup_insert_is_Some'. right. apply Hk. by right. }
  specialize (IH Hk'). destruct (fill_legs _ q n legs) as [[[fs staged']|]|e]; cbn [mbind result_bind]; [|by apply Hno..].
  by eapply run_leg.
Qed.

Lemma stage_Some books legs : ∀ staged s, staged ⊆ books → stage books staged legs = Some s →
  s ⊆ books ∧ staged ⊆ s ∧ ∀ l, l ∈ legs → is_Some (s !! instrument l).
Proof.
  induction legs as [|l legs IH]; intros staged s Hs; simpl.
  { intros [= <-]. split_and!; [done|done|]. intros l Hl. by apply elem_of_nil in Hl. }
  destruct (books !! instrument l) as [d|] eqn:Hd; simpl; [|done]. intros H.
  set (staged' := match staged !! instrument l with Some _ => staged | None => <[instrument l := d]> staged end) in H.
  assert (Hs' : staged' ⊆ books ∧ staged ⊆ staged' ∧ is_Some (staged' !! instrument l)).
  { unfold staged'. destruct (staged !! instrument l) as [x|] eqn:Hx; [by split_and!|].
    split_and!; [by apply insert_subseteq_l|by apply insert_subseteq|rewrite lookup_insert_eq; by eexists]. }
  destruct Hs' as (H1 & H2 & H3). destruct (IH _ _ H1 H) as (H4 & H5 & H6). split_and!; [done|by etrans|].
  intros l' [->|Hl']%elem_of_cons; [|by apply H6]. destruct H3 as [x Hx]. exists x. by eapply lookup_weaken.
Qed.

Lemma stage_None books legs : ∀ staged, stage books staged legs = None → ∃ l, l ∈ legs ∧ books !! instrument l = None.
Proof.
  induction legs as [|l legs IH]; intros staged; simpl; [done|].
  destruct (books !! instrument l) as [d|] eqn:Hd; simpl; [|intros _; exists l; split; [by left|done]].
  intros (l' & Hl' & Hn)%IH. exists l'. split; [by right|done].
Qed.

Lemma legs_run_known books legs fs books' l : legs_run books legs fs books' → l ∈ legs → is_Some (books !! instrument l).
Proof.
  induction 1 as [|books l' d sw d' legs fs books' Hd _ _ _ _ IH]; [by intros ?%elem_of_nil|].
  intros [->|Hl]%elem_of_cons; [by eexists|]. destruct (decide (instrument l = instrument l')) as [->|Hne]; [by eexists|].
  specialize (IH Hl). by rewrite lookup_insert_ne in IH by done.
Qed.

(** What several fills take of a level of one side of one instrument's book. *)
Definition taken (fs : list AtomicDepthFill) (i : Instrument.InstrumentId) (s : OrderSide) (level : Z) : Z :=
  sum_list ((λ f, if bool_decide (instrument (leg f) = i ∧ side (leg f) = s) then filled_at (fills (sweep f)) level else 0) <$> fs).

Lemma legs_run_consumes books legs fs books' : Quantity.wf q → legs_run books legs fs books' →
  map_Forall (λ _, depth_wf) books →
  map_Forall (λ _, depth_wf) books' ∧ legs = leg <$> fs ∧
  (∀ f, f ∈ fs → filled_value (sweep f) = Quantity.value q) ∧
  ∀ i, match books !! i, books' !! i with
       | Some d, Some d' => book d' = book d ∧ ∀ s k c, consumed_on d s !! k = Some c →
           consumed_on d' s !! k = Some (c + taken fs i s (Z.of_nat k + 1))
       | None, None => True
       | _, _ => False
       end.
Proof.
  intros Hq. induction 1 as [books|books l d sw d' legs fs books' Hd Hp Hcm Ha _ IH]; intros Hwf.
  { split_and!; [done|done|by intros f ?%elem_of_nil|]. intros i. destruct (books !! i) as [d|]; [|done].
    split; [done|]. intros s k c ->. unfold taken. simpl. f_equal. lia. }
  destruct (apply_preview d (side l) q n sw (Hwf _ _ Hd) Hq Hp) as (d'' & Ha' & Hwf' & Hbook & Hcons).
  rewrite Ha in Ha'. injection Ha' as <-.
  destruct (IH ltac:(by apply map_Forall_insert_2)) as (H1 & H2 & H3 & H4). split_and!; [done|by rewrite H2| |].
  - intros f [->|Hf]%elem_of_cons; [|by apply H3]. simpl. unfold is_complete in Hcm. apply Z.eqb_eq in Hcm. rewrite Hcm.
    destruct (Hwf _ _ Hd) as [Hb Hs]. destruct (Hs (side l)) as (Hlen & _ & Hr).
    pose proof (sweep_spec_lemma (book d) (side l) q n MarketOrder Decimal.ZERO _ Hb Hq Hlen Hr) as Hsw.
    cbv zeta in Hsw. unfold preview in Hp. rewrite Hp in Hsw. by destruct Hsw as [-> _].
  - intros i. specialize (H4 i). destruct (decide (i = instrument l)) as [->|Hne].
    + rewrite lookup_insert_eq in H4. rewrite Hd. destruct (books' !! instrument l) as [e|]; [|done].
      destruct H4 as [H5 H6]. split; [by rewrite H5|]. intros s k c Hk. unfold taken. rewrite fmap_cons. cbn [leg sweep sum_list foldr].
      specialize (Hcons s k c Hk). specialize (H6 s k _ Hcons). rewrite H6. f_equal. rewrite <-Z.add_assoc. f_equal. f_equal.
      repeat case_bool_decide; naive_solver.
    + rewrite lookup_insert_ne in H4 by done. destruct (books !! i) as [e|], (books' !! i) as [e'|]; try done.
      destruct H4 as [H5 H6]. split; [done|]. intros s k c Hk. rewrite (H6 s k c Hk). f_equal. unfold taken. rewrite fmap_cons.
      cbn [leg sweep sum_list foldr]. rewrite bool_decide_false by naive_solver. done.
Qed.
End legs.

Lemma execute_atomic_runs books legs q n :
  match execute_atomic_depth books legs q n with
  | (Ok (Some fs), books') => legs_run q n books legs fs books'
  | (_, books') => books' = books ∧ ∀ fs m, ¬ legs_run q n books legs fs m
  end.
Proof.
  unfold execute_atomic_depth. destruct (stage books ∅ legs) as [staged|] eqn:Hst.
  - destruct (stage_Some _ _ _ _ (map_empty_subseteq _) Hst) as (Hsub & _ & Hk).
    pose proof (fill_legs_run q n books legs staged Hk) as H. rewrite (map_subseteq_union _ _ Hsub) in H.
    destruct (fill_legs _ _ _ _) as [[[fs staged']|]|e]; [|by split..]. by rewrite foldl_insert_btree.
  - apply stage_None in Hst as (l & Hl & Hn). split; [done|]. intros fs m Hrun.
    destruct (legs_run_known _ _ _ _ _ _ _ Hrun Hl) as [d Hd]. by rewrite Hn in Hd.
Qed.

(** C3: several legs are executed all or none. With fills, the outcome is the
    one of executing each leg in turn and in full on the books, the
    consumption of each level grows by exactly what the fills take of it and
    stays within the display; without them nothing changes and no such
    execution exists. *)
Theorem execute_atomic_depth_spec books legs q n : Quantity.wf q → map_Forall (λ _, depth_wf) books →
  match execute_atomic_depth books legs q n with
  | (Ok (Some fs), books') =>
      legs_run q n books legs fs books' ∧ map_Forall (λ _, depth_wf) books' ∧ legs = leg <$> fs ∧
      (∀ f, f ∈ fs → filled_value (sweep f) = Quantity.value q) ∧
      ∀ i, match books !! i, books' !! i with
           | Some d, Some d' => book d' = book d ∧ ∀ s k c, consumed_on d s !! k = Some c →
               consumed_on d' s !! k = Some (c + taken fs i s (Z.of_nat k + 1))
           | None, None => True
           | _, _ => False
           end
  | (_, books') => books' = books ∧ ∀ fs m, ¬ legs_run q n books legs fs m
  end.
Proof.
  intros Hq Hwf. pose proof (execute_atomic_runs books legs q n) as H.
  destruct (execute_atomic_depth books legs q n) as [[[fs|]|e] books']; [|done..].
  split; [done|]. by eapply legs_run_consumes.
Qed.

Definition sample_instrument : Instrument.InstrumentId := Instrument.new Market.Twse (Symbol.mk (bytes_of "2330")).
Definition sample_books : Books := {[ sample_instrument := new sample_book ]}.
Definition sample_legs : list AtomicDepthLeg := [mk_leg sample_instrument Buy; mk_leg sample_instrument Sell; mk_leg sample_instrument Buy].

(** Three legs of two units: the second buy finds one unit left of the best ask. *)
Lemma execute_atomic_depth_spec_witness : ∃ fs books', execute_atomic_depth sample_books sample_legs (sample_quantity 2) 5 = (Ok (Some fs), books') ∧
  legs_run (sample_quantity 2) 5 sample_books sample_legs fs books' ∧ taken fs sample_instrument Buy 1 = 3.
Proof.
  pose proof (execute_atomic_depth_spec sample_books sample_legs (sample_quantity 2) 5
    ltac:(by unfold Quantity.wf; simpl; unfold_ints)
    ltac:(apply map_Forall_singleton, new_depth_wf, sample_book_wf)) as H.
  destruct (execute_atomic_depth sample_books sample_legs (sample_quantity 2) 5) as [[[fs|]|e] books'] eqn:E.
  - exists fs, books'. split; [done|]. split; [apply H|].
    assert (fst (execute_atomic_depth sample_books sample_legs (sample_quantity 2) 5) = Ok (Some fs)) as Hf by by rewrite E.
    vm_compute in Hf. injection Hf as <-. by vm_compute.
  - by vm_compute in E.
  - by vm_compute in E.
Defined.

(** The error text says that the adverse price keeps prices positive; nothing
    checks it: a sale displaced by more than the bid fills below zero. *)
Lemma adverse_sale_below_zero : ∃ r f, sweep_marketable_depth sample_book Sell (sample_quantity 1) 1 MarketOrder
    (Decimal.from_atoms (100 * 10 ^ 18)) = Ok r ∧ fills r = [f] ∧ Price.atoms (price f) = - 10 ^ 18.
Proof. do 2 eexists. split_and!; vm_compute; reflexivity. Qed.

End DepthLaws.
