(* ===== verification/Fill.v ===== *)
(** Execution fills (the [FillRecord] of execution-sim/src/lib.rs), which the
    simulators produce and the ledgers account for. *)
From S2P Require Import Prelude Order Text Numeric Quantity Calendar Book Identity Orders.

Module Fill.

Inductive FillTrigger : Set := MarketEvent (run_event_ordinal : Z) | Control (control_sequence : Z).

(** [OrderId] is the 32 bytes of a digest. *)
Record FillRecord : Set := mk {
  order_id : list Z; trigger : FillTrigger; match_time : MatchTime.MatchTime; side : Orders.OrderSide;
  price : Price.Price; quantity : Quantity.Quantity }.

#[global] Instance FillTrigger_eq_dec : EqDecision FillTrigger.
Proof. solve_decision. Defined.
#[global] Instance FillRecord_eq_dec : EqDecision FillRecord.
Proof. solve_decision. Defined.

Definition from_market_event (order_id : list Z) (run_event_ordinal : Z) (match_time : MatchTime.MatchTime)
    (side : Orders.OrderSide) (price : Price.Price) (quantity : Quantity.Quantity) : FillRecord :=
  mk order_id (MarketEvent run_event_ordinal) match_time side price quantity.
Definition from_control (order_id : list Z) (control_sequence : Z) (match_time : MatchTime.MatchTime)
    (side : Orders.OrderSide) (price : Price.Price) (quantity : Quantity.Quantity) : FillRecord :=
  mk order_id (Control control_sequence) match_time side price quantity.

Definition triggering_ordinal (f : FillRecord) : option Z :=
  match trigger f with MarketEvent o => Some o | Control _ => None end.
Definition control_sequence (f : FillRecord) : option Z :=
  match trigger f with MarketEvent _ => None | Control c => Some c end.

(** What the field types guarantee. *)
Definition wf (f : FillRecord) : Prop := Price.wf (price f) ∧ Quantity.wf (quantity f) ∧ MatchTime.wf (match_time f).

End Fill.
