(* ===== verification/Accounting.v ===== *)
(** Accounting of execution fills (execution-sim/src/accounting.rs): exact
    notionals, charges and taxes, position and cost basis, the single
    instrument [Ledger] and the [MultiLedger] that shares cash. *)
From S2P Require Import Prelude Order Text Numeric Quantity Calendar Book Identity Orders Fill.

Module Accounting.
Import Orders(OrderSide, Buy, Sell).

(** A [str] as its characters, for [is_empty] and [trim]. *)
Definition str : Type := list Z.
(** [char::is_whitespace]: the White_Space characters. *)
Definition is_whitespace (c : Z) : bool :=
  in_range 9 13 c || (c =? 32) || (c =? 133) || (c =? 160) || (c =? 5760) || in_range 8192 8202 c ||
  (c =? 8232) || (c =? 8233) || (c =? 8239) || (c =? 8287) || (c =? 12288).
Definition is_empty (s : list Z) : bool := match s with [] => true | _ => false end.
Definition trim_is_empty (s : list Z) : bool := forallb is_whitespace s.

(** ** Configuration *)

Definition ACCOUNTING_VERSION : Z := 8.
Inductive AccountingModel : Set := EquityV1 | FuturesV1 | OptionsV1.
Record InstrumentEconomics : Set := mk_economics {
  units_per_trading_unit : Z; multiplier : Decimal.Decimal; provenance : list Z }.

Inductive ChargeSides : Set := BuySide | SellSide | Both.
Inductive RoundingPolicy : Set := Down | HalfUp | Up.
Inductive ChargeBasis : Set := NotionalRate | FixedPerUnit.
Record ChargeModel : Set := mk_charge {
  basis : ChargeBasis; rate : Decimal.Decimal; sides : ChargeSides; minimum : Decimal.Decimal;
  precision : Z; rounding : RoundingPolicy }.
Record DayTradeTaxModel : Set := mk_day_trade {
  ordinary : ChargeModel; day_trade : ChargeModel; timezone_offset_minutes : Z;
  valid_through : TradingDate.TradingDate; eligible : bool;
  eligible_dates : option (list TradingDate.TradingDate); tax_provenance : list Z }.

#[global] Instance AccountingModel_eq_dec : EqDecision AccountingModel.
Proof. solve_decision. Defined.
#[global] Instance InstrumentEconomics_eq_dec : EqDecision InstrumentEconomics.
Proof. solve_decision. Defined.
#[global] Instance ChargeSides_eq_dec : EqDecision ChargeSides.
Proof. solve_decision. Defined.
#[global] Instance RoundingPolicy_eq_dec : EqDecision RoundingPolicy.
Proof. solve_decision. Defined.
#[global] Instance ChargeBasis_eq_dec : EqDecision ChargeBasis.
Proof. solve_decision. Defined.

Inductive AccountingError : Set :=
| InvalidModel | InvalidPriceForInstrument | Overflow | PrecisionLoss | MissingCostBasis | Reconciliation | EmptyUniverse
| DuplicateInstrument (i : Instrument.InstrumentId) | UnknownInstrument (i : Instrument.InstrumentId)
| QuantityUnitMismatch (expected actual : Quantity.QuantityUnit)
| AccountingModelMismatch (i : Instrument.InstrumentId) | MissingFinalMark (i : Instrument.InstrumentId)
| InvalidTradingDate | InvalidCashCharge | DuplicateCashCharge (identity : list Z).

(** How an operation fails: with its error type, or by an arithmetic panic
    (a subtraction below zero, a doubled remainder outside i128), which the
    theorems exclude. *)
Inductive Failure : Set := Returned (e : AccountingError) | Panicked.

Definition model_new (ordinary day_trade : ChargeModel) (timezone_offset_minutes : Z)
    (valid_through : TradingDate.TradingDate) (eligible : bool) (provenance : list Z) : result Failure DayTradeTaxModel :=
  reject is_empty provenance
      || bool_decide (basis ordinary ≠ NotionalRate) || bool_decide (basis day_trade ≠ NotionalRate)
      || bool_decide (sides ordinary ≠ SellSide) || bool_decide (sides day_trade ≠ SellSide)
      || (Decimal.atoms (rate ordinary) <? Decimal.atoms (rate day_trade))
      || (Decimal.atoms (rate ordinary) <? 0) || (Decimal.atoms (rate day_trade) <? 0)
      || (Decimal.atoms (minimum ordinary) <? 0) || (Decimal.atoms (minimum day_trade) <? 0)
      || (18 <? precision ordinary) || (18 <? precision day_trade)
      || negb (in_range (-1439) 1439 timezone_offset_minutes)
    with Returned InvalidModel;;
  Ok (mk_day_trade ordinary day_trade timezone_offset_minutes valid_through eligible None provenance).

(** The dates collected through a [BTreeSet]: sorted, without repetition. *)
Definition model_new_for_dates (ordinary day_trade : ChargeModel) (timezone_offset_minutes : Z)
    (valid_through : TradingDate.TradingDate) (dates : list TradingDate.TradingDate) (provenance : list Z) :
    result Failure DayTradeTaxModel :=
  m ← model_new ordinary day_trade timezone_offset_minutes valid_through false provenance;
  Ok (mk_day_trade ordinary day_trade timezone_offset_minutes valid_through false
        (Some (sort_on id (remove_dups dates))) provenance).

(** The dates are sorted, so that [binary_search] finds exactly the members. *)
Definition is_eligible (m : DayTradeTaxModel) (date : TradingDate.TradingDate) : bool :=
  eligible m || match eligible_dates m with Some dates => bool_decide (date ∈ dates) | None => false end.

Record InstrumentLedgerConfig : Set := mk_config {
  instrument : Instrument.InstrumentId; quantity_unit : Quantity.QuantityUnit; model : AccountingModel;
  price_policy : Price.PricePolicy; config_economics : InstrumentEconomics; config_fee : ChargeModel;
  config_tax : ChargeModel; config_day_trade_tax : option DayTradeTaxModel }.

Definition config_new (i : Instrument.InstrumentId) (u : Quantity.QuantityUnit) (m : AccountingModel)
    (e : InstrumentEconomics) (fee tax : ChargeModel) : InstrumentLedgerConfig :=
  mk_config i u m Price.PositiveOnly e fee tax None.
Definition config_with_day_trade_tax (c : InstrumentLedgerConfig) (m : DayTradeTaxModel) : InstrumentLedgerConfig :=
  mk_config (instrument c) (quantity_unit c) (model c) (price_policy c) (config_economics c) (config_fee c) (ordinary m) (Some m).
Definition config_with_price_policy (c : InstrumentLedgerConfig) (p : Price.PricePolicy) : InstrumentLedgerConfig :=
  mk_config (instrument c) (quantity_unit c) (model c) p (config_economics c) (config_fee c) (config_tax c) (config_day_trade_tax c).

(** ** Arithmetic *)

Definition i128_checked (z : Z) : result Failure Z := ok_or (to_i128 z) (Returned Overflow).
Definition checked_add (l r : Decimal.Decimal) : result Failure Decimal.Decimal :=
  map_err (λ _, Returned Overflow) (Decimal.checked_add l r).
Definition checked_sub (l r : Decimal.Decimal) : result Failure Decimal.Decimal :=
  map_err (λ _, Returned Overflow) (Decimal.checked_sub l r).
Definition checked_neg (d : Decimal.Decimal) : result Failure Decimal.Decimal :=
  map_err (λ _, Returned Overflow) (Decimal.checked_neg d).

(** [z.unsigned_abs() as i128] of an i128: 2^127 wraps to the minimum. *)
Definition unsigned_abs_as_i128 (z : Z) : Z := if Z.abs z <=? i128_max then Z.abs z else Z.abs z - 2 ^ 128.
(** [i128::try_from(z.unsigned_abs())]. *)
Definition try_abs (z : Z) : result Failure Z := i128_checked (Z.abs z).

(** The [while] loop of [gcd]; 257 rounds are enough for any u128 ([gcd_Zgcd]). *)
Fixpoint gcd_loop (fuel : nat) (left right : Z) : Z :=
  match fuel with
  | O => left
  | S fuel => if right =? 0 then left else gcd_loop fuel right (left mod right)
  end.
Definition gcd (left right : Z) : Z := gcd_loop 257 left right.

(** The reduction [multiply_decimal_atoms] and [charge] start with. *)
Definition reduce (left right : Z) : Z * Z * Z :=
  let denominator := Decimal.DECIMAL_SCALE_FACTOR in
  let first := gcd (Z.abs left) denominator in
  let left := Z.quot left first in
  let denominator := Z.quot denominator first in
  let second := gcd (Z.abs right) denominator in
  (left, Z.quot right second, Z.quot denominator second).

Definition multiply_decimal_atoms (left right : Z) : result Failure Z :=
  let '(l, r, denominator) := reduce left right in
  product ← i128_checked (l * r);
  reject negb (Z.rem product denominator =? 0) with Returned PrecisionLoss;;
  Ok (Z.quot product denominator).

(** [checked_mul(quantity)] then [checked_mul(units)]. *)
Definition scale_by_quantity (value : Decimal.Decimal) (quantity : Z) (e : InstrumentEconomics) :
    result Failure Decimal.Decimal :=
  quantity ← i128_checked quantity;
  scaled ← multiply_decimal_atoms (Decimal.atoms value) (Decimal.atoms (multiplier e));
  product ← i128_checked (scaled * quantity);
  product ← i128_checked (product * units_per_trading_unit e);
  Ok (Decimal.from_atoms product).

(** [/] and [%] truncate towards zero. *)
Definition divide_round (numerator denominator : Z) (policy : RoundingPolicy) : result Failure Z :=
  reject denominator =? 0 with Panicked;;
  let quotient := Z.quot numerator denominator in
  let remainder := Z.rem numerator denominator in
  if remainder =? 0 then Ok quotient else
  match policy with
  | Down => Ok quotient
  | Up => i128_checked (quotient + 1)
  | HalfUp =>
      doubled ← ok_or (to_i128 (Z.abs remainder * 2)) Panicked;
      if Z.abs denominator <=? doubled then i128_checked (quotient + 1) else Ok quotient
  end.

Definition validate_models (e : InstrumentEconomics) (fee tax : ChargeModel) : result Failure () :=
  reject (units_per_trading_unit e =? 0) || (Decimal.atoms (multiplier e) <=? 0) || is_empty (provenance e)
      || (Decimal.atoms (rate fee) <? 0) || (Decimal.atoms (minimum fee) <? 0)
      || (Decimal.atoms (rate tax) <? 0) || (Decimal.atoms (minimum tax) <? 0)
      || (18 <? precision fee) || (18 <? precision tax)
    with Returned InvalidModel;;
  Ok ().

Definition notional (f : Fill.FillRecord) (e : InstrumentEconomics) : result Failure Decimal.Decimal :=
  scale_by_quantity (Price.as_decimal (Fill.price f)) (Quantity.value (Fill.quantity f)) e.

Definition applies (s : ChargeSides) (side : OrderSide) : bool :=
  match s, side with Both, _ | BuySide, Buy | SellSide, Sell => true | _, _ => false end.

(** [18 - precision] is a u8 subtraction. *)
Definition charge (notional : Decimal.Decimal) (quantity : Z) (side : OrderSide) (m : ChargeModel) :
    result Failure Decimal.Decimal :=
  if negb (applies (sides m) side) then Ok Decimal.ZERO else
  left ← match basis m with
         | NotionalRate => i128_checked (Z.abs (Decimal.atoms notional))
         | FixedPerUnit => i128_checked (quantity * Decimal.DECIMAL_SCALE_FACTOR)
         end;
  let '(l, r, denominator) := reduce left (Decimal.atoms (rate m)) in
  product ← i128_checked (l * r);
  raw ← divide_round product denominator (rounding m);
  exponent ← ok_or (checked 0 255 (18 - precision m)) Panicked;
  quantum ← i128_checked (10 ^ exponent);
  rounded ← divide_round raw quantum (rounding m);
  rounded ← i128_checked (rounded * quantum);
  Ok (Decimal.from_atoms (Z.max rounded (Decimal.atoms (minimum m)))).

Definition assess_fill_charge (price : Price.Price) (quantity : Quantity.Quantity) (side : OrderSide)
    (e : InstrumentEconomics) (m : ChargeModel) : result Failure Decimal.Decimal :=
  _ ← validate_models e m m;
  notional ← scale_by_quantity (Price.as_decimal price) (Quantity.value quantity) e;
  charge notional (Quantity.value quantity) side m.

Definition average_cost (cost_basis_atoms position : Z) : result Failure (option Decimal.Decimal) :=
  if position =? 0 then Ok None else
  divisor ← try_abs position;
  average ← divide_round cost_basis_atoms divisor HalfUp;
  Ok (Some (Decimal.from_atoms average)).

(** The new position, cost basis and average cost, and the profit realised. *)
Definition transition_position (position cost_basis_atoms delta : Z) (price : Decimal.Decimal) (e : InstrumentEconomics) :
    result Failure (Z * Z * option Decimal.Decimal * Decimal.Decimal) :=
  next ← i128_checked (position + delta);
  if (position =? 0) || (Z.sgn position =? Z.sgn delta) then
    added_value ← i128_checked (Decimal.atoms price * unsigned_abs_as_i128 delta);
    next_cost_basis_atoms ← i128_checked (cost_basis_atoms + added_value);
    average ← average_cost next_cost_basis_atoms next;
    Ok (next, next_cost_basis_atoms, average, Decimal.ZERO)
  else
    let closed := Z.min (Z.abs position) (Z.abs delta) in
    position_size ← try_abs position;
    closed ← i128_checked closed;
    allocated_basis ←
      (if closed =? position_size then Ok cost_basis_atoms
       else numerator ← i128_checked (cost_basis_atoms * closed); divide_round numerator position_size HalfUp);
    closed_value ← i128_checked (Decimal.atoms price * closed);
    difference_atoms ←
      (if 0 <? position then i128_checked (closed_value - allocated_basis)
       else i128_checked (allocated_basis - closed_value));
    realized ← scale_by_quantity (Decimal.from_atoms difference_atoms) 1 e;
    next_cost_basis_atoms ←
      (if next =? 0 then Ok 0
       else if negb (Z.sgn next =? Z.sgn position) then i128_checked (Decimal.atoms price * unsigned_abs_as_i128 next)
       else i128_checked (cost_basis_atoms - allocated_basis));
    average ← average_cost next_cost_basis_atoms next;
    Ok (next, next_cost_basis_atoms, average, realized).

Definition MICROS_PER_MINUTE : Z := 60 * 1000000.
Definition MICROS_PER_DAY : Z := 24 * 60 * MICROS_PER_MINUTE.
Definition trading_date (t : MatchTime.MatchTime) (timezone_offset_minutes : Z) : result Failure TradingDate.TradingDate :=
  offset ← ok_or (to_i64 (timezone_offset_minutes * MICROS_PER_MINUTE)) (Returned InvalidTradingDate);
  local ← ok_or (to_i64 (MatchTime.as_unix_microseconds t + offset)) (Returned InvalidTradingDate);
  epoch_days ← ok_or (to_i32 (local / MICROS_PER_DAY)) (Returned InvalidTradingDate);
  map_err (λ _, Returned InvalidTradingDate) (TradingDate.from_epoch_days epoch_days).

Definition split_sell_tax (price : Decimal.Decimal) (quantity day_trade_quantity : Z) (e : InstrumentEconomics)
    (m : DayTradeTaxModel) : result Failure Decimal.Decimal :=
  ordinary_quantity ← ok_or (to_u64 (quantity - day_trade_quantity)) (Returned Overflow);
  day_trade_tax ←
    (if day_trade_quantity =? 0 then Ok Decimal.ZERO
     else notional ← scale_by_quantity price day_trade_quantity e; charge notional day_trade_quantity Sell (day_trade m));
  ordinary_tax ←
    (if ordinary_quantity =? 0 then Ok Decimal.ZERO
     else notional ← scale_by_quantity price ordinary_quantity e; charge notional ordinary_quantity Sell (ordinary m));
  checked_add day_trade_tax ordinary_tax.

(** ** The ledger of one instrument *)

Record FillCostRecord : Set := mk_cost { cost_order_id : list Z; cost_fee : Decimal.Decimal; cost_tax : Decimal.Decimal }.
Record DayTradeBuy : Set := mk_buy { buy_date : TradingDate.TradingDate; remaining : Z }.
Record DayTradeSell : Set := mk_sell {
  sell_date : TradingDate.TradingDate; sell_price : Decimal.Decimal; sell_quantity : Z; matched : Z;
  assessed_tax : Decimal.Decimal }.

Record Ledger : Set := mk_ledger {
  initial_cash : Decimal.Decimal; cash : Decimal.Decimal; position : Z; cost_basis_atoms : Z;
  ledger_average_cost : option Decimal.Decimal; realized_pnl : Decimal.Decimal; total_fee : Decimal.Decimal;
  total_tax : Decimal.Decimal; fills : list Fill.FillRecord; fill_costs : list FillCostRecord;
  economics : InstrumentEconomics; fee : ChargeModel; tax : ChargeModel; accounting_model : AccountingModel;
  day_trade_tax : option DayTradeTaxModel; day_trade_buys : list DayTradeBuy; day_trade_sells : list DayTradeSell }.

#[global] Instance FillCostRecord_eq_dec : EqDecision FillCostRecord.
Proof. solve_decision. Defined.
#[global] Instance DayTradeBuy_eq_dec : EqDecision DayTradeBuy.
Proof. solve_decision. Defined.
#[global] Instance DayTradeSell_eq_dec : EqDecision DayTradeSell.
Proof. solve_decision. Defined.

Definition new_with_model (initial_cash : Decimal.Decimal) (e : InstrumentEconomics) (fee tax : ChargeModel)
    (m : AccountingModel) : Ledger :=
  mk_ledger initial_cash initial_cash 0 0 None Decimal.ZERO Decimal.ZERO Decimal.ZERO [] [] e fee tax m None [] [].
Definition new (initial_cash : Decimal.Decimal) (e : InstrumentEconomics) (fee tax : ChargeModel) : Ledger :=
  new_with_model initial_cash e fee tax EquityV1.
Definition with_optional_day_trade_tax (l : Ledger) (m : option DayTradeTaxModel) : Ledger :=
  mk_ledger (initial_cash l) (cash l) (position l) (cost_basis_atoms l) (ledger_average_cost l) (realized_pnl l) (total_fee l)
    (total_tax l) (fills l) (fill_costs l) (economics l) (fee l) (tax l) (accounting_model l) m (day_trade_buys l) (day_trade_sells l).
Definition with_day_trade_tax (l : Ledger) (m : DayTradeTaxModel) : Ledger :=
  mk_ledger (initial_cash l) (cash l) (position l) (cost_basis_atoms l) (ledger_average_cost l) (realized_pnl l) (total_fee l)
    (total_tax l) (fills l) (fill_costs l) (economics l) (fee l) (ordinary m) (accounting_model l) (Some m) (day_trade_buys l)
    (day_trade_sells l).

(** The loop of a buy over the earlier sells of its date: returns the quantity
    left, the tax adjustment and the sells. *)
Fixpoint match_sells (e : InstrumentEconomics) (m : DayTradeTaxModel) (date : TradingDate.TradingDate) (unmatched : Z)
    (adjustment : Decimal.Decimal) (sells : list DayTradeSell) : result Failure (Z * Decimal.Decimal * list DayTradeSell) :=
  match sells with
  | [] => Ok (unmatched, adjustment, [])
  | sell :: rest =>
      if negb (bool_decide (sell_date sell = date) && (matched sell <? sell_quantity sell)) then
        '(unmatched, adjustment, rest) ← match_sells e m date unmatched adjustment rest; Ok (unmatched, adjustment, sell :: rest)
      else if unmatched =? 0 then Ok (unmatched, adjustment, sells)
      else
        let now := Z.min unmatched (sell_quantity sell - matched sell) in
        assessed ← split_sell_tax (sell_price sell) (sell_quantity sell) (matched sell + now) e m;
        change ← checked_sub assessed (assessed_tax sell);
        adjustment ← checked_add adjustment change;
        '(unmatched, adjustment, rest) ← match_sells e m date (unmatched - now) adjustment rest;
        Ok (unmatched, adjustment, mk_sell (sell_date sell) (sell_price sell) (sell_quantity sell) (matched sell + now) assessed :: rest)
  end.

(** The loop of a sell over the earlier buys of its date. *)
Fixpoint match_buys (date : TradingDate.TradingDate) (unmatched : Z) (buys : list DayTradeBuy) : Z * list DayTradeBuy :=
  match buys with
  | [] => (unmatched, [])
  | buy :: rest =>
      if negb (bool_decide (buy_date buy = date) && (0 <? remaining buy)) then
        let '(unmatched, rest) := match_buys date unmatched rest in (unmatched, buy :: rest)
      else if unmatched =? 0 then (unmatched, buys)
      else
        let now := Z.min unmatched (remaining buy) in
        let '(unmatched, rest) := match_buys date (unmatched - now) rest in
        (unmatched, mk_buy (buy_date buy) (remaining buy - now) :: rest)
  end.

(** The tax of a fill, with the queues it leaves. *)
Definition tax_for_fill (l : Ledger) (f : Fill.FillRecord) (notional : Decimal.Decimal) :
    result Failure (Decimal.Decimal * list DayTradeBuy * list DayTradeSell) :=
  let buys := day_trade_buys l in
  let sells := day_trade_sells l in
  let quantity := Quantity.value (Fill.quantity f) in
  match day_trade_tax l with
  | None => t ← charge notional quantity (Fill.side f) (tax l); Ok (t, buys, sells)
  | Some m =>
      date ← trading_date (Fill.match_time f) (timezone_offset_minutes m);
      if negb (is_eligible m date) || bool_decide (cmp date (valid_through m) = Gt) then
        t ← charge notional quantity (Fill.side f) (ordinary m); Ok (t, buys, sells)
      else
        match Fill.side f with
        | Buy =>
            '(unmatched, adjustment, sells) ← match_sells (economics l) m date quantity Decimal.ZERO sells;
            Ok (adjustment, (if 0 <? unmatched then buys ++ [mk_buy date unmatched] else buys), sells)
        | Sell =>
            let '(unmatched, buys) := match_buys date quantity buys in
            let now := quantity - unmatched in
            let price := Price.as_decimal (Fill.price f) in
            assessed ← split_sell_tax price quantity now (economics l) m;
            Ok (assessed, buys, (if 0 <? unmatched then sells ++ [mk_sell date price quantity now assessed] else sells))
        end
  end.

Definition cash_delta_for (m : AccountingModel) (side : OrderSide) (notional fee tax realized_delta : Decimal.Decimal) :
    result Failure Decimal.Decimal :=
  match m, side with
  | FuturesV1, _ => d ← checked_sub realized_delta fee; checked_sub d tax
  | _, Buy => a ← checked_add notional fee; a ← checked_add a tax; checked_neg a
  | _, Sell => a ← checked_sub notional fee; checked_sub a tax
  end.

(** The fields are assigned after the last [?]: a failed fill leaves the
    ledger as it was. *)
Definition apply_fill (l : Ledger) (f : Fill.FillRecord) : result Failure Ledger :=
  _ ← validate_models (economics l) (fee l) (tax l);
  _ ← match day_trade_tax l with
      | Some m =>
          _ ← validate_models (economics l) (fee l) (day_trade m);
          reject bool_decide (accounting_model l ≠ EquityV1) with Returned InvalidModel;; Ok ()
      | None => Ok ()
      end;
  let quantity := Quantity.value (Fill.quantity f) in
  notional ← notional f (economics l);
  fill_fee ← charge notional quantity (Fill.side f) (fee l);
  '(fill_tax, buys, sells) ← tax_for_fill l f notional;
  let signed_quantity := match Fill.side f with Buy => quantity | Sell => - quantity end in
  '(next_position, next_basis, average, realized_delta) ←
    transition_position (position l) (cost_basis_atoms l) signed_quantity (Price.as_decimal (Fill.price f)) (economics l);
  cash_delta ← cash_delta_for (accounting_model l) (Fill.side f) notional fill_fee fill_tax realized_delta;
  next_cash ← checked_add (cash l) cash_delta;
  next_fee ← checked_add (total_fee l) fill_fee;
  next_tax ← checked_add (total_tax l) fill_tax;
  next_realized ← checked_add (realized_pnl l) realized_delta;
  Ok (mk_ledger (initial_cash l) next_cash next_position next_basis average next_realized next_fee next_tax
        (fills l ++ [f]) (fill_costs l ++ [mk_cost (Fill.order_id f) fill_fee fill_tax]) (economics l) (fee l) (tax l)
        (accounting_model l) (day_trade_tax l) buys sells).

(** The empty ledger [reconcile] starts from. *)
Definition fresh (l : Ledger) : Ledger :=
  with_optional_day_trade_tax (new_with_model (initial_cash l) (economics l) (fee l) (tax l) (accounting_model l)) (day_trade_tax l).

Definition reconcile (l : Ledger) : result Failure () :=
  rebuilt ← try_fold apply_fill (fresh l) (fills l);
  reject bool_decide (cash rebuilt ≠ cash l) || bool_decide (position rebuilt ≠ position l)
      || bool_decide (cost_basis_atoms rebuilt ≠ cost_basis_atoms l)
      || bool_decide (ledger_average_cost rebuilt ≠ ledger_average_cost l)
      || bool_decide (realized_pnl rebuilt ≠ realized_pnl l) || bool_decide (total_fee rebuilt ≠ total_fee l)
      || bool_decide (total_tax rebuilt ≠ total_tax l) || bool_decide (day_trade_buys rebuilt ≠ day_trade_buys l)
      || bool_decide (day_trade_sells rebuilt ≠ day_trade_sells l) || bool_decide (fill_costs rebuilt ≠ fill_costs l)
    with Returned Reconciliation;;
  Ok ().

Record PerformanceSummary : Set := mk_summary {
  summary_initial_cash : Decimal.Decimal; final_cash : Decimal.Decimal; summary_position : Z;
  summary_realized_pnl : Decimal.Decimal; unrealized_pnl : option Decimal.Decimal; summary_fee : Decimal.Decimal;
  summary_tax : Decimal.Decimal; fill_count : Z }.

Definition performance (l : Ledger) (final_mark : option Decimal.Decimal) : result Failure PerformanceSummary :=
  unrealized ←
    (if position l =? 0 then Ok (Some Decimal.ZERO) else
     match final_mark with
     | Some mark =>
         marked_value ← i128_checked (Decimal.atoms mark * unsigned_abs_as_i128 (position l));
         difference_atoms ←
           (if 0 <? position l then i128_checked (marked_value - cost_basis_atoms l)
            else i128_checked (cost_basis_atoms l - marked_value));
         Some <$> scale_by_quantity (Decimal.from_atoms difference_atoms) 1 (economics l)
     | None => Ok None
     end);
  Ok (mk_summary (initial_cash l) (cash l) (position l) (realized_pnl l) unrealized (total_fee l) (total_tax l) (zlen (fills l))).

(** ** Several instruments sharing cash *)

Record CashChargeRecord : Set := mk_cash_charge {
  identity : list Z; at_time : MatchTime.MatchTime; amount : Decimal.Decimal; category : list Z; reference : list Z }.

Definition cash_charge_new (identity : list Z) (at_time : MatchTime.MatchTime) (amount : Decimal.Decimal)
    (category reference : list Z) : result Failure CashChargeRecord :=
  reject (Decimal.atoms amount <? 0) || trim_is_empty category || trim_is_empty reference with Returned InvalidCashCharge;;
  Ok (mk_cash_charge identity at_time amount category reference).

Record InstrumentLedger : Set := mk_entry {
  entry_quantity_unit : Quantity.QuantityUnit; entry_model : AccountingModel; entry_price_policy : Price.PricePolicy;
  ledger : Ledger }.
Record MultiLedger : Set := mk_multi {
  multi_initial_cash : Decimal.Decimal; multi_cash : Decimal.Decimal;
  ledgers : gmap Instrument.InstrumentId InstrumentLedger;
  cash_charges : list CashChargeRecord; cash_charge_identities : gset (list Z) }.

Definition model_matches_market (i : Instrument.InstrumentId) (m : AccountingModel) : bool :=
  match Instrument.market i, m with
  | Market.Taifex, (FuturesV1 | OptionsV1) => true
  | (Market.Twse | Market.Tpex), EquityV1 => true
  | _, _ => false
  end.

Definition insert_config (ledgers : gmap Instrument.InstrumentId InstrumentLedger) (c : InstrumentLedgerConfig) :
    result Failure (gmap Instrument.InstrumentId InstrumentLedger) :=
  reject negb (model_matches_market (instrument c) (model c))
      || bool_decide (quantity_unit c = Quantity.SourceUnit)
      || (match config_day_trade_tax c with Some _ => true | None => false end && bool_decide (model c ≠ EquityV1))
    with Returned (AccountingModelMismatch (instrument c));;
  _ ← validate_models (config_economics c) (config_fee c) (config_tax c);
  _ ← match config_day_trade_tax c with
      | Some m => validate_models (config_economics c) (config_fee c) (day_trade m)
      | None => Ok ()
      end;
  let entry := mk_entry (quantity_unit c) (model c) (price_policy c)
    (with_optional_day_trade_tax
       (new_with_model Decimal.ZERO (config_economics c) (config_fee c) (config_tax c) (model c)) (config_day_trade_tax c)) in
  match ledgers !! instrument c with
  | Some _ => Err (Returned (DuplicateInstrument (instrument c)))
  | None => Ok (<[instrument c := entry]> ledgers)
  end.

Definition multi_new (initial_cash : Decimal.Decimal) (configs : list InstrumentLedgerConfig) : result Failure MultiLedger :=
  reject Decimal.atoms initial_cash <? 0 with Returned InvalidModel;;
  ledgers ← try_fold insert_config ∅ configs;
  reject bool_decide (ledgers = ∅) with Returned EmptyUniverse;;
  Ok (mk_multi initial_cash initial_cash ledgers [] ∅).

Definition take_charge (acc : gset (list Z) * Decimal.Decimal) (c : CashChargeRecord) :
    result Failure (gset (list Z) * Decimal.Decimal) :=
  let '(identities, next_cash) := acc in
  reject (Decimal.atoms (amount c) <? 0) || trim_is_empty (category c) || trim_is_empty (reference c)
    with Returned InvalidCashCharge;;
  reject bool_decide (identity c ∈ identities) with Returned (DuplicateCashCharge (identity c));;
  next_cash ← checked_sub next_cash (amount c);
  Ok ({[ identity c ]} ∪ identities, next_cash).
Definition apply_cash_charges (m : MultiLedger) (charges : list CashChargeRecord) : result Failure MultiLedger :=
  '(identities, next_cash) ← try_fold take_charge (cash_charge_identities m, multi_cash m) charges;
  Ok (mk_multi (multi_initial_cash m) next_cash (ledgers m) (cash_charges m ++ charges) identities).

Definition multi_apply_fill (m : MultiLedger) (i : Instrument.InstrumentId) (f : Fill.FillRecord) : result Failure MultiLedger :=
  entry ← ok_or (ledgers m !! i) (Returned (UnknownInstrument i));
  reject bool_decide (Quantity.unit (Fill.quantity f) ≠ entry_quantity_unit entry)
    with Returned (QuantityUnitMismatch (entry_quantity_unit entry) (Quantity.unit (Fill.quantity f)));;
  reject negb (Price.accepts (entry_price_policy entry) (Fill.price f)) with Returned InvalidPriceForInstrument;;
  next ← apply_fill (ledger entry) f;
  cash_delta ← checked_sub (cash next) (cash (ledger entry));
  next_cash ← checked_add (multi_cash m) cash_delta;
  Ok (mk_multi (multi_initial_cash m) next_cash
        (<[i := mk_entry (entry_quantity_unit entry) (entry_model entry) (entry_price_policy entry) next]> (ledgers m))
        (cash_charges m) (cash_charge_identities m)).

Definition reconcile_entry (rebuilt_cash : Decimal.Decimal) (entry : InstrumentLedger) : result Failure Decimal.Decimal :=
  reject bool_decide (accounting_model (ledger entry) ≠ entry_model entry) with Returned Reconciliation;;
  _ ← reconcile (ledger entry);
  checked_add rebuilt_cash (cash (ledger entry)).
Definition reconcile_charge (acc : gset (list Z) * Decimal.Decimal) (c : CashChargeRecord) :
    result Failure (gset (list Z) * Decimal.Decimal) :=
  let '(identities, rebuilt_cash) := acc in
  reject bool_decide (identity c ∈ identities) with Returned Reconciliation;;
  rebuilt_cash ← checked_sub rebuilt_cash (amount c);
  Ok ({[ identity c ]} ∪ identities, rebuilt_cash).
Definition multi_reconcile (m : MultiLedger) : result Failure () :=
  rebuilt_cash ← try_fold reconcile_entry (multi_initial_cash m) (btree_values (ledgers m));
  '(identities, rebuilt_cash) ← try_fold reconcile_charge (∅, rebuilt_cash) (cash_charges m);
  reject bool_decide (identities ≠ cash_charge_identities m) with Returned Reconciliation;;
  reject bool_decide (rebuilt_cash ≠ multi_cash m) with Returned Reconciliation;;
  Ok ().

Record InstrumentPerformance : Set := mk_performance {
  performance_instrument : Instrument.InstrumentId; performance_quantity_unit : Quantity.QuantityUnit;
  performance_model : AccountingModel; performance_economics : InstrumentEconomics;
  performance_average_cost : option Decimal.Decimal; summary : PerformanceSummary }.
Record MultiPerformanceSummary : Set := mk_multi_summary {
  multi_summary_initial_cash : Decimal.Decimal; multi_final_cash : Decimal.Decimal; multi_realized_pnl : Decimal.Decimal;
  multi_unrealized_pnl : Decimal.Decimal; multi_total_fee : Decimal.Decimal; multi_total_tax : Decimal.Decimal;
  total_cash_charges : Decimal.Decimal; multi_fill_count : Z; instruments : list InstrumentPerformance }.

(** The totals of the loop: realised and unrealised profit, fees, taxes, the
    fill count, and the instruments so far. *)
Definition Totals : Type :=
  Decimal.Decimal * Decimal.Decimal * Decimal.Decimal * Decimal.Decimal * Z * list InstrumentPerformance.
Definition add_performance (marks : gmap Instrument.InstrumentId (option Decimal.Decimal)) (acc : Totals)
    (e : Instrument.InstrumentId * InstrumentLedger) : result Failure Totals :=
  let '(i, entry) := e in
  let '(realized, unrealized, fees, taxes, count, l) := acc in
  s ← performance (ledger entry) (mjoin (marks !! i));
  reject negb (position (ledger entry) =? 0) && bool_decide (unrealized_pnl s = None) with Returned (MissingFinalMark i);;
  realized ← checked_add realized (summary_realized_pnl s);
  unrealized ← checked_add unrealized (default Decimal.ZERO (unrealized_pnl s));
  fees ← checked_add fees (summary_fee s);
  taxes ← checked_add taxes (summary_tax s);
  count ← ok_or (to_u64 (count + fill_count s)) (Returned Overflow);
  Ok (realized, unrealized, fees, taxes, count,
      l ++ [mk_performance i (entry_quantity_unit entry) (entry_model entry) (economics (ledger entry))
              (ledger_average_cost (ledger entry)) s]).
Definition multi_performance (m : MultiLedger) (marks : gmap Instrument.InstrumentId (option Decimal.Decimal)) :
    result Failure MultiPerformanceSummary :=
  charges ← try_fold (λ total c, checked_add total (amount c)) Decimal.ZERO (cash_charges m);
  '(realized, unrealized, fees, taxes, count, l) ←
    try_fold (add_performance marks) (Decimal.ZERO, Decimal.ZERO, Decimal.ZERO, Decimal.ZERO, 0, []) (btree_entries (ledgers m));
  Ok (mk_multi_summary (multi_initial_cash m) (multi_cash m) realized unrealized fees taxes charges count l).

(** [accounting_version] of a ledger is constant. *)
Definition accounting_version (m : MultiLedger) : Z :=
  foldr Z.max ACCOUNTING_VERSION ((λ _, ACCOUNTING_VERSION) <$> btree_values (ledgers m)).

Definition mark_to_market_adjustment (m : MultiLedger) (i : Instrument.InstrumentId) (mark : Decimal.Decimal) :
    result Failure Decimal.Decimal :=
  entry ← ok_or (ledgers m !! i) (Returned (UnknownInstrument i));
  let p := position (ledger entry) in
  reject negb (Price.accepts (entry_price_policy entry) (Price.new mark)) with Returned InvalidPriceForInstrument;;
  if p =? 0 then Ok Decimal.ZERO else
  if bool_decide (entry_model entry = FuturesV1) then
    s ← performance (ledger entry) (Some mark); ok_or (unrealized_pnl s) (Returned (MissingFinalMark i))
  else
    marked_atoms ← i128_checked (Decimal.atoms mark * unsigned_abs_as_i128 p);
    marked_value ← scale_by_quantity (Decimal.from_atoms marked_atoms) 1 (economics (ledger entry));
    if 0 <? p then Ok marked_value else checked_neg marked_value.

End Accounting.
