(* ===== verification/AccountingLaws.v ===== *)
(** The theorems of the accounting arithmetic and of the single ledger: exact
    products, rounding, the position and cost-basis transition, and the cash
    identity that every ledger built from fills satisfies. *)
From S2P Require Import Prelude Order Text Numeric Quantity Calendar Book Identity Orders Fill Accounting.

Module AccountingLaws.
Import Orders(OrderSide, Buy, Sell) Accounting.
Abbreviation SCALE := Decimal.DECIMAL_SCALE_FACTOR.

(** ** Exact products *)

Lemma gcd_loop_Zgcd k : ∀ fuel l r, (2 * k + 1 ≤ fuel)%nat → 0 ≤ l → 0 ≤ r < 2 ^ Z.of_nat k →
  gcd_loop fuel l r = Z.gcd l r.
Proof.
  induction k as [|k IH]; intros fuel l r Hf Hl Hr; (destruct fuel as [|fuel]; [lia|]); cbn [gcd_loop].
  { assert (r = 0) as -> by lia. rewrite Z.gcd_0_r. simpl. lia. }
  destruct (Z.eqb_spec r 0) as [->|Hr0]; [rewrite Z.gcd_0_r; lia|].
  destruct fuel as [|fuel]; [lia|]. cbn [gcd_loop]. pose proof (Z.mod_pos_bound l r ltac:(lia)) as Hm.
  assert (Hg : Z.gcd r (l mod r) = Z.gcd l r) by (rewrite (Z.gcd_comm r), Z.gcd_mod by lia; apply Z.gcd_comm).
  destruct (Z.eqb_spec (l mod r) 0) as [H0|H0].
  { rewrite <-Hg, H0, Z.gcd_0_r. lia. }
  pose proof (Z.mod_pos_bound r (l mod r) ltac:(lia)) as Hm'.
  rewrite Nat2Z.inj_succ, Z.pow_succ_r in Hr by lia.
  rewrite IH; [|lia|lia|].
  - rewrite <-Hg, (Z.gcd_comm (l mod r) (r mod _)), Z.gcd_mod by lia. apply Z.gcd_comm.
  - split; [lia|]. pose proof (Z.div_mod r (l mod r) ltac:(lia)).
    assert (1 ≤ r / (l mod r)) by (apply Z.div_le_lower_bound; lia). nia.
Qed.

Lemma gcd_Zgcd l r : 0 ≤ l → is_u128 r → gcd l r = Z.gcd l r.
Proof. intros Hl Hr. apply (gcd_loop_Zgcd 128); [lia|done|]. unfold_ints. simpl. lia. Qed.

(** What the reduction leaves is coprime to the denominator. *)
Lemma reduce_spec left right : ∀ l r d, reduce left right = (l, r, d) →
  ∃ g1 g2, 0 < g1 ∧ 0 < g2 ∧ 0 < d ∧ left = l * g1 ∧ right = r * g2 ∧ SCALE = d * g1 * g2 ∧
    Z.gcd (l * r) d = 1.
Proof.
  intros l r d. unfold reduce. set (g1 := gcd (Z.abs left) SCALE). assert (H1 : g1 = Z.gcd left SCALE).
  { unfold g1. rewrite gcd_Zgcd, Z.gcd_abs_l by (unfold_ints; unfold Decimal.DECIMAL_SCALE_FACTOR; lia). done. }
  assert (Hg1 : 0 < g1).
  { pose proof (Z.gcd_nonneg left SCALE). destruct (Z.eq_dec (Z.gcd left SCALE) 0) as [E%Z.gcd_eq_0|]; [|lia].
    unfold Decimal.DECIMAL_SCALE_FACTOR in E. lia. }
  destruct (Z.gcd_divide_l left SCALE) as [l' Hl], (Z.gcd_divide_r left SCALE) as [d1 Hd]. rewrite <-H1 in Hl, Hd.
  assert (Hd1 : 0 < d1) by (unfold Decimal.DECIMAL_SCALE_FACTOR in *; nia).
  rewrite Hl at 1. rewrite Z.quot_mul by lia. replace (Z.quot SCALE g1) with d1 by (rewrite Hd, Z.quot_mul by lia; done).
  set (g2 := gcd (Z.abs right) d1). assert (H2 : g2 = Z.gcd right d1).
  { unfold g2. rewrite gcd_Zgcd, Z.gcd_abs_l; [done|lia|]. unfold_ints. unfold Decimal.DECIMAL_SCALE_FACTOR in Hd. nia. }
  assert (Hg2 : 0 < g2).
  { pose proof (Z.gcd_nonneg right d1). destruct (Z.eq_dec (Z.gcd right d1) 0) as [E%Z.gcd_eq_0|]; lia. }
  destruct (Z.gcd_divide_l right d1) as [r' Hr], (Z.gcd_divide_r right d1) as [d2 Hd2]. rewrite <-H2 in Hr, Hd2.
  rewrite Hr at 1. rewrite Z.quot_mul by lia. replace (Z.quot d1 g2) with d2 by (rewrite Hd2, Z.quot_mul by lia; done).
  intros [= <- <- <-]. assert (0 < d2) by nia. exists g1, g2. split_and!; try done; [nia|].
  assert (Hc1 : Z.gcd l' d1 = 1).
  { apply (Z.gcd_div_gcd left SCALE g1 ltac:(lia)) in H1 as E.
    rewrite Hl in E at 1. rewrite Hd, !Z.div_mul in E by lia. done. }
  assert (Hc2 : Z.gcd r' d2 = 1).
  { apply (Z.gcd_div_gcd right d1 g2 ltac:(lia)) in H2 as E.
    rewrite Hr in E at 1. rewrite Hd2, !Z.div_mul in E by lia. done. }
  apply Z.coprime_mul_l; [|exact Hc2]. apply Z.divide_1_r_nonneg; [apply Z.gcd_nonneg|]. rewrite <-Hc1.
  apply Z.gcd_greatest; [apply Z.gcd_divide_l|]. etrans; [apply Z.gcd_divide_r|]. exists g2. lia.
Qed.

Lemma reduced_divides l r d g1 g2 : 0 < g1 → 0 < g2 → 0 < d → Z.gcd (l * r) d = 1 →
  (d * g1 * g2 | l * g1 * (r * g2)) ↔ d = 1.
Proof.
  intros H1 H2 Hd Hc. split.
  - intros [p Hp]. assert (l * r = p * d) as E by (apply (Z.mul_reg_r _ _ (g1 * g2)); lia).
    rewrite E, Z.gcd_comm, (Z.mul_comm p d), (Z.gcd_mul_diag_l d p ltac:(lia)) in Hc. done.
  - intros ->. exists (l * r). lia.
Qed.

Lemma i128_checked_Ok z z' : i128_checked z = Ok z' ↔ z' = z ∧ is_i128 z.
Proof. unfold i128_checked, ok_or, is_i128, to_i128. destruct (checked _ _ z) eqn:E; [apply checked_Some in E|apply checked_None in E]; naive_solver. Qed.
Lemma i128_checked_Err z e : i128_checked z = Err e ↔ e = Returned Overflow ∧ ¬ is_i128 z.
Proof. unfold i128_checked, ok_or, is_i128, to_i128. destruct (checked _ _ z) eqn:E; [apply checked_Some in E|apply checked_None in E]; naive_solver. Qed.

Lemma quot_in_i128 z d : is_i128 z → 0 < d → is_i128 (Z.quot z d).
Proof.
  intros Hz Hd. pose proof (Z.quot_rem' z d). pose proof (Z.rem_bound_abs z d ltac:(lia)).
  unfold_ints. destruct (Z.le_gt_cases 0 z).
  - pose proof (Z.quot_pos z d). pose proof (Z.rem_nonneg z d ltac:(lia)). nia.
  - pose proof (Z.rem_nonpos z d ltac:(lia)). assert (Z.quot z d ≤ 0) by nia. nia.
Qed.

Lemma multiply_spec left right :
  match multiply_decimal_atoms left right with
  | Ok p => p * SCALE = left * right ∧ is_i128 p
  | Err (Returned PrecisionLoss) => ¬ (SCALE | left * right)
  | Err e => e = Returned Overflow ∧ ∀ p, p * SCALE = left * right → ¬ is_i128 p
  end.
Proof.
  unfold multiply_decimal_atoms. destruct (reduce left right) as [[l r] d] eqn:E.
  apply reduce_spec in E as (g1 & g2 & H1 & H2 & Hd & -> & -> & -> & Hc).
  destruct (i128_checked (l * r)) as [product|e] eqn:Ep; cbn [mbind result_bind].
  - apply i128_checked_Ok in Ep as [-> Hi]. destruct (Z.eqb_spec (Z.rem (l * r) d) 0) as [H0|H0]; cbn [negb].
    + apply Z.rem_divide in H0 as Hdiv; [|lia]. destruct Hdiv as [p Hp]. rewrite Hp, Z.quot_mul by lia.
      split; [transitivity (l * r * (g1 * g2)); [rewrite Hp|]; ring|].
      rewrite Hp in Hi. pose proof (quot_in_i128 _ d Hi ltac:(lia)) as Hq. by rewrite Z.quot_mul in Hq by lia.
    + intros Hdiv%reduced_divides; [|done..]. subst d. by rewrite Z.rem_1_r in H0.
  - apply i128_checked_Err in Ep as [-> Hn]. split; [done|]. intros p Hp Hi. apply Hn.
    assert (d = 1) as -> by (apply (reduced_divides l r d g1 g2); [done..|by exists p]).
    assert (l * r = p) as -> by (apply (Z.mul_reg_r _ _ (g1 * g2)); lia). done.
Qed.

(** The product of two decimals is exact: it succeeds exactly when the true
    product is a representable decimal; a loss of precision means that it has
    more than eighteen places, an overflow that no representable decimal
    equals it. *)
Theorem multiply_decimal_exact left right :
  match multiply_decimal_atoms left right with
  | Ok p => p * SCALE = left * right ∧ is_i128 p
  | Err (Returned PrecisionLoss) => ¬ (SCALE | left * right)
  | Err e => e = Returned Overflow ∧ ∀ p, p * SCALE = left * right → ¬ is_i128 p
  end.
Proof. apply multiply_spec. Qed.

Lemma multiply_Ok left right p : multiply_decimal_atoms left right = Ok p → p * SCALE = left * right ∧ is_i128 p.
Proof. intros H. pose proof (multiply_spec left right) as Hs. by rewrite H in Hs. Qed.

(** The value of [quantity] trading units at [value] each. *)
Lemma scale_Ok v q e r : scale_by_quantity v q e = Ok r →
  Decimal.atoms r * SCALE = Decimal.atoms v * q * (Decimal.atoms (multiplier e) * units_per_trading_unit e) ∧ Decimal.wf r.
Proof.
  unfold scale_by_quantity. intros H. repeat (apply bind_Ok in H as (? & Hx & H); revert Hx).
  intros [-> Hp]%i128_checked_Ok [-> Hq]%i128_checked_Ok [Hm _]%multiply_Ok [-> _]%i128_checked_Ok.
  injection H as <-. cbn [Decimal.atoms]. split; [|done].
  match type of Hm with ?x * _ = _ => transitivity (x * SCALE * (q * units_per_trading_unit e)) end; [|rewrite Hm]; ring.
Qed.

(** ** Rounding *)

(** [q] is [n / d] rounded by the policy. *)
Definition rounds (p : RoundingPolicy) (n d q : Z) : Prop :=
  match p with
  | Down => q * d ≤ n < (q + 1) * d
  | Up => (q - 1) * d < n ≤ q * d
  | HalfUp => (2 * q - 1) * d ≤ 2 * n < (2 * q + 1) * d
  end.

Lemma rounds_scale p n d q g : 0 < g → rounds p n d q → rounds p (n * g) (d * g) q.
Proof. intros Hg. destruct p; simpl; nia. Qed.
Lemma rounds_compose p n a b r k : p ≠ HalfUp → 0 < a → rounds p n a r → rounds p r b k → rounds p n (a * b) k.
Proof. intros Hp Ha. destruct p; simpl; [|done|]; intros [H1 H2] [H3 H4]; nia. Qed.
Lemma rounds_nonneg p n d q : 0 < d → 0 ≤ n → rounds p n d q → 0 ≤ q.
Proof. intros Hd Hn. destruct p; simpl; intros [H1 H2]; nia. Qed.

Lemma quot_rem_nonneg n d : 0 ≤ n → 0 < d → n = d * Z.quot n d + Z.rem n d ∧ 0 ≤ Z.rem n d < d.
Proof. intros Hn Hd. split; [apply Z.quot_rem'|by apply Z.rem_bound_pos]. Qed.

Lemma divide_round_rounds n d p q : 0 ≤ n → 0 < d → divide_round n d p = Ok q → rounds p n d q.
Proof.
  intros Hn Hd. destruct (quot_rem_nonneg n d Hn Hd) as [Hq Hr]. unfold divide_round.
  set (quotient := Z.quot n d) in *. set (remainder := Z.rem n d) in *.
  rewrite (proj2 (Z.eqb_neq d 0)) by lia. destruct (Z.eqb_spec remainder 0) as [H0|H0].
  { intros [= <-]. destruct p; simpl; nia. }
  destruct p; simpl.
  - intros [= <-]. nia.
  - intros (doubled & Hdb & H)%bind_Ok. unfold ok_or in Hdb. destruct (to_i128 _) eqn:E in Hdb; [|done].
    apply checked_Some in E as [-> _]. injection Hdb as <-. destruct (Z.leb_spec (Z.abs d) (Z.abs remainder * 2)).
    + apply i128_checked_Ok in H as [-> _]. nia.
    + injection H as <-. nia.
  - intros [-> _]%i128_checked_Ok. nia.
Qed.

(** It fails on nothing that the ledger divides. *)
Lemma divide_round_total n d p : is_i128 n → 0 < d ≤ 2 ^ 126 → ∃ q, divide_round n d p = Ok q.
Proof.
  intros Hn Hd. unfold divide_round. rewrite (proj2 (Z.eqb_neq d 0)) by lia.
  destruct (Z.eqb_spec (Z.rem n d) 0) as [H0|H0]; [by eexists|].
  pose proof (Z.rem_bound_abs n d ltac:(lia)) as Hb. pose proof (quot_in_i128 n d Hn ltac:(lia)) as Hq.
  assert (Hq1 : is_i128 (Z.quot n d + 1)).
  { pose proof (Z.quot_rem' n d). unfold_ints. destruct (Z.eq_dec d 1) as [->|]; [by rewrite Z.rem_1_r in H0|]. 
    assert (2 * Z.quot n d ≤ n + 1 ∨ Z.quot n d ≤ 0); [|lia]. destruct (Z.le_gt_cases (Z.quot n d) 0); [by right|].
    left. pose proof (Z.rem_bound_abs n d ltac:(lia)). assert (0 ≤ n).
    { destruct (Z.le_gt_cases 0 n); [done|]. pose proof (Z.rem_nonpos n d ltac:(lia)). nia. }
    pose proof (Z.rem_nonneg n d ltac:(lia)). nia. }
  destruct p; [by eexists| |by eexists; apply i128_checked_Ok].
  unfold ok_or, to_i128. rewrite checked_in by (unfold_ints; lia). cbn [mbind result_bind].
  destruct (_ <=? _); [by eexists; apply i128_checked_Ok|by eexists].
Qed.

(** On a negative numerator the code still adds one to the truncated quotient:
    the result is one above the ceiling. *)
Lemma divide_round_negative n d q : n < 0 → 0 < d → ¬ (d | n) → divide_round n d Up = Ok q → n + d ≤ q * d - 1 ∧ q = n / d + 2.
Proof.
  intros Hn Hd Hnd. unfold divide_round. rewrite (proj2 (Z.eqb_neq d 0)) by lia.
  destruct (Z.eqb_spec (Z.rem n d) 0) as [H0|H0]; [by apply Z.rem_divide in H0; [|lia]|].
  intros [-> _]%i128_checked_Ok. pose proof (Z.quot_rem' n d) as E. pose proof (Z.rem_nonpos n d ltac:(lia)).
  pose proof (Z.rem_bound_abs n d ltac:(lia)). split; [nia|].
  assert (n / d = Z.quot n d - 1); [|lia]. symmetry. apply (Z.div_unique_pos n d _ (Z.rem n d + d)); lia.
Qed.

(** ** Charges *)

(** What a charge is assessed on, times [SCALE]. *)
Definition charge_base (notional : Decimal.Decimal) (quantity : Z) (m : ChargeModel) : Z :=
  match basis m with NotionalRate => Z.abs (Decimal.atoms notional) | FixedPerUnit => quantity * SCALE end.
Definition quantum (m : ChargeModel) : Z := 10 ^ (18 - precision m).

(** The two roundings in sequence, from [n / SCALE] atoms to quanta. *)
Definition rounds_twice (p : RoundingPolicy) (n quantum k : Z) : Prop :=
  ∃ raw, rounds p n SCALE raw ∧ rounds p raw quantum k.

Lemma charge_Ok notional quantity side m c : 0 ≤ quantity → 0 ≤ Decimal.atoms (rate m) →
  charge notional quantity side m = Ok c →
  if applies (sides m) side then
    0 ≤ precision m ≤ 18 → ∃ k, 0 ≤ k ∧
      rounds_twice (rounding m) (charge_base notional quantity m * Decimal.atoms (rate m)) (quantum m) k ∧
      Decimal.atoms c = Z.max (k * quantum m) (Decimal.atoms (minimum m))
  else c = Decimal.ZERO.
Proof.
  intros Hq Hrate. unfold charge. destruct (applies (sides m) side); cbn [negb]; [|by intros [= <-]].
  intros (base & Hb & H)%bind_Ok Hp.
  assert (base = charge_base notional quantity m ∧ 0 ≤ base) as [-> Hbase].
  { unfold charge_base. destruct (basis m); apply i128_checked_Ok in Hb as [-> _]; unfold Decimal.DECIMAL_SCALE_FACTOR; lia. }
  clear Hb. set (base := charge_base notional quantity m) in *.
  destruct (reduce base _) as [[l r] d] eqn:E. apply reduce_spec in E as (g1 & g2 & H1 & H2 & Hd & Hl & Hr & Hs & _).
  apply bind_Ok in H as (product & [-> _]%i128_checked_Ok & H). apply bind_Ok in H as (raw & Hraw & H).
  apply bind_Ok in H as (exponent & He & H). unfold ok_or in He. destruct (checked _ _ _) eqn:Hc in He; [|done].
  apply checked_Some in Hc as [-> _]. injection He as <-. fold (quantum m) in H.
  apply bind_Ok in H as (q & [-> _]%i128_checked_Ok & H). apply bind_Ok in H as (k & Hk & H).
  apply bind_Ok in H as (z & [-> _]%i128_checked_Ok & [= <-]).
  assert (0 ≤ l ∧ 0 ≤ r) as [Hl0 Hr0] by nia. assert (0 < quantum m) by (apply Z.pow_pos_nonneg; lia).
  pose proof (Z.mul_nonneg_nonneg _ _ Hl0 Hr0) as Hlr.
  apply divide_round_rounds in Hraw; [|done|done]. pose proof (rounds_nonneg _ _ _ _ Hd Hlr Hraw) as Hraw0.
  apply divide_round_rounds in Hk; [|done|done]. exists k. split_and!; [by eapply rounds_nonneg|exists raw; split; [|done]|done].
  rewrite Hl, Hr, Hs. replace (l * g1 * (r * g2)) with (l * r * (g1 * g2)) by ring.
  replace (d * g1 * g2) with (d * (g1 * g2)) by ring. apply rounds_scale; [by apply Z.mul_pos_pos|done].
Qed.

(** A charge is the exact amount rounded to the configured places and
    raised to the minimum: [Down] is the largest multiple of the quantum not
    above the amount, [Up] the smallest not below, [HalfUp] within half a
    quantum and half an atom of it; a side the model does not charge pays
    nothing. *)
Theorem charge_bounds notional quantity side m c : 0 ≤ quantity → 0 ≤ Decimal.atoms (rate m) → 0 ≤ precision m ≤ 18 →
  charge notional quantity side m = Ok c →
  if applies (sides m) side then
    let exact := charge_base notional quantity m * Decimal.atoms (rate m) in
    let unit := SCALE * quantum m in
    ∃ k, 0 ≤ k ∧ Decimal.atoms c = Z.max (k * quantum m) (Decimal.atoms (minimum m)) ∧
      match rounding m with
      | Down => k * unit ≤ exact < (k + 1) * unit
      | Up => (k - 1) * unit < exact ≤ k * unit
      | HalfUp => 2 * Z.abs (k * unit - exact) ≤ unit + SCALE
      end
  else c = Decimal.ZERO.
Proof.
  intros Hq Hr Hp H. apply charge_Ok in H; [|done..]. destruct (applies _ _); [|done].
  destruct (H Hp) as (k & Hk & (raw & H1 & H2) & Hc). cbv zeta. exists k. split_and!; [done|done|].
  destruct (rounding m) eqn:Ep.
  - by apply (rounds_compose Down _ SCALE (quantum m) raw k).
  - unfold rounds in *. unfold Decimal.DECIMAL_SCALE_FACTOR in *. nia.
  - by apply (rounds_compose Up _ SCALE (quantum m) raw k).
Qed.

Definition sample_charge (p : RoundingPolicy) : ChargeModel :=
  mk_charge NotionalRate (Decimal.from_atoms (10 ^ 17)) Both Decimal.ZERO 0 p.
(** 4.999999999999999995 charged at one tenth to whole units. *)
Definition sample_notional : Decimal.Decimal := Decimal.from_atoms 4999999999999999995.

Lemma charge_bounds_witness : ∃ k, 0 ≤ k ∧ 0 = Z.max (k * 10 ^ 18) 0 ∧
  k * (SCALE * 10 ^ 18) ≤ 4999999999999999995 * 10 ^ 17 < (k + 1) * (SCALE * 10 ^ 18).
Proof.
  exact (charge_bounds sample_notional 1 Buy (sample_charge Down) Decimal.ZERO ltac:(done) ltac:(done) ltac:(done) ltac:(by vm_compute)).
Defined.

(** Half-up rounding is applied twice: an amount below one half is charged one. *)
Lemma charge_rounds_twice : charge sample_notional 1 Buy (sample_charge HalfUp) = Ok (Decimal.from_atoms (10 ^ 18)) ∧
  2 * (charge_base sample_notional 1 (sample_charge HalfUp) * 10 ^ 17) < SCALE * 10 ^ 18.
Proof. by vm_compute. Qed.

(** ** Position and cost basis *)

(** The money one atom of price is worth, times [SCALE]. *)
Definition unit_value (e : InstrumentEconomics) : Z := Decimal.atoms (multiplier e) * units_per_trading_unit e.

(** A position other than zero fits its absolute value; a flat one has no cost. *)
Definition basis_wf (position basis : Z) : Prop := Z.abs position ≤ i128_max ∧ (position = 0 → basis = 0).

Lemma unsigned_abs_small z : Z.abs z ≤ i128_max → unsigned_abs_as_i128 z = Z.abs z.
Proof. intros H. unfold unsigned_abs_as_i128. by rewrite (proj2 (Z.leb_le _ _)). Qed.

Lemma average_cost_small b p a : average_cost b p = Ok a → Z.abs p ≤ i128_max.
Proof.
  unfold average_cost. destruct (Z.eqb_spec p 0) as [->|]; [done|]. intros (d & Hd & _)%bind_Ok.
  unfold try_abs in Hd. apply i128_checked_Ok in Hd as [_ Hd]. unfold_ints. lia.
Qed.

(** Opening or adding to a position. *)
Lemma transition_open p b delta price e p' b' a r : basis_wf p b → 0 < Z.abs delta ≤ i128_max →
  p = 0 ∨ Z.sgn p = Z.sgn delta → transition_position p b delta price e = Ok (p', b', a, r) →
  p' = p + delta ∧ r = Decimal.ZERO ∧ average_cost b' p' = Ok a ∧ basis_wf p' b' ∧
  Z.sgn p' * b' = Z.sgn p * b + Decimal.atoms price * delta.
Proof.
  intros [Hp Hb] Hd Hsame H. unfold transition_position in H. apply bind_Ok in H as (next & [-> _]%i128_checked_Ok & H).
  assert ((p =? 0) || (Z.sgn p =? Z.sgn delta) = true) as E by (apply orb_true_iff; rewrite !Z.eqb_eq; done).
  rewrite E, unsigned_abs_small in H by lia. clear E.
  apply bind_Ok in H as (? & [-> _]%i128_checked_Ok & H). apply bind_Ok in H as (? & [-> _]%i128_checked_Ok & H).
  apply bind_Ok in H as (? & Ha & [= <- <- <- <-]). pose proof (average_cost_small _ _ _ Ha).
  split_and!; try done; [split; [done|lia]|]. destruct Hsame as [->|Hs].
  - rewrite (Hb eq_refl). destruct (Z.le_gt_cases 0 delta); [rewrite Z.sgn_pos, Z.abs_eq by lia|rewrite Z.sgn_neg, Z.abs_neq by lia]; simpl Z.sgn; lia.
  - destruct (Z.le_gt_cases 0 delta).
    + rewrite !Z.sgn_pos, Z.abs_eq by lia. lia.
    + rewrite !Z.sgn_neg, Z.abs_neq by lia. lia.
Qed.

(** Reducing, closing or reversing one realises the closed part's difference. *)
Lemma transition_close p b delta price e p' b' a r : basis_wf p b → 0 < Z.abs delta ≤ i128_max → p ≠ 0 → Z.sgn p ≠ Z.sgn delta →
  transition_position p b delta price e = Ok (p', b', a, r) →
  p' = p + delta ∧ average_cost b' p' = Ok a ∧ basis_wf p' b' ∧ ∃ diff,
    Decimal.atoms r * SCALE = diff * unit_value e ∧
    Z.sgn p' * b' = Z.sgn p * b + Decimal.atoms price * delta + diff.
Proof.
  intros [Hp Hb] Hd Hp0 Hsgn H. unfold transition_position in H. apply bind_Ok in H as (next & [-> _]%i128_checked_Ok & H).
  rewrite (proj2 (Z.eqb_neq p 0)), (proj2 (Z.eqb_neq (Z.sgn p) _)) in H by done. cbn [orb] in H. cbv zeta in H.
  apply bind_Ok in H as (size & [-> _]%i128_checked_Ok & H). apply bind_Ok in H as (closed & [-> _]%i128_checked_Ok & H).
  set (closed := Z.min _ _) in H. apply bind_Ok in H as (allocated & Hal & H).
  apply bind_Ok in H as (value & [-> _]%i128_checked_Ok & H). apply bind_Ok in H as (diff & Hdiff & H).
  apply bind_Ok in H as (realized & [Hr _]%scale_Ok & H). apply bind_Ok in H as (basis & Hbasis & H).
  apply bind_Ok in H as (average & Ha & [= <- <- <- <-]). pose proof (average_cost_small _ _ _ Ha).
  assert (diff = Z.sgn p * (Decimal.atoms price * closed - allocated)) as ->.
  { destruct (Z.ltb_spec 0 p); apply i128_checked_Ok in Hdiff as [-> _]; [rewrite Z.sgn_pos by done|rewrite Z.sgn_neg by lia]; lia. }
  assert (Hfull : closed = Z.abs p → allocated = b).
  { intros E. rewrite E, Z.eqb_refl in Hal. by injection Hal. }
  split_and!; [done|done|split; [done|]|exists (Z.sgn p * (Decimal.atoms price * closed - allocated)); split].
  - intros E. rewrite E in Hbasis. by injection Hbasis.
  - rewrite Hr. cbn [Decimal.atoms]. unfold unit_value. ring.
  - destruct (Z.eqb_spec (p + delta) 0) as [E|Hne].
    { injection Hbasis as <-. rewrite E, Hfull by lia. replace closed with (Z.sgn p * p) by lia. replace delta with (- p) by lia.
      destruct (Z.lt_total p 0) as [?|[?|?]]; [rewrite (Z.sgn_neg p) by done|done|rewrite (Z.sgn_pos p) by done]; simpl Z.sgn; ring. }
    destruct (Z.eqb_spec (Z.sgn (p + delta)) (Z.sgn p)) as [E|Hrev]; cbn [negb] in Hbasis;
      apply i128_checked_Ok in Hbasis as [-> _].
    + rewrite E. assert (delta = - Z.sgn p * closed) as Hdelta by (destruct (Z.lt_total p 0) as [?|[?|?]]; lia).
      rewrite Hdelta at 1. ring.
    + rewrite unsigned_abs_small, (Hfull ltac:(lia)) by lia. replace closed with (Z.sgn p * p) by lia.
      destruct (Z.lt_total p 0) as [?|[?|?]]; [|done|].
      * rewrite (Z.sgn_pos (p + delta)), (Z.sgn_neg p), (Z.abs_eq (p + delta)) by lia. ring.
      * rewrite (Z.sgn_neg (p + delta)), (Z.sgn_pos p), (Z.abs_neq (p + delta)) by lia. ring.
Qed.

(** The position moves by the fill; what is realised and what the position is
    carried at change together by exactly what was traded. *)
Lemma transition_Ok p b delta price e p' b' a r : basis_wf p b → 0 < Z.abs delta ≤ i128_max →
  transition_position p b delta price e = Ok (p', b', a, r) →
  p' = p + delta ∧ average_cost b' p' = Ok a ∧ basis_wf p' b' ∧
  Decimal.atoms r * SCALE = (Z.sgn p' * b' - Z.sgn p * b - Decimal.atoms price * delta) * unit_value e.
Proof.
  intros Hwf Hd H. destruct (decide (p = 0 ∨ Z.sgn p = Z.sgn delta)) as [Ho|Hc].
  - destruct (transition_open _ _ _ _ _ _ _ _ _ Hwf Hd Ho H) as (-> & -> & Ha & Hb & E). rewrite E. split_and!; try done. simpl. lia.
  - assert (p ≠ 0 ∧ Z.sgn p ≠ Z.sgn delta) as [Hp0 Hs] by tauto. destruct (transition_close _ _ _ _ _ _ _ _ _ Hwf Hd Hp0 Hs H) as (-> & Ha & Hb & diff & Hr & E).
    rewrite Hr, E. split_and!; try done. ring.
Qed.

(** ** The ledger *)

Definition signed_quantity (f : Fill.FillRecord) : Z :=
  match Fill.side f with Buy => Quantity.value (Fill.quantity f) | Sell => - Quantity.value (Fill.quantity f) end.
Definition traded_value (f : Fill.FillRecord) : Z := Price.atoms (Fill.price f) * signed_quantity f.

Lemma checked_add_Ok x y z : checked_add x y = Ok z → Decimal.atoms z = Decimal.atoms x + Decimal.atoms y.
Proof.
  unfold checked_add, Decimal.checked_add, to_i128, ok_or. destruct (checked _ _ _) eqn:E; simpl; [|done].
  apply checked_Some in E as [-> _]. by intros [= <-].
Qed.
Lemma checked_sub_Ok x y z : checked_sub x y = Ok z → Decimal.atoms z = Decimal.atoms x - Decimal.atoms y.
Proof.
  unfold checked_sub, Decimal.checked_sub, to_i128, ok_or. destruct (checked _ _ _) eqn:E; simpl; [|done].
  apply checked_Some in E as [-> _]. by intros [= <-].
Qed.
Lemma checked_neg_Ok x z : checked_neg x = Ok z → Decimal.atoms z = - Decimal.atoms x.
Proof.
  unfold checked_neg, Decimal.checked_neg, to_i128, ok_or. destruct (checked _ _ _) eqn:E; simpl; [|done].
  apply checked_Some in E as [-> _]. by intros [= <-].
Qed.

(** What a fill moves in cash, by the accounting model. *)
Lemma cash_delta_Ok m side n fee tax r d : cash_delta_for m side n fee tax r = Ok d →
  Decimal.atoms d = match m, side with
                    | FuturesV1, _ => Decimal.atoms r
                    | _, Buy => - Decimal.atoms n
                    | _, Sell => Decimal.atoms n
                    end - Decimal.atoms fee - Decimal.atoms tax.
Proof.
  unfold cash_delta_for. destruct m, side; intros H.
  all: apply bind_Ok in H as (x & Hx & H).
  all: try (apply bind_Ok in H as (y & Hy & H); apply checked_add_Ok in Hx, Hy; apply checked_neg_Ok in H; lia).
  all: apply checked_sub_Ok in Hx, H; lia.
Qed.

(** What an accepted fill does. *)
Lemma apply_fill_Ok l f l' : apply_fill l f = Ok l' →
  ∃ n fill_fee fill_tax r, notional f (economics l) = Ok n ∧
    charge n (Quantity.value (Fill.quantity f)) (Fill.side f) (fee l) = Ok fill_fee ∧
    tax_for_fill l f n = Ok (fill_tax, day_trade_buys l', day_trade_sells l') ∧
    transition_position (position l) (cost_basis_atoms l) (signed_quantity f) (Price.as_decimal (Fill.price f)) (economics l)
      = Ok (position l', cost_basis_atoms l', ledger_average_cost l', r) ∧
    Decimal.atoms (cash l') = Decimal.atoms (cash l) + match accounting_model l, Fill.side f with
                    | FuturesV1, _ => Decimal.atoms r
                    | _, Buy => - Decimal.atoms n
                    | _, Sell => Decimal.atoms n
                    end - Decimal.atoms fill_fee - Decimal.atoms fill_tax ∧
    Decimal.atoms (total_fee l') = Decimal.atoms (total_fee l) + Decimal.atoms fill_fee ∧
    Decimal.atoms (total_tax l') = Decimal.atoms (total_tax l) + Decimal.atoms fill_tax ∧
    Decimal.atoms (realized_pnl l') = Decimal.atoms (realized_pnl l) + Decimal.atoms r ∧
    fills l' = fills l ++ [f] ∧ fill_costs l' = fill_costs l ++ [mk_cost (Fill.order_id f) fill_fee fill_tax] ∧
    fresh l' = fresh l.
Proof.
  unfold apply_fill. intros H. apply bind_Ok in H as (? & _ & H). apply bind_Ok in H as (? & _ & H).
  apply bind_Ok in H as (n & Hn & H). apply bind_Ok in H as (c & Hc & H). apply bind_Ok in H as ([[t bs] ss] & Ht & H).
  apply bind_Ok in H as ([[[p b] a] r] & Hp & H). apply bind_Ok in H as (d & Hd & H).
  apply bind_Ok in H as (c1 & H1 & H). apply bind_Ok in H as (c2 & H2 & H). apply bind_Ok in H as (c3 & H3 & H).
  apply bind_Ok in H as (c4 & H4 & [= <-]). apply checked_add_Ok in H1, H2, H3, H4. apply cash_delta_Ok in Hd.
  exists n, c, t, r. split_and!; try done. cbn [cash]. rewrite H1, Hd. lia.
Qed.

(** A ledger that is its own fills applied to its empty state. *)
Definition built (l : Ledger) : Prop := try_fold apply_fill (fresh l) (fills l) = Ok l.

Lemma fresh_built l : built (fresh l).
Proof. done. Qed.

Lemma apply_fill_built l f l' : built l → apply_fill l f = Ok l' → built l'.
Proof.
  intros Hl H. destruct (apply_fill_Ok _ _ _ H) as (n & c & t & r & _ & _ & _ & _ & _ & _ & _ & _ & Hf & _ & Hfresh).
  unfold built. rewrite Hfresh, Hf, try_fold_app. unfold built in Hl. rewrite Hl. cbn. by rewrite H.
Qed.

(** Induction over the fills of a ledger. *)
Lemma built_ind (P : Ledger → Prop) : (∀ l, fills l = [] → l = fresh l → P l) →
  (∀ l f l', built l → P l → apply_fill l f = Ok l' → P l') → ∀ l, built l → P l.
Proof.
  intros H0 HS l Hl. unfold built in Hl. assert (Hb : built (fresh l) ∧ P (fresh l)) by (split; [done|by apply H0]).
  cut (built l ∧ P l); [by intros []|].
  apply (try_fold_ind (λ l, built l ∧ P l) apply_fill (fills l) (fresh l) l Hb); [|done].
  intros l1 f l2 _ [Hb1 HP1] Hf. split; [by eapply apply_fill_built|by eapply HS].
Qed.

Lemma fresh_idem l : fresh (fresh l) = fresh l.
Proof. done. Qed.

Lemma reconcile_Ok l : reconcile l = Ok () ↔ built l.
Proof.
  unfold reconcile, built. rewrite bind_Ok. split.
  - intros (r & Hr & H). rewrite Hr. f_equal.
    assert (Hfix : fresh r = fresh l ∧ fills r = fills l).
    { cut (∀ k l0 r0, try_fold apply_fill l0 k = Ok r0 → fresh r0 = fresh l0 ∧ fills r0 = fills l0 ++ k).
      { intros Hc. destruct (Hc _ _ _ Hr) as [-> ->]. by rewrite fresh_idem. }
      clear. induction k as [|f k IH]; intros l0 r0; simpl.
      - intros [= <-]. by rewrite app_nil_r.
      - intros (l1 & H1 & H)%bind_Ok. destruct (apply_fill_Ok _ _ _ H1) as (n & c & t & r & Hx). 
        destruct Hx as (_ & _ & _ & _ & _ & _ & _ & _ & Hf & _ & Hfr). destruct (IH _ _ H) as [-> ->]. 
        by rewrite Hfr, Hf, <-app_assoc. }
    destruct Hfix as [Hfr Hfl]. repeat (case_bool_decide; [done|]).
    repeat match goal with Hn : ¬ (_ ≠ _) |- _ => apply dec_stable in Hn end. destruct l, r. unfold fresh, with_optional_day_trade_tax, new_with_model in Hfr. simpl in *.
    injection Hfr; intros; subst. done.
  - intros H. exists l. split; [done|]. by rewrite !bool_decide_false by naive_solver.
Qed.

(** A ledger reconciles exactly when it is the outcome of applying its own
    fills, in order, to its empty state; so every ledger built by accepted
    fills reconciles. *)
Theorem reconcile_spec l : reconcile l = Ok () ↔ try_fold apply_fill (fresh l) (fills l) = Ok l.
Proof. apply reconcile_Ok. Qed.

(** *** The cash identity *)

Definition traded (l : Ledger) : Z := sum_of traded_value (fills l).

Record identity_holds (l : Ledger) : Prop := {
  identity_basis : basis_wf (position l) (cost_basis_atoms l);
  identity_average : average_cost (cost_basis_atoms l) (position l) = Ok (ledger_average_cost l);
  identity_position : position l = sum_of signed_quantity (fills l);
  identity_orders : cost_order_id <$> fill_costs l = Fill.order_id <$> fills l;
  identity_fee : Decimal.atoms (total_fee l) = sum_of (λ c, Decimal.atoms (cost_fee c)) (fill_costs l);
  identity_tax : Decimal.atoms (total_tax l) = sum_of (λ c, Decimal.atoms (cost_tax c)) (fill_costs l);
  identity_realized : Decimal.atoms (realized_pnl l) * SCALE =
    (Z.sgn (position l) * cost_basis_atoms l - traded l) * unit_value (economics l);
  identity_cash :
    let paid := Decimal.atoms (cash l) - Decimal.atoms (initial_cash l) + Decimal.atoms (total_fee l) + Decimal.atoms (total_tax l) in
    if bool_decide (accounting_model l = FuturesV1) then paid = Decimal.atoms (realized_pnl l)
    else paid * SCALE = - traded l * unit_value (economics l) }.

Lemma fresh_config l l' : fresh l = fresh l' → initial_cash l = initial_cash l' ∧ economics l = economics l' ∧
  accounting_model l = accounting_model l' ∧ fee l = fee l' ∧ tax l = tax l' ∧ day_trade_tax l = day_trade_tax l'.
Proof. unfold fresh, with_optional_day_trade_tax, new_with_model. simpl. intros H. injection H. intros. by split_and!. Qed.

Lemma signed_quantity_small f : Fill.wf f → 0 < Z.abs (signed_quantity f) ≤ i128_max.
Proof. intros (_ & Hq & _). unfold Quantity.wf in Hq. unfold signed_quantity. unfold_ints. destruct (Fill.side f); lia. Qed.

Lemma apply_fill_identity l f l' : Fill.wf f → identity_holds l → apply_fill l f = Ok l' → identity_holds l'.
Proof.
  intros Hf [Hb Ha Hp Ho Hfee Htax Hr Hc] H.
  destruct (apply_fill_Ok _ _ _ H) as (n & c & t & r & Hn & _ & _ & Ht & Hcash & Hfee' & Htax' & Hr' & Hfills & Hcosts & Hfresh).
  destruct (fresh_config _ _ Hfresh) as (Hi & He & Hm & _).
  destruct (transition_Ok _ _ _ _ _ _ _ _ _ Hb (signed_quantity_small f Hf) Ht) as (Hp' & Ha' & Hb' & Hreal).
  apply scale_Ok in Hn as [Hn _]. fold (unit_value (economics l)) in Hn.
  assert (Htr : traded l' = traded l + traded_value f).
  { unfold traded. rewrite Hfills, sum_of_app. unfold sum_of. simpl. lia. }
  assert (Hn' : (match Fill.side f with Buy => Decimal.atoms n | Sell => - Decimal.atoms n end) * SCALE =
    traded_value f * unit_value (economics l)).
  { unfold traded_value, signed_quantity, Price.atoms. destruct (Fill.side f); lia. }
  split; try done.
  - rewrite Hp', Hp, Hfills, sum_of_app. unfold sum_of. simpl. lia.
  - rewrite Hcosts, Hfills, !fmap_app, Ho. done.
  - rewrite Hfee', Hfee, Hcosts, sum_of_app. unfold sum_of. simpl. lia.
  - rewrite Htax', Htax, Hcosts, sum_of_app. unfold sum_of. simpl. lia.
  - rewrite Hr', He, Htr, Z.mul_add_distr_r, Hr, Hreal. unfold traded_value, Price.atoms. ring.
  - cbv zeta in *. rewrite Hcash, Hfee', Htax', Hr', Hi, Hm, Htr, He.
    case_bool_decide as Hmod; [rewrite Hmod in *; lia|].
    destruct (accounting_model l), (Fill.side f); try done; lia.
Qed.

Lemma fresh_identity l : identity_holds (fresh l).
Proof. split; try done. unfold traded, sum_of. simpl. case_bool_decide; lia. Qed.

Lemma built_identity l : Forall Fill.wf (fills l) → built l → identity_holds l.
Proof.
  intros Hf Hb. revert Hf. apply (built_ind (λ l, Forall Fill.wf (fills l) → identity_holds l)); [| |done].
  - intros l0 _ -> _. apply fresh_identity.
  - intros l0 f l1 _ IH H Hf. destruct (apply_fill_Ok _ _ _ H) as (n & c & t & r & _ & _ & _ & _ & _ & _ & _ & _ & Hfills & _).
    rewrite Hfills in Hf. apply Forall_app in Hf as [Hf0 Hf1]. apply Forall_cons_iff in Hf1 as [Hf1 _].
    by eapply apply_fill_identity; [| |exact H]; [|apply IH].
Qed.

(** C6: in every ledger built from fills the position is the sum of the signed
    quantities, the totals are the sums of the recorded costs, and, exactly
    and whatever was rounded on the way: for equities and options the cash
    spent is the value bought less the value sold plus the costs, for
    futures the cash gained is the realised profit less the costs, and the
    realised profit is what the position is carried at less what was traded. *)
Theorem ledger_identity l : Forall Fill.wf (fills l) → reconcile l = Ok () →
  position l = sum_of signed_quantity (fills l) ∧ (position l = 0 → cost_basis_atoms l = 0) ∧
  Decimal.atoms (total_fee l) = sum_of (λ c, Decimal.atoms (cost_fee c)) (fill_costs l) ∧
  Decimal.atoms (total_tax l) = sum_of (λ c, Decimal.atoms (cost_tax c)) (fill_costs l) ∧
  Decimal.atoms (realized_pnl l) * SCALE =
    (Z.sgn (position l) * cost_basis_atoms l - traded l) * unit_value (economics l) ∧
  let paid := Decimal.atoms (cash l) - Decimal.atoms (initial_cash l) + Decimal.atoms (total_fee l) + Decimal.atoms (total_tax l) in
  if bool_decide (accounting_model l = FuturesV1) then paid = Decimal.atoms (realized_pnl l)
  else paid * SCALE = - traded l * unit_value (economics l).
Proof.
  intros Hf Hb%reconcile_Ok. destruct (built_identity l Hf Hb) as [[? ?] ? ? ? ? ? ? ?]. by split_and!.
Qed.

(** *** A sample ledger: buy ten, sell four dearer, sell nine cheaper. *)

Definition sample_economics : InstrumentEconomics := mk_economics 1000 (Decimal.from_atoms SCALE) (bytes_of "spec").
Definition sample_fee : ChargeModel := mk_charge NotionalRate (Decimal.from_atoms 1425000000000000) Both Decimal.ZERO 0 HalfUp.
Definition sample_tax : ChargeModel := mk_charge NotionalRate (Decimal.from_atoms 3000000000000000) SellSide Decimal.ZERO 0 Down.
Definition sample_fill (side : OrderSide) (p q t : Z) : Fill.FillRecord :=
  Fill.from_market_event [] t (MatchTime.from_unix_microseconds t) side (Price.new (Decimal.from_atoms (p * SCALE)))
    (Quantity.mk q Quantity.TradingUnit).
Definition sample_fills : list Fill.FillRecord := [sample_fill Buy 100 10 1; sample_fill Sell 105 4 2; sample_fill Sell 90 9 3].
Definition sample_ledger : Ledger :=
  let l := new (Decimal.from_atoms (2000000 * SCALE)) sample_economics sample_fee sample_tax in
  match try_fold apply_fill l sample_fills with Ok l' => l' | Err _ => l end.

Lemma sample_fill_wf side p q t : - 10 ^ 15 ≤ p ≤ 10 ^ 15 → 1 ≤ q ≤ u64_max → is_i64 t → Fill.wf (sample_fill side p q t).
Proof.
  intros Hp Hq Ht. split_and!; [|done|done]. unfold Price.wf, Decimal.wf, sample_fill. simpl. unfold Decimal.DECIMAL_SCALE_FACTOR.
  unfold_ints. lia.
Qed.

Lemma sample_fills_wf : Forall Fill.wf sample_fills.
Proof. repeat constructor; simpl; unfold Decimal.DECIMAL_SCALE_FACTOR; unfold_ints; lia. Qed.

Lemma ledger_identity_witness : fills sample_ledger = sample_fills ∧ position sample_ledger = -3 ∧
  position sample_ledger = sum_of signed_quantity (fills sample_ledger).
Proof.
  assert (H : fills sample_ledger = sample_fills) by by vm_compute.
  split; [done|]. split; [by vm_compute|].
  assert (Hr : reconcile sample_ledger = Ok ()) by by vm_compute.
  assert (Hf : Forall Fill.wf (fills sample_ledger)) by (rewrite H; apply sample_fills_wf).
  exact (proj1 (ledger_identity sample_ledger Hf Hr)).
Defined.

End AccountingLaws.
