(* ===== verification/LedgerLaws.v ===== *)
(** The theorems of the day-trade queues of a ledger, and of the ledger of
    several instruments: its shared cash, its cash charges and its
    reconciliation. *)
From S2P Require Import Prelude Order Text Numeric Quantity Calendar Book Identity Orders Fill Accounting AccountingLaws.

Module LedgerLaws.
Import Orders(OrderSide, Buy, Sell) Accounting AccountingLaws.

(** ** Day trades *)

(** The queue quantities of one date still open. *)
Definition open_buys (d : TradingDate.TradingDate) (l : list DayTradeBuy) : Z :=
  sum_of (λ b, if bool_decide (buy_date b = d) then remaining b else 0) l.
Definition open_sells (d : TradingDate.TradingDate) (l : list DayTradeSell) : Z :=
  sum_of (λ s, if bool_decide (sell_date s = d) then sell_quantity s - matched s else 0) l.

(** A fill falls on [d], and [d] is an eligible date within the model's life. *)
Definition on_date (m : DayTradeTaxModel) (d : TradingDate.TradingDate) (f : Fill.FillRecord) : bool :=
  match trading_date (Fill.match_time f) (timezone_offset_minutes m) with
  | Ok d' => bool_decide (d' = d) && is_eligible m d && negb (bool_decide (cmp d (valid_through m) = Gt))
  | Err _ => false
  end.
Definition day_quantity (m : DayTradeTaxModel) (d : TradingDate.TradingDate) (side : OrderSide) (l : list Fill.FillRecord) : Z :=
  sum_of (λ f, if on_date m d f && bool_decide (Fill.side f = side) then Quantity.value (Fill.quantity f) else 0) l.

Definition buy_wf (b : DayTradeBuy) : Prop := 0 ≤ remaining b.
(** A queued sell has been taxed for exactly the part that was matched. *)
Definition sell_wf (e : InstrumentEconomics) (m : DayTradeTaxModel) (s : DayTradeSell) : Prop :=
  0 ≤ matched s ≤ sell_quantity s ∧ split_sell_tax (sell_price s) (sell_quantity s) (matched s) e m = Ok (assessed_tax s).


Lemma open_buys_cons d b l : open_buys d (b :: l) = (if bool_decide (buy_date b = d) then remaining b else 0) + open_buys d l.
Proof. done. Qed.
Lemma open_sells_cons d s l :
  open_sells d (s :: l) = (if bool_decide (sell_date s = d) then sell_quantity s - matched s else 0) + open_sells d l.
Proof. done. Qed.

Lemma open_buys_nonneg d l : Forall buy_wf l → 0 ≤ open_buys d l.
Proof.
  intros H. apply sum_of_nonneg. eapply Forall_impl; [|exact H]. unfold buy_wf. intros b Hb. cbv beta. by case_bool_decide.
Qed.
Lemma open_sells_nonneg e m d l : Forall (sell_wf e m) l → 0 ≤ open_sells d l.
Proof.
  intros H. apply sum_of_nonneg. eapply Forall_impl; [|exact H]. intros s [Hs _]. cbv beta. case_bool_decide; lia.
Qed.

(** A sell takes the open buys of its date in order, up to its quantity. *)
Lemma match_buys_spec date l : ∀ q, 0 ≤ q → Forall buy_wf l →
  let '(u, l') := match_buys date q l in
  u = Z.max 0 (q - open_buys date l) ∧ Forall buy_wf l' ∧
  ∀ d, open_buys d l' = open_buys d l - if bool_decide (d = date) then q - u else 0.
Proof.
  induction l as [|b l IH]; intros q Hq Hwf; cbn [match_buys].
  { unfold open_buys. simpl. split_and!; [lia|done|]. intros d. case_bool_decide; lia. }
  apply Forall_cons_iff in Hwf as [Hb Hwf]. pose proof (open_buys_nonneg date l Hwf) as Hnn. unfold buy_wf in Hb.
  destruct (bool_decide (buy_date b = date) && (0 <? remaining b)) eqn:E; cbn [negb].
  - apply andb_true_iff in E as [E1%bool_decide_eq_true E2%Z.ltb_lt]. destruct (Z.eqb_spec q 0) as [->|Hq0].
    { split_and!; [|by constructor|intros d; case_bool_decide; lia].
      rewrite open_buys_cons. case_bool_decide; lia. }
    specialize (IH (q - Z.min q (remaining b)) ltac:(lia) Hwf). destruct (match_buys _ _ _) as [u l'].
    destruct IH as (H1 & H2 & H3). split_and!.
    + rewrite H1. rewrite open_buys_cons, bool_decide_true by done. lia.
    + constructor; [unfold buy_wf; simpl; lia|done].
    + intros d. specialize (H3 d). rewrite !open_buys_cons. cbn [buy_date remaining]. rewrite H3, E1.
      repeat case_bool_decide; try done; lia.
  - specialize (IH q Hq Hwf). destruct (match_buys _ _ _) as [u l'].
    destruct IH as (H1 & H2 & H3). split_and!.
    + rewrite H1. rewrite open_buys_cons. case_bool_decide as Hd; [|lia].
      cbn [andb] in E. apply Z.ltb_ge in E. lia.
    + by constructor.
    + intros d. specialize (H3 d). rewrite !open_buys_cons, H3. lia.
Qed.

(** A buy takes the open sells of its date in order, each retaxed for what is
    now matched of it. *)
Lemma match_sells_spec e m date l : ∀ q adj u adj' l', 0 ≤ q → Forall (sell_wf e m) l →
  match_sells e m date q adj l = Ok (u, adj', l') →
  u = Z.max 0 (q - open_sells date l) ∧ Forall (sell_wf e m) l' ∧
  (∀ d, open_sells d l' = open_sells d l - if bool_decide (d = date) then q - u else 0) ∧
  Decimal.atoms adj' - Decimal.atoms adj =
    sum_of (λ s, Decimal.atoms (assessed_tax s)) l' - sum_of (λ s, Decimal.atoms (assessed_tax s)) l.
Proof.
  induction l as [|s l IH]; intros q adj u adj' l' Hq Hwf; cbn [match_sells].
  { intros [= <- <- <-]. unfold open_sells. simpl. split_and!; [lia|done| |lia]. intros d. case_bool_decide; lia. }
  apply Forall_cons_iff in Hwf as [Hs Hwf]. pose proof (open_sells_nonneg e m date l Hwf) as Hnn.
  destruct (bool_decide (sell_date s = date) && (matched s <? sell_quantity s)) eqn:E; cbn [negb].
  - apply andb_true_iff in E as [E1%bool_decide_eq_true E2%Z.ltb_lt]. destruct Hs as [Hs1 Hs2]. destruct (Z.eqb_spec q 0) as [->|Hq0].
    { intros [= <- <- <-]. split_and!; [|by constructor|intros d; case_bool_decide; lia|lia].
      rewrite open_sells_cons. case_bool_decide; lia. }
    intros (assessed & Hass & H)%bind_Ok. apply bind_Ok in H as (change & Hch & H). apply bind_Ok in H as (adj1 & Hadj & H).
    apply bind_Ok in H as ([[u1 adj2] l1] & H & [= <- <- <-]). apply checked_sub_Ok in Hch. apply checked_add_Ok in Hadj.
    apply IH in H as (H1 & H2 & H3 & H4); [|lia|done]. split_and!.
    + rewrite H1. rewrite open_sells_cons, bool_decide_true by done. lia.
    + constructor; [split; [simpl; lia|done]|done].
    + intros d. specialize (H3 d). rewrite !open_sells_cons. cbn [sell_date sell_quantity matched]. rewrite H3, E1.
      repeat case_bool_decide; try done; lia.
    + rewrite !sum_of_cons. cbn [assessed_tax]. lia.
  - intros ([[u1 adj1] l1] & H & [= <- <- <-])%bind_Ok. apply IH in H as (H1 & H2 & H3 & H4); [|done|done]. split_and!.
    + rewrite H1. rewrite open_sells_cons. case_bool_decide as Hd; [|lia].
      cbn [andb] in E. apply Z.ltb_ge in E. destruct Hs as [Hs _]. lia.
    + by constructor.
    + intros d. specialize (H3 d). rewrite !open_sells_cons, H3. lia.
    + rewrite !sum_of_cons. lia.
Qed.


(** What a fill leaves open on a date. *)
Definition opened (side : OrderSide) (q b s : Z) : Z * Z :=
  match side with Buy => (b + Z.max 0 (q - s), Z.max 0 (s - q)) | Sell => (Z.max 0 (b - q), s + Z.max 0 (q - b)) end.

Lemma tax_for_fill_queues l m f n t bs ss : day_trade_tax l = Some m → Fill.wf f →
  Forall buy_wf (day_trade_buys l) → Forall (sell_wf (economics l) m) (day_trade_sells l) →
  tax_for_fill l f n = Ok (t, bs, ss) →
  Forall buy_wf bs ∧ Forall (sell_wf (economics l) m) ss ∧ ∀ d, (open_buys d bs, open_sells d ss) =
    let b := open_buys d (day_trade_buys l) in
    let s := open_sells d (day_trade_sells l) in
    if on_date m d f then opened (Fill.side f) (Quantity.value (Fill.quantity f)) b s else (b, s).
Proof.
  intros Hm (_ & Hq & _) Hb Hs. unfold Quantity.wf in Hq. set (q := Quantity.value _) in *. unfold tax_for_fill, on_date. rewrite Hm.
  intros (date & Hdate & H)%bind_Ok. rewrite Hdate.
  destruct (negb (is_eligible m date) || _) eqn:E.
  { apply bind_Ok in H as (t' & _ & [= <- <- <-]). split_and!; [done|done|]. intros d. cbv zeta.
    destruct (bool_decide (date = d)) eqn:Ed; [|done]. apply bool_decide_eq_true in Ed as ->.
    destruct (is_eligible m d); [|done]. cbn [negb orb andb] in *. by rewrite E. }
  apply orb_false_iff in E as [E1%negb_false_iff E2].
  assert (Hon : ∀ d, bool_decide (date = d) && is_eligible m d && negb (bool_decide (cmp d (valid_through m) = Gt)) = bool_decide (date = d)).
  { intros d. destruct (bool_decide (date = d)) eqn:Ed; [|done]. apply bool_decide_eq_true in Ed as <-. by rewrite E1, E2. }
  setoid_rewrite Hon. clear Hon. destruct (Fill.side f); cbn [opened].
  - apply bind_Ok in H as ([[u adj] ss'] & H & [= <- <- <-]). apply match_sells_spec in H as (Hu & Hs' & Ho & _); [|lia|done].
    pose proof (open_sells_nonneg _ _ date _ Hs). split_and!.
    + destruct (Z.ltb_spec 0 u); [|done]. apply Forall_app. split; [done|]. constructor; [unfold buy_wf; simpl; lia|done].
    + done.
    + intros d. cbv zeta. rewrite Ho. destruct (Z.ltb_spec 0 u).
      * unfold open_buys at 1. rewrite sum_of_snoc. fold (open_buys d (day_trade_buys l)). cbn [buy_date remaining].
        repeat case_bool_decide; try done; subst; f_equal; lia.
      * repeat case_bool_decide; try done; subst; f_equal; lia.
  - pose proof (match_buys_spec date (day_trade_buys l) q ltac:(lia) Hb) as Hspec.
    destruct (match_buys _ _ _) as [u bs']. destruct Hspec as (Hu & Hb' & Ho).
    pose proof (open_buys_nonneg date _ Hb). apply bind_Ok in H as (assessed & Has & [= <- <- <-]). split_and!.
    + done.
    + destruct (Z.ltb_spec 0 u); [|done]. apply Forall_app. split; [done|]. constructor; [split; [simpl; lia|done]|done].
    + intros d. cbv zeta. rewrite Ho. destruct (Z.ltb_spec 0 u).
      * unfold open_sells at 1. rewrite sum_of_snoc. fold (open_sells d (day_trade_sells l)). cbn [sell_date sell_quantity matched].
        repeat case_bool_decide; try done; subst; f_equal; lia.
      * repeat case_bool_decide; try done; subst; f_equal; lia.
Qed.

(** Whatever the order of the fills, on each eligible date the day-trade
    queues hold the bought quantity exceeding the sold one, or the sold
    exceeding the bought, and nothing else: as much is matched as could be.
    A sell still queued has been taxed for exactly what was matched of it. *)
Theorem day_trade_matching l m : reconcile l = Ok () → Forall Fill.wf (fills l) → day_trade_tax l = Some m →
  (∀ d, let bought := day_quantity m d Buy (fills l) in
        let sold := day_quantity m d Sell (fills l) in
        open_buys d (day_trade_buys l) = Z.max 0 (bought - sold) ∧
        open_sells d (day_trade_sells l) = Z.max 0 (sold - bought)) ∧
  Forall (sell_wf (economics l) m) (day_trade_sells l).
Proof.
  intros Hl%reconcile_Ok Hf Hm.
  cut (Forall buy_wf (day_trade_buys l) ∧ Forall (sell_wf (economics l) m) (day_trade_sells l) ∧
    ∀ d, open_buys d (day_trade_buys l) = Z.max 0 (day_quantity m d Buy (fills l) - day_quantity m d Sell (fills l)) ∧
      open_sells d (day_trade_sells l) = Z.max 0 (day_quantity m d Sell (fills l) - day_quantity m d Buy (fills l)) ).
  { intros (_ & Hs & Ho). by split. }
  revert Hf Hm. revert l Hl. apply (built_ind (λ l, Forall Fill.wf (fills l) → day_trade_tax l = Some m → _)).
  { intros l _ -> _ _. split_and!; [constructor|constructor|]. intros d. unfold open_buys, open_sells, day_quantity, sum_of. simpl. lia. }
  intros l f l' _ IH H Hf Hm. destruct (apply_fill_Ok _ _ _ H) as (n & c & t & r & _ & _ & Ht & _ & _ & _ & _ & _ & Hfills & _ & Hfresh).
  destruct (fresh_config _ _ Hfresh) as (_ & He & _ & _ & _ & Hm'). rewrite Hfills in Hf |- *. rewrite Hm in Hm'.
  apply Forall_app in Hf as [Hf0 Hf1]. apply Forall_cons_iff in Hf1 as [Hf1 _].
  destruct (IH Hf0 (eq_sym Hm')) as (Hb & Hs & Ho). rewrite He.
  destruct (tax_for_fill_queues _ _ _ _ _ _ _ (eq_sym Hm') Hf1 Hb Hs Ht) as (Hb' & Hs' & Ho'). split_and!; [done|done|].
  intros d. destruct (Ho d) as [Ho1 Ho2]. specialize (Ho' d). cbv zeta in Ho'. rewrite Ho1, Ho2 in Ho'.
  unfold day_quantity in *. rewrite !sum_of_snoc. destruct Hf1 as (_ & Hq & _). unfold Quantity.wf in Hq.
  destruct (on_date m d f); cbn [andb]; [|injection Ho' as -> ->; lia].
  destruct (Fill.side f); cbn [opened] in Ho'; injection Ho' as -> ->;
    repeat case_bool_decide; try done; lia.
Qed.

(** Buy five, sell eight, buy one, all on the first day: two stay sold. *)
Definition sample_day_trade : DayTradeTaxModel :=
  mk_day_trade sample_tax (mk_charge NotionalRate (Decimal.from_atoms 1500000000000000) SellSide Decimal.ZERO 0 Down) 480
    (TradingDate.mk 10) true None (bytes_of "spec").
Definition sample_day_fills : list Fill.FillRecord := [sample_fill Buy 100 5 1; sample_fill Sell 101 8 2; sample_fill Buy 99 1 3].
Definition sample_day_ledger : Ledger :=
  let l := with_day_trade_tax (new (Decimal.from_atoms 0) sample_economics sample_fee sample_tax) sample_day_trade in
  match try_fold apply_fill l sample_day_fills with Ok l' => l' | Err _ => l end.

Lemma day_trade_matching_witness : open_sells (TradingDate.mk 0) (day_trade_sells sample_day_ledger) = 2 ∧
  day_quantity sample_day_trade (TradingDate.mk 0) Sell (fills sample_day_ledger) = 8.
Proof.
  assert (H : fills sample_day_ledger = sample_day_fills) by by vm_compute.
  assert (Hr : reconcile sample_day_ledger = Ok ()) by by vm_compute.
  assert (Hf : Forall Fill.wf (fills sample_day_ledger)).
  { rewrite H. repeat constructor; simpl; unfold Decimal.DECIMAL_SCALE_FACTOR; unfold_ints; lia. }
  destruct (day_trade_matching sample_day_ledger sample_day_trade Hr Hf eq_refl) as [Ho _].
  destruct (Ho (TradingDate.mk 0)) as [_ Hs]. split; [|by vm_compute]. rewrite Hs. by vm_compute.
Defined.

(** ** Cash charges *)

Definition charge_valid (c : CashChargeRecord) : Prop :=
  0 ≤ Decimal.atoms (amount c) ∧ trim_is_empty (category c) = false ∧ trim_is_empty (reference c) = false.
Definition charged (l : list CashChargeRecord) : Z := sum_of (λ c, Decimal.atoms (amount c)) l.

Lemma checked_sub_iff x y z : checked_sub x y = Ok z ↔ Decimal.atoms z = Decimal.atoms x - Decimal.atoms y ∧ is_i128 (Decimal.atoms z).
Proof.
  unfold checked_sub, Decimal.checked_sub, to_i128, ok_or, is_i128. destruct (checked _ _ _) eqn:E; simpl.
  - apply checked_Some in E as [-> E]. split; [by intros [= <-]|]. intros [Hz _]. by destruct z; simpl in *; subst.
  - apply checked_None in E. split; [done|]. intros [Hz Hi]. by rewrite Hz in Hi.
Qed.
Lemma checked_add_iff x y z : checked_add x y = Ok z ↔ Decimal.atoms z = Decimal.atoms x + Decimal.atoms y ∧ is_i128 (Decimal.atoms z).
Proof.
  unfold checked_add, Decimal.checked_add, to_i128, ok_or, is_i128. destruct (checked _ _ _) eqn:E; simpl.
  - apply checked_Some in E as [-> E]. split; [by intros [= <-]|]. intros [Hz _]. by destruct z; simpl in *; subst.
  - apply checked_None in E. split; [done|]. intros [Hz Hi]. by rewrite Hz in Hi.
Qed.

Lemma take_charges l : ∀ ids cash ids' cash', is_i128 (Decimal.atoms cash) →
  try_fold take_charge (ids, cash) l = Ok (ids', cash') ↔
  Forall charge_valid l ∧ NoDup (identity <$> l) ∧ (∀ c, c ∈ l → identity c ∉ ids) ∧
  - i128_max - 1 ≤ Decimal.atoms cash - charged l ∧
  Decimal.atoms cash' = Decimal.atoms cash - charged l ∧ ids' = list_to_set (identity <$> l) ∪ ids.
Proof.
  induction l as [|c l IH]; intros ids cash ids' cash' Hc; cbn [try_fold].
  { unfold charged, sum_of. simpl. split.
    - intros [= <- <-]. split_and!; [constructor|constructor|by intros c ?%elem_of_nil|unfold_ints; lia|lia|set_solver].
    - intros (_ & _ & _ & _ & Hv & ->). do 2 f_equal; [set_solver|]. destruct cash, cash'. simpl in *. f_equal. lia. }
  assert (Hch : charged (c :: l) = Decimal.atoms (amount c) + charged l) by done.
  rewrite Forall_cons_iff, Hch, bind_Ok. unfold take_charge at 1. rewrite fmap_cons, list.NoDup_cons. split.
  - intros ([ids1 cash1] & H1 & H2). destruct (_ || _ || _) eqn:Ev in H1; [done|].
    apply orb_false_iff in Ev as [[Hv1%Z.ltb_ge Hv2]%orb_false_iff Hv3]. case_bool_decide as Hin; [done|].
    apply bind_Ok in H1 as (next & Hn & [= <- <-]). apply checked_sub_iff in Hn as [Hn Hi].
    apply IH in H2 as (Hv & Hnd & Hfresh & Hlow & Hcash & ->); [|done].
    split_and!; [done..| |done| |lia|lia|].
    + intros Hin'. apply list_elem_of_fmap in Hin' as (c' & E & Hc'). apply (Hfresh c' Hc'). rewrite <-E. set_solver.
    + intros c' [->|Hc']%elem_of_cons; [done|]. specialize (Hfresh c' Hc'). set_solver.
    + rewrite list_to_set_cons. set_solver.
  - intros ((( Hv1 & Hv2 & Hv3) & Hv) & (Hni & Hnd) & Hfresh & Hlow & Hcash & ->).
    assert (Hnn : 0 ≤ charged l).
    { apply sum_of_nonneg. eapply Forall_impl; [|exact Hv]. by intros c' []. }
    exists ({[ identity c ]} ∪ ids, Decimal.from_atoms (Decimal.atoms cash - Decimal.atoms (amount c))).
    rewrite (proj2 (Z.ltb_ge _ _) Hv1), Hv2, Hv3. cbn [orb]. rewrite bool_decide_false by (apply Hfresh; by left).
    assert (is_i128 (Decimal.atoms cash - Decimal.atoms (amount c))) as Hi by (unfold_ints; lia).
    assert (checked_sub cash (amount c) = Ok (Decimal.from_atoms (Decimal.atoms cash - Decimal.atoms (amount c)))) as -> by by apply checked_sub_iff.
    split; [done|]. apply IH; [done|]. cbn [Decimal.atoms]. split_and!; [done|done| |lia|lia|].
    + intros c' Hc' [Hin|Hin]%elem_of_union; [|by eapply Hfresh; [by right|]].
      apply elem_of_singleton in Hin. apply Hni. rewrite <-Hin. by apply list_elem_of_fmap_2.
    + rewrite list_to_set_cons. set_solver.
Qed.

(** A batch of cash charges is applied entirely or not at all, and it is
    applied exactly when every charge is non-negative and described, no
    identity was charged before or appears twice, and the cash left is
    representable; then each is charged once. *)
Theorem apply_cash_charges_spec m cs : is_i128 (Decimal.atoms (multi_cash m)) →
  (is_ok (apply_cash_charges m cs) = true ↔ Forall charge_valid cs ∧ NoDup (identity <$> cs) ∧
    (∀ c, c ∈ cs → identity c ∉ cash_charge_identities m) ∧ - i128_max - 1 ≤ Decimal.atoms (multi_cash m) - charged cs) ∧
  ∀ m', apply_cash_charges m cs = Ok m' →
    Decimal.atoms (multi_cash m') = Decimal.atoms (multi_cash m) - charged cs ∧
    cash_charges m' = cash_charges m ++ cs ∧ ledgers m' = ledgers m ∧
    ∀ c, c ∈ cs → apply_cash_charges m' [c] = Err (Returned (DuplicateCashCharge (identity c))).
Proof.
  intros Hc. unfold apply_cash_charges. pose proof (take_charges cs (cash_charge_identities m) (multi_cash m)) as H.
  split.
  - split.
    + destruct (try_fold _ _ _) as [[ids cash]|e] eqn:E; [|done]. intros _. destruct (proj1 (H ids cash Hc) eq_refl) as (? & ? & ? & ? & _). done.
    + intros (Hv & Hn & Hf & Hl).
      destruct (H (list_to_set (identity <$> cs) ∪ cash_charge_identities m) (Decimal.from_atoms (Decimal.atoms (multi_cash m) - charged cs)) Hc) as [_ H2].
      by rewrite H2.
  - intros m' ([ids cash] & E & [= <-])%bind_Ok. apply H in E as (Hv & _ & _ & _ & Hcash & Hids); [|done].
    split_and!; [done|done|done|]. intros c Hin. rewrite Forall_forall in Hv. destruct (Hv c) as (Hv1 & Hv2 & Hv3); [by apply list_elem_of_In|].
    cbn [try_fold take_charge multi_cash cash_charge_identities]. rewrite (proj2 (Z.ltb_ge _ _) Hv1), Hv2, Hv3. cbn [orb].
    rewrite bool_decide_true; [done|]. rewrite Hids. apply elem_of_union_l, elem_of_list_to_set. by apply list_elem_of_fmap_2.
Qed.

(** ** No panic *)

Definition calm {A} (r : result Failure A) : Prop := r ≠ Err Panicked.

Lemma calm_bind {A B} (m : result Failure A) (f : A → result Failure B) :
  calm m → (∀ a, m = Ok a → calm (f a)) → calm (m ≫= f).
Proof. unfold calm. destruct m as [a|e]; simpl; [intros _ H; by apply H|intros H _; congruence]. Qed.
Lemma calm_i128 z : calm (i128_checked z).
Proof. unfold calm, i128_checked, ok_or. by destruct (to_i128 z). Qed.
Lemma calm_ok_or {A} (o : option A) e : calm (ok_or o (Returned e)).
Proof. by destruct o. Qed.
Lemma calm_add x y : calm (checked_add x y).
Proof. unfold calm, checked_add. by destruct (Decimal.checked_add x y). Qed.
Lemma calm_sub x y : calm (checked_sub x y).
Proof. unfold calm, checked_sub. by destruct (Decimal.checked_sub x y). Qed.
Lemma calm_neg x : calm (checked_neg x).
Proof. unfold calm, checked_neg. by destruct (Decimal.checked_neg x). Qed.
Lemma calm_Ok {A} (a : A) : calm (Ok a).
Proof. done. Qed.
Create HintDb calm.
#[local] Hint Resolve calm_i128 calm_ok_or calm_add calm_sub calm_neg calm_Ok : calm.

Lemma calm_divide n d p : is_i128 n → 0 < d ≤ 2 ^ 126 → calm (divide_round n d p).
Proof. intros Hn Hd. destruct (divide_round_total n d p Hn Hd) as [q Hq]. by rewrite Hq. Qed.

Lemma calm_scale v q e : calm (scale_by_quantity v q e).
Proof.
  unfold scale_by_quantity. apply calm_bind; [auto with calm|]. intros q' _. apply calm_bind.
  { pose proof (multiply_spec (Decimal.atoms v) (Decimal.atoms (multiplier e))) as H.
    destruct (multiply_decimal_atoms _ _) as [?|[]]; [done|done|]. by destruct H. }
  intros s _. apply calm_bind; [auto with calm|]. intros p _. apply calm_bind; auto with calm.
Qed.

Definition precision_wf (m : ChargeModel) : Prop := 0 ≤ precision m ≤ 18.

Lemma calm_charge n q side m : precision_wf m → calm (charge n q side m).
Proof.
  intros Hp. unfold precision_wf in Hp. unfold charge. destruct (negb _); [done|]. apply calm_bind.
  { destruct (basis m); auto with calm. }
  intros base _. destruct (reduce base _) as [[l r] d] eqn:E. apply reduce_spec in E as (g1 & g2 & H1 & H2 & Hd & _ & _ & Hs & _).
  apply calm_bind; [auto with calm|]. intros p [-> Hpi]%i128_checked_Ok.
  assert (d ≤ 10 ^ 18) by (unfold Decimal.DECIMAL_SCALE_FACTOR in Hs; nia).
  assert (Hq : 0 < 10 ^ (18 - precision m) ≤ 10 ^ 18) by (split; [apply Z.pow_pos_nonneg; lia|apply Z.pow_le_mono_r; lia]).
  apply calm_bind; [apply calm_divide; [done|lia]|]. intros raw Hraw. unfold ok_or. rewrite checked_in by lia. cbn [mbind result_bind].
  apply calm_bind; [auto with calm|]. intros quantum [-> _]%i128_checked_Ok. apply calm_bind.
  { apply calm_divide; [|lia]. unfold divide_round in Hraw. pose proof (quot_in_i128 _ _ Hpi Hd) as Hqi.
    destruct (d =? 0); [done|]. destruct (_ =? 0); [by injection Hraw as <-|]. destruct (rounding m).
    - by injection Hraw as <-.
    - apply bind_Ok in Hraw as (? & _ & Hraw). destruct (_ <=? _); [by apply i128_checked_Ok in Hraw as [-> ?]|by injection Hraw as <-].
    - by apply i128_checked_Ok in Hraw as [-> ?]. }
  intros k _. apply calm_bind; auto with calm.
Qed.

Lemma calm_split price q d e m : precision_wf (ordinary m) → precision_wf (day_trade m) → calm (split_sell_tax price q d e m).
Proof.
  intros Ho Hd. unfold split_sell_tax. apply calm_bind; [auto with calm|]. intros o _.
  apply calm_bind; [destruct (_ =? _); [done|]; apply calm_bind; [apply calm_scale|intros; by apply calm_charge]|]. intros t1 _.
  apply calm_bind; [destruct (_ =? _); [done|]; apply calm_bind; [apply calm_scale|intros; by apply calm_charge]|].
  intros t2 _. auto with calm.
Qed.

Lemma calm_match_sells e m date l : precision_wf (ordinary m) → precision_wf (day_trade m) → ∀ q adj, calm (match_sells e m date q adj l).
Proof.
  intros Ho Hd. induction l as [|s l IH]; intros q adj; cbn [match_sells]; [done|]. destruct (negb _).
  { apply calm_bind; [apply IH|]. by intros [[? ?] ?] _. }
  destruct (q =? 0); [done|]. apply calm_bind; [by apply calm_split|]. intros a _. apply calm_bind; [auto with calm|]. intros c _.
  apply calm_bind; [auto with calm|]. intros a' _. apply calm_bind; [apply IH|]. by intros [[? ?] ?] _.
Qed.

Lemma calm_tax l f n : precision_wf (tax l) →
  (∀ m, day_trade_tax l = Some m → precision_wf (ordinary m) ∧ precision_wf (day_trade m)) → calm (tax_for_fill l f n).
Proof.
  intros Ht Hm. unfold tax_for_fill. destruct (day_trade_tax l) as [m|].
  2: { apply calm_bind; [by apply calm_charge|done]. }
  destruct (Hm m eq_refl) as [Ho Hd]. apply calm_bind.
  { unfold trading_date. repeat (apply calm_bind; [auto with calm|intros ? _]). unfold calm. by destruct (TradingDate.from_epoch_days _). }
  intros date _. destruct (_ || _); [apply calm_bind; [by apply calm_charge|done]|]. destruct (Fill.side f).
  - apply calm_bind; [by apply calm_match_sells|]. by intros [[? ?] ?] _.
  - destruct (match_buys _ _ _). apply calm_bind; [by apply calm_split|done].
Qed.

Lemma calm_average b p : is_i128 b → Z.abs p ≤ 2 ^ 126 → calm (average_cost b p).
Proof.
  intros Hb Hp. unfold average_cost. destruct (Z.eqb_spec p 0); [done|]. apply calm_bind; [apply calm_i128|].
  intros d [-> _]%i128_checked_Ok. apply calm_bind; [apply calm_divide; [done|lia]|done].
Qed.

Lemma calm_transition p b delta price e : Z.abs p ≤ 2 ^ 126 → Z.abs (p + delta) ≤ 2 ^ 126 →
  calm (transition_position p b delta price e).
Proof.
  intros Hp Hn. unfold transition_position. apply calm_bind; [auto with calm|]. intros next [-> _]%i128_checked_Ok.
  destruct (_ || _) eqn:E.
  - apply calm_bind; [auto with calm|]. intros v _. apply calm_bind; [auto with calm|]. intros nb [-> Hi]%i128_checked_Ok.
    apply calm_bind; [by apply calm_average|done].
  - apply orb_false_iff in E as [E%Z.eqb_neq _]. cbv zeta. apply calm_bind; [apply calm_i128|]. intros size [-> _]%i128_checked_Ok.
    apply calm_bind; [auto with calm|]. intros closed _. apply calm_bind.
    { destruct (_ =? _); [done|]. apply calm_bind; [auto with calm|]. intros num [-> Hi]%i128_checked_Ok. apply calm_divide; [done|lia]. }
    intros al _. apply calm_bind; [auto with calm|]. intros v _.
    apply calm_bind; [destruct (_ <? _); auto with calm|]. intros d _. apply calm_bind; [apply calm_scale|]. intros r _.
    destruct (Z.eqb_spec (p + delta) 0) as [E0|E0].
    { cbn [mbind result_bind]. rewrite E0. done. }
    apply calm_bind; [destruct (negb _); auto with calm|]. intros nb Hnb. apply calm_bind; [|done].
    apply calm_average; [|done]. destruct (negb _); by apply i128_checked_Ok in Hnb as [-> ?].
Qed.

(** No arithmetic of a fill panics while positions stay within 2^126 (more
    than 2^62 fills of the largest quantity), given validated day-trade
    models: a fill is accepted or one of the named errors is returned. *)
Theorem fill_never_panics l f : Quantity.wf (Fill.quantity f) → Z.abs (position l) ≤ 2 ^ 126 - u64_max →
  0 ≤ precision (fee l) → 0 ≤ precision (tax l) →
  (∀ m, day_trade_tax l = Some m → precision_wf (ordinary m) ∧ precision_wf (day_trade m)) →
  apply_fill l f ≠ Err Panicked.
Proof.
  intros Hq Hp Hfee Htax Hm. change (calm (apply_fill l f)). unfold apply_fill. apply calm_bind.
  { unfold calm, validate_models. by destruct (_ || _). }
  intros [] Hv. unfold validate_models in Hv. destruct (_ || _) eqn:E in Hv; [done|]. clear Hv.
  apply orb_false_iff in E as [E E1%Z.ltb_ge]. apply orb_false_iff in E as [_ E2%Z.ltb_ge]. apply calm_bind.
  { destruct (day_trade_tax l); [|done]. apply calm_bind; [unfold calm, validate_models; by destruct (_ || _)|].
    intros _ _. unfold calm. by destruct (bool_decide _). }
  intros _ _. cbv zeta. apply calm_bind; [apply calm_scale|]. intros n _.
  apply calm_bind; [by apply calm_charge|]. intros c _. apply calm_bind; [by apply calm_tax|]. intros [[t bs] ss] _.
  apply calm_bind.
  { unfold Quantity.wf, u64_max in *. apply calm_transition; [lia|]. destruct (Fill.side f); lia. }
  intros [[[p b] a] r] _. apply calm_bind.
  { unfold cash_delta_for. destruct (accounting_model l), (Fill.side f); repeat (apply calm_bind; [auto with calm|intros ? _]); auto with calm. }
  intros d _. repeat (apply calm_bind; [auto with calm|intros ? _]). done.
Qed.

Lemma fill_never_panics_witness : apply_fill sample_day_ledger (sample_fill Sell 100 u64_max 4) ≠ Err Panicked.
Proof.
  apply fill_never_panics; [by unfold Quantity.wf; simpl; unfold_ints|by vm_compute|by vm_compute|by vm_compute|].
  assert (day_trade_tax sample_day_ledger = Some sample_day_trade) as -> by by vm_compute.
  intros m [= <-]. unfold precision_wf. simpl. lia.
Defined.

(** ** Several instruments *)

(** The cash held by the ledgers of the instruments. *)
Definition ledgers_cash (ls : gmap Instrument.InstrumentId InstrumentLedger) : Z :=
  sum_of (λ e, Decimal.atoms (cash (ledger e.2))) (map_to_list ls).




Lemma ledgers_cash_new ls i e : ls !! i = None → ledgers_cash (<[i := e]> ls) = Decimal.atoms (cash (ledger e)) + ledgers_cash ls.
Proof. intros H. unfold ledgers_cash. by rewrite map_to_list_insert, sum_of_cons. Qed.

Lemma ledgers_cash_update ls i e e' : ls !! i = Some e →
  ledgers_cash (<[i := e']> ls) = ledgers_cash ls - Decimal.atoms (cash (ledger e)) + Decimal.atoms (cash (ledger e')).
Proof.
  intros H. rewrite <-(insert_delete_eq ls i e'). rewrite ledgers_cash_new by apply lookup_delete_eq.
  rewrite <-(insert_id ls i e) at 2 by done. rewrite <-(insert_delete_eq ls i e). rewrite ledgers_cash_new by apply lookup_delete_eq. lia.
Qed.

Definition entry_wf (e : InstrumentLedger) : Prop :=
  built (ledger e) ∧ accounting_model (ledger e) = entry_model e ∧ initial_cash (ledger e) = Decimal.ZERO.

(** The shared cash is the initial cash, with what each ledger gained, less
    the charges, each charged once. *)
Record multi_wf (m : MultiLedger) : Prop := {
  multi_entries : map_Forall (λ _, entry_wf) (ledgers m);
  multi_charges : Forall charge_valid (cash_charges m);
  multi_identities : cash_charge_identities m = list_to_set (identity <$> cash_charges m);
  multi_once : NoDup (identity <$> cash_charges m);
  multi_balance : Decimal.atoms (multi_cash m) =
    Decimal.atoms (multi_initial_cash m) + ledgers_cash (ledgers m) - charged (cash_charges m);
  multi_initial : is_i128 (Decimal.atoms (multi_initial_cash m));
  multi_representable : is_i128 (Decimal.atoms (multi_cash m)) }.

Lemma insert_configs cs : ∀ ls ls', map_Forall (λ _, entry_wf) ls → try_fold insert_config ls cs = Ok ls' →
  map_Forall (λ _, entry_wf) ls' ∧ ledgers_cash ls' = ledgers_cash ls.
Proof.
  induction cs as [|c cs IH]; intros ls ls' Hls; cbn [try_fold]; [by intros [= <-]|].
  intros (ls1 & H1 & H)%bind_Ok. unfold insert_config in H1. destruct (_ || _ || _); [done|].
  apply bind_Ok in H1 as (? & _ & H1). apply bind_Ok in H1 as (? & _ & H1). cbv zeta in H1.
  destruct (ls !! instrument c) eqn:Hn; [done|]. injection H1 as <-. apply IH in H as [Hls' ->].
  - split; [done|]. rewrite ledgers_cash_new by done. done.
  - by apply map_Forall_insert_2.
Qed.

Lemma multi_new_wf c cs m : Decimal.wf c → multi_new c cs = Ok m → multi_wf m.
Proof.
  intros Hc. unfold multi_new. destruct (_ <? _); [done|]. intros (ls & H & Hm)%bind_Ok.
  case_bool_decide; [done|]. injection Hm as <-. destruct (insert_configs cs ∅ ls (map_Forall_empty _) H) as [Hls Hcash].
  split; try done; simpl; [constructor|]. rewrite Hcash. unfold charged, sum_of, ledgers_cash. rewrite map_to_list_empty. simpl. lia.
Qed.

Lemma apply_cash_charges_wf m cs m' : multi_wf m → apply_cash_charges m cs = Ok m' → multi_wf m'.
Proof.
  intros [He Hv Hi Ho Hb Hin Hr] ([ids c] & E & [= <-])%bind_Ok.
  apply take_charges in E as (Hv' & Hn & Hf & Hl & Hc & ->); [|done].
  assert (Hnn : 0 ≤ charged cs).
  { apply sum_of_nonneg. eapply Forall_impl; [|exact Hv']. by intros c' []. }
  split; cbn [ledgers cash_charges cash_charge_identities multi_cash multi_initial_cash]; try done.
  - by apply Forall_app.
  - rewrite fmap_app, list_to_set_app_L, Hi. set_solver.
  - rewrite fmap_app. apply list.NoDup_app. split_and!; [done| |done]. intros x Hx (c' & -> & Hc')%list_elem_of_fmap.
    apply (Hf c' Hc'). rewrite Hi. by apply elem_of_list_to_set.
  - rewrite Hc, Hb. unfold charged. rewrite sum_of_app. lia.
  - rewrite Hc. unfold_ints. lia.
Qed.

Lemma multi_apply_fill_wf m i f m' : multi_wf m → multi_apply_fill m i f = Ok m' → multi_wf m'.
Proof.
  intros [He Hv Hi Ho Hb Hin Hr] H. unfold multi_apply_fill in H. apply bind_Ok in H as (entry & Hent & H).
  unfold ok_or in Hent. destruct (ledgers m !! i) as [e|] eqn:Hl; [|done]. injection Hent as <-.
  case_bool_decide; [done|]. destruct (negb _); [done|]. apply bind_Ok in H as (next & Hnext & H).
  apply bind_Ok in H as (delta & Hd & H). apply bind_Ok in H as (c & Hc & [= <-]). apply checked_sub_Ok in Hd.
  apply checked_add_iff in Hc as [Hc Hci]. destruct (He i e Hl) as (Hb1 & Hm1 & Hi1).
  destruct (apply_fill_Ok _ _ _ Hnext) as (n & fe & t & r & _ & _ & _ & _ & _ & _ & _ & _ & _ & _ & Hfresh).
  destruct (fresh_config _ _ Hfresh) as (Hi2 & _ & Hm2 & _).
  split; cbn [ledgers cash_charges cash_charge_identities multi_cash multi_initial_cash]; try done.
  - apply map_Forall_insert_2; [|done]. split_and!; cbn [ledger entry_model]; [by eapply apply_fill_built|by rewrite Hm2|by rewrite Hi2].
  - rewrite (ledgers_cash_update _ _ _ _ Hl). cbn [ledger]. lia.
Qed.

(** The operations that build a ledger of several instruments. *)
Inductive multi_reachable : MultiLedger → Prop :=
| reach_new c cs m : Decimal.wf c → multi_new c cs = Ok m → multi_reachable m
| reach_charges m cs m' : multi_reachable m → apply_cash_charges m cs = Ok m' → multi_reachable m'
| reach_fill m i f m' : multi_reachable m → multi_apply_fill m i f = Ok m' → multi_reachable m'.

Lemma multi_reachable_wf m : multi_reachable m → multi_wf m.
Proof.
  induction 1; [by eapply multi_new_wf|by eapply apply_cash_charges_wf|by eapply multi_apply_fill_wf].
Qed.

(** *** Reconciliation *)

Lemma reconcile_entry_wf c e : entry_wf e → reconcile_entry c e = checked_add c (cash (ledger e)).
Proof.
  intros (Hb & Hm & _). unfold reconcile_entry. rewrite bool_decide_false by tauto. by rewrite (proj2 (reconcile_Ok _) Hb).
Qed.
Lemma reconcile_charge_new ids c x : identity x ∉ ids →
  reconcile_charge (ids, c) x = (c ← checked_sub c (amount x); Ok ({[ identity x ]} ∪ ids, c)).
Proof. intros H. unfold reconcile_charge. by rewrite bool_decide_false. Qed.

Lemma reconcile_entries es : ∀ c, Forall entry_wf es → 
  match try_fold reconcile_entry c es with
  | Ok c' => Decimal.atoms c' = Decimal.atoms c + sum_of (λ e, Decimal.atoms (cash (ledger e))) es
  | Err e => e = Returned Overflow ∧
      i128_max < Z.abs (Decimal.atoms c) + sum_of (λ e, Z.abs (Decimal.atoms (cash (ledger e)))) es
  end.
Proof.
  induction es as [|e es IH]; intros c Hes; cbn [try_fold]; [unfold sum_of; simpl; lia|].
  apply Forall_cons_iff in Hes as [He Hes]. rewrite reconcile_entry_wf, !sum_of_cons by done.
  assert (0 ≤ sum_of (λ e, Z.abs (Decimal.atoms (cash (ledger e)))) es) as Hnn.
  { apply sum_of_nonneg, Forall_forall. intros x _. lia. }
  destruct (checked_add c (cash (ledger e))) as [c1|e1] eqn:E; cbn [mbind result_bind].
  - apply checked_add_Ok in E. specialize (IH c1 Hes). destruct (try_fold _ _ _) as [c'|e1]; [lia|].
    destruct IH as [-> IH]. split; [done|]. lia.
  - unfold checked_add, Decimal.checked_add, ok_or, to_i128 in E. destruct (checked _ _ _) eqn:Ec in E; [done|].
    apply checked_None in Ec. injection E as <-. split; [done|]. unfold_ints. lia.
Qed.

Lemma reconcile_charges cs : ∀ ids c, Forall charge_valid cs → NoDup (identity <$> cs) → (∀ x, x ∈ cs → identity x ∉ ids) →
  match try_fold reconcile_charge (ids, c) cs with
  | Ok (ids', c') => ids' = list_to_set (identity <$> cs) ∪ ids ∧ Decimal.atoms c' = Decimal.atoms c - charged cs
  | Err e => e = Returned Overflow ∧ i128_max < Z.abs (Decimal.atoms c) + charged cs
  end.
Proof.
  induction cs as [|x cs IH]; intros ids c Hv Hn Hf; cbn [try_fold].
  { split; [set_solver|]. unfold charged, sum_of. simpl. lia. }
  apply Forall_cons_iff in Hv as [[Hx _] Hv]. rewrite fmap_cons in Hn. apply list.NoDup_cons in Hn as [Hni Hn].
  assert (0 ≤ charged cs) as Hnn.
  { apply sum_of_nonneg. eapply Forall_impl; [|exact Hv]. by intros c' []. }
  assert (charged (x :: cs) = Decimal.atoms (amount x) + charged cs) as -> by done.
  rewrite reconcile_charge_new by (apply Hf; by left).
  destruct (checked_sub c (amount x)) as [c1|e1] eqn:E; cbn [mbind result_bind].
  - apply checked_sub_Ok in E. specialize (IH ({[ identity x ]} ∪ ids) c1 Hv Hn). destruct (try_fold _ _ _) as [[ids' c']|e1].
    + destruct IH as [-> IH]; [|split; [rewrite fmap_cons, list_to_set_cons; set_solver|lia]].
      intros y Hy [Hin|Hin]%elem_of_union; [|by eapply Hf; [by right|]].
      apply elem_of_singleton in Hin. apply Hni. rewrite <-Hin. by apply list_elem_of_fmap_2.
    + destruct IH as [-> IH]; [|split; [done|lia]].
      intros y Hy [Hin|Hin]%elem_of_union; [|by eapply Hf; [by right|]].
      apply elem_of_singleton in Hin. apply Hni. rewrite <-Hin. by apply list_elem_of_fmap_2.
  - unfold checked_sub, Decimal.checked_sub, ok_or, to_i128 in E. destruct (checked _ _ _) eqn:Ec in E; [done|].
    apply checked_None in Ec. injection E as <-. split; [done|]. unfold_ints. lia.
Qed.

(** The absolute amounts a reconciliation adds up. *)
Definition gross (m : MultiLedger) : Z :=
  2 * Z.abs (Decimal.atoms (multi_initial_cash m)) +
  2 * sum_of (λ e, Z.abs (Decimal.atoms (cash (ledger e.2)))) (map_to_list (ledgers m)) + charged (cash_charges m).

Lemma btree_values_sum (g : InstrumentLedger → Z) ls :
  sum_of g (btree_values ls) = sum_of (λ e : Instrument.InstrumentId * InstrumentLedger, g e.2) (map_to_list ls).
Proof. unfold btree_values. rewrite sum_of_fmap. unfold btree_entries. by rewrite sort_on_perm. Qed.

Lemma multi_reconcile_wf m : multi_wf m → multi_reconcile m = Ok () ∨ multi_reconcile m = Err (Returned Overflow) ∧ i128_max < gross m.
Proof.
  intros [He Hv Hi Ho Hb Hin Hr]. unfold multi_reconcile.
  assert (Hes : Forall entry_wf (btree_values (ledgers m))).
  { apply Forall_forall. intros e Hin'%list_elem_of_In. apply elem_of_btree_values in Hin' as [i Hi']. by eapply He. }
  pose proof (reconcile_entries (btree_values (ledgers m)) (multi_initial_cash m) Hes) as H1. rewrite !btree_values_sum in H1.
  fold (ledgers_cash (ledgers m)) in H1.
  assert (0 ≤ charged (cash_charges m)) as Hnn.
  { apply sum_of_nonneg. eapply Forall_impl; [|exact Hv]. by intros c' []. }
  assert (Habs : Z.abs (ledgers_cash (ledgers m)) ≤ sum_of (λ e, Z.abs (Decimal.atoms (cash (ledger e.2)))) (map_to_list (ledgers m))).
  { apply sum_of_abs. }
  destruct (try_fold reconcile_entry _ _) as [c|e]; cbn [mbind result_bind].
  2: { destruct H1 as [-> H1]. right. split; [done|]. unfold gross. lia. }
  pose proof (reconcile_charges (cash_charges m) ∅ c Hv Ho ltac:(set_solver)) as H2.
  destruct (try_fold reconcile_charge _ _) as [[ids c']|e]; cbn [mbind result_bind].
  - left. destruct H2 as [-> H2]. rewrite bool_decide_false by (rewrite Hi; set_solver).
    rewrite bool_decide_false; [done|]. intros Hne. apply Hne. destruct c', (multi_cash m). simpl in *. f_equal. lia.
  - destruct H2 as [-> H2]. right. split; [done|]. unfold gross. lia.
Qed.

(** C4: whatever operations built it, the shared cash of several instruments is
    the initial cash with the cash of the instrument ledgers less the
    charges, every charge counted once; reconciliation confirms it whenever
    the absolute amounts it adds up are representable, and never reports a
    mismatch. *)
Theorem multi_ledger_balance m : multi_reachable m →
  Decimal.atoms (multi_cash m) =
    Decimal.atoms (multi_initial_cash m) + ledgers_cash (ledgers m) - charged (cash_charges m) ∧
  NoDup (identity <$> cash_charges m) ∧
  (∀ i e, ledgers m !! i = Some e → reconcile (ledger e) = Ok ()) ∧
  (multi_reconcile m = Ok () ∨ multi_reconcile m = Err (Returned Overflow) ∧ i128_max < gross m).
Proof.
  intros H%multi_reachable_wf. pose proof (multi_reconcile_wf m H). destruct H as [He Hv Hi Ho Hb Hin Hr]. split_and!; try done.
  intros i e Hl. apply reconcile_Ok. by destruct (He i e Hl).
Qed.

(** *** A sample: a share bought, a futures contract sold short, one charge. *)

Definition share : Instrument.InstrumentId := Instrument.new Market.Twse (Symbol.mk (bytes_of "2330")).
Definition future : Instrument.InstrumentId := Instrument.new Market.Taifex (Symbol.mk (bytes_of "TXF")).
Definition get (r : result Failure MultiLedger) : MultiLedger :=
  match r with Ok m => m | Err _ => mk_multi Decimal.ZERO Decimal.ZERO ∅ [] ∅ end.
Lemma get_Ok r : is_ok r = true → r = Ok (get r).
Proof. by destruct r. Qed.

Definition sample_configs : list InstrumentLedgerConfig :=
  [config_new share Quantity.TradingUnit EquityV1 sample_economics sample_fee sample_tax;
   config_new future Quantity.TradingUnit FuturesV1 sample_economics sample_fee sample_tax].
Definition sample_cash_charge : CashChargeRecord :=
  mk_cash_charge [1] (MatchTime.from_unix_microseconds 5) (Decimal.from_atoms SCALE) (bytes_of "rent") (bytes_of "r1").
Definition sample_opened : MultiLedger := get (multi_new (Decimal.from_atoms (2000000 * SCALE)) sample_configs).
Definition sample_bought : MultiLedger := get (multi_apply_fill sample_opened share (sample_fill Buy 100 10 1)).
Definition sample_charged : MultiLedger := get (apply_cash_charges sample_bought [sample_cash_charge]).
Definition sample_multi : MultiLedger := get (multi_apply_fill sample_charged future (sample_fill Sell 50 2 2)).

Lemma apply_cash_charges_spec_witness : is_ok (apply_cash_charges sample_bought [sample_cash_charge]) = true ∧
  apply_cash_charges sample_charged [sample_cash_charge] = Err (Returned (DuplicateCashCharge [1])).
Proof.
  assert (Hi : is_i128 (Decimal.atoms (multi_cash sample_bought))) by by vm_compute.
  destruct (apply_cash_charges_spec sample_bought [sample_cash_charge] Hi) as [H1 H2]. split.
  - by vm_compute.
  - destruct (H2 sample_charged) as (_ & _ & _ & H); [by apply get_Ok; vm_compute|]. apply (H sample_cash_charge). by left.
Defined.

Lemma multi_ledger_balance_witness : Decimal.atoms (multi_cash sample_multi) =
    2000000 * SCALE + ledgers_cash (ledgers sample_multi) - SCALE ∧
  (∀ i e, ledgers sample_multi !! i = Some e → reconcile (ledger e) = Ok ()).
Proof.
  assert (H : multi_reachable sample_multi).
  { eapply reach_fill; [|apply get_Ok; by vm_compute]. eapply reach_charges; [|apply get_Ok; by vm_compute].
    eapply reach_fill; [|apply get_Ok; by vm_compute]. eapply reach_new; [|apply get_Ok; by vm_compute]. by vm_compute. }
  destruct (multi_ledger_balance sample_multi H) as (Hb & _ & Hr & _). split; [|exact Hr].
  assert (Decimal.atoms (multi_initial_cash sample_multi) = 2000000 * SCALE) as Hi by by vm_compute.
  assert (charged (cash_charges sample_multi) = SCALE) as Hc by by vm_compute.
  by rewrite Hi, Hc in Hb.
Defined.

End LedgerLaws.
