(* ===== verification/Simulator.v ===== *)
(** The event-driven order simulator (execution-sim/src/lib.rs): submission,
    the evaluation of the resting orders against one event, the
    cancellations, and the facade over one simulator per instrument. *)
From S2P Require Import Prelude Order Text Numeric Quantity Calendar Book Identity Signal Codec Values Event MarketState.
From S2P Require Import Ordering Replay Orders Fill.

Module Simulator.
Import Orders Orders.Orders Orders.Trading.

Inductive EvidenceMode : Set := TopOfBook | TradePrint.
Inductive QuantityPolicy : Set := Unlimited | Displayed.
Record FillModel : Set := mk_model {
  evidence_mode : EvidenceMode; quantity_policy : QuantityPolicy; adverse_price_delta : Decimal.Decimal;
  market_data_latency_ms : Z; order_latency_ms : Z }.
Inductive OrderStatus : Set := Pending | PartiallyFilledStatus | FilledStatus | CancelledStatus.

#[global] Instance QuantityPolicy_eq_dec : EqDecision QuantityPolicy.
Proof. solve_decision. Defined.
#[global] Instance OrderStatus_eq_dec : EqDecision OrderStatus.
Proof. solve_decision. Defined.

Record SimOrder : Set := mk_order {
  order_id : list Z; intent : OrderIntent; origin_ordinal : Z; eligible_match_time : MatchTime.MatchTime;
  origin_segment_id : Model.SessionSegmentId; acceptance_sequence : Z; filled : Z; status : OrderStatus }.

(** A u64 subtraction; [filled] never exceeds the quantity ([order_wf]). *)
Definition remaining (o : SimOrder) : Z := Quantity.value (quantity (intent o)) - filled o.
Definition is_open (o : SimOrder) : bool := match status o with Pending | PartiallyFilledStatus => true | _ => false end.
Definition with_status (s : OrderStatus) (o : SimOrder) : SimOrder :=
  mk_order (order_id o) (intent o) (origin_ordinal o) (eligible_match_time o) (origin_segment_id o) (acceptance_sequence o) (filled o) s.

Inductive SimulationError : Set :=
| Canonical (e : Writer.CanonicalEncodingError) | SequenceOverflow | QuantityOverflow | InvalidQuantity | InvalidSlippage
| LatencyOverflow | EmptyUniverse | DuplicateInstrument.

Record Simulator : Set := mk_simulator {
  universe : gset Instrument.InstrumentId; quantity_unit : Quantity.QuantityUnit; model : FillModel;
  price_policy : Price.PricePolicy; orders : list SimOrder; fills : list Fill.FillRecord; next_acceptance_sequence : Z }.

Definition new_with_price_policy (universe : list Instrument.InstrumentId) (u : Quantity.QuantityUnit) (m : FillModel)
    (p : Price.PricePolicy) : Simulator := mk_simulator (list_to_set universe) u m p [] [] 1.
Definition new (universe : list Instrument.InstrumentId) (u : Quantity.QuantityUnit) (m : FillModel) : Simulator :=
  new_with_price_policy universe u m Price.PositiveOnly.

Definition entry_allowed (entry : NewOrderEntry) (t : OrderType) : bool :=
  match entry with
  | Allowed => true
  | Restricted _ => match t with Limit _ => true | MarketOrder => false end
  | Blocked _ | UnknownEntry => false
  end.

Definition limit_touched (i : OrderIntent) (p : Price.Price) : bool :=
  match order_type i with
  | MarketOrder => true
  | Limit limit_price => match side i with Buy => Price.le p limit_price | Sell => Price.le limit_price p end
  end.

Definition apply_slippage (p : Price.Price) (s : OrderSide) (m : FillModel) (policy : Price.PricePolicy) :
    result SimulationError Price.Price :=
  reject Decimal.atoms (adverse_price_delta m) <? 0 with InvalidSlippage;;
  decimal ← map_err (λ _, InvalidSlippage)
    match s with
    | Buy => Decimal.checked_add (Price.as_decimal p) (adverse_price_delta m)
    | Sell => Decimal.checked_sub (Price.as_decimal p) (adverse_price_delta m)
    end;
  reject negb (Price.accepts policy (Price.new decimal)) with InvalidSlippage;;
  Ok (Price.new decimal).

Definition add_latency (t : MatchTime.MatchTime) (market_data_latency_ms order_latency_ms : Z) :
    result SimulationError MatchTime.MatchTime :=
  total_latency_millis ← ok_or (to_u64 (market_data_latency_ms + order_latency_ms)) LatencyOverflow;
  latency_micros ← ok_or (v ← to_u64 (total_latency_millis * 1000); to_i64 v) LatencyOverflow;
  value ← ok_or (to_i64 (MatchTime.as_unix_microseconds t + latency_micros)) LatencyOverflow;
  Ok (MatchTime.from_unix_microseconds value).

Definition order_is_eligible (origin_ordinal : Z) (eligible_match_time : MatchTime.MatchTime) (current_ordinal : Z)
    (current_match_time : MatchTime.MatchTime) : bool :=
  (origin_ordinal <? current_ordinal) && bool_decide (cmp current_match_time eligible_match_time ≠ Lt).

(** The price and quantity an event offers to one side. *)
Definition best_level (b : Book.CompleteBookSnapshot) (s : OrderSide) : option (Price.Price * Quantity.Quantity) :=
  (λ l, (Book.price l, Book.displayed_quantity l)) <$>
    head (Book.levels match s with Buy => Book.asks b | Sell => Book.bids b end).
Definition print_of (t : Trade.ObservedTrade) : Price.Price * Quantity.Quantity := (Trade.price t, Trade.quantity t).
Definition evidence (e : Event.DomainEvent) (mode : EvidenceMode) (s : OrderSide) : option (Price.Price * Quantity.Quantity) :=
  match mode, Event.payload e with
  | TopOfBook, Event.QuoteSnapshotP q => best_level (Event.quote_book q) s
  | TopOfBook, Event.BookSnapshotP b => best_level (Event.book_book b) s
  | TradePrint, Event.QuoteSnapshotP q => print_of <$> Observation.as_set (Event.quote_trade q)
  | TradePrint, Event.TradeBatchP b => print_of <$> head (Event.batch_trades b)
  | _, _ => None
  end.

(** ** Submission *)

Section submit.
Context {B : Event.Blake3}.

Definition order_identity (strategy_id : list Z) (occ : Replay.EventOccurrence) (output_sequence : Z) (canonical : list Z) : list Z :=
  bytes_of "OSOR" ++ strategy_id ++ Replay.event_fingerprint occ ++ be_bytes 8 (Replay.run_event_ordinal occ) ++
  be_bytes 4 output_sequence ++ canonical.

(** A rejection and every error leave the simulator as it was. *)
Definition submit (s : Simulator) (strategy_id : list Z) (occ : Replay.EventOccurrence) (trading : TradingContext)
    (output_sequence : Z) (i : OrderIntent) : result SimulationError (OrderFeedback * Simulator) :=
  if negb (bool_decide (instrument i ∈ universe s)) then Ok (Rejected InstrumentOutsideUniverse, s) else
  if bool_decide (Quantity.unit (quantity i) ≠ quantity_unit s) then Ok (Rejected QuantityUnitMismatch, s) else
  if match order_type i with Limit limit_price => negb (Price.accepts (price_policy s) limit_price) | MarketOrder => false end
  then Ok (Rejected PriceNotAllowedByInstrumentProfile, s) else
  if negb (entry_allowed (new_order_entry trading) (order_type i)) then Ok (Rejected NewOrderEntryBlocked, s) else
  canonical ← map_err Canonical (to_canonical_bytes i);
  let id := Event.blake3 (order_identity strategy_id occ output_sequence canonical) in
  eligible ← add_latency (Ordering.match_time (Replay.ordering_key occ))
               (market_data_latency_ms (model s)) (order_latency_ms (model s));
  let sequence := next_acceptance_sequence s in
  next ← ok_or (to_u64 (sequence + 1)) SequenceOverflow;
  Ok (Accepted id,
      mk_simulator (universe s) (quantity_unit s) (model s) (price_policy s)
        (orders s ++ [mk_order id i (Replay.run_event_ordinal occ) eligible (segment_id (session trading)) sequence 0 Pending])
        (fills s) next).
End submit.

(** ** Evaluation *)

(** What is left to one side of the evidence of an event. *)
Definition Offer : Set := option (Price.Price * Quantity.Quantity).

(** One turn of the loop: [Skipped] is a [continue]; [Stopped] an error, with
    the order and the fills as they were left; [Executed] a fill, with what
    remains on offer. *)
Inductive Outcome : Set :=
| Skipped
| Stopped (e : SimulationError) (o : SimOrder) (fs : list Fill.FillRecord)
| Executed (o : SimOrder) (f : Fill.FillRecord) (feedback : OrderFeedback) (offer : Offer).

Definition fill_order (m : FillModel) (policy : Price.PricePolicy) (e : Event.DomainEvent) (occ : Replay.EventOccurrence)
    (o : SimOrder) (available : Offer) : Outcome :=
  if negb (is_open o)
      || negb (order_is_eligible (origin_ordinal o) (eligible_match_time o) (Replay.run_event_ordinal occ) (Event.match_time e))
      || bool_decide (Event.instrument e ≠ instrument (intent o)) then Skipped else
  match available with
  | None => Skipped
  | Some (evidence_price, evidence_quantity) =>
      if bool_decide (Quantity.unit evidence_quantity ≠ Quantity.unit (quantity (intent o))) then Skipped else
      if negb (limit_touched (intent o) evidence_price) then Skipped else
      match apply_slippage evidence_price (side (intent o)) m policy with
      | Err err => Stopped err o []
      | Ok fill_price =>
          if negb (limit_touched (intent o) fill_price) then Skipped else
          let fill_value := match quantity_policy m with
                            | Unlimited => remaining o
                            | Displayed => Z.min (remaining o) (Quantity.value evidence_quantity)
                            end in
          if fill_value =? 0 then Skipped else
          match Quantity.new fill_value (Quantity.unit evidence_quantity) with
          | Err _ => Stopped InvalidQuantity o []
          | Ok q =>
              match to_u64 (filled o + fill_value) with
              | None => Stopped QuantityOverflow o []
              | Some filled' =>
                  let completed := Quantity.value (quantity (intent o)) - filled' =? 0 in
                  let o' := mk_order (order_id o) (intent o) (origin_ordinal o) (eligible_match_time o) (origin_segment_id o)
                              (acceptance_sequence o) filled' (if completed then FilledStatus else PartiallyFilledStatus) in
                  let f := Fill.from_market_event (order_id o) (Replay.run_event_ordinal occ) (Event.match_time e)
                             (side (intent o)) fill_price q in
                  let offer := match quantity_policy m with
                               | Displayed =>
                                   (λ left_over, (evidence_price, left_over)) <$>
                                     res_ok (Quantity.new (Z.max 0 (Quantity.value evidence_quantity - fill_value))
                                               (Quantity.unit evidence_quantity))
                               | Unlimited => available
                               end in
                  if completed then Executed o' f (Filled (order_id o) q) offer else
                  match Quantity.new (remaining o') (Quantity.unit q) with
                  | Err _ => Stopped InvalidQuantity o' [f]
                  | Ok rest => Executed o' f (PartiallyFilled (order_id o) q rest) offer
                  end
              end
          end
      end
  end.

(** The loop over the orders, with what each side still offers. *)
Fixpoint fill_orders (m : FillModel) (policy : Price.PricePolicy) (e : Event.DomainEvent) (occ : Replay.EventOccurrence)
    (buy sell : Offer) (os : list SimOrder) : list SimOrder * list Fill.FillRecord * result SimulationError (list OrderFeedback) :=
  match os with
  | [] => ([], [], Ok [])
  | o :: os =>
      match fill_order m policy e occ o (match side (intent o) with Buy => buy | Sell => sell end) with
      | Skipped => let '(os', fs, r) := fill_orders m policy e occ buy sell os in (o :: os', fs, r)
      | Stopped err o' fs => (o' :: os, fs, Err err)
      | Executed o' f feedback offer =>
          let '(os', fs, r) :=
            match side (intent o) with
            | Buy => fill_orders m policy e occ offer sell os
            | Sell => fill_orders m policy e occ buy offer os
            end in
          (o' :: os', f :: fs, (λ l, feedback :: l) <$> r)
      end
  end.

(** [cancel_*]: every open order that [select] chooses, in place. *)
Definition cancel_orders (select : SimOrder → bool) (reason : CancellationReason) (s : Simulator) : list OrderFeedback * Simulator :=
  ((λ o, Cancelled (order_id o) reason) <$> filter (λ o, select o && is_open o) (orders s),
   mk_simulator (universe s) (quantity_unit s) (model s) (price_policy s)
     ((λ o, if select o && is_open o then with_status CancelledStatus o else o) <$> orders s) (fills s) (next_acceptance_sequence s)).
Definition cancel_pending_market_orders (i : Instrument.InstrumentId) : Simulator → list OrderFeedback * Simulator :=
  cancel_orders (λ o, bool_decide (instrument (intent o) = i) && bool_decide (order_type (intent o) = MarketOrder)) VolatilityInterruption.
Definition cancel_end_of_run : Simulator → list OrderFeedback * Simulator := cancel_orders (λ _, true) EndOfRun.
Definition cancel_segment_end (segment : Model.SessionSegmentId) : Simulator → list OrderFeedback * Simulator :=
  cancel_orders (λ o, bool_decide (origin_segment_id o = segment)) SegmentEnd.

Definition evaluate (s : Simulator) (e : Event.DomainEvent) (occ : Replay.EventOccurrence) (trading : TradingContext) :
    result SimulationError (list OrderFeedback) * Simulator :=
  if match market_signal trading with
     | Some (Signal.AuctionCollecting o) => bool_decide (Signal.purpose o = Signal.Known Signal.VolatilityInterruption)
     | _ => false
     end
  then let '(feedback, s) := cancel_pending_market_orders (Event.instrument e) s in (Ok feedback, s) else
  match matching trading with
  | Enabled _ =>
      match new_order_entry trading with
      | Blocked _ | UnknownEntry => (Ok [], s)
      | Allowed | Restricted _ =>
          let accepted := λ offer : Offer, '(p, q) ← offer; if Price.accepts (price_policy s) p then Some (p, q) else None in
          let available_buy := accepted (evidence e (evidence_mode (model s)) Buy) in
          let available_sell := accepted (evidence e (evidence_mode (model s)) Sell) in
          let '(os, fs, r) :=
            fill_orders (model s) (price_policy s) e occ available_buy available_sell
              (sort_on (λ o, (acceptance_sequence o, order_id o)) (orders s)) in
          (r, mk_simulator (universe s) (quantity_unit s) (model s) (price_policy s) os (fills s ++ fs) (next_acceptance_sequence s))
      end
  | MatchingClosed | UnknownMatching => (Ok [], s)
  end.

(** ** One simulator per instrument *)

Definition MultiSimulator : Type := gmap Instrument.InstrumentId Simulator.

Definition insert_simulator (sims : MultiSimulator)
    (c : Instrument.InstrumentId * Quantity.QuantityUnit * FillModel * Price.PricePolicy) : result SimulationError MultiSimulator :=
  let '(i, u, m, p) := c in
  match sims !! i with
  | Some _ => Err DuplicateInstrument
  | None => Ok (<[i := new_with_price_policy [i] u m p]> sims)
  end.
Definition new_multi (configs : list (Instrument.InstrumentId * Quantity.QuantityUnit * FillModel * Price.PricePolicy)) :
    result SimulationError MultiSimulator :=
  sims ← try_fold insert_simulator (∅ : MultiSimulator) configs;
  reject bool_decide (sims = ∅) with EmptyUniverse;;
  Ok sims.

Definition multi_submit {B : Event.Blake3} (sims : MultiSimulator) (strategy_id : list Z) (occ : Replay.EventOccurrence)
    (trading : TradingContext) (output_sequence : Z) (i : OrderIntent) : result SimulationError (OrderFeedback * MultiSimulator) :=
  match sims !! instrument i with
  | None => Ok (Rejected InstrumentOutsideUniverse, sims)
  | Some s =>
      '(feedback, s) ← submit s strategy_id occ trading output_sequence i;
      Ok (feedback, <[instrument i := s]> sims)
  end.

Definition multi_evaluate (sims : MultiSimulator) (e : Event.DomainEvent) (occ : Replay.EventOccurrence) (trading : TradingContext) :
    result SimulationError (list OrderFeedback) * MultiSimulator :=
  match sims !! Event.instrument e with
  | None => (Ok [], sims)
  | Some s => let '(r, s) := evaluate s e occ trading in (r, <[Event.instrument e := s]> sims)
  end.

(** A cancellation of every simulator, in the order of the instruments. *)
Definition cancel_all (cancel : Simulator → list OrderFeedback * Simulator) (sims : MultiSimulator) :
    list OrderFeedback * MultiSimulator :=
  (concat ((fst ∘ cancel) <$> btree_values sims), (snd ∘ cancel) <$> sims).
Definition cancel_for (cancel : Simulator → list OrderFeedback * Simulator) (i : Instrument.InstrumentId) (sims : MultiSimulator) :
    list OrderFeedback * MultiSimulator :=
  match sims !! i with
  | Some s => let '(feedback, s) := cancel s in (feedback, <[i := s]> sims)
  | None => ([], sims)
  end.
Definition multi_cancel_segment_end (segment : Model.SessionSegmentId) := cancel_all (cancel_segment_end segment).
Definition multi_cancel_segment_end_for (i : Instrument.InstrumentId) (segment : Model.SessionSegmentId) :=
  cancel_for (cancel_segment_end segment) i.
Definition multi_cancel_end_of_run := cancel_all cancel_end_of_run.
Definition multi_cancel_end_of_run_for (i : Instrument.InstrumentId) := cancel_for cancel_end_of_run i.

Definition multi_orders (sims : MultiSimulator) : list SimOrder := concat (orders <$> btree_values sims).
Definition multi_fills (sims : MultiSimulator) : list Fill.FillRecord := concat (fills <$> btree_values sims).
Definition order_count (sims : MultiSimulator) : Z := foldr (λ s n, zlen (orders s) + n) 0 (btree_values sims).
Definition fill_count (sims : MultiSimulator) : Z := foldr (λ s n, zlen (fills s) + n) 0 (btree_values sims).

End Simulator.
