(* ===== verification/SimulatorLaws.v ===== *)
(** The theorems of the event-driven simulator: the invariant of the orders
    and fills, how the evidence of an event is shared among the resting
    orders, and what a fill may never do. *)
From S2P Require Import Prelude Order Text Numeric Quantity Calendar Book Identity Signal Codec Values Event MarketState.
From S2P Require Import EventCodec Ordering Replay Orders Fill DepthLaws Simulator.

Module SimulatorLaws.
Import Orders Orders.Orders Orders.Trading Simulator.
Import DepthLaws(due, due_head, due_tail, due_spent, due_nil, sum_list).

(** ** One order *)

Abbreviation ordered o := (Quantity.value (quantity (intent o))).

(** The filled quantity is within the ordered one, and the status says where. *)
Definition order_wf (o : SimOrder) : Prop :=
  Quantity.wf (quantity (intent o)) ∧
  match status o with
  | Pending => filled o = 0
  | PartiallyFilledStatus => 0 < filled o < ordered o
  | FilledStatus => filled o = ordered o
  | CancelledStatus => 0 ≤ filled o < ordered o
  end.

Lemma order_wf_filled o : order_wf o → 0 ≤ filled o ≤ ordered o.
Proof. intros [Hq Hs]. unfold Quantity.wf in Hq. destruct (status o); lia. Qed.
Lemma order_wf_open o : order_wf o → is_open o = true → filled o < ordered o.
Proof. intros [Hq Hs]. unfold Quantity.wf in Hq. unfold is_open. destruct (status o); (done || lia). Qed.

(** What a fill of [v] makes of an order. *)
Definition fill_by (v : Z) (o : SimOrder) : SimOrder :=
  mk_order (order_id o) (intent o) (origin_ordinal o) (eligible_match_time o) (origin_segment_id o) (acceptance_sequence o)
    (filled o + v) (if ordered o - (filled o + v) =? 0 then FilledStatus else PartiallyFilledStatus).

Lemma fill_by_wf v o : order_wf o → 0 < v ≤ remaining o → order_wf (fill_by v o).
Proof.
  intros Hwf Hv. pose proof (order_wf_filled o Hwf). destruct Hwf as [Hq _]. split; [done|]. unfold remaining in *. simpl.
  destruct (Z.eqb_spec (ordered o - (filled o + v)) 0); simpl; lia.
Qed.

Section evaluation.
Context (m : FillModel) (policy : Price.PricePolicy) (e : Event.DomainEvent) (occ : Replay.EventOccurrence).

(** The order may trade at the adverse price of evidence [(p, u)]. *)
Definition candidate (p : Price.Price) (u : Quantity.QuantityUnit) (o : SimOrder) : bool :=
  is_open o && order_is_eligible (origin_ordinal o) (eligible_match_time o) (Replay.run_event_ordinal occ) (Event.match_time e) &&
  bool_decide (Event.instrument e = instrument (intent o)) && bool_decide (u = Quantity.unit (quantity (intent o))) &&
  limit_touched (intent o) p &&
  match apply_slippage p (side (intent o)) m policy with Ok p' => limit_touched (intent o) p' | Err _ => false end.

Definition demand (s : OrderSide) (p : Price.Price) (u : Quantity.QuantityUnit) (o : SimOrder) : Z :=
  if bool_decide (side (intent o) = s) && candidate p u o then remaining o else 0.

(** [q] of the evidence at price [p] is still on offer. *)
Definition offer_of (p : Price.Price) (u : Quantity.QuantityUnit) (q : Z) : Offer :=
  if q =? 0 then None else Some (p, Quantity.mk q u).

(** What the order gets of [q] on offer. *)
Definition grant (q want : Z) : Z :=
  match quantity_policy m with
  | Displayed => Z.min want q
  | Unlimited => if q =? 0 then 0 else want
  end.
Definition leaves (q v : Z) : Z := match quantity_policy m with Displayed => q - v | Unlimited => q end.

(** A fill of [v] against evidence at price [p]. *)
Definition fill_for (p : Price.Price) (o : SimOrder) (v : Z) (f : Fill.FillRecord) : Prop :=
  ∃ p', apply_slippage p (side (intent o)) m policy = Ok p' ∧ limit_touched (intent o) p' = true ∧ is_open o = true ∧
    order_is_eligible (origin_ordinal o) (eligible_match_time o) (Replay.run_event_ordinal occ) (Event.match_time e) = true ∧
    Event.instrument e = instrument (intent o) ∧
    f = Fill.from_market_event (order_id o) (Replay.run_event_ordinal occ) (Event.match_time e) (side (intent o)) p'
          (Quantity.mk v (Quantity.unit (quantity (intent o)))).

Definition feedback_for (o : SimOrder) (v : Z) : OrderFeedback :=
  let u := Quantity.unit (quantity (intent o)) in
  if remaining o - v =? 0 then Filled (order_id o) (Quantity.mk v u)
  else PartiallyFilled (order_id o) (Quantity.mk v u) (Quantity.mk (remaining o - v) u).

Lemma fill_order_spec p u q o : order_wf o → 0 ≤ q ≤ u64_max →
  match fill_order m policy e occ o (offer_of p u q) with
  | Skipped => q = 0 ∨ candidate p u o = false
  | Stopped err o' fs => err = InvalidSlippage ∧ o' = o ∧ fs = [] ∧ q ≠ 0 ∧ candidate p u o = false
  | Executed o' f fb offer' => q ≠ 0 ∧ candidate p u o = true ∧
      let v := grant q (remaining o) in
      0 < v ≤ remaining o ∧ o' = fill_by v o ∧ fill_for p o v f ∧ fb = feedback_for o v ∧ offer' = offer_of p u (leaves q v)
  end.
Proof.
  intros Hwf Hq. pose proof (order_wf_filled o Hwf) as Hfill. unfold fill_order, candidate.
  destruct (is_open o) eqn:Hopen; [|by right]. pose proof (order_wf_open o Hwf Hopen).
  destruct (order_is_eligible _ _ _ _) eqn:Helig; [|by right]. cbn [negb orb andb].
  destruct (decide (Event.instrument e = instrument (intent o))) as [Hi|Hi];
    [rewrite bool_decide_false, bool_decide_true by tauto|by rewrite bool_decide_true, bool_decide_false by tauto; right].
  cbn [andb]. unfold offer_of. destruct (Z.eqb_spec q 0) as [->|Hq0]; [by left|]. cbn [Quantity.unit].
  destruct (decide (u = Quantity.unit (quantity (intent o)))) as [Hu|Hu];
    [rewrite bool_decide_false, bool_decide_true by tauto|by rewrite bool_decide_true, bool_decide_false by tauto; right].
  cbn [andb]. destruct (limit_touched (intent o) p); [|by right]. cbn [negb andb].
  destruct (apply_slippage p (side (intent o)) m policy) as [p'|err] eqn:Hs.
  2: { split_and!; try done. unfold apply_slippage in Hs. destruct (_ <? _); [congruence|].
       apply bind_Err in Hs as [Hs|(? & _ & Hs)].
       - unfold map_err in Hs. destruct (match side (intent o) with Buy => _ | Sell => _ end); congruence.
       - destruct (negb _); congruence. }
  destruct (limit_touched (intent o) p') eqn:Hl; [|by right]. cbn [negb]. cbn [Quantity.value].
  fold (ordered o). set (v := match quantity_policy m with Unlimited => _ | Displayed => _ end).
  assert (Hv : v = grant q (remaining o)).
  { unfold v, grant. destruct (quantity_policy m); [by rewrite (proj2 (Z.eqb_neq q 0))|done]. }
  assert (0 < v ≤ remaining o) as Hpos.
  { rewrite Hv. unfold grant, remaining. destruct (quantity_policy m); [rewrite (proj2 (Z.eqb_neq q 0)) by done|]; lia. }
  destruct Hwf as [Hqw _]. unfold Quantity.wf in Hqw. unfold remaining in Hpos.
  rewrite (proj2 (Z.eqb_neq v 0)) by lia. rewrite Quantity.new_positive by lia.
  unfold to_u64. rewrite checked_in by lia. cbn [Quantity.unit].
  assert (Hoff : match quantity_policy m with
     | Unlimited => Some (p, Quantity.mk q u)
     | Displayed => (λ left_over, (p, left_over)) <$> res_ok (Quantity.new (Z.max 0 (q - v)) u)
     end = (if leaves q v =? 0 then None else Some (p, Quantity.mk (leaves q v) u))).
  { unfold leaves. destruct (quantity_policy m) eqn:Hp; [by rewrite (proj2 (Z.eqb_neq q 0))|].
    assert (v ≤ q) by (rewrite Hv; unfold grant; rewrite Hp; lia). rewrite Z.max_r by lia.
    destruct (Z.eqb_spec (q - v) 0) as [->|]; [done|]. by rewrite Quantity.new_positive by lia. }
  assert (Hff : fill_for p o v (Fill.from_market_event (order_id o) (Replay.run_event_ordinal occ) (Event.match_time e)
    (side (intent o)) p' (Quantity.mk v u))) by (exists p'; by rewrite <-Hu).
  cbv zeta. rewrite <-Hv. destruct (Z.eqb_spec (ordered o - (filled o + v)) 0) as [H0|H0].
  - split_and!; try done; [lia|unfold remaining; lia| |].
    + unfold fill_by. by rewrite (proj2 (Z.eqb_eq _ 0)).
    + unfold feedback_for. rewrite (proj2 (Z.eqb_eq _ 0)) by (unfold remaining; lia). by rewrite Hu.
  - unfold remaining at 1. cbn [filled intent]. fold (ordered o). rewrite Quantity.new_positive by lia.
    split_and!; try done; [lia|unfold remaining; lia| |].
    + unfold fill_by. by rewrite (proj2 (Z.eqb_neq _ 0)).
    + unfold feedback_for, remaining. rewrite (proj2 (Z.eqb_neq _ 0)) by lia. rewrite Hu. do 2 f_equal. lia.
Qed.

(** What the [i]-th of several demands gets of [q], served in order. *)
Definition share (q : Z) (demands : list Z) (i : nat) : Z :=
  match quantity_policy m with
  | Displayed => due demands q i
  | Unlimited => if q =? 0 then 0 else default 0 (demands !! i)
  end.

Lemma share_head q d ds : 0 ≤ q → 0 ≤ d → share q (d :: ds) 0 = grant q d.
Proof. intros Hq Hd. unfold share, grant. destruct (quantity_policy m); [done|]. by rewrite due_head. Qed.
Lemma share_tail q d ds i : 0 ≤ q → 0 ≤ d → Forall (λ x, 0 ≤ x) ds → share q (d :: ds) (S i) = share (leaves q (grant q d)) ds i.
Proof.
  intros Hq Hd Hds. unfold share, leaves, grant. destruct (quantity_policy m); [done|]. rewrite due_tail.
  destruct (Z.le_gt_cases d q); [by rewrite Z.min_l|]. by rewrite !due_spent by (done || lia).
Qed.
Lemma grant_none q : 0 ≤ q → grant q 0 = 0 ∧ leaves q 0 = q.
Proof. intros Hq. unfold grant, leaves. destruct (quantity_policy m); [destruct (q =? 0); lia|lia]. Qed.

Lemma demand_nonneg s p u o : order_wf o → 0 ≤ demand s p u o.
Proof. intros Hwf. pose proof (order_wf_filled o Hwf). unfold demand, remaining. destruct (_ && _); lia. Qed.
Lemma demands_nonneg s p u os : Forall order_wf os → Forall (λ x, 0 ≤ x) (demand s p u <$> os).
Proof. intros H. apply Forall_fmap. eapply Forall_impl; [|exact H]. apply demand_nonneg. Qed.

Definition settle (o : SimOrder) (v : Z) : SimOrder := if v =? 0 then o else fill_by v o.

Context (pb ps : Price.Price) (ub us : Quantity.QuantityUnit).
Definition own_demand (o : SimOrder) : Z :=
  match side (intent o) with Buy => demand Buy pb ub o | Sell => demand Sell ps us o end.
Definition own_grant (qb qs : Z) (o : SimOrder) : Z :=
  match side (intent o) with Buy => grant qb (own_demand o) | Sell => grant qs (own_demand o) end.
Definition own_share (qb qs : Z) (os : list SimOrder) (i : nat) (o : SimOrder) : Z :=
  match side (intent o) with Buy => share qb (demand Buy pb ub <$> os) i | Sell => share qs (demand Sell ps us <$> os) i end.
Definition own_price (o : SimOrder) : Price.Price := match side (intent o) with Buy => pb | Sell => ps end.

(** What the loop records for an order that gets [v]. *)
Definition recorded (o : SimOrder) (v : Z) (fs : list Fill.FillRecord) (fbs : list OrderFeedback) : Prop :=
  if v =? 0 then fs = [] ∧ fbs = [] else
  0 < v ≤ remaining o ∧ ∃ f, fs = [f] ∧ fbs = [feedback_for o v] ∧ fill_for (own_price o) o v f.

Lemma other_side_demand s p u o : side (intent o) ≠ s → demand s p u o = 0.
Proof. intros H. unfold demand. by rewrite bool_decide_false. Qed.

Lemma grant_zero d : 0 ≤ d → grant 0 d = 0.
Proof. unfold grant. destruct (quantity_policy m); simpl; lia. Qed.

Lemma own_turn s p u q o : side (intent o) = s → order_wf o → 0 ≤ q ≤ u64_max →
  let v := grant q (demand s p u o) in
  match fill_order m policy e occ o (offer_of p u q) with
  | Skipped => v = 0
  | Stopped err o' fs => err = InvalidSlippage ∧ o' = o ∧ fs = []
  | Executed o' f fb offer' => 0 < v ≤ remaining o ∧ o' = fill_by v o ∧ fill_for p o v f ∧ fb = feedback_for o v ∧
      offer' = offer_of p u (leaves q v)
  end.
Proof.
  intros Hs Hwf Hq. pose proof (demand_nonneg s p u o Hwf) as Hd. pose proof (fill_order_spec p u q o Hwf Hq) as H. cbv zeta.
  destruct (fill_order m policy e occ o (offer_of p u q)) as [|err o' fs|o' f fb off].
  - destruct H as [->|Hc]; [by apply grant_zero|]. unfold demand. rewrite Hc, andb_false_r. apply grant_none. lia.
  - by destruct H as (-> & -> & -> & _).
  - destruct H as (_ & Hc & H). assert (demand s p u o = remaining o) as ->; [|done].
    unfold demand. by rewrite bool_decide_true, Hc by done.
Qed.

(** One order of the loop. *)
Lemma fill_orders_cons qb qs o os : order_wf o → 0 ≤ qb ≤ u64_max → 0 ≤ qs ≤ u64_max →
  let r := fill_orders m policy e occ (offer_of pb ub qb) (offer_of ps us qs) (o :: os) in
  (r = (o :: os, [], Err InvalidSlippage)) ∨
  ∃ fs0 fbs0, recorded o (own_grant qb qs o) fs0 fbs0 ∧
    r = let '(os', fs, r') := fill_orders m policy e occ
              (offer_of pb ub (leaves qb (grant qb (demand Buy pb ub o)))) (offer_of ps us (leaves qs (grant qs (demand Sell ps us o)))) os in
        (settle o (own_grant qb qs o) :: os', fs0 ++ fs, (λ l, fbs0 ++ l) <$> r').
Proof.
  intros Hwf Hqb Hqs. cbv zeta. cbn [fill_orders]. unfold own_grant, own_demand, recorded, own_price.
  pose proof (own_turn Buy pb ub qb o) as HB. pose proof (own_turn Sell ps us qs o) as HS.
  destruct (side (intent o)) eqn:Hside.
  - specialize (HB eq_refl Hwf Hqb). cbv zeta in HB. clear HS.
    rewrite (other_side_demand Sell) by congruence. destruct (grant_none qs ltac:(lia)) as [-> ->].
    destruct (fill_order m policy e occ o (offer_of pb ub qb)) as [|err o' fs|o' f fb off].
    + right. exists [], []. rewrite HB, (proj2 (grant_none qb ltac:(lia))). split; [done|].
      by destruct (fill_orders _ _ _ _ _ _ _) as [[os' fs] []].
    + destruct HB as (-> & -> & ->). by left.
    + destruct HB as (Hv & -> & Hf & -> & ->). right. eexists [f], [_]. unfold settle. rewrite (proj2 (Z.eqb_neq _ 0)) by lia.
      split; [split; [done|]; by exists f|done].
  - specialize (HS eq_refl Hwf Hqs). cbv zeta in HS. clear HB.
    rewrite (other_side_demand Buy) by congruence. destruct (grant_none qb ltac:(lia)) as [-> ->].
    destruct (fill_order m policy e occ o (offer_of ps us qs)) as [|err o' fs|o' f fb off].
    + right. exists [], []. rewrite HS, (proj2 (grant_none qs ltac:(lia))). split; [done|].
      by destruct (fill_orders _ _ _ _ _ _ _) as [[os' fs] []].
    + destruct HS as (-> & -> & ->). by left.
    + destruct HS as (Hv & -> & Hf & -> & ->). right. eexists [f], [_]. unfold settle. rewrite (proj2 (Z.eqb_neq _ 0)) by lia.
      split; [split; [done|]; by exists f|done].
Qed.

(** What each order gets, one after another. *)
Fixpoint shares (qb qs : Z) (os : list SimOrder) : list Z :=
  match os with
  | [] => []
  | o :: os => own_grant qb qs o ::
      shares (leaves qb (grant qb (demand Buy pb ub o))) (leaves qs (grant qs (demand Sell ps us o))) os
  end.

Lemma leaves_grant_range q d : 0 ≤ q ≤ u64_max → 0 ≤ d → 0 ≤ leaves q (grant q d) ≤ u64_max.
Proof. intros Hq Hd. unfold leaves, grant. destruct (quantity_policy m); lia. Qed.

Lemma own_grant_head qb qs o os : 0 ≤ qb → 0 ≤ qs → order_wf o → own_grant qb qs o = own_share qb qs (o :: os) 0 o.
Proof.
  intros Hb Hs Hwf. unfold own_grant, own_share, own_demand.
  destruct (side (intent o)); rewrite fmap_cons, share_head by (done || by apply demand_nonneg); done.
Qed.

Lemma shares_lookup qb qs os i o : Forall order_wf os → 0 ≤ qb ≤ u64_max → 0 ≤ qs ≤ u64_max → os !! i = Some o →
  shares qb qs os !! i = Some (own_share qb qs os i o).
Proof.
  intros Hwf. revert qb qs i. induction Hwf as [|o0 os Ho Hos IH]; intros qb qs i Hb Hs Hi; [done|].
  pose proof (demand_nonneg Buy pb ub o0 Ho). pose proof (demand_nonneg Sell ps us o0 Ho).
  destruct i as [|i]; cbn [shares lookup list_lookup] in *.
  - injection Hi as ->. f_equal. by apply own_grant_head; [lia|lia|].
  - rewrite (IH _ _ i) by (done || by apply leaves_grant_range). f_equal. unfold own_share.
    destruct (side (intent o)); rewrite fmap_cons, share_tail by (done || lia || by apply demands_nonneg); done.
Qed.

(** The orders, fills and feedback of a list of orders that get [vs]. *)
Inductive settled : list SimOrder → list Z → list SimOrder → list Fill.FillRecord → list OrderFeedback → Prop :=
| settled_nil : settled [] [] [] [] []
| settled_cons o v os vs os' fs fbs fs0 fbs0 : recorded o v fs0 fbs0 → settled os vs os' fs fbs →
    settled (o :: os) (v :: vs) (settle o v :: os') (fs0 ++ fs) (fbs0 ++ fbs).

Lemma fill_orders_settles os : ∀ qb qs, Forall order_wf os → 0 ≤ qb ≤ u64_max → 0 ≤ qs ≤ u64_max →
  match fill_orders m policy e occ (offer_of pb ub qb) (offer_of ps us qs) os with
  | (os', fs, Ok fbs) => settled os (shares qb qs os) os' fs fbs
  | (os', fs, Err err) => err = InvalidSlippage ∧ ∃ pre post vs pre' fbs,
      os = pre ++ post ∧ os' = pre' ++ post ∧ settled pre vs pre' fs fbs
  end.
Proof.
  induction os as [|o os IH]; intros qb qs Hwf Hb Hs; [constructor|]. apply Forall_cons_iff in Hwf as [Ho Hwf].
  pose proof (demand_nonneg Buy pb ub o Ho). pose proof (demand_nonneg Sell ps us o Ho).
  destruct (fill_orders_cons qb qs o os Ho Hb Hs) as [->|(fs0 & fbs0 & Hrec & ->)].
  { split; [done|]. exists [], (o :: os), [], [], []. by repeat constructor. }
  specialize (IH (leaves qb (grant qb (demand Buy pb ub o))) (leaves qs (grant qs (demand Sell ps us o))) Hwf
    ltac:(by apply leaves_grant_range) ltac:(by apply leaves_grant_range)).
  destruct (fill_orders _ _ _ _ _ _ os) as [[os' fs] [fbs|err]]; cbn [fmap result_fmap].
  - by constructor.
  - destruct IH as (-> & pre & post & vs & pre' & fbs & -> & -> & Hset). split; [done|].
    exists (o :: pre), post, (own_grant qb qs o :: vs), (settle o (own_grant qb qs o) :: pre'), (fbs0 ++ fbs).
    split_and!; [done|done|by constructor].
Qed.

(** *** What settling keeps *)

Lemma settle_wf o v fs fbs : order_wf o → recorded o v fs fbs → order_wf (settle o v).
Proof.
  intros Hwf. unfold recorded, settle. destruct (Z.eqb_spec v 0); [done|]. intros [Hv _]. by apply fill_by_wf.
Qed.

Definition filled_for (id : list Z) (l : list Fill.FillRecord) : Z :=
  sum_of (λ f, if bool_decide (Fill.order_id f = id) then Quantity.value (Fill.quantity f) else 0) l.
Definition taken_by (id : list Z) (l : list SimOrder) : Z :=
  sum_of (λ o, if bool_decide (order_id o = id) then filled o else 0) l.

Lemma settle_same o v : order_id (settle o v) = order_id o ∧ intent (settle o v) = intent o ∧
  origin_ordinal (settle o v) = origin_ordinal o ∧ eligible_match_time (settle o v) = eligible_match_time o ∧
  origin_segment_id (settle o v) = origin_segment_id o ∧ acceptance_sequence (settle o v) = acceptance_sequence o ∧
  filled (settle o v) = filled o + v.
Proof. unfold settle. destruct (Z.eqb_spec v 0) as [->|]; split_and!; try done. lia. Qed.

Lemma settled_taken os vs os' fs fbs id : settled os vs os' fs fbs → taken_by id os' = taken_by id os + filled_for id fs.
Proof.
  unfold taken_by, filled_for. induction 1 as [|o v os vs os' fs fbs fs0 fbs0 Hrec _ IH]; [done|].
  rewrite !sum_of_cons, sum_of_app, IH. destruct (settle_same o v) as (-> & _ & _ & _ & _ & _ & ->).
  unfold recorded in Hrec. destruct (Z.eqb_spec v 0) as [->|Hv].
  - destruct Hrec as [-> _]. cbn [sum_of foldr]. case_bool_decide; lia.
  - destruct Hrec as (_ & f & -> & _ & p' & _ & _ & _ & _ & _ & ->). cbn [sum_of foldr Fill.order_id Fill.quantity Fill.from_market_event Quantity.value]. case_bool_decide; lia.
Qed.

Lemma settled_wf os vs os' fs fbs : settled os vs os' fs fbs → Forall order_wf os → Forall order_wf os'.
Proof.
  induction 1 as [|o v os vs os' fs fbs fs0 fbs0 Hrec _ IH]; [done|]. intros [Ho Hos]%Forall_cons_iff.
  constructor; [by eapply settle_wf|by apply IH].
Qed.

Lemma settled_lookup os vs os' fs fbs i o v : settled os vs os' fs fbs → os !! i = Some o → vs !! i = Some v →
  os' !! i = Some (settle o v).
Proof.
  intros H. revert i. induction H as [|o0 v0 os vs os' fs fbs fs0 fbs0 _ _ IH]; intros i Hi Hv; [done|].
  destruct i as [|i]; simpl in *; [by simplify_eq|by apply IH].
Qed.

Lemma settled_fills os vs os' fs fbs : settled os vs os' fs fbs →
  Forall (λ f, ∃ o v, o ∈ os ∧ 0 < v ≤ remaining o ∧ fill_for (own_price o) o v f) fs.
Proof.
  induction 1 as [|o v os vs os' fs fbs fs0 fbs0 Hrec _ IH]; [constructor|]. apply Forall_app. split.
  - unfold recorded in Hrec. destruct (v =? 0); [by destruct Hrec as [-> _]; constructor|].
    destruct Hrec as (Hv & f & -> & _ & Hf). repeat constructor. exists o, v. split_and!; [by left|lia|lia|done].
  - eapply Forall_impl; [|exact IH]. intros f (o' & v' & Ho' & Hv' & Hf'). exists o', v'. split_and!; [by right|lia|lia|done].
Qed.

End evaluation.
(** ** The simulator *)

Lemma best_level_wf b s p q : Book.snapshot_wf b → best_level b s = Some (p, q) → Quantity.wf q.
Proof.
  intros ((_ & _ & Hb) & (_ & _ & Ha) & _) H. unfold best_level in H.
  assert (Hl : Forall Book.level_wf (Book.levels match s with Buy => Book.asks b | Sell => Book.bids b end)) by by destruct s.
  clear Hb Ha. destruct (Book.levels _) as [|l ls]; [done|]. injection H as _ <-. apply Forall_cons_iff in Hl as [Hl _]. apply Hl.
Qed.

(** The evidence of a well-formed event has a positive u64 quantity. *)
Lemma evidence_wf e mode s p q : EventCodec.wf e → evidence e mode s = Some (p, q) → Quantity.wf q.
Proof.
  intros (_ & _ & _ & _ & _ & Hp). unfold evidence. destruct mode, (Event.payload e) as [x|x|x|x|x]; try done; simpl in Hp.
  - apply best_level_wf. apply Hp.
  - apply best_level_wf. apply Hp.
  - destruct Hp as (_ & Ht & _). unfold Observation.as_set. destruct (Event.quote_trade x); simpl; try done.
    intros [= _ <-]. apply Ht.
  - destruct Hp as (Ht & _). destruct (Event.batch_trades x) as [|t ts]; simpl; [done|]. intros [= _ <-].
    apply Forall_cons_iff in Ht as [Ht _]. apply Ht.
Qed.

Definition time_of (t : MatchTime.MatchTime) : Z := MatchTime.as_unix_microseconds t.

Lemma cmp_not_lt x y : cmp x y ≠ Lt → time_of y ≤ time_of x.
Proof. intros H. apply Z.nlt_ge. intros Hlt. apply H. by apply Z.compare_lt_iff. Qed.

(** A fill belongs to an order, within its limit, against an event later than
    the one it was submitted at and not before its latency had passed. *)
Definition justifies (o : SimOrder) (f : Fill.FillRecord) : Prop :=
  order_id o = Fill.order_id f ∧ side (intent o) = Fill.side f ∧ limit_touched (intent o) (Fill.price f) = true ∧
  Quantity.unit (quantity (intent o)) = Quantity.unit (Fill.quantity f) ∧
  time_of (eligible_match_time o) ≤ time_of (Fill.match_time f) ∧
  ∃ ordinal, Fill.triggering_ordinal f = Some ordinal ∧ origin_ordinal o < ordinal.

Lemma fill_for_justifies m policy e occ p o v f : fill_for m policy e occ p o v f → justifies o f.
Proof.
  intros (p' & _ & Hl & _ & He & _ & ->). unfold order_is_eligible in He. apply andb_true_iff in He as [Ho%Z.ltb_lt Ht%bool_decide_eq_true].
  split_and!; try done; [by apply cmp_not_lt|]. by exists (Replay.run_event_ordinal occ).
Qed.

(** Two versions of an order that differ in what was filled. *)
Definition same_order (o o' : SimOrder) : Prop :=
  order_id o' = order_id o ∧ intent o' = intent o ∧ origin_ordinal o' = origin_ordinal o ∧
  eligible_match_time o' = eligible_match_time o ∧ origin_segment_id o' = origin_segment_id o ∧
  acceptance_sequence o' = acceptance_sequence o.

Lemma justifies_same o o' f : same_order o o' → justifies o f → justifies o' f.
Proof. unfold justifies. intros (-> & -> & -> & -> & _). done. Qed.

Record sim_wf (s : Simulator) : Prop := {
  sim_orders : Forall order_wf (orders s);
  sim_universe : Forall (λ o, instrument (intent o) ∈ universe s ∧ Quantity.unit (quantity (intent o)) = quantity_unit s) (orders s);
  sim_sequence : StronglySorted (λ o o', acceptance_sequence o < acceptance_sequence o') (orders s);
  sim_next : Forall (λ o, acceptance_sequence o < next_acceptance_sequence s) (orders s);
  sim_accounts : ∀ id, taken_by id (orders s) = filled_for id (fills s);
  sim_fills : Forall (λ f, ∃ o, o ∈ orders s ∧ justifies o f) (fills s) }.

(** How an order may change in a step: it only gains fills while it is open,
    or is cancelled. *)
Definition order_step (o o' : SimOrder) : Prop :=
  same_order o o' ∧ (o' = o ∨ is_open o = true ∧ filled o ≤ filled o').

(** The steps of a simulator: existing orders move by [order_step], and a
    submission adds one at the end. *)
Definition sim_step (s s' : Simulator) : Prop :=
  universe s' = universe s ∧ quantity_unit s' = quantity_unit s ∧ model s' = model s ∧ price_policy s' = price_policy s ∧
  next_acceptance_sequence s ≤ next_acceptance_sequence s' ∧
  Forall2 order_step (orders s) (take (length (orders s)) (orders s')) ∧
  ∃ more, fills s' = fills s ++ more.

Lemma order_step_refl o : order_step o o.
Proof. split; [by repeat split|by left]. Qed.

(** Orders in place: the invariant follows from what happened to each. *)
Lemma orders_in_place s os fs : sim_wf s → Forall2 order_step (orders s) os → Forall order_wf os →
  (∀ id, taken_by id os = taken_by id (orders s) + filled_for id fs) →
  Forall (λ f, ∃ o, o ∈ orders s ∧ justifies o f) fs →
  let s' := mk_simulator (universe s) (quantity_unit s) (model s) (price_policy s) os (fills s ++ fs) (next_acceptance_sequence s) in
  sim_wf s' ∧ sim_step s s'.
Proof.
  intros [Ho Hu Hs Hn Ha Hf] Hstep Hwf Htaken Hjust. cbv zeta.
  assert (Hin : ∀ o, o ∈ orders s → ∃ o', o' ∈ os ∧ same_order o o').
  { intros o [i Hi]%list_elem_of_lookup_1. destruct (Forall2_lookup_l _ _ _ _ _ Hstep Hi) as (o' & Hi' & [Hsame _]).
    exists o'. split; [by eapply list_elem_of_lookup_2|done]. }
  split.
  - split; cbn [orders fills universe quantity_unit next_acceptance_sequence]; [done| | | | |].
    + clear -Hu Hstep. induction Hstep as [|o o' l l' Hoo _ IH]; [constructor|]. apply Forall_cons_iff in Hu as [H Hu].
      constructor; [|by apply IH]. by destruct Hoo as [(_ & -> & _) _].
    + clear -Hs Hstep. induction Hstep as [|o o' l l' Hoo Hll IH]; [constructor|].
      apply StronglySorted_inv in Hs as [Hs H]. constructor; [by apply IH|]. clear IH Hs.
      destruct Hoo as [(_ & _ & _ & _ & _ & ->) _]. induction Hll as [|a a' l l' Haa _ IH]; [constructor|].
      apply Forall_cons_iff in H as [Ha H]. constructor; [|by apply IH]. by destruct Haa as [(_ & _ & _ & _ & _ & ->) _].
    + clear -Hn Hstep. induction Hstep as [|o o' l l' Hoo _ IH]; [constructor|]. apply Forall_cons_iff in Hn as [H Hn].
      constructor; [|by apply IH]. by destruct Hoo as [(_ & _ & _ & _ & _ & ->) _].
    + intros id. unfold filled_for in *. by rewrite Htaken, Ha, sum_of_app.
    + apply Forall_app. split.
      * eapply Forall_impl; [|exact Hf]. intros f (o & Hoin & Hj). destruct (Hin o Hoin) as (o' & Ho' & Hsame).
        exists o'. split; [done|by eapply justifies_same].
      * eapply Forall_impl; [|exact Hjust]. intros f (o & Hoin & Hj). destruct (Hin o Hoin) as (o' & Ho' & Hsame).
        exists o'. split; [done|by eapply justifies_same].
  - split_and!; try done; [|by exists fs]. cbn [orders]. pose proof (Forall2_length Hstep) as Hlen. by rewrite take_ge by lia.
Qed.

Lemma settled_step m policy e occ pb ps os vs os' fs fbs : settled m policy e occ pb ps os vs os' fs fbs → Forall2 order_step os os'.
Proof.
  induction 1 as [|o v os vs os' fs fbs fs0 fbs0 Hrec _ IH]; [constructor|]. constructor; [|done].
  destruct (settle_same o v) as (H1 & H2 & H3 & H4 & H5 & H6 & H7). split; [by split_and!|].
  unfold recorded in Hrec. destruct (Z.eqb_spec v 0) as [->|Hv]; [by left|]. right.
  destruct Hrec as (Hpos & f & _ & _ & p' & _ & _ & Hopen & _). split; [done|lia].
Qed.

Lemma steps_refl os : Forall2 order_step os os.
Proof. induction os; constructor; [apply order_step_refl|done]. Qed.

Lemma new_sim_wf us u m p : sim_wf (new_with_price_policy us u m p).
Proof. split; constructor. Qed.

Lemma add_latency_Ok t a b t' : add_latency t a b = Ok t' → time_of t' = time_of t + (a + b) * 1000 ∧ 0 ≤ a + b.
Proof.
  unfold add_latency. intros H. apply bind_Ok in H as (total & Ht & H). apply bind_Ok in H as (micros & Hm & H).
  apply bind_Ok in H as (v & Hv & [= <-]). unfold ok_or in *.
  destruct (to_u64 (a + b)) eqn:E1 in Ht; [|done]. apply checked_Some in E1 as [-> ?]. injection Ht as <-.
  destruct (to_u64 _) eqn:E2 in Hm; simpl in Hm; [|done]. apply checked_Some in E2 as [-> ?].
  destruct (to_i64 _) eqn:E3 in Hm; [|done]. apply checked_Some in E3 as [-> ?]. injection Hm as <-.
  destruct (to_i64 _) eqn:E4 in Hv; [|done]. apply checked_Some in E4 as [-> ?]. injection Hv as <-. unfold time_of. simpl. lia.
Qed.

(** What submission does. *)
Lemma submit_Ok {B : Event.Blake3} s strategy_id occ trading n i fb s' : submit s strategy_id occ trading n i = Ok (fb, s') →
  s' = s ∧ (∃ r, fb = Rejected r) ∨
  ∃ id t, fb = Accepted id ∧ instrument i ∈ universe s ∧ Quantity.unit (quantity i) = quantity_unit s ∧
    entry_allowed (new_order_entry trading) (order_type i) = true ∧
    time_of t = time_of (Ordering.match_time (Replay.ordering_key occ)) + (market_data_latency_ms (model s) + order_latency_ms (model s)) * 1000 ∧
    s' = mk_simulator (universe s) (quantity_unit s) (model s) (price_policy s)
      (orders s ++ [mk_order id i (Replay.run_event_ordinal occ) t (segment_id (session trading)) (next_acceptance_sequence s) 0 Pending])
      (fills s) (next_acceptance_sequence s + 1).
Proof.
  unfold submit. destruct (bool_decide (instrument i ∈ _)) eqn:Hi; cbn [negb]; [|intros [= <- <-]; left; by eauto].
  destruct (bool_decide (_ ≠ _)) eqn:Hu; [intros [= <- <-]; left; by eauto|].
  destruct (match order_type i with MarketOrder => _ | Limit _ => _ end); [intros [= <- <-]; left; by eauto|].
  destruct (entry_allowed _ _); cbn [negb]; [|intros [= <- <-]; left; by eauto].
  intros H. apply bind_Ok in H as (c & _ & H). apply bind_Ok in H as (t & Ht & H). apply bind_Ok in H as (next & Hn & [= <- <-]).
  unfold ok_or in Hn. destruct (to_u64 _) eqn:E in Hn; [|done]. apply checked_Some in E as [-> _]. injection Hn as <-.
  apply add_latency_Ok in Ht as [Ht _]. right. eexists _, t. split_and!; try done.
  - by apply bool_decide_eq_true in Hi.
  - apply bool_decide_eq_false in Hu. by apply dec_stable in Hu.
Qed.

Lemma submit_wf {B : Event.Blake3} s strategy_id occ trading n i fb s' : sim_wf s → Quantity.wf (quantity i) →
  submit s strategy_id occ trading n i = Ok (fb, s') → sim_wf s' ∧ sim_step s s'.
Proof.
  intros Hwf Hq H. apply submit_Ok in H as [[-> _]|(id & t & -> & Hi & Hu & _ & _ & ->)].
  { split; [done|]. split_and!; try done; [by rewrite take_ge; [apply steps_refl|]|by exists []; rewrite app_nil_r]. }
  destruct Hwf as [Ho Hun Hs Hn Ha Hf]. split.
  - split; cbn [orders fills universe quantity_unit next_acceptance_sequence].
    + apply Forall_app. split; [done|]. by apply Forall_singleton.
    + apply Forall_app. split; [done|]. by apply Forall_singleton.
    + apply StronglySorted_app_2; [|done|by repeat constructor]. intros a b Ha' ->%list_elem_of_singleton.
      rewrite Forall_forall in Hn. apply Hn. by apply list_elem_of_In.
    + apply Forall_app. split; [|apply Forall_singleton; simpl; lia]. eapply Forall_impl; [|exact Hn]. intros o Ho'. cbv beta in *. lia.
    + intros id'. unfold taken_by. rewrite sum_of_snoc. cbn [order_id filled]. fold (taken_by id' (orders s)). rewrite Ha. case_bool_decide; lia.
    + eapply Forall_impl; [|exact Hf]. intros f (o & Hin & Hj). exists o. split; [|done]. apply elem_of_app. by left.
  - split_and!; try done; cbn [next_acceptance_sequence orders fills]; [lia| |by exists []; rewrite app_nil_r].
    rewrite take_app_length. apply steps_refl.
Qed.

Lemma cancel_wf select reason s : sim_wf s → let '(_, s') := cancel_orders select reason s in sim_wf s' ∧ sim_step s s'.
Proof.
  intros Hwf. unfold cancel_orders. set (os := _ <$> orders s).
  destruct (orders_in_place s os [] Hwf) as [H1 H2]; [| | | |by rewrite app_nil_r in H1, H2].
  - unfold os. clear. induction (orders s) as [|o l IH]; [constructor|]. rewrite fmap_cons. constructor; [|done].
    destruct (select o && is_open o) eqn:E; [|apply order_step_refl]. apply andb_true_iff in E as [_ E].
    split; [by split_and!|]. by right.
  - unfold os. apply Forall_fmap. eapply Forall_impl; [|exact (sim_orders s Hwf)]. intros o Ho. simpl.
    destruct (select o && is_open o) eqn:E; [|done]. apply andb_true_iff in E as [_ E].
    pose proof (order_wf_open o Ho E). pose proof (order_wf_filled o Ho). split; [apply Ho|]. simpl. lia.
  - intros id. unfold filled_for, os, taken_by. rewrite sum_of_fmap. unfold sum_of. cbn [foldr]. rewrite Z.add_0_r. clear.
    induction (orders s) as [|o l IH]; [done|]. cbn [foldr]. rewrite IH. f_equal. simpl. by destruct (select o && is_open o).
  - constructor.
Qed.

(** *** Evaluation *)

(** What an event offers to a side, once the price policy accepted it. *)
Definition offer_to (s : Simulator) (e : Event.DomainEvent) (sd : OrderSide) : Offer :=
  '(p, q) ← evidence e (evidence_mode (model s)) sd; if Price.accepts (price_policy s) p then Some (p, q) else None.
Definition offered_price (f : Offer) : Price.Price := match f with Some (p, _) => p | None => Price.new Decimal.ZERO end.
Definition offered_unit (f : Offer) : Quantity.QuantityUnit := match f with Some (_, q) => Quantity.unit q | None => Quantity.SourceUnit end.
Definition offered_quantity (f : Offer) : Z := match f with Some (_, q) => Quantity.value q | None => 0 end.

Lemma offer_to_terms s e sd : EventCodec.wf e → let f := offer_to s e sd in
  f = offer_of (offered_price f) (offered_unit f) (offered_quantity f) ∧ 0 ≤ offered_quantity f ≤ u64_max.
Proof.
  intros He. cbv zeta. unfold offer_to. destruct (evidence e _ sd) as [[p q]|] eqn:E; simpl; [|done].
  destruct (Price.accepts _ _); simpl; [|done]. apply evidence_wf in E; [|done]. unfold Quantity.wf in E. unfold offer_of.
  rewrite (proj2 (Z.eqb_neq _ 0)) by lia. split; [by destruct q|lia].
Qed.

(** The event is evaluated against the orders: no volatility interruption is
    collecting, matching is on and entry is neither blocked nor unknown. *)
Definition evaluating (trading : TradingContext) : bool :=
  negb match market_signal trading with
       | Some (Signal.AuctionCollecting o) => bool_decide (Signal.purpose o = Signal.Known Signal.VolatilityInterruption)
       | _ => false
       end &&
  match matching trading with Enabled _ => true | _ => false end &&
  match new_order_entry trading with Allowed | Restricted _ => true | _ => false end.

(** What the [i]-th order is entitled to. *)
Definition entitled (s : Simulator) (e : Event.DomainEvent) (occ : Replay.EventOccurrence) (i : nat) (o : SimOrder) : Z :=
  let b := offer_to s e Buy in
  let f := offer_to s e Sell in
  own_share (model s) (price_policy s) e occ (offered_price b) (offered_price f) (offered_unit b) (offered_unit f)
    (offered_quantity b) (offered_quantity f) (orders s) i o.

Lemma StronglySorted_weaken {A} (R1 R2 : A → A → Prop) l : (∀ x y, R1 x y → R2 x y) → StronglySorted R1 l → StronglySorted R2 l.
Proof. intros H. induction 1 as [|x l _ IH Hx]; constructor; [done|]. eapply Forall_impl; [|exact Hx]. intros y. apply H. Qed.

Lemma sorted_orders s : sim_wf s → sort_on (λ o, (acceptance_sequence o, order_id o)) (orders s) = orders s.
Proof.
  intros Hwf. apply sort_on_sorted_id. eapply StronglySorted_weaken; [|exact (sim_sequence s Hwf)].
  intros x y Hxy. cbv beta in Hxy. unfold key_le, ord_le. rewrite cmp_pair. unfold then_with.
  change (cmp (acceptance_sequence x) (acceptance_sequence y)) with (Z.compare (acceptance_sequence x) (acceptance_sequence y)).
  by rewrite (proj2 (Z.compare_lt_iff _ _) Hxy).
Qed.

Lemma evaluate_path s e occ trading : sim_wf s → evaluate s e occ trading =
  if evaluating trading then
    let '(os, fs, r) := fill_orders (model s) (price_policy s) e occ (offer_to s e Buy) (offer_to s e Sell) (orders s) in
    (r, mk_simulator (universe s) (quantity_unit s) (model s) (price_policy s) os (fills s ++ fs) (next_acceptance_sequence s))
  else if match market_signal trading with
       | Some (Signal.AuctionCollecting o) => bool_decide (Signal.purpose o = Signal.Known Signal.VolatilityInterruption)
       | _ => false
       end
  then let '(fb, s') := cancel_pending_market_orders (Event.instrument e) s in (Ok fb, s')
  else (Ok [], s).
Proof.
  intros Hwf. unfold evaluate, evaluating. rewrite sorted_orders by done.
  destruct (match market_signal trading with Some _ => _ | None => _ end); [done|]. cbn [negb andb].
  destruct (matching trading); [|done..]. by destruct (new_order_entry trading).
Qed.

Lemma evaluate_wf s e occ trading : sim_wf s → EventCodec.wf e →
  let '(_, s') := evaluate s e occ trading in sim_wf s' ∧ sim_step s s'.
Proof.
  intros Hwf He. rewrite evaluate_path by done. destruct (evaluating trading).
  - destruct (offer_to_terms s e Buy He) as [Hb Hqb], (offer_to_terms s e Sell He) as [Hs Hqs]. rewrite Hb, Hs.
    pose proof (fill_orders_settles (model s) (price_policy s) e occ (offered_price (offer_to s e Buy)) (offered_price (offer_to s e Sell))
      (offered_unit (offer_to s e Buy)) (offered_unit (offer_to s e Sell)) (orders s) _ _ (sim_orders s Hwf) Hqb Hqs) as H.
    destruct (fill_orders _ _ _ _ _ _ _) as [[os fs] [fbs|err]].
    + apply orders_in_place; [done|by eapply settled_step|by eapply settled_wf; [|apply sim_orders]| |].
      * intros id. by eapply settled_taken.
      * eapply Forall_impl; [|by eapply settled_fills]. intros f (o & v & Hin & _ & Hf). exists o. split; [done|by eapply fill_for_justifies].
    + destruct H as (_ & pre & post & vs & pre' & fbs & Hos & -> & Hset).
      assert (Hpre : Forall order_wf pre) by (pose proof (sim_orders s Hwf) as Ho; rewrite Hos in Ho; by apply Forall_app in Ho as [? _]).
      assert (Hpost : Forall order_wf post) by (pose proof (sim_orders s Hwf) as Ho; rewrite Hos in Ho; by apply Forall_app in Ho as [_ ?]).
      apply orders_in_place; [done| | | |].
      * rewrite Hos. apply Forall2_app; [by eapply settled_step|apply steps_refl].
      * apply Forall_app. split; [by eapply settled_wf|done].
      * intros id. rewrite Hos. unfold taken_by. rewrite !sum_of_app. pose proof (settled_taken _ _ _ _ _ _ _ _ _ _ _ id Hset) as E.
        unfold taken_by in E. rewrite E. lia.
      * eapply Forall_impl; [|by eapply settled_fills]. intros f (o & v & Hin & _ & Hf). exists o.
        split; [rewrite Hos; apply elem_of_app; by left|by eapply fill_for_justifies].
  - destruct (match market_signal trading with Some _ => _ | None => _ end).
    + pose proof (cancel_wf (λ o, bool_decide (instrument (intent o) = Event.instrument e) && bool_decide (order_type (intent o) = MarketOrder))
        VolatilityInterruption s Hwf) as H. unfold cancel_pending_market_orders. by destruct (cancel_orders _ _ _).
    + split; [done|]. split_and!; try done; [by rewrite take_ge; [apply steps_refl|]|by exists []; rewrite app_nil_r].
Qed.

(** The quantity filled on a side. *)
Definition side_filled (sd : OrderSide) (fs : list Fill.FillRecord) : Z :=
  sum_of (λ f, if bool_decide (Fill.side f = sd) then Quantity.value (Fill.quantity f) else 0) fs.

Lemma recorded_side m policy e occ pb ps o v fs fbs sd : order_wf o → recorded m policy e occ pb ps o v fs fbs →
  side_filled sd fs = if bool_decide (side (intent o) = sd) then v else 0.
Proof.
  intros Hwf. unfold recorded. destruct (Z.eqb_spec v 0) as [->|Hv].
  - intros [-> _]. unfold side_filled, sum_of. simpl. by case_bool_decide.
  - intros (_ & f & -> & _ & p' & _ & _ & _ & _ & _ & ->). unfold side_filled, sum_of. simpl. case_bool_decide; lia.
Qed.

(** Displayed evidence is never filled twice. *)
Lemma displayed_bound m policy e occ pb ps ub us os : quantity_policy m = Displayed → ∀ qb qs os' fs fbs, Forall order_wf os →
  0 ≤ qb ≤ u64_max → 0 ≤ qs ≤ u64_max →
  settled m policy e occ pb ps os (shares m policy e occ pb ps ub us qb qs os) os' fs fbs →
  side_filled Buy fs ≤ qb ∧ side_filled Sell fs ≤ qs.
Proof.
  intros Hm. induction os as [|o os IH]; intros qb qs os' fs fbs Hwf Hb Hs H; inversion H as [|? ? ? ? ? fs1 ? fs0 ? Hrec Hset]; subst.
  { unfold side_filled, sum_of. simpl. lia. }
  apply Forall_cons_iff in Hwf as [Ho Hwf].
  pose proof (demand_nonneg m policy e occ Buy pb ub o Ho) as Hdb. pose proof (demand_nonneg m policy e occ Sell ps us o Ho) as Hds.
  apply IH in Hset as [H1 H2]; [|done|by apply leaves_grant_range..].
  unfold side_filled in *. rewrite !sum_of_app. fold (side_filled Buy fs0) (side_filled Sell fs0).
  rewrite !(recorded_side _ _ _ _ _ _ _ _ _ _ _ Ho Hrec). unfold leaves, own_grant, own_demand, grant in *. rewrite Hm in *.
  destruct (side (intent o)) eqn:Hside.
  - rewrite bool_decide_true, bool_decide_false by congruence. lia.
  - rewrite bool_decide_false, bool_decide_true by congruence. lia.
Qed.

(** C5: evaluating an event fills each resting order with exactly what it is
    entitled to: in acceptance order the eligible orders of a side, those
    whose limit admits the evidence at its adverse price, take what the
    better placed ones leave of the displayed quantity (or all they want,
    when displayed quantity is not the policy). Nothing else changes, and
    with the displayed policy no side is filled beyond the evidence. *)
Theorem evaluate_shares s e occ trading : sim_wf s → EventCodec.wf e → evaluating trading = true →
  let '(r, s') := evaluate s e occ trading in
  match r with
  | Ok fbs =>
      length (orders s') = length (orders s) ∧
      (∀ i o, orders s !! i = Some o → orders s' !! i = Some (settle o (entitled s e occ i o))) ∧
      ∃ fs, fills s' = fills s ++ fs ∧ length fbs = length fs ∧
        (quantity_policy (model s) = Displayed → ∀ sd, side_filled sd fs ≤ offered_quantity (offer_to s e sd))
  | Err err => err = InvalidSlippage
  end.
Proof.
  intros Hwf He Hev. rewrite evaluate_path, Hev by done.
  destruct (offer_to_terms s e Buy He) as [Hb Hqb], (offer_to_terms s e Sell He) as [Hs Hqs].
  pose proof (fill_orders_settles (model s) (price_policy s) e occ (offered_price (offer_to s e Buy)) (offered_price (offer_to s e Sell))
    (offered_unit (offer_to s e Buy)) (offered_unit (offer_to s e Sell)) (orders s) _ _ (sim_orders s Hwf) Hqb Hqs) as H.
  rewrite <-Hb, <-Hs in H.
  destruct (fill_orders _ _ _ _ _ _ _) as [[os fs] [fbs|err]]; [|by destruct H]. cbn [orders fills].
  pose proof (settled_step _ _ _ _ _ _ _ _ _ _ _ H) as Hstep. split; [symmetry; by apply (Forall2_length Hstep)|]. split.
  - intros i o Hi. eapply settled_lookup; [exact H|done|]. by apply shares_lookup; [apply sim_orders| | |].
  - exists fs. split; [done|]. split.
    + clear -H. induction H as [|o v os vs os' fs fbs fs0 fbs0 Hrec _ IH]; [done|]. rewrite !length_app, IH. f_equal.
      unfold recorded in Hrec. destruct (v =? 0); [by destruct Hrec as [-> ->]|]. by destruct Hrec as (_ & f & -> & -> & _).
    + intros Hm sd. destruct (displayed_bound _ _ _ _ _ _ _ _ _ Hm _ _ _ _ _ (sim_orders s Hwf) Hqb Hqs H). by destruct sd.
Qed.

(** The states a run can put a simulator in; an evaluation that fails leaves
    the orders and fills it had reached. *)
Inductive sim_run {B : Event.Blake3} : Simulator → Simulator → Prop :=
| run_nil s : sim_run s s
| run_submit s s1 s2 strategy_id occ trading n i fb : Quantity.wf (quantity i) →
    submit s strategy_id occ trading n i = Ok (fb, s1) → sim_run s1 s2 → sim_run s s2
| run_evaluate s s1 s2 e occ trading r : EventCodec.wf e → evaluate s e occ trading = (r, s1) → sim_run s1 s2 → sim_run s s2
| run_cancel s s1 s2 select reason fbs : cancel_orders select reason s = (fbs, s1) → sim_run s1 s2 → sim_run s s2.

Lemma sim_run_wf {B : Event.Blake3} s s' : sim_run s s' → sim_wf s → sim_wf s'.
Proof.
  induction 1 as [|s s1 s2 ? ? ? ? ? ? Hq H _ IH|s s1 s2 e occ t r He H _ IH|s s1 s2 sel reason fbs H _ IH]; intros Hwf; [done|..].
  - apply IH. by destruct (submit_wf _ _ _ _ _ _ _ _ Hwf Hq H).
  - apply IH. pose proof (evaluate_wf s e occ t Hwf He) as Hw. rewrite H in Hw. apply Hw.
  - apply IH. pose proof (cancel_wf sel reason s Hwf) as Hw. rewrite H in Hw. apply Hw.
Qed.

(** C7: in every state of a run no order is filled beyond its quantity, its
    status says exactly how far it is filled, the fills recorded for an order
    add up to what it says was filled, and every fill belongs to an order on
    its side, within its limit, against an event later than its submission
    and not before its latency had passed. *)
Theorem run_invariant {B : Event.Blake3} us u m p s : sim_run (new_with_price_policy us u m p) s →
  Forall order_wf (orders s) ∧
  (∀ id, taken_by id (orders s) = filled_for id (fills s)) ∧
  Forall (λ f, ∃ o, o ∈ orders s ∧ justifies o f) (fills s) ∧
  StronglySorted (λ o o', acceptance_sequence o < acceptance_sequence o') (orders s).
Proof. intros H. destruct (sim_run_wf _ _ H (new_sim_wf us u m p)). by split_and!. Qed.

Lemma sim_step_orders s s' i o : sim_step s s' → orders s !! i = Some o → ∃ o', orders s' !! i = Some o' ∧ order_step o o'.
Proof.
  intros (_ & _ & _ & _ & _ & H & _) Hi. destruct (Forall2_lookup_l _ _ _ _ _ H Hi) as (o' & Ho' & Hs).
  apply lookup_take_Some in Ho' as [Ho' _]. by exists o'.
Qed.

Lemma order_step_settles o o' : order_step o o' → same_order o o' ∧ filled o ≤ filled o' ∧ (is_open o = false → o' = o).
Proof. intros [Hs [->|[Ho Hf]]]; [done|]. split_and!; [done|done|]. by rewrite Ho. Qed.

(** An order keeps its place, identity and terms for the rest of the run,
    what is filled of it never falls, and once filled or cancelled it never
    changes again. *)
Theorem terminal_orders_stay {B : Event.Blake3} s s' i o : sim_wf s → sim_run s s' → orders s !! i = Some o →
  ∃ o', orders s' !! i = Some o' ∧ same_order o o' ∧ filled o ≤ filled o' ∧ (is_open o = false → o' = o).
Proof.
  intros Hwf H. revert i o Hwf. induction H as [|s s1 s2 sid oc tr nn ii ff Hq H _ IH|s s1 s2 e occ t r He H _ IH|s s1 s2 sel reason fbs H _ IH];
    intros i o Hwf Hi.
  { exists o. by split_and!. }
  1: destruct (submit_wf _ _ _ _ _ _ _ _ Hwf Hq H) as [Hwf1 Hstep].
  2: pose proof (evaluate_wf s e occ t Hwf He) as Hw; rewrite H in Hw; destruct Hw as [Hwf1 Hstep].
  3: pose proof (cancel_wf sel reason s Hwf) as Hw; rewrite H in Hw; destruct Hw as [Hwf1 Hstep].
  all: destruct (sim_step_orders _ _ _ _ Hstep Hi) as (o1 & H1 & (Hs1 & Hf1 & Ho1)%order_step_settles).
  all: destruct (IH i o1 Hwf1 H1) as (o2 & H2 & Hs2 & Hf2 & Ho2); exists o2; split; [done|].
  all: destruct Hs1 as (? & ? & ? & ? & ? & ?), Hs2 as (? & ? & ? & ? & ? & ?).
  all: split_and!; [split_and!; congruence|lia|]; intros Ho; pose proof (Ho1 Ho) as ->; by apply Ho2.
Qed.

(** The cancellation at the end of a run leaves no order open and no fill
    changed, and its feedback cancels exactly the orders that were open, in
    acceptance order. *)
Theorem end_of_run_closes s : let '(fbs, s') := cancel_end_of_run s in
  Forall (λ o, is_open o = false) (orders s') ∧ fills s' = fills s ∧
  fbs = (λ o, Cancelled (order_id o) EndOfRun) <$> filter (λ o, is_open o) (orders s) ∧
  ∀ i o, orders s !! i = Some o → is_open o = false → orders s' !! i = Some o.
Proof.
  unfold cancel_end_of_run, cancel_orders. cbn [orders fills andb]. split_and!; [|done|done|].
  - apply Forall_fmap, Forall_forall. intros o _. simpl. by destruct (is_open o) eqn:E.
  - intros i o Hi Ho. rewrite list_lookup_fmap, Hi. simpl. by rewrite Ho.
Qed.

(** *** Order identities *)

Lemma submit_id {B : Event.Blake3} s strategy_id occ trading n i id s' :
  submit s strategy_id occ trading n i = Ok (Accepted id, s') →
  ∃ c, to_canonical_bytes i = Ok c ∧ id = Event.blake3 (order_identity strategy_id occ n c).
Proof.
  unfold submit. destruct (negb _); [done|]. destruct (bool_decide (_ ≠ _)); [done|].
  destruct (match order_type i with MarketOrder => _ | Limit _ => _ end); [done|]. destruct (negb _); [done|].
  intros Hsub. apply bind_Ok in Hsub as (c & Hc & Hsub). apply bind_Ok in Hsub as (t & _ & Hsub).
  apply bind_Ok in Hsub as (next & _ & [= <- _]). exists c. split; [|done]. destruct (to_canonical_bytes i); by simplify_eq/=.
Qed.

Lemma order_identity_inj strategy_id occ1 occ2 n1 n2 c1 c2 :
  length (Replay.event_fingerprint occ1) = length (Replay.event_fingerprint occ2) →
  is_u64 (Replay.run_event_ordinal occ1) → is_u64 (Replay.run_event_ordinal occ2) → is_u32 n1 → is_u32 n2 →
  order_identity strategy_id occ1 n1 c1 = order_identity strategy_id occ2 n2 c2 →
  Replay.event_fingerprint occ1 = Replay.event_fingerprint occ2 ∧
  Replay.run_event_ordinal occ1 = Replay.run_event_ordinal occ2 ∧ n1 = n2 ∧ c1 = c2.
Proof.
  intros Hl Ho1 Ho2 Hn1 Hn2 H. unfold order_identity in H. apply (inj (app _)) in H. apply (inj (app _)) in H.
  apply app_inj_1 in H as [Hf H]; [|done]. apply app_inj_1 in H as [Ho H]; [|by rewrite !length_be_bytes].
  apply app_inj_1 in H as [Hn H]; [|by rewrite !length_be_bytes].
  apply be_bytes_inj in Ho; [|unfold_ints; simpl; lia..]. apply be_bytes_inj in Hn; [|unfold_ints; simpl; lia..]. done.
Qed.

(** Two orders a strategy submits get the same identity only when they are
    the same output of the same event with the same intent, or the hash has a
    collision. *)
Theorem order_ids_distinct {B : Event.Blake3} s1 s2 strategy_id occ1 occ2 trading1 trading2 n1 n2 i1 i2 id s1' s2' :
  length (Replay.event_fingerprint occ1) = length (Replay.event_fingerprint occ2) →
  is_u64 (Replay.run_event_ordinal occ1) → is_u64 (Replay.run_event_ordinal occ2) → is_u32 n1 → is_u32 n2 →
  submit s1 strategy_id occ1 trading1 n1 i1 = Ok (Accepted id, s1') →
  submit s2 strategy_id occ2 trading2 n2 i2 = Ok (Accepted id, s2') →
  (Replay.run_event_ordinal occ1 = Replay.run_event_ordinal occ2 ∧ n1 = n2 ∧ to_canonical_bytes i1 = to_canonical_bytes i2) ∨
  ∃ x y : list Z, x ≠ y ∧ Event.blake3 x = Event.blake3 y.
Proof.
  intros Hl Ho1 Ho2 Hn1 Hn2 (c1 & Hc1 & H1)%submit_id (c2 & Hc2 & H2)%submit_id.
  destruct (decide (order_identity strategy_id occ1 n1 c1 = order_identity strategy_id occ2 n2 c2)) as [E|Hne].
  - left. apply order_identity_inj in E as (_ & ? & ? & ->); [|done..]. by rewrite Hc1, Hc2.
  - right. exists (order_identity strategy_id occ1 n1 c1), (order_identity strategy_id occ2 n2 c2). split; [done|]. by rewrite <-H1, <-H2.
Qed.

(** ** A sample run: buys of three and four shares against a print of five. *)

Definition sample_instrument : Instrument.InstrumentId := Event.instrument (EventCodec.sample_at 0).
Definition sample_model : FillModel := mk_model TradePrint Displayed Decimal.ZERO 1 1.
Definition sample_context : TradingContext :=
  mk_context [] 1 (mk_session (Model.mk_segment (bytes_of "d")) RegularSession Active) Allowed (Enabled Annotations.Continuous) None
    (Some Signal.Continuous) "market.signal" 3.
Definition sample_occurrence (ordinal t : Z) : Replay.EventOccurrence :=
  Replay.mk_occurrence ordinal
    (Ordering.mk_key (MatchTime.from_unix_microseconds t) 0 (Symbol.mk []) (SourceFormat.mk []) 0 0 None []) [7] 1.
Definition sample_intent (q : Z) : OrderIntent :=
  new_intent sample_instrument Buy (Quantity.mk q Quantity.Share) (Limit (Price.new (Decimal.from_atoms (2 * 10 ^ 18)))).
#[local] Instance sample_hash : Event.Blake3 := λ b, b.
Definition submitted (s : Simulator) (r : result SimulationError (OrderFeedback * Simulator)) : Simulator :=
  match r with Ok (_, s') => s' | Err _ => s end.
Definition sample_empty : Simulator := new_with_price_policy [sample_instrument] Quantity.Share sample_model Price.PositiveOnly.
Definition sample_first : Simulator :=
  submitted sample_empty (submit sample_empty (bytes_of "s") (sample_occurrence 1 0) sample_context 0 (sample_intent 3)).
Definition sample_both : Simulator :=
  submitted sample_first (submit sample_first (bytes_of "s") (sample_occurrence 1 0) sample_context 1 (sample_intent 4)).
Definition sample_filled : Simulator :=
  snd (evaluate sample_both (EventCodec.sample_at 5000) (sample_occurrence 2 5000) sample_context).

Lemma sample_print_wf : EventCodec.wf (EventCodec.sample_at 5000).
Proof. apply EventCodec.sample_at_wf. by unfold_ints. Qed.

Lemma sim_run_trans s1 s2 s3 : sim_run s1 s2 → sim_run s2 s3 → sim_run s1 s3.
Proof.
  induction 1; intros; [done| | |].
  - eapply run_submit; eauto.
  - eapply run_evaluate; eauto.
  - eapply run_cancel; eauto.
Qed.

Lemma submitted_run s sid occ t n i : Quantity.wf (quantity i) →
  is_ok (submit s sid occ t n i) = true → sim_run s (submitted s (submit s sid occ t n i)).
Proof.
  intros Hq Hok. destruct (submit s sid occ t n i) as [[fb s']|] eqn:E; [|done]. eapply run_submit; [exact Hq|exact E|constructor].
Qed.

Lemma evaluated_run s e occ t : EventCodec.wf e → sim_run s (snd (evaluate s e occ t)).
Proof. intros He. destruct (evaluate s e occ t) as [r s'] eqn:E. eapply run_evaluate; [exact He|exact E|constructor]. Qed.

Lemma sample_intent_wf q : 1 ≤ q ≤ u64_max → Quantity.wf (quantity (sample_intent q)).
Proof. done. Qed.

Lemma sample_first_run : sim_run sample_empty sample_first.
Proof. apply submitted_run; [apply sample_intent_wf; by unfold_ints|by vm_compute]. Qed.

Lemma sample_both_step : sim_run sample_first sample_both.
Proof. apply submitted_run; [apply sample_intent_wf; by unfold_ints|by vm_compute]. Qed.

Lemma sample_both_run : sim_run sample_empty sample_both.
Proof. eapply sim_run_trans; [apply sample_first_run|apply sample_both_step]. Qed.

Lemma evaluate_shares_witness : ∃ fbs, fst (evaluate sample_both (EventCodec.sample_at 5000) (sample_occurrence 2 5000) sample_context) = Ok fbs ∧
  (∀ i o, orders sample_both !! i = Some o → orders sample_filled !! i =
    Some (settle o (entitled sample_both (EventCodec.sample_at 5000) (sample_occurrence 2 5000) i o))) ∧
  filled <$> orders sample_filled = [3; 2].
Proof.
  pose proof (evaluate_shares sample_both (EventCodec.sample_at 5000) (sample_occurrence 2 5000) sample_context
    (sim_run_wf _ _ sample_both_run (new_sim_wf _ _ _ _)) sample_print_wf ltac:(by vm_compute)) as H.
  unfold sample_filled. assert (Hf : filled <$> orders sample_filled = [3; 2]) by by vm_compute. unfold sample_filled in Hf.
  destruct (evaluate _ _ _ _) as [[fbs|err] s'] eqn:E; [|by vm_compute in E].
  exists fbs. split; [done|]. split; [apply H|exact Hf].
Defined.

Lemma run_invariant_witness : Forall order_wf (orders sample_both) ∧
  (∀ id, taken_by id (orders sample_both) = filled_for id (fills sample_both)).
Proof.
  destruct (run_invariant [sample_instrument] Quantity.Share sample_model Price.PositiveOnly sample_both sample_both_run) as (H1 & H2 & _).
  by split.
Defined.

Lemma terminal_orders_stay_witness : ∃ o o', orders sample_first !! 0%nat = Some o ∧ orders sample_filled !! 0%nat = Some o' ∧
  same_order o o' ∧ filled o ≤ filled o'.
Proof.
  pose proof (sim_run_wf _ _ sample_first_run (new_sim_wf _ _ _ _)) as Hwf.
  assert (sim_run sample_first sample_filled) as Hrun.
  { eapply sim_run_trans; [apply sample_both_step|]. apply evaluated_run, sample_print_wf. }
  destruct (orders sample_first !! 0%nat) as [o|] eqn:Ho; [|by vm_compute in Ho].
  destruct (terminal_orders_stay sample_first sample_filled 0 o Hwf Hrun Ho) as (o' & Ho' & Hs & Hf & _).
  exists o, o'. by split_and!.
Defined.

Lemma order_ids_distinct_witness : ∃ id s', submit sample_empty (bytes_of "s") (sample_occurrence 1 0) sample_context 0 (sample_intent 3) = Ok (Accepted id, s') ∧
  ((1 = 1 ∧ 0 = 0 ∧ to_canonical_bytes (sample_intent 3) = to_canonical_bytes (sample_intent 3)) ∨
   ∃ x y : list Z, x ≠ y ∧ Event.blake3 x = Event.blake3 y).
Proof.
  destruct (submit sample_empty (bytes_of "s") (sample_occurrence 1 0) sample_context 0 (sample_intent 3)) as [[fb s']|] eqn:E; [|by vm_compute in E].
  destruct fb as [id| | | | | | |]; try by vm_compute in E. exists id, s'. split; [done|].
  apply (order_ids_distinct sample_empty sample_empty (bytes_of "s") (sample_occurrence 1 0) (sample_occurrence 1 0) sample_context sample_context
    0 0 (sample_intent 3) (sample_intent 3) id s' s'); [done|by unfold_ints|by unfold_ints|by unfold_ints|by unfold_ints|exact E|exact E].
Defined.

End SimulatorLaws.
