(* ===== verification/Requests.v ===== *)
(** Scheduled order requests and execution feedback of strategy-api
    (orders.rs): the correlation identifiers a strategy names its orders
    with, the requests and the level fills with their canonical bytes, and
    what these bytes determine. *)
From S2P Require Import Prelude Order Text Numeric Quantity Calendar Book Identity Codec Values Orders.

Module Requests.
Import Writer(push, extend, append_bytes) Orders.Orders.

Definition SCHEDULED_ORDER_REQUEST_VERSION : Z := 1.
Definition EXECUTION_FILL_FEEDBACK_VERSION : Z := 1.
Definition MAX_CORRELATION_ID_BYTES : Z := 128.

Inductive OrderCorrelationIdError : Set := Empty | TooLong.

(** Both identifiers are the UTF-8 bytes of a string. *)
Definition ClientOrderId : Type := list Z.
Definition OrderBatchId : Type := list Z.

Definition validate_correlation_id (value : list Z) : result OrderCorrelationIdError () :=
  reject zlen value =? 0 with Empty;;
  reject MAX_CORRELATION_ID_BYTES <? zlen value with TooLong;;
  Ok ().
Definition new_client_order_id (value : list Z) : result OrderCorrelationIdError ClientOrderId :=
  _ ← validate_correlation_id value; Ok value.
Definition new_order_batch_id (value : list Z) : result OrderCorrelationIdError OrderBatchId :=
  _ ← validate_correlation_id value; Ok value.

(** ** Requests *)

Inductive ScheduledExecutionPolicy : Set :=
| VisibleDepthAtActivationV1 | VisibleDepthUntilExpiryV1 | AuctionCrossAtFirstMatchV1 | SettlementAtActivationV1.
#[global] Instance ScheduledExecutionPolicy_eq_dec : EqDecision ScheduledExecutionPolicy.
Proof. solve_decision. Defined.
Definition policy_discriminant (p : ScheduledExecutionPolicy) : Z :=
  match p with
  | VisibleDepthAtActivationV1 => 1 | VisibleDepthUntilExpiryV1 => 2
  | AuctionCrossAtFirstMatchV1 => 3 | SettlementAtActivationV1 => 4
  end.

Record ScheduledOrderRequest : Set := mk_request {
  client_order_id : list Z; batch_id : option (list Z); activate_at : MatchTime.MatchTime;
  expire_at : option MatchTime.MatchTime; intent : OrderIntent; execution_policy : ScheduledExecutionPolicy }.

Inductive ScheduledOrderRequestError : Set := InvalidActiveWindow.

Definition new_request (client_order_id : ClientOrderId) (batch_id : option OrderBatchId) (activate_at : MatchTime.MatchTime)
    (expire_at : option MatchTime.MatchTime) (intent : OrderIntent) (execution_policy : ScheduledExecutionPolicy) :
    result ScheduledOrderRequestError ScheduledOrderRequest :=
  reject match expire_at with Some e => bool_decide (cmp e activate_at ≠ Gt) | None => false end with InvalidActiveWindow;;
  Ok (mk_request client_order_id batch_id activate_at expire_at intent execution_policy).

(** An optional part: a tag byte, then the part. *)
Definition append_option {A} (w : A → Writer.Writer) (o : option A) : Writer.Writer :=
  match o with None => push 0 | Some x => push 1 ▷ w x end.
Definition append_time (t : MatchTime.MatchTime) : Writer.Writer := extend (be_bytes 8 (MatchTime.as_unix_microseconds t)).

Definition encode_request (r : ScheduledOrderRequest) : Writer.Writer :=
  extend (bytes_of "OSSR") ▷ extend (be_bytes 2 SCHEDULED_ORDER_REQUEST_VERSION) ▷
  append_bytes (client_order_id r) ▷ append_option append_bytes (batch_id r) ▷
  append_time (activate_at r) ▷ append_option append_time (expire_at r) ▷
  push (policy_discriminant (execution_policy r)) ▷
  (λ output, canonical ← to_canonical_bytes (intent r); append_bytes canonical output).
Definition request_canonical_bytes (r : ScheduledOrderRequest) : result Writer.CanonicalEncodingError (list Z) :=
  encode_request r [].

(** ** Execution feedback *)

(** [FillId]: 32 bytes. *)
Definition FillId : Type := list Z.

Record ExecutionFillFeedback : Set := mk_feedback {
  fill_id : list Z; fill_order_id : list Z; fill_client_order_id : list Z; fill_batch_id : option (list Z);
  fill_instrument : Instrument.InstrumentId; activation_time : MatchTime.MatchTime; fill_time : MatchTime.MatchTime;
  fill_side : OrderSide; fill_level_index : Z; fill_price : Price.Price; fill_quantity : Quantity.Quantity;
  cumulative_filled : Quantity.Quantity; fill_remaining : option Quantity.Quantity }.

Inductive ExecutionFillFeedbackError : Set :=
| InvalidLevelIndex | FillBeforeActivation | FeedbackUnitMismatch | InvalidCumulativeQuantity.

Definition new_feedback (fill_id : FillId) (order_id : OrderId) (client_order_id : ClientOrderId)
    (batch_id : option OrderBatchId) (instrument : Instrument.InstrumentId) (activation_time fill_time : MatchTime.MatchTime)
    (side : OrderSide) (level_index : Z) (price : Price.Price) (quantity cumulative_filled : Quantity.Quantity)
    (remaining : option Quantity.Quantity) : result ExecutionFillFeedbackError ExecutionFillFeedback :=
  reject negb (in_range 1 5 level_index) with InvalidLevelIndex;;
  reject bool_decide (cmp fill_time activation_time = Lt) with FillBeforeActivation;;
  reject bool_decide (Quantity.unit quantity ≠ Quantity.unit cumulative_filled)
      || match remaining with Some r => bool_decide (Quantity.unit r ≠ Quantity.unit quantity) | None => false end
    with FeedbackUnitMismatch;;
  reject Quantity.value cumulative_filled <? Quantity.value quantity with InvalidCumulativeQuantity;;
  Ok (mk_feedback fill_id order_id client_order_id batch_id instrument activation_time fill_time side level_index price
        quantity cumulative_filled remaining).

Definition encode_feedback (f : ExecutionFillFeedback) : Writer.Writer :=
  extend (bytes_of "OSEF") ▷ extend (be_bytes 2 EXECUTION_FILL_FEEDBACK_VERSION) ▷
  extend (fill_id f) ▷ extend (fill_order_id f) ▷ append_bytes (fill_client_order_id f) ▷
  append_option append_bytes (fill_batch_id f) ▷
  push (Market.discriminant (Instrument.market (fill_instrument f))) ▷
  append_bytes (Symbol.as_bytes (Instrument.symbol (fill_instrument f))) ▷
  append_time (activation_time f) ▷ append_time (fill_time f) ▷
  push (side_discriminant (fill_side f)) ▷ push (fill_level_index f) ▷
  extend (Price.to_canonical_bytes (fill_price f)) ▷ extend (Quantity.to_canonical_bytes (fill_quantity f)) ▷
  extend (Quantity.to_canonical_bytes (cumulative_filled f)) ▷
  append_option (λ q, extend (Quantity.to_canonical_bytes q)) (fill_remaining f).
Definition feedback_canonical_bytes (f : ExecutionFillFeedback) : result Writer.CanonicalEncodingError (list Z) :=
  encode_feedback f [].

End Requests.
