(* ===== verification/Framing.v ===== *)
(** Framed encodings: what the canonical bytes of strategy-api's requests,
    intents and feedback determine. The encoders there have no decoder; two
    values with the same bytes are shown to be equal part by part. *)
From S2P Require Import Prelude Order Text Numeric Quantity Calendar Book Identity Codec Values Orders Requests.

Module Framing.
Import Writer(Writer, AppendOnly, writes, push, extend, append_bytes) Orders.Orders Requests.Requests.

(** When the outputs of two writers are prefixes of the same bytes, [P] holds
    and the outputs are equal. *)
Definition agree (w1 w2 : Writer) (P : Prop) : Prop :=
  ∀ e1 e2 r1 r2, writes w1 e1 → writes w2 e2 → e1 ++ r1 = e2 ++ r2 → P ∧ r1 = r2.

Lemma agree_impl w1 w2 (P Q : Prop) : agree w1 w2 P → (P → Q) → agree w1 w2 Q.
Proof. intros H HPQ e1 e2 r1 r2 H1 H2 He. destruct (H _ _ _ _ H1 H2 He) as [HP ->]. split; [by apply HPQ|done]. Qed.

Lemma agree_extend l1 l2 : length l1 = length l2 → agree (extend l1) (extend l2) (l1 = l2).
Proof. intros Hl e1 e2 r1 r2 ->%Writer.writes_extend ->%Writer.writes_extend. by apply app_inj_1. Qed.
Lemma agree_push a b : agree (push a) (push b) (a = b).
Proof. eapply agree_impl; [by apply agree_extend|]. by intros [= ->]. Qed.

Lemma agree_seq w1 w2 u1 u2 (P Q : Prop) `{!AppendOnly w1, !AppendOnly w2, !AppendOnly u1, !AppendOnly u2} :
  agree w1 w2 P → (P → agree u1 u2 Q) → agree (w1 ▷ u1) (w2 ▷ u2) (P ∧ Q).
Proof.
  intros Hw Hu e1 e2 r1 r2 (a1 & b1 & -> & Ha1 & Hb1)%Writer.writes_seq (a2 & b2 & -> & Ha2 & Hb2)%Writer.writes_seq He; [|apply _..].
  rewrite <-!(assoc_L (++)) in He. destruct (Hw _ _ _ _ Ha1 Ha2 He) as [HP Hr]. destruct (Hu HP _ _ _ _ Hb1 Hb2 Hr) as [HQ ->]. done.
Qed.

Lemma agree_be n a b : 0 ≤ a < 256 ^ Z.of_nat n → 0 ≤ b < 256 ^ Z.of_nat n → agree (extend (be_bytes n a)) (extend (be_bytes n b)) (a = b).
Proof. intros Ha Hb. eapply agree_impl; [apply agree_extend; by rewrite !length_be_bytes|]. by apply be_bytes_inj. Qed.

Lemma agree_bytes l1 l2 : agree (append_bytes l1) (append_bytes l2) (l1 = l2).
Proof.
  intros e1 e2 r1 r2 [H1 ->]%Writer.writes_append_bytes [H2 ->]%Writer.writes_append_bytes He. rewrite <-!(assoc_L (++)) in He.
  apply app_inj_1 in He as [Hn He]; [|by rewrite !length_be_bytes]. apply be_bytes_inj in Hn; [|unfold_ints; simpl; lia..].
  apply app_inj_1 in He; [done|]. unfold zlen in Hn. lia.
Qed.

Lemma agree_option {A} (w : A → Writer) `{!∀ x, AppendOnly (w x)} (o1 o2 : option A) :
  (∀ x y, o1 = Some x → o2 = Some y → agree (w x) (w y) (x = y)) → agree (append_option w o1) (append_option w o2) (o1 = o2).
Proof.
  intros Hw. destruct o1 as [x|], o2 as [y|]; cbn [append_option].
  - eapply agree_impl; [apply agree_seq; [apply _..|apply agree_push|intros _; by apply Hw]|]. by intros [_ ->].
  - intros e1 e2 r1 r2 (a & b & -> & ->%Writer.writes_push & _)%Writer.writes_seq ->%Writer.writes_push; [done|apply _..].
  - intros e1 e2 r1 r2 ->%Writer.writes_push (a & b & -> & ->%Writer.writes_push & _)%Writer.writes_seq; [done|apply _..].
  - eapply agree_impl; [apply agree_push|done].
Qed.

#[global] Instance append_option_append_only {A} (w : A → Writer) `{!∀ x, AppendOnly (w x)} o : AppendOnly (append_option w o).
Proof. destruct o; apply _. Qed.

Lemma agree_signed n a b : - 256 ^ Z.of_nat n ≤ 2 * a < 256 ^ Z.of_nat n → - 256 ^ Z.of_nat n ≤ 2 * b < 256 ^ Z.of_nat n →
  agree (extend (be_bytes n a)) (extend (be_bytes n b)) (a = b).
Proof.
  intros Ha Hb. eapply agree_impl; [apply agree_extend; by rewrite !length_be_bytes|].
  intros H. by rewrite <-(from_be_signed_be_bytes n a), H, from_be_signed_be_bytes.
Qed.

(** Complete outputs. *)
Lemma agree_whole w1 w2 (P : Prop) b `{!AppendOnly w1, !AppendOnly w2} : agree w1 w2 P → w1 [] = Ok b → w2 [] = Ok b → P.
Proof. intros H H1%Writer.writes_nil H2%Writer.writes_nil; [|done..]. by destruct (H b b [] [] H1 H2 eq_refl). Qed.

(** ** The values of strategy-api *)

Create HintDb framing.
#[global] Hint Resolve agree_push agree_bytes : framing.

Lemma agree_time t u : MatchTime.wf t → MatchTime.wf u → agree (append_time t) (append_time u) (t = u).
Proof.
  unfold MatchTime.wf. intros Ht Hu. eapply agree_impl; [apply agree_signed; unfold_ints; simpl; lia|]. destruct t, u. simpl. by intros ->.
Qed.
Lemma agree_price p q : Price.wf p → Price.wf q →
  agree (extend (Price.to_canonical_bytes p)) (extend (Price.to_canonical_bytes q)) (p = q).
Proof.
  unfold Price.wf, Decimal.wf. intros Hp Hq. eapply agree_impl; [apply agree_signed; unfold_ints; simpl; lia|].
  destruct p as [[a]], q as [[b]]. simpl. by intros ->.
Qed.
Lemma agree_quantity p q : Quantity.wf p → Quantity.wf q →
  agree (extend (Quantity.to_canonical_bytes p)) (extend (Quantity.to_canonical_bytes q)) (p = q).
Proof.
  unfold Quantity.wf. intros Hp Hq. eapply agree_impl; [by apply agree_extend|].
  unfold Quantity.to_canonical_bytes. intros H. apply (app_inj_1 [_] [_]) in H as [[= Hu] Hv]; [|done]. apply be_bytes_inj in Hv; [|unfold_ints; simpl; lia..].
  apply (f_equal Quantity.from_discriminant) in Hu. rewrite !Quantity.unit_from_discriminant in Hu. destruct p, q. by simplify_eq/=.
Qed.
Lemma agree_market m1 m2 : agree (push (Market.discriminant m1)) (push (Market.discriminant m2)) (m1 = m2).
Proof.
  eapply agree_impl; [apply agree_push|]. intros H. apply (f_equal Market.from_discriminant) in H.
  rewrite !Market.from_discriminant_discriminant in H. by simplify_eq/=.
Qed.
Lemma agree_side s1 s2 : agree (push (side_discriminant s1)) (push (side_discriminant s2)) (s1 = s2).
Proof. eapply agree_impl; [apply agree_push|]. by destruct s1, s2. Qed.
Lemma agree_policy p1 p2 : agree (push (policy_discriminant p1)) (push (policy_discriminant p2)) (p1 = p2).
Proof. eapply agree_impl; [apply agree_push|]. by destruct p1, p2. Qed.

(** What the types of the source guarantee. *)
Definition order_type_wf (t : OrderType) : Prop := match t with Limit p => Price.wf p | MarketOrder => True end.
Definition intent_wf (i : OrderIntent) : Prop := Quantity.wf (quantity i) ∧ order_type_wf (order_type i).
Definition request_wf (r : ScheduledOrderRequest) : Prop :=
  MatchTime.wf (activate_at r) ∧ match expire_at r with Some t => MatchTime.wf t | None => True end ∧ intent_wf (intent r).

#[global] Instance append_order_type_append_only t : AppendOnly (append_order_type t).
Proof. destruct t; apply _. Qed.
#[global] Instance append_time_append_only t : AppendOnly (append_time t).
Proof. apply _. Qed.

Lemma agree_order_type t1 t2 : order_type_wf t1 → order_type_wf t2 →
  agree (append_order_type t1) (append_order_type t2) (t1 = t2).
Proof.
  intros H1 H2. destruct t1 as [|p1], t2 as [|p2]; cbn [append_order_type].
  - eapply agree_impl; [apply agree_push|done].
  - intros e1 e2 r1 r2 ->%Writer.writes_push (a & b & -> & ->%Writer.writes_push & _)%Writer.writes_seq; [done|apply _..].
  - intros e1 e2 r1 r2 (a & b & -> & ->%Writer.writes_push & _)%Writer.writes_seq ->%Writer.writes_push; [done|apply _..].
  - eapply agree_impl; [apply agree_seq; [apply _..|apply agree_push|intros _; by apply agree_price]|]. by intros [_ ->].
Qed.

(** Instances are found by the head of the writer. *)
#[local] Typeclasses Opaque Writer.push Writer.extend Writer.seq Writer.append_bytes append_option append_time append_order_type.

(** Steps through two sequences of the same shape. *)
Ltac same_fields :=
  repeat lazymatch goal with |- agree (Writer.seq _ _) (Writer.seq _ _) _ => apply agree_seq; [apply _..| |intros _] end.

Lemma agree_intent i j : intent_wf i → intent_wf j → agree (encode_intent i) (encode_intent j) (i = j).
Proof.
  intros [Hqi Hti] [Hqj Htj]. eapply agree_impl.
  { unfold encode_intent. same_fields; [by apply agree_extend|by apply agree_extend|apply agree_market|apply agree_bytes|apply agree_side|
      by apply agree_quantity|by apply agree_order_type|apply agree_push]. }
  intros (_ & _ & Hm & Hs & Hsd & Hq & Ht & _). destruct i as [[m1 [s1]] ? ? ?], j as [[m2 [s2]] ? ? ?]. by simplify_eq/=.
Qed.

#[global] Instance encode_intent_append_only i : AppendOnly (encode_intent i).
Proof. apply _. Qed.

Lemma intent_identifies i j b : intent_wf i → intent_wf j → to_canonical_bytes i = Ok b → to_canonical_bytes j = Ok b → i = j.
Proof. intros Hi Hj. apply agree_whole; [apply _..|by apply agree_intent]. Qed.

(** The last part of a request: the framed bytes of its intent. *)
Definition append_intent (i : OrderIntent) : Writer := λ output, canonical ← to_canonical_bytes i; append_bytes canonical output.
#[global] Instance append_intent_append_only i : AppendOnly (append_intent i).
Proof.
  intros bytes out H. unfold append_intent in *. apply bind_Ok in H as (c & Hc & H). apply Writer.append_only in H as (e & -> & He).
  exists e. split; [done|]. intros bytes'. unfold append_intent. rewrite Hc. apply He.
Qed.

Lemma agree_append_intent i j : intent_wf i → intent_wf j → agree (append_intent i) (append_intent j) (i = j).
Proof.
  intros Hi Hj e1 e2 r1 r2 H1 H2 He. specialize (H1 []) as H1'. specialize (H2 []) as H2'. unfold append_intent in H1', H2'.
  apply bind_Ok in H1' as (c1 & Hc1 & Hw1), H2' as (c2 & Hc2 & Hw2).
  assert (Ha1 : writes (append_bytes c1) e1) by by apply Writer.writes_nil; [apply _|].
  assert (Ha2 : writes (append_bytes c2) e2) by by apply Writer.writes_nil; [apply _|].
  destruct (agree_bytes c1 c2 _ _ _ _ Ha1 Ha2 He) as [-> Hr]. split; [by eapply intent_identifies|done].
Qed.

Lemma agree_request r1 r2 : request_wf r1 → request_wf r2 → agree (encode_request r1) (encode_request r2) (r1 = r2).
Proof.
  intros (Ha1 & He1 & Hi1) (Ha2 & He2 & Hi2). eapply agree_impl.
  { unfold encode_request. fold (append_intent (intent r1)) (append_intent (intent r2)).
    same_fields; [by apply agree_extend|by apply agree_extend|apply agree_bytes| |by apply agree_time| |apply agree_policy|by apply agree_append_intent].
    - apply agree_option; [apply _|]. intros x y _ _. apply agree_bytes.
    - apply agree_option; [apply _|]. intros x y Hx Hy. rewrite Hx in He1. rewrite Hy in He2. by apply agree_time. }
  intros (_ & _ & Hc & Hb & Ht & Hx & Hp & Hi). destruct r1, r2. by simplify_eq/=.
Qed.

#[global] Instance encode_request_append_only r : AppendOnly (encode_request r).
Proof. unfold encode_request. fold (append_intent (intent r)). apply _. Qed.

(** ** Execution feedback *)

Definition feedback_wf (f : ExecutionFillFeedback) : Prop :=
  length (fill_id f) = 32%nat ∧ length (fill_order_id f) = 32%nat ∧ MatchTime.wf (activation_time f) ∧ MatchTime.wf (fill_time f) ∧
  Price.wf (fill_price f) ∧ Quantity.wf (fill_quantity f) ∧ Quantity.wf (cumulative_filled f) ∧
  match fill_remaining f with Some q => Quantity.wf q | None => True end.

Lemma agree_feedback f g : feedback_wf f → feedback_wf g → agree (encode_feedback f) (encode_feedback g) (f = g).
Proof.
  intros (Hf1 & Hf2 & Hf3 & Hf4 & Hf5 & Hf6 & Hf7 & Hf8) (Hg1 & Hg2 & Hg3 & Hg4 & Hg5 & Hg6 & Hg7 & Hg8). eapply agree_impl.
  { unfold encode_feedback. same_fields.
    - by apply agree_extend.
    - by apply agree_extend.
    - apply agree_extend. by rewrite Hf1, Hg1.
    - apply agree_extend. by rewrite Hf2, Hg2.
    - apply agree_bytes.
    - apply agree_option; [apply _|]. intros x y _ _. apply agree_bytes.
    - apply agree_market.
    - apply agree_bytes.
    - by apply agree_time.
    - by apply agree_time.
    - apply agree_side.
    - apply agree_push.
    - by apply agree_price.
    - by apply agree_quantity.
    - by apply agree_quantity.
    - apply agree_option; [apply _|]. intros x y Hx Hy. rewrite Hx in Hf8. rewrite Hy in Hg8. by apply agree_quantity. }
  intros (_ & _ & H1 & H2 & H3 & H4 & Hm & Hs & H5 & H6 & H7 & H8 & H9 & H10 & H11 & H12).
  destruct f as [? ? ? ? [m1 [s1]] ? ? ? ? ? ? ? ?], g as [? ? ? ? [m2 [s2]] ? ? ? ? ? ? ? ?]. by simplify_eq/=.
Qed.

#[global] Instance encode_feedback_append_only f : AppendOnly (encode_feedback f).
Proof. apply _. Qed.

Lemma feedback_identifies f g b : feedback_wf f → feedback_wf g → feedback_canonical_bytes f = Ok b → feedback_canonical_bytes g = Ok b → f = g.
Proof. intros Hf Hg. apply agree_whole; [apply _..|by apply agree_feedback]. Qed.

(** ** Requests *)

Lemma request_identifies_lemma r1 r2 b : request_wf r1 → request_wf r2 → request_canonical_bytes r1 = Ok b →
  request_canonical_bytes r2 = Ok b → r1 = r2.
Proof. intros H1 H2. apply agree_whole; [apply _..|by apply agree_request]. Qed.

(** Two scheduled requests with the same canonical bytes are the same request. *)
Theorem request_identifies r1 r2 b : request_wf r1 → request_wf r2 → request_canonical_bytes r1 = Ok b → request_canonical_bytes r2 = Ok b →
  r1 = r2.
Proof. apply request_identifies_lemma. Qed.

Definition sample_request : ScheduledOrderRequest :=
  mk_request (bytes_of "entry") (Some (bytes_of "batch")) (MatchTime.from_unix_microseconds 1) None
    (new_intent (Instrument.new Market.Twse (Symbol.mk (bytes_of "2330"))) Buy (Quantity.mk 2 Quantity.Share) MarketOrder) VisibleDepthUntilExpiryV1.
Lemma request_identifies_witness : ∃ b, request_canonical_bytes sample_request = Ok b ∧ sample_request = sample_request.
Proof.
  assert (Hwf : request_wf sample_request) by done.
  destruct (request_canonical_bytes sample_request) as [b|] eqn:E; [|by vm_compute in E]. exists b. split; [done|].
  by apply (request_identifies sample_request sample_request b).
Defined.

End Framing.
