(* ===== verification/Effects.v ===== *)
(** A state and error monad for the methods that take [&mut self] and return a
    [Result], with a logic for their outcomes on every path. The state an
    error leaves is the state at the point of the error, as in the source. *)
From S2P Require Import Prelude.

Module Effects.

(** The error type of a method that can also panic. *)
Inductive Failure (E : Type) : Type := Returned (e : E) | Panicked.
Arguments Returned {E} e.
Arguments Panicked {E}.

Definition M (S E A : Type) : Type := S → result (Failure E) A * S.
#[export] Instance M_ret {S E} : MRet (M S E) := λ A x s, (Ok x, s).
#[export] Instance M_bind {S E} : MBind (M S E) := λ A B f m s,
  match m s with (Ok x, s) => f x s | (Err e, s) => (Err e, s) end.

Section ops.
Context {S E : Type}.

Definition get : M S E S := λ s, (Ok s, s).
Definition gets {A} (f : S → A) : M S E A := λ s, (Ok (f s), s).
Definition modify (f : S → S) : M S E () := λ s, (Ok (), f s).
Definition lift {A} (r : result (Failure E) A) : M S E A := λ s, (r, s).
Definition fail {A} (e : E) : M S E A := lift (Err (Returned e)).
(** A call whose own error becomes [e]. *)
Definition lift_err {F A} (f : F → E) (r : result F A) : M S E A := lift (map_err (Returned ∘ f) r).
Definition expect {A} (o : option A) : M S E A := lift (ok_or o Panicked).

(** [for x in l { f(x)?; }]. *)
Fixpoint each {A} (f : A → M S E ()) (l : list A) : M S E () :=
  match l with [] => mret () | x :: l => _ ← f x; each f l end.
End ops.

(** Running [m] from [s] ends in [Q] or, with an error, in [R]; it does not panic. *)
Definition outcome {S E A} (m : M S E A) (s : S) (Q : A → S → Prop) (R : E → S → Prop) : Prop :=
  match m s with
  | (Ok x, s') => Q x s'
  | (Err (Returned e), s') => R e s'
  | (Err Panicked, _) => False
  end.

Section outcome.
Context {S E A B : Type}.
Implicit Types (s : S) (R : E → S → Prop).

Lemma outcome_bind (m : M S E A) (f : A → M S E B) s Q R : outcome m s (λ x s', outcome (f x) s' Q R) R → outcome (m ≫= f) s Q R.
Proof. unfold outcome, mbind, M_bind. by destruct (m s) as [[x|[e|]] s']. Qed.
Lemma outcome_ret (x : A) s (Q : A → S → Prop) R : Q x s → outcome (mret x) s Q R.
Proof. done. Qed.
Lemma outcome_get s (Q : S → S → Prop) R : Q s s → outcome get s Q R.
Proof. done. Qed.
Lemma outcome_gets (f : S → A) s (Q : A → S → Prop) R : Q (f s) s → outcome (gets f) s Q R.
Proof. done. Qed.
Lemma outcome_modify f s (Q : () → S → Prop) R : Q () (f s) → outcome (modify f) s Q R.
Proof. done. Qed.
Lemma outcome_lift (r : result (Failure E) A) s (Q : A → S → Prop) R :
  match r with Ok x => Q x s | Err (Returned e) => R e s | Err Panicked => False end → outcome (lift r) s Q R.
Proof. unfold outcome, lift. by destruct r as [|[]]. Qed.
Lemma outcome_lift_err {F} (f : F → E) (r : result F A) s (Q : A → S → Prop) R :
  match r with Ok x => Q x s | Err e => R (f e) s end → outcome (lift_err f r) s Q R.
Proof. unfold outcome, lift_err, lift. by destruct r. Qed.
Lemma outcome_fail (e : E) s (Q : A → S → Prop) R : R e s → outcome (fail e) s Q R.
Proof. done. Qed.
Lemma outcome_mono (m : M S E A) s (Q Q' : A → S → Prop) R R' : outcome m s Q R → (∀ x s', Q x s' → Q' x s') →
  (∀ e s', R e s' → R' e s') → outcome m s Q' R'.
Proof. unfold outcome. destruct (m s) as [[x|[e|]] s']; eauto. Qed.
Lemma outcome_run (m : M S E A) s r s' (Q : A → S → Prop) R : m s = (r, s') →
  match r with Ok x => Q x s' | Err (Returned e) => R e s' | Err Panicked => False end → outcome m s Q R.
Proof. unfold outcome. intros ->. by destruct r as [|[]]. Qed.
Lemma outcome_and (m : M S E A) s (Q Q' : A → S → Prop) R R' : outcome m s Q R → outcome m s Q' R' →
  outcome m s (λ x s', Q x s' ∧ Q' x s') (λ e s', R e s' ∧ R' e s').
Proof. unfold outcome. by destruct (m s) as [[x|[e|]] s']. Qed.
End outcome.

(** An invariant kept by each step of a loop. *)
Lemma outcome_each {S E A} (f : A → M S E ()) (l : list A) (I : S → Prop) (R : E → S → Prop) s :
  (∀ x s, x ∈ l → I s → outcome (f x) s (λ _, I) R) → I s → outcome (each f l) s (λ _, I) R.
Proof.
  revert s. induction l as [|x l IH]; intros s Hf Hs; [done|]. simpl. apply outcome_bind.
  eapply outcome_mono; [apply Hf; [by left|done]| |done]. intros u s' Hs'. apply IH; [|done]. intros y t Hy. apply Hf. by right.
Qed.

(** A result that does not panic and, if it is a value, is in [Q]. *)
Definition yields {E A} (r : result (Failure E) A) (Q : A → Prop) : Prop :=
  match r with Ok x => Q x | Err (Returned _) => True | Err Panicked => False end.

Section yields.
Context {E A B : Type}.
Implicit Types r : result (Failure E) A.

Lemma yields_bind r (f : A → result (Failure E) B) Q : yields r (λ x, yields (f x) Q) → yields (r ≫= f) Q.
Proof. by destruct r as [|[]]. Qed.
Lemma yields_returned {F} (f : F → E) (r : result F A) Q : (∀ x, r = Ok x → Q x) → yields (map_err (Returned ∘ f) r) Q.
Proof. destruct r; [intros H; by apply H|done]. Qed.
Lemma yields_own (r : result E A) Q : (∀ x, r = Ok x → Q x) → yields (map_err Returned r) Q.
Proof. destruct r; [intros H; by apply H|done]. Qed.
Lemma yields_mono r (Q Q' : A → Prop) : yields r Q → (∀ x, Q x → Q' x) → yields r Q'.
Proof. destruct r as [|[]]; simpl; auto. Qed.
Lemma yields_Ok r x Q : yields r Q → r = Ok x → Q x.
Proof. by intros H ->. Qed.
Lemma yields_no_panic r Q : yields r Q → r ≠ Err Panicked.
Proof. by intros H ->. Qed.
End yields.

Lemma yields_collect {E A B} (f : B → result (Failure E) A) (l : list B) (R : B → A → Prop) :
  (∀ x, x ∈ l → yields (f x) (R x)) → yields (collect_results f l) (Forall2 R l).
Proof.
  induction l as [|x l IH]; intros H; simpl; [constructor|]. destruct (f x) as [y|[]] eqn:E0; simpl; [|done|].
  - specialize (IH (λ z Hz, H z ltac:(by right))). destruct (collect_results f l) as [ys|[]]; simpl; try done.
    constructor; [|done]. eapply yields_Ok; [apply H; by left|done].
  - eapply (yields_no_panic (f x)); [apply H; by left|done].
Qed.
Lemma yields_fold {E A B} (f : A → B → result (Failure E) A) (l : list B) (I : A → Prop) x :
  (∀ x y, y ∈ l → I x → yields (f x y) I) → I x → yields (try_fold f x l) I.
Proof.
  revert x. induction l as [|y l IH]; intros x Hf Hx; [done|]. cbn [try_fold]. apply yields_bind.
  eapply yields_mono; [apply Hf; [by left|done]|]. intros x' Hx'. apply IH; [|done]. intros z w Hw. apply Hf. by right.
Qed.
(** Running [m] from [s] ends in [Q] or fails with an error in [R], panics
    included. *)
Definition wp {S E A} (m : M S E A) (s : S) (Q : A → S → Prop) (R : Failure E → Prop) : Prop :=
  match m s with (Ok x, s') => Q x s' | (Err e, _) => R e end.

Section wp.
Context {S E A B : Type}.
Implicit Types (s : S) (R : Failure E → Prop).

Lemma wp_bind (m : M S E A) (f : A → M S E B) s Q R : wp m s (λ x s', wp (f x) s' Q R) R → wp (m ≫= f) s Q R.
Proof. unfold wp, mbind, M_bind. by destruct (m s) as [[x|e] s']. Qed.
Lemma wp_ret (x : A) s (Q : A → S → Prop) R : Q x s → wp (mret x) s Q R.
Proof. done. Qed.
Lemma wp_get s (Q : S → S → Prop) R : Q s s → wp get s Q R.
Proof. done. Qed.
Lemma wp_modify f s (Q : () → S → Prop) R : Q () (f s) → wp (modify f) s Q R.
Proof. done. Qed.
Lemma wp_lift (r : result (Failure E) A) s (Q : A → S → Prop) R : match r with Ok x => Q x s | Err e => R e end → wp (lift r) s Q R.
Proof. unfold wp, lift. by destruct r. Qed.
Lemma wp_lift_err {F} (f : F → E) (r : result F A) s (Q : A → S → Prop) R :
  match r with Ok x => Q x s | Err e => R (Returned (f e)) end → wp (lift_err f r) s Q R.
Proof. unfold wp, lift_err, lift. by destruct r. Qed.
Lemma wp_fail (e : E) s (Q : A → S → Prop) R : R (Returned e) → wp (fail e) s Q R.
Proof. done. Qed.
Lemma wp_mono (m : M S E A) s (Q Q' : A → S → Prop) R : wp m s Q R → (∀ x s', Q x s' → Q' x s') → wp m s Q' R.
Proof. unfold wp. destruct (m s) as [[x|e] s']; eauto. Qed.
End wp.

(** Running [m] from [s], if it succeeds, ends in [Q]. *)
Definition ensures {S E A} (m : M S E A) (s : S) (Q : A → S → Prop) : Prop :=
  match m s with (Ok x, s') => Q x s' | (Err _, _) => True end.

Section ensures.
Context {S E A B : Type}.
Implicit Types (s : S).

Lemma ensures_bind (m : M S E A) (f : A → M S E B) s Q : ensures m s (λ x s', ensures (f x) s' Q) → ensures (m ≫= f) s Q.
Proof. unfold ensures, mbind, M_bind. by destruct (m s) as [[x|e] s']. Qed.
Lemma ensures_run (m : M S E A) s x s' (Q : A → S → Prop) : ensures m s Q → m s = (Ok x, s') → Q x s'.
Proof. unfold ensures. intros H Hm. by rewrite Hm in H. Qed.
Lemma ensures_ret (x : A) s (Q : A → S → Prop) : Q x s → ensures (E:=E) (mret x) s Q.
Proof. done. Qed.
Lemma ensures_get s (Q : S → S → Prop) : Q s s → ensures (E:=E) get s Q.
Proof. done. Qed.
Lemma ensures_modify f s (Q : () → S → Prop) : Q () (f s) → ensures (E:=E) (modify f) s Q.
Proof. done. Qed.
Lemma ensures_lift (r : result (Failure E) A) s (Q : A → S → Prop) : (∀ x, r = Ok x → Q x s) → ensures (lift r) s Q.
Proof. unfold ensures, lift. destruct r; eauto. Qed.
Lemma ensures_lift_err {F} (f : F → E) (r : result F A) s (Q : A → S → Prop) : (∀ x, r = Ok x → Q x s) → ensures (lift_err f r) s Q.
Proof. unfold ensures, lift_err, lift. destruct r; simpl; [intros H; by apply H|done]. Qed.
Lemma ensures_fail (e : E) s (Q : A → S → Prop) : ensures (fail e) s Q.
Proof. done. Qed.
Lemma ensures_mono (m : M S E A) s (Q Q' : A → S → Prop) : ensures m s Q → (∀ x s', Q x s' → Q' x s') → ensures m s Q'.
Proof. unfold ensures. destruct (m s) as [[x|e] s']; eauto. Qed.
End ensures.

Lemma ensures_each {S E A} (f : A → M S E ()) (l : list A) (I : S → Prop) s :
  (∀ x s, x ∈ l → I s → ensures (f x) s (λ _, I)) → I s → ensures (each f l) s (λ _, I).
Proof.
  revert s. induction l as [|x l IH]; intros s Hf Hs; [done|]. simpl. apply ensures_bind.
  eapply ensures_mono; [apply Hf; [by left|done]|]. intros u s' Hs'. apply IH; [|done]. intros y t Hy. apply Hf. by right.
Qed.

(** Steps through the primitive operations of an [ensures] goal. *)
Ltac follow :=
  cbv beta zeta;
  lazymatch goal with
  | |- ensures (mbind _ get) _ _ => apply ensures_bind, ensures_get
  | |- ensures (mbind _ (modify _)) _ _ => apply ensures_bind, ensures_modify
  | |- ensures (mbind _ (lift _)) _ _ => apply ensures_bind, ensures_lift
  | |- ensures (mbind _ (lift_err _ _)) _ _ => apply ensures_bind, ensures_lift_err
  | |- ensures (mbind _ (mret _)) _ _ => apply ensures_bind, ensures_ret
  | |- ensures (mbind _ _) _ _ => apply ensures_bind
  | |- ensures get _ _ => apply ensures_get
  | |- ensures (modify _) _ _ => apply ensures_modify
  | |- ensures (mret _) _ _ => apply ensures_ret
  | |- ensures (fail _) _ _ => apply ensures_fail
  | |- ensures (lift _) _ _ => apply ensures_lift
  | |- ensures (lift_err _ _) _ _ => apply ensures_lift_err
  end.

(** Steps through the primitive operations of a goal. *)
Ltac step :=
  cbv beta zeta;
  lazymatch goal with
  | |- outcome (mbind _ get) _ _ _ => apply outcome_bind, outcome_get
  | |- outcome (mbind _ (gets _)) _ _ _ => apply outcome_bind, outcome_gets
  | |- outcome (mbind _ (modify _)) _ _ _ => apply outcome_bind, outcome_modify
  | |- outcome (mbind _ (lift _)) _ _ _ => apply outcome_bind, outcome_lift
  | |- outcome (mbind _ (lift_err _ _)) _ _ _ => apply outcome_bind, outcome_lift_err
  | |- outcome (mbind _ (mret _)) _ _ _ => apply outcome_bind, outcome_ret
  | |- outcome (mbind _ (fail _)) _ _ _ => apply outcome_bind, outcome_fail
  | |- outcome (mbind _ (mbind _ _)) _ _ _ => apply outcome_bind
  | |- outcome get _ _ _ => apply outcome_get
  | |- outcome (gets _) _ _ _ => apply outcome_gets
  | |- outcome (modify _) _ _ _ => apply outcome_modify
  | |- outcome (mret _) _ _ _ => apply outcome_ret
  | |- outcome (fail _) _ _ _ => apply outcome_fail
  | |- outcome (lift _) _ _ _ => apply outcome_lift
  | |- outcome (lift_err _ _) _ _ _ => apply outcome_lift_err
  end.

End Effects.

(** * Lines

    The loop that both normalizers run over their input: count a line, parse
    it with its number, add its class to the accumulators. *)

Module Lines.
Import Effects(Failure, Panicked, yields, yields_bind).

Lemma try_fold_ext {A B E} (f g : A → B → result E A) l a : (∀ a x, f a x = g a x) → try_fold f a l = try_fold g a l.
Proof.
  intros H. revert a. induction l as [|x l IH]; intros a; [done|]. cbn [try_fold]. rewrite H.
  destruct (g a x); [apply IH|done].
Qed.

Section reading.
Context {A C E : Type} (count : A → Z) (parse : Z → list Z → result (Failure E) C) (add : Z → C → A → A)
  (count_add : ∀ n c a, count (add n c a) = n).

Definition read_step (acc : A) (entry : nat * list Z) : result (Failure E) A :=
  let '(index, line) := entry in
  n ← ok_or (to_u64 (count acc + 1)) Panicked;
  classified ← parse (Z.of_nat index + 1) line;
  Ok (add n classified acc).
Definition classified (entry : nat * list Z) (c : C) : Prop := let '(i, line) := entry in parse (Z.of_nat i + 1) line = Ok c.
Definition collected (acc : A) (cls : list C) : A := foldl (λ a c, add (count a + 1) c a) acc cls.

Lemma read_step_Ok acc entry acc' : 0 ≤ count acc → read_step acc entry = Ok acc' ↔
  count acc + 1 ≤ u64_max ∧ ∃ c, classified entry c ∧ acc' = add (count acc + 1) c acc.
Proof.
  destruct entry as [i l]. intros Hc. unfold read_step, classified. split.
  - intros (n & Hn & H)%bind_Ok. apply bind_Ok in H as (c & Hp & [= <-]). unfold ok_or in Hn. destruct (to_u64 _) as [n'|] eqn:Hu; [|done].
    apply checked_Some in Hu as [-> Hu]. injection Hn as <-. split; [lia|]. by exists c.
  - intros (Hle & c & Hp & ->). unfold to_u64. rewrite checked_in by lia. cbn [ok_or mbind result_bind]. by rewrite Hp.
Qed.

Lemma read_all k lines acc acc' : 0 ≤ count acc → try_fold read_step acc (number k lines) = Ok acc' ↔
  (lines = [] ∨ count acc + zlen lines ≤ u64_max) ∧ ∃ cls, Forall2 classified (number k lines) cls ∧ acc' = collected acc cls.
Proof.
  revert k acc. induction lines as [|l lines IH]; intros k acc Hc.
  - split; [intros [= <-]; split; [by left|]; exists []; by split; [constructor|]|]. intros (_ & cls & Hcls & ->). by inversion Hcls.
  - rewrite number_cons. cbn [try_fold]. rewrite bind_Ok. assert (Hz : zlen (l :: lines) = zlen lines + 1) by (unfold zlen; simpl; lia).
    assert (Hz0 : 0 ≤ zlen lines) by (unfold zlen; lia). rewrite Hz. setoid_rewrite read_step_Ok; [|done]. split.
    + intros (a & (Hle & c & Hp & ->) & Hrest). apply IH in Hrest as (Hl & cls & Hcls & ->); [|rewrite count_add; lia]. rewrite count_add in Hl. split.
      * right. destruct Hl as [->|Hl]; [unfold zlen; simpl; lia|lia].
      * exists (c :: cls). by split; [constructor|].
    + intros ([?|Hle] & cls & Hcls & ->); [done|]. inversion Hcls as [|? c ? cls' Hp Hcls']; subst. eexists. split.
      * split; [lia|]. exists c. done.
      * apply IH; rewrite count_add; [lia|]. split; [right; lia|]. by exists cls'.
Qed.

Lemma read_yields k lines acc : 0 ≤ count acc → count acc + zlen lines ≤ u64_max → (∀ n line, parse n line ≠ Err Panicked) →
  yields (try_fold read_step acc (number k lines)) (λ _, True).
Proof.
  intros Hc Hle Hparse. revert k acc Hc Hle. induction lines as [|l lines IH]; intros k acc Hc Hle; [done|]. rewrite number_cons. cbn [try_fold].
  assert (Hz : zlen (l :: lines) = zlen lines + 1) by (unfold zlen; simpl; lia). assert (Hz0 : 0 ≤ zlen lines) by (unfold zlen; lia).
  apply yields_bind. destruct (read_step acc (k, l)) as [a|[e|]] eqn:Hs; [|done|].
  - apply read_step_Ok in Hs as (_ & c & _ & ->); [|done]. apply IH; rewrite count_add; lia.
  - unfold read_step, to_u64 in Hs. rewrite checked_in in Hs by lia. cbn [ok_or mbind result_bind] in Hs.
    apply bind_Err in Hs as [Hs|(? & _ & Hs)]; [|done]. by apply Hparse in Hs.
Qed.

Lemma classified_length k lines cls : Forall2 classified (number k lines) cls → zlen cls = zlen lines.
Proof.
  revert k cls. induction lines as [|l lines IH]; intros k cls H; inversion H as [|? c ? cs _ Hcs]; subst; [done|].
  apply IH in Hcs. unfold zlen in *. simpl. lia.
Qed.
Lemma classes_unique entries cls cls' : Forall2 classified entries cls → Forall2 classified entries cls' → cls = cls'.
Proof.
  intros H. revert cls'. induction H as [|[i l] c es cs Hc _ IH]; intros cls'; inversion 1 as [|? c' ? cs' Hc' Hcs']; subst; [done|].
  unfold classified in *. f_equal; [congruence|by apply IH].
Qed.

(** When the parser's values do not depend on the number, the classes of
    rearranged lines are the rearranged classes. *)
Lemma classes_perm (Hnum : ∀ n m line c, parse n line = Ok c → parse m line = Ok c) ls ls' cls : ls ≡ₚ ls' →
  Forall2 classified (number 0 ls) cls → ∃ cls', Forall2 classified (number 0 ls') cls' ∧ cls ≡ₚ cls'.
Proof.
  assert (Hmove : ∀ ls k j cls, Forall2 classified (number k ls) cls → Forall2 classified (number j ls) cls).
  { clear -Hnum. induction ls as [|l ls IH]; intros k j cls H; inversion H as [|? c ? cs Hc Hcs]; subst; constructor; [by eapply Hnum|by eapply IH]. }
  intros Hp. revert cls. induction Hp as [|l ls ls' _ IH|l1 l2 ls|ls ls' ls'' _ IH1 _ IH2]; intros cls H.
  - by exists cls.
  - inversion H as [|? c ? cs Hc Hcs]; subst. apply (Hmove _ _ 0%nat) in Hcs. destruct (IH _ Hcs) as (cs' & Hcs' & Hpc).
    exists (c :: cs'). split; [|by constructor]. constructor; [done|]. by apply (Hmove _ 0%nat).
  - inversion H as [|? c1 ? cs1 Hc1 Hcs1]; subst. inversion Hcs1 as [|? c2 ? cs Hc2 Hcs]; subst. exists (c2 :: c1 :: cs).
    split; [|constructor]. constructor; [by eapply Hnum|]. constructor; [by eapply Hnum|]. by apply (Hmove _ 2%nat).
  - destruct (IH1 _ H) as (cs & Hcs & ?). destruct (IH2 _ Hcs) as (cs' & Hcs' & ?). exists cs'. split; [done|by etrans].
Qed.
End reading.

End Lines.
