(* ===== verification/Scheduled.v ===== *)
(** The control-driven order simulator (execution-sim/src/scheduled.rs):
    orders are submitted ahead of time, activated and expired by controls, and
    executed against the depth that was visible, an auction print, or a fixed
    settlement price. *)
From S2P Require Import Prelude Order Text Numeric Quantity Calendar Book Identity Signal Codec Values Event MarketState.
From S2P Require Import Ordering Replay Orders Requests Fill Depth Simulator Effects.

Module Scheduled.
Import Orders.Orders Requests.Requests.
Export Effects.Effects.
Import Orders.Trading(MatchingState, Enabled, NewOrderEntry).

(** ** Errors *)

Inductive ScheduledSimulationError : Set :=
| EmptyUniverse | DuplicateInstrument (i : Instrument.InstrumentId) | InstrumentOutsideUniverse (i : Instrument.InstrumentId)
| InvalidDepthLevels (levels : Z) | ZeroStalenessWindow | InvalidAdversePriceDelta | PriceNotAllowedByInstrumentProfile
| VisibilityBeforeMatchTime | InvalidAuctionMatchEvidence | InvalidSettlementOrderType | RegressingBookTime
| RegressingTradingStateTime | ActivationBeforeDecision | ActivationTimeMismatch | ActivationOutOfOrder
| ExpiryTimeMismatch | UnsupportedExecutionPolicy | QuantityUnitMismatch (expected actual : Quantity.QuantityUnit)
| UnknownClientOrder | UnknownOrder | ClientOrderAlreadyTerminal | OrderAlreadyTerminal | SequenceOverflow
| StalenessOverflow | QuantityOverflow | InvalidQuantity | Canonical (e : Writer.CanonicalEncodingError)
| FillFeedback (e : ExecutionFillFeedbackError) | DepthSweep (e : Depth.DepthSweepError).

(** An [expect] that fails, an index out of range or a u64 subtraction below
    zero is [Panicked]. *)
Definition Failure : Type := Effects.Failure ScheduledSimulationError.

Definition of_sweep (e : Depth.Failure) : Failure :=
  match e with Depth.Returned e => Returned (DepthSweep e) | Depth.Panicked => Panicked end.

(** ** Data *)

Definition before (a b : MatchTime.MatchTime) : bool := bool_decide (cmp a b = Lt).

Record ScheduledDepthModel : Set := mk_depth_model { depth_levels : Z; max_stale_ms : Z; adverse_price_delta : Decimal.Decimal }.
Definition new_depth_model (depth_levels max_stale_ms : Z) (adverse_price_delta : Decimal.Decimal) :
    result ScheduledSimulationError ScheduledDepthModel :=
  reject negb (in_range 1 (Z.of_nat Book.BOOK_DEPTH) depth_levels) with InvalidDepthLevels depth_levels;;
  reject max_stale_ms =? 0 with ZeroStalenessWindow;;
  reject Decimal.atoms adverse_price_delta <? 0 with InvalidAdversePriceDelta;;
  Ok (mk_depth_model depth_levels max_stale_ms adverse_price_delta).

Record ScheduledInstrumentConfig : Set := mk_config {
  config_instrument : Instrument.InstrumentId; config_unit : Quantity.QuantityUnit; config_model : ScheduledDepthModel;
  config_policy : Price.PricePolicy }.
Definition new_config (i : Instrument.InstrumentId) (u : Quantity.QuantityUnit) (m : ScheduledDepthModel) : ScheduledInstrumentConfig :=
  mk_config i u m Price.PositiveOnly.
Definition config_with_price_policy (p : Price.PricePolicy) (c : ScheduledInstrumentConfig) : ScheduledInstrumentConfig :=
  mk_config (config_instrument c) (config_unit c) (config_model c) p.

Record VisibleTradingStateEvidence : Set := mk_trading_state {
  state_instrument : Instrument.InstrumentId; state_match_time : MatchTime.MatchTime; state_visible_at : MatchTime.MatchTime;
  state_matching : MatchingState; state_new_order_entry : NewOrderEntry }.
Definition new_trading_state (i : Instrument.InstrumentId) (match_time visible_at : MatchTime.MatchTime)
    (m : MatchingState) (e : NewOrderEntry) : result ScheduledSimulationError VisibleTradingStateEvidence :=
  reject before visible_at match_time with VisibilityBeforeMatchTime;;
  Ok (mk_trading_state i match_time visible_at m e).

Record VisibleBookEvidence : Set := mk_book_evidence {
  book_instrument : Instrument.InstrumentId; book : Book.CompleteBookSnapshot; book_match_time : MatchTime.MatchTime;
  book_visible_at : MatchTime.MatchTime; book_matching : MatchingState; book_new_order_entry : NewOrderEntry }.
Definition new_book_evidence (i : Instrument.InstrumentId) (b : Book.CompleteBookSnapshot) (match_time visible_at : MatchTime.MatchTime)
    (m : MatchingState) (e : NewOrderEntry) : result ScheduledSimulationError VisibleBookEvidence :=
  reject before visible_at match_time with VisibilityBeforeMatchTime;;
  Ok (mk_book_evidence i b match_time visible_at m e).

#[global] Instance MatchingMethod_eq_dec : EqDecision Annotations.MatchingMethod.
Proof. solve_decision. Defined.
#[global] Instance MatchingState_eq_dec : EqDecision MatchingState.
Proof. solve_decision. Defined.

Record AuctionMatchEvidence : Set := mk_auction {
  auction_instrument : Instrument.InstrumentId; clearing_price : Price.Price; auction_match_time : MatchTime.MatchTime;
  auction_visible_at : MatchTime.MatchTime; auction_ordinal : Z }.
Definition new_auction (i : Instrument.InstrumentId) (clearing_price : Price.Price) (match_time visible_at : MatchTime.MatchTime)
    (run_event_ordinal : Z) (m : MatchingState) : result ScheduledSimulationError AuctionMatchEvidence :=
  reject before visible_at match_time with VisibilityBeforeMatchTime;;
  reject bool_decide (m ≠ Enabled Annotations.CallAuction) with InvalidAuctionMatchEvidence;;
  Ok (mk_auction i clearing_price match_time visible_at run_event_ordinal).

(** [origin_identity]: 32 bytes. *)
Record ScheduledSubmissionContext : Set := new_submission_context { origin_identity : list Z; decision_time : MatchTime.MatchTime }.

Inductive ScheduledOrderStatus : Set :=
| Scheduled | ActiveOrder | PartiallyFilledOrder | Attempted | FilledOrder | Failed (reason : ExecutionFailureReason)
| ExpiredOrder | ReplacedOrder | CancelledOrder.
#[global] Instance ExecutionFailureReason_eq_dec : EqDecision ExecutionFailureReason.
Proof. solve_decision. Defined.
#[global] Instance ScheduledOrderStatus_eq_dec : EqDecision ScheduledOrderStatus.
Proof. solve_decision. Defined.

Record ScheduledOrder : Set := mk_order {
  order_id : list Z; request : ScheduledOrderRequest; acceptance_sequence : Z; filled_value : Z; status : ScheduledOrderStatus }.
Definition with_status (st : ScheduledOrderStatus) (o : ScheduledOrder) : ScheduledOrder :=
  mk_order (order_id o) (request o) (acceptance_sequence o) (filled_value o) st.
Definition with_filled (v : Z) (o : ScheduledOrder) : ScheduledOrder :=
  mk_order (order_id o) (request o) (acceptance_sequence o) v (status o).

Record ScheduledSubmission : Set := mk_submission { submitted_id : list Z; replaced : option OrderFeedback }.
Record ScheduledActivation : Set := mk_activation {
  activated_id : list Z; activated_status : ScheduledOrderStatus; feedback : OrderFeedback;
  execution_fills : list ExecutionFillFeedback }.

Record VisibleBookState : Set := mk_book_state { evidence : VisibleBookEvidence; consumed_bids : list Z; consumed_asks : list Z }.
Definition consumed_on (b : VisibleBookState) (s : OrderSide) : list Z :=
  match s with Buy => consumed_asks b | Sell => consumed_bids b end.
Definition set_consumed (s : OrderSide) (l : list Z) (b : VisibleBookState) : VisibleBookState :=
  match s with
  | Buy => mk_book_state (evidence b) (consumed_bids b) l
  | Sell => mk_book_state (evidence b) l (consumed_asks b)
  end.

Record ScheduledDepthSimulator : Type := mk_simulator {
  configs : gmap Instrument.InstrumentId (Quantity.QuantityUnit * ScheduledDepthModel * Price.PricePolicy);
  books : gmap Instrument.InstrumentId VisibleBookState;
  trading_states : gmap Instrument.InstrumentId VisibleTradingStateEvidence;
  orders : list ScheduledOrder; client_orders : gmap (list Z) (list Z); fills : list Fill.FillRecord;
  all_execution_fills : list ExecutionFillFeedback; next_acceptance_sequence : Z }.

Definition set_books b s := mk_simulator (configs s) b (trading_states s) (orders s) (client_orders s) (fills s) (all_execution_fills s) (next_acceptance_sequence s).
Definition set_trading_states t s := mk_simulator (configs s) (books s) t (orders s) (client_orders s) (fills s) (all_execution_fills s) (next_acceptance_sequence s).
Definition set_orders os s := mk_simulator (configs s) (books s) (trading_states s) os (client_orders s) (fills s) (all_execution_fills s) (next_acceptance_sequence s).
Definition set_fills fs s := mk_simulator (configs s) (books s) (trading_states s) (orders s) (client_orders s) fs (all_execution_fills s) (next_acceptance_sequence s).
Definition set_execution_fills fs s := mk_simulator (configs s) (books s) (trading_states s) (orders s) (client_orders s) (fills s) fs (next_acceptance_sequence s).

Definition insert_config (m : gmap Instrument.InstrumentId (Quantity.QuantityUnit * ScheduledDepthModel * Price.PricePolicy))
    (c : ScheduledInstrumentConfig) : result ScheduledSimulationError _ :=
  match m !! config_instrument c with
  | Some _ => Err (DuplicateInstrument (config_instrument c))
  | None => Ok (<[config_instrument c := (config_unit c, config_model c, config_policy c)]> m)
  end.
Definition new (cs : list ScheduledInstrumentConfig) : result ScheduledSimulationError ScheduledDepthSimulator :=
  indexed ← try_fold insert_config ∅ cs;
  reject bool_decide (indexed = ∅) with EmptyUniverse;;
  Ok (mk_simulator indexed ∅ ∅ [] ∅ [] [] 1).

(** ** Operations on [&mut self]

    An operation returns its result with the state it leaves, also when it
    fails half way. *)

Abbreviation M := (Effects.M ScheduledDepthSimulator ScheduledSimulationError).
Notation "'refuse' c 'with' e ';;' k" := (if c then fail e else k)
  (at level 100, c at level 99, e at level 99, k at level 200, right associativity).

Definition order_at (index : nat) : M ScheduledOrder := s ← get; lift (ok_or (orders s !! index) Panicked).
Definition update_order (index : nat) (f : ScheduledOrder → ScheduledOrder) : M () := modify (λ s, set_orders (alter f index (orders s)) s).

(** *** Evidence *)

Definition publish_visible_trading_state (e : VisibleTradingStateEvidence) : M () :=
  s ← get;
  refuse bool_decide (configs s !! state_instrument e = None) with InstrumentOutsideUniverse (state_instrument e);;
  refuse match trading_states s !! state_instrument e with
         | Some previous => before (state_visible_at e) (state_visible_at previous)
                              || before (state_match_time e) (state_match_time previous)
         | None => false
         end with RegressingTradingStateTime;;
  modify (λ s, set_trading_states (<[state_instrument e := e]> (trading_states s)) s).

Definition publish_visible_book (e : VisibleBookEvidence) : M () :=
  s ← get;
  match configs s !! book_instrument e with
  | None => fail (InstrumentOutsideUniverse (book_instrument e))
  | Some (quantity_unit, _, price_policy) =>
      refuse match Book.quantity_unit (book e) with Some actual => bool_decide (actual ≠ quantity_unit) | None => false end
        with QuantityUnitMismatch quantity_unit (default quantity_unit (Book.quantity_unit (book e)));;
      refuse existsb (λ l, negb (Price.accepts price_policy (Book.price l)))
               (Book.levels (Book.bids (book e)) ++ Book.levels (Book.asks (book e)))
        with PriceNotAllowedByInstrumentProfile;;
      refuse match books s !! book_instrument e with
             | Some previous => before (book_visible_at e) (book_visible_at (evidence previous))
                                  || before (book_match_time e) (book_match_time (evidence previous))
             | None => false
             end with RegressingBookTime;;
      _ ← publish_visible_trading_state
            (mk_trading_state (book_instrument e) (book_match_time e) (book_visible_at e) (book_matching e) (book_new_order_entry e));
      modify (λ s, set_books (<[book_instrument e := mk_book_state e Depth.no_consumption Depth.no_consumption]> (books s)) s)
  end.

(** *** Orders *)

Definition order_index (id : list Z) : M nat :=
  s ← get; lift (ok_or (fst <$> list_find (λ o, order_id o = id) (orders s)) (Returned UnknownOrder)).

Section hash.
Context {B : Event.Blake3}.

Definition order_identity (strategy_id : list Z) (c : ScheduledSubmissionContext) (output_sequence : Z) (canonical : list Z) : list Z :=
  bytes_of "OSSOR" ++ strategy_id ++ origin_identity c ++ be_bytes 8 (MatchTime.as_unix_microseconds (decision_time c)) ++
  be_bytes 4 output_sequence ++ canonical.
Definition fill_id (id : list Z) (control_sequence level_index : Z) : list Z :=
  Event.blake3 (bytes_of "OSSF" ++ id ++ be_bytes 8 control_sequence ++ [level_index]).
Definition market_fill_id (id : list Z) (run_event_ordinal level_index : Z) : list Z :=
  Event.blake3 (bytes_of "OSSFM" ++ id ++ be_bytes 8 run_event_ordinal ++ [level_index]).

(** The replacement of the order that holds the client identifier. *)
Definition replace_previous (client : list Z) : M (option OrderFeedback) :=
  s ← get;
  match client_orders s !! client with
  | None => mret None
  | Some previous_id =>
      index ← lift (ok_or (fst <$> list_find (λ o, order_id o = previous_id) (orders s)) Panicked);
      previous ← order_at index;
      refuse bool_decide (status previous ≠ Scheduled) with ClientOrderAlreadyTerminal;;
      _ ← update_order index (with_status ReplacedOrder);
      mret (Some (Cancelled (order_id previous) Replaced))
  end.

Definition submit (strategy_id : list Z) (c : ScheduledSubmissionContext) (output_sequence : Z) (r : ScheduledOrderRequest) :
    M ScheduledSubmission :=
  refuse before (activate_at r) (decision_time c) with ActivationBeforeDecision;;
  s ← get;
  match configs s !! instrument (intent r) with
  | None => fail (InstrumentOutsideUniverse (instrument (intent r)))
  | Some (quantity_unit, _, price_policy) =>
      refuse bool_decide (Quantity.unit (quantity (intent r)) ≠ quantity_unit)
        with QuantityUnitMismatch quantity_unit (Quantity.unit (quantity (intent r)));;
      refuse match order_type (intent r) with Limit limit_price => negb (Price.accepts price_policy limit_price) | MarketOrder => false end
        with PriceNotAllowedByInstrumentProfile;;
      replaced ← replace_previous (client_order_id r);
      canonical ← lift (map_err (λ e, Returned (Canonical e)) (request_canonical_bytes r));
      let id := Event.blake3 (order_identity strategy_id c output_sequence canonical) in
      s ← get;
      let acceptance_sequence := next_acceptance_sequence s in
      next ← lift (ok_or (to_u64 (acceptance_sequence + 1)) (Returned SequenceOverflow));
      _ ← modify (λ s, mk_simulator (configs s) (books s) (trading_states s)
                         (orders s ++ [mk_order id r acceptance_sequence 0 Scheduled])
                         (<[client_order_id r := id]> (client_orders s)) (fills s) (all_execution_fills s) next);
      mret (mk_submission id replaced)
  end.

Definition cancel_before_activation (client : list Z) : M OrderFeedback :=
  s ← get;
  id ← lift (ok_or (client_orders s !! client) (Returned UnknownClientOrder));
  index ← order_index id;
  o ← order_at index;
  refuse bool_decide (status o ≠ Scheduled) with OrderAlreadyTerminal;;
  _ ← update_order index (with_status CancelledOrder);
  mret (Cancelled id StrategyCancelled).

Definition expire (id : list Z) (now : MatchTime.MatchTime) : M OrderFeedback :=
  index ← order_index id;
  o ← order_at index;
  refuse match status o with Scheduled | ActiveOrder | PartiallyFilledOrder | Attempted => false | _ => true end
    with OrderAlreadyTerminal;;
  refuse bool_decide (expire_at (request o) ≠ Some now) with ExpiryTimeMismatch;;
  _ ← update_order index (with_status ExpiredOrder);
  mret (Cancelled id Expired).

(** *** Execution *)

Definition fail_activation (index : nat) (reason : ExecutionFailureReason) (fs : list ExecutionFillFeedback) : M ScheduledActivation :=
  _ ← update_order index (with_status (Failed reason));
  o ← order_at index;
  let q := quantity (intent (request o)) in
  let filled := res_ok (Quantity.new (filled_value o) (Quantity.unit q)) in
  remaining ← lift (v ← ok_or (to_u64 (Quantity.value q - filled_value o)) Panicked;
                    map_err (λ _, Panicked) (Quantity.new v (Quantity.unit q)));
  mret (mk_activation (order_id o) (status o) (ExecutionFailed (order_id o) reason filled remaining) fs).

(** [consumed[index] = consumed[index].checked_add(..)?] in the stored book. *)
Definition consume (i : Instrument.InstrumentId) (side : OrderSide) (f : Depth.LevelFill) : M () :=
  s ← get;
  b ← lift (ok_or (books s !! i) Panicked);
  let index := Z.to_nat (Depth.level_index f - 1) in
  c ← lift (ok_or (consumed_on b side !! index) Panicked);
  c' ← lift (ok_or (to_u64 (c + Quantity.value (Depth.quantity f))) (Returned QuantityOverflow));
  modify (λ s, set_books (<[i := set_consumed side (<[index := c']> (consumed_on b side)) b]> (books s)) s).

(** One turn of the loop over the fills of a sweep. *)
Definition record_fill (o : ScheduledOrder) (control_sequence : Z) (now : MatchTime.MatchTime) (cumulative : Z)
    (f : Depth.LevelFill) : M (Z * ExecutionFillFeedback) :=
  let r := request o in
  let unit := Quantity.unit (quantity (intent r)) in
  _ ← consume (instrument (intent r)) (side (intent r)) f;
  cumulative ← lift (ok_or (to_u64 (cumulative + Quantity.value (Depth.quantity f))) (Returned QuantityOverflow));
  cumulative_quantity ← lift (map_err (λ _, Returned InvalidQuantity) (Quantity.new cumulative unit));
  remaining_value ← lift (ok_or (to_u64 (Quantity.value (quantity (intent r)) - cumulative)) Panicked);
  let remaining := res_ok (Quantity.new remaining_value unit) in
  _ ← modify (λ s, set_fills (fills s ++ [Fill.from_control (order_id o) control_sequence now (side (intent r))
                                            (Depth.price f) (Depth.quantity f)]) s);
  feedback ← lift (map_err (λ e, Returned (FillFeedback e))
    (new_feedback (fill_id (order_id o) control_sequence (Depth.level_index f)) (order_id o) (client_order_id r) (batch_id r)
       (instrument (intent r)) (activate_at r) now (side (intent r)) (Depth.level_index f) (Depth.price f)
       (Depth.quantity f) cumulative_quantity remaining));
  _ ← modify (λ s, set_execution_fills (all_execution_fills s ++ [feedback]) s);
  mret (cumulative, feedback).
Fixpoint record_fills (o : ScheduledOrder) (control_sequence : Z) (now : MatchTime.MatchTime) (cumulative : Z)
    (fs : list Depth.LevelFill) : M (Z * list ExecutionFillFeedback) :=
  match fs with
  | [] => mret (cumulative, [])
  | f :: fs =>
      '(cumulative, x) ← record_fill o control_sequence now cumulative f;
      '(cumulative, xs) ← record_fills o control_sequence now cumulative fs;
      mret (cumulative, x :: xs)
  end.

Definition max_stale_micros (m : ScheduledDepthModel) : result Failure Z :=
  ok_or (v ← to_u64 (max_stale_ms m * 1000); to_i64 v) (Returned StalenessOverflow).
Definition age_of (b : VisibleBookState) (now : MatchTime.MatchTime) : result Failure Z :=
  ok_or (to_i64 (MatchTime.as_unix_microseconds now - MatchTime.as_unix_microseconds (book_match_time (evidence b))))
    (Returned StalenessOverflow).

(** The book and the trading state that are visible at a time. *)
Definition visible_book (s : ScheduledDepthSimulator) (i : Instrument.InstrumentId) (now : MatchTime.MatchTime) : option VisibleBookState :=
  b ← books s !! i; if before now (book_visible_at (evidence b)) then None else Some b.
Definition visible_state (s : ScheduledDepthSimulator) (i : Instrument.InstrumentId) (now : MatchTime.MatchTime) :
    option VisibleTradingStateEvidence :=
  t ← trading_states s !! i; if before now (state_visible_at t) then None else Some t.
Definition matching_enabled (t : option VisibleTradingStateEvidence) : bool :=
  match t with Some t => match state_matching t with Enabled _ => true | _ => false end | None => false end.
Definition entry_open (t : option VisibleTradingStateEvidence) (ot : OrderType) : bool :=
  match t with Some t => Simulator.entry_allowed (state_new_order_entry t) ot | None => false end.

Definition sweep_book (m : ScheduledDepthModel) (policy : Price.PricePolicy) (b : VisibleBookState) (i : OrderIntent)
    (requested : Quantity.Quantity) : result Failure Depth.DepthSweepResult :=
  sweep ← map_err of_sweep
    (Depth.sweep_marketable_depth_with_consumed (book (evidence b)) (side i) requested (depth_levels m) (order_type i)
       (adverse_price_delta m) (consumed_on b (side i)));
  reject existsb (λ f, negb (Price.accepts policy (Depth.price f))) (Depth.fills sweep)
    with Returned PriceNotAllowedByInstrumentProfile;;
  Ok sweep.

(** The part of [activate] that executes at once against the visible depth. *)
Definition execute_at_activation (index : nat) (control_sequence : Z) (now : MatchTime.MatchTime) : M ScheduledActivation :=
  o ← order_at index;
  let i := intent (request o) in
  s ← get;
  '(_, model, price_policy) ← lift (ok_or (configs s !! instrument i) Panicked);
  match visible_book s (instrument i) now with
  | None => fail_activation index MissingVisibleDepth []
  | Some b =>
      stale ← lift (max_stale_micros model);
      age ← lift (age_of b now);
      if (age <? 0) || (stale <? age) then fail_activation index StaleVisibleDepth [] else
      if negb (matching_enabled (visible_state s (instrument i) now)) then fail_activation index MatchingDisabled [] else
      if negb (entry_open (visible_state s (instrument i) now) (order_type i))
      then fail_activation index FailedNewOrderEntryBlocked [] else
      sweep ← lift (sweep_book model price_policy b i (quantity i));
      '(cumulative, xs) ← record_fills o control_sequence now 0 (Depth.fills sweep);
      _ ← update_order index (with_filled cumulative);
      if Depth.is_complete sweep then
        _ ← update_order index (with_status FilledOrder);
        mret (mk_activation (order_id o) FilledOrder (Filled (order_id o) (quantity i)) xs)
      else
        fail_activation index
          (if (cumulative =? 0) && match order_type i with Limit _ => true | MarketOrder => false end
           then PriceNotMarketable else InsufficientVisibleDepth) xs
  end.

Definition settle_at_activation (index : nat) (control_sequence : Z) (now : MatchTime.MatchTime) : M ScheduledActivation :=
  o ← order_at index;
  let r := request o in
  let q := quantity (intent r) in
  match order_type (intent r) with
  | MarketOrder => fail InvalidSettlementOrderType
  | Limit settlement_price =>
      _ ← modify (λ s, set_fills (fills s ++ [Fill.from_control (order_id o) control_sequence now (side (intent r)) settlement_price q]) s);
      x ← lift (map_err (λ e, Returned (FillFeedback e))
            (new_feedback (fill_id (order_id o) control_sequence 1) (order_id o) (client_order_id r) (batch_id r)
               (instrument (intent r)) (activate_at r) now (side (intent r)) 1 settlement_price q q None));
      _ ← modify (λ s, set_execution_fills (all_execution_fills s ++ [x]) s);
      _ ← update_order index (with_filled (Quantity.value q));
      _ ← update_order index (with_status FilledOrder);
      mret (mk_activation (order_id o) FilledOrder (Filled (order_id o) q) [x])
  end.

Definition activate (id : list Z) (control_sequence : Z) (now : MatchTime.MatchTime) : M ScheduledActivation :=
  index ← order_index id;
  o ← order_at index;
  refuse bool_decide (status o ≠ Scheduled) with OrderAlreadyTerminal;;
  refuse bool_decide (activate_at (request o) ≠ now) with ActivationTimeMismatch;;
  s ← get;
  refuse existsb (λ o', bool_decide (status o' = Scheduled) && bool_decide (activate_at (request o') = now)
                          && (acceptance_sequence o' <? acceptance_sequence o)) (orders s)
    with ActivationOutOfOrder;;
  let i := intent (request o) in
  if match visible_state s (instrument i) now with
     | Some t => negb (Simulator.entry_allowed (state_new_order_entry t) (order_type i))
     | None => false
     end
  then fail_activation index FailedNewOrderEntryBlocked [] else
  match execution_policy (request o) with
  | VisibleDepthUntilExpiryV1 | AuctionCrossAtFirstMatchV1 =>
      _ ← update_order index (with_status ActiveOrder);
      mret (mk_activation id ActiveOrder (Activated id) [])
  | SettlementAtActivationV1 => settle_at_activation index control_sequence now
  | VisibleDepthAtActivationV1 => execute_at_activation index control_sequence now
  end.

Definition execute_passive_order (index : nat) (control_sequence : Z) (now : MatchTime.MatchTime) : M (option ScheduledActivation) :=
  o ← order_at index;
  let i := intent (request o) in
  let q := quantity i in
  s ← get;
  '(_, model, price_policy) ← lift (ok_or (configs s !! instrument i) Panicked);
  match visible_book s (instrument i) now with
  | None => mret None
  | Some b =>
      stale ← lift (max_stale_micros model);
      age ← lift (age_of b now);
      if (age <? 0) || (stale <? age) || negb (matching_enabled (visible_state s (instrument i) now)) then mret None else
      remaining_value ← lift (ok_or (to_u64 (Quantity.value q - filled_value o)) Panicked);
      requested ← lift (map_err (λ _, Returned InvalidQuantity) (Quantity.new remaining_value (Quantity.unit q)));
      sweep ← lift (sweep_book model price_policy b i requested);
      '(cumulative, xs) ← record_fills o control_sequence now (filled_value o) (Depth.fills sweep);
      _ ← update_order index (with_filled cumulative);
      filled_now ← lift (ok_or (to_u64 (cumulative - filled_value o)) Panicked);
      rest ← lift (ok_or (to_u64 (Quantity.value q - cumulative)) Panicked);
      '(st, fb) ← lift
        match res_ok (Quantity.new rest (Quantity.unit q)) with
        | None => Ok (FilledOrder, Filled (order_id o) q)
        | Some remaining =>
            if 0 <? filled_now then
              filled ← map_err (λ _, Panicked) (Quantity.new filled_now (Quantity.unit q));
              Ok (PartiallyFilledOrder, PartiallyFilled (order_id o) filled remaining)
            else Ok (Attempted, MatchAttempted (order_id o) None remaining)
        end;
      _ ← update_order index (with_status st);
      mret (Some (mk_activation (order_id o) st fb xs))
  end.

(** The orders a pass considers: their indices, in acceptance order. *)
Definition selected (select : ScheduledOrder → bool) (os : list ScheduledOrder) : list nat :=
  snd <$> sort_on fst ((λ '(i, o), ((acceptance_sequence o, order_id o), i)) <$> filter (λ '(i, o), select o) (imap pair os)).

Fixpoint passive_orders (control_sequence : Z) (now : MatchTime.MatchTime) (indices : list nat) : M (list ScheduledActivation) :=
  match indices with
  | [] => mret []
  | index :: indices =>
      r ← execute_passive_order index control_sequence now;
      rs ← passive_orders control_sequence now indices;
      mret (match r with Some r => r :: rs | None => rs end)
  end.
Definition evaluate_active (i : Instrument.InstrumentId) (control_sequence : Z) (now : MatchTime.MatchTime) : M (list ScheduledActivation) :=
  s ← get;
  passive_orders control_sequence now
    (selected (λ o, bool_decide (status o = ActiveOrder) && bool_decide (instrument (intent (request o)) = i)
                      && bool_decide (execution_policy (request o) = VisibleDepthUntilExpiryV1)) (orders s)).

Definition live_market_order (i : Instrument.InstrumentId) (o : ScheduledOrder) : bool :=
  bool_decide (instrument (intent (request o)) = i) && bool_decide (order_type (intent (request o)) = MarketOrder) &&
  match status o with ActiveOrder | PartiallyFilledOrder | Attempted => true | _ => false end.
Definition cancel_active_market_orders_for_volatility_interruption (i : Instrument.InstrumentId) : M (list OrderFeedback) :=
  s ← get;
  refuse bool_decide (configs s !! i = None) with InstrumentOutsideUniverse i;;
  _ ← modify (λ s, set_orders ((λ o, if live_market_order i o then with_status CancelledOrder o else o) <$> orders s) s);
  mret ((λ o, Cancelled (order_id o) VolatilityInterruption) <$> filter (λ o, live_market_order i o) (orders s)).

(** *** The auction print *)

Definition crosses (clearing_price : Price.Price) (i : OrderIntent) : bool :=
  match order_type i with
  | Limit limit_price =>
      match side i with
      | Buy => Price.lt clearing_price limit_price
      | Sell => Price.lt limit_price clearing_price
      end
  | MarketOrder => false
  end.

Definition auction_order (a : AuctionMatchEvidence) (index : nat) : M ScheduledActivation :=
  o ← order_at index;
  let r := request o in
  let q := quantity (intent r) in
  if negb (crosses (clearing_price a) (intent r)) then
    _ ← update_order index (with_status Attempted);
    mret (mk_activation (order_id o) Attempted (MatchAttempted (order_id o) None q) [])
  else
    _ ← modify (λ s, set_fills (fills s ++ [Fill.from_market_event (order_id o) (auction_ordinal a) (auction_match_time a)
                                              (side (intent r)) (clearing_price a) q]) s);
    x ← lift (map_err (λ e, Returned (FillFeedback e))
          (new_feedback (market_fill_id (order_id o) (auction_ordinal a) 1) (order_id o) (client_order_id r) (batch_id r)
             (auction_instrument a) (activate_at r) (auction_match_time a) (side (intent r)) 1 (clearing_price a) q q None));
    _ ← modify (λ s, set_execution_fills (all_execution_fills s ++ [x]) s);
    _ ← update_order index (with_filled (Quantity.value q));
    _ ← update_order index (with_status FilledOrder);
    mret (mk_activation (order_id o) FilledOrder (Filled (order_id o) q) [x]).
Fixpoint auction_orders (a : AuctionMatchEvidence) (indices : list nat) : M (list ScheduledActivation) :=
  match indices with
  | [] => mret []
  | index :: indices => r ← auction_order a index; rs ← auction_orders a indices; mret (r :: rs)
  end.
Definition evaluate_auction_match (a : AuctionMatchEvidence) : M (list ScheduledActivation) :=
  s ← get;
  match configs s !! auction_instrument a with
  | None => fail (InstrumentOutsideUniverse (auction_instrument a))
  | Some (_, _, price_policy) =>
      refuse negb (Price.accepts price_policy (clearing_price a)) with PriceNotAllowedByInstrumentProfile;;
      auction_orders a
        (selected (λ o, bool_decide (status o = ActiveOrder) && bool_decide (instrument (intent (request o)) = auction_instrument a)
                          && bool_decide (execution_policy (request o) = AuctionCrossAtFirstMatchV1)
                          && negb (before (auction_match_time a) (activate_at (request o)))) (orders s))
  end.
End hash.

End Scheduled.
