(* ===== verification/ScheduledLaws.v ===== *)
(** The control-driven simulator, one order at a time: the invariant, how
    operations are reasoned about, and what recording the fills of a sweep and
    activating an order do. *)
From S2P Require Import Prelude Order Text Numeric Quantity Calendar Book Identity Signal Codec Values Event MarketState.
From S2P Require Import Ordering Replay Orders Requests Fill Depth DepthLaws Simulator SimulatorLaws Scheduled.

Module ScheduledLaws.
Import Orders.Orders Requests.Requests Scheduled.Scheduled.
Import SimulatorLaws(time_of, cmp_not_lt, filled_for).

(** ** Reading an order *)

Lemma order_at_known {B} index (o : ScheduledOrder) (k : ScheduledOrder → M B) s Q E : orders s !! index = Some o →
  outcome (k o) s Q E → outcome (order_at index ≫= k) s Q E.
Proof. intros Ho Hk. apply outcome_bind. unfold order_at. step. apply outcome_lift. by rewrite Ho. Qed.

Lemma alter_known {A} (f : A → A) (l : list A) (i : nat) x : l !! i = Some x → alter f i l = <[i := f x]> l.
Proof.
  revert i. induction l as [|y l IH]; intros [|i] H; simplify_eq/=; [done|]. unfold alter in IH. simpl. f_equal. by apply IH.
Qed.

(** ** The invariant *)

Definition ordered (o : ScheduledOrder) : Z := Quantity.value (quantity (intent (request o))).

(** A status says how far an order is filled. *)
Definition sorder_wf (o : ScheduledOrder) : Prop :=
  Quantity.wf (quantity (intent (request o))) ∧
  match status o with
  | Scheduled | ActiveOrder | Attempted | ReplacedOrder => filled_value o = 0
  | PartiallyFilledOrder => 0 < filled_value o < ordered o
  | FilledOrder => filled_value o = ordered o
  | Failed _ | ExpiredOrder | CancelledOrder => 0 ≤ filled_value o < ordered o
  end.

Lemma sorder_wf_filled o : sorder_wf o → 0 ≤ filled_value o ≤ ordered o.
Proof. intros [Hq Hs]. unfold Quantity.wf in Hq. fold (ordered o) in Hq. destruct (status o); lia. Qed.

(** The states an order can take after it was activated. *)
Definition started (o : ScheduledOrder) : bool :=
  match status o with ActiveOrder | PartiallyFilledOrder | Attempted | FilledOrder | Failed _ => true | _ => false end.
Definition waiting (o : ScheduledOrder) : bool := match status o with Scheduled => true | _ => false end.

(** Of two orders, the earlier one was accepted first and, when both have the
    same activation time, does not wait while the later one is started. *)
Definition precedes (o o' : ScheduledOrder) : Prop :=
  acceptance_sequence o < acceptance_sequence o' ∧
  (activate_at (request o) = activate_at (request o') → started o' = true → waiting o = false).

(** A book that is consumed within its display. *)
Definition depth_of (b : VisibleBookState) : Depth.ConsumableDepth :=
  Depth.mk_depth (book (evidence b)) (consumed_bids b) (consumed_asks b).
Definition book_wf (b : VisibleBookState) : Prop := DepthLaws.depth_wf (depth_of b).

(** A recorded fill, its feedback, and the order they belong to. *)
Definition justified (o : ScheduledOrder) (f : Fill.FillRecord) (x : ExecutionFillFeedback) : Prop :=
  let r := request o in
  order_id o = Fill.order_id f ∧ side (intent r) = Fill.side f ∧
  Quantity.unit (quantity (intent r)) = Quantity.unit (Fill.quantity f) ∧
  Depth.is_marketable (Fill.price f) (side (intent r)) (order_type (intent r)) = true ∧
  time_of (activate_at r) ≤ time_of (Fill.match_time f) ∧
  fill_order_id x = order_id o ∧ fill_client_order_id x = client_order_id r ∧ fill_batch_id x = batch_id r ∧
  fill_instrument x = instrument (intent r) ∧ activation_time x = activate_at r ∧ fill_time x = Fill.match_time f ∧
  fill_side x = Fill.side f ∧ fill_price x = Fill.price f ∧ fill_quantity x = Fill.quantity f.

Definition filled_by (id : list Z) (l : list ScheduledOrder) : Z :=
  sum_of (λ o, if bool_decide (order_id o = id) then filled_value o else 0) l.

Definition same_order (o o' : ScheduledOrder) : Prop :=
  order_id o' = order_id o ∧ request o' = request o ∧ acceptance_sequence o' = acceptance_sequence o.

Lemma justified_same o o' f x : same_order o o' → justified o f x → justified o' f x.
Proof. unfold justified. by intros (-> & -> & _). Qed.

(** [now]: no order is active before its time. *)
Record sched_wf (now : Z) (s : ScheduledDepthSimulator) : Prop := {
  w_orders : Forall sorder_wf (orders s);
  w_configured : Forall (λ o, ∃ m p, configs s !! instrument (intent (request o)) = Some (Quantity.unit (quantity (intent (request o))), m, p)) (orders s);
  w_precedes : StronglySorted precedes (orders s);
  w_next : Forall (λ o, acceptance_sequence o < next_acceptance_sequence s) (orders s);
  w_active : Forall (λ o, status o = ActiveOrder → time_of (activate_at (request o)) ≤ now) (orders s);
  w_clients : ∀ c id, client_orders s !! c = Some id → ∃ o, o ∈ orders s ∧ order_id o = id;
  w_books : map_Forall (λ _, book_wf) (books s);
  w_accounts : ∀ id, filled_by id (orders s) = filled_for id (fills s);
  w_fills : Forall2 (λ f x, ∃ o, o ∈ orders s ∧ justified o f x) (fills s) (all_execution_fills s) }.

(** *** How an order moves *)

Definition moves (a b : ScheduledOrderStatus) : bool :=
  match a, b with
  | Scheduled, (ActiveOrder | FilledOrder | Failed _ | ExpiredOrder | ReplacedOrder | CancelledOrder) => true
  | ActiveOrder, (PartiallyFilledOrder | Attempted | FilledOrder | ExpiredOrder | CancelledOrder) => true
  | (PartiallyFilledOrder | Attempted), (ExpiredOrder | CancelledOrder) => true
  | _, _ => false
  end.
(** Its one execution is over. *)
Definition executed (o : ScheduledOrder) : bool := match status o with Scheduled | ActiveOrder => false | _ => true end.

Definition sorder_step (o o' : ScheduledOrder) : Prop :=
  same_order o o' ∧ (o' = o ∨ moves (status o) (status o') = true ∧ (executed o = true → filled_value o' = filled_value o)).

Definition sched_step (s s' : ScheduledDepthSimulator) : Prop :=
  configs s' = configs s ∧ Forall2 sorder_step (orders s) (take (length (orders s)) (orders s')) ∧
  (∃ fs, fills s' = fills s ++ fs) ∧ ∃ xs, all_execution_fills s' = all_execution_fills s ++ xs.

Lemma sorder_step_refl o : sorder_step o o.
Proof. split; [by repeat split|by left]. Qed.
Lemma sorder_steps_refl os : Forall2 sorder_step os os.
Proof. induction os; constructor; [apply sorder_step_refl|done]. Qed.
Lemma sched_step_orders_refl s s' : configs s' = configs s → orders s' = orders s → fills s' = fills s →
  all_execution_fills s' = all_execution_fills s → sched_step s s'.
Proof.
  intros Hc Ho Hf Hx. split_and!; [done| |exists []; by rewrite app_nil_r|exists []; by rewrite app_nil_r].
  rewrite Ho, take_ge by done. apply sorder_steps_refl.
Qed.

(** *** The invariant under a change of orders in place *)

Lemma waiting_step o o' : sorder_step o o' → waiting o = false → waiting o' = false.
Proof. unfold waiting. intros [_ [->|[H _]]]; [done|]. unfold moves in H. by destruct (status o), (status o'). Qed.

Lemma StronglySorted_pairs {A} (R : A → A → Prop) l :
  (∀ i j x y, (i < j)%nat → l !! i = Some x → l !! j = Some y → R x y) → StronglySorted R l.
Proof.
  induction l as [|z l IH]; intros H; constructor.
  - apply IH. intros i j x y Hij Hi Hj. apply (H (S i) (S j)); [lia|done..].
  - apply Forall_lookup. intros j y Hj. apply (H 0%nat (S j)); [lia|done..].
Qed.

Lemma precedes_update l l' : Forall2 sorder_step l l' → StronglySorted precedes l →
  (∀ i j a b b', (i < j)%nat → l !! i = Some a → l !! j = Some b → l' !! j = Some b' → started b' = true →
     started b = true ∨ (activate_at (request a) = activate_at (request b) → waiting a = false)) →
  StronglySorted precedes l'.
Proof.
  intros Hstep Hl Hs. apply StronglySorted_pairs. intros i j a' b' Hij Ha' Hb'.
  destruct (Forall2_lookup_r _ _ _ _ _ Hstep Ha') as (a & Ha & Haa).
  destruct (Forall2_lookup_r _ _ _ _ _ Hstep Hb') as (b & Hb & Hbb).
  pose proof (StronglySorted_lookup _ _ _ _ _ _ Hl Hij Ha Hb) as [Hseq Hfifo].
  destruct Haa as [(Hia & Hra & Hsa) Hma] eqn:E, Hbb as [(Hib & Hrb & Hsb) _]. split; [by rewrite Hsa, Hsb|].
  rewrite Hra, Hrb. intros Ht Hst. apply (waiting_step a); [by split|].
  destruct (Hs i j a b b' Hij Ha Hb Hb' Hst) as [H|H]; [by apply Hfifo|by apply H].
Qed.

Lemma in_place_wf now s os bs fs xs : sched_wf now s → Forall2 sorder_step (orders s) os → Forall sorder_wf os →
  StronglySorted precedes os → Forall (λ o, status o = ActiveOrder → time_of (activate_at (request o)) ≤ now) os →
  map_Forall (λ _, book_wf) bs → (∀ id, filled_by id os = filled_by id (orders s) + filled_for id fs) →
  Forall2 (λ f x, ∃ o, o ∈ orders s ∧ justified o f x) fs xs →
  let s' := mk_simulator (configs s) bs (trading_states s) os (client_orders s) (fills s ++ fs) (all_execution_fills s ++ xs)
              (next_acceptance_sequence s) in
  sched_wf now s' ∧ sched_step s s'.
Proof.
  intros [Ho Hc Hp Hn Ha Hcl Hb Hacc Hf] Hstep Hwf Hprec Hact Hbs Hfor Hjust. cbv zeta.
  assert (Hin : ∀ o, o ∈ orders s → ∃ o', o' ∈ os ∧ same_order o o').
  { intros o [i Hi]%list_elem_of_lookup_1. destruct (Forall2_lookup_l _ _ _ _ _ Hstep Hi) as (o' & Hi' & [Hsame _]).
    exists o'. split; [by eapply list_elem_of_lookup_2|done]. }
  assert (Hmove : ∀ f x, (∃ o, o ∈ orders s ∧ justified o f x) → ∃ o, o ∈ os ∧ justified o f x).
  { intros f x (o & Hoin & Hj). destruct (Hin o Hoin) as (o' & Ho' & Hsame). exists o'. split; [done|by eapply justified_same]. }
  split.
  - split; cbn [orders configs books client_orders fills all_execution_fills next_acceptance_sequence]; try done.
    + clear -Hc Hstep. induction Hstep as [|o o' l l' [(_ & Hr & _) _] _ IH]; [constructor|]. apply Forall_cons_iff in Hc as [H Hc].
      constructor; [by rewrite Hr|by apply IH].
    + clear -Hn Hstep. induction Hstep as [|o o' l l' [(_ & _ & Hs) _] _ IH]; [constructor|]. apply Forall_cons_iff in Hn as [H Hn].
      constructor; [by rewrite Hs|by apply IH].
    + intros c id Hid. destruct (Hcl c id Hid) as (o & Hoin & <-). destruct (Hin o Hoin) as (o' & Ho' & Hs & _). by exists o'.
    + intros id. rewrite Hfor, Hacc. unfold filled_for. by rewrite sum_of_app.
    + apply Forall2_app; eapply Forall2_impl; [apply Hmove|exact Hf|apply Hmove|exact Hjust].
  - split_and!; [done| |by exists fs|by exists xs]. cbn [orders]. rewrite (Forall2_length Hstep), take_ge by done. done.
Qed.

Lemma filled_by_insert id l k o o' : l !! k = Some o → order_id o' = order_id o →
  filled_by id (<[k := o']> l) = filled_by id l + if bool_decide (order_id o = id) then filled_value o' - filled_value o else 0.
Proof.
  unfold filled_by. revert k. induction l as [|y l IH]; intros [|k] Hk Hid; simplify_eq/=.
  - rewrite Hid. case_bool_decide; lia.
  - rewrite (IH k Hk Hid). lia.
Qed.

Lemma insert_steps l k o o' : l !! k = Some o → sorder_step o o' → Forall2 sorder_step l (<[k := o']> l).
Proof.
  intros Hk Hs. apply Forall2_same_length_lookup. rewrite length_insert. split; [done|].
  intros i a b Ha Hb. destruct (decide (i = k)) as [->|Hne].
  - rewrite list_lookup_insert_eq in Hb by (by eapply lookup_lt_Some). rewrite Hk in Ha. by simplify_eq.
  - rewrite list_lookup_insert_ne in Hb by done. rewrite Ha in Hb. simplify_eq. apply sorder_step_refl.
Qed.

(** One order moves, with what was filled of it. *)
Lemma turn_wf now s k o o' bs fs xs : sched_wf now s → orders s !! k = Some o → sorder_step o o' → sorder_wf o' →
  (status o' = ActiveOrder → time_of (activate_at (request o)) ≤ now) →
  (started o' = true → started o = true ∨
     ∀ i a, (i < k)%nat → orders s !! i = Some a → activate_at (request a) = activate_at (request o) → waiting a = false) →
  map_Forall (λ _, book_wf) bs →
  (∀ id, filled_for id fs = if bool_decide (order_id o = id) then filled_value o' - filled_value o else 0) →
  Forall2 (justified o) fs xs →
  let s' := mk_simulator (configs s) bs (trading_states s) (<[k := o']> (orders s)) (client_orders s) (fills s ++ fs)
              (all_execution_fills s ++ xs) (next_acceptance_sequence s) in
  sched_wf now s' ∧ sched_step s s'.
Proof.
  intros Hwf Hk Hstep Ho' Hact Hst Hbs Hfor Hjust. pose proof (insert_steps _ _ _ _ Hk Hstep) as Hsteps.
  apply in_place_wf; try done.
  - apply Forall_insert; [by destruct Hwf|done].
  - eapply precedes_update; [exact Hsteps|by destruct Hwf|]. intros i j a b b' Hij Ha Hb Hb' Hb's.
    destruct (decide (j = k)) as [->|Hne].
    + rewrite list_lookup_insert_eq in Hb' by (by eapply lookup_lt_Some). simplify_eq.
      destruct (Hst Hb's) as [H|H]; [by left|right]. by apply (H i).
    + rewrite list_lookup_insert_ne in Hb' by done. rewrite Hb in Hb'. simplify_eq. by left.
  - apply Forall_insert; [by destruct Hwf|]. intros H. destruct Hstep as [(_ & -> & _) _]. by apply Hact.
  - intros id. rewrite (filled_by_insert _ _ _ o), Hfor; [done|done|]. by destruct Hstep as [(-> & _) _].
  - eapply Forall2_impl; [|exact Hjust]. intros f x H. exists o. split; [by eapply list_elem_of_lookup_2|done].
Qed.

(** ** Recording the fills of a sweep *)

Lemma bind_run {A B} (m : M A) (f : A → M B) s x s' : m s = (Ok x, s') → (m ≫= f) s = f x s'.
Proof. unfold mbind, M_bind. by intros ->. Qed.
Lemma lift_run {A} (r : result Failure A) x (s : ScheduledDepthSimulator) : r = Ok x → lift r s = (Ok x, s).
Proof. by intros ->. Qed.

Lemma before_false a b : time_of b ≤ time_of a → before a b = false.
Proof. intros H. apply bool_decide_eq_false. intros Hlt. apply Z.compare_lt_iff in Hlt. change (time_of a < time_of b) in Hlt. lia. Qed.
Lemma before_true a b : before a b = true ↔ time_of a < time_of b.
Proof. unfold before, time_of. rewrite bool_decide_eq_true. apply Z.compare_lt_iff. Qed.

Lemma new_feedback_Ok id oid cid bid i t t' sd n p q c rest : 1 ≤ n ≤ 5 → time_of t ≤ time_of t' → Quantity.unit q = Quantity.unit c →
  match rest with Some r => Quantity.unit r = Quantity.unit q | None => True end → Quantity.value q ≤ Quantity.value c →
  new_feedback id oid cid bid i t t' sd n p q c rest = Ok (mk_feedback id oid cid bid i t t' sd n p q c rest).
Proof.
  intros Hn Ht Hu Hr Hv. unfold new_feedback. unfold in_range. rewrite !(proj2 (Z.leb_le _ _)) by lia. cbn [negb andb].
  fold (before t' t). rewrite before_false by done. rewrite bool_decide_false by tauto.
  rewrite (proj2 (Z.ltb_ge _ _)) by lia. destruct rest as [r|]; [|done]. by rewrite bool_decide_false by tauto.
Qed.

Definition swept_quantity (fs : list Depth.LevelFill) : Z := sum_of (λ f, Quantity.value (Depth.quantity f)) fs.

Section recording.
Context {B : Event.Blake3} (o : ScheduledOrder) (control_sequence : Z) (now : MatchTime.MatchTime).

Definition i_of : Instrument.InstrumentId := instrument (intent (request o)).
Definition side_of : OrderSide := side (intent (request o)).
Definition unit_of : Quantity.QuantityUnit := Quantity.unit (quantity (intent (request o))).

(** A fill of a sweep for this order. *)
Definition level_fill_for (f : Depth.LevelFill) : Prop :=
  1 ≤ Depth.level_index f ≤ 5 ∧ Quantity.wf (Depth.quantity f) ∧ Quantity.unit (Depth.quantity f) = unit_of ∧
  Depth.is_marketable (Depth.price f) side_of (order_type (intent (request o))) = true.

Definition fill_record (f : Depth.LevelFill) : Fill.FillRecord :=
  Fill.from_control (order_id o) control_sequence now side_of (Depth.price f) (Depth.quantity f).

Definition recorded_state (s : ScheduledDepthSimulator) (b : VisibleBookState) (fs : list Fill.FillRecord)
    (xs : list ExecutionFillFeedback) : ScheduledDepthSimulator :=
  mk_simulator (configs s) (<[i_of := b]> (books s)) (trading_states s) (orders s) (client_orders s) (fills s ++ fs)
    (all_execution_fills s ++ xs) (next_acceptance_sequence s).

Lemma new_quantity v u : 1 ≤ v → Quantity.new v u = Ok (Quantity.mk v u).
Proof. intros H. unfold Quantity.new. by rewrite (proj2 (Z.eqb_neq v 0)) by lia. Qed.

Hypothesis ordered_wf : Quantity.wf (quantity (intent (request o))).
Hypothesis timely : time_of (activate_at (request o)) ≤ time_of now.

Lemma consume_run s b f c' : books s !! i_of = Some b → Depth.consume_fill (consumed_on b side_of) f = Ok c' →
  consume i_of side_of f s = (Ok (), recorded_state s (set_consumed side_of c' b) [] []).
Proof.
  intros Hb Hc. unfold Depth.consume_fill in Hc. apply bind_Ok in Hc as (c & Hl & Hc). apply bind_Ok in Hc as (c2 & Hc2 & [= <-]).
  unfold consume. erewrite bind_run by done. erewrite bind_run by (apply lift_run; by rewrite Hb). cbv zeta.
  unfold ok_or in Hl, Hc2. destruct (consumed_on b side_of !! _) as [c0|] eqn:Hl' in Hl; [|done]. injection Hl as ->.
  erewrite bind_run by (apply lift_run; by rewrite Hl'). destruct (to_u64 _) as [c3|] eqn:Hc3 in Hc2; [|done]. injection Hc2 as ->.
  erewrite bind_run by (apply lift_run; by rewrite Hc3). unfold modify, recorded_state, set_books. by rewrite !app_nil_r.
Qed.

Lemma record_fill_run s b f cumulative c' : books s !! i_of = Some b → level_fill_for f →
  Depth.consume_fill (consumed_on b side_of) f = Ok c' → 0 ≤ cumulative →
  cumulative + Quantity.value (Depth.quantity f) ≤ ordered o →
  ∃ x, record_fill o control_sequence now cumulative f s =
    (Ok (cumulative + Quantity.value (Depth.quantity f), x), recorded_state s (set_consumed side_of c' b) [fill_record f] [x]) ∧
    justified o (fill_record f) x.
Proof.
  intros Hb (Hi & Hq & Hu & Hm) Hc H0 Hle. unfold Quantity.wf in *. fold (ordered o) in ordered_wf.
  assert (Hv : cumulative < cumulative + Quantity.value (Depth.quantity f)) by lia.
  set (v := cumulative + _) in *. unfold record_fill. fold i_of side_of unit_of.
  erewrite bind_run by (by apply consume_run). fold v.
  erewrite bind_run by (apply lift_run; unfold to_u64; rewrite checked_in by lia; done).
  erewrite bind_run by (apply lift_run; by rewrite new_quantity by lia).
  erewrite bind_run by (apply lift_run; unfold to_u64; fold (ordered o); rewrite checked_in by lia; done).
  set (rest := res_ok _). erewrite bind_run by done.
  assert (Hrest : match rest with Some r => Quantity.unit r = unit_of | None => True end).
  { unfold rest, Quantity.new. by destruct (_ =? 0). }
  eexists. erewrite bind_run; [|apply lift_run; rewrite new_feedback_Ok; [reflexivity|done|done|done| |simpl; lia]].
  2: { destruct rest; [congruence|done]. }
  split.
  - erewrite bind_run by done. unfold mret, M_ret, recorded_state, set_fills, set_execution_fills. cbn [fills all_execution_fills configs books trading_states orders client_orders next_acceptance_sequence].
    rewrite !app_nil_r. done.
  - split_and!; done.
Qed.

Lemma recorded_state_nothing s b : books s !! i_of = Some b → recorded_state s (set_consumed side_of (consumed_on b side_of) b) [] [] = s.
Proof.
  intros Hb. unfold recorded_state. rewrite !app_nil_r, insert_id; [by destruct s|]. rewrite Hb. f_equal. destruct b. by destruct side_of.
Qed.
Lemma set_consumed_twice b c c' : set_consumed side_of c' (set_consumed side_of c b) = set_consumed side_of c' b.
Proof. by destruct side_of. Qed.
Lemma consumed_on_set_same b c : consumed_on (set_consumed side_of c b) side_of = c.
Proof. by destruct side_of. Qed.

Lemma record_fills_run fs : ∀ s b cumulative c', books s !! i_of = Some b → Forall level_fill_for fs →
  try_fold Depth.consume_fill (consumed_on b side_of) fs = Ok c' → 0 ≤ cumulative → cumulative + swept_quantity fs ≤ ordered o →
  ∃ xs, record_fills o control_sequence now cumulative fs s =
    (Ok (cumulative + swept_quantity fs, xs), recorded_state s (set_consumed side_of c' b) (fill_record <$> fs) xs) ∧
    Forall2 (justified o) (fill_record <$> fs) xs.
Proof.
  induction fs as [|f fs IH]; intros s b cumulative c' Hb Hfs Hc H0 Hle.
  { injection Hc as <-. exists []. simpl. unfold swept_quantity. simpl. rewrite recorded_state_nothing, Z.add_0_r by done. by split; [|constructor]. }
  apply Forall_cons_iff in Hfs as [Hf Hfs]. cbn [try_fold] in Hc. apply bind_Ok in Hc as (c1 & Hc1 & Hc).
  unfold swept_quantity in *. rewrite sum_of_cons in *. pose proof Hf as (_ & Hq & _). unfold Quantity.wf in Hq.
  assert (Hnn : 0 ≤ sum_of (λ f, Quantity.value (Depth.quantity f)) fs).
  { apply sum_of_nonneg. eapply Forall_impl; [|exact Hfs]. intros g (_ & Hg & _). unfold Quantity.wf in Hg. cbv beta. lia. }
  destruct (record_fill_run s b f cumulative c1 Hb Hf Hc1 H0 ltac:(lia)) as (x & Hx & Hjx).
  destruct (IH (recorded_state s (set_consumed side_of c1 b) [fill_record f] [x]) (set_consumed side_of c1 b)
    (cumulative + Quantity.value (Depth.quantity f)) c') as (xs & Hxs & Hjxs); [| |by rewrite consumed_on_set_same|lia|lia|].
  { simpl. apply lookup_insert_eq. } { done. }
  exists (x :: xs). split; [|by constructor]. cbn [record_fills]. erewrite bind_run by exact Hx. cbn beta iota.
  erewrite bind_run by exact Hxs. cbn beta iota. unfold mret, M_ret. rewrite Z.add_assoc. f_equal. unfold recorded_state. simpl.
  by rewrite insert_insert_eq, set_consumed_twice, <-!app_assoc.
Qed.

(** What the visible levels offer to the order. *)
Definition offers (m : ScheduledDepthModel) (b : VisibleBookState) : list Z :=
  DepthLaws.offered side_of (order_type (intent (request o))) (adverse_price_delta m) (consumed_on b side_of)
    (take (Z.to_nat (depth_levels m)) (Depth.side_levels (book (evidence b)) side_of)).

(** What a sweep leaves to record. *)
Lemma sweep_book_fills m policy b requested sw : book_wf b → Quantity.wf requested → Quantity.unit requested = unit_of →
  sweep_book m policy b (intent (request o)) requested = Ok sw →
  Forall level_fill_for (Depth.fills sw) ∧ swept_quantity (Depth.fills sw) = Depth.filled_value sw ∧
  Depth.requested sw = requested ∧ 0 ≤ Depth.filled_value sw ≤ Quantity.value requested ∧
  Depth.filled_value sw = Z.min (Quantity.value requested) (DepthLaws.sum_list (offers m b)) ∧
  ∃ c', try_fold Depth.consume_fill (consumed_on b side_of) (Depth.fills sw) = Ok c' ∧ book_wf (set_consumed side_of c' b) ∧
    ∀ j c, consumed_on b side_of !! j = Some c → c' !! j = Some (c + DepthLaws.due (offers m b) (Quantity.value requested) j).
Proof.
  intros Hb Hq Hu Hs. unfold sweep_book in Hs. apply bind_Ok in Hs as (sw' & Hs & Hs'). destruct (existsb _ _); [done|].
  injection Hs' as ->. unfold map_err in Hs. destruct (Depth.sweep_marketable_depth_with_consumed _ _ _ _ _ _ _) as [sw'|] eqn:Hsw; [|done].
  injection Hs as ->. fold side_of in Hsw. unfold offers.
  replace (consumed_on b side_of) with (Depth.consumed_on (depth_of b) side_of) in * by (by destruct side_of).
  pose proof (DepthLaws.apply_sweep (depth_of b) side_of requested _ _ _ sw Hb Hq Hsw) as (d' & Hd & Hdwf & _ & Hcons).
  pose proof Hb as [Hwf Hc]. destruct (Hc side_of) as (Hlen & _ & Hroom).
  pose proof (DepthLaws.sweep_spec_lemma _ side_of requested (depth_levels m) (order_type (intent (request o)))
    (adverse_price_delta m) _ Hwf Hq Hlen Hroom) as Hspec. cbv zeta in Hspec.
  unfold depth_of at 1 in Hspec. cbn [Depth.book] in Hspec. rewrite Hsw in Hspec. destruct Hspec as (Hr & Hfv & Hnn & Hdue & Hfills & _).
  unfold Quantity.wf in Hq. split_and!; [|by apply (DepthLaws.sweep_total _ _ _ _ _ _ _ _ Hsw)|done|lia|lia|done|].
  - eapply Forall_impl; [|exact Hfills]. intros f (i & level & Hi & Hl & _ & Hm & Hqf & Huf & _). split_and!; [lia| |done|congruence|done].
    apply lookup_take_Some in Hl as [Hl _]. apply lookup_lt_Some in Hl. destruct (DepthLaws.visible_levels_wf _ side_of Hwf) as (_ & Hdepth & _).
    change (Depth.book (depth_of b)) with (book (evidence b)) in *. unfold Book.BOOK_DEPTH in Hdepth. lia.
  - unfold Depth.apply in Hd. apply bind_Ok in Hd as (c' & Hc' & [= <-]). exists c'. split; [done|].
    split; [unfold book_wf; by destruct side_of|]. intros j c Hj. rewrite <-Hdue. specialize (Hcons side_of j c Hj).
    by rewrite DepthLaws.consumed_on_set, !bool_decide_true in Hcons by done.
Qed.

End recording.

(** ** Activation *)

Definition turned (s : ScheduledDepthSimulator) (k : nat) (o' : ScheduledOrder) (bs : gmap Instrument.InstrumentId VisibleBookState)
    (fs : list Fill.FillRecord) (xs : list ExecutionFillFeedback) : ScheduledDepthSimulator :=
  mk_simulator (configs s) bs (trading_states s) (<[k := o']> (orders s)) (client_orders s) (fills s ++ fs)
    (all_execution_fills s ++ xs) (next_acceptance_sequence s).

Lemma turned_idle s k o' : set_orders (<[k := o']> (orders s)) s = turned s k o' (books s) [] [].
Proof. unfold turned, set_orders. by rewrite !app_nil_r. Qed.

Lemma update_order_run index f s o : orders s !! index = Some o →
  update_order index f s = (Ok (), set_orders (<[index := f o]> (orders s)) s).
Proof. intros Ho. unfold update_order, modify. by rewrite (alter_known _ _ _ o). Qed.

Lemma order_at_run index s o : orders s !! index = Some o → order_at index s = (Ok o, s).
Proof. intros Ho. unfold order_at. erewrite bind_run by done. by rewrite Ho. Qed.

Definition failure_feedback (o : ScheduledOrder) (reason : ExecutionFailureReason) : OrderFeedback :=
  ExecutionFailed (order_id o) reason (res_ok (Quantity.new (filled_value o) (unit_of o))) (Quantity.mk (ordered o - filled_value o) (unit_of o)).

Lemma fail_activation_run index reason xs s o : orders s !! index = Some o → 0 ≤ filled_value o < ordered o → ordered o ≤ u64_max →
  fail_activation index reason xs s =
  (Ok (mk_activation (order_id o) (Failed reason) (failure_feedback o reason) xs),
   set_orders (<[index := with_status (Failed reason) o]> (orders s)) s).
Proof.
  intros Ho Hlt Hmax. unfold fail_activation. erewrite bind_run by (by apply update_order_run).
  erewrite bind_run by (apply order_at_run; simpl; apply list_lookup_insert_eq; by eapply lookup_lt_Some). cbn [with_status request filled_value order_id status].
  fold (ordered o). fold (unit_of o). unfold to_u64. rewrite checked_in by lia. cbn [ok_or mbind result_bind]. rewrite (new_quantity (ordered o - filled_value o)) by lia.
  done.
Qed.

(** Why an activation fails before it looks at the levels. *)
Definition obstacle (s : ScheduledDepthSimulator) (m : ScheduledDepthModel) (o : ScheduledOrder) (now : MatchTime.MatchTime) :
    option ExecutionFailureReason :=
  match visible_book s (i_of o) now with
  | None => Some MissingVisibleDepth
  | Some b =>
      let age := time_of now - time_of (book_match_time (evidence b)) in
      if (age <? 0) || (max_stale_ms m * 1000 <? age) then Some StaleVisibleDepth else
      if negb (matching_enabled (visible_state s (i_of o) now)) then Some MatchingDisabled else
      if negb (entry_open (visible_state s (i_of o) now) (order_type (intent (request o)))) then Some FailedNewOrderEntryBlocked else
      None
  end.

Definition is_limit (o : ScheduledOrder) : bool := match order_type (intent (request o)) with Limit _ => true | MarketOrder => false end.

Lemma max_stale_micros_cases m : match max_stale_micros m with Ok v => v = max_stale_ms m * 1000 | Err e => e = Returned StalenessOverflow end.
Proof.
  unfold max_stale_micros. destruct (to_u64 _) as [v|] eqn:E; simpl; [|done]. apply checked_Some in E as [-> _].
  destruct (to_i64 _) as [v|] eqn:E; simpl; [|done]. by apply checked_Some in E as [-> _].
Qed.
Lemma age_of_cases b now : match age_of b now with
  | Ok v => v = time_of now - time_of (book_match_time (evidence b)) | Err e => e = Returned StalenessOverflow end.
Proof. unfold age_of. destruct (to_i64 _) as [v|] eqn:E; simpl; [|done]. by apply checked_Some in E as [-> _]. Qed.

Lemma visible_book_lookup s i now b : visible_book s i now = Some b → books s !! i = Some b.
Proof. unfold visible_book. destruct (books s !! i) as [b'|]; simpl; [|done]. by destruct (before _ _). Qed.

Lemma sweep_book_Err m policy b i q e : sweep_book m policy b i q = Err e → book_wf b → Quantity.wf q → e ≠ Panicked.
Proof.
  intros H Hb Hq. unfold sweep_book in H. apply bind_Err in H as [H|(sw & H1 & H)].
  - unfold map_err in H. destruct (Depth.sweep_marketable_depth_with_consumed _ _ _ _ _ _ _) as [|e'] eqn:Hsw; [done|]. injection H as <-.
    pose proof Hb as [Hwf Hc]. destruct (Hc (side i)) as (Hlen & _ & Hroom).
    replace (consumed_on b (side i)) with (Depth.consumed_on (depth_of b) (side i)) in Hsw by (by destruct (side i)).
    pose proof (DepthLaws.sweep_spec_lemma _ (side i) q (depth_levels m) (order_type i) (adverse_price_delta m) _ Hwf Hq Hlen Hroom) as Hspec.
    cbv zeta in Hspec. change (Depth.book (depth_of b)) with (book (evidence b)) in Hspec. rewrite Hsw in Hspec.
    by destruct Hspec as [->|[->|(u & _ & _ & ->)]].
  - destruct (existsb _ _); [by injection H as <-|done].
Qed.

Lemma set_orders_twice k o1 o2 s :
  set_orders (<[k := o2]> (orders (set_orders (<[k := o1]> (orders s)) s))) (set_orders (<[k := o1]> (orders s)) s) =
  set_orders (<[k := o2]> (orders s)) s.
Proof. unfold set_orders. simpl. by rewrite list_insert_insert_eq. Qed.
Lemma set_orders_lookup k o1 s o : orders s !! k = Some o → orders (set_orders (<[k := o1]> (orders s)) s) !! k = Some o1.
Proof. intros H. simpl. apply list_lookup_insert_eq. by eapply lookup_lt_Some. Qed.

Lemma filled_for_nothing id o v : (∀ w, w = 0 → v = w) → filled_for id [] = if bool_decide (order_id o = id) then v else 0.
Proof. intros H. rewrite (H 0) by done. by case_bool_decide. Qed.

Lemma filled_for_records {B : Event.Blake3} o cs now fs id :
  filled_for id (fill_record o cs now <$> fs) = if bool_decide (order_id o = id) then swept_quantity fs else 0.
Proof.
  unfold filled_for, swept_quantity. rewrite sum_of_fmap. induction fs as [|f fs IH]; [by case_bool_decide|]. rewrite !sum_of_cons, IH.
  simpl. by case_bool_decide.
Qed.

(** The status after an execution of [n]. *)
Definition settled_status (o : ScheduledOrder) (n : Z) : ScheduledOrderStatus :=
  if n =? ordered o then FilledOrder
  else Failed (if (n =? 0) && is_limit o then PriceNotMarketable else InsufficientVisibleDepth).

(** What executing [o], the order at [k], against the visible depth does. *)
Definition executes_at_depth (s s' : ScheduledDepthSimulator) (k : nat) (o : ScheduledOrder) (m : ScheduledDepthModel)
    (now : MatchTime.MatchTime) (a : ScheduledActivation) : Prop :=
  ∃ o' bs fs, s' = turned s k o' bs fs (execution_fills a) ∧ activated_status a = status o' ∧ activated_id a = order_id o ∧
  match obstacle s m o now with
  | Some reason => o' = with_status (Failed reason) o ∧ bs = books s ∧ fs = [] ∧ execution_fills a = []
  | None => ∃ b c', visible_book s (i_of o) now = Some b ∧
      let n := Z.min (ordered o) (DepthLaws.sum_list (offers o m b)) in
      0 ≤ n ∧ o' = with_status (settled_status o n) (with_filled n o) ∧ bs = <[i_of o := set_consumed (side_of o) c' b]> (books s) ∧
      (∀ id, filled_for id fs = if bool_decide (order_id o = id) then n else 0) ∧ Forall2 (justified o) fs (execution_fills a) ∧
      ∀ j c, consumed_on b (side_of o) !! j = Some c → c' !! j = Some (c + DepthLaws.due (offers o m b) (ordered o) j)
  end.

Section activation.
Context {B : Event.Blake3}.

Lemma fails_here s k o now reason xs : sched_wf (time_of now) s → orders s !! k = Some o → status o = Scheduled →
  outcome (fail_activation k reason xs) s (λ a s', s' = turned s k (with_status (Failed reason) o) (books s) [] [] ∧
    a = mk_activation (order_id o) (Failed reason) (failure_feedback o reason) xs) (λ _ _, False).
Proof.
  intros Hwf Hk Hs. pose proof (Forall_lookup_1 _ _ _ _ (w_orders _ _ Hwf) Hk) as [Hq Hf]. rewrite Hs in Hf. unfold Quantity.wf in Hq.
  fold (ordered o) in Hq. eapply outcome_run; [apply fail_activation_run; [done|lia..]|]. cbn beta iota. by rewrite turned_idle.
Qed.

(** The rest of [execute_at_activation], after the sweep. *)
Lemma execute_sweep_outcome k cs now s o m p b sw : sched_wf (time_of now) s → orders s !! k = Some o → status o = Scheduled →
  activate_at (request o) = now → books s !! i_of o = Some b → sweep_book m p b (intent (request o)) (quantity (intent (request o))) = Ok sw →
  outcome ('(cumulative, xs) ← record_fills o cs now 0 (Depth.fills sw);
      _ ← update_order k (with_filled cumulative);
      if Depth.is_complete sw then
        _ ← update_order k (with_status FilledOrder);
        mret (mk_activation (order_id o) FilledOrder (Filled (order_id o) (quantity (intent (request o)))) xs)
      else fail_activation k (if (cumulative =? 0) && is_limit o then PriceNotMarketable else InsufficientVisibleDepth) xs) s
    (λ a s', ∃ o' bs fs, s' = turned s k o' bs fs (execution_fills a) ∧ activated_status a = status o' ∧ activated_id a = order_id o ∧
      (∃ c', let n := Z.min (ordered o) (DepthLaws.sum_list (offers o m b)) in
        0 ≤ n ∧ o' = with_status (settled_status o n) (with_filled n o) ∧ bs = <[i_of o := set_consumed (side_of o) c' b]> (books s) ∧
        (∀ id, filled_for id fs = if bool_decide (order_id o = id) then n else 0) ∧ Forall2 (justified o) fs (execution_fills a) ∧
        ∀ j c, consumed_on b (side_of o) !! j = Some c → c' !! j = Some (c + DepthLaws.due (offers o m b) (ordered o) j)) ∧
      map_Forall (λ _, book_wf) bs) (λ _ _, False).
Proof.
  intros Hwf Hk Hs Hat Hb Hsw. pose proof (Forall_lookup_1 _ _ _ _ (w_orders _ _ Hwf) Hk) as [Hq Hf]. rewrite Hs in Hf.
  pose proof (map_Forall_lookup_1 _ _ _ _ (w_books _ _ Hwf) Hb) as Hbw.
  destruct (sweep_book_fills o m p b _ sw Hbw Hq eq_refl Hsw) as (Hfs & Htot & Hreq & Hrange & Hmin & c' & Hc' & Hbw' & Hdue).
  fold (ordered o) in *. pose proof Hq as Hq'. unfold Quantity.wf in Hq'. fold (ordered o) in Hq'.
  destruct (record_fills_run o cs now Hq ltac:(by rewrite Hat) (Depth.fills sw) s b 0 c' Hb Hfs Hc' ltac:(lia) ltac:(lia)) as (xs & Hrun & Hjust).
  apply outcome_bind. eapply outcome_run; [exact Hrun|]. cbn beta iota. rewrite Htot, Z.add_0_l. set (n := Depth.filled_value sw) in *.
  set (s1 := recorded_state _ _ _ _ _). assert (Hk1 : orders s1 !! k = Some o) by done.
  apply outcome_bind. eapply outcome_run; [by apply update_order_run|]. cbn beta iota.
  pose proof (set_orders_lookup k (with_filled n o) s1 o Hk1) as Hk2.
  assert (Hbs : map_Forall (λ _, book_wf) (<[i_of o := set_consumed (side_of o) c' b]> (books s))).
  { apply map_Forall_insert_2; [done|]. by apply w_books in Hwf. }
  unfold Depth.is_complete. rewrite Hreq. fold n. change (Quantity.value (quantity (intent (request o)))) with (ordered o).
  destruct (Z.eqb_spec n (ordered o)) as [Hn|Hn].
  - apply outcome_bind. eapply outcome_run; [by apply update_order_run|]. cbn beta iota. rewrite set_orders_twice. apply outcome_ret.
    exists (with_status FilledOrder (with_filled n o)), (<[i_of o := set_consumed (side_of o) c' b]> (books s)), (fill_record o cs now <$> Depth.fills sw). split_and!; [reflexivity|done|done| |done].
    exists c'. rewrite <-Hmin. fold n. unfold settled_status. rewrite (proj2 (Z.eqb_eq n (ordered o))) by done. split_and!; try done; [lia|].
    intros id. rewrite filled_for_records, Htot. done.
  - eapply outcome_run; [apply fail_activation_run; [exact Hk2|simpl; change (ordered (with_filled n o)) with (ordered o); lia..]|]. cbn beta iota.
    rewrite set_orders_twice. eexists (with_status (Failed _) (with_filled n o)), (<[i_of o := set_consumed (side_of o) c' b]> (books s)), (fill_record o cs now <$> Depth.fills sw). split_and!; [reflexivity|done|done| |done].
    exists c'. rewrite <-Hmin. fold n. unfold settled_status. rewrite (proj2 (Z.eqb_neq n (ordered o))) by done. split_and!; try done; [lia|].
    intros id. rewrite filled_for_records, Htot. done.
Qed.

Lemma execute_at_activation_outcome k cs now s o m p : sched_wf (time_of now) s → orders s !! k = Some o → status o = Scheduled →
  activate_at (request o) = now → configs s !! i_of o = Some (unit_of o, m, p) →
  outcome (execute_at_activation k cs now) s
    (λ a s', executes_at_depth s s' k o m now a ∧ map_Forall (λ _, book_wf) (books s')) (λ _ s', s' = s).
Proof.
  intros Hwf Hk Hs Hat Hc. pose proof (Forall_lookup_1 _ _ _ _ (w_orders _ _ Hwf) Hk) as [Hq Hf]. rewrite Hs in Hf.
  pose proof (w_books _ _ Hwf) as Hb.
  assert (Hfail : ∀ reason, obstacle s m o now = Some reason → outcome (fail_activation k reason []) s
    (λ a s', executes_at_depth s s' k o m now a ∧ map_Forall (λ _, book_wf) (books s')) (λ _ s', s' = s)).
  { intros reason Ho. eapply outcome_mono; [by apply (fails_here s k o now)| |done]. intros a s' [-> ->]. split; [|done].
    eexists _, _, _. cbn [execution_fills activated_status activated_id]. rewrite Ho. by split_and!. }
  unfold execute_at_activation. apply order_at_known with (o := o); [done|]. step. fold (i_of o). step. rewrite Hc. cbn [ok_or].
  destruct (obstacle s m o now) as [reason|] eqn:Hobs; pose proof Hobs as Hnone; unfold obstacle in Hobs, Hfail;
    destruct (visible_book s (i_of o) now) as [b|] eqn:Hvb; try (by apply Hfail); try done.
  all: step; pose proof (max_stale_micros_cases m) as Hstale; destruct (max_stale_micros m) as [stale|e]; [|by subst e]; subst stale.
  all: step; pose proof (age_of_cases b now) as Hage; destruct (age_of b now) as [age|e]; [|by subst e]; subst age.
  all: destruct (_ || _); try done; try (by apply Hfail).
  all: destruct (negb (matching_enabled _)); try done; try (by apply Hfail).
  all: destruct (negb (entry_open _ _)); try done; try (by apply Hfail).
  clear Hfail. pose proof (map_Forall_lookup_1 _ _ _ _ Hb (visible_book_lookup _ _ _ _ Hvb)) as Hbw.
  step. destruct (sweep_book m p b _ _) as [sw|e] eqn:Hsw.
  2: { pose proof (sweep_book_Err _ _ _ _ _ _ Hsw Hbw Hq). by destruct e. }
  eapply outcome_mono; [exact (execute_sweep_outcome k cs now s o m p b sw Hwf Hk Hs Hat (visible_book_lookup _ _ _ _ Hvb) Hsw)| |done].
  intros a s' (o' & bs & fs & H1 & H2 & H3 & (c' & H4) & H5). split; [|by rewrite H1]. exists o', bs, fs. split_and!; [done..|].
  rewrite Hnone. by exists b, c'.
Qed.
(** A fill of the whole order at a price. *)
Definition fills_whole (s s' : ScheduledDepthSimulator) (k : nat) (o : ScheduledOrder) (f : Fill.FillRecord) (a : ScheduledActivation) : Prop :=
  ∃ x, s' = turned s k (with_status FilledOrder (with_filled (ordered o) o)) (books s) [f] [x] ∧ justified o f x ∧
    Fill.quantity f = quantity (intent (request o)) ∧
    a = mk_activation (order_id o) FilledOrder (Filled (order_id o) (quantity (intent (request o)))) [x].

Lemma price_le_refl p : Price.le p p = true.
Proof. by apply Price.le_atoms. Qed.

Lemma settle_outcome k cs now s o : orders s !! k = Some o → activate_at (request o) = now →
  outcome (settle_at_activation k cs now) s
    (λ a s', ∃ f p, fills_whole s s' k o f a ∧ order_type (intent (request o)) = Limit p ∧ Fill.price f = p)
    (λ e s', s' = s ∧ e = InvalidSettlementOrderType).
Proof.
  intros Hk Hat. unfold settle_at_activation. apply order_at_known with (o := o); [done|]. cbv zeta.
  destruct (order_type (intent (request o))) as [|p] eqn:Ht; [by apply outcome_fail|]. step. step.
  rewrite new_feedback_Ok by (done || lia || by rewrite Hat). cbn [map_err]. step.
  set (f := Fill.from_control _ _ _ _ _ _). set (s1 := set_execution_fills _ _). assert (Hk1 : orders s1 !! k = Some o) by done.
  apply outcome_bind. eapply outcome_run; [by apply update_order_run|]. cbn beta iota.
  pose proof (set_orders_lookup k (with_filled (ordered o) o) s1 o Hk1) as Hk2.
  apply outcome_bind. eapply outcome_run; [exact (update_order_run _ _ _ _ Hk2)|]. cbn beta iota. rewrite set_orders_twice. apply outcome_ret.
  exists f, p. split_and!; [|done|done]. eexists. split_and!; [reflexivity| |done|done].
  split_and!; try done; [|by rewrite Hat]. rewrite Ht. simpl. rewrite price_le_refl. by destruct (side _).
Qed.

Lemma order_index_bind {A} id (f : nat → M A) s Q E : E UnknownOrder s →
  (∀ k o, orders s !! k = Some o → order_id o = id → outcome (f k) s Q E) → outcome (order_index id ≫= f) s Q E.
Proof.
  intros He Hf. apply outcome_bind. unfold order_index. step. apply outcome_lift.
  destruct (list_find _ (orders s)) as [[k o]|] eqn:Hl; simpl; [|done]. apply list_find_Some in Hl as (Hk & Ho & _). by apply (Hf k o).
Qed.

(** Orders are not accepted into a book whose trading state, as far as it is
    visible, bars them. *)
Definition barred (s : ScheduledDepthSimulator) (o : ScheduledOrder) (now : MatchTime.MatchTime) : bool :=
  match visible_state s (i_of o) now with
  | Some t => negb (Simulator.entry_allowed (state_new_order_entry t) (order_type (intent (request o))))
  | None => false
  end.

(** What an activation that is not an error does. *)
Definition activates (s s' : ScheduledDepthSimulator) (k : nat) (o : ScheduledOrder) (now : MatchTime.MatchTime) (a : ScheduledActivation) : Prop :=
  if barred s o now then
    s' = turned s k (with_status (Failed FailedNewOrderEntryBlocked) o) (books s) [] [] ∧
    a = mk_activation (order_id o) (Failed FailedNewOrderEntryBlocked) (failure_feedback o FailedNewOrderEntryBlocked) []
  else
    match execution_policy (request o) with
    | VisibleDepthUntilExpiryV1 | AuctionCrossAtFirstMatchV1 =>
        s' = turned s k (with_status ActiveOrder o) (books s) [] [] ∧ a = mk_activation (order_id o) ActiveOrder (Activated (order_id o)) []
    | SettlementAtActivationV1 => ∃ f p, fills_whole s s' k o f a ∧ order_type (intent (request o)) = Limit p ∧ Fill.price f = p
    | VisibleDepthAtActivationV1 => ∃ m p, configs s !! i_of o = Some (unit_of o, m, p) ∧ executes_at_depth s s' k o m now a ∧
        map_Forall (λ _, book_wf) (books s')
    end.

(** Whose turn an activation is. *)
Definition is_due (s : ScheduledDepthSimulator) (k : nat) (o : ScheduledOrder) (id : list Z) (now : MatchTime.MatchTime) : Prop :=
  orders s !! k = Some o ∧ order_id o = id ∧ status o = Scheduled ∧ activate_at (request o) = now ∧
  ∀ o', o' ∈ orders s → waiting o' = true → activate_at (request o') = now → acceptance_sequence o ≤ acceptance_sequence o'.

Lemma activate_outcome id cs now s : sched_wf (time_of now) s →
  outcome (activate id cs now) s (λ a s', ∃ k o, is_due s k o id now ∧ activates s s' k o now a) (λ _ s', s' = s).
Proof.
  intros Hwf. unfold activate. apply order_index_bind; [done|]. intros k o Hk Hid. apply order_at_known with (o := o); [done|].
  destruct (bool_decide (status o ≠ Scheduled)) eqn:Hs; [done|]. apply bool_decide_eq_false, dec_stable in Hs.
  destruct (bool_decide (activate_at _ ≠ now)) eqn:Hat; [done|]. apply bool_decide_eq_false, dec_stable in Hat.
  step. destruct (existsb _ _) eqn:Hearly; [done|].
  assert (Hdue : is_due s k o id now).
  { split_and!; try done. intros o' Ho' Hw Hat'. apply Z.nlt_ge. intros Hlt. rewrite existsb_false in Hearly.
    specialize (Hearly o' Ho'). cbv beta in Hearly. rewrite bool_decide_true in Hearly by (unfold waiting in Hw; by destruct (status o')).
    rewrite bool_decide_true, (proj2 (Z.ltb_lt _ _)) in Hearly by done. done. }
  cbv beta zeta. fold (i_of o). change (match visible_state s (i_of o) now with Some t => _ | None => _ end) with (barred s o now).
  assert (Hgoal : ∀ m : M ScheduledActivation, outcome m s (λ a s', activates s s' k o now a) (λ _ s', s' = s) →
    outcome m s (λ a s', ∃ k o, is_due s k o id now ∧ activates s s' k o now a) (λ _ s', s' = s)).
  { intros m Hm. eapply outcome_mono; [exact Hm| |done]. intros a s' Ha. by exists k, o. }
  apply Hgoal. clear Hgoal. unfold activates. destruct (barred s o now).
  { eapply outcome_mono; [by apply (fails_here s k o now)|done|done]. }
  destruct (execution_policy (request o)).
  - destruct (Forall_lookup_1 _ _ _ _ (w_configured _ _ Hwf) Hk) as (m & p & Hc). fold (i_of o) (unit_of o) in Hc.
    eapply outcome_mono; [by apply (execute_at_activation_outcome k cs now s o m p)| |done]. intros a s' [H1 H2]. by exists m, p.
  - apply outcome_bind. eapply outcome_run; [by apply update_order_run|]. cbn beta iota. rewrite turned_idle. apply outcome_ret. by rewrite Hid.
  - apply outcome_bind. eapply outcome_run; [by apply update_order_run|]. cbn beta iota. rewrite turned_idle. apply outcome_ret. by rewrite Hid.
  - eapply outcome_mono; [by apply (settle_outcome k cs now s o)|done|by intros e s' [-> _]].
Qed.

End activation.

Lemma due_first now s k o id t : sched_wf now s → is_due s k o id t →
  ∀ i a, (i < k)%nat → orders s !! i = Some a → activate_at (request a) = activate_at (request o) → waiting a = false.
Proof.
  intros Hwf (Hk & _ & _ & Hat & Hmin) i a Hi Ha Heq. destruct (waiting a) eqn:Hw; [|done].
  destruct (StronglySorted_lookup _ _ _ _ _ _ (w_precedes _ _ Hwf) Hi Ha Hk) as [Hlt _].
  specialize (Hmin a ltac:(by eapply list_elem_of_lookup_2) Hw ltac:(congruence)). lia.
Qed.

Lemma filled_for_nil id o : filled_for id [] = if bool_decide (order_id o = id) then 0 else 0.
Proof. by case_bool_decide. Qed.

Lemma settle_order_wf o n : Quantity.wf (quantity (intent (request o))) → 0 ≤ n ≤ ordered o →
  sorder_wf (with_status (settled_status o n) (with_filled n o)) ∧ moves Scheduled (settled_status o n) = true ∧
  moves ActiveOrder FilledOrder = true.
Proof.
  intros Hq Hn. unfold settled_status. destruct (Z.eqb_spec n (ordered o)); (split; [|by split]); (split; [done|]); simpl;
    [by change (ordered _) with (ordered o)|change (ordered _) with (ordered o); lia].
Qed.

Lemma due_first_start (P : Prop) b : P → b = true ∨ P.
Proof. by right. Qed.

Lemma activates_wf now s s' k o id a : sched_wf (time_of now) s → is_due s k o id now → activates s s' k o now a →
  sched_wf (time_of now) s' ∧ sched_step s s'.
Proof.
  intros Hwf Hdue Ha. pose proof (due_first _ _ _ _ _ _ Hwf Hdue) as Hfirst. destruct Hdue as (Hk & _ & Hs & Hat & _).
  pose proof (Forall_lookup_1 _ _ _ _ (w_orders _ _ Hwf) Hk) as [Hq Hf]. rewrite Hs in Hf.
  pose proof Hq as Hq'. unfold Quantity.wf in Hq'. fold (ordered o) in Hq'.
  assert (Hidle : ∀ st, moves Scheduled st = true → sorder_wf (with_status st o) →
    sched_wf (time_of now) (turned s k (with_status st o) (books s) [] []) ∧ sched_step s (turned s k (with_status st o) (books s) [] [])).
  { intros st Hm Hw. apply turn_wf with (o := o); try done.
    - split; [done|]. right. split; [by rewrite Hs|done].
    - intros _. by rewrite Hat.
    - intros _. by apply due_first_start.
    - by apply w_books in Hwf.
    - intros id'. simpl. rewrite Z.sub_diag. apply filled_for_nil. }
  assert (Hdone : ∀ n st bs fs xs, moves Scheduled st = true → st ≠ ActiveOrder → sorder_wf (with_status st (with_filled n o)) →
    map_Forall (λ _, book_wf) bs → (∀ id, filled_for id fs = if bool_decide (order_id o = id) then n else 0) → Forall2 (justified o) fs xs →
    sched_wf (time_of now) (turned s k (with_status st (with_filled n o)) bs fs xs) ∧
    sched_step s (turned s k (with_status st (with_filled n o)) bs fs xs)).
  { intros n st bs fs xs Hm Hne Hw Hbs Hfor Hj. apply turn_wf with (o := o); try done.
    - split; [done|]. right. split; [by rewrite Hs|]. unfold executed. by rewrite Hs.
    - intros _. by apply due_first_start.
    - intros id'. simpl. by rewrite Hfor, Hf, Z.sub_0_r. }
  unfold activates in Ha. destruct (barred s o now).
  { destruct Ha as [-> _]. apply Hidle; [done|]. split; [done|]. simpl. change (ordered (with_status _ o)) with (ordered o). lia. }
  destruct (execution_policy (request o)).
  - destruct Ha as (m & p & Hc & (o' & bs & fs & -> & _ & _ & Hcase) & Hbs). cbn [turned books] in Hbs.
    destruct (obstacle s m o now) as [reason|].
    + destruct Hcase as (-> & -> & -> & ->). apply Hidle; [done|]. split; [done|]. simpl. change (ordered (with_status _ o)) with (ordered o). lia.
    + destruct Hcase as (b & c' & Hvb & Hcase). cbv zeta in Hcase. set (n := Z.min _ _) in Hcase. destruct Hcase as (Hn & -> & _ & Hfor & Hj & _).
      destruct (settle_order_wf o n Hq) as (Hw & Hm & _); [lia|]. apply Hdone; try done. unfold settled_status. by destruct (_ =? _).
  - destruct Ha as [-> _]. by apply Hidle.
  - destruct Ha as [-> _]. by apply Hidle.
  - destruct Ha as (f & p & (x & -> & Hj & Hfq & _) & _). apply Hdone; try done.
    + by apply w_books in Hwf.
    + intros id'. unfold filled_for. simpl. rewrite Hfq. destruct Hj as (-> & _). change (Quantity.value (quantity (intent (request o)))) with (ordered o).
      case_bool_decide; lia.
    + by constructor.
Qed.

End ScheduledLaws.
