(* ===== verification/ScheduledRuns.v ===== *)
(** The theorems of a run of the control-driven simulator: the invariant of
    its orders, fills and books, the life of an order, and that no operation
    panics. *)
From S2P Require Import Prelude Order Text Numeric Quantity Calendar Book Identity Signal Codec Values Event MarketState.
From S2P Require Import Ordering Replay Orders Requests Fill Depth DepthLaws Simulator SimulatorLaws Scheduled ScheduledLaws Framing.

Module ScheduledRuns.
Import Orders.Orders Requests.Requests Scheduled.Scheduled ScheduledLaws.ScheduledLaws.
Import SimulatorLaws(time_of, cmp_not_lt, filled_for).

(** ** Several steps *)

Definition final (o : ScheduledOrder) : bool :=
  match status o with FilledOrder | Failed _ | ExpiredOrder | ReplacedOrder | CancelledOrder => true | _ => false end.

(** What may become of an order: its status follows [moves], it is executed
    at most once, and a final order stays as it is. *)
Definition leads (o o' : ScheduledOrder) : Prop :=
  same_order o o' ∧ rtc (λ a b, moves a b = true) (status o) (status o') ∧ filled_value o ≤ filled_value o' ∧
  (executed o = true → filled_value o' = filled_value o ∧ executed o' = true) ∧ (final o = true → o' = o).

Lemma leads_refl o : leads o o.
Proof. by split_and!. Qed.
Lemma all_leads_refl os : Forall2 leads os os.
Proof. induction os; constructor; [apply leads_refl|done]. Qed.
Lemma leads_trans o1 o2 o3 : leads o1 o2 → leads o2 o3 → leads o1 o3.
Proof.
  intros ((Hi & Hr & Ha) & Hm & Hf & He & Hfin) ((Hi' & Hr' & Ha') & Hm' & Hf' & He' & Hfin').
  split; [unfold same_order; split_and!; congruence|]. split_and!.
  - by etransitivity.
  - lia.
  - intros H. destruct (He H) as [E H2]. destruct (He' H2) as [E' H3]. split; [congruence|done].
  - intros H. pose proof (Hfin H) as ->. by apply Hfin'.
Qed.

Lemma sorder_step_leads o o' : sorder_wf o → sorder_wf o' → sorder_step o o' → leads o o'.
Proof.
  intros Hwf Hwf' [Hs [->|[Hm He]]]; [apply leads_refl|]. pose proof (sorder_wf_filled o' Hwf') as Hf'. split; [done|].
  split; [by apply rtc_once|]. destruct Hwf as [_ Hf]. unfold executed, final in *.
  destruct (status o) eqn:E; unfold moves in Hm; try done; (split_and!;
    [try lia; by rewrite He|try done; intros _; (split; [by apply He|by destruct (status o')])|done]).
Qed.

Definition sched_leads (s s' : ScheduledDepthSimulator) : Prop :=
  configs s' = configs s ∧ Forall2 leads (orders s) (take (length (orders s)) (orders s')) ∧
  (∃ fs, fills s' = fills s ++ fs) ∧ ∃ xs, all_execution_fills s' = all_execution_fills s ++ xs.

Lemma sched_step_leads now s s' : sched_wf now s → sched_wf now s' → sched_step s s' → sched_leads s s'.
Proof.
  intros Hwf Hwf' (Hc & Ho & Hfs & Hxs). split_and!; try done. pose proof (w_orders _ _ Hwf) as H1.
  pose proof (Forall_take _ (length (orders s)) _ (w_orders _ _ Hwf')) as H2. clear -H1 H2 Ho.
  induction Ho as [|o o' l l' Hoo _ IH]; [constructor|]. apply Forall_cons_iff in H1 as [H1 H1'], H2 as [H2 H2'].
  constructor; [by apply sorder_step_leads|by apply IH].
Qed.

Lemma sched_leads_refl s : sched_leads s s.
Proof.
  split_and!; [done| |exists []; by rewrite app_nil_r|exists []; by rewrite app_nil_r]. rewrite take_ge by done. apply all_leads_refl.
Qed.
Lemma sched_leads_trans s1 s2 s3 : sched_leads s1 s2 → sched_leads s2 s3 → sched_leads s1 s3.
Proof.
  intros (Hc & Ho & (fs & Hf) & xs & Hx) (Hc' & Ho' & (fs' & Hf') & xs' & Hx'). split_and!; [congruence| |exists (fs ++ fs')|exists (xs ++ xs')].
  - pose proof (Forall2_length Ho) as Hl. rewrite length_take in Hl.
    assert (Ho2 : Forall2 leads (take (length (orders s1)) (orders s2)) (take (length (orders s1)) (orders s3))).
    { apply (Forall2_take _ _ _ (length (orders s1))) in Ho'. by rewrite take_take, Nat.min_l in Ho' by lia. }
    clear -Ho Ho2. revert Ho2. generalize (take (length (orders s1)) (orders s3)). induction Ho as [|o o' l l' Hoo _ IH]; intros l3 H2;
      apply Forall2_cons_inv_l in H2 || apply Forall2_nil_inv_l in H2; [by subst|]. destruct H2 as (o3 & l4 & H3 & H4 & ->).
    constructor; [by eapply leads_trans|by apply IH].
  - by rewrite Hf', Hf, app_assoc.
  - by rewrite Hx', Hx, app_assoc.
Qed.

(** An operation keeps the invariant and only lets orders move on, even when
    it ends in an error. *)
Definition kept {A} (now : Z) (m : M A) (s : ScheduledDepthSimulator) : Prop :=
  outcome m s (λ _ s', sched_wf now s' ∧ sched_leads s s') (λ _ s', sched_wf now s' ∧ sched_leads s s').

Lemma kept_step {A} now (m : M A) s (Q : A → _ → Prop) : sched_wf now s → outcome m s Q (λ _ s', s' = s) →
  (∀ a s', Q a s' → sched_wf now s' ∧ sched_step s s') → kept now m s.
Proof.
  intros Hwf Hm HQ. eapply outcome_mono; [exact Hm| |].
  - intros a s' H. destruct (HQ a s' H) as [Hw Hs]. split; [done|by eapply sched_step_leads].
  - intros _ s' ->. split; [done|apply sched_leads_refl].
Qed.

Lemma kept_bind {A B} now (m : M A) (f : A → M B) s : kept now m s → (∀ x s', sched_wf now s' → sched_leads s s' → kept now (f x) s') →
  kept now (m ≫= f) s.
Proof.
  intros Hm Hf. apply outcome_bind. eapply outcome_mono; [exact Hm| |done]. intros x s' [Hw Hl].
  eapply outcome_mono; [by apply Hf| |]; intros ? s2 [Hw2 Hl2]; (split; [done|by eapply sched_leads_trans]).
Qed.

Lemma activate_kept {B : Event.Blake3} now id cs s : sched_wf (time_of now) s → kept (time_of now) (activate id cs now) s.
Proof.
  intros Hwf. eapply kept_step; [done|by apply activate_outcome|]. intros a s' (k & o & Hdue & Ha). by eapply activates_wf.
Qed.

(** ** Passive orders *)

(** The status after the one attempt of an active order, having filled [n]. *)
Definition attempted_status (o : ScheduledOrder) (n : Z) : ScheduledOrderStatus :=
  if n =? ordered o then FilledOrder else if n =? 0 then Attempted else PartiallyFilledOrder.

(** What an attempt that found a tradable book does. *)
Definition attempts (s s' : ScheduledDepthSimulator) (k : nat) (o : ScheduledOrder) (now : MatchTime.MatchTime) (a : ScheduledActivation) : Prop :=
  ∃ b m p c' fs, visible_book s (i_of o) now = Some b ∧ configs s !! i_of o = Some (unit_of o, m, p) ∧
    let n := Z.min (ordered o) (DepthLaws.sum_list (offers o m b)) in
    0 ≤ n ∧ s' = turned s k (with_status (attempted_status o n) (with_filled n o)) (<[i_of o := set_consumed (side_of o) c' b]> (books s)) fs
      (execution_fills a) ∧ activated_status a = attempted_status o n ∧ activated_id a = order_id o ∧ book_wf (set_consumed (side_of o) c' b) ∧
    (∀ id, filled_for id fs = if bool_decide (order_id o = id) then n else 0) ∧ Forall2 (justified o) fs (execution_fills a) ∧
    ∀ j c, consumed_on b (side_of o) !! j = Some c → c' !! j = Some (c + DepthLaws.due (offers o m b) (ordered o) j).

Lemma quantity_eta q : Quantity.mk (Quantity.value q) (Quantity.unit q) = q.
Proof. by destruct q. Qed.

Section passive.
Context {B : Event.Blake3}.

Lemma execute_passive_outcome k cs now s o : sched_wf (time_of now) s → orders s !! k = Some o → status o = ActiveOrder →
  outcome (execute_passive_order k cs now) s
    (λ r s', match r with None => s' = s | Some a => attempts s s' k o now a end) (λ _ s', s' = s).
Proof.
  intros Hwf Hk Hs. pose proof (Forall_lookup_1 _ _ _ _ (w_orders _ _ Hwf) Hk) as [Hq Hf]. rewrite Hs in Hf.
  pose proof (Forall_lookup_1 _ _ _ _ (w_active _ _ Hwf) Hk Hs) as Hat. pose proof Hq as Hq'. unfold Quantity.wf in Hq'. fold (ordered o) in Hq'.
  destruct (Forall_lookup_1 _ _ _ _ (w_configured _ _ Hwf) Hk) as (m & p & Hc). fold (i_of o) (unit_of o) in Hc.
  unfold execute_passive_order. apply order_at_known with (o := o); [done|]. step. fold (i_of o). step.
  destruct (configs s !! i_of o) as [[[u m'] p']|] eqn:Hc'; [|done]. injection Hc as -> -> ->. cbn [ok_or].
  destruct (visible_book s (i_of o) now) as [b|] eqn:Hvb; [|done].
  step. pose proof (max_stale_micros_cases m) as Hstale. destruct (max_stale_micros m) as [stale|e]; [|by subst e].
  step. pose proof (age_of_cases b now) as Hage. destruct (age_of b now) as [age|e]; [|by subst e].
  destruct (_ || _); [done|]. pose proof (visible_book_lookup _ _ _ _ Hvb) as Hb.
  pose proof (map_Forall_lookup_1 _ _ _ _ (w_books _ _ Hwf) Hb) as Hbw. step.
  rewrite Hf, Z.sub_0_r. fold (ordered o). unfold to_u64. rewrite checked_in by lia. cbn [ok_or]. step. rewrite new_quantity by lia. cbn [map_err].
  change (Quantity.mk (ordered o) (Quantity.unit (quantity (intent (request o))))) with
    (Quantity.mk (Quantity.value (quantity (intent (request o)))) (Quantity.unit (quantity (intent (request o))))). rewrite quantity_eta.
  step. destruct (sweep_book m p b _ _) as [sw|e] eqn:Hsw.
  2: { pose proof (sweep_book_Err _ _ _ _ _ _ Hsw Hbw Hq). by destruct e. }
  destruct (sweep_book_fills o m p b _ sw Hbw Hq eq_refl Hsw) as (Hfs & Htot & Hreq & Hrange & Hmin & c' & Hcc & Hbw' & Hdue).
  fold (ordered o) in *.
  destruct (record_fills_run o cs now Hq Hat (Depth.fills sw) s b 0 c' Hb Hfs Hcc ltac:(lia) ltac:(lia)) as (xs & Hrun & Hjust).
  apply outcome_bind. eapply outcome_run; [exact Hrun|]. cbn beta iota. rewrite Htot, Z.add_0_l. set (n := Depth.filled_value sw) in *.
  set (s1 := recorded_state _ _ _ _ _). assert (Hk1 : orders s1 !! k = Some o) by done.
  apply outcome_bind. eapply outcome_run; [by apply update_order_run|]. cbn beta iota.
  pose proof (set_orders_lookup k (with_filled n o) s1 o Hk1) as Hk2. set (s2 := set_orders _ _).
  rewrite Z.sub_0_r. step. unfold to_u64. rewrite checked_in by lia. cbn [ok_or]. step. rewrite checked_in by lia. cbn [ok_or]. step.
  assert (Hgoal : ∀ fb, outcome (_ ← update_order k (with_status (attempted_status o n)); mret (Some (mk_activation (order_id o) (attempted_status o n) fb xs))) s2
    (λ r s', match r with None => s' = s | Some a => attempts s s' k o now a end) (λ _ s', s' = s)).
  { intros fb. apply outcome_bind. eapply outcome_run; [exact (update_order_run _ _ _ _ Hk2)|]. cbn beta iota. unfold s2. rewrite set_orders_twice.
    apply outcome_ret. exists b, m, p, c', (fill_record o cs now <$> Depth.fills sw). rewrite <-Hmin. fold n. cbn [execution_fills activated_status activated_id].
    split_and!; try done; [lia|]. intros id. by rewrite filled_for_records, Htot. }
  unfold attempted_status in Hgoal. unfold Quantity.new. destruct (Z.eqb_spec n (ordered o)) as [Hn|Hn].
  - rewrite (proj2 (Z.eqb_eq (ordered o - n) 0)) by lia. cbn [res_ok]. apply Hgoal.
  - rewrite (proj2 (Z.eqb_neq (ordered o - n) 0)) by lia. cbn [res_ok]. destruct (Z.eqb_spec n 0) as [H0|H0].
    + rewrite (proj2 (Z.ltb_ge 0 n)) by lia. apply Hgoal.
    + rewrite (proj2 (Z.ltb_lt 0 n)) by lia. cbn [map_err mbind result_bind]. apply Hgoal.
Qed.

Lemma attempts_wf now s s' k o a : sched_wf (time_of now) s → orders s !! k = Some o → status o = ActiveOrder →
  attempts s s' k o now a → sched_wf (time_of now) s' ∧ sched_step s s'.
Proof.
  intros Hwf Hk Hs (b & m & p & c' & fs & Hvb & Hc & Hcase). cbv zeta in Hcase. set (n := Z.min _ _) in Hcase.
  destruct Hcase as (Hn & -> & _ & _ & Hbw & Hfor & Hj & _).
  pose proof (Forall_lookup_1 _ _ _ _ (w_orders _ _ Hwf) Hk) as [Hq Hf]. rewrite Hs in Hf.
  apply turn_wf with (o := o); try done.
  - split; [done|]. right. rewrite Hs. unfold executed. rewrite Hs. split; [|done]. simpl. unfold attempted_status. by repeat case_match.
  - split; [done|]. simpl. unfold attempted_status. change (ordered (with_status _ _)) with (ordered o).
    destruct (Z.eqb_spec n (ordered o)); [done|]. destruct (Z.eqb_spec n 0); [done|]. unfold n in *. lia.
  - simpl. unfold attempted_status. by repeat case_match.
  - intros _. left. unfold started. by rewrite Hs.
  - apply map_Forall_insert_2; [done|]. by apply w_books in Hwf.
  - intros id. simpl. by rewrite Hfor, Hf, Z.sub_0_r.
Qed.

End passive.

(** ** Passes over several orders *)

Lemma imap_pair_elem {A} (l : list A) i x : (i, x) ∈ imap pair l ↔ l !! i = Some x.
Proof.
  split.
  - intros [j Hj]%list_elem_of_lookup_1. rewrite list_lookup_imap in Hj. by destruct (l !! j) eqn:E; simplify_eq/=.
  - intros H. apply list_elem_of_lookup_2 with (i := i). by rewrite list_lookup_imap, H.
Qed.
Lemma imap_pair_NoDup {A} (l : list A) : NoDup (imap pair l).
Proof.
  apply NoDup_alt. intros i j [a x] Hi Hj. rewrite list_lookup_imap in Hi, Hj. destruct (l !! i), (l !! j); by simplify_eq/=.
Qed.

Lemma selected_spec select os : NoDup (selected select os) ∧
  ∀ k, k ∈ selected select os ↔ ∃ o, os !! k = Some o ∧ select o = true.
Proof.
  unfold selected. set (l := filter _ _). set (m := _ <$> l). pose proof (sort_on_perm fst m) as Hp.
  assert (Hm : snd <$> m = fst <$> l) by (unfold m; rewrite <-list_fmap_compose; apply list_fmap_ext; by intros ? [i o] _).
  assert (Hl : ∀ i o, (i, o) ∈ l ↔ os !! i = Some o ∧ select o = true).
  { intros i o. unfold l. rewrite list_elem_of_filter, imap_pair_elem, Is_true_true. tauto. }
  split.
  - rewrite Hp, Hm. apply NoDup_fmap_2_strong; [|apply list.NoDup_filter, imap_pair_NoDup].
    intros [i x] [j y] Hx Hy ?. simpl in *. subst j. apply Hl in Hx as [Hx _], Hy as [Hy _]. by simplify_eq.
  - intros k. rewrite Hp, Hm, list_elem_of_fmap. split.
    + intros ([i o] & -> & Ho). exists o. by apply Hl.
    + intros (o & Ho). exists (k, o). split; [done|]. by apply Hl.
Qed.

Definition active_at (s : ScheduledDepthSimulator) (P : ScheduledOrder → Prop) (k : nat) : Prop :=
  ∃ o, orders s !! k = Some o ∧ status o = ActiveOrder ∧ P o.

Lemma turned_others s k o' bs fs xs P ks : k ∉ ks → Forall (active_at s P) ks → Forall (active_at (turned s k o' bs fs xs) P) ks.
Proof.
  intros Hk H. apply Forall_forall. intros j Hj. rewrite Forall_forall in H. destruct (H j Hj) as (o & Ho & Hs). exists o. split; [|done].
  simpl. rewrite list_lookup_insert_ne; [done|]. intros ->. apply Hk. by apply list_elem_of_In.
Qed.

Section passes.
Context {B : Event.Blake3}.

Lemma passive_orders_kept cs now ks : ∀ s, sched_wf (time_of now) s → NoDup ks → Forall (active_at s (λ _, True)) ks →
  kept (time_of now) (passive_orders cs now ks) s.
Proof.
  induction ks as [|k ks IH]; intros s Hwf Hnd Hall; [split; [done|apply sched_leads_refl]|].
  apply list.NoDup_cons in Hnd as [Hk Hnd]. apply Forall_cons_iff in Hall as [(o & Ho & Hs & _) Hall].
  apply outcome_bind. eapply outcome_mono; [by apply (execute_passive_outcome k cs now s o)| |].
  2: { intros _ s' ->. split; [done|apply sched_leads_refl]. }
  intros r s' Hr. cbn beta.
  assert (H : sched_wf (time_of now) s' ∧ sched_leads s s' ∧ Forall (active_at s' (λ _, True)) ks).
  { destruct r as [a|]; [|subst s'; split_and!; [done|apply sched_leads_refl|done]].
    destruct (attempts_wf now s s' k o a Hwf Ho Hs Hr) as [Hw Hst]. split_and!; [done|by eapply sched_step_leads|].
    destruct Hr as (b & m & p & c' & fs & _ & _ & _ & -> & _). by apply turned_others. }
  destruct H as (Hw & Hl & Hall'). apply outcome_bind. eapply outcome_mono; [by apply IH| |].
  - intros rs s2 [Hw2 Hl2]. split; [done|by eapply sched_leads_trans].
  - intros _ s2 [Hw2 Hl2]. split; [done|by eapply sched_leads_trans].
Qed.

Lemma evaluate_active_kept i cs now s : sched_wf (time_of now) s → kept (time_of now) (evaluate_active i cs now) s.
Proof.
  intros Hwf. unfold evaluate_active. apply outcome_bind, outcome_get. destruct (selected_spec (λ o, bool_decide (status o = ActiveOrder) &&
    bool_decide (instrument (intent (request o)) = i) && bool_decide (execution_policy (request o) = VisibleDepthUntilExpiryV1)) (orders s)) as [Hnd Hin].
  apply passive_orders_kept; [done|done|]. apply Forall_forall. intros k Hk. apply list_elem_of_In, Hin in Hk as (o & Ho & Hsel).
  exists o. split_and!; [done| |done]. by destruct (bool_decide_reflect (status o = ActiveOrder)).
Qed.

(** What an auction print does to an order that takes part in it. *)
Definition crosses_or_misses (a : AuctionMatchEvidence) (s s' : ScheduledDepthSimulator) (k : nat) (o : ScheduledOrder) (r : ScheduledActivation) : Prop :=
  if crosses (clearing_price a) (intent (request o)) then
    ∃ f, fills_whole s s' k o f r ∧ Fill.price f = clearing_price a ∧ Fill.match_time f = auction_match_time a
  else
    s' = turned s k (with_status Attempted o) (books s) [] [] ∧
    r = mk_activation (order_id o) Attempted (MatchAttempted (order_id o) None (quantity (intent (request o)))) [].

Definition in_auction (a : AuctionMatchEvidence) (o : ScheduledOrder) : Prop :=
  instrument (intent (request o)) = auction_instrument a ∧ time_of (activate_at (request o)) ≤ time_of (auction_match_time a).

Lemma crosses_marketable p i : crosses p i = true → Depth.is_marketable p (side i) (order_type i) = true.
Proof.
  unfold crosses, Depth.is_marketable. destruct (order_type i) as [|l]; [done|].
  destruct (side i); intros H%Price.lt_atoms; apply Price.le_atoms; lia.
Qed.

Lemma auction_order_outcome a k s o : orders s !! k = Some o → in_auction a o →
  outcome (auction_order a k) s (λ r s', crosses_or_misses a s s' k o r) (λ _ _, False).
Proof.
  intros Hk [Hi Ht]. unfold auction_order, crosses_or_misses. apply order_at_known with (o := o); [done|]. cbv zeta.
  destruct (crosses _ _) eqn:Hc; cbn [negb].
  - step. rewrite new_feedback_Ok by (done || lia). cbn [map_err]. step. step.
    set (f := Fill.from_market_event _ _ _ _ _ _). set (s1 := set_execution_fills _ _). assert (Hk1 : orders s1 !! k = Some o) by done.
    apply outcome_bind. eapply outcome_run; [by apply update_order_run|]. cbn beta iota.
    pose proof (set_orders_lookup k (with_filled (ordered o) o) s1 o Hk1) as Hk2.
    apply outcome_bind. eapply outcome_run; [exact (update_order_run _ _ _ _ Hk2)|]. cbn beta iota. rewrite set_orders_twice. apply outcome_ret.
    exists f. split_and!; [|done|done]. eexists. split_and!; [reflexivity| |done|done].
    split_and!; try done. by apply crosses_marketable.
  - apply outcome_bind. eapply outcome_run; [by apply update_order_run|]. cbn beta iota. rewrite turned_idle. by apply outcome_ret.
Qed.

Lemma crosses_or_misses_wf now a s s' k o r : sched_wf now s → orders s !! k = Some o → status o = ActiveOrder →
  crosses_or_misses a s s' k o r → sched_wf now s' ∧ sched_step s s' ∧ ∃ o' bs fs xs, s' = turned s k o' bs fs xs.
Proof.
  intros Hwf Hk Hs Hr. pose proof (Forall_lookup_1 _ _ _ _ (w_orders _ _ Hwf) Hk) as [Hq Hf]. rewrite Hs in Hf.
  assert (Hstep : ∀ o', same_order o o' → moves ActiveOrder (status o') = true → sorder_step o o').
  { intros o' H1 H2. split; [done|]. right. rewrite Hs. split; [done|]. unfold executed. by rewrite Hs. }
  assert (Hboth : ∀ P Q R : Prop, P ∧ Q → R → P ∧ Q ∧ R) by tauto.
  unfold crosses_or_misses in Hr. destruct (crosses _ _).
  - destruct Hr as (f & (x & -> & Hj & Hfq & _) & _). apply Hboth; [|by eexists _, _, _, _].
    apply turn_wf with (o := o); try done; [by apply Hstep| | | |by constructor].
    + intros _. left. unfold started. by rewrite Hs.
    + by apply w_books in Hwf.
    + intros id. unfold filled_for. simpl. rewrite Hfq, Hf. destruct Hj as (-> & _). change (Quantity.value (quantity (intent (request o)))) with (ordered o).
      case_bool_decide; lia.
  - destruct Hr as [-> _]. apply Hboth; [|by eexists _, _, _, _]. apply turn_wf with (o := o); try done; [by apply Hstep| | |].
    + intros _. left. unfold started. by rewrite Hs.
    + by apply w_books in Hwf.
    + intros id. simpl. rewrite Z.sub_diag. apply filled_for_nil.
Qed.

Lemma auction_orders_kept now a ks : ∀ s, sched_wf now s → NoDup ks → Forall (active_at s (in_auction a)) ks →
  kept now (auction_orders a ks) s.
Proof.
  induction ks as [|k ks IH]; intros s Hwf Hnd Hall; [split; [done|apply sched_leads_refl]|].
  apply list.NoDup_cons in Hnd as [Hk Hnd]. apply Forall_cons_iff in Hall as [(o & Ho & Hs & Hin) Hall].
  apply outcome_bind. eapply outcome_mono; [by apply (auction_order_outcome a k s o)| |done]. intros r s' Hr. cbn beta.
  destruct (crosses_or_misses_wf now a s s' k o r Hwf Ho Hs Hr) as (Hw & Hst & o' & bs & fs & xs & Heq).
  pose proof (sched_step_leads _ _ _ Hwf Hw Hst) as Hl. apply outcome_bind. eapply outcome_mono; [apply IH; [done|done|]| |].
  - subst s'. by apply turned_others.
  - intros rs s2 [Hw2 Hl2]. split; [done|by eapply sched_leads_trans].
  - intros _ s2 [Hw2 Hl2]. split; [done|by eapply sched_leads_trans].
Qed.

Lemma evaluate_auction_kept now a s : sched_wf now s → kept now (evaluate_auction_match a) s.
Proof.
  intros Hwf. unfold evaluate_auction_match. apply outcome_bind, outcome_get.
  assert (Hidle : sched_wf now s ∧ sched_leads s s) by (split; [done|apply sched_leads_refl]).
  destruct (configs s !! auction_instrument a) as [[[u m] p]|]; [|done]. destruct (negb _); [done|].
  match goal with |- outcome (auction_orders a (selected ?sel _)) _ _ _ => destruct (selected_spec sel (orders s)) as [Hnd Hin] end.
  apply auction_orders_kept; [done|done|]. apply Forall_forall. intros k Hk. apply list_elem_of_In, Hin in Hk as (o & Ho & Hsel).
  exists o. rewrite !andb_true_iff, !bool_decide_eq_true in Hsel. destruct Hsel as (((H1 & H2) & _) & H4).
  split_and!; [done|done|]. split; [done|]. apply negb_true_iff in H4. apply Z.nlt_ge. intros Hlt. apply before_true in Hlt. congruence.
Qed.
End passes.

(** ** Publications, submissions and cancellations *)

Lemma idle now s : sched_wf now s → sched_wf now s ∧ sched_leads s s.
Proof. intros H. split; [done|apply sched_leads_refl]. Qed.

Lemma publish_state_kept now e s : sched_wf now s → kept now (publish_visible_trading_state e) s.
Proof.
  intros Hwf. unfold publish_visible_trading_state. apply outcome_bind, outcome_get.
  destruct (bool_decide _); [by apply outcome_fail, idle|].
  match goal with |- outcome (if ?c then _ else _) _ _ _ => destruct c end; [by apply outcome_fail, idle|].
  apply outcome_modify. split; [by destruct Hwf|]. destruct (sched_leads_refl s) as (H1 & H2 & H3 & H4). by split_and!.
Qed.

Lemma publish_book_kept now e s : Book.snapshot_wf (book e) → sched_wf now s → kept now (publish_visible_book e) s.
Proof.
  intros Hb Hwf. unfold publish_visible_book. apply outcome_bind, outcome_get. destruct (configs s !! _) as [[[u m] p]|]; [|by apply outcome_fail, idle].
  do 3 (match goal with |- outcome (if ?c then _ else _) _ _ _ => destruct c end; [by apply outcome_fail, idle|]).
  apply kept_bind; [by apply publish_state_kept|]. intros _ s' Hw _. apply outcome_modify. split.
  - destruct Hw as [? ? ? ? ? ? Hbs ? ?]. split; try done. cbn [set_books books]. apply map_Forall_insert_2; [|done].
    by apply (DepthLaws.new_depth_wf (book e)).
  - destruct (sched_leads_refl s') as (H1 & H2 & H3 & H4). by split_and!.
Qed.

(** A change of status that executes nothing. *)
Lemma retire_wf now s k o st : sched_wf now s → orders s !! k = Some o → moves (status o) st = true →
  st ∈ [ExpiredOrder; ReplacedOrder; CancelledOrder] →
  sched_wf now (turned s k (with_status st o) (books s) [] []) ∧ sched_step s (turned s k (with_status st o) (books s) [] []).
Proof.
  intros Hwf Hk Hm Hst. pose proof (Forall_lookup_1 _ _ _ _ (w_orders _ _ Hwf) Hk) as [Hq Hf]. pose proof Hq as Hq'.
  unfold Quantity.wf in Hq'. fold (ordered o) in Hq'.
  assert (Hcases : st = ExpiredOrder ∨ st = ReplacedOrder ∨ st = CancelledOrder) by (rewrite !elem_of_cons, elem_of_nil in Hst; tauto).
  apply turn_wf with (o := o); try done.
  - split; [done|]. by right.
  - split; [done|]. simpl. change (ordered (with_status st o)) with (ordered o).
    unfold moves in Hm. destruct Hcases as [->|[->| ->]], (status o); try done; lia.
  - simpl. intros ->. by destruct Hcases as [?|[?|?]].
  - unfold started. simpl. by destruct Hcases as [->|[->| ->]].
  - by apply w_books in Hwf.
  - intros id. simpl. rewrite Z.sub_diag. apply filled_for_nil.
Qed.

Lemma retire_kept {A} now s k o st (x : A) : sched_wf now s → orders s !! k = Some o → moves (status o) st = true →
  st ∈ [ExpiredOrder; ReplacedOrder; CancelledOrder] → kept now (_ ← update_order k (with_status st); mret x) s.
Proof.
  intros Hwf Hk Hm Hst. destruct (retire_wf now s k o st Hwf Hk Hm Hst) as [Hw Hs].
  apply outcome_bind. eapply outcome_run; [by apply update_order_run|]. cbn beta iota. rewrite turned_idle. apply outcome_ret.
  split; [done|by eapply sched_step_leads].
Qed.

Lemma cancel_before_activation_kept now c s : sched_wf now s → kept now (cancel_before_activation c) s.
Proof.
  intros Hwf. unfold cancel_before_activation. apply outcome_bind, outcome_get, outcome_bind, outcome_lift.
  destruct (client_orders s !! c) as [id|]; [|by apply idle]. cbn [ok_or]. apply order_index_bind; [by apply idle|].
  intros k o Hk _. apply order_at_known with (o := o); [done|]. destruct (bool_decide (status o ≠ Scheduled)) eqn:Hs; [by apply outcome_fail, idle|].
  apply bool_decide_eq_false, dec_stable in Hs. apply (retire_kept now s k o); [done|done|by rewrite Hs|set_solver].
Qed.

Lemma expire_kept now id t s : sched_wf now s → kept now (expire id t) s.
Proof.
  intros Hwf. unfold expire. apply order_index_bind; [by apply idle|]. intros k o Hk _. apply order_at_known with (o := o); [done|].
  destruct (match status o with Scheduled => _ | _ => _ end) eqn:Hs; [by apply outcome_fail, idle|].
  destruct (bool_decide _); [by apply outcome_fail, idle|]. apply (retire_kept now s k o); [done|done|by destruct (status o)|set_solver].
Qed.

Lemma cancel_market_kept now i s : sched_wf now s → kept now (cancel_active_market_orders_for_volatility_interruption i) s.
Proof.
  intros Hwf. unfold cancel_active_market_orders_for_volatility_interruption. apply outcome_bind, outcome_get.
  destruct (bool_decide _); [by apply outcome_fail, idle|]. apply outcome_bind, outcome_modify, outcome_ret.
  set (os := _ <$> orders s). pose proof (w_orders _ _ Hwf) as Ho.
  assert (Hlive : ∀ o, live_market_order i o = true → status o = ActiveOrder ∨ status o = PartiallyFilledOrder ∨ status o = Attempted).
  { intros o H. unfold live_market_order in H. apply andb_true_iff in H as [_ H]. destruct (status o); tauto || done. }
  assert (Hsteps : Forall2 sorder_step (orders s) os).
  { unfold os. clear -Hlive. induction (orders s) as [|o l IH]; [constructor|]. rewrite fmap_cons. constructor; [|done].
    destruct (live_market_order i o) eqn:E; [|apply sorder_step_refl]. split; [done|]. right. split; [|done].
    by destruct (Hlive o E) as [->|[->| ->]]. }
  destruct (in_place_wf now s os (books s) [] [] Hwf Hsteps) as [Hw Hst].
  - unfold os. apply Forall_fmap. eapply Forall_impl; [|exact Ho]. intros o [Hq Hf]. unfold compose. destruct (live_market_order i o) eqn:E; [|done].
    split; [done|]. unfold Quantity.wf in Hq. simpl. change (ordered (with_status _ o)) with (ordered o). fold (ordered o) in Hq.
    destruct (Hlive o E) as [Hs|[Hs|Hs]]; rewrite Hs in Hf; lia.
  - eapply precedes_update; [exact Hsteps|by destruct Hwf|]. intros j1 j2 a b b' _ _ Hb Hb' Hst'. left. unfold os in Hb'.
    rewrite list_lookup_fmap, Hb in Hb'. injection Hb' as <-. by destruct (live_market_order i b).
  - unfold os. apply Forall_fmap. eapply Forall_impl; [|exact (w_active _ _ Hwf)]. intros o Hact. unfold compose.
    by destruct (live_market_order i o).
  - by apply w_books in Hwf.
  - intros id. unfold filled_for, filled_by, os. rewrite sum_of_fmap. simpl. rewrite Z.add_0_r. unfold sum_of. clear.
    induction (orders s) as [|o l IH]; [done|]. cbn [foldr]. rewrite IH. f_equal. simpl. by destruct (live_market_order i o).
  - constructor.
  - unfold set_orders. rewrite !app_nil_r in Hw, Hst. split; [done|by eapply sched_step_leads].
Qed.

Lemma replace_previous_kept now c s : sched_wf now s → kept now (replace_previous c) s.
Proof.
  intros Hwf. unfold replace_previous. apply outcome_bind, outcome_get. destruct (client_orders s !! c) as [id|] eqn:Hc; [|by apply idle].
  apply outcome_bind, outcome_lift. destruct (list_find _ (orders s)) as [[k o]|] eqn:Hl; simpl.
  - apply list_find_Some in Hl as (Hk & _ & _). apply order_at_known with (o := o); [done|].
    destruct (bool_decide (status o ≠ Scheduled)) eqn:Hs; [by apply outcome_fail, idle|]. apply bool_decide_eq_false, dec_stable in Hs.
    apply (retire_kept now s k o); [done|done|by rewrite Hs|set_solver].
  - destruct (w_clients _ _ Hwf c id Hc) as (o & Ho & Hid). apply list_find_None in Hl. rewrite Forall_forall in Hl.
    by apply (Hl o); [apply list_elem_of_In|].
Qed.

Section submission.
Context {B : Event.Blake3}.

Lemma accepted_wf now s r id m p : sched_wf now s → Quantity.wf (quantity (intent r)) →
  configs s !! instrument (intent r) = Some (Quantity.unit (quantity (intent r)), m, p) →
  let s' := mk_simulator (configs s) (books s) (trading_states s) (orders s ++ [mk_order id r (next_acceptance_sequence s) 0 Scheduled])
              (<[client_order_id r := id]> (client_orders s)) (fills s) (all_execution_fills s) (next_acceptance_sequence s + 1) in
  sched_wf now s' ∧ sched_leads s s'.
Proof.
  intros Hwf Hq Hc. destruct Hwf as [Ho Hcf Hp Hn Ha Hcl Hb Hacc Hf]. cbv zeta. split.
  - split; cbn [orders configs client_orders books fills all_execution_fills next_acceptance_sequence].
    + apply Forall_app. split; [done|]. by apply Forall_singleton.
    + apply Forall_app. split; [done|]. apply Forall_singleton. by exists m, p.
    + apply StronglySorted_app_2; [|done|by repeat constructor]. intros a b Ha' ->%list_elem_of_singleton.
      split; [|done]. rewrite Forall_forall in Hn. apply Hn. by apply list_elem_of_In.
    + apply Forall_app. split; [|apply Forall_singleton; simpl; lia]. eapply Forall_impl; [|exact Hn]. intros o H. cbv beta in *. lia.
    + apply Forall_app. split; [done|]. by apply Forall_singleton.
    + intros c id' Hid. destruct (decide (c = client_order_id r)) as [->|Hne].
      * rewrite lookup_insert_eq in Hid. injection Hid as <-. eexists. split; [apply elem_of_app; right; by left|done].
      * rewrite lookup_insert_ne in Hid by done. destruct (Hcl c id' Hid) as (o & Hin & <-). exists o. split; [apply elem_of_app; by left|done].
    + done.
    + intros id'. rewrite <-Hacc. unfold filled_by. rewrite sum_of_snoc. cbn [order_id filled_value]. case_bool_decide; lia.
    + eapply Forall2_impl; [|exact Hf]. intros f x (o & Hin & Hj). exists o. split; [apply elem_of_app; by left|done].
  - split_and!; [done| |exists []; by rewrite app_nil_r|exists []; by rewrite app_nil_r]. cbn [orders]. rewrite take_app_length. apply all_leads_refl.
Qed.

Lemma submit_kept now sid c n r s : Quantity.wf (quantity (intent r)) → sched_wf now s → kept now (submit sid c n r) s.
Proof.
  intros Hq Hwf. unfold submit. destruct (before _ _); [by apply outcome_fail, idle|]. apply outcome_bind, outcome_get.
  destruct (configs s !! _) as [[[u m] p]|] eqn:Hc; [|by apply outcome_fail, idle].
  destruct (bool_decide (_ ≠ u)) eqn:Hu; [by apply outcome_fail, idle|]. apply bool_decide_eq_false, dec_stable in Hu. subst u.
  match goal with |- outcome (if ?c then _ else _) _ _ _ => destruct c end; [by apply outcome_fail, idle|].
  apply kept_bind; [by apply replace_previous_kept|]. intros fb s' Hw (Hcf & _).
  apply outcome_bind, outcome_lift. destruct (request_canonical_bytes r) as [canonical|e]; simpl; [|by apply idle].
  apply outcome_bind, outcome_get, outcome_bind, outcome_lift. destruct (to_u64 _) as [next|] eqn:Hnext; simpl; [|by apply idle].
  apply checked_Some in Hnext as [-> _]. apply outcome_bind, outcome_modify, outcome_ret. by eapply accepted_wf; [| |rewrite Hcf].
Qed.

(** ** A run *)

(** The operations of the simulator. *)
Inductive Op : Set :=
| PublishBook (e : VisibleBookEvidence)
| PublishState (e : VisibleTradingStateEvidence)
| Submit (strategy_id : list Z) (c : ScheduledSubmissionContext) (output_sequence : Z) (r : ScheduledOrderRequest)
| CancelBeforeActivation (client : list Z)
| Expire (id : list Z) (at_time : MatchTime.MatchTime)
| Activate (id : list Z) (control_sequence : Z) (at_time : MatchTime.MatchTime)
| EvaluateActive (i : Instrument.InstrumentId) (control_sequence : Z) (at_time : MatchTime.MatchTime)
| EvaluateAuction (a : AuctionMatchEvidence)
| CancelMarket (i : Instrument.InstrumentId).

Definition run_op (op : Op) (s : ScheduledDepthSimulator) : result Failure () * ScheduledDepthSimulator :=
  match op with
  | PublishBook e => publish_visible_book e s
  | PublishState e => publish_visible_trading_state e s
  | Submit sid c n r => (_ ← submit sid c n r; mret ()) s
  | CancelBeforeActivation c => (_ ← cancel_before_activation c; mret ()) s
  | Expire id t => (_ ← expire id t; mret ()) s
  | Activate id n t => (_ ← activate id n t; mret ()) s
  | EvaluateActive i n t => (_ ← evaluate_active i n t; mret ()) s
  | EvaluateAuction a => (_ ← evaluate_auction_match a; mret ()) s
  | CancelMarket i => (_ ← cancel_active_market_orders_for_volatility_interruption i; mret ()) s
  end.

(** What the types of the source guarantee of the arguments. *)
Definition op_wf (op : Op) : Prop :=
  match op with
  | PublishBook e => Book.snapshot_wf (book e)
  | Submit _ _ _ r => Quantity.wf (quantity (intent r))
  | _ => True
  end.
(** The control time an operation runs at, for the ones that execute orders. *)
Definition op_time (op : Op) : option Z :=
  match op with Activate _ _ t | EvaluateActive _ _ t => Some (time_of t) | _ => None end.

(** Runs whose control times do not go back; operations that end in an error
    are part of them, with the state the error leaves. *)
Inductive sched_run : Z → ScheduledDepthSimulator → Z → ScheduledDepthSimulator → Prop :=
| run_nil now s : sched_run now s now s
| run_step now s op r s' now' s'' : op_wf op → now ≤ default now (op_time op) → run_op op s = (r, s') →
    sched_run (default now (op_time op)) s' now' s'' → sched_run now s now' s''.

Lemma sched_wf_later now now' s : now ≤ now' → sched_wf now s → sched_wf now' s.
Proof. intros H []. split; try done. eapply Forall_impl; [|done]. intros o Ho Hs. cbv beta in *. specialize (Ho Hs). lia. Qed.

Lemma kept_done {A} now (m : M A) s : sched_wf now s → kept now m s → kept now (_ ← m; mret ()) s.
Proof. intros Hwf Hm. apply kept_bind; [done|]. intros x s' Hw _. by apply outcome_ret, idle. Qed.

Lemma run_op_kept now op s : op_wf op → now ≤ default now (op_time op) → sched_wf now s → kept (default now (op_time op)) (run_op op) s.
Proof.
  intros Ho Ht Hwf. apply (sched_wf_later _ _ _ Ht) in Hwf. destruct op; cbn [op_time default] in *; cbn in Ho.
  - by apply publish_book_kept.
  - by apply publish_state_kept.
  - apply kept_done; [done|]. by apply submit_kept.
  - apply kept_done; [done|]. by apply cancel_before_activation_kept.
  - apply kept_done; [done|]. by apply expire_kept.
  - apply kept_done; [done|]. by apply activate_kept.
  - apply kept_done; [done|]. by apply evaluate_active_kept.
  - apply kept_done; [done|]. by apply evaluate_auction_kept.
  - apply kept_done; [done|]. by apply cancel_market_kept.
Qed.

Lemma new_sched_wf cs s now : new cs = Ok s → sched_wf now s.
Proof.
  unfold new. intros H. apply bind_Ok in H as (indexed & _ & H). destruct (bool_decide _); [done|]. injection H as <-.
  split; cbn; try constructor; done.
Qed.

Lemma sched_run_kept now s now' s' : sched_run now s now' s' → sched_wf now s → sched_wf now' s' ∧ sched_leads s s'.
Proof.
  induction 1 as [now s|now s op r s' now' s'' Ho Ht Hr _ IH]; intros Hwf; [by apply idle|].
  pose proof (run_op_kept now op s Ho Ht Hwf) as Hk. unfold kept, outcome in Hk. rewrite Hr in Hk.
  assert (H : sched_wf (default now (op_time op)) s' ∧ sched_leads s s') by by destruct r as [x|[e|]].
  destruct H as [Hw Hl]. destruct (IH Hw) as [Hw2 Hl2]. split; [done|by eapply sched_leads_trans].
Qed.
(** A list of operations, whatever their outcomes. *)
Fixpoint run_ops (ops : list Op) (s : ScheduledDepthSimulator) : ScheduledDepthSimulator :=
  match ops with [] => s | op :: ops => run_ops ops (snd (run_op op s)) end.
Fixpoint times (now : Z) (ops : list Op) : option Z :=
  match ops with
  | [] => Some now
  | op :: ops => let t := default now (op_time op) in if now <=? t then times t ops else None
  end.
Lemma run_ops_run ops : ∀ now now' s, Forall op_wf ops → times now ops = Some now' → sched_run now s now' (run_ops ops s).
Proof.
  induction ops as [|op ops IH]; intros now now' s Hwf Ht; [injection Ht as <-; constructor|]. apply Forall_cons_iff in Hwf as [Ho Hwf].
  cbn [times] in Ht. cbv zeta in Ht. destruct (Z.leb_spec now (default now (op_time op))); [|done]. cbn [run_ops].
  destruct (run_op op s) as [r s'] eqn:E. eapply run_step; [done|done|exact E|]. by apply IH.
Qed.
End submission.

(** ** The theorems *)

(** C8: in every state of a run, whatever errors it met, a status says exactly
    how far an order is filled, the fills of an order add up to what it says,
    every fill and its feedback agree with an order on its side, within its
    limit and not before its activation, no level of a book is consumed beyond
    its display, and no order is started while an earlier one with the same
    activation time waits. *)
Theorem scheduled_invariant {B : Event.Blake3} cs s0 now now' s : new cs = Ok s0 → sched_run now s0 now' s →
  Forall sorder_wf (orders s) ∧ (∀ id, filled_by id (orders s) = filled_for id (fills s)) ∧
  Forall2 (λ f x, ∃ o, o ∈ orders s ∧ justified o f x) (fills s) (all_execution_fills s) ∧
  map_Forall (λ _, book_wf) (books s) ∧ StronglySorted precedes (orders s).
Proof.
  intros Hnew Hrun. destruct (sched_run_kept _ _ _ _ Hrun (new_sched_wf _ _ now Hnew)) as [[] _]. by split_and!.
Qed.

(** C38: no operation panics in a state a run reaches: the client index, the
    configured instruments, the levels of a book and the quantities left are
    always what the code expects. *)
Theorem scheduled_never_panics {B : Event.Blake3} cs s0 now now' s op : new cs = Ok s0 → sched_run now s0 now' s →
  op_wf op → now' ≤ default now' (op_time op) → fst (run_op op s) ≠ Err Panicked.
Proof.
  intros Hnew Hrun Ho Ht H. destruct (sched_run_kept _ _ _ _ Hrun (new_sched_wf _ _ now Hnew)) as [Hwf _].
  pose proof (run_op_kept now' op s Ho Ht Hwf) as Hk. unfold kept, outcome in Hk. destruct (run_op op s) as [r s']. simpl in H. by subst r.
Qed.

(** C39: over a run an order keeps its place, identity and request; its status
    follows the transitions of [moves]; its fills come from one execution,
    after which they never change; and a final order stays as it is. *)
Theorem order_lifecycle {B : Event.Blake3} now s now' s' i o : sched_wf now s → sched_run now s now' s' → orders s !! i = Some o →
  ∃ o', orders s' !! i = Some o' ∧ same_order o o' ∧ rtc (λ a b, moves a b = true) (status o) (status o') ∧
    filled_value o ≤ filled_value o' ∧ (executed o = true → filled_value o' = filled_value o) ∧ (final o = true → o' = o).
Proof.
  intros Hwf Hrun Ho. destruct (sched_run_kept _ _ _ _ Hrun Hwf) as [_ (_ & Hl & _)].
  destruct (Forall2_lookup_l _ _ _ _ _ Hl Ho) as (o' & Ho' & Hs & Hm & Hf & He & Hfin). apply lookup_take_Some in Ho' as [Ho' _].
  exists o'. split_and!; try done. intros H. by apply He.
Qed.

(** C9: an activation either is an error and changes nothing, or activates the
    one waiting order that is next: it is refused when its trading state bars
    it, becomes active, is settled at its price, or is executed at once
    against the levels it can see, each of which gives it exactly what price
    priority says. *)
Theorem activation_spec {B : Event.Blake3} id cs now s : sched_wf (time_of now) s →
  match activate id cs now s with
  | (Ok a, s') => ∃ k o, is_due s k o id now ∧ activates s s' k o now a
  | (Err e, s') => s' = s ∧ e ≠ Panicked
  end.
Proof.
  intros Hwf. pose proof (activate_outcome id cs now s Hwf) as H. unfold outcome in H. destruct (activate id cs now s) as [[a|[e|]] s'].
  - done.
  - by split.
  - done.
Qed.

(** *** Order identities *)

Lemma submit_identity {B : Event.Blake3} sid c n r s sub s' : submit sid c n r s = (Ok sub, s') →
  ∃ canonical, request_canonical_bytes r = Ok canonical ∧ submitted_id sub = Event.blake3 (order_identity sid c n canonical).
Proof.
  assert (H : outcome (submit sid c n r) s (λ sub _, ∃ canonical, request_canonical_bytes r = Ok canonical ∧
    submitted_id sub = Event.blake3 (order_identity sid c n canonical)) (λ _ _, True) ∨ fst (submit sid c n r s) = Err Panicked).
  { unfold outcome. destruct (submit sid c n r s) as [[x|[e|]] s1] eqn:E; [left|by left|by right].
    revert E. unfold submit. destruct (before _ _); [done|]. unfold mbind, M_bind, get at 1.
    destruct (configs s !! _) as [[[u m] p]|]; [|done]. destruct (bool_decide _); [done|].
    destruct (match order_type (intent r) with Limit _ => _ | MarketOrder => _ end); [done|].
    destruct (replace_previous _ s) as [[fb|e] s2]; [|done]. unfold lift at 1. destruct (request_canonical_bytes r) as [canonical|]; [|done].
    cbn [map_err]. unfold get. cbv zeta. unfold lift. destruct (to_u64 _); [|done]. cbn. intros [= <- _]. by exists canonical. }
  unfold outcome in H. intros E. rewrite E in H. by destruct H.
Qed.

(** Two scheduled orders of a strategy get the same identity only when they
    are the same request, output by the same callback at the same decision
    time and place, or the hash has a collision. *)
Theorem scheduled_ids_distinct {B : Event.Blake3} sid c1 c2 n1 n2 r1 r2 s1 s2 sub1 sub2 s1' s2' :
  length (origin_identity c1) = 32%nat → length (origin_identity c2) = 32%nat → MatchTime.wf (decision_time c1) → MatchTime.wf (decision_time c2) →
  is_u32 n1 → is_u32 n2 → Framing.request_wf r1 → Framing.request_wf r2 →
  submit sid c1 n1 r1 s1 = (Ok sub1, s1') → submit sid c2 n2 r2 s2 = (Ok sub2, s2') → submitted_id sub1 = submitted_id sub2 →
  (c1 = c2 ∧ n1 = n2 ∧ r1 = r2) ∨ ∃ x y : list Z, x ≠ y ∧ Event.blake3 x = Event.blake3 y.
Proof.
  intros Ho1 Ho2 Hd1 Hd2 Hn1 Hn2 Hr1 Hr2 (b1 & Hb1 & H1)%submit_identity (b2 & Hb2 & H2)%submit_identity Hid.
  destruct (decide (order_identity sid c1 n1 b1 = order_identity sid c2 n2 b2)) as [E|Hne].
  - left. unfold order_identity in E. apply (inj (app _)) in E. apply (inj (app _)) in E.
    apply app_inj_1 in E as [Ho E]; [|congruence]. apply app_inj_1 in E as [Hd E]; [|by rewrite !length_be_bytes].
    apply app_inj_1 in E as [Hn E]; [|by rewrite !length_be_bytes]. subst b2.
    apply be_bytes_inj in Hn; [|unfold_ints; simpl; lia..]. pose proof (Framing.request_identifies_lemma _ _ _ Hr1 Hr2 Hb1 Hb2) as ->.
    unfold MatchTime.wf in *. apply (f_equal from_be_signed) in Hd. rewrite !from_be_signed_be_bytes in Hd by (unfold_ints; simpl; lia).
    split_and!; [|done|done]. destruct c1 as [o1 [d1]], c2 as [o2 [d2]]. by simplify_eq/=.
  - right. exists (order_identity sid c1 n1 b1), (order_identity sid c2 n2 b2). split; [done|]. by rewrite <-H1, <-H2.
Qed.

(** ** A sample run *)

Definition sample_model : ScheduledDepthModel := mk_depth_model 5 1 Decimal.ZERO.
Definition sample_config : ScheduledInstrumentConfig := new_config DepthLaws.sample_instrument Quantity.TradingUnit sample_model.
Definition sample_time (t : Z) : MatchTime.MatchTime := MatchTime.from_unix_microseconds t.
Definition sample_evidence : VisibleBookEvidence :=
  mk_book_evidence DepthLaws.sample_instrument DepthLaws.sample_book (sample_time 1500) (sample_time 1600)
    (Orders.Trading.Enabled Annotations.Continuous) Orders.Trading.Allowed.
Definition sample_request (client : string) (q : Z) (p : ScheduledExecutionPolicy) : ScheduledOrderRequest :=
  mk_request (bytes_of client) None (sample_time 2000) (Some (sample_time 9000))
    (new_intent DepthLaws.sample_instrument Buy (DepthLaws.sample_quantity q) MarketOrder) p.
Definition sample_context : ScheduledSubmissionContext := new_submission_context (replicate 32 7) (sample_time 1000).
#[local] Instance sample_hash : Event.Blake3 := λ b, b.
Definition sample_start : ScheduledDepthSimulator :=
  match new [sample_config] with Ok s => s | Err _ => mk_simulator ∅ ∅ ∅ [] ∅ [] [] 1 end.
Definition sample_submissions : list Op :=
  [PublishBook sample_evidence;
   Submit (bytes_of "s") sample_context 0 (sample_request "a" 7 VisibleDepthAtActivationV1);
   Submit (bytes_of "s") sample_context 1 (sample_request "b" 2 VisibleDepthUntilExpiryV1)].
Definition sample_submitted : ScheduledDepthSimulator := run_ops sample_submissions sample_start.
Definition sample_id (k : nat) : list Z := default [] (order_id <$> orders sample_submitted !! k).
Definition sample_ops : list Op :=
  [Activate (sample_id 0) 1 (sample_time 2000); Activate (sample_id 1) 2 (sample_time 2000);
   EvaluateActive DepthLaws.sample_instrument 3 (sample_time 2100)].
Definition sample_end : ScheduledDepthSimulator := run_ops sample_ops sample_submitted.

Lemma sample_new : new [sample_config] = Ok sample_start.
Proof. by vm_compute. Qed.
Lemma sample_submissions_run : sched_run 1000 sample_start 1000 sample_submitted.
Proof. apply run_ops_run; [|done]. repeat (apply Forall_cons_iff; split); [apply DepthLaws.sample_book_wf|done..|constructor]. Qed.
Lemma sample_ops_run : sched_run 1000 sample_submitted 2100 sample_end.
Proof. apply run_ops_run; [|done]. repeat (apply Forall_cons_iff; split); [done..|constructor]. Qed.
Lemma sched_run_trans {B : Event.Blake3} n1 s1 n2 s2 n3 s3 : sched_run n1 s1 n2 s2 → sched_run n2 s2 n3 s3 → sched_run n1 s1 n3 s3.
Proof. induction 1; [done|]. intros. eapply run_step; eauto. Qed.
Lemma sample_run : sched_run 1000 sample_start 2100 sample_end.
Proof. eapply sched_run_trans; [apply sample_submissions_run|apply sample_ops_run]. Qed.

Lemma scheduled_invariant_witness : Forall sorder_wf (orders sample_end) ∧
  (λ o, (status o, filled_value o)) <$> orders sample_end = [(FilledOrder, 7); (PartiallyFilledOrder, 1)].
Proof.
  destruct (scheduled_invariant [sample_config] sample_start 1000 2100 sample_end sample_new sample_run) as (H & _).
  split; [exact H|by vm_compute].
Defined.

Lemma scheduled_never_panics_witness : fst (run_op (Expire (sample_id 1) (sample_time 9000)) sample_end) = Ok () ∧
  fst (run_op (Expire (sample_id 1) (sample_time 9000)) sample_end) ≠ Err Panicked.
Proof.
  split; [by vm_compute|].
  apply (scheduled_never_panics [sample_config] sample_start 1000 2100 sample_end _ sample_new sample_run); done.
Defined.

Lemma order_lifecycle_witness : ∃ o o', orders sample_submitted !! 1%nat = Some o ∧ orders sample_end !! 1%nat = Some o' ∧
  same_order o o' ∧ rtc (λ a b, moves a b = true) (status o) (status o').
Proof.
  destruct (orders sample_submitted !! 1%nat) as [o|] eqn:Ho; [|by vm_compute in Ho].
  destruct (order_lifecycle 1000 sample_submitted 2100 sample_end 1 o) as (o' & Ho' & Hs & Hm & _);
    [by apply (sched_run_kept _ _ _ _ sample_submissions_run (new_sched_wf _ _ 1000 sample_new))|apply sample_ops_run|exact Ho|].
  exists o, o'. by split_and!.
Defined.

Lemma activation_spec_witness : ∃ a s', activate (sample_id 0) 1 (sample_time 2000) sample_submitted = (Ok a, s') ∧
  activated_status a = FilledOrder ∧
  ∃ k o, is_due sample_submitted k o (sample_id 0) (sample_time 2000) ∧ activates sample_submitted s' k o (sample_time 2000) a.
Proof.
  assert (Hwf : sched_wf 2000 sample_submitted).
  { apply (sched_wf_later 1000); [done|]. by apply (sched_run_kept _ _ _ _ sample_submissions_run (new_sched_wf _ _ 1000 sample_new)). }
  pose proof (activation_spec (sample_id 0) 1 (sample_time 2000) sample_submitted Hwf) as H.
  assert (Hst : match fst (activate (sample_id 0) 1 (sample_time 2000) sample_submitted) with Ok a => activated_status a = FilledOrder | Err _ => False end)
    by by vm_compute.
  destruct (activate _ _ _ _) as [[a|e] s']; [|done]. exists a, s'. by split_and!.
Defined.

Lemma scheduled_ids_distinct_witness : ∃ sub s', submit (bytes_of "s") sample_context 0 (sample_request "c" 1 VisibleDepthAtActivationV1) sample_end = (Ok sub, s') ∧
  ((sample_context = sample_context ∧ 0 = 0 ∧ sample_request "c" 1 VisibleDepthAtActivationV1 = sample_request "c" 1 VisibleDepthAtActivationV1) ∨
   ∃ x y : list Z, x ≠ y ∧ Event.blake3 x = Event.blake3 y).
Proof.
  assert (Hd : MatchTime.wf (decision_time sample_context)) by done. assert (Hn : is_u32 0) by done.
  assert (Hr : Framing.request_wf (sample_request "c" 1 VisibleDepthAtActivationV1)) by done.
  assert (Hok : is_ok (fst (submit (bytes_of "s") sample_context 0 (sample_request "c" 1 VisibleDepthAtActivationV1) sample_end)) = true) by by vm_compute.
  destruct (submit _ _ _ _ _) as [[sub|] s'] eqn:E; [|done]. exists sub, s'. split; [exact eq_refl|].
  exact (scheduled_ids_distinct (bytes_of "s") sample_context sample_context 0 0 (sample_request "c" 1 VisibleDepthAtActivationV1)
    (sample_request "c" 1 VisibleDepthAtActivationV1) sample_end sample_end sub sub s' s' eq_refl eq_refl Hd Hd Hn Hn Hr Hr E E eq_refl).
Defined.

End ScheduledRuns.
