(* ===== verification/Output.v ===== *)
(** What a strategy is and what it emits (strategy-api: identity.rs, timer.rs,
    output.rs): identities and declarations, timers, the sink a callback
    writes to and the records and canonical bytes it becomes. *)
From S2P Require Import Prelude Order Text Numeric Quantity Calendar Book Identity Codec Values Event Replay Orders Fill Accounting Requests.

Module Output.
Import Writer(push, extend, append_bytes, each, CanonicalEncodingError) Orders(OrderIntent) Requests(ScheduledOrderRequest).

(** ** Identity and declaration

    A string is the list of its UTF-8 bytes. *)

Inductive DeclarationError : Set :=
| EmptyStrategyId | EmptyStrategyVersion | EmptyBinaryIdentityAlgorithm | EmptyBinaryIdentityDigest | EmptyUniverse | EmptySessions.

Record BinaryIdentity : Set := mk_binary { algorithm : list Z; digest : list Z }.
Definition new_binary (algorithm digest : list Z) : result DeclarationError BinaryIdentity :=
  reject zlen algorithm =? 0 with EmptyBinaryIdentityAlgorithm;;
  reject zlen digest =? 0 with EmptyBinaryIdentityDigest;;
  Ok (mk_binary algorithm digest).

Record StrategyIdentity : Set := mk_identity { strategy_id : list Z; strategy_version : list Z; binary_identity : BinaryIdentity }.
Definition new_identity (strategy_id strategy_version : list Z) (binary_identity : BinaryIdentity) : result DeclarationError StrategyIdentity :=
  reject zlen strategy_id =? 0 with EmptyStrategyId;;
  reject zlen strategy_version =? 0 with EmptyStrategyVersion;;
  Ok (mk_identity strategy_id strategy_version binary_identity).

Section params.
Context {B : Event.Blake3}.

(** [CanonicalParamsChecksum::for_empty_params]; it expects the frame to be
    short enough, and it is. *)
Definition for_empty_params : result CanonicalEncodingError (list Z) :=
  bytes ← (extend (bytes_of "OSSP") ▷ extend (be_bytes 2 1) ▷ append_bytes []) [];
  Ok (Event.blake3 bytes).
End params.

#[global] Instance SessionKind_eq_dec : EqDecision Trading.SessionKind.
Proof. solve_decision. Defined.
Definition kind_discriminant (k : Trading.SessionKind) : Z := match k with Trading.RegularSession => 1 | Trading.AfterHours => 2 end.
#[global] Instance SessionKind_Ord : Ord Trading.SessionKind := cmp_on kind_discriminant.
#[global] Instance kind_discriminant_inj : Inj (=) (=) kind_discriminant.
Proof. by intros [] []. Qed.
#[global] Instance SessionKind_OrdLaws : OrdLaws Trading.SessionKind := cmp_on_laws kind_discriminant.

(** A [BTreeSet] collected from an iterator, in order. *)
Definition btree_set {A} `{EqDecision A, Ord A} (l : list A) : list A := sort_on id (remove_dups l).

Record StrategyDeclaration : Set := mk_declaration { universe : list Instrument.InstrumentId; sessions : list Trading.SessionKind }.
Definition new_declaration (universe : list Instrument.InstrumentId) (sessions : list Trading.SessionKind) :
    result DeclarationError StrategyDeclaration :=
  let universe := btree_set universe in
  let sessions := btree_set sessions in
  reject bool_decide (universe = []) with EmptyUniverse;;
  reject bool_decide (sessions = []) with EmptySessions;;
  Ok (mk_declaration universe sessions).

(** ** Timers *)

Inductive StrategyTimerError : Set := EmptyId | IdTooLong | TimerCapabilityUnavailable | FireBeforeDecision.

Definition StrategyTimerId : Type := list Z.
Definition new_timer_id (value : list Z) : result StrategyTimerError StrategyTimerId :=
  reject zlen value =? 0 with EmptyId;;
  reject 128 <? zlen value with IdTooLong;;
  Ok value.

Record StrategyTimerRequest : Set := new_timer_request { timer_id : list Z; fire_at : MatchTime.MatchTime }.
Record StrategyTimerContext : Set := new_timer_context {
  context_timer_id : list Z; context_fire_at : MatchTime.MatchTime; current_equity : Decimal.Decimal }.

(** ** Records *)

Inductive StrategyOutputEncodingError : Set :=
| EmptyIndicatorName | InvalidCashCharge | CashChargeCapabilityUnavailable | OutputSequenceOverflow | RecordCountOverflow
| Canonical (e : CanonicalEncodingError).

(** Category and reference are trimmed, so they are kept as their characters;
    [as_bytes] is their UTF-8 encoding. *)
Definition utf8_encode (c : Z) : list Z :=
  if c <? 128 then [c]
  else if c <? 2048 then [192 + c / 64; 128 + c mod 64]
  else if c <? 65536 then [224 + c / 4096; 128 + c / 64 mod 64; 128 + c mod 64]
  else [240 + c / 262144; 128 + c / 4096 mod 64; 128 + c / 64 mod 64; 128 + c mod 64].
Definition as_bytes (s : Accounting.str) : list Z := concat (utf8_encode <$> s).

Record CashChargeRequest : Set := mk_cash_charge { amount : Decimal.Decimal; category : list Z; reference : list Z }.
Definition new_cash_charge (amount : Decimal.Decimal) (category reference : Accounting.str) :
    result StrategyOutputEncodingError CashChargeRequest :=
  reject (Decimal.atoms amount <? 0) || Accounting.trim_is_empty category || Accounting.trim_is_empty reference with InvalidCashCharge;;
  Ok (mk_cash_charge amount category reference).

Definition CANONICAL_STRATEGY_OUTPUT_VERSION : Z := 3.

Inductive IndicatorValue : Set :=
| Bool (b : bool) | Signed (z : Z) | Unsigned (z : Z) | DecimalValue (d : Decimal.Decimal) | TextValue (t : list Z).

Definition append_value (v : IndicatorValue) : Writer.Writer :=
  match v with
  | Bool b => push 1 ▷ push (if b then 1 else 0)
  | Signed z => push 2 ▷ extend (be_bytes 8 z)
  | Unsigned z => push 3 ▷ extend (be_bytes 8 z)
  | DecimalValue d => push 4 ▷ extend (Decimal.to_canonical_bytes d)
  | TextValue t => push 5 ▷ append_bytes t
  end.

Inductive StrategyOutputRecord : Set :=
| EventIndicator (run_event_ordinal : Z) (event_fingerprint : list Z) (instrument_state_version output_sequence : Z)
    (indicator_name : list Z) (value : IndicatorValue)
| FinalizeIndicator (output_sequence : Z) (indicator_name : list Z) (value : IndicatorValue)
| ControlIndicator (control_sequence : Z) (control_time : MatchTime.MatchTime) (output_sequence : Z)
    (indicator_name : list Z) (value : IndicatorValue)
| EventCashCharge (run_event_ordinal : Z) (event_fingerprint : list Z) (instrument_state_version output_sequence : Z)
    (amount : Decimal.Decimal) (category reference : list Z)
| ControlCashCharge (control_sequence : Z) (control_time : MatchTime.MatchTime) (output_sequence : Z)
    (amount : Decimal.Decimal) (category reference : list Z).

Definition append_record (r : StrategyOutputRecord) : Writer.Writer :=
  match r with
  | EventIndicator ordinal fingerprint version sequence name value =>
      push 1 ▷ extend (be_bytes 8 ordinal) ▷ extend fingerprint ▷ extend (be_bytes 8 version) ▷ extend (be_bytes 4 sequence) ▷
      append_bytes name ▷ append_value value
  | FinalizeIndicator sequence name value => push 2 ▷ extend (be_bytes 4 sequence) ▷ append_bytes name ▷ append_value value
  | ControlIndicator control at_time sequence name value =>
      push 3 ▷ extend (be_bytes 8 control) ▷ Requests.append_time at_time ▷ extend (be_bytes 4 sequence) ▷
      append_bytes name ▷ append_value value
  | EventCashCharge ordinal fingerprint version sequence amount category reference =>
      push 4 ▷ extend (be_bytes 8 ordinal) ▷ extend fingerprint ▷ extend (be_bytes 8 version) ▷ extend (be_bytes 4 sequence) ▷
      extend (Decimal.to_canonical_bytes amount) ▷ append_bytes (as_bytes category) ▷ append_bytes (as_bytes reference)
  | ControlCashCharge control at_time sequence amount category reference =>
      push 5 ▷ extend (be_bytes 8 control) ▷ Requests.append_time at_time ▷ extend (be_bytes 4 sequence) ▷
      extend (Decimal.to_canonical_bytes amount) ▷ append_bytes (as_bytes category) ▷ append_bytes (as_bytes reference)
  end.

(** ** The sink of one callback *)

Inductive OrderIntentError : Set := OrderIntentUnavailable.
Inductive ScheduledOrderCapabilityError : Set := ScheduledOrderUnavailable.

Record StrategyOutputSink : Set := mk_sink {
  pending : list (list Z * IndicatorValue); intents : list OrderIntent; scheduled_orders : list ScheduledOrderRequest;
  timers : list StrategyTimerRequest; cash_charges : list CashChargeRequest;
  order_intents_enabled : bool; scheduled_orders_enabled : bool }.

Definition new_sink : StrategyOutputSink := mk_sink [] [] [] [] [] false false.
Definition with_order_intents : StrategyOutputSink := mk_sink [] [] [] [] [] true false.
Definition with_scheduled_orders : StrategyOutputSink := mk_sink [] [] [] [] [] false true.

Definition emit_order_intent (i : OrderIntent) (s : StrategyOutputSink) : result OrderIntentError () * StrategyOutputSink :=
  if negb (order_intents_enabled s) then (Err OrderIntentUnavailable, s)
  else (Ok (), mk_sink (pending s) (intents s ++ [i]) (scheduled_orders s) (timers s) (cash_charges s)
                 (order_intents_enabled s) (scheduled_orders_enabled s)).
Definition take_intents (s : StrategyOutputSink) : list OrderIntent * StrategyOutputSink :=
  (intents s, mk_sink (pending s) [] (scheduled_orders s) (timers s) (cash_charges s) (order_intents_enabled s) (scheduled_orders_enabled s)).

Definition emit_scheduled_order (r : ScheduledOrderRequest) (s : StrategyOutputSink) :
    result ScheduledOrderCapabilityError () * StrategyOutputSink :=
  if negb (scheduled_orders_enabled s) then (Err ScheduledOrderUnavailable, s)
  else (Ok (), mk_sink (pending s) (intents s) (scheduled_orders s ++ [r]) (timers s) (cash_charges s)
                 (order_intents_enabled s) (scheduled_orders_enabled s)).
Definition take_scheduled_orders (s : StrategyOutputSink) : list ScheduledOrderRequest * StrategyOutputSink :=
  (scheduled_orders s, mk_sink (pending s) (intents s) [] (timers s) (cash_charges s) (order_intents_enabled s) (scheduled_orders_enabled s)).

Definition emit_timer (r : StrategyTimerRequest) (s : StrategyOutputSink) : result StrategyTimerError () * StrategyOutputSink :=
  if negb (scheduled_orders_enabled s) then (Err TimerCapabilityUnavailable, s)
  else (Ok (), mk_sink (pending s) (intents s) (scheduled_orders s) (timers s ++ [r]) (cash_charges s)
                 (order_intents_enabled s) (scheduled_orders_enabled s)).
Definition take_timers (s : StrategyOutputSink) : list StrategyTimerRequest * StrategyOutputSink :=
  (timers s, mk_sink (pending s) (intents s) (scheduled_orders s) [] (cash_charges s) (order_intents_enabled s) (scheduled_orders_enabled s)).

Definition emit_cash_charge (r : CashChargeRequest) (s : StrategyOutputSink) : result StrategyOutputEncodingError () * StrategyOutputSink :=
  if negb (scheduled_orders_enabled s) then (Err CashChargeCapabilityUnavailable, s)
  else (Ok (), mk_sink (pending s) (intents s) (scheduled_orders s) (timers s) (cash_charges s ++ [r])
                 (order_intents_enabled s) (scheduled_orders_enabled s)).
Definition take_cash_charges (s : StrategyOutputSink) : list CashChargeRequest * StrategyOutputSink :=
  (cash_charges s, mk_sink (pending s) (intents s) (scheduled_orders s) (timers s) [] (order_intents_enabled s) (scheduled_orders_enabled s)).

Definition emit_indicator (name : list Z) (value : IndicatorValue) (s : StrategyOutputSink) :
    result StrategyOutputEncodingError () * StrategyOutputSink :=
  if zlen name =? 0 then (Err EmptyIndicatorName, s)
  else (Ok (), mk_sink (pending s ++ [(name, value)]) (intents s) (scheduled_orders s) (timers s) (cash_charges s)
                 (order_intents_enabled s) (scheduled_orders_enabled s)).

(** The sequence number of the item that follows [n] others, in 32 bits. *)
Definition output_sequence (n : Z) : result StrategyOutputEncodingError Z := ok_or (to_u32 (n + 1)) OutputSequenceOverflow.

(** [iter().enumerate().map(f).collect()], counting from [n]. *)
Fixpoint numbered {A C} (f : Z → A → C) (n : Z) (l : list A) : result StrategyOutputEncodingError (list C) :=
  match l with
  | [] => Ok []
  | x :: l => sequence ← output_sequence n; rest ← numbered f (n + 1) l; Ok (f sequence x :: rest)
  end.

Definition cash_charges_with_output_sequences (s : StrategyOutputSink) : result StrategyOutputEncodingError (list (Z * CashChargeRequest)) :=
  numbered pair (zlen (pending s)) (cash_charges s).

Definition into_event_records (occ : Replay.EventOccurrence) (s : StrategyOutputSink) :
    result StrategyOutputEncodingError (list StrategyOutputRecord) :=
  indicators ← numbered (λ n '(name, value),
    EventIndicator (Replay.run_event_ordinal occ) (Replay.event_fingerprint occ) (Replay.instrument_state_version occ) n name value) 0 (pending s);
  charges ← numbered (λ n c,
    EventCashCharge (Replay.run_event_ordinal occ) (Replay.event_fingerprint occ) (Replay.instrument_state_version occ) n
      (amount c) (category c) (reference c)) (zlen indicators) (cash_charges s);
  Ok (indicators ++ charges).

Definition into_finalize_records (s : StrategyOutputSink) : result StrategyOutputEncodingError (list StrategyOutputRecord) :=
  numbered (λ n '(name, value), FinalizeIndicator n name value) 0 (pending s).

Definition into_control_records (control_sequence : Z) (control_time : MatchTime.MatchTime) (s : StrategyOutputSink) :
    result StrategyOutputEncodingError (list StrategyOutputRecord) :=
  indicators ← numbered (λ n '(name, value), ControlIndicator control_sequence control_time n name value) 0 (pending s);
  charges ← numbered (λ n c, ControlCashCharge control_sequence control_time n (amount c) (category c) (reference c))
    (zlen indicators) (cash_charges s);
  Ok (indicators ++ charges).

(** ** The output of a run *)

Record StrategyOutput : Set := mk_output { identity : StrategyIdentity; params_checksum : list Z; records : list StrategyOutputRecord }.
Definition new_output (identity : StrategyIdentity) (params_checksum : list Z) : StrategyOutput := mk_output identity params_checksum [].
Definition extend_output (rs : list StrategyOutputRecord) (o : StrategyOutput) : StrategyOutput :=
  mk_output (identity o) (params_checksum o) (records o ++ rs).

Definition encode_header (o : StrategyOutput) : Writer.Writer :=
  extend (bytes_of "OSSO") ▷ extend (be_bytes 2 CANONICAL_STRATEGY_OUTPUT_VERSION) ▷
  append_bytes (strategy_id (identity o)) ▷ append_bytes (strategy_version (identity o)) ▷
  append_bytes (algorithm (binary_identity (identity o))) ▷ append_bytes (digest (binary_identity (identity o))) ▷
  extend (params_checksum o).
Definition to_canonical_bytes (o : StrategyOutput) : result StrategyOutputEncodingError (list Z) :=
  header ← map_err Canonical (encode_header o []);
  count ← ok_or (to_u64 (zlen (records o))) RecordCountOverflow;
  map_err Canonical ((extend (be_bytes 8 count) ▷ each append_record (records o)) header).
Definition checksum {B : Event.Blake3} (o : StrategyOutput) : result StrategyOutputEncodingError (list Z) :=
  bytes ← to_canonical_bytes o; Ok (Event.blake3 bytes).

End Output.
