(* ===== verification/Strategy.v ===== *)
(** The strategy interface and the runner of a single session of strategy-api
    (strategy.rs, runner.rs). The trait is a type class over the strategy's
    own state; a callback returns its result with the state and the sink it
    leaves. *)
From S2P Require Import Prelude Order Text Numeric Quantity Calendar Book Identity Codec Values Event MarketState.
From S2P Require Import Ordering Replay Orders Requests Output.

Module Strategy.
Import Output.Output.

(** ** What the callbacks see *)

(** An error a callback returns; its message is a text without meaning here. *)
Record StrategyExecutionError : Set := mk_error { message : list Z; is_capability_unavailable : bool }.
Definition new_error (message : list Z) : StrategyExecutionError := mk_error message false.

Record StrategyEventContext : Type := mk_event_context {
  context_occurrence : Replay.EventOccurrence; context_event : Event.DomainEvent; market_state : Model.MarketState;
  market_states : Replay.ByInstrument Model.MarketState; context_trading : Trading.TradingContext;
  context_session : Trading.SessionCallbackContext; decision_time : MatchTime.MatchTime }.
Definition new_visible_with_states (occ : Replay.EventOccurrence) (e : Event.DomainEvent) (s : Model.MarketState)
    (states : Replay.ByInstrument Model.MarketState) (trading : Trading.TradingContext) (decision_time : MatchTime.MatchTime) :
    StrategyEventContext :=
  mk_event_context occ e s states trading (Trading.session trading) decision_time.
Definition new_with_states (occ : Replay.EventOccurrence) (e : Event.DomainEvent) (s : Model.MarketState)
    (states : Replay.ByInstrument Model.MarketState) (trading : Trading.TradingContext) : StrategyEventContext :=
  new_visible_with_states occ e s states trading (Event.match_time e).

Record StrategyFeedbackContext : Set := new_with_execution_fills {
  feedback : list Orders.OrderFeedback; execution_fills : list Requests.ExecutionFillFeedback }.
Definition new_feedback_context (feedback : list Orders.OrderFeedback) : StrategyFeedbackContext := new_with_execution_fills feedback [].

Record StrategyFinalizeContext : Type := new_finalize_context { final_clock : Replay.ReplayClock; final_states : list Model.MarketState }.

(** A callback may panic. *)
Inductive CallbackFailure : Set := Raised (e : StrategyExecutionError) | Unwound.

Class Strategy (S : Type) := {
  identity_of : S → StrategyIdentity;
  canonical_params_checksum : S → list Z;
  declaration : S → StrategyDeclaration;
  initialize : StrategyDeclaration → S → result CallbackFailure () * S;
  on_event : StrategyEventContext → StrategyOutputSink → S → result CallbackFailure () * StrategyOutputSink * S;
  on_feedback : StrategyFeedbackContext → StrategyOutputSink → S → result CallbackFailure () * StrategyOutputSink * S;
  on_timer : StrategyTimerContext → StrategyOutputSink → S → result CallbackFailure () * StrategyOutputSink * S;
  finalize : StrategyFinalizeContext → StrategyOutputSink → S → result CallbackFailure () * StrategyOutputSink * S }.

(** ** One session *)

Inductive StrategyRunErrorCategory : Set :=
| InvalidParameters | Declaration | Initialization | CallbackCategory | Finalize | StrategyPanic | CapabilityUnavailable
| ReplayCategory | ContextCategory | OutputEncoding.

Record FailedOccurrence : Set := mk_failed_occurrence {
  failed_ordinal : Z; failed_fingerprint : list Z; failed_state_version : Z }.
Definition failed_occurrence (occ : Replay.EventOccurrence) : FailedOccurrence :=
  mk_failed_occurrence (Replay.run_event_ordinal occ) (Replay.event_fingerprint occ) (Replay.instrument_state_version occ).

(** The message of a failure is the text of its cause. *)
Record FailedStrategyRun : Set := mk_failed {
  category : StrategyRunErrorCategory; failed_at : option FailedOccurrence; processed_event_count : Z;
  failed_prefix_checksum : list Z; committed_output_count : Z }.
Record CompletedStrategyRun : Type := mk_run { run_replay : Replay.CompletedReplay; strategy_output : StrategyOutput; callback_count : Z }.

(** [Panicked]: one of the [expect]s of the source. *)
Inductive Failure : Set := Failed (f : FailedStrategyRun) | Panicked.

(** [catch_unwind] turns a panic of the strategy into a failure. *)
Definition invoke_strategy {A} (c : StrategyRunErrorCategory) (r : result CallbackFailure A) : result StrategyRunErrorCategory A :=
  map_err (λ f, match f with
    | Raised e => if is_capability_unavailable e then CapabilityUnavailable else c
    | Unwound => StrategyPanic
    end) r.

Section run.
Context {B : Event.Blake3} {S : Type} `{!Strategy S}.

Definition failure (core : Replay.ReplayCore) (output : StrategyOutput) (c : StrategyRunErrorCategory)
    (occ : option Replay.EventOccurrence) : Failure :=
  Failed (mk_failed c (failed_occurrence <$> occ) (Replay.event_ordinal (Replay.clock core))
            (Replay.processed_prefix_checksum core) (zlen (records output))).

Definition validate_declaration (core : Replay.ReplayCore) (segment : Trading.SessionSegment) (d : StrategyDeclaration) : bool :=
  bool_decide (universe d = Model.instrument <$> btree_values (Replay.states core)) &&
  bool_decide (Trading.kind segment ∈ sessions d).

(** The part of the loop after an event was committed. *)
Definition call_on_event (core : Replay.ReplayCore) (strategy : S) (segment : Trading.SessionSegment) (output : StrategyOutput)
    (callbacks : Z) (event : Event.DomainEvent) (commit : Replay.CoreCommit) : result Failure (S * StrategyOutput * Z) :=
  let occ := Replay.occurrence commit in
  state ← ok_or (Replay.state core (Event.instrument event)) Panicked;
  trading ← map_err (λ _, failure core output ContextCategory (Some occ)) (Trading.evaluate event occ state segment);
  let context := new_with_states occ event state (Replay.states core) trading in
  let '(r, sink, strategy) := on_event context new_sink strategy in
  _ ← map_err (λ c, failure core output c (Some occ)) (invoke_strategy CallbackCategory r);
  rs ← map_err (λ _, failure core output OutputEncoding (Some occ)) (into_event_records occ sink);
  callbacks ← ok_or (to_u64 (callbacks + 1)) Panicked;
  Ok (strategy, extend_output rs output, callbacks).

Fixpoint run_events (core : Replay.ReplayCore) (strategy : S) (segment : Trading.SessionSegment) (output : StrategyOutput)
    (callbacks : Z) (ordered : list Event.DomainEvent) : result Failure (Replay.ReplayCore * S * StrategyOutput * Z) :=
  match ordered with
  | [] => Ok (core, strategy, output, callbacks)
  | event :: ordered =>
      match Replay.apply_ordered core event with
      | (Err _, core) => Err (failure core output ReplayCategory None)
      | (Ok commit, core) =>
          '(strategy, output, callbacks) ← call_on_event core strategy segment output callbacks event commit;
          run_events core strategy segment output callbacks ordered
      end
  end.

Definition run_strategy (core : Replay.ReplayCore) (strategy : S) (segment : Trading.SessionSegment) (events : list Event.DomainEvent) :
    result Failure CompletedStrategyRun :=
  let output := new_output (identity_of strategy) (canonical_params_checksum strategy) in
  let d := declaration strategy in
  reject negb (validate_declaration core segment d) with failure core output Declaration None;;
  ordered ← map_err (λ _, failure core output ReplayCategory None) (Ordering.order_events events);
  let '(r, strategy) := initialize d strategy in
  _ ← map_err (λ c, failure core output c None) (invoke_strategy Initialization r);
  '(core, strategy, output, callbacks) ← run_events core strategy segment output 0 ordered;
  let context := new_finalize_context (Replay.clock core) (btree_values (Replay.states core)) in
  let '(r, sink, strategy) := finalize context new_sink strategy in
  _ ← map_err (λ c, failure core output c None) (invoke_strategy Finalize r);
  rs ← map_err (λ _, failure core output OutputEncoding None) (into_finalize_records sink);
  let output := extend_output rs output in
  replay ← map_err (λ _, Failed (mk_failed ReplayCategory None callbacks (Replay.processed_prefix_checksum core) (zlen (records output))))
    (Replay.complete core);
  Ok (mk_run replay output callbacks).
End run.

End Strategy.
