(* ===== verification/StrategyLaws.v ===== *)
(** What a run of a strategy over one session shows: it observes a plain
    replay, it cannot look ahead, and its failures report a committed prefix. *)
From S2P Require Import Prelude Order Text Numeric Quantity Calendar Book Identity Codec Values Event MarketState.
From S2P Require Import Ordering OrderingLaws Replay ReplayLaws Orders Requests Output Strategy.

Module StrategyLaws.
Import Output.Output Strategy.Strategy.

(** ** Numbered items *)

Lemma numbered_Ok {A C} (f : Z → A → C) n l rs : numbered f n l = Ok rs ↔
  rs = imap (λ k, f (n + Z.of_nat k + 1)) l ∧ ∀ k, (k < length l)%nat → is_u32 (n + Z.of_nat k + 1).
Proof.
  revert n rs. induction l as [|x l IH]; intros n rs; simpl.
  - split; [intros [= <-]|intros [-> _]]; [split; [done|lia]|done].
  - rewrite bind_Ok. unfold output_sequence, to_u32. split.
    + intros (s & Hs & H). apply bind_Ok in H as (rest & Hr & [= <-]). apply IH in Hr as [-> Hk].
      destruct (checked 0 u32_max _) as [?|] eqn:E; simplify_eq/=. apply checked_Some in E as [-> E]. split.
      * f_equal; [f_equal; lia|]. apply imap_ext. intros k y _. simpl. f_equal; lia.
      * intros [|k] Hlt; [unfold is_u32; lia|]. unfold is_u32 in *. specialize (Hk k). lia.
    + intros [-> Hk]. pose proof (Hk 0%nat ltac:(lia)) as H0. unfold is_u32 in H0. rewrite checked_in by lia. exists (n + 1).
      split; [done|]. apply bind_Ok. eexists. split; [apply IH; split; [done|]|].
      * intros k Hlt. specialize (Hk (S k) ltac:(lia)). unfold is_u32 in *. lia.
      * f_equal. f_equal; [f_equal; lia|]. apply imap_ext. intros k y _. simpl. f_equal; lia.
Qed.

Lemma length_numbered {A C} (f : Z → A → C) n l rs : numbered f n l = Ok rs → length rs = length l.
Proof. intros [-> _]%numbered_Ok. apply length_imap. Qed.

(** ** Records and their events *)

(** The ordinal of the event a record was emitted for. *)
Definition record_ordinal (r : StrategyOutputRecord) : option Z :=
  match r with EventIndicator n _ _ _ _ _ | EventCashCharge n _ _ _ _ _ _ => Some n | _ => None end.
Definition record_sequence (r : StrategyOutputRecord) : Z :=
  match r with
  | EventIndicator _ _ _ n _ _ | FinalizeIndicator n _ _ | ControlIndicator _ _ n _ _ | EventCashCharge _ _ _ n _ _ _
  | ControlCashCharge _ _ n _ _ _ => n
  end.

(** The records of one callback: its event's ordinal, numbered from one. *)
Definition records_of (ordinal : Z) (rs : list StrategyOutputRecord) : Prop :=
  ∀ k r, rs !! k = Some r → record_ordinal r = Some ordinal ∧ record_sequence r = Z.of_nat k + 1.

Lemma into_event_records_of occ sink rs : into_event_records occ sink = Ok rs → records_of (Replay.run_event_ordinal occ) rs.
Proof.
  unfold into_event_records. intros H. apply bind_Ok in H as (xs & Hx & H). apply bind_Ok in H as (ys & Hy & [= <-]).
  pose proof (length_numbered _ _ _ _ Hx) as Hl. apply numbered_Ok in Hx as [-> _], Hy as [-> _].
  intros k r [Hr|[Hk Hr]]%lookup_app_Some; apply list_lookup_imap_Some in Hr as (x & Hx & ->).
  - destruct x. simpl. split; [done|lia].
  - simpl. split; [done|]. unfold zlen. rewrite length_imap in *. lia.
Qed.

Lemma into_finalize_records_of sink rs : into_finalize_records sink = Ok rs →
  ∀ k r, rs !! k = Some r → record_ordinal r = None ∧ record_sequence r = Z.of_nat k + 1.
Proof.
  unfold into_finalize_records. intros [-> _]%numbered_Ok k r Hr. apply list_lookup_imap_Some in Hr as ([? ?] & Hx & ->). simpl. split; [done|lia].
Qed.

(** The runner announces the charges of a callback by the numbers their
    records carry. *)
Definition charge_of (r : StrategyOutputRecord) : option (Z * CashChargeRequest) :=
  match r with
  | EventCashCharge _ _ _ n a c x | ControlCashCharge _ _ n a c x => Some (n, mk_cash_charge a c x)
  | _ => None
  end.

Lemma omap_imap {A C D} (g : C → option D) (f : nat → A → C) l : omap g (imap f l) = omap id (imap (λ k x, g (f k x)) l).
Proof. revert f. induction l as [|x l IH]; intros f; [done|]. simpl. unfold compose in *. rewrite IH. by destruct (g (f 0%nat x)). Qed.

Lemma charges_numbered sink indicators (f : Z → CashChargeRequest → StrategyOutputRecord) charges ys :
  length indicators = length (pending sink) → Forall (λ r, charge_of r = None) indicators →
  (∀ n c, charge_of (f n c) = Some (n, c)) → numbered f (zlen indicators) (cash_charges sink) = Ok ys →
  cash_charges_with_output_sequences sink = Ok charges → omap charge_of (indicators ++ ys) = charges.
Proof.
  intros Hl Hn Hf [-> _]%numbered_Ok. unfold cash_charges_with_output_sequences. intros [-> _]%numbered_Ok.
  rewrite omap_app. assert (omap charge_of indicators = []) as ->.
  { clear Hl. induction Hn as [|r l Hr _ IH]; [done|]. simpl. by rewrite Hr. }
  simpl. rewrite omap_imap. unfold zlen. rewrite Hl. generalize (Z.of_nat (length (pending sink))). generalize (cash_charges sink).
  intros l z. assert (∀ (h : nat → Z), omap id (imap (λ k x, charge_of (f (h k) x)) l) = imap (λ k, pair (h k)) l) as H; [|by apply (H (λ k, z + Z.of_nat k + 1))].
  induction l as [|c l IH]; intros h; [done|]. cbn. rewrite Hf. cbn. f_equal. apply (IH (h ∘ S)).
Qed.

(** The sequence numbers the runner books cash charges under are those of
    their records, for event callbacks and for control callbacks alike. *)
Theorem charges_match_records sink charges rs :
  cash_charges_with_output_sequences sink = Ok charges →
  (∃ occ, into_event_records occ sink = Ok rs) ∨ (∃ n t, into_control_records n t sink = Ok rs) → omap charge_of rs = charges.
Proof.
  intros Hc [[occ H]|(n & t & H)]; apply bind_Ok in H as (xs & Hx & H); apply bind_Ok in H as (ys & Hy & [= <-]);
    (refine (charges_numbered _ _ _ _ _ (length_numbered _ _ _ _ Hx) _ _ Hy Hc); [|by intros ? []]);
    apply numbered_Ok in Hx as [-> _]; apply Forall_lookup; intros k r Hr; apply list_lookup_imap_Some in Hr as ([] & _ & ->); done.
Qed.

(** ** The events of a session *)

Section run.
Context {B : Event.Blake3} {T : Type} `{!Strategy T}.

(** One callback. *)
Lemma call_on_event_Ok core (st : T) segment output n e commit st' output' n' :
  call_on_event core st segment output n e commit = Ok (st', output', n') →
  n' = n + 1 ∧ ∃ rs, output' = extend_output rs output ∧ records_of (Replay.run_event_ordinal (Replay.occurrence commit)) rs.
Proof.
  unfold call_on_event. intros H. apply bind_Ok in H as (s & _ & H). apply bind_Ok in H as (trading & _ & H).
  destruct (on_event _ _ _) as [[r sink] st1]. apply bind_Ok in H as ([] & _ & H). apply bind_Ok in H as (rs & Hr & H).
  apply bind_Ok in H as (m & Hm & [= <- <- <-]). unfold ok_or, to_u64 in Hm. destruct (checked _ _ _) eqn:E in Hm; [|done].
  apply checked_Some in E as [-> _]. injection Hm as <-. split; [done|]. exists rs. split; [done|].
  apply (into_event_records_of _ sink). by destruct (into_event_records _ sink); simplify_eq/=.
Qed.

(** The records of a run, one group for each event. *)
Definition grouped (first : Z) (groups : list (list StrategyOutputRecord)) : Prop :=
  ∀ k rs, groups !! k = Some rs → records_of (first + Z.of_nat k + 1) rs.

Lemma run_events_app core (st : T) segment output n l1 l2 : run_events core st segment output n (l1 ++ l2) =
  ('(core, st, output, n) ← run_events core st segment output n l1; run_events core st segment output n l2).
Proof.
  revert core st output n. induction l1 as [|e l1 IH]; intros core st output n; simpl; [done|].
  destruct (Replay.apply_ordered core e) as [[commit|] core1]; [|done].
  destruct (call_on_event _ _ _ _ _ _ _) as [[[st1 o1] n1]|]; [|done]. simpl. apply IH.
Qed.

Lemma run_events_Ok core (st : T) segment output n l core' st' output' n' :
  run_events core st segment output n l = Ok (core', st', output', n') →
  Replay.apply_all core l = (Ok (), core') ∧ n' = n + zlen l ∧
  ∃ groups, length groups = length l ∧ grouped (Replay.event_ordinal (Replay.clock core)) groups ∧
    identity output' = identity output ∧ params_checksum output' = params_checksum output ∧
    records output' = records output ++ concat groups.
Proof.
  revert core st output n. induction l as [|e l IH]; intros core st output n; simpl.
  { intros [= <- <- <- <-]. split_and!; [done|unfold zlen; simpl; lia|]. exists []. split_and!; try done. simpl. by rewrite app_nil_r. }
  destruct (Replay.apply_ordered core e) as [[commit|] core1] eqn:He; [|done]. intros H.
  apply bind_Ok in H as ([[st1 o1] n1] & Hc & H). apply call_on_event_Ok in Hc as (-> & rs & -> & Hrs).
  apply IH in H as (Ha & -> & groups & Hl & Hg & Hi & Hp & Hr). apply ReplayLaws.apply_ordered_Ok in He as (key & can & s & s' & Hcom).
  pose proof (ReplayLaws.com_occurrence _ _ _ _ _ _ _ _ Hcom) as Hocc. pose proof (ReplayLaws.com_core _ _ _ _ _ _ _ _ Hcom) as Hcore.
  split_and!; [done|unfold zlen; simpl; lia|]. exists (rs :: groups). rewrite Hocc in Hrs. split_and!; try done.
  - simpl. lia.
  - intros [|k] x Hx; simpl in Hx; [injection Hx as <-; by rewrite Z.add_0_r|]. specialize (Hg k x Hx). rewrite Hcore in Hg. simpl in Hg.
    by replace (Replay.event_ordinal (Replay.clock core) + Z.of_nat (S k) + 1) with (Replay.event_ordinal (Replay.clock core) + 1 + Z.of_nat k + 1) by lia.
  - rewrite Hr. simpl. by rewrite (assoc_L (++)).
Qed.

(** No event makes the runner panic. *)
Lemma call_on_event_safe core core1 (st : T) segment output n e commit : 0 ≤ n ≤ Replay.event_ordinal (Replay.clock core) →
  Replay.apply_ordered core e = (Ok commit, core1) →
  match call_on_event core1 st segment output n e commit with
  | Ok _ => True
  | Err (Failed f) => processed_event_count f = Replay.event_ordinal (Replay.clock core1) ∧
      failed_prefix_checksum f = Replay.processed_prefix_checksum core1 ∧
      failed_at f = Some (failed_occurrence (Replay.occurrence commit))
  | Err Panicked => False
  end.
Proof.
  intros Hn He. apply ReplayLaws.apply_ordered_Ok in He as (key & can & s & s' & [_ _ _ _ Hord _ -> _]). unfold call_on_event.
  assert (Hs : Replay.state (Replay.record_event e (Replay.event_ordinal (Replay.clock core) + 1) key (Checksum.mk_record can (zlen can))
    (Replay.with_states (<[Event.instrument e := s']> (Replay.states core)) core)) (Event.instrument e) = Some s').
  { unfold Replay.state. simpl. by rewrite lookup_insert_eq. }
  rewrite Hs. cbn [ok_or mbind result_bind]. destruct (Trading.evaluate _ _ _ _) as [trading|]; [|done]. cbn [map_err mbind result_bind].
  destruct (on_event _ _ _) as [[r sink] st1]. destruct (invoke_strategy _ r) as [[]|c]; [|done]. cbn [map_err mbind result_bind].
  destruct (into_event_records _ sink) as [rs|]; [|done]. cbn [map_err mbind result_bind]. unfold to_u64. by rewrite checked_in by lia.
Qed.

(** What the failure of a run reports: a prefix of the events it committed. *)
Definition reports (core : Replay.ReplayCore) (l : list Event.DomainEvent) (f : FailedStrategyRun) : Prop :=
  ∃ committed core', committed `prefix_of` l ∧ Replay.apply_all core committed = (Ok (), core') ∧
    processed_event_count f = Replay.event_ordinal (Replay.clock core') ∧
    failed_prefix_checksum f = Replay.processed_prefix_checksum core' ∧
    (∀ o, failed_at f = Some o → failed_ordinal o = processed_event_count f).

Lemma run_events_fails core (st : T) segment output n l failed : 0 ≤ n ≤ Replay.event_ordinal (Replay.clock core) →
  run_events core st segment output n l = Err failed → ∃ f, failed = Failed f ∧ reports core l f.
Proof.
  revert core st output n. induction l as [|e l IH]; intros core st output n Hn; simpl; [done|].
  destruct (Replay.apply_ordered core e) as [[commit|err] core1] eqn:He.
  - pose proof (call_on_event_safe core core1 st segment output n e commit Hn He) as Hc.
    destruct (call_on_event _ _ _ _ _ _ _) as [[[st1 o1] n1]|[f|]] eqn:E; [| |done].
    + pose proof (call_on_event_Ok _ _ _ _ _ _ _ _ _ _ E) as [-> _]. intros H. cbn in H.
      assert (Ho : Replay.event_ordinal (Replay.clock core1) = Replay.event_ordinal (Replay.clock core) + 1).
      { apply ReplayLaws.apply_ordered_Ok in He as (key & can & s & s' & Hcom). by rewrite (ReplayLaws.com_core _ _ _ _ _ _ _ _ Hcom). }
      apply IH in H as (f & -> & done_ & core' & Hp & Ha & Hx & Hy & Hz); [|lia]. exists f. split; [done|]. exists (e :: done_), core'.
      split_and!; [by apply prefix_cons| |done..]. simpl. by rewrite He.
    + destruct Hc as (Hn1 & Hx & Ho). intros [= <-]. exists f. split; [done|]. exists [e], core1.
      split_and!; [by apply prefix_cons, prefix_nil|simpl; by rewrite He|done|done|]. intros o. rewrite Ho. intros [= <-]. simpl.
      apply ReplayLaws.apply_ordered_Ok in He as (key & can & s & s' & Hcom).
      rewrite (ReplayLaws.com_occurrence _ _ _ _ _ _ _ _ Hcom). rewrite Hn1. by rewrite (ReplayLaws.com_core _ _ _ _ _ _ _ _ Hcom).
  - intros [= <-]. eexists. split; [done|]. exists [], core. assert (core1 = core) as ->.
    { destruct (ReplayLaws.apply_ordered_cases core e) as [[? H]|(? & ? & ? & ? & ? & ? & H & _)]; congruence. }
    split_and!; try done. apply prefix_nil.
Qed.
End run.

Lemma order_events_perm {B : Event.Blake3} es out : Ordering.order_events es = Ok out → out ≡ₚ es.
Proof.
  unfold Ordering.order_events. intros H. apply bind_Ok in H as (ps & Hps & H). destruct (existsb _ _); [done|]. injection H as <-.
  rewrite <-(OrderingLaws.collect_prepare_events _ _ Hps). by rewrite sort_on_perm.
Qed.

(** ** Runs *)

(** What a completed run is: the replay of its ordered events, with one
    callback and one group of records for each, then the final records. *)
Record observes {T} `{!Strategy T} {B : Event.Blake3} (core : Replay.ReplayCore) (st : T) (ordered : list Event.DomainEvent) (run : CompletedStrategyRun)
    (core' : Replay.ReplayCore) (groups : list (list StrategyOutputRecord)) (final : list StrategyOutputRecord) : Prop := {
  obs_replay : Replay.apply_all core ordered = (Ok (), core');
  obs_complete : Replay.complete core' = Ok (run_replay run);
  obs_callbacks : callback_count run = zlen ordered;
  obs_length : length groups = length ordered;
  obs_groups : grouped (Replay.event_ordinal (Replay.clock core)) groups;
  obs_final : ∀ k r, final !! k = Some r → record_ordinal r = None ∧ record_sequence r = Z.of_nat k + 1;
  obs_output : strategy_output run = mk_output (identity_of st) (canonical_params_checksum st) (concat groups ++ final) }.

Section runs.
Context {B : Event.Blake3} {T : Type} `{!Strategy T}.

(** The stages of a completed run. *)
Lemma run_strategy_stages core (st : T) segment events run : run_strategy core st segment events = Ok run →
  ∃ ordered st1 core' st2 output n rs, Ordering.order_events events = Ok ordered ∧
    initialize (declaration st) st = (Ok (), st1) ∧
    run_events core st1 segment (new_output (identity_of st) (canonical_params_checksum st)) 0 ordered = Ok (core', st2, output, n) ∧
    (∃ sink, into_finalize_records sink = Ok rs) ∧ Replay.complete core' = Ok (run_replay run) ∧
    strategy_output run = extend_output rs output ∧ callback_count run = n.
Proof.
  unfold run_strategy. destruct (negb _); [done|]. intros H. apply bind_Ok in H as (ordered & Ho & H).
  destruct (initialize _ st) as [r st1] eqn:Hi. apply bind_Ok in H as ([] & Hr & H). apply bind_Ok in H as ([[[core' st2] output] n] & He & H).
  destruct (finalize _ _ _) as [[rf sink] st3]. apply bind_Ok in H as ([] & _ & H). apply bind_Ok in H as (rs & Hs & H).
  apply bind_Ok in H as (replay & Hc & [= <-]). exists ordered, st1, core', st2, output, n, rs.
  destruct (Ordering.order_events events); [|done]. destruct (into_finalize_records sink) eqn:Hf; [|done].
  destruct (Replay.complete core'); [|done]. destruct r as [[]|]; [|done]. simplify_eq/=. split_and!; try done. by exists sink.
Qed.

Lemma run_strategy_observes core (st : T) segment events run : run_strategy core st segment events = Ok run →
  ∃ ordered core' groups final, Ordering.order_events events = Ok ordered ∧ observes core st ordered run core' groups final.
Proof.
  intros H. apply run_strategy_stages in H as (ordered & st1 & core' & st2 & output & n & rs & Ho & _ & He & [sink Hf] & Hc & Hout & Hn).
  apply run_events_Ok in He as (Ha & -> & groups & Hl & Hg & Hi & Hp & Hr). exists ordered, core', groups, rs. split; [done|].
  split; try done; [by apply (into_finalize_records_of sink)|]. rewrite Hout. destruct output. unfold extend_output. simpl in *. by subst.
Qed.

(** A completed run is the plain replay of its events in replay order,
    whatever the strategy does: the strategy gets one callback for each event,
    its records of each callback carry that event and are numbered from one. *)
Theorem strategy_observes_replay core (st : T) segment events run : run_strategy core st segment events = Ok run →
  ∃ ordered core' groups final, Ordering.order_events events = Ok ordered ∧ ordered ≡ₚ events ∧
    observes core st ordered run core' groups final.
Proof.
  intros (ordered & core' & groups & final & Ho & Hobs)%run_strategy_observes.
  exists ordered, core', groups, final. split_and!; [done|by apply order_events_perm|done].
Qed.

(** The records for the first [n] events. *)
Definition up_to (first n : Z) (r : StrategyOutputRecord) : bool :=
  match record_ordinal r with Some k => (first <? k) && (k <=? first + n) | None => false end.

Lemma filter_up_to first groups final n : grouped first groups → (∀ k r, final !! k = Some r → record_ordinal r = None ∧ record_sequence r = Z.of_nat k + 1) →
  List.filter (up_to first (Z.of_nat n)) (concat groups ++ final) = concat (take n groups).
Proof.
  intros Hg Hf. rewrite List.filter_app. assert (List.filter (up_to first (Z.of_nat n)) final = []) as ->.
  { clear Hg. induction final as [|r final IH] in Hf |- * using rev_ind; [done|]. rewrite List.filter_app. rewrite IH.
    - simpl. unfold up_to. destruct (Hf (length final) r) as [-> _]; [by apply list_lookup_middle|done].
    - intros k x Hk. apply (Hf k x). by apply lookup_app_l_Some. }
  rewrite app_nil_r. clear Hf. assert (H : ∀ m gs, grouped (first + m) gs → 0 ≤ m →
    List.filter (up_to first (Z.of_nat n)) (concat gs) = concat (take (n - Z.to_nat m) gs)).
  2:{ specialize (H 0 groups). rewrite Z.add_0_r in H. rewrite (H Hg) by lia. f_equal. f_equal. lia. }
  intros m gs. revert m. clear Hg groups. induction gs as [|rs gs IH]; intros m Hg Hm; [by rewrite take_nil|].
  simpl. rewrite List.filter_app. rewrite (IH (m + 1)); [|intros k x Hx; specialize (Hg (S k) x Hx); by replace (first + (m + 1) + Z.of_nat k + 1) with (first + m + Z.of_nat (S k) + 1) by lia|lia].
  specialize (Hg 0%nat rs eq_refl). assert (Hrs : ∀ r, r ∈ rs → up_to first (Z.of_nat n) r = bool_decide (m < Z.of_nat n)).
  { intros r [k Hk]%list_elem_of_lookup_1. destruct (Hg k r Hk) as [Ho _]. unfold up_to. rewrite Ho. rewrite (proj2 (Z.ltb_lt _ _)) by lia. simpl. case_bool_decide; [apply Z.leb_le|apply Z.leb_gt]; lia. }
  assert (List.filter (up_to first (Z.of_nat n)) rs = if bool_decide (m < Z.of_nat n) then rs else []) as ->.
  { clear Hg. induction rs as [|r rs IHr]; [by case_bool_decide|]. simpl. rewrite (Hrs r) by left. rewrite IHr by (intros x Hx; apply Hrs; by right).
    by case_bool_decide. }
  case_bool_decide.
  - replace (n - Z.to_nat m)%nat with (S (n - Z.to_nat (m + 1)))%nat by lia. done.
  - replace (n - Z.to_nat m)%nat with 0%nat by lia. by replace (n - Z.to_nat (m + 1))%nat with 0%nat by lia.
Qed.

Lemma grouped_app first gs gs' : grouped first gs → grouped (first + zlen gs) gs' → grouped first (gs ++ gs').
Proof.
  intros H H' k rs [Hk|[Hk H'']]%lookup_app_Some; [by apply H|]. apply H' in H''. unfold zlen in H''.
  by replace (first + Z.of_nat k + 1) with (first + Z.of_nat (length gs) + Z.of_nat (k - length gs) + 1) by lia.
Qed.

(** No look-ahead: in two runs of a strategy whose first [n] events agree,
    the records for these events are the same, whatever comes after them. *)
Theorem no_look_ahead core (st : T) segment events1 events2 run1 run2 ordered1 ordered2 n :
  run_strategy core st segment events1 = Ok run1 → run_strategy core st segment events2 = Ok run2 →
  Ordering.order_events events1 = Ok ordered1 → Ordering.order_events events2 = Ok ordered2 →
  take n ordered1 = take n ordered2 →
  let first := Replay.event_ordinal (Replay.clock core) in
  List.filter (up_to first (Z.of_nat n)) (records (strategy_output run1)) =
  List.filter (up_to first (Z.of_nat n)) (records (strategy_output run2)).
Proof.
  intros H1 H2 Ho1 Ho2 Ht first.
  assert (H : ∀ events run ordered, run_strategy core st segment events = Ok run → Ordering.order_events events = Ok ordered →
    ∃ st1 r, initialize (declaration st) st = (Ok (), st1) ∧
      run_events core st1 segment (new_output (identity_of st) (canonical_params_checksum st)) 0 (take n ordered) = Ok r ∧
      List.filter (up_to first (Z.of_nat n)) (records (strategy_output run)) = records r.1.2).
  { clear. intros events run ordered H Ho. apply run_strategy_stages in H as (ordered' & st1 & core' & st2 & output & m & rs & Ho' & Hi & He & [sink Hf] & Hc & Hout & Hn).
    rewrite Ho in Ho'. injection Ho' as <-. rewrite <-(take_drop n ordered), run_events_app in He. apply bind_Ok in He as (r & Hr & He).
    exists st1, r. split_and!; [done..|]. destruct r as [[[corer str] outr] nr]. apply run_events_Ok in Hr as (Har & _ & gs & Hl & Hg & _ & _ & Hrec).
    apply run_events_Ok in He as (_ & _ & gs' & Hl' & Hg' & _ & _ & Hrec'). cbn [fst snd]. rewrite Hrec. rewrite Hout. cbn [extend_output records].
    rewrite Hrec', Hrec. cbn [new_output records]. rewrite !app_nil_l, <-concat_app.
    apply ReplayLaws.apply_all_accounts in Har as (Hord & _). assert (zlen gs = zlen (take n ordered)) as Hz by (unfold zlen; lia).
    rewrite filter_up_to; [|apply grouped_app; [done|by unfold first; rewrite Hz, <-Hord]|by apply (into_finalize_records_of sink)].
    rewrite length_take in Hl. rewrite length_drop in Hl'. f_equal. destruct (decide (n <= length ordered)%nat).
    - apply take_app_length'. lia.
    - destruct gs'; [|simpl in Hl'; lia]. rewrite app_nil_r. apply take_ge. lia. }
  destruct (H _ _ _ H1 Ho1) as (sa & ra & Hia & Hra & ->), (H _ _ _ H2 Ho2) as (sb & rb & Hib & Hrb & ->).
  rewrite Ht in Hra. rewrite Hia in Hib. injection Hib as <-. rewrite Hra in Hrb. by injection Hrb as <-.
Qed.

(** A session never panics, whatever the strategy does, and what a failure
    reports is a prefix of the events in replay order that the core did
    commit: its count, its checksum, and, where it names an event, the last of
    the prefix. *)
Theorem strategy_failure_reports core (st : T) segment events failed : Replay.clock core = Replay.Unstarted →
  run_strategy core st segment events = Err failed →
  ∃ f ordered, failed = Failed f ∧ (Ordering.order_events events = Ok ordered ∨ ordered = []) ∧ reports core ordered f.
Proof.
  intros Hu. assert (Hz : Replay.event_ordinal (Replay.clock core) = 0) by (by rewrite Hu).
  assert (H0 : ∀ output c, reports core [] (mk_failed c None (Replay.event_ordinal (Replay.clock core)) (Replay.processed_prefix_checksum core) output)).
  { intros output c. exists [], core. by split_and!. }
  unfold run_strategy. destruct (negb _); [intros [= <-]; do 2 eexists; split_and!; [done|by right|apply H0]|].
  intros H. apply bind_Err in H as [H|(ordered & Ho & H)].
  { destruct (Ordering.order_events events); [done|]. injection H as <-. do 2 eexists. split_and!; [done|by right|apply H0]. }
  assert (Ho' : Ordering.order_events events = Ok ordered) by (by destruct (Ordering.order_events events); simplify_eq/=).
  destruct (initialize _ st) as [r st1]. apply bind_Err in H as [H|([] & _ & H)].
  { destruct (invoke_strategy _ r); [done|]. injection H as <-. do 2 eexists. split_and!; [done|by right|apply H0]. }
  apply bind_Err in H as [H|([[[core' st2] output] n] & He & H)].
  { apply run_events_fails in H as (f & -> & Hf); [|by rewrite Hz]. exists f, ordered. split_and!; [done|by left|done]. }
  apply run_events_Ok in He as (Ha & -> & _). pose proof Ha as Hacc. apply ReplayLaws.apply_all_accounts in Hacc as (Hn & _). rewrite Hz in Hn.
  assert (H1 : ∀ c count k, count = Replay.event_ordinal (Replay.clock core') →
    reports core ordered (mk_failed c None count (Replay.processed_prefix_checksum core') k)).
  { intros c count k ->. exists ordered, core'. by split_and!. }
  destruct (finalize _ _ _) as [[rf sink] st3]. apply bind_Err in H as [H|([] & _ & H)].
  { destruct (invoke_strategy _ rf); [done|]. injection H as <-. do 2 eexists. split_and!; [done|by left|by apply H1]. }
  apply bind_Err in H as [H|(rs & _ & H)].
  { destruct (into_finalize_records sink); [done|]. injection H as <-. do 2 eexists. split_and!; [done|by left|by apply H1]. }
  apply bind_Err in H as [H|(replay & _ & H)]; [|done].
  destruct (Replay.complete core'); [done|]. injection H as <-. do 2 eexists. split_and!; [done|by left|apply H1; lia].
Qed.
End runs.

(** ** A concrete strategy *)

#[local] Instance demo_hash : Event.Blake3 := λ b, b.
Definition demo_segment : Trading.SessionSegment :=
  Trading.mk_segment (Model.mk_segment (bytes_of "day")) Trading.RegularSession ReplayLaws.demo_date
    (MatchTime.from_unix_microseconds 1) (MatchTime.from_unix_microseconds 20).
Definition demo_core : Replay.ReplayCore :=
  match Replay.new_multi [Model.new ReplayLaws.demo_instrument ReplayLaws.demo_date] [(ReplayLaws.demo_instrument, ReplayLaws.demo_profile)]
    [(ReplayLaws.demo_instrument, ReplayLaws.demo_context "day")] with
  | Ok c => c | Err _ => ReplayLaws.demo_core end.

(** Counts the events and emits their number; it fails after [limit] of them. *)
Definition count_event (limit : Z) (sink : StrategyOutputSink) (n : Z) : result CallbackFailure () * StrategyOutputSink * Z :=
  if limit <=? n then (Err Unwound, sink, n) else (Ok (), snd (emit_indicator (bytes_of "n") (Unsigned n) sink), n + 1).
#[local] Instance demo_strategy (limit : Z) : Strategy Z := {|
  identity_of _ := mk_identity (bytes_of "count") (bytes_of "1") (mk_binary (bytes_of "sha") [1]);
  canonical_params_checksum _ := [];
  declaration _ := mk_declaration [ReplayLaws.demo_instrument] [Trading.RegularSession];
  initialize _ n := (Ok (), n);
  on_event _ sink n := count_event limit sink n;
  on_feedback _ sink n := (Ok (), sink, n);
  on_timer _ sink n := (Ok (), sink, n);
  finalize _ sink n := (Ok (), snd (emit_indicator (bytes_of "total") (Unsigned n) sink), n) |}.

Definition demo_run (limit : Z) (times : list Z) : result Failure CompletedStrategyRun :=
  run_strategy (Strategy0 := demo_strategy limit) demo_core 0 demo_segment (ReplayLaws.demo_event <$> times).

Lemma strategy_observes_replay_witness : ∃ run, demo_run 9 [15; 5] = Ok run ∧ zlen (records (strategy_output run)) = 3 ∧
  ∃ ordered core' groups final, Ordering.order_events [ReplayLaws.demo_event 15; ReplayLaws.demo_event 5] = Ok ordered ∧
    ordered ≡ₚ [ReplayLaws.demo_event 15; ReplayLaws.demo_event 5] ∧
    observes (Strategy0 := demo_strategy 9) demo_core 0 ordered run core' groups final.
Proof.
  assert (H : is_ok (demo_run 9 [15; 5]) = true) by by vm_compute.
  assert (Hn : match demo_run 9 [15; 5] with Ok run => zlen (records (strategy_output run)) | Err _ => 0 end = 3) by by vm_compute.
  destruct (demo_run 9 [15; 5]) as [run|] eqn:E; [|discriminate H]. exists run. split; [exact eq_refl|]. split; [exact Hn|].
  exact (strategy_observes_replay (Strategy0 := demo_strategy 9) demo_core 0 demo_segment _ run E).
Defined.

Lemma no_look_ahead_witness : ∃ run1 run2, demo_run 9 [5; 15] = Ok run1 ∧ demo_run 9 [17; 5; 16] = Ok run2 ∧
  List.filter (up_to 0 1) (records (strategy_output run1)) = List.filter (up_to 0 1) (records (strategy_output run2)).
Proof.
  assert (H1 : is_ok (demo_run 9 [5; 15]) = true) by by vm_compute.
  assert (H2 : is_ok (demo_run 9 [17; 5; 16]) = true) by by vm_compute.
  assert (Ho1 : Ordering.order_events (ReplayLaws.demo_event <$> [5; 15]) = Ok (ReplayLaws.demo_event <$> [5; 15])) by by vm_compute.
  assert (Ho2 : Ordering.order_events (ReplayLaws.demo_event <$> [17; 5; 16]) = Ok (ReplayLaws.demo_event <$> [5; 16; 17])) by by vm_compute.
  destruct (demo_run 9 [5; 15]) as [run1|] eqn:E1; [|discriminate H1]. destruct (demo_run 9 [17; 5; 16]) as [run2|] eqn:E2; [|discriminate H2].
  exists run1, run2. split; [exact eq_refl|]. split; [exact eq_refl|].
  exact (no_look_ahead (Strategy0 := demo_strategy 9) demo_core 0 demo_segment _ _ run1 run2 _ _ 1 E1 E2 Ho1 Ho2 eq_refl).
Defined.

Lemma strategy_failure_reports_witness : ∃ failed f ordered, demo_run 1 [15; 5] = Err failed ∧ failed = Failed f ∧
  (Ordering.order_events [ReplayLaws.demo_event 15; ReplayLaws.demo_event 5] = Ok ordered ∨ ordered = []) ∧ reports demo_core ordered f.
Proof.
  assert (H : is_ok (demo_run 1 [15; 5]) = false) by by vm_compute.
  destruct (demo_run 1 [15; 5]) as [|failed] eqn:E; [discriminate H|].
  destruct (strategy_failure_reports (Strategy0 := demo_strategy 1) demo_core 0 demo_segment _ failed eq_refl E) as (f & ordered & Hf & Ho & Hr).
  exists failed, f, ordered. split; [exact eq_refl|]. split; [exact Hf|]. split; [exact Ho|exact Hr].
Defined.

Definition demo_sink : StrategyOutputSink :=
  mk_sink [(bytes_of "x", Bool true)] [] [] [] [mk_cash_charge Decimal.ZERO [65] [66]] false true.
Lemma charges_match_records_witness : ∃ rs, into_control_records 7 (MatchTime.from_unix_microseconds 3) demo_sink = Ok rs ∧
  omap charge_of rs = [(2, mk_cash_charge Decimal.ZERO [65] [66])].
Proof.
  eexists. split; [reflexivity|]. apply (charges_match_records demo_sink); [reflexivity|]. right. do 2 eexists. reflexivity.
Defined.

End StrategyLaws.
