(* ===== verification/Control.v ===== *)
(** The queue of control actions of the scheduled runner (osmium-runner:
    control.rs) and the queue of delayed observations (visibility.rs). *)
From S2P Require Import Prelude Order Text Numeric Quantity Calendar.

Module Control.

Definition CONTROL_ORDERING_VERSION : Z := 1.

Inductive ControlPhase : Set :=
| ReleaseObservation | StrategyDecision | OrderExpiry | OrderActivation | FillAllocation | Accounting | Feedback.
#[global] Instance ControlPhase_eq_dec : EqDecision ControlPhase.
Proof. solve_decision. Defined.
Definition phase_rank (p : ControlPhase) : Z :=
  match p with
  | ReleaseObservation => 1 | StrategyDecision => 2 | OrderExpiry => 3 | OrderActivation => 4 | FillAllocation => 5
  | Accounting => 6 | Feedback => 7
  end.
#[global] Instance phase_rank_inj : Inj (=) (=) phase_rank.
Proof. by intros [] []. Qed.
#[global] Instance ControlPhase_ord : Ord ControlPhase := cmp_on phase_rank.
#[global] Instance ControlPhase_ord_laws : OrdLaws ControlPhase := cmp_on_laws phase_rank.

Record ControlOrderingKey : Set := mk_key { key_at : MatchTime.MatchTime; key_phase : ControlPhase; key_sequence : Z }.
#[global] Instance ControlOrderingKey_eq_dec : EqDecision ControlOrderingKey.
Proof. solve_decision. Defined.
(** The derived order: time, then phase, then sequence. *)
Definition key_fields (k : ControlOrderingKey) : MatchTime.MatchTime * (ControlPhase * Z) := (key_at k, (key_phase k, key_sequence k)).
#[global] Instance key_fields_inj : Inj (=) (=) key_fields.
Proof. by intros [] [] [= -> -> ->]. Qed.
#[global] Instance ControlOrderingKey_ord : Ord ControlOrderingKey := cmp_on key_fields.
#[global] Instance ControlOrderingKey_ord_laws : OrdLaws ControlOrderingKey := cmp_on_laws key_fields.

Inductive ControlTimeQueueError : Set := SequenceOverflow.

Section queue.
Context {T : Type}.

Record ScheduledControl : Type := mk_control {
  at_time : MatchTime.MatchTime; phase : ControlPhase; sequence : Z; payload : T }.

(** The [BTreeMap] as its entries in key order. *)
Record ControlTimeQueue : Type := mk_queue { pending : list (ControlOrderingKey * T); next_sequence : Z }.
Definition new_queue : ControlTimeQueue := mk_queue [] 1.

(** [BTreeMap::insert]. *)
Fixpoint insert_entry (k : ControlOrderingKey) (v : T) (l : list (ControlOrderingKey * T)) : list (ControlOrderingKey * T) :=
  match l with
  | [] => [(k, v)]
  | (k', v') :: l' =>
      match cmp k k' with
      | Lt => (k, v) :: l
      | Eq => (k, v) :: l'
      | Gt => (k', v') :: insert_entry k v l'
      end
  end.

Definition schedule (now : MatchTime.MatchTime) (p : ControlPhase) (v : T) (q : ControlTimeQueue) :
    result ControlTimeQueueError Z * ControlTimeQueue :=
  match to_u64 (next_sequence q + 1) with
  | None => (Err SequenceOverflow, q)
  | Some next => (Ok (next_sequence q), mk_queue (insert_entry (mk_key now p (next_sequence q)) v (pending q)) next)
  end.

Definition next_time (q : ControlTimeQueue) : option MatchTime.MatchTime := (λ e, key_at e.1) <$> head (pending q).
Definition len (q : ControlTimeQueue) : Z := zlen (pending q).
Definition is_empty (q : ControlTimeQueue) : bool := match pending q with [] => true | _ => false end.

Definition control_of (e : ControlOrderingKey * T) : ScheduledControl :=
  mk_control (key_at e.1) (key_phase e.1) (key_sequence e.1) e.2.

(** [while let Some((&key, _)) = first_key_value() && predicate(&key) { pop_first() }]. *)
Fixpoint pop_entries (p : ControlOrderingKey → bool) (l : list (ControlOrderingKey * T)) :
    list ScheduledControl * list (ControlOrderingKey * T) :=
  match l with
  | [] => ([], [])
  | e :: l' => if p e.1 then let '(popped, rest) := pop_entries p l' in (control_of e :: popped, rest) else ([], l)
  end.
Definition pop_while (p : ControlOrderingKey → bool) (q : ControlTimeQueue) : list ScheduledControl * ControlTimeQueue :=
  let '(popped, rest) := pop_entries p (pending q) in (popped, mk_queue rest (next_sequence q)).

Definition pop_before (boundary : MatchTime.MatchTime) : ControlTimeQueue → list ScheduledControl * ControlTimeQueue :=
  pop_while (λ k, bool_decide (cmp (key_at k) boundary = Lt)).
Definition pop_at (now : MatchTime.MatchTime) : ControlTimeQueue → list ScheduledControl * ControlTimeQueue :=
  pop_while (λ k, bool_decide (key_at k = now)).
Definition pop_through (boundary : MatchTime.MatchTime) : ControlTimeQueue → list ScheduledControl * ControlTimeQueue :=
  pop_while (λ k, bool_decide (cmp (key_at k) boundary ≠ Gt)).
End queue.
Arguments ScheduledControl : clear implicits.
Arguments ControlTimeQueue : clear implicits.

(** ** Delayed observations *)

Inductive ObservationVisibilityError : Set := TimeOverflow | ControlQueue (e : ControlTimeQueueError).

Definition add_milliseconds (t : MatchTime.MatchTime) (milliseconds : Z) : result ObservationVisibilityError MatchTime.MatchTime :=
  micros ← ok_or (to_u64 (milliseconds * 1000)) TimeOverflow;
  micros ← ok_or (to_i64 micros) TimeOverflow;
  value ← ok_or (to_i64 (MatchTime.as_unix_microseconds t + micros)) TimeOverflow;
  Ok (MatchTime.from_unix_microseconds value).

Section visibility.
Context {T : Type}.

Record VisibleObservation : Type := mk_observation {
  match_time : MatchTime.MatchTime; visible_at : MatchTime.MatchTime; observation : T }.
Record ObservationVisibilityQueue : Type := mk_visibility {
  controls : ControlTimeQueue VisibleObservation; market_data_latency_ms : Z }.
Definition new_visibility (latency : Z) : ObservationVisibilityQueue := mk_visibility new_queue latency.

Definition enqueue (t : MatchTime.MatchTime) (x : T) (q : ObservationVisibilityQueue) :
    result ObservationVisibilityError MatchTime.MatchTime * ObservationVisibilityQueue :=
  match add_milliseconds t (market_data_latency_ms q) with
  | Err e => (Err e, q)
  | Ok visible_at =>
      let '(r, cs) := schedule visible_at ReleaseObservation (mk_observation t visible_at x) (controls q) in
      (_ ← map_err ControlQueue r; Ok visible_at, mk_visibility cs (market_data_latency_ms q))
  end.
Definition next_visible_at (q : ObservationVisibilityQueue) : option MatchTime.MatchTime := next_time (controls q).
Definition visibility_pop (pop : ControlTimeQueue VisibleObservation → list (ScheduledControl VisibleObservation) * ControlTimeQueue VisibleObservation)
    (q : ObservationVisibilityQueue) : list (ScheduledControl VisibleObservation) * ObservationVisibilityQueue :=
  let '(popped, cs) := pop (controls q) in (popped, mk_visibility cs (market_data_latency_ms q)).
Definition visibility_pop_before (boundary : MatchTime.MatchTime) := visibility_pop (pop_before boundary).
Definition visibility_pop_at (now : MatchTime.MatchTime) := visibility_pop (pop_at now).
Definition visibility_pop_through (boundary : MatchTime.MatchTime) := visibility_pop (pop_through boundary).
End visibility.
Arguments VisibleObservation : clear implicits.
Arguments ObservationVisibilityQueue : clear implicits.

End Control.
