(* ===== verification/ControlLaws.v ===== *)
(** The control queue is a stable priority queue: it yields its actions by
    time, then phase, then in the order they were scheduled. *)
From S2P Require Import Prelude Order Text Numeric Quantity Calendar Control.

Module ControlLaws.
Import Control.Control.

(** Sorting by a key and sorting by a refinement of it that only separates
    equal keys in their present order are the same. *)
Lemma sort_on_refines {A K L} `{Ord K, Ord L} (f : A → K) (g : A → L) l :
  ForallOrdPairs (λ x y, cmp (g x) (g y) = Gt ↔ cmp (f x) (f y) = Gt) l → sort_on f l = sort_on g l.
Proof.
  unfold sort_on. induction 1 as [|x l Hx _ IH]; [done|]. simpl. rewrite IH.
  assert (Hp : ∀ y, y ∈ foldr (insert_on g) [] l → cmp (g x) (g y) = Gt ↔ cmp (f x) (f y) = Gt).
  { intros y Hy. rewrite List.Forall_forall in Hx. apply Hx, list_elem_of_In. clear -Hy. revert Hy. induction l as [|z l IH]; simpl; [done|].
    assert (Hi : ∀ z k, y ∈ insert_on g z k → y = z ∨ y ∈ k).
    { clear. intros z k. induction k as [|w k IH]; simpl; [by intros ->%list_elem_of_singleton; left|].
      destruct (cmp _ _); rewrite ?elem_of_cons; [tauto..|]. intros [->|Hy]; [tauto|]. destruct (IH Hy); tauto. }
    intros [->|Hy]%Hi; [by left|]. right. by apply IH. }
  revert Hp. generalize (foldr (insert_on g) [] l). clear. intros k. induction k as [|y k IH]; intros Hp; simpl; [done|].
  pose proof (Hp y ltac:(by left)) as Hy. rewrite IH by (intros z Hz; apply Hp; by right).
  destruct (cmp (f x) (f y)) eqn:E1, (cmp (g x) (g y)) eqn:E2; naive_solver.
Qed.

Lemma sort_on_fmap {A C K} `{Ord K} (f : C → K) (h : A → C) l : h <$> sort_on (f ∘ h) l = sort_on f (h <$> l).
Proof.
  unfold sort_on. induction l as [|x l IH]; [done|]. rewrite fmap_cons. simpl. rewrite <-IH. generalize (foldr (insert_on (f ∘ h)) [] l). clear. intros k.
  induction k as [|y k IH]; simpl; [done|]. unfold compose in *. destruct (cmp (f (h x)) (f (h y))); [done..|]. rewrite fmap_cons. f_equal. exact IH.
Qed.

Section queue.
Context {T : Type}.
Implicit Types (q : ControlTimeQueue T) (l : list (ControlOrderingKey * T)).

(** ** The entries *)

Definition sorted l : Prop := StronglySorted (key_lt fst) l.
Definition below (n : Z) l : Prop := Forall (λ e, key_sequence e.1 < n) l.

Lemma insert_entry_perm k v l : (∀ e, e ∈ l → e.1 ≠ k) → insert_entry k v l ≡ₚ (k, v) :: l.
Proof.
  induction l as [|[k' v'] l IH]; intros H; simpl; [done|]. destruct (cmp k k') eqn:E; [|done|].
  - apply cmp_eq_iff in E as ->. exfalso. apply (H (k', v')); [by left|done].
  - rewrite IH; [apply Permutation_swap|]. intros e He. apply H. by right.
Qed.

Lemma insert_entry_sorted k v l : (∀ e, e ∈ l → e.1 ≠ k) → sorted l → sorted (insert_entry k v l).
Proof.
  intros H Hl. induction Hl as [|[k' v'] l Hl IH Hx]; simpl; [by repeat constructor|]. destruct (cmp k k') eqn:E.
  - apply cmp_eq_iff in E as ->. exfalso. apply (H (k', v')); [by left|done].
  - constructor; [by constructor|]. constructor; [done|]. eapply Forall_impl; [|exact Hx]. intros e He. unfold key_lt, ord_lt in *. simpl in *.
    by eapply cmp_lt_trans.
  - constructor; [apply IH; intros e He; apply H; by right|]. rewrite insert_entry_perm by (intros e He; apply H; by right).
    constructor; [|done]. by apply cmp_gt_lt.
Qed.

Record queue_wf q : Prop := {
  q_sorted : sorted (pending q);
  q_below : below (next_sequence q) (pending q) }.

Lemma new_queue_wf : queue_wf new_queue.
Proof. split; constructor. Qed.

Lemma schedule_spec now p v q : queue_wf q →
  match schedule now p v q with
  | (Ok n, q') => n = next_sequence q ∧ next_sequence q' = n + 1 ∧ queue_wf q' ∧ pending q' ≡ₚ (mk_key now p n, v) :: pending q
  | (Err _, q') => q' = q ∧ u64_max ≤ next_sequence q ∨ q' = q ∧ next_sequence q < -1
  end.
Proof.
  intros [Hs Hb]. unfold schedule, to_u64. destruct (checked _ _ _) as [n|] eqn:E.
  - apply checked_Some in E as [-> _]. assert (Hf : ∀ e, e ∈ pending q → e.1 ≠ mk_key now p (next_sequence q)).
    { intros e He Hk. unfold below in Hb. rewrite List.Forall_forall in Hb. specialize (Hb e). apply list_elem_of_In, Hb in He. rewrite Hk in He. simpl in He. lia. }
    simpl. split_and!; [done..| |by apply insert_entry_perm]. split; simpl; [by apply insert_entry_sorted|].
    unfold below. rewrite insert_entry_perm by done. constructor; [simpl; lia|]. eapply Forall_impl; [|exact Hb]. simpl. lia.
  - apply checked_None in E. unfold_ints. destruct (Z_le_gt_dec 18446744073709551615 (next_sequence q)); [left; done|right]. split; [done|lia].
Qed.

(** Popping takes the entries a predicate holds of, when it holds of a prefix. *)
Lemma pop_entries_spec (p : ControlOrderingKey → bool) l :
  ∃ taken rest, pop_entries p l = (control_of <$> taken, rest) ∧ l = taken ++ rest ∧ Forall (λ e, p e.1 = true) taken ∧
    match rest with e :: _ => p e.1 = false | [] => True end.
Proof.
  induction l as [|e l (taken & rest & IH & -> & Hf & Hr)]; simpl; [by exists [], []|].
  destruct (p e.1) eqn:E; [|by exists [], (e :: taken ++ rest)]. rewrite IH. exists (e :: taken), rest. split_and!; [done..| |done]. by constructor.
Qed.

(** A predicate that, when it fails for a key, fails for every later one. *)
Definition closed (p : ControlOrderingKey → bool) : Prop := ∀ k k', ord_lt k k' → p k = false → p k' = false.

Lemma pop_while_filter (p : ControlOrderingKey → bool) q : queue_wf q → closed p →
  ∃ rest, pop_while p q = (control_of <$> List.filter (λ e, p e.1) (pending q), mk_queue rest (next_sequence q)) ∧
    rest = List.filter (λ e, negb (p e.1)) (pending q) ∧ queue_wf (mk_queue rest (next_sequence q)).
Proof.
  intros [Hs Hb] Hp. unfold pop_while. destruct (pop_entries_spec p (pending q)) as (taken & rest & -> & Hl & Ht & Hr).
  assert (Hrest : Forall (λ e, p e.1 = false) rest).
  { rewrite Hl in Hs. unfold sorted in Hs. apply StronglySorted_app_1_r in Hs. destruct rest as [|e rest]; [constructor|]. constructor; [done|].
    inversion_clear Hs as [|? ? _ Hx]. eapply Forall_impl; [|exact Hx]. intros e' He'. by eapply Hp. }
  assert (H1 : List.filter (λ e, p e.1) (pending q) = taken ∧ List.filter (λ e, negb (p e.1)) (pending q) = rest).
  { rewrite Hl, !List.filter_app. assert (Hall : ∀ (f : ControlOrderingKey * T → bool) k, Forall (λ e, f e = true) k → List.filter f k = k).
    { clear. intros f k. induction 1 as [|e k He _ IH]; [done|]. simpl. by rewrite He, IH. }
    assert (Hnone : ∀ (f : ControlOrderingKey * T → bool) k, Forall (λ e, f e = false) k → List.filter f k = []).
    { clear. intros f k. induction 1 as [|e k He _ IH]; [done|]. simpl. by rewrite He, IH. }
    rewrite (Hall _ taken Ht), (Hnone _ rest Hrest). rewrite (Hnone (λ e, negb (p e.1)) taken) by (eapply Forall_impl; [|exact Ht]; by intros ? ->).
    rewrite (Hall (λ e, negb (p e.1)) rest) by (eapply Forall_impl; [|exact Hrest]; by intros ? ->). by rewrite app_nil_r. }
  destruct H1 as [-> H2]. exists rest. split_and!; [done..|]. rewrite Hl in Hs, Hb. split; simpl.
  - unfold sorted in *. by apply StronglySorted_app_1_r in Hs.
  - by apply Forall_app in Hb as [_ Hb].
Qed.

(** ** Actions and their order *)

Definition Call : Type := MatchTime.MatchTime * ControlPhase * T.
Definition call_rank (c : Call) : MatchTime.MatchTime * ControlPhase := c.1.
Definition call_of (c : ScheduledControl T) : Call := (at_time c, phase c, payload c).

(** Scheduling a list of actions. *)
Fixpoint schedule_all (calls : list Call) q : option (ControlTimeQueue T) :=
  match calls with
  | [] => Some q
  | (now, p, v) :: calls => match schedule now p v q with (Ok _, q) => schedule_all calls q | (Err _, _) => None end
  end.

(** The entries the calls become, numbered from [n]. *)
Definition entry_of (n : Z) (k : nat) (c : Call) : ControlOrderingKey * T := (mk_key c.1.1 c.1.2 (n + Z.of_nat k), c.2).

Lemma entry_of_S n calls : imap (entry_of n ∘ S) calls = imap (entry_of (n + 1)) calls.
Proof. apply imap_ext. intros k x _. unfold entry_of, compose. do 2 f_equal. lia. Qed.

Lemma schedule_all_spec calls q q' : queue_wf q → schedule_all calls q = Some q' →
  queue_wf q' ∧ next_sequence q' = next_sequence q + zlen calls ∧
  pending q' ≡ₚ pending q ++ imap (entry_of (next_sequence q)) calls.
Proof.
  revert q. induction calls as [|[[now p] v] calls IH]; intros q Hq; simpl.
  { intros [= <-]. split_and!; [done|unfold zlen; simpl; lia|]. by rewrite app_nil_r. }
  pose proof (schedule_spec now p v q Hq) as Hs. destruct (schedule now p v q) as [[n|] q1]; [|done].
  destruct Hs as (-> & Hn & Hq1 & Hp). intros (Hq' & Hn' & Hp')%IH; [|done]. split_and!; [done|unfold zlen in *; simpl; lia|].
  rewrite Hp', Hp, Hn, entry_of_S, <-Permutation_middle. unfold entry_of at 2. cbn [fst snd]. by rewrite Z.add_0_r.
Qed.

Lemma sorted_unique l k : sorted l → (∀ x y, x ∈ l → y ∈ l → x.1 = y.1 → x = y) → k ≡ₚ l → sort_on fst k = l.
Proof.
  intros Hl Hi Hp. symmetry. apply (sorted_perm_unique fst); [done| |apply sort_on_sorted|by rewrite sort_on_perm].
  clear -Hl. induction Hl as [|x l Hl IH Hx]; constructor; [done|]. eapply Forall_impl; [|exact Hx]. unfold key_lt, key_le, ord_lt, ord_le. by intros y ->.
Qed.

Lemma pending_sorted calls q : schedule_all calls new_queue = Some q → pending q = sort_on fst (imap (entry_of 1) calls).
Proof.
  intros H. apply schedule_all_spec in H as ([Hs _] & _ & Hp); [|apply new_queue_wf]. simpl in Hp. symmetry. apply sorted_unique; [done| |by rewrite Hp].
  intros x y Hx Hy Hk. rewrite Hp in Hx, Hy. apply elem_of_lookup_imap in Hx as (i & c & -> & Hi), Hy as (j & d & -> & Hj).
  unfold entry_of in Hk. simpl in Hk. assert (i = j) as -> by (assert (1 + Z.of_nat i = 1 + Z.of_nat j) by congruence; lia). congruence.
Qed.

(** Filtering a sorted list by a function of the key. *)
Lemma filter_insert_on {A K} `{OrdLaws K} (f : A → K) (p : A → bool) x (l : list A) : StronglySorted (key_le f) l →
  List.filter p (insert_on f x l) = if p x then insert_on f x (List.filter p l) else List.filter p l.
Proof.
  induction 1 as [|y l Hl IH Hy]; simpl; [by destruct (p x)|]. destruct (cmp (f x) (f y)) eqn:E; simpl.
  1,2: destruct (p x); [|done]; destruct (p y); simpl; [by rewrite E|].
  1,2: assert (Hlt : Forall (λ z, cmp (f x) (f z) ≠ Gt) l).
  1,3: eapply Forall_impl; [|exact Hy]; intros z Hz; unfold key_le in Hz; assert (Hxy : ord_le (f x) (f y)) by (unfold ord_le; by rewrite E);
    assert (Hxz : ord_le (f x) (f z)) by (by etrans); exact Hxz.
  1,2: clear -Hlt; induction Hlt as [|z l Hz _ IH]; simpl; [done|]; destruct (p z); simpl; [by destruct (cmp (f x) (f z))|exact IH].
  rewrite IH. destruct (p x), (p y); simpl; by rewrite ?E.
Qed.

Lemma filter_sort_on {A K} `{OrdLaws K} (f : A → K) (p : A → bool) (l : list A) : List.filter p (sort_on f l) = sort_on f (List.filter p l).
Proof.
  unfold sort_on. induction l as [|x l IH]; [done|]. simpl. rewrite filter_insert_on by apply (sort_on_sorted f). rewrite IH. by destruct (p x).
Qed.

(** Without their numbers, the sorted entries are the calls in stable order. *)
Lemma entries_stable (p : Call → bool) calls : (λ e, call_of (control_of e)) <$> List.filter (λ e, p (call_of (control_of e))) (sort_on fst (imap (entry_of 1) calls)) =
  sort_on call_rank (List.filter p calls).
Proof.
  set (h := λ e : ControlOrderingKey * T, call_of (control_of e)).
  assert (Hh : h <$> imap (entry_of 1) calls = calls).
  { generalize 1. clear. induction calls as [|[[now q] v] calls IH]; intros n; [done|]. rewrite imap_cons, entry_of_S, fmap_cons, IH. done. }
  assert (Hr : sort_on (call_rank ∘ h) (imap (entry_of 1) calls) = sort_on fst (imap (entry_of 1) calls)).
  { apply sort_on_refines. clear. generalize 1. induction calls as [|c calls IH]; intros n; simpl; constructor.
    - apply List.Forall_forall. intros y Hy%list_elem_of_In. apply elem_of_lookup_imap in Hy as (k & d & -> & _). destruct c as [[ca cp] cv], d as [[da dp] dv].
      change (cmp (ca, (cp, n + Z.of_nat 0)) (da, (dp, n + Z.of_nat (S k))) = Gt ↔ cmp (ca, cp) (da, dp) = Gt). rewrite !cmp_pair.
      destruct (cmp ca da); simpl; [|done..]. destruct (cmp cp dp); simpl; [|done..].
      change (cmp (n + 0) (n + Z.of_nat (S k))) with ((n + 0) ?= (n + Z.of_nat (S k))). rewrite Z.compare_gt_iff. split; [lia|done].
    - rewrite entry_of_S. apply IH. }
  rewrite <-Hr, filter_sort_on, sort_on_fmap. f_equal. rewrite <-Hh at 2. clear. generalize (imap (entry_of 1) calls). intros l. unfold h.
  induction l as [|e l IH]; [done|]. simpl. destruct (p _); [|done]. rewrite fmap_cons. by f_equal.
Qed.

(** C35: actions leave the queue in order of time, then phase, then of their
    scheduling: popping through (or before) a boundary yields exactly the
    actions up to it, stably sorted, and leaves the others, sorted too. *)
Theorem control_order calls q boundary : schedule_all calls new_queue = Some q →
  let through c := bool_decide (cmp c.1.1 boundary ≠ Gt) in
  let before c := bool_decide (cmp c.1.1 boundary = Lt) in
  call_of <$> fst (pop_through boundary q) = sort_on call_rank (List.filter through calls) ∧
  call_of ∘ control_of <$> pending (snd (pop_through boundary q)) = sort_on call_rank (List.filter (negb ∘ through) calls) ∧
  call_of <$> fst (pop_before boundary q) = sort_on call_rank (List.filter before calls) ∧
  call_of ∘ control_of <$> pending (snd (pop_before boundary q)) = sort_on call_rank (List.filter (negb ∘ before) calls).
Proof.
  intros H through before. pose proof (schedule_all_spec _ _ _ new_queue_wf H) as (Hwf & _).
  apply pending_sorted in H as Hp.
  assert (Hgen : ∀ (p : ControlOrderingKey → bool) (r : Call → bool), closed p → (∀ e, p e.1 = r (call_of (control_of e))) →
    call_of <$> fst (pop_while p q) = sort_on call_rank (List.filter r calls) ∧
    call_of ∘ control_of <$> pending (snd (pop_while p q)) = sort_on call_rank (List.filter (negb ∘ r) calls)).
  { intros p r Hc Hr. destruct (pop_while_filter p q Hwf Hc) as (rest & -> & -> & _). cbn [fst snd pending]. rewrite <-!entries_stable, Hp. split.
    - rewrite <-list_fmap_compose. f_equal. apply List.filter_ext. intros e. apply Hr.
    - f_equal. apply List.filter_ext. intros e. unfold compose. by rewrite Hr. }
  split; [|split; [|split]]; apply (Hgen _ _); try done; intros k k' Hk; rewrite !bool_decide_eq_false.
  all: assert (Hle : ord_le (key_at k) (key_at k')) by (unfold ord_lt, cmp, ControlOrderingKey_ord, cmp_on, key_fields in Hk; rewrite cmp_pair in Hk;
    unfold ord_le; by destruct (cmp (key_at k) (key_at k'))).
  all: intros Hn Hb; apply Hn; first [exact (ord_le_lt_trans _ _ _ Hle Hb)|exact (transitivity (R := ord_le) Hle Hb)].
Qed.
End queue.

Definition demo_calls : list (@Call Z) :=
  [(MatchTime.from_unix_microseconds 10, OrderActivation, 1); (MatchTime.from_unix_microseconds 10, OrderExpiry, 2);
   (MatchTime.from_unix_microseconds 12, Feedback, 3); (MatchTime.from_unix_microseconds 10, OrderExpiry, 4)].
Definition demo_queue : ControlTimeQueue Z := default new_queue (schedule_all demo_calls new_queue).
Lemma control_order_witness : schedule_all demo_calls new_queue = Some demo_queue ∧
  payload <$> fst (pop_through (MatchTime.from_unix_microseconds 11) demo_queue) = [2; 4; 1] ∧
  call_of <$> fst (pop_through (MatchTime.from_unix_microseconds 11) demo_queue) =
    [(MatchTime.from_unix_microseconds 10, OrderExpiry, 2); (MatchTime.from_unix_microseconds 10, OrderExpiry, 4);
     (MatchTime.from_unix_microseconds 10, OrderActivation, 1)].
Proof.
  assert (H : schedule_all demo_calls new_queue = Some demo_queue) by reflexivity. split; [exact H|]. split; [by vm_compute|].
  rewrite (proj1 (control_order demo_calls demo_queue (MatchTime.from_unix_microseconds 11) H)). by vm_compute.
Defined.

End ControlLaws.
