(* ===== verification/Backtest.v ===== *)
(** What the two backtest runners share (osmium-runner/src/lib.rs): session
    schedules, final marks, errors, and calls of the strategy. *)
From S2P Require Import Prelude Order Text Numeric Quantity Calendar Book Identity Signal Codec Values Event MarketState.
From S2P Require Import Ordering Replay Orders Requests Fill Accounting Simulator Scheduled Output Strategy Effects.

Module Backtest.
Import Effects.Effects Output.Output.

Definition BACKTEST_COORDINATOR_VERSION : Z := 1.

(** ** Errors

    The source keeps the text of most causes; here the cause itself is kept. *)

Inductive ScheduleError : Set :=
| EmptyInstrumentSchedule | Overlapping | DuplicatedInstrument | EmptySchedule
| StrategyUniverse | ScheduleUniverse | SimulatorUniverse | LedgerUniverse | SessionsDiffer
| OutsideSchedule | StateAbsent | InstrumentAbsent | BindingDateAbsent.
Inductive ReplayCause : Set :=
| Engine (e : Replay.ReplayError) | StreamFailure (text : string) | OrderingCause (e : Ordering.OrderingError) | Encoding (e : Writer.CanonicalEncodingError)
| Decoding (e : Parser.CanonicalDecodingError) | OccurrenceDiffers.
Inductive StrategyCause : Set :=
| CallbackError (e : Strategy.StrategyExecutionError) | OutputError (e : StrategyOutputEncodingError) | TimerError (e : StrategyTimerError).
Inductive SimulationCause : Set :=
| EventSimulation (e : Simulator.SimulationError) | ScheduledSimulation (e : Scheduled.ScheduledSimulationError) | ClearingPrices.
Inductive AccountingCause : Set :=
| Ledgers (e : Accounting.AccountingError) | MissingEquityMark (i : Instrument.InstrumentId) | EquityOverflow.

Inductive MultiBacktestError : Set :=
| Declaration | ScheduleE (e : ScheduleError) | ReplayE (e : ReplayCause) | ContextE (e : Trading.ContextError) | StrategyE (e : StrategyCause)
| SimulationE (e : SimulationCause) | AccountingE (e : AccountingCause) | Sequence | IntentAfterEnd.

(** An accounting call; its panics are ours. *)
Definition of_accounting {A} (r : result Accounting.Failure A) : result (Failure MultiBacktestError) A :=
  map_err (λ e, match e with Accounting.Returned e => Returned (AccountingE (Ledgers e)) | Accounting.Panicked => Panicked end) r.
Definition of_scheduled {A} (r : result Scheduled.Failure A) : result (Failure MultiBacktestError) A :=
  map_err (λ e, match e with Returned e => Returned (SimulationE (ScheduledSimulation e)) | Panicked => Panicked end) r.
(** A callback's error; its panic is not caught. *)
Definition of_callback {A} (r : result Strategy.CallbackFailure A) : result (Failure MultiBacktestError) A :=
  map_err (λ e, match e with Strategy.Raised e => Returned (StrategyE (CallbackError e)) | Strategy.Unwound => Panicked end) r.

(** ** Session schedules *)

Record MultiSessionSchedule : Type := mk_schedule { segments : gmap Instrument.InstrumentId (list Trading.SessionSegment) }.

Definition segments_overlap : Trading.SessionSegment * Trading.SessionSegment → bool :=
  λ '(a, b), bool_decide (cmp (Trading.close a) (Trading.open b) ≠ Lt).

Definition insert_windows (m : gmap Instrument.InstrumentId (list Trading.SessionSegment))
    (entry : Instrument.InstrumentId * list Trading.SessionSegment) :
    result MultiBacktestError (gmap Instrument.InstrumentId (list Trading.SessionSegment)) :=
  let '(i, windows) := entry in
  reject bool_decide (length windows = 0%nat) with ScheduleE EmptyInstrumentSchedule;;
  let windows := sort_on Trading.open windows in
  reject existsb segments_overlap (windows2 windows) with ScheduleE Overlapping;;
  match m !! i with
  | Some _ => Err (ScheduleE DuplicatedInstrument)
  | None => Ok (<[i := windows]> m)
  end.
Definition new_schedule (entries : list (Instrument.InstrumentId * list Trading.SessionSegment)) : result MultiBacktestError MultiSessionSchedule :=
  m ← try_fold insert_windows ∅ entries;
  reject bool_decide (map_to_list m = []) with ScheduleE EmptySchedule;;
  Ok (mk_schedule m).

Definition segment_for (s : MultiSessionSchedule) (i : Instrument.InstrumentId) (t : MatchTime.MatchTime) : option Trading.SessionSegment :=
  windows ← segments s !! i; List.find (λ w, is_ok (Trading.segment_phase w t)) windows.
Definition schedule_instruments (s : MultiSessionSchedule) : list Instrument.InstrumentId := btree_keys (segments s).
(** The session kinds of all segments, as a set in order. *)
Definition schedule_sessions (s : MultiSessionSchedule) : list Trading.SessionKind :=
  btree_set (Trading.kind <$> concat (btree_values (segments s))).

(** ** Marks *)

Definition final_mark (s : Model.MarketState) (allow_midpoint_fallback : bool) : result (Failure MultiBacktestError) (option Decimal.Decimal) :=
  match Model.last_trade s with
  | None => Err Panicked
  | Some (Model.LastKnown t) => Ok (Some (Price.as_decimal (Trade.price t)))
  | Some _ =>
      if negb allow_midpoint_fallback then Ok None else
      match Model.best_bid s, Model.best_ask s with
      | Some bid, Some ask =>
          Ok (sum ← to_i128 (Decimal.atoms (Price.as_decimal (Book.price bid)) + Decimal.atoms (Price.as_decimal (Book.price ask)));
              if Z.rem sum 2 =? 0 then Some (Decimal.from_atoms (Z.quot sum 2)) else None)
      | _, _ => Ok None
      end
  end.

(** The marks of the states of a core, by instrument. *)
Definition final_marks (core : Replay.ReplayCore) (allow_midpoint_fallback : bool) :
    result (Failure MultiBacktestError) (gmap Instrument.InstrumentId (option Decimal.Decimal)) :=
  Replay.collect_map <$> collect_results (λ s, mark ← final_mark s allow_midpoint_fallback; Ok (Model.instrument s, mark)) (btree_values (Replay.states core)).

(** ** Universes *)

Definition core_instruments (core : Replay.ReplayCore) : list Instrument.InstrumentId := Model.instrument <$> btree_values (Replay.states core).

(** Every named universe is that of the core, in order. *)
Definition check_universes (core : Replay.ReplayCore) (named : list (ScheduleError * list Instrument.InstrumentId)) : result MultiBacktestError () :=
  try_fold (λ _ '(e, l), reject bool_decide (l ≠ core_instruments core) with ScheduleE e;; Ok ()) () named.

End Backtest.
