(* ===== verification/Runner.v ===== *)
(** The event-driven backtest (osmium-runner/src/lib.rs): the replay drives
    the strategy, its order intents go to the simulator, and the fills to the
    ledger, event by event. *)
From S2P Require Import Prelude Order Text Numeric Quantity Calendar Book Identity Signal Codec Values Event MarketState.
From S2P Require Import Ordering Replay Orders Requests Fill Accounting Simulator Scheduled Output Strategy Effects Backtest.

Module Runner.
Import Effects.Effects Output.Output Backtest.Backtest.

Record CompletedMultiBacktest : Type := mk_completed {
  completed_replay : Replay.CompletedReplay; completed_output : StrategyOutput; completed_simulator : gmap Instrument.InstrumentId Simulator.Simulator;
  completed_ledger : Accounting.MultiLedger; completed_performance : Accounting.MultiPerformanceSummary }.

Section runner.
Context {B : Event.Blake3} {S : Type} `{!Strategy.Strategy S}.

(** What the loop changes. *)
Record RunState : Type := mk_state {
  strategy : S; current_segments : gmap Instrument.InstrumentId Model.SessionSegmentId;
  last_contexts : gmap Instrument.InstrumentId (Replay.EventOccurrence * Trading.TradingContext);
  simulator : gmap Instrument.InstrumentId Simulator.Simulator; ledger : Accounting.MultiLedger; output : StrategyOutput }.
Definition set_strategy x s := mk_state x (current_segments s) (last_contexts s) (simulator s) (ledger s) (output s).
Definition set_current_segments x s := mk_state (strategy s) x (last_contexts s) (simulator s) (ledger s) (output s).
Definition set_last_contexts x s := mk_state (strategy s) (current_segments s) x (simulator s) (ledger s) (output s).
Definition set_simulator x s := mk_state (strategy s) (current_segments s) (last_contexts s) x (ledger s) (output s).
Definition set_ledger x s := mk_state (strategy s) (current_segments s) (last_contexts s) (simulator s) x (output s).
Definition set_output x s := mk_state (strategy s) (current_segments s) (last_contexts s) (simulator s) (ledger s) x.

Definition R (A : Type) : Type := M RunState MultiBacktestError A.

(** A callback of the strategy with a sink for order intents. *)
Definition call (f : StrategyOutputSink → S → result Strategy.CallbackFailure () * StrategyOutputSink * S) : R StrategyOutputSink :=
  s ← get;
  let '(r, sink, st) := f with_order_intents (strategy s) in
  _ ← modify (set_strategy st);
  _ ← lift (of_callback r);
  mret sink.

(** The records of a sink whose intents were taken go to the output. *)
Definition emit_records (occ : Replay.EventOccurrence) (sink : StrategyOutputSink) : R () :=
  rs ← lift_err (StrategyE ∘ OutputError) (into_event_records occ sink);
  modify (λ s, set_output (extend_output rs (output s)) s).

(** [simulator.submit(...)?] for the intents, numbered from one. *)
Fixpoint submit_intents (occ : Replay.EventOccurrence) (trading : Trading.TradingContext) (index : Z) (intents : list Orders.OrderIntent) :
    R (list Orders.OrderFeedback) :=
  match intents with
  | [] => mret []
  | i :: intents =>
      s ← get;
      number ← lift (ok_or (to_u32 (index + 1)) (Returned Sequence));
      '(feedback, sims) ← lift_err (SimulationE ∘ EventSimulation)
        (Simulator.multi_submit (simulator s) (strategy_id (Strategy.identity_of (strategy s))) occ trading number i);
      _ ← modify (set_simulator sims);
      rest ← submit_intents occ trading (index + 1) intents;
      mret (feedback :: rest)
  end.

Definition process_multi_feedback (occ : Replay.EventOccurrence) (trading : Trading.TradingContext) (feedback : list Orders.OrderFeedback)
    (reject_intents : bool) : R () :=
  match feedback with
  | [] => mret ()
  | _ =>
      sink ← call (Strategy.on_feedback (Strategy.new_feedback_context feedback));
      let '(intents, sink) := take_intents sink in
      _ ← emit_records occ sink;
      if reject_intents && negb (zlen intents =? 0) then fail IntentAfterEnd else
      _ ← submit_intents occ trading 0 intents;
      mret ()
  end.

(** [for fill in fills { ledger.apply_fill(instrument, fill)?; }]. *)
Definition book_fills (i : Instrument.InstrumentId) : list Fill.FillRecord → R () :=
  each (λ f, s ← get; l ← lift (of_accounting (Accounting.multi_apply_fill (ledger s) i f)); modify (set_ledger l)).

Definition fills_for (sims : Simulator.MultiSimulator) (i : Instrument.InstrumentId) : option (list Fill.FillRecord) :=
  Simulator.fills <$> sims !! i.

(** A cancellation of the simulator, which cannot fail. *)
Definition cancel (f : Simulator.MultiSimulator → list Orders.OrderFeedback * Simulator.MultiSimulator) : R (list Orders.OrderFeedback) :=
  s ← get; let '(feedback, sims) := f (simulator s) in _ ← modify (set_simulator sims); mret feedback.

(** The segment of the event becomes the current one; orders that were
    entered in another one are cancelled. *)
Definition change_segment (event : Event.DomainEvent) (occ : Replay.EventOccurrence) (trading : Trading.TradingContext)
    (segment : Trading.SessionSegment) : R () :=
  s ← get;
  let i := Event.instrument event in
  let previous := current_segments s !! i in
  _ ← modify (set_current_segments (<[i := Trading.id segment]> (current_segments s)));
  match previous with
  | Some previous =>
      if bool_decide (previous ≠ Trading.id segment) then
        cancellations ← cancel (Simulator.multi_cancel_segment_end_for i previous);
        process_multi_feedback occ trading cancellations false
      else mret ()
  | None => mret ()
  end.

Definition process_multi_event (schedule : MultiSessionSchedule) (core : Replay.ReplayCore) (event : Event.DomainEvent)
    (commit : Replay.CoreCommit) : R () :=
  let occ := Replay.occurrence commit in
  let i := Event.instrument event in
  segment ← lift (ok_or (segment_for schedule i (Event.match_time event)) (Returned (ScheduleE OutsideSchedule)));
  state ← lift (ok_or (Replay.states core !! i) (Returned (ScheduleE StateAbsent)));
  trading ← lift_err ContextE (Trading.evaluate event occ state segment);
  _ ← change_segment event occ trading segment;
  sink ← call (Strategy.on_event (Strategy.new_with_states occ event state (Replay.states core) trading));
  let '(intents, sink) := take_intents sink in
  _ ← emit_records occ sink;
  accepted ← submit_intents occ trading 0 intents;
  s ← get;
  let previous_fill_count := match fills_for (simulator s) i with Some fs => length fs | None => 0%nat end in
  let '(r, sims) := Simulator.multi_evaluate (simulator s) event occ trading in
  _ ← modify (set_simulator sims);
  evaluated ← lift_err (SimulationE ∘ EventSimulation) r;
  fills ← lift (ok_or (fills_for sims i) (Returned (ScheduleE InstrumentAbsent)));
  _ ← book_fills i (drop previous_fill_count fills);
  _ ← process_multi_feedback occ trading (accepted ++ evaluated) false;
  modify (λ s, set_last_contexts (<[i := (occ, trading)]> (last_contexts s)) s).

(** *** The end of a run *)

(** The cancellations of an instrument go back with its last context. *)
Definition close_with (i : Instrument.InstrumentId)
    (f : Simulator.MultiSimulator → list Orders.OrderFeedback * Simulator.MultiSimulator) : R () :=
  cancellations ← cancel f;
  match cancellations with
  | [] => mret ()
  | _ =>
      s ← get;
      '(occ, trading) ← lift (ok_or (last_contexts s !! i) (Returned Sequence));
      process_multi_feedback occ trading cancellations true
  end.

Definition finish (instruments : list Instrument.InstrumentId) (core : Replay.ReplayCore) (allow_midpoint_fallback : bool) : R CompletedMultiBacktest :=
  s ← get;
  _ ← each (λ '(i, segment), close_with i (Simulator.multi_cancel_segment_end_for i segment)) (btree_entries (current_segments s));
  _ ← each (λ i, close_with i (Simulator.multi_cancel_end_of_run_for i)) instruments;
  marks ← lift (final_marks core allow_midpoint_fallback);
  s ← get;
  let '(r, sink, st) :=
    Strategy.finalize (Strategy.new_finalize_context (Replay.clock core) (btree_values (Replay.states core))) new_sink (strategy s) in
  _ ← modify (set_strategy st);
  _ ← lift (of_callback r);
  rs ← lift_err (StrategyE ∘ OutputError) (into_finalize_records sink);
  _ ← modify (λ s, set_output (extend_output rs (output s)) s);
  s ← get;
  _ ← lift (of_accounting (Accounting.multi_reconcile (ledger s)));
  performance ← lift (of_accounting (Accounting.multi_performance (ledger s) marks));
  replay ← lift_err (ReplayE ∘ Engine) (Replay.complete core);
  mret (mk_completed replay (output s) (simulator s) (ledger s) performance).

(** ** The run *)

(** The closure the replay calls. A panic of the strategy leaves the replay
    like an error does; the flag keeps it apart. *)
Context `{!Replay.ErrorText MultiBacktestError}.
Definition on_commit (schedule : MultiSessionSchedule) (k : RunState * bool) (core : Replay.ReplayCore) (event : Event.DomainEvent)
    (commit : Replay.CoreCommit) : result string () * ((RunState * bool) * Replay.ReplayCore) :=
  match process_multi_event schedule core event commit (fst k) with
  | (Ok _, s) => (Ok (), ((s, false), core))
  | (Err (Returned e), s) => (Err (Replay.to_string e), ((s, false), core))
  | (Err Panicked, s) => (Err "panic"%string, ((s, true), core))
  end.

Context {F St E : Type} `{!Plan.EventStream St E, !Plan.ReplayStreamFactory F St E, !Replay.ErrorText E}.

Definition run_multi_backtest (fuel : nat) (core : Replay.ReplayCore) (st : S) (plan : Plan.ReplayPlan) (factory : F)
    (schedule : MultiSessionSchedule) (sims : Simulator.MultiSimulator) (l : Accounting.MultiLedger) (allow_midpoint_fallback : bool) :
    Replay.Outcome (result (Failure MultiBacktestError) CompletedMultiBacktest) :=
  let d := Strategy.declaration st in
  match check_universes core
    [(StrategyUniverse, universe d); (ScheduleUniverse, schedule_instruments schedule); (SimulatorUniverse, btree_keys sims);
     (LedgerUniverse, btree_keys (Accounting.ledgers l))] with
  | Err e => Replay.Done (Err (Returned e))
  | Ok _ =>
      if bool_decide (sessions d ≠ schedule_sessions schedule) then Replay.Done (Err (Returned (ScheduleE SessionsDiffer))) else
      let '(r, st) := Strategy.initialize d st in
      match of_callback r with
      | Err e => Replay.Done (Err e)
      | Ok _ =>
          let s := mk_state st ∅ ∅ sims l (new_output (Strategy.identity_of st) (Strategy.canonical_params_checksum st)) in
          match Replay.replay_frozen_multi_with (on_commit schedule) fuel core plan factory (s, false) with
          | Replay.OutOfFuel => Replay.OutOfFuel
          | Replay.Panic => Replay.Panic
          | Replay.Done (_, _, (_, (_, true))) => Replay.Done (Err Panicked)
          | Replay.Done (Err e, _, _) => Replay.Done (Err (Returned (ReplayE (Engine e))))
          | Replay.Done (Ok _, core', (_, (s, false))) =>
              Replay.Done (fst (finish (core_instruments core) core' allow_midpoint_fallback s))
          end
      end
  end.
End runner.
Arguments RunState : clear implicits.

End Runner.
