(* ===== verification/RunnerLaws.v ===== *)
(** What a completed backtest shows: the ledger books exactly the simulator's
    fills, no order is left open, and the replay under the strategy is the
    replay of the plan. *)
From S2P Require Import Prelude Order Text Numeric Quantity Calendar Book Identity Signal Codec Values Event EventCodec MarketState.
From S2P Require Import Ordering OrderingLaws Replay ReplayLaws ReplayMerge Orders Requests Fill Accounting AccountingLaws LedgerLaws Simulator SimulatorLaws.
From S2P Require Import Output Strategy StrategyLaws Effects Backtest Runner.

(** What the types of the source guarantee of the orders a strategy emits. *)
Class TypedStrategy (S : Type) `{!Strategy.Strategy S} : Prop := {
  typed_event c sink st : Forall (λ i, Quantity.wf (Orders.quantity i)) (Output.intents sink) →
    Forall (λ i, Quantity.wf (Orders.quantity i)) (Output.intents (Strategy.on_event c sink st).1.2);
  typed_feedback c sink st : Forall (λ i, Quantity.wf (Orders.quantity i)) (Output.intents sink) →
    Forall (λ i, Quantity.wf (Orders.quantity i)) (Output.intents (Strategy.on_feedback c sink st).1.2) }.

Module RunnerLaws.
Import Effects.Effects Output.Output Backtest.Backtest Runner.Runner.

Section laws.
Context {B : Event.Blake3} {S : Type} {St : Strategy.Strategy S} {Ty : TypedStrategy S}.
Implicit Types (s : RunState S) (sims : gmap Instrument.InstrumentId Simulator.Simulator).

(** ** The books agree *)

Definition ledger_fills (l : Accounting.MultiLedger) (i : Instrument.InstrumentId) : option (list Fill.FillRecord) :=
  (λ e, Accounting.fills (Accounting.ledger e)) <$> Accounting.ledgers l !! i.

(** A state a new simulator can reach. *)
Definition simulated (x : Simulator.Simulator) : Prop :=
  ∃ us u m p, SimulatorLaws.sim_run (Simulator.new_with_price_policy us u m p) x.

Record consistent (D : list Instrument.InstrumentId) s : Prop := {
  c_domain : ∀ i, is_Some (fills_for (simulator s) i) → i ∈ D;
  c_fills : ∀ i, fills_for (simulator s) i = ledger_fills (ledger s) i;
  c_simulated : map_Forall (λ _, simulated) (simulator s);
  c_ledger : LedgerLaws.multi_reachable (ledger s) }.

(** Steps that leave the fills of every simulator alone. *)
Definition same_fills (a b : Simulator.MultiSimulator) : Prop := ∀ i, fills_for b i = fills_for a i.

Lemma consistent_sims D s sims : consistent D s → same_fills (simulator s) sims → map_Forall (λ _, simulated) sims → consistent D (set_simulator sims s).
Proof. intros [H0 H1 H2 H3] Hs Hw. split; [..|done|done]; intros i; simpl; rewrite Hs; [apply H0|apply H1]. Qed.
(** Simulator and ledger are left alone. *)
Definition quiet s s' : Prop := simulator s' = simulator s ∧ ledger s' = ledger s.
Lemma consistent_quiet D s s' : quiet s s' → consistent D s → consistent D s'.
Proof. intros [Hs Hl] [H0 H1 H2 H3]. split; rewrite ?Hs, ?Hl; done. Qed.
Lemma quiet_trans s1 s2 s3 : quiet s1 s2 → quiet s2 s3 → quiet s1 s3.
Proof. unfold quiet. intros [-> ->] [-> ->]. done. Qed.

Lemma sim_run_app x y z : SimulatorLaws.sim_run x y → SimulatorLaws.sim_run y z → SimulatorLaws.sim_run x z.
Proof.
  induction 1 as [|? ? ? ? ? ? ? ? ? ? ? _ IH|? ? ? ? ? ? ? ? ? _ IH|? ? ? ? ? ? ? _ IH]; intros Hz; [done|..].
  - eapply SimulatorLaws.run_submit; [done..|by apply IH].
  - eapply SimulatorLaws.run_evaluate; [done..|by apply IH].
  - eapply SimulatorLaws.run_cancel; [done|by apply IH].
Qed.

Lemma simulated_step x y : simulated x → SimulatorLaws.sim_run x y → simulated y.
Proof. intros (us & u & m & p & H) Hr. exists us, u, m, p. by eapply sim_run_app. Qed.

Lemma fills_for_insert sims i y j :
  fills_for (<[i := y]> sims) j = if decide (j = i) then Some (Simulator.fills y) else fills_for sims j.
Proof.
  unfold fills_for, Simulator.MultiSimulator. destruct (decide (j = i)) as [->|Hn]; [by rewrite lookup_insert_eq|by rewrite lookup_insert_ne].
Qed.
Lemma fills_for_lookup sims i x : sims !! i = Some x → fills_for sims i = Some (Simulator.fills x).
Proof. unfold fills_for, Simulator.MultiSimulator. by intros ->. Qed.
Lemma fills_insert sims i x y : sims !! i = Some x → Simulator.fills y = Simulator.fills x → same_fills sims (<[i := y]> sims).
Proof. intros Hi Hf j. rewrite fills_for_insert. case_decide; [subst; rewrite (fills_for_lookup _ _ _ Hi)|]; by rewrite ?Hf. Qed.

Lemma multi_submit_fills sims sid occ trading n i fb sims' : Quantity.wf (Orders.quantity i) →
  Simulator.multi_submit sims sid occ trading n i = Ok (fb, sims') → map_Forall (λ _, simulated) sims →
  same_fills sims sims' ∧ map_Forall (λ _, simulated) sims'.
Proof.
  intros Hq. unfold Simulator.multi_submit, Simulator.MultiSimulator. destruct (sims !! Orders.instrument i) as [x|] eqn:Hi; [|by intros [= <- <-]].
  intros ([f y] & Hs & [= <- <-])%bind_Ok Hw. split.
  - eapply fills_insert; [done|]. apply SimulatorLaws.submit_Ok in Hs as [[-> _]|(? & ? & _ & _ & _ & _ & _ & ->)]; done.
  - apply map_Forall_insert_2; [|done]. eapply simulated_step; [by apply (Hw _ _ Hi)|].
    eapply SimulatorLaws.run_submit; [done..|]. constructor.
Qed.

Lemma cancel_for_fills select reason i sims : map_Forall (λ _, simulated) sims →
  let '(_, sims') := Simulator.cancel_for (Simulator.cancel_orders select reason) i sims in
  same_fills sims sims' ∧ map_Forall (λ _, simulated) sims'.
Proof.
  intros Hw. unfold Simulator.cancel_for, Simulator.MultiSimulator. destruct (sims !! i) as [x|] eqn:Hi; [|done].
  destruct (Simulator.cancel_orders select reason x) as [fb y] eqn:Hc. split.
  - eapply fills_insert; [done|]. unfold Simulator.cancel_orders in Hc. by injection Hc as <- <-.
  - apply map_Forall_insert_2; [|done]. eapply simulated_step; [by apply (Hw _ _ Hi)|]. eapply SimulatorLaws.run_cancel; [done|]. constructor.
Qed.

(** Evaluating an event adds fills to its own instrument alone. *)
Lemma multi_evaluate_fills sims e occ trading r sims' : EventCodec.wf e → map_Forall (λ _, simulated) sims →
  Simulator.multi_evaluate sims e occ trading = (r, sims') →
  map_Forall (λ _, simulated) sims' ∧ ∃ fs, ∀ i, fills_for sims' i = (if decide (i = Event.instrument e) then (.++ fs) else id) <$> fills_for sims i.
Proof.
  intros He Hw. unfold Simulator.multi_evaluate, Simulator.MultiSimulator. destruct (sims !! Event.instrument e) as [x|] eqn:Hi.
  - destruct (Simulator.evaluate x e occ trading) as [r' y] eqn:Ey. intros [= <- <-].
    destruct (Hw _ _ Hi) as (us & u & m & p & Hrun).
    pose proof (SimulatorLaws.sim_run_wf _ _ Hrun (SimulatorLaws.new_sim_wf _ _ _ _)) as Hx.
    pose proof (SimulatorLaws.evaluate_wf x e occ trading Hx He) as Hs. rewrite Ey in Hs. destruct Hs as (_ & _ & _ & _ & _ & _ & _ & fs & Hfs).
    split.
    + apply map_Forall_insert_2; [|done]. eapply simulated_step; [by exists us, u, m, p|]. eapply SimulatorLaws.run_evaluate; [done..|]. constructor.
    + exists fs. intros i. rewrite fills_for_insert. destruct (decide (i = Event.instrument e)) as [->|Hn].
      * by rewrite (fills_for_lookup _ _ _ Hi), Hfs.
      * by destruct (fills_for sims i).
  - intros [= <- <-]. split; [done|]. exists []. intros i. destruct (fills_for sims i) as [l|]; [|done]. case_decide; simpl; by rewrite ?app_nil_r.
Qed.

(** Booking fills adds them to the ledger of their instrument alone. *)
Lemma apply_fill_fills l i f l' : Accounting.multi_apply_fill l i f = Ok l' →
  ∀ j, ledger_fills l' j = (if decide (j = i) then (.++ [f]) else id) <$> ledger_fills l j.
Proof.
  unfold Accounting.multi_apply_fill. intros (entry & He & H)%bind_Ok. unfold ok_or in He. destruct (Accounting.ledgers l !! i) as [x|] eqn:Hi; [|done].
  injection He as <-. destruct (bool_decide _); [done|]. destruct (negb _); [done|]. apply bind_Ok in H as (next & Hn & H).
  apply bind_Ok in H as (? & _ & H). apply bind_Ok in H as (? & _ & [= <-]). intros j. unfold ledger_fills. simpl.
  destruct (decide (j = i)) as [->|Hne].
  - rewrite lookup_insert_eq, Hi. simpl. f_equal. by destruct (AccountingLaws.apply_fill_Ok _ _ _ Hn) as (? & ? & ? & ? & _ & _ & _ & _ & _ & _ & _ & _ & -> & _).
  - rewrite lookup_insert_ne by done. by destruct (Accounting.ledgers l !! j).
Qed.

(** ** One event *)

Definition intents_typed (sink : StrategyOutputSink) : Prop := Forall (λ i, Quantity.wf (Orders.quantity i)) (intents sink).

Lemma call_ensures f s : (∀ sink st, intents_typed sink → intents_typed (f sink st).1.2) →
  ensures (call f) s (λ sink s', quiet s s' ∧ intents_typed sink).
Proof.
  intros Hf. unfold call. follow. specialize (Hf with_order_intents (strategy s)). destruct (f _ _) as [[r sink] st].
  follow. follow. intros x _. follow. split; [done|]. apply Hf. constructor.
Qed.

Lemma emit_records_ensures occ sink s : ensures (emit_records occ sink) s (λ _ s', quiet s s').
Proof. unfold emit_records. follow. intros rs _. by follow. Qed.

Lemma submit_intents_ensures D occ trading l : ∀ n s, consistent D s → Forall (λ i, Quantity.wf (Orders.quantity i)) l →
  ensures (submit_intents occ trading n l) s (λ _ s', consistent D s' ∧ same_fills (simulator s) (simulator s')).
Proof.
  induction l as [|i l IH]; intros n s Hs Hl; simpl; [done|]. apply Forall_cons_iff in Hl as [Hi Hl].
  follow. follow. intros m _. follow. intros [fb sims] Hsub. follow.
  destruct (multi_submit_fills _ _ _ _ _ _ _ _ Hi Hsub (c_simulated _ _ Hs)) as [Hf Hw].
  pose proof (consistent_sims _ _ _ Hs Hf Hw) as Hs1. follow. eapply ensures_mono; [by apply IH|].
  intros x s' [Hs' Hf']. follow. split; [done|]. intros j. rewrite Hf'. apply Hf.
Qed.

Lemma process_multi_feedback_ensures D occ trading feedback rejects s : consistent D s →
  ensures (process_multi_feedback occ trading feedback rejects) s
    (λ _ s', consistent D s' ∧ same_fills (simulator s) (simulator s') ∧ (rejects = true → quiet s s')).
Proof.
  intros Hs. unfold process_multi_feedback. destruct feedback as [|fb feedback]; [apply ensures_ret; by split_and!|]. set (c := Strategy.new_feedback_context _).
  follow. eapply ensures_mono; [apply call_ensures; intros sink st; apply typed_feedback|]. intros sink s1 [Hq1 Hi].
  unfold take_intents. follow. eapply ensures_mono; [apply emit_records_ensures|]. intros u s2 Hq2.
  pose proof (quiet_trans _ _ _ Hq1 Hq2) as Hq. pose proof (consistent_quiet _ _ _ Hq Hs) as Hs2. destruct Hq as [Hqs Hql].
  destruct rejects; cbn [andb].
  - destruct (intents sink) as [|i l]; [|done]. unfold zlen. cbn. split_and!; [done| |done]. intros j. by rewrite Hqs.
  - follow. eapply ensures_mono; [by apply submit_intents_ensures|]. intros x s3 [Hs3 Hf]. follow. split_and!; [done| |done]. intros j. by rewrite Hf, Hqs.
Qed.

Lemma book_fills_ensures i fs : ∀ s, LedgerLaws.multi_reachable (ledger s) →
  ensures (book_fills i fs) s (λ _ s', simulator s' = simulator s ∧ LedgerLaws.multi_reachable (ledger s') ∧
    ∀ j, ledger_fills (ledger s') j = (if decide (j = i) then (.++ fs) else id) <$> ledger_fills (ledger s) j).
Proof.
  unfold book_fills. induction fs as [|f fs IH]; intros s Hl; simpl.
  { follow. split_and!; [done..|]. intros j. destruct (ledger_fills _ j); [|done]. case_decide; simpl; by rewrite ?app_nil_r. }
  follow. follow. follow. intros l' Hf. follow. unfold of_accounting in Hf.
  destruct (Accounting.multi_apply_fill _ i f) as [x|] eqn:Ha; [|done]. injection Hf as <-.
  eapply ensures_mono; [apply IH; by eapply LedgerLaws.reach_fill|]. intros u s' (Hs & Hr & Hj). split_and!; [done..|].
  intros j. rewrite Hj. simpl. rewrite (apply_fill_fills _ _ _ _ Ha j). destruct (ledger_fills (ledger s) j); [|done].
  case_decide; simpl; [|done]. by rewrite <-(assoc_L (++)).
Qed.

Lemma change_segment_ensures D e occ trading segment s : consistent D s →
  ensures (change_segment e occ trading segment) s (λ _ s', consistent D s').
Proof.
  intros Hs. unfold change_segment. follow. follow.
  assert (Hs1 : consistent D (set_current_segments (<[Event.instrument e := Trading.id segment]> (current_segments s)) s)) by by apply (consistent_quiet D s).
  destruct (current_segments s !! _) as [previous|]; [|done]. case_bool_decide; [|done]. unfold cancel. follow. follow. unfold Simulator.multi_cancel_segment_end_for, Simulator.cancel_segment_end.
  simpl. pose proof (cancel_for_fills (λ o, bool_decide (Simulator.origin_segment_id o = previous)) Orders.SegmentEnd (Event.instrument e)
    (simulator s) (c_simulated _ _ Hs)) as Hc. destruct (Simulator.cancel_for _ _ _) as [fb sims]. destruct Hc as [Hf Hw].
  follow. follow. eapply ensures_mono; [apply (process_multi_feedback_ensures D)|by intros u s' [Hs' _]].
  eapply (consistent_quiet D (set_simulator sims s)); [done|by apply consistent_sims].
Qed.

Lemma process_multi_event_ensures D schedule core e commit s : EventCodec.wf e → consistent D s →
  ensures (process_multi_event schedule core e commit) s (λ _ s', consistent D s').
Proof.
  intros He Hs. unfold process_multi_event. follow. intros segment _. follow. intros state _. follow. intros trading _.
  follow. eapply ensures_mono; [by apply change_segment_ensures|]. intros u1 s1 Hs1.
  set (c := Strategy.new_with_states _ _ _ _ _). follow. eapply ensures_mono; [apply call_ensures; intros sink st; apply typed_event|].
  intros sink s2 [Hq2 Hi]. unfold take_intents. follow. eapply ensures_mono; [apply emit_records_ensures|]. intros u3 s3 Hq3.
  pose proof (consistent_quiet _ _ _ (quiet_trans _ _ _ Hq2 Hq3) Hs1) as Hs3. follow.
  eapply ensures_mono; [by apply submit_intents_ensures|]. intros accepted s4 [Hs4 _]. follow.
  destruct (Simulator.multi_evaluate _ e _ trading) as [r sims] eqn:Hev.
  destruct (multi_evaluate_fills _ _ _ _ _ _ He (c_simulated _ _ Hs4) Hev) as (Hw & fs & Hfs).
  follow. follow. intros evaluated _. follow. intros fills Hfills.
  assert (Hdrop : ∃ old, fills_for (simulator s4) (Event.instrument e) = Some old ∧ fills = old ++ fs).
  { unfold ok_or in Hfills. destruct (fills_for sims _) as [x|] eqn:Hx; [|done]. injection Hfills as <-. rewrite Hfs, decide_True in Hx by done.
    destruct (fills_for (simulator s4) _) as [old|]; [|done]. exists old. split; [done|]. by injection Hx as <-. }
  destruct Hdrop as (old & Hold & ->). rewrite Hold, drop_app_length. follow.
  eapply ensures_mono; [apply book_fills_ensures; apply Hs4|]. intros u5 s5 (Hsim5 & Hr5 & Hl5).
  assert (Hs5 : consistent D s5).
  { split; rewrite ?Hsim5; simpl; try done.
    - intros i Hi'. apply (c_domain _ _ Hs4). rewrite Hfs in Hi'. by destruct (fills_for (simulator s4) i).
    - intros i. rewrite Hl5, Hfs. simpl. by rewrite (c_fills _ _ Hs4). }
  follow. eapply ensures_mono; [by apply (process_multi_feedback_ensures D)|]. intros u6 s6 (Hs6 & _). follow.
  by apply (consistent_quiet D s6).
Qed.

(** ** The end of a run *)

Definition closed_at s (i : Instrument.InstrumentId) : Prop :=
  ∀ x, simulator s !! i = Some x → Forall (λ o, Simulator.is_open o = false) (Simulator.orders x).

(** Closing an instrument keeps closed ones closed. *)
Lemma close_with_ensures D select reason i s : consistent D s →
  ensures (close_with i (Simulator.cancel_for (Simulator.cancel_orders select reason) i)) s (λ _ s', consistent D s' ∧
    (∀ j, closed_at s j → closed_at s' j) ∧ ((∀ o, select o = true) → closed_at s' i)).
Proof.
  intros Hs. unfold close_with, cancel. follow. follow. pose proof (cancel_for_fills select reason i (simulator s) (c_simulated _ _ Hs)) as Hc.
  assert (Hclosed : ∀ s', simulator s' = (Simulator.cancel_for (Simulator.cancel_orders select reason) i (simulator s)).2 →
    (∀ j, closed_at s j → closed_at s' j) ∧ ((∀ o, select o = true) → closed_at s' i)).
  { intros s' Hs'. unfold closed_at. rewrite Hs'. clear Hc Hs' s'. unfold Simulator.cancel_for, Simulator.MultiSimulator.
    destruct (simulator s !! i) as [x|] eqn:Hi; [|split; [intros j Hj x Hx; exact (Hj x Hx)|]; intros _ x; simpl; congruence]. unfold Simulator.cancel_orders. simpl. split.
    - intros j Hj y. destruct (decide (j = i)) as [->|Hn]; [|rewrite lookup_insert_ne by done; apply Hj]. rewrite lookup_insert_eq.
      intros [= <-]. simpl. apply Forall_fmap. eapply Forall_impl; [|exact (Hj _ Hi)]. intros o Ho. simpl. by rewrite Ho, andb_false_r.
    - intros Hall y. rewrite lookup_insert_eq. intros [= <-]. simpl. apply Forall_fmap, Forall_forall. intros o _. simpl. rewrite Hall. simpl.
      by destruct (Simulator.is_open o) eqn:E. }
  destruct (Simulator.cancel_for _ _ _) as [fb sims]. destruct Hc as [Hf Hw]. follow. follow.
  pose proof (consistent_sims _ _ _ Hs Hf Hw) as Hs1. pose proof (Hclosed (set_simulator sims s) eq_refl) as Hc1.
  destruct fb as [|f fb]; [done|]. follow. follow. intros [occ trading] _.
  eapply ensures_mono; [by apply (process_multi_feedback_ensures D)|]. intros u s' (Hs' & _ & Hq). specialize (Hq eq_refl) as [Hq _].
  split; [done|]. apply Hclosed. by rewrite Hq.
Qed.

Lemma close_segments_ensures D l : ∀ s, consistent D s →
  ensures (each (λ '(i, segment), close_with i (Simulator.multi_cancel_segment_end_for i segment)) l) s (λ _ s', consistent D s').
Proof.
  intros s Hs. apply (ensures_each _ l (consistent D)); [|done]. intros [i segment] s1 _ Hs1.
  eapply ensures_mono; [by apply (close_with_ensures D)|]. by intros u s' [? _].
Qed.

Lemma close_all_ensures D l : ∀ s, consistent D s →
  ensures (each (λ i, close_with i (Simulator.multi_cancel_end_of_run_for i)) l) s
    (λ _ s', consistent D s' ∧ (∀ j, closed_at s j → closed_at s' j) ∧ ∀ i, i ∈ l → closed_at s' i).
Proof.
  induction l as [|i l IH]; intros s Hs; simpl; [apply ensures_ret; split_and!; [done..|]; by intros i ?%not_elem_of_nil|].
  follow. eapply ensures_mono; [by apply (close_with_ensures D)|]. intros u s1 (Hs1 & Hk1 & Hc1).
  eapply ensures_mono; [by apply IH|]. intros u' s2 (Hs2 & Hk2 & Hc2). split_and!; [done|by eauto|].
  intros j [->|Hj]%elem_of_cons; [|by apply Hc2]. apply Hk2, Hc1. done.
Qed.

(** What a completed run leaves behind. *)
Record settled_books (done_ : CompletedMultiBacktest) : Prop := {
  sb_fills : ∀ i, fills_for (completed_simulator done_) i = ledger_fills (completed_ledger done_) i;
  sb_closed : ∀ i x o, completed_simulator done_ !! i = Some x → o ∈ Simulator.orders x →
    Simulator.status o = Simulator.FilledStatus ∨ Simulator.status o = Simulator.CancelledStatus;
  sb_simulated : map_Forall (λ _, SimulatorLaws.sim_wf) (completed_simulator done_);
  sb_ledger : LedgerLaws.multi_reachable (completed_ledger done_);
  sb_cash : Decimal.atoms (Accounting.multi_cash (completed_ledger done_)) =
    Decimal.atoms (Accounting.multi_initial_cash (completed_ledger done_)) + LedgerLaws.ledgers_cash (Accounting.ledgers (completed_ledger done_)) -
    LedgerLaws.charged (Accounting.cash_charges (completed_ledger done_));
  sb_reconciled : Accounting.multi_reconcile (completed_ledger done_) = Ok () }.

Lemma finish_ensures D core mid s : consistent D s →
  ensures (finish D core mid) s (λ done_ _, settled_books done_ ∧ Replay.complete core = Ok (completed_replay done_)).
Proof.
  intros Hs. unfold finish. follow. follow. eapply ensures_mono; [by apply close_segments_ensures|]. intros u1 s1 Hs1.
  follow. eapply ensures_mono; [by apply (close_all_ensures D)|]. intros u2 s2 (Hs2 & _ & Hc2).
  follow. intros marks _. follow. destruct (Strategy.finalize _ _ _) as [[r sink] st]. follow. follow. intros u3 _.
  follow. intros rs _. follow. follow. cbn [set_output set_strategy ledger simulator].
  follow. intros [] Hrec. follow. intros performance _. follow. intros replay Hrep. follow. split; [|done]. split; cbn [completed_simulator completed_ledger].
  - apply Hs2.
  - intros i x o Hx Ho. assert (Hc : Forall (λ o, Simulator.is_open o = false) (Simulator.orders x)).
    { apply (Hc2 i); [|done]. apply (c_domain _ _ Hs2). exists (Simulator.fills x). by apply fills_for_lookup. }
    rewrite list.Forall_forall in Hc. specialize (Hc o Ho). unfold Simulator.is_open in Hc. destruct (Simulator.status o); auto; done.
  - intros i x Hx. destruct (c_simulated _ _ Hs2 i x Hx) as (us & uu & m & p & Hr).
    by eapply SimulatorLaws.sim_run_wf, SimulatorLaws.new_sim_wf.
  - apply Hs2.
  - apply LedgerLaws.multi_balance, LedgerLaws.multi_reachable_wf, Hs2.
  - unfold of_accounting in Hrec. by destruct (Accounting.multi_reconcile _) as [[]|].
Qed.

(** ** Runs *)

Lemma insert_simulators_fresh cs : ∀ sims sims', (∀ i x, sims !! i = Some x → simulated x ∧ Simulator.fills x = []) →
  try_fold Simulator.insert_simulator sims cs = Ok sims' → ∀ i x, (sims' : gmap _ _) !! i = Some x → simulated x ∧ Simulator.fills x = [].
Proof.
  induction cs as [|[[[i u] m] p] cs IH]; intros sims sims' H; cbn [try_fold]; [by intros [= <-]|].
  intros (sims1 & H1 & Hc)%bind_Ok. unfold Simulator.insert_simulator, Simulator.MultiSimulator in H1.
  destruct (sims !! i) eqn:Hi; [done|]. injection H1 as <-. intros j x Hx.
  refine (IH _ _ _ Hc j x Hx). intros k y [[<- <-]|[_ Hy]]%lookup_insert_Some; [|by apply (H k)].
  split; [|done]. do 4 eexists. constructor.
Qed.

Lemma insert_configs_fresh cs : ∀ ls ls', (∀ i e, ls !! i = Some e → Accounting.fills (Accounting.ledger e) = []) →
  try_fold Accounting.insert_config ls cs = Ok ls' → ∀ i e, ls' !! i = Some e → Accounting.fills (Accounting.ledger e) = [].
Proof.
  induction cs as [|c cs IH]; intros ls ls' H; cbn [try_fold]; [by intros [= <-]|].
  intros (ls1 & H1 & Hc)%bind_Ok. unfold Accounting.insert_config in H1. destruct (_ || _ || _); [done|].
  apply bind_Ok in H1 as (? & _ & H1). apply bind_Ok in H1 as (? & _ & H1). cbv zeta in H1.
  destruct (ls !! Accounting.instrument c) eqn:Hn; [done|]. injection H1 as <-. eapply IH; [|done].
  intros i e [[<- <-]|[_ He]]%lookup_insert_Some; [|by eapply H]. unfold Accounting.with_optional_day_trade_tax. simpl.
  by destruct (Accounting.config_day_trade_tax c).
Qed.

(** New simulators and a new ledger for the same instruments agree. *)
Lemma initial_consistent st sims l o simulators cash configs : Decimal.wf cash →
  Simulator.new_multi simulators = Ok sims → Accounting.multi_new cash configs = Ok l →
  btree_keys (Accounting.ledgers l) = btree_keys (sims : gmap _ _) → consistent (btree_keys sims) (mk_state st ∅ ∅ sims l o).
Proof.
  intros Hc Hs Hl Hk. pose proof Hl as Hr.
  unfold Simulator.new_multi in Hs. apply bind_Ok in Hs as (sims' & Hs & Hs'). case_bool_decide; [done|]. injection Hs' as <-.
  unfold Accounting.multi_new in Hl. destruct (_ <? 0); [done|]. apply bind_Ok in Hl as (ls & Hl & Hl'). case_bool_decide; [done|]. injection Hl' as <-.
  cbn [Accounting.ledgers] in Hk.
  assert (Hsims : ∀ i x, (sims' : gmap _ _) !! i = Some x → simulated x ∧ Simulator.fills x = []).
  { refine (insert_simulators_fresh simulators ∅ sims' _ Hs). intros i x Hx. by rewrite lookup_empty in Hx. }
  assert (Hls : ∀ i e, ls !! i = Some e → Accounting.fills (Accounting.ledger e) = []).
  { refine (insert_configs_fresh configs ∅ ls _ Hl). intros i x Hx. by rewrite lookup_empty in Hx. }
  assert (Hdom : ∀ i, is_Some ((sims' : gmap _ _) !! i) ↔ is_Some (ls !! i)) by (intros i; by rewrite <-!elem_of_btree_keys, Hk).
  split; cbn [simulator ledger].
  - intros i [x Hx]. apply elem_of_btree_keys. unfold fills_for, Simulator.MultiSimulator in *. by destruct ((sims' : gmap _ _) !! i).
  - intros i. unfold fills_for, ledger_fills, Simulator.MultiSimulator. simpl. specialize (Hdom i).
    destruct ((sims' : gmap _ _) !! i) as [x|] eqn:Hx, (ls !! i) as [e|] eqn:He; simpl; [|destruct (proj1 Hdom (mk_is_Some _ _ eq_refl)) as [? [=]]|destruct (proj2 Hdom (mk_is_Some _ _ eq_refl)) as [? [=]]|done].
    f_equal. destruct (Hsims i x Hx) as [_ ->]. by rewrite (Hls i e He).
  - intros i x Hx. by apply (Hsims i).
  - by eapply LedgerLaws.reach_new.
Qed.

Context {Txt : Replay.ErrorText MultiBacktestError}.

(** The loop under the strategy commits what the plain loop commits. *)
Lemma apply_all_with_on_commit D schedule es : ∀ c s c' s', Forall EventCodec.wf es → consistent D s →
  ReplayMerge.apply_all_with (on_commit schedule) c (s, false) es = (Ok (), c', (s', false)) →
  Replay.apply_all c es = (Ok (), c') ∧ consistent D s'.
Proof.
  induction es as [|e es IH]; intros c s c' s' Hes Hs; simpl; [by intros [= <- <-]|]. apply Forall_cons_iff in Hes as [He Hes].
  destruct (Replay.apply_ordered c e) as [[commit|] c1]; [|done]. unfold on_commit at 1. cbn [fst].
  pose proof (process_multi_event_ensures D schedule c1 e commit s He Hs) as Hp. unfold ensures in Hp.
  destruct (process_multi_event _ _ _ _ _) as [[u|[err|]] s1]; [|done..]. by apply IH.
Qed.

Context {F T E : Type} {Str : Plan.EventStream T E} {Fin : FiniteStream T E} {Fac : Plan.ReplayStreamFactory F T E}
  {Frz : FrozenFactory F T E} {Etx : Replay.ErrorText E}.

(** What a plan, its streams and the parts of a backtest promise. *)
Record ready (core : Replay.ReplayCore) (plan : Plan.ReplayPlan) (factory : F) (ordered : list Event.DomainEvent)
    (sims : gmap Instrument.InstrumentId Simulator.Simulator) (l : Accounting.MultiLedger) : Prop := {
  r_admits : Forall (ReplayMerge.admits core) (Plan.bindings plan);
  r_sorted : Forall (StronglySorted OrderingLaws.event_le) (frozen factory <$> Plan.bindings plan);
  r_fits : Forall OrderingLaws.event_fits (concat (frozen factory <$> Plan.bindings plan));
  r_ordered : Ordering.order_events (concat (frozen factory <$> Plan.bindings plan)) = Ok ordered;
  r_simulators : ∃ configs, Simulator.new_multi configs = Ok (sims : Simulator.MultiSimulator);
  r_ledger : ∃ cash configs, Decimal.wf cash ∧ Accounting.multi_new cash configs = Ok l }.

Lemma check_universes_Ok core named : check_universes core named = Ok () → Forall (λ x, x.2 = core_instruments core) named.
Proof.
  unfold check_universes. induction named as [|[e l] named IH]; cbn [try_fold]; [constructor|]. case_bool_decide as Hl; [done|].
  intros H. constructor; [done|exact (IH H)].
Qed.

Lemma run_multi_backtest_spec fuel core st plan factory schedule sims l mid ordered :
  ready core plan factory ordered sims l → (length ordered < fuel)%nat →
  ∃ r, run_multi_backtest fuel core st plan factory schedule sims l mid = Replay.Done r ∧
    ∀ done_, r = Ok done_ → settled_books done_ ∧
      ∃ core', Replay.apply_all core ordered = (Ok (), core') ∧ Replay.complete core' = Ok (completed_replay done_).
Proof.
  intros [Hadm Hsorted Hfit Hord [sc Hsims] (cash & lc & Hcash & Hl)] Hfuel. unfold run_multi_backtest.
  destruct (check_universes core _) as [[]|] eqn:Hu; [|by eexists]. case_bool_decide; [by eexists|].
  destruct (Strategy.initialize _ st) as [ri st1]. destruct (of_callback ri) as [[]|]; [|by eexists].
  set (s0 := mk_state _ _ _ _ _ _).
  destruct (ReplayMerge.replay_frozen_multi_with_lemma (on_commit schedule) fuel core plan factory (s0, false) ordered Hadm Hsorted Hfit Hord Hfuel)
    as (f' & r & core' & [s' unwound] & -> & Ha).
  apply check_universes_Ok in Hu. apply Forall_cons_iff in Hu as [_ Hu]. apply Forall_cons_iff in Hu as [_ Hu].
  apply Forall_cons_iff in Hu as [Hus Hu]. apply Forall_cons_iff in Hu as [Hul _]. cbn [snd] in Hus, Hul.
  assert (Hs0 : consistent (core_instruments core) s0).
  { unfold s0. rewrite <-Hus. eapply (initial_consistent _ sims); [done..|by rewrite Hul, Hus]. }
  assert (Hwf : Forall EventCodec.wf ordered).
  { destruct (OrderingLaws.order_events_unique_sorted _ _ Hfit Hord) as (Hp & _). rewrite Hp. eapply Forall_impl; [|exact Hfit]. by intros e []. }
  destruct r as [[]|err], unwound; try (by eexists).
  destruct (apply_all_with_on_commit _ _ _ _ _ _ _ Hwf Hs0 Ha) as [Happ Hs']. eexists. split; [done|]. intros done_ Hd.
  pose proof (finish_ensures _ core' mid s' Hs') as Hf. unfold ensures in Hf. destruct (finish _ _ _ _) as [x s2]. simpl in Hd. subst x.
  destruct Hf as [Hf Hc]. split; [done|]. by exists core'.
Qed.

(** A backtest ends, whatever the strategy does, and a completed one has
    replayed exactly the plan: its replay is the in-memory replay of all the
    events of the plan's streams. *)
Theorem backtest_is_replay fuel core st plan factory schedule sims l mid ordered :
  ready core plan factory ordered sims l → (length ordered < fuel)%nat →
  ∃ r, run_multi_backtest fuel core st plan factory schedule sims l mid = Replay.Done r ∧
    ∀ done_, r = Ok done_ → ∃ core', Replay.replay core (concat (frozen factory <$> Plan.bindings plan)) = (Ok (), core') ∧
      Replay.complete core' = Ok (completed_replay done_).
Proof.
  intros Hr Hf. destruct (run_multi_backtest_spec fuel core st plan factory schedule sims l mid ordered Hr Hf) as (r & -> & H).
  exists r. split; [done|]. intros done_ Hd. destruct (H done_ Hd) as (_ & core' & Ha & Hc). exists core'. split; [|done].
  unfold Replay.replay. by rewrite (r_ordered _ _ _ _ _ _ Hr).
Qed.

(** C12: in a completed backtest every fill of every simulator is booked exactly
    once, in order, in the ledger of its instrument; no order is left open;
    every simulator satisfies its invariant; and the shared ledger is one that
    its operations built and reconciles. *)
Theorem backtest_settles fuel core st plan factory schedule sims l mid ordered done_ :
  ready core plan factory ordered sims l → (length ordered < fuel)%nat →
  run_multi_backtest fuel core st plan factory schedule sims l mid = Replay.Done (Ok done_) → settled_books done_.
Proof.
  intros Hr Hf H. destruct (run_multi_backtest_spec fuel core st plan factory schedule sims l mid ordered Hr Hf) as (r & Hr' & Hd).
  rewrite H in Hr'. injection Hr' as <-. by apply Hd.
Qed.
End laws.

(** ** A concrete backtest *)

#[local] Instance demo_hash : Event.Blake3 := λ b, b.
#[local] Instance demo_text : Replay.ErrorText MultiBacktestError := λ _, "error"%string.
#[local] Instance demo_no_text : Replay.ErrorText Empty_set := λ e, match e with end.
#[local] Instance demo_event_stream : Plan.EventStream (list Event.DomainEvent) Empty_set :=
  λ s, match s with [] => (Ok None, []) | e :: s => (Ok (Some e), s) end.
#[local] Instance demo_stream_factory : Plan.ReplayStreamFactory (list Event.DomainEvent) (list Event.DomainEvent) Empty_set :=
  λ f b, (Ok f, f).
#[local] Instance demo_finite : FiniteStream (list Event.DomainEvent) Empty_set.
Proof. refine {| contents s := s |}. intros [|e s]; by eexists. Defined.
#[local] Instance demo_frozen : FrozenFactory (list Event.DomainEvent) (list Event.DomainEvent) Empty_set.
Proof. refine {| frozen f := λ _, f |}. intros f b. by exists f, f. Defined.

(** Buys three shares at its first event. *)
Definition buy_once (sink : StrategyOutputSink) (n : Z) : result Strategy.CallbackFailure () * StrategyOutputSink * Z :=
  (Ok (), if n =? 0 then snd (emit_order_intent (SimulatorLaws.sample_intent 3) sink) else sink, n + 1).
#[local] Instance demo_buyer : Strategy.Strategy Z := {|
  Strategy.identity_of _ := mk_identity (bytes_of "buyer") (bytes_of "1") (mk_binary (bytes_of "sha") [1]);
  Strategy.canonical_params_checksum _ := [];
  Strategy.declaration _ := mk_declaration [ReplayLaws.demo_instrument] [Trading.RegularSession];
  Strategy.initialize _ n := (Ok (), n);
  Strategy.on_event _ sink n := buy_once sink n;
  Strategy.on_feedback _ sink n := (Ok (), sink, n);
  Strategy.on_timer _ sink n := (Ok (), sink, n);
  Strategy.finalize _ sink n := (Ok (), sink, n) |}.
#[local] Instance demo_typed : TypedStrategy Z.
Proof.
  split; intros c sink n Hs; simpl; [|done]. destruct (n =? 0); [|done]. unfold emit_order_intent. destruct (negb _); [done|].
  simpl. apply Forall_app. split; [done|]. apply Forall_singleton. by apply SimulatorLaws.sample_intent_wf.
Qed.

Definition demo_segment : Trading.SessionSegment :=
  Trading.mk_segment (Model.mk_segment (bytes_of "day")) Trading.RegularSession ReplayLaws.demo_date
    (MatchTime.from_unix_microseconds 1) (MatchTime.from_unix_microseconds 100000).
Definition demo_schedule : MultiSessionSchedule :=
  match new_schedule [(ReplayLaws.demo_instrument, [demo_segment])] with Ok s => s | Err _ => mk_schedule ∅ end.
Definition demo_core : Replay.ReplayCore := StrategyLaws.demo_core.
Definition demo_factory : list Event.DomainEvent := ReplayLaws.demo_event <$> [5; 2005; 3000].
Definition demo_plan : Plan.ReplayPlan := Plan.mk_plan [] [ReplayMerge.demo_binding 1] [].
Definition demo_simulators : list (Instrument.InstrumentId * Quantity.QuantityUnit * Simulator.FillModel * Price.PricePolicy) :=
  [(ReplayLaws.demo_instrument, Quantity.Share, SimulatorLaws.sample_model, Price.PositiveOnly)].
Definition demo_sims : gmap Instrument.InstrumentId Simulator.Simulator :=
  match Simulator.new_multi demo_simulators with Ok s => s | Err _ => ∅ end.
Definition demo_configs : list Accounting.InstrumentLedgerConfig :=
  [Accounting.config_new ReplayLaws.demo_instrument Quantity.Share Accounting.EquityV1 AccountingLaws.sample_economics
     AccountingLaws.sample_fee AccountingLaws.sample_tax].
Definition demo_ledger : Accounting.MultiLedger :=
  LedgerLaws.get (Accounting.multi_new (Decimal.from_atoms (2000000 * 10 ^ 18)) demo_configs).

Lemma demo_ready : ready demo_core demo_plan demo_factory demo_factory demo_sims demo_ledger.
Proof.
  split.
  - apply (Forall_cons_2 _); [eexists; split; [by vm_compute|by left]|apply Forall_nil_2].
  - apply (Forall_cons_2 _); [repeat constructor|apply Forall_nil_2]; (do 2 eexists; split_and!; [vm_compute; reflexivity|vm_compute; reflexivity|by vm_compute]).
  - assert (H : ∀ t, is_i64 t → (∃ b, Event.to_canonical_bytes (ReplayLaws.demo_event t) = Ok b ∧ zlen b ≤ isize_max) →
      OrderingLaws.event_fits (ReplayLaws.demo_event t)).
    { intros t Ht (b & Hb & Hl). split; [by apply EventCodec.sample_at_wf|]. intros b'. rewrite Hb. by intros [= <-]. }
    repeat (apply (Forall_cons_2 _); [apply H; [by unfold_ints|eexists; split; [vm_compute; reflexivity|by vm_compute]]|]). apply Forall_nil_2.
  - by vm_compute.
  - exists demo_simulators. unfold demo_sims. assert (H : is_ok (Simulator.new_multi demo_simulators) = true) by by vm_compute.
    by destruct (Simulator.new_multi demo_simulators).
  - do 2 eexists. split; [|apply LedgerLaws.get_Ok; by vm_compute]. by vm_compute.
Qed.

Definition demo_backtest : Replay.Outcome (result (Failure MultiBacktestError) CompletedMultiBacktest) :=
  run_multi_backtest 4 demo_core 0 demo_plan demo_factory demo_schedule demo_sims demo_ledger true.
Definition booked (r : Replay.Outcome (result (Failure MultiBacktestError) CompletedMultiBacktest)) : Z :=
  match r with
  | Replay.Done (Ok d) => match ledger_fills (completed_ledger d) ReplayLaws.demo_instrument with Some fs => zlen fs | None => -1 end
  | _ => -2
  end.

Lemma backtest_is_replay_witness : ∃ r, demo_backtest = Replay.Done r ∧
  ∀ done_, r = Ok done_ → ∃ core', Replay.replay demo_core (concat (frozen demo_factory <$> Plan.bindings demo_plan)) = (Ok (), core') ∧
    Replay.complete core' = Ok (completed_replay done_).
Proof. apply (backtest_is_replay 4 demo_core 0 demo_plan demo_factory demo_schedule demo_sims demo_ledger true demo_factory demo_ready). simpl. lia. Defined.

Lemma backtest_settles_witness : booked demo_backtest = 1 ∧ ∃ done_, demo_backtest = Replay.Done (Ok done_) ∧ settled_books done_.
Proof.
  assert (Hb : booked demo_backtest = 1) by by vm_compute. split; [exact Hb|].
  destruct demo_backtest as [[done_|]| |] eqn:E; [|discriminate Hb..]. exists done_. split; [exact eq_refl|].
  apply (backtest_settles 4 demo_core 0 demo_plan demo_factory demo_schedule demo_sims demo_ledger true demo_factory done_ demo_ready); [simpl; lia|exact E].
Defined.
End RunnerLaws.
