(* ===== verification/Coordinator.v ===== *)
(** The scheduled coordinator (osmium-runner/src/scheduled.rs): observations
    are released to the strategy after a latency; its orders, timers and cash
    charges become control actions of one queue, which drive the scheduled
    simulator and the ledger. *)
From S2P Require Import Prelude Order Text Numeric Quantity Calendar Book Identity Signal Codec Values Event MarketState.
From S2P Require Import Ordering Replay Orders Requests Fill Accounting Simulator Scheduled Output Strategy Effects Control Backtest.

Module Coordinator.
Import Effects.Effects Output.Output Control.Control Backtest.Backtest.
Import Scheduled(ScheduledActivation, ScheduledDepthSimulator, AuctionMatchEvidence).

(** ** Data *)

Record BufferedObservation : Type := mk_buffered {
  canonical_event : list Z; run_event_ordinal : Z; event_fingerprint : list Z; instrument_state_version : Z;
  trading : Trading.TradingContext; buffered_visible_at : MatchTime.MatchTime }.

Inductive ScheduledBacktestControl : Type :=
| ReleaseObservation (o : BufferedObservation)
| Expire (order_id : list Z)
| Activate (order_id : list Z)
| AllocateVisibleDepth (i : Instrument.InstrumentId)
| AllocateAuctionMatch (e : AuctionMatchEvidence)
| StrategyTimer (r : StrategyTimerRequest)
| DeliverFeedback (feedback : list Orders.OrderFeedback) (execution_fills : list Requests.ExecutionFillFeedback) (origin_identity : list Z).

(** The price a call auction cleared at, which its event must state. *)
Definition auction_clearing_price (e : Event.DomainEvent) : result MultiBacktestError (option Price.Price) :=
  match Event.payload e with
  | Event.QuoteSnapshotP q => Ok (Trade.price <$> Observation.as_set (Event.quote_trade q))
  | Event.TradeBatchP b =>
      match Event.batch_trades b with
      | [] => Ok None
      | first :: _ as ts =>
          reject existsb (λ t, bool_decide (Trade.price t ≠ Trade.price first)) ts with SimulationE ClearingPrices;;
          Ok (Some (Trade.price first))
      end
  | _ => Ok None
  end.

(** [&v[n..]], which panics past the end. *)
Definition slice_from {A} (n : nat) (l : list A) : option (list A) := if bool_decide (length l < n)%nat then None else Some (drop n l).

Section coordinator.
Context {B : Event.Blake3} {S : Type} `{!Strategy.Strategy S}.

Record Coordinator : Type := mk_coordinator {
  strategy : S; schedule_of : MultiSessionSchedule; market_data_latency_ms : Z; simulator : ScheduledDepthSimulator;
  ledger : Accounting.MultiLedger; output : StrategyOutput; controls : ControlTimeQueue ScheduledBacktestControl;
  timer_generations : gmap (list Z) Z; visible_core : Replay.ReplayCore; allow_midpoint_fallback : bool;
  last_visible_marks : gmap Instrument.InstrumentId Decimal.Decimal; open_positions : gset Instrument.InstrumentId }.

Definition set_strategy x c := mk_coordinator x (schedule_of c) (market_data_latency_ms c) (simulator c) (ledger c) (output c) (controls c) (timer_generations c) (visible_core c) (allow_midpoint_fallback c) (last_visible_marks c) (open_positions c).
Definition set_simulator x c := mk_coordinator (strategy c) (schedule_of c) (market_data_latency_ms c) x (ledger c) (output c) (controls c) (timer_generations c) (visible_core c) (allow_midpoint_fallback c) (last_visible_marks c) (open_positions c).
Definition set_ledger x c := mk_coordinator (strategy c) (schedule_of c) (market_data_latency_ms c) (simulator c) x (output c) (controls c) (timer_generations c) (visible_core c) (allow_midpoint_fallback c) (last_visible_marks c) (open_positions c).
Definition set_output x c := mk_coordinator (strategy c) (schedule_of c) (market_data_latency_ms c) (simulator c) (ledger c) x (controls c) (timer_generations c) (visible_core c) (allow_midpoint_fallback c) (last_visible_marks c) (open_positions c).
Definition set_controls x c := mk_coordinator (strategy c) (schedule_of c) (market_data_latency_ms c) (simulator c) (ledger c) (output c) x (timer_generations c) (visible_core c) (allow_midpoint_fallback c) (last_visible_marks c) (open_positions c).
Definition set_timer_generations x c := mk_coordinator (strategy c) (schedule_of c) (market_data_latency_ms c) (simulator c) (ledger c) (output c) (controls c) x (visible_core c) (allow_midpoint_fallback c) (last_visible_marks c) (open_positions c).
Definition set_visible_core x c := mk_coordinator (strategy c) (schedule_of c) (market_data_latency_ms c) (simulator c) (ledger c) (output c) (controls c) (timer_generations c) x (allow_midpoint_fallback c) (last_visible_marks c) (open_positions c).
Definition set_last_visible_marks x c := mk_coordinator (strategy c) (schedule_of c) (market_data_latency_ms c) (simulator c) (ledger c) (output c) (controls c) (timer_generations c) (visible_core c) (allow_midpoint_fallback c) x (open_positions c).
Definition set_open_positions x c := mk_coordinator (strategy c) (schedule_of c) (market_data_latency_ms c) (simulator c) (ledger c) (output c) (controls c) (timer_generations c) (visible_core c) (allow_midpoint_fallback c) (last_visible_marks c) x.

Definition Co (A : Type) : Type := M Coordinator MultiBacktestError A.

(** ** Calls of the parts *)

(** An operation of the simulator; it keeps what it changed before an error. *)
Definition simulate {A} (m : Scheduled.M A) : Co A :=
  c ← get; let '(r, sim) := m (simulator c) in _ ← modify (set_simulator sim); lift (of_scheduled r).
(** A constructor of the simulator's evidence. *)
Definition evidence_of {A} (r : result Scheduled.ScheduledSimulationError A) : Co A := lift_err (SimulationE ∘ ScheduledSimulation) r.

Definition schedule_control (now : MatchTime.MatchTime) (p : ControlPhase) (x : ScheduledBacktestControl) : Co Z :=
  c ← get;
  let '(r, q) := schedule now p x (controls c) in
  _ ← modify (set_controls q);
  lift_err (λ _, Sequence) r.

(** A callback with a sink for scheduled orders, timers and cash charges. *)
Definition call (f : StrategyOutputSink → S → result Strategy.CallbackFailure () * StrategyOutputSink * S) : Co StrategyOutputSink :=
  c ← get;
  let '(r, sink, st) := f with_scheduled_orders (strategy c) in
  _ ← modify (set_strategy st);
  _ ← lift (of_callback r);
  mret sink.

Definition emit (rs : result StrategyOutputEncodingError (list StrategyOutputRecord)) : Co () :=
  rs ← lift_err (StrategyE ∘ OutputError) rs; modify (λ c, set_output (extend_output rs (output c)) c).

(** ** Queries *)

Definition has_order (f : Scheduled.ScheduledOrder → bool) (c : Coordinator) : bool := existsb f (Scheduled.orders (simulator c)).
Definition order_is_scheduled (id : list Z) : Coordinator → bool :=
  has_order (λ o, bool_decide (Scheduled.order_id o = id) && bool_decide (Scheduled.status o = Scheduled.Scheduled)).
Definition order_can_expire (id : list Z) : Coordinator → bool :=
  has_order (λ o, bool_decide (Scheduled.order_id o = id) &&
    match Scheduled.status o with
    | Scheduled.Scheduled | Scheduled.ActiveOrder | Scheduled.PartiallyFilledOrder | Scheduled.Attempted => true
    | _ => false
    end).
Definition instrument_needs_allocation (i : Instrument.InstrumentId) (now : MatchTime.MatchTime) : Coordinator → bool :=
  has_order (λ o,
    let r := Scheduled.request o in
    bool_decide (Orders.instrument (Requests.intent r) = i) &&
    bool_decide (Requests.execution_policy r = Requests.VisibleDepthUntilExpiryV1) &&
    (bool_decide (Scheduled.status o = Scheduled.ActiveOrder) ||
     bool_decide (Scheduled.status o = Scheduled.Scheduled) && bool_decide (cmp (Requests.activate_at r) now ≠ Gt))).
Definition instrument_needs_auction_match (i : Instrument.InstrumentId) (match_time : MatchTime.MatchTime) : Coordinator → bool :=
  has_order (λ o,
    let r := Scheduled.request o in
    bool_decide (Orders.instrument (Requests.intent r) = i) &&
    bool_decide (Requests.execution_policy r = Requests.AuctionCrossAtFirstMatchV1) &&
    bool_decide (cmp (Requests.activate_at r) match_time ≠ Gt) && bool_decide (Scheduled.status o = Scheduled.ActiveOrder)).

(** ** Scheduling *)

Definition schedule_feedback (now : MatchTime.MatchTime) (feedback : list Orders.OrderFeedback)
    (execution_fills : list Requests.ExecutionFillFeedback) (order_identity : list Z) (parent_sequence : Z) : Co () :=
  let identity := bytes_of "OSCF" ++ order_identity ++ be_bytes 8 parent_sequence in
  _ ← schedule_control now Feedback (DeliverFeedback feedback execution_fills (Event.blake3 identity));
  mret ().

Definition schedule_timers (decision_time : MatchTime.MatchTime) : list StrategyTimerRequest → Co () :=
  each (λ r,
    if bool_decide (cmp (fire_at r) decision_time = Lt) then fail (StrategyE (TimerError FireBeforeDecision)) else
    sequence ← schedule_control (fire_at r) StrategyDecision (StrategyTimer r);
    modify (λ c, set_timer_generations (<[timer_id r := sequence]> (timer_generations c)) c)).

Definition charge_record (now : MatchTime.MatchTime) (origin_identity : list Z) (x : Z * CashChargeRequest) :
    result (Failure MultiBacktestError) Accounting.CashChargeRecord :=
  let '(n, charge) := x in
  let identity := Event.blake3 (bytes_of "OSCC" ++ origin_identity ++ be_bytes 4 n) in
  of_accounting (Accounting.cash_charge_new identity now (amount charge) (category charge) (reference charge)).
Definition apply_cash_charges (now : MatchTime.MatchTime) (origin_identity : list Z) (charges : list (Z * CashChargeRequest)) : Co () :=
  records ← lift (collect_results (charge_record now origin_identity) charges);
  c ← get;
  l ← lift (of_accounting (Accounting.apply_cash_charges (ledger c) records));
  modify (set_ledger l).

(** One request: its expiry and activation are scheduled, and the feedback of
    its acceptance and of what it replaced. *)
Definition submit_request (decision_time : MatchTime.MatchTime) (origin_identity : list Z) (control_sequence : Z) (index : Z)
    (r : Requests.ScheduledOrderRequest) : Co () :=
  c ← get;
  number ← lift (ok_or (to_u32 (index + 1)) (Returned Sequence));
  submission ← simulate (Scheduled.submit (strategy_id (Strategy.identity_of (strategy c)))
    (Scheduled.new_submission_context origin_identity decision_time) number r);
  let id := Scheduled.submitted_id submission in
  _ ← match Requests.expire_at r with
      | Some expiry => _ ← schedule_control expiry OrderExpiry (Expire id); mret ()
      | None => mret ()
      end;
  _ ← schedule_control (Requests.activate_at r) OrderActivation (Activate id);
  schedule_feedback decision_time (option_list (Scheduled.replaced submission) ++ [Orders.Accepted id]) [] id control_sequence.
Fixpoint submit_requests (decision_time : MatchTime.MatchTime) (origin_identity : list Z) (control_sequence : Z) (index : Z)
    (requests : list Requests.ScheduledOrderRequest) : Co () :=
  match requests with
  | [] => mret ()
  | r :: requests =>
      _ ← submit_request decision_time origin_identity control_sequence index r;
      submit_requests decision_time origin_identity control_sequence (index + 1) requests
  end.

(** What a callback's sink holds is taken, recorded, and put to work: timers,
    then cash charges, then orders. *)
Definition deliver_output (now : MatchTime.MatchTime) (origin_identity : list Z) (control_sequence : Z)
    (into_records : StrategyOutputSink → result StrategyOutputEncodingError (list StrategyOutputRecord)) (sink : StrategyOutputSink) : Co () :=
  let '(requests, sink) := take_scheduled_orders sink in
  let '(timers, sink) := take_timers sink in
  charges ← lift_err (StrategyE ∘ OutputError) (cash_charges_with_output_sequences sink);
  _ ← emit (into_records sink);
  _ ← schedule_timers now timers;
  _ ← apply_cash_charges now origin_identity charges;
  submit_requests now origin_identity control_sequence 0 requests.

(** ** Equity *)

Definition refresh_open_position (i : Instrument.InstrumentId) : Co () :=
  c ← get;
  entry ← lift (ok_or (Accounting.ledgers (ledger c) !! i) (Returned Declaration));
  modify (set_open_positions
    (if negb (Accounting.position (Accounting.ledger entry) =? 0) then {[ i ]} ∪ open_positions c else open_positions c ∖ {[ i ]})).

Definition equity_mark (c : Coordinator) (i : Instrument.InstrumentId) : result (Failure MultiBacktestError) Decimal.Decimal :=
  mark ← match Replay.state (visible_core c) i with Some s => final_mark s (allow_midpoint_fallback c) | None => Ok None end;
  ok_or (match mark with Some m => Some m | None => last_visible_marks c !! i end) (Returned (AccountingE (MissingEquityMark i))).
Definition add_equity (c : Coordinator) (equity : Decimal.Decimal) (i : Instrument.InstrumentId) : result (Failure MultiBacktestError) Decimal.Decimal :=
  mark ← equity_mark c i;
  adjustment ← of_accounting (Accounting.mark_to_market_adjustment (ledger c) i mark);
  map_err (λ _, Returned (AccountingE EquityOverflow)) (Decimal.checked_add equity adjustment).
Definition current_equity (c : Coordinator) : result (Failure MultiBacktestError) Decimal.Decimal :=
  try_fold (add_equity c) (Accounting.multi_cash (ledger c)) (sort_on id (elements (open_positions c))).

(** ** Control actions *)

(** The fills since [previous_fill_count] are booked, and the feedback of the
    activations is scheduled. *)
Definition settle_activations (i : Instrument.InstrumentId) (previous_fill_count : nat) (activations : list ScheduledActivation)
    (feedback_at : MatchTime.MatchTime) (control_sequence : Z) : Co () :=
  c ← get;
  fills ← expect (slice_from previous_fill_count (Scheduled.fills (simulator c)));
  _ ← each (λ f, c ← get; l ← lift (of_accounting (Accounting.multi_apply_fill (ledger c) i f)); modify (set_ledger l)) fills;
  _ ← refresh_open_position i;
  each (λ a, schedule_feedback feedback_at [Scheduled.feedback a] (Scheduled.execution_fills a) (Scheduled.activated_id a) control_sequence)
    activations.

(** The visible replay commits what the replay has committed. *)
Definition commit_visible (o : BufferedObservation) (event : Event.DomainEvent) : Co Replay.EventOccurrence :=
  c ← get;
  let '(r, core) := Replay.apply_ordered (visible_core c) event in
  _ ← modify (set_visible_core core);
  commit ← lift_err (ReplayE ∘ Engine) r;
  let occ := Replay.occurrence commit in
  if negb (Replay.run_event_ordinal occ =? run_event_ordinal o) || bool_decide (Replay.event_fingerprint occ ≠ event_fingerprint o)
     || negb (Replay.instrument_state_version occ =? instrument_state_version o)
  then fail (ReplayE OccurrenceDiffers) else mret occ.

(** A stability trigger cancels the active market orders. *)
Definition interrupt (o : BufferedObservation) (event : Event.DomainEvent) (occ : Replay.EventOccurrence) (control_sequence : Z) : Co () :=
  if match Trading.market_signal (trading o) with
     | Some (Signal.AuctionCollecting a) => bool_decide (Signal.purpose a = Signal.Known Signal.VolatilityInterruption)
     | _ => false
     end
  then
    feedback ← simulate (Scheduled.cancel_active_market_orders_for_volatility_interruption (Event.instrument event));
    match feedback with
    | [] => mret ()
    | _ => schedule_feedback (buffered_visible_at o) feedback [] (Replay.event_fingerprint occ) control_sequence
    end
  else mret ().

(** A firm book of the event is published; [true] when there was one. *)
Definition publish_book (o : BufferedObservation) (event : Event.DomainEvent) (state : Model.MarketState) : Co bool :=
  match Event.payload event, Model.known (Model.book state) with
  | (Event.BookSnapshotP _ | Event.QuoteSnapshotP _), Some book =>
      evidence ← evidence_of (Scheduled.new_book_evidence (Event.instrument event) book (Event.match_time event) (buffered_visible_at o)
        (Trading.matching (trading o)) (Trading.new_order_entry (trading o)));
      _ ← simulate (Scheduled.publish_visible_book evidence);
      mret true
  | _, _ => mret false
  end.

Definition release_observation (o : BufferedObservation) (control_sequence : Z) : Co () :=
  event ← lift_err (ReplayE ∘ Decoding) (Event.from_canonical_bytes (canonical_event o));
  let i := Event.instrument event in
  occ ← commit_visible o event;
  _ ← interrupt o event occ control_sequence;
  evidence ← evidence_of (Scheduled.new_trading_state i (Event.match_time event) (buffered_visible_at o)
    (Trading.matching (trading o)) (Trading.new_order_entry (trading o)));
  _ ← simulate (Scheduled.publish_visible_trading_state evidence);
  c ← get;
  let views := Replay.states (visible_core c) in
  state ← lift (ok_or (views !! i) (Returned Declaration));
  mark ← lift (final_mark state (allow_midpoint_fallback c));
  _ ← match mark with
      | Some m => modify (λ c, set_last_visible_marks (<[i := m]> (last_visible_marks c)) c)
      | None => mret ()
      end;
  published ← publish_book o event state;
  sink ← call (Strategy.on_event (Strategy.new_visible_with_states occ event state views (trading o) (buffered_visible_at o)));
  _ ← deliver_output (buffered_visible_at o) (Replay.event_fingerprint occ) control_sequence (into_event_records occ) sink;
  c ← get;
  if published && instrument_needs_allocation i (buffered_visible_at o) c
  then _ ← schedule_control (buffered_visible_at o) FillAllocation (AllocateVisibleDepth i); mret ()
  else mret ().

Definition deliver_feedback (now : MatchTime.MatchTime) (control_sequence : Z) (origin_identity : list Z)
    (feedback : list Orders.OrderFeedback) (execution_fills : list Requests.ExecutionFillFeedback) : Co () :=
  sink ← call (Strategy.on_feedback (Strategy.new_with_execution_fills feedback execution_fills));
  deliver_output now origin_identity control_sequence (into_control_records control_sequence now) sink.

Definition fire_timer (r : StrategyTimerRequest) (control_sequence : Z) : Co () :=
  let now := fire_at r in
  c ← get;
  equity ← lift (current_equity c);
  sink ← call (Strategy.on_timer (new_timer_context (timer_id r) now equity));
  let origin_identity := Event.blake3 (bytes_of "OSTM" ++ timer_id r ++ be_bytes 8 control_sequence) in
  deliver_output now origin_identity control_sequence (into_control_records control_sequence now) sink.

Definition process_control (control : ScheduledControl ScheduledBacktestControl) : Co () :=
  let now := at_time control in
  let n := sequence control in
  c ← get;
  let previous_fill_count := length (Scheduled.fills (simulator c)) in
  match payload control with
  | ReleaseObservation o => release_observation o n
  | Expire id =>
      if order_can_expire id c then
        feedback ← simulate (Scheduled.expire id now);
        schedule_feedback now [feedback] [] id n
      else mret ()
  | Activate id =>
      if negb (order_is_scheduled id c) then mret () else
      activation ← simulate (Scheduled.activate id n now);
      c ← get;
      o ← expect (List.find (λ o, bool_decide (Scheduled.order_id o = id)) (Scheduled.orders (simulator c)));
      settle_activations (Orders.instrument (Requests.intent (Scheduled.request o))) previous_fill_count [activation] now n
  | AllocateVisibleDepth i =>
      results ← simulate (Scheduled.evaluate_active i n now);
      settle_activations i previous_fill_count results now n
  | AllocateAuctionMatch e =>
      results ← simulate (Scheduled.evaluate_auction_match e);
      settle_activations (Scheduled.auction_instrument e) previous_fill_count results (Scheduled.auction_visible_at e) n
  | StrategyTimer r =>
      if bool_decide (timer_generations c !! timer_id r ≠ Some n) then mret () else fire_timer r n
  | DeliverFeedback feedback fills origin_identity => deliver_feedback now n origin_identity feedback fills
  end.

(** The actions of a batch are taken off the queue together, then processed. *)
Definition process_batch (batch : list (ScheduledControl ScheduledBacktestControl) * ControlTimeQueue ScheduledBacktestControl) : Co () :=
  _ ← modify (set_controls (snd batch)); each process_control (fst batch).

(** ** Loops *)

(** [while ready { batch }]. The strategy decides how long this takes, so the
    loop has fuel. *)
Fixpoint process_while (ready : ControlTimeQueue ScheduledBacktestControl →
      option (list (ScheduledControl ScheduledBacktestControl) * ControlTimeQueue ScheduledBacktestControl))
    (fuel : nat) (c : Coordinator) : Replay.Outcome (result (Failure MultiBacktestError) () * Coordinator) :=
  match ready (controls c) with
  | None => Replay.Done (Ok (), c)
  | Some batch =>
      match fuel with
      | O => Replay.OutOfFuel
      | Datatypes.S fuel =>
          match process_batch batch c with
          | (Ok _, c) => process_while ready fuel c
          | (Err e, c) => Replay.Done (Err e, c)
          end
      end
  end.
Definition ready_before (boundary : MatchTime.MatchTime) (q : ControlTimeQueue ScheduledBacktestControl) :=
  match next_time q with
  | Some t => if bool_decide (cmp t boundary = Lt) then Some (pop_before boundary q) else None
  | None => None
  end.
Definition ready_at (now : MatchTime.MatchTime) (q : ControlTimeQueue ScheduledBacktestControl) :=
  if bool_decide (next_time q = Some now) then Some (pop_at now q) else None.
Definition process_before (boundary : MatchTime.MatchTime) := process_while (ready_before boundary).
Definition process_at (now : MatchTime.MatchTime) := process_while (ready_at now).
(** Draining processes the times one after the other; each round of each time
    is one unit of fuel. *)
Definition ready_next (q : ControlTimeQueue ScheduledBacktestControl) :=
  match next_time q with Some t => Some (pop_at t q) | None => None end.
Definition drain := process_while ready_next.

(** ** Buffering *)

Definition buffer_auction (event : Event.DomainEvent) (occ : Replay.EventOccurrence) (context : Trading.TradingContext)
    (visible_at : MatchTime.MatchTime) : Co () :=
  if bool_decide (Trading.matching context ≠ Trading.Enabled Annotations.CallAuction) then mret () else
  price ← lift (map_err Returned (auction_clearing_price event));
  match price with
  | None => mret ()
  | Some clearing_price =>
      evidence ← evidence_of (Scheduled.new_auction (Event.instrument event) clearing_price (Event.match_time event) visible_at
        (Replay.run_event_ordinal occ) (Trading.matching context));
      c ← get;
      if instrument_needs_auction_match (Event.instrument event) (Event.match_time event) c
      then _ ← schedule_control (Event.match_time event) FillAllocation (AllocateAuctionMatch evidence); mret ()
      else mret ()
  end.

(** An event that was committed is buffered until it is visible. *)
Definition buffer_committed (core : Replay.ReplayCore) (event : Event.DomainEvent) (occ : Replay.EventOccurrence) : Co () :=
  c ← get;
  segment ← lift (ok_or (segment_for (schedule_of c) (Event.instrument event) (Event.match_time event)) (Returned (ScheduleE OutsideSchedule)));
  state ← lift (ok_or (Replay.state core (Event.instrument event)) (Returned Declaration));
  context ← lift_err ContextE (Trading.evaluate event occ state segment);
  visible_at ← lift_err (λ _, Sequence) (add_milliseconds (Event.match_time event) (market_data_latency_ms c));
  _ ← buffer_auction event occ context visible_at;
  canonical ← lift_err (ReplayE ∘ Encoding) (Event.to_canonical_bytes event);
  _ ← schedule_control visible_at Control.ReleaseObservation
    (ReleaseObservation (mk_buffered canonical (Replay.run_event_ordinal occ) (Replay.event_fingerprint occ)
       (Replay.instrument_state_version occ) context visible_at));
  mret ().
End coordinator.
Arguments Coordinator : clear implicits.

(** ** The run *)

Record CompletedScheduledMultiBacktest : Type := mk_completed {
  completed_replay : Replay.CompletedReplay; completed_output : StrategyOutput; completed_simulator : ScheduledDepthSimulator;
  completed_ledger : Accounting.MultiLedger; completed_performance : Accounting.MultiPerformanceSummary }.

Section run.
Context {B : Event.Blake3} {S : Type} `{!Strategy.Strategy S}.
Context {F T E : Type} `{!Plan.EventStream T E, !Plan.ReplayStreamFactory F T E, !Replay.ErrorText E}.

Definition stream_text {A} (r : result E A) : result MultiBacktestError A := map_err (λ e, ReplayE (StreamFailure (Replay.to_string e))) r.
Definition next_key (event : Event.DomainEvent) : result MultiBacktestError Ordering.OrderingKey :=
  map_err (λ e, ReplayE (OrderingCause e)) (Ordering.for_event event).

(** A binding is covered by the core's date or by a segment of the schedule. *)
Definition binding_covered (core : Replay.ReplayCore) (schedule : MultiSessionSchedule) (b : Plan.ReplayStreamBinding) : result MultiBacktestError () :=
  state ← ok_or (Replay.state core (Plan.instrument b)) Declaration;
  reject bool_decide (Model.trading_date state ≠ Plan.trading_date b) &&
         negb match segments schedule !! Plan.instrument b with
              | Some l => existsb (λ w, bool_decide (Trading.trading_date w = Plan.trading_date b)) l
              | None => false
              end
    with ScheduleE BindingDateAbsent;;
  Ok ().
Fixpoint open_bindings (core : Replay.ReplayCore) (schedule : MultiSessionSchedule) (factory : F) (bindings : list Plan.ReplayStreamBinding) :
    result MultiBacktestError (list T) :=
  match bindings with
  | [] => Ok []
  | b :: bindings =>
      _ ← binding_covered core schedule b;
      let '(r, factory) := Plan.open factory b in
      stream ← stream_text r;
      streams ← open_bindings core schedule factory bindings;
      Ok (stream :: streams)
  end.

(** The heads of the merge, as in the replay engine; the entries keep no
    encoding here. *)
Record Merge : Type := mk_merge { streams : list T; heads : list (option Event.DomainEvent); pending : Replay.Pending }.
Definition refill (m : Merge) (index : nat) (stream : T) : result MultiBacktestError Merge :=
  let '(r, stream) := Plan.next_event stream in
  event ← stream_text r;
  match event with
  | None => Ok (mk_merge (<[index := stream]> (streams m)) (heads m) (pending m))
  | Some event =>
      key ← next_key event;
      Ok (mk_merge (<[index := stream]> (streams m)) (<[index := Some event]> (heads m)) (Replay.push (key, index) (pending m)))
  end.
Fixpoint prime (m : Merge) (index : nat) (opened : list T) : result MultiBacktestError Merge :=
  match opened with
  | [] => Ok m
  | stream :: opened => m ← refill m index stream; prime m (index + 1) opened
  end.

(** A step of the coordinator that may fail or run out of fuel. *)
Definition and_then {A C} (r : Replay.Outcome (result (Failure MultiBacktestError) A)) (k : A → Replay.Outcome (result (Failure MultiBacktestError) C)) :
    Replay.Outcome (result (Failure MultiBacktestError) C) :=
  match r with
  | Replay.Done (Ok x) => k x
  | Replay.Done (Err e) => Replay.Done (Err e)
  | Replay.Panic => Replay.Panic
  | Replay.OutOfFuel => Replay.OutOfFuel
  end.
Definition run_loop (r : Replay.Outcome (result (Failure MultiBacktestError) () * Coordinator S)) : Replay.Outcome (result (Failure MultiBacktestError) (Coordinator S)) :=
  match r with
  | Replay.Done (Ok _, c) => Replay.Done (Ok c)
  | Replay.Done (Err e, _) => Replay.Done (Err e)
  | Replay.Panic => Replay.Panic
  | Replay.OutOfFuel => Replay.OutOfFuel
  end.

(** One event: the actions before it, its commit, its buffering, and the
    actions at its time. *)
Definition process_event (rounds : nat) (core : Replay.ReplayCore) (c : Coordinator S) (event : Event.DomainEvent) :
    Replay.Outcome (result (Failure MultiBacktestError) (Replay.ReplayCore * Coordinator S)) :=
  and_then (run_loop (process_before (Event.match_time event) rounds c)) (λ c,
  match Replay.apply_ordered core event with
  | (Err e, _) => Replay.Done (Err (Returned (ReplayE (Engine e))))
  | (Ok commit, core) =>
      match buffer_committed core event (Replay.occurrence commit) c with
      | (Err e, _) => Replay.Done (Err e)
      | (Ok _, c) =>
          and_then (run_loop (process_at (Ordering.match_time (Replay.ordering_key (Replay.occurrence commit))) rounds c)) (λ c,
          Replay.Done (Ok (core, c)))
      end
  end).

Fixpoint merge_loop (fuel rounds : nat) (core : Replay.ReplayCore) (c : Coordinator S) (m : Merge) :
    Replay.Outcome (result (Failure MultiBacktestError) (Replay.ReplayCore * Coordinator S)) :=
  match fuel with
  | O => Replay.OutOfFuel
  | Datatypes.S fuel =>
      match Replay.pop (pending m) with
      | None => Replay.Done (Ok (core, c))
      | Some ((_, selected), rest) =>
          match mjoin (heads m !! selected), streams m !! selected with
          | Some event, Some stream =>
              let m := mk_merge (streams m) (<[selected := None]> (heads m)) rest in
              and_then (process_event rounds core c event) (λ '(core, c),
              match refill m selected stream with
              | Err e => Replay.Done (Err (Returned e))
              | Ok m => merge_loop fuel rounds core c m
              end)
          | _, _ => Replay.Panic
          end
      end
  end.

(** The end of a run. *)
Definition finish (core : Replay.ReplayCore) (c : Coordinator S) : result (Failure MultiBacktestError) CompletedScheduledMultiBacktest :=
  marks ← final_marks core (allow_midpoint_fallback c);
  let '(r, sink, st) :=
    Strategy.finalize (Strategy.new_finalize_context (Replay.clock core) (btree_values (Replay.states core))) new_sink (strategy c) in
  _ ← of_callback r;
  rs ← map_err (λ e, Returned (StrategyE (OutputError e))) (into_finalize_records sink);
  let o := extend_output rs (output c) in
  _ ← of_accounting (Accounting.multi_reconcile (ledger c));
  performance ← of_accounting (Accounting.multi_performance (ledger c) marks);
  replay ← map_err (λ e, Returned (ReplayE (Engine e))) (Replay.complete core);
  Ok (mk_completed replay o (simulator c) (ledger c) performance).

Definition held_positions (l : Accounting.MultiLedger) : gset Instrument.InstrumentId :=
  list_to_set (fst <$> List.filter (λ x, negb (Accounting.position (Accounting.ledger (snd x)) =? 0)) (map_to_list (Accounting.ledgers l))).

(** What comes before the loop. *)
Definition start (core : Replay.ReplayCore) (st : S) (plan : Plan.ReplayPlan) (factory : F) (schedule : MultiSessionSchedule)
    (latency_ms : Z) (sim : ScheduledDepthSimulator) (l : Accounting.MultiLedger) (allow_midpoint_fallback : bool) :
    result (Failure MultiBacktestError) (Coordinator S * Merge) :=
  let d := Strategy.declaration st in
  _ ← map_err Returned (check_universes core
    [(StrategyUniverse, universe d); (ScheduleUniverse, schedule_instruments schedule); (LedgerUniverse, btree_keys (Accounting.ledgers l))]);
  reject bool_decide (sessions d ≠ schedule_sessions schedule) with Returned (ScheduleE SessionsDiffer);;
  let '(r, st) := Strategy.initialize d st in
  _ ← of_callback r;
  let o := new_output (Strategy.identity_of st) (Strategy.canonical_params_checksum st) in
  opened ← map_err Returned (open_bindings core schedule factory (Plan.bindings plan));
  visible_core ← map_err (λ e, Returned (ReplayE (Engine e))) (Replay.fork_unstarted core);
  let c := mk_coordinator st schedule latency_ms sim l o new_queue ∅ visible_core allow_midpoint_fallback ∅ (held_positions l) in
  m ← map_err Returned (prime (mk_merge opened (replicate (length opened) None) []) 0 opened);
  Ok (c, m).

Definition run_scheduled_multi_backtest (fuel rounds : nat) (core : Replay.ReplayCore) (st : S) (plan : Plan.ReplayPlan) (factory : F)
    (schedule : MultiSessionSchedule) (latency_ms : Z) (sim : ScheduledDepthSimulator) (l : Accounting.MultiLedger)
    (allow_midpoint_fallback : bool) : Replay.Outcome (result (Failure MultiBacktestError) CompletedScheduledMultiBacktest) :=
  and_then (Replay.Done (start core st plan factory schedule latency_ms sim l allow_midpoint_fallback)) (λ '(c, m),
  and_then (merge_loop fuel rounds core c m) (λ '(core, c),
  and_then (run_loop (drain rounds c)) (λ c,
  Replay.Done (finish core c)))).
End run.

End Coordinator.
