(* ===== verification/CoordinatorLaws.v ===== *)
(** What a scheduled backtest replays and what its strategy observes: the merge
    is the loop over the events in replay order, and every event is released
    exactly once, in that order, one latency after its match time. *)
From S2P Require Import Prelude Order Text Numeric Quantity Calendar Book Identity Signal Codec Values Event EventCodec MarketState.
From S2P Require Import Ordering OrderingLaws Replay ReplayLaws ReplayMerge Orders Requests Fill Accounting Simulator SimulatorLaws Scheduled.
From S2P Require Import Output Strategy Effects Control ControlLaws StrategyLaws Backtest Runner RunnerLaws ScheduledLaws ScheduledRuns Coordinator.

(** A strategy that remembers what it was shown: the events in the order of
    its callbacks, each with its decision time. *)
Class Observer (S : Type) `{!Strategy.Strategy S} := {
  seen : S → list (Event.DomainEvent * MatchTime.MatchTime);
  seen_initialize d st : seen (Strategy.initialize d st).2 = seen st;
  seen_event c sink st : seen (Strategy.on_event c sink st).2 = seen st ++ [(Strategy.context_event c, Strategy.decision_time c)];
  seen_feedback c sink st : seen (Strategy.on_feedback c sink st).2 = seen st;
  seen_timer c sink st : seen (Strategy.on_timer c sink st).2 = seen st }.

Module CoordinatorLaws.
Import Effects.Effects Output.Output Control.Control ControlLaws.ControlLaws Backtest.Backtest Coordinator.Coordinator.

(** ** The releases of a queue *)

Definition release_of (x : ScheduledBacktestControl) : option BufferedObservation :=
  match x with ReleaseObservation o => Some o | _ => None end.
Abbreviation Entry := (ControlOrderingKey * ScheduledBacktestControl)%type.
Definition releases (l : list Entry) : list BufferedObservation := omap (λ e, release_of e.2) l.
#[global] Arguments releases : simpl never.

(** A release waits in its phase at the time it is visible. *)
Definition release_key (e : Entry) : Prop :=
  ∀ o, release_of e.2 = Some o → key_at e.1 = buffered_visible_at o ∧ key_phase e.1 = Control.ReleaseObservation.
Definition queue_ok (q : ControlTimeQueue ScheduledBacktestControl) : Prop := queue_wf q ∧ Forall release_key (Control.pending q).

Lemma releases_app l k : releases (l ++ k) = releases l ++ releases k.
Proof. apply omap_app. Qed.

Lemma releases_cons e l : releases (e :: l) = option_list (release_of e.2) ++ releases l.
Proof. unfold releases. simpl. by destruct (release_of e.2). Qed.

(** An action that is no release leaves the releases as they are. *)
Lemma releases_insert k x l : release_of x = None → (∀ e, e ∈ l → e.1 ≠ k) → releases (insert_entry k x l) = releases l.
Proof.
  intros Hx. induction l as [|[k' x'] l IH]; intros Hk; simpl; [by rewrite releases_cons; simpl; rewrite Hx|].
  destruct (cmp k k') eqn:E.
  - apply cmp_eq_iff in E as ->. exfalso. by apply (Hk (k', x')); [left|].
  - rewrite releases_cons. simpl. by rewrite Hx.
  - rewrite !releases_cons, IH; [done|]. intros e He. apply Hk. by right.
Qed.

(** A release that is due after all others comes last. *)
Lemma releases_insert_last k o l : sorted l → Forall (λ e, release_of e.2 ≠ None → ord_lt e.1 k) l →
  releases (insert_entry k (ReleaseObservation o) l) = releases l ++ [o].
Proof.
  intros Hs. induction Hs as [|[k' x'] l Hs IH Hall]; intros Hl; [done|]. apply Forall_cons_iff in Hl as [Hx Hl]. cbn [insert_entry].
  assert (Hlater : cmp k k' ≠ Gt → releases ((k', x') :: l) = []).
  { intros Hk. assert (Hnone : ∀ e, e ∈ (k', x') :: l → release_of e.2 = None).
    { intros e He. destruct (release_of e.2) eqn:Ee; [exfalso|done]. apply elem_of_cons in He as [->|He].
      - apply Hk. apply cmp_gt_lt. apply Hx. simpl in *. congruence.
      - rewrite Forall_forall in Hall, Hl. apply list_elem_of_In in He. specialize (Hall e He). specialize (Hl e He ltac:(congruence)).
        apply Hk. apply cmp_gt_lt. unfold key_lt, ord_lt in *. by eapply cmp_lt_trans. }
    clear -Hnone. induction ((k', x') :: l) as [|e l' IH]; [done|]. rewrite releases_cons, (Hnone e) by left. simpl. apply IH.
    intros e' He'. apply Hnone. by right. }
  destruct (cmp k k') eqn:E; [..|rewrite !releases_cons, IH by done; by rewrite app_assoc].
  - specialize (Hlater ltac:(done)). apply cmp_eq_iff in E as ->. rewrite Hlater. rewrite releases_cons in *. simpl.
    apply app_nil in Hlater as [_ ->]. done.
  - specialize (Hlater ltac:(done)). by rewrite releases_cons, Hlater.
Qed.

Section laws.
Context {B : Event.Blake3} {S : Type} {St : Strategy.Strategy S} {Obs : Observer S}.
Implicit Types (c : Coordinator S) (m : Co (S:=S) ()).

(** ** What the operations leave alone *)

(** No error of the visible replay. *)
Definition no_replay (e : Failure MultiBacktestError) : Prop := ∀ x, e ≠ Returned (ReplayE x).

(** Neither the visible replay, nor what the strategy saw, nor the observations
    that wait. *)
Record frame c c' : Prop := {
  fr_core : visible_core c' = visible_core c;
  fr_schedule : schedule_of c' = schedule_of c;
  fr_latency : market_data_latency_ms c' = market_data_latency_ms c;
  fr_seen : seen (strategy c') = seen (strategy c);
  fr_releases : releases (Control.pending (controls c')) = releases (Control.pending (controls c));
  fr_queue : queue_ok (controls c') }.

Lemma frame_refl c : queue_ok (controls c) → frame c c.
Proof. by split. Qed.
Lemma frame_trans c1 c2 c3 : frame c1 c2 → frame c2 c3 → frame c1 c3.
Proof. intros [] []. split; congruence || done. Qed.

Definition keeps {A} (m : Co A) c : Prop := queue_ok (controls c) → wp m c (λ _, frame c) no_replay.

Lemma keeps_bind {A C} (m : Co A) (f : A → Co C) c : keeps m c → (∀ x c', frame c c' → keeps (f x) c') → keeps (m ≫= f) c.
Proof.
  intros Hm Hf Hq. apply wp_bind. eapply wp_mono; [by apply Hm|]. intros x c' Hc. eapply wp_mono; [apply (Hf x c' Hc), Hc|].
  intros y c2 H. exact (frame_trans _ _ _ Hc H).
Qed.
Lemma keeps_get {A} (f : Coordinator S → Co A) c : keeps (f c) c → keeps (c ← get; f c) c.
Proof. done. Qed.
Lemma keeps_ret {A} (x : A) c : keeps (mret x) c.
Proof. intros Hq. apply wp_ret. by apply frame_refl. Qed.
Lemma keeps_modify f c : (queue_ok (controls c) → frame c (f c)) → keeps (modify f) c.
Proof. intros Hf Hq. apply wp_modify. by apply Hf. Qed.
Lemma keeps_lift {A} (r : result (Failure MultiBacktestError) A) c : (∀ e, r = Err e → no_replay e) → keeps (lift r) c.
Proof. intros Hr Hq. apply wp_lift. destruct r; [by apply frame_refl|by apply Hr]. Qed.
Lemma keeps_lift_err {F A} (g : F → MultiBacktestError) (r : result F A) c : (∀ e x, g e ≠ ReplayE x) → keeps (lift_err g r) c.
Proof. intros Hr Hq. apply wp_lift_err. destruct r; [by apply frame_refl|]. intros x [= H]. by eapply Hr. Qed.
Lemma keeps_fail {A} e c : (∀ x, e ≠ ReplayE x) → keeps (fail (A:=A) e) c.
Proof. intros He Hq. apply wp_fail. intros x [= H]. by eapply He. Qed.
Lemma keeps_each {A} (f : A → Co ()) l c : (∀ x c', frame c c' → keeps (f x) c') → keeps (each f l) c.
Proof.
  revert c. induction l as [|x l IH]; intros c Hf; [apply keeps_ret|]. intros Hq. apply keeps_bind; [|intros _ c' Hc|done].
  - apply Hf. by apply frame_refl.
  - apply IH. intros y c2 H. apply Hf. exact (frame_trans _ _ _ Hc H).
Qed.

(** An invisible change of the fields. *)
Lemma frame_same c c' : visible_core c' = visible_core c → schedule_of c' = schedule_of c →
  market_data_latency_ms c' = market_data_latency_ms c → strategy c' = strategy c → controls c' = controls c →
  queue_ok (controls c) → frame c c'.
Proof. intros H1 H2 H3 H4 H5 Hq. split; rewrite ?H1, ?H2, ?H3, ?H4, ?H5; done. Qed.

Lemma of_scheduled_no_replay {A} (r : result Scheduled.Failure A) e : of_scheduled r = Err e → no_replay e.
Proof. unfold of_scheduled. destruct r as [|[]]; intros [= <-]; by intros ? [=]. Qed.
Lemma of_accounting_no_replay {A} (r : result Accounting.Failure A) e : of_accounting r = Err e → no_replay e.
Proof. unfold of_accounting. destruct r as [|[]]; intros [= <-]; by intros ? [=]. Qed.
Lemma of_callback_no_replay {A} (r : result Strategy.CallbackFailure A) e : of_callback r = Err e → no_replay e.
Proof. unfold of_callback. destruct r as [|[]]; intros [= <-]; by intros ? [=]. Qed.
Lemma ok_or_no_replay {A} (o : option A) f e : no_replay f → ok_or o f = Err e → no_replay e.
Proof. destruct o; [done|]. by intros ? [= <-]. Qed.

Lemma simulate_keeps {A} (m : Scheduled.M A) c : keeps (simulate m) c.
Proof.
  unfold simulate. apply keeps_get. destruct (m (simulator c)) as [r sim]. apply keeps_bind.
  - apply keeps_modify. by apply frame_same.
  - intros _ c' _. apply keeps_lift, of_scheduled_no_replay.
Qed.
Lemma evidence_keeps {A} (r : result Scheduled.ScheduledSimulationError A) c : keeps (evidence_of r) c.
Proof. by apply keeps_lift_err. Qed.

Lemma queue_fresh (q : ControlTimeQueue ScheduledBacktestControl) now p e : queue_wf q → e ∈ Control.pending q → e.1 ≠ mk_key now p (next_sequence q).
Proof.
  intros [_ Hb] He Hk. unfold below in Hb. rewrite Forall_forall in Hb. apply list_elem_of_In, Hb in He. rewrite Hk in He. simpl in He. lia.
Qed.

Lemma schedule_queue_ok now p x (q : ControlTimeQueue ScheduledBacktestControl) n q' : queue_ok q → release_key (mk_key now p (next_sequence q), x) →
  schedule now p x q = (Ok n, q') → queue_ok q'.
Proof.
  intros [Hq Hk] Hx H. pose proof (schedule_spec now p x q Hq) as Hs. rewrite H in Hs. destruct Hs as (-> & _ & Hq' & Hp).
  split; [done|]. rewrite Hp. by constructor.
Qed.

Lemma schedule_control_keeps now p x c : release_of x = None → keeps (schedule_control now p x) c.
Proof.
  intros Hx. unfold schedule_control. apply keeps_get. destruct (schedule now p x (controls c)) as [r q] eqn:Hs. apply keeps_bind.
  - apply keeps_modify. intros Hq. destruct r as [n|e].
    + split; try done; simpl.
      * unfold schedule in Hs. destruct (to_u64 _); [|done]. injection Hs as <- <-. simpl. apply releases_insert; [done|].
        intros e. by apply queue_fresh, Hq.
      * eapply schedule_queue_ok; [done| |done]. intros o Ho. simpl in Ho. congruence.
    + unfold schedule in Hs. destruct (to_u64 _); [done|]. injection Hs as <- <-. by apply frame_same.
  - intros _ c' _. by apply keeps_lift_err.
Qed.

(** Steps through the operations of a [keeps] goal. *)
Ltac keep :=
  repeat (cbv beta zeta; lazymatch goal with
    | |- keeps (mbind _ get) _ => apply keeps_get
    | |- keeps (mbind _ _) _ => apply keeps_bind; [|intros ? ? _]
    | |- keeps (mret _) _ => apply keeps_ret
    | |- keeps (simulate _) _ => apply simulate_keeps
    | |- keeps (evidence_of _) _ => apply evidence_keeps
    | |- keeps (schedule_control _ _ _) _ => apply schedule_control_keeps; reflexivity
    | |- keeps (fail _) _ => apply keeps_fail; discriminate
    | |- keeps (lift_err _ _) _ => apply keeps_lift_err; discriminate
    | |- keeps (modify _) _ => apply keeps_modify; by apply frame_same
    | |- keeps (lift (of_accounting _)) _ => apply keeps_lift, of_accounting_no_replay
    | |- keeps (lift (of_callback _)) _ => apply keeps_lift, of_callback_no_replay
    | |- keeps (lift (ok_or _ _)) _ => apply keeps_lift; intros ?; apply ok_or_no_replay; intros ? [=]
    | |- keeps (expect _) _ => apply keeps_lift; intros ?; apply ok_or_no_replay; intros ? [=]
    end).

Lemma schedule_feedback_keeps now fb xs id n c : keeps (schedule_feedback now fb xs id n) c.
Proof. unfold schedule_feedback. keep. Qed.

Lemma schedule_timers_keeps now l c : keeps (schedule_timers now l) c.
Proof. unfold schedule_timers. apply keeps_each. intros r c' _. destruct (bool_decide _); keep. Qed.

Lemma collect_results_Err {A C F} (f : A → result F C) l e : collect_results f l = Err e → ∃ x, f x = Err e.
Proof.
  induction l as [|x l IH]; simpl; [done|]. destruct (f x) as [y|e'] eqn:E; simpl; [|intros [= <-]; by exists x].
  destruct (collect_results f l); [done|]. apply IH.
Qed.

Lemma apply_cash_charges_keeps now id l c : keeps (apply_cash_charges now id l) c.
Proof.
  unfold apply_cash_charges. apply keeps_bind; [|intros rs c' _; keep].
  apply keeps_lift. intros e ([n ch] & H)%collect_results_Err. unfold charge_record in H. by eapply of_accounting_no_replay.
Qed.

Lemma submit_request_keeps now id n k r c : keeps (submit_request now id n k r) c.
Proof. unfold submit_request. keep; [destruct (Requests.expire_at r); keep|apply schedule_feedback_keeps]. Qed.
Lemma submit_requests_keeps now id n l : ∀ k c, keeps (submit_requests now id n k l) c.
Proof. induction l as [|r l IH]; intros k c; simpl; keep; [apply submit_request_keeps|apply IH]. Qed.

Lemma emit_keeps rs c : keeps (emit rs) c.
Proof. unfold emit. keep. Qed.

Lemma deliver_output_keeps now id n rs sink c : keeps (deliver_output now id n rs sink) c.
Proof.
  unfold deliver_output. destruct (take_scheduled_orders sink) as [requests sink1], (take_timers sink1) as [timers sink2].
  keep; [apply emit_keeps|apply schedule_timers_keeps|apply apply_cash_charges_keeps|apply submit_requests_keeps].
Qed.

(** A callback that shows the strategy no event. *)
Lemma call_keeps f c : (∀ sink st, seen (f sink st).2 = seen st) → keeps (call f) c.
Proof.
  intros Hf. unfold call. apply keeps_get. specialize (Hf with_scheduled_orders (strategy c)).
  destruct (f with_scheduled_orders (strategy c)) as [[r sink] st]. simpl in Hf. apply keeps_bind; [|intros; keep].
  apply keeps_modify. intros Hq. by split.
Qed.

Lemma refresh_open_position_keeps i c : keeps (refresh_open_position i) c.
Proof. unfold refresh_open_position. keep. Qed.

Lemma settle_activations_keeps i n l t k c : keeps (settle_activations i n l t k) c.
Proof.
  unfold settle_activations. keep.
  - apply keeps_each. intros f c2 _. keep.
  - apply refresh_open_position_keeps.
  - apply keeps_each. intros a c3 _. apply schedule_feedback_keeps.
Qed.

Lemma interrupt_keeps o e occ n c : keeps (interrupt o e occ n) c.
Proof.
  unfold interrupt. destruct (match Trading.market_signal (trading o) with Some _ => _ | None => _ end); [|keep].
  apply keeps_bind; [apply simulate_keeps|]. intros [|fb l] c' _; [keep|apply schedule_feedback_keeps].
Qed.

Lemma publish_book_keeps o e s c : keeps (publish_book o e s) c.
Proof. unfold publish_book. destruct (Event.payload e); try (by keep); destruct (Model.known (Model.book s)); keep. Qed.

Lemma deliver_feedback_keeps now n id fb xs c : keeps (deliver_feedback now n id fb xs) c.
Proof. unfold deliver_feedback. keep; [apply call_keeps; intros; apply seen_feedback|apply deliver_output_keeps]. Qed.

Lemma final_mark_no_replay s b e : final_mark s b = Err e → no_replay e.
Proof.
  unfold final_mark. destruct (Model.last_trade s) as [[]|]; intros H; try done; try (destruct (negb b); [done|]);
    try (destruct (Model.best_bid s), (Model.best_ask s); done). injection H as <-. by intros ?.
Qed.
Lemma current_equity_no_replay c e : current_equity c = Err e → no_replay e.
Proof.
  unfold current_equity. generalize (Accounting.multi_cash (ledger c)). induction (sort_on id _) as [|i l IH]; intros d; [done|].
  simpl. destruct (add_equity c d i) as [d'|e'] eqn:E; simpl; [apply IH|]. intros [= <-]. revert E. unfold add_equity.
  destruct (equity_mark c i) as [mark|e1] eqn:Em; simpl.
  - destruct (of_accounting (Accounting.mark_to_market_adjustment (ledger c) i mark)) as [x|e2] eqn:Ea; simpl.
    + destruct (Decimal.checked_add d x); [done|]. intros [= <-]. by intros ? [=].
    + intros [= <-]. by eapply of_accounting_no_replay.
  - intros [= <-]. revert Em. unfold equity_mark. destruct (match Replay.state _ i with Some _ => _ | None => _ end) as [mark|e2] eqn:Ef; simpl.
    + apply ok_or_no_replay. by intros ? [=].
    + intros [= <-]. destruct (Replay.state _ i); [by eapply final_mark_no_replay|done].
Qed.

Lemma fire_timer_keeps r n c : keeps (fire_timer r n) c.
Proof.
  unfold fire_timer. keep; [apply keeps_lift, current_equity_no_replay|apply call_keeps; intros; apply seen_timer|apply deliver_output_keeps].
Qed.

(** ** Releasing an observation *)

(** What [buffer_committed] buffers for an event that took [core] to [core1]. *)
Definition buffered (latency : Z) (core : Replay.ReplayCore) (e : Event.DomainEvent) (o : BufferedObservation) (core1 : Replay.ReplayCore) : Prop :=
  ∃ commit, Replay.apply_ordered core e = (Ok commit, core1) ∧
    let occ := Replay.occurrence commit in
    Event.from_canonical_bytes (canonical_event o) = Ok e ∧ run_event_ordinal o = Replay.run_event_ordinal occ ∧
    event_fingerprint o = Replay.event_fingerprint occ ∧ instrument_state_version o = Replay.instrument_state_version occ ∧
    add_milliseconds (Event.match_time e) latency = Ok (buffered_visible_at o).

(** The visible replay is at [core], and the strategy was shown [shown] on top. *)
Record shows (core : Replay.ReplayCore) (shown : list (Event.DomainEvent * MatchTime.MatchTime)) c c' : Prop := {
  sh_core : visible_core c' = core;
  sh_schedule : schedule_of c' = schedule_of c;
  sh_latency : market_data_latency_ms c' = market_data_latency_ms c;
  sh_seen : seen (strategy c') = seen (strategy c) ++ shown;
  sh_releases : releases (Control.pending (controls c')) = releases (Control.pending (controls c));
  sh_queue : queue_ok (controls c') }.

Lemma shows_frame core shown c c1 c2 : shows core shown c c1 → frame c1 c2 → shows core shown c c2.
Proof. intros [] []. split; congruence || done. Qed.

Lemma wp_keeps {A C} (m : Co A) (f : A → Co C) c c1 core shown Q : shows core shown c c1 → keeps m c1 →
  (∀ x c2, shows core shown c c2 → wp (f x) c2 Q no_replay) → wp (m ≫= f) c1 Q no_replay.
Proof.
  intros Hs Hm Hf. apply wp_bind. eapply wp_mono; [apply Hm, Hs|]. intros x c2 Hc. apply Hf. exact (shows_frame _ _ _ _ _ Hs Hc).
Qed.
Lemma wp_keeps_last {A} (m : Co A) c c1 core shown : shows core shown c c1 → keeps m c1 → wp m c1 (λ _, shows core shown c) no_replay.
Proof. intros Hs Hm. eapply wp_mono; [apply Hm, Hs|]. intros x c2 Hc. exact (shows_frame _ _ _ _ _ Hs Hc). Qed.

Lemma commit_visible_wp o e core1 c : queue_ok (controls c) → buffered (market_data_latency_ms c) (visible_core c) e o core1 →
  wp (commit_visible o e) c (λ _, shows core1 [] c) no_replay.
Proof.
  intros Hq (commit & Ha & _ & Hn & Hf & Hv & _). unfold commit_visible. apply wp_bind, wp_get. rewrite Ha. apply wp_bind, wp_modify.
  apply wp_bind, wp_lift_err. cbv zeta. rewrite Hn, Hf, Hv, !Z.eqb_refl, bool_decide_false by tauto. cbn [negb orb]. apply wp_ret.
  split; try done. simpl. by rewrite app_nil_r.
Qed.

Lemma release_wp o n e core1 c : queue_ok (controls c) → buffered (market_data_latency_ms c) (visible_core c) e o core1 →
  wp (release_observation o n) c (λ _, shows core1 [(e, buffered_visible_at o)] c) no_replay.
Proof.
  intros Hq Hb. unfold release_observation. apply wp_bind, wp_lift_err. pose proof Hb as (_ & _ & -> & _). apply wp_bind.
  eapply wp_mono; [by apply commit_visible_wp|]. intros occ c1 H1. cbv beta zeta.
  eapply wp_keeps; [exact H1|apply interrupt_keeps|]. intros _ c2 H2.
  eapply wp_keeps; [exact H2|apply evidence_keeps|]. intros ev c3 H3.
  eapply wp_keeps; [exact H3|apply simulate_keeps|]. intros _ c4 H4. apply wp_bind, wp_get. cbv zeta.
  eapply wp_keeps; [exact H4|apply keeps_lift; intros ?; apply ok_or_no_replay; by intros ? [=]|]. intros state c5 H5.
  eapply wp_keeps; [exact H5|apply keeps_lift, final_mark_no_replay|]. intros mark c6 H6.
  eapply wp_keeps; [exact H6|destruct mark; keep|]. intros _ c7 H7.
  eapply wp_keeps; [exact H7|apply publish_book_keeps|]. intros published c8 H8.
  apply wp_bind. unfold call. apply wp_bind, wp_get.
  match goal with |- context [Strategy.on_event ?ctx with_scheduled_orders (strategy c8)] =>
    pose proof (seen_event ctx with_scheduled_orders (strategy c8)) as Hseen;
    destruct (Strategy.on_event ctx with_scheduled_orders (strategy c8)) as [[r sink] st] end. simpl in Hseen.
  apply wp_bind, wp_modify.
  assert (H9 : shows core1 [(e, buffered_visible_at o)] c (set_strategy st c8)).
  { destruct H8 as [? ? ? Hs8 ? ?]. split; try done. simpl. by rewrite Hseen, Hs8, app_nil_r. }
  eapply wp_keeps; [exact H9|apply keeps_lift, of_callback_no_replay|]. intros _ c9 H10. apply wp_ret.
  eapply wp_keeps; [exact H10|apply deliver_output_keeps|]. intros _ c11 H11. apply wp_bind, wp_get.
  eapply wp_keeps_last; [exact H11|]. destruct (published && _); keep.
Qed.

(** ** The visible replay lags behind the committed one *)

(** The observations that take [core] to the committed core, with their events. *)
Inductive queued (latency : Z) : Replay.ReplayCore → list BufferedObservation → list Event.DomainEvent → Replay.ReplayCore → Prop :=
| queued_nil core : queued latency core [] [] core
| queued_cons core o os e es core1 core' : buffered latency core e o core1 → queued latency core1 os es core' →
    queued latency core (o :: os) (e :: es) core'.

Lemma queued_snoc latency core os es core1 e o core2 : queued latency core os es core1 → buffered latency core1 e o core2 →
  queued latency core (os ++ [o]) (es ++ [e]) core2.
Proof. induction 1; intros Hb; simpl; [|by econstructor; [|eauto]]. eapply queued_cons; [done|constructor]. Qed.

Lemma queued_nil_inv latency core es core' : queued latency core [] es core' → es = [] ∧ core' = core.
Proof. by inversion 1. Qed.

Lemma queued_cons_inv latency core o os es core' : queued latency core (o :: os) es core' →
  ∃ e es1 core1, es = e :: es1 ∧ buffered latency core e o core1 ∧ queued latency core1 os es1 core'.
Proof. inversion 1; eauto 10. Qed.

Lemma queued_applies latency core os es core' : queued latency core os es core' → Replay.apply_all core es = (Ok (), core').
Proof. induction 1 as [|core o os e es core1 core' (commit & Ha & _) _ IH]; [done|]. simpl. by rewrite Ha. Qed.

(** An event as the strategy is shown it. *)
Definition viewed (latency : Z) (e : Event.DomainEvent) (v : Event.DomainEvent * MatchTime.MatchTime) : Prop :=
  v.1 = e ∧ add_milliseconds (Event.match_time e) latency = Ok v.2.

Context (core0 : Replay.ReplayCore) (seen0 : list (Event.DomainEvent * MatchTime.MatchTime)) (latency : Z).

(** Of the committed events some prefix was shown; the rest waits, first in
    the batch under way, then in the queue. *)
Record lags (core : Replay.ReplayCore) (events : list Event.DomainEvent) (batch : list BufferedObservation) c : Prop := {
  la_latency : market_data_latency_ms c = latency;
  la_queue : queue_ok (controls c);
  la_shown : ∃ shown rest views, events = shown ++ rest ∧ Replay.apply_all core0 shown = (Ok (), visible_core c) ∧
    queued latency (visible_core c) (batch ++ releases (Control.pending (controls c))) rest core ∧
    seen (strategy c) = seen0 ++ views ∧ Forall2 (viewed latency) shown views }.

Lemma lags_frame core events batch c c' : lags core events batch c → frame c c' → lags core events batch c'.
Proof.
  intros [Hl Hq (shown & rest & views & H)] [Hc _ Hlat Hs Hr Hq']. split; [congruence|done|]. exists shown, rest, views. by rewrite Hc, Hs, Hr.
Qed.

Lemma apply_all_snoc core es core1 e r core2 : Replay.apply_all core es = (Ok (), core1) → Replay.apply_ordered core1 e = (Ok r, core2) →
  Replay.apply_all core (es ++ [e]) = (Ok (), core2).
Proof.
  revert core. induction es as [|x es IH]; intros core; simpl; [intros [= ->]; by intros ->|].
  destruct (Replay.apply_ordered core x) as [[|] c1]; [apply IH|done].
Qed.

Lemma lags_shows core events o os e c c' core1 : lags core events (o :: os) c → buffered latency (visible_core c) e o core1 →
  shows core1 [(e, buffered_visible_at o)] c c' → lags core events os c'.
Proof.
  intros [Hl Hq (shown & rest & views & -> & Ha & Hw & Hs & Hv)] Hb [Hc _ Hlat Hs' Hr Hq'].
  split; [congruence|done|]. apply queued_cons_inv in Hw as (e2 & es2 & core3 & -> & Hb2 & Hw2).
  destruct Hb as (k & Hk & Hd & _ & _ & _ & Ht), Hb2 as (k2 & Hk2 & Hd2 & _). rewrite Hd in Hd2. injection Hd2 as <-.
  rewrite Hk in Hk2. injection Hk2 as <- <-. exists (shown ++ [e]), es2, (views ++ [(e, buffered_visible_at o)]). split_and!.
  - by rewrite <-app_assoc.
  - rewrite Hc. by eapply apply_all_snoc.
  - by rewrite Hc, Hr.
  - by rewrite Hs', Hs, app_assoc.
  - apply Forall2_app; [done|]. by constructor.
Qed.

Lemma process_control_wp core events batch x c : lags core events (option_list (release_of (payload x)) ++ batch) c →
  wp (process_control x) c (λ _, lags core events batch) no_replay.
Proof.
  intros Hl. assert (Hkeep : release_of (payload x) = None → keeps (process_control x) c → wp (process_control x) c (λ _, lags core events batch) no_replay).
  { intros Hx Hk. rewrite Hx in Hl. eapply wp_mono; [apply Hk, Hl|]. intros u c' Hc. by eapply lags_frame. }
  unfold process_control in *. cbv zeta in *. apply wp_bind, wp_get. destruct (payload x) as [o|id|id|i|ev|r|fb xs id]; cbn [release_of option_list app] in Hl, Hkeep.
  - pose proof Hl as [Hlat Hq (shown & rest & views & -> & Ha & Hw & Hs & Hv)]. apply queued_cons_inv in Hw as (e2 & es2 & core3 & -> & Hb & Hw2). rewrite <-Hlat in Hb.
    eapply wp_mono; [by apply release_wp|]. intros u c' Hc. eapply lags_shows; [exact Hl|by rewrite <-Hlat|exact Hc].
  - apply Hkeep; [done|]. apply keeps_get. destruct (order_can_expire id c); keep. apply schedule_feedback_keeps.
  - apply Hkeep; [done|]. apply keeps_get. destruct (negb _); keep. apply settle_activations_keeps.
  - apply Hkeep; [done|]. keep. apply settle_activations_keeps.
  - apply Hkeep; [done|]. keep. apply settle_activations_keeps.
  - apply Hkeep; [done|]. apply keeps_get. destruct (bool_decide _); [apply keeps_ret|apply fire_timer_keeps].
  - apply Hkeep; [done|]. apply keeps_get. apply deliver_feedback_keeps.
Qed.

Abbreviation Batch := (list (ScheduledControl ScheduledBacktestControl) * ControlTimeQueue ScheduledBacktestControl)%type.

(** Taking a batch off the queue keeps the order of the releases. *)
Definition takes (q : ControlTimeQueue ScheduledBacktestControl) (b : Batch) : Prop :=
  queue_ok b.2 ∧ releases (Control.pending q) = omap (λ x, release_of (payload x)) b.1 ++ releases (Control.pending b.2).

Lemma pop_takes p q : queue_ok q → takes q (pop_while p q).
Proof.
  intros [[Hs Hb] Hk]. unfold pop_while. destruct (pop_entries_spec p (Control.pending q)) as (taken & rest & -> & Hl & _ & _).
  rewrite Hl in Hs, Hb, Hk. split; simpl.
  - split; [split; simpl|].
    + unfold sorted in *. by apply StronglySorted_app_1_r in Hs.
    + by apply Forall_app in Hb as [_ Hb].
    + by apply Forall_app in Hk as [_ Hk].
  - rewrite Hl, releases_app. f_equal. clear. induction taken as [|e l IH]; [done|]. rewrite releases_cons, IH. simpl. by destruct (release_of e.2).
Qed.

(** A loop that takes batches off the queue. *)
Definition popping (ready : ControlTimeQueue ScheduledBacktestControl → option Batch) : Prop :=
  ∀ q b, ready q = Some b → queue_ok q → takes q b.

Lemma ready_before_pops t : popping (ready_before t).
Proof. unfold ready_before. intros q b. destruct (next_time q); [|done]. case_bool_decide; [|done]. intros [= <-]. apply pop_takes. Qed.
Lemma ready_at_pops t : popping (ready_at t).
Proof. unfold ready_at. intros q b. case_bool_decide; [|done]. intros [= <-]. apply pop_takes. Qed.
Lemma ready_next_pops : popping ready_next.
Proof. unfold ready_next. intros q b. destruct (next_time q); [|done]. intros [= <-]. apply pop_takes. Qed.

Lemma process_batch_wp core events b c : lags core events [] c → takes (controls c) b → wp (process_batch b) c (λ _, lags core events []) no_replay.
Proof.
  intros [Hl Hq (shown & rest & views & -> & Ha & Hw & Hs & Hv)] [Hq' Hr]. unfold process_batch. apply wp_bind, wp_modify.
  rewrite Hr in Hw. destruct b as [xs q]. cbn [fst snd] in *.
  assert (Hlags : lags core (shown ++ rest) (omap (λ x, release_of (payload x)) xs) (set_controls q c)).
  { split; [done|done|]. by exists shown, rest, views. }
  clear -Hlags. revert Hlags. generalize (set_controls q c), (shown ++ rest). clear. intros c events. revert c.
  induction xs as [|x xs IH]; intros c Hc; [exact Hc|]. simpl. apply wp_bind. eapply wp_mono; [|intros u c'; apply IH].
  apply process_control_wp. simpl in Hc. by destruct (release_of (payload x)).
Qed.

Lemma process_while_lags ready fuel core events c r c' : popping ready → lags core events [] c →
  process_while ready fuel c = Replay.Done (r, c') →
  match r with Ok _ => lags core events [] c' ∧ ready (controls c') = None | Err e => no_replay e end.
Proof.
  intros Hp. revert c. induction fuel as [|fuel IH]; intros c Hc; simpl; (destruct (ready (controls c)) as [b|] eqn:Hr; [|by intros [= <- <-]]); [done|].
  pose proof (process_batch_wp _ _ b c Hc (Hp _ _ Hr (la_queue _ _ _ _ Hc))) as Hw. unfold wp in Hw.
  destruct (process_batch b c) as [[[]|e] c1]; [by apply IH|]. by intros [= <- <-].
Qed.

Lemma run_loop_lags ready fuel core events c r : popping ready → lags core events [] c →
  run_loop (process_while ready fuel c) = Replay.Done r →
  match r with Ok c' => lags core events [] c' ∧ ready (controls c') = None | Err e => no_replay e end.
Proof.
  intros Hp Hc. destruct (process_while ready fuel c) as [[r' c']| |] eqn:E; [|done..].
  pose proof (process_while_lags _ _ _ _ _ _ _ Hp Hc E) as H. destruct r'; intros [= <-]; exact H.
Qed.

(** ** Buffering keeps the replay order *)

Import SimulatorLaws(time_of).

Lemma event_le_time e1 e2 : OrderingLaws.event_le e1 e2 → time_of (Event.match_time e1) ≤ time_of (Event.match_time e2).
Proof.
  assert (Hk : ∀ e k, Ordering.for_event e = Ok k → Ordering.match_time k = Event.match_time e).
  { intros e k. unfold Ordering.for_event. destruct (Ordering.for_event_and_canonical e) as [[k' can]|] eqn:E; [|done]. intros [= <-].
    apply OrderingLaws.for_event_and_canonical_Ok in E as [_ E]. unfold Ordering.for_event_with_fingerprint in E. by apply bind_Ok in E as (? & _ & [= <-]). }
  intros (k1 & k2 & H1 & H2 & H). rewrite <-(Hk _ _ H1), <-(Hk _ _ H2).
  apply (ReplayLaws.ord_le_fst (X:=MatchTime.MatchTime)) in H. unfold ord_le in H. destruct (Z.le_gt_cases (time_of (Ordering.match_time k1)) (time_of (Ordering.match_time k2))) as [|Hgt]; [done|].
  exfalso. apply H. by apply Z.compare_gt_iff.
Qed.

Lemma add_milliseconds_spec t ms v : add_milliseconds t ms = Ok v → time_of v = time_of t + ms * 1000.
Proof.
  unfold add_milliseconds. intros (m1 & H1 & H)%bind_Ok. apply bind_Ok in H as (m2 & H2 & H). apply bind_Ok in H as (m3 & H3 & [= <-]).
  unfold ok_or, to_u64, to_i64 in *. repeat match goal with H : match ?o with _ => _ end = Ok _ |- _ => destruct o eqn:?; [|done]; injection H as -> end.
  repeat match goal with H : checked _ _ _ = Some _ |- _ => apply checked_Some in H as [-> _] end. done.
Qed.

Lemma queued_visible core os es core' : queued latency core os es core' →
  Forall2 (λ o e, add_milliseconds (Event.match_time e) latency = Ok (buffered_visible_at o)) os es.
Proof. induction 1 as [|core o os e es core1 core' (? & _ & _ & _ & _ & _ & Ht) _ IH]; constructor; done. Qed.

Lemma apply_all_app core es core1 fs : Replay.apply_all core es = (Ok (), core1) → Replay.apply_all core (es ++ fs) = Replay.apply_all core1 fs.
Proof.
  revert core. induction es as [|x es IH]; intros core; simpl; [by intros [= ->]|].
  destruct (Replay.apply_ordered core x) as [[|] c1]; [apply IH|done].
Qed.

Lemma lags_committed core events batch c : lags core events batch c → Replay.apply_all core0 events = (Ok (), core).
Proof. intros [_ _ (shown & rest & views & -> & Ha & Hw & _)]. rewrite (apply_all_app _ _ _ _ Ha). by eapply queued_applies. Qed.

(** What waits is due no later than what follows in replay order. *)
Lemma waiting_before core events c e commit core1 v : lags core events [] c → Replay.apply_ordered core e = (Ok commit, core1) →
  add_milliseconds (Event.match_time e) latency = Ok v →
  Forall (λ o, time_of (buffered_visible_at o) ≤ time_of v) (releases (Control.pending (controls c))).
Proof.
  intros Hl He Hv. pose proof (apply_all_snoc _ _ _ _ _ _ (lags_committed _ _ _ _ Hl) He) as Hall.
  apply ReplayLaws.apply_all_sorted in Hall as [Hs _]. destruct Hl as [_ _ (shown & rest & views & -> & _ & Hw & _)].
  simpl in Hw. apply queued_visible in Hw. apply add_milliseconds_spec in Hv.
  assert (Hrest : Forall (λ x, OrderingLaws.event_le x e) rest).
  { apply Forall_forall. intros x Hx. rewrite <-app_assoc in Hs. apply StronglySorted_app_1_r in Hs. clear -Hs Hx.
    induction rest as [|y rest IH]; [done|]. simpl in Hs. inversion_clear Hs as [|? ? Hs' Hf]. destruct Hx as [->|Hx]; [|by apply IH].
    apply Forall_app in Hf as [_ Hf]. by apply Forall_cons_iff in Hf as [? _]. }
  clear -Hw Hrest Hv. induction Hw as [|o y os es Ho _ IH]; [constructor|]. apply Forall_cons_iff in Hrest as [Hx Hrest].
  constructor; [|by apply IH]. apply add_milliseconds_spec in Ho. apply event_le_time in Hx. lia.
Qed.

Lemma releases_elem l o : (∃ e, e ∈ l ∧ release_of e.2 = Some o) ↔ o ∈ releases l.
Proof.
  induction l as [|e l IH]; [split; [by intros (? & ?%not_elem_of_nil & _)|by intros ?%not_elem_of_nil]|].
  rewrite releases_cons, elem_of_app, <-IH. setoid_rewrite elem_of_cons. destruct (release_of e.2) as [o'|] eqn:E; simpl.
  - rewrite list_elem_of_singleton. split.
    + intros (e' & [->|He'] & He); [left; congruence|right; eauto].
    + intros [->|(e' & He' & Ho)]; eauto.
  - split.
    + intros (e' & [->|He'] & He); [congruence|right; eauto].
    + intros [?%not_elem_of_nil|(e' & He' & Ho)]; [done|eauto].
Qed.

(** The release of the next event is scheduled behind the others. *)
Lemma schedule_release_wp core events c e commit core1 o : lags core events [] c → Replay.apply_ordered core e = (Ok commit, core1) →
  buffered latency core e o core1 →
  wp (schedule_control (buffered_visible_at o) Control.ReleaseObservation (ReleaseObservation o)) c
    (λ _, lags core1 (events ++ [e]) []) no_replay.
Proof.
  intros Hl He Hb. pose proof Hb as (? & _ & _ & _ & _ & _ & Hv). pose proof (waiting_before _ _ _ _ _ _ _ Hl He Hv) as Hwait.
  destruct Hl as [Hlat [Hq Hk] (shown & rest & views & -> & Ha & Hw & Hs & Hvs)].
  unfold schedule_control. apply wp_bind, wp_get. destruct (schedule _ _ _ _) as [r q] eqn:Hr. apply wp_bind, wp_modify.
  apply wp_lift_err. destruct r as [n|err]; [|by intros ? [=]].
  split; [done| |].
  - eapply schedule_queue_ok; [done| |exact Hr]. intros o' [= <-]. done.
  - exists shown, (rest ++ [e]), views. split_and!; [by rewrite app_assoc|done| |done|done]. cbn [set_controls controls visible_core app].
    unfold schedule in Hr. destruct (to_u64 _); [|done]. injection Hr as <- <-. cbn [Control.pending].
    rewrite releases_insert_last; [by eapply queued_snoc|apply Hq|].
    destruct Hq as [_ Hbelow]. unfold below in Hbelow. rewrite Forall_forall in Hk, Hwait, Hbelow. apply Forall_forall. intros [k y] Hin Hx.
    destruct (release_of y) as [o'|] eqn:Ex; simpl in Hx; [|congruence]. destruct (Hk _ Hin o' Ex) as [Hat Hphase].
    assert (Ho' : o' ∈ releases (Control.pending (controls c))) by (apply releases_elem; exists (k, y); split; [by apply list_elem_of_In|done]).
    specialize (Hwait o' ltac:(by apply list_elem_of_In)). specialize (Hbelow _ Hin). simpl in *. unfold ord_lt. destruct k as [kt kp ks]. simpl in *. subst kt kp.
    change (cmp (buffered_visible_at o', (Control.ReleaseObservation, ks)) (buffered_visible_at o, (Control.ReleaseObservation, next_sequence (controls c))) = Lt).
    rewrite !cmp_pair. rewrite cmp_refl. destruct (cmp (buffered_visible_at o') (buffered_visible_at o)) eqn:E; [|done|].
    + by apply Z.compare_lt_iff.
    + exfalso. apply Z.compare_gt_iff in E. change (time_of (buffered_visible_at o) < time_of (buffered_visible_at o')) in E. lia.
Qed.

Lemma wp_lags {A C} core events (m : Co A) (f : A → Co C) c Q : lags core events [] c → keeps m c →
  (∀ x c', lags core events [] c' → wp (f x) c' Q no_replay) → wp (m ≫= f) c Q no_replay.
Proof.
  intros Hl Hm Hf. apply wp_bind. eapply wp_mono; [apply Hm, Hl|]. intros x c' Hc. apply Hf. by eapply lags_frame.
Qed.

Lemma buffer_auction_keeps e occ context v c : keeps (buffer_auction e occ context v) c.
Proof.
  unfold buffer_auction. destruct (bool_decide _); [keep|]. apply keeps_bind.
  - apply keeps_lift. intros err. unfold auction_clearing_price. destruct (Event.payload e); try done.
    destruct (Event.batch_trades _) as [|t ts]; [done|]. destruct (existsb _ _); [|done]. intros [= <-]. by intros ?.
  - intros [p|] c' _; [|keep]. keep. destruct (instrument_needs_auction_match _ _ _); keep.
Qed.

Lemma buffer_committed_wp core events c e commit core1 : lags core events [] c → EventCodec.wf e →
  Replay.apply_ordered core e = (Ok commit, core1) →
  wp (buffer_committed core1 e (Replay.occurrence commit)) c (λ _, lags core1 (events ++ [e]) []) no_replay.
Proof.
  intros Hl He Hc. destruct (ReplayLaws.apply_ordered_Ok _ _ _ _ Hc) as (key & can & s & s' & Hcom).
  unfold buffer_committed. apply wp_bind, wp_get. pose proof (la_latency _ _ _ _ Hl) as Hlat.
  eapply wp_lags; [exact Hl|keep|]. intros segment c1 H1. eapply wp_lags; [exact H1|keep|]. intros state c2 H2.
  eapply wp_lags; [exact H2|keep|]. intros context c3 H3. apply wp_bind, wp_lift_err.
  destruct (add_milliseconds _ _) as [v|err] eqn:Hv; [|by intros ? [=]].
  eapply wp_lags; [exact H3|apply buffer_auction_keeps|]. intros _ c4 H4.
  apply wp_bind, wp_lift_err. pose proof (ReplayLaws.com_key _ _ _ _ _ _ _ _ Hcom) as Hk. apply OrderingLaws.for_event_and_canonical_Ok in Hk as [Hcan _].
  rewrite Hcan. apply wp_bind. set (o := mk_buffered _ _ _ _ _ _). change v with (buffered_visible_at o).
  eapply wp_mono; [eapply (schedule_release_wp core events c4 e commit core1 o); [done|done|]|by intros].
  exists commit. split; [done|]. split_and!; [|done..|by rewrite <-Hlat].
  apply EventCodec.frame_decode_encode; [done| |done]. pose proof (ReplayLaws.com_length _ _ _ _ _ _ _ _ Hcom). unfold_ints. simpl. lia.
Qed.

(** ** The run *)

(** The loop over ordered events that the merge stands for. *)
Fixpoint process_all (rounds : nat) (core : Replay.ReplayCore) (c : Coordinator S) (events : list Event.DomainEvent) :
    Replay.Outcome (result (Failure MultiBacktestError) (Replay.ReplayCore * Coordinator S)) :=
  match events with
  | [] => Replay.Done (Ok (core, c))
  | e :: events => and_then (process_event rounds core c e) (λ '(core, c), process_all rounds core c events)
  end.

Lemma and_then_Done {A C} (r : Replay.Outcome (result (Failure MultiBacktestError) A)) (k : A → Replay.Outcome (result (Failure MultiBacktestError) C)) x :
  and_then r k = Replay.Done x → (∃ e, r = Replay.Done (Err e) ∧ x = Err e) ∨ ∃ y, r = Replay.Done (Ok y) ∧ k y = Replay.Done x.
Proof. destruct r as [[y|e]| |]; simpl; [eauto|intros [= <-]; eauto|done..]. Qed.

(** What an event does to the loop: it is committed and waits, or it fails to
    replay, or something that is no replay fails. *)
Lemma process_event_lags rounds core events c e r : lags core events [] c → EventCodec.wf e →
  process_event rounds core c e = Replay.Done r →
  match r with
  | Ok (core', c') => lags core' (events ++ [e]) [] c'
  | Err err => no_replay err ∨ ∃ x, err = Returned (ReplayE (Engine x)) ∧ fst (Replay.apply_ordered core e) = Err x
  end.
Proof.
  intros Hl He. unfold process_event. intros [(err & Hr & ->)|(c1 & Hr & H)]%and_then_Done.
  { left. exact (run_loop_lags _ _ _ _ _ _ (ready_before_pops _) Hl Hr). }
  destruct (run_loop_lags _ _ _ _ _ _ (ready_before_pops _) Hl Hr) as [H1 _].
  destruct (Replay.apply_ordered core e) as [[commit|x] core1] eqn:Ha; [|injection H as <-; right; by exists x].
  pose proof (buffer_committed_wp core events c1 e commit core1 H1 He Ha) as Hb. unfold wp in Hb.
  destruct (buffer_committed core1 e (Replay.occurrence commit) c1) as [[[]|err] c2]; [|injection H as <-; by left].
  apply and_then_Done in H as [(err & Hr2 & ->)|(c3 & Hr2 & [= <-])].
  { left. exact (run_loop_lags _ _ _ _ _ _ (ready_at_pops _) Hb Hr2). }
  exact (proj1 (run_loop_lags _ _ _ _ _ _ (ready_at_pops _) Hb Hr2)).
Qed.

Lemma process_all_lags rounds rest : ∀ core events c r, lags core events [] c → Forall EventCodec.wf rest →
  process_all rounds core c rest = Replay.Done r →
  match r with
  | Ok (core', c') => lags core' (events ++ rest) [] c'
  | Err err => no_replay err ∨ ∃ x, err = Returned (ReplayE (Engine x)) ∧ fst (Replay.apply_all core rest) = Err x
  end.
Proof.
  induction rest as [|e rest IH]; intros core events c r Hl Hwf; simpl.
  - intros [= <-]. by rewrite app_nil_r.
  - apply Forall_cons_iff in Hwf as [He Hwf]. intros [(err & Hr & ->)|([core1 c1] & Hr & H)]%and_then_Done.
    + destruct (process_event_lags _ _ _ _ _ _ Hl He Hr) as [Hn|(x & -> & Hx)]; [by left|right]. exists x. split; [done|].
      destruct (Replay.apply_ordered core e) as [[k|y] core1]; [done|]. by injection Hx as ->.
    + pose proof (process_event_lags _ _ _ _ _ _ Hl He Hr) as H1. simpl in H1.
      specialize (IH _ _ _ _ H1 Hwf H). destruct r as [[core' c']|err]; [by rewrite <-app_assoc in IH|].
      destruct IH as [Hn|(x & -> & Hx)]; [by left|right]. exists x. split; [done|].
      pose proof (lags_committed _ _ _ _ H1) as Hc1. rewrite (apply_all_app _ _ _ _ (lags_committed _ _ _ _ Hl)) in Hc1. simpl in Hc1.
      destruct (Replay.apply_ordered core e) as [[k|y] core2]; [|done]. by injection Hc1 as ->.
Qed.

(** Once drained, everything that was committed has been shown. *)
Lemma drained core events c : lags core events [] c → ready_next (controls c) = None →
  visible_core c = core ∧ ∃ views, seen (strategy c) = seen0 ++ views ∧ Forall2 (viewed latency) events views.
Proof.
  intros [_ _ (shown & rest & views & -> & _ & Hw & Hs & Hv)] Hr. unfold ready_next, next_time in Hr.
  destruct (Control.pending (controls c)) as [|e l]; [|done]. simpl in Hw. apply queued_nil_inv in Hw as [-> ->].
  split; [done|]. exists views. by rewrite app_nil_r.
Qed.
End laws.

(** ** The merge is the replay engine's *)

Section run.
Context {B : Event.Blake3} {S : Type} {St : Strategy.Strategy S}.
Context {F T E : Type} `{!Plan.EventStream T E, !FiniteStream T E, !Plan.ReplayStreamFactory F T E, !FrozenFactory F T E, !Replay.ErrorText E}.

(** The same merge, without the encodings the engine keeps with its heads. *)
Definition coupled (m : Merge (T:=T)) (r : Replay.Merge) : Prop :=
  streams m = Replay.streams r ∧ heads m = (λ h : Replay.Head, fst <$> h) <$> Replay.heads r ∧ pending m = Replay.pending r.

Lemma refill_coupled m r i s r' : coupled m r → Replay.refill r i s = (Ok (), r') → ∃ m', refill m i s = Ok m' ∧ coupled m' r'.
Proof.
  intros (Hs & Hh & Hp). unfold Replay.refill, refill, Replay.next_event. destruct (Plan.next_event s) as [[[e|]|err] s'] eqn:En; simpl.
  - unfold next_key, Ordering.for_event. destruct (Ordering.for_event_and_canonical e) as [[key can]|] eqn:Ek; simpl; [|done].
    intros [= <-]. eexists. split; [done|]. split_and!; simpl; [by rewrite Hs| |by rewrite Hp].
    rewrite Hh, list_fmap_insert. done.
  - intros [= <-]. eexists. split; [done|]. by split_and!; simpl; rewrite ?Hs, ?Hh, ?Hp.
  - done.
Qed.

Lemma prime_coupled opened : ∀ m r i r', coupled m r → Replay.prime r i opened = (Ok (), r') → ∃ m', prime m i opened = Ok m' ∧ coupled m' r'.
Proof.
  induction opened as [|s opened IH]; intros m r i r' Hc; simpl; [intros [= <-]; by exists m|].
  destruct (Replay.refill r i s) as [[[]|] r1] eqn:Hr; [|done]. destruct (refill_coupled _ _ _ _ _ Hc Hr) as (m1 & -> & Hc1). simpl. by apply IH.
Qed.

Lemma merge_loop_all rounds rest : ∀ fuel core (c : Coordinator S) m r, (length rest < fuel)%nat → coupled m r →
  ReplayMerge.merge_inv (λ _, True) r rest → StronglySorted OrderingLaws.event_le rest → ReplayMerge.has_keys rest → ReplayMerge.keys_injective rest →
  merge_loop fuel rounds core c m = process_all rounds core c rest.
Proof.
  induction rest as [|x rest IH]; intros fuel core c m r Hf Hc Hm Hsorted Hkeys Hinj;
    (destruct fuel as [|fuel]; [simpl in Hf; lia|]); cbn [merge_loop process_all]; pose proof Hc as (Hcs & Hch & Hcp); rewrite Hcp.
  - destruct (Replay.pop (Replay.pending r)) as [[[key i] p]|] eqn:Hp; [|done]. exfalso.
    apply ReplayMerge.pop_Some in Hp as [Hp _]. destruct (proj1 (ReplayMerge.mi_pending _ _ _ Hm key i)) as (e & can & Hh & _); [rewrite <-Hp; left|].
    destruct (lookup_lt_is_Some_2 (Replay.streams r) i) as [s Hs];
      [rewrite <-(ReplayMerge.mi_length _ _ _ Hm); by eapply lookup_lt_Some|].
    assert (He : e ∈ []) by (eapply ReplayMerge.remainings_elem; [done..|left]). by apply not_elem_of_nil in He.
  - destruct (ReplayMerge.pop_inv r x rest Hm Hsorted Hkeys Hinj) as (key & i & p & can & s & -> & Hh & Hs & Hk & Hm1).
    assert (Hhm : heads m !! i = Some (Some x)).
    { rewrite Hch, list_lookup_fmap. exact (f_equal (fmap (λ h : Replay.Head, fst <$> h)) Hh). }
    rewrite Hhm, Hch, Hcs, Hs. cbn [mjoin option_join].
    assert (Hkeys' : ReplayMerge.has_keys rest) by (intros e He; apply Hkeys; by right).
    assert (Hinj' : ReplayMerge.keys_injective rest) by (intros e1 e2 ky He1 He2; apply Hinj; by right).
    destruct (ReplayMerge.refill_inv _ _ rest i s Hm1 Hkeys') as (r2 & Hr2 & Hm2 & _ & _); [|done|].
    { simpl. rewrite list_lookup_insert_eq; [done|]. by eapply lookup_lt_Some. }
    edestruct (refill_coupled (mk_merge (Replay.streams r) (<[i := None]> ((λ h : Replay.Head, fst <$> h) <$> Replay.heads r)) p)) as (m2 & -> & Hc2); [|exact Hr2|].
    { split_and!; simpl; [done|by rewrite list_fmap_insert|done]. }
    destruct (process_event rounds core c x) as [[[core1 c1]|err]| |]; simpl; [|done..].
    inversion_clear Hsorted. eapply IH; [simpl in Hf; lia|exact Hc2| |done..].
    eapply ReplayMerge.inv_all; [|exact Hm2]. intros j _. destruct (decide (j = i)); [by left|by right].
Qed.

Lemma primed_coupled opened rest : concat (contents <$> opened) ≡ₚ rest → Forall (StronglySorted OrderingLaws.event_le) (contents <$> opened) →
  ReplayMerge.has_keys rest → ∃ m r, prime (mk_merge opened (replicate (length opened) None) []) 0 opened = Ok m ∧ coupled m r ∧
    ReplayMerge.merge_inv (λ _, True) r rest.
Proof.
  intros Hperm Hsorted Hkeys. destruct (ReplayMerge.primed_inv opened rest Hperm Hsorted Hkeys) as (r & Hr & Hm).
  destruct (prime_coupled opened (mk_merge opened (replicate (length opened) None) []) (Replay.mk_merge opened (replicate (length opened) None) []) 0%nat r)
    as (m & Hprime & Hc); [|done|by exists m, r].
  split_and!; simpl; [done| |done]. by rewrite fmap_replicate.
Qed.

(** What the plan gives: sorted streams of decoded events with one order. *)
Record planned (plan : Plan.ReplayPlan) (f : F) (ordered : list Event.DomainEvent) : Prop := {
  pl_sorted : Forall (StronglySorted OrderingLaws.event_le) (frozen f <$> Plan.bindings plan);
  pl_fits : Forall OrderingLaws.event_fits (concat (frozen f <$> Plan.bindings plan));
  pl_ordered : Ordering.order_events (concat (frozen f <$> Plan.bindings plan)) = Ok ordered }.

Lemma open_bindings_frozen core schedule bs : ∀ f opened, open_bindings core schedule f bs = Ok opened → contents <$> opened = frozen f <$> bs.
Proof.
  induction bs as [|b bs IH]; intros f opened; simpl; [by intros [= <-]|]. intros (? & _ & Hb)%bind_Ok.
  destruct (open_frozen f b) as (st & f1 & Ho & Hst & Hf1). rewrite Ho in Hb. cbn [stream_text map_err mbind result_bind] in Hb.
  apply bind_Ok in Hb as (rest & Hr & [= <-]). rewrite fmap_cons, Hst, (IH _ _ Hr). f_equal. apply list_fmap_ext. intros. apply Hf1.
Qed.

Lemma planned_loop fuel rounds core (c : Coordinator S) plan f opened m ordered : planned plan f ordered → (length ordered < fuel)%nat →
  contents <$> opened = frozen f <$> Plan.bindings plan → prime (mk_merge opened (replicate (length opened) None) []) 0 opened = Ok m →
  merge_loop fuel rounds core c m = process_all rounds core c ordered.
Proof.
  intros [Hsorted Hfit Hord] Hfuel Hopened Hprime.
  destruct (OrderingLaws.order_events_keys _ _ Hfit Hord) as [Hkeys Hinj].
  destruct (OrderingLaws.order_events_unique_sorted _ _ Hfit Hord) as (Hperm & Hs & _).
  assert (Hkeys' : ReplayMerge.has_keys ordered) by (intros e He; apply Hkeys; by rewrite <-Hperm).
  assert (Hinj' : ReplayMerge.keys_injective ordered) by (intros e1 e2 ky He1 He2; apply Hinj; by rewrite <-Hperm).
  destruct (primed_coupled opened ordered) as (m' & r & Hm' & Hc & Hm); [by rewrite Hopened|by rewrite Hopened|done|].
  rewrite Hprime in Hm'. injection Hm' as <-. by eapply merge_loop_all.
Qed.

(** ** The whole run *)

Lemma start_Ok core st plan f schedule lat sim l mid c m : start core st plan f schedule lat sim l mid = Ok (c, m) →
  ∃ opened visible, Replay.fork_unstarted core = Ok visible ∧ contents <$> opened = frozen f <$> Plan.bindings plan ∧
    prime (mk_merge opened (replicate (length opened) None) []) 0 opened = Ok m ∧
    market_data_latency_ms c = lat ∧ controls c = new_queue ∧ visible_core c = visible ∧
    strategy c = (Strategy.initialize (Strategy.declaration st) st).2 ∧ simulator c = sim ∧ ledger c = l.
Proof.
  unfold start. intros (? & _ & Hx)%bind_Ok. destruct (bool_decide _); [done|].
  destruct (Strategy.initialize (Strategy.declaration st) st) as [r st1]. apply bind_Ok in Hx as (? & _ & Hx).
  apply bind_Ok in Hx as (opened & Hop & Hx). apply bind_Ok in Hx as (visible & Hfork & Hx). apply bind_Ok in Hx as (m1 & Hprime & [= <- <-]).
  exists opened, visible. simpl.
  destruct (Replay.fork_unstarted core) as [v|]; [|done]. injection Hfork as ->.
  destruct (open_bindings core schedule f (Plan.bindings plan)) as [o|] eqn:Eo; [|done]. injection Hop as ->.
  destruct (prime _ 0 opened) as [m2|]; [|done]. injection Hprime as ->. by rewrite (open_bindings_frozen _ _ _ _ _ Eo).
Qed.

(** The loop over the events in replay order that a scheduled backtest stands for. *)
Definition scheduled_loop (rounds : nat) (core : Replay.ReplayCore) (c : Coordinator S) (ordered : list Event.DomainEvent) :
    Replay.Outcome (result (Failure MultiBacktestError) CompletedScheduledMultiBacktest) :=
  and_then (process_all rounds core c ordered) (λ '(core, c), and_then (run_loop (drain rounds c)) (λ c, Replay.Done (finish core c))).

Lemma scheduled_run_loop fuel rounds core st plan f schedule lat sim l mid ordered : planned plan f ordered → (length ordered < fuel)%nat →
  run_scheduled_multi_backtest fuel rounds core st plan f schedule lat sim l mid =
  and_then (Replay.Done (start core st plan f schedule lat sim l mid)) (λ '(c, _), scheduled_loop rounds core c ordered).
Proof.
  intros Hplan Hfuel. unfold run_scheduled_multi_backtest, scheduled_loop.
  destruct (start core st plan f schedule lat sim l mid) as [[c m]|err] eqn:Hs; [|done]. cbn [and_then].
  apply start_Ok in Hs as (opened & _ & _ & Hopened & Hprime & _). by rewrite (planned_loop _ _ _ _ _ _ _ _ _ Hplan Hfuel Hopened Hprime).
Qed.

(** C11: a scheduled backtest is the plain loop over the plan's events in replay
    order: its merge over bounded heads, of whatever streams, changes nothing,
    not even the error it ends with. *)
Theorem scheduled_backtest_is_loop fuel rounds core st plan f schedule lat sim l mid ordered : planned plan f ordered → (length ordered < fuel)%nat →
  run_scheduled_multi_backtest fuel rounds core st plan f schedule lat sim l mid =
  and_then (Replay.Done (start core st plan f schedule lat sim l mid)) (λ '(c, _), scheduled_loop rounds core c ordered).
Proof. apply scheduled_run_loop. Qed.

(** A core as its constructor leaves it. *)
Definition built (core : Replay.ReplayCore) : Prop := ∃ ss rs xs schedules, Replay.new_multi_with_schedules ss rs xs schedules = Ok core.

Lemma planned_wf plan f ordered : planned plan f ordered → Forall EventCodec.wf ordered.
Proof.
  intros [_ Hfit Hord]. destruct (OrderingLaws.order_events_unique_sorted _ _ Hfit Hord) as (Hp & _). rewrite Hp.
  eapply Forall_impl; [|exact Hfit]. by intros e [].
Qed.

Context {Obs : Observer S}.

Lemma start_lags core st plan f schedule lat sim l mid c m : built core → start core st plan f schedule lat sim l mid = Ok (c, m) →
  lags core (seen st) lat core [] [] c.
Proof.
  intros (ss & rs & xs & schedules & Hc%ReplayLaws.new_constructed) (opened & visible & Hfork & _ & _ & Hlat & Hq & Hv & Hst & _)%start_Ok.
  rewrite (ReplayLaws.fork_constructed _ _ _ Hc) in Hfork. injection Hfork as <-.
  split; [done|rewrite Hq; split; [apply new_queue_wf|constructor]|]. exists [], [], []. rewrite Hq, Hv, Hst. split_and!; [done..| | |constructor].
  - constructor.
  - by rewrite seen_initialize, app_nil_r.
Qed.

Lemma scheduled_loop_lags rounds core st lat c ordered r : lags core (seen st) lat core [] [] c → Forall EventCodec.wf ordered →
  scheduled_loop rounds core c ordered = Replay.Done r →
  match r with
  | Ok done_ => ∃ core' c1 c', process_all rounds core c ordered = Replay.Done (Ok (core', c1)) ∧ run_loop (drain rounds c1) = Replay.Done (Ok c') ∧
      Replay.apply_all core ordered = (Ok (), core') ∧ finish core' c' = Ok done_ ∧ visible_core c' = core' ∧
      ∃ views, seen (strategy c') = seen st ++ views ∧ Forall2 (viewed lat) ordered views
  | Err err => no_replay err ∨ (∃ x, err = Returned (ReplayE (Engine x)) ∧ fst (Replay.apply_all core ordered) = Err x) ∨
      ∃ core' c', Replay.apply_all core ordered = (Ok (), core') ∧ finish core' c' = Err err
  end.
Proof.
  intros Hl Hwf. unfold scheduled_loop. intros [(err & Hr & ->)|([core1 c1] & Hr & Hd)]%and_then_Done.
  { destruct (process_all_lags _ _ _ _ _ _ _ _ _ Hl Hwf Hr) as [|]; tauto. }
  pose proof (process_all_lags _ _ _ _ _ _ _ _ _ Hl Hwf Hr) as Hl1. simpl in Hl1. pose proof (lags_committed _ _ _ _ _ _ _ Hl1) as Hcom.
  apply and_then_Done in Hd as [(err & Hr2 & ->)|(c2 & Hr2 & [= <-])].
  { left. exact (run_loop_lags _ _ _ _ _ _ _ _ _ ready_next_pops Hl1 Hr2). }
  destruct (run_loop_lags _ _ _ _ _ _ _ _ _ ready_next_pops Hl1 Hr2) as [Hl2 Hnext].
  destruct (finish core1 c2) as [done_|err] eqn:Hfin.
  - exists core1, c1, c2. split_and!; [done..|by apply (drained _ _ _ _ _ _ Hl2 Hnext)|by apply (drained _ _ _ _ _ _ Hl2 Hnext)].
  - right. right. by exists core1, c2.
Qed.

(** C10: in a completed scheduled backtest the strategy was shown every event of the
    plan exactly once, in replay order, each exactly one latency after its
    match time: so it stands with the coordinator the run is left with after
    its merge and its control actions, whose visible replay is where the
    committed replay, the in-memory replay of the plan, ends. *)
Theorem scheduled_observations fuel rounds core st plan f schedule lat sim l mid ordered done_ :
  built core → planned plan f ordered → (length ordered < fuel)%nat →
  run_scheduled_multi_backtest fuel rounds core st plan f schedule lat sim l mid = Replay.Done (Ok done_) →
  ∃ c m core' c1 c', start core st plan f schedule lat sim l mid = Ok (c, m) ∧
    merge_loop fuel rounds core c m = Replay.Done (Ok (core', c1)) ∧ run_loop (drain rounds c1) = Replay.Done (Ok c') ∧ finish core' c' = Ok done_ ∧
    Replay.replay core (concat (frozen f <$> Plan.bindings plan)) = (Ok (), core') ∧ visible_core c' = core' ∧
    ∃ views, seen (strategy c') = seen st ++ views ∧ Forall2 (viewed lat) ordered views.
Proof.
  intros Hb Hplan Hfuel. rewrite (scheduled_run_loop _ _ _ _ _ _ _ _ _ _ _ _ Hplan Hfuel).
  intros [(err & _ & [=])|([c m] & [= Hs] & Hd)]%and_then_Done.
  pose proof (scheduled_loop_lags _ _ _ _ _ _ _ (start_lags _ _ _ _ _ _ _ _ _ _ _ Hb Hs) (planned_wf _ _ _ Hplan) Hd)
    as (core' & c1 & c' & Hm & Hr & Ha & Hd1 & Hd2 & Hd3).
  pose proof (start_Ok _ _ _ _ _ _ _ _ _ _ _ Hs) as (opened & _ & _ & Hopened & Hprime & _).
  exists c, m, core', c1, c'. rewrite (planned_loop _ _ _ _ _ _ _ _ _ Hplan Hfuel Hopened Hprime).
  split; [done|]. split; [done|]. split; [done|]. split; [done|]. split; [|done]. unfold Replay.replay. by rewrite (pl_ordered _ _ _ Hplan).
Qed.

(** *** Where replay errors come from *)

Lemma open_bindings_no_replay core schedule bs : ∀ f e, open_bindings core schedule f bs = Err e → ∀ x, e ≠ ReplayE x.
Proof.
  induction bs as [|b bs IH]; intros f e; simpl; [done|]. destruct (binding_covered core schedule b) as [[]|e1] eqn:Eb; simpl.
  - destruct (open_frozen f b) as (s & f1 & Ho & _ & _). rewrite Ho. simpl.
    destruct (open_bindings core schedule f1 bs) as [l|e2] eqn:El; simpl; [done|]. intros [= <-]. by eapply IH.
  - intros [= <-]. revert Eb. unfold binding_covered. destruct (Replay.state core (Plan.instrument b)); simpl; [|by intros [= <-]].
    destruct (_ && _); by intros [= <-].
Qed.

Lemma check_universes_no_replay core named e : check_universes core named = Err e → ∀ x, e ≠ ReplayE x.
Proof.
  unfold check_universes. induction named as [|[u l] named IH]; simpl; [done|]. destruct (bool_decide _); simpl; [by intros [= <-]|apply IH].
Qed.

Lemma map_err_Err {A E1 E2} (g : E1 → E2) (r : result E1 A) e : map_err g r = Err e → ∃ e1, r = Err e1 ∧ e = g e1.
Proof. destruct r as [|e1]; [done|]. intros [= <-]. by exists e1. Qed.

Lemma start_no_replay core st plan f schedule lat sim l mid err ordered : built core → planned plan f ordered →
  start core st plan f schedule lat sim l mid = Err err → no_replay err.
Proof.
  intros (ss & rs & xs & schedules & Hc%ReplayLaws.new_constructed) [Hsorted Hfit Hord] Hs. unfold start in Hs.
  apply bind_Err in Hs as [(e & He & ->)%map_err_Err|(? & _ & Hs)].
  { intros y [= ->]. by eapply check_universes_no_replay. }
  destruct (bool_decide _); [injection Hs as <-; by intros ?|].
  destruct (Strategy.initialize _ st) as [r st1]. apply bind_Err in Hs as [Hs|(? & _ & Hs)]; [by eapply of_callback_no_replay|].
  apply bind_Err in Hs as [(e & He & ->)%map_err_Err|(opened & Hop & Hs)].
  { intros y [= ->]. by eapply open_bindings_no_replay. }
  rewrite (ReplayLaws.fork_constructed _ _ _ Hc) in Hs. cbn [map_err mbind result_bind] in Hs.
  destruct (OrderingLaws.order_events_keys _ _ Hfit Hord) as [Hkeys _].
  destruct (open_bindings core schedule f (Plan.bindings plan)) as [o|] eqn:Eo; [|done]. injection Hop as ->. apply open_bindings_frozen in Eo.
  destruct (primed_coupled opened (concat (contents <$> opened))) as (m' & r' & Hm' & _ & _); [done|by rewrite Eo|by rewrite Eo|].
  by rewrite Hm' in Hs.
Qed.

Lemma final_marks_no_replay core b e : final_marks core b = Err e → no_replay e.
Proof.
  unfold final_marks. destruct (collect_results _ _) eqn:Ec; [done|]. intros [= <-]. apply collect_results_Err in Ec as (s & Hs).
  destruct (final_mark s b) eqn:Em; [done|]. injection Hs as <-. by eapply final_mark_no_replay.
Qed.

Lemma finish_replay_error core (c : Coordinator S) x : finish core c = Err (Returned (ReplayE x)) → ∃ e, x = Engine e ∧ Replay.complete core = Err e.
Proof.
  unfold finish. intros [Hm|(marks & _ & Hm)]%bind_Err; [by apply final_marks_no_replay in Hm; destruct (Hm x)|].
  destruct (Strategy.finalize _ _ _) as [[r sink] st]. apply bind_Err in Hm as [Hm|(? & _ & Hm)]; [by apply of_callback_no_replay in Hm; destruct (Hm x)|].
  apply bind_Err in Hm as [(e & _ & [=])%map_err_Err|(records & _ & Hm)].
  apply bind_Err in Hm as [Hm|(? & _ & Hm)]; [by apply of_accounting_no_replay in Hm; destruct (Hm x)|].
  apply bind_Err in Hm as [Hm|(? & _ & Hm)]; [by apply of_accounting_no_replay in Hm; destruct (Hm x)|].
  apply bind_Err in Hm as [(e & He & [= ->])%map_err_Err|(? & _ & [=])]. by exists e.
Qed.

(** The replay errors of a scheduled backtest are those of the plan's own
    replay: either committing its events or completing it fails with the error
    reported. The visible replay never fails, never differs from the committed
    one, and no buffered event fails to decode. *)
Theorem scheduled_replay_errors fuel rounds core st plan f schedule lat sim l mid ordered x :
  built core → planned plan f ordered → (length ordered < fuel)%nat →
  run_scheduled_multi_backtest fuel rounds core st plan f schedule lat sim l mid = Replay.Done (Err (Returned (ReplayE x))) →
  ∃ e, x = Engine e ∧
    (fst (Replay.replay core (concat (frozen f <$> Plan.bindings plan))) = Err e ∨
     ∃ core', Replay.replay core (concat (frozen f <$> Plan.bindings plan)) = (Ok (), core') ∧ Replay.complete core' = Err e).
Proof.
  intros Hb Hplan Hfuel. rewrite (scheduled_run_loop _ _ _ _ _ _ _ _ _ _ _ _ Hplan Hfuel). unfold Replay.replay. rewrite (pl_ordered _ _ _ Hplan).
  intros [(err & [= Hs] & [= <-])|([c m] & [= Hs] & Hd)]%and_then_Done; [by destruct (start_no_replay _ _ _ _ _ _ _ _ _ _ _ Hb Hplan Hs x)|].
  destruct (scheduled_loop_lags _ _ _ _ _ _ _ (start_lags _ _ _ _ _ _ _ _ _ _ _ Hb Hs) (planned_wf _ _ _ Hplan) Hd)
    as [Hn|[(e & [= ->] & He)|(core' & c' & Ha & (e & -> & He)%finish_replay_error)]].
  - by destruct (Hn x).
  - exists e. split; [done|]. left. exact He.
  - exists e. split; [done|]. right. exists core'. by split.
Qed.
End run.

(** ** A concrete scheduled backtest *)

#[local] Instance demo_hash : Event.Blake3 := λ b, b.
#[local] Instance demo_no_text : Replay.ErrorText Empty_set := λ e, match e with end.
#[local] Instance demo_event_stream : Plan.EventStream (list Event.DomainEvent) Empty_set :=
  λ s, match s with [] => (Ok None, []) | e :: s => (Ok (Some e), s) end.
#[local] Instance demo_stream_factory : Plan.ReplayStreamFactory (list Event.DomainEvent) (list Event.DomainEvent) Empty_set :=
  λ f b, (Ok f, f).
#[local] Instance demo_finite : FiniteStream (list Event.DomainEvent) Empty_set.
Proof. refine {| contents s := s |}. intros [|e s]; by eexists. Defined.
#[local] Instance demo_frozen : FrozenFactory (list Event.DomainEvent) (list Event.DomainEvent) Empty_set.
Proof. refine {| frozen f := λ _, f |}. intros f b. by exists f, f. Defined.

(** Logs what it is shown. At its first event it asks for a timer five
    microseconds later, and every callback records its own time. *)
Definition Log : Type := list (Event.DomainEvent * MatchTime.MatchTime).
Definition record_time (t : MatchTime.MatchTime) (sink : StrategyOutputSink) : StrategyOutputSink :=
  (emit_indicator (bytes_of "time") (Signed (MatchTime.as_unix_microseconds t)) sink).2.
Definition watch_event (c : Strategy.StrategyEventContext) (sink : StrategyOutputSink) (log : Log) :
    result Strategy.CallbackFailure () * StrategyOutputSink * Log :=
  let now := Strategy.decision_time c in
  let sink := record_time now sink in
  let later := MatchTime.from_unix_microseconds (MatchTime.as_unix_microseconds now + 5) in
  let sink := match log with [] => (emit_timer (new_timer_request (bytes_of "t") later) sink).2 | _ => sink end in
  (Ok (), sink, log ++ [(Strategy.context_event c, now)]).
#[local] Instance demo_watcher : Strategy.Strategy Log := {|
  Strategy.identity_of _ := mk_identity (bytes_of "watcher") (bytes_of "1") (mk_binary (bytes_of "sha") [1]);
  Strategy.canonical_params_checksum _ := [];
  Strategy.declaration _ := mk_declaration [ReplayLaws.demo_instrument] [Trading.RegularSession];
  Strategy.initialize _ log := (Ok (), log);
  Strategy.on_event := watch_event;
  Strategy.on_feedback _ sink log := (Ok (), sink, log);
  Strategy.on_timer c sink log := (Ok (), record_time (context_fire_at c) sink, log);
  Strategy.finalize _ sink log := (Ok (), sink, log) |}.
#[local] Instance demo_observer : Observer Log.
Proof. by refine {| seen log := log |}. Defined.

Definition demo_events : list Event.DomainEvent := ReplayLaws.demo_event <$> [200; 215; 3000].
Definition demo_simulator : Scheduled.ScheduledDepthSimulator :=
  match Scheduled.new [Scheduled.new_config ReplayLaws.demo_instrument Quantity.Share ScheduledRuns.sample_model] with
  | Ok s => s
  | Err _ => Scheduled.mk_simulator ∅ ∅ ∅ [] ∅ [] [] 0
  end.
Definition demo_run : Replay.Outcome (result (Failure MultiBacktestError) CompletedScheduledMultiBacktest) :=
  run_scheduled_multi_backtest 4 10 RunnerLaws.demo_core [] RunnerLaws.demo_plan demo_events RunnerLaws.demo_schedule 1
    demo_simulator RunnerLaws.demo_ledger true.
(** The times the callbacks recorded, in the order of the output. *)
Definition recorded_times (o : StrategyOutput) : list Z :=
  omap (λ x, match x with
             | EventIndicator _ _ _ _ _ (Signed t) | ControlIndicator _ _ _ _ (Signed t) => Some t
             | _ => None
             end) (records o).
Definition callback_times (r : Replay.Outcome (result (Failure MultiBacktestError) CompletedScheduledMultiBacktest)) : list Z :=
  match r with Replay.Done (Ok d) => recorded_times (completed_output d) | _ => [] end.

Lemma demo_planned : planned RunnerLaws.demo_plan demo_events demo_events.
Proof.
  split.
  - apply (Forall_cons_2 _); [repeat constructor|apply Forall_nil_2]; (do 2 eexists; split_and!; [vm_compute; reflexivity|vm_compute; reflexivity|by vm_compute]).
  - assert (H : ∀ t, is_i64 t → (∃ b, Event.to_canonical_bytes (ReplayLaws.demo_event t) = Ok b ∧ zlen b ≤ isize_max) →
      OrderingLaws.event_fits (ReplayLaws.demo_event t)).
    { intros t Ht (b & Hb & Hl). split; [by apply EventCodec.sample_at_wf|]. intros b'. rewrite Hb. by intros [= <-]. }
    repeat (apply (Forall_cons_2 _); [apply H; [by unfold_ints|eexists; split; [vm_compute; reflexivity|by vm_compute]]|]). apply Forall_nil_2.
  - by vm_compute.
Qed.

Lemma demo_core_built : built RunnerLaws.demo_core.
Proof.
  exists [Model.new ReplayLaws.demo_instrument ReplayLaws.demo_date], [(ReplayLaws.demo_instrument, ReplayLaws.demo_profile)],
    [(ReplayLaws.demo_instrument, ReplayLaws.demo_context "day")], [].
  unfold RunnerLaws.demo_core, StrategyLaws.demo_core, Replay.new_multi.
  match goal with |- ?r = _ => assert (H : is_ok r = true) by (by vm_compute); by destruct r end.
Qed.

Lemma scheduled_backtest_is_loop_witness : demo_run =
  and_then (Replay.Done (start RunnerLaws.demo_core [] RunnerLaws.demo_plan demo_events RunnerLaws.demo_schedule 1 demo_simulator RunnerLaws.demo_ledger true))
    (λ '(c, _), scheduled_loop 10 RunnerLaws.demo_core c demo_events).
Proof.
  apply (scheduled_backtest_is_loop 4 10 RunnerLaws.demo_core [] RunnerLaws.demo_plan demo_events RunnerLaws.demo_schedule 1 demo_simulator
    RunnerLaws.demo_ledger true demo_events demo_planned). simpl. lia.
Defined.

Lemma scheduled_observations_witness : ∃ done_ core' c', demo_run = Replay.Done (Ok done_) ∧
  finish core' c' = Ok done_ ∧ visible_core c' = core' ∧ (λ v, MatchTime.as_unix_microseconds v.2) <$> seen (strategy c') = [1200; 1215; 4000].
Proof.
  assert (Ht : callback_times demo_run = [1200; 1215; 1205; 4000]) by by vm_compute.
  destruct demo_run as [[done_|]| |] eqn:E; [|discriminate Ht..].
  destruct (scheduled_observations 4 10 RunnerLaws.demo_core [] RunnerLaws.demo_plan demo_events RunnerLaws.demo_schedule 1 demo_simulator
    RunnerLaws.demo_ledger true demo_events done_ demo_core_built demo_planned ltac:(simpl; lia) E) as (c & m & core' & c1 & c' & _ & _ & _ & Hf & _ & Hv & views & Hs & Hviews).
  exists done_, core', c'. split_and!; [reflexivity|exact Hf|exact Hv|]. etrans; [exact (f_equal (fmap _) Hs)|]. clear -Hviews. unfold demo_events in Hviews.
  repeat match goal with H : Forall2 _ (_ <$> _) _ |- _ => cbn in H end.
  inversion_clear Hviews as [|? v1 ? ? [_ H1] Hr1]. inversion_clear Hr1 as [|? v2 ? ? [_ H2] Hr2]. inversion_clear Hr2 as [|? v3 ? ? [_ H3] Hr3]. inversion_clear Hr3.
  apply add_milliseconds_spec in H1, H2, H3. cbn. unfold SimulatorLaws.time_of in *. by rewrite H1, H2, H3.
Defined.
(** The events are outside the context schedule of this core. *)
Lemma scheduled_replay_errors_witness : ∃ x e,
  run_scheduled_multi_backtest 4 10 ReplayLaws.demo_core [] RunnerLaws.demo_plan demo_events RunnerLaws.demo_schedule 1 demo_simulator
    RunnerLaws.demo_ledger true = Replay.Done (Err (Returned (ReplayE x))) ∧ x = Engine e ∧
  (fst (Replay.replay ReplayLaws.demo_core (concat (frozen demo_events <$> Plan.bindings RunnerLaws.demo_plan))) = Err e ∨
   ∃ core', Replay.replay ReplayLaws.demo_core (concat (frozen demo_events <$> Plan.bindings RunnerLaws.demo_plan)) = (Ok (), core') ∧
     Replay.complete core' = Err e).
Proof.
  assert (H : match run_scheduled_multi_backtest 4 10 ReplayLaws.demo_core [] RunnerLaws.demo_plan demo_events RunnerLaws.demo_schedule 1 demo_simulator
      RunnerLaws.demo_ledger true with Replay.Done (Err (Returned (ReplayE _))) => true | _ => false end = true) by by vm_compute.
  destruct (run_scheduled_multi_backtest _ _ _ _ _ _ _ _ _ _ _) as [[|[[| |x| | | | | |]|]]| |] eqn:E; try discriminate H.
  assert (Hb : built ReplayLaws.demo_core) by (do 4 eexists; exact ReplayLaws.demo_built).
  destruct (scheduled_replay_errors 4 10 ReplayLaws.demo_core [] RunnerLaws.demo_plan demo_events RunnerLaws.demo_schedule 1 demo_simulator
    RunnerLaws.demo_ledger true demo_events x Hb demo_planned ltac:(simpl; lia) E) as (e & He & Hor).
  exists x, e. split; [reflexivity|]. split; [exact He|exact Hor].
Defined.

(** ** The order of control actions *)

(** The coordinator after the first two events, with both observations and,
    once the first is released, a timer between them to process. *)
Definition demo_waiting : option (Coordinator Log) :=
  match start RunnerLaws.demo_core [] RunnerLaws.demo_plan demo_events RunnerLaws.demo_schedule 1 demo_simulator RunnerLaws.demo_ledger true with
  | Ok (c, _) => match process_all 10 RunnerLaws.demo_core c (take 2 demo_events) with Replay.Done (Ok (_, c)) => Some c | _ => None end
  | Err _ => None
  end.
Definition times_after (loop : Coordinator Log → Replay.Outcome (result (Failure MultiBacktestError) () * Coordinator Log)) : option (list Z) :=
  c ← demo_waiting; match loop c with Replay.Done (Ok _, c') => Some (recorded_times (output c')) | _ => None end.

(** Processing the actions before the next event takes them off the queue as
    one batch, so an action that a batch schedules for an earlier time than the
    batch's last runs too late: a timer asked for at 1205, when the observation
    of 1200 is released, fires after the observation of 1215 was released.
    Draining the same queue, one time after the other, fires it in order, and
    the whole backtest inherits the wrong order. *)
Theorem process_before_reorders :
  times_after (process_before (MatchTime.from_unix_microseconds 3000) 10) = Some [1200; 1215; 1205] ∧
  times_after (drain 10) = Some [1200; 1205; 1215] ∧
  (∃ d, demo_run = Replay.Done (Ok d) ∧ recorded_times (completed_output d) = [1200; 1215; 1205; 4000]).
Proof.
  split_and!; [by vm_compute..|]. assert (Ht : callback_times demo_run = [1200; 1215; 1205; 4000]) by by vm_compute.
  destruct demo_run as [[d|]| |]; [|discriminate Ht..]. by exists d.
Qed.

End CoordinatorLaws.
