(* ===== verification/OrderedSets.v ===== *)
(** Ordered collections of the planner: the [BTreeSet] of an iterator, and
    lists sorted by a key that identifies their elements. *)
From S2P Require Import Prelude Order Output.

Module OrderedSets.
Import Output.Output(btree_set).

(** ** Sets collected from iterators *)

Section btree_set.
Context {A : Type} `{EqDecision A, OrdLaws A}.

Lemma elem_of_btree_set (x : A) l : x ∈ btree_set l ↔ x ∈ l.
Proof. unfold btree_set. by rewrite elem_of_sort_on, elem_of_remove_dups. Qed.

Lemma btree_set_sorted (l : list A) : StronglySorted ord_lt (btree_set l).
Proof.
  unfold btree_set. apply (repeats_key_false id); [apply sort_on_sorted|].
  apply repeats_key_perm. rewrite list_fmap_id. apply NoDup_remove_dups.
Qed.

(** A set is its elements: neither order nor repetition of the input matters. *)
Lemma btree_set_ext (l k : list A) : (∀ x, x ∈ l ↔ x ∈ k) → btree_set l = btree_set k.
Proof.
  intros Hlk. unfold btree_set. apply (sorted_perm_unique id); [done|apply sort_on_sorted..|].
  rewrite !sort_on_perm. apply NoDup_Permutation; [apply NoDup_remove_dups..|].
  intros x. rewrite !elem_of_remove_dups. apply Hlk.
Qed.

Lemma btree_set_nil (l : list A) : btree_set l = [] ↔ l = [].
Proof.
  split; [|by intros ->]. intros E. destruct l as [|x l]; [done|].
  assert (Hx : x ∈ btree_set (x :: l)) by (apply elem_of_btree_set; by left). rewrite E in Hx. by apply not_elem_of_nil in Hx.
Qed.

Lemma btree_set_id (l : list A) : StronglySorted ord_lt l → btree_set l = l.
Proof.
  intros Hs. unfold btree_set. assert (Hn : NoDup l).
  { induction Hs as [|x l Hs IH Hx]; constructor; [|done]. intros Hin. rewrite Forall_forall in Hx.
    apply list_elem_of_In in Hin. by apply (ord_lt_irrefl x), Hx. }
  rewrite (sorted_perm_unique id (sort_on id (remove_dups l)) l); [done|done|apply sort_on_sorted| |].
  - clear Hn. induction Hs as [|x l Hs IH Hx]; constructor; [done|].
    eapply Forall_impl; [|exact Hx]. intros y Hxy. unfold key_le. simpl. rewrite ord_le_lt_eq. by left.
  - rewrite sort_on_perm. apply NoDup_Permutation; [apply NoDup_remove_dups|done|]. intros x. apply elem_of_remove_dups.
Qed.
End btree_set.

(** ** Lists sorted by an identifying key *)

Section keyed.
Context {A K : Type} `{OrdLaws K} (key : A → K).

(** The keys ascend strictly. *)
Definition keyed (l : list A) : Prop := StronglySorted ord_lt (key <$> l).

Lemma keyed_lt l : keyed l ↔ StronglySorted (key_lt key) l.
Proof.
  unfold keyed. induction l as [|x l IH]; [split; constructor|]. rewrite fmap_cons. split; inversion_clear 1 as [|? ? Hs Hx]; constructor.
  - by apply IH.
  - rewrite Forall_fmap in Hx. exact Hx.
  - by apply IH.
  - rewrite Forall_fmap. assumption.
Qed.

Lemma keyed_le l : keyed l → StronglySorted (key_le key) l.
Proof.
  rewrite keyed_lt. induction 1 as [|x l Hs IH Hx]; constructor; [done|].
  eapply Forall_impl; [|exact Hx]. intros y Hxy. unfold key_le. rewrite ord_le_lt_eq. by left.
Qed.

Lemma keyed_NoDup `{!EqDecision K} l : keyed l → NoDup (key <$> l).
Proof. intros Hl. apply sorted_repeats_NoDup; [by apply keyed_le|]. apply repeats_key_false; [by apply keyed_le|]. by apply keyed_lt. Qed.

Lemma keyed_inj l x y : keyed l → x ∈ l → y ∈ l → key x = key y → x = y.
Proof. rewrite keyed_lt. apply key_lt_inj. Qed.

Lemma keyed_sort_on `{!EqDecision K} l : NoDup (key <$> l) ↔ keyed (sort_on key l).
Proof.
  rewrite <-repeats_key_perm, repeats_key_false by apply sort_on_sorted. by rewrite keyed_lt.
Qed.

Lemma keyed_sort_on_id l : keyed l → sort_on key l = l.
Proof. intros Hl. by apply sort_on_sorted_id, keyed_le. Qed.

(** Two keyed lists with the same elements are the same list. *)
Lemma keyed_unique `{!EqDecision K} l k : keyed l → keyed k → (∀ x, x ∈ l ↔ x ∈ k) → l = k.
Proof.
  intros Hl Hk Hlk. apply (sorted_perm_unique key); [|by apply keyed_le..|].
  - intros x y. by apply keyed_inj.
  - apply NoDup_Permutation; [by eapply NoDup_fmap_1, keyed_NoDup..|done].
Qed.
End keyed.

End OrderedSets.
