(* ===== verification/Framed.v ===== *)
(** The interface between the planner's encoders and what their bytes
    determine: a writer is framed on a type when its output, as a prefix of
    any bytes, determines the value; lists, options and enumerations of
    framed values are framed. *)
From S2P Require Import Prelude Order Text Numeric Quantity Calendar Book Identity Codec Values MarketState Orders Requests StateCanonical Output Framing.

Module Framed.
Import Writer(Writer, AppendOnly, writes, push, extend, append_bytes, append_length, each) Framing.Framing.

Class Framed {A} (wf : A → Prop) (w : A → Writer) : Prop := {
  framed_append_only x : AppendOnly (w x);
  framed_agree x y : wf x → wf y → agree (w x) (w y) (x = y) }.

#[local] Existing Instance framed_append_only.

(** ** Combinators *)

(** A length or count in four bytes. *)
Lemma agree_length a b : agree (append_length a) (append_length b) (a = b).
Proof.
  intros e1 e2 r1 r2 [Ha ->]%Writer.writes_append_length [Hb ->]%Writer.writes_append_length He.
  apply app_inj_1 in He as [Hn ->]; [|by rewrite !length_be_bytes]. split; [|done].
  by apply be_bytes_inj in Hn; [|unfold_ints; simpl; lia..].
Qed.

Lemma agree_each {A} wf (w : A → Writer) `{!Framed wf w} l k : Forall wf l → Forall wf k → length l = length k →
  agree (each w l) (each w k) (l = k).
Proof.
  intros Hl Hk Hn. revert k Hk Hn. induction Hl as [|x l Hx Hl IH]; intros [|y k] Hk Hn; try done; cbn [each].
  { eapply agree_impl; [by apply (agree_extend [] [])|done]. }
  apply Forall_cons_1 in Hk as [Hy Hk]. injection Hn as Hn.
  eapply agree_impl; [apply agree_seq; [apply _..|by apply framed_agree|intros _; by apply IH]|]. by intros [-> ->].
Qed.

Definition counted {A} (w : A → Writer) (l : list A) : Writer := append_length (zlen l) ▷ each w l.
#[global] Instance framed_counted {A} wf (w : A → Writer) `{!Framed wf w} : Framed (Forall wf) (counted w).
Proof.
  split; [apply _|]. intros l k Hl Hk. eapply agree_impl.
  { unfold counted. apply agree_seq; [apply _..|apply agree_length|]. intros Hn. apply (agree_each wf); [done..|]. unfold zlen in Hn. lia. }
  by intros [_ ->].
Qed.

Definition opt_wf {A} (wf : A → Prop) (o : option A) : Prop := match o with Some x => wf x | None => True end.
#[global] Instance framed_option {A} wf (w : A → Writer) `{!Framed wf w} : Framed (opt_wf wf) (Requests.append_option w).
Proof.
  split; [apply _|]. intros o1 o2 H1 H2. apply agree_option; [apply _|]. intros x y -> ->. by apply framed_agree.
Qed.

Lemma framed_push {A} (f : A → Z) `{!Inj (=) (=) f} : Framed (λ _, True) (λ x, push (f x)).
Proof. split; [apply _|]. intros x y _ _. eapply agree_impl; [apply agree_push|]. apply (inj f). Qed.

Definition sized (n : nat) (l : list Z) : Prop := length l = n.
#[global] Instance framed_sized n : Framed (sized n) extend.
Proof. split; [apply _|]. intros l k Hl Hk. apply agree_extend. by rewrite Hl, Hk. Qed.

(** ** The values of the planner's encodings *)

Lemma framed_text : Framed (λ _, True) append_bytes.
Proof. split; [apply _|]. intros l k _ _. apply agree_bytes. Qed.
Lemma framed_time : Framed MatchTime.wf Requests.append_time.
Proof. split; [apply _|]. apply agree_time. Qed.
Lemma framed_kind : Framed (λ _, True) (λ k, push (Output.kind_discriminant k)).
Proof. apply framed_push, _. Qed.
Lemma framed_u64 : Framed is_u64 (λ z, extend (be_bytes 8 z)).
Proof. split; [apply _|]. intros x y Hx Hy. apply agree_be; unfold_ints; simpl; lia. Qed.
Lemma framed_i32 : Framed is_i32 (λ z, extend (be_bytes 4 z)).
Proof. split; [apply _|]. intros x y Hx Hy. apply agree_signed; unfold_ints; simpl; lia. Qed.
Lemma framed_date : Framed TradingDate.wf (λ d, extend (TradingDate.to_canonical_bytes d)).
Proof.
  split; [apply _|]. unfold TradingDate.wf, TradingDate.MIN_EPOCH_DAYS, TradingDate.MAX_EPOCH_DAYS. intros [x] [y] Hx Hy.
  eapply agree_impl; [apply agree_signed; simpl in *; lia|]. by intros [= ->].
Qed.
Lemma framed_decimal : Framed Decimal.wf (λ d, extend (Decimal.to_canonical_bytes d)).
Proof.
  split; [apply _|]. unfold Decimal.wf. intros [x] [y] Hx Hy.
  eapply agree_impl; [apply agree_signed; unfold_ints; simpl in *; lia|]. by intros [= ->].
Qed.
Lemma framed_instrument : Framed (λ _, True) StateCanonical.append_instrument.
Proof.
  split; [intros i; unfold StateCanonical.append_instrument; apply _|]. intros [m1 [s1]] [m2 [s2]] _ _. eapply agree_impl.
  { unfold StateCanonical.append_instrument. apply agree_seq; [apply _..|apply agree_market|intros _; apply agree_bytes]. }
  simpl. by intros [-> ->].
Qed.
Lemma framed_bool : Framed (λ _, True) (λ b : bool, push (if b then 1 else 0)).
Proof. apply framed_push. by intros [] []. Qed.

#[global] Existing Instances framed_text framed_time framed_kind framed_u64 framed_i32 framed_date framed_decimal framed_instrument framed_bool.

(** Complete outputs of a framed writer. *)
Lemma framed_whole {A} wf (w : A → Writer) `{!Framed wf w} x y b : wf x → wf y → w x [] = Ok b → w y [] = Ok b → x = y.
Proof. intros Hx Hy. apply agree_whole; [apply _..|]. by apply framed_agree. Qed.

(** ** When a writer succeeds *)

Definition writable (w : Writer) : Prop := ∃ e, writes w e.
Lemma writable_whole w `{!AppendOnly w} : writable w ↔ ∃ b, w [] = Ok b.
Proof. unfold writable. by setoid_rewrite Writer.writes_nil. Qed.
Lemma writable_extend l : writable (extend l).
Proof. exists l. by apply Writer.writes_extend. Qed.
Lemma writable_push b : writable (push b).
Proof. exists [b]. by apply Writer.writes_push. Qed.
Lemma writable_seq w1 w2 `{!AppendOnly w1, !AppendOnly w2} : writable (w1 ▷ w2) ↔ writable w1 ∧ writable w2.
Proof.
  unfold writable. split.
  - intros (e & (a & b & _ & Ha & Hb)%Writer.writes_seq); [eauto|apply _..].
  - intros [[a Ha] [b Hb]]. exists (a ++ b). apply Writer.writes_seq; [apply _..|]. by exists a, b.
Qed.
Lemma writable_length n : writable (append_length n) ↔ is_u32 n.
Proof. unfold writable. setoid_rewrite Writer.writes_append_length. naive_solver. Qed.
Lemma writable_bytes l : writable (append_bytes l) ↔ zlen l ≤ u32_max.
Proof. unfold writable. setoid_rewrite Writer.writes_append_bytes. unfold is_u32. assert (0 ≤ zlen l) by (unfold zlen; lia). naive_solver. Qed.
Lemma writable_each {A} (w : A → Writer) `{!∀ x, AppendOnly (w x)} l : writable (each w l) ↔ ∀ x, x ∈ l → writable (w x).
Proof.
  induction l as [|x l IH]; cbn [each].
  - split; [set_solver|intros _; apply writable_extend].
  - rewrite writable_seq, IH by apply _. set_solver.
Qed.

End Framed.
