(* ===== verification/Sessions.v ===== *)
(** Session plans (run-planner/src/session.rs): the profiles of the exchanges'
    products, the windows of a trading date and the identity of the plan they
    make; instrument classes and contract shapes are market-types'
    instrument_class.rs. *)
From S2P Require Import Prelude Order Text Numeric Quantity Calendar Book Identity Codec Values Event MarketState Orders Requests StateCanonical Output.

(** ** instrument_class.rs *)
Module InstrumentClass.

Inductive InstrumentClass : Set := Equity | Warrant | Future | Option.
Inductive ContractShape : Set := Outright | CalendarSpread.
Inductive OptionSide : Set := Call | Put.
#[global] Instance InstrumentClass_eq_dec : EqDecision InstrumentClass.
Proof. solve_decision. Defined.
#[global] Instance ContractShape_eq_dec : EqDecision ContractShape.
Proof. solve_decision. Defined.
#[global] Instance OptionSide_eq_dec : EqDecision OptionSide.
Proof. solve_decision. Defined.

Definition class_discriminant (c : InstrumentClass) : Z := match c with Equity => 1 | Warrant => 2 | Future => 3 | Option => 4 end.
Definition shape_discriminant (s : ContractShape) : Z := match s with Outright => 1 | CalendarSpread => 2 end.
Definition price_policy_discriminant (p : Price.PricePolicy) : Z := match p with Price.PositiveOnly => 1 | Price.Signed => 2 end.
Definition option_side_discriminant (s : OptionSide) : Z := match s with Call => 1 | Put => 2 end.

End InstrumentClass.

(** ** session.rs *)
Module Sessions.
Import InstrumentClass Writer(push, extend, append_bytes, append_length, each) Output.Output(btree_set, kind_discriminant).

Definition SESSION_CALENDAR_VERSION : Z := 1.
Definition SESSION_PROFILE_VERSION : Z := 2.
Definition SESSION_WINDOW_POLICY_VERSION : Z := 1.
Definition REPLAY_MARGIN_MICROSECONDS : Z := 5 * 60 * 1000000.

Inductive SessionProfileId : Set :=
| TwseRegular | TaifexIndexFutures | TaifexStockFutures | TaifexStockFuturesRegularOnly | TpexRegular
| TaifexIndexOptions | TaifexCalendarSpreadRegularOnly.
#[global] Instance SessionProfileId_eq_dec : EqDecision SessionProfileId.
Proof. solve_decision. Defined.
Definition profile_discriminant (p : SessionProfileId) : Z :=
  match p with
  | TwseRegular => 1 | TaifexIndexFutures => 2 | TaifexStockFutures => 3 | TaifexStockFuturesRegularOnly => 4
  | TpexRegular => 5 | TaifexIndexOptions => 6 | TaifexCalendarSpreadRegularOnly => 7
  end.

Inductive SessionPlanError : Set :=
| EmptySessions | NonBusinessTradingDate (date : TradingDate.TradingDate) | UnsupportedMarket (market : Market.MarketId)
| UnsupportedInstrument (instrument : Instrument.InstrumentId) | SessionProfileRequired (instrument : Instrument.InstrumentId)
| SessionNotSupported (profile : SessionProfileId) (kind : Trading.SessionKind)
| InvalidTimestamp (error : MatchTime.MatchTimeError) | CalendarOverflow | WindowOverflow | CanonicalLengthOverflow.

Definition supports_contract (p : SessionProfileId) (market : Market.MarketId) (class : InstrumentClass)
    (shape : option ContractShape) : bool :=
  match p, market, class, shape with
  | TwseRegular, Market.Twse, (Equity | Warrant), None => true
  | TpexRegular, Market.Tpex, (Equity | Warrant), None => true
  | (TaifexIndexFutures | TaifexStockFutures | TaifexStockFuturesRegularOnly), Market.Taifex, Future, Some Outright => true
  | TaifexCalendarSpreadRegularOnly, Market.Taifex, Future, Some CalendarSpread => true
  | TaifexIndexOptions, Market.Taifex, Option, None => true
  | _, _, _, _ => false
  end.

Definition profile_for_instrument_class (i : Instrument.InstrumentId) (kind : InstrumentClass) :
    result SessionPlanError SessionProfileId :=
  match Instrument.market i with
  | Market.Twse => match kind with Equity | Warrant => Ok TwseRegular | _ => Err (UnsupportedInstrument i) end
  | Market.Tpex => match kind with Equity | Warrant => Ok TpexRegular | _ => Err (UnsupportedInstrument i) end
  | Market.Taifex =>
      match kind with
      | Option => Ok TaifexIndexOptions
      | Future => Err (SessionProfileRequired i)
      | _ => Err (UnsupportedInstrument i)
      end
  end.
Definition profile_for_instrument (i : Instrument.InstrumentId) : result SessionPlanError SessionProfileId :=
  profile_for_instrument_class i match Instrument.market i with Market.Twse | Market.Tpex => Equity | Market.Taifex => Future end.

Definition allows (p : SessionProfileId) (kind : Trading.SessionKind) : bool :=
  match p with
  | TwseRegular | TpexRegular | TaifexStockFuturesRegularOnly | TaifexCalendarSpreadRegularOnly =>
      match kind with Trading.RegularSession => true | Trading.AfterHours => false end
  | TaifexIndexFutures | TaifexStockFutures | TaifexIndexOptions => true
  end.

(** ** Business days *)

(** The 1st of January 1970 was a Thursday, 4 when Sunday is 0. *)
Definition is_weekend (d : TradingDate.TradingDate) : bool :=
  let weekday := (TradingDate.as_epoch_days d + 4) mod 7 in (weekday =? 0) || (weekday =? 6).

(** The loop of [previous_business_date] from a candidate on; [None] is a
    loop still running after [fuel] rounds. *)
Fixpoint search_back (fuel : nat) (epoch_days : Z) : option (result SessionPlanError TradingDate.TradingDate) :=
  match fuel with
  | O => None
  | S fuel =>
      match TradingDate.from_epoch_days epoch_days with
      | Err _ => Some (Err CalendarOverflow)
      | Ok candidate =>
          if negb (is_weekend candidate) then Some (Ok candidate)
          else match to_i32 (epoch_days - 1) with
               | None => Some (Err CalendarOverflow)
               | Some epoch_days => search_back fuel epoch_days
               end
      end
  end.
(** Three rounds are enough: see [search_back_stops]. *)
Definition previous_business_date (d : TradingDate.TradingDate) : result SessionPlanError TradingDate.TradingDate :=
  epoch_days ← ok_or (to_i32 (TradingDate.as_epoch_days d - 1)) CalendarOverflow;
  default (Err CalendarOverflow) (search_back 3 epoch_days).

(** ** Windows *)

Record SessionWindow : Set := mk_window {
  kind : Trading.SessionKind; window_date : TradingDate.TradingDate; open : MatchTime.MatchTime; close : MatchTime.MatchTime;
  replay_start : MatchTime.MatchTime; replay_end_exclusive : MatchTime.MatchTime }.
#[global] Instance SessionWindow_eq_dec : EqDecision SessionWindow.
Proof. solve_decision. Defined.

(** [MatchTime::parse(&format!("{date}T{time}+08:00"))]. *)
Definition parse_local_time (d : TradingDate.TradingDate) (time : string) : result SessionPlanError MatchTime.MatchTime :=
  map_err InvalidTimestamp (MatchTime.parse (TradingDate.display d ++ bytes_of "T" ++ bytes_of time ++ bytes_of "+08:00")).

(** The opening and closing times of day of a profile's session. *)
Definition window_times (p : SessionProfileId) (k : Trading.SessionKind) (d : TradingDate.TradingDate) :
    result SessionPlanError (TradingDate.TradingDate * string * TradingDate.TradingDate * string) :=
  match p, k with
  | (TwseRegular | TpexRegular), Trading.RegularSession => Ok (d, "09:00:00", d, "13:30:00")%string
  | (TaifexIndexFutures | TaifexIndexOptions | TaifexStockFutures | TaifexStockFuturesRegularOnly
    | TaifexCalendarSpreadRegularOnly), Trading.RegularSession => Ok (d, "08:45:00", d, "13:45:00")%string
  | (TaifexIndexFutures | TaifexIndexOptions), Trading.AfterHours =>
      previous ← previous_business_date d; Ok (previous, "15:00:00", d, "05:00:00")%string
  | TaifexStockFutures, Trading.AfterHours =>
      previous ← previous_business_date d; Ok (previous, "17:25:00", d, "05:00:00")%string
  | _, _ => Err (SessionNotSupported p k)
  end.
Definition build_window (p : SessionProfileId) (k : Trading.SessionKind) (d : TradingDate.TradingDate) :
    result SessionPlanError SessionWindow :=
  '(open_date, open_time, close_date, close_time) ← window_times p k d;
  open ← parse_local_time open_date open_time;
  close ← parse_local_time close_date close_time;
  start ← ok_or (to_i64 (MatchTime.as_unix_microseconds open - REPLAY_MARGIN_MICROSECONDS)) WindowOverflow;
  end_ ← ok_or (to_i64 (MatchTime.as_unix_microseconds close + REPLAY_MARGIN_MICROSECONDS)) WindowOverflow;
  Ok (mk_window k d open close (MatchTime.from_unix_microseconds start) (MatchTime.from_unix_microseconds end_)).

(** ** Plans *)

Definition append_window (w : SessionWindow) : Writer.Writer :=
  push (kind_discriminant (kind w)) ▷ Requests.append_time (open w) ▷ Requests.append_time (close w) ▷
  Requests.append_time (replay_start w) ▷ Requests.append_time (replay_end_exclusive w).
Definition encode_plan (i : Instrument.InstrumentId) (d : TradingDate.TradingDate) (p : SessionProfileId)
    (windows : list SessionWindow) : Writer.Writer :=
  extend (bytes_of "OSSESSION01") ▷ extend (be_bytes 2 SESSION_CALENDAR_VERSION) ▷ extend (be_bytes 2 SESSION_PROFILE_VERSION) ▷
  extend (be_bytes 2 SESSION_WINDOW_POLICY_VERSION) ▷ StateCanonical.append_instrument i ▷
  extend (TradingDate.to_canonical_bytes d) ▷ push (profile_discriminant p) ▷ append_length (zlen windows) ▷ each append_window windows.
Definition canonical_bytes (i : Instrument.InstrumentId) (d : TradingDate.TradingDate) (p : SessionProfileId)
    (windows : list SessionWindow) : result SessionPlanError (list Z) :=
  map_err (λ _, CanonicalLengthOverflow) (encode_plan i d p windows []).

Record SessionPlan : Set := mk_plan {
  instrument : Instrument.InstrumentId; trading_date : TradingDate.TradingDate; profile : SessionProfileId;
  calendar_version : Z; profile_version : Z; window_policy_version : Z; windows : list SessionWindow; identity : list Z }.

Section identity.
Context {B : Event.Blake3}.

Definition with_profile (i : Instrument.InstrumentId) (d : TradingDate.TradingDate) (p : SessionProfileId)
    (session_kinds : list Trading.SessionKind) : result SessionPlanError SessionPlan :=
  reject is_weekend d with NonBusinessTradingDate d;;
  let kinds := btree_set session_kinds in
  reject bool_decide (kinds = []) with EmptySessions;;
  match List.find (λ k, negb (allows p k)) kinds with
  | Some k => Err (SessionNotSupported p k)
  | None =>
      windows ← collect_results (λ k, build_window p k d) kinds;
      canonical ← canonical_bytes i d p windows;
      Ok (mk_plan i d p SESSION_CALENDAR_VERSION SESSION_PROFILE_VERSION SESSION_WINDOW_POLICY_VERSION windows
            (Event.blake3 canonical))
  end.

Definition plan_for_instrument (i : Instrument.InstrumentId) (d : TradingDate.TradingDate)
    (session_kinds : list Trading.SessionKind) : result SessionPlanError SessionPlan :=
  p ← profile_for_instrument i; with_profile i d p session_kinds.
Definition plan_for_instrument_class (i : Instrument.InstrumentId) (k : InstrumentClass) (d : TradingDate.TradingDate)
    (session_kinds : list Trading.SessionKind) : result SessionPlanError SessionPlan :=
  p ← profile_for_instrument_class i k; with_profile i d p session_kinds.
End identity.

Definition window (s : SessionPlan) (k : Trading.SessionKind) : option SessionWindow :=
  List.find (λ w, bool_decide (kind w = k)) (windows s).

Example friday_evening : build_window TaifexIndexFutures Trading.AfterHours (TradingDate.mk 20654) =
  Ok (mk_window Trading.AfterHours (TradingDate.mk 20654) (MatchTime.from_unix_microseconds 1784271600000000)
        (MatchTime.from_unix_microseconds 1784494800000000) (MatchTime.from_unix_microseconds 1784271300000000)
        (MatchTime.from_unix_microseconds 1784495100000000)).
Proof. reflexivity. Qed.

End Sessions.
