(* ===== verification/SessionsLaws.v ===== *)
(** What session plans promise: business days, windows, and the identity. *)
From S2P Require Import Prelude Order Text Numeric Quantity Calendar Book Identity Codec Values Event MarketState Orders Requests StateCanonical Output OrderedSets Framing Framed Sessions.

Module SessionsLaws.
Import InstrumentClass Sessions.Sessions Output.Output(btree_set, kind_discriminant) OrderedSets.OrderedSets Framing.Framing Framed.Framed.
Import Writer(Writer, AppendOnly, push, extend, append_bytes, append_length, each).

#[local] Typeclasses Opaque push extend Writer.seq append_bytes append_length each Requests.append_time StateCanonical.append_instrument append_window.
#[local] Instance append_instrument_append_only i : AppendOnly (StateCanonical.append_instrument i) := framed_append_only i.

(** ** Local times *)

Definition midnight (d : TradingDate.TradingDate) : Z := (TradingDate.as_epoch_days d * 86400 - 8 * 3600) * 1000000.

(** The Taipei time of day [h:mi:sec] of a date. *)
Lemma local_time d time h mi sec : TradingDate.wf d → 0 ≤ h ≤ 23 → 0 ≤ mi ≤ 59 → 0 ≤ sec ≤ 59 →
  bytes_of time = fixed_digits 2 h ++ 58 :: fixed_digits 2 mi ++ 58 :: fixed_digits 2 sec →
  parse_local_time d time = Ok (MatchTime.from_unix_microseconds (midnight d + (h * 3600 + mi * 60 + sec) * 1000000)).
Proof.
  intros Hwf Hh Hmi Hsec Htime. unfold parse_local_time. rewrite Htime. unfold TradingDate.display.
  destruct (Civil.civil_from_days _) as [[y m] dd] eqn:Hc.
  pose proof (Civil.civil_from_days_bounds _ _ _ _ Hwf Hc) as Hy.
  destruct (Civil.days_from_civil_from_days _ _ _ _ Hc) as [Hv Hd].
  destruct (TradingDate.valid_date_bounds _ _ _ Hv) as [Hm Hdd].
  rewrite TradingDate.display_digits by lia.
  rewrite (MatchTime.parse_fields _ y m dd h mi sec 0 19 28800) by (done || lia). rewrite Hd. unfold midnight. simpl. do 2 f_equal. lia.
Qed.

(** ** Business days *)

Definition weekday (n : Z) : Z := (n + 4) mod 7.
Lemma is_weekend_spec d : is_weekend d = true ↔ weekday (TradingDate.as_epoch_days d) = 0 ∨ weekday (TradingDate.as_epoch_days d) = 6.
Proof. unfold is_weekend, weekday. rewrite orb_true_iff, !Z.eqb_eq. done. Qed.

(** What the search from [n] finds: the last business day up to [n]. *)
Definition last_business_day (n : Z) (r : result SessionPlanError TradingDate.TradingDate) : Prop :=
  match r with
  | Ok p => TradingDate.wf p ∧ is_weekend p = false ∧ TradingDate.as_epoch_days p ≤ n ∧
      ∀ q, TradingDate.as_epoch_days p < q ≤ n → is_weekend (TradingDate.mk q) = true
  | Err e => e = CalendarOverflow ∧ ∀ q, TradingDate.MIN_EPOCH_DAYS ≤ q ≤ n → is_weekend (TradingDate.mk q) = true
  end.

Lemma search_back_sound fuel n r : TradingDate.MIN_EPOCH_DAYS - 1 ≤ n ≤ TradingDate.MAX_EPOCH_DAYS →
  search_back fuel n = Some r → last_business_day n r.
Proof.
  unfold TradingDate.MIN_EPOCH_DAYS, TradingDate.MAX_EPOCH_DAYS.
  revert n. induction fuel as [|fuel IH]; intros n Hn; [done|]. cbn [search_back].
  destruct (TradingDate.from_epoch_days n) as [c|e] eqn:E.
  - apply TradingDate.from_epoch_days_Ok in E as [-> Hwf]. pose proof Hwf as Hb.
    unfold TradingDate.wf, TradingDate.MIN_EPOCH_DAYS, TradingDate.MAX_EPOCH_DAYS in Hb. simpl in Hb.
    destruct (is_weekend (TradingDate.mk n)) eqn:Hw; simpl.
    + unfold to_i32. rewrite checked_in by (unfold_ints; lia). intros H. specialize (IH (n - 1) ltac:(lia) H).
      destruct r as [p|e]; simpl in *.
      * destruct IH as (Hp & Hb' & Hle & Hq). split; [done|]. split; [done|]. split; [lia|]. intros q Hq'.
        destruct (decide (q = n)) as [->|]; [done|]. apply Hq. lia.
      * destruct IH as [He Hq]. split; [done|]. intros q Hq'. destruct (decide (q = n)) as [->|]; [done|]. apply Hq. unfold TradingDate.MIN_EPOCH_DAYS in *. lia.
    + intros [= <-]. simpl. split; [done|]. split; [done|]. split; [lia|]. intros q. lia.
  - unfold TradingDate.from_epoch_days, TradingDate.MIN_EPOCH_DAYS, TradingDate.MAX_EPOCH_DAYS in E. destruct (_ || _) eqn:Ho; [|done].
    intros [= <-]. simpl. split; [done|]. unfold TradingDate.MIN_EPOCH_DAYS. intros q. lia.
Qed.

Lemma search_back_more f g n r : search_back f n = Some r → search_back (f + g) n = Some r.
Proof.
  revert n. induction f as [|f IH]; intros n; [done|]. cbn [search_back Nat.add].
  destruct (TradingDate.from_epoch_days n); [|done]. destruct (is_weekend _); [|done]. simpl. destruct (to_i32 _); [apply IH|done].
Qed.

(** A weekend has two days, so that the third round decides. *)
Lemma search_back_stops fuel n : is_Some (search_back (3 + fuel) n).
Proof.
  assert (Hround : ∀ f m, (TradingDate.MIN_EPOCH_DAYS ≤ m ≤ TradingDate.MAX_EPOCH_DAYS → is_weekend (TradingDate.mk m) = true → is_Some (search_back f (m - 1))) →
    is_Some (search_back (S f) m)).
  { intros f m Hf. cbn [search_back]. destruct (TradingDate.from_epoch_days m) as [c|] eqn:E; [|done].
    apply TradingDate.from_epoch_days_Ok in E as [-> Hwf]. destruct (is_weekend _) eqn:Hw; [|done]. simpl.
    destruct (to_i32 (m - 1)) as [k|] eqn:Ek; [|done]. apply checked_Some in Ek as [-> _]. by apply Hf. }
  apply Hround. intros _ H1. apply Hround. intros _ H2. apply Hround. intros _ H3.
  apply is_weekend_spec in H1, H2, H3. unfold weekday in *. simpl in *. exfalso. Z.to_euclidean_division_equations. lia.
Qed.

Lemma previous_business_date_sound d : TradingDate.wf d →
  last_business_day (TradingDate.as_epoch_days d - 1) (previous_business_date d).
Proof.
  unfold TradingDate.wf, TradingDate.MIN_EPOCH_DAYS, TradingDate.MAX_EPOCH_DAYS. intros Hwf. unfold previous_business_date, to_i32.
  rewrite checked_in by (unfold_ints; lia). cbn [ok_or mbind result_bind].
  destruct (search_back_stops 0 (TradingDate.as_epoch_days d - 1)) as [r Hr]. change (3 + 0)%nat with 3%nat in Hr. rewrite Hr. simpl.
  eapply search_back_sound; [|done]. unfold TradingDate.MIN_EPOCH_DAYS, TradingDate.MAX_EPOCH_DAYS. lia.
Qed.

(** The previous business date is the last business day before the date; the
    search never runs out of rounds, and it fails exactly when the supported
    calendar has no earlier business day. *)
Theorem previous_business_date_is_last d fuel : TradingDate.wf d →
  search_back (3 + fuel) (TradingDate.as_epoch_days d - 1) = Some (previous_business_date d) ∧
  match previous_business_date d with
  | Ok p => TradingDate.wf p ∧ is_weekend p = false ∧ TradingDate.as_epoch_days p < TradingDate.as_epoch_days d ∧
      ∀ q, TradingDate.as_epoch_days p < q < TradingDate.as_epoch_days d → is_weekend (TradingDate.mk q) = true
  | Err e => e = CalendarOverflow ∧ ∀ q, TradingDate.MIN_EPOCH_DAYS ≤ q < TradingDate.as_epoch_days d → is_weekend (TradingDate.mk q) = true
  end.
Proof.
  intros Hwf. split.
  - unfold previous_business_date, to_i32. unfold TradingDate.wf, TradingDate.MIN_EPOCH_DAYS, TradingDate.MAX_EPOCH_DAYS in Hwf.
    rewrite checked_in by (unfold_ints; lia). cbn [ok_or mbind result_bind].
    destruct (search_back_stops 0 (TradingDate.as_epoch_days d - 1)) as [r Hr]. change (3 + 0)%nat with 3%nat in Hr. rewrite Hr.
    exact (search_back_more 3 fuel _ r Hr).
  - pose proof (previous_business_date_sound d Hwf) as H. destruct (previous_business_date d) as [p|e]; simpl in H.
    + destruct H as (? & ? & ? & Hq). do 2 (split; [done|]). split; [lia|]. intros q Hr. apply Hq. lia.
    + destruct H as (-> & Hq). split; [done|]. intros q Hr. apply Hq. lia.
Qed.

(** ** Windows *)

(** Opening and closing seconds of the day, in Taipei. *)
Definition session_hours (p : SessionProfileId) (k : Trading.SessionKind) : Z * Z :=
  match k with
  | Trading.RegularSession =>
      match p with TwseRegular | TpexRegular => (9 * 3600, 13 * 3600 + 1800) | _ => (8 * 3600 + 2700, 13 * 3600 + 2700) end
  | Trading.AfterHours => (match p with TaifexStockFutures => 17 * 3600 + 1500 | _ => 15 * 3600 end, 5 * 3600)
  end.
(** A regular session opens on its trading date, an after-hours session on
    the business day before. *)
Definition opens_on (k : Trading.SessionKind) (d od : TradingDate.TradingDate) : Prop :=
  match k with Trading.RegularSession => od = d | Trading.AfterHours => previous_business_date d = Ok od end.
Definition planned_window (p : SessionProfileId) (k : Trading.SessionKind) (d od : TradingDate.TradingDate) : SessionWindow :=
  let '(opens, closes) := session_hours p k in
  let open := midnight od + opens * 1000000 in
  let close := midnight d + closes * 1000000 in
  mk_window k d (MatchTime.from_unix_microseconds open) (MatchTime.from_unix_microseconds close)
    (MatchTime.from_unix_microseconds (open - 300000000)) (MatchTime.from_unix_microseconds (close + 300000000)).

Lemma opens_on_wf k d od : TradingDate.wf d → opens_on k d od → TradingDate.wf od.
Proof.
  intros Hwf. destruct k; simpl; [by intros ->|]. intros H. pose proof (previous_business_date_sound d Hwf) as Hs. rewrite H in Hs. by destruct Hs.
Qed.

Lemma local_micros d seconds : TradingDate.wf d → -300 ≤ seconds ≤ 86400 →
  to_i64 (midnight d + seconds * 1000000) = Some (midnight d + seconds * 1000000).
Proof.
  unfold TradingDate.wf, TradingDate.MIN_EPOCH_DAYS, TradingDate.MAX_EPOCH_DAYS, midnight, to_i64. intros Hd Hs.
  apply checked_in. unfold_ints. lia.
Qed.

Lemma build_window_steps p k d od open_time cd close_time open close : window_times p k d = Ok (od, open_time, cd, close_time) →
  parse_local_time od open_time = Ok (MatchTime.from_unix_microseconds open) →
  parse_local_time cd close_time = Ok (MatchTime.from_unix_microseconds close) →
  ∀ w, match to_i64 (open - 300000000), to_i64 (close + 300000000) with
       | Some s, Some e => w = mk_window k d (MatchTime.from_unix_microseconds open) (MatchTime.from_unix_microseconds close)
                                 (MatchTime.from_unix_microseconds s) (MatchTime.from_unix_microseconds e)
       | _, _ => False
       end → build_window p k d = Ok w.
Proof.
  intros Ht Ho Hc w Hw. unfold build_window. apply bind_Ok. eexists. split; [exact Ht|].
  apply bind_Ok. eexists. split; [exact Ho|]. apply bind_Ok. eexists. split; [exact Hc|].
  destruct (to_i64 (open - 300000000)) as [s|] eqn:Es; [|done]. destruct (to_i64 (close + 300000000)) as [e|] eqn:Ee; [|done].
  apply bind_Ok. exists s. split; [exact (f_equal (λ o, ok_or o WindowOverflow) Es)|].
  apply bind_Ok. exists e. split; [exact (f_equal (λ o, ok_or o WindowOverflow) Ee)|]. by rewrite Hw.
Qed.

(** A window from the two texts of its row in the table. *)
Lemma build_window_from p k d od open_time close_time h1 m1 h2 m2 : TradingDate.wf d → TradingDate.wf od →
  window_times p k d = Ok (od, open_time, d, close_time) →
  bytes_of open_time = fixed_digits 2 h1 ++ 58 :: fixed_digits 2 m1 ++ 58 :: fixed_digits 2 0 →
  bytes_of close_time = fixed_digits 2 h2 ++ 58 :: fixed_digits 2 m2 ++ 58 :: fixed_digits 2 0 →
  0 ≤ h1 ≤ 23 → 0 ≤ m1 ≤ 59 → 0 ≤ h2 ≤ 22 → 0 ≤ m2 ≤ 59 →
  session_hours p k = (h1 * 3600 + m1 * 60, h2 * 3600 + m2 * 60) → build_window p k d = Ok (planned_window p k d od).
Proof.
  intros Hwf Hwfo Ht Ho Hc Hh1 Hm1 Hh2 Hm2 Hs.
  apply (local_time od _ h1 m1 0) in Ho; [|done || lia..]. apply (local_time d _ h2 m2 0) in Hc; [|done || lia..].
  rewrite Z.add_0_r in Ho, Hc. apply (build_window_steps _ _ _ _ _ _ _ _ _ Ht Ho Hc).
  unfold planned_window. rewrite Hs.
  set (a := h1 * 3600 + m1 * 60) in *. set (b := h2 * 3600 + m2 * 60) in *.
  replace (midnight od + a * 1000000 - 300000000) with (midnight od + (a - 300) * 1000000) by lia.
  replace (midnight d + b * 1000000 + 300000000) with (midnight d + (b + 300) * 1000000) by lia.
  by rewrite !local_micros by (done || lia).
Qed.

Lemma build_window_planned p k d od : TradingDate.wf d → allows p k = true → opens_on k d od →
  build_window p k d = Ok (planned_window p k d od).
Proof.
  intros Hwf Ha Ho. pose proof (opens_on_wf _ _ _ Hwf Ho) as Hwfo.
  destruct k; cbn [opens_on] in Ho.
  - subst od. destruct p; first
      [by apply (build_window_from _ _ d d "09:00:00" "13:30:00" 9 0 13 30)|
       by apply (build_window_from _ _ d d "08:45:00" "13:45:00" 8 45 13 45)].
  - destruct p; try discriminate Ha;
      [apply (build_window_from _ _ d od "15:00:00" "05:00:00" 15 0 5 0)|
       apply (build_window_from _ _ d od "17:25:00" "05:00:00" 17 25 5 0)|
       apply (build_window_from _ _ d od "15:00:00" "05:00:00" 15 0 5 0)]; try done;
      cbn [window_times]; by rewrite Ho.
Qed.

Lemma build_window_Ok p k d w : TradingDate.wf d → build_window p k d = Ok w →
  allows p k = true ∧ ∃ od, opens_on k d od ∧ w = planned_window p k d od.
Proof.
  intros Hwf H. assert (Ha : allows p k = true) by (by destruct p, k). split; [done|].
  assert (Ho : ∃ od, opens_on k d od).
  { destruct k; [by exists d|]. unfold build_window in H. apply bind_Ok in H as (v & Hv & _).
    destruct p; try discriminate Hv; cbn [window_times] in Hv; apply bind_Ok in Hv as (od & Hod & _); by exists od. }
  destruct Ho as [od Ho]. exists od. split; [done|]. rewrite (build_window_planned p k d od) in H by done. by injection H.
Qed.

Lemma build_window_iff p k d w : TradingDate.wf d →
  build_window p k d = Ok w ↔ allows p k = true ∧ ∃ od, opens_on k d od ∧ w = planned_window p k d od.
Proof. intros Hwf. split; [by apply build_window_Ok|]. intros (Ha & od & Ho & ->). by apply build_window_planned. Qed.

(** ** Plans *)

Section plans.
Context {B : Event.Blake3}.

(** The windows of a set of session kinds. *)
Definition planned_windows (p : SessionProfileId) (d : TradingDate.TradingDate) : list Trading.SessionKind → list SessionWindow → Prop :=
  Forall2 (λ k w, allows p k = true ∧ ∃ od, opens_on k d od ∧ w = planned_window p k d od).

Lemma with_profile_Ok i d p ks s : TradingDate.wf d →
  with_profile i d p ks = Ok s ↔
  is_weekend d = false ∧ ks ≠ [] ∧ ∃ ws canonical, planned_windows p d (btree_set ks) ws ∧ canonical_bytes i d p ws = Ok canonical ∧
    s = mk_plan i d p SESSION_CALENDAR_VERSION SESSION_PROFILE_VERSION SESSION_WINDOW_POLICY_VERSION ws (Event.blake3 canonical).
Proof.
  intros Hwf. assert (Hws : ∀ ws, planned_windows p d (btree_set ks) ws ↔ collect_results (λ k, build_window p k d) (btree_set ks) = Ok ws).
  { intros ws. rewrite collect_results_Ok. split; apply Forall2_impl; intros k w; rewrite (build_window_iff p k d w Hwf); done. }
  unfold with_profile. destruct (is_weekend d); [split; [done|by intros (? & _)]|]. pose proof (btree_set_nil ks) as Hnil.
  destruct (bool_decide (btree_set ks = [])) eqn:En; [apply bool_decide_eq_true, Hnil in En; split; [done|by intros (_ & ? & _)]|].
  apply bool_decide_eq_false in En. rewrite Hnil in En. destruct (List.find _ _) as [k|] eqn:Ef.
  - apply List.find_some in Ef as [Hk Ha]. apply list_elem_of_In in Hk. split; [done|].
    intros (_ & _ & ws & _ & Hp & _). apply list_elem_of_lookup_1 in Hk as [n Hn].
    destruct (Forall2_lookup_l _ _ _ _ _ Hp Hn) as (w & _ & Hal & _). by rewrite Hal in Ha.
  - split.
    + intros (ws & Hp%Hws & (canonical & Hc & [= <-])%bind_Ok)%bind_Ok. eauto 10.
    + intros (_ & _ & ws & canonical & Hp%Hws & Hc & ->). apply bind_Ok. exists ws. split; [done|]. apply bind_Ok. eauto.
Qed.

Lemma planned_windows_kinds p d ks ws : planned_windows p d ks ws → kind <$> ws = ks.
Proof. induction 1 as [|k w ks ws (_ & od & _ & ->) _ IH]; [done|]. rewrite fmap_cons, IH. f_equal. unfold planned_window. by destruct (session_hours p k). Qed.

Lemma planned_windows_short p d ks ws : planned_windows p d (btree_set ks) ws → zlen ws ≤ 2.
Proof.
  intros Hp. assert (Hn : NoDup (kind <$> ws)).
  { rewrite (planned_windows_kinds _ _ _ _ Hp). unfold btree_set. rewrite sort_on_perm. apply NoDup_remove_dups. }
  apply (NoDup_submseteq _ [Trading.RegularSession; Trading.AfterHours]) in Hn; [|intros [] _; set_solver].
  apply submseteq_length in Hn. rewrite length_fmap in Hn. simpl in Hn. unfold zlen. lia.
Qed.

Lemma choose_each {A C} (R : A → C → Prop) l : (∀ x, x ∈ l → ∃ y, R x y) → ∃ k, Forall2 R l k.
Proof.
  induction l as [|x l IH]; intros H; [by exists []|]. destruct (H x) as [y Hy]; [by left|].
  destruct IH as [k Hk]; [intros z Hz; apply H; by right|]. exists (y :: k). by constructor.
Qed.

Lemma planned_windows_exist p d ks : TradingDate.wf d → (∀ k, k ∈ ks → allows p k = true) →
  (Trading.AfterHours ∈ ks → ∃ q, TradingDate.MIN_EPOCH_DAYS ≤ q < TradingDate.as_epoch_days d ∧ is_weekend (TradingDate.mk q) = false) →
  ∃ ws, planned_windows p d (btree_set ks) ws.
Proof.
  intros Hwf Ha Hq. apply choose_each. intros k Hin. rewrite elem_of_btree_set in Hin.
  assert (∃ od, opens_on k d od) as [od Ho]; [|exists (planned_window p k d od); eauto].
  destruct k; [by exists d|]. destruct (Hq Hin) as (q & Hr & Hw). simpl.
  pose proof (previous_business_date_sound d Hwf) as Hs. destruct (previous_business_date d) as [od|e]; [by exists od|].
  destruct Hs as [_ Hall]. specialize (Hall q ltac:(lia)). by rewrite Hw in Hall.
Qed.

Definition window_wf (w : SessionWindow) : Prop :=
  TradingDate.wf (window_date w) ∧ MatchTime.wf (open w) ∧ MatchTime.wf (close w) ∧ MatchTime.wf (replay_start w) ∧ MatchTime.wf (replay_end_exclusive w).

Lemma planned_windows_wf p d ks ws : TradingDate.wf d → planned_windows p d ks ws → Forall (λ w, window_wf w ∧ window_date w = d) ws.
Proof.
  intros Hwf Hp. induction Hp as [|k w ks ws (Ha & od & Ho & ->) _ IH]; constructor; [|done].
  pose proof (opens_on_wf _ _ _ Hwf Ho) as Hwo. pose proof Hwf as Hwd.
  unfold TradingDate.wf, TradingDate.MIN_EPOCH_DAYS, TradingDate.MAX_EPOCH_DAYS in Hwo, Hwd.
  unfold window_wf, planned_window. destruct (session_hours p k) as [a b] eqn:Es.
  assert (Hab : 0 ≤ a < 86400 ∧ 0 ≤ b < 86400) by (unfold session_hours in Es; destruct k, p; simplify_eq; lia).
  unfold MatchTime.wf, midnight, is_i64. simpl. assert (i64_max = 9223372036854775807) as -> by done. split; [|done]. split; [done|]. lia.
Qed.

(** ** The canonical bytes *)

#[local] Instance append_window_append_only w : AppendOnly (append_window w).
Proof. unfold append_window. apply _. Qed.
#[local] Instance encode_plan_append_only i d p ws : AppendOnly (encode_plan i d p ws).
Proof. unfold encode_plan. apply _. Qed.

Instance framed_window d : Framed (λ w, window_wf w ∧ window_date w = d) append_window.
Proof.
  split; [intros w; unfold append_window; apply _|]. intros v w [(_ & Hv1 & Hv2 & Hv3 & Hv4) Hvd] [(_ & Hw1 & Hw2 & Hw3 & Hw4) Hwd]. eapply agree_impl.
  { unfold append_window. same_fields; [by apply (framed_agree (w:=λ k, push (kind_discriminant k)))|by apply agree_time..]. }
  intros (Hk & Ho & Hc & Hs & He). destruct v, w. simpl in *. by subst.
Qed.

Lemma canonical_bytes_Ok i d p ws : zlen ws ≤ 2 →
  (∃ b, canonical_bytes i d p ws = Ok b) ↔ zlen (Symbol.as_bytes (Instrument.symbol i)) ≤ u32_max.
Proof.
  intros Hl. transitivity (writable (encode_plan i d p ws)).
  - unfold canonical_bytes. rewrite writable_whole by apply _.
    destruct (encode_plan i d p ws []); simpl; split; intros [b Hb]; by eauto.
  - unfold encode_plan, StateCanonical.append_instrument.
    rewrite !writable_seq, writable_bytes, writable_length, writable_each by apply _.
    split; [tauto|]. intros Hs. repeat split; try apply writable_extend; try apply writable_push; try done.
    + unfold zlen. lia.
    + unfold_ints. lia.
    + intros w _. unfold append_window, Requests.append_time. rewrite !writable_seq by apply _. repeat split; apply writable_extend.
Qed.

Lemma canonical_bytes_identify i j d e p q ws vs b : TradingDate.wf d → TradingDate.wf e →
  Forall (λ w, window_wf w ∧ window_date w = d) ws → Forall (λ w, window_wf w ∧ window_date w = e) vs →
  canonical_bytes i d p ws = Ok b → canonical_bytes j e q vs = Ok b → i = j ∧ d = e ∧ p = q ∧ ws = vs.
Proof.
  intros Hd He Hws Hvs Hb Hb'. unfold canonical_bytes in *.
  destruct (encode_plan i d p ws []) as [b1|] eqn:E1; [|done]. destruct (encode_plan j e q vs []) as [b2|] eqn:E2; [|done].
  simplify_eq/=. refine (agree_whole _ _ _ b _ E1 E2). unfold encode_plan. eapply agree_impl.
  { do 4 (apply agree_seq; [apply _..|by apply agree_extend|intros _]). apply agree_seq; [apply _..|by apply framed_agree|intros _].
    apply agree_seq; [apply _..|by apply (framed_agree (w:=λ d, extend (TradingDate.to_canonical_bytes d)))|intros Hde].
    apply agree_seq; [apply _..|apply agree_push|intros _]. rewrite <-Hde in Hvs. by apply (framed_agree (w:=counted append_window)). }
  intros (_ & _ & _ & _ & Hi & Hde & Hpq & Hw). split; [done|]. split; [done|]. split; [|done]. by destruct p, q.
Qed.

(** ** What a plan promises *)

(** The calendar the plans are about, independently of the code's test: days
    counted in weeks from a known Monday, the 1st of January 2001. *)
Definition on_weekday (w : Z) (d : TradingDate.TradingDate) : Prop :=
  ∃ n, TradingDate.as_epoch_days d = Civil.days_from_civil 2001 1 1 + 7 * n + w.
(** A business day is a Monday to Friday; holidays are not known. *)
Definition business_day (d : TradingDate.TradingDate) : Prop := ∃ w, 0 ≤ w ≤ 4 ∧ on_weekday w d.
(** The regular session opens on its trading date, the after-hours session on
    the last business day before it. *)
Definition opening_date (k : Trading.SessionKind) (d od : TradingDate.TradingDate) : Prop :=
  match k with
  | Trading.RegularSession => od = d
  | Trading.AfterHours => business_day od ∧ TradingDate.as_epoch_days od < TradingDate.as_epoch_days d ∧
      ∀ e, TradingDate.as_epoch_days od < TradingDate.as_epoch_days e < TradingDate.as_epoch_days d → ¬ business_day e
  end.

Lemma business_day_iff d : business_day d ↔ is_weekend d = false.
Proof.
  rewrite <-not_true_iff_false, is_weekend_spec. unfold business_day, on_weekday, weekday. change (Civil.days_from_civil 2001 1 1) with 11323.
  set (x := TradingDate.as_epoch_days d). split.
  - intros (w & Hw & n & ->). Z.to_euclidean_division_equations. lia.
  - intros H. exists ((x + 3) mod 7). split; [Z.to_euclidean_division_equations; lia|].
    exists ((x + 3) / 7 - 1618). Z.to_euclidean_division_equations. lia.
Qed.

Lemma opens_on_opening k d od : TradingDate.wf d → opens_on k d od → opening_date k d od.
Proof.
  intros Hwf. destruct k; [done|]. intros H. pose proof (previous_business_date_sound d Hwf) as Hs. simpl in H. rewrite H in Hs.
  destruct Hs as (_ & Hw & Hle & Hq). simpl. rewrite business_day_iff. split; [done|]. split; [lia|].
  intros [e] He. rewrite business_day_iff, Hq; [done|simpl in He; lia].
Qed.

(** The windows of a plan, one for each kind asked for: from the opening hour
    of the session's opening date to the closing hour of the trading date,
    replayed from five minutes before to five minutes after. *)
Definition window_sound (p : SessionProfileId) (d : TradingDate.TradingDate) (w : SessionWindow) : Prop :=
  allows p (kind w) = true ∧ window_date w = d ∧
  MatchTime.as_unix_microseconds (open w) < MatchTime.as_unix_microseconds (close w) ∧
  MatchTime.as_unix_microseconds (replay_start w) = MatchTime.as_unix_microseconds (open w) - 5 * 60 * 1000000 ∧
  MatchTime.as_unix_microseconds (replay_end_exclusive w) = MatchTime.as_unix_microseconds (close w) + 5 * 60 * 1000000 ∧
  MatchTime.as_unix_microseconds (close w) = midnight d + (session_hours p (kind w)).2 * 1000000 ∧
  ∃ od, opening_date (kind w) d od ∧ MatchTime.as_unix_microseconds (open w) = midnight od + (session_hours p (kind w)).1 * 1000000.

Lemma opens_on_before k d od : TradingDate.wf d → opens_on k d od →
  match k with Trading.RegularSession => midnight od = midnight d | Trading.AfterHours => midnight od + 86400 * 1000000 ≤ midnight d end.
Proof.
  intros Hwf. destruct k; simpl; [by intros ->|]. intros H. pose proof (previous_business_date_sound d Hwf) as Hs. rewrite H in Hs.
  destruct Hs as (_ & _ & Hle & _). unfold midnight. lia.
Qed.

Lemma planned_window_sound p k d od : TradingDate.wf d → allows p k = true → opens_on k d od → window_sound p d (planned_window p k d od).
Proof.
  intros Hwf Ha Ho. pose proof (opens_on_before _ _ _ Hwf Ho) as Hb. pose proof (opens_on_opening _ _ _ Hwf Ho) as Hod.
  unfold window_sound, planned_window. destruct (session_hours p k) as [a b] eqn:Es.
  assert (Hab : 1 ≤ a < 86400 ∧ 1 ≤ b < 86400 ∧ match k with Trading.RegularSession => a < b | _ => True end)
    by (unfold session_hours in Es; destruct k, p; simplify_eq; lia).
  cbn [kind window_date open close replay_start replay_end_exclusive MatchTime.as_unix_microseconds]. rewrite Es.
  split; [done|]. split; [done|]. split; [destruct k; lia|]. do 3 (split; [simpl; lia|]). exists od. split; [done|]. simpl. lia.
Qed.

(** The after-hours session of a trading date is over, its cool-down
    included, before the warm-up of the regular session begins. *)
Lemma sessions_apart p d wa wr oa or : TradingDate.wf d → allows p Trading.AfterHours = true →
  opens_on Trading.AfterHours d oa → opens_on Trading.RegularSession d or →
  wa = planned_window p Trading.AfterHours d oa → wr = planned_window p Trading.RegularSession d or →
  MatchTime.as_unix_microseconds (replay_end_exclusive wa) ≤ MatchTime.as_unix_microseconds (replay_start wr).
Proof. intros _ Ha _ -> -> ->. destruct p; try discriminate Ha; cbn -[midnight]; lia. Qed.

Lemma session_plan_windows i d p ks s : TradingDate.wf d → with_profile i d p ks = Ok s →
  business_day d ∧ (∀ k, k ∈ ks ↔ k ∈ kind <$> windows s) ∧ StronglySorted ord_lt (kind <$> windows s) ∧
  Forall (window_sound p d) (windows s) ∧
  (∀ wa wr, wa ∈ windows s → wr ∈ windows s → kind wa = Trading.AfterHours → kind wr = Trading.RegularSession →
    MatchTime.as_unix_microseconds (replay_end_exclusive wa) ≤ MatchTime.as_unix_microseconds (replay_start wr)).
Proof.
  intros Hwf H. apply with_profile_Ok in H as (Hb & _ & ws & c & Hp & _ & ->); [|done]. cbn [windows].
  pose proof (planned_windows_kinds _ _ _ _ Hp) as Hk. rewrite Hk. split; [by apply business_day_iff|]. split; [intros k; by rewrite elem_of_btree_set|].
  split; [apply btree_set_sorted|].
  assert (Hw : Forall (λ w, ∃ od, allows p (kind w) = true ∧ opens_on (kind w) d od ∧ w = planned_window p (kind w) d od) ws).
  { clear Hk. induction Hp as [|k w ks' ws (Ha & od & Ho & ->) _ IH]; constructor; [|done]. exists od.
    assert (kind (planned_window p k d od) = k) as -> by (unfold planned_window; by destruct (session_hours p k)). done. }
  rewrite Forall_forall in Hw. split.
  - apply Forall_forall. intros w (od & Ha & Ho & E)%Hw. rewrite E. by apply planned_window_sound.
  - intros wa wr Hwa Hwr Hka Hkr. apply list_elem_of_In in Hwa, Hwr. apply Hw in Hwa as (oa & Ha & Hoa & Ea), Hwr as (or & _ & Hor & Er).
    rewrite Hka in *. rewrite Hkr in *. by apply (sessions_apart p d wa wr oa or).
Qed.

(** C34: a session plan covers exactly the distinct kinds asked for, in order,
    on a Monday to Friday, each with the window of its session hours, an
    after-hours one from the last weekday before; when a date has both
    sessions their replay windows do not overlap. *)
Theorem session_plan_sound i d p ks s : TradingDate.wf d → with_profile i d p ks = Ok s →
  business_day d ∧ (∀ k, k ∈ ks ↔ k ∈ kind <$> windows s) ∧ StronglySorted ord_lt (kind <$> windows s) ∧
  Forall (window_sound p d) (windows s) ∧
  (∀ wa wr, wa ∈ windows s → wr ∈ windows s → kind wa = Trading.AfterHours → kind wr = Trading.RegularSession →
    MatchTime.as_unix_microseconds (replay_end_exclusive wa) ≤ MatchTime.as_unix_microseconds (replay_start wr)).
Proof. apply session_plan_windows. Qed.

(** A plan exists for exactly the business days, profiles and kinds that make
    sense: the profile trades the kinds, and an after-hours session has a
    business day to open on. *)
Theorem session_plan_exists i d p ks : TradingDate.wf d →
  (∃ s, with_profile i d p ks = Ok s) ↔
  is_weekend d = false ∧ ks ≠ [] ∧ (∀ k, k ∈ ks → allows p k = true) ∧
  (Trading.AfterHours ∈ ks → ∃ q, TradingDate.MIN_EPOCH_DAYS ≤ q < TradingDate.as_epoch_days d ∧ is_weekend (TradingDate.mk q) = false) ∧
  zlen (Symbol.as_bytes (Instrument.symbol i)) ≤ u32_max.
Proof.
  intros Hwf. setoid_rewrite (with_profile_Ok i d p ks); [|done]. split.
  - intros (s & Hb & Hk & ws & c & Hp & Hc & _). do 2 (split; [done|]).
    assert (Hall : ∀ k, k ∈ ks → allows p k = true ∧ ∃ od, opens_on k d od).
    { intros k Hin. rewrite <-elem_of_btree_set in Hin. apply list_elem_of_lookup_1 in Hin as [n Hn].
      destruct (Forall2_lookup_l _ _ _ _ _ Hp Hn) as (w & _ & Ha & od & Ho & _). eauto. }
    split; [intros k Hin; by apply Hall|]. split.
    + intros (_ & od & Ho)%Hall. simpl in Ho. exists (TradingDate.as_epoch_days od).
      pose proof (previous_business_date_sound d Hwf) as Hs. rewrite Ho in Hs. destruct Hs as (Hwo & Hw & Hle & _). unfold TradingDate.wf in Hwo.
      destruct od. simpl in *. split; [lia|done].
    + by apply (canonical_bytes_Ok i d p ws); [eapply planned_windows_short|exists c].
  - intros (Hb & Hk & Ha & Hq & Hs).
    assert (Hp : ∃ ws, planned_windows p d (btree_set ks) ws) by by apply planned_windows_exist.
    destruct Hp as [ws Hp]. destruct (proj2 (canonical_bytes_Ok i d p ws (planned_windows_short _ _ _ _ Hp)) Hs) as [c Hc].
    eexists. do 2 (split; [done|]). exists ws, c. done.
Qed.

(** Plans with the same canonical bytes are for the same instrument, date and
    profile, and have the same windows. *)
Theorem session_plan_identifies i j d e p q ks ls s t b : TradingDate.wf d → TradingDate.wf e →
  with_profile i d p ks = Ok s → with_profile j e q ls = Ok t →
  canonical_bytes i d p (windows s) = Ok b → canonical_bytes j e q (windows t) = Ok b → s = t.
Proof.
  intros Hwd Hwe Hs Ht Hb Hb'. apply with_profile_Ok in Hs as (_ & _ & ws & c & Hp & Hc & ->); [|done].
  apply with_profile_Ok in Ht as (_ & _ & ws' & c' & Hp' & Hc' & ->); [|done]. cbn [windows] in *.
  assert (c = c') as -> by congruence.
  destruct (canonical_bytes_identify i j d e p q ws ws' b) as (-> & -> & -> & ->); [done|done|..|done|done|done];
    by eapply planned_windows_wf.
Qed.

(** Every planned window is a session segment of the runner, and its replay
    window is the span in which the segment's phases are defined. *)
Theorem planned_windows_are_segments i d p ks s w sid : TradingDate.wf d → with_profile i d p ks = Ok s → w ∈ windows s →
  ∃ g, Trading.new_segment sid (kind w) d (open w) (close w) = Ok g ∧
    ∀ t, is_ok (Trading.segment_phase g t) = true ↔ ord_le (replay_start w) t ∧ ord_lt t (replay_end_exclusive w).
Proof.
  intros Hwf Hs Hw. apply with_profile_Ok in Hs as (_ & _ & ws & c & Hp & _ & ->); [|done]. cbn [windows] in Hw.
  pose proof (planned_windows_wf _ _ _ _ Hwf Hp) as Hwfs. rewrite Forall_forall in Hwfs. pose proof Hw as Hw'. apply list_elem_of_In, Hwfs in Hw'.
  apply list_elem_of_lookup_1 in Hw as [n Hn]. destruct (Forall2_lookup_r _ _ _ _ _ Hp Hn) as (k & _ & Ha & od & Ho & E).
  destruct (planned_window_sound p k d od Hwf Ha Ho) as (_ & _ & Hoc & Hrs & Hre & _ & _). rewrite <-E in Hoc, Hrs, Hre.
  destruct Hw' as [(_ & _ & _ & Hws & Hwe) _]. unfold MatchTime.wf, is_i64, REPLAY_MARGIN_MICROSECONDS in *.
  set (g := Trading.mk_segment sid (kind w) d (open w) (close w)).
  assert (Hr : Trading.replay_window g = Ok (MatchTime.as_unix_microseconds (replay_start w), MatchTime.as_unix_microseconds (replay_end_exclusive w))).
  { unfold Trading.replay_window, Trading.WARM_UP_MICROSECONDS, to_i64. simpl Trading.open. simpl Trading.close.
    rewrite !checked_in by lia. simpl. by rewrite Hrs, Hre. }
  exists g. split.
  - unfold Trading.new_segment. rewrite bool_decide_false by (intros H; apply H; by apply Z.compare_lt_iff). fold g. by rewrite Hr.
  - intros t. unfold Trading.segment_phase. rewrite Hr. cbn [mbind result_bind].
    change (ord_le (replay_start w) t) with (Z.compare (MatchTime.as_unix_microseconds (replay_start w)) (MatchTime.as_unix_microseconds t) ≠ Gt).
    change (ord_lt t (replay_end_exclusive w)) with (Z.compare (MatchTime.as_unix_microseconds t) (MatchTime.as_unix_microseconds (replay_end_exclusive w)) = Lt).
    destruct (_ || _) eqn:Eo; simpl; [split; [done|]|split; [intros _|done]]; rewrite Z.compare_lt_iff, Z.compare_ngt_iff; lia.
Qed.
End plans.

(** ** Instances *)

Definition demo_hash : Event.Blake3 := λ l, be_bytes 32 (from_be l).
Definition demo_future : Instrument.InstrumentId := Instrument.new Market.Taifex (Symbol.mk (bytes_of "TXFH6")).
(** Monday the 20th of July 2026. *)
Definition demo_monday : TradingDate.TradingDate := TradingDate.mk 20654.
Lemma demo_monday_wf : TradingDate.wf demo_monday.
Proof. by split. Qed.
Definition demo_plan : result SessionPlanError SessionPlan :=
  with_profile (B:=demo_hash) demo_future demo_monday TaifexIndexFutures [Trading.AfterHours; Trading.RegularSession; Trading.AfterHours].

Lemma previous_business_date_is_last_witness :
  ∃ p, previous_business_date demo_monday = Ok p ∧ TradingDate.as_epoch_days p = 20651 ∧
    ∀ q, 20651 < q < 20654 → is_weekend (TradingDate.mk q) = true.
Proof.
  exists (TradingDate.mk 20651). split; [reflexivity|]. split; [reflexivity|].
  exact (proj2 (proj2 (proj2 (proj2 (previous_business_date_is_last demo_monday 0 demo_monday_wf))))).
Defined.

Lemma session_plan_sound_witness : ∃ s, demo_plan = Ok s ∧ length (windows s) = 2%nat ∧ Forall (window_sound TaifexIndexFutures demo_monday) (windows s).
Proof.
  assert (H : ∃ s, demo_plan = Ok s ∧ length (windows s) = 2%nat) by (eexists; split; [vm_compute; reflexivity|reflexivity]).
  destruct H as (s & H & Hl). exists s. split; [exact H|]. split; [exact Hl|].
  exact (proj1 (proj2 (proj2 (proj2 (session_plan_sound (B:=demo_hash) _ _ _ _ s demo_monday_wf H))))).
Defined.

Lemma session_plan_exists_witness : ∃ s, demo_plan = Ok s.
Proof.
  apply (session_plan_exists (B:=demo_hash)); [exact demo_monday_wf|]. split; [reflexivity|]. split; [discriminate|].
  split; [intros [] _; reflexivity|]. split; [|vm_compute; discriminate].
  intros _. exists 20651. split; [split; vm_compute; (discriminate || reflexivity)|reflexivity].
Defined.

Lemma session_plan_identifies_witness : ∃ s b, demo_plan = Ok s ∧
  canonical_bytes demo_future demo_monday TaifexIndexFutures (windows s) = Ok b ∧ s = s.
Proof.
  assert (H : ∃ s, demo_plan = Ok s ∧ is_ok (canonical_bytes demo_future demo_monday TaifexIndexFutures (windows s)) = true)
    by (eexists; split; [vm_compute; reflexivity|vm_compute; reflexivity]).
  destruct H as (s & H & Hb). destruct (canonical_bytes _ _ _ _) as [b|] eqn:E; [|discriminate Hb].
  exists s, b. split; [exact H|]. split; [exact E|].
  exact (session_plan_identifies (B:=demo_hash) _ _ _ _ _ _ _ _ s s b demo_monday_wf demo_monday_wf H H E E).
Defined.

Lemma planned_windows_are_segments_witness : ∃ s w g, demo_plan = Ok s ∧ windows s !! 1%nat = Some w ∧
  Trading.new_segment (Model.mk_segment (bytes_of "night")) (kind w) demo_monday (open w) (close w) = Ok g.
Proof.
  assert (H : ∃ s w, demo_plan = Ok s ∧ windows s !! 1%nat = Some w) by (eexists _, _; split; [vm_compute; reflexivity|reflexivity]).
  destruct H as (s & w & H & Hw).
  destruct (planned_windows_are_segments (B:=demo_hash) _ _ _ _ s w (Model.mk_segment (bytes_of "night")) demo_monday_wf H (list_elem_of_lookup_2 _ _ _ Hw)) as (g & Hg & _).
  exists s, w, g. split; [exact H|]. split; [exact Hw|exact Hg].
Defined.

End SessionsLaws.
