(* ===== verification/Partition.v ===== *)
(** Source partitions (run-planner/src/partition.rs, canonical.rs): the names
    of sources, the key and identity of the partition that holds an
    instrument's events of a trading date, and the states of partitions and
    of their caches. *)
From S2P Require Import Prelude Order Text Numeric Quantity Calendar Book Identity Codec Values Event MarketState Orders Requests StateCanonical Output.

Module Partition.
Import Writer(push, extend, append_bytes, append_length, each) Output.Output(btree_set, kind_discriminant, StrategyIdentity, strategy_id, strategy_version, binary_identity, algorithm, digest).

(** ** Source names *)

Definition SOURCE_PARTITION_KEY_VERSION : Z := 2.
Definition SOURCE_ID_MAX_BYTES : Z := 64.

(** The name is the first [len] of 64 bytes. *)
Record SourceId : Set := mk_source { bytes : list Z; len : Z }.
#[global] Instance SourceId_eq_dec : EqDecision SourceId.
Proof. solve_decision. Defined.
Inductive SourceIdError : Set := Empty | TooLong | UnsafeCharacter.

Definition is_ascii_alphanumeric (b : Z) : bool := in_range 48 57 b || in_range 65 90 b || in_range 97 122 b.
Definition safe_byte (b : Z) : bool := is_ascii_alphanumeric b || (b =? 45) || (b =? 95).

Definition new_source (value : list Z) : result SourceIdError SourceId :=
  reject bool_decide (value = []) with Empty;;
  reject SOURCE_ID_MAX_BYTES <? zlen value with TooLong;;
  reject negb (forallb safe_byte value) with UnsafeCharacter;;
  Ok (mk_source (value ++ replicate (64 - length value) 0) (zlen value)).
Definition source_bytes (s : SourceId) : list Z := take (Z.to_nat (len s)) (bytes s).

(** ** Canonical fields (canonical.rs)

    Its failure is always the length overflow, which the callers name. *)

Definition append_decimal (d : Decimal.Decimal) : Writer.Writer := extend (Decimal.to_canonical_bytes d).
Definition append_session (k : Trading.SessionKind) : Writer.Writer := push (kind_discriminant k).
Definition append_strategy_identity (s : StrategyIdentity) (params : list Z) : Writer.Writer :=
  append_bytes (strategy_id s) ▷ append_bytes (strategy_version s) ▷ append_bytes (algorithm (binary_identity s)) ▷
  append_bytes (digest (binary_identity s)) ▷ extend params.

(** ** Keys *)

Record SourcePartitionKey : Set := mk_key {
  source : SourceId; instrument : Instrument.InstrumentId; trading_date : TradingDate.TradingDate;
  session_kinds : list Trading.SessionKind; session_plan_identity : list Z; canonical : list Z; identity : list Z }.
#[global] Instance SourcePartitionKey_eq_dec : EqDecision SourcePartitionKey.
Proof. solve_decision. Defined.
Inductive SourcePartitionKeyError : Set := EmptySessions | CanonicalLengthOverflow.

Definition encode_key (s : SourceId) (i : Instrument.InstrumentId) (d : TradingDate.TradingDate) (kinds : list Trading.SessionKind)
    (plan : list Z) : Writer.Writer :=
  extend (bytes_of "OSPK") ▷ extend (be_bytes 2 SOURCE_PARTITION_KEY_VERSION) ▷ append_bytes (source_bytes s) ▷
  StateCanonical.append_instrument i ▷ extend (TradingDate.to_canonical_bytes d) ▷
  (append_length (zlen kinds) ▷ each append_session kinds) ▷ extend plan.

Definition new_key {B : Event.Blake3} (s : SourceId) (i : Instrument.InstrumentId) (d : TradingDate.TradingDate)
    (session_kinds : list Trading.SessionKind) (plan : list Z) : result SourcePartitionKeyError SourcePartitionKey :=
  let kinds := btree_set session_kinds in
  reject bool_decide (kinds = []) with EmptySessions;;
  canonical ← map_err (λ _, CanonicalLengthOverflow) (encode_key s i d kinds plan []);
  Ok (mk_key s i d kinds plan canonical (Event.blake3 canonical)).

(** [impl Ord for SourcePartitionKey]. *)
#[global] Instance SourcePartitionKey_ord : Ord SourcePartitionKey := cmp_on canonical.

(** ** States *)

Inductive SourceStateKind : Set := KindMissing | KindBuilding | KindComplete | KindIncomplete | KindCorrupt.
Inductive IncompleteReason : Set :=
| CursorNotTerminal | CoverageUnconfirmed | DailyInstrumentMissing | UnsupportedFormat | SessionOwnershipUnconfirmed.
Inductive CorruptReason : Set :=
| ManifestInvalid | ReferenceMismatch | PayloadMissing | PayloadChecksumMismatch | CompressionFrameInvalid | VersionIncompatible.
Inductive SourceState : Set :=
| Missing | Building | Complete (revision : list Z) | Incomplete (reason : IncompleteReason) | Corrupt (reason : CorruptReason).
Inductive CacheState : Set := CacheMissing | CacheBuilding | CacheValid (cache : list Z) | CacheStale | CacheCorrupt.

Definition source_state_kind (s : SourceState) : SourceStateKind :=
  match s with
  | Missing => KindMissing | Building => KindBuilding | Complete _ => KindComplete | Incomplete _ => KindIncomplete | Corrupt _ => KindCorrupt
  end.
Definition kind_byte (k : SourceStateKind) : Z :=
  match k with KindMissing => 1 | KindBuilding => 2 | KindComplete => 3 | KindIncomplete => 4 | KindCorrupt => 5 end.
Definition incomplete_byte (r : IncompleteReason) : Z :=
  match r with
  | CursorNotTerminal => 1 | CoverageUnconfirmed => 2 | DailyInstrumentMissing => 3 | UnsupportedFormat => 4 | SessionOwnershipUnconfirmed => 5
  end.
Definition corrupt_byte (r : CorruptReason) : Z :=
  match r with
  | ManifestInvalid => 1 | ReferenceMismatch => 2 | PayloadMissing => 3 | PayloadChecksumMismatch => 4
  | CompressionFrameInvalid => 5 | VersionIncompatible => 6
  end.

(** ** What names and keys promise *)

(** A source name is accepted when it is one to 64 safe bytes, and reads back
    as it was given. *)
Lemma new_source_Ok value s : new_source value = Ok s →
  source_bytes s = value ∧ value ≠ [] ∧ zlen value ≤ SOURCE_ID_MAX_BYTES ∧ Forall (λ b, safe_byte b = true) value.
Proof.
  unfold new_source. case_bool_decide; [done|]. destruct (SOURCE_ID_MAX_BYTES <? zlen value) eqn:El; [done|].
  destruct (forallb safe_byte value) eqn:Ef; [|done]. intros [= <-]. unfold source_bytes. simpl.
  split; [|split; [done|split; [lia|apply Forall_forall; intros b Hb; by apply (proj1 (forallb_forall _ _) Ef)]]].
  unfold zlen. rewrite Nat2Z.id. apply take_app_length.
Qed.

End Partition.
