(* ===== verification/Config.v ===== *)
(** Run configurations (run-planner/src/config.rs): what a run asks for, and
    how [EffectiveRunConfig::resolve] validates it, gives it its canonical
    form and its checksum. *)
From S2P Require Import Prelude Order Text Numeric Quantity Calendar Book Identity Codec Values Event MarketState Orders Requests StateCanonical Accounting Output Sessions Partition.

Module Config.
Import InstrumentClass Writer(push, extend, append_bytes, append_length, each) Accounting(trim_is_empty).
Import Output.Output(btree_set, as_bytes, StrategyIdentity, StrategyDeclaration) Partition.Partition(append_decimal, append_session, append_strategy_identity, source_bytes).

Definition CONFIG_SCHEMA_VERSION : Z := 2.
Definition EFFECTIVE_CONFIG_VERSION : Z := 7.
Definition SOURCE_POLICY_VERSION : Z := 1.
Definition CACHE_POLICY_VERSION : Z := 1.
Definition REPLAY_DATA_POLICY_VERSION : Z := 1.

(** ** Policies and models

    A provenance is the characters of a string. *)

Inductive SourcePolicy : Set := StrictSource | DegradedSource.
Inductive CachePolicy : Set := ReuseOrRebuild.
Inductive ReplayDataPolicy : Set := StrictReplay | DegradedReplay.
Inductive OutputPolicy : Set := CreateNew.
Inductive Currency : Set := Twd.
Record CurrencyAmount : Set := new_amount { currency : Currency; amount : Decimal.Decimal }.
Inductive FillEvidence : Set := TopOfBook | TradePrint.
Inductive QuantityEvidence : Set := Unlimited | Observed.
Record FillModelConfig : Set := new_fill_model { evidence : FillEvidence; quantity : QuantityEvidence }.
Record LatencyConfig : Set := new_latency { market_data_latency_ms : Z; order_latency_ms : Z }.
Inductive QuantityAllocationConfig : Set := AcceptanceSequence.
Inductive SlippageModelConfig : Set := AdverseFixedDelta (delta : Decimal.Decimal).
Inductive ExecutionPolicyConfig : Set := SubsequentEventV1 | ScheduledVisibleDepthV1.
Record ScheduledExecutionConfig : Set := new_scheduled { depth_levels : Z; max_stale_ms : Z }.
Inductive ChargeSides : Set := Buy | Sell | BuyAndSell.
Inductive RoundingPolicy : Set := Down | HalfUp | Up.
Inductive ChargeBasis : Set := NotionalRate | FixedPerUnit.
Inductive DayTradeMatchingConfig : Set := SameAccountInstrumentTradingDateFifo.
Inductive PositionAccountingConfig : Set := AverageCostV1.
Inductive MarkingPolicyConfig : Set := LastObservableV1 (allow_midpoint_fallback : bool).

Definition source_policy_byte (p : SourcePolicy) : Z := match p with StrictSource => 1 | DegradedSource => 2 end.
Definition cache_policy_byte (p : CachePolicy) : Z := match p with ReuseOrRebuild => 1 end.
Definition replay_policy_byte (p : ReplayDataPolicy) : Z := match p with StrictReplay => 1 | DegradedReplay => 2 end.
Definition output_policy_byte (p : OutputPolicy) : Z := match p with CreateNew => 1 end.
Definition currency_byte (c : Currency) : Z := match c with Twd => 1 end.
Definition evidence_byte (e : FillEvidence) : Z := match e with TopOfBook => 1 | TradePrint => 2 end.
Definition quantity_byte (q : QuantityEvidence) : Z := match q with Unlimited => 1 | Observed => 2 end.
Definition allocation_byte (a : QuantityAllocationConfig) : Z := match a with AcceptanceSequence => 1 end.
Definition execution_byte (e : ExecutionPolicyConfig) : Z := match e with SubsequentEventV1 => 1 | ScheduledVisibleDepthV1 => 2 end.
Definition sides_byte (s : ChargeSides) : Z := match s with Buy => 1 | Sell => 2 | BuyAndSell => 3 end.
Definition rounding_byte (r : RoundingPolicy) : Z := match r with Down => 1 | HalfUp => 2 | Up => 3 end.
Definition basis_byte (b : ChargeBasis) : Z := match b with NotionalRate => 1 | FixedPerUnit => 2 end.
Definition matching_byte (m : DayTradeMatchingConfig) : Z := match m with SameAccountInstrumentTradingDateFifo => 1 end.
Definition accounting_byte (p : PositionAccountingConfig) : Z := match p with AverageCostV1 => 1 end.

#[global] Instance SourcePolicy_eq_dec : EqDecision SourcePolicy.
Proof. solve_decision. Defined.
#[global] Instance ReplayDataPolicy_eq_dec : EqDecision ReplayDataPolicy.
Proof. solve_decision. Defined.
#[global] Instance Currency_eq_dec : EqDecision Currency.
Proof. solve_decision. Defined.
#[global] Instance ChargeSides_eq_dec : EqDecision ChargeSides.
Proof. solve_decision. Defined.
#[global] Instance ChargeBasis_eq_dec : EqDecision ChargeBasis.
Proof. solve_decision. Defined.

(** ** Charges *)

Record ChargeConfig : Set := mk_charge {
  basis : ChargeBasis; rate : Decimal.Decimal; applicable_sides : ChargeSides; minimum : Decimal.Decimal; precision : Z;
  rounding : RoundingPolicy; provenance : list Z }.
Definition new_charge (rate : Decimal.Decimal) (sides : ChargeSides) (minimum : Decimal.Decimal) (precision : Z)
    (rounding : RoundingPolicy) (provenance : list Z) : ChargeConfig :=
  mk_charge NotionalRate rate sides minimum precision rounding provenance.
Definition fixed_per_unit (amount : Decimal.Decimal) (sides : ChargeSides) (precision : Z) (rounding : RoundingPolicy)
    (provenance : list Z) : ChargeConfig :=
  mk_charge FixedPerUnit amount sides Decimal.ZERO precision rounding provenance.

Record DayTradeTaxConfig : Set := mk_day_trade {
  charge : ChargeConfig; matching : DayTradeMatchingConfig; timezone_offset_minutes : Z; eligible_dates : list TradingDate.TradingDate;
  eligibility_required : bool; valid_through : TradingDate.TradingDate; day_trade_provenance : list Z }.
Definition new_day_trade (charge : ChargeConfig) (matching : DayTradeMatchingConfig) (timezone_offset_minutes : Z)
    (eligible_dates : list TradingDate.TradingDate) (eligibility_required : bool) (valid_through : TradingDate.TradingDate)
    (provenance : list Z) : DayTradeTaxConfig :=
  mk_day_trade charge matching timezone_offset_minutes (btree_set eligible_dates) eligibility_required valid_through provenance.
(** A binary search of the sorted dates. *)
Definition is_eligible (c : DayTradeTaxConfig) (d : TradingDate.TradingDate) : bool := bool_decide (d ∈ eligible_dates c).

Record InstrumentChargeConfig : Set := new_instrument_charges {
  charged : Instrument.InstrumentId; fee : ChargeConfig; tax : ChargeConfig; day_trade_tax : option DayTradeTaxConfig }.

(** ** The simulation *)

Record SimulationConfig : Set := mk_simulation {
  execution_policy : ExecutionPolicyConfig; scheduled_execution : option ScheduledExecutionConfig; fill_model : FillModelConfig;
  latency : LatencyConfig; quantity_allocation : QuantityAllocationConfig; slippage_model : SlippageModelConfig;
  fee_model : ChargeConfig; tax_model : ChargeConfig; initial_cash : CurrencyAmount; position_accounting : PositionAccountingConfig;
  marking_policy : MarkingPolicyConfig; instrument_charges : list InstrumentChargeConfig }.
Definition new_simulation (fill_model : FillModelConfig) (quantity_allocation : QuantityAllocationConfig) (slippage_model : SlippageModelConfig)
    (fee_model tax_model : ChargeConfig) (initial_cash : CurrencyAmount) (position_accounting : PositionAccountingConfig)
    (marking_policy : MarkingPolicyConfig) : SimulationConfig :=
  mk_simulation SubsequentEventV1 None fill_model (new_latency 0 0) quantity_allocation slippage_model fee_model tax_model
    initial_cash position_accounting marking_policy [].
Definition with_scheduled_execution (s : SimulationConfig) (c : ScheduledExecutionConfig) : SimulationConfig :=
  mk_simulation ScheduledVisibleDepthV1 (Some c) (fill_model s) (latency s) (quantity_allocation s) (slippage_model s) (fee_model s)
    (tax_model s) (initial_cash s) (position_accounting s) (marking_policy s) (instrument_charges s).
Definition with_latency (s : SimulationConfig) (l : LatencyConfig) : SimulationConfig :=
  mk_simulation (execution_policy s) (scheduled_execution s) (fill_model s) l (quantity_allocation s) (slippage_model s) (fee_model s)
    (tax_model s) (initial_cash s) (position_accounting s) (marking_policy s) (instrument_charges s).
Definition with_instrument_charges (s : SimulationConfig) (charges : list InstrumentChargeConfig) : SimulationConfig :=
  mk_simulation (execution_policy s) (scheduled_execution s) (fill_model s) (latency s) (quantity_allocation s) (slippage_model s)
    (fee_model s) (tax_model s) (initial_cash s) (position_accounting s) (marking_policy s) charges.
Definition charges_for (s : SimulationConfig) (i : Instrument.InstrumentId) : option InstrumentChargeConfig :=
  List.find (λ c, bool_decide (charged c = i)) (instrument_charges s).

(** ** Economics and contracts *)

Record InstrumentEconomicsConfig : Set := new_economics {
  priced : Instrument.InstrumentId; quantity_unit : Quantity.QuantityUnit; units_per_trading_unit : Z; economics_currency : Currency;
  multiplier : Decimal.Decimal; economics_provenance : list Z }.

Record InstrumentReferenceConfig : Set := new_reference {
  underlying : list Z; expiry : TradingDate.TradingDate; strike : Decimal.Decimal; option_side : OptionSide; reference_currency : Currency;
  reference_multiplier : Decimal.Decimal; reference_unit : Quantity.QuantityUnit; reference_units : Z; reference_provenance : list Z }.
#[global] Instance InstrumentReferenceConfig_eq_dec : EqDecision InstrumentReferenceConfig.
Proof. solve_decision. Defined.

Record InstrumentContractConfig : Set := mk_contract {
  contracted : Instrument.InstrumentId; class : InstrumentClass; shape : option ContractShape; session_profile : Sessions.SessionProfileId;
  reference : option InstrumentReferenceConfig }.
#[global] Instance InstrumentContractConfig_eq_dec : EqDecision InstrumentContractConfig.
Proof. solve_decision. Defined.
Definition new_contract (i : Instrument.InstrumentId) (class : InstrumentClass) (shape : option ContractShape)
    (profile : Sessions.SessionProfileId) : InstrumentContractConfig := mk_contract i class shape profile None.
Definition with_reference (c : InstrumentContractConfig) (r : InstrumentReferenceConfig) : InstrumentContractConfig :=
  mk_contract (contracted c) (class c) (shape c) (session_profile c) (Some r).
Definition price_policy (c : InstrumentContractConfig) : Price.PricePolicy :=
  match shape c with Some CalendarSpread => Price.Signed | Some Outright | None => Price.PositiveOnly end.

Definition valid_economics_terms (unit : Quantity.QuantityUnit) (units : Z) (multiplier : Decimal.Decimal) (provenance : list Z) : bool :=
  bool_decide (unit ≠ Quantity.SourceUnit) && negb (units =? 0) && bool_decide (cmp multiplier Decimal.ZERO = Gt) &&
  negb (trim_is_empty provenance).
Definition reference_is_valid (r : InstrumentReferenceConfig) : bool :=
  negb (trim_is_empty (underlying r)) && bool_decide (cmp (strike r) Decimal.ZERO = Gt) &&
  valid_economics_terms (reference_unit r) (reference_units r) (reference_multiplier r) (reference_provenance r).

(** ** Configurations *)

Record StrategyBinding : Set := new_binding {
  strategy_identity : StrategyIdentity; params_checksum : list Z; declaration : StrategyDeclaration }.

(** [data_root] is the bytes of a path. *)
Record RunConfig : Set := mk_run_config {
  config_version : Z; run_source : Partition.SourceId; run_trading_dates : list TradingDate.TradingDate;
  run_universe : list Instrument.InstrumentId; run_instrument_contracts : list InstrumentContractConfig;
  run_session_kinds : list Trading.SessionKind; run_strategy : StrategyBinding; run_data_root : list Z;
  run_source_policy : option SourcePolicy; run_cache_policy : option CachePolicy; run_replay_data_policy : option ReplayDataPolicy;
  run_simulation : SimulationConfig; run_instrument_economics : list InstrumentEconomicsConfig; run_output_policy : option OutputPolicy }.

Record EffectiveRunConfig : Set := mk_effective {
  source : Partition.SourceId; trading_dates : list TradingDate.TradingDate; universe : list Instrument.InstrumentId;
  instrument_contracts : list InstrumentContractConfig; session_kinds : list Trading.SessionKind; strategy : StrategyBinding;
  data_root : list Z; source_policy : SourcePolicy; cache_policy : CachePolicy; replay_data_policy : ReplayDataPolicy;
  simulation : SimulationConfig; instrument_economics : list InstrumentEconomicsConfig; output_policy : OutputPolicy;
  canonical_semantics : list Z; checksum : list Z }.

Inductive ConfigError : Set :=
| UnsupportedConfigVersion (actual : Z) | EmptyDates | EmptyUniverse | MissingInstrumentContract
| InvalidInstrumentContract (i : Instrument.InstrumentId) | EmptySessions | EmptyDataRoot | StrategyUniverseMismatch
| StrategySessionsMismatch | DegradedPolicyMismatch | InvalidLatency | NegativeSlippage | InvalidFee | InvalidTax | InvalidInitialCash
| InvalidScheduledExecution | EconomicsOutsideUniverse (i : Instrument.InstrumentId) | DuplicateInstrumentEconomics (i : Instrument.InstrumentId)
| MissingInstrumentEconomics (i : Instrument.InstrumentId) | InvalidInstrumentEconomics (i : Instrument.InstrumentId)
| ChargesOutsideUniverse (i : Instrument.InstrumentId) | DuplicateInstrumentCharges (i : Instrument.InstrumentId)
| InvalidDayTradeTax (i : Instrument.InstrumentId) | MissingDayTradeEligibility (i : Instrument.InstrumentId) | CanonicalLengthOverflow.

(** ** Validation *)

Definition MAX_LATENCY_MS : Z := Z.quot i64_max 1000.

Definition validate_charge (c : ChargeConfig) (error : ConfigError) : result ConfigError () :=
  reject bool_decide (cmp (rate c) Decimal.ZERO = Lt) || bool_decide (cmp (minimum c) Decimal.ZERO = Lt) ||
         (Decimal.DECIMAL_SCALE <? precision c) || bool_decide (provenance c = []) with error;;
  Ok ().

Definition validate_simulation (c : SimulationConfig) : result ConfigError () :=
  let l := latency c in
  let total_latency_ms := to_u64 (market_data_latency_ms l + order_latency_ms l) in
  reject (MAX_LATENCY_MS <? market_data_latency_ms l) || (MAX_LATENCY_MS <? order_latency_ms l) ||
         match total_latency_ms with None => true | Some value => MAX_LATENCY_MS <? value end with InvalidLatency;;
  reject match slippage_model c with AdverseFixedDelta delta => bool_decide (cmp delta Decimal.ZERO = Lt) end with NegativeSlippage;;
  _ ← validate_charge (fee_model c) InvalidFee;
  _ ← validate_charge (tax_model c) InvalidTax;
  _ ← match execution_policy c, scheduled_execution c with
      | SubsequentEventV1, None => Ok ()
      | ScheduledVisibleDepthV1, Some s =>
          if in_range 1 5 (depth_levels s) && (0 <? max_stale_ms s) then Ok () else Err InvalidScheduledExecution
      | _, _ => Err InvalidScheduledExecution
      end;
  reject bool_decide (currency (initial_cash c) ≠ Twd) || bool_decide (cmp (amount (initial_cash c)) Decimal.ZERO ≠ Gt) with InvalidInitialCash;;
  Ok ().

Definition day_trade_shape (c : InstrumentChargeConfig) (d : DayTradeTaxConfig) : bool :=
  bool_decide (Instrument.market (charged c) = Market.Twse ∨ Instrument.market (charged c) = Market.Tpex) &&
  bool_decide (basis (tax c) = NotionalRate) && bool_decide (basis (charge d) = NotionalRate) &&
  bool_decide (applicable_sides (tax c) = Sell) && bool_decide (applicable_sides (charge d) = Sell) &&
  negb (bool_decide (cmp (rate (charge d)) (rate (tax c)) = Gt)) && negb (bool_decide (day_trade_provenance d = [])) &&
  in_range (-1439) 1439 (timezone_offset_minutes d).

(** The loop body of [validate_instrument_charges]. *)
Definition validate_entry (universe : list Instrument.InstrumentId) (trading_dates : list TradingDate.TradingDate)
    (c : InstrumentChargeConfig) : result ConfigError () :=
  reject negb (bool_decide (charged c ∈ universe)) with ChargesOutsideUniverse (charged c);;
  _ ← validate_charge (fee c) InvalidFee;
  _ ← validate_charge (tax c) InvalidTax;
  match day_trade_tax c with
  | None => Ok ()
  | Some d =>
      reject negb (day_trade_shape c d) with InvalidDayTradeTax (charged c);;
      _ ← validate_charge (charge d) InvalidTax;
      reject eligibility_required d && existsb (λ date, negb (is_eligible d date)) trading_dates with MissingDayTradeEligibility (charged c);;
      Ok ()
  end.
(** It sorts the charges of the configuration it checks. *)
Definition validate_instrument_charges (s : SimulationConfig) (universe : list Instrument.InstrumentId)
    (trading_dates : list TradingDate.TradingDate) : result ConfigError SimulationConfig :=
  let charges := sort_on charged (instrument_charges s) in
  match List.find (λ '(a, b), bool_decide (charged a = charged b)) (windows2 charges) with
  | Some (a, _) => Err (DuplicateInstrumentCharges (charged a))
  | None =>
      _ ← collect_results (validate_entry universe trading_dates) charges;
      Ok (with_instrument_charges s charges)
  end.

(** The loop body of [validate_economics]. *)
Definition insert_economics (universe : list Instrument.InstrumentId) (m : gmap Instrument.InstrumentId InstrumentEconomicsConfig)
    (e : InstrumentEconomicsConfig) : result ConfigError (gmap Instrument.InstrumentId InstrumentEconomicsConfig) :=
  reject negb (bool_decide (priced e ∈ universe)) with EconomicsOutsideUniverse (priced e);;
  reject negb (valid_economics_terms (quantity_unit e) (units_per_trading_unit e) (multiplier e) (economics_provenance e))
    with InvalidInstrumentEconomics (priced e);;
  match m !! priced e with
  | Some _ => Err (DuplicateInstrumentEconomics (priced e))
  | None => Ok (<[priced e := e]> m)
  end.
Definition validate_economics (values : list InstrumentEconomicsConfig) (universe : list Instrument.InstrumentId) :
    result ConfigError (list InstrumentEconomicsConfig) :=
  m ← try_fold (insert_economics universe) ∅ values;
  match List.find (λ i, bool_decide (m !! i = None)) universe with
  | Some i => Err (MissingInstrumentEconomics i)
  | None => Ok (btree_values m)
  end.

Definition contract_shape_matches_class (class : InstrumentClass) (shape : option ContractShape) : bool :=
  match class, shape with
  | Future, Some (Outright | CalendarSpread) => true
  | (Equity | Warrant | Option), None => true
  | _, _ => false
  end.

(** [dedup_by] keeps the first of each run of equal instruments. *)
Fixpoint dedup_contracts (l : list InstrumentContractConfig) : list InstrumentContractConfig :=
  match l with
  | [] => []
  | c :: l =>
      match dedup_contracts l with
      | [] => [c]
      | d :: k => if bool_decide (contracted d = contracted c) then c :: k else c :: d :: k
      end
  end.

Definition contract_valid (universe : list Instrument.InstrumentId) (c : InstrumentContractConfig) : bool :=
  bool_decide (contracted c ∈ universe) &&
  Sessions.supports_contract (session_profile c) (Instrument.market (contracted c)) (class c) (shape c) &&
  contract_shape_matches_class (class c) (shape c) &&
  negb (match class c with Warrant | Option => bool_decide (reference c = None) | _ => false end) &&
  match reference c with Some r => reference_is_valid r | None => true end.
(** The first contract, with the contract before it, that is not acceptable. *)
Fixpoint invalid_contract (universe : list Instrument.InstrumentId) (previous : option InstrumentContractConfig)
    (l : list InstrumentContractConfig) : option InstrumentContractConfig :=
  match l with
  | [] => None
  | c :: l =>
      if negb (contract_valid universe c) || match previous with Some p => bool_decide (contracted p = contracted c) | None => false end
      then Some c else invalid_contract universe (Some c) l
  end.

Definition validate_instrument_contracts (contracts : list InstrumentContractConfig) (universe : list Instrument.InstrumentId) :
    result ConfigError (list InstrumentContractConfig) :=
  let contracts := sort_on contracted contracts in
  match List.find (λ '(a, b), bool_decide (contracted a = contracted b) && negb (bool_decide (a = b))) (windows2 contracts) with
  | Some (a, _) => Err (InvalidInstrumentContract (contracted a))
  | None =>
      let contracts := dedup_contracts contracts in
      reject negb (length contracts =? length universe)%nat with MissingInstrumentContract;;
      match invalid_contract universe None contracts with
      | Some c => Err (InvalidInstrumentContract (contracted c))
      | None =>
          reject negb (forallb (λ i, existsb (λ c, bool_decide (contracted c = i)) contracts) universe) with MissingInstrumentContract;;
          Ok contracts
      end
  end.

(** The loop body of [validate_reference_economics]. *)
Definition check_reference (economics : list InstrumentEconomicsConfig) (c : InstrumentContractConfig) : result ConfigError () :=
  match reference c with
  | None => Ok ()
  | Some r =>
      match List.find (λ e, bool_decide (priced e = contracted c)) economics with
      | None => Err (InvalidInstrumentContract (contracted c))
      | Some e =>
          reject bool_decide (quantity_unit e ≠ reference_unit r) || negb (units_per_trading_unit e =? reference_units r) ||
                 bool_decide (economics_currency e ≠ reference_currency r) || bool_decide (multiplier e ≠ reference_multiplier r)
            with InvalidInstrumentContract (contracted c);;
          Ok ()
      end
  end.
Definition validate_reference_economics (contracts : list InstrumentContractConfig) (economics : list InstrumentEconomicsConfig) :
    result ConfigError () :=
  _ ← collect_results (check_reference economics) contracts; Ok ().

Definition canonical_non_empty {A} `{EqDecision A, Ord A} (values : list A) (error : ConfigError) : result ConfigError (list A) :=
  let values := btree_set values in
  reject bool_decide (values = []) with error;;
  Ok values.

(** ** The canonical semantics *)

Definition append_charge (c : ChargeConfig) (include_basis : bool) : Writer.Writer :=
  (if include_basis then push (basis_byte (basis c)) else extend []) ▷ append_decimal (rate c) ▷ push (sides_byte (applicable_sides c)) ▷
  append_decimal (minimum c) ▷ push (precision c) ▷ push (rounding_byte (rounding c)) ▷ append_bytes (as_bytes (provenance c)).
Definition append_date (d : TradingDate.TradingDate) : Writer.Writer := extend (TradingDate.to_canonical_bytes d).
Definition append_flag (b : bool) : Writer.Writer := push (if b then 1 else 0).
Definition append_list {A} (w : A → Writer.Writer) (l : list A) : Writer.Writer := append_length (zlen l) ▷ each w l.

Definition append_day_trade (d : DayTradeTaxConfig) : Writer.Writer :=
  append_charge (charge d) true ▷ push (matching_byte (matching d)) ▷ extend (be_bytes 4 (timezone_offset_minutes d)) ▷
  append_list append_date (eligible_dates d) ▷ append_flag (eligibility_required d) ▷ append_date (valid_through d) ▷
  append_bytes (as_bytes (day_trade_provenance d)).
Definition append_instrument_charges (c : InstrumentChargeConfig) : Writer.Writer :=
  StateCanonical.append_instrument (charged c) ▷ append_charge (fee c) true ▷ append_charge (tax c) true ▷
  Requests.append_option append_day_trade (day_trade_tax c).
Definition append_scheduled (s : ScheduledExecutionConfig) : Writer.Writer := push (depth_levels s) ▷ extend (be_bytes 8 (max_stale_ms s)).
Definition append_slippage (s : SlippageModelConfig) : Writer.Writer :=
  match s with AdverseFixedDelta delta => push 1 ▷ append_decimal delta end.
Definition append_marking (m : MarkingPolicyConfig) : Writer.Writer :=
  match m with LastObservableV1 fallback => push 1 ▷ append_flag fallback end.
Definition append_extended (c : SimulationConfig) : Writer.Writer :=
  push (execution_byte (execution_policy c)) ▷ Requests.append_option append_scheduled (scheduled_execution c) ▷
  append_list append_instrument_charges (instrument_charges c).
Definition append_simulation (c : SimulationConfig) (extended : bool) : Writer.Writer :=
  push (evidence_byte (evidence (fill_model c))) ▷ push (quantity_byte (quantity (fill_model c))) ▷
  extend (be_bytes 8 (market_data_latency_ms (latency c))) ▷ extend (be_bytes 8 (order_latency_ms (latency c))) ▷
  push (allocation_byte (quantity_allocation c)) ▷ append_slippage (slippage_model c) ▷
  append_charge (fee_model c) extended ▷ append_charge (tax_model c) extended ▷
  (if extended then append_extended c else extend []) ▷
  push (currency_byte (currency (initial_cash c))) ▷ append_decimal (amount (initial_cash c)) ▷
  push (accounting_byte (position_accounting c)) ▷ append_marking (marking_policy c).

Definition append_economics (e : InstrumentEconomicsConfig) : Writer.Writer :=
  StateCanonical.append_instrument (priced e) ▷ push (Quantity.discriminant (quantity_unit e)) ▷
  extend (be_bytes 8 (units_per_trading_unit e)) ▷ push (currency_byte (economics_currency e)) ▷ append_decimal (multiplier e) ▷
  append_bytes (as_bytes (economics_provenance e)).
Definition append_reference (r : InstrumentReferenceConfig) : Writer.Writer :=
  append_bytes (as_bytes (underlying r)) ▷ append_date (expiry r) ▷ append_decimal (strike r) ▷
  push (option_side_discriminant (option_side r)) ▷ push (currency_byte (reference_currency r)) ▷
  append_decimal (reference_multiplier r) ▷ push (Quantity.discriminant (reference_unit r)) ▷ extend (be_bytes 8 (reference_units r)) ▷
  append_bytes (as_bytes (reference_provenance r)).
Definition shape_byte (s : option ContractShape) : Z := match s with None => 0 | Some s => shape_discriminant s end.
Definition append_instrument_contract (c : InstrumentContractConfig) : Writer.Writer :=
  StateCanonical.append_instrument (contracted c) ▷ push (class_discriminant (class c)) ▷ push (shape_byte (shape c)) ▷
  push (Sessions.profile_discriminant (session_profile c)) ▷ push (price_policy_discriminant (price_policy c)) ▷
  Requests.append_option append_reference (reference c).

Definition encode_semantics (c : EffectiveRunConfig) : Writer.Writer :=
  extend (bytes_of "OSECFG01") ▷ extend (be_bytes 2 EFFECTIVE_CONFIG_VERSION) ▷ extend (be_bytes 2 CONFIG_SCHEMA_VERSION) ▷
  extend (be_bytes 2 SOURCE_POLICY_VERSION) ▷ extend (be_bytes 2 CACHE_POLICY_VERSION) ▷ extend (be_bytes 2 REPLAY_DATA_POLICY_VERSION) ▷
  append_bytes (source_bytes (source c)) ▷ append_list append_date (trading_dates c) ▷
  append_list StateCanonical.append_instrument (universe c) ▷ append_list append_instrument_contract (instrument_contracts c) ▷
  append_list append_session (session_kinds c) ▷
  append_strategy_identity (strategy_identity (strategy c)) (params_checksum (strategy c)) ▷
  push (source_policy_byte (source_policy c)) ▷ push (cache_policy_byte (cache_policy c)) ▷
  push (replay_policy_byte (replay_data_policy c)) ▷ append_simulation (simulation c) true ▷
  append_list append_economics (instrument_economics c) ▷ push (output_policy_byte (output_policy c)).

(** ** Resolution *)

(** Everything [resolve] decides before it encodes. *)
Definition validate_run (c : RunConfig) : result ConfigError EffectiveRunConfig :=
  reject negb (config_version c =? CONFIG_SCHEMA_VERSION) with UnsupportedConfigVersion (config_version c);;
  reject bool_decide (run_data_root c = []) with EmptyDataRoot;;
  trading_dates ← canonical_non_empty (run_trading_dates c) EmptyDates;
  universe ← canonical_non_empty (run_universe c) EmptyUniverse;
  contracts ← validate_instrument_contracts (run_instrument_contracts c) universe;
  kinds ← canonical_non_empty (run_session_kinds c) EmptySessions;
  reject negb (bool_decide (Output.universe (declaration (run_strategy c)) = universe)) with StrategyUniverseMismatch;;
  reject negb (bool_decide (Output.sessions (declaration (run_strategy c)) = kinds)) with StrategySessionsMismatch;;
  let source_policy := default StrictSource (run_source_policy c) in
  let cache_policy := default ReuseOrRebuild (run_cache_policy c) in
  let replay_policy := default StrictReplay (run_replay_data_policy c) in
  reject negb (Bool.eqb (bool_decide (source_policy = DegradedSource)) (bool_decide (replay_policy = DegradedReplay)))
    with DegradedPolicyMismatch;;
  let output_policy := default CreateNew (run_output_policy c) in
  _ ← validate_simulation (run_simulation c);
  simulation ← validate_instrument_charges (run_simulation c) universe trading_dates;
  economics ← validate_economics (run_instrument_economics c) universe;
  _ ← validate_reference_economics contracts economics;
  Ok (mk_effective (run_source c) trading_dates universe contracts kinds (run_strategy c) (run_data_root c) source_policy cache_policy
        replay_policy simulation economics output_policy [] (replicate 32 0)).

Definition resolve {B : Event.Blake3} (c : RunConfig) : result ConfigError EffectiveRunConfig :=
  e ← validate_run c;
  canonical ← map_err (λ _, CanonicalLengthOverflow) (encode_semantics e []);
  Ok (mk_effective (source e) (trading_dates e) (universe e) (instrument_contracts e) (session_kinds e) (strategy e) (data_root e)
        (source_policy e) (cache_policy e) (replay_data_policy e) (simulation e) (instrument_economics e) (output_policy e)
        canonical (Event.blake3 canonical)).

Definition contract_for (c : EffectiveRunConfig) (i : Instrument.InstrumentId) : option InstrumentContractConfig :=
  List.find (λ k, bool_decide (contracted k = i)) (instrument_contracts c).

End Config.
