(* ===== verification/ConfigLaws.v ===== *)
(** What a resolved configuration promises: its validated canonical form, its
    independence of the order of the request, and its stability. *)
From S2P Require Import Prelude Order Text Numeric Quantity Calendar Book Identity Codec Values Event MarketState Orders Requests StateCanonical Accounting Output OrderedSets Framing Framed Sessions SessionsLaws Partition Config.

Module ConfigLaws.
Import InstrumentClass Config.Config Output.Output(btree_set) OrderedSets.OrderedSets.

(** ** Lists *)

Lemma canonical_non_empty_Ok {A} `{EqDecision A, Ord A, !OrdLaws A} (values l : list A) error :
  canonical_non_empty values error = Ok l ↔ l = btree_set values ∧ values ≠ [].
Proof.
  unfold canonical_non_empty. pose proof (btree_set_nil values) as Hn. case_bool_decide as E; [rewrite Hn in E|rewrite Hn in E].
  - split; [done|]. by intros [_ ?].
  - split; [by intros [= <-]|]. by intros [-> _].
Qed.

Lemma windows2_cons {A} (x y : A) l : windows2 (x :: y :: l) = (x, y) :: windows2 (y :: l).
Proof. done. Qed.

(** [windows(2).find]: no pair of neighbours has the property. *)
Lemma find_none {A} (f : A → bool) l : List.find f l = None ↔ existsb f l = false.
Proof.
  induction l as [|x l IH]; simpl; [done|]. destruct (f x); [done|]. done.
Qed.

(** ** Economics *)

Definition economics_ok (universe : list Instrument.InstrumentId) (e : InstrumentEconomicsConfig) : Prop :=
  priced e ∈ universe ∧ valid_economics_terms (quantity_unit e) (units_per_trading_unit e) (multiplier e) (economics_provenance e) = true.

Definition insert_priced (m : gmap Instrument.InstrumentId InstrumentEconomicsConfig) (e : InstrumentEconomicsConfig) :=
  <[priced e := e]> m.

Lemma fresh_insert (m : gmap Instrument.InstrumentId InstrumentEconomicsConfig) e (values : list InstrumentEconomicsConfig) :
  (∀ x, x ∈ values → (insert_priced m e) !! priced x = None) ↔ (priced e ∉ (priced <$> values)) ∧ (∀ x, x ∈ values → m !! priced x = None).
Proof.
  unfold insert_priced. split.
  - intros H. split.
    + intros (x & Ex & Hx)%list_elem_of_fmap. specialize (H x Hx). by rewrite <-Ex, lookup_insert_eq in H.
    + intros x Hx. specialize (H x Hx). destruct (decide (priced e = priced x)) as [Ex|]; [by rewrite Ex, lookup_insert_eq in H|].
      by rewrite lookup_insert_ne in H.
  - intros [Hnin H] x Hx. rewrite lookup_insert_ne; [by apply H|]. intros Ex. apply Hnin. rewrite Ex. by apply list_elem_of_fmap_2.
Qed.

Lemma insert_economics_fold universe (values : list InstrumentEconomicsConfig) m m' :
  try_fold (insert_economics universe) m values = Ok m' ↔
  (∀ e, e ∈ values → economics_ok universe e) ∧ NoDup (priced <$> values) ∧ (∀ e, e ∈ values → m !! priced e = None) ∧
  m' = foldl insert_priced m values.
Proof.
  revert m. induction values as [|e values IH]; intros m; cbn [try_fold foldl].
  - split; [intros [= <-]|by intros (_ & _ & _ & ->)]. split; [set_solver|]. split; [apply NoDup_nil_2|]. split; [set_solver|done].
  - rewrite bind_Ok. setoid_rewrite IH. setoid_rewrite elem_of_cons. rewrite fmap_cons, list.NoDup_cons. unfold insert_economics. split.
    + intros (m1 & Hs & Hok & Hn & Hnone & ->). case_bool_decide as Hu; [|done]. destruct (valid_economics_terms _ _ _ _) eqn:Hv; [|done].
      destruct (m !! priced e) eqn:He; [done|]. injection Hs as <-. apply fresh_insert in Hnone as [Hnin Hnone].
      split; [intros x [->|Hx]; [done|by apply Hok]|]. split; [done|]. split; [intros x [->|Hx]; [done|by apply Hnone]|done].
    + intros (Hok & (Hnin & Hn) & Hnone & ->). exists (insert_priced m e). destruct (Hok e) as [Hu Hv]; [by left|].
      rewrite bool_decide_true, Hv, (Hnone e) by (done || by left). split; [done|].
      split; [intros x Hx; apply Hok; by right|]. split; [done|]. split; [|done]. apply fresh_insert. split; [done|]. intros x Hx. apply Hnone. by right.
Qed.

Lemma foldl_insert_priced (values : list InstrumentEconomicsConfig) i e : NoDup (priced <$> values) →
  (foldl insert_priced ∅ values) !! i = Some e ↔ e ∈ values ∧ priced e = i.
Proof.
  intros Hn. assert (Hf : ∀ m, foldl insert_priced m values = foldl (λ m '(i, v), <[i := v]> m) m ((λ e, (priced e, e)) <$> values)).
  { clear Hn. induction values as [|x values IH]; intros m; [done|]. apply IH. }
  assert (Hk : ((λ e, (priced e, e)) <$> values).*1 = priced <$> values) by (by rewrite <-list_fmap_compose).
  rewrite Hf, foldl_insert_map by by rewrite Hk. rewrite (right_id_L ∅ (∪)), <-elem_of_list_to_map by by rewrite Hk.
  rewrite list_elem_of_fmap. naive_solver.
Qed.

Lemma keyed_btree_values (m : gmap Instrument.InstrumentId InstrumentEconomicsConfig) : (∀ i e, m !! i = Some e → priced e = i) → keyed priced (btree_values m).
Proof.
  intros Hm. unfold keyed. assert (priced <$> btree_values m = btree_keys m) as ->.
  { unfold btree_values, btree_keys. rewrite <-list_fmap_compose. apply list_fmap_ext. intros n [i e] Hn. simpl. apply Hm.
    by eapply elem_of_btree_entries, list_elem_of_lookup_2. }
  pose proof (keyed_sort_on (A:=Instrument.InstrumentId * InstrumentEconomicsConfig) fst (map_to_list m)) as [H _].
  apply H, NoDup_fst_map_to_list.
Qed.

(** The economics of a run are the given ones sorted by instrument: one for
    each instrument of the universe and no other, with sound terms. *)
Lemma validate_economics_Ok (values : list InstrumentEconomicsConfig) universe l : StronglySorted ord_lt universe →
  validate_economics values universe = Ok l ↔
  (∀ e, e ∈ values → economics_ok universe e) ∧ NoDup (priced <$> values) ∧ l = sort_on priced values ∧ priced <$> l = universe.
Proof.
  intros Hu. unfold validate_economics. rewrite bind_Ok. setoid_rewrite insert_economics_fold. split.
  - intros (m & (Hok & Hn & _ & ->) & H). do 2 (split; [done|]). destruct (List.find _ universe) as [i|] eqn:Ef; [done|]. injection H as <-.
    rewrite find_none, existsb_false in Ef.
    assert (Hkm : ∀ i e, (foldl insert_priced ∅ values) !! i = Some e → priced e = i) by (intros i e; rewrite foldl_insert_priced by done; by intros [_ ?]).
    assert (Hel : ∀ e, e ∈ btree_values (foldl insert_priced ∅ values) ↔ e ∈ values).
    { intros e. rewrite elem_of_btree_values. setoid_rewrite foldl_insert_priced; [|done]. naive_solver. }
    pose proof (keyed_btree_values _ Hkm) as Hk. split.
    + apply (keyed_unique priced); [done|by apply (proj1 (keyed_sort_on priced values))|]. intros e. by rewrite Hel, elem_of_sort_on.
    + apply (keyed_unique id); [unfold keyed; rewrite list_fmap_id; exact Hk|unfold keyed; rewrite list_fmap_id; exact Hu|]. intros i. rewrite list_elem_of_fmap. split.
      * intros (e & -> & He%Hel). by apply Hok.
      * intros Hi. specialize (Ef i Hi). apply bool_decide_eq_false in Ef. destruct (_ !! i) as [e|] eqn:Ee; [|done].
        exists e. split; [symmetry; by apply Hkm|]. apply foldl_insert_priced in Ee; [|done]. apply Hel. by destruct Ee.
  - intros (Hok & Hn & -> & Hl). eexists. split; [split; [done|split; [done|split; [set_solver|done]]]|].
    assert (List.find (λ i, bool_decide ((foldl insert_priced ∅ values) !! i = None)) universe = None) as ->.
    { apply find_none, existsb_false. intros i Hi. apply bool_decide_eq_false. rewrite <-Hl in Hi. apply list_elem_of_fmap in Hi as (e & -> & He).
      rewrite elem_of_sort_on in He. assert ((foldl insert_priced ∅ values) !! priced e = Some e) as -> by by apply foldl_insert_priced. done. }
    f_equal. apply (keyed_unique priced); [|by apply (proj1 (keyed_sort_on priced values))|].
    + apply keyed_btree_values. intros i e. rewrite foldl_insert_priced by done. by intros [_ ?].
    + intros e. rewrite elem_of_btree_values, elem_of_sort_on. setoid_rewrite foldl_insert_priced; [|done]. naive_solver.
Qed.

(** ** Charges *)

(** Charges are sorted by instrument, one for each, and each is validated. *)
Lemma validate_instrument_charges_Ok s universe dates s' :
  validate_instrument_charges s universe dates = Ok s' ↔
  NoDup (charged <$> instrument_charges s) ∧ (∀ c, c ∈ instrument_charges s → validate_entry universe dates c = Ok ()) ∧
  s' = with_instrument_charges s (sort_on charged (instrument_charges s)).
Proof.
  unfold validate_instrument_charges. rewrite <-repeats_key_perm. unfold repeats_key. rewrite <-find_none.
  destruct (List.find _ _) as [[a b]|]; [split; [done|by intros (? & _)]|]. rewrite bind_Ok. split.
  - intros (us & Hus & [= <-]). split; [done|]. split; [|done]. intros c Hc. apply (collect_unit _ _ _ Hus). by apply elem_of_sort_on.
  - intros (_ & Hall & ->). destruct (collect_unit_all (validate_entry universe dates) (sort_on charged (instrument_charges s))) as [us Hus].
    + intros c Hc. apply Hall. by apply elem_of_sort_on in Hc.
    + by exists us.
Qed.

(** ** Contracts *)

(** Neighbours for one instrument that differ. *)
Definition conflicting : InstrumentContractConfig * InstrumentContractConfig → bool :=
  λ '(a, b), bool_decide (contracted a = contracted b) && negb (bool_decide (a = b)).

Lemma dedup_head c l : ∃ k, dedup_contracts (c :: l) = c :: k.
Proof. simpl. destruct (dedup_contracts l) as [|d k]; [eauto|]. case_bool_decide; eauto. Qed.

Lemma dedup_keyed l : StronglySorted (key_le contracted) l → existsb conflicting (windows2 l) = false →
  keyed contracted (dedup_contracts l) ∧ ∀ c, c ∈ dedup_contracts l ↔ c ∈ l.
Proof.
  rewrite keyed_lt. induction l as [|c [|d l] IH]; intros Hs Hw; [by split; [constructor|]|by split; [repeat constructor|]|].
  inversion_clear Hs as [|? ? Hs' Hx]. rewrite windows2_cons in Hw. apply orb_false_iff in Hw as [Hcd Hw].
  destruct (IH Hs' Hw) as [IHk IHe]. clear IH. destruct (dedup_head d l) as [k Hk].
  change (dedup_contracts (c :: d :: l)) with (match dedup_contracts (d :: l) with [] => [c]
    | d :: k => if bool_decide (contracted d = contracted c) then c :: k else c :: d :: k end).
  rewrite Hk in *. case_bool_decide as E.
  - simpl in Hcd. rewrite bool_decide_true in Hcd by done. simpl in Hcd. apply negb_false_iff, bool_decide_eq_true in Hcd as <-.
    split; [done|]. intros x. rewrite IHe. set_solver.
  - split; [|intros x; rewrite !(elem_of_cons _ x c), <-IHe; done]. constructor; [done|].
    assert (Hlt : key_lt contracted c d) by (inversion_clear Hx as [|? ? Hle _]; by apply key_le_lt_eq).
    constructor; [done|]. inversion_clear IHk as [|? ? _ Hd]. eapply Forall_impl; [|exact Hd].
    intros w Hw'. unfold key_lt in *. by eapply cmp_lt_trans.
Qed.

Lemma no_conflict l : (∀ a b, a ∈ l → b ∈ l → contracted a = contracted b → a = b) → existsb conflicting (windows2 l) = false.
Proof.
  intros H. apply existsb_false. intros [a b] Hin. unfold windows2 in Hin.
  assert (a ∈ l ∧ b ∈ l) as [Ha Hb].
  { apply list_elem_of_lookup_1 in Hin as [n Hn]. apply lookup_zip_with_Some in Hn as (x & y & [= -> ->] & Hx & Hy).
    split; [by eapply list_elem_of_lookup_2|]. destruct l as [|z l]; [done|]. right. by eapply list_elem_of_lookup_2. }
  simpl. case_bool_decide as E; [|done]. simpl. apply negb_false_iff, bool_decide_eq_true. by apply H.
Qed.

Lemma invalid_contract_None universe p l : invalid_contract universe p l = None → ∀ c, c ∈ l → contract_valid universe c = true.
Proof.
  revert p. induction l as [|d l IH]; intros p; cbn [invalid_contract]; [set_solver|]. destruct (contract_valid universe d) eqn:Hd; [|done]. simpl.
  destruct (match p with Some p => _ | None => false end); [done|]. intros H c [->|Hc]%elem_of_cons; [done|]. by apply (IH (Some d)).
Qed.
Lemma invalid_contract_keyed universe p l : StronglySorted (key_lt contracted) (option_list p ++ l) →
  (∀ c, c ∈ l → contract_valid universe c = true) → invalid_contract universe p l = None.
Proof.
  revert p. induction l as [|d l IH]; intros p Hs Hv; cbn [invalid_contract]; [done|]. rewrite (Hv d) by by left. simpl.
  assert (match p with Some p => bool_decide (contracted p = contracted d) | None => false end = false) as ->.
  { destruct p as [p|]; [|done]. apply bool_decide_eq_false. intros E. inversion_clear Hs as [|? ? _ Hp]. inversion_clear Hp as [|? ? Hpd _].
    unfold key_lt in Hpd. rewrite E in Hpd. by apply ord_lt_irrefl in Hpd. }
  apply IH; [|intros c Hc; apply Hv; by right]. destruct p as [p|]; [by inversion_clear Hs|done].
Qed.

(** The contracts of a run are the given ones, sorted and without
    repetitions: one valid contract for each instrument of the universe. *)
Lemma validate_instrument_contracts_Ok (contracts : list InstrumentContractConfig) universe l : StronglySorted ord_lt universe →
  validate_instrument_contracts contracts universe = Ok l ↔
  contracted <$> l = universe ∧ (∀ c, c ∈ contracts ↔ c ∈ l) ∧ (∀ c, c ∈ l → contract_valid universe c = true).
Proof.
  intros Hu. unfold validate_instrument_contracts. set (s := sort_on contracted contracts).
  assert (Hs : StronglySorted (key_le contracted) s) by apply sort_on_sorted.
  assert (Hes : ∀ c, c ∈ s ↔ c ∈ contracts) by (intros c; apply elem_of_sort_on). fold conflicting. split.
  - destruct (List.find _ _) as [[a b]|] eqn:Ef; [done|]. apply find_none in Ef. destruct (dedup_keyed s Hs Ef) as [Hk He].
    destruct (length _ =? length universe)%nat; [|done]. destruct (invalid_contract _ _ _) eqn:Ei; [done|].
    destruct (forallb _ universe) eqn:Ea; [|done]. intros [= <-]. split; [|split; [|by eapply invalid_contract_None]].
    + apply (keyed_unique id); [unfold keyed; rewrite list_fmap_id; exact Hk|unfold keyed; rewrite list_fmap_id; exact Hu|].
      intros i. rewrite list_elem_of_fmap. split.
      * intros (c & -> & Hc). pose proof (invalid_contract_None _ _ _ Ei c Hc) as Hv. unfold contract_valid in Hv.
        apply andb_prop in Hv as [Hv _]. do 3 (apply andb_prop in Hv as [Hv _]). by apply bool_decide_eq_true in Hv.
      * intros Hi. rewrite forallb_forall in Ea. apply list_elem_of_In, Ea, existsb_exists in Hi as (c & Hc & E).
        apply bool_decide_eq_true in E. exists c. split; [done|]. by apply list_elem_of_In.
    + intros c. by rewrite He, Hes.
  - intros (Hl & Hel & Hv). assert (Hk : keyed contracted l) by (unfold keyed; by rewrite Hl).
    assert (Ec : existsb conflicting (windows2 s) = false).
    { apply no_conflict. intros a b. rewrite !Hes, !Hel. by apply keyed_inj. }
    rewrite (proj2 (find_none _ _) Ec). destruct (dedup_keyed s Hs Ec) as [Hk' He].
    assert (dedup_contracts s = l) as -> by (apply (keyed_unique contracted); [done..|]; intros c; by rewrite He, Hes, Hel).
    rewrite <-Hl at 1. rewrite length_fmap, Nat.eqb_refl. simpl. rewrite invalid_contract_keyed; [|by apply keyed_lt|done].
    assert (forallb (λ i, existsb (λ c, bool_decide (contracted c = i)) l) universe = true) as ->; [|done].
    apply forallb_forall. intros i Hi. apply list_elem_of_In in Hi. rewrite <-Hl in Hi. apply list_elem_of_fmap in Hi as (c & -> & Hc).
    apply existsb_exists. exists c. split; [by apply list_elem_of_In|]. by apply bool_decide_eq_true.
Qed.

(** The terms of a contract's reference are those the run is priced with. *)
Definition reference_agrees (economics : list InstrumentEconomicsConfig) (c : InstrumentContractConfig) : Prop :=
  ∀ r, reference c = Some r → ∃ e, e ∈ economics ∧ priced e = contracted c ∧ quantity_unit e = reference_unit r ∧
    units_per_trading_unit e = reference_units r ∧ economics_currency e = reference_currency r ∧ multiplier e = reference_multiplier r.

Lemma find_keyed {A} (key : A → Instrument.InstrumentId) l x : keyed key l → x ∈ l → List.find (λ y, bool_decide (key y = key x)) l = Some x.
Proof.
  intros Hk Hx. destruct (List.find _ l) as [y|] eqn:E.
  - apply List.find_some in E as [Hy E]. apply bool_decide_eq_true in E. f_equal. apply (keyed_inj key l); [done| |done..]. by apply list_elem_of_In.
  - rewrite find_none, existsb_false in E. specialize (E x Hx). by rewrite bool_decide_true in E.
Qed.

Lemma not_different {A} `{EqDecision A} (x y : A) : bool_decide (x ≠ y) = false → x = y.
Proof. intros H%bool_decide_eq_false. by destruct (decide (x = y)). Qed.

Lemma not_not_gt a b : bool_decide (cmp a b ≠ Gt) = false → Decimal.atoms b < Decimal.atoms a.
Proof.
  rewrite bool_decide_eq_false. change (cmp a b) with (Z.compare (Decimal.atoms a) (Decimal.atoms b)).
  rewrite Z.compare_ngt_iff. lia.
Qed.

Lemma check_reference_Ok economics c : keyed priced economics → check_reference economics c = Ok () ↔ reference_agrees economics c.
Proof.
  intros Hk. unfold check_reference, reference_agrees. destruct (reference c) as [r|]; [|naive_solver]. split.
  - destruct (List.find _ _) as [e|] eqn:E; [|done]. apply List.find_some in E as [He E]. apply bool_decide_eq_true in E. apply list_elem_of_In in He.
    destruct (_ || _) eqn:Et; [done|]. intros _ r' [= <-]. exists e. apply orb_false_iff in Et as [[[H1 H2]%orb_false_iff H3]%orb_false_iff H4].
    apply not_different in H1, H3, H4. apply negb_false_iff, Z.eqb_eq in H2. done.
  - intros H. destruct (H r eq_refl) as (e & He & Ep & H1 & H2 & H3 & H4). rewrite <-Ep, find_keyed by done.
    rewrite !bool_decide_false, H2, Z.eqb_refl by (intros Hn; by apply Hn). done.
Qed.

Lemma validate_reference_economics_Ok contracts economics : keyed priced economics →
  validate_reference_economics contracts economics = Ok () ↔ ∀ c, c ∈ contracts → reference_agrees economics c.
Proof.
  intros Hk. unfold validate_reference_economics. rewrite bind_Ok. split.
  - intros (us & Hus & _) c Hc. apply check_reference_Ok; [done|]. by apply (collect_unit _ _ _ Hus).
  - intros H. destruct (collect_unit_all (check_reference economics) contracts) as [us Hus]; [|by exists us].
    intros c Hc. by apply check_reference_Ok, H.
Qed.

(** ** The canonical form *)

(** What every resolved configuration satisfies. *)
Record normal (e : EffectiveRunConfig) : Prop := {
  normal_root : data_root e ≠ [];
  normal_dates : trading_dates e ≠ [] ∧ StronglySorted ord_lt (trading_dates e);
  normal_universe : universe e ≠ [] ∧ StronglySorted ord_lt (universe e);
  normal_kinds : session_kinds e ≠ [] ∧ StronglySorted ord_lt (session_kinds e);
  normal_declared : Output.universe (declaration (strategy e)) = universe e ∧ Output.sessions (declaration (strategy e)) = session_kinds e;
  normal_policies : source_policy e = DegradedSource ↔ replay_data_policy e = DegradedReplay;
  normal_contracts : contracted <$> instrument_contracts e = universe e ∧
    ∀ c, c ∈ instrument_contracts e → contract_valid (universe e) c = true ∧ reference_agrees (instrument_economics e) c;
  normal_economics : priced <$> instrument_economics e = universe e ∧
    ∀ x, x ∈ instrument_economics e → economics_ok (universe e) x;
  normal_charges : keyed charged (instrument_charges (simulation e)) ∧
    ∀ c, c ∈ instrument_charges (simulation e) → validate_entry (universe e) (trading_dates e) c = Ok ();
  normal_simulation : validate_simulation (simulation e) = Ok () }.

(** The configuration has the parts of the request, whatever order and
    repetitions the request had, and the defaults of its absent policies. *)
Record represents (c : RunConfig) (e : EffectiveRunConfig) : Prop := {
  same_version : config_version c = CONFIG_SCHEMA_VERSION;
  same_source : run_source c = source e;
  same_dates : ∀ d, d ∈ run_trading_dates c ↔ d ∈ trading_dates e;
  same_universe : ∀ i, i ∈ run_universe c ↔ i ∈ universe e;
  same_contracts : ∀ k, k ∈ run_instrument_contracts c ↔ k ∈ instrument_contracts e;
  same_kinds : ∀ k, k ∈ run_session_kinds c ↔ k ∈ session_kinds e;
  same_strategy : run_strategy c = strategy e;
  same_root : run_data_root c = data_root e;
  same_policies : default StrictSource (run_source_policy c) = source_policy e ∧ default ReuseOrRebuild (run_cache_policy c) = cache_policy e ∧
    default StrictReplay (run_replay_data_policy c) = replay_data_policy e ∧ default CreateNew (run_output_policy c) = output_policy e;
  same_simulation : simulation e = with_instrument_charges (run_simulation c) (instrument_charges (simulation e));
  same_charges : instrument_charges (run_simulation c) ≡ₚ instrument_charges (simulation e);
  same_economics : run_instrument_economics c ≡ₚ instrument_economics e }.

Lemma set_eq_sorted {A} `{EqDecision A, Ord A, !OrdLaws A} (values l : list A) : l = btree_set values ↔ StronglySorted ord_lt l ∧ ∀ x, x ∈ values ↔ x ∈ l.
Proof.
  split.
  - intros ->. split; [apply btree_set_sorted|]. intros x. by rewrite elem_of_btree_set.
  - intros [Hs He]. rewrite <-(btree_set_id l) at 1 by done. apply btree_set_ext. intros x. by rewrite He.
Qed.

Lemma sort_on_keyed_perm {A} (key : A → Instrument.InstrumentId) (l k : list A) : NoDup (key <$> l) ∧ k = sort_on key l ↔ keyed key k ∧ l ≡ₚ k.
Proof.
  split.
  - intros [Hn ->]. split; [by apply (proj1 (keyed_sort_on key l))|]. by rewrite sort_on_perm.
  - intros [Hk Hp]. assert (Hn : NoDup (key <$> l)) by (rewrite Hp; exact (keyed_NoDup key k Hk)). split; [done|].
    apply (keyed_unique key); [done|by apply (proj1 (keyed_sort_on key l))|]. intros x. by rewrite elem_of_sort_on, Hp.
Qed.

Lemma simulation_ignores_charges s l : validate_simulation (with_instrument_charges s l) = validate_simulation s.
Proof. done. Qed.

Lemma nonempty_iff {A} (l k : list A) : (∀ x, x ∈ l ↔ x ∈ k) → l ≠ [] ↔ k ≠ [].
Proof.
  intros H. destruct l as [|x l], k as [|y k]; try done.
  - exfalso. apply (not_elem_of_nil (A:=A) y), H. by left.
  - exfalso. apply (not_elem_of_nil (A:=A) x), H. by left.
Qed.

Lemma policies_agree p q : Bool.eqb (bool_decide (p = DegradedSource)) (bool_decide (q = DegradedReplay)) = true ↔ (p = DegradedSource ↔ q = DegradedReplay).
Proof. destruct p, q; simpl; naive_solver. Qed.

Lemma validate_run_normal c e : validate_run c = Ok e →
  represents c e ∧ normal e ∧ canonical_semantics e = [] ∧ checksum e = replicate 32 0.
Proof.
  unfold validate_run. intros H.
  destruct (config_version c =? CONFIG_SCHEMA_VERSION) eqn:Ev; [|done]. apply Z.eqb_eq in Ev. cbn [negb] in H.
  case_bool_decide as Er; [done|].
  apply bind_Ok in H as (dates & [Hd Hdn]%canonical_non_empty_Ok & H). apply bind_Ok in H as (u & [Hu Hun]%canonical_non_empty_Ok & H).
  apply set_eq_sorted in Hd as [Hds Hde], Hu as [Hus Hue].
  apply bind_Ok in H as (ks & Hc%validate_instrument_contracts_Ok & H); [|done].
  apply bind_Ok in H as (kinds & [Hk Hkn]%canonical_non_empty_Ok & H). apply set_eq_sorted in Hk as [Hks Hke].
  case_bool_decide as Hdu; [|done]. cbn [negb] in H. case_bool_decide as Hdk; [|done]. cbn [negb] in H.
  destruct (Bool.eqb _ _) eqn:Ep; [|done]. cbn [negb] in H. apply policies_agree in Ep.
  apply bind_Ok in H as ([] & Hsim & H). apply bind_Ok in H as (s & (Hcn & Hcv & Hcs)%validate_instrument_charges_Ok & H).
  apply bind_Ok in H as (es & (Heo & Hen & Hes & Heu)%validate_economics_Ok & H); [|done].
  assert (Hek : keyed priced es) by (unfold keyed; by rewrite Heu).
  apply bind_Ok in H as ([] & Hr & H). rewrite validate_reference_economics_Ok in Hr by done. injection H as <-.
  destruct (proj1 (sort_on_keyed_perm charged _ (sort_on charged (instrument_charges (run_simulation c)))) (conj Hcn eq_refl)) as [Hck Hcp].
  split; [|split; [|done]].
  - constructor; simpl; try done; [by intros k; apply Hc|by rewrite Hcs|by rewrite Hcs|]. rewrite Hes. by rewrite sort_on_perm.
  - destruct Hc as (Hcu & Hce & Hcval). constructor; simpl; try done.
    + split; [|done]. by apply (nonempty_iff _ _ Hde).
    + split; [|done]. by apply (nonempty_iff _ _ Hue).
    + split; [|done]. by apply (nonempty_iff _ _ Hke).
    + split; [done|]. intros k Hin. split; [by apply Hcval|by apply Hr].
    + split; [done|]. intros x. rewrite Hes, elem_of_sort_on. apply Heo.
    + rewrite Hcs. simpl. split; [done|]. intros x. rewrite elem_of_sort_on. apply Hcv.
    + by rewrite Hcs.
Qed.

Lemma normal_validate_run c e : represents c e → normal e →
  validate_run c = Ok (mk_effective (source e) (trading_dates e) (universe e) (instrument_contracts e) (session_kinds e) (strategy e)
    (data_root e) (source_policy e) (cache_policy e) (replay_data_policy e) (simulation e) (instrument_economics e) (output_policy e)
    [] (replicate 32 0)).
Proof.
  intros [Rv Rs Rd Ru Rc Rk Rst Rr (Rp1 & Rp2 & Rp3 & Rp4) Rsim Rch Re] [Nr [Nd Nds] [Nu Nus] [Nk Nks] [Ndu Ndk] Np [Ncu Nc] [Neu Ne] [Nck Nch] Nsim].
  unfold validate_run. rewrite Rv, Z.eqb_refl, Rr. cbn [negb]. rewrite bool_decide_false by done.
  apply bind_Ok. exists (trading_dates e). split; [apply canonical_non_empty_Ok; split; [by apply set_eq_sorted|by apply (nonempty_iff _ _ Rd)]|].
  apply bind_Ok. exists (universe e). split; [apply canonical_non_empty_Ok; split; [by apply set_eq_sorted|by apply (nonempty_iff _ _ Ru)]|].
  apply bind_Ok. exists (instrument_contracts e). split; [apply validate_instrument_contracts_Ok; [done|]; split; [done|]; split; [done|]; intros k Hk; by apply Nc|].
  apply bind_Ok. exists (session_kinds e). split; [apply canonical_non_empty_Ok; split; [by apply set_eq_sorted|by apply (nonempty_iff _ _ Rk)]|].
  rewrite Rst, Ndu, Ndk, !bool_decide_true by done. cbn [negb]. rewrite Rp1, Rp2, Rp3, Rp4, (proj2 (policies_agree _ _) Np). cbn [negb].
  destruct (proj2 (sort_on_keyed_perm charged _ _) (conj Nck Rch)) as [Hcn Hcs].
  assert (Hek : keyed priced (instrument_economics e)) by (unfold keyed; by rewrite Neu).
  destruct (proj2 (sort_on_keyed_perm priced _ _) (conj Hek Re)) as [Hen Hes].
  apply bind_Ok. exists (). split; [rewrite Rsim in Nsim; exact Nsim|].
  apply bind_Ok. exists (simulation e). split.
  { apply validate_instrument_charges_Ok. split; [done|]. split; [intros x Hx; apply Nch; by rewrite <-Rch|]. by rewrite <-Hcs. }
  apply bind_Ok. exists (instrument_economics e). split.
  { apply validate_economics_Ok; [done|]. split; [intros x Hx; apply Ne; by rewrite <-Re|]. split; [done|]. by rewrite <-Hes. }
  apply bind_Ok. exists (). split; [apply validate_reference_economics_Ok; [done|]; intros k Hk; by apply Nc|by rewrite Rs].
Qed.

Section resolve.
Context {B : Event.Blake3}.

(** Resolving computes the normal configuration that represents the request,
    with the bytes of its semantics and their hash, and fails exactly when
    there is none. *)
Lemma resolve_iff c e : resolve c = Ok e ↔
  represents c e ∧ normal e ∧ encode_semantics e [] = Ok (canonical_semantics e) ∧ checksum e = Event.blake3 (canonical_semantics e).
Proof.
  unfold resolve. rewrite bind_Ok. split.
  - intros (e0 & (Hr & Hn & _ & _)%validate_run_normal & H). apply bind_Ok in H as (canonical & Hc & H). injection H as <-.
    split; [by destruct Hr|]. split; [by destruct Hn|]. simpl. split; [|done].
    change (encode_semantics e0 [] = Ok canonical). by destruct (encode_semantics e0 []); simplify_eq/=.
  - intros (Hr & Hn & Hc & Hs). eexists. split; [by apply normal_validate_run|]. apply bind_Ok. exists (canonical_semantics e). split.
    + change (map_err (λ _, CanonicalLengthOverflow) (encode_semantics e []) = Ok (canonical_semantics e)). by rewrite Hc.
    + destruct e. simpl in *. by rewrite Hs.
Qed.

(** C30: resolving implements its specification: it returns the configuration in
    canonical form that has the parts of the request, with the bytes of its
    semantics and their hash, and fails exactly when there is none. *)
Theorem resolve_refines c e : resolve c = Ok e ↔
  represents c e ∧ normal e ∧ encode_semantics e [] = Ok (canonical_semantics e) ∧ checksum e = Event.blake3 (canonical_semantics e).
Proof. apply resolve_iff. Qed.

(** Requests that name the same things, in any order and with any repetitions
    of dates, instruments, contracts and sessions. *)
Definition same_elements {A} (l k : list A) : Prop := ∀ x, x ∈ l ↔ x ∈ k.
Record same_request (c d : RunConfig) : Prop := {
  request_version : config_version c = config_version d;
  request_source : run_source c = run_source d;
  request_dates : same_elements (run_trading_dates c) (run_trading_dates d);
  request_universe : same_elements (run_universe c) (run_universe d);
  request_contracts : same_elements (run_instrument_contracts c) (run_instrument_contracts d);
  request_kinds : same_elements (run_session_kinds c) (run_session_kinds d);
  request_strategy : run_strategy c = run_strategy d;
  request_root : run_data_root c = run_data_root d;
  request_policies : run_source_policy c = run_source_policy d ∧ run_cache_policy c = run_cache_policy d ∧
    run_replay_data_policy c = run_replay_data_policy d ∧ run_output_policy c = run_output_policy d;
  request_simulation : with_instrument_charges (run_simulation c) [] = with_instrument_charges (run_simulation d) [];
  request_charges : instrument_charges (run_simulation c) ≡ₚ instrument_charges (run_simulation d);
  request_economics : run_instrument_economics c ≡ₚ run_instrument_economics d }.

Lemma represents_same_request c d e : same_request c d → represents c e → represents d e.
Proof.
  intros [V S D U K Ki St Ro (P1 & P2 & P3 & P4) Si Ch Ec] [V' S' D' U' K' Ki' St' Ro' P' Si' Ch' Ec'].
  constructor; try congruence.
  - intros x. by rewrite <-(D x).
  - intros x. by rewrite <-(U x).
  - intros x. by rewrite <-(K x).
  - intros x. by rewrite <-(Ki x).
  - rewrite Si'. exact (f_equal (λ s, with_instrument_charges s (instrument_charges (simulation e))) Si).
  - by rewrite <-Ch.
  - by rewrite <-Ec.
Qed.

(** The order in which a request lists its parts, and repetitions, do not
    matter: the configuration, its bytes and its checksum are the same. *)
Theorem resolve_order_free c d e : same_request c d → resolve c = Ok e → resolve d = Ok e.
Proof. rewrite !resolve_iff. intros Hs (Hr & Hn). split; [by eapply represents_same_request|done]. Qed.

(** A configuration as the request that names all its parts. *)
Definition as_request (e : EffectiveRunConfig) : RunConfig :=
  mk_run_config CONFIG_SCHEMA_VERSION (source e) (trading_dates e) (universe e) (instrument_contracts e) (session_kinds e) (strategy e)
    (data_root e) (Some (source_policy e)) (Some (cache_policy e)) (Some (replay_data_policy e)) (simulation e) (instrument_economics e)
    (Some (output_policy e)).

(** Resolving again what was resolved changes nothing. *)
Theorem resolve_stable c e : resolve c = Ok e → resolve (as_request e) = Ok e.
Proof.
  rewrite !resolve_iff. intros (_ & Hn). split; [|done]. constructor; try done. simpl. by destruct (simulation e).
Qed.

(** The magnitudes a validated simulation has. *)
Definition charge_bounds (c : ChargeConfig) : Prop :=
  0 ≤ Decimal.atoms (rate c) ∧ 0 ≤ Decimal.atoms (minimum c) ∧ precision c ≤ Decimal.DECIMAL_SCALE ∧ provenance c ≠ [].

Lemma cmp_decimal_Lt a b : bool_decide (cmp a b = Lt) = false ↔ Decimal.atoms b ≤ Decimal.atoms a.
Proof. rewrite bool_decide_eq_false. change (cmp a b) with (Z.compare (Decimal.atoms a) (Decimal.atoms b)). rewrite Z.compare_lt_iff. lia. Qed.

Lemma validate_charge_Ok c error : validate_charge c error = Ok () ↔ charge_bounds c.
Proof.
  unfold validate_charge, charge_bounds. destruct (_ || _) eqn:E.
  - split; [done|]. intros (H1 & H2 & H3 & H4). apply orb_true_iff in E as [[[E|E]%orb_true_iff|E]%orb_true_iff|E].
    + by rewrite (proj2 (cmp_decimal_Lt _ Decimal.ZERO)) in E.
    + by rewrite (proj2 (cmp_decimal_Lt _ Decimal.ZERO)) in E.
    + lia.
    + by apply bool_decide_eq_true in E.
  - split; [|done]. intros _. apply orb_false_iff in E as [[[E1%cmp_decimal_Lt E2%cmp_decimal_Lt]%orb_false_iff E3]%orb_false_iff E4%bool_decide_eq_false].
    repeat split; try done. lia.
Qed.

(** A resolved simulation is within its bounds: latencies together fit the
    microseconds of a time, charges are not negative and at most 18 digits
    precise, cash is positive, and the depth is configured exactly when the
    scheduled policy is chosen. *)
Theorem resolved_bounds c e : resolve c = Ok e →
  0 ≤ market_data_latency_ms (latency (simulation e)) → 0 ≤ order_latency_ms (latency (simulation e)) →
  let s := simulation e in
  (market_data_latency_ms (latency s) + order_latency_ms (latency s)) * 1000 ≤ i64_max ∧
  charge_bounds (fee_model s) ∧ charge_bounds (tax_model s) ∧
  (∀ x, x ∈ instrument_charges s → charge_bounds (fee x) ∧ charge_bounds (tax x) ∧
    ∀ d, day_trade_tax x = Some d → charge_bounds (charge d) ∧ Decimal.atoms (rate (charge d)) ≤ Decimal.atoms (rate (tax x)) ∧
      (eligibility_required d = true → ∀ t, t ∈ trading_dates e → is_eligible d t = true)) ∧
  0 < Decimal.atoms (amount (initial_cash s)) ∧
  match scheduled_execution s with
  | None => execution_policy s = SubsequentEventV1
  | Some x => execution_policy s = ScheduledVisibleDepthV1 ∧ 1 ≤ depth_levels x ≤ 5 ∧ 0 < max_stale_ms x
  end.
Proof.
  intros (_ & [_ _ _ _ _ _ _ _ [_ Hch] Hsim] & _)%resolve_iff Hm Ho s. fold s in Hch, Hsim. unfold validate_simulation in Hsim.
  destruct (_ || _) eqn:El; [done|]. destruct (slippage_model s) as [delta].
  destruct (bool_decide (cmp delta Decimal.ZERO = Lt)); [done|].
  apply bind_Ok in Hsim as ([] & Hfee%validate_charge_Ok & Hsim). apply bind_Ok in Hsim as ([] & Htax%validate_charge_Ok & Hsim).
  apply bind_Ok in Hsim as ([] & Hx & Hsim). destruct (_ || _) eqn:Ec in Hsim; [done|].
  split; [|split; [done|split; [done|split; [|split]]]].
  - apply orb_false_iff in El as [_ El]. destruct (to_u64 _) as [v|] eqn:Ev; [|done]. apply checked_Some in Ev as [-> _].
    unfold MAX_LATENCY_MS in El. change (Z.quot i64_max 1000) with 9223372036854775 in El. unfold i64_max. subst s. lia.
  - intros x Hin. specialize (Hch x Hin). unfold validate_entry in Hch. destruct (bool_decide (charged x ∈ universe e)); [|discriminate Hch]. cbn [negb] in Hch.
    apply bind_Ok in Hch as ([] & Hf%validate_charge_Ok & Hch). apply bind_Ok in Hch as ([] & Ht%validate_charge_Ok & Hch).
    do 2 (split; [done|]). intros d Hd. rewrite Hd in Hch. destruct (day_trade_shape x d) eqn:Es; [|done]. cbn [negb] in Hch.
    apply bind_Ok in Hch as ([] & Hc%validate_charge_Ok & Hch). split; [done|]. unfold day_trade_shape in Es.
    do 2 (apply andb_prop in Es as [Es _]). apply andb_prop in Es as [_ Es]. apply negb_true_iff, bool_decide_eq_false in Es. split.
    + change (Z.compare (Decimal.atoms (rate (charge d))) (Decimal.atoms (rate (tax x))) ≠ Gt) in Es. apply Z.compare_ngt_iff in Es. lia.
    + intros Her t Htin. rewrite Her in Hch. destruct (existsb _ _) eqn:Ex; [done|]. rewrite existsb_false in Ex. specialize (Ex t Htin).
      by apply negb_false_iff in Ex.
  - apply orb_false_iff in Ec as [_ Ec]. by apply not_not_gt in Ec.
  - unfold in_range in Hx. destruct (execution_policy s), (scheduled_execution s); try done. split; [done|].
    destruct (_ && _) eqn:Ei in Hx; [|done]. lia.
Qed.
End resolve.

(** ** An instance: one share, its day-trade tax and its economics *)

Definition demo_hash : Event.Blake3 := λ l, be_bytes 32 (from_be l).
Definition demo_share : Instrument.InstrumentId := Instrument.new Market.Twse (Symbol.mk (bytes_of "2330")).
Definition demo_charge (sides : ChargeSides) (rate : Z) : ChargeConfig :=
  new_charge (Decimal.from_atoms rate) sides Decimal.ZERO 0 Down (bytes_of "rules").
Definition demo_dates : list TradingDate.TradingDate := [TradingDate.mk 20654; TradingDate.mk 20655].
Definition demo_simulation : SimulationConfig :=
  with_instrument_charges
    (with_latency
      (with_scheduled_execution
        (new_simulation (new_fill_model TopOfBook Observed) AcceptanceSequence (AdverseFixedDelta Decimal.ZERO)
          (demo_charge BuyAndSell 1425000000000000) (demo_charge Sell 3000000000000000) (new_amount Twd (Decimal.from_atoms 1000000))
          AverageCostV1 (LastObservableV1 true))
        (new_scheduled 5 1000))
      (new_latency 10 20))
    [new_instrument_charges demo_share (demo_charge BuyAndSell 1425000000000000) (demo_charge Sell 3000000000000000)
       (Some (new_day_trade (demo_charge Sell 1500000000000000) SameAccountInstrumentTradingDateFifo 480 demo_dates true (TradingDate.mk 20700)
                (bytes_of "act")))].
Definition demo_source : Partition.SourceId := Partition.mk_source (bytes_of "teralion" ++ replicate 56 0) 8.
Definition demo_request (dates : list TradingDate.TradingDate) : RunConfig :=
  mk_run_config CONFIG_SCHEMA_VERSION demo_source dates [demo_share; demo_share]
    [new_contract demo_share Equity None Sessions.TwseRegular] [Trading.RegularSession]
    (new_binding (Output.mk_identity (bytes_of "probe") (bytes_of "1") (Output.mk_binary (bytes_of "sha") [1])) (replicate 32 7)
       (Output.mk_declaration [demo_share] [Trading.RegularSession]))
    (bytes_of "data") None None None demo_simulation
    [new_economics demo_share Quantity.Share 1 Twd (Decimal.from_atoms 1000000000000000000) (bytes_of "listing")] None.

Lemma demo_resolves : ∃ e, resolve (B:=demo_hash) (demo_request demo_dates) = Ok e.
Proof.
  assert (H : is_ok (resolve (B:=demo_hash) (demo_request demo_dates)) = true) by (vm_compute; reflexivity).
  destruct (resolve _) as [e|]; [by exists e|discriminate H].
Qed.

Lemma resolve_order_free_witness : ∃ e, resolve (B:=demo_hash) (demo_request demo_dates) = Ok e ∧
  resolve (B:=demo_hash) (demo_request (TradingDate.mk 20655 :: demo_dates)) = Ok e.
Proof.
  destruct demo_resolves as [e He]. exists e. split; [exact He|].
  apply (resolve_order_free (B:=demo_hash) (demo_request demo_dates)); [|exact He].
  constructor; try (intros x; apply iff_refl); try reflexivity; [|repeat split].
  unfold run_trading_dates, demo_request, demo_dates. rewrite !elem_of_cons. tauto.
Defined.

Lemma resolve_stable_witness : ∃ e, resolve (B:=demo_hash) (demo_request demo_dates) = Ok e ∧ resolve (B:=demo_hash) (as_request e) = Ok e.
Proof.
  destruct demo_resolves as [e He]. exists e. split; [exact He|]. exact (resolve_stable (B:=demo_hash) _ e He).
Defined.

Lemma resolved_bounds_witness : ∃ e, resolve (B:=demo_hash) (demo_request demo_dates) = Ok e ∧
  (market_data_latency_ms (latency (simulation e)) + order_latency_ms (latency (simulation e))) * 1000 ≤ i64_max.
Proof.
  assert (H : ∃ e, resolve (B:=demo_hash) (demo_request demo_dates) = Ok e ∧ latency (simulation e) = new_latency 10 20).
  { destruct demo_resolves as [e He]. exists e. split; [exact He|]. apply resolve_iff in He as [[_ _ _ _ _ _ _ _ _ Hs _ _] _]. by rewrite Hs. }
  destruct H as (e & He & Hl). exists e. split; [exact He|].
  refine (proj1 (resolved_bounds (B:=demo_hash) _ e He _ _)); rewrite Hl; simpl; lia.
Defined.

End ConfigLaws.
