(* ===== verification/ConfigFrames.v ===== *)
(** What the canonical semantics of a configuration determine: every encoder
    of config.rs is framed. *)
From S2P Require Import Prelude Order Text Numeric Quantity Calendar Book Identity Codec Values Event MarketState Orders Requests StateCanonical Accounting Output OrderedSets Framing Framed Sessions Partition Config ConfigLaws.

Module ConfigFrames.
Import InstrumentClass Config.Config Partition.Partition(append_decimal, append_session, append_strategy_identity, source_bytes).
Import Framing.Framing Framed.Framed ConfigLaws.ConfigLaws Writer(Writer, AppendOnly, push, extend, append_bytes, append_length, each).

(** ** UTF-8 *)

Definition is_char (c : Z) : Prop := 0 ≤ c < 1114112.

(** No encoded character is a prefix of another. *)
Lemma utf8_encode_prefix a b r s : is_char a → is_char b →
  Output.utf8_encode a ++ r = Output.utf8_encode b ++ s → a = b ∧ r = s.
Proof.
  unfold is_char, Output.utf8_encode. intros Ha Hb.
  destruct (Z.ltb_spec a 128), (Z.ltb_spec b 128), (Z.ltb_spec a 2048), (Z.ltb_spec b 2048), (Z.ltb_spec a 65536), (Z.ltb_spec b 65536);
    try lia; intros [=]; split; try done; Z.to_euclidean_division_equations; lia.
Qed.
Lemma utf8_encode_nonempty c : Output.utf8_encode c ≠ [].
Proof. unfold Output.utf8_encode. by repeat case_match. Qed.

Lemma as_bytes_inj s t : Forall is_char s → Forall is_char t → Output.as_bytes s = Output.as_bytes t → s = t.
Proof.
  unfold Output.as_bytes. intros Hs. revert t. induction Hs as [|a s Ha Hs IH]; intros t Ht E.
  - destruct t as [|b t]; [done|]. rewrite fmap_cons in E. simpl in E. symmetry in E. apply app_eq_nil in E as [E _]. by apply utf8_encode_nonempty in E.
  - destruct Ht as [|b t Hb Ht]; rewrite fmap_cons in E; simpl in E; [apply app_eq_nil in E as [E _]; by apply utf8_encode_nonempty in E|].
    apply utf8_encode_prefix in E as [-> E]; [|done..]. f_equal. by apply IH.
Qed.

Lemma framed_str : Framed (Forall is_char) (λ s, append_bytes (Output.as_bytes s)).
Proof. split; [apply _|]. intros s t Hs Ht. eapply agree_impl; [apply agree_bytes|]. by apply as_bytes_inj. Qed.
(** ** Enumerations *)

Ltac enumeration := split; [apply _|]; intros x y _ _; eapply agree_impl; [apply agree_push|]; by destruct x, y.
Lemma framed_source_policy : Framed (λ _, True) (λ p, push (source_policy_byte p)).
Proof. enumeration. Qed.
Lemma framed_replay_policy : Framed (λ _, True) (λ p, push (replay_policy_byte p)).
Proof. enumeration. Qed.
Lemma framed_evidence : Framed (λ _, True) (λ p, push (evidence_byte p)).
Proof. enumeration. Qed.
Lemma framed_quantity : Framed (λ _, True) (λ p, push (quantity_byte p)).
Proof. enumeration. Qed.
Lemma framed_execution : Framed (λ _, True) (λ p, push (execution_byte p)).
Proof. enumeration. Qed.
Lemma framed_sides : Framed (λ _, True) (λ p, push (sides_byte p)).
Proof. enumeration. Qed.
Lemma framed_rounding : Framed (λ _, True) (λ p, push (rounding_byte p)).
Proof. enumeration. Qed.
Lemma framed_basis : Framed (λ _, True) (λ p, push (basis_byte p)).
Proof. enumeration. Qed.
Lemma framed_class : Framed (λ _, True) (λ p, push (class_discriminant p)).
Proof. enumeration. Qed.
Lemma framed_profile : Framed (λ _, True) (λ p, push (Sessions.profile_discriminant p)).
Proof. enumeration. Qed.
Lemma framed_option_side : Framed (λ _, True) (λ p, push (option_side_discriminant p)).
Proof. enumeration. Qed.
Lemma framed_unit : Framed (λ _, True) (λ p, push (Quantity.discriminant p)).
Proof. enumeration. Qed.
Lemma framed_shape : Framed (λ _, True) (λ p, push (shape_byte p)).
Proof. split; [apply _|]. intros [[]|] [[]|] _ _; (eapply agree_impl; [apply agree_push|done]). Qed.
Lemma framed_byte : Framed (λ _, True) (λ z : Z, push z).
Proof. split; [apply _|]. intros x y _ _. apply agree_push. Qed.
(** Enumerations of one value say nothing. *)
Lemma agree_constant (b : Z) : agree (push b) (push b) True.
Proof. eapply agree_impl; [apply agree_push|done]. Qed.

(** ** Records

    A record's encoder is a sequence of framed fields: [fields] steps through
    it, and the equal fields make equal records. *)

#[local] Typeclasses Opaque push extend Writer.seq append_bytes append_length each Requests.append_option
  StateCanonical.append_instrument append_decimal append_date append_flag append_list append_charge append_day_trade append_instrument_charges append_scheduled append_slippage
  append_marking append_extended append_simulation append_economics append_reference append_instrument_contract append_strategy_identity append_session.

(** One field, by its frame. *)
Ltac by_frame F := by apply (@framed_agree _ _ _ F).
#[local] Existing Instances framed_str framed_source_policy framed_replay_policy framed_evidence framed_quantity framed_execution framed_sides
  framed_rounding framed_basis framed_class framed_profile framed_option_side framed_unit framed_shape framed_byte.

#[local] Instance append_instrument_append_only i : AppendOnly (StateCanonical.append_instrument i) := framed_append_only i.
#[local] Instance append_decimal_append_only d : AppendOnly (append_decimal d).
Proof. unfold append_decimal. apply _. Qed.
#[local] Instance append_date_append_only d : AppendOnly (append_date d).
Proof. unfold append_date. apply _. Qed.
#[local] Instance append_flag_append_only b : AppendOnly (append_flag b).
Proof. unfold append_flag. apply _. Qed.
#[local] Instance append_list_append_only {A} (w : A → Writer) l `{!∀ x, AppendOnly (w x)} : AppendOnly (append_list w l).
Proof. unfold append_list. apply _. Qed.
#[local] Instance framed_append_decimal : Framed Decimal.wf append_decimal := framed_decimal.
#[local] Instance framed_append_date : Framed TradingDate.wf append_date := framed_date.
#[local] Instance framed_append_flag : Framed (λ _, True) append_flag := framed_bool.
#[local] Instance framed_append_list {A} wf (w : A → Writer) `{!Framed wf w} : Framed (Forall wf) (append_list w) := framed_counted wf w.

Definition charge_wf (c : ChargeConfig) : Prop := Decimal.wf (rate c) ∧ Decimal.wf (minimum c) ∧ Forall is_char (provenance c).
#[local] Instance append_charge_append_only c b : AppendOnly (append_charge c b).
Proof. unfold append_charge. destruct b; apply _. Qed.
#[local] Instance framed_charge : Framed charge_wf (λ c, append_charge c true).
Proof.
  split; [apply _|]. intros x y (Hx1 & Hx2 & Hx3) (Hy1 & Hy2 & Hy3). eapply agree_impl.
  { unfold append_charge. same_fields.
    - by_frame framed_basis.
    - by apply framed_agree.
    - by_frame framed_sides.
    - by apply framed_agree.
    - apply agree_push.
    - by_frame framed_rounding.
    - by_frame framed_str. }
  intros (H1 & H2 & H3 & H4 & H5 & H6 & H7). destruct x, y. by simplify_eq/=.
Qed.

Definition day_trade_wf (d : DayTradeTaxConfig) : Prop :=
  charge_wf (charge d) ∧ is_i32 (timezone_offset_minutes d) ∧ Forall TradingDate.wf (eligible_dates d) ∧ TradingDate.wf (valid_through d) ∧
  Forall is_char (day_trade_provenance d).
#[local] Instance append_day_trade_append_only d : AppendOnly (append_day_trade d).
Proof. unfold append_day_trade. apply _. Qed.
#[local] Instance framed_day_trade : Framed day_trade_wf append_day_trade.
Proof.
  split; [apply _|]. intros x y (Hx1 & Hx2 & Hx3 & Hx4 & Hx5) (Hy1 & Hy2 & Hy3 & Hy4 & Hy5). eapply agree_impl.
  { unfold append_day_trade. same_fields.
    - by_frame framed_charge.
    - apply agree_push.
    - by_frame framed_i32.
    - by_frame (framed_append_list _ append_date).
    - by_frame framed_append_flag.
    - by_frame framed_append_date.
    - by_frame framed_str. }
  intros (H1 & H2 & H3 & H4 & H5 & H6 & H7). destruct x as [? [] ? ? ? ? ?], y as [? [] ? ? ? ? ?]. by simplify_eq/=.
Qed.

Definition instrument_charges_wf (c : InstrumentChargeConfig) : Prop :=
  charge_wf (fee c) ∧ charge_wf (tax c) ∧ opt_wf day_trade_wf (day_trade_tax c).
#[local] Instance append_option_day_trade_append_only o : AppendOnly (Requests.append_option append_day_trade o).
Proof. apply append_option_append_only, _. Qed.
#[local] Instance append_instrument_charges_append_only c : AppendOnly (append_instrument_charges c).
Proof. unfold append_instrument_charges. apply _. Qed.
#[local] Instance framed_instrument_charges : Framed instrument_charges_wf append_instrument_charges.
Proof.
  split; [apply _|]. intros x y (Hx1 & Hx2 & Hx3) (Hy1 & Hy2 & Hy3). eapply agree_impl.
  { unfold append_instrument_charges. same_fields.
    - by_frame framed_instrument.
    - by_frame framed_charge.
    - by_frame framed_charge.
    - by_frame (framed_option _ append_day_trade). }
  intros (H1 & H2 & H3 & H4). destruct x, y. by simplify_eq/=.
Qed.

Definition scheduled_wf (s : ScheduledExecutionConfig) : Prop := is_u64 (max_stale_ms s).
#[local] Instance append_scheduled_append_only s : AppendOnly (append_scheduled s).
Proof. unfold append_scheduled. apply _. Qed.
#[local] Instance framed_scheduled : Framed scheduled_wf append_scheduled.
Proof.
  split; [apply _|]. intros x y Hx Hy. eapply agree_impl; [unfold append_scheduled; same_fields; [apply agree_push|by_frame framed_u64]|].
  intros [H1 H2]. destruct x, y. by simplify_eq/=.
Qed.

Definition simulation_wf (s : SimulationConfig) : Prop :=
  opt_wf scheduled_wf (scheduled_execution s) ∧ is_u64 (market_data_latency_ms (latency s)) ∧ is_u64 (order_latency_ms (latency s)) ∧
  match slippage_model s with AdverseFixedDelta delta => Decimal.wf delta end ∧ charge_wf (fee_model s) ∧ charge_wf (tax_model s) ∧
  Decimal.wf (amount (initial_cash s)) ∧ Forall instrument_charges_wf (instrument_charges s).
#[local] Instance append_option_scheduled_append_only o : AppendOnly (Requests.append_option append_scheduled o).
Proof. apply append_option_append_only, _. Qed.
#[local] Instance append_extended_append_only s : AppendOnly (append_extended s).
Proof. unfold append_extended. apply _. Qed.
#[local] Instance append_slippage_append_only s : AppendOnly (append_slippage s).
Proof. destruct s. unfold append_slippage. apply _. Qed.
#[local] Instance append_marking_append_only m : AppendOnly (append_marking m).
Proof. destruct m. unfold append_marking. apply _. Qed.
#[local] Instance append_simulation_append_only s b : AppendOnly (append_simulation s b).
Proof. unfold append_simulation. destruct b; apply _. Qed.

Lemma agree_slippage s t : match s with AdverseFixedDelta delta => Decimal.wf delta end →
  match t with AdverseFixedDelta delta => Decimal.wf delta end → agree (append_slippage s) (append_slippage t) (s = t).
Proof.
  destruct s, t. intros Hs Ht. eapply agree_impl; [unfold append_slippage; same_fields; [apply agree_push|by_frame framed_append_decimal]|].
  by intros [_ ->].
Qed.
Lemma agree_marking m n : agree (append_marking m) (append_marking n) (m = n).
Proof.
  destruct m, n. eapply agree_impl; [unfold append_marking; same_fields; [apply agree_push|by_frame framed_append_flag]|]. by intros [_ ->].
Qed.
Lemma agree_extended s t : opt_wf scheduled_wf (scheduled_execution s) → opt_wf scheduled_wf (scheduled_execution t) →
  Forall instrument_charges_wf (instrument_charges s) → Forall instrument_charges_wf (instrument_charges t) →
  agree (append_extended s) (append_extended t)
    (execution_policy s = execution_policy t ∧ scheduled_execution s = scheduled_execution t ∧ instrument_charges s = instrument_charges t).
Proof.
  intros H1 H2 H3 H4. unfold append_extended. same_fields; [by_frame framed_execution|by_frame (framed_option _ append_scheduled)|].
  by_frame (framed_append_list _ append_instrument_charges).
Qed.

#[local] Instance framed_simulation : Framed simulation_wf (λ s, append_simulation s true).
Proof.
  split; [apply _|]. intros x y (Hx1 & Hx2 & Hx3 & Hx4 & Hx5 & Hx6 & Hx7 & Hx8) (Hy1 & Hy2 & Hy3 & Hy4 & Hy5 & Hy6 & Hy7 & Hy8). eapply agree_impl.
  { unfold append_simulation. same_fields.
    - by_frame framed_evidence.
    - by_frame framed_quantity.
    - by_frame framed_u64.
    - by_frame framed_u64.
    - apply agree_push.
    - by apply agree_slippage.
    - by_frame framed_charge.
    - by_frame framed_charge.
    - by apply agree_extended.
    - apply agree_push.
    - by_frame framed_append_decimal.
    - apply agree_push.
    - apply agree_marking. }
  intros (H1 & H2 & H3 & H4 & _ & H5 & H6 & H7 & (H8 & H9 & H10) & _ & H11 & _ & H12).
  destruct x as [? ? [] [] [] ? ? ? [[]] [] ? ?], y as [? ? [] [] [] ? ? ? [[]] [] ? ?]. by simplify_eq/=.
Qed.

Definition economics_wf (e : InstrumentEconomicsConfig) : Prop :=
  is_u64 (units_per_trading_unit e) ∧ Decimal.wf (multiplier e) ∧ Forall is_char (economics_provenance e).
#[local] Instance append_economics_append_only e : AppendOnly (append_economics e).
Proof. unfold append_economics. apply _. Qed.
#[local] Instance framed_economics : Framed economics_wf append_economics.
Proof.
  split; [apply _|]. intros x y (Hx1 & Hx2 & Hx3) (Hy1 & Hy2 & Hy3). eapply agree_impl.
  { unfold append_economics. same_fields.
    - by_frame framed_instrument.
    - by_frame framed_unit.
    - by_frame framed_u64.
    - apply agree_push.
    - by_frame framed_append_decimal.
    - by_frame framed_str. }
  intros (H1 & H2 & H3 & _ & H4 & H5). destruct x as [? ? ? [] ? ?], y as [? ? ? [] ? ?]. by simplify_eq/=.
Qed.

Definition reference_wf (r : InstrumentReferenceConfig) : Prop :=
  Forall is_char (underlying r) ∧ TradingDate.wf (expiry r) ∧ Decimal.wf (strike r) ∧ Decimal.wf (reference_multiplier r) ∧
  is_u64 (reference_units r) ∧ Forall is_char (reference_provenance r).
#[local] Instance append_reference_append_only r : AppendOnly (append_reference r).
Proof. unfold append_reference. apply _. Qed.
#[local] Instance framed_reference : Framed reference_wf append_reference.
Proof.
  split; [apply _|]. intros x y (Hx1 & Hx2 & Hx3 & Hx4 & Hx5 & Hx6) (Hy1 & Hy2 & Hy3 & Hy4 & Hy5 & Hy6). eapply agree_impl.
  { unfold append_reference. same_fields.
    - by_frame framed_str.
    - by_frame framed_append_date.
    - by_frame framed_append_decimal.
    - by_frame framed_option_side.
    - apply agree_push.
    - by_frame framed_append_decimal.
    - by_frame framed_unit.
    - by_frame framed_u64.
    - by_frame framed_str. }
  intros (H1 & H2 & H3 & H4 & _ & H5 & H6 & H7 & H8). destruct x as [? ? ? ? [] ? ? ? ?], y as [? ? ? ? [] ? ? ? ?]. by simplify_eq/=.
Qed.

Definition contract_wf (c : InstrumentContractConfig) : Prop := opt_wf reference_wf (reference c).
#[local] Instance append_option_reference_append_only o : AppendOnly (Requests.append_option append_reference o).
Proof. apply append_option_append_only, _. Qed.
#[local] Instance append_instrument_contract_append_only c : AppendOnly (append_instrument_contract c).
Proof. unfold append_instrument_contract. apply _. Qed.
#[local] Instance framed_contract : Framed contract_wf append_instrument_contract.
Proof.
  split; [apply _|]. intros x y Hx Hy. eapply agree_impl.
  { unfold append_instrument_contract. same_fields.
    - by_frame framed_instrument.
    - by_frame framed_class.
    - by_frame framed_shape.
    - by_frame framed_profile.
    - apply agree_push.
    - by_frame (framed_option _ append_reference). }
  intros (H1 & H2 & H3 & H4 & _ & H5). destruct x, y. by simplify_eq/=.
Qed.

#[local] Instance append_strategy_identity_append_only i p : AppendOnly (append_strategy_identity i p).
Proof. unfold append_strategy_identity. apply _. Qed.
Lemma agree_strategy_identity i j p q : sized 32 p → sized 32 q →
  agree (append_strategy_identity i p) (append_strategy_identity j q) (i = j ∧ p = q).
Proof.
  intros Hp Hq. eapply agree_impl; [unfold append_strategy_identity; same_fields; [apply agree_bytes..|by_frame (framed_sized 32)]|].
  intros (H1 & H2 & H3 & H4 & H5). destruct i as [? ? []], j as [? ? []]. by simplify_eq/=.
Qed.
#[local] Instance append_session_append_only k : AppendOnly (append_session k).
Proof. unfold append_session. apply _. Qed.
#[local] Instance framed_session : Framed (λ _, True) append_session := framed_kind.

(** ** Configurations *)

(** What the types of the source guarantee of a configuration. *)
Record effective_wf (e : EffectiveRunConfig) : Prop := {
  wf_source : ∃ name, Partition.new_source name = Ok (source e);
  wf_dates : Forall TradingDate.wf (trading_dates e);
  wf_contracts : Forall contract_wf (instrument_contracts e);
  wf_params : sized 32 (params_checksum (strategy e));
  wf_simulation : simulation_wf (simulation e);
  wf_economics : Forall economics_wf (instrument_economics e) }.

Lemma encode_semantics_append_only e : AppendOnly (encode_semantics e).
Proof. unfold encode_semantics. apply _. Qed.

Definition same_semantics (e f : EffectiveRunConfig) : Prop :=
  source_bytes (source e) = source_bytes (source f) ∧ trading_dates e = trading_dates f ∧ universe e = universe f ∧
  instrument_contracts e = instrument_contracts f ∧ session_kinds e = session_kinds f ∧
  (strategy_identity (strategy e) = strategy_identity (strategy f) ∧ params_checksum (strategy e) = params_checksum (strategy f)) ∧
  source_policy e = source_policy f ∧ replay_data_policy e = replay_data_policy f ∧ simulation e = simulation f ∧
  instrument_economics e = instrument_economics f.

Lemma all_true {A} (l : list A) : Forall (λ _, True) l.
Proof. induction l; by constructor. Qed.

Lemma agree_semantics e f : effective_wf e → effective_wf f → agree (encode_semantics e) (encode_semantics f) (same_semantics e f).
Proof.
  intros [_ Hd Hc Hp Hs He] [_ Hd' Hc' Hp' Hs' He']. eapply agree_impl.
  { unfold encode_semantics. do 6 (apply agree_seq; [apply _..|by apply agree_extend|intros _]). same_fields.
    - apply agree_bytes.
    - by_frame (framed_append_list _ append_date).
    - apply (@framed_agree _ _ _ (framed_append_list _ StateCanonical.append_instrument)); apply all_true.
    - by_frame (framed_append_list _ append_instrument_contract).
    - apply (@framed_agree _ _ _ (framed_append_list _ append_session)); apply all_true.
    - by apply agree_strategy_identity.
    - by_frame framed_source_policy.
    - apply agree_push.
    - by_frame framed_replay_policy.
    - by_frame framed_simulation.
    - by_frame (framed_append_list _ append_economics).
    - apply agree_push. }
  unfold same_semantics. tauto.
Qed.

Lemma source_identified s t n m : Partition.new_source n = Ok s → Partition.new_source m = Ok t → source_bytes s = source_bytes t → s = t.
Proof.
  intros Hs Ht E. destruct (Partition.new_source_Ok _ _ Hs) as [Es _], (Partition.new_source_Ok _ _ Ht) as [Et _]. congruence.
Qed.

Definition with_data_root (e : EffectiveRunConfig) (root : list Z) : EffectiveRunConfig :=
  mk_effective (source e) (trading_dates e) (universe e) (instrument_contracts e) (session_kinds e) (strategy e) root (source_policy e)
    (cache_policy e) (replay_data_policy e) (simulation e) (instrument_economics e) (output_policy e) (canonical_semantics e) (checksum e).

(** C31: two resolved configurations with the same canonical semantics are the
    same configuration, but for the directory their data is in. *)
Theorem effective_config_identifies {B : Event.Blake3} c d e f : resolve c = Ok e → resolve d = Ok f → effective_wf e → effective_wf f →
  canonical_semantics e = canonical_semantics f → e = with_data_root f (data_root e).
Proof.
  intros (_ & Hn & Hc & Hh)%resolve_iff (_ & Hn' & Hc' & Hh')%resolve_iff Hwe Hwf E. rewrite E in Hc, Hh.
  pose proof (encode_semantics_append_only e) as Ae. pose proof (encode_semantics_append_only f) as Af.
  destruct (agree_whole _ _ _ _ (agree_semantics e f Hwe Hwf) Hc Hc') as (H1 & H2 & H3 & H4 & H5 & [H6 H7] & H8 & H9 & H10 & H11).
  destruct (wf_source e Hwe) as [n Hsn], (wf_source f Hwf) as [m Hsm]. pose proof (source_identified _ _ _ _ Hsn Hsm H1) as Hsrc.
  destruct (normal_declared e Hn) as [Hu Hk], (normal_declared f Hn') as [Hu' Hk'].
  destruct e as [? ? ? ? ? [? ? []] ? ? [] ? ? ? [] ? ?], f as [? ? ? ? ? [? ? []] ? ? [] ? ? ? [] ? ?]. unfold with_data_root. by simplify_eq/=.
Qed.

Lemma ascii_chars l : forallb (in_range 0 127) l = true → Forall is_char l.
Proof. intros H. apply Forall_forall. intros c Hc. rewrite forallb_forall in H. specialize (H c Hc). unfold in_range in H. unfold is_char. lia. Qed.

Lemma demo_charge_wf sides rate : 0 ≤ rate ≤ 10 ^ 18 → charge_wf (demo_charge sides rate).
Proof. intros H. unfold charge_wf, Decimal.wf. simpl. split; [unfold_ints; lia|]. split; [unfold_ints; lia|]. by apply ascii_chars. Qed.

Lemma demo_wf e : resolve (B:=demo_hash) (demo_request demo_dates) = Ok e → effective_wf e.
Proof.
  intros (Hr & Hn & _)%resolve_iff. destruct Hr as [_ Rs Rd Ru Rc Rk Rst Rr _ Rsim Rch Re].
  assert (Hdates : Forall TradingDate.wf demo_dates) by (by repeat constructor).
  constructor.
  - exists (bytes_of "teralion"). by rewrite <-Rs.
  - apply Forall_forall. intros d Hd. apply list_elem_of_In, Rd in Hd. rewrite Forall_forall in Hdates. by apply Hdates, list_elem_of_In.
  - apply Forall_forall. intros k Hk. apply list_elem_of_In, Rc in Hk. simpl in Hk. by apply list_elem_of_singleton in Hk as ->.
  - by rewrite <-Rst.
  - simpl in Rch. apply Permutation_singleton_l in Rch.
    assert (simulation e = demo_simulation) as -> by (rewrite Rsim, <-Rch; reflexivity). unfold simulation_wf, scheduled_wf, is_u64. simpl.
    split; [unfold_ints; lia|]. do 2 (split; [unfold_ints; lia|]). split; [unfold Decimal.wf; simpl; unfold_ints; lia|].
    split; [apply demo_charge_wf; lia|]. split; [apply demo_charge_wf; lia|]. split; [unfold Decimal.wf; simpl; unfold_ints; lia|].
    constructor; [|constructor]. split; [apply demo_charge_wf; lia|]. split; [apply demo_charge_wf; lia|].
    split; [apply demo_charge_wf; lia|]. split; [simpl; unfold_ints; lia|]. split; [by repeat constructor|]. split; [done|]. by apply ascii_chars.
  - simpl in Re. apply Permutation_singleton_l in Re. rewrite <-Re. constructor; [|constructor]. unfold economics_wf, Decimal.wf. simpl.
    split; [unfold_ints; lia|]. split; [unfold_ints; lia|]. by apply ascii_chars.
Qed.

Lemma effective_config_identifies_witness : ∃ e, resolve (B:=demo_hash) (demo_request demo_dates) = Ok e ∧ e = with_data_root e (data_root e).
Proof.
  destruct demo_resolves as [e He]. exists e. split; [exact He|].
  exact (effective_config_identifies (B:=demo_hash) _ _ e e He He (demo_wf e He) (demo_wf e He) eq_refl).
Defined.

End ConfigFrames.
