(* ===== verification/Planning.v ===== *)
(** Execution plans (run-planner/src/plan.rs): what a partition's state asks
    the preparation to do, and the plan that covers a resolved
    configuration. *)
From S2P Require Import Prelude Order Text Numeric Quantity Calendar Book Identity Codec Values Event MarketState Orders Requests StateCanonical Accounting Output Sessions Partition Config.

Module Planning.
Import Writer(push, extend, append_bytes, append_length, each) Output.Output(btree_set) Partition.Partition.

Definition EXECUTION_PLAN_VERSION : Z := 1.

Record PlanningVersionSet : Set := mk_versions {
  config_schema : Z; effective_config : Z; source_policy : Z; cache_policy : Z; replay_data_policy : Z; source_partition_key : Z;
  execution_plan : Z }.
Definition CURRENT : PlanningVersionSet :=
  mk_versions Config.CONFIG_SCHEMA_VERSION Config.EFFECTIVE_CONFIG_VERSION Config.SOURCE_POLICY_VERSION Config.CACHE_POLICY_VERSION
    Config.REPLAY_DATA_POLICY_VERSION SOURCE_PARTITION_KEY_VERSION EXECUTION_PLAN_VERSION.

Inductive CompletionPolicy : Set := StrictCompletion | DegradedCompletion.
Inductive NetworkRequirement : Set := NotRequired | Required.
Inductive SourceAction : Set :=
| ReuseCompleteSource (revision : list Z) | DownloadMissingSource | ResumeOrRestartBuilding | RejectIncomplete (reason : IncompleteReason)
| RejectCorrupt (reason : CorruptReason) | CoverageUnavailable.
Inductive VerificationAction : Set :=
| VerifyCompleteSource | AwaitSourcePreparation | VerifyRejectIncomplete | VerifyRejectCorrupt | VerifyCoverageUnavailable.
Inductive CacheAction : Set := ReuseValidCache (cache : list Z) | RebuildCacheFromCompleteSource | AwaitCompleteSource.

Definition completion_byte (p : CompletionPolicy) : Z := match p with StrictCompletion => 1 | DegradedCompletion => 2 end.
Definition network_byte (n : NetworkRequirement) : Z := match n with NotRequired => 1 | Required => 2 end.
Definition verification_byte (v : VerificationAction) : Z :=
  match v with
  | VerifyCompleteSource => 1 | AwaitSourcePreparation => 2 | VerifyRejectIncomplete => 3 | VerifyRejectCorrupt => 4
  | VerifyCoverageUnavailable => 5
  end.
Definition requires_network (a : SourceAction) : bool :=
  match a with DownloadMissingSource | ResumeOrRestartBuilding => true | _ => false end.

Inductive PlanError : Set :=
| EmptyPartitions | DuplicatePartition (p : list Z) | DuplicateLogicalPartition (i : Instrument.InstrumentId) (d : TradingDate.TradingDate)
| MissingRequestedPartition (i : Instrument.InstrumentId) (d : TradingDate.TradingDate) | PartitionOutsideConfig (p : list Z)
| DegradedScopeWithStrictPolicy | UnknownDegradedScope (p : list Z) | InvalidDegradedScope (p : list Z) | SessionPlanMismatch (p : list Z)
| CanonicalLengthOverflow.

(** ** Partitions *)

Record PlannedPartition : Set := mk_partition {
  key : SourcePartitionKey; session_plan : Sessions.SessionPlan; source_state : SourceState; source_action : SourceAction;
  verification_action : VerificationAction; cache_action : CacheAction }.

Definition validate_session_plan (k : SourcePartitionKey) (s : Sessions.SessionPlan) : result PlanError () :=
  reject bool_decide (Sessions.instrument s ≠ instrument k) || bool_decide (Sessions.trading_date s ≠ trading_date k) ||
         bool_decide (Sessions.identity s ≠ session_plan_identity k) ||
         bool_decide (Sessions.kind <$> Sessions.windows s ≠ session_kinds k) with SessionPlanMismatch (identity k);;
  Ok ().

Definition classify (k : SourcePartitionKey) (s : Sessions.SessionPlan) (state : SourceState) (cache : CacheState) :
    result PlanError PlannedPartition :=
  _ ← validate_session_plan k s;
  let '(source_action, verification_action) :=
    match state with
    | Missing => (DownloadMissingSource, AwaitSourcePreparation)
    | Building => (ResumeOrRestartBuilding, AwaitSourcePreparation)
    | Complete revision => (ReuseCompleteSource revision, VerifyCompleteSource)
    | Incomplete reason => (RejectIncomplete reason, VerifyRejectIncomplete)
    | Corrupt reason => (RejectCorrupt reason, VerifyRejectCorrupt)
    end in
  let cache_action :=
    match state, cache with
    | Complete _, CacheValid identity => ReuseValidCache identity
    | Complete _, _ => RebuildCacheFromCompleteSource
    | _, _ => AwaitCompleteSource
    end in
  Ok (mk_partition k s state source_action verification_action cache_action).

Definition coverage_unavailable (k : SourcePartitionKey) (s : Sessions.SessionPlan) : result PlanError PlannedPartition :=
  _ ← validate_session_plan k s;
  Ok (mk_partition k s Missing CoverageUnavailable VerifyCoverageUnavailable AwaitCompleteSource).

(** ** The plan *)

(** A degraded scope is the identity of its partition. *)
Record ExecutionPlan : Set := mk_plan {
  config : Config.EffectiveRunConfig; partitions : list PlannedPartition; completion_policy : CompletionPolicy;
  network_requirement : NetworkRequirement; degraded_scopes : list (list Z); plan_canonical : list Z; plan_identity : list Z }.

Definition append_source_state (s : SourceState) : Writer.Writer :=
  push (kind_byte (source_state_kind s)) ▷
  match s with
  | Complete revision => extend revision
  | Incomplete reason => push (incomplete_byte reason)
  | Corrupt reason => push (corrupt_byte reason)
  | Missing | Building => extend []
  end.
Definition append_source_action (a : SourceAction) : Writer.Writer :=
  match a with
  | ReuseCompleteSource revision => push 1 ▷ extend revision
  | DownloadMissingSource => push 2
  | ResumeOrRestartBuilding => push 3
  | RejectIncomplete reason => push 4 ▷ push (incomplete_byte reason)
  | RejectCorrupt reason => push 5 ▷ push (corrupt_byte reason)
  | CoverageUnavailable => push 6
  end.
Definition append_cache_action (a : CacheAction) : Writer.Writer :=
  match a with
  | ReuseValidCache identity => push 1 ▷ extend identity
  | RebuildCacheFromCompleteSource => push 2
  | AwaitCompleteSource => push 3
  end.
Definition append_partition (p : PlannedPartition) : Writer.Writer :=
  append_bytes (canonical (key p)) ▷ append_source_state (source_state p) ▷ append_source_action (source_action p) ▷
  push (verification_byte (verification_action p)) ▷ append_cache_action (cache_action p).

Definition encode (p : ExecutionPlan) : Writer.Writer :=
  extend (bytes_of "OSPLAN01") ▷ extend (be_bytes 2 EXECUTION_PLAN_VERSION) ▷ extend (be_bytes 2 (config_schema CURRENT)) ▷
  extend (be_bytes 2 (effective_config CURRENT)) ▷ extend (be_bytes 2 (source_policy CURRENT)) ▷
  extend (be_bytes 2 (cache_policy CURRENT)) ▷ extend (be_bytes 2 (replay_data_policy CURRENT)) ▷
  extend (be_bytes 2 (source_partition_key CURRENT)) ▷ extend (be_bytes 2 (execution_plan CURRENT)) ▷
  extend (Config.checksum (config p)) ▷ (append_length (zlen (partitions p)) ▷ each append_partition (partitions p)) ▷
  push (completion_byte (completion_policy p)) ▷ push (network_byte (network_requirement p)) ▷
  (append_length (zlen (degraded_scopes p)) ▷ each extend (degraded_scopes p)).

Definition validate_partition (c : Config.EffectiveRunConfig) (p : PlannedPartition) : result PlanError () :=
  reject negb (bool_decide (instrument (key p) ∈ Config.universe c)) || negb (bool_decide (trading_date (key p) ∈ Config.trading_dates c)) ||
         negb (forallb (λ k, bool_decide (k ∈ Config.session_kinds c)) (session_kinds (key p)))
    with PartitionOutsideConfig (identity (key p));;
  Ok ().

Definition logical_request (p : PlannedPartition) : Instrument.InstrumentId * TradingDate.TradingDate := (instrument (key p), trading_date (key p)).

(** The loop over the sorted partitions, with the identities and the logical
    requests seen so far. *)
Fixpoint check_partitions (c : Config.EffectiveRunConfig) (identities : list (list Z))
    (requests : list (Instrument.InstrumentId * TradingDate.TradingDate)) (l : list PlannedPartition) : result PlanError () :=
  match l with
  | [] => Ok ()
  | p :: l =>
      _ ← validate_partition c p;
      reject bool_decide (identity (key p) ∈ identities) with DuplicatePartition (identity (key p));;
      reject bool_decide (logical_request p ∈ requests) with DuplicateLogicalPartition (instrument (key p)) (trading_date (key p));;
      check_partitions c (identity (key p) :: identities) (logical_request p :: requests) l
  end.

(** The first instrument and date of the configuration with no partition. *)
Definition missing_request (c : Config.EffectiveRunConfig) (l : list PlannedPartition) : option (Instrument.InstrumentId * TradingDate.TradingDate) :=
  List.find (λ r, negb (bool_decide (r ∈ logical_request <$> l)))
    (i ← Config.universe c; (λ d, (i, d)) <$> Config.trading_dates c).

Definition is_incomplete (s : SourceState) : bool := match s with Incomplete _ => true | _ => false end.
Definition check_scope (l : list PlannedPartition) (scope : list Z) : result PlanError () :=
  match List.find (λ p, bool_decide (identity (key p) = scope)) l with
  | None => Err (UnknownDegradedScope scope)
  | Some p => reject negb (is_incomplete (source_state p)) with InvalidDegradedScope scope;; Ok ()
  end.

(** Everything [ExecutionPlan::new] decides before it encodes. *)
Definition prepare (c : Config.EffectiveRunConfig) (partitions : list PlannedPartition) (degraded_scopes : list (list Z)) :
    result PlanError ExecutionPlan :=
  reject bool_decide (length partitions = 0%nat) with EmptyPartitions;;
  let partitions := sort_on key partitions in
  _ ← check_partitions c [] [] partitions;
  match missing_request c partitions with
  | Some (i, d) => Err (MissingRequestedPartition i d)
  | None =>
      let scopes := btree_set degraded_scopes in
      completion ←
        match Config.source_policy c with
        | Config.StrictSource => reject negb (bool_decide (scopes = [])) with DegradedScopeWithStrictPolicy;; Ok StrictCompletion
        | Config.DegradedSource => Ok DegradedCompletion
        end;
      _ ← collect_results (check_scope partitions) scopes;
      let network := if existsb (λ p, requires_network (source_action p)) partitions then Required else NotRequired in
      Ok (mk_plan c partitions completion network scopes [] (replicate 32 0))
  end.

Definition new_plan {B : Event.Blake3} (c : Config.EffectiveRunConfig) (partitions_ : list PlannedPartition) (degraded : list (list Z)) :
    result PlanError ExecutionPlan :=
  p ← prepare c partitions_ degraded;
  canonical ← map_err (λ _, CanonicalLengthOverflow) (encode p []);
  Ok (mk_plan (config p) (partitions p) (completion_policy p) (network_requirement p) (degraded_scopes p) canonical (Event.blake3 canonical)).

End Planning.
