(* ===== verification/PlanningLaws.v ===== *)
(** What execution plans promise: the partitions cover the configuration, the
    actions follow the states, and the bytes identify the plan. *)
From S2P Require Import Prelude Order Text Numeric Quantity Calendar Book Identity Codec Values Event MarketState Orders Requests StateCanonical Accounting Output OrderedSets Framing Framed Sessions SessionsLaws Partition Config ConfigLaws Planning.

Module PlanningLaws.
Import Partition.Partition Planning.Planning OrderedSets.OrderedSets Output.Output(btree_set) Framing.Framing Framed.Framed.
Import Writer(Writer, AppendOnly, push, extend, append_bytes, append_length, each).

#[local] Typeclasses Opaque push extend Writer.seq append_bytes append_length each counted StateCanonical.append_instrument append_session
  append_source_state append_source_action append_cache_action append_partition.
#[local] Instance append_instrument_append_only i : AppendOnly (StateCanonical.append_instrument i) := framed_append_only i.

(** ** Keys *)

#[local] Instance append_session_append_only k : AppendOnly (append_session k).
Proof. unfold append_session. apply _. Qed.
#[local] Instance framed_session : Framed (λ _, True) append_session := framed_kind.
#[local] Instance encode_key_append_only s i d ks p : AppendOnly (encode_key s i d ks p).
Proof. unfold encode_key. apply _. Qed.

Section keys.
Context {B : Event.Blake3}.

(** A key that [new_key] built, of a valid source, date and session plan. *)
Definition built_key (k : SourcePartitionKey) : Prop :=
  ∃ ks name, new_source name = Ok (source k) ∧ TradingDate.wf (trading_date k) ∧ sized 32 (session_plan_identity k) ∧
    new_key (source k) (instrument k) (trading_date k) ks (session_plan_identity k) = Ok k.

Lemma new_key_Ok s i d ks p k : new_key s i d ks p = Ok k ↔
  ks ≠ [] ∧ encode_key s i d (btree_set ks) p [] = Ok (canonical k) ∧
  k = mk_key s i d (btree_set ks) p (canonical k) (Event.blake3 (canonical k)).
Proof.
  unfold new_key. pose proof (btree_set_nil ks) as Hn. case_bool_decide as E; rewrite Hn in E.
  - split; [done|]. by intros [? _].
  - rewrite bind_Ok. split.
    + intros (c & Hc & [= <-]). split; [done|]. simpl. split; [|done]. by destruct (encode_key _ _ _ _ _ []); simplify_eq/=.
    + intros (_ & Hc & Hk). exists (canonical k). split; [by rewrite Hc|]. by rewrite <-Hk.
Qed.

(** The canonical bytes of a key determine it, and with it its identity. *)
Lemma built_key_canonical k l : built_key k → built_key l → canonical k = canonical l → k = l.
Proof.
  intros (ks & n & Hs & Hd & Hp & (_ & Hc & Ek)%new_key_Ok) (ls & m & Hs' & Hd' & Hp' & (_ & Hc' & El)%new_key_Ok) E.
  rewrite E in Hc. assert (Hid : source_bytes (source k) = source_bytes (source l) ∧ instrument k = instrument l ∧ trading_date k = trading_date l ∧
    btree_set ks = btree_set ls ∧ session_plan_identity k = session_plan_identity l).
  { refine (agree_whole _ _ _ _ _ Hc Hc'). unfold encode_key. eapply agree_impl.
    { do 2 (apply agree_seq; [apply _..|by apply agree_extend|intros _]).
      apply agree_seq; [apply _..|apply agree_bytes|intros _].
      apply agree_seq; [apply _..|by apply (@framed_agree _ _ _ framed_instrument)|intros _].
      apply agree_seq; [apply _..|by apply (@framed_agree _ _ _ framed_date)|intros _].
      apply agree_seq; [apply _..| |intros _; by apply (@framed_agree _ _ _ (framed_sized 32))].
      apply (@framed_agree _ _ _ (framed_counted _ append_session)); apply Forall_forall; done. }
    tauto. }
  destruct Hid as (H1 & H2 & H3 & H4 & H5). rewrite Ek, El, E, H2, H3, H4, H5.
  destruct (new_source_Ok _ _ Hs) as [Es _], (new_source_Ok _ _ Hs') as [Es' _]. congruence.
Qed.

(** Keys are equal when their canonical bytes are: for one source,
    instrument, date, set of sessions and session plan there is one key, and
    two keys with the same bytes are for the same partition. *)
Theorem partition_key_identifies k l : built_key k → built_key l → canonical k = canonical l → k = l.
Proof. apply built_key_canonical. Qed.
End keys.

(** ** Classification *)

Lemma validate_session_plan_Ok k s : validate_session_plan k s = Ok () ↔
  Sessions.instrument s = instrument k ∧ Sessions.trading_date s = trading_date k ∧ Sessions.identity s = session_plan_identity k ∧
  Sessions.kind <$> Sessions.windows s = session_kinds k.
Proof.
  unfold validate_session_plan. destruct (_ || _) eqn:E; split; try done.
  - intros (H1 & H2 & H3 & H4). rewrite !bool_decide_false in E; [done|intros H; by apply H..].
  - intros _. apply orb_false_iff in E as [[[E1 E2]%orb_false_iff E3]%orb_false_iff E4].
    apply ConfigLaws.not_different in E1, E2, E3, E4. done.
Qed.

(** Only a complete source is reused, verified and read through a cache; the
    network is needed exactly for sources that are missing or half built;
    a partition whose session plan is not the one of its key is refused. *)
Theorem classify_follows_state k s state cache p : classify k s state cache = Ok p →
  key p = k ∧ session_plan p = s ∧ source_state p = state ∧ Sessions.kind <$> Sessions.windows s = session_kinds k ∧
  (requires_network (source_action p) = true ↔ state = Missing ∨ state = Building) ∧
  (∀ r, source_action p = ReuseCompleteSource r ↔ state = Complete r) ∧
  (verification_action p = VerifyCompleteSource ↔ ∃ r, state = Complete r) ∧
  (∀ c, cache_action p = ReuseValidCache c ↔ cache = CacheValid c ∧ ∃ r, state = Complete r) ∧
  (cache_action p = AwaitCompleteSource ↔ ∀ r, state ≠ Complete r).
Proof.
  unfold classify. rewrite bind_Ok. intros ([] & (_ & _ & _ & Hk)%validate_session_plan_Ok & H).
  destruct state; injection H as <-; simpl; do 4 (split; [done|]); destruct cache; naive_solver.
Qed.

Section pipeline.
Context {B : Event.Blake3}.

(** A key made from a session plan, with the kinds the plan was made from,
    classifies against it in every state. *)
Theorem planned_key_classifies i d p ks s source k state cache : TradingDate.wf d →
  Sessions.with_profile i d p ks = Ok s → new_key source i d ks (Sessions.identity s) = Ok k → ∃ q, classify k s state cache = Ok q.
Proof.
  intros Hwf Hs (_ & _ & Hk)%new_key_Ok. apply SessionsLaws.with_profile_Ok in Hs as (_ & _ & ws & c & Hp & _ & Es); [|done].
  assert (Hv : validate_session_plan k s = Ok ()).
  { apply validate_session_plan_Ok. rewrite Hk, Es. simpl. by rewrite (SessionsLaws.planned_windows_kinds _ _ _ _ Hp). }
  unfold classify. rewrite Hv. simpl. destruct state; eauto.
Qed.
End pipeline.

(** ** Coverage *)

Definition within (c : Config.EffectiveRunConfig) (p : PlannedPartition) : Prop :=
  instrument (key p) ∈ Config.universe c ∧ trading_date (key p) ∈ Config.trading_dates c ∧
  ∀ k, k ∈ session_kinds (key p) → k ∈ Config.session_kinds c.

Lemma validate_partition_Ok c p : validate_partition c p = Ok () ↔ within c p.
Proof.
  unfold validate_partition, within. case_bool_decide; simpl; [|naive_solver]. case_bool_decide; simpl; [|naive_solver].
  destruct (forallb _ _) eqn:E; simpl; split; try done.
  - intros _. do 2 (split; [done|]). intros k Hk. rewrite forallb_forall in E. apply list_elem_of_In, E in Hk. by apply bool_decide_eq_true in Hk.
  - intros (_ & _ & Hk). exfalso. apply not_true_iff_false in E. apply E, forallb_forall. intros k Hin. apply bool_decide_eq_true, Hk.
    by apply list_elem_of_In.
Qed.

Lemma check_partitions_Ok c ids rs l : check_partitions c ids rs l = Ok () ↔
  (∀ p, p ∈ l → within c p) ∧ NoDup ((identity ∘ key) <$> l) ∧ NoDup (logical_request <$> l) ∧
  (∀ p, p ∈ l → (identity (key p) ∉ ids) ∧ (logical_request p ∉ rs)).
Proof.
  revert ids rs. induction l as [|p l IH]; intros ids rs; cbn [check_partitions].
  - split; [|done]. intros _. split; [set_solver|]. split; [apply NoDup_nil_2|]. split; [apply NoDup_nil_2|set_solver].
  - rewrite bind_Ok, !fmap_cons, !list.NoDup_cons. split.
    + intros ([] & Hp%validate_partition_Ok & H). case_bool_decide as Hi; [done|]. case_bool_decide as Hr; [done|].
      apply IH in H as (Hw & Hni & Hnr & Hf). split; [intros q [->|Hq]%elem_of_cons; [done|by apply Hw]|].
      split; [split; [|done]|split; [split; [|done]|]].
      * intros (q & Eq & Hq)%list_elem_of_fmap. destruct (Hf q Hq) as [Hn _]. apply Hn. simpl in Eq. rewrite <-Eq. by left.
      * intros (q & Eq & Hq)%list_elem_of_fmap. destruct (Hf q Hq) as [_ Hn]. apply Hn. rewrite <-Eq. by left.
      * intros q [->|Hq]%elem_of_cons; [done|]. destruct (Hf q Hq) as [H1 H2]. split; intros Hin; [apply H1|apply H2]; by right.
    + intros (Hw & (Hpi & Hni) & (Hpr & Hnr) & Hf). exists (). split; [apply validate_partition_Ok, Hw; by left|].
      destruct (Hf p) as [H1 H2]; [by left|]. rewrite !bool_decide_false by done. apply IH.
      split; [intros q Hq; apply Hw; by right|]. split; [done|]. split; [done|].
      intros q Hq. destruct (Hf q) as [H3 H4]; [by right|].
      split; intros [E|Hin]%elem_of_cons; [apply Hpi|by apply H3|apply Hpr|by apply H4].
      * apply list_elem_of_fmap. by exists q.
      * apply list_elem_of_fmap. by exists q.
Qed.

(** One partition for each instrument and date of the configuration, none
    outside it, and no two with one identity. *)
Definition covers (c : Config.EffectiveRunConfig) (l : list PlannedPartition) : Prop :=
  (∀ p, p ∈ l → within c p) ∧ NoDup ((identity ∘ key) <$> l) ∧ NoDup (logical_request <$> l) ∧
  ∀ i d, i ∈ Config.universe c → d ∈ Config.trading_dates c → (i, d) ∈ logical_request <$> l.

Lemma covers_perm c l k : l ≡ₚ k → covers c l → covers c k.
Proof.
  intros Hp (Hw & Hi & Hr & Hm). unfold covers. setoid_rewrite <-Hp. done.
Qed.

Lemma missing_request_None c l : missing_request c l = None ↔
  ∀ i d, i ∈ Config.universe c → d ∈ Config.trading_dates c → (i, d) ∈ logical_request <$> l.
Proof.
  unfold missing_request. rewrite ConfigLaws.find_none, existsb_false. split.
  - intros H i d Hi Hd. specialize (H (i, d)). rewrite negb_false_iff, bool_decide_eq_true in H. apply H.
    apply list_elem_of_bind. exists i. split; [|done]. by apply list_elem_of_fmap_2.
  - intros H [i d] (x & (y & [= -> ->] & Hd)%list_elem_of_fmap & Hi)%list_elem_of_bind. apply negb_false_iff, bool_decide_eq_true. by apply H.
Qed.

Definition scopes_ok (c : Config.EffectiveRunConfig) (l : list PlannedPartition) (scopes : list (list Z)) : Prop :=
  (Config.source_policy c = Config.StrictSource → scopes = []) ∧
  ∀ s, s ∈ scopes → ∃ p, p ∈ l ∧ identity (key p) = s ∧ is_incomplete (source_state p) = true.

Lemma nodup_key_inj {A K} (f : A → K) l x y : NoDup (f <$> l) → x ∈ l → y ∈ l → f x = f y → x = y.
Proof.
  induction l as [|z l IH]; [set_solver|]. rewrite fmap_cons, list.NoDup_cons. intros [Hz Hn] [->|Hx]%elem_of_cons [->|Hy]%elem_of_cons E.
  - done.
  - exfalso. apply Hz. rewrite E. by apply list_elem_of_fmap_2.
  - exfalso. apply Hz. rewrite <-E. by apply list_elem_of_fmap_2.
  - by apply IH.
Qed.

Lemma check_scope_Ok l s : NoDup ((identity ∘ key) <$> l) →
  check_scope l s = Ok () ↔ ∃ p, p ∈ l ∧ identity (key p) = s ∧ is_incomplete (source_state p) = true.
Proof.
  intros Hn. unfold check_scope. destruct (List.find _ l) as [p|] eqn:E.
  - apply List.find_some in E as [Hp E]. apply bool_decide_eq_true in E. apply list_elem_of_In in Hp. destruct (is_incomplete _) eqn:Ei.
    + split; [by exists p|done].
    + split; [done|]. intros (q & Hq & Eq & Hi). assert (p = q) as ->; [|congruence].
      apply (nodup_key_inj (identity ∘ key) l); [done..|]. simpl. congruence.
  - split; [done|]. intros (q & Hq & Eq & _). rewrite ConfigLaws.find_none, existsb_false in E. specialize (E q Hq). by rewrite bool_decide_true in E.
Qed.

(** ** Plans *)

(** The plan of a set of partitions and scopes. *)
Definition planned (c : Config.EffectiveRunConfig) (l : list PlannedPartition) (scopes : list (list Z)) (canonical identity : list Z) : ExecutionPlan :=
  mk_plan c (sort_on key l) (match Config.source_policy c with Config.StrictSource => StrictCompletion | Config.DegradedSource => DegradedCompletion end)
    (if existsb (λ p, requires_network (source_action p)) (sort_on key l) then Required else NotRequired) (btree_set scopes) canonical identity.

(** Keys are ordered by their bytes. *)
Lemma sort_key_canonical l : sort_on key l = sort_on (canonical ∘ key) l.
Proof. done. Qed.
Lemma sort_key_perm l : sort_on key l ≡ₚ l.
Proof. rewrite sort_key_canonical. apply sort_on_perm. Qed.

Lemma prepare_plan_Ok c l scopes p : prepare c l scopes = Ok p ↔
  l ≠ [] ∧ covers c l ∧ scopes_ok c l scopes ∧ p = planned c l scopes [] (replicate 32 0).
Proof.
  unfold prepare. assert (He : length l = 0%nat ↔ l = []) by (split; [apply nil_length_inv|by intros ->]).
  case_bool_decide as En; rewrite He in En; [split; [done|by intros (? & _)]|]. rewrite bind_Ok.
  assert (Hcov : (check_partitions c [] [] (sort_on key l) = Ok () ∧ missing_request c (sort_on key l) = None) ↔ covers c l).
  { rewrite check_partitions_Ok, missing_request_None. split.
    - intros ((Hw & Hi & Hr & _) & Hm). apply (covers_perm c (sort_on key l)); [apply sort_key_perm|done].
    - intros Hc. apply (covers_perm c l (sort_on key l)) in Hc as (Hw & Hi & Hr & Hm); [|by rewrite sort_key_perm].
      split; [|done]. split; [done|]. split; [done|]. split; [done|]. set_solver. }
  assert (Hsc : covers c l → (Config.source_policy c = Config.StrictSource → scopes = []) →
    (∃ us, collect_results (check_scope (sort_on key l)) (btree_set scopes) = Ok us) ↔ scopes_ok c l scopes).
  { intros (_ & Hi & _) Hst. assert (Hn : NoDup ((identity ∘ key) <$> sort_on key l)) by by rewrite sort_key_perm. unfold scopes_ok. split.
    - intros [us Hus]. split; [done|]. intros s Hs. rewrite <-elem_of_btree_set in Hs. apply (collect_unit _ _ _ Hus) in Hs.
      apply check_scope_Ok in Hs; [|done]. by setoid_rewrite sort_key_perm in Hs.
    - intros [_ Hs]. apply collect_unit_all. intros s Hin. rewrite elem_of_btree_set in Hin. apply check_scope_Ok; [done|].
      setoid_rewrite sort_key_perm. by apply Hs. }
  split.
  - intros ([] & Hc & H). destruct (missing_request _ _) as [[]|] eqn:Em; [done|]. specialize (proj1 Hcov (conj Hc eq_refl)) as Hcv.
    apply bind_Ok in H as (completion & Hst & H). apply bind_Ok in H as (us & Hus & H). injection H as <-.
    split; [done|]. split; [done|]. unfold planned. destruct (Config.source_policy c) eqn:Ep.
    + case_bool_decide as Es; [|done]. injection Hst as <-. rewrite btree_set_nil in Es. split; [|done]. apply (proj1 (Hsc Hcv (λ _, Es))). by exists us.
    + injection Hst as <-. split; [|done]. apply (Hsc Hcv); [done|by exists us].
  - intros (_ & Hcv & Hso & ->). destruct (proj2 Hcov Hcv) as [Hc Hm]. exists (). split; [done|]. rewrite Hm. pose proof Hso as [Hst _].
    destruct (proj2 (Hsc Hcv Hst) Hso) as [us Hus]. apply bind_Ok. unfold planned. destruct (Config.source_policy c).
    + exists StrictCompletion. rewrite (Hst eq_refl) in *. split; [done|]. apply bind_Ok. by exists us.
    + exists DegradedCompletion. split; [done|]. apply bind_Ok. by exists us.
Qed.

(** ** The bytes of a plan *)

Definition state_wf (s : SourceState) : Prop := match s with Complete r => sized 32 r | _ => True end.
Definition action_wf (a : SourceAction) : Prop := match a with ReuseCompleteSource r => sized 32 r | _ => True end.
Definition cache_wf (a : CacheAction) : Prop := match a with ReuseValidCache i => sized 32 i | _ => True end.
Definition partition_wf (p : PlannedPartition) : Prop :=
  state_wf (source_state p) ∧ action_wf (source_action p) ∧ cache_wf (cache_action p).

#[local] Instance append_source_state_append_only s : AppendOnly (append_source_state s).
Proof. unfold append_source_state. destruct s; apply _. Qed.
#[local] Instance append_source_action_append_only a : AppendOnly (append_source_action a).
Proof. unfold append_source_action. destruct a; apply _. Qed.
#[local] Instance append_cache_action_append_only a : AppendOnly (append_cache_action a).
Proof. unfold append_cache_action. destruct a; apply _. Qed.
#[local] Instance append_partition_append_only p : AppendOnly (append_partition p).
Proof. unfold append_partition. apply _. Qed.

(** Writers that start with different tags never agree. *)
Definition tagged (a : Z) (w : Writer) : Prop := ∀ e, Writer.writes w e → head e = Some a.
Lemma tagged_push a : tagged a (push a).
Proof. by intros e ->%Writer.writes_push. Qed.
Lemma tagged_seq a w `{!AppendOnly w} : tagged a (push a ▷ w).
Proof. intros e (x & y & -> & ->%Writer.writes_push & _)%Writer.writes_seq; [done|apply _..]. Qed.
Lemma agree_apart a b w u (P : Prop) : tagged a w → tagged b u → a ≠ b → agree w u P.
Proof.
  intros Hw Hu Hab e1 e2 r1 r2 H1%Hw H2%Hu He. destruct e1 as [|x e1], e2 as [|y e2]; try done. simplify_eq/=.
Qed.
Lemma agree_tagged a w u (P : Prop) `{!AppendOnly w, !AppendOnly u} : agree w u P → agree (push a ▷ w) (push a ▷ u) P.
Proof. intros H. eapply agree_impl; [apply agree_seq; [apply _..|apply agree_push|intros _; exact H]|]. by intros [_ ?]. Qed.

(** Two cases of a tagged union: the same one, or apart. *)
Ltac by_tag := first
  [ apply agree_tagged; [apply _..|]
  | eapply agree_impl; [apply agree_push|done]
  | eapply agree_apart; [first [apply tagged_push|apply tagged_seq, _]..|done] ].
Ltac by_digest := eapply agree_impl; [by apply (@framed_agree _ _ _ (framed_sized 32))|]; by intros ->.
Ltac by_reason := eapply agree_impl; [apply agree_push|]; by repeat match goal with r : IncompleteReason |- _ => destruct r | r : CorruptReason |- _ => destruct r end.

#[local] Instance framed_state : Framed state_wf append_source_state.
Proof.
  split; [apply _|]. intros x y Hx Hy. unfold append_source_state.
  destruct x as [| |r|r|r], y as [| |s|s|s]; by_tag; solve [by_digest|by_reason|eapply agree_impl; [by apply (agree_extend [] [])|done]].
Qed.
#[local] Instance framed_action : Framed action_wf append_source_action.
Proof.
  split; [apply _|]. intros x y Hx Hy. unfold append_source_action.
  destruct x as [r| | |r|r|], y as [s| | |s|s|]; by_tag; solve [by_digest|by_reason].
Qed.
#[local] Instance framed_cache : Framed cache_wf append_cache_action.
Proof.
  split; [apply _|]. intros x y Hx Hy. unfold append_cache_action.
  destruct x as [r| |], y as [s| |]; by_tag; solve [by_digest].
Qed.
Lemma framed_verification : Framed (λ _, True) (λ v, push (verification_byte v)).
Proof. split; [apply _|]. intros x y _ _. eapply agree_impl; [apply agree_push|]. by destruct x, y. Qed.

(** What the bytes of a partition determine. *)
Definition partition_content (p : PlannedPartition) : list Z * SourceState * SourceAction * VerificationAction * CacheAction :=
  (canonical (key p), source_state p, source_action p, verification_action p, cache_action p).

Lemma agree_partition p q : partition_wf p → partition_wf q → agree (append_partition p) (append_partition q) (partition_content p = partition_content q).
Proof.
  intros (Hp1 & Hp2 & Hp3) (Hq1 & Hq2 & Hq3). eapply agree_impl.
  { unfold append_partition. same_fields; [apply agree_bytes|by apply framed_agree|by apply framed_agree|by apply (@framed_agree _ _ _ framed_verification)|by apply framed_agree]. }
  unfold partition_content. by intros (-> & -> & -> & -> & ->).
Qed.

Lemma agree_partitions l k : Forall partition_wf l → Forall partition_wf k → length l = length k →
  agree (each append_partition l) (each append_partition k) (partition_content <$> l = partition_content <$> k).
Proof.
  intros Hl Hk Hn. revert k Hk Hn. induction Hl as [|x l Hx Hl IH]; intros [|y k] Hk Hn; try done; cbn [each].
  { eapply agree_impl; [by apply (agree_extend [] [])|done]. }
  apply Forall_cons_iff in Hk as [Hy Hk]. injection Hn as Hn.
  eapply agree_impl; [apply agree_seq; [apply _..|by apply agree_partition|intros _; by apply IH]|]. rewrite !fmap_cons. by intros [-> ->].
Qed.

Definition plan_wf (p : ExecutionPlan) : Prop :=
  sized 32 (Config.checksum (config p)) ∧ Forall partition_wf (partitions p) ∧ Forall (sized 32) (degraded_scopes p).

Definition same_plan (p q : ExecutionPlan) : Prop :=
  Config.checksum (config p) = Config.checksum (config q) ∧ partition_content <$> partitions p = partition_content <$> partitions q ∧
  completion_policy p = completion_policy q ∧ network_requirement p = network_requirement q ∧ degraded_scopes p = degraded_scopes q.

#[local] Instance encode_append_only p : AppendOnly (encode p).
Proof. unfold encode. apply _. Qed.

Lemma agree_plan p q : plan_wf p → plan_wf q → agree (encode p) (encode q) (same_plan p q).
Proof.
  intros (Hp1 & Hp2 & Hp3) (Hq1 & Hq2 & Hq3). eapply agree_impl.
  { unfold encode. do 9 (apply agree_seq; [apply _..|by apply agree_extend|intros _]).
    apply agree_seq; [apply _..|by apply (@framed_agree _ _ _ (framed_sized 32))|intros _]. apply agree_seq; [apply _..| |intros _].
    { apply agree_seq; [apply _..|apply agree_length|]. intros Hn. apply agree_partitions; [done..|]. unfold zlen in Hn. lia. }
    do 2 (apply agree_seq; [apply _..|apply agree_push|intros _]). by apply (@framed_agree _ _ _ (framed_counted _ extend)). }
  intros (_ & _ & _ & _ & _ & _ & _ & _ & _ & Hc & [_ Hl] & Hcp & Hn & Hs). unfold same_plan. do 2 (split; [done|]).
  split; [by destruct (completion_policy p), (completion_policy q)|]. split; [|done]. by destruct (network_requirement p), (network_requirement q).
Qed.

Section plans.
Context {B : Event.Blake3}.

Lemma new_plan_iff c l scopes p : new_plan c l scopes = Ok p ↔
  l ≠ [] ∧ covers c l ∧ scopes_ok c l scopes ∧ encode p [] = Ok (plan_canonical p) ∧
  p = planned c l scopes (plan_canonical p) (Event.blake3 (plan_canonical p)).
Proof.
  unfold new_plan. rewrite bind_Ok. setoid_rewrite prepare_plan_Ok. split.
  - intros (p0 & (Hl & Hc & Hs & ->) & H). apply bind_Ok in H as (canonical & He & H). injection H as <-.
    do 3 (split; [done|]). simpl. split; [|done]. change (encode (planned c l scopes [] (replicate 32 0)) [] = Ok canonical).
    by destruct (encode _ []); simplify_eq/=.
  - intros (Hl & Hc & Hs & He & Hp). eexists. split; [done|]. apply bind_Ok. exists (plan_canonical p). split; [|by rewrite Hp at 3].
    rewrite Hp in He at 1. change (map_err (λ _, CanonicalLengthOverflow) (encode (planned c l scopes (plan_canonical p) (Event.blake3 (plan_canonical p))) []) = Ok (plan_canonical p)).
    by rewrite He.
Qed.

(** Planning implements its specification: it succeeds exactly when the
    partitions cover the configuration and the scopes are allowed, and the
    plan is then the sorted partitions with what follows from them. *)
Theorem new_plan_refines c l scopes p : new_plan c l scopes = Ok p ↔
  l ≠ [] ∧ covers c l ∧ scopes_ok c l scopes ∧ encode p [] = Ok (plan_canonical p) ∧
  p = planned c l scopes (plan_canonical p) (Event.blake3 (plan_canonical p)).
Proof. apply new_plan_iff. Qed.

Lemma requires_network_iff a : requires_network a = true ↔ a = DownloadMissingSource ∨ a = ResumeOrRestartBuilding.
Proof. destruct a; naive_solver. Qed.

(** C32: a plan has exactly one partition for each instrument and date of its
    configuration, and none besides; it needs the network exactly when some
    partition has to be downloaded or completed; and it is strict without degraded scopes, or
    names only incomplete partitions as degraded. *)
Theorem plan_covers c l scopes p : new_plan c l scopes = Ok p →
  (∀ i d, i ∈ Config.universe c → d ∈ Config.trading_dates c →
    ∃ q, q ∈ partitions p ∧ logical_request q = (i, d) ∧ ∀ r, r ∈ partitions p → logical_request r = (i, d) → r = q) ∧
  (∀ q, q ∈ partitions p → within c q) ∧
  (network_requirement p = Required ↔
    ∃ q, q ∈ partitions p ∧ (source_action q = DownloadMissingSource ∨ source_action q = ResumeOrRestartBuilding)) ∧
  (completion_policy p = StrictCompletion ↔ Config.source_policy c = Config.StrictSource) ∧
  (completion_policy p = StrictCompletion → degraded_scopes p = []) ∧
  (∀ s, s ∈ degraded_scopes p → ∃ q r, q ∈ partitions p ∧ identity (key q) = s ∧ source_state q = Incomplete r).
Proof.
  intros (_ & Hcov & [Hst Hsc] & _ & Hp)%new_plan_iff. rewrite Hp. unfold planned. simpl.
  apply (covers_perm c l (sort_on key l)) in Hcov as (Hw & _ & Hr & Hm); [|by rewrite sort_key_perm].
  split; [|split; [done|split; [|split; [by destruct (Config.source_policy c)|split]]]].
  - intros i d Hi Hd. specialize (Hm i d Hi Hd). apply list_elem_of_fmap in Hm as (q & Eq & Hq). exists q. split; [done|]. split; [done|].
    intros r Hr' Er. apply (nodup_key_inj logical_request (sort_on key l)); [done..|congruence].
  - destruct (existsb _ _) eqn:E.
    + split; [intros _|done]. apply existsb_exists in E as (q & Hq & Hn%requires_network_iff). exists q. split; [by apply list_elem_of_In|done].
    + split; [done|]. intros (q & Hq & Hn%requires_network_iff). rewrite existsb_false in E. by rewrite E in Hn.
  - destruct (Config.source_policy c); [|done]. intros _. by rewrite Hst.
  - intros s Hs. rewrite elem_of_btree_set in Hs. destruct (Hsc s Hs) as (q & Hq & Es & Hi). destruct (source_state q) as [| | |r|] eqn:E; try done.
    exists q, r. split; [by rewrite sort_key_perm|]. done.
Qed.

(** The order of the partitions, and order and repetitions of the scopes, do
    not matter for the plan, its bytes or its identity. *)
Theorem execution_plan_order_free c l k scopes scopes' p : Forall (λ q, built_key (key q)) l → l ≡ₚ k → (∀ s, s ∈ scopes ↔ s ∈ scopes') →
  new_plan c l scopes = Ok p → new_plan c k scopes' = Ok p.
Proof.
  intros Hb Hp Hs. rewrite !new_plan_iff. intros (Hl & Hcov & [Hst Hsc] & He & Hq).
  split; [intros ->; by apply Permutation_nil_r in Hp|]. split; [by apply (covers_perm c l)|]. split; [split|split; [done|]].
  - intros E. specialize (Hst E). destruct scopes' as [|s scopes']; [done|]. exfalso. apply (not_elem_of_nil (A:=list Z) s).
    rewrite <-Hst. apply Hs. by left.
  - intros s Hin%Hs. destruct (Hsc s Hin) as (q & Hq' & H). exists q. by rewrite <-Hp.
  - rewrite Hq at 1. unfold planned. rewrite (btree_set_ext _ _ Hs). assert (sort_on key l = sort_on key k) as ->; [|done].
    rewrite !sort_key_canonical. symmetry. apply sort_on_unique; [|done]. apply repeats_key_perm.
    destruct Hcov as (_ & Hi & _). clear -Hi Hb. induction Hb as [|q l Hq Hb IH]; [constructor|]. rewrite fmap_cons, list.NoDup_cons in *.
    destruct Hi as [Hnin Hi]. split; [|by apply IH]. intros (r & Er & Hr)%list_elem_of_fmap. apply Hnin, list_elem_of_fmap. exists r. split; [|done].
    rewrite Forall_forall in Hb. specialize (Hb r (proj1 (list_elem_of_In _ _) Hr)). simpl in *. f_equal. by apply built_key_canonical.
Qed.

(** C33: two plans with the same canonical bytes have the same keys, states,
    actions, policies and scopes, for configurations with one checksum. *)
Theorem execution_plan_identifies c d l k ss ts p q : new_plan c l ss = Ok p → new_plan d k ts = Ok q → plan_wf p → plan_wf q →
  Forall (λ x, built_key (key x)) l → Forall (λ x, built_key (key x)) k → plan_canonical p = plan_canonical q →
  same_plan p q ∧ key <$> partitions p = key <$> partitions q.
Proof.
  intros (_ & _ & _ & He & Hp)%new_plan_iff (_ & _ & _ & He' & Hq)%new_plan_iff Hwp Hwq Hb Hb' E. rewrite E in He.
  pose proof (agree_whole _ _ _ _ (agree_plan p q Hwp Hwq) He He') as Hs. split; [done|]. destruct Hs as (_ & Hc & _).
  assert (Hbp : Forall (λ x, built_key (key x)) (partitions p)) by (rewrite Hp; simpl; by rewrite sort_key_perm).
  assert (Hbq : Forall (λ x, built_key (key x)) (partitions q)) by (rewrite Hq; simpl; by rewrite sort_key_perm).
  clear -Hc Hbp Hbq. revert Hbp Hbq Hc. generalize (partitions p) as l, (partitions q) as k.
  induction l as [|x l IH]; intros [|y k] Hl Hk; rewrite ?fmap_cons; try done. intros [= H1 H2 H3 H4 H5 H6].
  apply Forall_cons_iff in Hl as [Hx Hl], Hk as [Hy Hk]. f_equal; [by apply built_key_canonical|by apply IH].
Qed.
End plans.

(** ** An instance: the plan of the configuration of ConfigLaws.v, with one
    complete and one missing partition *)

Import ConfigLaws.ConfigLaws(demo_hash, demo_share, demo_source, demo_dates, demo_request, demo_resolves).
#[local] Existing Instance demo_hash.

Definition demo_session (d : TradingDate.TradingDate) : result Sessions.SessionPlanError Sessions.SessionPlan :=
  Sessions.with_profile demo_share d Sessions.TwseRegular [Trading.RegularSession].
Definition demo_key (d : TradingDate.TradingDate) : option SourcePartitionKey :=
  s ← res_ok (demo_session d); res_ok (new_key demo_source demo_share d [Trading.RegularSession] (Sessions.identity s)).
Definition demo_partition (state : SourceState) (d : TradingDate.TradingDate) : option PlannedPartition :=
  s ← res_ok (demo_session d); k ← demo_key d; res_ok (classify k s state CacheStale).
Definition demo_partitions : option (list PlannedPartition) :=
  p ← demo_partition Missing (TradingDate.mk 20655); q ← demo_partition (Complete (replicate 32 9)) (TradingDate.mk 20654); Some [p; q].
Definition demo_plan : option ExecutionPlan :=
  c ← res_ok (Config.resolve (demo_request demo_dates)); l ← demo_partitions; res_ok (new_plan c l []).

Lemma demo_execution_plan : ∃ c l p, sized 32 (Config.checksum c) ∧ demo_partitions = Some l ∧ new_plan c l [] = Ok p.
Proof.
  assert (H : match demo_plan with Some _ => true | None => false end = true) by (vm_compute; reflexivity).
  unfold demo_plan in H. destruct (Config.resolve _) as [c|] eqn:Er; [|discriminate H]. cbn [res_ok mbind option_bind] in H.
  destruct demo_partitions as [l|] eqn:El; [|discriminate H]. cbn [mbind option_bind] in H.
  destruct (new_plan c l []) as [p|] eqn:E; [|discriminate H]. exists c, l, p. split; [|split; [reflexivity|exact E]].
  apply ConfigLaws.resolve_iff in Er as (_ & _ & _ & ->). apply length_be_bytes.
Qed.

Lemma demo_key_built d k : TradingDate.wf d → demo_key d = Some k → built_key k.
Proof.
  intros Hwf H. unfold demo_key in H. destruct (demo_session d) as [s|] eqn:Es; [|discriminate H]. cbn [res_ok mbind option_bind] in H.
  destruct (new_key _ _ _ _ _) as [k'|] eqn:Ek; [|discriminate H]. injection H as ->.
  exists [Trading.RegularSession], (bytes_of "teralion"). pose proof (proj1 (new_key_Ok _ _ _ _ _ _) Ek) as (_ & _ & E).
  rewrite E. simpl. split; [reflexivity|]. split; [done|]. rewrite <-E. split; [|exact Ek].
  apply SessionsLaws.with_profile_Ok in Es as (_ & _ & ws & c & _ & _ & ->); [|done]. simpl. apply length_be_bytes.
Qed.

Lemma demo_partitions_built l : demo_partitions = Some l → Forall (λ x, built_key (key x)) l ∧ Forall partition_wf l.
Proof.
  assert (Hp : ∀ d st p, TradingDate.wf d → state_wf st → demo_partition st d = Some p → built_key (key p) ∧ partition_wf p).
  { intros d st p Hd Hst H. unfold demo_partition in H. destruct (demo_session d) as [s|]; [|discriminate H]. cbn [res_ok mbind option_bind] in H.
    destruct (demo_key d) as [k|] eqn:Ek; [|discriminate H]. cbn [mbind option_bind] in H.
    destruct (classify k s st CacheStale) as [q|] eqn:Ec; [|discriminate H]. injection H as ->.
    unfold classify in Ec. apply bind_Ok in Ec as (_ & _ & Ec).
    split; [|unfold partition_wf]; destruct st; injection Ec as <-; simpl; try done; by eapply demo_key_built. }
  intros H. unfold demo_partitions in H. destruct (demo_partition Missing _) as [p|] eqn:Ep; [|discriminate H]. cbn [mbind option_bind] in H.
  destruct (demo_partition (Complete _) _) as [q|] eqn:Eq; [|discriminate H]. injection H as <-.
  apply Hp in Ep, Eq; [|by split..|done]. destruct Ep, Eq.
  split; (constructor; [done|]; constructor; [done|]; constructor).
Qed.

Lemma partition_key_identifies_witness : ∃ k, demo_key (TradingDate.mk 20654) = Some k ∧ k = k.
Proof.
  assert (H : match demo_key (TradingDate.mk 20654) with Some _ => true | None => false end = true) by (vm_compute; reflexivity).
  destruct (demo_key _) as [k|] eqn:E; [|discriminate H]. exists k. split; [reflexivity|].
  assert (Hb : built_key k) by (eapply demo_key_built; [|exact E]; by split). exact (partition_key_identifies k k Hb Hb eq_refl).
Defined.

Lemma classify_follows_state_witness : ∃ k s p, classify k s Missing CacheStale = Ok p ∧ cache_action p = AwaitCompleteSource.
Proof.
  assert (H : match demo_partition Missing (TradingDate.mk 20654) with Some _ => true | None => false end = true) by (vm_compute; reflexivity).
  unfold demo_partition in H. destruct (demo_session _) as [s|]; [|discriminate H]. cbn [res_ok mbind option_bind] in H.
  destruct (demo_key _) as [k|]; [|discriminate H]. cbn [mbind option_bind] in H.
  destruct (classify k s Missing CacheStale) as [p|] eqn:E; [|discriminate H]. exists k, s, p. split; [exact E|].
  apply (classify_follows_state k s Missing CacheStale p E). discriminate.
Defined.

Lemma planned_key_classifies_witness : ∃ k s q, classify k s Building CacheMissing = Ok q.
Proof.
  assert (H : match demo_partition Missing (TradingDate.mk 20654) with Some _ => true | None => false end = true) by (vm_compute; reflexivity).
  unfold demo_partition, demo_key in H. destruct (demo_session _) as [s|] eqn:Es; [|discriminate H]. cbn [res_ok mbind option_bind] in H.
  destruct (new_key _ _ _ _ _) as [k|] eqn:Ek; [|discriminate H]. exists k, s.
  refine (planned_key_classifies _ _ _ _ s _ k Building CacheMissing _ Es Ek). by split.
Defined.

Lemma plan_covers_witness : ∃ c l p, new_plan c l [] = Ok p ∧ ∀ q, q ∈ partitions p → within c q.
Proof.
  destruct demo_execution_plan as (c & l & p & _ & _ & H). exists c, l, p. split; [exact H|]. exact (proj1 (proj2 (plan_covers c l [] p H))).
Defined.

Lemma execution_plan_order_free_witness : ∃ c l p, new_plan c l [] = Ok p ∧ new_plan c (rev l) [] = Ok p.
Proof.
  destruct demo_execution_plan as (c & l & p & Hc & Hl & H). exists c, l, p. split; [exact H|].
  refine (execution_plan_order_free c l (rev l) [] [] p _ _ _ H); [by apply demo_partitions_built|apply Permutation_rev|done].
Defined.

Lemma execution_plan_identifies_witness : ∃ c l p, new_plan c l [] = Ok p ∧ same_plan p p.
Proof.
  destruct demo_execution_plan as (c & l & p & Hc & Hl & H). exists c, l, p. split; [exact H|].
  destruct (demo_partitions_built l Hl) as [Hb Hw].
  assert (Hwf : plan_wf p).
  { apply new_plan_iff in H as (_ & _ & _ & _ & ->). unfold plan_wf. simpl. split; [done|]. split; [by rewrite sort_key_perm|constructor]. }
  exact (proj1 (execution_plan_identifies c c l l [] [] p p H H Hwf Hwf Hb Hb eq_refl)).
Defined.

End PlanningLaws.
