(* ===== verification/EquityQuote.v ===== *)
(** The TWSE/TPEx quote normalizer (providers/teralion/src/equity_quote.rs):
    wire records, their validation, realtime groups, and the events they
    become. *)
From S2P Require Import Prelude Order Text Numeric Quantity Calendar Book Identity Signal Event Effects.

(** serde_json's decoders of the wire structs: a string slice and a
    [RawValue] are the bytes of their text, an error is its display text. *)
Module Wire.

Record WireEnvelope : Set := mk_envelope {
  record_type : list Z; wire_market : list Z; wire_format : list Z; wire_symbol : list Z; wire_match_time : list Z;
  received_at : list Z }.
Record WireLevel : Set := mk_level { level_price : list Z; level_quantity : Z }.
Record WireQuote : Set := mk_quote {
  wire_bids : list WireLevel; wire_asks : list WireLevel; wire_deal : list Z; cum_volume : Z; limit_flags : Z; status_flags : Z;
  intermediate_print : bool }.
Record WireDeal : Set := mk_deal { deal_price : list Z; deal_quantity : Z }.

Class QuoteJson := {
  envelope_from_str : list Z → result (list Z) WireEnvelope;
  quote_from_str : list Z → result (list Z) WireQuote;
  deal_from_str : list Z → result (list Z) WireDeal }.

(** What the field types of the structs promise of a decoded value. *)
Definition level_typed (l : WireLevel) : Prop := is_u64 (level_quantity l).
Definition quote_typed (q : WireQuote) : Prop :=
  Forall level_typed (wire_bids q) ∧ Forall level_typed (wire_asks q) ∧ is_u64 (cum_volume q) ∧ is_u8 (limit_flags q) ∧
  is_u8 (status_flags q).
Class TypedJson (J : QuoteJson) : Prop := {
  quote_from_str_typed s q : quote_from_str s = Ok q → quote_typed q;
  deal_from_str_typed s d : deal_from_str s = Ok d → is_u64 (deal_quantity d) }.

End Wire.

Module EquityQuote.
Import Wire Effects(Failure, Returned, Panicked).

Definition STOCK_SNAPSHOT : list Z := bytes_of "STOCK_SNAPSHOT".
Definition STOCK_REALTIME : list Z := bytes_of "STOCK_REALTIME".
Definition WARRANT_SNAPSHOT : list Z := bytes_of "WARRANT_SNAPSHOT".
Definition WARRANT_REALTIME : list Z := bytes_of "WARRANT_REALTIME".
Definition INTRADAY_ODDLOT_REALTIME : list Z := bytes_of "INTRADAY_ODDLOT_REALTIME".

Inductive InstrumentProfile : Set := Equity | Warrant.
#[global] Instance InstrumentProfile_eq_dec : EqDecision InstrumentProfile.
Proof. solve_decision. Defined.
Inductive QuoteMarket : Set := Twse | Tpex.
Definition market_id (m : QuoteMarket) : Market.MarketId := match m with Twse => Market.Twse | Tpex => Market.Tpex end.
Definition wire_name (m : QuoteMarket) : list Z := match m with Twse => bytes_of "twse" | Tpex => bytes_of "tpex" end.

(** ** Annotations *)

Inductive QuoteAnnotations : Set :=
| TwseA (a : Annotations.TwseQuoteAnnotations) | TpexA (a : Annotations.TpexQuoteAnnotations).
Definition new_annotations (m : QuoteMarket) (status limits : Z) : QuoteAnnotations :=
  match m with Twse => TwseA (Annotations.new_twse status limits) | Tpex => TpexA (Annotations.new_tpex status limits) end.
Definition status_flags_raw (a : QuoteAnnotations) : Z :=
  match a with TwseA a => Annotations.twse_status_flags_raw a | TpexA a => Annotations.tpex_status_flags_raw a end.
Definition limit_flags_raw (a : QuoteAnnotations) : Z :=
  match a with TwseA a => Annotations.twse_limit_flags_raw a | TpexA a => Annotations.tpex_limit_flags_raw a end.
Definition trial (a : QuoteAnnotations) : bool := Annotations.trial (status_flags_raw a).
Definition delayed_open (a : QuoteAnnotations) : bool := Annotations.delayed_open (status_flags_raw a).
Definition delayed_close (a : QuoteAnnotations) : bool := Annotations.delayed_close (status_flags_raw a).
Definition opening_marker (a : QuoteAnnotations) : bool := Annotations.opening_marker (status_flags_raw a).
Definition closing_marker (a : QuoteAnnotations) : bool := Annotations.closing_marker (status_flags_raw a).
Definition reserved_bits (a : QuoteAnnotations) : Z := Annotations.reserved_bits (status_flags_raw a).
Definition trade_limit (a : QuoteAnnotations) : Annotations.LimitPosition := Annotations.limit_trade (limit_flags_raw a).
Definition best_bid_limit (a : QuoteAnnotations) : Annotations.LimitPosition := Annotations.limit_best_bid (limit_flags_raw a).
Definition best_ask_limit (a : QuoteAnnotations) : Annotations.LimitPosition := Annotations.limit_best_ask (limit_flags_raw a).
Definition instant_trend (a : QuoteAnnotations) : Annotations.InstantTrend := Annotations.instant_trend (limit_flags_raw a).
Definition into_market_annotations (a : QuoteAnnotations) : Annotations.MarketAnnotations :=
  match a with TwseA a => Annotations.TwseQuote a | TpexA a => Annotations.TpexQuote a end.

(** [matches!(a.instant_trend(), VolatilityInterruptionDown | VolatilityInterruptionUp)]. *)
Definition interrupts (a : QuoteAnnotations) : bool :=
  match instant_trend a with
  | Annotations.VolatilityInterruptionDown | Annotations.VolatilityInterruptionUp => true
  | _ => false
  end.
Definition limit_reserved (l : Annotations.LimitPosition) : bool := match l with Annotations.Reserved => true | _ => false end.
Definition trend_reserved (t : Annotations.InstantTrend) : bool := match t with Annotations.TrendReserved => true | _ => false end.

(** ** Configuration *)

Record NormalizerConfig : Set := mk_config {
  market : QuoteMarket; instrument : Instrument.InstrumentId; trading_date : TradingDate.TradingDate;
  replay_start : MatchTime.MatchTime; replay_end_exclusive : MatchTime.MatchTime; profile : InstrumentProfile }.
Inductive ConfigError : Set := WrongMarket (expected actual : Market.MarketId) | InvalidReplayWindow.

Definition new_config (m : QuoteMarket) (i : Instrument.InstrumentId) (d : TradingDate.TradingDate) (start end_ : MatchTime.MatchTime)
    (p : InstrumentProfile) : result ConfigError NormalizerConfig :=
  reject bool_decide (Instrument.market i ≠ market_id m) with WrongMarket (market_id m) (Instrument.market i);;
  reject bool_decide (ord_le end_ start) with InvalidReplayWindow;;
  Ok (mk_config m i d start end_ p).
Definition twse i d start end_ := new_config Twse i d start end_ Equity.
Definition twse_warrant i d start end_ := new_config Twse i d start end_ Warrant.
Definition tpex i d start end_ := new_config Tpex i d start end_ Equity.
Definition tpex_warrant i d start end_ := new_config Tpex i d start end_ Warrant.

(** ** Reports and errors *)

Record RecordContext : Set := mk_context {
  context_market : QuoteMarket; context_instrument : Instrument.InstrumentId; context_date : TradingDate.TradingDate;
  context_format : option (list Z); match_time_text : option (list Z); context_match_time : option MatchTime.MatchTime }.
Definition partition (c : NormalizerConfig) : RecordContext := mk_context (market c) (instrument c) (trading_date c) None None None.

Inductive KnownSkipReason : Set := IntradayOddLot.
Record KnownSkipped : Set := mk_skipped { skipped_context : RecordContext; reason : KnownSkipReason }.
Inductive WarningKind : Set :=
| ReservedStatusBits (bits : Z) | ReservedTradeLimit | ReservedBestBidLimit | ReservedBestAskLimit | ReservedInstantTrend.
Record NormalizationWarning : Set := mk_warning { warning_context : RecordContext; warning_kind : WarningKind }.

Inductive RealtimeGroupError : Set :=
| ExpectedOneIntermediateAndOneFinal (records : Z) | IntermediateDealMissing | FinalDealMissing | CumulativeVolumeMismatch
| MixedAuctionTrialState.
Inductive NormalizationErrorKind : Set :=
| InvalidJson (error : list Z) | InvalidIdentity (field : string) (expected actual : list Z) | UnsupportedFormat (format : list Z)
| InvalidMatchTime (error : MatchTime.MatchTimeError) | InvalidReceivedAt (error : MatchTime.MatchTimeError)
| InvalidPrice (field : string) (error : Price.PriceError) | InvalidQuantity (field : string) (error : Quantity.QuantityError)
| InvalidBook (error : Book.BookError) | InvalidEvent (error : Event.EventError) | InvalidPayload (message : string)
| UnsupportedRealtimeMatchGroup (error : RealtimeGroupError).
Record NormalizationError : Set := mk_error { error_record : Z; error_context : RecordContext; error_kind : NormalizationErrorKind }.

(** A call whose own error is returned; the other error is a panic. *)
Abbreviation returned := (map_err Returned).

(** ** Records *)

Inductive WireFormat : Set := StockSnapshot | StockRealtime.
#[global] Instance WireFormat_eq_dec : EqDecision WireFormat.
Proof. solve_decision. Defined.

Record ValidatedRecord : Set := mk_record {
  record_number : Z; context : RecordContext; format : WireFormat; source_format : SourceFormat.SourceFormatId;
  match_time : MatchTime.MatchTime; intermediate : bool; book : option Book.CompleteBookSnapshot; deal : option Trade.ObservedTrade;
  deal_zero_quantity : bool; cumulative_volume : Volume.Volume; annotations : QuoteAnnotations }.
Inductive ClassifiedRecord : Set :=
| Accepted (r : ValidatedRecord) (warnings : list NormalizationWarning) | OutsideReplayWindow (c : RecordContext)
| Skipped (k : KnownSkipped).

Definition validate_identity (n : Z) (c : RecordContext) (field : string) (expected actual : list Z) : result NormalizationError () :=
  if bool_decide (expected = actual) then Ok () else Err (mk_error n c (InvalidIdentity field expected actual)).

(** Zero is the price of a market order. *)
Definition parse_book_price (n : Z) (c : RecordContext) (raw : list Z) : result NormalizationError (option Price.Price) :=
  price ← map_err (λ e, mk_error n c (InvalidPrice "book level price" e)) (Price.parse raw);
  if Price.atoms price =? 0 then Ok None
  else Some <$> map_err (λ e, mk_error n c (InvalidPrice "book level price" e)) (Price.positive (Price.as_decimal price)).

(** The loop of [parse_side], with the market order and the levels so far. *)
Fixpoint parse_levels (n : Z) (c : RecordContext) (index : nat) (market_order_quantity : option Quantity.Quantity)
    (levels : list Book.BookLevel) (wire : list WireLevel) :
    result NormalizationError (option Quantity.Quantity * list Book.BookLevel) :=
  match wire with
  | [] => Ok (market_order_quantity, levels)
  | w :: wire =>
      quantity ← map_err (λ e, mk_error n c (InvalidQuantity "book level quantity" e))
        (Quantity.new (level_quantity w) Quantity.TradingUnit);
      price ← parse_book_price n c (level_price w);
      match price with
      | Some price => parse_levels n c (S index) market_order_quantity (levels ++ [Book.new_level price quantity]) wire
      | None =>
          if (index =? 0)%nat then parse_levels n c (S index) (Some quantity) levels wire
          else Err (mk_error n c (InvalidPayload "zero-price market-order level must be the first book entry"))
      end
  end.
Definition parse_side (n : Z) (c : RecordContext) (k : Book.BookSideKind) (wire : list WireLevel) :
    result NormalizationError Book.BookSide :=
  '(m, levels) ← parse_levels n c 0 None [] wire;
  map_err (λ e, mk_error n c (InvalidBook e)) (Book.with_market_order_quantity k m levels).
Definition parse_book (n : Z) (c : RecordContext) (bids asks : list WireLevel) : result NormalizationError Book.CompleteBookSnapshot :=
  bids ← parse_side n c Book.Bid bids;
  asks ← parse_side n c Book.Ask asks;
  map_err (λ e, mk_error n c (InvalidBook e)) (Book.new_snapshot bids asks).

Definition parse_price (n : Z) (c : RecordContext) (field : string) (raw : list Z) : result NormalizationError Price.Price :=
  map_err (λ e, mk_error n c (InvalidPrice field e)) (Price.parse_positive raw).

Definition warnings_if (c : RecordContext) (reserved : bool) (k : WarningKind) : list NormalizationWarning :=
  if reserved then [mk_warning c k] else [].
Definition annotation_warnings (c : RecordContext) (a : QuoteAnnotations) : list NormalizationWarning :=
  warnings_if c (negb (reserved_bits a =? 0)) (ReservedStatusBits (reserved_bits a)) ++
  warnings_if c (limit_reserved (trade_limit a)) ReservedTradeLimit ++
  warnings_if c (limit_reserved (best_bid_limit a)) ReservedBestBidLimit ++
  warnings_if c (limit_reserved (best_ask_limit a)) ReservedBestAskLimit ++
  warnings_if c (trend_reserved (instant_trend a)) ReservedInstantTrend.

(** The match on the format: [Some None] is the odd-lot format, which is
    skipped. *)
Definition classify_format (p : InstrumentProfile) (f : list Z) : option (option WireFormat) :=
  if bool_decide (f = STOCK_SNAPSHOT) && bool_decide (p = Equity) then Some (Some StockSnapshot)
  else if bool_decide (f = STOCK_REALTIME) && bool_decide (p = Equity) then Some (Some StockRealtime)
  else if bool_decide (f = WARRANT_SNAPSHOT) && bool_decide (p = Warrant) then Some (Some StockSnapshot)
  else if bool_decide (f = WARRANT_REALTIME) && bool_decide (p = Warrant) then Some (Some StockRealtime)
  else if bool_decide (f = INTRADAY_ODDLOT_REALTIME) then Some None
  else None.

Definition wire_is_empty (w : WireQuote) : bool := bool_decide (wire_bids w = []) && bool_decide (wire_asks w = []).

(** The checks that follow a deal of quantity zero, and the book: an
    intermediate print has none. *)
Definition check_zero_deal (n : Z) (c : RecordContext) (a : QuoteAnnotations) (w : WireQuote) (zero : bool) :
    result NormalizationError () :=
  reject zero && (negb (interrupts a) || intermediate_print w || negb (wire_is_empty w))
    with mk_error n c (InvalidPayload "zero-quantity deal is only valid for a book-empty volatility-pause quote");;
  Ok ().
Definition record_book (n : Z) (c : RecordContext) (f : WireFormat) (w : WireQuote) (d : option Trade.ObservedTrade) :
    result NormalizationError (option Book.CompleteBookSnapshot) :=
  if intermediate_print w then
    reject bool_decide (f ≠ StockRealtime) with mk_error n c (InvalidPayload "only STOCK_REALTIME may be an intermediate print");;
    reject negb (wire_is_empty w) with mk_error n c (InvalidPayload "intermediate print must have empty bid and ask arrays");;
    reject bool_decide (d = None) with mk_error n c (InvalidPayload "intermediate print must contain a deal");;
    Ok None
  else Some <$> parse_book n c (wire_bids w) (wire_asks w).

Section normalizer.
Context {J : QuoteJson}.

Definition parse_deal (n : Z) (c : RecordContext) (raw : list Z) : result NormalizationError (option Trade.ObservedTrade * bool) :=
  if bool_decide (raw = bytes_of "null") then Ok (None, false) else
  wire ← map_err (λ e, mk_error n c (InvalidJson e)) (deal_from_str raw);
  price ← parse_price n c "deal price" (deal_price wire);
  if deal_quantity wire =? 0 then Ok (None, true) else
  quantity ← map_err (λ e, mk_error n c (InvalidQuantity "deal quantity" e)) (Quantity.new (deal_quantity wire) Quantity.TradingUnit);
  Ok (Some (Trade.new price quantity Trade.Regular), false).

(** [parse_record] up to the replay window: the context, the match time and
    the format of the envelope. *)
Definition parse_envelope (config : NormalizerConfig) (n : Z) (json : list Z) :
    result NormalizationError (WireEnvelope * RecordContext * MatchTime.MatchTime * option WireFormat) :=
  envelope ← map_err (λ e, mk_error n (partition config) (InvalidJson e)) (envelope_from_str json);
  let c := mk_context (market config) (instrument config) (trading_date config) (Some (wire_format envelope))
             (Some (wire_match_time envelope)) None in
  _ ← validate_identity n c "type" (bytes_of "quote") (record_type envelope);
  _ ← validate_identity n c "market" (wire_name (market config)) (wire_market envelope);
  _ ← validate_identity n c "symbol" (Symbol.as_bytes (Instrument.symbol (instrument config))) (wire_symbol envelope);
  match_time ← map_err (λ e, mk_error n c (InvalidMatchTime e)) (MatchTime.parse (wire_match_time envelope));
  let c := mk_context (market config) (instrument config) (trading_date config) (Some (wire_format envelope))
             (Some (wire_match_time envelope)) (Some match_time) in
  _ ← map_err (λ e, mk_error n c (InvalidReceivedAt e)) (MatchTime.parse (received_at envelope));
  format ← ok_or (classify_format (profile config) (wire_format envelope)) (mk_error n c (UnsupportedFormat (wire_format envelope)));
  Ok (envelope, c, match_time, format).

Definition in_replay_window (config : NormalizerConfig) (t : MatchTime.MatchTime) : bool :=
  bool_decide (ord_le (replay_start config) t) && bool_decide (ord_lt t (replay_end_exclusive config)).

(** The rest of [parse_record], for a record inside the window. *)
Definition parse_quote (config : NormalizerConfig) (n : Z) (json : list Z) (envelope : WireEnvelope) (c : RecordContext)
    (t : MatchTime.MatchTime) (f : WireFormat) : result (Failure NormalizationError) ClassifiedRecord :=
  wire ← returned (map_err (λ e, mk_error n c (InvalidJson e)) (quote_from_str json));
  reject bool_decide (f = StockSnapshot) && intermediate_print wire
    with Returned (mk_error n c (InvalidPayload "STOCK_SNAPSHOT cannot be an intermediate print"));;
  let annotations := new_annotations (market config) (status_flags wire) (limit_flags wire) in
  let cumulative_volume := Volume.new (cum_volume wire) Quantity.TradingUnit in
  '(deal, deal_zero_quantity) ← returned (parse_deal n c (wire_deal wire));
  _ ← returned (check_zero_deal n c annotations wire deal_zero_quantity);
  book ← returned (record_book n c f wire deal);
  source_format ← map_err (λ _, Panicked) (SourceFormat.new (wire_format envelope));
  Ok (Accepted (mk_record n c f source_format t (intermediate_print wire) book deal deal_zero_quantity cumulative_volume annotations)
        (annotation_warnings c annotations)).
Definition parse_record (config : NormalizerConfig) (n : Z) (json : list Z) : result (Failure NormalizationError) ClassifiedRecord :=
  '(envelope, c, match_time, format) ← returned (parse_envelope config n json);
  match format with
  | None => Ok (Skipped (mk_skipped c IntradayOddLot))
  | Some f =>
      if negb (in_replay_window config match_time) then Ok (OutsideReplayWindow c)
      else parse_quote config n json envelope c match_time f
  end.

End normalizer.
(** ** Events *)

Definition group_error (r : ValidatedRecord) (e : RealtimeGroupError) : NormalizationError :=
  mk_error (record_number r) (context r) (UnsupportedRealtimeMatchGroup e).
Definition event_error (r : ValidatedRecord) (e : Event.EventError) : NormalizationError :=
  mk_error (record_number r) (context r) (InvalidEvent e).
Definition payload_error (r : ValidatedRecord) (message : string) : NormalizationError :=
  mk_error (record_number r) (context r) (InvalidPayload message).

Definition side_is_empty (s : Book.BookSide) : bool := bool_decide (Book.market_order_quantity s = None) && bool_decide (Book.levels s = []).
Definition is_status_only_pause (r : ValidatedRecord) : bool :=
  negb (trial (annotations r)) && interrupts (annotations r) && bool_decide (deal r = None) &&
  match book r with Some b => side_is_empty (Book.bids b) && side_is_empty (Book.asks b) | None => false end.

(** Only called for a quote whose trend interrupts. *)
Definition volatility_observation (a : QuoteAnnotations) : result (Failure NormalizationError) Signal.AuctionObservation :=
  direction ←
    match instant_trend a with
    | Annotations.VolatilityInterruptionDown => Ok Signal.Down
    | Annotations.VolatilityInterruptionUp => Ok Signal.Up
    | Annotations.TrendNormal | Annotations.TrendReserved => Err Panicked
    end;
  Ok (Signal.volatility_interruption_with_evidence (Signal.Known direction) Signal.NoObservation Signal.NoObservation).

Definition unproven_opening : Signal.AuctionObservation := Signal.opening_with_evidence Signal.NoObservation Signal.NoObservation.
Definition unproven_closing : Signal.AuctionObservation := Signal.closing_with_evidence Signal.NoObservation Signal.NoObservation.

Definition has_reserved (a : QuoteAnnotations) : bool :=
  negb (reserved_bits a =? 0) || trend_reserved (instant_trend a) || limit_reserved (trade_limit a) ||
  limit_reserved (best_bid_limit a) || limit_reserved (best_ask_limit a).
Definition firm_market_signal (r : ValidatedRecord) : result (Failure NormalizationError) (Observation.Observation Signal.MarketSignal) :=
  let a := annotations r in
  if has_reserved a
  then Ok (Observation.Unknown (Observation.Unsigned (Z.lor (Z.shiftl (status_flags_raw a) 8) (limit_flags_raw a)))) else
  signal ←
    if opening_marker a then Ok (Signal.AuctionUncross unproven_opening)
    else if closing_marker a then Ok (Signal.AuctionUncross unproven_closing)
    else if interrupts a then Signal.AuctionCollecting <$> volatility_observation a
    else Ok Signal.Continuous;
  Ok (Observation.Set_ signal).

Section events.
Context (config : NormalizerConfig).

Definition session_time (time : string) : result (Failure NormalizationError) MatchTime.MatchTime :=
  map_err (λ _, Panicked)
    (MatchTime.parse (TradingDate.display (trading_date config) ++ bytes_of "T" ++ bytes_of time ++ bytes_of "+08:00")).
Definition within (t start end_ : MatchTime.MatchTime) : bool := bool_decide (ord_le start t) && bool_decide (ord_lt t end_).

Definition auction_phase (r : ValidatedRecord) : result (Failure NormalizationError) (option Signal.AuctionObservation) :=
  let a := annotations r in
  if negb (trial a) then Ok None else
  reject delayed_open a && delayed_close a with Returned (payload_error r "trial quote cannot set delayed-open and delayed-close together");;
  if delayed_open a then Ok (Some (Signal.opening_with_evidence (Signal.Known true) Signal.NoObservation)) else
  if delayed_close a then Ok (Some (Signal.closing_with_evidence (Signal.Known true) Signal.NoObservation)) else
  opening_window_start ← session_time "08:30:00";
  opening_window_end ← session_time "09:00:00";
  closing_window_start ← session_time "13:25:00";
  closing_window_end ← session_time "13:30:00";
  let opening := delayed_open a || opening_marker a || within (match_time r) opening_window_start opening_window_end in
  let closing := delayed_close a || closing_marker a || within (match_time r) closing_window_start closing_window_end in
  match opening, closing with
  | true, false => Ok (Some unproven_opening)
  | false, true => Ok (Some unproven_closing)
  | false, false => Ok (Some Signal.unclassified)
  | true, true => Err (Returned (payload_error r "trial quote cannot be classified as exactly one auction phase"))
  end.

Definition domain_event (r : ValidatedRecord) (p : Event.EventPayload) : Event.DomainEvent :=
  Event.new (instrument config) (trading_date config) (source_format r) (match_time r) None p.

Definition auction_event (r : ValidatedRecord) (o : Signal.AuctionObservation) (b : Observation.Observation Book.CompleteBookSnapshot) :
    result (Failure NormalizationError) Event.DomainEvent :=
  let '(price, quantity) :=
    match deal r with
    | Some t => (Observation.Set_ (Trade.price t), Observation.Set_ (Trade.quantity t))
    | None => (Observation.NoObservation, Observation.NoObservation)
    end in
  auction ← returned (map_err (event_error r) (Event.new_auction o price quantity b (Observation.Set_ (cumulative_volume r))
              (into_market_annotations (annotations r))));
  Ok (domain_event r (Event.IndicativeAuctionP auction)).

Definition final_event (r : ValidatedRecord) : result (Failure NormalizationError) Event.DomainEvent :=
  reject intermediate r with Returned (group_error r (ExpectedOneIntermediateAndOneFinal 1));;
  if is_status_only_pause r then
    o ← volatility_observation (annotations r);
    let status := Event.status_with_signal
      (Event.new_status (Observation.Set_ (cumulative_volume r)) (into_market_annotations (annotations r)))
      (Observation.Set_ (Signal.AuctionCollecting o)) in
    Ok (domain_event r (Event.MarketStatusP status))
  else
  book ← ok_or (book r) (Returned (payload_error r "final quote is missing a complete book"));
  phase ← auction_phase r;
  match phase with
  | Some phase => auction_event r phase (Observation.Set_ book)
  | None =>
      let trade := match deal r with Some t => Observation.Set_ t | None => Observation.NoObservation end in
      snapshot ← returned (map_err (event_error r) (Event.new_quote book trade (Observation.Set_ (cumulative_volume r))
                   (into_market_annotations (annotations r))));
      signal ← firm_market_signal r;
      Ok (domain_event r (Event.QuoteSnapshotP (Event.quote_with_signal snapshot signal)))
  end.

(** The print of an intermediate record. *)
Definition intermediate_trade (r : ValidatedRecord) : result NormalizationError Trade.ObservedTrade :=
  trade ← ok_or (deal r) (group_error r IntermediateDealMissing);
  Ok (Trade.new (Trade.price trade) (Trade.quantity trade) Trade.Intermediate).

(** A batch of the trades, with the identity and annotations of [first] and
    the volume of [last]. *)
Definition batch_event (trades : list Trade.ObservedTrade) (first last : ValidatedRecord) :
    result (Failure NormalizationError) Event.DomainEvent :=
  batch ← returned (map_err (event_error first) (Event.new_batch trades Trade.SourceSequencePreserved
            (Observation.Set_ (cumulative_volume last)) (into_market_annotations (annotations first))));
  signal ← firm_market_signal first;
  Ok (domain_event first (Event.TradeBatchP (Event.batch_with_signal batch signal))).

Definition intermediate_event (r : ValidatedRecord) : result (Failure NormalizationError) Event.DomainEvent :=
  trade ← returned (intermediate_trade r);
  phase ← auction_phase r;
  match phase with
  | Some phase => auction_event r phase Observation.NoObservation
  | None => batch_event [trade] r r
  end.
Definition intermediate_batch_event (records : list ValidatedRecord) : result (Failure NormalizationError) Event.DomainEvent :=
  first ← ok_or (head records) Panicked;
  final ← ok_or (list.last records) Panicked;
  trades ← returned (collect_results intermediate_trade records);
  batch_event trades first final.

(** ** Groups *)

(** The cumulative volume a group's final record must report. *)
Definition expected_volume (first last_intermediate final : ValidatedRecord) : result NormalizationError Volume.Volume :=
  match deal final with
  | Some trade =>
      map_err (λ _, group_error first CumulativeVolumeMismatch)
        (Volume.checked_add (cumulative_volume last_intermediate) (Volume.from_quantity (Trade.quantity trade)))
  | None =>
      if deal_zero_quantity final then Ok (cumulative_volume last_intermediate) else Err (group_error first FinalDealMissing)
  end.

(** The records of a group, in input order. *)
Definition normalize_intermediate_group (group : list ValidatedRecord) : result (Failure NormalizationError) (list Event.DomainEvent) :=
  first ← ok_or (head group) Panicked;
  let intermediates := filter (λ r, intermediate r = true) group in
  let finals := filter (λ r, intermediate r = false) group in
  match finals with
  | [] => Err (Returned (group_error first (ExpectedOneIntermediateAndOneFinal (zlen group))))
  | final :: extra =>
      reject bool_decide (intermediates = []) || negb (bool_decide (extra = []))
        with Returned (group_error first (ExpectedOneIntermediateAndOneFinal (zlen group)));;
      head_intermediate ← ok_or (head intermediates) Panicked;
      intermediate_phase ← auction_phase head_intermediate;
      final_phase ← auction_phase final;
      _ ← collect_results (λ r, phase ← auction_phase r;
            reject bool_decide (phase ≠ intermediate_phase) with Returned (group_error first MixedAuctionTrialState);; Ok ()) intermediates;
      reject bool_decide (intermediate_phase ≠ final_phase) with Returned (group_error first MixedAuctionTrialState);;
      if bool_decide (intermediate_phase ≠ None) then
        events ← collect_results intermediate_event intermediates;
        event ← final_event final;
        Ok (events ++ [event])
      else
        last_intermediate ← ok_or (list.last intermediates) Panicked;
        expected ← returned (expected_volume first last_intermediate final);
        reject bool_decide (cumulative_volume final ≠ expected) with Returned (group_error first CumulativeVolumeMismatch);;
        batch ← intermediate_batch_event intermediates;
        event ← final_event final;
        Ok [batch; event]
  end.

(** The map of realtime records by match time, in input order. *)
Definition realtime_groups (records : list ValidatedRecord) : gmap MatchTime.MatchTime (list nat) :=
  foldl (λ m '(index, r), if bool_decide (format r = StockRealtime) then <[match_time r := default [] (m !! match_time r) ++ [index]]> m else m)
    ∅ (imap pair records).

(** [records[index]] for the indices of a group. *)
Definition group_records (records : list ValidatedRecord) (indices : list nat) : result (Failure NormalizationError) (list ValidatedRecord) :=
  collect_results (λ index, ok_or (records !! index) Panicked) indices.
Definition least (indices : list nat) : option nat :=
  match indices with [] => None | i :: l => Some (foldl Nat.min i l) end.

(** One group: the events at its anchor, and the records it consumes. The
    indices are in range, so that inserting does not miss. *)
Definition normalize_group (records : list ValidatedRecord) (acc : gmap nat (list Event.DomainEvent) * list bool) (indices : list nat) :
    result (Failure NormalizationError) (gmap nat (list Event.DomainEvent) * list bool) :=
  group ← group_records records indices;
  if negb (existsb intermediate group) then Ok acc else
  anchor ← ok_or (least indices) Panicked;
  events ← normalize_intermediate_group group;
  Ok (<[anchor := events]> acc.1, foldl (λ consumed index, <[index := true]> consumed) acc.2 indices).

(** One record of the last loop, with the events so far. *)
Definition emit_record (consumed : list bool) (acc : gmap nat (list Event.DomainEvent) * list Event.DomainEvent)
    (entry : nat * ValidatedRecord) : result (Failure NormalizationError) (gmap nat (list Event.DomainEvent) * list Event.DomainEvent) :=
  let '(index, r) := entry in
  let '(grouped, events) :=
    match acc.1 !! index with Some group => (delete index acc.1, acc.2 ++ group) | None => acc end in
  done ← ok_or (consumed !! index) Panicked;
  if (done : bool) then Ok (grouped, events) else event ← final_event r; Ok (grouped, events ++ [event]).

Definition normalize_groups (records : list ValidatedRecord) : result (Failure NormalizationError) (list Event.DomainEvent) :=
  '(grouped, consumed) ← try_fold (normalize_group records) (∅, replicate (length records) false) (btree_values (realtime_groups records));
  '(_, events) ← try_fold (emit_record consumed) (grouped, []) (imap pair records);
  Ok events.

(** ** Input *)

Record NormalizationReport : Set := mk_report {
  input_records : Z; events : list Event.DomainEvent; outside_replay_window : list RecordContext; known_skipped : list KnownSkipped;
  warnings : list NormalizationWarning }.

(** The accumulators of the first loop. *)
Record Input : Set := mk_input {
  count : Z; records : list ValidatedRecord; outside : list RecordContext; skipped : list KnownSkipped;
  record_warnings : list NormalizationWarning }.

Context {J : QuoteJson}.

Definition read_line (acc : Input) (entry : nat * list Z) : result (Failure NormalizationError) Input :=
  let '(index, line) := entry in
  n ← ok_or (to_u64 (count acc + 1)) Panicked;
  classified ← parse_record config (Z.of_nat index + 1) line;
  Ok match classified with
     | Accepted r ws => mk_input n (records acc ++ [r]) (outside acc) (skipped acc) (record_warnings acc ++ ws)
     | OutsideReplayWindow c => mk_input n (records acc) (outside acc ++ [c]) (skipped acc) (record_warnings acc)
     | Skipped k => mk_input n (records acc) (outside acc) (skipped acc ++ [k]) (record_warnings acc)
     end.
Definition normalize_json_lines (lines : list (list Z)) : result (Failure NormalizationError) NormalizationReport :=
  acc ← try_fold read_line (mk_input 0 [] [] [] []) (imap pair lines);
  events ← normalize_groups (records acc);
  Ok (mk_report (count acc) events (outside acc) (skipped acc) (record_warnings acc)).

End events.
End EquityQuote.
