(* ===== verification/EquityQuoteLaws.v ===== *)
(** What the quote normalizer promises: its groups against a reference
    definition, the prints and volumes it keeps, the events it yields. *)
From S2P Require Import Prelude Order Text Numeric Quantity Calendar Book Identity Signal Event EventCodec Effects EquityQuote.

Module EquityQuoteLaws.
Import Wire EquityQuote Effects(Failure, Returned, Panicked).

(** ** The reference definition of the groups *)

Definition realtime_at (t : MatchTime.MatchTime) (r : ValidatedRecord) : Prop := format r = StockRealtime ∧ match_time r = t.
#[global] Instance realtime_at_dec t r : Decision (realtime_at t r).
Proof. unfold realtime_at. apply _. Defined.
Definition group_at (rs : list ValidatedRecord) (t : MatchTime.MatchTime) : list ValidatedRecord := filter (realtime_at t) rs.
(** Whether the record is in a group with an intermediate print. *)
Definition paired (rs : list ValidatedRecord) (r : ValidatedRecord) : bool :=
  bool_decide (format r = StockRealtime) && existsb intermediate (group_at rs (match_time r)).

Section groups.
Context (config : NormalizerConfig).

(** What the record at an index contributes: the whole group where it
    starts, nothing further along, or its own event. *)
Definition part (rs : list ValidatedRecord) (entry : nat * ValidatedRecord) : result (Failure NormalizationError) (list Event.DomainEvent) :=
  let '(i, r) := entry in
  if paired rs r then
    if bool_decide (group_at (take i rs) (match_time r) = []) then normalize_intermediate_group config (group_at rs (match_time r)) else Ok []
  else e ← final_event config r; Ok [e].
Definition reference_groups (rs : list ValidatedRecord) : result (Failure NormalizationError) (list Event.DomainEvent) :=
  parts ← collect_results (part rs) (number 0 rs); Ok (concat parts).

(** *** The map of groups *)

Definition indices_from (k : nat) (rs : list ValidatedRecord) (t : MatchTime.MatchTime) : list nat :=
  (filter (λ e, realtime_at t e.2) (number k rs)).*1.

Lemma indices_from_cons k r rs t : indices_from k (r :: rs) t = (if decide (realtime_at t r) then [k] else []) ++ indices_from (S k) rs t.
Proof. unfold indices_from. rewrite number_cons, filter_cons. simpl. by destruct (decide (realtime_at t r)). Qed.

Definition group_step (m : gmap MatchTime.MatchTime (list nat)) (e : nat * ValidatedRecord) : gmap MatchTime.MatchTime (list nat) :=
  let '(index, r) := e in
  if bool_decide (format r = StockRealtime) then <[match_time r := default [] (m !! match_time r) ++ [index]]> m else m.

Lemma group_steps k rs m t : default [] (foldl group_step m (number k rs) !! t) = default [] (m !! t) ++ indices_from k rs t.
Proof.
  revert k m. induction rs as [|r rs IH]; intros k m; [simpl; by rewrite app_nil_r|].
  rewrite number_cons, indices_from_cons. cbn [foldl]. rewrite IH, app_assoc. f_equal. simpl.
  case_bool_decide as Hf.
  - destruct (decide (match_time r = t)) as [<-|Ht]; [rewrite lookup_insert_eq|rewrite lookup_insert_ne by done].
    + rewrite decide_True by done. done.
    + rewrite decide_False by (by intros [??]). by rewrite app_nil_r.
  - rewrite decide_False by (by intros [??]). by rewrite app_nil_r.
Qed.
Lemma group_steps_nonempty k rs m t l : (∀ t l, m !! t = Some l → l ≠ []) → foldl group_step m (number k rs) !! t = Some l → l ≠ [].
Proof.
  revert k m. induction rs as [|r rs IH]; intros k m Hm; [apply Hm|]. rewrite number_cons. cbn [foldl]. apply IH. simpl.
  intros t' l'. case_bool_decide; [|apply Hm]. intros [[_ <-]|[_ Hl]]%lookup_insert_Some; [by destruct (default [] _)|by eapply Hm].
Qed.
Lemma realtime_groups_lookup rs t l : realtime_groups rs !! t = Some l ↔ l = indices_from 0 rs t ∧ l ≠ [].
Proof.
  unfold realtime_groups. rewrite imap_pair. fold group_step. pose proof (group_steps 0 rs ∅ t) as Hd. rewrite lookup_empty in Hd. simpl in Hd.
  split.
  - intros H. pose proof (group_steps_nonempty 0 rs ∅ t l ltac:(intros ??; by rewrite lookup_empty) H) as Hl.
    change (foldl group_step ∅ (number 0 rs) !! t = Some l) in H. rewrite H in Hd. done.
  - intros [-> Hl]. change (foldl group_step ∅ (number 0 rs) !! t = Some (indices_from 0 rs t)).
    destruct (foldl group_step ∅ (number 0 rs) !! t); simpl in Hd; [by subst|by rewrite <-Hd in Hl].
Qed.

(** *** The indices of a group *)

Lemma elem_of_indices k rs t i : i ∈ indices_from k rs t ↔ ∃ j r, i = (k + j)%nat ∧ rs !! j = Some r ∧ realtime_at t r.
Proof.
  unfold indices_from. rewrite list_elem_of_fmap. split.
  - intros ([j r] & -> & [Ht Hin]%list_elem_of_filter). apply elem_of_number in Hin as (n & -> & Hn). by exists n, r.
  - intros (j & r & -> & Hj & Ht). exists ((k + j)%nat, r). split; [done|]. apply list_elem_of_filter. split; [done|].
    apply elem_of_number. by exists j.
Qed.
Lemma indices_sorted k rs t : StronglySorted lt (indices_from k rs t).
Proof.
  revert k. induction rs as [|r rs IH]; intros k; [constructor|]. rewrite indices_from_cons.
  destruct (decide (realtime_at t r)); simpl; [|done]. constructor; [done|]. apply List.Forall_forall. intros i Hi.
  apply list_elem_of_In, elem_of_indices in Hi as (j & _ & -> & _). lia.
Qed.
Lemma least_sorted l : StronglySorted lt l → least l = head l.
Proof.
  intros Hs. destruct Hs as [|i l _ Hl]; [done|]. simpl. f_equal. induction Hl as [|j l Hj _ IH]; [done|].
  cbn [foldl]. by rewrite Nat.min_l by lia.
Qed.
Lemma group_records_from k rs rs0 t : drop k rs0 = rs → group_records rs0 (indices_from k rs t) = Ok (group_at rs t).
Proof.
  unfold group_records, group_at. revert k. induction rs as [|r rs IH]; intros k Hd; [done|].
  rewrite indices_from_cons, filter_cons. assert (Hr : rs0 !! k = Some r) by (rewrite <-(Nat.add_0_r k), <-lookup_drop, Hd; done).
  assert (Hd' : drop (S k) rs0 = rs) by (rewrite <-Nat.add_1_r, <-drop_drop, Hd; done).
  destruct (decide (realtime_at t r)); simpl; [rewrite Hr; simpl|]; by rewrite (IH _ Hd').
Qed.
Lemma group_at_app rs rs' t : group_at (rs ++ rs') t = group_at rs t ++ group_at rs' t.
Proof. apply list.filter_app. Qed.
Lemma group_at_nil rs t : group_at rs t = [] ↔ ∀ r, r ∈ rs → ¬ realtime_at t r.
Proof.
  unfold group_at. split.
  - intros H r Hr Ht. assert (r ∈ @nil ValidatedRecord) as []%not_elem_of_nil. rewrite <-H. by apply list_elem_of_filter.
  - intros H. destruct (filter _ rs) as [|r l] eqn:E; [done|]. exfalso.
    assert (Hr : r ∈ filter (realtime_at t) rs) by (rewrite E; by left). apply list_elem_of_filter in Hr as [Ht Hr]. by eapply H.
Qed.

(** A group starts at the first of its records. *)
Lemma head_indices rs t i : head (indices_from 0 rs t) = Some i ↔
  group_at (take i rs) t = [] ∧ ∃ r, rs !! i = Some r ∧ realtime_at t r.
Proof.
  assert (∀ k, head (indices_from k rs t) = Some i ↔ ∃ j, i = (k + j)%nat ∧ group_at (take j rs) t = [] ∧ ∃ r, rs !! j = Some r ∧ realtime_at t r) as H.
  { induction rs as [|r rs IH]; intros k; [simpl; naive_solver|]. rewrite indices_from_cons.
    destruct (decide (realtime_at t r)) as [Ht|Ht]; simpl.
    - split; [intros [= <-]; exists 0%nat; naive_solver|]. intros ([|j] & -> & Hg & _); [f_equal; lia|].
      simpl in Hg. unfold group_at in Hg. rewrite filter_cons_True in Hg by done. done.
    - rewrite IH. split.
      + intros (j & -> & Hg & Hr). exists (S j). split; [lia|]. simpl. split; [|done]. unfold group_at. by rewrite filter_cons_False.
      + intros ([|j] & -> & Hg & r' & Hr & Ht'); [by injection Hr as <-|]. exists j. split; [lia|]. simpl in Hg. unfold group_at in Hg.
        rewrite filter_cons_False in Hg by done. eauto. }
  rewrite H. split; [by intros (j & -> & ?)|]. intros ?. by exists i.
Qed.

(** *** The loop over the groups *)

Definition live (rs : list ValidatedRecord) (t : MatchTime.MatchTime) : bool := existsb intermediate (group_at rs t).
Definition group_events (rs : list ValidatedRecord) (t : MatchTime.MatchTime) : result (Failure NormalizationError) (list Event.DomainEvent) :=
  normalize_intermediate_group config (group_at rs t).
Definition mark (consumed : list bool) (indices : list nat) : list bool :=
  foldl (λ consumed index, <[index := true]> consumed) consumed indices.

Lemma live_head rs t : live rs t = true → ∃ i, head (indices_from 0 rs t) = Some i.
Proof.
  unfold live. intros (r & Hr & _)%existsb_exists. apply list_elem_of_In, list_elem_of_filter in Hr as [Ht Hr].
  apply list_elem_of_lookup_1 in Hr as [j Hj].
  assert (Hin : j ∈ indices_from 0 rs t) by (apply elem_of_indices; by exists j, r).
  destruct (indices_from 0 rs t); [by apply not_elem_of_nil in Hin|by eexists].
Qed.
Lemma normalize_group_at rs acc t : normalize_group config rs acc (indices_from 0 rs t) =
  if live rs t then
    anchor ← ok_or (head (indices_from 0 rs t)) Panicked;
    events ← group_events rs t;
    Ok (<[anchor := events]> acc.1, mark acc.2 (indices_from 0 rs t))
  else Ok acc.
Proof.
  unfold normalize_group. rewrite (group_records_from 0 rs rs t) by done. simpl. fold (live rs t).
  destruct (live rs t); simpl; [|done]. by rewrite least_sorted by apply indices_sorted.
Qed.

Lemma length_mark l is_ : length (mark l is_) = length l.
Proof. unfold mark. revert l. induction is_ as [|i is_ IH]; intros l; [done|]. cbn [foldl]. by rewrite IH, length_insert. Qed.
Lemma mark_lookup l is_ i : mark l is_ !! i = Some true ↔ l !! i = Some true ∨ (i < length l)%nat ∧ i ∈ is_.
Proof.
  unfold mark. revert l. induction is_ as [|j is_ IH]; intros l; cbn [foldl]; [rewrite elem_of_nil; naive_solver|].
  rewrite IH, length_insert, list_lookup_insert_Some, elem_of_cons. split.
  - intros [[(-> & _ & ?)|[? ?]]|[? ?]]; auto.
  - intros [H|[Hl [->|H]]]; [|by auto|by auto]. destruct (decide (j = i)) as [->|]; [|by auto].
    left. left. split; [done|]. split; [done|]. by eapply lookup_lt_Some.
Qed.

(** What the loop has done for the groups at the times of [done_]. *)
Record grouped_state (rs : list ValidatedRecord) (done_ : list MatchTime.MatchTime) (acc : gmap nat (list Event.DomainEvent) * list bool) : Prop := {
  grouped_events i es : acc.1 !! i = Some es ↔
    ∃ t, t ∈ done_ ∧ live rs t = true ∧ head (indices_from 0 rs t) = Some i ∧ group_events rs t = Ok es;
  consumed_length : length acc.2 = length rs;
  consumed_records i : acc.2 !! i = Some true ↔ ∃ t, t ∈ done_ ∧ live rs t = true ∧ i ∈ indices_from 0 rs t }.

Lemma indices_disjoint rs t u i : i ∈ indices_from 0 rs t → i ∈ indices_from 0 rs u → t = u.
Proof. intros (j & r & -> & Hr & _ & <-)%elem_of_indices (k & r' & Hj & Hr' & _ & <-)%elem_of_indices. simpl in Hj. subst. by simplify_eq. Qed.

Lemma grouped_step rs done_ acc t acc' : t ∉ done_ → grouped_state rs done_ acc →
  normalize_group config rs acc (indices_from 0 rs t) = Ok acc' → grouped_state rs (t :: done_) acc'.
Proof.
  intros Ht [Hg Hl Hc]. rewrite normalize_group_at. destruct (live rs t) eqn:E.
  - destruct (head (indices_from 0 rs t)) as [a|] eqn:Ea; [|done]. simpl. rewrite bind_Ok. intros (es & He & [= <-]). split; cbn [fst snd].
    + intros i fs. rewrite lookup_insert_Some, Hg. split.
      * intros [[<- <-]|[Hi (u & Hu & ?)]]; [exists t; split; [by left|done]|exists u; split; [by right|done]].
      * intros (u & [->|Hu]%elem_of_cons & Hlu & Hhu & Hf); [left; split; congruence|]. right. split; [|by exists u].
        intros ->. apply head_in in Ea, Hhu. by rewrite (indices_disjoint _ _ _ _ Ea Hhu) in Ht.
    + by rewrite length_mark.
    + intros i. rewrite mark_lookup, Hc. split.
      * intros [(u & Hu & ?)|[_ Hi]]; [exists u; split; [by right|done]|exists t; split; [by left|done]].
      * intros (u & [->|Hu]%elem_of_cons & Hlu & Hi); [|left; by exists u]. right. split; [|done].
        apply elem_of_indices in Hi as (j & r & -> & Hr & _). rewrite Hl. by eapply lookup_lt_Some.
  - intros [= <-]. split; [|done|].
    + intros i es. rewrite Hg. split; intros (u & Hu & Hlu & ?); exists u; (split; [|done]); [by right|].
      apply elem_of_cons in Hu as [->|]; [congruence|done].
    + intros i. rewrite Hc. split; intros (u & Hu & Hlu & ?); exists u; (split; [|done]); [by right|].
      apply elem_of_cons in Hu as [->|]; [congruence|done].
Qed.

Lemma grouped_start rs : grouped_state rs [] (∅, replicate (length rs) false).
Proof.
  split; cbn [fst snd]; [|by rewrite length_replicate|].
  - intros i es. rewrite lookup_empty. split; [done|]. intros (t & Ht & _). by apply not_elem_of_nil in Ht.
  - intros i. rewrite lookup_replicate. split; [by intros []|]. intros (t & Ht & _). by apply not_elem_of_nil in Ht.
Qed.
Lemma grouped_fold rs ts done_ acc : NoDup ts → (∀ t, t ∈ ts → t ∉ done_) → grouped_state rs done_ acc →
  match try_fold (normalize_group config rs) acc (indices_from 0 rs <$> ts) with
  | Ok acc' => (∀ t, t ∈ ts → live rs t = true → is_ok (group_events rs t) = true) ∧ grouped_state rs (reverse ts ++ done_) acc'
  | Err _ => ∃ t, t ∈ ts ∧ live rs t = true ∧ is_ok (group_events rs t) = false
  end.
Proof.
  revert done_ acc. induction ts as [|t ts IH]; intros done_ acc Hnd Hd Hs; [split; [intros t Ht; by apply not_elem_of_nil in Ht|done]|].
  apply list.NoDup_cons in Hnd as [Ht Hnd]. cbn [fmap list_fmap try_fold].
  destruct (normalize_group config rs acc (indices_from 0 rs t)) as [acc1|e] eqn:E; simpl.
  - pose proof E as Hok. rewrite normalize_group_at in Hok.
    apply grouped_step with (done_ := done_) in E; [|apply Hd; by left|done].
    specialize (IH (t :: done_) acc1 Hnd). destruct (try_fold _ _ _); destruct IH as [H1 H2]; try done.
    + intros u Hu [->|]%elem_of_cons; [done|]. eapply Hd; [by right|done].
    + split.
      * intros u [->|Hu]%elem_of_cons Hl; [|by apply H1]. rewrite Hl in Hok. destruct (head _); [|done]. simpl in Hok.
        by destruct (group_events rs t).
      * by rewrite reverse_cons, <-app_assoc.
    + intros u Hu [->|]%elem_of_cons; [done|]. eapply Hd; [by right|done].
    + exists H1. destruct H2 as (? & ? & ?). split; [by right|done].
  - rewrite normalize_group_at in E. destruct (live rs t) eqn:El; [|done]. exists t. split; [by left|]. split; [done|].
    destruct (live_head _ _ El) as [i Hi]. rewrite Hi in E. simpl in E. by destruct (group_events rs t).
Qed.

(** The times of the groups. *)
Definition times (rs : list ValidatedRecord) : list MatchTime.MatchTime := btree_keys (realtime_groups rs).
Lemma groups_at_times rs : btree_values (realtime_groups rs) = indices_from 0 rs <$> times rs.
Proof.
  unfold btree_values, times, btree_keys. rewrite <-list_fmap_compose. apply list_fmap_ext. intros n [t l] Hn. simpl.
  apply list_elem_of_lookup_2, elem_of_btree_entries, realtime_groups_lookup in Hn as [-> _]. done.
Qed.
Lemma elem_of_times rs r : r ∈ rs → format r = StockRealtime → match_time r ∈ times rs.
Proof.
  intros Hr Hf. apply elem_of_btree_keys. exists (indices_from 0 rs (match_time r)). apply realtime_groups_lookup. split; [done|].
  apply list_elem_of_lookup_1 in Hr as [j Hj]. assert (H : j ∈ indices_from 0 rs (match_time r)) by (apply elem_of_indices; by exists j, r).
  intros E. rewrite E in H. by apply not_elem_of_nil in H.
Qed.

(** *** The last loop *)

Definition emitted (G : gmap nat (list Event.DomainEvent)) (consumed : list bool) (entry : nat * ValidatedRecord) :
    result (Failure NormalizationError) (list Event.DomainEvent) :=
  let '(i, r) := entry in
  done ← ok_or (consumed !! i) Panicked;
  if (done : bool) then Ok (default [] (G !! i)) else e ← final_event config r; Ok (default [] (G !! i) ++ [e]).

Lemma emit_loop G consumed k rs g es : (∀ i, (k ≤ i)%nat → g !! i = G !! i) →
  snd <$> try_fold (emit_record config consumed) (g, es) (number k rs) =
  (λ parts, es ++ concat parts) <$> collect_results (emitted G consumed) (number k rs).
Proof.
  revert k g es. induction rs as [|r rs IH]; intros k g es Hg; [simpl; by rewrite app_nil_r|].
  rewrite number_cons. cbn [try_fold collect_results emit_record emitted fst snd]. rewrite <-(Hg k) by lia.
  set (acc := match g !! k with Some group => (delete k g, es ++ group) | None => (g, es) end).
  assert (Hacc : acc.2 = es ++ default [] (g !! k) ∧ ∀ i, (S k ≤ i)%nat → acc.1 !! i = G !! i).
  { unfold acc. destruct (g !! k); simpl; (split; [by rewrite ?app_nil_r|]); intros i Hi; rewrite ?lookup_delete_ne by lia; apply Hg; lia. }
  destruct acc as [g' es']. cbn [fst snd] in Hacc. destruct Hacc as [-> Hg']. destruct (consumed !! k) as [[]|]; simpl; [|destruct (final_event config r) as [e|]; simpl; [|done]|done].
  - rewrite (IH (S k) g') by done. destruct (collect_results _ (number (S k) rs)); simpl; [by rewrite app_assoc|done].
  - rewrite (IH (S k) g') by done. destruct (collect_results _ (number (S k) rs)); simpl; [by rewrite !app_assoc|done].
Qed.

Lemma emitted_part rs acc i r : rs !! i = Some r → grouped_state rs (reverse (times rs) ++ []) acc →
  (∀ t, t ∈ times rs → live rs t = true → is_ok (group_events rs t) = true) → emitted acc.1 acc.2 (i, r) = part rs (i, r).
Proof.
  intros Hr [Hg Hl Hc] Hok. rewrite app_nil_r in Hg, Hc. unfold emitted, part.
  assert (Hc' : acc.2 !! i = Some (paired rs r)).
  { destruct (lookup_lt_is_Some_2 acc.2 i) as [b Hb]; [rewrite Hl; by eapply lookup_lt_Some|]. rewrite Hb. f_equal.
    apply Bool.eq_iff_eq_true. unfold paired. rewrite andb_true_iff, bool_decide_eq_true. split.
    - intros ->. apply Hc in Hb as (t & _ & Hlt & (j & r' & -> & Hj & Hf & <-)%elem_of_indices). simpl in Hr. by simplify_eq.
    - intros [Hf Hlive]. enough (acc.2 !! i = Some true) by congruence. apply Hc. exists (match_time r).
      rewrite elem_of_reverse. split; [apply elem_of_times; [by eapply list_elem_of_lookup_2|done]|]. split; [done|].
      apply elem_of_indices. by exists i, r. }
  rewrite Hc'. simpl. destruct (paired rs r) eqn:Ep.
  - unfold paired in Ep. apply andb_true_iff in Ep as [Hf%bool_decide_eq_true Hlive]. case_bool_decide as Hfirst.
    + assert (Ht : match_time r ∈ times rs) by (apply elem_of_times; [by eapply list_elem_of_lookup_2|done]).
      specialize (Hok _ Ht Hlive). fold (group_events rs (match_time r)) . destruct (group_events rs (match_time r)) as [es|] eqn:E; [|done].
      enough (acc.1 !! i = Some es) as -> by done. apply Hg. exists (match_time r). rewrite elem_of_reverse. split; [done|]. split; [done|].
      split; [|done]. apply head_indices. split; [done|]. by exists r.
    + destruct (acc.1 !! i) as [es|] eqn:E; [|done]. apply Hg in E as (t & _ & _ & Hh%head_indices & _). destruct Hh as (Hn & r' & Hr' & _ & <-).
      simplify_eq.
  - destruct (acc.1 !! i) as [es|] eqn:E; [|done]. apply Hg in E as (t & _ & Hlive & Hh%head_indices & _).
    destruct Hh as (_ & r' & Hr' & Hf & <-). simplify_eq. unfold paired, live in *. by rewrite bool_decide_eq_true_2, Hlive in Ep by done.
Qed.

Lemma first_of_group rs t : live rs t = true → ∃ i r, rs !! i = Some r ∧ part rs (i, r) = group_events rs t.
Proof.
  intros Hl. destruct (live_head _ _ Hl) as [i Hi]. apply head_indices in Hi as (Hn & r & Hr & Hf & <-). exists i, r. split; [done|].
  unfold part, paired. unfold live in Hl. by rewrite Hl, (bool_decide_eq_true_2 (format r = _)), (bool_decide_eq_true_2 (_ = [])) by done.
Qed.

Lemma normalize_groups_reference rs evs : normalize_groups config rs = Ok evs ↔ reference_groups rs = Ok evs.
Proof.
  unfold normalize_groups, reference_groups. rewrite groups_at_times.
  pose proof (grouped_fold rs (times rs) [] (∅, replicate (length rs) false)) as H.
  destruct (try_fold (normalize_group config rs) _ _) as [[g c]|e]; simpl.
  - destruct H as [Hok Hs]; [apply NoDup_btree_keys|intros ??; apply not_elem_of_nil|apply grouped_start|].
    rewrite imap_pair. pose proof (emit_loop g c 0 rs g [] ltac:(done)) as He.
    rewrite (collect_results_ext _ (part rs)) in He; [|].
    + destruct (try_fold (emit_record config c) _ _) as [[g' es]|]; simpl in *; destruct (collect_results (part rs) _); simpl in *; simplify_eq; naive_solver.
    + intros [i r] (j & -> & Hj)%elem_of_number. by apply (emitted_part rs (g, c)).
  - destruct H as (t & Ht & Hl & Hf); [apply NoDup_btree_keys|intros ??; apply not_elem_of_nil|apply grouped_start|].
    split; [done|]. destruct (first_of_group _ _ Hl) as (i & r & Hr & Hp). rewrite <-Hp in Hf.
    assert (Hin : (i, r) ∈ number 0 rs) by (apply elem_of_number; by exists i).
    pose proof (collect_results_fails _ _ _ Hin Hf) as Hc. by destruct (collect_results (part rs) _).
Qed.

(** *** Every record is in one part *)

(** The records an index contributes. *)
Definition members (rs : list ValidatedRecord) (entry : nat * ValidatedRecord) : list ValidatedRecord :=
  let '(i, r) := entry in
  if paired rs r then if bool_decide (group_at (take i rs) (match_time r) = []) then group_at rs (match_time r) else [] else [r].

Lemma filter_split {A} (P Q R : A → Prop) `{!∀ x, Decision (P x), !∀ x, Decision (Q x), !∀ x, Decision (R x)} l :
  (∀ x, x ∈ l → (P x ↔ Q x ∨ R x) ∧ ¬ (Q x ∧ R x)) → filter P l ≡ₚ filter Q l ++ filter R l.
Proof.
  induction l as [|x l IH]; intros Hx; [done|]. destruct (Hx x) as [HP Hd]; [by left|].
  specialize (IH (λ y Hy, Hx y ltac:(by right))). rewrite !filter_cons. destruct (decide (Q x)) as [HQ|HQ].
  - rewrite (decide_True (P:=P x)), (decide_False (P:=R x)) by naive_solver. simpl. by rewrite IH.
  - destruct (decide (R x)).
    + rewrite (decide_True (P:=P x)) by naive_solver. by rewrite <-Permutation_middle, IH.
    + rewrite (decide_False (P:=P x)) by naive_solver. done.
Qed.

(** A record still due when the records before it are [pre]. *)
Definition due (rs pre : list ValidatedRecord) (r : ValidatedRecord) : Prop := paired rs r = true → group_at pre (match_time r) = [].
#[local] Instance due_dec rs pre r : Decision (due rs pre r).
Proof. unfold due. apply _. Defined.

Lemma paired_realtime rs r r' : paired rs r = true → realtime_at (match_time r) r' → paired rs r' = true.
Proof. unfold paired. intros [_ Hl]%andb_true_iff [Hf ->]. by rewrite Hl, bool_decide_eq_true_2. Qed.
Lemma due_snoc rs pre r r' : due rs (pre ++ [r]) r' ↔ due rs pre r' ∧ ¬ (paired rs r' = true ∧ realtime_at (match_time r') r).
Proof.
  unfold due. rewrite group_at_app, app_nil. unfold group_at at 2. rewrite filter_cons. destruct (decide (realtime_at (match_time r') r)); naive_solver.
Qed.

Lemma members_due rs pre suf : rs = pre ++ suf → number (length pre) suf ≫= members rs ≡ₚ filter (due rs pre) suf.
Proof.
  revert pre. induction suf as [|r suf IH]; intros pre H; [done|]. rewrite number_cons, filter_cons. cbn [mbind list_bind].
  assert (Hpre : take (length pre) rs = pre) by (rewrite H; by apply take_app_length').
  specialize (IH (pre ++ [r])). rewrite length_app, Nat.add_1_r in IH. rewrite IH by (rewrite H, <-app_assoc; done). clear IH.
  unfold members at 1. rewrite Hpre. destruct (paired rs r) eqn:Ep.
  - case_bool_decide as Hg.
    + rewrite decide_True by (by unfold due). pose proof Ep as Hf. unfold paired in Hf. apply andb_true_iff in Hf as [Hf%bool_decide_eq_true _].
      assert (group_at rs (match_time r) = r :: group_at suf (match_time r)) as ->.
      { rewrite H, group_at_app, Hg, app_nil_l. unfold group_at. by rewrite filter_cons_True. }
      simpl. f_equiv. symmetry. apply filter_split. intros r' _. rewrite due_snoc. unfold due. split.
      * destruct (decide (realtime_at (match_time r) r')) as [Ht|Ht].
        { split; [by left|]. intros _ _. destruct Ht as [_ ->]. done. }
        split; [|by intros [?|[? _]]]. intros Hd. right. split; [done|]. intros [Hp [_ Hm]]. apply Ht. split; [|done].
        unfold paired in Hp. by apply andb_true_iff in Hp as [?%bool_decide_eq_true _].
      * intros (Ht & _ & Hn). apply Hn. pose proof Ht as [_ Hm]. split; [by eapply paired_realtime|]. by rewrite Hm.
    + rewrite decide_False by (unfold due; naive_solver). simpl. apply reflexive_eq. apply list_filter_iff. intros r'.
      rewrite due_snoc. split; [by intros []|]. intros Hd. split; [done|]. intros [Hp [_ Ht]]. apply Hg. rewrite <-Hd by done. by rewrite Ht.
  - rewrite decide_True by (unfold due; congruence). simpl. f_equiv. apply reflexive_eq. apply list_filter_iff. intros r'.
    rewrite due_snoc. split; [by intros []|]. intros Hd. split; [done|]. intros [Hp Ht]. by rewrite (paired_realtime _ _ _ Hp Ht) in Ep.
Qed.
Lemma members_perm rs : number 0 rs ≫= members rs ≡ₚ rs.
Proof.
  rewrite (members_due rs [] rs) by done. apply reflexive_eq.
  rewrite (list_filter_iff _ (λ _, True)) by (intros r; unfold due; done). induction rs as [|r rs IH]; [done|]. by rewrite filter_cons_True, IH.
Qed.

End groups.
End EquityQuoteLaws.
