(* ===== verification/EquityQuoteRuns.v ===== *)
(** The records the quote normalizer accepts and the events they become:
    both are well-formed, and nothing panics on the way. *)
From S2P Require Import Prelude Order Text Numeric Quantity Calendar Book Identity Signal Event EventCodec MarketState Reducer Ordering Replay Effects Sessions SessionsLaws EquityQuote EquityQuoteLaws.

Module EquityQuoteEvents.
Import Wire EquityQuote EquityQuoteLaws Effects(Failure, Returned, Panicked, yields, yields_bind, yields_own, yields_mono, yields_collect, yields_fold) Ordering(realtime_rank).
Import EventCodec(signal_obs_wf, volume_obs_wf, payload_wf, units_agree, new_quote_Ok, new_auction_Ok, new_batch_Ok).

(** ** Valid records *)

Definition trading_unit (u : Quantity.QuantityUnit) : Prop := u = Quantity.TradingUnit.
(** A well-formed book in trading units. *)
Definition book_valid (b : Book.CompleteBookSnapshot) : Prop :=
  Book.snapshot_wf b ∧ ∀ u, u ∈ Book.side_units (Book.bids b) ++ Book.side_units (Book.asks b) → trading_unit u.
Definition deal_valid (t : Trade.ObservedTrade) : Prop :=
  Trade.wf t ∧ trading_unit (Trade.trade_unit t) ∧ Trade.observation_kind t = Trade.Regular.
Definition annotations_valid (a : QuoteAnnotations) : Prop := is_u8 (status_flags_raw a) ∧ is_u8 (limit_flags_raw a).

(** What [parse_record] promises of a record. *)
Record record_valid (config : NormalizerConfig) (r : ValidatedRecord) : Prop := {
  valid_book b : book r = Some b → book_valid b;
  valid_deal t : deal r = Some t → deal_valid t;
  valid_volume : Volume.wf (cumulative_volume r) ∧ trading_unit (Volume.unit (cumulative_volume r));
  valid_annotations : annotations_valid (annotations r);
  valid_shape : if intermediate r then format r = StockRealtime ∧ book r = None ∧ is_Some (deal r) else is_Some (book r);
  valid_format : classify_format (profile config) (SourceFormat.as_bytes (source_format r)) = Some (Some (format r));
  valid_time : in_replay_window config (match_time r) = true ∧ MatchTime.wf (match_time r) }.

Lemma price_parse_wf raw p : Price.parse raw = Ok p → Price.wf p.
Proof.
  unfold Price.parse, Price.wf. destruct (Decimal.parse raw) as [d|] eqn:E; simpl; [|done]. intros [= <-].
  exact (proj1 (Decimal.parse_sound _ _ E)).
Qed.
Lemma price_positive_Ok d p : Price.positive d = Ok p → p = Price.new d.
Proof. unfold Price.positive. by destruct (_ <? _); intros [= <-]. Qed.
Lemma price_parse_positive_wf raw p : Price.parse_positive raw = Ok p → Price.wf p.
Proof.
  unfold Price.parse_positive. destruct (Decimal.parse raw) as [d|] eqn:E; simpl; [|done]. intros ->%price_positive_Ok.
  exact (proj1 (Decimal.parse_sound _ _ E)).
Qed.

Lemma parse_book_price_wf n c raw p : parse_book_price n c raw = Ok (Some p) → Price.wf p.
Proof.
  unfold parse_book_price. rewrite bind_Ok. intros (q & Hq%map_err_Ok & H). destruct (_ =? 0); [done|].
  apply fmap_Ok in H as (p' & H%map_err_Ok%price_positive_Ok & [= ->]). subst. by apply price_parse_wf in Hq.
Qed.

Definition level_valid (l : Book.BookLevel) : Prop := Book.level_wf l ∧ trading_unit (Book.level_unit l).
Definition order_valid (m : option Quantity.Quantity) : Prop := ∀ q, m = Some q → Quantity.wf q ∧ trading_unit (Quantity.unit q).

Lemma parse_levels_valid n c i m ls wire m' ls' : Forall level_typed wire → order_valid m → Forall level_valid ls →
  parse_levels n c i m ls wire = Ok (m', ls') → order_valid m' ∧ Forall level_valid ls'.
Proof.
  revert i m ls. induction wire as [|w wire IH]; intros i m ls Hw Hm Hls; cbn [parse_levels]; [by intros [= <- <-]|].
  apply Forall_cons_iff in Hw as [Ht Hw]. rewrite bind_Ok. intros (q & Hq%map_err_Ok & H). apply bind_Ok in H as (p & Hp & H).
  assert (Hqv : Quantity.wf q ∧ trading_unit (Quantity.unit q)).
  { split; [by eapply Quantity.new_wf|]. by apply Quantity.new_quantity_Ok in Hq as [-> _]. }
  destruct p as [p|].
  - eapply IH; [done|done| |exact H]. apply Forall_app. split; [done|]. constructor; [|done].
    split; [|apply Hqv]. split; [by eapply parse_book_price_wf|apply Hqv].
  - destruct (i =? 0)%nat; [|done]. eapply IH; [done| |done|exact H]. by intros ? [= <-].
Qed.

Lemma parse_side_valid n c k wire side : Forall level_typed wire → parse_side n c k wire = Ok side →
  Book.side_wf side ∧ Book.kind side = k ∧ ∀ u, u ∈ Book.side_units side → trading_unit u.
Proof.
  intros Hw. unfold parse_side. rewrite bind_Ok. intros ([m ls] & Hl & H%map_err_Ok).
  apply parse_levels_valid in Hl as [Hm Hls]; [|done|by intros ?|constructor].
  unfold Book.with_market_order_quantity in H. destruct (Nat.ltb_spec Book.BOOK_DEPTH (length ls)) as [|Hlen]; [done|].
  apply Book.from_parts_Ok in H as [-> Hv]; [|by apply Book.length_level_slots].
  assert (Hlv : Book.levels (Book.mk_side k m ((Some <$> ls) ++ replicate (Book.BOOK_DEPTH - length ls) None)) = ls) by apply Book.map_while_some_app.
  split; [|split; [done|]].
  - split; [done|]. rewrite Hlv. split; [intros q Hq; by apply Hm|]. eapply Forall_impl; [|exact Hls]. by intros ? [].
  - intros u. unfold Book.side_units. rewrite Hlv, elem_of_app. simpl. intros [Hu|Hu].
    + destruct m as [q|]; [|by apply not_elem_of_nil in Hu]. apply list_elem_of_singleton in Hu as ->. by apply Hm.
    + apply list_elem_of_fmap in Hu as (l & -> & Hl%list_elem_of_In). rewrite List.Forall_forall in Hls. by apply Hls.
Qed.
Lemma parse_book_valid n c bids asks b : Forall level_typed bids → Forall level_typed asks → parse_book n c bids asks = Ok b → book_valid b.
Proof.
  intros Hb Ha. unfold parse_book. rewrite bind_Ok. intros (bs & Hbs%parse_side_valid & H); [|done].
  apply bind_Ok in H as (as_ & Has%parse_side_valid & H%map_err_Ok); [|done]. destruct Hbs as (Hbw & _ & Hbu), Has as (Haw & _ & Hau).
  apply Book.new_snapshot_Ok in H as [-> Hv]; [|apply Hbw|apply Haw]. split; [done|]. intros u. rewrite elem_of_app. intros [?|?]; auto.
Qed.

(** The book of a record: none for an intermediate print, which is a realtime
    record with a deal. *)
Lemma record_book_Ok n c f w d b : record_book n c f w d = Ok b →
  if intermediate_print w then f = StockRealtime ∧ b = None ∧ is_Some d
  else ∃ b', parse_book n c (wire_bids w) (wire_asks w) = Ok b' ∧ b = Some b'.
Proof.
  unfold record_book. destruct (intermediate_print w); [|by rewrite fmap_Ok].
  case_bool_decide as Hf; [done|]. destruct (negb _); [done|]. case_bool_decide as Hd; [done|]. intros [= <-].
  split; [by destruct f|]. split; [done|]. by destruct d.
Qed.

Lemma match_time_parse_wf s t : MatchTime.parse s = Ok t → MatchTime.wf t.
Proof.
  unfold MatchTime.parse, MatchTime.parse_match_time. intros H. destruct (_ || _); [done|].
  do 3 (apply bind_Ok in H as (? & _ & H)). apply bind_Ok in H as (_ & _ & H). do 3 (apply bind_Ok in H as (? & _ & H)).
  destruct (_ || _); [done|]. apply bind_Ok in H as ([] & _ & H). do 7 (apply bind_Ok in H as (? & _ & H)).
  apply bind_Ok in H as (us & Hus & [= <-]). unfold MatchTime.wf, is_i64. simpl.
  unfold ok_or, to_i64 in Hus. destruct (checked _ _ _) eqn:E; [|done]. injection Hus as ->. apply checked_Some in E as [-> ?]. lia.
Qed.

Lemma classify_format_nonempty p f o : classify_format p f = Some o → f ≠ [].
Proof. intros H ->. by destruct p. Qed.

Section records.
Context {J : QuoteJson} {HJ : TypedJson J} (config : NormalizerConfig).

Lemma parse_deal_valid n c raw d z : parse_deal n c raw = Ok (d, z) → ∀ t, d = Some t → deal_valid t.
Proof.
  unfold parse_deal. case_bool_decide as Hnull; [by intros [= <- <-]|]. rewrite bind_Ok. intros (w & Hw%map_err_Ok & H).
  apply bind_Ok in H as (p & Hp%map_err_Ok%price_parse_positive_wf & H). destruct (_ =? 0); [by simplify_eq|].
  apply bind_Ok in H as (q & Hq%map_err_Ok & [= <- <-]). intros t [= <-]. pose proof (deal_from_str_typed _ _ Hw) as Ht.
  split; [split; [done|by eapply Quantity.new_wf]|]. apply Quantity.new_quantity_Ok in Hq as [-> _]. done.
Qed.

Lemma parse_quote_valid n json e c t f r ws : classify_format (profile config) (wire_format e) = Some (Some f) →
  in_replay_window config t = true → MatchTime.wf t → parse_quote config n json e c t f = Ok (Accepted r ws) → record_valid config r.
Proof.
  intros Hf Ht Htw. unfold parse_quote. rewrite bind_Ok. intros (w & Hw%map_err_Ok%map_err_Ok & H).
  apply quote_from_str_typed in Hw as (Hb & Ha & Hv & Hl & Hs). destruct (bool_decide (f = StockSnapshot) && _); [done|].
  apply bind_Ok in H as ([d z] & Hd%map_err_Ok & H). apply bind_Ok in H as ([] & _ & H).
  apply bind_Ok in H as (b & Hbk%map_err_Ok & H). apply bind_Ok in H as (sf & Hsf%map_err_Ok & [= <- _]).
  assert (Hsf' : SourceFormat.as_bytes sf = wire_format e) by (unfold SourceFormat.new in Hsf; destruct (wire_format e); by simplify_eq).
  apply record_book_Ok in Hbk. split; cbn [book deal cumulative_volume annotations intermediate format source_format match_time].
  - intros b' ->. destruct (intermediate_print w); [by destruct Hbk as (_ & ? & _)|]. destruct Hbk as (b & Hbk & [= ->]).
    exact (parse_book_valid _ _ _ _ _ Hb Ha Hbk).
  - by eapply parse_deal_valid.
  - done.
  - unfold new_annotations, annotations_valid. by destruct (market config).
  - destruct (intermediate_print w); [done|]. by destruct Hbk as (b' & _ & ->).
  - by rewrite Hsf'.
  - done.
Qed.

Lemma parse_record_valid n json r ws : parse_record config n json = Ok (Accepted r ws) → record_valid config r.
Proof.
  unfold parse_record. rewrite bind_Ok. intros ([[[e c] t] o] & He%map_err_Ok & H). destruct o as [f|]; [|done].
  destruct (in_replay_window config t) eqn:Hw; [|done]. simpl in H. unfold parse_envelope in He.
  apply bind_Ok in He as (e' & _ & He). do 3 (apply bind_Ok in He as ([] & _ & He)). apply bind_Ok in He as (t' & Ht%map_err_Ok & He).
  apply bind_Ok in He as (t'' & _ & He). apply bind_Ok in He as (o' & Ho & [= -> <- -> ->]).
  eapply parse_quote_valid; [|exact Hw|by eapply match_time_parse_wf|exact H]. by destruct (classify_format _ _); simplify_eq/=.
Qed.

(** A supported format is not empty, so that its identifier exists. *)
Lemma parse_record_no_panic n json : parse_record config n json ≠ Err Panicked.
Proof.
  unfold parse_record. intros H. apply bind_Err in H as [H|([[[e c] t] o] & He%map_err_Ok & H)].
  { by destruct (parse_envelope config n json). }
  destruct o as [f|]; [|done]. destruct (negb _); [done|].
  assert (Hne : wire_format e ≠ []).
  { unfold parse_envelope in He. apply bind_Ok in He as (e' & _ & He). do 3 (apply bind_Ok in He as ([] & _ & He)).
    do 2 (apply bind_Ok in He as (? & _ & He)). apply bind_Ok in He as (o' & Ho & [= -> _ _ _]).
    destruct (classify_format _ _) eqn:E; [|done]. by eapply classify_format_nonempty. }
  unfold parse_quote in H. apply bind_Err in H as [H|(w & _ & H)]; [by destruct (map_err _ (quote_from_str json))|].
  destruct (_ && _); [done|]. apply bind_Err in H as [H|([d z] & _ & H)]; [by destruct (parse_deal _ _ _)|].
  apply bind_Err in H as [H|(? & _ & H)]; [by destruct (check_zero_deal _ _ _ _ _)|].
  apply bind_Err in H as [H|(? & _ & H)]; [by destruct (record_book _ _ _ _ _)|].
  apply bind_Err in H as [H|(? & _ & H)]; [|done]. unfold SourceFormat.new in H. by destruct (wire_format e).
Qed.

End records.
(** ** Signals *)

Lemma volatility_observation_Ok a : interrupts a = true → ∃ o, volatility_observation a = Ok o ∧ Signal.wf o.
Proof. unfold interrupts, volatility_observation. destruct (instant_trend a); try done; intros _; by eexists. Qed.

Lemma flags_u64 s l : is_u8 s → is_u8 l → is_u64 (Z.lor (Z.shiftl s 8) l).
Proof.
  unfold is_u8, is_u64, u8_max, u64_max. intros Hs Hl. rewrite Z.shiftl_mul_pow2 by lia. change (2 ^ 8) with 256.
  pose proof (Z.add_lor_land (s * 256) l). pose proof (proj2 (Z.land_nonneg (s * 256) l) (or_intror (proj1 Hl))).
  split; [apply Z.lor_nonneg|]; lia.
Qed.

Lemma firm_market_signal_Ok r : ∃ g, firm_market_signal r = Ok g ∧ (annotations_valid (annotations r) → signal_obs_wf g).
Proof.
  unfold firm_market_signal, signal_obs_wf. destruct (has_reserved _).
  { eexists. split; [done|]. intros [Hs Hl]. simpl. by apply flags_u64. }
  assert (Hw : ∀ g, Signal.wf g → Signal.signal_wf (Signal.AuctionUncross g)) by by intros g Hg ? [= <-].
  destruct (opening_marker _); [by eexists; split; [done|intros _; apply Hw]|].
  destruct (closing_marker _); [by eexists; split; [done|intros _; apply Hw]|].
  destruct (interrupts _) eqn:E; [|by eexists].
  destruct (volatility_observation_Ok _ E) as (o & -> & Ho). eexists. split; [done|]. intros _ ? [= <-]. done.
Qed.

(** ** What events carry *)

(** A traded or indicated price and quantity. *)
Definition prints_of (p : Observation.Observation Price.Price) (q : Observation.Observation Quantity.Quantity) : list (Price.Price * Quantity.Quantity) :=
  match p, q with Observation.Set_ p, Observation.Set_ q => [(p, q)] | _, _ => [] end.
Definition trade_print (t : Trade.ObservedTrade) : Price.Price * Quantity.Quantity := (Trade.price t, Trade.quantity t).
Definition payload_prints (p : Event.EventPayload) : list (Price.Price * Quantity.Quantity) :=
  match p with
  | Event.QuoteSnapshotP s => match Event.quote_trade s with Observation.Set_ t => [trade_print t] | _ => [] end
  | Event.TradeBatchP b => trade_print <$> Event.batch_trades b
  | Event.IndicativeAuctionP a => prints_of (Event.auction_price a) (Event.auction_quantity a)
  | Event.BookSnapshotP _ | Event.MarketStatusP _ => []
  end.
Definition record_prints (r : ValidatedRecord) : list (Price.Price * Quantity.Quantity) :=
  match deal r with Some t => [trade_print t] | None => [] end.
(** The cumulative volume an event reports. *)
Definition reported_volume (p : Event.EventPayload) : option Volume.Volume :=
  match p with
  | Event.QuoteSnapshotP s => Observation.as_set (Event.quote_volume s)
  | Event.TradeBatchP b => Observation.as_set (Event.batch_volume b)
  | Event.IndicativeAuctionP a => Observation.as_set (Event.auction_volume a)
  | Event.MarketStatusP s => Observation.as_set (Event.status_volume s)
  | Event.BookSnapshotP _ => None
  end.

(** A payload made of the records [rs], of which [r] is the last, with the
    rank that orders it among the events of a match time. *)
Record payload_for (rank : Z) (rs : list ValidatedRecord) (r : ValidatedRecord) (p : Event.EventPayload) : Prop := {
  payload_valid : payload_wf p;
  payload_keeps : payload_prints p = rs ≫= record_prints;
  payload_reports : reported_volume p = Some (cumulative_volume r);
  payload_rank e : realtime_rank e p = Ok rank }.

Lemma units_agree_trading us : (∀ u, Some u ∈ us → trading_unit u) → units_agree us.
Proof. intros H u v Hu%H Hv%H. congruence. Qed.
Lemma book_unit b u : book_valid b → Book.quantity_unit b = Some u → trading_unit u.
Proof.
  intros [_ Hb]. unfold Book.quantity_unit. rewrite !Book.side_quantity_unit_head. intros H. apply Hb. rewrite elem_of_app.
  destruct (Book.side_units (Book.bids b)); simpl in H; [right; by apply head_in|]. injection H as ->. left. by left.
Qed.

(** ** The events of a valid record *)

Lemma annotations_wf a : annotations_valid a → Annotations.wf (into_market_annotations a).
Proof. unfold annotations_valid. by destruct a. Qed.
Lemma pause_prints r : is_status_only_pause r = true → interrupts (annotations r) = true ∧ record_prints r = [].
Proof.
  unfold is_status_only_pause, record_prints. intros [[[_ Hi]%andb_true_iff Hd%bool_decide_eq_true]%andb_true_iff _]%andb_true_iff.
  by rewrite Hd.
Qed.
Lemma bind_single {A B} (f : A → list B) x : [x] ≫= f = f x.
Proof. simpl. apply app_nil_r. Qed.

Section events.
Context (config : NormalizerConfig) (Hdate : TradingDate.wf (trading_date config)).

(** An event made of the records [rs], of which [first] is the first and
    [last] the last. *)
Definition event_for (rank : Z) (rs : list ValidatedRecord) (first last : ValidatedRecord) (e : Event.DomainEvent) : Prop :=
  ∃ p, e = domain_event config first p ∧ payload_for rank rs last p.

Lemma session_time_Ok time h mi : 0 ≤ h ≤ 23 → 0 ≤ mi ≤ 59 →
  bytes_of time = fixed_digits 2 h ++ 58 :: fixed_digits 2 mi ++ 58 :: fixed_digits 2 0 → ∃ t, session_time config time = Ok t.
Proof.
  intros Hh Hm Ht. pose proof (SessionsLaws.local_time _ time h mi 0 Hdate Hh Hm ltac:(lia) Ht) as H.
  revert H. unfold Sessions.parse_local_time, session_time. generalize (MatchTime.parse (TradingDate.display (trading_date config) ++ bytes_of "T" ++ bytes_of time ++ bytes_of "+08:00")).
  intros [t|e]; [by eexists|done].
Qed.

#[local] Arguments session_time : simpl never.
#[local] Opaque session_time.

(** The phase of a trial record is one of five, or the record contradicts
    itself. *)
Lemma auction_phase_Ok r :
  (∃ o, auction_phase config r = Ok o ∧ (is_Some o ↔ trial (annotations r) = true) ∧ ∀ x, o = Some x → Signal.wf x) ∨
  ∃ m, auction_phase config r = Err (Returned (payload_error r m)).
Proof.
  unfold auction_phase. destruct (trial (annotations r)); simpl; [|left; eexists; split; [done|]; split; [split; [by intros [? [=]]|done]|done]].
  destruct (delayed_open _ && _); [right; by eexists|].
  assert (Hsome : ∀ x, Signal.wf x → (is_Some (Some x) ↔ true = true) ∧ ∀ y, Some x = Some y → Signal.wf y)
    by (intros x Hx; split; [split; [done|by eexists]|by intros ? [= <-]]).
  destruct (delayed_open _) eqn:Hdo; [left; eexists; split; [done|by apply Hsome]|].
  destruct (delayed_close _) eqn:Hdc; [left; eexists; split; [done|by apply Hsome]|].
  destruct (session_time_Ok "08:30:00" 8 30) as [a ->]; [lia|lia|done|]. destruct (session_time_Ok "09:00:00" 9 0) as [b ->]; [lia|lia|done|].
  destruct (session_time_Ok "13:25:00" 13 25) as [c ->]; [lia|lia|done|]. destruct (session_time_Ok "13:30:00" 13 30) as [d ->]; [lia|lia|done|].
  simpl. destruct (opening_marker _ || _), (closing_marker _ || _); [right; by eexists|..]; left; eexists; (split; [done|]); by apply Hsome.
Qed.

Lemma auction_event_Ok r o b : record_valid config r → Signal.wf o → Observation.wf book_valid b → ∃ p,
  auction_event config r o b = Ok (domain_event config r p) ∧
  payload_for (match b with Observation.Set_ _ => 20 | _ => 10 end) [r] r p.
Proof.
  intros [_ Hd [Hv Hu] Ha _ _ _] Ho Hb. unfold auction_event.
  set (pq := match deal r with Some t => _ | None => _ end). assert (Hpq : prints_of pq.1 pq.2 = record_prints r ∧
    Observation.wf Price.wf pq.1 ∧ Observation.wf Quantity.wf pq.2 ∧ ∀ q, Observation.as_set pq.2 = Some q → trading_unit (Quantity.unit q)).
  { unfold pq, record_prints. destruct (deal r) as [t|]; [|done]. destruct (Hd t eq_refl) as ([? ?] & ? & _). split; [done|]. split; [done|].
    split; [done|]. by intros ? [= <-]. }
  destruct pq as [price quantity]. cbn [fst snd] in Hpq. destruct Hpq as (Hp & Hpw & Hqw & Hqu).
  assert (Hbw : Observation.wf Book.snapshot_wf b) by (destruct b; [done|apply Hb|done|done]).
  assert (Hn : units_agree (EventCodec.auction_units quantity b (Observation.Set_ (cumulative_volume r)))).
  { apply units_agree_trading. intros u. unfold EventCodec.auction_units. rewrite !elem_of_cons. intros [E|[E|[E|[]%not_elem_of_nil]]].
    - symmetry in E. apply fmap_Some in E as (q & E & ->). by apply Hqu.
    - destruct b as [|b| |]; try done. by eapply book_unit.
    - by injection E as ->. }
  rewrite (proj2 (new_auction_Ok _ _ _ _ _ _ _) (conj eq_refl Hn)). simpl. eexists. split; [done|]. split.
  - split; [done|]. split; [done|]. split; [done|]. split; [done|]. split; [done|]. split; [by apply annotations_wf|done].
  - by rewrite bind_single.
  - done.
  - intros e. simpl. by destruct b.
Qed.

Lemma final_event_Ok r : record_valid config r → intermediate r = false →
  (∃ e, final_event config r = Ok e ∧ event_for 20 [r] r r e) ∨
  ∃ m, final_event config r = Err (Returned (payload_error r m)) ∧ auction_phase config r = Err (Returned (payload_error r m)).
Proof.
  intros Hr Hi. pose proof Hr as [Hb Hd [Hv Hu] Ha Hs _ _]. rewrite Hi in Hs. destruct Hs as [b Eb]. unfold final_event. rewrite Hi, Eb. simpl.
  destruct (is_status_only_pause r) eqn:Ep.
  { apply pause_prints in Ep as [Ep Hp]. destruct (volatility_observation_Ok _ Ep) as (o & -> & Ho). left. eexists. split; [done|]. eexists. split; [done|].
    split; [|by rewrite bind_single, Hp|done|done]. split; [done|]. split; [by apply annotations_wf|]. by intros ? [= <-]. }
  destruct (auction_phase_Ok r) as [(o & Ho & _ & Hw)|(m & Hm)]; [rewrite Ho; simpl|right; exists m; by rewrite Hm].
  left. destruct o as [o|].
  { destruct (auction_event_Ok r o (Observation.Set_ b)) as (p & Hp & Hpf); [done|by apply Hw|by apply Hb|]. rewrite Hp. eexists. split; [done|]. by eexists. }
  destruct (firm_market_signal_Ok r) as (g & -> & Hg).
  set (t := match deal r with Some t => Observation.Set_ t | None => _ end).
  assert (Hn : units_agree (EventCodec.snapshot_units b t (Observation.Set_ (cumulative_volume r)))).
  { apply units_agree_trading. intros u. unfold EventCodec.snapshot_units. rewrite !elem_of_cons. intros [E|[E|[E|[]%not_elem_of_nil]]].
    - symmetry in E. by eapply book_unit; [apply Hb|].
    - unfold t in E. destruct (deal r) as [t'|]; [|done]. injection E as ->. by apply Hd.
    - by injection E as ->. }
  rewrite (proj2 (new_quote_Ok _ _ _ _ _) (conj eq_refl Hn)). simpl. eexists. split; [done|]. eexists. split; [done|]. split.
  - split; [by apply Hb|]. split; [|split; [done|]; split; [by apply annotations_wf|split; [by apply Hg|done]]].
    cbn. unfold t. destruct (deal r) as [t'|] eqn:E; [|done]. apply (Hd t'). done.
  - rewrite bind_single. unfold record_prints, t. simpl. by destruct (deal r).
  - done.
  - done.
Qed.

(** *** Intermediate prints *)

Lemma intermediate_trade_Ok r : record_valid config r → intermediate r = true → ∃ t,
  intermediate_trade r = Ok t ∧ Trade.wf t ∧ trading_unit (Trade.trade_unit t) ∧ Trade.observation_kind t = Trade.Intermediate ∧
  record_prints r = [trade_print t].
Proof.
  intros [_ Hd _ _ Hs _ _] Hi. rewrite Hi in Hs. destruct Hs as (_ & _ & [t Ht]). destruct (Hd t Ht) as ([? ?] & ? & _).
  unfold intermediate_trade, record_prints. rewrite Ht. simpl. by eexists.
Qed.
Lemma intermediate_trades_Ok rs : Forall (λ r, record_valid config r ∧ intermediate r = true) rs → ∃ ts,
  collect_results intermediate_trade rs = Ok ts ∧ Forall Trade.wf ts ∧ Forall (λ t, Trade.trade_unit t = Quantity.TradingUnit) ts ∧
  Forall (λ t, Trade.observation_kind t = Trade.Intermediate) ts ∧ trade_print <$> ts = rs ≫= record_prints.
Proof.
  induction 1 as [|r rs [Hr Hi] _ (ts & Hts & Hw & Hu & Hk & Hp)]; [by exists []|].
  destruct (intermediate_trade_Ok r Hr Hi) as (t & Ht & ? & ? & ? & Hpr). exists (t :: ts). cbn [collect_results]. rewrite Ht, Hts.
  split; [done|]. do 3 (split; [by constructor|]). by rewrite fmap_cons, bind_cons, Hpr, Hp.
Qed.

Lemma batch_event_Ok rs first last : Forall (λ r, record_valid config r ∧ intermediate r = true) rs → rs ≠ [] →
  record_valid config first → record_valid config last → ∃ ts e,
  collect_results intermediate_trade rs = Ok ts ∧ batch_event config ts first last = Ok e ∧ event_for 10 rs first last e.
Proof.
  intros Hrs Hne [_ _ _ Ha _ _ _] [_ _ [Hv Hu] _ _ _ _]. destruct (intermediate_trades_Ok rs Hrs) as (ts & Hts & Htw & Htu & Htk & Hp).
  exists ts. unfold batch_event. destruct (firm_market_signal_Ok first) as (g & -> & Hg).
  assert (Hn : EventCodec.batch_units ts (Observation.Set_ (cumulative_volume last))).
  { split; [|exists Quantity.TradingUnit; split; [done|by intros ? [= <-]]]. intros ->. apply collect_results_Ok in Hts. by inversion Hts. }
  pose proof (proj1 Hn) as Hts0. rewrite (proj2 (new_batch_Ok _ _ _ _ _) (conj eq_refl Hn)). simpl. eexists. split; [done|]. split; [done|].
  eexists. split; [done|]. split; [|done|done|].
  - split; [done|]. split; [done|]. split; [by apply annotations_wf|]. split; [by apply Hg|done].
  - intros e. simpl. rewrite bool_decide_eq_false_2 by done. simpl.
    assert (forallb (λ t, bool_decide (Trade.observation_kind t = Trade.Intermediate)) ts = true) as ->; [|done].
    apply forallb_forall. intros t Ht. apply bool_decide_eq_true. rewrite List.Forall_forall in Htk. by apply Htk.
Qed.
Lemma intermediate_batch_Ok rs first last : Forall (λ r, record_valid config r ∧ intermediate r = true) rs →
  head rs = Some first → list.last rs = Some last → ∃ e, intermediate_batch_event config rs = Ok e ∧ event_for 10 rs first last e.
Proof.
  intros Hrs Hf Hl. unfold intermediate_batch_event. rewrite Hf, Hl. simpl. rewrite List.Forall_forall in Hrs.
  assert (Hin : first ∈ rs ∧ last ∈ rs) by (split; [by apply head_in|by eapply list.last_Some_elem_of]).
  destruct Hin as [Hif Hil]. destruct (batch_event_Ok rs first last) as (ts & e & -> & He & Hp); [by apply List.Forall_forall|by destruct rs| | |].
  - apply Hrs. by apply list_elem_of_In.
  - apply Hrs. by apply list_elem_of_In.
  - simpl. by exists e.
Qed.
Lemma intermediate_event_Ok r o : record_valid config r → intermediate r = true → auction_phase config r = Ok o → ∃ e,
  intermediate_event config r = Ok e ∧ event_for 10 [r] r r e.
Proof.
  intros Hr Hi Ho. unfold intermediate_event. destruct (intermediate_trade_Ok r Hr Hi) as (t & Ht & _). rewrite Ht, Ho. simpl. destruct o as [o|].
  - destruct (auction_phase_Ok r) as [(o' & Ho' & _ & Hw)|(m & Hm)]; [|congruence].
    destruct (auction_event_Ok r o Observation.NoObservation Hr) as (p & Hp & Hpf); [apply Hw; congruence|done|]. rewrite Hp.
    eexists. split; [done|]. by eexists.
  - destruct (batch_event_Ok [r] r r) as (ts & e & Hts & He & Hp); [by constructor; [|constructor]|done|done|done|].
    simpl in Hts. rewrite Ht in Hts. injection Hts as <-. by exists e.
Qed.

(** ** Groups *)

Definition intermediates (g : list ValidatedRecord) : list ValidatedRecord := filter (λ r, intermediate r = true) g.
Definition finals (g : list ValidatedRecord) : list ValidatedRecord := filter (λ r, intermediate r = false) g.
(** The cumulative volume of a firm group grows by the final deal. *)
Definition volume_adds_up (last final : ValidatedRecord) : Prop :=
  cumulative_volume final =
    Volume.new (Volume.value (cumulative_volume last) + match deal final with Some t => Quantity.value (Trade.quantity t) | None => 0 end)
      (Volume.unit (cumulative_volume last)).
(** The events of a group: its prints, one batch of them or, in an auction,
    one event each, and then its one final record. *)
Definition group_becomes (g : list ValidatedRecord) (es : list Event.DomainEvent) : Prop :=
  ∃ final before event, finals g = [final] ∧ intermediates g ≠ [] ∧ es = before ++ [event] ∧ event_for 20 [final] final final event ∧
  if trial (annotations final) then Forall2 (λ r, event_for 10 [r] r r) (intermediates g) before
  else ∃ first last batch, head (intermediates g) = Some first ∧ list.last (intermediates g) = Some last ∧ before = [batch] ∧
    event_for 10 (intermediates g) first last batch ∧ volume_adds_up last final.

Lemma expected_volume_Ok first last final v : record_valid config last → expected_volume first last final = Ok v → cumulative_volume final = v →
  volume_adds_up last final.
Proof.
  intros [_ _ [_ Hu] _ _ _ _] H <-. unfold expected_volume, volume_adds_up in *. destruct (deal final) as [t|].
  - apply map_err_Ok in H. unfold Volume.checked_add in H. apply bind_Ok in H as (_ & _ & H). apply bind_Ok in H as (x & Hx & H).
    unfold ok_or in Hx. destruct (to_u64 _) as [y|] eqn:E; [|done]. apply checked_Some in E as [-> _]. by injection Hx as <-; injection H as <-.
  - destruct (deal_zero_quantity final); [|done]. injection H as <-. rewrite Z.add_0_r. by destruct (cumulative_volume last).
Qed.

Lemma intermediates_valid g : Forall (record_valid config) g → Forall (λ r, record_valid config r ∧ intermediate r = true) (intermediates g).
Proof.
  intros Hg. apply List.Forall_forall. intros r Hr. apply list_elem_of_In, list_elem_of_filter in Hr as [Hi Hr].
  split; [|done]. rewrite List.Forall_forall in Hg. apply Hg. by apply list_elem_of_In.
Qed.

Lemma auction_phase_yields r : yields (auction_phase config r) (λ o,
  auction_phase config r = Ok o ∧ (is_Some o ↔ trial (annotations r) = true)).
Proof. destruct (auction_phase_Ok r) as [(o & -> & Ht & _)|(m & ->)]; done. Qed.
Lemma final_event_yields r : record_valid config r → yields (final_event config r) (event_for 20 [r] r r).
Proof.
  intros Hr. destruct (intermediate r) eqn:Hi; [unfold final_event; by rewrite Hi|].
  by destruct (final_event_Ok r Hr Hi) as [(e & -> & He)|(m & -> & _)].
Qed.

Lemma same_phases (rs : list ValidatedRecord) (us : list ()) (o : option Signal.AuctionObservation) :
  Forall2 (λ r _, auction_phase config r = Ok o) rs us → ∀ r, r ∈ rs → auction_phase config r = Ok o.
Proof. intros H r [n Hn]%list_elem_of_lookup_1. by destruct (Forall2_lookup_l _ _ _ _ _ H Hn) as (u & _ & Hu). Qed.

Lemma normalize_group_yields g : Forall (record_valid config) g → g ≠ [] →
  yields (normalize_intermediate_group config g) (group_becomes g).
Proof.
  intros Hg Hne. pose proof (intermediates_valid g Hg) as Hiv. unfold normalize_intermediate_group, group_becomes.
  fold (intermediates g) (finals g). destruct (head g) as [first|] eqn:Eh; [|by destruct g]. cbn [ok_or mbind result_bind].
  destruct (finals g) as [|final extra] eqn:Ef; [done|].
  assert (Hfv : record_valid config final).
  { assert (Hin : final ∈ finals g) by (rewrite Ef; by left). apply list_elem_of_filter in Hin as [_ Hin].
    rewrite List.Forall_forall in Hg. apply Hg. by apply list_elem_of_In. }
  case_bool_decide as Hni; [done|]. case_bool_decide as Hx; [subst extra; cbn [orb negb]|done].
  destruct (head (intermediates g)) as [i|] eqn:Ei; [|by destruct (intermediates g)]. cbn [ok_or mbind result_bind].
  eapply yields_bind, yields_mono; [apply auction_phase_yields|]. intros ph [Hph _].
  eapply yields_bind, yields_mono; [apply auction_phase_yields|]. intros ph' [Hph' Htrial].
  eapply yields_bind, yields_mono.
  { apply (yields_collect _ _ (λ r _, auction_phase config r = Ok ph)). intros r _. eapply yields_bind, yields_mono; [apply auction_phase_yields|].
    intros o [Ho _]. case_bool_decide as Hne'; [done|]. simpl. destruct (decide (o = ph)) as [->|]; [done|by destruct Hne']. }
  intros us Hus. pose proof (same_phases _ _ _ Hus) as Hsame. case_bool_decide as Hpp; [done|]. destruct (decide (ph = ph')) as [<-|]; [clear Hpp|by destruct Hpp].
  case_bool_decide as Hph0.
  - eapply yields_bind, yields_mono; [apply (yields_collect _ _ (λ r, event_for 10 [r] r r))|].
    { intros r Hr. destruct (intermediate_event_Ok r ph) as (e & -> & He); [..|done]; rewrite List.Forall_forall in Hiv; try apply Hiv; [by apply list_elem_of_In..|by apply Hsame]. }
    intros before Hb. eapply yields_bind, yields_mono; [by apply final_event_yields|]. intros event He. exists final, before, event.
    do 4 (split; [done|]). destruct ph as [o|]; [|done]. by rewrite (proj1 Htrial) by by eexists.
  - destruct ph as [o|]; [done|]. destruct (list.last (intermediates g)) as [last|] eqn:El; [|by apply last_None in El].
    cbn [ok_or mbind result_bind]. apply yields_bind, yields_own. intros v Hv. case_bool_decide as Hcv; [done|].
    destruct (decide (cumulative_volume final = v)) as [Hv'|]; [|by destruct Hcv].
    destruct (intermediate_batch_Ok (intermediates g) i last Hiv Ei El) as (b & -> & Hb). cbn [mbind result_bind].
    eapply yields_bind, yields_mono; [by apply final_event_yields|]. intros event He. exists final, [b], event.
    do 4 (split; [done|]). destruct (trial _) eqn:Et; [by destruct (proj2 Htrial eq_refl)|]. exists i, last, b. do 4 (split; [done|]).
    eapply expected_volume_Ok; [|done|done]. rewrite List.Forall_forall in Hiv. apply Hiv. apply list_elem_of_In. by eapply list.last_Some_elem_of.
Qed.

(** ** All records *)

Lemma group_at_valid rs t : Forall (record_valid config) rs → Forall (record_valid config) (group_at rs t).
Proof. rewrite !list.Forall_forall. intros H r [_ Hr]%list_elem_of_filter. by apply H. Qed.
Lemma live_nonempty rs t : live rs t = true → group_at rs t ≠ [].
Proof. unfold live. by destruct (group_at rs t). Qed.

(** What an index contributes. *)
Definition part_becomes (rs : list ValidatedRecord) (entry : nat * ValidatedRecord) (p : list Event.DomainEvent) : Prop :=
  let '(i, r) := entry in
  if paired rs r then
    if bool_decide (group_at (take i rs) (match_time r) = []) then group_becomes (group_at rs (match_time r)) p else p = []
  else ∃ e, p = [e] ∧ event_for 20 [r] r r e.

Lemma part_yields rs entry : Forall (record_valid config) rs → entry ∈ number 0 rs → yields (part config rs entry) (part_becomes rs entry).
Proof.
  destruct entry as [i r]. intros Hrs (j & -> & Hr)%elem_of_number. unfold part, part_becomes.
  assert (Hv : record_valid config r) by (rewrite list.Forall_forall in Hrs; apply Hrs; by eapply list_elem_of_lookup_2).
  destruct (paired rs r) eqn:Ep.
  - case_bool_decide; [|done]. apply normalize_group_yields; [by apply group_at_valid|].
    apply live_nonempty. unfold paired in Ep. by apply andb_true_iff in Ep as [_ ?].
  - eapply yields_bind, yields_mono; [by apply final_event_yields|]. intros e He. by exists e.
Qed.

Lemma groups_yield rs : Forall (record_valid config) rs →
  yields (try_fold (normalize_group config rs) (∅, replicate (length rs) false) (btree_values (realtime_groups rs)))
    (λ acc, length acc.2 = length rs).
Proof.
  intros Hrs. rewrite groups_at_times. apply yields_fold; [|by simpl; rewrite length_replicate].
  intros acc idx (t & -> & _)%list_elem_of_fmap Hl. rewrite normalize_group_at. destruct (live rs t) eqn:E; [|done].
  destruct (live_head _ _ E) as [i ->]. cbn [ok_or mbind result_bind].
  eapply yields_bind, yields_mono; [apply normalize_group_yields; [by apply group_at_valid|by apply live_nonempty]|].
  intros es _. simpl. by rewrite length_mark.
Qed.
Lemma emit_yields rs consumed acc : Forall (record_valid config) rs → length consumed = length rs →
  yields (try_fold (emit_record config consumed) acc (number 0 rs)) (λ _, True).
Proof.
  intros Hrs Hl. apply yields_fold; [|done]. intros acc' [i r] (j & -> & Hr)%elem_of_number _. unfold emit_record.
  destruct (match acc'.1 !! _ with Some _ => _ | None => _ end) as [g es].
  destruct (lookup_lt_is_Some_2 consumed (0 + j)) as [b ->]; [rewrite Hl; by eapply lookup_lt_Some|]. cbn [ok_or mbind result_bind].
  destruct b; [done|]. eapply yields_bind, yields_mono; [apply final_event_yields|done].
  rewrite list.Forall_forall in Hrs. apply Hrs. by eapply list_elem_of_lookup_2.
Qed.
Lemma normalize_groups_yields rs : Forall (record_valid config) rs →
  yields (normalize_groups config rs) (λ es, ∃ parts, es = concat parts ∧ Forall2 (part_becomes rs) (number 0 rs) parts).
Proof.
  intros Hrs. destruct (normalize_groups config rs) as [es|e] eqn:E.
  - apply normalize_groups_reference in E. unfold reference_groups in E. apply bind_Ok in E as (parts & Hp & [= <-]).
    exists parts. split; [done|]. pose proof (yields_collect _ _ _ (λ x Hx, part_yields rs x Hrs Hx)) as H. by rewrite Hp in H.
  - enough (yields (normalize_groups config rs) (λ _, True)) by (rewrite E in *; by destruct e).
    unfold normalize_groups. eapply yields_bind, yields_mono; [by apply groups_yield|]. intros [g c] Hc. rewrite imap_pair.
    eapply yields_bind, yields_mono; [by apply emit_yields|]. by intros [g' es] _.
Qed.

(** *** Prints *)

Definition event_prints (e : Event.DomainEvent) : list (Price.Price * Quantity.Quantity) := payload_prints (Event.payload e).

Lemma event_for_prints rank rs first last e : event_for rank rs first last e → event_prints e = rs ≫= record_prints.
Proof. intros (p & -> & H). apply H. Qed.
Lemma group_split g : g ≡ₚ intermediates g ++ finals g.
Proof.
  transitivity (filter (λ _ : ValidatedRecord, True) g).
  - apply reflexive_eq. induction g as [|r g IH]; [done|]. by rewrite filter_cons_True, <-IH.
  - apply filter_split. intros r _. destruct (intermediate r); naive_solver.
Qed.
#[local] Instance bind_perm {A B} (f : A → list B) : Proper ((≡ₚ) ==> (≡ₚ)) (mbind f).
Proof. intros l k H. by apply bind_Permutation. Qed.
Lemma group_prints g es : group_becomes g es → es ≫= event_prints ≡ₚ g ≫= record_prints.
Proof.
  intros (final & before & event & Hf & _ & -> & He & Hb). rewrite (group_split g) at 1. rewrite Hf, !bind_app.
  cbn [mbind list_bind]. rewrite (event_for_prints _ _ _ _ _ He). cbn [mbind list_bind]. rewrite !app_nil_r. f_equiv.
  destruct (trial _).
  - clear -Hb. induction Hb as [|r e rs es He _ IH]; [done|]. rewrite !bind_cons, (event_for_prints _ _ _ _ _ He), IH. cbn [mbind list_bind].
    by rewrite app_nil_r.
  - destruct Hb as (first & last & b & _ & _ & -> & Hb & _). cbn [mbind list_bind]. by rewrite (event_for_prints _ _ _ _ _ Hb), app_nil_r.
Qed.
Lemma part_prints rs entry p : part_becomes rs entry p → p ≫= event_prints ≡ₚ members rs entry ≫= record_prints.
Proof.
  destruct entry as [i r]. unfold part_becomes, members. destruct (paired rs r).
  - case_bool_decide; [apply group_prints|by intros ->].
  - intros (e & -> & He). by rewrite bind_single, (event_for_prints _ _ _ _ _ He).
Qed.
Lemma parts_prints rs parts : Forall2 (part_becomes rs) (number 0 rs) parts → concat parts ≫= event_prints ≡ₚ rs ≫= record_prints.
Proof.
  intros H. transitivity ((number 0 rs ≫= members rs) ≫= record_prints); [|by rewrite members_perm].
  induction H as [|x p l ps Hp _ IH]; [done|].
  cbn [concat]. rewrite bind_cons, !bind_app, IH. f_equiv. by apply part_prints.
Qed.

End events.
End EquityQuoteEvents.

(** * EquityQuoteRuns

    Whole inputs of the quote normalizer: the report against the reference
    definition, what its events are, and how they are replayed. *)

Module EquityQuoteRuns.
Import Wire EquityQuote EquityQuoteLaws EquityQuoteEvents Effects(Failure, Returned, Panicked, yields, yields_bind, yields_mono, yields_fold).

(** ** Reading the lines *)

Definition class_records (c : ClassifiedRecord) : list ValidatedRecord := match c with Accepted r _ => [r] | _ => [] end.
Definition class_warnings (c : ClassifiedRecord) : list NormalizationWarning := match c with Accepted _ ws => ws | _ => [] end.
Definition class_outside (c : ClassifiedRecord) : list RecordContext := match c with OutsideReplayWindow x => [x] | _ => [] end.
Definition class_skipped (c : ClassifiedRecord) : list KnownSkipped := match c with Skipped k => [k] | _ => [] end.

Section runs.
Context {J : QuoteJson} (config : NormalizerConfig).

(** The classes of the lines, and what a class adds to the accumulators. *)
Abbreviation classified := (Lines.classified (parse_record config)).
Definition add_record (n : Z) (c : ClassifiedRecord) (acc : Input) : Input :=
  mk_input n (records acc ++ class_records c) (outside acc ++ class_outside c) (skipped acc ++ class_skipped c)
    (record_warnings acc ++ class_warnings c).
Lemma add_record_count n c acc : count (add_record n c acc) = n.
Proof. done. Qed.
Lemma read_line_step acc entry : read_line config acc entry = Lines.read_step count (parse_record config) add_record acc entry.
Proof.
  destruct entry as [i l]. unfold read_line, Lines.read_step. destruct (ok_or _ _) as [n|]; [|done]. cbn [mbind result_bind].
  destruct (parse_record _ _ _) as [c|]; [|done]. unfold add_record. destruct c; simpl; by rewrite ?app_nil_r.
Qed.
Lemma collected_input cls acc : Lines.collected count add_record acc cls = mk_input (count acc + zlen cls) (records acc ++ cls ≫= class_records)
  (outside acc ++ cls ≫= class_outside) (skipped acc ++ cls ≫= class_skipped) (record_warnings acc ++ cls ≫= class_warnings).
Proof.
  revert acc. induction cls as [|c cls IH]; intros acc; [destruct acc; cbn; by rewrite Z.add_0_r, !app_nil_r|].
  change (Lines.collected count add_record acc (c :: cls)) with (Lines.collected count add_record (add_record (count acc + 1) c acc) cls).
  rewrite IH. unfold add_record. cbn [count records outside skipped record_warnings]. rewrite !bind_cons, !app_assoc. f_equal. unfold zlen. simpl. lia.
Qed.

Definition accepted (cls : list ClassifiedRecord) : list ValidatedRecord := cls ≫= class_records.

Lemma normalize_Ok lines rep : normalize_json_lines config lines = Ok rep ↔
  zlen lines ≤ u64_max ∧ ∃ cls es, Forall2 classified (number 0 lines) cls ∧ reference_groups config (accepted cls) = Ok es ∧
    rep = mk_report (zlen lines) es (cls ≫= class_outside) (cls ≫= class_skipped) (cls ≫= class_warnings).
Proof.
  unfold normalize_json_lines. rewrite imap_pair, (Lines.try_fold_ext _ _ _ _ read_line_step). split.
  - intros (acc & (Hle & cls & Hcls & ->)%(Lines.read_all _ _ _ add_record_count) & H)%bind_Ok; [|done].
    rewrite collected_input in H. apply bind_Ok in H as (es & Hes & [= <-]).
    split; [destruct Hle as [->|Hle]; [done|simpl in Hle; lia]|]. exists cls, es. split; [done|].
    split; [by apply normalize_groups_reference|]. cbn [count outside skipped record_warnings]. by rewrite (Lines.classified_length _ _ _ _ Hcls).
  - intros (Hle & cls & es & Hcls & Hes & ->). apply bind_Ok. eexists. split.
    + apply (Lines.read_all _ _ _ add_record_count); [done|]. split; [right; simpl; lia|by exists cls].
    + rewrite collected_input. apply bind_Ok. exists es. split; [by apply normalize_groups_reference|].
      cbn [count outside skipped record_warnings]. by rewrite (Lines.classified_length _ _ _ _ Hcls).
Qed.

(** A report is made of the classes of the lines, and its events are those of
    the reference definition. *)
Theorem normalize_refines lines rep : normalize_json_lines config lines = Ok rep ↔
  zlen lines ≤ u64_max ∧ ∃ cls es, Forall2 classified (number 0 lines) cls ∧ reference_groups config (accepted cls) = Ok es ∧
    rep = mk_report (zlen lines) es (cls ≫= class_outside) (cls ≫= class_skipped) (cls ≫= class_warnings).
Proof. apply normalize_Ok. Qed.

Context {HJ : TypedJson J} (Hdate : TradingDate.wf (trading_date config)).

Lemma accepted_valid entries cls : Forall2 classified entries cls → Forall (record_valid config) (accepted cls).
Proof.
  unfold accepted. induction 1 as [|[i l] c es cs Hc _ IH]; [constructor|]. rewrite bind_cons. apply Forall_app. split; [|done].
  destruct c as [r ws| |]; simpl; constructor; [|constructor]. by eapply parse_record_valid.
Qed.

Lemma normalize_parts lines rep : normalize_json_lines config lines = Ok rep → ∃ cls parts,
  Forall2 classified (number 0 lines) cls ∧ Forall (record_valid config) (accepted cls) ∧ events rep = concat parts ∧
  Forall2 (part_becomes config (accepted cls)) (number 0 (accepted cls)) parts.
Proof.
  intros (_ & cls & es & Hcls & Hes & ->)%normalize_Ok. pose proof (accepted_valid _ _ Hcls) as Hv.
  apply normalize_groups_reference in Hes. pose proof (normalize_groups_yields config Hdate _ Hv) as Hy. rewrite Hes in Hy.
  destruct Hy as (parts & -> & Hp). by exists cls, parts.
Qed.

(** C13: the events of a report are, record by record, what the records mean: a
    group with intermediate prints becomes a batch of them, or in an auction
    one event each, and then its one final record, whose volume adds up; any
    other record becomes its own event. *)
Theorem records_become_events lines rep : normalize_json_lines config lines = Ok rep → ∃ cls parts,
  Forall2 classified (number 0 lines) cls ∧ Forall (record_valid config) (accepted cls) ∧ events rep = concat parts ∧
  Forall2 (part_becomes config (accepted cls)) (number 0 (accepted cls)) parts.
Proof. apply normalize_parts. Qed.

(** C14: no print is lost, invented or repeated: those of the events are those of
    the accepted records. *)
Theorem normalized_prints_kept lines rep cls : normalize_json_lines config lines = Ok rep → Forall2 classified (number 0 lines) cls →
  events rep ≫= event_prints ≡ₚ accepted cls ≫= record_prints.
Proof.
  intros (cls' & parts & Hcls' & _ & -> & Hp)%normalize_parts Hcls. rewrite (Lines.classes_unique _ _ _ _ Hcls Hcls').
  by eapply parts_prints.
Qed.

(** *** The events *)

Definition event_of (rs : list ValidatedRecord) (e : Event.DomainEvent) : Prop :=
  ∃ r p, r ∈ rs ∧ e = domain_event config r p ∧ EventCodec.payload_wf p.
Lemma event_for_of rank rs qs first last e : event_for config rank rs first last e → first ∈ qs → event_of qs e.
Proof. intros (p & -> & Hp) Hr. exists first, p. split; [done|]. split; [done|apply Hp]. Qed.
Lemma group_events_of rs g es : group_becomes config g es → (∀ r, r ∈ g → r ∈ rs) → Forall (event_of rs) es.
Proof.
  intros (final & before & event & Hf & _ & -> & He & Hb) Hg. apply Forall_app.
  assert (Hin : ∀ r, r ∈ intermediates g → r ∈ rs) by (intros r [_ Hr]%list_elem_of_filter; by apply Hg). split.
  - destruct (trial _).
    + clear -Hb Hin. induction Hb as [|r e rs' es He _ IH]; [constructor|]. constructor; [eapply event_for_of; [done|]; apply Hin; by left|].
      apply IH. intros x Hx. apply Hin. by right.
    + destruct Hb as (first & last & b & Hh & _ & -> & Hb & _). constructor; [|constructor]. eapply event_for_of; [done|]. by apply Hin, head_in.
  - constructor; [|constructor]. eapply event_for_of; [done|]. apply Hg.
    assert (H : final ∈ finals g) by (rewrite Hf; by left). by apply list_elem_of_filter in H as [_ H].
Qed.
Lemma parts_events_of rs k l parts : (∀ x, x ∈ l → x ∈ rs) → Forall2 (part_becomes config rs) (number k l) parts → Forall (event_of rs) (concat parts).
Proof.
  revert k parts. induction l as [|r l IH]; intros k parts Hl Hp; inversion Hp as [|? p ? ps Hp1 Hps]; subst; [constructor|].
  cbn [concat]. apply Forall_app. split; [|apply (IH (S k)); [intros x Hx; apply Hl; by right|done]]. unfold part_becomes in Hp1.
  destruct (paired rs r).
  - case_bool_decide; [|subst; constructor]. eapply group_events_of; [done|]. by intros x [_ Hx]%list_elem_of_filter.
  - destruct Hp1 as (e & -> & He). constructor; [|constructor]. eapply event_for_of; [done|]. apply Hl. by left.
Qed.

Lemma source_format_wf r : record_valid config r → SourceFormat.wf (source_format r).
Proof.
  intros [_ _ _ _ _ Hf _]. unfold classify_format in Hf. unfold SourceFormat.wf.
  destruct (SourceFormat.as_bytes (source_format r)) as [|b bs] eqn:E; [by destruct (profile config)|]. split; [done|].
  revert Hf. repeat (destruct (bool_decide (b :: bs = _)) eqn:Eb; [apply bool_decide_eq_true in Eb; rewrite Eb; by vm_compute|clear Eb]).
  done.
Qed.
Lemma event_of_wf rs e : Instrument.wf (instrument config) → Forall (record_valid config) rs → event_of rs e → EventCodec.wf e.
Proof.
  intros Hi Hrs (r & p & Hr & -> & Hp). rewrite list.Forall_forall in Hrs. specialize (Hrs r Hr). split; [done|]. split; [done|].
  split; [by apply source_format_wf|]. split; [apply Hrs|]. done.
Qed.

(** C15: every event of a report is a well-formed event of the configuration's
    instrument and date, inside the replay window; decoding its canonical
    bytes gives it back. *)
Theorem normalized_events_valid lines rep e : Instrument.wf (instrument config) → normalize_json_lines config lines = Ok rep → e ∈ events rep →
  EventCodec.wf e ∧ Event.instrument e = instrument config ∧ Event.trading_date e = trading_date config ∧
  ord_le (replay_start config) (Event.match_time e) ∧ ord_lt (Event.match_time e) (replay_end_exclusive config) ∧
  ∀ bytes, Event.to_canonical_bytes e = Ok bytes → zlen bytes ≤ isize_max → Event.from_canonical_bytes bytes = Ok e.
Proof.
  intros Hi (cls & parts & _ & Hv & -> & Hp)%normalize_parts He. apply parts_events_of in Hp; [|done].
  rewrite list.Forall_forall in Hp. apply Hp in He. pose proof (event_of_wf _ _ Hi Hv He) as Hwf. split; [done|].
  destruct He as (r & p & Hr & -> & _). rewrite list.Forall_forall in Hv. destruct (valid_time _ _ (Hv r Hr)) as [Hw _].
  unfold in_replay_window in Hw. apply andb_true_iff in Hw as [?%bool_decide_eq_true ?%bool_decide_eq_true].
  do 4 (split; [done|]). intros bytes Hb Hl. by apply EventCodec.frame_decode_encode.
Qed.

(** *** Panics *)

(** Whatever the lines say, the normalizer returns: no [expect], no
    [unreachable!] and no index fails. *)
Theorem normalizer_never_panics lines : zlen lines ≤ u64_max → normalize_json_lines config lines ≠ Err Panicked.
Proof.
  intros Hle. apply (Effects.yields_no_panic _ (λ _, True)). unfold normalize_json_lines.
  rewrite imap_pair, (Lines.try_fold_ext _ _ _ _ read_line_step). apply yields_bind.
  pose proof (Lines.read_yields _ _ _ add_record_count 0 lines (mk_input 0 [] [] [] []) ltac:(done) ltac:(done) (parse_record_no_panic config)) as H.
  destruct (try_fold _ _ _) as [acc|] eqn:Hacc; [|done].
  apply (Lines.read_all _ _ _ add_record_count) in Hacc as (_ & cls & Hcls & ->); [|done]. rewrite collected_input.
  eapply yields_bind, yields_mono; [apply normalize_groups_yields; [done|by eapply accepted_valid]|done].
Qed.

(** *** Order *)

Lemma realtime_format r : record_valid config r → profile config = Equity → format r = StockRealtime → SourceFormat.as_bytes (source_format r) = STOCK_REALTIME.
Proof.
  intros [_ _ _ _ _ Hf _] Hp Hr. rewrite Hp, Hr in Hf. unfold classify_format in Hf.
  repeat (case_bool_decide; simpl in Hf; simplify_eq); done.
Qed.
Lemma ranked_before b f r r' p p' kb kf fb ff : Ordering.for_event_with_fingerprint b fb = Ok kb → Ordering.for_event_with_fingerprint f ff = Ok kf →
  b = domain_event config r p → f = domain_event config r' p' → source_format r = source_format r' → match_time r = match_time r' →
  Ordering.source_phase_rank kb < Ordering.source_phase_rank kf → ord_lt kb kf.
Proof.
  intros (rb & _ & [= <-])%bind_Ok (rf & _ & [= <-])%bind_Ok -> -> Hf Ht Hr. simpl in Hr.
  unfold ord_lt. match goal with |- cmp ?x ?y = _ => change (cmp (Ordering.key_fields x) (Ordering.key_fields y) = Lt) end.
  unfold Ordering.key_fields. rewrite !cmp_pair.
  cbn [Ordering.match_time Ordering.market_rank Ordering.symbol Ordering.source_format Ordering.source_phase_rank Event.match_time Event.instrument
    Event.source_format domain_event]. rewrite Hf, Ht, !cmp_refl. cbn [then_with].
  assert (cmp rb rf = Lt) as -> by (by apply Z.compare_lt_iff). done.
Qed.
(** The prints of a stock group are replayed before its final record. *)
Theorem stock_prints_first m i d start end_ t g es : new_config m i d start end_ Equity = Ok config → Forall (record_valid config) g →
  Forall (realtime_at t) g → normalize_intermediate_group config g = Ok es → ∃ before final, es = before ++ [final] ∧ before ≠ [] ∧
  ∀ b fb ff kb kf, b ∈ before → Ordering.for_event_with_fingerprint b fb = Ok kb → Ordering.for_event_with_fingerprint final ff = Ok kf → ord_lt kb kf.
Proof.
  intros Hc Hv Ht He. assert (Hcfg : profile config = Equity ∧ Instrument.market (instrument config) = market_id (market config)).
  { unfold new_config in Hc. case_bool_decide as Hm; [done|]. destruct (bool_decide _); [done|]. injection Hc as <-. split; [done|]. simpl.
    by destruct (decide (Instrument.market i = market_id m)). }
  destruct Hcfg as [Hp Hm]. assert (Hne : g ≠ []) by by intros ->.
  pose proof (normalize_group_yields config Hdate g Hv Hne) as Hg. rewrite He in Hg.
  destruct Hg as (final & before & event & Hf & Hni & -> & Hfe & Hb). exists before, event. split; [done|].
  rewrite list.Forall_forall in Hv, Ht.
  assert (Hrank : ∀ r p rank e f k, r ∈ g → (∀ e, Ordering.realtime_rank e p = Ok rank) → e = domain_event config r p →
    Ordering.for_event_with_fingerprint e f = Ok k → Ordering.source_phase_rank k = rank).
  { intros r p rank e f k Hr Hrk -> (rank' & Hrank & [= <-])%bind_Ok. simpl. unfold Ordering.phase_rank in Hrank. simpl in Hrank.
    rewrite (realtime_format r) in Hrank by first [done|by apply Hv|by apply Ht]. rewrite bool_decide_eq_false_2 in Hrank by tauto.
    rewrite Hm in Hrank. rewrite !Hrk in Hrank. destruct (market config); simpl in Hrank; congruence. }
  assert (Hfin : final ∈ g) by (assert (H : final ∈ finals g) by (rewrite Hf; by left); by apply list_elem_of_filter in H as [_ H]).
  assert (Hint : ∀ r, r ∈ intermediates g → r ∈ g) by (by intros r [_ Hr]%list_elem_of_filter).
  assert (Hsame : ∀ r, r ∈ g → source_format r = source_format final ∧ match_time r = match_time final).
  { intros r Hr. destruct (Ht r Hr) as [Hfr Htr], (Ht _ Hfin) as [Hff Htf]. split; [|congruence].
    pose proof (realtime_format r (Hv r Hr) Hp Hfr) as E1. pose proof (realtime_format final (Hv _ Hfin) Hp Hff) as E2.
    destruct (source_format r), (source_format final). simpl in *. congruence. }
  assert (Hlt : ∀ r p b fb ff kb kf, r ∈ g → b = domain_event config r p → (∀ e, Ordering.realtime_rank e p = Ok 10) →
    Ordering.for_event_with_fingerprint b fb = Ok kb → Ordering.for_event_with_fingerprint event ff = Ok kf → ord_lt kb kf).
  { intros r p b fb ff kb kf Hr Eb Hp10 Hkb Hkf. destruct Hfe as (pf & Ef & Hpf). destruct (Hsame r Hr).
    eapply (ranked_before b event r final); [done..|]. rewrite (Hrank r p 10 b fb kb), (Hrank final pf 20 event ff kf); try done. apply Hpf. }
  destruct (trial _).
  - split.
    + intros ->. by inversion Hb as [E|]; rewrite <-E in Hni.
    + intros b fb ff kb kf [n Hn]%list_elem_of_lookup_1 Hkb Hkf. destruct (Forall2_lookup_r _ _ _ _ _ Hb Hn) as (r & Hr & p & Eb & Hpb).
      eapply (Hlt r p b); try done; [|apply Hpb]. apply Hint. by eapply list_elem_of_lookup_2.
  - destruct Hb as (first & last & batch & Hh & _ & -> & (p & Eb & Hpb) & _). split; [done|].
    intros b fb ff kb kf ->%list_elem_of_singleton Hkb Hkf. eapply (Hlt first p batch); try done; [|apply Hpb]. by apply Hint, head_in.
Qed.
End runs.

(** ** Concrete inputs *)

Definition demo_date : TradingDate.TradingDate := TradingDate.mk 20654.
Definition demo_instrument : Instrument.InstrumentId := Instrument.new Market.Twse (Symbol.mk (bytes_of "030001")).
Definition demo_config (p : InstrumentProfile) : NormalizerConfig :=
  mk_config Twse demo_instrument demo_date (MatchTime.from_unix_microseconds 1784508900000000)
    (MatchTime.from_unix_microseconds 1784525700000000) p.
(** Two realtime records of one match time: an intermediate print at the
    cumulative volume 100, and the final quote, a deal of 3 later. *)
Definition demo_envelope (format : list Z) : WireEnvelope :=
  mk_envelope (bytes_of "quote") (bytes_of "twse") format (bytes_of "030001") (bytes_of "2026-07-20T10:00:00+08:00")
    (bytes_of "2026-07-20T10:00:00.1+08:00").
Definition demo_json (format : list Z) : QuoteJson := {|
  envelope_from_str := λ _, Ok (demo_envelope format);
  quote_from_str := λ line, Ok (if bool_decide (line = [1]) then mk_quote [] [] [123] 100 0 0 true else mk_quote [] [] [123] 103 0 0 false);
  deal_from_str := λ _, Ok (mk_deal (bytes_of "5.25") 3) |}.

Definition demo_report (p : InstrumentProfile) (format : list Z) : result (Failure NormalizationError) NormalizationReport :=
  normalize_json_lines (J := demo_json format) (demo_config p) [[1]; [2]].
Definition demo_core (p : result Profile.ProfileError Profile.MarketStateProfile) : option Replay.ReplayCore :=
  p ← res_ok p;
  res_ok (Replay.new [Model.new demo_instrument demo_date] p (Reducer.new_context demo_date (Model.mk_segment (bytes_of "regular")) Reducer.Carry 1)).
(** Replaying the events of a report, with the hash [B]. *)
Definition demo_replay {B : Blake3} (p : result Profile.ProfileError Profile.MarketStateProfile) (es : list Event.DomainEvent) :
    option (result Replay.ReplayError ()) :=
  c ← demo_core p; Some (Replay.replay c es).1.

Lemma demo_typed f : TypedJson (demo_json f).
Proof.
  split; [|by intros line d [= <-]]. intros line q [= <-]. case_bool_decide; (split; [constructor|]); (split; [constructor|]); unfold_ints; simpl; lia.
Qed.
Lemma demo_dated p : TradingDate.wf (trading_date (demo_config p)).
Proof. by vm_compute. Qed.
Definition demo_done (p : InstrumentProfile) (f : list Z) : NormalizationReport :=
  match demo_report p f with Ok r => r | Err _ => mk_report 0 [] [] [] [] end.
Lemma demo_stock : demo_report Equity STOCK_REALTIME = Ok (demo_done Equity STOCK_REALTIME).
Proof. by vm_compute. Qed.

(** An intermediate print of a warrant cannot be replayed: its format has no
    rank, so that the final quote is ordered before the batch, and the
    batch's volume is a regression. The same records of a stock replay. *)
Theorem warrant_prints_misordered (B : Blake3) : ∃ w s,
  demo_report Warrant WARRANT_REALTIME = Ok w ∧
  demo_replay Profile.twse_warrant (events w) = Some (Err (Replay.StateTransition (Reducer.CumulativeVolumeRegression 103 100))) ∧
  demo_report Equity STOCK_REALTIME = Ok s ∧ demo_replay Profile.twse_regular (events s) = Some (Ok ()).
Proof. exists (demo_done Warrant WARRANT_REALTIME), (demo_done Equity STOCK_REALTIME). split_and!; by vm_compute. Qed.

Lemma records_become_events_witness : ∃ cls parts, Forall2 (Lines.classified (@parse_record (demo_json STOCK_REALTIME) (demo_config Equity))) (number 0 [[1]; [2]]) cls ∧
  events (demo_done Equity STOCK_REALTIME) = concat parts.
Proof.
  destruct (@records_become_events (demo_json STOCK_REALTIME) (demo_config Equity) (demo_typed _) (demo_dated _) [[1]; [2]] _ demo_stock)
    as (cls & parts & Hc & _ & He & _). exists cls, parts. split; [exact Hc|exact He].
Defined.
Lemma demo_classified : ∃ cls, Forall2 (Lines.classified (@parse_record (demo_json STOCK_REALTIME) (demo_config Equity))) (number 0 [[1]; [2]]) cls.
Proof. destruct (proj1 (@normalize_Ok (demo_json STOCK_REALTIME) (demo_config Equity) [[1]; [2]] _) demo_stock) as (_ & cls & _ & H & _). by exists cls. Qed.
Lemma normalized_prints_kept_witness : ∃ rs : list ValidatedRecord,
  events (demo_done Equity STOCK_REALTIME) ≫= event_prints ≡ₚ rs ≫= record_prints.
Proof.
  destruct demo_classified as [cls Hc]. exists (accepted cls).
  exact (@normalized_prints_kept (demo_json STOCK_REALTIME) (demo_config Equity) (demo_typed _) (demo_dated _) [[1]; [2]] _ cls demo_stock Hc).
Defined.
Lemma demo_event_in : ∃ e, e ∈ events (demo_done Equity STOCK_REALTIME).
Proof.
  assert (H : match head (events (demo_done Equity STOCK_REALTIME)) with Some _ => true | None => false end = true) by (vm_compute; reflexivity).
  destruct (head _) as [e|] eqn:E; [|done]. exists e. by apply head_in.
Qed.
Lemma demo_instrument_wf : Instrument.wf demo_instrument.
Proof. by vm_compute. Qed.
Lemma normalized_events_valid_witness : ∃ e, e ∈ events (demo_done Equity STOCK_REALTIME) ∧ Event.instrument e = demo_instrument.
Proof.
  destruct demo_event_in as [e He]. exists e. split; [exact He|].
  exact (proj1 (proj2 (@normalized_events_valid (demo_json STOCK_REALTIME) (demo_config Equity) (demo_typed _) (demo_dated _) [[1]; [2]] _ e
    demo_instrument_wf demo_stock He))).
Defined.
Lemma normalizer_never_panics_witness : demo_report Equity STOCK_REALTIME ≠ Err Panicked.
Proof. apply (@normalizer_never_panics (demo_json STOCK_REALTIME) (demo_config Equity) (demo_typed _) (demo_dated _) [[1]; [2]]). vm_compute. discriminate. Defined.

(** The group of the two records. *)
Definition demo_group : list ValidatedRecord :=
  omap (λ '(i, l), match parse_record (J := demo_json STOCK_REALTIME) (demo_config Equity) (Z.of_nat i + 1) l with
                   | Ok (Accepted r _) => Some r
                   | _ => None
                   end) (number 0 [[1]; [2]]).
Lemma demo_group_valid : Forall (record_valid (demo_config Equity)) demo_group.
Proof.
  apply list.Forall_forall. intros r Hr. unfold demo_group in Hr. apply list_elem_of_omap in Hr as ([i l] & _ & Hr).
  destruct (parse_record _ _ _) as [[r' ws| |]|] eqn:E; [|done..]. injection Hr as ->.
  exact (@parse_record_valid (demo_json STOCK_REALTIME) (demo_typed _) (demo_config Equity) _ _ _ _ E).
Qed.
Lemma demo_group_at : Forall (realtime_at (MatchTime.from_unix_microseconds 1784512800000000)) demo_group.
Proof. vm_compute. repeat constructor. Qed.
Lemma stock_prints_first_witness : ∃ es, normalize_intermediate_group (demo_config Equity) demo_group = Ok es ∧
  ∃ before final, es = before ++ [final] ∧ before ≠ [].
Proof.
  assert (H : is_ok (normalize_intermediate_group (demo_config Equity) demo_group) = true) by (vm_compute; reflexivity).
  destruct (normalize_intermediate_group (demo_config Equity) demo_group) as [es|] eqn:E; [|discriminate H]. exists es. split; [reflexivity|].
  destruct (stock_prints_first (demo_config Equity) (demo_dated _) Twse demo_instrument demo_date
    (replay_start (demo_config Equity)) (replay_end_exclusive (demo_config Equity)) _ demo_group es ltac:(reflexivity)
    demo_group_valid demo_group_at E) as (before & final & H1 & H2 & _). exists before, final. split; [exact H1|exact H2].
Defined.

End EquityQuoteRuns.
