(* ===== verification/Taifex.v ===== *)
(** The TAIFEX normalizer (providers/teralion/src/taifex.rs): futures,
    calendar spreads and index options, one event per record, sorted. *)
From S2P Require Import Prelude Order Text Numeric Quantity Calendar Book Identity Signal Event Effects.

(** serde_json's decoders of the wire structs; an error is its display text. *)
Module TaifexWire.

Record WireEnvelope : Set := mk_envelope {
  record_type : list Z; wire_market : list Z; wire_format : list Z; wire_symbol : list Z; wire_match_time : list Z;
  received_at : list Z }.
(** A trade or a book level: a raw price and a quantity. *)
Record WireTrade : Set := mk_trade { wire_price : list Z; wire_quantity : Z }.
Abbreviation WireLevel := WireTrade.
Record WireTradeRecord : Set := mk_trade_record { wire_trades : list WireTrade; first_packet : option bool }.
Record WireBookRecord : Set := mk_book_record { wire_bids : list WireLevel; wire_asks : list WireLevel }.

Class TaifexJson := {
  envelope_from_str : list Z → result (list Z) WireEnvelope;
  trade_record_from_str : list Z → result (list Z) WireTradeRecord;
  book_record_from_str : list Z → result (list Z) WireBookRecord }.

(** The quantities are u64 fields. *)
Definition trade_typed (t : WireTrade) : Prop := is_u64 (wire_quantity t).
Class TypedJson (J : TaifexJson) : Prop := {
  trade_record_typed s r : trade_record_from_str s = Ok r → Forall trade_typed (wire_trades r);
  book_record_typed s r : book_record_from_str s = Ok r → Forall trade_typed (wire_bids r) ∧ Forall trade_typed (wire_asks r) }.

End TaifexWire.

Module Taifex.
Import TaifexWire Effects(Failure, Returned, Panicked).

Inductive InstrumentProfile : Set := Futures | FuturesCalendarSpread | IndexOptions.
#[global] Instance InstrumentProfile_eq_dec : EqDecision InstrumentProfile.
Proof. solve_decision. Defined.

(** ** Configuration *)

Definition Window : Set := MatchTime.MatchTime * MatchTime.MatchTime.
Record NormalizerConfig : Set := mk_config {
  instrument : Instrument.InstrumentId; trading_date : TradingDate.TradingDate; replay_start : MatchTime.MatchTime;
  replay_end_exclusive : MatchTime.MatchTime; replay_windows : list Window; profile : InstrumentProfile }.
Inductive ConfigError : Set := WrongMarket (market : Market.MarketId) | InvalidReplayWindow.

(** [iter().min()] and [iter().max()]: the first least, the last greatest. *)
Definition min_time (l : list MatchTime.MatchTime) : option MatchTime.MatchTime :=
  match l with [] => None | t :: l => Some (foldl (λ a b, if bool_decide (ord_lt b a) then b else a) t l) end.
Definition max_time (l : list MatchTime.MatchTime) : option MatchTime.MatchTime :=
  match l with [] => None | t :: l => Some (foldl (λ a b, if bool_decide (ord_lt b a) then a else b) t l) end.

(** The [expect]s would panic; the windows are not empty there. *)
Definition for_profile (i : Instrument.InstrumentId) (d : TradingDate.TradingDate) (p : InstrumentProfile) (windows : list Window) :
    result (Failure ConfigError) NormalizerConfig :=
  reject bool_decide (Instrument.market i ≠ Market.Taifex) with Returned (WrongMarket (Instrument.market i));;
  let windows := sort_on fst windows in
  reject bool_decide (windows = []) || existsb (λ '(start, end_), bool_decide (ord_le end_ start)) windows ||
         existsb (λ '(a, b), bool_decide (ord_lt b.1 a.2)) (windows2 windows) with Returned InvalidReplayWindow;;
  start ← ok_or (min_time windows.*1) Panicked;
  end_ ← ok_or (max_time windows.*2) Panicked;
  Ok (mk_config i d start end_ windows p).
Definition new i d start end_ := for_profile i d Futures [(start, end_)].
Definition new_options i d start end_ := for_profile i d IndexOptions [(start, end_)].
Definition new_calendar_spread i d start end_ := for_profile i d FuturesCalendarSpread [(start, end_)].

Definition source_market (c : NormalizerConfig) : list Z :=
  match profile c with Futures | FuturesCalendarSpread => bytes_of "taifex_fut" | IndexOptions => bytes_of "taifex_opt" end.
Definition contains_match_time (c : NormalizerConfig) (t : MatchTime.MatchTime) : bool :=
  existsb (λ '(start, end_), bool_decide (ord_le start t) && bool_decide (ord_lt t end_)) (replay_windows c).

(** ** Reports and errors *)

Record RecordContext : Set := mk_context {
  context_instrument : Instrument.InstrumentId; context_date : TradingDate.TradingDate; context_format : option (list Z);
  match_time_text : option (list Z); context_match_time : option MatchTime.MatchTime }.
Definition partition (c : NormalizerConfig) : RecordContext := mk_context (instrument c) (trading_date c) None None None.

Inductive KnownSkipReason : Set := IntradayHighLow | OpeningReference | OrderStatistics | ClosingStatistics.
Record KnownSkipped : Set := mk_skipped { skipped_context : RecordContext; reason : KnownSkipReason }.
Inductive NormalizationErrorKind : Set :=
| InvalidJson (error : list Z) | InvalidIdentity (field : string) (expected actual : list Z) | UnsupportedFormat (format : list Z)
| InvalidMatchTime (error : MatchTime.MatchTimeError) | InvalidReceivedAt (error : MatchTime.MatchTimeError)
| InvalidPrice (field : string) (error : Price.PriceError) | InvalidQuantity (field : string) (error : Quantity.QuantityError)
| InvalidBook (error : Book.BookError) | InvalidEvent (error : Event.EventError) | InvalidPayload (message : string).
Record NormalizationError : Set := mk_error { error_record : Z; error_context : RecordContext; error_kind : NormalizationErrorKind }.

Inductive ClassifiedRecord : Set :=
| Accepted (e : Event.DomainEvent) | OutsideReplayWindow (c : RecordContext) | Skipped (k : KnownSkipped).
Record NormalizationReport : Set := mk_report {
  input_records : Z; events : list Event.DomainEvent; outside_replay_window : list RecordContext; known_skipped : list KnownSkipped }.

(** ** Records *)

Definition validate_identity (n : Z) (c : RecordContext) (field : string) (expected actual : list Z) : result NormalizationError () :=
  if bool_decide (expected = actual) then Ok () else Err (mk_error n c (InvalidIdentity field expected actual)).
Definition parse_price (n : Z) (c : RecordContext) (field : string) (raw : list Z) (p : InstrumentProfile) :
    result NormalizationError Price.Price :=
  map_err (λ e, mk_error n c (InvalidPrice field e))
    match p with FuturesCalendarSpread => Price.parse raw | Futures | IndexOptions => Price.parse_positive raw end.
Definition parse_quantity (n : Z) (c : RecordContext) (field : string) (v : Z) : result NormalizationError Quantity.Quantity :=
  map_err (λ e, mk_error n c (InvalidQuantity field e)) (Quantity.new v Quantity.Contract).
Definition parse_level (n : Z) (c : RecordContext) (p : InstrumentProfile) (l : WireLevel) : result NormalizationError Book.BookLevel :=
  price ← parse_price n c "book price" (wire_price l) p;
  quantity ← parse_quantity n c "book quantity" (wire_quantity l);
  Ok (Book.new_level price quantity).
Definition parse_side (n : Z) (c : RecordContext) (k : Book.BookSideKind) (levels : list WireLevel) (p : InstrumentProfile) :
    result NormalizationError Book.BookSide :=
  reject (5 <? length levels)%nat with mk_error n c (InvalidBook (Book.TooManyLevels k (zlen levels)));;
  levels ← collect_results (parse_level n c p) levels;
  map_err (λ e, mk_error n c (InvalidBook e)) (Book.new k levels).
Definition parse_trade (n : Z) (c : RecordContext) (p : InstrumentProfile) (t : WireTrade) : result NormalizationError Trade.ObservedTrade :=
  price ← parse_price n c "price" (wire_price t) p;
  quantity ← parse_quantity n c "quantity" (wire_quantity t);
  Ok (Trade.new price quantity Trade.Regular).

(** The record type each format must have. *)
Definition expected_type (format : list Z) : option (list Z) :=
  if existsb (λ f, bool_decide (format = bytes_of f)) ["I020"; "I021"; "I022"; "I023"]%string then Some (bytes_of "trade")
  else if bool_decide (format = bytes_of "I030") then Some (bytes_of "stats")
  else if existsb (λ f, bool_decide (format = bytes_of f)) ["I070"; "I072"]%string then Some (bytes_of "close")
  else if existsb (λ f, bool_decide (format = bytes_of f)) ["I080"; "I082"]%string then Some (bytes_of "book")
  else None.

Section normalizer.
Context {J : TaifexJson} (config : NormalizerConfig).

Definition domain_event (f : SourceFormat.SourceFormatId) (t : MatchTime.MatchTime) (p : Event.EventPayload) : Event.DomainEvent :=
  Event.new (instrument config) (trading_date config) f t None p.

Definition parse_i020 (n : Z) (c : RecordContext) (f : SourceFormat.SourceFormatId) (t : MatchTime.MatchTime) (json : list Z) :
    result NormalizationError ClassifiedRecord :=
  wire ← map_err (λ e, mk_error n c (InvalidJson e)) (trade_record_from_str json);
  reject bool_decide (first_packet wire ≠ Some true) with mk_error n c (InvalidPayload "unsupported I020 continuation");;
  reject bool_decide (wire_trades wire = []) with mk_error n c (InvalidPayload "I020 trades must not be empty");;
  trades ← collect_results (parse_trade n c (profile config)) (wire_trades wire);
  batch ← map_err (λ e, mk_error n c (InvalidEvent e))
    (Event.new_batch trades Trade.SourceSequencePreserved Observation.NoObservation Annotations.NoAnnotations);
  Ok (Accepted (domain_event f t (Event.TradeBatchP (Event.batch_with_signal batch (Observation.Set_ Signal.Continuous))))).

(** The calculated price and quantity of an opening auction: both or none. *)
Definition parse_indication (n : Z) (c : RecordContext) (w : WireTrade) :
    result NormalizationError (Observation.Observation Price.Price * Observation.Observation Quantity.Quantity) :=
  decimal ← map_err (λ e, mk_error n c (InvalidPrice "price" (Price.InvalidDecimal e))) (Decimal.parse (wire_price w));
  let price_zero := Decimal.atoms decimal =? 0 in
  let quantity_zero := wire_quantity w =? 0 in
  reject negb (Bool.eqb price_zero quantity_zero)
    with mk_error n c (InvalidPayload "I022 price and quantity must be zero together or positive together");;
  if price_zero then Ok (Observation.NoObservation, Observation.NoObservation) else
  price ← map_err (λ e, mk_error n c (InvalidPrice "price" e)) (Price.positive decimal);
  quantity ← parse_quantity n c "quantity" (wire_quantity w);
  Ok (Observation.Set_ price, Observation.Set_ quantity).
Definition parse_i022 (n : Z) (c : RecordContext) (f : SourceFormat.SourceFormatId) (t : MatchTime.MatchTime) (json : list Z) :
    result NormalizationError ClassifiedRecord :=
  reject bool_decide (profile config = FuturesCalendarSpread)
    with mk_error n c (InvalidPayload "calendar spread profile does not accept opening indicative records");;
  wire ← map_err (λ e, mk_error n c (InvalidJson e)) (trade_record_from_str json);
  match wire_trades wire with
  | [trade] =>
      '(price, quantity) ← parse_indication n c trade;
      auction ← map_err (λ e, mk_error n c (InvalidEvent e))
        (Event.new_auction (Signal.opening_with_evidence Signal.NoObservation Signal.NoObservation) price quantity
           Observation.NoObservation Observation.NoObservation Annotations.NoAnnotations);
      Ok (Accepted (domain_event f t (Event.IndicativeAuctionP auction)))
  | _ => Err (mk_error n c (InvalidPayload "I022 must contain exactly one calculated observation"))
  end.
Definition parse_book (n : Z) (c : RecordContext) (f : SourceFormat.SourceFormatId) (t : MatchTime.MatchTime) (json : list Z) :
    result NormalizationError ClassifiedRecord :=
  wire ← map_err (λ e, mk_error n c (InvalidJson e)) (book_record_from_str json);
  bids ← parse_side n c Book.Bid (wire_bids wire) (profile config);
  asks ← parse_side n c Book.Ask (wire_asks wire) (profile config);
  book ← map_err (λ e, mk_error n c (InvalidBook e)) (Book.new_snapshot bids asks);
  Ok (Accepted (domain_event f t (Event.BookSnapshotP
        (Event.book_with_signal (Event.new_book book Annotations.NoAnnotations) (Observation.Set_ Signal.Continuous))))).

(** The match on the format of a record inside the windows. *)
Definition parse_format (n : Z) (c : RecordContext) (f : SourceFormat.SourceFormatId) (t : MatchTime.MatchTime) (format json : list Z) :
    result NormalizationError ClassifiedRecord :=
  let has f := bool_decide (format = bytes_of f) in
  if has "I020" then parse_i020 n c f t json
  else if has "I022" then parse_i022 n c f t json
  else if has "I080" || has "I082" then parse_book n c f t json
  else if has "I021" then Ok (Skipped (mk_skipped c IntradayHighLow))
  else if has "I023" then Ok (Skipped (mk_skipped c OpeningReference))
  else if has "I030" then Ok (Skipped (mk_skipped c OrderStatistics))
  else if has "I070" || has "I072" then Ok (Skipped (mk_skipped c ClosingStatistics))
  else Err (mk_error n c (UnsupportedFormat format)).

(** [parse_record] up to the replay windows. *)
Definition parse_envelope (n : Z) (json : list Z) : result NormalizationError (WireEnvelope * RecordContext * MatchTime.MatchTime) :=
  envelope ← map_err (λ e, mk_error n (partition config) (InvalidJson e)) (envelope_from_str json);
  let c := mk_context (instrument config) (trading_date config) (Some (wire_format envelope)) (Some (wire_match_time envelope)) None in
  expected ← ok_or (expected_type (wire_format envelope)) (mk_error n c (UnsupportedFormat (wire_format envelope)));
  _ ← validate_identity n c "type" expected (record_type envelope);
  _ ← validate_identity n c "market" (source_market config) (wire_market envelope);
  _ ← validate_identity n c "symbol" (Symbol.as_bytes (Instrument.symbol (instrument config))) (wire_symbol envelope);
  match_time ← map_err (λ e, mk_error n c (InvalidMatchTime e)) (MatchTime.parse (wire_match_time envelope));
  let c := mk_context (instrument config) (trading_date config) (Some (wire_format envelope)) (Some (wire_match_time envelope))
             (Some match_time) in
  _ ← map_err (λ e, mk_error n c (InvalidReceivedAt e)) (MatchTime.parse (received_at envelope));
  Ok (envelope, c, match_time).
Definition parse_record (n : Z) (json : list Z) : result (Failure NormalizationError) ClassifiedRecord :=
  '(envelope, c, match_time) ← map_err Returned (parse_envelope n json);
  if negb (contains_match_time config match_time) then Ok (OutsideReplayWindow c) else
  source_format ← map_err (λ _, Panicked) (SourceFormat.new (wire_format envelope));
  map_err Returned (parse_format n c source_format match_time (wire_format envelope) json).

(** ** The report *)

Context {B : Blake3}.

(** The key of [sort_events]. *)
Definition event_key (e : Event.DomainEvent) : result (Failure NormalizationError)
    (MatchTime.MatchTime * (SourceFormat.SourceFormatId * (Event.EventKind * list Z))) :=
  fingerprint ← map_err (λ _, Panicked) (Event.fingerprint e);
  Ok (Event.match_time e, (Event.source_format e, (Event.kind (Event.payload e), fingerprint))).
(** [sort_by_cached_key] computes no key for fewer than two events. *)
Definition sort_events (events : list Event.DomainEvent) : result (Failure NormalizationError) (list Event.DomainEvent) :=
  if (length events <? 2)%nat then Ok events else
  keyed ← collect_results (λ e, k ← event_key e; Ok (k, e)) events;
  Ok (sort_on fst keyed).*2.

(** The accumulators of the loop. *)
Record Input : Set := mk_input {
  count : Z; accepted_events : list Event.DomainEvent; outside : list RecordContext; skipped : list KnownSkipped }.
Definition read_line (acc : Input) (entry : nat * list Z) : result (Failure NormalizationError) Input :=
  let '(index, line) := entry in
  n ← ok_or (to_u64 (count acc + 1)) Panicked;
  classified ← parse_record (Z.of_nat index + 1) line;
  Ok match classified with
     | Accepted e => mk_input n (accepted_events acc ++ [e]) (outside acc) (skipped acc)
     | OutsideReplayWindow c => mk_input n (accepted_events acc) (outside acc ++ [c]) (skipped acc)
     | Skipped k => mk_input n (accepted_events acc) (outside acc) (skipped acc ++ [k])
     end.
Definition normalize_json_lines (lines : list (list Z)) : result (Failure NormalizationError) NormalizationReport :=
  acc ← try_fold read_line (mk_input 0 [] [] []) (imap pair lines);
  events ← sort_events (accepted_events acc);
  Ok (mk_report (count acc) events (outside acc) (skipped acc)).

End normalizer.
End Taifex.
