(* ===== verification/TaifexLaws.v ===== *)
(** What the TAIFEX normalizer promises: its events are well-formed, already
    in replay order, and do not depend on the order of the records. *)
From S2P Require Import Prelude Order Text Numeric Quantity Calendar Book Identity Signal Event EventCodec Ordering OrderingLaws Effects EquityQuoteRuns Taifex.

Module TaifexLaws.
Import TaifexWire Taifex Effects(Failure, Returned, Panicked).
Import EquityQuoteEvents(price_parse_wf, price_parse_positive_wf, match_time_parse_wf).

(** ** Errors aside, the record number does not matter *)

(** Two computations that may fail differently but agree on a value. *)
Definition same_value {E F A} (r : result E A) (s : result F A) : Prop := ∀ x, r = Ok x → s = Ok x.

Lemma same_bind {E F A C} (r : result E A) (s : result F A) (f : A → result E C) (g : A → result F C) :
  same_value r s → (∀ x, same_value (f x) (g x)) → same_value (r ≫= f) (s ≫= g).
Proof. intros Hr Hf y (x & Hx%Hr & Hy%Hf)%bind_Ok. by rewrite Hx. Qed.
Lemma same_map_err {E F G A} (f : E → F) (g : E → G) (r : result E A) : same_value (map_err f r) (map_err g r).
Proof. by destruct r; intros x; [intros [= <-]|]. Qed.
Lemma same_map_errs {E E' F F' A} (f : E → F) (g : E' → F') (r : result E A) (s : result E' A) :
  same_value r s → same_value (map_err f r) (map_err g s).
Proof. intros H x Hx%map_err_Ok. by rewrite (H x Hx). Qed.
Lemma same_ok_or {E F A} (o : option A) (e : E) (f : F) : same_value (ok_or o e) (ok_or o f).
Proof. by destruct o; intros x; [intros [= <-]|]. Qed.
Lemma same_refl {E A} (r : result E A) : same_value r r.
Proof. by intros x. Qed.
Lemma same_err {E F A} (e : E) (f : F) : same_value (@Err E A e) (@Err F A f).
Proof. by intros x. Qed.
Lemma same_collect {E F A C} (f : A → result E C) (g : A → result F C) l : (∀ x, same_value (f x) (g x)) → same_value (collect_results f l) (collect_results g l).
Proof.
  intros H ys Hy%collect_results_Ok. apply collect_results_Ok. induction Hy as [|x y l ys Hx _ IH]; constructor; [by apply H|done].
Qed.

Ltac same_step :=
  cbv beta;
  lazymatch goal with
  | |- same_value (mbind _ _) (mbind _ _) => apply same_bind; [|intros ?]
  | |- same_value (map_err _ ?r) (map_err _ ?r) => apply same_map_err
  | |- same_value (map_err _ _) (map_err _ _) => apply same_map_errs
  | |- same_value (ok_or _ _) (ok_or _ _) => apply same_ok_or
  | |- same_value (collect_results _ _) (collect_results _ _) => apply same_collect; intros ?
  | |- same_value (Err _) (Err _) => apply same_err
  | |- same_value (if ?c then _ else _) (if ?c then _ else _) => destruct c
  | |- same_value (let '(_, _) := ?p in _) _ => destruct p
  | |- same_value (match ?o with _ => _ end) (match ?o with _ => _ end) => destruct o
  | |- same_value ?r ?r => apply same_refl
  end.
Ltac same := repeat same_step.

Section laws.
Context {J : TaifexJson} (config : NormalizerConfig).

Lemma parse_record_number n m json : same_value (parse_record config n json) (parse_record config m json).
Proof.
  unfold parse_record, parse_envelope, validate_identity. same.
  unfold parse_format, parse_i020, parse_i022, parse_book, parse_indication, parse_side, parse_level, parse_trade, parse_price, parse_quantity. same.
Qed.

(** ** What an accepted record becomes *)

(** The price and quantity of a trade or a level. *)
Definition quotes (w : WireTrade) (p : Price.Price) (q : Quantity.Quantity) : Prop :=
  match profile config with FuturesCalendarSpread => Price.parse | Futures | IndexOptions => Price.parse_positive end (wire_price w) = Ok p ∧
  q = Quantity.mk (wire_quantity w) Quantity.Contract ∧ wire_quantity w ≠ 0.
Definition trade_says (w : WireTrade) (t : Trade.ObservedTrade) : Prop :=
  quotes w (Trade.price t) (Trade.quantity t) ∧ Trade.observation_kind t = Trade.Regular.
Definition level_says (w : WireLevel) (l : Book.BookLevel) : Prop := quotes w (Book.price l) (Book.displayed_quantity l).
(** A calculated price and quantity: both zero, or both positive. *)
Definition indication_says (w : WireTrade) (p : Observation.Observation Price.Price) (q : Observation.Observation Quantity.Quantity) : Prop :=
  (∃ d, Decimal.parse (wire_price w) = Ok d ∧ Decimal.atoms d = 0 ∧ wire_quantity w = 0 ∧ p = Observation.NoObservation ∧ q = Observation.NoObservation) ∨
  (∃ price, Price.parse_positive (wire_price w) = Ok price ∧ wire_quantity w ≠ 0 ∧ p = Observation.Set_ price ∧
    q = Observation.Set_ (Quantity.mk (wire_quantity w) Quantity.Contract)).

(** The payload of a record, by its format. *)
Inductive payload_says (json format : list Z) : Event.EventPayload → Prop :=
| says_trades w ts : format = bytes_of "I020" → trade_record_from_str json = Ok w → first_packet w = Some true →
    ts ≠ [] → Forall2 trade_says (wire_trades w) ts →
    payload_says json format (Event.TradeBatchP (Event.mk_batch ts Trade.SourceSequencePreserved Observation.NoObservation
      Annotations.NoAnnotations (Observation.Set_ Signal.Continuous)))
| says_indication w t p q : format = bytes_of "I022" → profile config ≠ FuturesCalendarSpread → trade_record_from_str json = Ok w →
    wire_trades w = [t] → indication_says t p q →
    payload_says json format (Event.IndicativeAuctionP (Event.mk_auction (Signal.opening_with_evidence Signal.NoObservation Signal.NoObservation)
      p q Observation.NoObservation Observation.NoObservation Annotations.NoAnnotations))
| says_book w b : format ∈ [bytes_of "I080"; bytes_of "I082"] → book_record_from_str json = Ok w →
    Forall2 level_says (wire_bids w) (Book.levels (Book.bids b)) → Forall2 level_says (wire_asks w) (Book.levels (Book.asks b)) →
    payload_says json format (Event.BookSnapshotP (Event.mk_book b Annotations.NoAnnotations (Observation.Set_ Signal.Continuous))).

Context {HJ : TypedJson J}.

Lemma quote_Ok n c fp fq w p q : parse_price n c fp (wire_price w) (profile config) = Ok p → parse_quantity n c fq (wire_quantity w) = Ok q →
  quotes w p q ∧ Price.wf p ∧ (trade_typed w → Quantity.wf q) ∧ Quantity.unit q = Quantity.Contract.
Proof.
  intros Hp%map_err_Ok Hq%map_err_Ok. assert (Hw : trade_typed w → Quantity.wf q) by (intros Ht; by eapply Quantity.new_wf).
  apply Quantity.new_quantity_Ok in Hq as [-> Hne]. unfold quotes. split; [|split; [|done]].
  - by destruct (profile config).
  - destruct (profile config); first [by eapply price_parse_positive_wf|by eapply price_parse_wf].
Qed.

Lemma parse_trade_Ok n c w t : parse_trade n c (profile config) w = Ok t →
  trade_says w t ∧ (trade_typed w → Trade.wf t) ∧ Trade.trade_unit t = Quantity.Contract.
Proof.
  unfold parse_trade. rewrite bind_Ok. intros (p & Hp & H). apply bind_Ok in H as (q & Hq & [= <-]).
  destruct (quote_Ok _ _ _ _ _ _ _ Hp Hq) as (Hs & Hpw & Hqw & Hu). split; [done|]. split; [|done]. intros Ht. split; [done|by apply Hqw].
Qed.
Lemma parse_level_Ok n c w l : parse_level n c (profile config) w = Ok l →
  level_says w l ∧ (trade_typed w → Book.level_wf l) ∧ Book.level_unit l = Quantity.Contract.
Proof.
  unfold parse_level. rewrite bind_Ok. intros (p & Hp & H). apply bind_Ok in H as (q & Hq & [= <-]).
  destruct (quote_Ok _ _ _ _ _ _ _ Hp Hq) as (Hs & Hpw & Hqw & Hu). split; [done|]. split; [|done]. intros Ht. split; [done|by apply Hqw].
Qed.
(** What holds of every pair holds of the lists. *)
Lemma forall2_says {A C} (P Q : A → C → Prop) (R : C → Prop) (T : A → Prop) l k :
  (∀ x y, P x y → Q x y ∧ (T x → R y)) → Forall2 P l k → Forall2 Q l k ∧ (Forall T l → Forall R k).
Proof.
  intros H Hl. induction Hl as [|x y l k Hx _ [IH1 IH2]]; [done|]. destruct (H x y Hx). split; [by constructor|].
  intros [? ?]%Forall_cons_iff. constructor; auto.
Qed.

Lemma parse_side_Ok n c k wire side : Forall trade_typed wire → parse_side n c k wire (profile config) = Ok side →
  Book.side_wf side ∧ Forall2 level_says wire (Book.levels side).
Proof.
  intros Ht. unfold parse_side. destruct (5 <? length wire)%nat; [done|]. rewrite bind_Ok. intros (ls & Hls & H%map_err_Ok).
  apply collect_results_Ok in Hls. apply (forall2_says _ level_says Book.level_wf trade_typed) in Hls as [Hs Hw];
    [|intros x y Hx; destruct (parse_level_Ok _ _ _ _ Hx) as (? & ? & _); done].
  unfold Book.new, Book.with_market_order_quantity in H. destruct (Nat.ltb_spec Book.BOOK_DEPTH (length ls)) as [|Hlen]; [done|].
  apply Book.from_parts_Ok in H as [-> Hv]; [|by apply Book.length_level_slots].
  assert (Hlv : Book.levels (Book.mk_side k None ((Some <$> ls) ++ replicate (Book.BOOK_DEPTH - length ls) None)) = ls) by apply Book.map_while_some_app.
  rewrite Hlv. split; [|done]. split; [done|]. rewrite Hlv. split; [done|by apply Hw].
Qed.

Lemma parse_i020_Ok n c f t json r : parse_i020 config n c f t json = Ok r → ∃ p,
  r = Accepted (domain_event config f t p) ∧ payload_says json (bytes_of "I020") p ∧ EventCodec.payload_wf p.
Proof.
  unfold parse_i020. rewrite bind_Ok. intros (w & Hw%map_err_Ok & H). case_bool_decide as Hf; [done|]. case_bool_decide as Hne; [done|].
  apply bind_Ok in H as (ts & Hts%collect_results_Ok & H). apply bind_Ok in H as (b & Hb%map_err_Ok & [= <-]).
  apply EventCodec.new_batch_Ok in Hb as [-> Hu]. eexists. split; [done|].
  apply (forall2_says _ trade_says Trade.wf trade_typed) in Hts as [Hs Htw];
    [|intros x y Hx; destruct (parse_trade_Ok _ _ _ _ Hx) as (? & ? & _); done]. split.
  - apply (says_trades _ _ w ts); [done|done| |by destruct Hu|done]. by destruct (decide (first_packet w = Some true)).
  - split; [apply Htw; by eapply trade_record_typed|]. split; [done|]. split; [done|]. split; [by intros ? [= <-]|done].
Qed.

Lemma parse_indication_Ok n c w p q : parse_indication n c w = Ok (p, q) →
  indication_says w p q ∧ Observation.wf Price.wf p ∧ (trade_typed w → Observation.wf Quantity.wf q) ∧
  ∀ u, Some u = Quantity.unit <$> Observation.as_set q → u = Quantity.Contract.
Proof.
  unfold parse_indication. rewrite bind_Ok. intros (d & Hd%map_err_Ok & H).
  destruct (Z.eqb_spec (Decimal.atoms d) 0) as [Hz|Hz], (Z.eqb_spec (wire_quantity w) 0) as [Hq|Hq]; cbn [Bool.eqb negb] in H; [|done|done|].
  - injection H as <- <-. split; [left; by exists d|]. done.
  - apply bind_Ok in H as (price & Hp%map_err_Ok & H). apply bind_Ok in H as (qty & Hqty%map_err_Ok & [= <- <-]).
    assert (Hpp : Price.parse_positive (wire_price w) = Ok price) by (unfold Price.parse_positive; by rewrite Hd).
    split; [|split; [by eapply price_parse_positive_wf|split; [intros Ht; by eapply Quantity.new_wf|]]].
    + right. exists price. apply Quantity.new_quantity_Ok in Hqty as [-> _]. done.
    + apply Quantity.new_quantity_Ok in Hqty as [-> _]. by intros u [= ->].
Qed.
Lemma parse_i022_Ok n c f t json r : parse_i022 config n c f t json = Ok r → ∃ p,
  r = Accepted (domain_event config f t p) ∧ payload_says json (bytes_of "I022") p ∧ EventCodec.payload_wf p.
Proof.
  unfold parse_i022. case_bool_decide as Hpr; [done|]. rewrite bind_Ok. intros (w & Hw%map_err_Ok & H).
  destruct (wire_trades w) as [|tr [|]] eqn:Htr; [done| |done]. apply bind_Ok in H as ([p q] & Hi & H).
  apply bind_Ok in H as (a & Ha%map_err_Ok & [= <-]). apply EventCodec.new_auction_Ok in Ha as [-> Hu]. eexists. split; [done|].
  destruct (parse_indication_Ok _ _ _ _ _ Hi) as (Hs & Hpw & Hqw & _). split; [by eapply says_indication|].
  pose proof (trade_record_typed _ _ Hw) as Ht. rewrite Htr in Ht. apply Forall_cons_iff in Ht as [Ht _].
  split; [done|]. split; [done|]. split; [by apply Hqw|]. done.
Qed.
Lemma parse_book_Ok n c f t json r format : format ∈ [bytes_of "I080"; bytes_of "I082"] → parse_book config n c f t json = Ok r → ∃ p,
  r = Accepted (domain_event config f t p) ∧ payload_says json format p ∧ EventCodec.payload_wf p.
Proof.
  intros Hf. unfold parse_book. rewrite bind_Ok. intros (w & Hw%map_err_Ok & H). destruct (book_record_typed _ _ Hw) as [Hbt Hat].
  apply bind_Ok in H as (b & Hb%parse_side_Ok & H); [|done]. apply bind_Ok in H as (a & Ha%parse_side_Ok & H); [|done].
  apply bind_Ok in H as (s & Hs%map_err_Ok & [= <-]). destruct Hb as [Hbw Hbs], Ha as [Haw Has].
  apply Book.new_snapshot_Ok in Hs as [-> Hv]; [|apply Hbw|apply Haw]. eexists. split; [done|]. split; [by eapply says_book|].
  split; [done|]. split; [done|]. by intros ? [= <-].
Qed.

Lemma parse_format_Ok n c f t format json e : parse_format config n c f t format json = Ok (Accepted e) → ∃ p,
  e = domain_event config f t p ∧ payload_says json format p ∧ EventCodec.payload_wf p.
Proof.
  unfold parse_format. case_bool_decide as H20. { subst format. intros (p & [= ->] & H)%parse_i020_Ok. by exists p. }
  case_bool_decide as H22. { subst format. intros (p & [= ->] & H)%parse_i022_Ok. by exists p. }
  destruct (bool_decide (format = bytes_of "I080") || bool_decide (format = bytes_of "I082")) eqn:Hb.
  { intros Hp. apply (parse_book_Ok _ _ _ _ _ _ format) in Hp as (p & [= ->] & H); [by exists p|].
    apply orb_true_iff in Hb as [->%bool_decide_eq_true| ->%bool_decide_eq_true]; [left|right; left]. }
  repeat (case_bool_decide; [done|]). simpl. repeat (case_bool_decide; [done|]). done.
Qed.

Lemma parse_envelope_Ok n json envelope c t : parse_envelope config n json = Ok (envelope, c, t) →
  envelope_from_str json = Ok envelope ∧ expected_type (wire_format envelope) = Some (record_type envelope) ∧
  wire_market envelope = source_market config ∧ wire_symbol envelope = Symbol.as_bytes (Instrument.symbol (instrument config)) ∧
  MatchTime.parse (wire_match_time envelope) = Ok t.
Proof.
  assert (Hid : ∀ n c field x y u, validate_identity n c field x y = Ok u → y = x)
    by (intros ? ? ? x y u; unfold validate_identity; by case_bool_decide as Hxy).
  unfold parse_envelope. rewrite bind_Ok. intros (w & Hw%map_err_Ok & H). apply bind_Ok in H as (ty & Hty & H).
  assert (expected_type (wire_format w) = Some ty) as Hty' by (unfold ok_or in Hty; by destruct (expected_type _); simplify_eq).
  apply bind_Ok in H as (? & Hr%Hid & H). rewrite <-Hr in Hty'. apply bind_Ok in H as (? & Hm%Hid & H). apply bind_Ok in H as (? & Hs%Hid & H).
  apply bind_Ok in H as (t' & Ht%map_err_Ok & H). apply bind_Ok in H as (? & _ & [= <- <- <-]). do 4 (split; [done|]). done.
Qed.

(** The line and the envelope of an accepted event. *)
Definition accepted_from (json : list Z) (e : Event.DomainEvent) : Prop := ∃ envelope f t p,
  envelope_from_str json = Ok envelope ∧ expected_type (wire_format envelope) = Some (record_type envelope) ∧
  wire_market envelope = source_market config ∧ wire_symbol envelope = Symbol.as_bytes (Instrument.symbol (instrument config)) ∧
  SourceFormat.as_bytes f = wire_format envelope ∧ MatchTime.parse (wire_match_time envelope) = Ok t ∧
  contains_match_time config t = true ∧ e = domain_event config f t p ∧ payload_says json (wire_format envelope) p ∧ EventCodec.payload_wf p.

Lemma parse_record_Ok n json e : parse_record config n json = Ok (Accepted e) → accepted_from json e.
Proof.
  unfold parse_record. rewrite bind_Ok. intros ([[envelope c] t] & (Hj & Hx & Hm & Hsy & Hpt)%map_err_Ok%parse_envelope_Ok & Hrest).
  destruct (contains_match_time config t) eqn:Ht; [|done]. cbn [negb] in Hrest. apply bind_Ok in Hrest as (f & Hf%map_err_Ok & Hrest%map_err_Ok).
  apply parse_format_Ok in Hrest as (p & -> & Hs & Hw). exists envelope, f, t, p.
  assert (Hf' : SourceFormat.as_bytes f = wire_format envelope) by (unfold SourceFormat.new in Hf; destruct (wire_format envelope); by simplify_eq).
  do 9 (split; [done|]). done.
Qed.

Lemma expected_type_format f ty : expected_type f = Some ty → SourceFormat.wf (SourceFormat.mk f).
Proof.
  unfold expected_type, SourceFormat.wf. simpl. intros H.
  repeat match type of H with context [bool_decide (f = ?x)] => destruct (bool_decide (f = x)) eqn:Hf;
    [apply bool_decide_eq_true in Hf as ->; split; [done|by vm_compute]|clear Hf] end. done.
Qed.
Lemma accepted_event_wf json e : Instrument.wf (instrument config) → TradingDate.wf (trading_date config) → accepted_from json e → EventCodec.wf e.
Proof.
  intros Hi Hd (envelope & f & t & p & _ & Hx & _ & _ & Hf & Ht & _ & -> & _ & Hp). split; [done|]. split; [done|]. split.
  { apply expected_type_format in Hx. rewrite <-Hf in Hx. by destruct f. }
  split; [by eapply match_time_parse_wf|]. done.
Qed.

(** A known format is not empty, so that its identifier exists. *)
Lemma taifex_parse_no_panic n json : parse_record config n json ≠ Err Panicked.
Proof.
  unfold parse_record. intros [Hp|([[envelope c] t] & Hp%map_err_Ok%parse_envelope_Ok & Hrest)]%bind_Err.
  { by destruct (parse_envelope config n json). }
  destruct Hp as (_ & [Hne _]%expected_type_format & _). destruct (negb _); [done|].
  apply bind_Err in Hrest as [Hp|(f & _ & Hp)]; [|by destruct (parse_format _ _ _ _ _ _ _)].
  unfold SourceFormat.new in Hp. simpl in Hne. by destruct (wire_format envelope).
Qed.

End laws.
End TaifexLaws.

(** * TaifexRuns

    Whole inputs of the TAIFEX normalizer: its replay windows, its report, and
    the order of its events. *)

Module TaifexRuns.
Import TaifexWire Taifex TaifexLaws Effects(Failure, Returned, Panicked, yields, yields_bind, yields_mono, yields_collect) OrderingLaws(event_le).

(** ** Replay windows *)

(** Two windows that do not overlap. *)
Definition apart (a b : Window) : Prop := ord_le a.2 b.1 ∨ ord_le b.2 a.1.
Definition proper (w : Window) : Prop := ord_lt w.1 w.2.
Definition inside (t : MatchTime.MatchTime) (w : Window) : Prop := ord_le w.1 t ∧ ord_lt t w.2.

Lemma apart_perm l k : l ≡ₚ k → StronglySorted apart l → StronglySorted apart k.
Proof.
  assert (Hsym : ∀ a b, apart a b → apart b a) by (unfold apart; tauto).
  induction 1 as [|x l k Hp IH|x y l|l k m _ IH1 _ IH2]; intros H; [done| | |auto].
  - inversion_clear H as [|? ? Hs Hx]. constructor; [by apply IH|]. by rewrite <-Hp.
  - inversion_clear H as [|? ? Hs Hy]. inversion_clear Hs as [|? ? Hs' Hx]. inversion_clear Hy as [|? ? Hyx Hy'].
    constructor; [by constructor|]. constructor; [by apply Hsym|done].
Qed.

(** The test of consecutive windows, of windows sorted by their start. *)
Lemma disjoint_windows ws : StronglySorted (key_le fst) ws → Forall proper ws →
  existsb (λ '(a, b), bool_decide (ord_lt b.1 a.2)) (windows2 ws) = false ↔ StronglySorted (λ a b : Window, ord_le a.2 b.1) ws.
Proof.
  intros Hs Hp. induction Hs as [|x l Hs IH Hx]; [split; [constructor|done]|]. apply Forall_cons_iff in Hp as [Hpx Hp]. specialize (IH Hp).
  destruct l as [|y l]; [split; [by repeat constructor|done]|].
  change (windows2 (x :: y :: l)) with ((x, y) :: windows2 (y :: l)). cbn [existsb]. rewrite orb_false_iff, IH, bool_decide_eq_false, ord_not_lt. split.
  - intros [Hxy Hyl]. constructor; [done|]. constructor; [done|]. inversion_clear Hs as [|? ? _ Hy]. eapply Forall_impl; [|exact Hy].
    intros z Hz. unfold key_le in Hz. by etrans.
  - intros H. inversion_clear H as [|? ? Hyl Hxl]. inversion_clear Hxl. done.
Qed.
Lemma disjoint_apart ws : StronglySorted (key_le fst) ws → Forall proper ws →
  StronglySorted (λ a b : Window, ord_le a.2 b.1) ws ↔ StronglySorted apart ws.
Proof.
  intros Hs Hp. induction Hs as [|x l Hs IH Hx]; [split; constructor|]. apply Forall_cons_iff in Hp as [Hpx Hp]. specialize (IH Hp).
  split; intros H; inversion_clear H as [|? ? Hl Hxl]; (constructor; [by apply IH|]); rewrite !list.Forall_forall in *; intros y Hy.
  - left. by apply Hxl.
  - destruct (Hxl y Hy) as [?|Hyx]; [done|]. pose proof (Hx y Hy) as Hxy. unfold key_le in Hxy.
    destruct (ord_lt_irrefl y.1). eapply ord_lt_le_trans; [by apply Hp|]. by etrans.
Qed.
Lemma existsb_proper ws : existsb (λ '(start, end_), bool_decide (ord_le end_ start)) ws = false ↔ Forall proper ws.
Proof.
  induction ws as [|[a b] ws IH]; [split; [constructor|done]|]. cbn [existsb]. rewrite orb_false_iff, IH, bool_decide_eq_false, ord_not_le, Forall_cons_iff. done.
Qed.

Lemma min_time_Some l t : min_time l = Some t → t ∈ l ∧ ∀ u, u ∈ l → ord_le t u.
Proof.
  destruct l as [|a l]; [done|]. intros [= <-]. revert a. induction l as [|b l IH]; intros a; cbn [foldl].
  - split; [by left|]. by intros u ->%list_elem_of_singleton.
  - destruct (IH (if bool_decide (ord_lt b a) then b else a)) as [Hin Hle].
    set (m := foldl _ _ l) in *. assert (Hma : ord_le m a ∧ ord_le m b).
    { pose proof (Hle _ ltac:(by left)) as Hm. case_bool_decide as Hlt.
      - split; [|done]. etrans; [done|]. apply ord_le_lt_eq. by left.
      - apply ord_not_lt in Hlt. split; [done|by etrans]. }
    split.
    + apply elem_of_cons in Hin as [->|Hin]; [case_bool_decide; [right; left|left]|by right; right].
    + intros u. rewrite !elem_of_cons. intros [->|[->|Hu]]; [apply Hma..|]. apply Hle. by right.
Qed.
Lemma max_time_Some l t : max_time l = Some t → t ∈ l ∧ ∀ u, u ∈ l → ord_le u t.
Proof.
  destruct l as [|a l]; [done|]. intros [= <-]. revert a. induction l as [|b l IH]; intros a; cbn [foldl].
  - split; [by left|]. by intros u ->%list_elem_of_singleton.
  - destruct (IH (if bool_decide (ord_lt b a) then a else b)) as [Hin Hle].
    set (m := foldl _ _ l) in *. assert (Hma : ord_le a m ∧ ord_le b m).
    { pose proof (Hle _ ltac:(by left)) as Hm. case_bool_decide as Hlt.
      - split; [done|]. etrans; [|done]. apply ord_le_lt_eq. by left.
      - apply ord_not_lt in Hlt. split; [by etrans|done]. }
    split.
    + apply elem_of_cons in Hin as [->|Hin]; [case_bool_decide; [left|right; left]|by right; right].
    + intros u. rewrite !elem_of_cons. intros [->|[->|Hu]]; [apply Hma..|]. apply Hle. by right.
Qed.

Lemma contains_inside c t : contains_match_time c t = true ↔ ∃ w, w ∈ replay_windows c ∧ inside t w.
Proof.
  unfold contains_match_time. rewrite existsb_exists. split.
  - intros ([a b] & Hw%list_elem_of_In & [H1%bool_decide_eq_true H2%bool_decide_eq_true]%andb_true_iff). by exists (a, b).
  - intros ([a b] & Hw & H1 & H2). exists (a, b). split; [by apply list_elem_of_In|]. by rewrite !bool_decide_eq_true_2.
Qed.

Lemma for_profile_Ok i d p ws c : for_profile i d p ws = Ok c ↔
  Instrument.market i = Market.Taifex ∧ ws ≠ [] ∧ Forall proper ws ∧ StronglySorted apart ws ∧
  ∃ start end_, min_time (sort_on fst ws).*1 = Some start ∧ max_time (sort_on fst ws).*2 = Some end_ ∧
    c = mk_config i d start end_ (sort_on fst ws) p.
Proof.
  assert (Hs : StronglySorted (key_le fst) (sort_on fst ws)) by apply sort_on_sorted.
  assert (Hperm : sort_on fst ws ≡ₚ ws) by apply sort_on_perm.
  assert (Hne : sort_on fst ws = [] ↔ ws = []).
  { split; intros H; [|by subst]. rewrite H in Hperm. by apply Permutation_nil_l in Hperm. }
  unfold for_profile. case_bool_decide as Hm; [split; [done|by intros (? & _)]|].
  assert (Hm' : Instrument.market i = Market.Taifex) by by destruct (decide (Instrument.market i = Market.Taifex)). cbv zeta. split.
  - destruct (_ || _) eqn:Ht; [done|]. apply orb_false_iff in Ht as [[Hn%bool_decide_eq_false Hp%existsb_proper]%orb_false_iff Hw].
    intros (start & Ha & H)%bind_Ok. apply bind_Ok in H as (end_ & Hb & [= <-]). apply disjoint_windows in Hw; [|done..].
    apply disjoint_apart in Hw; [|done..]. apply (apart_perm _ _ Hperm) in Hw. rewrite Hperm in Hp. split; [done|]. split; [by rewrite <-Hne|].
    split; [done|]. split; [done|]. exists start, end_. unfold ok_or in *.
    destruct (min_time _), (max_time _); simplify_eq. done.
  - intros (_ & Hn & Hp & Ha & start & end_ & Hst & Hen & ->). rewrite bool_decide_eq_false_2 by (by rewrite Hne). rewrite Hst, Hen.
    rewrite <-Hperm in Hp. rewrite (proj2 (existsb_proper _) Hp). apply (apart_perm _ _ (symmetry Hperm)) in Ha.
    apply disjoint_apart in Ha; [|done..]. apply disjoint_windows in Ha; [|done..]. by rewrite Ha.
Qed.

(** Replay windows are accepted exactly when there is one, each starts before
    it ends and no two overlap. They are kept in order, so that a time is
    inside one of them at most, and bounded by the start and the end. *)
Theorem for_profile_windows i d p ws :
  ((∃ c, for_profile i d p ws = Ok c) ↔
    Instrument.market i = Market.Taifex ∧ ws ≠ [] ∧ Forall proper ws ∧ StronglySorted apart ws) ∧
  for_profile i d p ws ≠ Err Panicked ∧
  ∀ c, for_profile i d p ws = Ok c →
    replay_windows c ≡ₚ ws ∧ StronglySorted (λ a b : Window, ord_le a.2 b.1) (replay_windows c) ∧
    ∀ t, contains_match_time c t = true → inside t (replay_start c, replay_end_exclusive c).
Proof.
  assert (Hmin : ws ≠ [] → ∃ start end_, min_time (sort_on fst ws).*1 = Some start ∧ max_time (sort_on fst ws).*2 = Some end_).
  { intros Hn. destruct (sort_on fst ws) as [|w l] eqn:Hl; [|by repeat eexists].
    destruct Hn. pose proof (sort_on_perm fst ws) as Hperm. rewrite Hl in Hperm. by apply Permutation_nil_l in Hperm. }
  split; [|split].
  - split; [intros (c & (? & ? & ? & ? & _)%for_profile_Ok); done|]. intros (Hm & Hn & Hp & Ha). destruct (Hmin Hn) as (start & end_ & Hst & Hen).
    eexists. apply for_profile_Ok. do 4 (split; [done|]). by exists start, end_.
  - unfold for_profile. case_bool_decide; [done|]. cbv zeta. destruct (_ || _) eqn:Ht; [done|].
    apply orb_false_iff in Ht as [[Hn%bool_decide_eq_false _]%orb_false_iff _]. destruct Hmin as (start & end_ & -> & ->); [|done].
    intros ->. by apply Hn.
  - intros c (_ & _ & Hp & Ha & start & end_ & Hst & Hen & ->)%for_profile_Ok. cbn [replay_windows replay_start replay_end_exclusive].
    assert (Hperm : sort_on fst ws ≡ₚ ws) by apply sort_on_perm. split; [done|]. split.
    { apply disjoint_apart; [apply sort_on_sorted|by rewrite Hperm|]. by apply (apart_perm _ _ (symmetry Hperm)). }
    intros t (w & Hw & [H1 H2])%contains_inside. cbn [replay_windows] in Hw. apply min_time_Some in Hst as [_ Hst]. apply max_time_Some in Hen as [_ Hen]. split.
    + etrans; [apply (Hst w.1)|done]. by apply list_elem_of_fmap_2.
    + eapply ord_lt_le_trans; [done|]. apply (Hen w.2). by apply list_elem_of_fmap_2.
Qed.

(** ** Sorting *)

Section sorting.
Context {B : Blake3}.

Definition event_key_le (e1 e2 : Event.DomainEvent) : Prop := ∃ k1 k2, event_key e1 = Ok k1 ∧ event_key e2 = Ok k2 ∧ ord_le k1 k2.

Definition keyed (e : Event.DomainEvent) : result (Failure NormalizationError) _ := k ← event_key e; Ok (k, e).
Lemma keyed_Ok e p : keyed e = Ok p ↔ event_key e = Ok p.1 ∧ p.2 = e.
Proof.
  unfold keyed. rewrite bind_Ok. split; [by intros (k & Hk & [= <-])|]. destruct p as [k e']. intros [Hk <-]. by exists k.
Qed.

Lemma sorted_keys ps : StronglySorted (key_le fst) ps → Forall (λ p, event_key p.2 = Ok p.1) ps → StronglySorted event_key_le ps.*2.
Proof.
  induction 1 as [|p ps _ IH Hp]; intros Hk; [constructor|]. apply Forall_cons_iff in Hk as [Hkp Hk]. rewrite fmap_cons. constructor; [by apply IH|].
  rewrite list.Forall_forall in Hp, Hk. apply list.Forall_forall. intros e (q & -> & Hq)%list_elem_of_fmap.
  exists p.1, q.1. split; [done|]. split; [by apply Hk|by apply Hp].
Qed.

Lemma sort_events_Ok es out : sort_events es = Ok out → out ≡ₚ es ∧ StronglySorted event_key_le out.
Proof.
  unfold sort_events. destruct (Nat.ltb_spec (length es) 2) as [Hl|Hl].
  - intros [= <-]. split; [done|]. destruct es as [|e [|]]; [constructor|by repeat constructor|simpl in Hl; lia].
  - intros (ps & Hps & [= <-])%bind_Ok. change (collect_results keyed es = Ok ps) in Hps. apply collect_results_Ok in Hps.
    assert (Hes : ps.*2 = es) by (clear Hl; induction Hps as [|e p es' ps' [_ <-]%keyed_Ok _ IH]; [done|by rewrite fmap_cons, IH]).
    assert (Hk : Forall (λ p, event_key p.2 = Ok p.1) ps).
    { clear -Hps. induction Hps as [|e p es' ps' Hp _ IH]; constructor; [|done]. by apply keyed_Ok in Hp as [? ->]. }
    split; [by rewrite sort_on_perm, Hes|]. apply sorted_keys; [apply sort_on_sorted|]. by rewrite sort_on_perm.
Qed.
Lemma sort_events_perm es es' out : es ≡ₚ es' → sort_events es = Ok out → ∃ out', sort_events es' = Ok out'.
Proof.
  intros Hp. unfold sort_events. rewrite (Permutation_length Hp). destruct (_ <? _)%nat; [by eexists|].
  intros (ps & Hps & _)%bind_Ok. destruct (OrderingLaws.collect_results_perm _ _ _ _ Hp Hps) as (ps' & -> & _). by eexists.
Qed.

Lemma sort_events_yields es : (∀ e, e ∈ es → ∃ bytes, Event.to_canonical_bytes e = Ok bytes) → yields (sort_events es) (λ _, True).
Proof.
  intros H. unfold sort_events. destruct (_ <? _)%nat; [done|]. eapply yields_bind, yields_mono; [apply (yields_collect _ _ (λ _ _, True))|done].
  intros e He. destruct (H e He) as [bytes Hb]. unfold event_key, Event.fingerprint. by rewrite Hb.
Qed.

(** Sorted arrangements of the same events are the same, when a key belongs to
    one event. *)
Lemma sorted_events_unique l k : (∀ e1 e2 x, e1 ∈ l → e2 ∈ l → event_key e1 = Ok x → event_key e2 = Ok x → e1 = e2) →
  StronglySorted event_key_le l → StronglySorted event_key_le k → l ≡ₚ k → l = k.
Proof.
  intros Hinj Hl. revert k Hinj. induction Hl as [|x l Hl IH Hx]; intros k Hinj Hk Hp; [by apply Permutation_nil_l in Hp as ->|].
  destruct Hk as [|y k Hk Hy]; [by apply Permutation_nil_r in Hp|].
  assert (x = y) as ->.
  { assert (Hyin : y ∈ x :: l) by (rewrite Hp; by left). assert (Hxin : x ∈ y :: k) by (rewrite <-Hp; by left).
    apply elem_of_cons in Hyin as [->|Hyin]; [done|]. apply elem_of_cons in Hxin as [->|Hxin]; [done|].
    rewrite list.Forall_forall in Hx, Hy. destruct (Hx y Hyin) as (k1 & k2 & E1 & E2 & Hle), (Hy x Hxin) as (k2' & k1' & E2' & E1' & Hle').
    assert (k1 = k2) as <- by (apply (anti_symm ord_le); [done|congruence]). apply (Hinj x y k1); [by left|by right|done|done]. }
  f_equal. apply IH; [|done|by eapply Permutation_cons_inv]. intros e1 e2 z H1 H2. apply Hinj; by right.
Qed.

(** The sort key agrees with the replay order on events of one TAIFEX
    instrument without a source sequence. *)
Definition sequenced_by_time (i : Instrument.InstrumentId) (e : Event.DomainEvent) : Prop :=
  Event.instrument e = i ∧ Event.source_sequence e = None.
Lemma event_key_replay i e k : Instrument.market i = Market.Taifex → sequenced_by_time i e → event_key e = Ok k → ∃ k',
  Ordering.for_event e = Ok k' ∧ k' = Ordering.mk_key k.1 (Market.ordering_rank Market.Taifex) (Instrument.symbol i) k.2.1 0
    (Event.kind_discriminant k.2.2.1) None k.2.2.2.
Proof.
  intros Hm [Hi Hn]. unfold event_key. rewrite bind_Ok. intros (f & Hf%map_err_Ok & [= <-]). unfold Event.fingerprint in Hf.
  apply fmap_Ok in Hf as (canonical & Hc & ->). eexists. split; [|done]. unfold Ordering.for_event, Ordering.for_event_and_canonical.
  rewrite Hc. simpl. unfold Ordering.for_event_with_fingerprint, Ordering.phase_rank. rewrite Hi, Hm, Hn. done.
Qed.
Lemma key_le_replay i e1 e2 : Instrument.market i = Market.Taifex → sequenced_by_time i e1 → sequenced_by_time i e2 → event_key_le e1 e2 → event_le e1 e2.
Proof.
  intros Hm H1 H2 (k1 & k2 & E1 & E2 & Hle). destruct (event_key_replay _ _ _ Hm H1 E1) as (k1' & F1 & K1), (event_key_replay _ _ _ Hm H2 E2) as (k2' & F2 & K2).
  exists k1', k2'. split; [done|]. split; [done|]. subst k1' k2'. destruct k1 as (t1 & f1 & d1 & p1), k2 as (t2 & f2 & d2 & p2).
  unfold ord_le in *. match goal with |- cmp ?x ?y ≠ _ => change (cmp (Ordering.key_fields x) (Ordering.key_fields y) ≠ Gt) end.
  unfold Ordering.key_fields. rewrite !cmp_pair.
  cbn [fst snd Ordering.match_time Ordering.market_rank Ordering.symbol Ordering.source_format Ordering.source_phase_rank Ordering.event_kind_rank
    Ordering.source_sequence Ordering.event_fingerprint]. by rewrite !cmp_refl.
Qed.

Lemma sorted_replay i es : Instrument.market i = Market.Taifex → (∀ e, e ∈ es → sequenced_by_time i e) →
  StronglySorted event_key_le es → StronglySorted event_le es.
Proof.
  intros Hm Hes Hs. induction Hs as [|e es _ IH He]; [constructor|]. constructor; [apply IH; intros x Hx; apply Hes; by right|].
  rewrite list.Forall_forall in He |- *. intros x Hx. apply (key_le_replay i); [done|apply Hes; by left|apply Hes; by right|by apply He].
Qed.

(** Replay leaves sorted events where they are. *)
Lemma order_sorted_events es out : StronglySorted event_le es → Ordering.order_events es = Ok out → out = es.
Proof.
  intros Hs. unfold Ordering.order_events. rewrite bind_Ok. intros (ps & Hps & H).
  rewrite (sort_on_sorted_id _ ps) in H by by eapply OrderingLaws.sorted_events. destruct (existsb _ _); [done|]. injection H as <-.
  by apply OrderingLaws.collect_prepare_events.
Qed.

End sorting.

(** ** Reports *)

Definition class_events (c : ClassifiedRecord) : list Event.DomainEvent := match c with Accepted e => [e] | _ => [] end.
Definition class_outside (c : ClassifiedRecord) : list RecordContext := match c with OutsideReplayWindow x => [x] | _ => [] end.
Definition class_skipped (c : ClassifiedRecord) : list KnownSkipped := match c with Skipped k => [k] | _ => [] end.

Section reports.
Context {J : TaifexJson} {B : Blake3} (config : NormalizerConfig).
Abbreviation classified := (Lines.classified (parse_record config)).

Definition add_class (n : Z) (c : ClassifiedRecord) (acc : Input) : Input :=
  mk_input n (accepted_events acc ++ class_events c) (outside acc ++ class_outside c) (skipped acc ++ class_skipped c).
Lemma add_class_count n c acc : count (add_class n c acc) = n.
Proof. done. Qed.
Lemma taifex_read_step acc entry : read_line config acc entry = Lines.read_step count (parse_record config) add_class acc entry.
Proof.
  destruct entry as [i l]. unfold read_line, Lines.read_step. destruct (ok_or _ _) as [n|]; [|done]. cbn [mbind result_bind].
  destruct (parse_record _ _ _) as [c|]; [|done]. unfold add_class. destruct c; simpl; by rewrite ?app_nil_r.
Qed.
Lemma collected_classes cls acc : Lines.collected count add_class acc cls = mk_input (count acc + zlen cls) (accepted_events acc ++ cls ≫= class_events)
  (outside acc ++ cls ≫= class_outside) (skipped acc ++ cls ≫= class_skipped).
Proof.
  revert acc. induction cls as [|c cls IH]; intros acc; [destruct acc; cbn; by rewrite Z.add_0_r, !app_nil_r|].
  change (Lines.collected count add_class acc (c :: cls)) with (Lines.collected count add_class (add_class (count acc + 1) c acc) cls).
  rewrite IH. unfold add_class. cbn [count accepted_events outside skipped]. rewrite !bind_cons, !app_assoc. f_equal. unfold zlen. simpl. lia.
Qed.

Lemma taifex_normalize_Ok lines rep : normalize_json_lines config lines = Ok rep ↔
  zlen lines ≤ u64_max ∧ ∃ cls es, Forall2 classified (number 0 lines) cls ∧ sort_events (cls ≫= class_events) = Ok es ∧
    rep = mk_report (zlen lines) es (cls ≫= class_outside) (cls ≫= class_skipped).
Proof.
  unfold normalize_json_lines. rewrite imap_pair, (Lines.try_fold_ext _ _ _ _ taifex_read_step). split.
  - intros (acc & (Hle & cls & Hcls & ->)%(Lines.read_all _ _ _ add_class_count) & H)%bind_Ok; [|done].
    rewrite collected_classes in H. apply bind_Ok in H as (es & Hes & [= <-]).
    split; [destruct Hle as [->|Hle]; [done|simpl in Hle; lia]|]. exists cls, es. split; [done|]. split; [done|].
    cbn [count outside skipped]. by rewrite (Lines.classified_length _ _ _ _ Hcls).
  - intros (Hle & cls & es & Hcls & Hes & ->). apply bind_Ok. eexists. split.
    + apply (Lines.read_all _ _ _ add_class_count); [done|]. split; [right; simpl; lia|by exists cls].
    + rewrite collected_classes. apply bind_Ok. exists es. split; [done|]. cbn [count outside skipped].
      by rewrite (Lines.classified_length _ _ _ _ Hcls).
Qed.

Lemma classes_accepted k lines cls e : Forall2 classified (number k lines) cls → e ∈ cls ≫= class_events →
  ∃ n line, line ∈ lines ∧ parse_record config n line = Ok (Accepted e).
Proof.
  revert k cls. induction lines as [|l lines IH]; intros k cls H; inversion H as [|? c ? cs Hc Hcs]; subst; [by intros ?%not_elem_of_nil|].
  rewrite bind_cons, elem_of_app. intros [He|He].
  - destruct c as [e'| |]; try by apply not_elem_of_nil in He. apply list_elem_of_singleton in He as ->. eexists _, l. by split; [left|].
  - destruct (IH _ _ Hcs He) as (n & line & Hin & Hp). exists n, line. by split; [right|].
Qed.

Context {HJ : TypedJson J}.

Lemma report_events lines rep : normalize_json_lines config lines = Ok rep → StronglySorted event_key_le (events rep) ∧
  ∀ e, e ∈ events rep → ∃ line, line ∈ lines ∧ accepted_from config line e.
Proof.
  intros (_ & cls & es & Hcls & [Hp Hs]%sort_events_Ok & ->)%taifex_normalize_Ok. split; [done|]. intros e He. cbn [events] in He. rewrite Hp in He.
  destruct (classes_accepted _ _ _ _ Hcls He) as (n & line & Hin & Hr). exists line. split; [done|]. by eapply parse_record_Ok.
Qed.

(** A report lists its events in the order a replay requires: ordering them
    again changes nothing. *)
Theorem taifex_events_ordered lines rep : Instrument.market (instrument config) = Market.Taifex → normalize_json_lines config lines = Ok rep →
  StronglySorted event_le (events rep) ∧ ∀ out, Ordering.order_events (events rep) = Ok out → out = events rep.
Proof.
  intros Hm [Hs He]%report_events. assert (Hle : StronglySorted event_le (events rep)).
  { apply (sorted_replay (instrument config)); [done| |done]. intros e (line & _ & envelope & f & t & p & _ & _ & _ & _ & _ & _ & _ & -> & _)%He. done. }
  split; [done|]. intros out. by apply order_sorted_events.
Qed.

(** The order of the input does not matter: rearranged lines give the same
    events, unless the fingerprints of two of them collide. *)
Theorem taifex_order_free ls ls' rep : ls ≡ₚ ls' → normalize_json_lines config ls = Ok rep →
  (∀ e1 e2 f, e1 ∈ events rep → e2 ∈ events rep → Event.fingerprint e1 = Ok f → Event.fingerprint e2 = Ok f → e1 = e2) →
  ∃ rep', normalize_json_lines config ls' = Ok rep' ∧ events rep' = events rep ∧ input_records rep' = input_records rep ∧
    outside_replay_window rep' ≡ₚ outside_replay_window rep ∧ known_skipped rep' ≡ₚ known_skipped rep.
Proof.
  intros Hls (Hn & cls & es & Hcls & Hes & ->)%taifex_normalize_Ok Hinj. cbn [events] in Hinj.
  destruct (Lines.classes_perm _ (λ n m line, parse_record_number config n m line) _ _ _ Hls Hcls) as (cls' & Hcls' & Hp).
  pose proof (sort_events_Ok _ _ Hes) as [Hep Hs]. assert (Hz : zlen ls' = zlen ls) by (unfold zlen; by rewrite Hls).
  assert (Hpe : cls ≫= class_events ≡ₚ cls' ≫= class_events) by by rewrite Hp.
  destruct (sort_events_perm _ _ _ Hpe Hes) as [es' Hes'].
  pose proof (sort_events_Ok _ _ Hes') as [Hep' Hs'].
  assert (es = es') as <-.
  { apply sorted_events_unique; [|done|done|by rewrite Hep, Hep']. intros e1 e2 k H1 H2 Hk1 Hk2.
    apply bind_Ok in Hk1 as (f1 & Hf1%map_err_Ok & [= <-]). apply bind_Ok in Hk2 as (f2 & Hf2%map_err_Ok & [= _ _ _ ->]). by apply (Hinj e1 e2 f1). }
  eexists. split; [apply taifex_normalize_Ok; rewrite Hz; split; [done|]; exists cls', es; done|]. cbn [events input_records outside_replay_window known_skipped].
  split; [done|]. split; [done|]. by rewrite Hp.
Qed.

(** C16: every event of a report comes from a line: it is well-formed, of the
    configuration's instrument and date, inside one of the replay windows,
    and carries the line's values; decoding its canonical bytes gives it back. *)
Theorem taifex_events_valid lines rep e : Instrument.wf (instrument config) → TradingDate.wf (trading_date config) →
  normalize_json_lines config lines = Ok rep → e ∈ events rep →
  EventCodec.wf e ∧ Event.instrument e = instrument config ∧ Event.trading_date e = trading_date config ∧
  (∃ w, w ∈ replay_windows config ∧ inside (Event.match_time e) w) ∧ (∃ line, line ∈ lines ∧ accepted_from config line e) ∧
  ∀ bytes, Event.to_canonical_bytes e = Ok bytes → zlen bytes ≤ isize_max → Event.from_canonical_bytes bytes = Ok e.
Proof.
  intros Hi Hd [_ He]%report_events Hin. destruct (He e Hin) as (line & Hline & Hacc). pose proof (accepted_event_wf _ _ _ Hi Hd Hacc) as Hwf.
  split; [done|]. split; [by destruct Hacc as (? & ? & ? & ? & _ & _ & _ & _ & _ & _ & _ & -> & _)|].
  split; [by destruct Hacc as (? & ? & ? & ? & _ & _ & _ & _ & _ & _ & _ & -> & _)|].
  split; [|split; [by exists line|intros bytes Hb Hl; by apply EventCodec.frame_decode_encode]].
  destruct Hacc as (? & ? & ? & ? & _ & _ & _ & _ & _ & _ & Hc & -> & _). by apply contains_inside.
Qed.

(** The normalizer returns: its [expect]s hold as long as the accepted events
    can be encoded. *)
Theorem taifex_never_panics lines : zlen lines ≤ u64_max →
  (∀ n line e, line ∈ lines → parse_record config n line = Ok (Accepted e) → ∃ bytes, Event.to_canonical_bytes e = Ok bytes) →
  normalize_json_lines config lines ≠ Err Panicked.
Proof.
  intros Hle Henc. apply (Effects.yields_no_panic _ (λ _, True)). unfold normalize_json_lines.
  rewrite imap_pair, (Lines.try_fold_ext _ _ _ _ taifex_read_step). apply yields_bind.
  pose proof (Lines.read_yields _ _ _ add_class_count 0 lines (mk_input 0 [] [] []) ltac:(done) ltac:(done) (taifex_parse_no_panic config)) as Hy.
  destruct (try_fold _ _ _) as [acc|] eqn:Hacc; [|done]. apply (Lines.read_all _ _ _ add_class_count) in Hacc as (_ & cls & Hcls & ->); [|done].
  rewrite collected_classes. apply yields_bind. eapply yields_mono; [apply sort_events_yields|done]. intros e He.
  destruct (classes_accepted _ _ _ _ Hcls He) as (n & line & Hin & Hr). by eapply Henc.
Qed.

End reports.
(** ** Concrete inputs *)

Definition demo_instrument : Instrument.InstrumentId := Instrument.new Market.Taifex (Symbol.mk (bytes_of "TXFH6")).
Definition demo_date : TradingDate.TradingDate := TradingDate.mk 20654.
(** The night session and the day session. *)
Definition demo_windows : list Window :=
  [(MatchTime.from_unix_microseconds 1784508300000000, MatchTime.from_unix_microseconds 1784526300000000);
   (MatchTime.from_unix_microseconds 1784286000000000, MatchTime.from_unix_microseconds 1784322000000000)].
Definition demo_config : NormalizerConfig :=
  mk_config demo_instrument demo_date (MatchTime.from_unix_microseconds 1784286000000000) (MatchTime.from_unix_microseconds 1784526300000000)
    (rev demo_windows) Futures.
Lemma demo_profile : for_profile demo_instrument demo_date Futures demo_windows = Ok demo_config.
Proof. by vm_compute. Qed.

(** A batch of two trades, a book a moment earlier, and a statistics record. *)
Definition demo_envelope (line : list Z) : WireEnvelope :=
  let '(ty, f, t) := if bool_decide (line = [1]) then ("trade", "I020", "2026-07-20T09:00:01+08:00")%string
                     else if bool_decide (line = [2]) then ("book", "I080", "2026-07-20T09:00:00+08:00")%string
                     else ("stats", "I030", "2026-07-20T09:00:00+08:00")%string in
  mk_envelope (bytes_of ty) (bytes_of "taifex_fut") (bytes_of f) (bytes_of "TXFH6") (bytes_of t) (bytes_of t).
#[local] Instance demo_json : TaifexJson := {|
  envelope_from_str := λ line, Ok (demo_envelope line);
  trade_record_from_str := λ _, Ok (mk_trade_record [mk_trade (bytes_of "23000") 2; mk_trade (bytes_of "23001") 1] (Some true));
  book_record_from_str := λ _, Ok (mk_book_record [mk_trade (bytes_of "22999") 5] [mk_trade (bytes_of "23000") 3]) |}.
#[local] Instance demo_typed : TypedJson demo_json.
Proof. split; [intros s r [= <-]|intros s r [= <-]; split]; repeat constructor; unfold_ints; simpl; lia. Qed.
#[local] Instance demo_blake3 : Blake3 := λ b, b.

Definition demo_lines : list (list Z) := [[1]; [2]; [3]].
Definition demo_report : NormalizationReport :=
  match normalize_json_lines demo_config demo_lines with Ok r => r | Err _ => mk_report 0 [] [] [] end.
Lemma demo_normalized : normalize_json_lines demo_config demo_lines = Ok demo_report.
Proof. by vm_compute. Qed.
(** The book comes first, then the batch; the statistics are skipped. *)
Lemma demo_events : (Event.kind ∘ Event.payload <$> events demo_report, reason <$> known_skipped demo_report) =
  ([Event.BookSnapshotK; Event.TradeBatchK], [OrderStatistics]).
Proof. by vm_compute. Qed.

Lemma taifex_events_ordered_witness : StronglySorted event_le (events demo_report).
Proof. exact (proj1 (taifex_events_ordered demo_config demo_lines demo_report eq_refl demo_normalized)). Defined.

Lemma demo_distinct : (Event.fingerprint <$> events demo_report) !! 0%nat ≠ (Event.fingerprint <$> events demo_report) !! 1%nat.
Proof. by vm_compute. Qed.
Lemma demo_no_collision e1 e2 f : e1 ∈ events demo_report → e2 ∈ events demo_report →
  Event.fingerprint e1 = Ok f → Event.fingerprint e2 = Ok f → e1 = e2.
Proof.
  assert (Hl : length (events demo_report) = 2%nat) by by vm_compute. pose proof demo_distinct as Hd. revert Hl Hd.
  destruct (events demo_report) as [|a [|b [|]]]; try done. intros _ Hd. simpl in Hd. rewrite !elem_of_cons.
  intros [->|[->|[]%not_elem_of_nil]] [->|[->|[]%not_elem_of_nil]] H1 H2; try done; destruct Hd; congruence.
Qed.
Lemma taifex_order_free_witness : ∃ rep, normalize_json_lines demo_config [[2]; [1]; [3]] = Ok rep ∧ events rep = events demo_report.
Proof.
  destruct (taifex_order_free demo_config demo_lines [[2]; [1]; [3]] demo_report (perm_swap _ _ _) demo_normalized demo_no_collision)
    as (rep & Hr & He & _). exists rep. split; [exact Hr|exact He].
Defined.

Lemma demo_config_wf : Instrument.wf (instrument demo_config) ∧ TradingDate.wf (trading_date demo_config).
Proof. split; by vm_compute. Qed.
Lemma demo_reported : ∃ e, e ∈ events demo_report.
Proof.
  assert (Hl : length (events demo_report) = 2%nat) by by vm_compute. destruct (events demo_report) as [|a l]; [done|]. exists a. by left.
Qed.
Lemma taifex_events_valid_witness : ∃ e, e ∈ events demo_report ∧ EventCodec.wf e.
Proof.
  destruct demo_reported as [e He]. exists e. split; [exact He|].
  exact (proj1 (taifex_events_valid demo_config demo_lines demo_report e (proj1 demo_config_wf) (proj2 demo_config_wf) demo_normalized He)).
Defined.
Lemma demo_encodes n line e : line ∈ demo_lines → parse_record demo_config n line = Ok (Accepted e) → ∃ bytes, Event.to_canonical_bytes e = Ok bytes.
Proof.
  intros Hl Hp%(parse_record_number demo_config n 1).
  assert (Hall : forallb (λ l, match parse_record demo_config 1 l with Ok (Accepted e) => is_ok (Event.to_canonical_bytes e) | _ => true end) demo_lines = true)
    by by vm_compute.
  rewrite forallb_forall in Hall. apply list_elem_of_In, Hall in Hl. rewrite Hp in Hl.
  destruct (Event.to_canonical_bytes e) as [bytes|]; [|done]. by exists bytes.
Qed.
Lemma taifex_never_panics_witness : normalize_json_lines demo_config demo_lines ≠ Err Panicked.
Proof. apply taifex_never_panics; [vm_compute; discriminate|exact demo_encodes]. Defined.

End TaifexRuns.
