(* ===== verification/Query.v ===== *)
(** Queries to the source archive (providers/teralion/src/query.rs): what may
    be asked, the canonical bytes of a query and its identity. *)
From S2P Require Import Prelude Order Text Numeric Quantity Calendar Book Identity Codec Values Event MarketState Orders Requests StateCanonical Output OrderedSets Framing Framed.

Module Query.
Import Output.Output(btree_set) OrderedSets(btree_set_nil, btree_set_sorted).

Definition TERALION_INTERFACE_VERSION : Z := 1.
Definition MAX_PAGE_LIMIT : Z := 5000.

(** ** Source markets *)

Inductive ArchiveMarket : Set := TwseArchive | TpexArchive | TaifexFutures | TaifexOptions.
#[global] Instance ArchiveMarket_eq_dec : EqDecision ArchiveMarket.
Proof. solve_decision. Defined.
Definition market_discriminant (m : ArchiveMarket) : Z :=
  match m with TwseArchive => 1 | TpexArchive => 2 | TaifexFutures => 3 | TaifexOptions => 4 end.
Definition for_instrument (i : Instrument.InstrumentId) : ArchiveMarket :=
  match Instrument.market i with Market.Twse => TwseArchive | Market.Tpex => TpexArchive | Market.Taifex => TaifexFutures end.
Definition wire_market (m : ArchiveMarket) : list Z :=
  match m with
  | TwseArchive => bytes_of "twse" | TpexArchive => bytes_of "tpex" | TaifexFutures => bytes_of "taifex_fut" | TaifexOptions => bytes_of "taifex_opt"
  end.
Definition domain_market (m : ArchiveMarket) : Market.MarketId :=
  match m with TwseArchive => Market.Twse | TpexArchive => Market.Tpex | TaifexFutures | TaifexOptions => Market.Taifex end.

(** ** The parts of a query *)

Inductive QueryError : Set :=
| EmptyCredential | InvalidTimestamp (e : MatchTime.MatchTimeError) | InvalidTimestampWindow | InvalidDateWindow
| InvalidPageLimit (limit : Z) | EmptyKinds | ArchiveMarketMismatch.

Record TeralionCredential : Set := mk_credential { expose_secret : list Z }.
Definition new_credential (value : list Z) : result QueryError TeralionCredential :=
  reject bool_decide (value = []) with EmptyCredential;; Ok (mk_credential value).

(** The text of a timestamp and the instant it names. *)
Record ArchiveTimestamp : Set := mk_timestamp { exact : list Z; utc : MatchTime.MatchTime }.
#[global] Instance ArchiveTimestamp_eq_dec : EqDecision ArchiveTimestamp.
Proof. solve_decision. Defined.
Definition parse_timestamp (value : list Z) : result QueryError ArchiveTimestamp :=
  utc ← map_err InvalidTimestamp (MatchTime.parse value);
  Ok (mk_timestamp value utc).

Inductive ArchiveKind : Set := QuoteKind | BookKind | CloseKind | StatsKind | TradeKind.
#[global] Instance ArchiveKind_eq_dec : EqDecision ArchiveKind.
Proof. solve_decision. Defined.
Definition kind_discriminant (k : ArchiveKind) : Z :=
  match k with QuoteKind => 1 | BookKind => 2 | CloseKind => 3 | StatsKind => 4 | TradeKind => 5 end.
#[global] Instance kind_discriminant_inj : Inj (=) (=) kind_discriminant.
Proof. by intros [] []. Qed.
#[global] Instance ArchiveKind_ord : Ord ArchiveKind := cmp_on kind_discriminant.
#[global] Instance ArchiveKind_ord_laws : OrdLaws ArchiveKind.
Proof. apply cmp_on_laws, _. Qed.
Definition slug (k : ArchiveKind) : list Z :=
  match k with
  | QuoteKind => bytes_of "quote" | BookKind => bytes_of "book" | CloseKind => bytes_of "close" | StatsKind => bytes_of "stats"
  | TradeKind => bytes_of "trade"
  end.

(** ** Queries *)

Inductive TeralionQuery : Set :=
| Coverage (start end_ : TradingDate.TradingDate)
| SymbolRange (instrument : Instrument.InstrumentId)
| Ticks (instrument : Instrument.InstrumentId) (start end_ : ArchiveTimestamp) (kinds : list ArchiveKind) (limit : Z)
    (market : option ArchiveMarket)
| DailyInstrument (instrument : Instrument.InstrumentId) (trading_date : TradingDate.TradingDate).
#[global] Instance TeralionQuery_eq_dec : EqDecision TeralionQuery.
Proof. solve_decision. Defined.

Definition coverage (start end_ : TradingDate.TradingDate) : result QueryError TeralionQuery :=
  reject bool_decide (ord_lt end_ start) with InvalidDateWindow;; Ok (Coverage start end_).
Definition symbol_range (i : Instrument.InstrumentId) : TeralionQuery := SymbolRange i.
Definition ticks_with_archive_market (i : Instrument.InstrumentId) (start end_ : ArchiveTimestamp) (kinds : list ArchiveKind) (limit : Z)
    (m : option ArchiveMarket) : result QueryError TeralionQuery :=
  reject bool_decide (ord_le (utc end_) (utc start)) with InvalidTimestampWindow;;
  reject (limit =? 0) || (MAX_PAGE_LIMIT <? limit) with InvalidPageLimit limit;;
  let kinds := btree_set kinds in
  reject bool_decide (kinds = []) with EmptyKinds;;
  Ok (Ticks i start end_ kinds limit m).
Definition ticks (i : Instrument.InstrumentId) (start end_ : ArchiveTimestamp) (kinds : list ArchiveKind) (limit : Z) :
    result QueryError TeralionQuery := ticks_with_archive_market i start end_ kinds limit None.
Definition ticks_for_market (i : Instrument.InstrumentId) (start end_ : ArchiveTimestamp) (kinds : list ArchiveKind) (limit : Z)
    (m : ArchiveMarket) : result QueryError TeralionQuery :=
  reject bool_decide (domain_market m ≠ Instrument.market i) with ArchiveMarketMismatch;;
  ticks_with_archive_market i start end_ kinds limit (Some m).
Definition daily_instrument (i : Instrument.InstrumentId) (d : TradingDate.TradingDate) : TeralionQuery := DailyInstrument i d.

Definition instrument (q : TeralionQuery) : option Instrument.InstrumentId :=
  match q with Coverage _ _ => None | SymbolRange i | Ticks i _ _ _ _ _ | DailyInstrument i _ => Some i end.
Definition archive_market (q : TeralionQuery) : option ArchiveMarket :=
  match q with Ticks i _ _ _ _ m => Some (default (for_instrument i) m) | _ => None end.
Definition is_paged (q : TeralionQuery) : bool := match q with Ticks _ _ _ _ _ _ => true | _ => false end.

(** ** Identity

    A length is cast to 32 bits, [be_bytes 4]. *)

Definition append_str (value : list Z) : list Z := be_bytes 4 (zlen value) ++ value.
Definition append_instrument (i : Instrument.InstrumentId) : list Z :=
  Market.discriminant (Instrument.market i) :: append_str (Symbol.as_bytes (Instrument.symbol i)).
Definition canonical_bytes (q : TeralionQuery) : list Z :=
  bytes_of "OSTQ" ++ be_bytes 2 TERALION_INTERFACE_VERSION ++
  match q with
  | Coverage start end_ => 1 :: TradingDate.to_canonical_bytes start ++ TradingDate.to_canonical_bytes end_
  | SymbolRange i => 2 :: append_instrument i
  | Ticks i start end_ kinds limit m =>
      3 :: append_instrument i ++ append_str (exact start) ++ append_str (exact end_) ++ be_bytes 4 (zlen kinds) ++
      (kind_discriminant <$> kinds) ++ be_bytes 2 limit ++
      match m with Some m => [1; market_discriminant m] | None => [] end
  | DailyInstrument i d => 4 :: append_instrument i ++ TradingDate.to_canonical_bytes d
  end.
Definition identity {B : Blake3} (q : TeralionQuery) : list Z := blake3 (canonical_bytes q).

(** ** What a query promises *)

(** What the constructors give, for texts whose length fits 32 bits. *)
Definition str_fits (s : list Z) : Prop := is_u32 (zlen s).
Definition instrument_fits (i : Instrument.InstrumentId) : Prop := str_fits (Symbol.as_bytes (Instrument.symbol i)).
Definition timestamp_wf (t : ArchiveTimestamp) : Prop := str_fits (exact t) ∧ MatchTime.parse (exact t) = Ok (utc t).
Definition wf (q : TeralionQuery) : Prop :=
  match q with
  | Coverage start end_ => TradingDate.wf start ∧ TradingDate.wf end_ ∧ ord_le start end_
  | SymbolRange i => instrument_fits i
  | Ticks i start end_ kinds limit m =>
      instrument_fits i ∧ timestamp_wf start ∧ timestamp_wf end_ ∧ ord_lt (utc start) (utc end_) ∧ kinds ≠ [] ∧
      StronglySorted ord_lt kinds ∧ 1 ≤ limit ≤ MAX_PAGE_LIMIT ∧ (∀ m', m = Some m' → domain_market m' = Instrument.market i)
  | DailyInstrument i d => instrument_fits i ∧ TradingDate.wf d
  end.

Lemma parse_timestamp_Ok value t : parse_timestamp value = Ok t ↔ t = mk_timestamp value (utc t) ∧ MatchTime.parse value = Ok (utc t).
Proof.
  unfold parse_timestamp. rewrite bind_Ok. split.
  - intros (u & Hu%map_err_Ok & [= <-]). done.
  - intros [-> Hp]. simpl in Hp. exists (utc t). by rewrite Hp.
Qed.
Lemma ticks_with_archive_market_Ok i start end_ kinds limit m q : ticks_with_archive_market i start end_ kinds limit m = Ok q ↔
  q = Ticks i start end_ (btree_set kinds) limit m ∧ ord_lt (utc start) (utc end_) ∧ kinds ≠ [] ∧ limit ≠ 0 ∧ limit ≤ MAX_PAGE_LIMIT.
Proof.
  unfold ticks_with_archive_market. rewrite <-ord_not_le, <-(btree_set_nil kinds). case_bool_decide as Ht; [split; [done|tauto]|].
  destruct ((limit =? 0) || (MAX_PAGE_LIMIT <? limit)) eqn:Hl; [split; [done|intros (_ & _ & _ & ? & ?); lia]|].
  case_bool_decide as Hk; [split; [done|tauto]|]. split; [intros [= <-]|intros (-> & _); done].
  do 3 (split; [done|]). lia.
Qed.

(** *** Bytes determine the query *)

Lemma append_str_inj s1 s2 r1 r2 : str_fits s1 → str_fits s2 → append_str s1 ++ r1 = append_str s2 ++ r2 → s1 = s2 ∧ r1 = r2.
Proof.
  intros H1 H2. unfold append_str. rewrite <-!app_assoc. intros He. apply app_inj_1 in He as [Hn He]; [|by rewrite !length_be_bytes].
  apply be_bytes_inj in Hn; [|unfold str_fits in *; unfold_ints; simpl; lia..]. apply app_inj_1 in He; [done|]. unfold zlen in Hn. lia.
Qed.
Lemma append_instrument_inj i1 i2 r1 r2 : instrument_fits i1 → instrument_fits i2 →
  append_instrument i1 ++ r1 = append_instrument i2 ++ r2 → i1 = i2 ∧ r1 = r2.
Proof.
  destruct i1 as [m1 [s1]], i2 as [m2 [s2]]. intros H1 H2 [Hm He]%cons_eq_inj. apply append_str_inj in He as [Hs ->]; [|done..].
  simpl in *. split; [|done]. subst. f_equal. by destruct m1, m2.
Qed.
Lemma date_inj d1 d2 r1 r2 : TradingDate.wf d1 → TradingDate.wf d2 →
  TradingDate.to_canonical_bytes d1 ++ r1 = TradingDate.to_canonical_bytes d2 ++ r2 → d1 = d2 ∧ r1 = r2.
Proof.
  intros H1 H2. pose proof (Framed.framed_agree d1 d2 (Framed:=Framed.framed_date) H1 H2) as Ha.
  intros He. by apply (Ha (TradingDate.to_canonical_bytes d1) (TradingDate.to_canonical_bytes d2)) in He; [|apply Writer.writes_extend..].
Qed.
Lemma ticks_tail_inj (k1 k2 : list ArchiveKind) l1 l2 m1 m2 : is_u32 (zlen k1) → is_u32 (zlen k2) → 1 ≤ l1 ≤ MAX_PAGE_LIMIT → 1 ≤ l2 ≤ MAX_PAGE_LIMIT →
  be_bytes 4 (zlen k1) ++ (kind_discriminant <$> k1) ++ be_bytes 2 l1 ++ match m1 with Some m => [1; market_discriminant m] | None => [] end =
  be_bytes 4 (zlen k2) ++ (kind_discriminant <$> k2) ++ be_bytes 2 l2 ++ match m2 with Some m => [1; market_discriminant m] | None => [] end →
  k1 = k2 ∧ l1 = l2 ∧ m1 = m2.
Proof.
  unfold MAX_PAGE_LIMIT. intros Hk1 Hk2 Hl1 Hl2 He. apply app_inj_1 in He as [Hn He]; [|by rewrite !length_be_bytes].
  apply be_bytes_inj in Hn; [|unfold_ints; simpl; lia..]. apply app_inj_1 in He as [Hk He]; [|rewrite !length_fmap; unfold zlen in Hn; lia].
  apply (inj (fmap kind_discriminant)) in Hk as ->. apply app_inj_1 in He as [Hl He]; [|by rewrite !length_be_bytes].
  apply be_bytes_inj in Hl as ->; [|simpl; lia..]. split; [done|]. split; [done|].
  destruct m1 as [[]|], m2 as [[]|]; done.
Qed.
Lemma kinds_few (kinds : list ArchiveKind) : StronglySorted ord_lt kinds → is_u32 (zlen kinds).
Proof.
  intros Hs. assert (Hn : NoDup kinds).
  { clear -Hs. induction Hs as [|x l Hs IH Hx]; constructor; [|done]. rewrite list.Forall_forall in Hx. intros Hin. by eapply ord_lt_irrefl, Hx. }
  assert (Hl : (length kinds ≤ length [QuoteKind; BookKind; CloseKind; StatsKind; TradeKind])%nat).
  { apply submseteq_length, NoDup_submseteq; [done|]. intros [] _; set_solver. }
  unfold zlen. simpl in Hl. unfold_ints. lia.
Qed.

Lemma canonical_bytes_inj q1 q2 : wf q1 → wf q2 → canonical_bytes q1 = canonical_bytes q2 → q1 = q2.
Proof.
  unfold canonical_bytes. intros H1 H2 He. apply app_inj_1 in He as [_ He]; [|done]. apply app_inj_1 in He as [_ He]; [|done].
  destruct q1 as [a1 b1|i1|i1 a1 b1 k1 l1 m1|i1 d1], q2 as [a2 b2|i2|i2 a2 b2 k2 l2 m2|i2 d2]; cbn [wf] in H1, H2; try (by simplify_eq);
    apply cons_eq_inj in He as [_ He].
  - destruct H1 as (? & ? & _), H2 as (? & ? & _). apply date_inj in He as [-> He]; [|done..].
    rewrite <-(app_nil_r (TradingDate.to_canonical_bytes b1)), <-(app_nil_r (TradingDate.to_canonical_bytes b2)) in He.
    by apply date_inj in He as [-> _].
  - rewrite <-(app_nil_r (append_instrument i1)), <-(app_nil_r (append_instrument i2)) in He. by apply append_instrument_inj in He as [-> _].
  - destruct H1 as (? & [? Ha1] & [? Hb1] & _ & _ & ? & ? & _), H2 as (? & [? Ha2] & [? Hb2] & _ & _ & ? & ? & _).
    apply append_instrument_inj in He as [-> He]; [|done..]. apply append_str_inj in He as [Ea He]; [|done..].
    apply append_str_inj in He as [Eb He]; [|done..]. apply ticks_tail_inj in He as (-> & -> & ->); [|by try apply kinds_few..].
    destruct a1, a2, b1, b2. simpl in *. congruence.
  - destruct H1, H2. apply append_instrument_inj in He as [-> He]; [|done..].
    rewrite <-(app_nil_r (TradingDate.to_canonical_bytes d1)), <-(app_nil_r (TradingDate.to_canonical_bytes d2)) in He.
    by apply date_inj in He as [-> _].
Qed.

(** Two queries with the same identity ask for the same, or the hash has
    collided on their canonical bytes. *)
Theorem query_identifies {B : Blake3} q1 q2 : wf q1 → wf q2 → identity q1 = identity q2 →
  q1 = q2 ∨ canonical_bytes q1 ≠ canonical_bytes q2 ∧ blake3 (canonical_bytes q1) = blake3 (canonical_bytes q2).
Proof.
  intros H1 H2 He. destruct (decide (canonical_bytes q1 = canonical_bytes q2)) as [Hc|Hc].
  - left. by apply canonical_bytes_inj.
  - right. by split.
Qed.

(** The constructors give well-formed queries of what was asked; the kinds are
    a set. *)
Lemma ticks_for_market_wf i start end_ kinds limit m q : instrument_fits i → timestamp_wf start → timestamp_wf end_ → 0 ≤ limit →
  ticks_for_market i start end_ kinds limit m = Ok q → wf q ∧ archive_market q = Some m ∧ is_paged q = true.
Proof.
  intros Hi Hs He Hl. unfold ticks_for_market. case_bool_decide as Hm; [done|]. intros (-> & Ht & Hk & Hl0 & Hl1)%ticks_with_archive_market_Ok.
  split; [|done]. do 4 (split; [done|]). split; [by rewrite btree_set_nil|]. split; [apply btree_set_sorted|].
  split; [lia|]. intros m' [= <-]. by destruct (decide (domain_market m = Instrument.market i)).
Qed.
Lemma ticks_wf i start end_ kinds limit q : instrument_fits i → timestamp_wf start → timestamp_wf end_ → 0 ≤ limit →
  ticks i start end_ kinds limit = Ok q → wf q ∧ archive_market q = Some (for_instrument i) ∧ is_paged q = true.
Proof.
  intros Hi Hs He Hl (-> & Ht & Hk & Hl0 & Hl1)%ticks_with_archive_market_Ok.
  split; [|done]. do 4 (split; [done|]). split; [by rewrite btree_set_nil|]. split; [apply btree_set_sorted|].
  split; [lia|]. done.
Qed.

Definition demo_time (s : string) : ArchiveTimestamp :=
  match parse_timestamp (bytes_of s) with Ok t => t | Err _ => mk_timestamp [] (MatchTime.from_unix_microseconds 0) end.
Definition demo_instrument : Instrument.InstrumentId := Instrument.new Market.Twse (Symbol.mk (bytes_of "2330")).
Definition demo_ticks : TeralionQuery :=
  Ticks demo_instrument (demo_time "2026-07-27T08:55:00+08:00") (demo_time "2026-07-27T13:35:00+08:00") [QuoteKind] 5000 None.
Lemma demo_ticks_wf : wf demo_ticks.
Proof. split_and!; try done; try by vm_compute. repeat constructor. Qed.
Lemma query_identifies_witness : let B : Blake3 := λ b, b in demo_ticks = demo_ticks ∨ canonical_bytes demo_ticks ≠ canonical_bytes demo_ticks ∧ blake3 (canonical_bytes demo_ticks) = blake3 (canonical_bytes demo_ticks).
Proof. intros B. exact (@query_identifies B demo_ticks demo_ticks demo_ticks_wf demo_ticks_wf eq_refl). Defined.

End Query.
