(* ===== verification/Provider.v ===== *)
(** The choice of a normalizer and of the archive query for a planned
    partition (providers/teralion/src/provider.rs, twse.rs, tpex.rs and
    data-sync/src/mapping.rs). *)
From S2P Require Import Prelude Order Text Numeric Quantity Calendar Book Identity Event Effects Accounting Sessions Partition Query EquityQuote Taifex.

Module Provider.
Import InstrumentClass Effects(Failure, Returned, Panicked) Query(TeralionQuery, ArchiveKind, ArchiveMarket).
Import Sessions(SessionPlan, SessionWindow) Partition(SourceId, SourcePartitionKey, source_bytes).

(** ** Mappings (mapping.rs) *)

(** The names are ASCII: their bytes are their characters. *)
Record NormalizerMappingIdentity : Set := mk_mapping { name : list Z; version : Z }.
#[global] Instance NormalizerMappingIdentity_eq_dec : EqDecision NormalizerMappingIdentity.
Proof. solve_decision. Defined.
Inductive MappingIdentityError : Set := EmptyName | ZeroVersion.
Definition new_mapping (name : list Z) (version : Z) : result MappingIdentityError NormalizerMappingIdentity :=
  reject Accounting.trim_is_empty name with EmptyName;;
  reject version =? 0 with ZeroVersion;;
  Ok (mk_mapping name version).
(** Panics on an invalid constant. *)
Definition from_static {E} (name : string) (version : Z) : result (Failure E) NormalizerMappingIdentity :=
  map_err (λ _, Panicked) (new_mapping (bytes_of name) version).

(** The names and versions of twse.rs, tpex.rs and taifex.rs. *)
Inductive MappingProfile : Set :=
| TwseEquity | TwseWarrant | TpexEquity | TpexWarrant | TaifexFuture | TaifexCalendarSpread | TaifexOption.
#[global] Instance MappingProfile_eq_dec : EqDecision MappingProfile.
Proof. solve_decision. Defined.
Definition mapping_name (p : MappingProfile) : string * Z :=
  match p with
  | TwseEquity => ("TeralionTwseQuote", 11) | TwseWarrant => ("TeralionTwseWarrant", 7)
  | TpexEquity => ("TeralionTpexQuote", 9) | TpexWarrant => ("TeralionTpexWarrant", 8)
  | TaifexFuture => ("TeralionTaifexFutures", 5) | TaifexCalendarSpread => ("TeralionTaifexCalendarSpreads", 2)
  | TaifexOption => ("TeralionTaifexOptions", 4)
  end%string.
Definition profile_identity {E} (p : MappingProfile) : result (Failure E) NormalizerMappingIdentity :=
  from_static (mapping_name p).1 (mapping_name p).2.

Inductive MappingSelectionError : Set := UnsupportedMapping.
Definition mapping_profile_for (s : SourceId) (m : Market.MarketId) (c : InstrumentClass) (shape : option ContractShape) :
    result MappingSelectionError MappingProfile :=
  reject bool_decide (source_bytes s ≠ bytes_of "teralion") with UnsupportedMapping;;
  match m, c, shape with
  | Market.Twse, Equity, None => Ok TwseEquity
  | Market.Twse, Warrant, None => Ok TwseWarrant
  | Market.Tpex, Equity, None => Ok TpexEquity
  | Market.Tpex, Warrant, None => Ok TpexWarrant
  | Market.Taifex, Future, Some Outright => Ok TaifexFuture
  | Market.Taifex, Future, Some CalendarSpread => Ok TaifexCalendarSpread
  | Market.Taifex, Option, None => Ok TaifexOption
  | _, _, _ => Err UnsupportedMapping
  end.
Definition normalizer_mapping_for (s : SourceId) (m : Market.MarketId) (c : InstrumentClass) (shape : option ContractShape) :
    result (Failure MappingSelectionError) NormalizerMappingIdentity :=
  p ← map_err Returned (mapping_profile_for s m c shape); profile_identity p.

(** ** Normalizers *)

Inductive PartitionNormalizerConfig : Set :=
| TwseC (c : EquityQuote.NormalizerConfig) | WarrantC (c : EquityQuote.NormalizerConfig)
| TpexC (c : EquityQuote.NormalizerConfig) | TpexWarrantC (c : EquityQuote.NormalizerConfig)
| TaifexC (c : Taifex.NormalizerConfig) | TaifexCalendarSpreadC (c : Taifex.NormalizerConfig)
| TaifexOptionC (c : Taifex.NormalizerConfig).
Definition config_profile (c : PartitionNormalizerConfig) : MappingProfile :=
  match c with
  | TwseC _ => TwseEquity | WarrantC _ => TwseWarrant | TpexC _ => TpexEquity | TpexWarrantC _ => TpexWarrant
  | TaifexC _ => TaifexFuture | TaifexCalendarSpreadC _ => TaifexCalendarSpread | TaifexOptionC _ => TaifexOption
  end.
Definition mapping_identity {E} (c : PartitionNormalizerConfig) : result (Failure E) NormalizerMappingIdentity :=
  profile_identity (config_profile c).

(** An error of a normalizer, which the source keeps as a text. *)
Inductive NormalizationFailure : Set :=
| QuoteFailure (e : EquityQuote.NormalizationError) | TaifexFailure (e : Taifex.NormalizationError).
Definition in_failure {E F} (f : E → F) (e : Failure E) : Failure F :=
  match e with Returned e => Returned (f e) | Panicked => Panicked end.
Definition normalize {Q : Wire.QuoteJson} {T : TaifexWire.TaifexJson} {B : Blake3} (c : PartitionNormalizerConfig) (lines : list (list Z)) :
    result (Failure NormalizationFailure) (Instrument.InstrumentId * TradingDate.TradingDate * list Event.DomainEvent) :=
  match c with
  | TwseC c | WarrantC c | TpexC c | TpexWarrantC c =>
      report ← map_err (in_failure QuoteFailure) (EquityQuote.normalize_json_lines c lines);
      Ok (EquityQuote.instrument c, EquityQuote.trading_date c, EquityQuote.events report)
  | TaifexC c | TaifexCalendarSpreadC c | TaifexOptionC c =>
      report ← map_err (in_failure TaifexFailure) (Taifex.normalize_json_lines c lines);
      Ok (Taifex.instrument c, Taifex.trading_date c, Taifex.events report)
  end.

Inductive NormalizerSelectionError : Set :=
| EmptySessionPlan | PartitionSourceMismatch | SessionPlanMismatch | UnsupportedContract
| InvalidQuoteConfig (e : EquityQuote.ConfigError) | InvalidTaifexConfig (e : Taifex.ConfigError).

Definition replay_windows (s : SessionPlan) : list Taifex.Window :=
  (λ w, (Sessions.replay_start w, Sessions.replay_end_exclusive w)) <$> Sessions.windows s.

Definition normalizer_config_for (s : SourceId) (key : SourcePartitionKey) (class : InstrumentClass) (shape : option ContractShape)
    (plan : SessionPlan) : result (Failure NormalizerSelectionError) PartitionNormalizerConfig :=
  reject bool_decide (s ≠ Partition.source key) with Returned PartitionSourceMismatch;;
  reject bool_decide (Sessions.instrument plan ≠ Partition.instrument key) ||
         bool_decide (Sessions.trading_date plan ≠ Partition.trading_date key) ||
         bool_decide (Sessions.identity plan ≠ Partition.session_plan_identity key) with Returned SessionPlanMismatch;;
  replay_start ← ok_or (Taifex.min_time (Sessions.replay_start <$> Sessions.windows plan)) (Returned EmptySessionPlan);
  replay_end_exclusive ← ok_or (Taifex.max_time (Sessions.replay_end_exclusive <$> Sessions.windows plan)) (Returned EmptySessionPlan);
  profile ← map_err (λ _, Returned UnsupportedContract)
    (mapping_profile_for s (Instrument.market (Partition.instrument key)) class shape);
  let i := Partition.instrument key in
  let d := Partition.trading_date key in
  let quote (new : Instrument.InstrumentId → TradingDate.TradingDate → MatchTime.MatchTime → MatchTime.MatchTime →
                   result EquityQuote.ConfigError EquityQuote.NormalizerConfig) :=
    map_err (λ e, Returned (InvalidQuoteConfig e)) (new i d replay_start replay_end_exclusive) in
  let taifex p := map_err (in_failure InvalidTaifexConfig) (Taifex.for_profile i d p (replay_windows plan)) in
  match profile with
  | TwseEquity => TwseC <$> quote EquityQuote.twse
  | TwseWarrant => WarrantC <$> quote EquityQuote.twse_warrant
  | TpexEquity => TpexC <$> quote EquityQuote.tpex
  | TpexWarrant => TpexWarrantC <$> quote EquityQuote.tpex_warrant
  | TaifexFuture => TaifexC <$> taifex Taifex.Futures
  | TaifexCalendarSpread => TaifexCalendarSpreadC <$> taifex Taifex.FuturesCalendarSpread
  | TaifexOption => TaifexOptionC <$> taifex Taifex.IndexOptions
  end.

(** ** The archive query *)

(** The causes of the errors the source keeps as texts. *)
Inductive ProviderError : Set :=
| Selection (e : NormalizerSelectionError) | QueryFailure (e : Query.QueryError) | TimeFormat (e : MatchTime.MatchTimeFormatError).

Record TeralionPartitionPlan : Set := mk_partition_plan { ticks : TeralionQuery; daily_instrument : TeralionQuery }.

Definition kinds_for (m : Market.MarketId) : list ArchiveKind :=
  match m with
  | Market.Twse | Market.Tpex => [Query.QuoteKind]
  | Market.Taifex => [Query.BookKind; Query.CloseKind; Query.StatsKind; Query.TradeKind]
  end.
Definition archive_market_for (class : InstrumentClass) (i : Instrument.InstrumentId) : ArchiveMarket :=
  match class with Option => Query.TaifexOptions | _ => Query.for_instrument i end.
Definition archive_time (t : MatchTime.MatchTime) : result (Failure ProviderError) Query.ArchiveTimestamp :=
  taipei_offset ← map_err (λ _, Panicked) (MatchTime.new_offset 480);
  text ← map_err (λ e, Returned (TimeFormat e)) (MatchTime.to_iso8601 t taipei_offset);
  map_err (λ e, Returned (QueryFailure e)) (Query.parse_timestamp text).

Definition teralion_partition_plan_for (s : SourceId) (key : SourcePartitionKey) (class : InstrumentClass) (shape : option ContractShape)
    (plan : SessionPlan) : result (Failure ProviderError) TeralionPartitionPlan :=
  _ ← map_err (in_failure Selection) (normalizer_config_for s key class shape plan);
  replay_start ← ok_or (Taifex.min_time (Sessions.replay_start <$> Sessions.windows plan)) (Returned (Selection EmptySessionPlan));
  replay_end_exclusive ← ok_or (Taifex.max_time (Sessions.replay_end_exclusive <$> Sessions.windows plan))
                           (Returned (Selection EmptySessionPlan));
  start ← archive_time replay_start;
  end_ ← archive_time replay_end_exclusive;
  let i := Partition.instrument key in
  let kinds := kinds_for (Instrument.market i) in
  ticks ← map_err (λ e, Returned (QueryFailure e))
    match class with
    | Warrant | Option => Query.ticks_for_market i start end_ kinds 5000 (archive_market_for class i)
    | Equity | Future => Query.ticks i start end_ kinds 5000
    end;
  Ok (mk_partition_plan ticks (Query.daily_instrument i (Partition.trading_date key))).

(** [attempt_id]: a directory name from the first bytes of the identity. *)
Definition hex_digit (d : Z) : Z := if d <? 10 then 48 + d else 87 + d.
Definition hex (bytes : list Z) : list Z := bytes ≫= λ b, [hex_digit (Z.shiftr b 4); hex_digit (Z.land b 15)].
Definition attempt_id (key : SourcePartitionKey) : list Z := bytes_of "run-" ++ hex (take 12 (Partition.identity key)).

End Provider.
