(* ===== verification/ProviderLaws.v ===== *)
(** A planned partition always has its normalizer and its query: the sessions
    of the planner are replay windows the normalizers accept. *)
From S2P Require Import Prelude Order Text Numeric Quantity Calendar Book Identity Codec Values Event Effects Orders Output OrderedSets Sessions SessionsLaws Partition Query EquityQuote Taifex TaifexLaws Provider.

Module ProviderLaws.
Import Output.Output(kind_discriminant) InstrumentClass Provider Effects(Failure, Returned, Panicked).
Import SessionsLaws(window_sound, session_plan_windows, planned_windows_kinds, with_profile_Ok, demo_hash, demo_future, demo_monday, demo_monday_wf, demo_plan) Sessions(SessionPlan, SessionWindow, windows) TaifexRuns(apart, proper, inside, for_profile_Ok, for_profile_windows, min_time_Some, max_time_Some, contains_inside).

(** ** What a selected normalizer accepts *)

Definition config_instrument (c : PartitionNormalizerConfig) : Instrument.InstrumentId :=
  match c with
  | TwseC c | WarrantC c | TpexC c | TpexWarrantC c => EquityQuote.instrument c
  | TaifexC c | TaifexCalendarSpreadC c | TaifexOptionC c => Taifex.instrument c
  end.
Definition config_date (c : PartitionNormalizerConfig) : TradingDate.TradingDate :=
  match c with
  | TwseC c | WarrantC c | TpexC c | TpexWarrantC c => EquityQuote.trading_date c
  | TaifexC c | TaifexCalendarSpreadC c | TaifexOptionC c => Taifex.trading_date c
  end.
(** The times whose records are not outside of the replay windows. *)
Definition accepts_time (c : PartitionNormalizerConfig) (t : MatchTime.MatchTime) : bool :=
  match c with
  | TwseC c | WarrantC c | TpexC c | TpexWarrantC c => EquityQuote.in_replay_window c t
  | TaifexC c | TaifexCalendarSpreadC c | TaifexOptionC c => Taifex.contains_match_time c t
  end.

(** ** The windows of a plan *)

Definition plan_window (w : SessionWindow) : Taifex.Window := (Sessions.replay_start w, Sessions.replay_end_exclusive w).

Lemma time_lt a b : ord_lt a b ↔ MatchTime.as_unix_microseconds a < MatchTime.as_unix_microseconds b.
Proof. apply Z.compare_lt_iff. Qed.
Lemma time_le a b : ord_le a b ↔ MatchTime.as_unix_microseconds a ≤ MatchTime.as_unix_microseconds b.
Proof. apply Z.compare_le_iff. Qed.

Lemma sound_proper p d w : window_sound p d w → proper (plan_window w).
Proof.
  intros (_ & _ & Hoc & Hs & He & _). unfold proper. rewrite time_lt. simpl. rewrite Hs, He. unfold Sessions.REPLAY_MARGIN_MICROSECONDS. lia.
Qed.

(** The kinds of a plan: one session, or the regular one and then the
    after-hours one. *)
Lemma kinds_sorted (ks : list Trading.SessionKind) : StronglySorted ord_lt ks →
  (length ks ≤ 2)%nat ∧ ks ∈ [[]; [Trading.RegularSession]; [Trading.AfterHours]; [Trading.RegularSession; Trading.AfterHours]].
Proof.
  intros Hs. cut (ks ∈ [[]; [Trading.RegularSession]; [Trading.AfterHours]; [Trading.RegularSession; Trading.AfterHours]]).
  { intros H. split; [|done]. revert H. rewrite !elem_of_cons. intros [->|[->|[->|[->|[]%not_elem_of_nil]]]]; simpl; lia. }
  revert Hs.
  intros Hs. assert (Hhead : ∀ k l, StronglySorted ord_lt (k :: l) → ∀ x, x ∈ l → kind_discriminant k < kind_discriminant x).
  { intros k l H x Hx. inversion_clear H as [|? ? _ Hk]. rewrite list.Forall_forall in Hk. by apply Z.compare_lt_iff, (Hk x). }
  destruct ks as [|a [|b [|c l]]]; [set_solver| | |].
  - destruct a; set_solver.
  - pose proof (Hhead _ _ Hs b ltac:(by left)). destruct a, b; simpl in *; try lia. set_solver.
  - pose proof (Hhead _ _ Hs b ltac:(by left)). inversion_clear Hs as [|? ? Hs' _]. pose proof (Hhead _ _ Hs' c ltac:(by left)).
    destruct a, b, c; simpl in *; lia.
Qed.

Section plans.
Context {B : Blake3} (i : Instrument.InstrumentId) (d : TradingDate.TradingDate) (p : Sessions.SessionProfileId)
  (ks : list Trading.SessionKind) (s : SessionPlan).
Hypothesis Hd : TradingDate.wf d.
Hypothesis Hs : Sessions.with_profile i d p ks = Ok s.

Lemma plan_fields : Sessions.instrument s = i ∧ Sessions.trading_date s = d ∧ windows s ≠ [].
Proof.
  apply with_profile_Ok in Hs as (_ & Hk & ws & c & Hp & _ & ->); [|done]. split; [done|]. split; [done|]. cbn [windows]. intros ->.
  apply planned_windows_kinds in Hp. destruct Hk. by apply OrderedSets.btree_set_nil.
Qed.

Lemma plan_windows_taifex : Forall proper (plan_window <$> windows s) ∧ StronglySorted apart (plan_window <$> windows s).
Proof.
  destruct (session_plan_windows _ _ _ _ _ Hd Hs) as (_ & _ & Hk & Hw & Hap).
  assert (Hp : Forall proper (plan_window <$> windows s)) by (apply Forall_fmap; eapply Forall_impl; [|exact Hw]; intros w; apply sound_proper).
  split; [done|]. apply kinds_sorted in Hk as [Hlen Hk]. revert Hlen Hk Hap. destruct (windows s) as [|a [|b [|]]]; intros Hlen Hk Hap; rewrite ?fmap_cons in *.
  - constructor.
  - by repeat constructor.
  - assert (Hab : Sessions.kind a = Trading.RegularSession ∧ Sessions.kind b = Trading.AfterHours) by (revert Hk; clear; set_solver).
    destruct Hab as [Ha Hb]. constructor; [by repeat constructor|]. constructor; [|constructor]. right. apply time_le.
    apply Hap; [by right; left|by left|done|done].
  - simpl in Hlen. lia.
Qed.

(** A plan of a profile with one session has one window. *)
Lemma plan_window_single : Sessions.allows p Trading.AfterHours = false → ∃ w, windows s = [w] ∧ proper (plan_window w).
Proof.
  intros Ha. destruct (session_plan_windows _ _ _ _ _ Hd Hs) as (_ & _ & Hk & Hw & _). destruct plan_fields as (_ & _ & Hne).
  apply kinds_sorted in Hk as [_ Hk]. assert (Hr : ∀ w, w ∈ windows s → Sessions.kind w = Trading.RegularSession).
  { intros w Hin. rewrite list.Forall_forall in Hw. destruct (Hw w Hin) as (Hal & _). destruct (Sessions.kind w); [done|congruence]. }
  destruct (windows s) as [|a l] eqn:Ew; [done|]. exists a. split; [|apply Forall_cons_iff in Hw as [Hw _]; by eapply sound_proper].
  destruct l as [|b l]; [done|]. exfalso. pose proof (Hr a ltac:(by left)) as H1. pose proof (Hr b ltac:(by right; left)) as H2. rewrite !fmap_cons, H1, H2 in Hk.
  revert Hk. rewrite !elem_of_cons. intros [?|[?|[?|[?|[]%not_elem_of_nil]]]]; simplify_eq.
Qed.

End plans.

(** ** Selection *)

(** A quote configuration of a single window. *)
Lemma quote_config_Ok m i d start end_ pr : Instrument.market i = EquityQuote.market_id m → ord_lt start end_ →
  EquityQuote.new_config m i d start end_ pr = Ok (EquityQuote.mk_config m i d start end_ pr).
Proof.
  intros Hm Hlt. unfold EquityQuote.new_config. rewrite bool_decide_eq_false_2 by (intros Hn; by apply Hn).
  by rewrite bool_decide_eq_false_2 by by rewrite ord_not_le.
Qed.

(** What a selected configuration is for and accepts. *)
Definition selected (i : Instrument.InstrumentId) (d : TradingDate.TradingDate) (plan : SessionPlan) (c : PartitionNormalizerConfig) : Prop :=
  config_instrument c = i ∧ config_date c = d ∧ ∀ t, accepts_time c t = true ↔ ∃ w, w ∈ windows plan ∧ inside t (plan_window w).

Section selection.
Context {B : Blake3}.

Lemma taifex_selected i d q ks plan p : TradingDate.wf d → Sessions.with_profile i d q ks = Ok plan → Instrument.market i = Market.Taifex →
  ∃ c, Taifex.for_profile i d p (replay_windows plan) = Ok c ∧ ∀ f, f ∈ [TaifexC; TaifexCalendarSpreadC; TaifexOptionC] → selected i d plan (f c).
Proof.
  intros Hd Hs Hm. destruct (plan_fields _ _ _ _ _ Hd Hs) as (_ & _ & Hne). destruct (plan_windows_taifex _ _ _ _ _ Hd Hs) as [Hp Ha].
  destruct (Taifex.for_profile i d p (replay_windows plan)) as [c|e] eqn:Hc.
  - exists c. split; [done|]. apply for_profile_Ok in Hc as (_ & _ & _ & _ & start & end_ & _ & _ & ->). intros f Hf.
    assert (Hsel : ∀ t, Taifex.contains_match_time (Taifex.mk_config i d start end_ (sort_on fst (replay_windows plan)) p) t = true ↔
                        ∃ w, w ∈ windows plan ∧ inside t (plan_window w)).
    { intros t. rewrite contains_inside. simpl. setoid_rewrite sort_on_perm. unfold replay_windows. setoid_rewrite list_elem_of_fmap. naive_solver. }
    revert Hf. rewrite !elem_of_cons. intros [->|[->|[->|[]%not_elem_of_nil]]]; done.
  - exfalso. assert (Hok : ∃ c, Taifex.for_profile i d p (replay_windows plan) = Ok c); [|destruct Hok; congruence].
    assert (Hl : replay_windows plan ≠ []) by (unfold replay_windows; by destruct (windows plan)).
    assert (Hn : sort_on fst (replay_windows plan) ≠ []).
    { intros Hn. pose proof (sort_on_perm fst (replay_windows plan)) as Hq. rewrite Hn in Hq. by apply Permutation_nil_l in Hq. }
    destruct (Taifex.min_time (sort_on fst (replay_windows plan)).*1) as [start|] eqn:H1; [|by destruct (sort_on fst (replay_windows plan))].
    destruct (Taifex.max_time (sort_on fst (replay_windows plan)).*2) as [end_|] eqn:H2; [|by destruct (sort_on fst (replay_windows plan))].
    eexists. apply for_profile_Ok. do 4 (split; [done|]). by exists start, end_.
Qed.

Lemma quote_selected i d q ks plan m p start end_ : TradingDate.wf d → Sessions.with_profile i d q ks = Ok plan →
  Sessions.allows q Trading.AfterHours = false → Instrument.market i = EquityQuote.market_id m →
  Taifex.min_time (Sessions.replay_start <$> windows plan) = Some start →
  Taifex.max_time (Sessions.replay_end_exclusive <$> windows plan) = Some end_ →
  ∃ c, EquityQuote.new_config m i d start end_ p = Ok c ∧ ∀ f, f ∈ [TwseC; WarrantC; TpexC; TpexWarrantC] → selected i d plan (f c).
Proof.
  intros Hd Hs Ha Hm. destruct (plan_window_single _ _ _ _ _ Hd Hs Ha) as (w & Hw & Hp). rewrite Hw. intros [= <-] [= <-].
  eexists. split; [by apply quote_config_Ok|]. intros f Hf.
  assert (Hsel : ∀ t, EquityQuote.in_replay_window (EquityQuote.mk_config m i d (Sessions.replay_start w) (Sessions.replay_end_exclusive w) p) t = true ↔
                      ∃ w, w ∈ windows plan ∧ inside t (plan_window w)).
  { intros t. unfold EquityQuote.in_replay_window. rewrite andb_true_iff, !bool_decide_eq_true. rewrite Hw. setoid_rewrite list_elem_of_singleton. split; [intros [? ?]; by exists w|by intros (? & -> & ? & ?)]. }
  revert Hf. rewrite !elem_of_cons. intros [->|[->|[->|[->|[]%not_elem_of_nil]]]]; done.
Qed.

(** C40: every partition the planner can ask for has a normalizer: for a session
    plan and a contract of its profile, the selection succeeds, with the
    mapping the catalogue expects, and accepts exactly the times inside the
    replay windows of the plan. *)
Theorem planned_partition_normalizes p ks plan key class shape :
  let i := Partition.instrument key in let d := Partition.trading_date key in
  TradingDate.wf d → Partition.source_bytes (Partition.source key) = bytes_of "teralion" →
  Sessions.with_profile i d p ks = Ok plan → Sessions.supports_contract p (Instrument.market i) class shape = true →
  Partition.session_plan_identity key = Sessions.identity plan →
  ∃ c, normalizer_config_for (Partition.source key) key class shape plan = Ok c ∧ selected i d plan c ∧
    mapping_identity c = normalizer_mapping_for (Partition.source key) (Instrument.market i) class shape.
Proof.
  intros i d Hd Hsrc Hs Hc Hid. destruct (plan_fields _ _ _ _ _ Hd Hs) as (Hi & Hdt & Hne).
  unfold normalizer_config_for. rewrite Hi, Hdt, Hid. fold i d.
  rewrite !bool_decide_eq_false_2 by (by intros Hn; apply Hn). simpl orb. cbv iota.
  destruct (Taifex.min_time (Sessions.replay_start <$> windows plan)) as [start|] eqn:Hstart; [|by destruct (windows plan)].
  destruct (Taifex.max_time (Sessions.replay_end_exclusive <$> windows plan)) as [end_|] eqn:Hend; [|by destruct (windows plan)].
  unfold normalizer_mapping_for, mapping_profile_for. rewrite Hsrc, bool_decide_eq_false_2 by (intros Hn; by apply Hn). fold i.
  assert (Hq := λ m, quote_selected _ _ _ _ _ m EquityQuote.Equity start end_ Hd Hs). assert (Hw := λ m, quote_selected _ _ _ _ _ m EquityQuote.Warrant start end_ Hd Hs).
  assert (Ht := λ pr, taifex_selected _ _ _ _ _ pr Hd Hs).
  destruct (Instrument.market i) eqn:Hm, p, class, shape as [[]|]; try discriminate Hc; simpl ok_or; simpl mbind; unfold fmap, result_fmap;
    match goal with
    | |- context [EquityQuote.twse] => destruct (Hq EquityQuote.Twse eq_refl eq_refl Hstart Hend) as (c & Hcf & Hsel)
    | |- context [EquityQuote.twse_warrant] => destruct (Hw EquityQuote.Twse eq_refl eq_refl Hstart Hend) as (c & Hcf & Hsel)
    | |- context [EquityQuote.tpex] => destruct (Hq EquityQuote.Tpex eq_refl eq_refl Hstart Hend) as (c & Hcf & Hsel)
    | |- context [EquityQuote.tpex_warrant] => destruct (Hw EquityQuote.Tpex eq_refl eq_refl Hstart Hend) as (c & Hcf & Hsel)
    | |- context [Taifex.for_profile _ _ ?q _] => destruct (Ht q eq_refl) as (c & Hcf & Hsel)
    end; simpl in Hcf; (try unfold EquityQuote.twse, EquityQuote.twse_warrant, EquityQuote.tpex, EquityQuote.tpex_warrant in * ); rewrite Hcf; simpl;
    (eexists; split; [reflexivity|]; split; [apply Hsel; set_solver|reflexivity]).
Qed.

End selection.

(** ** An instance *)

Definition demo_source : Partition.SourceId := Partition.mk_source (bytes_of "teralion") 8.
Definition demo_key (plan : SessionPlan) : Partition.SourcePartitionKey :=
  Partition.mk_key demo_source demo_future demo_monday [Trading.RegularSession; Trading.AfterHours] (Sessions.identity plan) [] [].

Lemma planned_partition_normalizes_witness : ∃ plan c, demo_plan = Ok plan ∧
  normalizer_config_for demo_source (demo_key plan) Future (Some Outright) plan = Ok c ∧ selected demo_future demo_monday plan c.
Proof.
  assert (H : ∃ s, demo_plan = Ok s) by (eexists; vm_compute; reflexivity). destruct H as [plan H].
  destruct (planned_partition_normalizes (B:=demo_hash) Sessions.TaifexIndexFutures _ plan (demo_key plan) Future (Some Outright)
    demo_monday_wf eq_refl H eq_refl eq_refl) as (c & Hc & Hsel & _).
  exists plan, c. split; [exact H|]. split; [exact Hc|exact Hsel].
Defined.

End ProviderLaws.
