(* ===== verification/Files.v ===== *)
(** The part of std::fs and std::path the source uses: a disk as a map from
    paths to directories and files, system calls as the leaves of a program
    tree, the complete runs of a program and the runs that fail or are cut
    short at any point. *)
From S2P Require Import Prelude.

Module Files.

(** ** Names and paths (std::path on Unix) *)

Abbreviation Name := (list Z).
Abbreviation Path := (list (list Z)).

(** The last [b] of a text with what precedes and follows it. *)
Fixpoint rsplit (b : Z) (l : list Z) : option (list Z * list Z) :=
  match l with
  | [] => None
  | x :: l => match rsplit b l with
              | Some (before, after) => Some (x :: before, after)
              | None => if x =? b then Some ([], l) else None
              end
  end.
(** [Path::file_stem] and [Path::extension] of a name: a leading dot starts no extension. *)
Definition stem_extension (n : Name) : Name * option Name :=
  match rsplit 46 n with Some ((_ :: _) as stem, ext) => (stem, Some ext) | _ => (n, None) end.
Definition extension (n : Name) : option Name := (stem_extension n).2.
Definition parent (p : Path) : Path := removelast p.
Definition file_name (p : Path) : Name := List.last p [].
(** [Path::with_extension]. *)
Definition with_extension (p : Path) (ext : Name) : Path := parent p ++ [(stem_extension (file_name p)).1 ++ 46 :: ext].

Inductive Component : Set := RootDir | CurDir | ParentDir | Normal (name : Name).
Fixpoint split_on (b : Z) (l : list Z) : list (list Z) :=
  match l with
  | [] => [[]]
  | x :: l => let parts := split_on b l in
              if x =? b then [] :: parts else match parts with p :: ps => (x :: p) :: ps | [] => [[x]] end
  end.
(** [Path::components]: empty parts and inner dots are skipped. *)
Definition component_of (n : Name) : option Component :=
  if bool_decide (n = []) then None else if bool_decide (n = [46]) then None
  else if bool_decide (n = [46; 46]) then Some ParentDir else Some (Normal n).
Definition components (text : list Z) : list Component :=
  let parts := split_on 47 text in
  let body := omap component_of parts in
  match parts with
  | [] :: _ :: _ => RootDir :: body
  | [46] :: _ => CurDir :: body
  | _ => body
  end.
Definition normal_name (c : Component) : option Name := match c with Normal n => Some n | _ => None end.
(** The names of a relative path of normal components, as [Path::join] appends them. *)
Definition normal_names (text : list Z) : Path := omap normal_name (components text).

(** ** The disk *)

(** The kinds of std::io::Error. *)
Inductive IoError : Set :=
| NotFound | AlreadyExists | NotADirectory | IsADirectory | DirectoryNotEmpty | InvalidInput | InvalidData | UnexpectedEof | OtherError.
#[global] Instance IoError_eq_dec : EqDecision IoError.
Proof. solve_decision. Defined.

Inductive Entry : Set := Dir | File (content : list Z).
#[global] Instance Entry_eq_dec : EqDecision Entry.
Proof. solve_decision. Defined.
Abbreviation Disk := (@gmap (list (list Z)) (@list.list_eq_dec (list Z) (@list.list_eq_dec Z Z.eq_dec))
  (@list_countable (list Z) (@list.list_eq_dec Z Z.eq_dec) (@list_countable Z Z.eq_dec Z_countable)) Entry).

(** The root always is a directory. *)
Definition entry (d : Disk) (p : Path) : option Entry := match p with [] => Some Dir | _ => d !! p end.
Definition is_file (d : Disk) (p : Path) : bool := match entry d p with Some (File _) => true | _ => false end.
Definition prefixes (p : Path) : list Path := (λ n, take n p) <$> seq 0 (length p).
(** The error of a path without an entry: a file on the way is not a directory. *)
Definition missing (d : Disk) (p : Path) : IoError := if existsb (is_file d) (prefixes p) then NotADirectory else NotFound.

(** The rest of a path below another. *)
Definition strip (p k : Path) : option Path := if decide (take (length p) k = p) then Some (drop (length p) k) else None.
Definition names (d : Disk) (p : Path) : list Name := omap (λ k, match strip p k with Some [n] => Some n | _ => None end) (map_to_list d).*1.

Definition make_dir (d : Disk) (p : Path) : Disk := match entry d p with Some _ => d | None => <[p := Dir]> d end.
Definition make_dirs (d : Disk) (p : Path) : Disk := foldl make_dir d (prefixes p ++ [p]).

Definition subtree (p : Path) (d : Disk) : Disk := list_to_map (omap (λ '(k, e), r ← strip p k; Some (r, e)) (map_to_list d)).
Definition outside (p : Path) (d : Disk) : Disk := filter (λ '(k, _), strip p k = None) d.
(** Everything at and below [p] moves to [q]. *)
Definition move (p q : Path) (d : Disk) : Disk := kmap (app q) (subtree p d) ∪ outside p d.

(** ** System calls *)

Inductive Stat : Set := DirStat | FileStat (len : Z).
#[global] Instance Stat_eq_dec : EqDecision Stat.
Proof. solve_decision. Defined.

Inductive Call : Set → Type :=
| Metadata (p : Path) : Call Stat
| CreateDirAll (p : Path) : Call ()
| CreateNew (p : Path) : Call ()  (* OpenOptions with create_new *)
| Create (p : Path) : Call ()  (* open, create or truncate *)
| Write (p : Path) (b : list Z) : Call ()  (* write_all to the file that was opened at [p] *)
| Sync (p : Path) : Call ()  (* sync_all of the file or directory at [p] *)
| Open (p : Path) : Call ()  (* File::open for reading *)
| Read (p : Path) : Call (list Z)
| ReadDir (p : Path) : Call (list Name)
| Rename (p q : Path) : Call ()
| RemoveFile (p : Path) : Call ().

Definition create_at (d : Disk) (p : Path) : result IoError () * Disk :=
  match entry d (parent p) with Some Dir => (Ok (), <[p := File []]> d) | _ => (Err (missing d p), d) end.
Definition rename (p q : Path) (d : Disk) : result IoError () * Disk :=
  if decide (p = q) then (if entry d p is Some _ then Ok () else Err (missing d p), d) else
  match entry d p, entry d q with
  | None, _ => (Err (missing d p), d)
  | Some (File b), Some Dir => (Err IsADirectory, d)
  | Some (File b), Some (File _) => (Ok (), <[q := File b]> (delete p d))
  | Some (File b), None =>
      match entry d (parent q) with Some Dir => (Ok (), <[q := File b]> (delete p d)) | _ => (Err (missing d q), d) end
  | Some Dir, e =>
      if strip p q is Some _ then (Err InvalidInput, d) else
      match e with
      | Some (File _) => (Err NotADirectory, d)
      | Some Dir => if names d q is [] then (Ok (), move p q d) else (Err DirectoryNotEmpty, d)
      | None => match entry d (parent q) with Some Dir => (Ok (), move p q d) | _ => (Err (missing d q), d) end
      end
  end.

(** A call that is not disturbed. *)
Definition perform {X} (c : Call X) (d : Disk) : result IoError X * Disk :=
  match c in Call X return result IoError X * Disk with
  | Metadata p => (match entry d p with Some Dir => Ok DirStat | Some (File b) => Ok (FileStat (zlen b)) | None => Err (missing d p) end, d)
  | CreateDirAll p =>
      if is_file d p then (Err AlreadyExists, d)
      else if existsb (is_file d) (prefixes p) then (Err NotADirectory, d) else (Ok (), make_dirs d p)
  | CreateNew p => match entry d p with Some _ => (Err AlreadyExists, d) | None => create_at d p end
  | Create p =>
      match entry d p with Some Dir => (Err IsADirectory, d) | Some (File _) => (Ok (), <[p := File []]> d) | None => create_at d p end
  | Write p b => match entry d p with Some (File a) => (Ok (), <[p := File (a ++ b)]> d) | _ => (Err OtherError, d) end
  | Sync p => (if entry d p is Some _ then Ok () else Err (missing d p), d)
  | Open p => (if entry d p is Some _ then Ok () else Err (missing d p), d)
  | Read p => (match entry d p with Some (File b) => Ok b | Some Dir => Err IsADirectory | None => Err (missing d p) end, d)
  | ReadDir p => (match entry d p with Some Dir => Ok (names d p) | Some (File _) => Err NotADirectory | None => Err (missing d p) end, d)
  | Rename p q => rename p q d
  | RemoveFile p => match entry d p with Some (File _) => (Ok (), delete p d) | Some Dir => (Err IsADirectory, d) | None => (Err (missing d p), d) end
  end.

(** The disks a call leaves when it is cut short. *)
Definition torn {X} (c : Call X) (d d' : Disk) : Prop :=
  match c with
  | Write p b => ∃ a b1 b2, entry d p = Some (File a) ∧ b = b1 ++ b2 ∧ d' = <[p := File (a ++ b1)]> d
  | CreateDirAll p => ∃ q r, p = q ++ r ∧ existsb (is_file d) (prefixes q ++ [q]) = false ∧ d' = make_dirs d q
  | _ => False
  end.

(** A call may also fail for a reason of its own, at any point; asking for the
    metadata of a path is taken to answer truthfully. *)
Definition may_fail {X} (c : Call X) : bool := match c with Metadata _ => false | _ => true end.
Definition step {X} (c : Call X) (d : Disk) (r : result IoError X) (d' : Disk) : Prop :=
  perform c d = (r, d') ∨ may_fail c = true ∧ ∃ k, r = Err k ∧ (d' = d ∨ torn c d d').

(** ** Programs *)

Inductive io (A : Type) : Type :=
| Ret (a : A)
| Do {X : Set} (c : Call X) (k : result IoError X → io A).
Arguments Ret {A} a.
Arguments Do {A X} c k.

Fixpoint bind {A B} (m : io A) (f : A → io B) : io B :=
  match m with Ret a => f a | Do c k => Do c (λ r, bind (k r) f) end.

(** The undisturbed run. *)
Fixpoint run {A} (m : io A) (d : Disk) : A * Disk :=
  match m with Ret a => (a, d) | Do c k => let '(r, d') := perform c d in run (k r) d' end.

(** The runs with failing calls, and those that never return ([None]). *)
Fixpoint runs {A} (m : io A) (d : Disk) (o : option A) (d' : Disk) : Prop :=
  match m with
  | Ret a => o = Some a ∧ d' = d
  | Do c k => (o = None ∧ (d' = d ∨ torn c d d')) ∨ ∃ r d1, step c d r d1 ∧ runs (k r) d1 o d'
  end.

(** Programs whose result is a [Result]; [←] is the [?] operator. *)
Definition IO (E A : Type) : Type := io (result E A).
#[export] Instance IO_ret {E} : MRet (IO E) := λ A x, Ret (Ok x).
#[export] Instance IO_bind {E} : MBind (IO E) := λ A B f m, bind m (λ r, match r with Ok x => f x | Err e => Ret (Err e) end).
Definition lift {E A} (r : result E A) : IO E A := Ret r.
Definition sys {E} {X : Set} (f : IoError → E) (c : Call X) : IO E X := Do c (λ r, Ret (map_err f r)).
(** A call whose error is an answer. *)
Definition try_call {E} {X : Set} (c : Call X) : IO E (result IoError X) := Do c (λ r, Ret (Ok r)).
Definition io_map_err {E F A} (f : E → F) (m : IO E A) : IO F A := bind m (λ r, Ret (map_err f r)).
(** A program whose error is an answer. *)
Definition attempt {E F A} (m : IO E A) : IO F (result E A) := bind m (λ r, Ret (Ok r)).
(** [Path::exists], [Path::is_dir] and [Path::is_file] answer false on an error. *)
Definition exists_ {E} (p : Path) : IO E bool := r ← try_call (Metadata p); mret (is_ok r).
Definition is_dir {E} (p : Path) : IO E bool := r ← try_call (Metadata p); mret match r with Ok DirStat => true | _ => false end.
Definition is_regular {E} (p : Path) : IO E bool := r ← try_call (Metadata p); mret match r with Ok (FileStat _) => true | _ => false end.
Definition when {E} (b : bool) (m : IO E ()) : IO E () := if b then m else mret ().
Fixpoint traverse {E A B} (f : A → IO E B) (l : list A) : IO E (list B) :=
  match l with [] => mret [] | x :: l => y ← f x; ys ← traverse f l; mret (y :: ys) end.
(** A loop with an accumulator. *)
Fixpoint fold_io {E A B} (f : B → A → IO E B) (acc : B) (l : list A) : IO E B :=
  match l with [] => mret acc | x :: l => acc' ← f acc x; fold_io f acc' l end.

End Files.

(** * FilesLaws

    Facts of the disk, and a logic for programs that touch it: what holds
    when a program returns, and of every disk it can be cut short at. *)

Module FilesLaws.
Import Files.

(** ** Paths *)

Lemma strip_Some p k r : strip p k = Some r ↔ k = p ++ r.
Proof.
  unfold strip. destruct (decide _) as [E|E]; split; try done.
  - intros [= <-]. rewrite <-E at 1. by rewrite take_drop.
  - intros ->. by rewrite drop_app_length.
  - intros ->. by rewrite take_app_length in E.
Qed.
Lemma strip_app p r : strip p (p ++ r) = Some r.
Proof. by apply strip_Some. Qed.
Lemma strip_None p k : strip p k = None ↔ ¬ p `prefix_of` k.
Proof.
  destruct (strip p k) as [r|] eqn:E.
  - apply strip_Some in E as ->. split; [done|]. intros H. exfalso. apply H. by exists r.
  - split; [|done]. intros _ [r ->]. by rewrite strip_app in E.
Qed.
Lemma parent_snoc p n : parent (p ++ [n]) = p.
Proof. apply removelast_last. Qed.
Lemma file_name_snoc p n : file_name (p ++ [n]) = n.
Proof. apply List.last_last. Qed.
Lemma with_extension_snoc p n e : with_extension (p ++ [n]) e = p ++ [(stem_extension n).1 ++ 46 :: e].
Proof. unfold with_extension. by rewrite parent_snoc, file_name_snoc. Qed.

(** ** Entries *)

Lemma entry_insert p e d : p ≠ [] → entry (<[p := e]> d) p = Some e.
Proof. destruct p; [done|]. intros _. unfold entry. by rewrite lookup_insert_eq. Qed.
Lemma entry_insert_ne p q e d : p ≠ q → entry (<[p := e]> d) q = entry d q.
Proof. intros Hne. destruct q; [done|]. unfold entry. by rewrite lookup_insert_ne. Qed.
Lemma entry_delete p d : p ≠ [] → entry (delete p d) p = None.
Proof. destruct p; [done|]. intros _. unfold entry. by rewrite lookup_delete_eq. Qed.
Lemma entry_delete_ne p q d : p ≠ q → entry (delete p d) q = entry d q.
Proof. intros Hne. destruct q; [done|]. unfold entry. by rewrite lookup_delete_ne. Qed.

Lemma make_dir_keeps d p q e : entry d q = Some e → entry (make_dir d p) q = Some e.
Proof. intros He. unfold make_dir. destruct (entry d p) eqn:Ep; [done|]. rewrite entry_insert_ne; [done|]. intros ->. congruence. Qed.
Lemma make_dir_ne d p q : p ≠ q → entry (make_dir d p) q = entry d q.
Proof. intros Hne. unfold make_dir. destruct (entry d p) eqn:Ep; [done|]. by apply entry_insert_ne. Qed.
Lemma make_dir_there d p : ∃ e, entry (make_dir d p) p = Some e ∧ (entry d p = None → e = Dir).
Proof.
  unfold make_dir. destruct (entry d p) as [e|] eqn:Ep; [by exists e|]. exists Dir. rewrite entry_insert; [done|]. by intros ->.
Qed.

Definition all_prefixes (p : Path) : list Path := prefixes p ++ [p].
Lemma elem_of_all_prefixes p q : q ∈ all_prefixes p ↔ q `prefix_of` p.
Proof.
  unfold all_prefixes, prefixes. rewrite elem_of_app, list_elem_of_fmap, list_elem_of_singleton. setoid_rewrite elem_of_seq. split.
  - intros [(n & -> & _)| ->]; [|done]. exists (drop n p). by rewrite take_drop.
  - intros [r ->]. destruct r as [|x r]; [right; by rewrite app_nil_r|]. left. exists (length q). rewrite take_app_length, length_app. simpl. split; [done|lia].
Qed.
Lemma fold_make_dir_keeps l d q e : entry d q = Some e → entry (foldl make_dir d l) q = Some e.
Proof. revert d. induction l as [|x l IH]; intros d He; simpl; [done|]. by apply IH, make_dir_keeps. Qed.
Lemma make_dirs_keeps d p q e : entry d q = Some e → entry (make_dirs d p) q = Some e.
Proof. apply fold_make_dir_keeps. Qed.
Lemma make_dirs_ne d p q : ¬ q `prefix_of` p → entry (make_dirs d p) q = entry d q.
Proof.
  rewrite <-elem_of_all_prefixes. unfold make_dirs. fold (all_prefixes p). generalize (all_prefixes p) as l. intros l.
  revert d. induction l as [|x l IH]; intros d Hq; simpl; [done|]. rewrite not_elem_of_cons in Hq. rewrite IH by tauto. apply make_dir_ne. intuition.
Qed.
Lemma make_dirs_dir d p q : q `prefix_of` p → entry d q = None ∨ entry d q = Some Dir → entry (make_dirs d p) q = Some Dir.
Proof.
  intros Hq [He|He]; [|by apply make_dirs_keeps]. rewrite <-elem_of_all_prefixes in Hq. unfold make_dirs. fold (all_prefixes p).
  revert d He. generalize (all_prefixes p), Hq. intros l Hl. induction l as [|x l IH]; intros d He; [by apply not_elem_of_nil in Hl|].
  simpl. destruct (decide (q = x)) as [->|Hne].
  - destruct (make_dir_there d x) as (e & Hx & Hn). rewrite (Hn He) in Hx. by apply fold_make_dir_keeps.
  - apply IH; [|by rewrite make_dir_ne by done]. by apply elem_of_cons in Hl as [|].
Qed.

Lemma lookup_subtree p d r : subtree p d !! r = d !! (p ++ r).
Proof.
  unfold subtree. apply option_eq. intros e. rewrite <-elem_of_list_to_map.
  - rewrite list_elem_of_omap. split.
    + intros ([k e'] & Hk%elem_of_map_to_list & Hs). apply bind_Some in Hs as (r' & Hr & [= <- <-]). by apply strip_Some in Hr as ->.
    + intros He. exists (p ++ r, e). split; [by apply elem_of_map_to_list|]. by rewrite strip_app.
  - assert (Hn : NoDup (map_to_list d).*1) by apply NoDup_fst_map_to_list. revert Hn. generalize (map_to_list d). intros l.
    induction l as [|[k e'] l IH]; intros Hn; [constructor|]. apply list.NoDup_cons in Hn as [Hk Hn]. cbn [omap list_omap].
    destruct (strip p k) as [r'|] eqn:Er; simpl; [|by apply IH]. constructor; [|by apply IH]. intros ([r3 e3] & E3 & Hin)%list_elem_of_fmap. simpl in E3. subst r3.
    apply Hk. apply list_elem_of_omap in Hin as ([k2 e2] & Hin & Hs). apply bind_Some in Hs as (r2 & Hr2 & [= <- _]). apply strip_Some in Er as ->, Hr2 as ->.
    apply list_elem_of_fmap. by exists (p ++ r2, e2).
Qed.
Lemma move_below p q r d e : d !! (p ++ r) = Some e → move p q d !! (q ++ r) = Some e.
Proof. intros He. unfold move. apply lookup_union_Some_l. rewrite lookup_kmap by apply _. by rewrite lookup_subtree. Qed.
Lemma move_elsewhere p q k d : ¬ p `prefix_of` k → ¬ q `prefix_of` k → move p q d !! k = d !! k.
Proof.
  intros Hp Hq. unfold move. rewrite lookup_union_r.
  - unfold outside. destruct (d !! k) as [e|] eqn:He.
    + apply map_lookup_filter_Some. split; [done|]. by apply strip_None.
    + apply map_lookup_filter_None. by left.
  - apply eq_None_not_Some. intros (e & (r & -> & _)%lookup_kmap_Some); [|apply _]. apply Hq. by exists r.
Qed.

(** ** Runs *)

Lemma runs_bind {A B} (m : io A) (f : A → io B) d o d' : runs (bind m f) d o d' ↔
  (o = None ∧ runs m d None d') ∨ ∃ a d1, runs m d (Some a) d1 ∧ runs (f a) d1 o d'.
Proof.
  revert d. induction m as [a|X c k IH]; intros d; simpl.
  - split; [intros Hr; right; by exists a, d|]. intros [[-> [Hx _]]|(a0 & d0 & [[= <-] ->] & Hr)]; done.
  - split.
    + intros [[-> Hr]|(r & d1 & Hs & [[-> Hr]|(a & d2 & H1 & H2)]%IH)]; [left; by auto|left|right].
      * split; [done|]. right. by exists r, d1.
      * exists a, d2. split; [|done]. right. by exists r, d1.
    + intros [[-> [[_ Hr]|(r & d1 & Hs & Hr)]]|(a & d2 & [[Hx _]|(r & d1 & Hs & H1)] & H2)]; [by left| |done|].
      * right. exists r, d1. split; [done|]. apply IH. by left.
      * right. exists r, d1. split; [done|]. apply IH. right. by exists a, d2.
Qed.

(** The undisturbed run is one of the runs. *)
Lemma run_runs {A} (m : io A) d : runs m d (Some (run m d).1) (run m d).2.
Proof.
  revert d. induction m as [a|X c k IH]; intros d; simpl; [done|]. destruct (perform c d) as [r d1] eqn:E. right.
  exists r, d1. split; [by left|]. apply IH.
Qed.
(** The undisturbed run, cut before it returns. *)
Definition is_call {A} (m : io A) : bool := match m with Do _ _ => true | Ret _ => false end.
Lemma run_cut {A} (m : io A) d : is_call m = true → runs m d None d.
Proof. destruct m; [done|]. intros _. left. by split; [|left]. Qed.
Lemma run_bind {A B} (m : io A) (f : A → io B) d : run (bind m f) d = let '(a, d1) := run m d in run (f a) d1.
Proof. revert d. induction m as [a|X c k IH]; intros d; simpl; [done|]. destruct (perform c d) as [r d1]. apply IH. Qed.

Lemma perform_err {X} (c : Call X) d k d' : perform c d = (Err k, d') → d' = d.
Proof. destruct c; simpl; unfold create_at, rename; intros H; repeat case_match; simplify_eq; done. Qed.

(** ** Triples

    [wp m C Q d]: however [m] runs from [d], [C] holds of the disk at any
    point it ends or is cut short, and [Q] when it returns a value. *)

Definition wp {E A} (m : IO E A) (C : Disk → Prop) (Q : A → Disk → Prop) (d : Disk) : Prop :=
  ∀ o d', runs m d o d' → C d' ∧ ∀ x, o = Some (Ok x) → Q x d'.

Section wp.
Context {E : Type}.
Implicit Types (C : Disk → Prop) (d : Disk).

Lemma wp_run {A} (m : IO E A) C Q d x d' : wp m C Q d → run m d = (Ok x, d') → Q x d'.
Proof. intros Hm Hr. pose proof (run_runs m d) as H. rewrite Hr in H. by apply (Hm _ _ H). Qed.
Lemma wp_conseq {A} (m : IO E A) C C' (Q Q' : A → Disk → Prop) d : wp m C Q d → (∀ d', C d' → C' d') → (∀ x d', C d' → Q x d' → Q' x d') → wp m C' Q' d.
Proof. intros Hm HC HQ o d' H. destruct (Hm o d' H) as [H1 H2]. auto. Qed.
Lemma wp_done {A} (x : A) C Q d : C d → Q x d → wp (E:=E) (mret x) C Q d.
Proof. intros HC HQ o d' [-> ->]. split; [done|]. by intros y [= <-]. Qed.
Lemma wp_try {A} (r : result E A) C Q d : C d → (∀ x, r = Ok x → Q x d) → wp (lift r) C Q d.
Proof. intros HC HQ o d' [-> ->]. split; [done|]. intros y [= Hy]. auto. Qed.
Lemma wp_do {A B} (m : IO E A) (f : A → IO E B) C Q d : wp m C (λ x d', wp (f x) C Q d') d → wp (m ≫= f) C Q d.
Proof.
  intros Hm o d' [[-> H]|([x|e] & d1 & H1 & H2)]%runs_bind.
  - split; [by apply (Hm _ _ H)|done].
  - by apply (proj2 (Hm _ _ H1) x eq_refl).
  - destruct H2 as [-> ->]. split; [by apply (Hm _ _ H1)|done].
Qed.
Lemma wp_sys {X : Set} (f : IoError → E) (c : Call X) C Q d : C d → (∀ d', torn c d d' → C d') →
  (∀ x d', perform c d = (Ok x, d') → C d' ∧ Q x d') → wp (sys f c) C Q d.
Proof.
  intros HC Ht HQ o d'. simpl. intros [[-> [->|H]]|(r & d1 & Hs & [-> ->])]; [by split|by split; [apply Ht|]|].
  destruct Hs as [Hp|(_ & k & -> & Hd)].
  - destruct r as [x|k]; simpl.
    + destruct (HQ _ _ Hp) as [? ?]. split; [done|]. by intros y [= <-].
    + apply perform_err in Hp as ->. by split.
  - simpl. split; [|done]. destruct Hd as [->|?]; auto.
Qed.
Lemma wp_metadata {A} (p : Path) (f : result IoError Stat → IO E A) C Q d : C d →
  wp (f (perform (Metadata p) d).1) C Q d → wp (try_call (Metadata p) ≫= f) C Q d.
Proof.
  intros HC Hf. apply wp_do. intros o d'. simpl. intros [[-> [->|[]]]|(r & d1 & Hs & [-> ->])]; [by split|].
  destruct Hs as [[= <- <-]|[? _]]; [|done]. split; [done|]. by intros r' [= <-].
Qed.
Lemma wp_exists (p : Path) C (Q : bool → Disk → Prop) d : C d → Q (bool_decide (is_Some (entry d p))) d → wp (E:=E) (exists_ p) C Q d.
Proof.
  intros HC HQ. unfold exists_. apply wp_metadata; [done|]. apply wp_done; [done|]. simpl.
  destruct (entry d p) as [[]|]; [done..|]. by rewrite bool_decide_eq_false_2 in HQ by by intros [].
Qed.
Lemma wp_traverse {A B} (f : A → IO E B) (l : list A) C (I : Disk → Prop) d : (∀ d, I d → C d) →
  (∀ x d, x ∈ l → I d → wp (f x) C (λ _ d', I d') d) → I d → wp (traverse f l) C (λ _ d', I d') d.
Proof.
  intros HC. revert d. induction l as [|x l IH]; intros d Hf Hd; simpl; [apply wp_done; auto|].
  apply wp_do. eapply wp_conseq; [apply Hf; [by left|done]|done|]. intros y d1 _ H1. simpl. apply wp_do.
  eapply wp_conseq; [apply IH; [|exact H1]; intros; apply Hf; [by right|done]|done|]. intros ys d2 HC2 H2. by apply wp_done.
Qed.

(** The calls. *)
Lemma wp_create_dirs (f : IoError → E) (p : Path) C (Q : () → Disk → Prop) d : (∀ q r, p = q ++ r → C (make_dirs d q)) → C d →
  (entry (make_dirs d p) p = Some Dir → Q () (make_dirs d p)) → wp (sys f (CreateDirAll p)) C Q d.
Proof.
  intros Ht HC HQ. apply wp_sys; [done|by intros d' (q & r & Hp & _ & ->); apply (Ht q r)|].
  intros [] d'. simpl. destruct (is_file d p) eqn:Hf; [done|]. destruct (existsb _ _); [done|]. intros [= <-].
  split; [apply (Ht p []); by rewrite app_nil_r|]. apply HQ, make_dirs_dir; [done|]. unfold is_file in Hf. destruct (entry d p) as [[]|]; [by right|done|by left].
Qed.
Lemma wp_create_new (f : IoError → E) (p : Path) C (Q : () → Disk → Prop) d : C d →
  (entry d p = None → entry d (parent p) = Some Dir → C (<[p := File []]> d) ∧ Q () (<[p := File []]> d)) → wp (sys f (CreateNew p)) C Q d.
Proof.
  intros HC HQ. apply wp_sys; [done|done|]. intros [] d'. simpl. destruct (entry d p) eqn:Ep; [done|]. unfold create_at.
  destruct (entry d (parent p)) as [[]|] eqn:Er; [|done..]. intros [= <-]. auto.
Qed.
Lemma wp_write (f : IoError → E) (p : Path) (a b : list Z) C (Q : () → Disk → Prop) d : entry d p = Some (File a) → C d →
  (∀ b1 b2, b = b1 ++ b2 → C (<[p := File (a ++ b1)]> d)) → Q () (<[p := File (a ++ b)]> d) → wp (sys f (Write p b)) C Q d.
Proof.
  intros Ha HC Ht HQ. apply wp_sys; [done| |].
  - intros d' (a' & b1 & b2 & Ha' & Hb & ->). rewrite Ha in Ha'. injection Ha' as <-. by apply (Ht b1 b2).
  - intros [] d'. simpl. rewrite Ha. intros [= <-]. split; [|done]. apply (Ht b []). by rewrite app_nil_r.
Qed.
Lemma wp_sync (f : IoError → E) (p : Path) C (Q : () → Disk → Prop) d : C d → Q () d → wp (sys f (Sync p)) C Q d.
Proof. intros HC HQ. apply wp_sys; [done|done|]. intros [] d'. simpl. by intros [= _ <-]. Qed.
Lemma wp_stat (f : IoError → E) (p : Path) C (Q : Stat → Disk → Prop) d : C d →
  (∀ s, match entry d p with Some Dir => s = DirStat | Some (File b) => s = FileStat (zlen b) | None => False end → Q s d) →
  wp (sys f (Metadata p)) C Q d.
Proof. intros HC HQ. apply wp_sys; [done|done|]. intros s d'. simpl. destruct (entry d p) as [[]|]; intros [= <- <-]; auto. Qed.
Lemma wp_read (f : IoError → E) (p : Path) C (Q : list Z → Disk → Prop) d : C d → (∀ b, entry d p = Some (File b) → Q b d) → wp (sys f (Read p)) C Q d.
Proof. intros HC HQ. apply wp_sys; [done|done|]. intros b d'. simpl. destruct (entry d p) as [[]|]; intros [= -> <-]; auto. Qed.
Lemma wp_read_dir (f : IoError → E) (p : Path) C (Q : list Name → Disk → Prop) d : C d → Q (names d p) d → wp (sys f (ReadDir p)) C Q d.
Proof. intros HC HQ. apply wp_sys; [done|done|]. intros b d'. simpl. destruct (entry d p) as [[]|]; intros [= <- <-]; auto. Qed.
Lemma wp_rename_file (f : IoError → E) (p q : Path) (b : list Z) C (Q : () → Disk → Prop) d : entry d p = Some (File b) → p ≠ q → C d →
  C (<[q := File b]> (delete p d)) ∧ Q () (<[q := File b]> (delete p d)) → wp (sys f (Rename p q)) C Q d.
Proof.
  intros Hp Hne HC HQ. apply wp_sys; [done|done|]. intros [] d'. simpl. unfold rename. destruct (decide (p = q)); [done|]. rewrite Hp.
  intros Hr. repeat case_match; simplify_eq; done.
Qed.
Lemma wp_rename_dir (f : IoError → E) (p q : Path) C (Q : () → Disk → Prop) d : entry d p = Some Dir → p ≠ q → C d →
  (¬ p `prefix_of` q → entry d q = None ∨ entry d q = Some Dir ∧ names d q = [] → C (move p q d) ∧ Q () (move p q d)) →
  wp (sys f (Rename p q)) C Q d.
Proof.
  intros Hp Hne HC HQ. apply wp_sys; [done|done|]. intros [] d'. simpl. unfold rename. destruct (decide (p = q)); [done|]. rewrite Hp.
  destruct (strip p q) eqn:Es; [done|]. apply strip_None in Es. intros Hr. repeat case_match; simplify_eq; auto.
Qed.
Lemma wp_remove (f : IoError → E) (p : Path) C (Q : () → Disk → Prop) d : C d → C (delete p d) → Q () (delete p d) → wp (sys f (RemoveFile p)) C Q d.
Proof. intros HC HC' HQ. apply wp_sys; [done|done|]. intros [] d'. simpl. destruct (entry d p) as [[]|]; intros [= <-]; auto. Qed.

(** A loop that only reads. *)
Lemma wp_traverse_read {A B} (f : A → IO E B) (P : A → B → Prop) (l : list A) C d : C d →
  (∀ x, x ∈ l → wp (f x) C (λ y d', d' = d ∧ P x y) d) → wp (traverse f l) C (λ ys d', d' = d ∧ Forall2 P l ys) d.
Proof.
  intros HC. induction l as [|x l IH]; intros Hf; simpl; [apply wp_done; [done|by split]|].
  apply wp_do. eapply wp_conseq; [apply Hf; by left|done|]. intros y d1 _ [-> Hy]. simpl. apply wp_do.
  eapply wp_conseq; [apply IH; intros; apply Hf; by right|done|]. intros ys d2 _ [-> Hys]. apply wp_done; [done|]. by split; [|constructor].
Qed.

End wp.

Lemma wp_map_err {E F A} (f : E → F) (m : IO E A) C Q d : wp m C Q d → wp (io_map_err f m) C Q d.
Proof.
  intros Hm o d'. unfold io_map_err. intros [[-> H]|(r & d1 & H1 & -> & ->)]%runs_bind; [split; [by apply (Hm _ _ H)|done]|].
  destruct (Hm _ _ H1) as [HC HQ]. split; [done|]. intros x Hx. apply HQ. by destruct r; simplify_eq/=.
Qed.


(** ** Frames

    Outside of [W] a program only makes directories above it. *)

Definition changes (W : Path → Prop) (d d' : Disk) : Prop :=
  ∀ p, ¬ W p → entry d' p = entry d p ∨ entry d p = None ∧ entry d' p = Some Dir ∧ ∃ q, W q ∧ p `prefix_of` q.

Lemma changes_refl W d : changes W d d.
Proof. intros p _. by left. Qed.
Lemma changes_trans W d1 d2 d3 : changes W d1 d2 → changes W d2 d3 → changes W d1 d3.
Proof. intros H1 H2 p Hp. destruct (H1 p Hp) as [E1|(? & E1 & ?)], (H2 p Hp) as [E2|(? & E2 & ?)]; rewrite ?E2, ?E1; intuition congruence. Qed.
Lemma changes_mono (W W' : Path → Prop) d d' : (∀ p, W p → W' p) → changes W d d' → changes W' d d'.
Proof. intros Hw H p Hp. destruct (H p) as [E|(? & ? & q & ? & ?)]; [auto|by left|right]. split; [done|]. split; [done|]. exists q. auto. Qed.
Lemma changes_file W d d' p b : changes W d d' → ¬ W p → entry d p = Some (File b) → entry d' p = Some (File b).
Proof. intros H Hp He. destruct (H p Hp) as [E|[E _]]; congruence. Qed.
Lemma changes_dir W d d' p : changes W d d' → ¬ W p → entry d p = Some Dir → entry d' p = Some Dir.
Proof. intros H Hp He. destruct (H p Hp) as [E|[E _]]; congruence. Qed.
(** A file outside of [W] was there before. *)
Lemma changes_file_inv W d d' p b : changes W d d' → ¬ W p → entry d' p = Some (File b) → entry d p = Some (File b).
Proof. intros H Hp He. destruct (H p Hp) as [E|(_ & E & _)]; congruence. Qed.
Lemma changes_insert (W : Path → Prop) d p e : W p → changes W d (<[p := e]> d).
Proof. intros Hw q Hq. left. apply entry_insert_ne. by intros ->. Qed.
Lemma changes_delete (W : Path → Prop) d p : W p → changes W d (delete p d).
Proof. intros Hw q Hq. left. apply entry_delete_ne. by intros ->. Qed.
Lemma changes_make_dirs (W : Path → Prop) d p q : W q → p `prefix_of` q → changes W d (make_dirs d p).
Proof.
  intros Hw Hpq r _. destruct (decide (r `prefix_of` p)) as [Hr|Hr]; [|left; by apply make_dirs_ne].
  destruct (entry d r) as [e|] eqn:Er; [left; by apply make_dirs_keeps|]. right. split; [done|]. split; [apply make_dirs_dir; auto|].
  exists q. split; [done|]. by etrans.
Qed.

(** The entries of a directory. *)
Lemma elem_of_names d p n : n ∈ names d p ↔ entry d (p ++ [n]) ≠ None.
Proof.
  unfold names. rewrite list_elem_of_omap. assert (He : entry d (p ++ [n]) = d !! (p ++ [n])) by by destruct p. rewrite He. split.
  - intros (k & ([k' e] & -> & Hk%elem_of_map_to_list)%list_elem_of_fmap & Hn). simpl in *. destruct (strip p k') as [[|x [|]]|] eqn:Es; simplify_eq.
    apply strip_Some in Es as ->. by rewrite Hk.
  - intros Hn. destruct (d !! (p ++ [n])) as [e|] eqn:Hk; [|done]. exists (p ++ [n]). split; [|by rewrite strip_app].
    apply list_elem_of_fmap. exists (p ++ [n], e). split; [done|]. by apply elem_of_map_to_list.
Qed.

Lemma NoDup_names d p : NoDup (names d p).
Proof.
  unfold names. pose proof (NoDup_fst_map_to_list d) as Hn. revert Hn. generalize (map_to_list d).*1. intros l Hn.
  induction Hn as [|k l Hk _ IH]; [constructor|]. cbn [omap list_omap]. destruct (strip p k) as [[|n [|]]|] eqn:Es; try done. constructor; [|done].
  intros (k' & Hin & Hs)%list_elem_of_omap. destruct (strip p k') as [[|n' [|]]|] eqn:Es'; simplify_eq. apply strip_Some in Es as ->, Es' as ->. done.
Qed.

(** ** Trees

    Whatever a program does, everything on disk is in a directory. *)

Definition tree (d : Disk) : Prop := ∀ p n, entry d (p ++ [n]) ≠ None → entry d p = Some Dir.

Lemma tree_insert d p e : tree d → p ≠ [] → entry d (parent p) = Some Dir → (∀ n, entry d (p ++ [n]) ≠ None → e = Dir) → tree (<[p := e]> d).
Proof.
  intros Ht Hp Hpar He q n Hq. destruct (decide (p = q ++ [n])) as [->|Hne].
  - rewrite parent_snoc in Hpar. rewrite entry_insert_ne; [done|]. intros E. apply (f_equal length) in E. rewrite length_app in E. simpl in E. lia.
  - rewrite entry_insert_ne in Hq by done. destruct (decide (p = q)) as [->|]; [rewrite entry_insert by done; f_equal; by eapply He|].
    rewrite entry_insert_ne by done. by eapply Ht.
Qed.
(** A file has nothing below it. *)
Lemma tree_file d p b n : tree d → entry d p = Some (File b) → entry d (p ++ [n]) = None.
Proof. intros Ht Hp. destruct (entry d (p ++ [n])) eqn:E; [|done]. exfalso. assert (entry d p = Some Dir) by (eapply Ht; by rewrite E). congruence. Qed.
Lemma tree_parent d p : tree d → entry d p ≠ None → entry d (parent p) = Some Dir.
Proof. intros Ht Hp. destruct p as [|n p _] using rev_ind; [done|]. rewrite parent_snoc. by eapply Ht. Qed.
Lemma tree_child d p x : tree d → x ≠ [] → entry d (p ++ x) ≠ None → ∃ n, entry d (p ++ [n]) ≠ None.
Proof.
  intros Ht. induction x as [|n x IH] using rev_ind; [done|]. intros _ He. destruct x as [|m x]; [by exists n|].
  apply IH; [done|]. rewrite app_assoc in He. by rewrite (Ht _ _ He).
Qed.
Lemma tree_delete d p b : tree d → entry d p = Some (File b) → tree (delete p d).
Proof.
  intros Ht Hp q n Hq. assert (Hne : p ≠ []) by by intros ->. destruct (decide (p = q ++ [n])) as [->|Hn]; [by rewrite entry_delete in Hq|].
  rewrite entry_delete_ne in Hq by done. pose proof (Ht _ _ Hq) as Hd. rewrite entry_delete_ne; [done|]. intros ->. congruence.
Qed.
Lemma tree_make_dirs d p : tree d → existsb (is_file d) (all_prefixes p) = false → tree (make_dirs d p).
Proof.
  intros Ht Hf q n Hq. assert (Hdir : ∀ r, r `prefix_of` p → entry (make_dirs d p) r = Some Dir).
  { intros r Hr. apply make_dirs_dir; [done|]. destruct (entry d r) as [[|b]|] eqn:Er; [by right|exfalso|by left].
    apply elem_of_all_prefixes in Hr. assert (Hx : existsb (is_file d) (all_prefixes p) = true); [|congruence].
    apply existsb_exists. exists r. split; [by apply list_elem_of_In|]. unfold is_file. by rewrite Er. }
  destruct (decide ((q ++ [n]) `prefix_of` p)) as [Hp|Hp]; [apply Hdir; etrans; [by exists [n]|done]|].
  rewrite make_dirs_ne in Hq by done. apply make_dirs_keeps. by eapply Ht.
Qed.
Lemma move_gone p q k d : p `prefix_of` k → ¬ q `prefix_of` k → move p q d !! k = None.
Proof.
  intros [r ->] Hq. unfold move. rewrite lookup_union_r.
  - unfold outside. apply map_lookup_filter_None. right. intros e _. by rewrite strip_app.
  - apply eq_None_not_Some. intros (e & (x & E & _)%lookup_kmap_Some); [|apply _]. apply Hq. by exists x.
Qed.
Lemma tree_move d p q : tree d → q ≠ [] → ¬ p `prefix_of` q → entry d (parent q) = Some Dir → entry d q = None ∨ names d q = [] → tree (move p q d).
Proof.
  intros Ht Hqn Hpq Hpar Hq. assert (Hpn : p ≠ []) by (intros ->; apply Hpq; by exists q). assert (Hempty : ∀ x, x ≠ [] → entry d (q ++ x) = None).
  { intros x Hx. destruct (entry d (q ++ x)) eqn:Ex; [|done]. exfalso. destruct (tree_child d q x Ht Hx) as [n Hn]; [congruence|].
    destruct Hq as [Hq|Hq]; [pose proof (Ht _ _ Hn); congruence|]. apply elem_of_names in Hn. rewrite Hq in Hn. by apply not_elem_of_nil in Hn. }
  assert (Hkeep : ∀ r, ¬ p `prefix_of` r → ¬ q `prefix_of` r → entry (move p q d) r = entry d r).
  { intros r H1 H2. destruct r; [done|]. unfold entry. by apply move_elsewhere. }
  assert (Hlook : ∀ (p r : Path) d, p ≠ [] → entry d (p ++ r) = d !! (p ++ r)) by (intros p' r d' Hp'; by destruct p').
  intros r n Hr. destruct (decide (q `prefix_of` (r ++ [n]))) as [[x Hx]|Hnq].
  - destruct x as [|m x _] using rev_ind.
    + rewrite app_nil_r in Hx. subst q. rewrite parent_snoc in Hpar. rewrite Hkeep; [done| |].
      * intros Hpr. apply Hpq. etrans; [done|by exists [n]].
      * intros Hl%prefix_length. rewrite length_app in Hl. simpl in Hl. lia.
    + rewrite app_assoc in Hx. apply app_inj_tail in Hx as [-> ->]. rewrite Hlook by done. apply move_below. rewrite <-Hlook by done.
      apply (Ht _ m). rewrite <-!app_assoc, Hlook in * by done. intros He. apply Hr. unfold move. rewrite lookup_union_r.
      * unfold outside. apply map_lookup_filter_None. left. rewrite <-Hlook by done. apply Hempty. by destruct x.
      * rewrite lookup_kmap by apply _. by rewrite lookup_subtree.
  - assert (Hnp : ¬ p `prefix_of` (r ++ [n])).
    { intros Hp. apply Hr. destruct (r ++ [n]) as [|y k] eqn:E; [by destruct r|]. unfold entry. by apply move_gone. }
    assert (Hup : ∀ s, ¬ s `prefix_of` (r ++ [n]) → ¬ s `prefix_of` r) by (intros s Hs Hsr; apply Hs; etrans; [done|by exists [n]]).
    rewrite Hkeep in Hr by done. rewrite Hkeep by auto. by eapply Ht.
Qed.

Lemma create_at_tree d p : tree d → entry d p = None → tree (create_at d p).2.
Proof.
  intros Ht Hp. unfold create_at. destruct (entry d (parent p)) as [[]|] eqn:Er; try done. apply tree_insert; [done|by intros ->|done|].
  intros n Hn. exfalso. pose proof (Ht _ _ Hn). congruence.
Qed.
Lemma rename_tree d p q : tree d → tree (rename p q d).2.
Proof.
  intros Ht. unfold rename. destruct (decide (p = q)) as [|Hne]; [done|].
  assert (Hfile : ∀ b, entry d p = Some (File b) → entry d (parent q) = Some Dir → (entry d q ≠ Some Dir) → tree (<[q := File b]> (delete p d))).
  { intros b Hb Hpar Hq. assert (Hqn : q ≠ []) by by intros ->. apply tree_insert; [by eapply tree_delete|done| |].
    - rewrite entry_delete_ne; [done|]. intros ->. congruence.
    - intros n Hn. exfalso. assert (Hd : entry d (q ++ [n]) ≠ None); [|apply Hq; by eapply Ht].
      intros E. apply Hn. destruct (decide (p = q ++ [n])) as [->|Hx]; [apply entry_delete; by destruct q|by rewrite entry_delete_ne]. }
  destruct (entry d p) as [[|b]|] eqn:Ep; [| |done].
  - destruct (strip p q) eqn:Es; [done|]. apply strip_None in Es. destruct (entry d q) as [[|b]|] eqn:Eq; [|done|].
    + destruct (names d q) eqn:En; [|done]. assert (Hqn : q ≠ []).
      { intros ->. destruct (tree_child d [] p Ht) as [n Hn]; [by intros ->|simpl; by rewrite Ep|]. apply elem_of_names in Hn. rewrite En in Hn. by apply not_elem_of_nil in Hn. }
      apply tree_move; [done|done|done| |by right]. apply tree_parent; [done|by rewrite Eq].
    + destruct (entry d (parent q)) as [[]|] eqn:Er; try done. apply tree_move; [done|by intros ->|done|done|by left].
  - destruct (entry d q) as [[|b']|] eqn:Eq; [done| |].
    + apply Hfile; [done| |done]. apply tree_parent; [done|by rewrite Eq].
    + destruct (entry d (parent q)) as [[]|] eqn:Er; try done. by apply Hfile.
Qed.
Lemma tree_rewrite d p a b : tree d → entry d p = Some (File a) → tree (<[p := File b]> d).
Proof.
  intros Ht Hp. apply tree_insert; [done|by intros ->|apply tree_parent; [done|by rewrite Hp]|].
  intros n Hn. exfalso. by rewrite (tree_file _ _ _ _ Ht Hp) in Hn.
Qed.
Lemma perform_tree {X} (c : Call X) d : tree d → tree (perform c d).2.
Proof.
  intros Ht. destruct c; simpl; try done.
  - destruct (is_file d p) eqn:Ep; [done|]. destruct (existsb (is_file d) (prefixes p)) eqn:Ee; [done|]. apply tree_make_dirs; [done|].
    unfold all_prefixes. rewrite existsb_app, Ee. simpl. by rewrite Ep.
  - destruct (entry d p) eqn:Ep; [done|by apply create_at_tree].
  - destruct (entry d p) as [[]|] eqn:Ep; [done|by eapply tree_rewrite|by apply create_at_tree].
  - destruct (entry d p) as [[]|] eqn:Ep; try done. by eapply tree_rewrite.
  - by apply rename_tree.
  - destruct (entry d p) as [[]|] eqn:Ep; try done. by eapply tree_delete.
Qed.
Lemma torn_tree {X} (c : Call X) d d' : tree d → torn c d d' → tree d'.
Proof.
  intros Ht. destruct c; simpl; try done.
  - intros (q & r & -> & Hf & ->). by apply tree_make_dirs.
  - intros (a & b1 & b2 & Ha & -> & ->). by eapply tree_rewrite.
Qed.
Lemma runs_tree {A} (m : io A) d o d' : tree d → runs m d o d' → tree d'.
Proof.
  revert d. induction m as [x|X c k IH]; intros d Ht; simpl; [by intros [_ ->]|].
  intros [[_ [->|Hc]]|(r & d1 & Hs & Hr)]; [done|by eapply torn_tree|].
  eapply IH; [|exact Hr]. destruct Hs as [Hp|(_ & _ & _ & [->|Hc])]; [|done|by eapply torn_tree].
  pose proof (perform_tree c d Ht) as H. by rewrite Hp in H.
Qed.
Lemma wp_tree {E A} (m : IO E A) C Q d : tree d → wp m C Q d → wp m (λ d', C d' ∧ tree d') (λ x d', Q x d' ∧ tree d') d.
Proof. intros Ht Hm o d' Hr. pose proof (runs_tree _ _ _ _ Ht Hr). destruct (Hm _ _ Hr). split; [done|]. auto. Qed.
Lemma wp_and {E A} (m : IO E A) C1 C2 Q1 Q2 d : wp m C1 Q1 d → wp m C2 Q2 d → wp m (λ d', C1 d' ∧ C2 d') (λ x d', Q1 x d' ∧ Q2 x d') d.
Proof. intros H1 H2 o d' Hr. destruct (H1 _ _ Hr), (H2 _ _ Hr). split; [done|]. auto. Qed.

End FilesLaws.
