(* ===== verification/Storage.v ===== *)
(** Source revisions on disk (data-sync/src/storage.rs, identity.rs): pages
    and the daily instrument staged as compressed objects with their
    metadata, the manifest, and the publication of a staged revision. *)
From S2P Require Import Prelude Order Text Codec Event Partition Files.

(** serde_json, zstd and SHA-256 are third-party code. A JSON value is seen
    through the accessors the source calls. *)
Class Json := {
  Value : Set;
  from_json : list Z → option Value;
  to_json : Value → option (list Z);
  value_get : Value → string → option Value;
  value_is_object : Value → bool;
  value_is_null : Value → bool;
  value_as_array : Value → option (list Value);
  value_as_str : Value → option (list Z) }.
Class Serde (A : Set) := { to_vec_pretty : A → option (list Z); from_slice : list Z → option A }.
Class Zstd := { compress : list Z → list Z; decompress : list Z → option (list Z); zstd_version_string : list Z }.
Class Sha256 := sha256 : list Z → list Z.

(** What is documented of them: reading back what was written. *)
Class SerdeLaws (A : Set) `{Serde A} (wf : A → Prop) : Prop :=
  serde_round_trip x bytes : wf x → to_vec_pretty x = Some bytes → from_slice bytes = Some x.
Class ZstdLaws `{Zstd} : Prop := zstd_round_trip body : decompress (compress body) = Some body.
Class Sha256Laws `{Sha256} : Prop := sha256_digest x : Hex.is_digest (sha256 x).

Module Storage.
Import Files.

(** ** Metadata *)

Definition SOURCE_MANIFEST_VERSION : Z := 1.

Inductive CompressionPolicy : Set := ZstdPerPageV1.
Inductive ObjectKind : Set := TickPage | DailyInstrument.
#[global] Instance ObjectKind_eq_dec : EqDecision ObjectKind.
Proof. solve_decision. Defined.

Record PageMetadata : Set := mk_metadata {
  kind : ObjectKind; ordinal : Z; relative_path : list Z; record_count : Z; uncompressed_bytes : Z; compressed_bytes : Z;
  uncompressed_sha256 : list Z; compressed_sha256 : list Z; compression : CompressionPolicy;
  zstd_implementation : list Z; zstd_version : list Z; metadata_query_identity : list Z }.

Record SourcePage : Set := mk_page {
  page_ordinal : Z; page_query_identity : list Z; body : list Z; page_fingerprint : list Z; page_record_count : Z }.
Definition new_page {B : Blake3} (ordinal : Z) (query_identity body : list Z) (record_count : Z) : SourcePage :=
  mk_page ordinal query_identity body (blake3 body) record_count.

Record PageCommitReceipt : Set := mk_receipt { receipt_ordinal : Z; receipt_fingerprint : list Z }.
Definition commit_receipt (p : SourcePage) : PageCommitReceipt := mk_receipt (page_ordinal p) (page_fingerprint p).

Record StagedPage : Set := mk_staged { staged_metadata : PageMetadata; receipt : PageCommitReceipt }.

Record SourceManifest : Set := mk_manifest {
  manifest_version : Z; revision_identity : list Z; query_identity : list Z; terminal_cursor_reached : bool;
  tick_record_count : Z; pages : list PageMetadata; daily_instrument : PageMetadata }.

(** The texts of JSON and manifest errors are not kept. *)
Inductive StagingError : Set :=
| Io (kind : IoError) | InvalidAttemptId | InvalidJson | RoundTripMismatch | NonContiguousPages | CountOverflow | InvalidChecksum
| CursorNotTerminal | DailyInstrumentMissing | RevisionAlreadyExists (revision : list Z) | CheckpointPageMismatch
| InterruptedPageChanged | ManifestError | PartitionError.

Definition object_tag (k : ObjectKind) : Z := match k with TickPage => 1 | DailyInstrument => 2 end.
Definition append_semantic_object (m : PageMetadata) (target : list Z) : result StagingError (list Z) :=
  let target := target ++ [object_tag (kind m)] ++ be_bytes 4 (ordinal m) ++ be_bytes 8 (uncompressed_bytes m) in
  checksum ← ok_or (Hex.decode_hex_32 true (uncompressed_sha256 m)) InvalidChecksum;
  Ok (target ++ checksum).

(** The page at each index has it as its ordinal; [expected as u32] keeps the low bits. *)
Definition contiguous (pages : list PageMetadata) : bool :=
  forallb (λ '(i, m), bool_decide (kind m = TickPage) && (ordinal m =? i mod (u32_max + 1))) (zip (seqZ 0 (zlen pages)) pages).

Section operations.
Context {J : Json} {SP : Serde PageMetadata} {SM : Serde SourceManifest} {ZS : Zstd} {SH : Sha256}.

Definition semantic_bytes (pages : list PageMetadata) (daily : PageMetadata) : result StagingError (list Z) :=
  semantic ← append_semantic_object daily (bytes_of "OSSR" ++ be_bytes 2 SOURCE_MANIFEST_VERSION);
  try_fold (λ target m, append_semantic_object m target) semantic pages.

Definition build (query_identity : list Z) (terminal_cursor_reached : bool) (pages : list PageMetadata) (daily : PageMetadata) :
    result StagingError SourceManifest :=
  reject negb terminal_cursor_reached with CursorNotTerminal;;
  let pages := sort_on ordinal pages in
  reject negb (contiguous pages) with NonContiguousPages;;
  tick_record_count ← ok_or (foldl (λ total m, t ← total; to_u64 (t + record_count m)) (Some 0) pages) CountOverflow;
  semantic ← semantic_bytes pages daily;
  Ok (mk_manifest SOURCE_MANIFEST_VERSION (Hex.hex (sha256 semantic)) (Hex.hex query_identity) terminal_cursor_reached
        tick_record_count pages daily).

(** ** Writing *)

Definition write_atomic_file (path : Path) (bytes : list Z) : IO StagingError () :=
  _ ← sys Io (CreateDirAll (parent path));
  let tmp := with_extension path (bytes_of "tmp") in
  _ ← sys Io (CreateNew tmp);
  _ ← sys Io (Write tmp bytes);
  _ ← sys Io (Sync tmp);
  _ ← sys Io (Rename tmp path);
  sys Io (Sync (parent path)).

Definition write_compressed_object (root : Path) (relative_path : list Z) (kind : ObjectKind) (ordinal record_count : Z)
    (query_identity body : list Z) : IO StagingError PageMetadata :=
  let final_path := root ++ normal_names relative_path in
  let tmp_path := with_extension final_path (bytes_of "zst.tmp") in
  _ ← sys Io (CreateNew tmp_path);
  _ ← sys Io (Write tmp_path (compress body));
  _ ← sys Io (Sync tmp_path);
  content ← sys Io (Read tmp_path);
  stat ← sys Io (Metadata tmp_path);
  let compressed_bytes := match stat with FileStat n => n | DirStat => 0 end in
  again ← sys Io (Read tmp_path);
  decoded ← lift (ok_or (decompress again) (Io OtherError));
  _ ← lift (if bool_decide (decoded ≠ body) then Err RoundTripMismatch else Ok ());
  _ ← lift (ok_or (from_json decoded) InvalidJson);
  _ ← sys Io (Rename tmp_path final_path);
  _ ← sys Io (Sync (parent final_path));
  mret (mk_metadata kind ordinal relative_path record_count (zlen body) compressed_bytes (Hex.hex (sha256 body))
          (Hex.hex (sha256 content)) ZstdPerPageV1 (bytes_of "zstd") zstd_version_string (Hex.hex query_identity)).

(** ** Staging *)

Record StagingRevision : Set := mk_staging {
  publish_root : Path; attempt_path : Path; staged_pages : list PageMetadata; staged_daily : option PageMetadata }.

Definition validate_attempt_id (attempt_id : list Z) : result StagingError () :=
  reject bool_decide (attempt_id = []) || negb (forallb Partition.safe_byte attempt_id) with InvalidAttemptId;;
  Ok ().

Definition PAGES : Path := [bytes_of "ticks"; bytes_of "pages"].
Definition INSTRUMENT : Path := [bytes_of "instrument"].
(** [create] below any publication root; the layout of partitions decides the root. *)
Definition create_at_root (publish_root attempt_path : Path) : IO StagingError StagingRevision :=
  _ ← sys Io (CreateDirAll (attempt_path ++ PAGES));
  _ ← sys Io (CreateDirAll (attempt_path ++ INSTRUMENT));
  mret (mk_staging publish_root attempt_path [] None).
Definition create (data_root : Path) (attempt_id : list Z) : IO StagingError StagingRevision :=
  _ ← lift (validate_attempt_id attempt_id);
  create_at_root (data_root ++ [bytes_of "source"]) (data_root ++ [bytes_of "staging"; attempt_id]).

Definition read_metadata (path : Path) : IO StagingError PageMetadata :=
  bytes ← sys Io (Read path); lift (ok_or (from_slice bytes) ManifestError).
Definition DAILY_METADATA : Path := INSTRUMENT ++ [bytes_of "daily.yaml"].
Definition resume_at (publish_root attempt_path : Path) (committed_pages : Z) : IO StagingError StagingRevision :=
  entries ← sys Io (ReadDir (attempt_path ++ PAGES));
  let metadata_names := sort_on id (filter (λ n, extension n = Some (bytes_of "yaml")) entries) in
  pages ← traverse (λ n, read_metadata (attempt_path ++ PAGES ++ [n])) metadata_names;
  _ ← lift (if zlen pages <? committed_pages then Err CheckpointPageMismatch else Ok ());
  let pages := take (Z.to_nat committed_pages) pages in
  daily_exists ← exists_ (attempt_path ++ DAILY_METADATA);
  daily ← (if daily_exists : bool then m ← read_metadata (attempt_path ++ DAILY_METADATA); mret (Some m) else mret None);
  mret (mk_staging publish_root attempt_path pages daily).
Definition resume (data_root : Path) (attempt_id : list Z) (committed_pages : Z) : IO StagingError StagingRevision :=
  resume_at (data_root ++ [bytes_of "source"]) (data_root ++ [bytes_of "staging"; attempt_id]) committed_pages.

Definition page_object (ordinal : Z) : list Z := bytes_of "ticks/pages/" ++ pad_zero 8 ordinal ++ bytes_of ".json.zst".
Definition page_metadata (ordinal : Z) : list Z := bytes_of "ticks/pages/" ++ pad_zero 8 ordinal ++ bytes_of ".yaml".
Definition push_page (s : StagingRevision) (m : PageMetadata) : StagingRevision :=
  mk_staging (publish_root s) (attempt_path s) (staged_pages s ++ [m]) (staged_daily s).

(** The metadata of the page, from an interrupted run or written now. *)
Definition stage_object (attempt_path : Path) (staged : Z) (page : SourcePage) : IO StagingError PageMetadata :=
  _ ← lift (if page_ordinal page =? staged mod (u32_max + 1) then Ok () else Err NonContiguousPages);
  let relative_path := page_object (page_ordinal page) in
  let metadata_path := attempt_path ++ normal_names (page_metadata (page_ordinal page)) in
  staged_before ← exists_ metadata_path;
  if staged_before : bool then
    metadata ← read_metadata metadata_path;
    if negb (record_count metadata =? page_record_count page) || negb (uncompressed_bytes metadata =? zlen (body page)) ||
       bool_decide (uncompressed_sha256 metadata ≠ Hex.hex (sha256 (body page)))
    then lift (Err InterruptedPageChanged) else mret metadata
  else
    metadata ← write_compressed_object attempt_path relative_path TickPage (page_ordinal page) (page_record_count page)
      (page_query_identity page) (body page);
    metadata_bytes ← lift (ok_or (to_vec_pretty metadata) ManifestError);
    _ ← write_atomic_file metadata_path metadata_bytes;
    mret metadata.
(** With the new state; an error leaves [self] as it was. *)
Definition stage_page (s : StagingRevision) (page : SourcePage) : IO StagingError (StagedPage * StagingRevision) :=
  metadata ← stage_object (attempt_path s) (zlen (staged_pages s)) page;
  mret (mk_staged metadata (commit_receipt page), push_page s metadata).

Definition stage_daily_instrument (s : StagingRevision) (query_identity body : list Z) : IO StagingError (PageMetadata * StagingRevision) :=
  _ ← lift (ok_or (from_json body) InvalidJson);
  metadata ← write_compressed_object (attempt_path s) (bytes_of "instrument/daily.json.zst") DailyInstrument 0 1 query_identity body;
  metadata_bytes ← lift (ok_or (to_vec_pretty metadata) ManifestError);
  _ ← write_atomic_file (attempt_path s ++ DAILY_METADATA) metadata_bytes;
  mret (metadata, mk_staging (publish_root s) (attempt_path s) (staged_pages s) (Some metadata)).

(** ** Publication *)

Record PublishedRevision : Set := mk_published { path : Path; manifest : SourceManifest }.

Definition remove_if_there (p : Path) : IO StagingError () := there ← exists_ p; when there (sys Io (RemoveFile p)).
Definition MANIFEST : Name := bytes_of "manifest.yaml".
Definition REVISIONS : Name := bytes_of "revisions".
Definition CURRENT : Name := bytes_of "current.yaml".
Definition CHECKPOINT : Name := bytes_of "checkpoint.json".

Definition seal (s : StagingRevision) (m : SourceManifest) : IO StagingError () :=
  _ ← remove_if_there (attempt_path s ++ [CHECKPOINT]);
  _ ← remove_if_there (attempt_path s ++ DAILY_METADATA);
  _ ← traverse (λ page, remove_if_there (attempt_path s ++ normal_names (page_metadata (ordinal page)))) (pages m);
  manifest_bytes ← lift (ok_or (to_vec_pretty m) ManifestError);
  _ ← write_atomic_file (attempt_path s ++ [MANIFEST]) manifest_bytes;
  sys Io (Sync (attempt_path s)).
Definition move_to_revisions (s : StagingRevision) (m : SourceManifest) : IO StagingError Path :=
  let revisions := publish_root s ++ [REVISIONS] in
  _ ← sys Io (CreateDirAll revisions);
  let published_path := revisions ++ [revision_identity m] in
  there ← exists_ published_path;
  _ ← lift (if there : bool then Err (RevisionAlreadyExists (revision_identity m)) else Ok ());
  _ ← sys Io (Rename (attempt_path s) published_path);
  _ ← sys Io (Sync revisions);
  mret published_path.
Definition publish (s : StagingRevision) (query_identity : list Z) (terminal_cursor_reached : bool) : IO StagingError PublishedRevision :=
  daily ← lift (ok_or (staged_daily s) DailyInstrumentMissing);
  manifest ← lift (build query_identity terminal_cursor_reached (staged_pages s) daily);
  _ ← seal s manifest;
  published_path ← move_to_revisions s manifest;
  _ ← write_atomic_file (publish_root s ++ [CURRENT]) (revision_identity manifest);
  mret (mk_published published_path manifest).

End operations.
End Storage.
