(* ===== verification/Verify.v ===== *)
(** Verification of the current source revision (data-sync/src/verify.rs). *)
From S2P Require Import Prelude Order Text Identity Partition Files Storage.

Module Verify.
Import Files Storage.
Import Partition(SourceState, Missing, Building, Complete, Incomplete, Corrupt, IncompleteReason, CorruptReason).

(** ** str::trim on UTF-8

    The white space of two and three bytes, forwards and backwards. *)

Definition white1 (a : Z) : bool := in_range 9 13 a || (a =? 32).
Definition white2 (a b : Z) : bool := (a =? 194) && ((b =? 133) || (b =? 160)).
Definition white3 (a b c : Z) : bool :=
  ((a =? 225) && (b =? 154) && (c =? 128)) ||
  ((a =? 226) && (b =? 128) && (in_range 128 138 c || (c =? 168) || (c =? 169) || (c =? 175))) ||
  ((a =? 226) && (b =? 129) && (c =? 159)) || ((a =? 227) && (b =? 128) && (c =? 128)).
Fixpoint trim_start (l : list Z) : list Z :=
  match l with
  | a :: (b :: (c :: r3) as r2) as r1 =>
      if white1 a then trim_start r1 else if white2 a b then trim_start r2 else if white3 a b c then trim_start r3 else l
  | a :: (b :: r2) as r1 => if white1 a then trim_start r1 else if white2 a b then trim_start r2 else l
  | a :: r1 => if white1 a then trim_start r1 else l
  | [] => []
  end.
Fixpoint trim_start_reversed (l : list Z) : list Z :=
  match l with
  | c :: (b :: (a :: r3) as r2) as r1 =>
      if white1 c then trim_start_reversed r1 else if white2 b c then trim_start_reversed r2
      else if white3 a b c then trim_start_reversed r3 else l
  | c :: (b :: r2) as r1 => if white1 c then trim_start_reversed r1 else if white2 b c then trim_start_reversed r2 else l
  | c :: r1 => if white1 c then trim_start_reversed r1 else l
  | [] => []
  end.
Definition trim (l : list Z) : list Z := reverse (trim_start_reversed (reverse (trim_start l))).

(** ** Reports and errors *)

Record VerificationReport : Set := mk_report { revision : list Z; report_manifest : SourceManifest; revision_root : Path }.

(** The texts of JSON and manifest errors are not kept. *)
Inductive VerificationError : Set :=
| VerifyIo (kind : IoError) | InvalidCurrentPointer | InvalidManifest | ManifestInvariant | NoTickPages | NoDailyInstrument
| UnsafeObjectPath | CompressedChecksumMismatch | CompressionFrameInvalid | UncompressedChecksumMismatch | PayloadJson
| PayloadEnvelope | RecordCountMismatch | VerifyCountOverflow | RevisionMismatch.

Definition source_state (e : VerificationError) : SourceState :=
  match e with
  | NoTickPages => Incomplete Partition.CursorNotTerminal
  | NoDailyInstrument => Incomplete Partition.DailyInstrumentMissing
  | VerifyIo NotFound => Corrupt Partition.PayloadMissing
  | CompressedChecksumMismatch | UncompressedChecksumMismatch => Corrupt Partition.PayloadChecksumMismatch
  | CompressionFrameInvalid => Corrupt Partition.CompressionFrameInvalid
  | _ => Corrupt Partition.ManifestInvalid
  end.

(** Diagnostics are texts, kept as what they are made of. *)
Inductive Diagnostic : Set := OfVerification (e : VerificationError) | PartitionUnreadable | PartitionKeyMismatch.
Record SourceInspection : Set := mk_inspection { state : SourceState; report : option VerificationReport; diagnostic : option Diagnostic }.
Definition corrupt (d : Diagnostic) : SourceInspection := mk_inspection (Corrupt Partition.ReferenceMismatch) None (Some d).
Inductive SyncDisposition : Set :=
| ReuseCompleteSource (revision : list Z) (http_requests : Z) | DownloadMissingSource | ResumeOrRestartBuilding
| RepairIncomplete (reason : IncompleteReason) | RepairCorrupt (reason : CorruptReason).
Definition requires_http (s : SyncDisposition) : bool := match s with ReuseCompleteSource _ _ => false | _ => true end.

Record LocalSourceRepository : Set := mk_repository { source_root : Path; staging_root : Path }.
Definition new_repository (data_root : Path) : LocalSourceRepository :=
  mk_repository (data_root ++ [bytes_of "source"]) (data_root ++ [bytes_of "staging"]).
Definition at_source_root (source_root : Path) : LocalSourceRepository := mk_repository source_root (source_root ++ [bytes_of "staging"]).

Section operations.
Context {J : Json} {SM : Serde SourceManifest} {ZS : Zstd} {SH : Sha256}.

(** The number of records an object holds. *)
Definition actual_records (kind : ObjectKind) (value : Value) : result VerificationError Z :=
  match kind with
  | TickPage => items ← ok_or (value_get value "items" ≫= value_as_array) PayloadEnvelope; Ok (zlen items)
  | DailyInstrument => Ok 1
  end.
(** The checks of an object's contents. *)
Definition check_body (m : PageMetadata) (body : list Z) : result VerificationError () :=
  reject negb (zlen body =? uncompressed_bytes m) || bool_decide (Hex.hex (sha256 body) ≠ uncompressed_sha256 m)
    with UncompressedChecksumMismatch;;
  value ← ok_or (from_json body) PayloadJson;
  n ← actual_records (kind m) value;
  reject negb (n =? record_count m) with RecordCountMismatch;;
  Ok ().
Definition is_normal (c : Component) : bool := match c with Normal _ => true | _ => false end.
Definition verify_object (root : Path) (m : PageMetadata) : IO VerificationError () :=
  _ ← lift (if negb (forallb is_normal (components (relative_path m))) then Err UnsafeObjectPath else Ok ());
  let path := root ++ normal_names (relative_path m) in
  content ← sys VerifyIo (Read path);
  stat ← (if bool_decide (Hex.hex (sha256 content) ≠ compressed_sha256 m) then lift (Err CompressedChecksumMismatch) else sys VerifyIo (Metadata path));
  _ ← lift (if bool_decide (stat ≠ FileStat (compressed_bytes m)) then Err CompressedChecksumMismatch else Ok ());
  _ ← sys VerifyIo (Open path);
  frame ← sys (λ _, CompressionFrameInvalid) (Read path);
  body ← lift (ok_or (decompress frame) CompressionFrameInvalid);
  lift (check_body m body).

Definition verify_page (root : Path) (total : Z) (page : Z * PageMetadata) : IO VerificationError Z :=
  let '(expected, m) := page in
  _ ← lift (if bool_decide (kind m ≠ TickPage) || negb (ordinal m =? expected mod (u32_max + 1)) then Err ManifestInvariant else Ok ());
  _ ← verify_object root m;
  lift (ok_or (to_u64 (total + record_count m)) VerifyCountOverflow).

(** [current.yaml] is UTF-8 text. *)
Definition read_to_string (p : Path) : IO VerificationError (list Z) :=
  bytes ← sys VerifyIo (Read p); lift (if Utf8.valid bytes then Ok bytes else Err (VerifyIo InvalidData)).
Definition parse_query_identity (value : list Z) : result VerificationError (list Z) :=
  ok_or (Hex.decode_hex_32 true value) ManifestInvariant.
Definition verify_manifest (revision_path : Path) (revision_text : list Z) (m : SourceManifest) : IO VerificationError () :=
  _ ← lift (if negb (manifest_version m =? 1) || bool_decide (revision_identity m ≠ revision_text) || negb (terminal_cursor_reached m)
            then Err ManifestInvariant else Ok ());
  _ ← lift (if bool_decide (pages m = []) then Err NoTickPages else Ok ());
  tick_records ← fold_io (verify_page revision_path) 0 (zip (seqZ 0 (zlen (pages m))) (pages m));
  _ ← lift (if bool_decide (kind (daily_instrument m) ≠ DailyInstrument) then Err NoDailyInstrument else Ok ());
  _ ← verify_object revision_path (daily_instrument m);
  _ ← lift (if negb (tick_records =? tick_record_count m) then Err RecordCountMismatch else Ok ());
  query ← lift (parse_query_identity (query_identity m));
  rebuilt ← lift (map_err (λ _, InvalidManifest) (build query true (pages m) (daily_instrument m)));
  lift (if bool_decide (revision_identity rebuilt ≠ revision_identity m) then Err RevisionMismatch else Ok ()).
Definition verify_current (r : LocalSourceRepository) : IO VerificationError VerificationReport :=
  text ← read_to_string (source_root r ++ [CURRENT]);
  let revision_text := trim text in
  revision_bytes ← lift (ok_or (Hex.decode_hex_32 true revision_text) InvalidCurrentPointer);
  let revision_path := source_root r ++ [REVISIONS; revision_text] in
  manifest_bytes ← sys VerifyIo (Read (revision_path ++ [MANIFEST]));
  manifest ← lift (ok_or (from_slice manifest_bytes) InvalidManifest);
  _ ← verify_manifest revision_path revision_text manifest;
  mret (mk_report revision_bytes manifest revision_path).

Definition inspect (r : LocalSourceRepository) : IO VerificationError SourceInspection :=
  there ← exists_ (source_root r ++ [CURRENT]);
  if negb there then
    entries ← try_call (ReadDir (staging_root r));
    let building := match entries with Ok (_ :: _) => true | _ => false end in
    mret (mk_inspection (if building then Building else Missing) None None)
  else
    v ← attempt (verify_current r);
    mret match v with
    | Ok report => mk_inspection (Complete (revision report)) (Some report) None
    | Err e => mk_inspection (source_state e) None (Some (OfVerification e))
    end.
Definition plan_sync (r : LocalSourceRepository) : IO VerificationError SyncDisposition :=
  i ← inspect r;
  mret match state i with
  | Missing => DownloadMissingSource
  | Building => ResumeOrRestartBuilding
  | Complete revision => ReuseCompleteSource revision 0
  | Incomplete reason => RepairIncomplete reason
  | Corrupt reason => RepairCorrupt reason
  end.

Definition read_page_records (r : VerificationReport) (page : PageMetadata) : IO VerificationError (list (list Z)) :=
  let path := revision_root r ++ normal_names (relative_path page) in
  _ ← sys VerifyIo (Open path);
  frame ← sys (λ _, PayloadJson) (Read path);
  body ← lift (ok_or (decompress frame) PayloadJson);
  value ← lift (ok_or (from_json body) PayloadJson);
  items ← lift (ok_or (value_get value "items" ≫= value_as_array) PayloadEnvelope);
  lift (collect_results (λ item, ok_or (to_json item) PayloadJson) items).
Definition read_tick_records (r : VerificationReport) : IO VerificationError (list (list Z)) :=
  records ← traverse (read_page_records r) (pages (report_manifest r)); mret (concat records).

End operations.
End Verify.
