(* ===== verification/VerifyLaws.v ===== *)
(** What a verified revision is: [verify_current] succeeds exactly when the
    current pointer, the manifest and every object agree. *)
From S2P Require Import Prelude Order Text Identity Partition Files Storage Verify.

Module VerifyLaws.
Import Files FilesLaws Storage Verify.

(** ** Programs that only read *)

Definition reading {X : Set} (c : Call X) : bool :=
  match c with Metadata _ | Open _ | Read _ | ReadDir _ | Sync _ => true | _ => false end.
Fixpoint quiet {A} (m : io A) : Prop :=
  match m with Ret _ => True | Do c k => reading c = true ∧ ∀ r, quiet (k r) end.
Lemma perform_reading {X : Set} (c : Call X) d : reading c = true → (perform c d).2 = d.
Proof. by destruct c. Qed.
Lemma torn_reading {X : Set} (c : Call X) d d' : reading c = true → ¬ torn c d d'.
Proof. intros Hc Ht. by destruct c. Qed.
Lemma quiet_run {A} (m : io A) d : quiet m → (run m d).2 = d.
Proof.
  revert d. induction m as [a|X c k IH]; intros d; simpl; [done|]. intros [Hc Hk]. pose proof (perform_reading c d Hc).
  destruct (perform c d) as [r d1]. simpl in *. subst. auto.
Qed.
(** The disk is left alone also when calls fail. *)
Lemma quiet_runs {A} (m : io A) d o d' : quiet m → runs m d o d' → d' = d.
Proof.
  revert d. induction m as [a|X c k IH]; intros d; simpl; [by intros _ [_ ->]|]. intros [Hc Hk].
  assert (Ht : ∀ d', ¬ torn c d d') by (intros; by apply torn_reading).
  intros [[_ [->|H]]|(r & d1 & Hs & Hr)]; [done|by destruct (Ht d')|]. apply (IH r d1) in Hr as ->; [|done].
  destruct Hs as [Hp|(_ & _ & _ & [->|H])]; [|done|by destruct (Ht d1)]. by rewrite <-(perform_reading c d Hc), Hp.
Qed.
Lemma wp_quiet {E A} (m : IO E A) (C : Disk → Prop) (Q : A → Disk → Prop) d : quiet m → C d → (∀ x, Q x d) → wp m C Q d.
Proof. intros Hm HC HQ o d' Hr. apply (quiet_runs m d o d' Hm) in Hr as ->. auto. Qed.
(** The undisturbed run returns a value and leaves the disk. *)
Definition gives {E A} (m : IO E A) (d : Disk) (x : A) : Prop := run m d = (Ok x, d).

Section reading.
Context {E : Type}.

Lemma run_io_bind {A B} (m : IO E A) (f : A → IO E B) d :
  run (m ≫= f) d = match run m d with (Ok x, d1) => run (f x) d1 | (Err e, d1) => (Err e, d1) end.
Proof. unfold mbind, IO_bind. rewrite run_bind. by destruct (run m d) as [[]]. Qed.
Lemma quiet_lift {A} (r : result E A) : quiet (lift r).
Proof. done. Qed.
Lemma quiet_ret {A} (x : A) : quiet (mret x : IO E A).
Proof. done. Qed.
Lemma quiet_then {A B} (m : io A) (f : A → io B) : quiet m → (∀ x, quiet (f x)) → quiet (bind m f).
Proof. intros Hm Hf. induction m as [a|X c k IH]; simpl in *; [done|]. destruct Hm as [Hc Hk]. auto. Qed.
Lemma quiet_bind {A B} (m : IO E A) (f : A → IO E B) : quiet m → (∀ x, quiet (f x)) → quiet (m ≫= f).
Proof. intros Hm Hf. apply quiet_then; [done|]. by intros []. Qed.
Lemma quiet_sys {X : Set} (f : IoError → E) (c : Call X) : reading c = true → quiet (sys f c).
Proof. done. Qed.
Lemma quiet_if {A} (b : bool) (m m' : IO E A) : quiet m → quiet m' → quiet (if b then m else m').
Proof. by destruct b. Qed.
Lemma quiet_fold {A B} (f : B → A → IO E B) l acc : (∀ b x, quiet (f b x)) → quiet (fold_io f acc l).
Proof. intros Hf. revert acc. induction l as [|x l IH]; intros acc; simpl; [done|]. by apply quiet_bind. Qed.
Lemma quiet_traverse {A B} (f : A → IO E B) (l : list A) : (∀ x, quiet (f x)) → quiet (traverse f l).
Proof. intros Hf. induction l as [|x l IH]; simpl; [done|]. apply quiet_bind; [done|]. intros y. by apply quiet_bind. Qed.

Lemma gives_bind {A B} (m : IO E A) (f : A → IO E B) d y : quiet m → gives (m ≫= f) d y ↔ ∃ x, gives m d x ∧ gives (f x) d y.
Proof.
  intros Hm%(λ H, quiet_run m d H). unfold gives. rewrite run_io_bind. destruct (run m d) as [[x|e] d1]; simpl in *; subst.
  - split; [by exists x|]. by intros (? & [= <-] & ?).
  - split; [done|]. by intros (? & ? & _).
Qed.
Lemma gives_lift {A} (r : result E A) d x : gives (lift r) d x ↔ r = Ok x.
Proof. unfold gives. simpl. split; [by intros [= ->]|by intros ->]. Qed.
Lemma gives_ret {A} (y : A) d x : gives (mret y : IO E A) d x ↔ y = x.
Proof. unfold gives. simpl. split; [by intros [= ->]|by intros ->]. Qed.
Lemma gives_read (f : IoError → E) p d b : gives (sys f (Read p)) d b ↔ entry d p = Some (File b).
Proof. unfold gives. simpl. destruct (entry d p) as [[]|]; naive_solver. Qed.
Lemma gives_open (f : IoError → E) p d u : gives (sys f (Open p)) d u ↔ entry d p ≠ None.
Proof. unfold gives. simpl. destruct u, (entry d p); naive_solver. Qed.
Lemma gives_stat (f : IoError → E) p d n : gives (sys f (Metadata p)) d (FileStat n) ↔ ∃ b, entry d p = Some (File b) ∧ n = zlen b.
Proof. unfold gives. simpl. destruct (entry d p) as [[|b]|]; naive_solver. Qed.
Lemma gives_check (b : bool) (e : E) d u : gives (lift (if b then Err e else Ok ())) d u ↔ b = false.
Proof. rewrite gives_lift. destruct u, b; naive_solver. Qed.
Lemma gives_ok_or {A} (o : option A) (e : E) d x : gives (lift (ok_or o e)) d x ↔ o = Some x.
Proof. rewrite gives_lift. destruct o; naive_solver. Qed.

End reading.

#[global] Hint Resolve quiet_lift quiet_ret quiet_bind quiet_if quiet_fold quiet_traverse : osmium.
#[global] Hint Extern 1 (quiet (sys _ _)) => apply quiet_sys; reflexivity : osmium.

(** ** Objects *)

Section objects.
Context {J : Json} {SM : Serde SourceManifest} {ZS : Zstd} {SH : Sha256}.

(** The file an object's metadata describes, and its contents. *)
Definition object_file (d : Disk) (root : Path) (m : PageMetadata) (body : list Z) : Prop :=
  ∃ content, entry d (root ++ normal_names (relative_path m)) = Some (File content) ∧ decompress content = Some body ∧
    Hex.hex (sha256 content) = compressed_sha256 m ∧ zlen content = compressed_bytes m.
Definition object_sound (d : Disk) (root : Path) (m : PageMetadata) : Prop :=
  forallb is_normal (components (relative_path m)) = true ∧ ∃ body, object_file d root m body ∧ check_body m body = Ok ().

Lemma quiet_verify_object root m : quiet (verify_object root m).
Proof.
  unfold verify_object. apply quiet_bind; [apply quiet_lift|]. intros _. cbv zeta.
  apply quiet_bind; [auto with osmium|]. intros content. apply quiet_bind; [apply quiet_if; auto with osmium|].
  intros stat. repeat (apply quiet_bind; [auto with osmium|]; intros ?). apply quiet_lift.
Qed.

Lemma verify_object_iff root m d u : gives (verify_object root m) d u ↔ object_sound d root m.
Proof.
  unfold verify_object. rewrite gives_bind by apply quiet_lift. setoid_rewrite gives_check. cbv zeta. unfold object_sound, object_file.
  setoid_rewrite (gives_bind (sys VerifyIo (Read _))); [|auto with osmium].
  split.
  - intros (_ & Hn%negb_false_iff & content & Hc%gives_read & H). split; [done|].
    case_bool_decide as Hsha; [apply gives_bind in H as (? & ? & _); [done|auto with osmium]|].
    apply gives_bind in H as (stat & Hstat & H); [|auto with osmium].
    apply gives_bind in H as (_ & Hlen%gives_check & H); [|auto with osmium]. apply bool_decide_eq_false in Hlen. apply dec_stable in Hlen as ->.
    apply gives_stat in Hstat as (b & Hb & Hlen). rewrite Hc in Hb. injection Hb as <-.
    apply gives_bind in H as (_ & _ & H); [|auto with osmium]. apply gives_bind in H as (frame & Hf%gives_read & H); [|auto with osmium].
    rewrite Hc in Hf. injection Hf as <-. apply gives_bind in H as (body & Hd%gives_ok_or & H%gives_lift); [|auto with osmium]. destruct u.
    exists body. split; [|done]. by exists content.
  - intros (Hn & body & (content & Hc & Hd & Hsha & Hlen) & Hbody). exists (). split; [by rewrite Hn|]. exists content. split; [by apply gives_read|].
    rewrite bool_decide_eq_false_2 by (intros Hne; by apply Hne).
    apply gives_bind; [auto with osmium|]. exists (FileStat (compressed_bytes m)). split; [apply gives_stat; by exists content|].
    apply gives_bind; [auto with osmium|]. exists (). split; [apply gives_check, bool_decide_eq_false_2; intros Hne; by apply Hne|].
    apply gives_bind; [auto with osmium|]. exists (). split; [apply gives_open; congruence|].
    apply gives_bind; [auto with osmium|]. exists content. split; [by apply gives_read|].
    apply gives_bind; [auto with osmium|]. exists body. split; [by apply gives_ok_or|]. apply gives_lift. by destruct u.
Qed.

(** ** Manifests *)

Definition page_in_place (i : Z) (m : PageMetadata) : Prop := kind m = TickPage ∧ ordinal m = i mod (u32_max + 1).
Definition records_total (total : Z) (pages : list PageMetadata) : option Z :=
  foldl (λ total m, t ← total; to_u64 (t + record_count m)) (Some total) pages.

Lemma records_total_None pages : foldl (λ total m, t ← total; to_u64 (t + record_count m)) None pages = None.
Proof. induction pages as [|m pages IH]; [done|]. apply IH. Qed.

Lemma quiet_verify_page root total page : quiet (verify_page root total page).
Proof. destruct page as [i m]. unfold verify_page. apply quiet_bind; [apply quiet_lift|]. intros _. apply quiet_bind; [apply quiet_verify_object|auto with osmium]. Qed.

Lemma verify_page_iff root d total n m t : gives (verify_page root total (n, m)) d t ↔
  page_in_place n m ∧ object_sound d root m ∧ to_u64 (total + record_count m) = Some t.
Proof.
  unfold verify_page, page_in_place. split.
  - intros (_ & [Hk%bool_decide_eq_false Ho%negb_false_iff%Z.eqb_eq]%gives_check%orb_false_iff & H)%gives_bind; [|apply quiet_lift].
    apply gives_bind in H as (u & Hs%verify_object_iff & Ht%gives_ok_or); [|apply quiet_verify_object]. split; [|done]. split; [by apply dec_stable|done].
  - intros ([Hk Ho] & Hs & Ht). apply gives_bind; [apply quiet_lift|]. exists (). rewrite gives_check, Hk, Ho, Z.eqb_refl. split; [done|].
    apply gives_bind; [apply quiet_verify_object|]. exists (). rewrite verify_object_iff. split; [done|]. by apply gives_ok_or.
Qed.

Lemma verify_pages_iff root d n l total t : gives (fold_io (verify_page root) total (zip (seqZ n (zlen l)) l)) d t ↔
  (∀ i m, l !! i = Some m → page_in_place (n + Z.of_nat i) m ∧ object_sound d root m) ∧ records_total total l = Some t.
Proof.
  revert n total. induction l as [|m l IH]; intros n total.
  { unfold zlen. simpl. rewrite gives_ret. unfold records_total. simpl. split; [|naive_solver]. intros ->. split; [|done]. intros i m Hi. by rewrite lookup_nil in Hi. }
  unfold zlen. simpl length. rewrite Nat2Z.inj_succ, seqZ_cons by lia. rewrite Z.pred_succ. fold (zlen l). cbn [zip zip_with fold_io].
  rewrite gives_bind by apply quiet_verify_page. setoid_rewrite verify_page_iff. setoid_rewrite IH.
  change (records_total total (m :: l)) with (foldl (λ total m, t ← total; to_u64 (t + record_count m)) (to_u64 (total + record_count m)) l).
  assert (Hrest : (∀ i m', l !! i = Some m' → page_in_place (Z.succ n + Z.of_nat i) m' ∧ object_sound d root m') ↔
                  ∀ i m', (m :: l) !! S i = Some m' → page_in_place (n + Z.of_nat (S i)) m' ∧ object_sound d root m').
  { split; intros H i m' Hi; specialize (H i m' Hi); by replace (n + Z.of_nat (S i)) with (Z.succ n + Z.of_nat i) in * by lia. }
  split.
  - intros (t1 & (Hm & Hs & Ht) & Hl & Hsum). rewrite Hrest in Hl. split; [|by rewrite Ht].
    intros [|i] m' Hi; [|by apply Hl]. injection Hi as <-. by rewrite Z.add_0_r.
  - intros [Hl Hsum]. destruct (to_u64 (total + record_count m)) as [t1|] eqn:Ht; [|by rewrite records_total_None in Hsum].
    exists t1. destruct (Hl 0%nat m eq_refl) as [Hm Hs]. rewrite Z.add_0_r in Hm. split; [done|]. rewrite Hrest. split; [|done]. intros i m' Hi. by apply Hl.
Qed.

Record manifest_sound (d : Disk) (root : Path) (text : list Z) (m : SourceManifest) : Prop := {
  sound_version : manifest_version m = 1;
  sound_identity : revision_identity m = text;
  sound_terminal : terminal_cursor_reached m = true;
  sound_nonempty : pages m ≠ [];
  sound_pages i p : pages m !! i = Some p → page_in_place (Z.of_nat i) p ∧ object_sound d root p;
  sound_count : records_total 0 (pages m) = Some (tick_record_count m);
  sound_daily_kind : kind (daily_instrument m) = DailyInstrument;
  sound_daily : object_sound d root (daily_instrument m);
  sound_rebuilt : ∃ query rebuilt, Hex.decode_hex_32 true (query_identity m) = Some query ∧
    build query true (pages m) (daily_instrument m) = Ok rebuilt ∧ revision_identity rebuilt = revision_identity m }.

Lemma quiet_verify_manifest root text m : quiet (verify_manifest root text m).
Proof.
  unfold verify_manifest. do 2 (apply quiet_bind; [apply quiet_lift|]; intros _).
  apply quiet_bind; [apply quiet_fold, quiet_verify_page|]. intros n. apply quiet_bind; [apply quiet_lift|]. intros _.
  apply quiet_bind; [apply quiet_verify_object|]. intros _. repeat (apply quiet_bind; [apply quiet_lift|]; intros ?). apply quiet_lift.
Qed.

Lemma verify_manifest_iff root text m d u : gives (verify_manifest root text m) d u ↔ manifest_sound d root text m.
Proof.
  unfold verify_manifest. split.
  - intros (_ & H1%gives_check & H)%gives_bind; [|apply quiet_lift]. apply gives_bind in H as (_ & H2%gives_check & H); [|apply quiet_lift].
    apply gives_bind in H as (t & [Hp Ht]%verify_pages_iff & H); [|apply quiet_fold, quiet_verify_page].
    apply gives_bind in H as (_ & H3%gives_check & H); [|apply quiet_lift]. apply gives_bind in H as (_ & Hd%verify_object_iff & H); [|apply quiet_verify_object].
    apply gives_bind in H as (_ & H4%gives_check & H); [|apply quiet_lift]. apply gives_bind in H as (q & Hq%gives_ok_or & H); [|apply quiet_lift].
    apply gives_bind in H as (rb & Hb%gives_lift & H5%gives_check); [|apply quiet_lift].
    apply orb_false_iff in H1 as [[Hv%negb_false_iff Hi%bool_decide_eq_false]%orb_false_iff Hterm%negb_false_iff].
    apply bool_decide_eq_false in H2, H3, H5. apply negb_false_iff in H4.
    constructor; try done; try (by apply dec_stable); [lia| |].
    + rewrite Ht. f_equal. lia.
    + exists q, rb. split; [done|]. destruct (build q true _ _); simplify_eq/=. split; [done|]. by apply dec_stable.
  - intros [Hv Hi Hterm Hne Hp Hs Hk Hd (q & rb & Hq & Hb & Hr)].
    apply gives_bind; [apply quiet_lift|]. exists (). rewrite gives_check. split.
    { rewrite Hv, Hterm, bool_decide_eq_false_2 by (intros Hn; by apply Hn). done. }
    apply gives_bind; [apply quiet_lift|]. exists (). rewrite gives_check, bool_decide_eq_false_2 by done. split; [done|].
    apply gives_bind; [apply quiet_fold, quiet_verify_page|]. exists (tick_record_count m). split; [by apply verify_pages_iff|].
    apply gives_bind; [apply quiet_lift|]. exists (). rewrite gives_check, bool_decide_eq_false_2 by (intros Hn; by apply Hn). split; [done|].
    apply gives_bind; [apply quiet_verify_object|]. exists (). rewrite verify_object_iff. split; [done|].
    apply gives_bind; [apply quiet_lift|]. exists (). rewrite gives_check, Z.eqb_refl. split; [done|].
    apply gives_bind; [apply quiet_lift|]. exists q. split; [by apply gives_ok_or|].
    apply gives_bind; [apply quiet_lift|]. exists rb. rewrite gives_lift, Hb. split; [done|].
    destruct u. apply gives_check, bool_decide_eq_false_2. intros Hn. by apply Hn.
Qed.

(** ** The current revision *)

(** What a report of the revision under a source root says of the disk. *)
Definition verifies (d : Disk) (root : Path) (rep : VerificationReport) : Prop :=
  ∃ bytes manifest_bytes, let text := trim bytes in
    entry d (root ++ [CURRENT]) = Some (File bytes) ∧ Utf8.valid bytes = true ∧
    Hex.decode_hex_32 true text = Some (revision rep) ∧ revision_root rep = root ++ [REVISIONS; text] ∧
    entry d (revision_root rep ++ [MANIFEST]) = Some (File manifest_bytes) ∧ from_slice manifest_bytes = Some (report_manifest rep) ∧
    manifest_sound d (revision_root rep) text (report_manifest rep).

Lemma quiet_read_to_string p : quiet (read_to_string p).
Proof. apply quiet_bind; auto with osmium. Qed.
Lemma quiet_verify_current r : quiet (verify_current r).
Proof.
  unfold verify_current. apply quiet_bind; [apply quiet_read_to_string|]. intros text. cbv zeta. do 3 (apply quiet_bind; [auto with osmium|]; intros ?).
  apply quiet_bind; [apply quiet_verify_manifest|auto with osmium].
Qed.

Lemma verify_current_iff r d rep : gives (verify_current r) d rep ↔ verifies d (source_root r) rep.
Proof.
  unfold verify_current, verifies. split.
  - intros (text & Ht & H)%gives_bind; [|apply quiet_read_to_string].
    apply gives_bind in Ht as (bytes & Hb%gives_read & Hv%gives_lift); [|auto with osmium]. destruct (Utf8.valid bytes) eqn:Hu; simplify_eq.
    apply gives_bind in H as (rv & Hr%gives_ok_or & H); [|auto with osmium]. apply gives_bind in H as (mb & Hm%gives_read & H); [|auto with osmium].
    apply gives_bind in H as (m & Hs%gives_ok_or & H); [|auto with osmium]. apply gives_bind in H as (u & Hok%verify_manifest_iff & Hret%gives_ret); [|apply quiet_verify_manifest].
    subst rep. exists text, mb. cbv zeta. simpl. done.
  - intros (bytes & mb & Hb & Hu & Hr & Hroot & Hm & Hs & Hok). apply gives_bind; [apply quiet_read_to_string|]. exists bytes. split.
    { apply gives_bind; [auto with osmium|]. exists bytes. split; [by apply gives_read|]. by rewrite gives_lift, Hu. }
    rewrite Hroot in *. apply gives_bind; [auto with osmium|]. exists (revision rep). split; [by apply gives_ok_or|].
    apply gives_bind; [auto with osmium|]. exists mb. split; [by apply gives_read|].
    apply gives_bind; [auto with osmium|]. exists (report_manifest rep). split; [by apply gives_ok_or|].
    apply gives_bind; [apply quiet_verify_manifest|]. exists (). split; [by apply verify_manifest_iff|]. apply gives_ret. rewrite <-Hroot. by destruct rep.
Qed.

End objects.
End VerifyLaws.
