(* ===== verification/StagingLaws.v ===== *)
(** Staging: the names of a revision's files, what the two ways of writing a
    file do however they end, and the invariant of a staged revision. *)
From S2P Require Import Prelude Order Text Identity Codec Event Partition Files Storage Verify VerifyLaws.

Module StorageLaws.
Import Files FilesLaws Storage Verify VerifyLaws.

(** ** Names *)

Lemma rsplit_last b s e : b ∉ e → rsplit b (s ++ b :: e) = Some (s, e).
Proof.
  intros He. assert (Hn : rsplit b e = None).
  { clear s. induction e as [|x e IH]; [done|]. apply not_elem_of_cons in He as [Hx He]. simpl. rewrite IH by done. destruct (Z.eqb_spec x b); [congruence|done]. }
  induction s as [|x s IH]; simpl; [by rewrite Hn, Z.eqb_refl|]. by rewrite IH.
Qed.
Lemma split_on_app b a l : b ∉ a → split_on b (a ++ b :: l) = a :: split_on b l.
Proof.
  induction a as [|x a IH]; intros Ha; simpl; [by rewrite Z.eqb_refl|]. apply not_elem_of_cons in Ha as [Hx Ha].
  rewrite IH by done. destruct (Z.eqb_spec x b); [congruence|done].
Qed.
Lemma split_on_end b a : b ∉ a → split_on b a = [a].
Proof.
  induction a as [|x a IH]; intros Ha; simpl; [done|]. apply not_elem_of_cons in Ha as [Hx Ha].
  rewrite IH by done. destruct (Z.eqb_spec x b); [congruence|done].
Qed.

(** Page ordinals have eight digits: their names sort like them. *)
Definition PAGE_LIMIT : Z := 100000000.
Definition is_page (i : Z) : Prop := 0 ≤ i < PAGE_LIMIT.
Lemma is_page_digits i : is_page i → 0 ≤ i < 10 ^ Z.of_nat 8.
Proof. done. Qed.
Definition page_name (i : Z) (suffix : Name) : Name := fixed_digits 8 i ++ suffix.
Lemma page_name_pad i suffix : is_page i → pad_zero 8 i ++ suffix = page_name i suffix.
Proof. intros Hi. unfold page_name. rewrite pad_zero_fixed; [done|lia|by apply is_page_digits|]. unfold is_page, PAGE_LIMIT, u128_max in *. lia. Qed.
Lemma page_name_inj i j s t : is_page i → is_page j → page_name i s = page_name j t → i = j ∧ s = t.
Proof.
  unfold page_name. intros Hi Hj E. apply app_inj_1 in E as [E ->]; [|by rewrite !length_fixed_digits]. split; [|done].
  rewrite <-(dec_value_fixed 8 i), <-(dec_value_fixed 8 j), E; [done|by apply is_page_digits..].
Qed.
Lemma digit_not i b : ¬ (48 ≤ b ≤ 57) → b ∉ fixed_digits 8 i.
Proof.
  intros Hb Hin. pose proof (fixed_digits_digits 8 i) as Hd. rewrite list.Forall_forall in Hd. specialize (Hd b Hin).
  unfold is_digit_byte, is_ascii_digit, in_range in Hd. lia.
Qed.
Lemma page_names text suffix i : is_page i → 47 ∉ suffix → suffix ≠ [] →
  text = bytes_of "ticks/pages/" ++ pad_zero 8 i ++ suffix →
  components text = Normal <$> (PAGES ++ [page_name i suffix]).
Proof.
  intros Hi Hs Hne ->. rewrite page_name_pad by done.
  assert (Hname : 47 ∉ page_name i suffix) by (unfold page_name; rewrite not_elem_of_app; split; [by apply digit_not; lia|done]).
  unfold components. change (bytes_of "ticks/pages/" ++ page_name i suffix) with (bytes_of "ticks" ++ 47 :: (bytes_of "pages" ++ 47 :: page_name i suffix)).
  rewrite split_on_app by (apply (bool_decide_unpack _); by vm_compute). rewrite split_on_app by (apply (bool_decide_unpack _); by vm_compute). rewrite split_on_end by done.
  assert (Hc : component_of (page_name i suffix) = Some (Normal (page_name i suffix))).
  { unfold component_of, page_name. by repeat (rewrite bool_decide_eq_false_2; [|done]). }
  cbn [omap list_omap]. rewrite Hc. reflexivity.
Qed.
Lemma normal_names_of text p : components text = Normal <$> p → normal_names text = p ∧ forallb is_normal (components text) = true.
Proof. unfold normal_names. intros ->. induction p as [|n p [IH1 IH2]]; [done|]. cbn [fmap list_fmap omap list_omap normal_name forallb is_normal andb] in *. by rewrite IH1, IH2. Qed.

Definition OBJECT : Name := bytes_of ".json.zst".
Definition YAML : Name := bytes_of ".yaml".
Definition page_path (attempt : Path) (i : Z) (suffix : Name) : Path := attempt ++ PAGES ++ [page_name i suffix].
Definition daily_path (attempt : Path) (name : string) : Path := attempt ++ INSTRUMENT ++ [bytes_of name].

Lemma object_names i : is_page i → normal_names (page_object i) = PAGES ++ [page_name i OBJECT] ∧ forallb is_normal (components (page_object i)) = true.
Proof. intros Hi. apply normal_names_of. apply page_names; [done|apply (bool_decide_unpack _); by vm_compute|done|done]. Qed.
Lemma metadata_names i : is_page i → normal_names (page_metadata i) = PAGES ++ [page_name i YAML].
Proof. intros Hi. apply normal_names_of. apply page_names; [done|apply (bool_decide_unpack _); by vm_compute|done|done]. Qed.

Lemma page_path_inj a i j s t : is_page i → is_page j → page_path a i s = page_path a j t → i = j ∧ s = t.
Proof. unfold page_path. intros Hi Hj E. do 2 apply app_inv_head in E. assert (page_name i s = page_name j t) by congruence. by apply page_name_inj. Qed.
Lemma page_not_daily a i s n : page_path a i s ≠ daily_path a n.
Proof. unfold page_path, daily_path. intros E. by apply app_inv_head in E. Qed.

Lemma stem_extension_app s e : 46 ∉ e → s ≠ [] → stem_extension (s ++ 46 :: e) = (s, Some e).
Proof. intros He Hs. unfold stem_extension. rewrite rsplit_last by done. by destruct s. Qed.
Lemma page_path_tmp a i stem e ext : 46 ∉ e → with_extension (page_path a i (stem ++ 46 :: e)) ext = page_path a i (stem ++ 46 :: ext).
Proof.
  intros He. unfold page_path, page_name. rewrite !(app_assoc a), with_extension_snoc, (app_assoc (fixed_digits 8 i)), stem_extension_app by done.
  by rewrite (app_assoc (fixed_digits 8 i)).
Qed.
Lemma snoc_ne (p : Path) n : p ≠ p ++ [n].
Proof. intros E. apply (f_equal length) in E. rewrite length_app in E. simpl in E. lia. Qed.

(** ** The values that can be serialised *)

Definition is_str (l : list Z) : Prop := Utf8.valid l = true.
Lemma ascii_str l : Forall (λ b, 0 ≤ b ≤ 127) l → is_str l.
Proof.
  unfold is_str, Utf8.valid. induction 1 as [|b l Hb _ IH]; [done|]. cbn [Utf8.scan]. unfold Utf8.lead, in_range.
  destruct ((0 <=? b) && (b <=? 127)) eqn:E; [done|lia].
Qed.
Lemma hex_str l : Forall Hex.is_byte l → is_str (Hex.hex l).
Proof.
  intros Hl. apply ascii_str. eapply Forall_impl; [|by apply Hex.hex_bytes]. unfold Hex.is_hex_byte, in_range. simpl. lia.
Qed.

Record metadata_wf (m : PageMetadata) : Prop := {
  wf_ordinal : is_u32 (ordinal m); wf_records : is_u64 (record_count m);
  wf_uncompressed : is_u64 (uncompressed_bytes m); wf_compressed : is_u64 (compressed_bytes m);
  wf_texts : Forall is_str [relative_path m; uncompressed_sha256 m; compressed_sha256 m; zstd_implementation m; zstd_version m; metadata_query_identity m] }.
Record manifest_wf (m : SourceManifest) : Prop := {
  wf_version : 0 ≤ manifest_version m ≤ u16_max; wf_total : is_u64 (tick_record_count m);
  wf_identities : is_str (revision_identity m) ∧ is_str (query_identity m);
  wf_pages : Forall metadata_wf (pages m); wf_daily : metadata_wf (daily_instrument m) }.

(** ** Writing *)

Section writing.
Context {J : Json} {SP : Serde PageMetadata} {SM : Serde SourceManifest} {ZS : Zstd} {SH : Sha256}.

(** A file written in one step: until it is renamed only the temporary file
    changes, afterwards the file holds the bytes. *)
Lemma wp_write_atomic (dir : Path) (n bytes : list Z) (C : Disk → Prop) (Q : () → Disk → Prop) d :
  let path := dir ++ [n] in let tmp := with_extension path (bytes_of "tmp") in tmp ≠ path →
  (∀ d', changes (λ p, p = tmp) d d' → C d') →
  (∀ d', changes (λ p, p = tmp ∨ p = path) d d' → entry d' path = Some (File bytes) → entry d' dir = Some Dir → C d' ∧ Q () d') →
  wp (write_atomic_file path bytes) C Q d.
Proof.
  intros path tmp Hne HC HQ. unfold write_atomic_file. fold tmp. assert (Hpath : path ≠ []) by (unfold path; by destruct dir).
  assert (Ht : ∃ t, tmp = dir ++ [t]) by (eexists; apply with_extension_snoc). destruct Ht as [t Ht].
  assert (Htmp : tmp ≠ []) by (rewrite Ht; by destruct dir). assert (Hpar : parent path = dir) by apply parent_snoc. rewrite Hpar.
  assert (Hd1 : ∀ q r, dir = q ++ r → changes (λ p, p = tmp) d (make_dirs d q)).
  { intros q r Hq. apply (changes_make_dirs _ _ _ tmp); [done|]. exists (r ++ [t]). rewrite Ht, Hq. by rewrite app_assoc. }
  apply wp_do, wp_create_dirs; [intros q r Hq; by eapply HC, Hd1|apply HC, changes_refl|]. intros Hdd. set (d1 := make_dirs d dir) in *. assert (Hd1' : changes (λ p, p = tmp) d d1) by (apply (Hd1 dir []); by rewrite app_nil_r).
  assert (Hins : ∀ c, changes (λ p, p = tmp) d (<[tmp := File c]> d1)) by (intros c; eapply changes_trans; [apply Hd1'|by apply changes_insert]).
  apply wp_do, wp_create_new; [apply HC, Hd1'|]. intros Hnone _. split; [apply HC, Hins|].
  apply wp_do. eapply wp_write; [by apply entry_insert|apply HC, Hins|intros b1 b2 _; rewrite insert_insert_eq; apply HC, Hins|].
  rewrite insert_insert_eq. simpl app. set (d2 := <[tmp := File bytes]> d1).
  apply wp_do, wp_sync; [apply HC, Hins|]. set (d3 := <[path := File bytes]> (delete tmp d2)).
  assert (H3 : C d3 ∧ Q () d3).
  { apply HQ.
    - eapply changes_trans; [eapply changes_mono; [|apply Hins]; by left|]. eapply changes_trans; [apply (changes_delete _ _ tmp); by left|]. apply changes_insert. by right.
    - by apply entry_insert.
    - unfold d3, d2. rewrite entry_insert_ne, entry_delete_ne, entry_insert_ne; [done|rewrite Ht; apply not_eq_sym, snoc_ne..|apply not_eq_sym, snoc_ne]. }
  apply wp_do. eapply wp_rename_file; [by apply entry_insert|done|apply HC, Hins|]. fold d3. split; [apply H3|]. by apply wp_sync; apply H3.
Qed.

(** What [write_compressed_object] says of the object it wrote. *)
Definition written (k : ObjectKind) (i : Z) (rel : list Z) (records : Z) (query body : list Z) : PageMetadata :=
  mk_metadata k i rel records (zlen body) (zlen (compress body)) (Hex.hex (sha256 body)) (Hex.hex (sha256 (compress body))) ZstdPerPageV1
    (bytes_of "zstd") zstd_version_string (Hex.hex query).

Lemma wp_write_object (root dir : Path) (n rel : list Z) k i records query body (C : Disk → Prop) (Q : PageMetadata → Disk → Prop) d :
  let path := dir ++ [n] in let tmp := with_extension path (bytes_of "zst.tmp") in
  root ++ normal_names rel = path → tmp ≠ path →
  (∀ d', changes (λ p, p = tmp) d d' → C d') →
  (∀ d', changes (λ p, p = tmp ∨ p = path) d d' → entry d' path = Some (File (compress body)) → decompress (compress body) = Some body →
    C d' ∧ Q (written k i rel records query body) d') →
  wp (write_compressed_object root rel k i records query body) C Q d.
Proof.
  intros path tmp Hrel Hne HC HQ. unfold write_compressed_object. rewrite Hrel. fold tmp.
  assert (Hpath : path ≠ []) by (unfold path; by destruct dir). assert (Htmp : tmp ≠ []) by (unfold tmp, with_extension; by destruct (parent path)).
  assert (Hins : ∀ c, changes (λ p, p = tmp) d (<[tmp := File c]> d)) by (intros c; by apply changes_insert).
  assert (Hd : C d) by apply HC, changes_refl. apply wp_do, wp_create_new; [done|]. intros _ _. split; [apply HC, Hins|].
  apply wp_do. eapply wp_write; [by apply entry_insert|apply HC, Hins|intros b1 b2 _; rewrite insert_insert_eq; apply HC, Hins|].
  rewrite insert_insert_eq. simpl app. set (d2 := <[tmp := File (compress body)]> d). assert (H2 : C d2) by apply HC, Hins.
  assert (He : entry d2 tmp = Some (File (compress body))) by by apply entry_insert.
  apply wp_do, wp_sync; [done|]. apply wp_do, wp_read; [done|]. rewrite He. intros c [= <-].
  apply wp_do, wp_stat; [done|]. rewrite He. intros st ->. apply wp_do, wp_read; [done|]. rewrite He. intros c [= <-].
  apply wp_do, wp_try; [done|]. destruct (decompress (compress body)) as [decoded|] eqn:Hdec; [|done]. intros _ [= <-].
  apply wp_do, wp_try; [done|]. case_bool_decide as Hb; [done|]. intros _ _. apply wp_do, wp_try; [done|]. intros _ _.
  subst decoded.
  set (d3 := <[path := File (compress body)]> (delete tmp d2)). assert (H3 : C d3 ∧ Q (written k i rel records query body) d3).
  { apply HQ; [|by apply entry_insert|done]. eapply changes_trans; [eapply changes_mono; [|apply Hins]; by left|].
    eapply changes_trans; [apply (changes_delete _ _ tmp); by left|]. apply changes_insert. by right. }
  apply wp_do. eapply wp_rename_file; [done|done|done|]. fold d3. split; [apply H3|].
  apply wp_do, wp_sync; [apply H3|]. by apply wp_done; apply H3.
Qed.

(** ** Objects and pages *)

(** The contents hold as many records as their page says. *)
Definition genuine (k : ObjectKind) (records : Z) (body : list Z) : Prop :=
  ∃ value, from_json body = Some value ∧ actual_records k value = Ok records.

Lemma object_changes W d d' root m body : changes W d d' → ¬ W (root ++ normal_names (relative_path m)) →
  object_file d root m body → object_file d' root m body.
Proof. intros H Hw (c & Hc & Hrest). exists c. split; [|done]. by eapply changes_file. Qed.
Lemma object_sound_changes W d d' root m : changes W d d' → ¬ W (root ++ normal_names (relative_path m)) → object_sound d root m → object_sound d' root m.
Proof. intros H Hw (Hn & body & Hf & Hb). split; [done|]. exists body. split; [|done]. by eapply object_changes. Qed.

Lemma written_sound d root k i rel records query body : forallb is_normal (components rel) = true →
  entry d (root ++ normal_names rel) = Some (File (compress body)) → decompress (compress body) = Some body → genuine k records body →
  object_file d root (written k i rel records query body) body ∧ object_sound d root (written k i rel records query body).
Proof.
  intros Hn He Hd (v & Hv & Hr). assert (Hf : object_file d root (written k i rel records query body) body) by by exists (compress body).
  split; [done|]. split; [done|]. exists body. split; [done|]. unfold check_body. simpl. rewrite Z.eqb_refl, bool_decide_eq_false_2 by (intros Hx; by apply Hx).
  simpl. rewrite Hv. simpl. rewrite Hr. simpl. by rewrite Z.eqb_refl.
Qed.

Record page_sound (d : Disk) (attempt : Path) (i : Z) (m : PageMetadata) : Prop := {
  page_kind : kind m = TickPage;
  page_ordinal_is : ordinal m = i;
  page_path_is : relative_path m = page_object i;
  page_wf : metadata_wf m;
  page_object_sound : object_sound d attempt m }.

Lemma page_sound_changes W d d' a i m : is_page i → changes W d d' → ¬ W (page_path a i OBJECT) → page_sound d a i m → page_sound d' a i m.
Proof.
  intros Hi H Hw [Hk Ho Hp Hwf Hs]. constructor; [done..|]. eapply object_sound_changes; [done| |done].
  rewrite Hp, (proj1 (object_names i Hi)). done.
Qed.

(** What a page left on disk, its metadata file included, promises to a later run. *)
Definition metadata_sound (d : Disk) (attempt : Path) : Prop :=
  ∀ i bytes, is_page i → entry d (page_path attempt i YAML) = Some (File bytes) →
    ∃ m, from_slice bytes = Some m ∧ page_sound d attempt i m.

Definition DAILY_OBJECT : list Z := bytes_of "instrument/daily.json.zst".
Record daily_sound (d : Disk) (attempt : Path) (m : PageMetadata) : Prop := {
  daily_kind : kind m = DailyInstrument;
  daily_path_is : relative_path m = DAILY_OBJECT;
  daily_wf : metadata_wf m;
  daily_object_sound : object_sound d attempt m }.
Record staged (s : StagingRevision) (d : Disk) : Prop := {
  staged_metadata_sound : metadata_sound d (attempt_path s);
  staged_limit : zlen (staged_pages s) ≤ PAGE_LIMIT;
  staged_page_sound i m : staged_pages s !! i = Some m → page_sound d (attempt_path s) (Z.of_nat i) m;
  staged_daily_sound m : staged_daily s = Some m → daily_sound d (attempt_path s) m }.

(** The metadata of a page is the file on disk. *)
Definition recorded (d : Disk) (attempt : Path) (i : Z) (m : PageMetadata) : Prop :=
  ∃ bytes, entry d (page_path attempt i YAML) = Some (File bytes) ∧ from_slice bytes = Some m.

(** The files of one page and of the daily instrument. *)
Definition OBJECT_TMP : Name := bytes_of ".json.zst.tmp".
Definition YAML_TMP : Name := bytes_of ".tmp".
Definition page_file (a : Path) (i : Z) (p : Path) : Prop := ∃ s, s ∈ [OBJECT; OBJECT_TMP; YAML; YAML_TMP] ∧ p = page_path a i s.
Definition daily_file (a : Path) (p : Path) : Prop := ∃ n, p = daily_path a n.

Lemma daily_names : normal_names DAILY_OBJECT = INSTRUMENT ++ [bytes_of "daily.json.zst"] ∧ forallb is_normal (components DAILY_OBJECT) = true.
Proof. split; reflexivity. Qed.

Lemma staged_index s d i m : staged s d → staged_pages s !! i = Some m → is_page (Z.of_nat i).
Proof. intros Hs Hi%lookup_lt_Some. pose proof (staged_limit _ _ Hs). unfold is_page, zlen in *. lia. Qed.

End writing.
End StorageLaws.

(** * StagingLaws

    The invariant of staging: whatever a run of [stage_page] or
    [stage_daily_instrument] is cut short by, the attempt stays sound, and a
    page is acknowledged only once its object and metadata are on disk. *)

Module StagingLaws.
Import Files FilesLaws Storage Verify VerifyLaws StorageLaws.

(** ** Staging *)

Section staging.
Context {J : Json} {SP : Serde PageMetadata} {SM : Serde SourceManifest} {ZS : Zstd} {SH : Sha256}.
Context {SPL : SerdeLaws PageMetadata metadata_wf} {SHL : Sha256Laws}.
Hypothesis Hversion : is_str zstd_version_string.

Definition body_fits (body : list Z) : Prop := zlen body ≤ u64_max ∧ zlen (compress body) ≤ u64_max.
(** A body with the records its page announces, of a size that fits. *)
Record body_ok (k : ObjectKind) (records : Z) (query body : list Z) : Prop := {
  body_genuine : genuine k records body;
  body_records : is_u64 records;
  body_size : body_fits body;
  body_query : Forall Hex.is_byte query }.

Lemma written_wf k i rel records query body : is_u32 i → is_str rel → body_ok k records query body → metadata_wf (written k i rel records query body).
Proof.
  intros Hi Hrel [_ Hr [H1 H2] Hq]. constructor; simpl; [done|done|unfold is_u64, zlen in *; lia..|].
  assert (Hsha : ∀ x, is_str (Hex.hex (sha256 x))) by (intros x; apply hex_str, sha256_digest).
  rewrite !Forall_cons_iff. split_and!; [done|apply Hsha|apply Hsha|reflexivity|exact Hversion|by apply hex_str|constructor].
Qed.
Lemma page_object_str i : is_page i → is_str (page_object i).
Proof.
  intros Hi. apply ascii_str. unfold page_object. rewrite page_name_pad by done. unfold page_name. rewrite !Forall_app. split; [|split].
  - by repeat constructor.
  - eapply Forall_impl; [|apply fixed_digits_digits]. unfold is_digit_byte, is_ascii_digit, in_range. simpl. lia.
  - by repeat constructor.
Qed.

Definition page_body_ok (p : SourcePage) : Prop := body_ok TickPage (page_record_count p) (page_query_identity p) (body p).
(** A page's metadata, wherever it comes from, is about the body given. *)
Definition about (m : PageMetadata) (p : SourcePage) : Prop :=
  record_count m = page_record_count p ∧ uncompressed_bytes m = zlen (body p) ∧ uncompressed_sha256 m = Hex.hex (sha256 (body p)).

(** What a change to the files of page [i] leaves sound. *)
Lemma metadata_sound_changes W d d' a i : is_page i → metadata_sound d a → changes W d d' → (∀ p, W p → page_file a i p ∧ p ≠ page_path a i YAML) →
  entry d (page_path a i YAML) = None → metadata_sound d' a.
Proof.
  intros Hi Hm Hc HW Hn j bytes Hj He. assert (He' : entry d (page_path a j YAML) = Some (File bytes)).
  { eapply changes_file_inv; [exact Hc| |exact He]. intros [(s & _ & Es) Hne]%HW. apply page_path_inj in Es as [-> <-]; [|done..]. by apply Hne. }
  destruct (Hm j bytes Hj He') as (m & Hs & Hp). exists m. split; [done|].
  eapply page_sound_changes; [done|exact Hc| |done]. intros [(s & _ & Es) _]%HW. apply page_path_inj in Es as [-> _]; [|done..]. congruence.
Qed.

Lemma staged_changes W s d d' : staged s d → changes W d d' → (∀ p, W p → page_file (attempt_path s) (zlen (staged_pages s)) p) →
  zlen (staged_pages s) < PAGE_LIMIT → metadata_sound d' (attempt_path s) → staged s d'.
Proof.
  intros [Hm Hl Hp Hd] Hc HW Hlt Hm'. assert (Hi : is_page (zlen (staged_pages s))) by (unfold is_page, zlen in *; lia). constructor; [done|done| |].
  - intros j m Hj. pose proof (lookup_lt_Some _ _ _ Hj) as Hlt'. assert (Hpj : is_page (Z.of_nat j)) by (unfold is_page, zlen in *; lia).
    eapply page_sound_changes; [done|exact Hc| |by apply Hp]. intros (x & _ & Ex)%HW. apply page_path_inj in Ex as [Ej _]; [|done..]. unfold zlen in Ej. lia.
  - intros m Hm1. destruct (Hd m Hm1) as [Hk Hr Hwf Hs]. constructor; [done..|]. eapply object_sound_changes; [exact Hc| |done].
    rewrite Hr, (proj1 daily_names). intros (x & _ & Ex)%HW. by apply (page_not_daily (attempt_path s) (zlen (staged_pages s)) x "daily.json.zst").
Qed.

Lemma staged_push s d m : staged s d → zlen (staged_pages s) < PAGE_LIMIT → page_sound d (attempt_path s) (zlen (staged_pages s)) m →
  staged (push_page s m) d.
Proof.
  intros [Hm Hl Hp Hd] Hlt Hs. constructor; simpl; [done| | |done].
  - unfold zlen in *. rewrite length_app. simpl. lia.
  - intros j m' [Hj|[Hj Hx]]%lookup_app_Some; [by apply Hp|].
    apply list_lookup_singleton_Some in Hx as [Hz <-]. replace (Z.of_nat j) with (zlen (staged_pages s)) by (unfold zlen; lia). done.
Qed.

(** The temporary files of a page. *)
Lemma object_tmp a i : with_extension (page_path a i OBJECT) (bytes_of "zst.tmp") = page_path a i OBJECT_TMP.
Proof. change OBJECT with (bytes_of ".json" ++ 46 :: bytes_of "zst"). rewrite page_path_tmp by (apply (bool_decide_unpack _); by vm_compute). done. Qed.
Lemma yaml_tmp a i : with_extension (page_path a i YAML) (bytes_of "tmp") = page_path a i YAML_TMP.
Proof. change YAML with ([] ++ 46 :: bytes_of "yaml"). rewrite page_path_tmp by (apply (bool_decide_unpack _); by vm_compute). done. Qed.
Lemma page_path_ne a i x y : is_page i → x ≠ y → page_path a i x ≠ page_path a i y.
Proof. intros Hi Hxy E. by apply page_path_inj in E as [_ E]. Qed.
Lemma page_path_other a i j x : is_page i → is_page j → j ≠ i → ¬ page_file a i (page_path a j x).
Proof. intros Hi Hj Hne (y & _ & E). by apply page_path_inj in E as [E _]. Qed.

(** The metadata of a page that now is on disk. *)
Lemma metadata_sound_extend d d' a i m bytes : is_page i → metadata_sound d a → changes (page_file a i) d d' →
  entry d' (page_path a i YAML) = Some (File bytes) → from_slice bytes = Some m → page_sound d' a i m → metadata_sound d' a.
Proof.
  intros Hi Hm Hc He Hs Hp j b Hj Hbj. destruct (decide (j = i)) as [->|Hji]; [rewrite He in Hbj; injection Hbj as <-; by exists m|].
  apply (changes_file_inv _ _ _ _ _ Hc) in Hbj; [|by apply page_path_other].
  destruct (Hm j b Hj Hbj) as (m' & Hm' & Hp'). exists m'. split; [done|]. eapply page_sound_changes; [done|exact Hc|by apply page_path_other|done].
Qed.

Definition page_written (p : SourcePage) (i : Z) : PageMetadata :=
  written TickPage i (page_object i) (page_record_count p) (page_query_identity p) (body p).
Lemma page_written_wf p i : is_page i → page_body_ok p → metadata_wf (page_written p i).
Proof. intros Hi Hok. apply written_wf; [unfold is_page, PAGE_LIMIT, is_u32, u32_max in *; lia|by apply page_object_str|done]. Qed.
Lemma page_written_sound d a p i : is_page i → page_body_ok p → entry d (page_path a i OBJECT) = Some (File (compress (body p))) →
  decompress (compress (body p)) = Some (body p) → page_sound d a i (page_written p i).
Proof.
  intros Hi Hok He Hd. constructor; [done..|by apply page_written_wf|]. apply written_sound; [by apply object_names| |done|apply Hok].
  by rewrite (proj1 (object_names i Hi)).
Qed.

(** A page that is not on disk yet: its object is written, then its metadata. *)
Definition write_page (a : Path) (i : Z) (p : SourcePage) : IO StagingError PageMetadata :=
  m ← write_compressed_object a (page_object i) TickPage i (page_record_count p) (page_query_identity p) (body p);
  bytes ← lift (ok_or (to_vec_pretty m) ManifestError);
  _ ← write_atomic_file (page_path a i YAML) bytes;
  mret m.

Lemma wp_write_page s d p : let a := attempt_path s in let i := zlen (staged_pages s) in
  staged s d → i < PAGE_LIMIT → page_body_ok p → entry d (page_path a i YAML) = None →
  wp (write_page a i p) (λ d', staged s d' ∧ changes (page_file a i) d d')
    (λ m d', m = page_written p i ∧ staged (push_page s m) d' ∧ recorded d' a i m) d.
Proof.
  intros a i Hs Hlt Hok Hnone. assert (Hi : is_page i) by (unfold i, is_page, zlen in *; lia). set (C := λ d', staged s d' ∧ changes (page_file a i) d d').
  assert (Hstep : ∀ W d1, changes W d d1 → (∀ q, W q → page_file a i q ∧ q ≠ page_path a i YAML) → C d1).
  { intros W d1 Hc HW. split; [|eapply changes_mono; [|exact Hc]; by apply HW].
    eapply staged_changes; [done|exact Hc|by apply HW|done|]. apply (metadata_sound_changes W d d1 a i); [done|apply Hs|done|done|done]. }
  assert (Hfile : ∀ x, x ∈ [OBJECT; OBJECT_TMP; YAML_TMP] → page_file a i (page_path a i x) ∧ page_path a i x ≠ page_path a i YAML).
  { intros x Hx. split; [exists x; split; [set_solver|done]|apply page_path_ne; [done|]]. revert Hx. rewrite !elem_of_cons. by intros [->|[->|[->|[]%not_elem_of_nil]]]. }
  assert (Hobj : page_path a i OBJECT = (a ++ PAGES) ++ [page_name i OBJECT]) by (unfold page_path; by rewrite app_assoc).
  assert (Hyaml : page_path a i YAML = (a ++ PAGES) ++ [page_name i YAML]) by (unfold page_path; by rewrite app_assoc).
  apply wp_do, (wp_write_object _ (a ++ PAGES) (page_name i OBJECT)); rewrite <-?Hobj, ?object_tmp.
  { rewrite (proj1 (object_names i Hi)). done. } { by apply page_path_ne. }
  { intros d1 Hc. eapply Hstep; [exact Hc|]. intros q ->. apply Hfile. set_solver. }
  intros d1 Hc1 He1 Hdec. assert (HC1 : C d1) by (eapply Hstep; [exact Hc1|]; intros q [->| ->]; apply Hfile; set_solver). split; [done|].
  apply wp_do, wp_try; [done|]. intros bytes Hbytes. fold (page_written p i) in *. set (m := page_written p i) in *.
  assert (Hround : from_slice bytes = Some m) by (apply (serde_round_trip m); [by apply page_written_wf|]; by destruct (to_vec_pretty m); simplify_eq/=).
  apply wp_do. rewrite Hyaml. apply wp_write_atomic; rewrite <-Hyaml, ?yaml_tmp; [by apply page_path_ne| |].
  - intros d2 Hc2. eapply (Hstep (λ q, q = page_path a i OBJECT_TMP ∨ q = page_path a i OBJECT ∨ q = page_path a i YAML_TMP)).
    + eapply changes_trans; eapply changes_mono; [|exact Hc1| |exact Hc2]; naive_solver.
    + intros q [->|[->| ->]]; apply Hfile; set_solver.
  - intros d2 Hc2 He2 _. assert (Hall : changes (page_file a i) d d2).
    { eapply changes_trans; [apply HC1|]. eapply changes_mono; [|exact Hc2]. intros q [->| ->]; eexists; (split; [|done]); set_solver. }
    assert (Hp : page_sound d2 a i m).
    { apply page_written_sound; [done|done| |done]. eapply changes_file; [exact Hc2| |exact He1]. intros [E|E]; revert E; by apply page_path_ne. }
    assert (Hst : staged s d2) by (eapply staged_changes; [done|exact Hall|done|done|]; eapply metadata_sound_extend; [done|apply Hs|done..]).
    split; [by split|]. apply wp_done; [by split|]. split; [done|]. split; [by apply staged_push|]. by exists bytes.
Qed.

(** Staging the next page: however it ends only the files of that page have
    changed and the staged revision is sound; when it returns, the page is
    durable, staged under the receipt of its body. *)
Lemma wp_stage_object s d p : staged s d → zlen (staged_pages s) < PAGE_LIMIT → page_body_ok p →
  let a := attempt_path s in let i := zlen (staged_pages s) in
  wp (stage_object a i p) (λ d', staged s d' ∧ changes (page_file a i) d d' ∧ (entry d (page_path a i YAML) ≠ None → d' = d))
    (λ m d', page_ordinal p = i ∧ staged (push_page s m) d' ∧ about m p ∧ recorded d' a i m) d.
Proof.
  intros Hs Hlt Hok a i. assert (Hi : is_page i) by (unfold i, is_page, zlen in *; lia).
  set (C := λ d', _ ∧ _). assert (HC : C d) by (split; [done|split; [apply changes_refl|done]]). unfold stage_object.
  apply wp_do, wp_try; [done|]. intros u Hord.
  assert (Ho : page_ordinal p = i).
  { destruct (page_ordinal p =? _) eqn:E in Hord; [|done]. apply Z.eqb_eq in E. rewrite E. apply Z.mod_small. unfold i, is_page, PAGE_LIMIT, u32_max in *. lia. }
  clear Hord. rewrite Ho, (metadata_names i Hi). change (a ++ PAGES ++ [page_name i YAML]) with (page_path a i YAML).
  apply wp_do, wp_exists; [done|]. destruct (bool_decide (is_Some (entry d (page_path a i YAML)))) eqn:Hex.
  - (* left by an interrupted run *)
    unfold read_metadata at 1. apply wp_do, wp_do, wp_read; [done|]. intros bytes Hb. apply wp_try; [done|].
    intros m Hm. destruct (staged_metadata_sound _ _ Hs i bytes Hi Hb) as (m' & Hm' & Hp). rewrite Hm' in Hm. injection Hm as <-.
    destruct (_ || _) eqn:Hne; [by apply wp_try|]. apply orb_false_iff in Hne as [[H1%negb_false_iff H2%negb_false_iff]%orb_false_iff H3].
    apply wp_done; [done|]. split; [done|]. split; [by apply staged_push|].
    split; [|by exists bytes]. apply bool_decide_eq_false in H3. apply dec_stable in H3. unfold about. split; [lia|]. by split; [lia|].
  - apply bool_decide_eq_false in Hex. assert (Hnone : entry d (page_path a i YAML) = None) by by apply eq_None_not_Some.
    assert (HC' : ∀ d', staged s d' ∧ changes (page_file a i) d d' → C d') by (intros d' [? ?]; split; [done|]; split; [done|]; by rewrite Hnone).
    eapply wp_conseq; [by apply (wp_write_page s d p)|apply HC'|]. intros m d' Hd' (-> & Hst & Hf). done.
Qed.
Lemma wp_stage_page s d p : staged s d → zlen (staged_pages s) < PAGE_LIMIT → page_body_ok p →
  let a := attempt_path s in let i := zlen (staged_pages s) in
  wp (stage_page s p) (λ d', staged s d' ∧ changes (page_file a i) d d' ∧ (entry d (page_path a i YAML) ≠ None → d' = d))
    (λ r d', let '(sp, s') := r in page_ordinal p = i ∧ s' = push_page s (staged_metadata sp) ∧ staged s' d' ∧ receipt sp = commit_receipt p ∧
       about (staged_metadata sp) p ∧ recorded d' a i (staged_metadata sp)) d.
Proof.
  intros Hs Hlt Hok a i. unfold stage_page. apply wp_do. eapply wp_conseq; [by apply wp_stage_object|done|]. intros m d' HC (Ho & Hp & Ha & Hr).
  apply wp_done; [done|]. done.
Qed.

End staging.
End StagingLaws.

(** * ResumeLaws

    The rest of a staged revision's life before publication: the daily
    instrument, the creation of an attempt and its resumption, which finds
    exactly the committed pages. *)

Module ResumeLaws.
Import Files FilesLaws Storage Verify VerifyLaws StorageLaws StagingLaws.

Definition forget_daily (s : StagingRevision) : StagingRevision := mk_staging (publish_root s) (attempt_path s) (staged_pages s) None.

Section resume.
Context {J : Json} {SP : Serde PageMetadata} {SM : Serde SourceManifest} {ZS : Zstd} {SH : Sha256} {SHL : Sha256Laws}.

Lemma staged_forget s d : staged s d → staged (forget_daily s) d.
Proof. intros [H1 H2 H3 _]. by constructor. Qed.

(** Changes away from the pages leave them sound. *)
Lemma staged_elsewhere W s d d' : staged s d → changes W d d' → (∀ i x, ¬ W (page_path (attempt_path s) i x)) → staged (forget_daily s) d'.
Proof.
  intros [Hm Hl Hp Hd] Hc HW. constructor; simpl; [|done| |done].
  - intros j b Hj Hb. apply (changes_file_inv _ _ _ _ _ Hc) in Hb; [|by apply HW].
    destruct (Hm j b Hj Hb) as (m & Hs & Hpm). exists m. split; [done|]. eapply page_sound_changes; [done|exact Hc|apply HW|done].
  - intros j m Hj. eapply page_sound_changes; [|exact Hc|apply HW|by apply Hp]. apply lookup_lt_Some in Hj. unfold is_page, zlen in *. lia.
Qed.

(** ** The daily instrument *)

Lemma wp_stage_daily s d query body : is_str zstd_version_string → staged s d → body_fits body → Forall Hex.is_byte query → let a := attempt_path s in
  wp (stage_daily_instrument s query body) (λ d', staged (forget_daily s) d' ∧ changes (daily_file a) d d')
    (λ r d', let m := written DailyInstrument 0 DAILY_OBJECT 1 query body in
       r = (m, mk_staging (publish_root s) a (staged_pages s) (Some m)) ∧ staged r.2 d') d.
Proof.
  intros Hver Hs Hfits Hquery a. set (C := λ d', _ ∧ _). unfold stage_daily_instrument.
  assert (Hstep : ∀ d1, changes (daily_file a) d d1 → C d1).
  { intros d1 Hc. split; [|done]. eapply staged_elsewhere; [done|exact Hc|]. intros i x [n E]. by apply page_not_daily in E. }
  assert (HC : C d) by apply Hstep, changes_refl. apply wp_do, wp_try; [done|]. intros v Hv.
  assert (Hobj : daily_path a "daily.json.zst" = (a ++ INSTRUMENT) ++ [bytes_of "daily.json.zst"]) by (unfold daily_path; by rewrite app_assoc).
  assert (Hyaml : a ++ DAILY_METADATA = (a ++ INSTRUMENT) ++ [bytes_of "daily.yaml"]) by (unfold DAILY_METADATA; by rewrite app_assoc).
  assert (Hin : ∀ n e, ∃ x, with_extension ((a ++ INSTRUMENT) ++ [n]) e = (a ++ INSTRUMENT) ++ [x] ∧ x = (stem_extension n).1 ++ 46 :: e).
  { intros n e. eexists. split; [|done]. apply with_extension_snoc. }
  assert (Hne : ∀ x y : Name, x ≠ y → (a ++ INSTRUMENT) ++ [x] ≠ (a ++ INSTRUMENT) ++ [y]) by (intros x y Hxy E; apply app_inv_head in E; congruence).
  destruct (Hin (bytes_of "daily.json.zst") (bytes_of "zst.tmp")) as (t1 & Ht1 & E1). destruct (Hin (bytes_of "daily.yaml") (bytes_of "tmp")) as (t2 & Ht2 & E2).
  assert (Hdaily : ∀ x : string, daily_file a ((a ++ INSTRUMENT) ++ [bytes_of x])) by (intros x; exists x; unfold daily_path; by rewrite app_assoc).
  assert (D1 : daily_file a ((a ++ INSTRUMENT) ++ [t1])) by (rewrite E1; apply (Hdaily "daily.json.zst.tmp"%string)).
  assert (D2 : daily_file a ((a ++ INSTRUMENT) ++ [t2])) by (rewrite E2; apply (Hdaily "daily.tmp"%string)).
  assert (N1 : t1 ≠ bytes_of "daily.json.zst") by (by rewrite E1). assert (N2 : t2 ≠ bytes_of "daily.yaml") by (by rewrite E2).
  apply wp_do, (wp_write_object _ (a ++ INSTRUMENT) (bytes_of "daily.json.zst")); rewrite ?Ht1; [by rewrite <-Hobj|by apply Hne| |].
  { intros d1 Hc. apply Hstep. eapply changes_mono; [|exact Hc]. by intros q ->. }
  intros d1 Hc1 He1 Hdec. assert (Hall : changes (daily_file a) d d1) by (eapply changes_mono; [|exact Hc1]; by intros q [->| ->]; [|apply Hdaily]).
  split; [by apply Hstep|]. apply wp_do, wp_try; [by apply Hstep|]. intros bytes _. apply wp_do. change (attempt_path s) with a. rewrite Hyaml.
  apply wp_write_atomic; rewrite Ht2; [by apply Hne| |].
  { intros d2 Hc. apply Hstep. eapply changes_trans; [exact Hall|]. eapply changes_mono; [|exact Hc]. by intros q ->. }
  intros d2 Hc2 _ _. assert (Hall2 : changes (daily_file a) d d2).
  { eapply changes_trans; [exact Hall|]. eapply changes_mono; [|exact Hc2]. by intros q [->| ->]; [|apply Hdaily]. }
  split; [by apply Hstep|]. apply wp_done; [by apply Hstep|]. split; [done|]. destruct (Hstep _ Hall2) as [[H1 H2 H3 _] _].
  assert (Hgen : genuine DailyInstrument 1 body) by (destruct (from_json body) as [v'|] eqn:Ev; simplify_eq/=; by exists v).
  constructor; [done|done|done|]. cbn [staged_daily snd]. intros m Em. apply (inj Some) in Em. change (written DailyInstrument 0 DAILY_OBJECT 1 query body = m) in Em. subst m.
  constructor; [done|done|by apply written_wf; [done|by split|done|constructor]|]. apply written_sound; [apply daily_names| |done|done].
  change (entry d2 (daily_path a "daily.json.zst") = Some (File (compress body))). rewrite Hobj. eapply changes_file; [exact Hc2| |exact He1].
  intros [E|E]; revert E; apply Hne; [by rewrite E2|done].
Qed.

(** ** Creation *)

Lemma wp_create root a d : metadata_sound d a → let W p := p = a ++ PAGES ∨ p = a ++ INSTRUMENT in
  wp (create_at_root root a) (λ d', changes W d d' ∧ metadata_sound d' a) (λ s d', s = mk_staging root a [] None ∧ staged s d') d.
Proof.
  intros Hm W. set (C := λ d', _ ∧ _). set (s0 := mk_staging root a [] None).
  assert (Hs : staged s0 d) by (by constructor). assert (HW : ∀ i x, ¬ W (page_path a i x)).
  { intros i x [E|E]; unfold page_path in E; apply app_inv_head in E; done. }
  assert (Hstep : ∀ d1, changes W d d1 → C d1 ∧ staged s0 d1).
  { intros d1 Hc. pose proof (staged_elsewhere W _ _ _ Hs Hc HW) as Hs1. split; [|done]. split; [done|]. apply Hs1. }
  assert (Hp : ∀ d1 x q r, changes W d d1 → W (a ++ x) → a ++ x = q ++ r → changes W d (make_dirs d1 q)).
  { intros d1 x q r Hc Hw Hq. eapply changes_trans; [exact Hc|]. apply (changes_make_dirs _ _ _ (a ++ x)); [done|]. by exists r. }
  pose proof (changes_refl W d) as H0. unfold create_at_root.
  apply wp_do, wp_create_dirs; [intros q r Hq; eapply Hstep, Hp; [done| |exact Hq]; by left|by apply Hstep|]. intros _.
  assert (H1 : changes W d (make_dirs d (a ++ PAGES))) by (eapply (Hp d PAGES _ []); [done|by left|by rewrite app_nil_r]).
  apply wp_do, wp_create_dirs; [intros q r Hq; eapply Hstep, Hp; [exact H1| |exact Hq]; by right|by apply Hstep|]. intros _.
  assert (H2 : changes W d (make_dirs (make_dirs d (a ++ PAGES)) (a ++ INSTRUMENT))) by (eapply (Hp _ INSTRUMENT _ []); [done|by right|by rewrite app_nil_r]).
  apply wp_done; [by apply Hstep|]. split; [done|]. by apply Hstep.
Qed.

(** ** Resumption *)

(** The first [k] pages of an attempt are durable; there may be metadata of
    further pages, of a run that was interrupted. *)
Record committed (d : Disk) (a : Path) (k : Z) : Prop := {
  committed_sound : metadata_sound d a;
  committed_bound : 0 ≤ k ≤ PAGE_LIMIT;
  committed_there i : 0 ≤ i < k → entry d (page_path a i YAML) ≠ None;
  committed_only n : extension n = Some (bytes_of "yaml") → entry d (a ++ PAGES ++ [n]) ≠ None → ∃ i, is_page i ∧ n = page_name i YAML }.

Lemma page_extension_of i stem e : 46 ∉ e → extension (page_name i (stem ++ 46 :: e)) = Some e.
Proof. intros He. unfold extension, page_name. rewrite (app_assoc (fixed_digits 8 i)), stem_extension_app; done. Qed.
Lemma page_extension i : extension (page_name i YAML) = Some (bytes_of "yaml").
Proof. apply (page_extension_of i []). apply (bool_decide_unpack _). by vm_compute. Qed.
(** Among the files of a page only the metadata has the extension of metadata. *)
Lemma page_file_yaml i n x : x ∈ [OBJECT; OBJECT_TMP; YAML; YAML_TMP] → extension n = Some (bytes_of "yaml") → n = page_name i x → n = page_name i YAML.
Proof.
  intros Hx Hn ->. assert (Hno : ∀ stem e, bool_decide (46 ∉ e) = true → e ≠ bytes_of "yaml" → x = stem ++ 46 :: e → page_name i x = page_name i YAML).
  { intros stem e He%bool_decide_eq_true Hne ->. rewrite page_extension_of in Hn by done. congruence. }
  revert Hx. rewrite !elem_of_cons. intros [->|[->|[->|[->|[]%not_elem_of_nil]]]]; [| |done|].
  - by apply (Hno (bytes_of ".json") (bytes_of "zst")).
  - by apply (Hno (bytes_of ".json.zst") (bytes_of "tmp")).
  - by apply (Hno [] (bytes_of "tmp")).
Qed.

Lemma fixed_digits_lt w i j s : i mod 10 ^ Z.of_nat w < j mod 10 ^ Z.of_nat w → ord_lt (fixed_digits w i ++ s) (fixed_digits w j ++ s).
Proof.
  unfold ord_lt. induction w as [|w IH]; intros Hij; [rewrite !Z.mod_1_r in Hij; lia|].
  cbn [fixed_digits]. rewrite <-!app_comm_cons, cmp_cons. rewrite Nat2Z.inj_succ, Z.pow_succ_r, (Z.mul_comm 10) in Hij by lia.
  rewrite !(Z.rem_mul_r _ (10 ^ Z.of_nat w)) in Hij by lia. set (p := 10 ^ Z.of_nat w) in *.
  pose proof (Z.mod_pos_bound i p ltac:(lia)). pose proof (Z.mod_pos_bound j p ltac:(lia)).
  unfold then_with. change (cmp (A:=Z)) with Z.compare. destruct (Z.compare_spec ((i / p) mod 10 + 48) ((j / p) mod 10 + 48)); [apply IH; nia|done|exfalso; nia].
Qed.
Lemma page_name_lt i j s : is_page i → is_page j → i < j → ord_lt (page_name i s) (page_name j s).
Proof.
  intros Hi Hj Hij. apply fixed_digits_lt. change (10 ^ Z.of_nat 8) with PAGE_LIMIT. unfold is_page in *. by rewrite !Z.mod_small.
Qed.

Lemma page_names_sorted k : 0 ≤ k ≤ PAGE_LIMIT → StronglySorted (key_lt id) ((λ i, page_name i YAML) <$> seqZ 0 k).
Proof.
  intros Hk. unfold seqZ. assert (Hl : ∀ i, i ∈ seq 0 (Z.to_nat k) → is_page (Z.of_nat i + 0)).
  { intros i Hi%elem_of_seq. unfold is_page. lia. }
  revert Hl. generalize 0%nat as b, (Z.to_nat k) as n. intros b n. revert b. induction n as [|n IH]; intros b Hl; [constructor|].
  cbn [seq fmap list_fmap]. constructor; [apply IH; intros i Hi; apply Hl; by right|]. apply list.Forall_forall. intros x (z & -> & (c & -> & Hc)%list_elem_of_fmap)%list_elem_of_fmap.
  apply page_name_lt; [apply Hl; by left|apply Hl; by right|]. apply elem_of_seq in Hc. lia.
Qed.
Lemma sorted_lt_le (l : list Name) : StronglySorted (key_lt id) l → StronglySorted (key_le id) l.
Proof.
  induction 1 as [|x l _ IH Hx]; constructor; [done|]. eapply Forall_impl; [|exact Hx]. intros y Hy. unfold key_le. apply ord_le_lt_eq. by left.
Qed.
Lemma sorted_append (l k : list Name) : StronglySorted (key_le id) l → StronglySorted (key_le id) k → (∀ x y, x ∈ l → y ∈ k → key_le id x y) →
  StronglySorted (key_le id) (l ++ k).
Proof.
  induction 1 as [|x l _ IH Hx]; intros Hk Hlk; [done|]. simpl. constructor; [apply IH; [done|]; intros; apply Hlk; [by right|done]|].
  apply Forall_app. split; [done|]. apply list.Forall_forall. intros y Hy. apply Hlk; [by left|done].
Qed.

(** In the order of their names the metadata files are in page order. *)
Lemma metadata_order d a k : committed d a k → ∃ rest,
  sort_on id (filter (λ n, extension n = Some (bytes_of "yaml")) (names d (a ++ PAGES))) = ((λ i, page_name i YAML) <$> seqZ 0 k) ++ rest ∧
  Forall (λ n, ∃ i, is_page i ∧ n = page_name i YAML) rest.
Proof.
  intros [_ Hk Ht Ho]. set (target := (λ i, page_name i YAML) <$> seqZ 0 k). set (yaml := filter _ _). set (rest := filter (λ n, n ∉ target) yaml).
  assert (Hbound : ∀ i, i ∈ seqZ 0 k → is_page i) by (intros i Hi%elem_of_seqZ; unfold is_page; lia).
  assert (Hrest : ∀ n, n ∈ rest → ∃ j, is_page j ∧ n = page_name j YAML ∧ k ≤ j).
  { intros n (Hn & [He Hx]%list_elem_of_filter)%list_elem_of_filter. rewrite elem_of_names, <-app_assoc in Hx. destruct (Ho n He Hx) as (j & Hj & ->). exists j.
    split; [done|]. split; [done|]. destruct (decide (k ≤ j)) as [|Hlt]; [done|]. exfalso. apply Hn, list_elem_of_fmap. exists j. split; [done|]. apply elem_of_seqZ. unfold is_page in Hj. lia. }
  exists (sort_on id rest). split.
  - apply (sorted_perm_unique id); [done|apply sort_on_sorted| |].
    + apply sorted_append; [apply sorted_lt_le; by apply page_names_sorted|apply sort_on_sorted|]. intros x y (i & -> & Hi)%list_elem_of_fmap (j & Hj & -> & Hkj)%elem_of_sort_on%Hrest.
      unfold key_le. apply ord_le_lt_eq. left. apply page_name_lt; [by apply Hbound|done|]. apply elem_of_seqZ in Hi. lia.
    + rewrite !sort_on_perm. assert (Hnd : NoDup yaml) by apply list.NoDup_filter, NoDup_names. apply NoDup_Permutation; [done| |].
      * apply list.NoDup_app. split; [|split; [|by apply list.NoDup_filter]].
        -- pose proof (page_names_sorted k Hk) as Hs. apply (repeats_key_false id) in Hs; [|by apply sorted_lt_le, page_names_sorted].
           apply sorted_repeats_NoDup in Hs; [|by apply sorted_lt_le, page_names_sorted]. by rewrite list_fmap_id in Hs.
        -- intros n Hn [Hx _]%list_elem_of_filter. done.
      * intros n. rewrite elem_of_app. split.
        -- intros Hn. destruct (decide (n ∈ target)); [by left|right]. by apply list_elem_of_filter.
        -- intros [(i & -> & Hi)%list_elem_of_fmap|[_ Hn]%list_elem_of_filter]; [|done]. apply list_elem_of_filter. split; [apply page_extension|].
           rewrite elem_of_names, <-app_assoc. apply Ht. apply elem_of_seqZ in Hi. lia.
  - apply list.Forall_forall. intros n (j & Hj & Hn & _)%elem_of_sort_on%Hrest. by exists j.
Qed.

(** An attempt resumes with exactly the pages its checkpoint has committed. *)
Lemma wp_resume root a d k c : committed d a k → 0 ≤ c ≤ k →
  wp (resume_at root a c) (λ d', d' = d) (λ s d', d' = d ∧ publish_root s = root ∧ attempt_path s = a ∧ zlen (staged_pages s) = c ∧
    staged (forget_daily s) d ∧ ∀ i m, staged_pages s !! i = Some m → recorded d a (Z.of_nat i) m) d.
Proof.
  intros Hc Hck. unfold resume_at. apply wp_do, wp_read_dir; [done|]. cbv zeta. destruct (metadata_order _ _ _ Hc) as (rest & -> & Hrest).
  pose proof (committed_bound _ _ _ Hc) as Hk. assert (Hkp : ∀ i, i ∈ seqZ 0 k → is_page i) by (intros i Hi%elem_of_seqZ; unfold is_page; lia).
  apply wp_do. eapply (wp_conseq _ (λ d', d' = d)); [apply (wp_traverse_read _ (λ n m, ∀ i, is_page i → n = page_name i YAML → recorded d a i m ∧ page_sound d a i m)); [done|]|done|].
  - intros n Hn. assert (Hp : ∃ i, is_page i ∧ n = page_name i YAML).
    { apply elem_of_app in Hn as [(i & -> & Hi)%list_elem_of_fmap|Hn]; [exists i; split; [by apply Hkp|done]|]. by apply (proj1 (list.Forall_forall _ _) Hrest). }
    destruct Hp as (i & Hp & ->). unfold read_metadata. apply wp_do, wp_read; [done|]. intros bytes Hb. apply wp_try; [done|]. intros m Hm. split; [done|].
    intros i' Hi' Heq. apply page_name_inj in Heq as [<- _]; [|done..]. destruct (committed_sound _ _ _ Hc i bytes Hp Hb) as (m' & Hm' & Hs).
    rewrite Hm' in Hm. injection Hm as <-. split; [by exists bytes|done].
  - intros ms d1 _ [-> Hall]. apply wp_do, wp_try; [done|]. intros u _. apply wp_do, wp_exists; [done|]. set (s := λ dm, mk_staging root a (take (Z.to_nat c) ms) dm).
    assert (Hlen : k ≤ zlen ms). { apply Forall2_length in Hall. rewrite length_app, length_fmap, length_seqZ in Hall. unfold zlen. lia. }
    assert (Hpage : ∀ i m, take (Z.to_nat c) ms !! i = Some m → recorded d a (Z.of_nat i) m ∧ page_sound d a (Z.of_nat i) m).
    { intros i m Hi. assert (Hlt : (i < Z.to_nat c)%nat) by (apply lookup_lt_Some in Hi; rewrite length_take in Hi; lia). rewrite lookup_take_lt in Hi by lia.
      destruct (Forall2_lookup_r _ _ _ _ _ Hall Hi) as (n & Hn & HP). rewrite lookup_app_l in Hn by (rewrite length_fmap, length_seqZ; lia).
      apply list_lookup_fmap_Some in Hn as (z & Hz & [-> Hq]%lookup_seqZ). apply HP; [unfold is_page; lia|by rewrite Hz]. }
    assert (Hs : ∀ dm, zlen (staged_pages (s dm)) = c ∧ staged (forget_daily (s dm)) d).
    { intros dm. assert (Hl : length (take (Z.to_nat c) ms) = Z.to_nat c) by (rewrite length_take; unfold zlen in *; lia).
      split; [simpl; unfold zlen; lia|]. constructor; simpl; [apply Hc|unfold zlen in *; lia|by apply Hpage|done]. }
    destruct (bool_decide _).
    + apply wp_do. unfold read_metadata. apply wp_do, wp_do, wp_read; [done|]. intros b _. apply wp_try; [done|]. intros m _. apply wp_done; [done|].
      apply wp_done; [done|]. destruct (Hs (Some m)). split_and!; try done. by apply Hpage.
    + apply wp_do, wp_done; [done|]. apply wp_done; [done|]. destruct (Hs None). split_and!; try done. by apply Hpage.
Qed.

(** A run of [stage_page], however it ends, keeps the pages committed before
    and, when it returns, has committed one more. *)
Lemma page_change_names d d' a i n : changes (page_file a i) d d' → extension n = Some (bytes_of "yaml") → n ≠ page_name i YAML →
  entry d' (a ++ PAGES ++ [n]) = entry d (a ++ PAGES ++ [n]).
Proof.
  intros Hch Hn Hne. destruct (Hch (a ++ PAGES ++ [n])) as [E|(_ & _ & q & (x & Hx & ->) & r & E)]; [|done|exfalso].
  - intros (x & Hx & E). apply (page_file_yaml i n x Hx) in Hn; [done|]. unfold page_path in E. do 2 apply app_inv_head in E. congruence.
  - unfold page_path in E. rewrite <-!app_assoc in E. do 2 apply app_inv_head in E. injection E as E _. by apply (page_file_yaml i n x Hx) in Hn.
Qed.
Lemma committed_step d d' a k i : committed d a k → 0 ≤ i ≤ k → is_page i → metadata_sound d' a → changes (page_file a i) d d' →
  (entry d (page_path a i YAML) ≠ None → d' = d) → ∃ k', k ≤ k' ∧ committed d' a k' ∧ (entry d' (page_path a i YAML) ≠ None → i < k').
Proof.
  intros Hc Hik Hi Hm Hch Hsame. destruct (decide (entry d (page_path a i YAML) = None)) as [Hnone|Hsome].
  - assert (Hki : k = i).
    { destruct (decide (k = i)) as [|Hne]; [done|]. exfalso. by apply (committed_there _ _ _ Hc i ltac:(lia)). }
    assert (Hkeep : ∀ j, 0 ≤ j < k → entry d' (page_path a j YAML) ≠ None).
    { intros j Hj. assert (is_page j) by (unfold is_page in *; lia). pose proof (committed_there _ _ _ Hc j Hj) as Ht. unfold page_path in *.
      rewrite (page_change_names d d' a i); [done|done|apply page_extension|]. intros E. apply page_name_inj in E as [E _]; [lia|done|done]. }
    assert (Honly : ∀ n, extension n = Some (bytes_of "yaml") → entry d' (a ++ PAGES ++ [n]) ≠ None → ∃ j, is_page j ∧ n = page_name j YAML).
    { intros n Hn He. destruct (decide (n = page_name i YAML)) as [->|Hne]; [by exists i|]. rewrite (page_change_names d d' a i n Hch Hn Hne) in He.
      by apply (committed_only _ _ _ Hc). }
    destruct (decide (entry d' (page_path a i YAML) = None)) as [|Hthere].
    + exists k. split; [done|]. split; [|done]. constructor; [done|apply Hc|done|done].
    + exists (i + 1). split; [lia|]. split; [|lia]. constructor; [done|unfold is_page in Hi; lia| |done]. intros j Hj.
      destruct (decide (j = i)) as [->|]; [done|]. apply Hkeep. lia.
  - rewrite (Hsame Hsome) in *. destruct (decide (i < k)); [by exists k|]. exists (i + 1). split; [lia|]. split; [|lia].
    constructor; [done|unfold is_page in Hi; lia| |apply Hc]. intros j Hj. destruct (decide (j = i)) as [->|]; [done|]. apply Hc. lia.
Qed.

End resume.
End ResumeLaws.
