(* ===== verification/PublishLaws.v ===== *)
(** Publication: the moment a staged revision becomes the current one. At any
    point a run of [publish] can be cut short, the source verifies as before
    or as the new revision, and once it returns as the new one. *)
From S2P Require Import Prelude Order Text Identity Codec Event Partition Files Storage Verify VerifyLaws StagingLaws.

Module PublishLaws.
Import Files FilesLaws Storage Verify VerifyLaws StorageLaws StagingLaws ResumeLaws.

(** ** Texts *)

Lemma trim_hex l : Forall Hex.is_hex_byte l → trim l = l.
Proof.
  assert (Hb : ∀ c, Hex.is_hex_byte c → white1 c = false ∧ (∀ b, white2 c b = false) ∧ (∀ a, white2 a c = false) ∧ (∀ a b, white3 a b c = false) ∧ (∀ a b, white3 c a b = false)).
  { intros c Hc. unfold Hex.is_hex_byte, white1, white2, white3, in_range in *. split_and!; intros; lia. }
  assert (Hs : ∀ l, Forall Hex.is_hex_byte l → trim_start l = l).
  { intros k Hk. destruct Hk as [|c k Hc _]; [done|]. destruct (Hb c Hc) as (H1 & H2 & _ & _ & H3).
    destruct k as [|b [|b' k]]; simpl; by rewrite ?H1, ?H2, ?H3. }
  assert (Hr : ∀ l, Forall Hex.is_hex_byte l → trim_start_reversed l = l).
  { intros k Hk. destruct Hk as [|c k Hc _]; [done|]. destruct (Hb c Hc) as (H1 & _ & H2 & H3 & _).
    destruct k as [|b [|b' k]]; simpl; by rewrite ?H1, ?H2, ?H3. }
  intros Hl. unfold trim. rewrite Hs by done. rewrite Hr by by apply Forall_reverse. apply reverse_involutive.
Qed.

(** ** The manifest of a staged revision *)

Section publish.
Context {J : Json} {SP : Serde PageMetadata} {SM : Serde SourceManifest} {ZS : Zstd} {SH : Sha256}.
Context {SML : SerdeLaws SourceManifest manifest_wf} {SHL : Sha256Laws}.

Lemma contiguous_pages (l : list PageMetadata) : zlen l ≤ u32_max + 1 → (∀ i m, l !! i = Some m → kind m = TickPage ∧ ordinal m = Z.of_nat i) →
  sort_on ordinal l = l ∧ contiguous l = true.
Proof.
  intros Hl Hp. split.
  - apply sort_on_sorted_id. assert (Hgen : ∀ k b, (∀ i m, k !! i = Some m → ordinal m = b + Z.of_nat i) → StronglySorted (key_le ordinal) k).
    { clear. intros k. induction k as [|x k IH]; intros b Hk; [constructor|]. constructor.
      - apply (IH (b + 1)). intros i m Hi. rewrite (Hk (S i) m Hi). lia.
      - apply list.Forall_forall. intros y (i & Hi)%list_elem_of_lookup. unfold key_le. rewrite ord_le_lt_eq. left.
        rewrite (Hk 0%nat x eq_refl), (Hk (S i) y Hi). apply Z.compare_lt_iff. lia. }
    apply (Hgen l 0). intros i m Hi. by destruct (Hp i m Hi).
  - unfold contiguous. apply forallb_forall. intros [j m] Hin. apply list_elem_of_In, list_elem_of_lookup in Hin as (i & Hi).
    apply lookup_zip_with_Some in Hi as (j' & m' & [= -> ->] & Hj & Hm). apply lookup_seqZ in Hj as [-> Hj]. destruct (Hp i m' Hm) as [-> ->].
    rewrite Z.add_0_l, Z.mod_small by (unfold zlen, PAGE_LIMIT, u32_max in *; lia). by rewrite Z.eqb_refl.
Qed.

Record manifest_of (query : list Z) (ps : list PageMetadata) (daily : PageMetadata) (m : SourceManifest) (semantic : list Z) : Prop := {
  of_version : manifest_version m = 1; of_pages : pages m = ps; of_daily : daily_instrument m = daily;
  of_query : query_identity m = Hex.hex query; of_terminal : terminal_cursor_reached m = true;
  of_count : records_total 0 ps = Some (tick_record_count m);
  of_semantic : semantic_bytes ps daily = Ok semantic; of_identity : revision_identity m = Hex.hex (sha256 semantic) }.

Lemma build_staged query terminal ps daily m : zlen ps ≤ u32_max + 1 → (∀ i p, ps !! i = Some p → kind p = TickPage ∧ ordinal p = Z.of_nat i) →
  build query terminal ps daily = Ok m → terminal = true ∧ ∃ semantic, manifest_of query ps daily m semantic.
Proof.
  intros Hl Hp. destruct (contiguous_pages ps Hl Hp) as [Hs Hc]. unfold build. destruct terminal; [|done]. cbv zeta. rewrite Hs, Hc. simpl negb. cbv iota.
  intros (n & Hn & H)%bind_Ok. apply bind_Ok in H as (sem & Hsem & [= <-]). split; [done|]. exists sem. constructor; try done.
  unfold records_total. by destruct (foldl _ _ _); simplify_eq/=.
Qed.
Lemma build_again query ps daily m semantic : zlen ps ≤ u32_max + 1 → (∀ i p, ps !! i = Some p → kind p = TickPage ∧ ordinal p = Z.of_nat i) →
  manifest_of query ps daily m semantic → build query true ps daily = Ok m.
Proof.
  intros Hl Hp [H1 H2 H3 H4 H5 H6 H7 H8]. destruct (contiguous_pages ps Hl Hp) as [Hs Hc]. unfold build. cbv zeta. rewrite Hs, Hc. simpl negb. cbv iota.
  unfold records_total in H6. rewrite H6. simpl. rewrite H7. simpl. rewrite <-H8, <-H4. destruct m; simpl in *; subst. done.
Qed.

(** ** A staged revision and its place *)

Definition below (p q : Path) : Prop := p `prefix_of` q.
Definition disjoint (p q : Path) : Prop := ¬ p `prefix_of` q ∧ ¬ q `prefix_of` p.
Definition CURRENT_TMP : Name := bytes_of "current.tmp".
(** The attempt is apart from what is published. *)
Record separate (root a : Path) : Prop := {
  separate_revisions : disjoint a (root ++ [REVISIONS]); separate_current : disjoint a (root ++ [CURRENT]);
  separate_tmp : disjoint a (root ++ [CURRENT_TMP]) }.
Lemma below_disjoint p q r s : disjoint p q → below p r → below q s → r ≠ s.
Proof. intros [H1 H2] Hr Hs ->. destruct (prefix_weak_total p q s Hr Hs); [by apply H1|by apply H2]. Qed.
Lemma below_refl p : below p p.
Proof. exists []. by rewrite app_nil_r. Qed.
Lemma below_app (p r : Path) : below p (p ++ r).
Proof. by exists r. Qed.
Lemma below_trans p q r : below p q → below q r → below p r.
Proof. apply PreOrder_Transitive. Qed.

(** Both layouts keep them apart. *)
Lemma separate_layouts base attempt : separate base (base ++ [bytes_of "staging"; attempt]) ∧
  separate (base ++ [bytes_of "source"]) (base ++ [bytes_of "staging"; attempt]).
Proof.
  assert (Hd : ∀ x y n, n ≠ bytes_of "staging" → disjoint (base ++ bytes_of "staging" :: x) (base ++ n :: y)).
  { intros x y n Hn. split; intros H%prefix_app_inv; by apply prefix_cons_inv_1 in H. }
  split; split; rewrite <-?app_assoc; by apply Hd.
Qed.

(** Sound pages and a sound daily instrument below some root. *)
Record contents_sound (d : Disk) (root : Path) (ps : list PageMetadata) (daily : PageMetadata) : Prop := {
  contents_limit : zlen ps ≤ PAGE_LIMIT;
  contents_page i m : ps !! i = Some m → page_sound d root (Z.of_nat i) m;
  contents_daily : daily_sound d root daily }.

Definition object_path (p root : Path) : Prop := (∃ i, is_page i ∧ p = page_path root i OBJECT) ∨ p = daily_path root "daily.json.zst".
Lemma contents_changes W d d' root ps daily : contents_sound d root ps daily → changes W d d' → (∀ p, object_path p root → ¬ W p) → contents_sound d' root ps daily.
Proof.
  intros [Hl Hp [Hk Hr Hwf Hd]] Hc HW. constructor; [done| |].
  - intros i m Hi. assert (is_page (Z.of_nat i)) by (apply lookup_lt_Some in Hi; unfold is_page, zlen in *; lia).
    eapply page_sound_changes; [done|exact Hc| |by apply Hp]. apply HW. left. by eexists.
  - constructor; [done..|]. eapply object_sound_changes; [exact Hc| |done]. rewrite Hr, (proj1 daily_names). apply HW. by right.
Qed.
Lemma contents_moved d d' r r' ps daily : contents_sound d r ps daily → (∀ x e, entry d (r ++ x) = Some (File e) → entry d' (r' ++ x) = Some (File e)) →
  contents_sound d' r' ps daily.
Proof.
  intros [Hl Hp [Hk Hr Hwf Hd]] Hm. assert (Hobj : ∀ m, object_sound d r m → object_sound d' r' m).
  { intros m (Hn & body & (c & Hc & Hrest) & Hb). split; [done|]. exists body. split; [|done]. exists c. split; [by apply Hm|done]. }
  constructor; [done| |by constructor; auto]. intros i m Hi. destruct (Hp i m Hi) as [? ? ? ? ?]. constructor; auto.
Qed.
Lemma contents_in_place d root ps daily : contents_sound d root ps daily → ∀ i p, ps !! i = Some p → kind p = TickPage ∧ ordinal p = Z.of_nat i.
Proof. intros [_ Hp _] i p Hi. by destruct (Hp i p Hi). Qed.

(** The report of a manifest under a source root. *)
Definition report_of (root : Path) (m : SourceManifest) (semantic : list Z) : VerificationReport :=
  mk_report (sha256 semantic) m (root ++ [REVISIONS; revision_identity m]).

(** What has to be in place for the current revision to verify as [m]. *)
Lemma verifies_report d root query ps daily m semantic bytes : manifest_of query ps daily m semantic → ps ≠ [] → Hex.is_digest query →
  contents_sound d (root ++ [REVISIONS; revision_identity m]) ps daily →
  entry d (root ++ [CURRENT]) = Some (File (revision_identity m)) →
  entry d (root ++ [REVISIONS; revision_identity m; MANIFEST]) = Some (File bytes) → from_slice bytes = Some m →
  verifies d root (report_of root m semantic).
Proof.
  intros Hm Hne Hq Hc Hcur Hman Hs. pose proof Hm as [H1 H2 H3 H4 H5 H6 H7 H8]. pose proof (sha256_digest semantic) as Hdig.
  assert (Hhex : Forall Hex.is_hex_byte (revision_identity m)) by (rewrite H8; apply Hex.hex_bytes, Hdig).
  exists (revision_identity m), bytes. cbv zeta. rewrite (trim_hex _ Hhex). simpl. rewrite <-app_assoc.
  split; [done|]. split; [rewrite H8; apply hex_str, Hdig|]. split; [rewrite H8; by apply Hex.decode_hex|]. split; [done|]. split; [done|]. split; [done|].
  pose proof (contents_in_place _ _ _ _ Hc) as Hplace. destruct Hc as [Hl Hp [Hk Hr _ Hd]]. constructor; rewrite ?H2, ?H3; try done.
  - intros i p Hi. destruct (Hp i p Hi) as [Hkp Hop _ _ Hsp]. split; [|done]. split; [done|]. rewrite Hop, Z.mod_small; [done|].
    apply lookup_lt_Some in Hi. unfold zlen, PAGE_LIMIT, u32_max in *. lia.
  - exists query, m. rewrite H4. split; [by apply Hex.decode_hex|]. split; [|done]. eapply build_again; [|done|exact Hm]. unfold PAGE_LIMIT, u32_max in *. lia.
Qed.

End publish.
End PublishLaws.

(** * PublishRuns

    The runs of [publish], from any staged revision and cut short anywhere. *)

Module PublishRuns.
Import Files FilesLaws Storage Verify VerifyLaws StorageLaws StagingLaws ResumeLaws PublishLaws.

Section publish.
Context {J : Json} {SP : Serde PageMetadata} {SM : Serde SourceManifest} {ZS : Zstd} {SH : Sha256}.
Context {SML : SerdeLaws SourceManifest manifest_wf} {SHL : Sha256Laws}.

(** ** Sealing the attempt *)

Definition sealed_file (a p : Path) : Prop :=
  p = a ++ [CHECKPOINT] ∨ p = a ++ DAILY_METADATA ∨ p = a ++ [MANIFEST] ∨ p = a ++ [bytes_of "manifest.tmp"] ∨ ∃ i, is_page i ∧ p = page_path a i YAML.

Lemma sealed_below a p : sealed_file a p → below a p.
Proof. intros [->|[->|[->|[->|(i & _ & ->)]]]]; apply below_app. Qed.
Lemma object_not_sealed a p : object_path p a → ¬ sealed_file a p.
Proof.
  unfold page_path, daily_path. intros [(i & Hi & ->)| ->] [E|[E|[E|[E|(j & Hj & E)]]]]; apply app_inv_head in E; discriminate E.
Qed.

Lemma wp_remove_if_there p (W : Path → Prop) d0 d : W p → changes W d0 d → wp (remove_if_there p) (changes W d0) (λ _ d', changes W d0 d') d.
Proof.
  intros Hw Hc. unfold remove_if_there. apply wp_do, wp_exists; [done|]. unfold when. destruct (bool_decide _); [|by apply wp_done].
  assert (Hd : changes W d0 (delete p d)) by (eapply changes_trans; [exact Hc|by apply changes_delete]). by apply wp_remove.
Qed.

Lemma wp_seal s m d : (∀ p, p ∈ pages m → is_page (ordinal p)) → let a := attempt_path s in
  wp (seal s m) (changes (sealed_file a) d)
    (λ _ d', changes (sealed_file a) d d' ∧ entry d' a = Some Dir ∧ ∃ bytes, to_vec_pretty m = Some bytes ∧ entry d' (a ++ [MANIFEST]) = Some (File bytes)) d.
Proof.
  intros Hp a. unfold seal. fold a. pose proof (changes_refl (sealed_file a) d) as H0.
  apply wp_do. eapply wp_conseq; [apply (wp_remove_if_there _ (sealed_file a) d d); [by left|done]|done|]. intros u1 d1 _ H1.
  apply wp_do. eapply wp_conseq; [apply (wp_remove_if_there _ (sealed_file a) d d1); [by right; left|done]|done|]. intros u2 d2 _ H2.
  apply wp_do. eapply wp_conseq; [apply (wp_traverse _ _ _ (changes (sealed_file a) d)); [done| |exact H2]|done|].
  { intros p d3 Hin H3. apply wp_remove_if_there; [|done]. rewrite metadata_names by by apply Hp. do 4 right. exists (ordinal p). split; [by apply Hp|done]. }
  intros u3 d3 _ H3. apply wp_do, wp_try; [done|]. intros bytes Hb. apply wp_do.
  assert (Ht : with_extension (a ++ [MANIFEST]) (bytes_of "tmp") = a ++ [bytes_of "manifest.tmp"]) by (rewrite with_extension_snoc; done).
  apply wp_write_atomic; rewrite Ht.
  - intros E. apply app_inv_head in E. discriminate E.
  - intros d4 H4. eapply changes_trans; [exact H3|]. eapply changes_mono; [|exact H4]. intros p ->. by do 3 right; left.
  - intros d4 H4 He Ha. assert (H5 : changes (sealed_file a) d d4).
    { eapply changes_trans; [exact H3|]. eapply changes_mono; [|exact H4]. intros p [->| ->]; [by do 3 right; left|by right; right; left]. }
    split; [done|]. apply wp_sync; [done|]. split; [done|]. split; [done|]. exists bytes. split; [|done]. by destruct (to_vec_pretty m); simplify_eq/=.
Qed.

(** ** Moving and pointing *)

Section place.
Variables (root a : Path) (m : SourceManifest).
Hypothesis Hsep : separate root a.
Let pub : Path := root ++ [REVISIONS; revision_identity m].

Lemma below_pub p : below pub p → below (root ++ [REVISIONS]) p.
Proof. apply below_trans. exists [revision_identity m]. unfold pub. by rewrite <-app_assoc. Qed.
Lemma pub_apart p q : below a p → below pub q → p ≠ q.
Proof. intros Hp Hq. eapply below_disjoint; [apply (separate_revisions _ _ Hsep)|done|by apply below_pub]. Qed.
(** Nothing above the publication is made by changes in the attempt. *)
Lemma attempt_changes_pub d d' x : changes (below a) d d' → entry d' (pub ++ x) = entry d (pub ++ x).
Proof.
  intros H. destruct (H (pub ++ x)) as [E|(_ & _ & q & Hq & Hp)]; [|done|exfalso].
  - intros Hb. by eapply (pub_apart (pub ++ x) (pub ++ x)); [|apply below_app|].
  - eapply (pub_apart q q); [done| |done]. eapply below_trans; [apply below_app|exact Hp].
Qed.

(** The disk once the attempt has been moved: what it held is published. *)
Definition moved_file (p : Path) : Prop := below a p ∨ below pub p ∨ p = root ++ [CURRENT_TMP].
(** The revision was not published before. *)
Definition unpublished (d : Disk) : Prop := entry d pub = Some Dir → entry d (pub ++ [MANIFEST]) = None.

Lemma wp_move_to_revisions s d d1 (C : Disk → Prop) (Q : Path → Disk → Prop) : publish_root s = root → attempt_path s = a →
  changes (below a) d d1 → entry d1 a = Some Dir → C d1 →
  (∀ d2, changes moved_file d d2 → unpublished d → (∀ x, entry d2 (a ++ x) = None) → C d2) →
  (∀ d2, changes moved_file d d2 → unpublished d → (∀ x, entry d2 (a ++ x) = None) → (∀ x e, entry d1 (a ++ x) = Some (File e) → entry d2 (pub ++ x) = Some (File e)) → Q pub d2) →
  (∀ q r, root ++ [REVISIONS] = q ++ r → C (make_dirs d1 q)) →
  wp (move_to_revisions s m) C Q d1.
Proof.
  intros Hr Ha Hc Hdir HC HC2 HQ Hmk. unfold move_to_revisions. rewrite Hr, Ha, <-app_assoc. simpl app. fold pub.
  assert (Hne : a ≠ pub) by (apply pub_apart; apply below_refl).
  assert (Hin : ∀ q r, root ++ [REVISIONS] = q ++ r → changes moved_file d (make_dirs d1 q)).
  { intros q r Hq. eapply changes_trans; [eapply changes_mono; [|exact Hc]; by left|]. apply (changes_make_dirs _ _ _ pub); [right; left; apply below_refl|].
    exists (r ++ [revision_identity m]). unfold pub. change [REVISIONS; revision_identity m] with ([REVISIONS] ++ [revision_identity m]). by rewrite !app_assoc, Hq. }
  apply wp_do, wp_create_dirs; [done|done|]. intros _. set (d1' := make_dirs d1 (root ++ [REVISIONS])).
  assert (Hc1 : changes moved_file d d1') by (apply (Hin _ []); by rewrite app_nil_r). assert (HC1 : C d1') by (apply (Hmk _ []); by rewrite app_nil_r).
  assert (Hkeep : ∀ p e, entry d1 p = Some e → entry d1' p = Some e) by (intros; by apply make_dirs_keeps).
  apply wp_do, wp_exists; [done|]. apply wp_do, wp_try; [done|]. intros u Hu. destruct (bool_decide _) eqn:Hex; [done|]. clear Hu u.
  apply bool_decide_eq_false in Hex.
  assert (Hun : unpublished d).
  { intros Hd. exfalso. apply Hex. rewrite (Hkeep pub Dir); [by eexists|]. rewrite <-(app_nil_r pub), (attempt_changes_pub d d1) by done. by rewrite app_nil_r. }
  assert (Hmoved : changes moved_file d (move a pub d1')).
  { eapply changes_trans; [exact Hc1|]. intros p Hp. left. unfold moved_file in Hp. assert (Hpa : ¬ below a p) by tauto. assert (Hpp : ¬ below pub p) by tauto.
    destruct p as [|n p]; [done|]. unfold entry. by apply move_elsewhere. }
  assert (Hgone : ∀ x, entry (move a pub d1') (a ++ x) = None).
  { intros x. destruct (a ++ x) as [|n p] eqn:Ex; [apply app_eq_nil in Ex as [E _]; destruct (separate_current _ _ Hsep) as [H _]; rewrite E in H; exfalso; apply H; apply prefix_nil|].
    rewrite <-Ex. assert (Hax : a ++ x ≠ []) by by rewrite Ex. unfold entry. destruct (a ++ x) eqn:E2; [done|]. rewrite <-E2. apply move_gone; [apply below_app|].
    intros Hb. by eapply (pub_apart (a ++ x)); [apply below_app|exact Hb|]. }
  assert (HC3 : C (move a pub d1')) by by apply HC2.
  apply wp_do, wp_rename_dir; [by apply Hkeep|done|done|]. intros _ _. split; [done|]. apply wp_do, wp_sync; [done|]. apply wp_done; [done|].
  apply HQ; [done|done|done|]. intros x e He. assert (He' : d1' !! (a ++ x) = Some (File e)).
  { apply Hkeep in He. revert He. by destruct (a ++ x). }
  assert (Hnn : pub ++ x ≠ []) by (unfold pub; intros [[_ E]%app_eq_nil _]%app_eq_nil; discriminate E). unfold entry. destruct (pub ++ x) eqn:E; [done|]. rewrite <-E. by apply move_below.
Qed.

(** A revision that verified before still does. *)
Lemma verifies_kept (W : Path → Prop) d d' old : changes W d d' → ¬ W (root ++ [CURRENT]) → (∀ p, below (revision_root old) p → ¬ W p) →
  verifies d root old → verifies d' root old.
Proof.
  intros Hc Hcur HW (bytes & mb & H1 & H2 & H3 & H4 & H5 & H6 & Hs). assert (Hobj : ∀ p, object_sound d (revision_root old) p → object_sound d' (revision_root old) p).
  { intros p. eapply object_sound_changes; [exact Hc|]. apply HW, below_app. }
  exists bytes, mb. cbv zeta in *. split; [by eapply changes_file|]. do 3 (split; [done|]). split; [eapply changes_file; [exact Hc|apply HW, below_app|done]|]. split; [done|].
  destruct Hs as [? ? ? ? Hp ? ? ? ?]. constructor; try done; [|by apply Hobj]. intros i p Hi. destruct (Hp i p Hi). split; [done|]. by apply Hobj.
Qed.

End place.

(** ** Publishing *)

(** The source is as it was, for any revision that verified, or verifies as [rep]. *)
Definition old_or_new (root : Path) (d d' : Disk) (rep : VerificationReport) : Prop :=
  (∀ old, verifies d root old → verifies d' root old) ∨ verifies d' root rep.

Lemma old_kept_in_attempt root a d d' old : separate root a → changes (below a) d d' → verifies d root old → verifies d' root old.
Proof.
  intros Hsep Hc Hv. eapply verifies_kept; [exact Hc| | |done].
  - intros Hb. by eapply (below_disjoint _ _ _ _ (separate_current _ _ Hsep)); [exact Hb|apply below_refl|].
  - intros p Hp Hb. destruct Hv as (bytes & mb & _ & _ & _ & Hr & _). eapply (below_disjoint _ _ p p (separate_revisions _ _ Hsep)); [exact Hb| |done].
    eapply below_trans; [|exact Hp]. rewrite Hr. exists [trim bytes]. by rewrite <-app_assoc.
Qed.
Lemma old_kept_when_moved root a m d d' old : separate root a → changes (moved_file root a m) d d' → unpublished root m d →
  (∀ x, entry d (root ++ [REVISIONS; x; MANIFEST]) ≠ None → entry d (root ++ [REVISIONS; x]) = Some Dir) →
  verifies d root old → verifies d' root old.
Proof.
  intros Hsep Hc Hun Htree Hv. pose proof Hv as (bytes & mb & _ & _ & _ & Hr & Hman & _).
  assert (Hrev : ∀ p, below (revision_root old) p → below (root ++ [REVISIONS]) p).
  { intros p Hp. eapply below_trans; [|exact Hp]. rewrite Hr. exists [trim bytes]. by rewrite <-app_assoc. }
  assert (Hid : trim bytes ≠ revision_identity m).
  { intros E. rewrite Hr, <-app_assoc, E in Hman. simpl in Hman. assert (Hd : entry d (root ++ [REVISIONS; revision_identity m]) = Some Dir).
    { apply Htree. congruence. } specialize (Hun Hd). rewrite <-app_assoc in Hun. simpl in Hun. congruence. }
  assert (Hapart : ∀ n m' : Name, n ≠ m' → ¬ below (root ++ [n]) (root ++ [m'])) by (intros n m' Hn H%prefix_app_inv%prefix_cons_inv_1; congruence).
  eapply verifies_kept; [exact Hc| | |done].
  - intros [Hb|[Hb|E]].
    + by eapply (below_disjoint _ _ _ _ (separate_current _ _ Hsep)); [exact Hb|apply below_refl|].
    + apply below_pub in Hb. by apply Hapart in Hb.
    + apply app_inv_head in E. discriminate E.
  - intros p Hp [Hb|[Hb| ->]].
    + by eapply (below_disjoint _ _ p p (separate_revisions _ _ Hsep)); [exact Hb|by apply Hrev|].
    + rewrite Hr in Hp. destruct (prefix_weak_total _ _ _ Hb Hp) as [H|H]; apply prefix_app_inv, prefix_cons_inv_2, prefix_cons_inv_1 in H; congruence.
    + apply Hrev in Hp. by apply Hapart in Hp.
Qed.

Lemma semantic_wf query ps daily m semantic : manifest_of query ps daily m semantic → Hex.is_digest query →
  Forall metadata_wf ps → metadata_wf daily → manifest_wf m.
Proof.
  intros [H1 H2 H3 H4 H5 H6 H7 H8] Hq Hps Hd. constructor; rewrite ?H2, ?H3; try done.
  - rewrite H1. by split.
  - clear -H6. unfold records_total in H6. assert (Hgen : ∀ (l : list PageMetadata) t n, is_u64 t → foldl (λ total m, t ← total; to_u64 (t + record_count m)) (Some t) l = Some n → is_u64 n).
    { induction l as [|x l IH]; intros t n Ht; [by intros [= <-]|]. simpl. destruct (to_u64 (t + record_count x)) as [t'|] eqn:E; [|by rewrite records_total_None].
      apply IH. apply checked_Some in E as [-> ?]. done. }
    eapply Hgen; [|exact H6]. unfold is_u64, u64_max. lia.
  - rewrite H8, H4. split; apply hex_str; [apply sha256_digest|apply Hq].
Qed.

Section run.
Variables (s : StagingRevision) (query : list Z) (d : Disk).
Let root : Path := publish_root s.
Let a : Path := attempt_path s.
Hypothesis Hsep : separate root a.
Hypothesis Hstaged : staged s d.
Hypothesis Hpages : staged_pages s ≠ [].
Hypothesis Hquery : Hex.is_digest query.
(** A revision with a manifest is a directory. *)
Hypothesis Htree : ∀ x, entry d (root ++ [REVISIONS; x; MANIFEST]) ≠ None → entry d (root ++ [REVISIONS; x]) = Some Dir.

Lemma wp_publish terminal : wp (publish s query terminal)
  (λ d', (∀ old, verifies d root old → verifies d' root old) ∨
         ∃ m semantic daily, manifest_of query (staged_pages s) daily m semantic ∧ staged_daily s = Some daily ∧ verifies d' root (report_of root m semantic))
  (λ p d', terminal = true ∧ ∃ semantic daily, manifest_of query (staged_pages s) daily (manifest p) semantic ∧ staged_daily s = Some daily ∧
     path p = root ++ [REVISIONS; revision_identity (manifest p)] ∧ verifies d' root (report_of root (manifest p) semantic)) d.
Proof.
  set (C := λ d', _ ∨ _). unfold publish. fold root a. assert (H0 : C d) by by left.
  assert (Hatt : ∀ d', changes (below a) d d' → C d') by (intros d' Hc; left; intros old; by apply (old_kept_in_attempt root a)).
  apply wp_do, wp_try; [done|]. intros daily Hd. destruct (staged_daily s) as [daily'|] eqn:Hdaily; simplify_eq/=.
  apply wp_do, wp_try; [done|]. intros m Hm.
  assert (Hcont : contents_sound d a (staged_pages s) daily) by (constructor; [apply Hstaged|apply Hstaged|by apply Hstaged]).
  apply build_staged in Hm as (-> & semantic & Hm); [|apply contents_limit in Hcont; unfold PAGE_LIMIT, u32_max in *; lia|by eapply contents_in_place].
  assert (Hmoved : ∀ d', changes (moved_file root a m) d d' → unpublished root m d → C d') by (intros d' Hc Hun; left; intros old; by eapply old_kept_when_moved).
  assert (Hseal : ∀ d1, changes (sealed_file a) d d1 → changes (below a) d d1) by (intros d1; apply changes_mono, sealed_below).
  apply wp_do. eapply wp_conseq; [apply (wp_seal s m d)|intros d1 H1; by apply Hatt, Hseal|].
  { rewrite (of_pages _ _ _ _ _ Hm). intros p (i & Hi)%list_elem_of_lookup. destruct (contents_in_place _ _ _ _ Hcont i p Hi) as [_ ->]. by eapply staged_index. }
  fold a. intros _ d1 _ (Hc1 & Ha1 & bytes & Hbytes & Hman). pose proof (Hseal _ Hc1) as Hb1.
  assert (Hcont1 : contents_sound d1 a (staged_pages s) daily) by (eapply contents_changes; [exact Hcont|exact Hc1|]; intros p; apply object_not_sealed).
  assert (Hround : from_slice bytes = Some m) by (eapply serde_round_trip; [|exact Hbytes]; eapply semantic_wf; [exact Hm|done| |by apply Hstaged]; apply list.Forall_forall; intros x (i & Hi)%list_elem_of_lookup; by eapply page_wf, Hstaged).
  apply wp_do, (wp_move_to_revisions root a m Hsep s d d1); [done|done|done|done|by apply Hatt|by auto| |].
  2: { intros q r Hq. left. intros old Hv. apply (old_kept_in_attempt root a d d1) in Hv; [|done..].
       eapply (verifies_kept root (λ p, p = root ++ [REVISIONS])); [apply (changes_make_dirs _ _ _ (root ++ [REVISIONS])); [done|by exists r]| | |exact Hv].
       - intros E. apply app_inv_head in E. discriminate E.
       - intros p Hp ->. destruct Hv as (b & mb & _ & _ & _ & Hr & _). rewrite Hr in Hp. apply prefix_app_inv, prefix_cons_inv_2, prefix_nil_not in Hp. done. }
  intros d2 Hc2 Hun _ Hfiles. set (pub := root ++ [REVISIONS; revision_identity m]) in *.
  assert (Hcont2 : contents_sound d2 pub (staged_pages s) daily) by by eapply contents_moved.
  assert (Hman2 : entry d2 (pub ++ [MANIFEST]) = Some (File bytes)) by by apply Hfiles.
  assert (Ht : with_extension (root ++ [CURRENT]) (bytes_of "tmp") = root ++ [CURRENT_TMP]) by (rewrite with_extension_snoc; done).
  apply wp_do, wp_write_atomic; rewrite Ht.
  - intros E. apply app_inv_head in E. discriminate E.
  - intros d3 Hc3. apply Hmoved; [|done]. eapply changes_trans; [exact Hc2|]. eapply changes_mono; [|exact Hc3]. intros p ->. by do 2 right.
  - intros d3 Hc3 He3 _. assert (Hv : verifies d3 root (report_of root m semantic)).
    { assert (Hout : ∀ x, ¬ (pub ++ x = root ++ [CURRENT_TMP] ∨ pub ++ x = root ++ [CURRENT])).
      { intros x [E|E]; unfold pub in E; rewrite <-app_assoc in E; apply app_inv_head in E; discriminate E. }
      eapply (verifies_report d3 root query); [exact Hm|done|done| |exact He3| |exact Hround].
      - eapply contents_changes; [exact Hcont2|exact Hc3|]. intros p [(i & _ & ->)| ->]; unfold page_path, daily_path; apply Hout.
      - change (root ++ [REVISIONS; revision_identity m; MANIFEST]) with (root ++ [REVISIONS; revision_identity m] ++ [MANIFEST]). rewrite app_assoc.
        eapply changes_file; [exact Hc3|apply Hout|exact Hman2]. }
    assert (HC3 : C d3) by (right; by exists m, semantic, daily). split; [done|]. apply wp_done; [done|]. split; [done|]. by exists semantic, daily.
Qed.
End run.
End publish.
End PublishRuns.
