(* ===== verification/SourceLaws.v ===== *)
(** Source revisions from staging to verification: the theorems of the
    storage crate, with an instance of its third-party parts. *)
From S2P Require Import Prelude Order Text Identity Codec Event Partition Files Storage Verify VerifyLaws StagingLaws PublishLaws.

Module SourceLaws.
Import Files FilesLaws Storage Verify VerifyLaws StorageLaws StagingLaws ResumeLaws PublishLaws PublishRuns.

Section source.
Context {J : Json} {SP : Serde PageMetadata} {SM : Serde SourceManifest} {ZS : Zstd} {SH : Sha256}.

(** The undisturbed verification of the revision under a source root. *)
Definition verified (d : Disk) (root : Path) (rep : VerificationReport) : Prop := run (verify_current (at_source_root root)) d = (Ok rep, d).
Lemma verified_iff d root rep : verified d root rep ↔ verifies d root rep.
Proof. apply (verify_current_iff (at_source_root root)). Qed.

(** ** What a verified revision is

    Stated of the disk and the third-party parts alone, without the checks of
    the code. *)

(** An object is the file its metadata describes: its name stays below the
    revision, its compressed and its plain contents have the lengths and
    digests of the metadata, and it is the JSON text of as many records. *)
Definition described (d : Disk) (root : Path) (m : PageMetadata) (body : list Z) : Prop :=
  (∀ c, c ∈ components (relative_path m) → ∃ n, c = Normal n) ∧
  (∃ content, entry d (root ++ normal_names (relative_path m)) = Some (File content) ∧ decompress content = Some body ∧
    zlen content = compressed_bytes m ∧ Hex.hex (sha256 content) = compressed_sha256 m) ∧
  zlen body = uncompressed_bytes m ∧ Hex.hex (sha256 body) = uncompressed_sha256 m ∧
  ∃ value, from_json body = Some value ∧
    match kind m with
    | TickPage => ∃ items, value_get value "items" ≫= value_as_array = Some items ∧ zlen items = record_count m
    | DailyInstrument => record_count m = 1
    end.
(** The text a revision is named after: the version, then the kind, ordinal,
    length and digest of the daily instrument and of every page. *)
Definition identity_entry (tag i : Z) (body : list Z) : list Z := [tag] ++ be_bytes 4 i ++ be_bytes 8 (zlen body) ++ sha256 body.
Definition identity_text (daily : PageMetadata) (daily_body : list Z) (bodies : list (list Z)) : list Z :=
  bytes_of "OSSR" ++ be_bytes 2 1 ++ identity_entry 2 (ordinal daily) daily_body ++ concat (imap (λ i, identity_entry 1 (Z.of_nat i)) bodies).
Definition hex_digits (text : list Z) : Prop :=
  zlen text = 64 ∧ ∀ c, c ∈ text → 48 ≤ c ≤ 57 ∨ 97 ≤ c ≤ 102 ∨ 65 ≤ c ≤ 70.
Definition total_records (l : list PageMetadata) : Z := foldr (λ m n, record_count m + n) 0 l.

(** The revision of a report with the contents of its objects. *)
Record revision_described (d : Disk) (root : Path) (rep : VerificationReport) (daily_body : list Z) (bodies : list (list Z)) : Prop := {
  described_current : ∃ bytes, entry d (root ++ [CURRENT]) = Some (File bytes) ∧ Utf8.valid bytes = true ∧
    trim bytes = revision_identity (report_manifest rep);
  described_root : revision_root rep = root ++ [REVISIONS; revision_identity (report_manifest rep)];
  described_manifest : ∃ bytes, entry d (revision_root rep ++ [MANIFEST]) = Some (File bytes) ∧ from_slice bytes = Some (report_manifest rep);
  described_version : manifest_version (report_manifest rep) = 1 ∧ terminal_cursor_reached (report_manifest rep) = true ∧
    hex_digits (query_identity (report_manifest rep));
  described_pages : Forall2 (described d (revision_root rep)) (pages (report_manifest rep)) bodies;
  described_places i p : pages (report_manifest rep) !! i = Some p → kind p = TickPage ∧ ordinal p = Z.of_nat i;
  described_length : 0 < zlen bodies ≤ u32_max + 1;
  described_count : tick_record_count (report_manifest rep) = total_records (pages (report_manifest rep)) ∧
    total_records (pages (report_manifest rep)) ≤ u64_max;
  described_daily : described d (revision_root rep) (daily_instrument (report_manifest rep)) daily_body ∧
    kind (daily_instrument (report_manifest rep)) = DailyInstrument;
  described_revision : revision rep = sha256 (identity_text (daily_instrument (report_manifest rep)) daily_body bodies);
  described_identity : revision_identity (report_manifest rep) = Hex.hex (revision rep) }.

Lemma check_body_iff m body : check_body m body = Ok () ↔
  zlen body = uncompressed_bytes m ∧ Hex.hex (sha256 body) = uncompressed_sha256 m ∧
  ∃ value, from_json body = Some value ∧
    match kind m with
    | TickPage => ∃ items, value_get value "items" ≫= value_as_array = Some items ∧ zlen items = record_count m
    | DailyInstrument => record_count m = 1
    end.
Proof.
  unfold check_body, actual_records. destruct (Z.eqb_spec (zlen body) (uncompressed_bytes m)) as [Hl|Hl]; [|naive_solver].
  case_bool_decide as Hs; simpl; [naive_solver|]. destruct (from_json body) as [v|]; [|naive_solver].
  destruct (kind m).
  - cbn [ok_or mbind result_bind]. destruct (value_get v "items" ≫= value_as_array) as [items|] eqn:Ei; simpl; [|naive_solver]. destruct (Z.eqb_spec (zlen items) (record_count m)); simpl; naive_solver.
  - cbn [ok_or mbind result_bind]. destruct (Z.eqb_spec 1 (record_count m)) as [E|E]; simpl; [|split; [done|]; intros (_ & _ & ? & _ & ?); by destruct E]. split; [|done]. intros _. do 2 (split; [done|]). by exists v.
Qed.

Lemma object_sound_iff d root m : object_sound d root m ↔ ∃ body, described d root m body.
Proof.
  unfold object_sound, object_file, described. setoid_rewrite check_body_iff.
  assert (Hn : forallb is_normal (components (relative_path m)) = true ↔ ∀ c, c ∈ components (relative_path m) → ∃ n, c = Normal n).
  { rewrite forallb_forall. split; intros H c Hc; [apply list_elem_of_In in Hc; specialize (H c Hc); destruct c; naive_solver|].
    apply list_elem_of_In in Hc. by destruct (H c Hc) as [n ->]. }
  rewrite Hn. naive_solver.
Qed.

Lemma decode_hex_digits text : is_Some (Hex.decode_hex_32 true text) ↔ hex_digits text.
Proof.
  assert (Hd : ∀ c, is_Some (Hex.decode_nibble true c) ↔ 48 ≤ c ≤ 57 ∨ 97 ≤ c ≤ 102 ∨ 65 ≤ c ≤ 70).
  { intros c. unfold Hex.decode_nibble, in_range. simpl. split; [intros [x H]; repeat case_match; simplify_eq; lia|].
    intros H. repeat case_match; eauto; lia. }
  assert (Hp : ∀ n t, length t = (2 * n)%nat → is_Some (Hex.decode_pairs true t) ↔ Forall (λ c, is_Some (Hex.decode_nibble true c)) t).
  { induction n as [|n IH]; intros [|hi [|lo t]] Ht; simpl in Ht; try lia; [by split; [constructor|eauto]|]. simpl.
    rewrite !list.Forall_cons, <-IH by lia. destruct (Hex.decode_nibble true hi), (Hex.decode_nibble true lo), (Hex.decode_pairs true t); simpl;
      (split; [intros [? H]; simplify_eq; eauto|intros ([? ?] & [? ?] & [? ?]); simplify_eq; eauto]). }
  unfold Hex.decode_hex_32, hex_digits. destruct (Z.eqb_spec (zlen text) 64) as [Hl|]; [|split; [intros [? [=]]|naive_solver]].
  rewrite (Hp 32%nat) by (unfold zlen in Hl; lia). rewrite list.Forall_forall. setoid_rewrite Hd. naive_solver.
Qed.

Context {SHL : Sha256Laws}.

Lemma append_described d root m body target : described d root m body →
  append_semantic_object m target = Ok (target ++ identity_entry (object_tag (kind m)) (ordinal m) body).
Proof.
  intros (_ & _ & Hl & Hs & _). unfold append_semantic_object. rewrite <-Hs, Hex.decode_hex by apply sha256_digest. simpl.
  unfold identity_entry. by rewrite Hl, <-!app_assoc.
Qed.
Lemma semantic_described d root ps bodies daily body : Forall2 (described d root) ps bodies → described d root daily body →
  kind daily = DailyInstrument → (∀ i p, ps !! i = Some p → kind p = TickPage ∧ ordinal p = Z.of_nat i) →
  semantic_bytes ps daily = Ok (identity_text daily body bodies).
Proof.
  intros Hps Hd Hk Hp. unfold semantic_bytes. rewrite (append_described _ _ _ _ _ Hd), Hk. cbn [mbind result_bind object_tag]. unfold identity_text.
  assert (Hgen : ∀ n target, (∀ i p, ps !! i = Some p → kind p = TickPage ∧ ordinal p = Z.of_nat (n + i)) →
    try_fold (λ target m, append_semantic_object m target) target ps = Ok (target ++ concat (imap (λ i, identity_entry 1 (Z.of_nat (n + i))) bodies))).
  { clear Hp. induction Hps as [|p b ps bs Hpb _ IH]; intros n target Hp; [simpl; by rewrite app_nil_r|].
    cbn [try_fold]. destruct (Hp 0%nat p eq_refl) as [Hkp Hop]. rewrite (append_described _ _ _ _ _ Hpb), Hkp, Hop. cbn [mbind result_bind object_tag].
    rewrite Nat.add_0_r. rewrite (IH (S n)) by (intros i q Hi; rewrite (proj1 (Hp (S i) q Hi)), (proj2 (Hp (S i) q Hi)); split; [done|]; lia).
    rewrite <-app_assoc, imap_cons, Nat.add_0_r. do 2 f_equal. cbn [concat]. do 2 f_equal. apply imap_ext. intros i x _. cbn. by replace (n + S i)%nat with (S (n + i)) by lia. }
  rewrite (Hgen 0%nat) by done. by rewrite <-!app_assoc.
Qed.

(** More pages than ordinals are not contiguous. *)
Lemma contiguous_limit l : contiguous (sort_on ordinal l) = true → zlen l ≤ u32_max + 1.
Proof.
  intros Hc. destruct (Z.le_gt_cases (zlen l) (u32_max + 1)) as [|Hgt]; [done|exfalso].
  pose proof (sort_on_sorted ordinal l) as Hs. pose proof (Permutation_length (sort_on_perm ordinal l)) as Hlen.
  set (s := sort_on ordinal l) in *. unfold zlen in Hgt.
  assert (Hat : ∀ z, 0 ≤ z < Z.of_nat (length s) → ∃ m, s !! Z.to_nat z = Some m ∧ ordinal m = z mod (u32_max + 1)).
  { intros z Hz. destruct (lookup_lt_is_Some_2 s (Z.to_nat z)) as [m Hm]; [lia|]. exists m. split; [done|].
    unfold contiguous in Hc. rewrite forallb_forall in Hc. specialize (Hc (z, m)). apply andb_true_iff in Hc as [_ Hc%Z.eqb_eq]; [done|].
    apply list_elem_of_In, list_elem_of_lookup. exists (Z.to_nat z). apply lookup_zip_with_Some. exists z, m. split; [done|]. split; [|done].
    apply lookup_seqZ. unfold zlen. split; lia. }
  destruct (Hat 1) as (a & Ha & Eoa); [unfold u32_max in *; lia|]. destruct (Hat (u32_max + 1)) as (b & Hb & Eob); [unfold u32_max in *; lia|].
  rewrite Z.mod_small in Eoa by (unfold u32_max; lia). rewrite Z.mod_same in Eob by (unfold u32_max; lia).
  assert (Hab : key_le ordinal a b) by (eapply (StronglySorted_lookup _ s); [exact Hs| |exact Ha|exact Hb]; unfold u32_max; lia).
  unfold key_le in Hab. rewrite Eoa, Eob in Hab. by apply Hab.
Qed.

Lemma total_records_sum l t n : (∀ m, m ∈ l → 0 ≤ record_count m) → 0 ≤ t ≤ u64_max →
  records_total t l = Some n ↔ n = t + total_records l ∧ n ≤ u64_max.
Proof.
  revert t. unfold records_total. induction l as [|m l IH]; intros t Hl Ht; simpl; [split; [intros [= <-]; lia|intros [-> _]; f_equal; lia]|].
  pose proof (Hl m ltac:(by left)) as Hm. assert (Hnn : 0 ≤ total_records l).
  { clear -Hl. induction l as [|x l IH]; [done|]. simpl. pose proof (Hl x ltac:(right; by left)).
    assert (0 ≤ total_records l) by (apply IH; intros y Hy; apply Hl; apply elem_of_cons in Hy as [->|Hy]; [by left|by do 2 right]). lia. }
  destruct (to_u64 (t + record_count m)) as [t'|] eqn:E.
  - apply checked_Some in E as [-> Hr]. rewrite IH; [|intros x Hx; apply Hl; by right|done]. split; intros [? ?]; lia.
  - rewrite records_total_None. apply checked_None in E. split; [done|]. intros [-> ?]. lia.
Qed.

(** The pages in place are contiguous, and there is an ordinal for each. *)
Lemma rebuilt_iff query ps daily sem bodies d root daily_body id : kind daily = DailyInstrument → described d root daily daily_body →
  Forall2 (described d root) ps bodies → (∀ i p, ps !! i = Some p → page_in_place (Z.of_nat i) p) → sem = identity_text daily daily_body bodies →
  records_total 0 ps ≠ None →
  (∃ m, build query true ps daily = Ok m ∧ revision_identity m = id) ↔
  (∀ i p, ps !! i = Some p → kind p = TickPage ∧ ordinal p = Z.of_nat i) ∧ zlen ps ≤ u32_max + 1 ∧ id = Hex.hex (sha256 sem).
Proof.
  intros Hk Hd Hps Hplace -> Hsum.
  assert (Hat : zlen ps ≤ u32_max + 1 → ∀ i p, ps !! i = Some p → kind p = TickPage ∧ ordinal p = Z.of_nat i).
  { intros Hl i p Hi. destruct (Hplace i p Hi) as [Hkp ->]. split; [done|]. apply lookup_lt_Some in Hi. apply Z.mod_small. unfold zlen in Hl. lia. }
  split.
  - intros (m & Hb & <-). assert (Hl : zlen ps ≤ u32_max + 1).
    { unfold build in Hb. cbn [negb] in Hb. destruct (contiguous (sort_on ordinal ps)) eqn:Hc; [by apply contiguous_limit|done]. }
    specialize (Hat Hl). split; [done|]. split; [done|]. apply build_staged in Hb as (_ & sem & Hm); [|done|done].
    rewrite (of_identity _ _ _ _ _ Hm). pose proof (of_semantic _ _ _ _ _ Hm) as Hs. erewrite semantic_described in Hs by done. congruence.
  - intros (Hp & Hl & ->). destruct (records_total 0 ps) as [n|] eqn:En; [|done].
    exists (mk_manifest 1 (Hex.hex (sha256 (identity_text daily daily_body bodies))) (Hex.hex query) true n ps daily). split; [|done].
    apply (build_again _ _ _ _ (identity_text daily daily_body bodies)); [done|done|]. constructor; try done. by eapply semantic_described.
Qed.

Lemma described_counts d root m body : kind m = TickPage → described d root m body → 0 ≤ record_count m.
Proof. intros Hk (_ & _ & _ & _ & v & _ & H). rewrite Hk in H. destruct H as (items & _ & <-). unfold zlen. lia. Qed.

Lemma verifies_described d root rep : verifies d root rep ↔ ∃ daily_body bodies, revision_described d root rep daily_body bodies.
Proof.
  split.
  - intros (bytes & mb & Hcur & Hu & Hrev & Hroot & Hman & Hs & [Hv Hi Ht Hne Hp Hc Hk Hd (query & rb & Hq & Hb & Hid)]).
    apply object_sound_iff in Hd as (db & Hd).
    assert (Hbodies : ∃ bodies, Forall2 (described d (revision_root rep)) (pages (report_manifest rep)) bodies).
    { apply Forall_exists_Forall2_l, list.Forall_forall. intros p (i & Hin)%list_elem_of_lookup. apply object_sound_iff. by apply (Hp i p). }
    destruct Hbodies as [bodies Hbs]. exists db, bodies.
    assert (Hcounts : ∀ m, m ∈ pages (report_manifest rep) → 0 ≤ record_count m).
    { intros m (i & Hm)%list_elem_of_lookup. destruct (Hp i m Hm) as [[Hkm _] [b Hb']%object_sound_iff]. by eapply described_counts. }
    destruct (proj1 (rebuilt_iff query (pages (report_manifest rep)) (daily_instrument (report_manifest rep)) _ bodies d (revision_root rep) db
      (revision_identity (report_manifest rep)) Hk Hd Hbs (λ i p Hi, proj1 (Hp i p Hi)) eq_refl ltac:(congruence)) (ex_intro _ rb (conj Hb Hid))) as (Hpl & Hl & Hsem).
    apply total_records_sum in Hc as [Hc1 Hc2]; [|done|done]. assert (Hlen : length (pages (report_manifest rep)) = length bodies) by by eapply Forall2_length.
    assert (Hrv : revision rep = sha256 (identity_text (daily_instrument (report_manifest rep)) db bodies)).
    { rewrite <-Hi, Hsem, Hex.decode_hex in Hrev by apply sha256_digest. congruence. }
    constructor; [by exists bytes|by rewrite Hroot, Hi|by exists mb| |done|done| |lia|done|done|by rewrite Hrv].
    + split; [done|]. split; [done|]. apply decode_hex_digits. by exists query.
    + unfold zlen in *. rewrite <-Hlen. split; [|done]. destruct (pages (report_manifest rep)); [done|]. simpl. lia.
  - intros (db & bodies & [(bytes & Hcur & Hu & Htrim) Hroot (mb & Hman & Hs) (Hv & Ht & Hq) Hbs Hpl Hl [Hc1 Hc2] [Hd Hk] Hrv Hid]).
    assert (Hlen : length (pages (report_manifest rep)) = length bodies) by by eapply Forall2_length. apply decode_hex_digits in Hq as [query Hq].
    assert (Hcounts : ∀ m, m ∈ pages (report_manifest rep) → 0 ≤ record_count m).
    { intros m (i & Hm)%list_elem_of_lookup. destruct (Forall2_lookup_l _ _ _ _ _ Hbs Hm) as (b & _ & Hb'). destruct (Hpl i m Hm) as [Hkm _]. by eapply described_counts. }
    assert (Hsum : records_total 0 (pages (report_manifest rep)) = Some (tick_record_count (report_manifest rep)))
      by (apply total_records_sum; [done|done|rewrite Hc1; lia]).
    assert (Hplace : ∀ i p, pages (report_manifest rep) !! i = Some p → page_in_place (Z.of_nat i) p).
    { intros i p Hi. destruct (Hpl i p Hi) as [Hkp Ho]. split; [done|]. rewrite Ho, Z.mod_small; [done|]. apply lookup_lt_Some in Hi. unfold zlen in *. lia. }
    exists bytes, mb. cbv zeta. rewrite Htrim. split; [done|]. split; [done|].
    split; [rewrite Hid, Hrv; apply Hex.decode_hex, sha256_digest|]. split; [done|]. split; [done|]. split; [done|]. constructor; [done..| | |done|done|by apply object_sound_iff; exists db|].
    + intros E. rewrite E in Hlen. unfold zlen in Hl. simpl in Hlen. lia.
    + intros i p Hi. split; [by apply Hplace|]. apply object_sound_iff. destruct (Forall2_lookup_l _ _ _ _ _ Hbs Hi) as (b & _ & Hb'). by exists b.
    + destruct (proj2 (rebuilt_iff query (pages (report_manifest rep)) (daily_instrument (report_manifest rep)) _ bodies d (revision_root rep) db
        (revision_identity (report_manifest rep)) Hk Hd Hbs Hplace eq_refl ltac:(congruence))) as (rb & Hb & Hrb); [|by exists query, rb].
      split; [done|]. split; [unfold zlen in *; lia|]. by rewrite Hid, Hrv.
Qed.

(** C25: the current revision verifies exactly when the disk holds it as its
    manifest says: the pointer names it, every object is a file of the length
    and digest recorded, that decompresses to a JSON text of the length,
    digest and number of records recorded, the pages are numbered from zero,
    the records add up, and the revision is the digest of the version and of
    the kinds, ordinals, lengths and digests of its contents. *)
Theorem verified_revision d root rep : verified d root rep ↔ ∃ daily_body bodies, revision_described d root rep daily_body bodies.
Proof. rewrite verified_iff. apply verifies_described. Qed.

(** *** Revisions name their contents *)

Lemma identity_entry_inj tag i i' b b' l l' : identity_entry tag i b ++ l = identity_entry tag i' b' ++ l' → sha256 b = sha256 b' ∧ l = l'.
Proof.
  unfold identity_entry. intros H.
  assert (Hlen : ∀ x, length (sha256 x) = 32%nat) by (intros x; apply sha256_digest). rewrite <-!app_assoc in H.
  do 3 (apply app_inj_1 in H as [_ H]; [|by rewrite ?length_be_bytes]). by apply app_inj_1 in H; [|by rewrite !Hlen].
Qed.
Lemma identity_entries_inj bs bs' : ∀ n, concat (imap (λ i, identity_entry 1 (Z.of_nat (n + i))) bs) = concat (imap (λ i, identity_entry 1 (Z.of_nat (n + i))) bs') →
  Forall2 (λ b b', sha256 b = sha256 b') bs bs'.
Proof.
  revert bs'. induction bs as [|b bs IH]; intros [|b' bs'] n; [constructor|discriminate|discriminate|]. rewrite !imap_cons. cbn [concat]. intros [Hb H]%identity_entry_inj.
  constructor; [done|]. apply (IH bs' (S n)). etrans; [|etrans; [exact H|]]; f_equal; apply imap_ext; intros i x _; cbn; by replace (n + S i)%nat with (S (n + i)) by lia.
Qed.
Lemma same_digests bs bs' : Forall2 (λ b b', sha256 b = sha256 b') bs bs' → bs = bs' ∨ ∃ x y, x ∈ bs ∧ y ∈ bs' ∧ x ≠ y ∧ sha256 x = sha256 y.
Proof.
  induction 1 as [|b b' bs bs' Hb _ [->|(x & y & Hx & Hy & Hne & E)]]; [by left| |right; exists x, y; split_and!; [by right|by right|done..]].
  destruct (decide (b = b')) as [->|Hne]; [by left|]. right. exists b, b'. split_and!; [by left|by left|done..].
Qed.

(** C26: two verified sources with the same revision hold the same contents, or
    SHA-256 collides on contents they hold or on the texts their revisions
    are the digests of. *)
Theorem revision_identifies d root rep d' root' rep' : verified d root rep → verified d' root' rep' → revision rep = revision rep' →
  ∃ daily bodies daily' bodies', revision_described d root rep daily bodies ∧ revision_described d' root' rep' daily' bodies' ∧
    let text := identity_text (daily_instrument (report_manifest rep)) daily bodies in
    let text' := identity_text (daily_instrument (report_manifest rep')) daily' bodies' in
    (daily = daily' ∧ bodies = bodies') ∨ (text ≠ text' ∧ sha256 text = sha256 text') ∨
    ∃ x y, x ∈ daily :: bodies ∧ y ∈ daily' :: bodies' ∧ x ≠ y ∧ sha256 x = sha256 y.
Proof.
  rewrite !verified_iff, !verifies_described. intros (db & bs & H) (db' & bs' & H') E. exists db, bs, db', bs'. split; [done|]. split; [done|]. cbv zeta.
  rewrite (described_revision _ _ _ _ _ H), (described_revision _ _ _ _ _ H') in E. destruct (decide (identity_text (daily_instrument (report_manifest rep)) db bs = identity_text (daily_instrument (report_manifest rep')) db' bs')) as [Ht|Ht]; [|by right; left].
  unfold identity_text in Ht. do 2 apply app_inv_head in Ht. apply identity_entry_inj in Ht as [Hd Hb]. apply (identity_entries_inj _ _ 0) in Hb.
  destruct (same_digests (db :: bs) (db' :: bs')) as [[= -> ->]|Hx]; [by constructor|by left|by right; right].
Qed.

(** What is read of a page: the items of the body its metadata describes. *)
Definition page_items (d : Disk) (root : Path) (m : PageMetadata) (texts : list (list Z)) : Prop :=
  ∃ body value items, object_file d root m body ∧ from_json body = Some value ∧ value_get value "items" ≫= value_as_array = Some items ∧
    collect_results (λ item, ok_or (to_json item) PayloadJson) items = Ok texts ∧ zlen texts = record_count m.

Lemma quiet_read_page r p : quiet (read_page_records r p).
Proof. unfold read_page_records. cbv zeta. repeat (apply quiet_bind; [auto with osmium|]; intros ?). apply quiet_lift. Qed.

Lemma read_page_gives d rep p texts : kind p = TickPage → object_sound d (revision_root rep) p → gives (read_page_records rep p) d texts →
  page_items d (revision_root rep) p texts.
Proof.
  intros Hk (_ & body & Hf & Hb) H. unfold read_page_records in H. cbv zeta in H. pose proof Hf as (content & Hc & Hd & _).
  apply gives_bind in H as (u & _ & H); [|auto with osmium]. apply gives_bind in H as (frame & Hfr%gives_read & H); [|auto with osmium].
  rewrite Hc in Hfr. injection Hfr as <-. apply gives_bind in H as (body' & Hb'%gives_ok_or & H); [|auto with osmium]. rewrite Hd in Hb'. injection Hb' as <-.
  apply gives_bind in H as (v & Hv%gives_ok_or & H); [|auto with osmium]. apply gives_bind in H as (items & Hi%gives_ok_or & H%gives_lift); [|auto with osmium].
  exists body, v, items. split; [done|]. split; [done|]. split; [done|]. split; [done|].
  unfold check_body in Hb. rewrite Hv in Hb. destruct (_ || _); [done|]. simpl in Hb. unfold actual_records in Hb. rewrite Hk, Hi in Hb. simpl in Hb.
  destruct (Z.eqb_spec (zlen items) (record_count p)) as [E|]; [|done]. unfold zlen in *. apply collect_results_Ok, Forall2_length in H. by rewrite <-H.
Qed.

Lemma traverse_gives {E A B} (f : A → IO E B) (l : list A) d ys : (∀ x, quiet (f x)) → gives (traverse f l) d ys → Forall2 (λ x y, gives (f x) d y) l ys.
Proof.
  intros Hf. revert ys. induction l as [|x l IH]; intros ys H; simpl in H; [apply gives_ret in H as <-; constructor|].
  apply gives_bind in H as (y & Hy & H); [|done]. apply gives_bind in H as (ys' & Hys & <-%gives_ret); [|by apply quiet_traverse]. constructor; auto.
Qed.

Lemma records_total_sum l t n : records_total t l = Some n → n = t + foldr (λ m acc, record_count m + acc) 0 l.
Proof.
  revert t. induction l as [|m l IH]; intros t; unfold records_total in *; simpl; [intros [= <-]; lia|].
  destruct (to_u64 (t + record_count m)) as [t'|] eqn:E; [|by rewrite records_total_None]. intros H%IH. apply checked_Some in E as [-> _]. lia.
Qed.

(** C27: reading a verified revision gives, page by page in order, the items of
    the verified bodies: as many records as the manifest counts. *)
Theorem verified_records d root rep records d' : verified d root rep → run (read_tick_records rep) d = (Ok records, d') →
  d' = d ∧ zlen records = tick_record_count (report_manifest rep) ∧
  ∃ groups, records = concat groups ∧ Forall2 (page_items d (revision_root rep)) (pages (report_manifest rep)) groups.
Proof.
  rewrite verified_iff. intros (bytes & mb & _ & _ & _ & _ & _ & _ & [_ _ _ _ Hp Hsum _ _ _]) Hr.
  assert (Hq : quiet (read_tick_records rep)) by (unfold read_tick_records; apply quiet_bind; [apply quiet_traverse, quiet_read_page|intros; apply quiet_ret]).
  assert (d' = d) as -> by (pose proof (quiet_run _ d Hq) as E; by rewrite Hr in E). split; [done|]. unfold read_tick_records in Hr.
  apply (gives_bind (traverse _ _)) in Hr as (groups & Hg & <-%gives_ret); [|apply quiet_traverse, quiet_read_page].
  apply traverse_gives in Hg; [|apply quiet_read_page].
  assert (Hall : Forall2 (page_items d (revision_root rep)) (pages (report_manifest rep)) groups).
  { apply Forall2_same_length_lookup. split; [by eapply Forall2_length|]. intros i m g Hm Hgi. destruct (Hp i m Hm) as [[Hk _] Hs].
    apply read_page_gives; [done|done|]. exact (Forall2_lookup_lr _ _ _ _ _ _ Hg Hm Hgi). }
  split; [|by exists groups]. apply records_total_sum in Hsum as ->. rewrite Z.add_0_l. clear -Hall.
  induction Hall as [|m g ms gs (body & v & items & _ & _ & _ & _ & Hn) _ IH]; [done|]. simpl. unfold zlen in *. rewrite length_app, Nat2Z.inj_add. lia.
Qed.

Context {SPL : SerdeLaws PageMetadata metadata_wf} {SML : SerdeLaws SourceManifest manifest_wf}.

(** A staged revision that is ready to be published. *)
Record ready (s : StagingRevision) (query : list Z) (d : Disk) : Prop := {
  ready_apart : separate (publish_root s) (attempt_path s);
  ready_staged : staged s d;
  ready_pages : staged_pages s ≠ [];
  ready_query : Hex.is_digest query;
  ready_tree x : entry d (publish_root s ++ [REVISIONS; x; MANIFEST]) ≠ None → entry d (publish_root s ++ [REVISIONS; x]) = Some Dir }.

(** C22: publication is atomic: wherever a run of [publish] is cut short, and
    whichever of its calls fail, the source verifies as before or as the
    staged revision. *)
Theorem publication_atomic s query terminal d o d' : ready s query d → runs (publish s query terminal) d o d' →
  (∀ old, verified d (publish_root s) old → verified d' (publish_root s) old) ∨
  ∃ rep, verified d' (publish_root s) rep ∧ pages (report_manifest rep) = staged_pages s ∧ Some (daily_instrument (report_manifest rep)) = staged_daily s.
Proof.
  intros [H1 H2 H3 H4 H5] Hr. destruct (wp_publish s query d H1 H2 H3 H4 H5 terminal _ _ Hr) as [[H|(m & sem & daily & Hm & Hd & Hv)] _].
  - left. intros old. rewrite !verified_iff. apply H.
  - right. exists (report_of (publish_root s) m sem). rewrite verified_iff, Hd. split; [done|]. simpl. split; [apply Hm|]. f_equal. apply Hm.
Qed.

(** C23: a published revision verifies: when [publish] returns, under any failures
    on the way, the current revision is the manifest it returned, with the
    staged pages and the staged daily instrument, for the query. *)
Theorem published_verifies s query terminal d p d' : ready s query d → runs (publish s query terminal) d (Some (Ok p)) d' →
  ∃ rep, verified d' (publish_root s) rep ∧ report_manifest rep = manifest p ∧ revision_root rep = path p ∧ pages (manifest p) = staged_pages s ∧
    Some (daily_instrument (manifest p)) = staged_daily s ∧ query_identity (manifest p) = Hex.hex query ∧ terminal = true.
Proof.
  intros [H1 H2 H3 H4 H5] Hr. destruct (wp_publish s query d H1 H2 H3 H4 H5 terminal _ _ Hr) as [_ Hq].
  destruct (Hq p eq_refl) as (Ht & sem & daily & Hm & Hd & Hp & Hv). exists (report_of (publish_root s) (manifest p) sem).
  rewrite verified_iff, Hd. split; [done|]. split; [done|]. split; [done|]. split; [apply Hm|]. split; [f_equal; apply Hm|]. split; [apply Hm|done].
Qed.

(** C24: an interrupted page is resumed: however a run of [stage_page] ends,
    the attempt holds at least the pages committed before it, and resuming it
    with any number of them gives a sound staged revision of exactly those,
    with the metadata that is on disk. *)
Theorem interrupted_staging_resumes s d k p o d' c : is_str zstd_version_string → staged s d → committed d (attempt_path s) k →
  zlen (staged_pages s) ≤ k → zlen (staged_pages s) < PAGE_LIMIT → page_body_ok p → runs (stage_page s p) d o d' →
  ∃ k', k ≤ k' ∧ committed d' (attempt_path s) k' ∧ (∀ r, o = Some (Ok r) → zlen (staged_pages s) < k') ∧
    ∀ s' d2, 0 ≤ c ≤ k' → runs (resume_at (publish_root s) (attempt_path s) c) d' (Some (Ok s')) d2 →
      zlen (staged_pages s') = c ∧ staged (forget_daily s') d' ∧ d2 = d' ∧
      ∀ i m, staged_pages s' !! i = Some m → recorded d' (attempt_path s) (Z.of_nat i) m.
Proof.
  intros Hv Hs Hc Hk Hl Hp Hr. destruct (wp_stage_page Hv s d p Hs Hl Hp _ _ Hr) as [(Hs' & Hch & Hsame) Hret].
  assert (Hi : is_page (zlen (staged_pages s))) by (unfold is_page, zlen in *; lia).
  destruct (committed_step d d' (attempt_path s) k (zlen (staged_pages s))) as (k' & Hkk & Hck & Hf); [done|unfold zlen in *; lia|done|apply Hs'|done|done|].
  exists k'. split; [done|]. split; [done|]. split.
  - intros [sp s'] ->. apply Hf. destruct (Hret _ eq_refl) as (_ & _ & _ & _ & _ & b & Hb & _). by rewrite Hb.
  - intros s' d2 Hc0 Hrun. destruct (wp_resume (publish_root s) (attempt_path s) d' k' c Hck Hc0 _ _ Hrun) as [-> Hq].
    destruct (Hq s' eq_refl) as (_ & _ & _ & Hn & Hst & Hrec). done.
Qed.

(** ** What interrupted runs leave behind *)

Lemma wp_stage_blocked s d p : let i := zlen (staged_pages s) in let a := attempt_path s in
  is_page i → page_ordinal p = i → entry d (page_path a i YAML) = None → entry d (page_path a i OBJECT_TMP) ≠ None →
  wp (stage_page s p) (λ _, True) (λ _ _, False) d.
Proof.
  intros i a Hi Ho Hy Ht.
  unfold stage_page, stage_object. apply wp_do, wp_do, wp_try; [done|]. intros _ _. rewrite Ho, (metadata_names i Hi).
  change (attempt_path s ++ PAGES ++ [page_name i YAML]) with (page_path a i YAML).
  apply wp_do, wp_exists; [done|]. rewrite Hy, bool_decide_eq_false_2 by by intros []. apply wp_do. unfold write_compressed_object.
  rewrite (proj1 (object_names i Hi)). change (attempt_path s ++ PAGES ++ [page_name i OBJECT]) with (page_path a i OBJECT). rewrite object_tmp.
  by apply wp_do, wp_create_new.
Qed.
(** A page whose temporary file was left behind is never staged again. *)
Theorem stale_temporary_blocks s d p r d' : let i := zlen (staged_pages s) in let a := attempt_path s in
  is_page i → page_ordinal p = i → entry d (page_path a i YAML) = None → entry d (page_path a i OBJECT_TMP) ≠ None →
  ¬ runs (stage_page s p) d (Some (Ok r)) d'.
Proof. intros i a Hi Ho Hy Ht Hr. destruct (wp_stage_blocked s d p Hi Ho Hy Ht _ _ Hr) as [_ H]. by eapply H. Qed.

Lemma wp_move_refused s m d : entry d (publish_root s ++ [REVISIONS; revision_identity m]) = Some Dir →
  wp (move_to_revisions s m) (λ _, True) (λ _ _, False) d.
Proof.
  intros Hpub. unfold move_to_revisions. apply wp_do, wp_create_dirs; [done|done|]. intros _. rewrite <-app_assoc.
  apply wp_do, wp_exists; [done|]. apply wp_do, wp_try; [done|]. intros u Hu. exfalso. revert Hu.
  rewrite bool_decide_eq_true_2; [done|]. exists Dir. by apply make_dirs_keeps.
Qed.

(** A revision that was moved into place is never published again, whatever
    became of its contents or of the pointer. *)
Theorem republication_refused s query terminal m d p d' : separate (publish_root s) (attempt_path s) →
  (∀ daily, staged_daily s = Some daily → build query terminal (staged_pages s) daily = Ok m) → (∀ q, q ∈ pages m → is_page (ordinal q)) →
  entry d (publish_root s ++ [REVISIONS; revision_identity m]) = Some Dir →
  ¬ runs (publish s query terminal) d (Some (Ok p)) d'.
Proof.
  intros Hsep Hb Hp Hpub Hr. assert (Hwp : wp (publish s query terminal) (λ _, True) (λ _ _, False) d); [|by destruct (Hwp _ _ Hr) as [_ H]; eapply H].
  unfold publish. apply wp_do, wp_try; [done|]. intros daily Hd. destruct (staged_daily s) as [daily'|] eqn:Es; simplify_eq/=.
  apply wp_do, wp_try; [done|]. intros m' Hm. rewrite (Hb daily eq_refl) in Hm. injection Hm as <-.
  apply wp_do. eapply wp_conseq; [apply (wp_seal s m d Hp)|done|]. intros u1 d1 _ (Hc & _ & _). clear u1.
  assert (Hpub1 : entry d1 (publish_root s ++ [REVISIONS; revision_identity m]) = Some Dir).
  { rewrite <-(app_nil_r (_ ++ _)), (attempt_changes_pub (publish_root s) (attempt_path s) m Hsep d d1), app_nil_r; [done|].
    eapply changes_mono; [|exact Hc]. apply sealed_below. }
  apply wp_do. eapply wp_conseq; [by apply wp_move_refused|done|]. done.
Qed.

End source.
End SourceLaws.

(** * SourceDemo

    An instance of the third-party parts of the storage crate, and a revision
    staged and published with it. *)

Module SourceDemo.
Import Files FilesLaws Storage Verify VerifyLaws StorageLaws StagingLaws ResumeLaws PublishLaws PublishRuns SourceLaws.

(** ** Third-party parts *)

(** A value is its text; its items are its bytes, one each. *)
#[export] Instance demo_json : Json := {|
  Value := list Z; from_json b := if b is [] then None else Some b; to_json v := Some v; value_get v _ := Some v; value_is_object _ := true;
  value_is_null v := bool_decide (v = []); value_as_array v := Some ((λ b, [b]) <$> v); value_as_str v := Some v |}.
#[export] Instance demo_zstd : Zstd := {|
  compress b := 40 :: b; decompress b := match b with 40 :: b => Some b | _ => None end; zstd_version_string := bytes_of "1.5.7" |}.
#[export] Instance demo_sha256 : Sha256 := λ l, be_bytes 32 (from_be l).
#[export] Instance demo_blake3 : Blake3 := λ l, be_bytes 32 (from_be l + 1).

#[export] Instance demo_sha256_laws : Sha256Laws.
Proof. intros x. split; [apply length_be_bytes|apply be_bytes_u8]. Qed.

(** Texts with their length, numbers as they are. *)
Definition put_text (t : list Z) : list Z := zlen t :: t.
Definition get_number (l : list Z) : option (Z * list Z) := match l with n :: l => Some (n, l) | [] => None end.
Definition get_text (l : list Z) : option (list Z * list Z) :=
  match l with n :: l => Some (take (Z.to_nat n) l, drop (Z.to_nat n) l) | [] => None end.
Lemma get_put t l : get_text (put_text t ++ l) = Some (t, l).
Proof. unfold get_text, put_text, zlen. simpl. rewrite Nat2Z.id, take_app_length, drop_app_length. done. Qed.

Definition put_metadata (m : PageMetadata) : list Z :=
  (match kind m with TickPage => 0 | DailyInstrument => 1 end) :: ordinal m :: record_count m :: uncompressed_bytes m :: compressed_bytes m ::
  put_text (relative_path m) ++ put_text (uncompressed_sha256 m) ++ put_text (compressed_sha256 m) ++ put_text (zstd_implementation m) ++
  put_text (zstd_version m) ++ put_text (metadata_query_identity m).
Definition get_metadata (l : list Z) : option (PageMetadata * list Z) :=
  match l with
  | k :: o :: n :: u :: c :: l =>
      '(r, l) ← get_text l; '(us, l) ← get_text l; '(cs, l) ← get_text l; '(i, l) ← get_text l; '(v, l) ← get_text l; '(q, l) ← get_text l;
      Some (mk_metadata (if k =? 0 then TickPage else DailyInstrument) o r n u c us cs ZstdPerPageV1 i v q, l)
  | _ => None
  end.
Lemma get_put_metadata m l : get_metadata (put_metadata m ++ l) = Some (m, l).
Proof.
  destruct m as [k o r n u c us cs [] i v q]. unfold put_metadata. cbn [kind ordinal relative_path record_count uncompressed_bytes compressed_bytes
    uncompressed_sha256 compressed_sha256 zstd_implementation zstd_version metadata_query_identity app]. unfold get_metadata. rewrite <-!app_assoc.
  do 6 (rewrite get_put; cbn [mbind option_bind]). by destruct k.
Qed.
Fixpoint get_many (n : nat) (l : list Z) : option (list PageMetadata * list Z) :=
  match n with
  | O => Some ([], l)
  | S n => '(m, l) ← get_metadata l; '(ms, l) ← get_many n l; Some (m :: ms, l)
  end.
Lemma get_put_many ms l : get_many (length ms) ((ms ≫= put_metadata) ++ l) = Some (ms, l).
Proof. induction ms as [|m ms IH]; [done|]. cbn [length get_many]. change ((m :: ms) ≫= put_metadata) with (put_metadata m ++ (ms ≫= put_metadata)).
  rewrite <-app_assoc, get_put_metadata. simpl. by rewrite IH. Qed.

Definition put_manifest (m : SourceManifest) : list Z :=
  manifest_version m :: (if terminal_cursor_reached m then 1 else 0) :: tick_record_count m :: zlen (pages m) ::
  put_text (revision_identity m) ++ put_text (query_identity m) ++ put_metadata (daily_instrument m) ++ (pages m ≫= put_metadata).

#[export] Instance demo_metadata_serde : Serde PageMetadata := {|
  to_vec_pretty m := Some (put_metadata m); from_slice l := '(m, _) ← get_metadata l; Some m |}.
#[export] Instance demo_manifest_serde : Serde SourceManifest := {|
  to_vec_pretty m := Some (put_manifest m);
  from_slice l :=
    match l with
    | v :: t :: n :: k :: l =>
        '(r, l) ← get_text l; '(q, l) ← get_text l; '(d, l) ← get_metadata l; '(ps, l) ← get_many (Z.to_nat k) l; Some (mk_manifest v r q (t =? 1) n ps d)
    | _ => None
    end |}.
#[export] Instance demo_metadata_laws : SerdeLaws PageMetadata metadata_wf.
Proof. intros m bytes _ E. assert (bytes = put_metadata m) as -> by (unfold to_vec_pretty, demo_metadata_serde in E; congruence). unfold from_slice, demo_metadata_serde. by rewrite <-(app_nil_r (put_metadata m)), get_put_metadata. Qed.
#[export] Instance demo_manifest_laws : SerdeLaws SourceManifest manifest_wf.
Proof.
  intros m bytes _ E. assert (bytes = put_manifest m) as -> by (unfold to_vec_pretty, demo_manifest_serde in E; congruence). clear E. destruct m as [v r q t n ps d]. unfold from_slice, demo_manifest_serde, put_manifest. cbn [manifest_version revision_identity query_identity terminal_cursor_reached tick_record_count pages daily_instrument].
  do 2 (rewrite get_put; cbn [mbind option_bind]). rewrite get_put_metadata. cbn [mbind option_bind]. unfold zlen.
  rewrite Nat2Z.id, <-(app_nil_r (ps ≫= put_metadata)), get_put_many. by destruct t.
Qed.

(** ** A staged revision *)

Definition demo_query : list Z := be_bytes 32 7.
Definition demo_page : SourcePage := new_page 0 demo_query [10; 20; 30] 3.
Definition demo_data : Path := [bytes_of "data"].
Definition demo_create : IO StagingError StagingRevision := create demo_data (bytes_of "run-1").
Definition demo_staging : IO StagingError StagingRevision :=
  s ← demo_create; r ← stage_page s demo_page; q ← stage_daily_instrument r.2 demo_query [1]; mret q.2.
Definition value_of {E A} (default : A) (r : result E A) : A := match r with Ok x => x | Err _ => default end.
Lemma run_value {E A} (m : IO E A) d x y d' : y = value_of x (run m d).1 → d' = (run m d).2 → is_ok (run m d).1 = true → run m d = (Ok y, d').
Proof. intros -> ->. by destruct (run m d) as [[]]. Qed.
Lemma run_quiet {E A} (m : IO E A) d x y : quiet m → y = value_of x (run m d).1 → is_ok (run m d).1 = true → run m d = (Ok y, d).
Proof. intros Hq Hy Hok. apply (run_value m d x); [done| |done]. symmetry. by apply quiet_run. Qed.

(** Staged, published and verified. *)
Definition demo_s : StagingRevision := value_of (mk_staging [] [] [] None) (run demo_staging ∅).1.
Definition demo_d : Disk := (run demo_staging ∅).2.
Definition demo_root : Path := demo_data ++ [bytes_of "source"].
Definition demo_attempt : Path := demo_data ++ [bytes_of "staging"; bytes_of "run-1"].
Definition demo_published : PublishedRevision :=
  value_of (mk_published [] (mk_manifest 0 [] [] true 0 [] (page_written demo_page 0))) (run (publish demo_s demo_query true) demo_d).1.
Definition demo_published_d : Disk := (run (publish demo_s demo_query true) demo_d).2.
Definition demo_report : VerificationReport :=
  value_of (mk_report [] (manifest demo_published) []) (run (verify_current (at_source_root demo_root)) demo_published_d).1.
Definition demo_records : list (list Z) := value_of [] (run (read_tick_records demo_report) demo_published_d).1.

Lemma demo_ready_run : run demo_staging ∅ = (Ok demo_s, demo_d).
Proof. eapply run_value; [unfold demo_s; reflexivity|unfold demo_d; reflexivity|]. vm_compute. reflexivity. Qed.
Lemma demo_published_run : run (publish demo_s demo_query true) demo_d = (Ok demo_published, demo_published_d).
Proof. eapply run_value; [unfold demo_published; reflexivity|unfold demo_published_d; reflexivity|]. vm_compute. reflexivity. Qed.
Lemma run_to_runs {A} (m : io A) d x d' : run m d = (x, d') → runs m d (Some x) d'.
Proof. intros E. pose proof (run_runs m d) as H. by rewrite E in H. Qed.
Lemma demo_published_runs : runs (publish demo_s demo_query true) demo_d (Some (Ok demo_published)) demo_published_d.
Proof. exact (run_to_runs _ _ _ _ demo_published_run). Qed.
Lemma demo_verified : verified demo_published_d demo_root demo_report.
Proof.
  eapply run_quiet; [apply quiet_verify_current|unfold demo_report; reflexivity|]. vm_compute. reflexivity.
Qed.
Lemma quiet_read_records rep : quiet (read_tick_records rep).
Proof. apply quiet_bind; [apply quiet_traverse, quiet_read_page|intros; apply quiet_ret]. Qed.
Lemma demo_records_run : run (read_tick_records demo_report) demo_published_d = (Ok demo_records, demo_published_d).
Proof. eapply run_quiet; [apply quiet_read_records|unfold demo_records; reflexivity|]. vm_compute. reflexivity. Qed.

(** No entry of a disk is below a directory. *)
Definition nothing_at (d : Disk) (f : Path → bool) : Prop := map_Forall (λ p _, f p = false) d.
Lemma nothing_at_entry d f p : nothing_at d f → p ≠ [] → f p = true → entry d p = None.
Proof. intros H Hp Hf. unfold entry. destruct p; [done|]. apply eq_None_not_Some. intros [e He]. specialize (H _ _ He). simpl in H. congruence. Qed.

Definition is_dir_at (d : Disk) (p : Path) : bool := match entry d p with Some Dir => true | _ => false end.
Lemma is_dir_at_entry d p : is_dir_at d p = true → entry d p = Some Dir.
Proof. unfold is_dir_at. by destruct (entry d p) as [[]|]. Qed.
Definition is_some {A} (o : option A) : bool := match o with Some _ => true | None => false end.

Lemma demo_page_ok : page_body_ok demo_page.
Proof. constructor; [by exists [10; 20; 30]|by split|by split|apply be_bytes_u8]. Qed.
Lemma demo_daily_ok : body_ok DailyInstrument 1 demo_query [1].
Proof. constructor; [by exists [1]|by split|by split|apply be_bytes_u8]. Qed.
Lemma demo_version : is_str zstd_version_string.
Proof. reflexivity. Qed.
Lemma metadata_sound_empty d a : nothing_at d (λ p, bool_decide (S (length (a ++ PAGES)) = length p)) → metadata_sound d a.
Proof.
  intros Hn i b Hi He. exfalso. rewrite (nothing_at_entry _ _ _ Hn) in He; [done| |].
  - unfold page_path. intros [_ E]%app_eq_nil. done.
  - apply bool_decide_eq_true. unfold page_path. rewrite !length_app. simpl. lia.
Qed.

Lemma demo_create_wp : wp demo_create (λ _, True) (λ s d, staged s d ∧ s = mk_staging demo_root demo_attempt [] None) ∅.
Proof.
  unfold demo_create, create. apply wp_do, wp_try; [done|]. intros _ _. eapply wp_conseq; [apply wp_create|done|].
  - apply metadata_sound_empty. apply (bool_decide_unpack _). vm_compute. exact I.
  - by intros s d _ [-> Hs].
Qed.
Lemma demo_staging_wp : wp demo_staging (λ _, True) (λ s d, staged s d ∧ publish_root s = demo_root ∧ attempt_path s = demo_attempt) ∅.
Proof.
  unfold demo_staging. apply wp_do. eapply wp_conseq; [apply demo_create_wp|done|]. intros s d _ [Hs ->].
  apply wp_do. eapply wp_conseq; [apply (wp_stage_page demo_version _ d demo_page Hs); [done|apply demo_page_ok]|done|].
  intros [sp s1] d1 _ (_ & -> & Hs1 & _). apply wp_do. cbn [snd]. eapply wp_conseq; [apply (wp_stage_daily _ d1 demo_query [1] demo_version Hs1); [by split|apply be_bytes_u8]|done|].
  intros [m s2] d2 _ [E Hs2]. apply wp_done; [done|]. injection E as -> ->. split; [exact Hs2|]. by split.
Qed.

Lemma demo_ready_facts : negb (bool_decide (staged_pages demo_s = [])) = true ∧ nothing_at demo_d (λ p, bool_decide (take 3 p = demo_root ++ [REVISIONS])).
Proof. split; [vm_compute; reflexivity|]. apply (bool_decide_unpack _); vm_compute; exact I. Qed.
Lemma demo_is_ready : ready demo_s demo_query demo_d ∧ publish_root demo_s = demo_root.
Proof.
  destruct demo_ready_facts as [H3 H4]. destruct (wp_run _ _ _ _ _ _ demo_staging_wp demo_ready_run) as (Hs & Hr & Ha).
  split; [|exact Hr]. constructor; [rewrite Hr, Ha; apply separate_layouts|exact Hs| | |].
  - intros E. rewrite E in H3. discriminate H3.
  - split; [reflexivity|apply be_bytes_u8].
  - intros x Hx. exfalso. apply Hx. rewrite Hr. apply (nothing_at_entry _ _ _ H4); [done|]. by apply bool_decide_eq_true.
Qed.

(** ** Witnesses *)

Lemma publication_atomic_witness : ∃ d', runs (publish demo_s demo_query true) demo_d None d' ∧
  ((∀ old, verified demo_d (publish_root demo_s) old → verified d' (publish_root demo_s) old) ∨
   ∃ rep, verified d' (publish_root demo_s) rep ∧ pages (report_manifest rep) = staged_pages demo_s ∧
     Some (daily_instrument (report_manifest rep)) = staged_daily demo_s).
Proof.
  assert (Hr : runs (publish demo_s demo_query true) demo_d None demo_d) by (apply run_cut; vm_compute; reflexivity). exists demo_d. split; [exact Hr|].
  exact (publication_atomic demo_s demo_query true demo_d None demo_d (proj1 demo_is_ready) Hr).
Defined.

Lemma published_verifies_witness : ∃ rep, verified demo_published_d (publish_root demo_s) rep ∧ report_manifest rep = manifest demo_published.
Proof.
  destruct (published_verifies demo_s demo_query true demo_d demo_published demo_published_d (proj1 demo_is_ready) demo_published_runs) as (rep & Hv & Hm & _).
  exists rep. split; [exact Hv|exact Hm].
Defined.

Lemma verified_revision_witness : ∃ daily_body bodies, revision_described demo_published_d demo_root demo_report daily_body bodies.
Proof. exact (proj1 (verified_revision demo_published_d demo_root demo_report) demo_verified). Defined.

Lemma revision_identifies_witness : ∃ daily bodies, revision_described demo_published_d demo_root demo_report daily bodies.
Proof.
  destruct (revision_identifies demo_published_d demo_root demo_report demo_published_d demo_root demo_report demo_verified demo_verified eq_refl)
    as (daily & bodies & _ & _ & H & _). exists daily, bodies. exact H.
Defined.

Lemma verified_records_witness : zlen demo_records = tick_record_count (report_manifest demo_report) ∧ zlen demo_records = 3.
Proof.
  split; [|vm_compute; reflexivity].
  exact (proj1 (proj2 (verified_records demo_published_d demo_root demo_report demo_records demo_published_d demo_verified demo_records_run))).
Defined.

Definition demo_empty : StagingRevision := mk_staging demo_root demo_attempt [] None.
Definition demo_created : Disk := (run demo_create ∅).2.
Lemma demo_created_facts : staged demo_empty demo_created ∧ committed demo_created demo_attempt 0 ∧
  negb (is_some (entry demo_created (page_path demo_attempt 0 YAML))) = true.
Proof.
  assert (Hrun : run demo_create ∅ = (Ok (value_of demo_empty (run demo_create ∅).1), demo_created)) by (eapply run_value; [reflexivity|unfold demo_created; reflexivity|]; vm_compute; reflexivity).
  destruct (wp_run _ _ _ _ _ _ demo_create_wp Hrun) as [Hs E]. rewrite E in Hs. split; [exact Hs|]. split; [|vm_compute; reflexivity].
  assert (Hn : nothing_at demo_created (λ p, bool_decide (S (length (demo_attempt ++ PAGES)) = length p))) by (apply (bool_decide_unpack _); vm_compute; exact I).
  constructor; [by apply metadata_sound_empty|by split|intros i Hi; lia|]. intros n _ He. exfalso. apply He.
  apply (nothing_at_entry _ _ _ Hn); [done|]. reflexivity.
Qed.

Lemma interrupted_staging_resumes_witness : ∃ d' k, runs (stage_page demo_empty demo_page) demo_created None d' ∧ committed d' demo_attempt k.
Proof.
  destruct demo_created_facts as (H2 & H4 & _). assert (Hr : runs (stage_page demo_empty demo_page) demo_created None demo_created) by (apply run_cut; vm_compute; reflexivity).
  destruct (interrupted_staging_resumes demo_empty _ 0 demo_page None _ 0 demo_version H2 H4 ltac:(done) ltac:(done) demo_page_ok Hr) as (k & _ & Hc & _).
  eexists _, k. split; [exact Hr|exact Hc].
Defined.

Definition demo_stale : Disk := <[page_path demo_attempt 0 OBJECT_TMP := File []]> demo_created.
Definition demo_staged_page : StagedPage * StagingRevision := (mk_staged (page_written demo_page 0) (commit_receipt demo_page), demo_empty).
Lemma stale_temporary_blocks_witness : ¬ runs (stage_page demo_empty demo_page) demo_stale (Some (Ok demo_staged_page)) demo_stale.
Proof.
  destruct demo_created_facts as (_ & _ & H5). apply (stale_temporary_blocks demo_empty); unfold demo_stale; [by split|reflexivity| |].
  - rewrite entry_insert_ne; [|by apply page_path_ne]. change (attempt_path demo_empty) with demo_attempt. by destruct (entry demo_created _).
  - by rewrite entry_insert.
Defined.

Lemma demo_manifest_facts : (∀ daily, staged_daily demo_s = Some daily → build demo_query true (staged_pages demo_s) daily = Ok (manifest demo_published)) ∧
  (∀ q, q ∈ pages (manifest demo_published) → is_page (ordinal q)) ∧
  is_dir_at demo_published_d (publish_root demo_s ++ [REVISIONS; revision_identity (manifest demo_published)]) = true.
Proof.
  split; [|split; [|vm_compute; reflexivity]].
  - assert (E : match staged_daily demo_s with Some daily => build demo_query true (staged_pages demo_s) daily | None => Err DailyInstrumentMissing end = Ok (manifest demo_published)) by (vm_compute; reflexivity).
    intros daily Hd. by rewrite Hd in E.
  - assert (E : forallb (λ q, ordinal q =? 0) (pages (manifest demo_published)) = true) by (vm_compute; reflexivity). intros q Hq.
    pose proof (proj1 (forallb_forall _ _) E q (proj1 (list_elem_of_In _ _) Hq)) as E0. cbv beta in E0. rewrite Z.eqb_eq in E0. rewrite E0. by split.
Qed.
Lemma republication_refused_witness : ¬ runs (publish demo_s demo_query true) demo_published_d (Some (Ok demo_published)) demo_published_d.
Proof.
  destruct demo_manifest_facts as (H4 & H5 & H6). apply is_dir_at_entry in H6.
  exact (republication_refused demo_s demo_query true (manifest demo_published) demo_published_d _ _ (ready_apart _ _ _ (proj1 demo_is_ready)) H4 H5 H6).
Defined.

End SourceDemo.
