(* ===== verification/Layout.v ===== *)
(** Where the partitions live (data-sync/src/partition.rs): the roots of the
    source and the replay cache of a partition, the key file of a root, and
    staging below it (storage.rs). *)
From S2P Require Import Prelude Order Text Calendar Identity Event MarketState Orders Output Partition Files Storage Verify.

Module Layout.
Import Files Storage Verify.
Import Partition(SourcePartitionKey, SourceId, source, instrument, trading_date, session_kinds, session_plan_identity, identity, source_bytes, safe_byte).

Definition PARTITION_LAYOUT_VERSION : Z := 2.
Definition PARTITION_MANIFEST_FILE : Name := bytes_of "partition.yaml".
Definition SYMBOL_COMPONENT_CHARS : Z := 180.

Record SourcePartitionManifest : Set := mk_partition {
  layout_version : Z; manifest_source : list Z; instrument_market : Z; instrument_symbol : list Z; trading_date_epoch_days : Z;
  manifest_session_kinds : list Z; manifest_plan_identity : list Z; partition_identity : list Z }.
#[global] Instance SourcePartitionManifest_eq_dec : EqDecision SourcePartitionManifest.
Proof. solve_decision. Defined.

Definition from_key (key : SourcePartitionKey) : SourcePartitionManifest :=
  mk_partition PARTITION_LAYOUT_VERSION (source_bytes (source key)) (Market.discriminant (Instrument.market (instrument key)))
    (Symbol.as_bytes (Instrument.symbol (instrument key))) (TradingDate.as_epoch_days (trading_date key))
    (Output.kind_discriminant <$> session_kinds key) (Hex.hex (session_plan_identity key)) (Hex.hex (identity key)).
Definition matches (m : SourcePartitionManifest) (key : SourcePartitionKey) : bool := bool_decide (m = from_key key).

(** ** Roots *)

Definition market_name (i : Instrument.InstrumentId) : Name :=
  match Instrument.market i with
  | Market.Twse => bytes_of "twse" | Market.Tpex => bytes_of "tpex" | Market.Taifex => bytes_of "taifex"
  end.

Definition encode_byte (b : Z) : list Z := if safe_byte b then [b] else [37; Hex.hex_digit (Z.shiftr b 4); Hex.hex_digit (Z.land b 15)].
(** [slice::chunks]. *)
Fixpoint chunks_fuel (fuel : nat) (n : Z) (l : list Z) : list (list Z) :=
  match fuel, l with
  | S fuel, _ :: _ => take (Z.to_nat n) l :: chunks_fuel fuel n (drop (Z.to_nat n) l)
  | _, _ => []
  end.
Definition chunks (n : Z) (l : list Z) : list (list Z) := chunks_fuel (length l) n l.
Definition encoded_symbol_path (value : list Z) : Path := chunks SYMBOL_COMPONENT_CHARS (value ≫= encode_byte).

Definition cache_instrument_root (data_root : Path) (s : SourceId) (i : Instrument.InstrumentId) (d : TradingDate.TradingDate) : Path :=
  data_root ++ [bytes_of "cache"; bytes_of "replay"; source_bytes s; market_name i; TradingDate.display d] ++
  encoded_symbol_path (Symbol.as_bytes (Instrument.symbol i)).
Definition keyed_root (data_root : Path) (prefix : Path) (key : SourcePartitionKey) : Path :=
  data_root ++ prefix ++ [source_bytes (source key); market_name (instrument key); TradingDate.display (trading_date key)] ++
  encoded_symbol_path (Symbol.as_bytes (Instrument.symbol (instrument key))).
Definition partition_root (data_root : Path) (key : SourcePartitionKey) : Path := keyed_root data_root [bytes_of "source"] key.
Definition cache_partition_root (data_root : Path) (key : SourcePartitionKey) : Path :=
  keyed_root data_root [bytes_of "cache"; bytes_of "replay"] key.

(** ** The key file *)

(** The text of a manifest error is not kept. *)
Inductive PartitionRepositoryError : Set := RepositoryIo (kind : IoError) | RepositoryManifest | ManifestMismatch.

Definition write_atomic (path : Path) (bytes : list Z) : IO PartitionRepositoryError () :=
  let temporary := with_extension path (bytes_of "tmp") in
  _ ← sys RepositoryIo (Create temporary);
  _ ← sys RepositoryIo (Write temporary bytes);
  sys RepositoryIo (Rename temporary path).

Record PartitionedSourceRepository : Set := mk_partitioned { repository_key : SourcePartitionKey; root : Path; inner : LocalSourceRepository }.
Definition new_partitioned (data_root : Path) (key : SourcePartitionKey) : PartitionedSourceRepository :=
  let root := partition_root data_root key in mk_partitioned key root (at_source_root root).
Definition current_path (r : PartitionedSourceRepository) : Path := root r ++ [CURRENT].
Definition partition_manifest_path (r : PartitionedSourceRepository) : Path := root r ++ [PARTITION_MANIFEST_FILE].

Section operations.
Context {J : Json} {SK : Serde SourcePartitionManifest} {SP : Serde PageMetadata} {SM : Serde SourceManifest} {ZS : Zstd} {SH : Sha256}.

Definition read_key_file (path : Path) : IO PartitionRepositoryError SourcePartitionManifest :=
  bytes ← sys RepositoryIo (Read path); lift (ok_or (from_slice bytes) RepositoryManifest).
Definition ensure_layout (r : PartitionedSourceRepository) : IO PartitionRepositoryError () :=
  _ ← sys RepositoryIo (CreateDirAll (root r));
  bytes ← lift (ok_or (to_vec_pretty (from_key (repository_key r))) RepositoryManifest);
  there ← exists_ (partition_manifest_path r);
  if there : bool then
    existing ← read_key_file (partition_manifest_path r);
    lift (if negb (matches existing (repository_key r)) then Err ManifestMismatch else Ok ())
  else write_atomic (partition_manifest_path r) bytes.
Definition read_manifest (r : PartitionedSourceRepository) : IO PartitionRepositoryError (option SourcePartitionManifest) :=
  there ← exists_ (partition_manifest_path r);
  if there : bool then m ← read_key_file (partition_manifest_path r); mret (Some m) else mret None.
Definition inspect_partition (r : PartitionedSourceRepository) : IO VerificationError SourceInspection :=
  manifest ← attempt (read_manifest r);
  match manifest with
  | Ok (Some m) => if matches m (repository_key r) then inspect (inner r) else mret (corrupt PartitionKeyMismatch)
  | Ok None => inspect (inner r)
  | Err _ => mret (corrupt PartitionUnreadable)
  end.
Definition plan_sync_partition (r : PartitionedSourceRepository) : IO VerificationError SyncDisposition := plan_sync (inner r).
Definition verify_current_partition (r : PartitionedSourceRepository) : IO VerificationError VerificationReport := verify_current (inner r).

(** ** Staging below a root (storage.rs) *)

Definition attempt_root (root : Path) (attempt_id : list Z) : Path := root ++ [bytes_of "staging"; attempt_id].
Definition create_for_partition (data_root : Path) (key : SourcePartitionKey) (attempt_id : list Z) : IO StagingError StagingRevision :=
  _ ← lift (validate_attempt_id attempt_id);
  let repository := new_partitioned data_root key in
  _ ← io_map_err (λ _, PartitionError) (ensure_layout repository);
  create_at_root (root repository) (attempt_root (root repository) attempt_id).
Definition resume_for_partition (data_root : Path) (key : SourcePartitionKey) (attempt_id : list Z) (committed_pages : Z) :
    IO StagingError StagingRevision :=
  _ ← lift (validate_attempt_id attempt_id);
  let repository := new_partitioned data_root key in
  resume_at (root repository) (attempt_root (root repository) attempt_id) committed_pages.

End operations.
End Layout.
