(* ===== verification/LayoutLaws.v ===== *)
(** What the layout of partitions promises: the root of a partition names it
    and stays below the data directory, and belongs to one key. *)
From S2P Require Import Prelude Order Text Calendar Identity Event MarketState Orders Output Partition Planning PlanningLaws Files Storage Verify VerifyLaws StagingLaws SourceLaws Layout.

Module LayoutLaws.
Import Files FilesLaws Storage Verify VerifyLaws StorageLaws StagingLaws Layout.
Import Partition(SourcePartitionKey, SourceId, source, instrument, trading_date, session_kinds, session_plan_identity, identity, source_bytes, safe_byte, canonical).
Import PlanningLaws(built_key).

(** ** Names *)

Definition root_byte (b : Z) : bool := safe_byte b || (b =? 37).
(** A name of letters, digits, [-], [_] and [%]. *)
Definition safe_name (n : Name) : Prop := n ≠ [] ∧ Forall (λ b, root_byte b = true) n.

Lemma root_byte_not b x : root_byte b = true → root_byte x = false → x ≠ b.
Proof. by intros Hb Hx ->; rewrite Hb in Hx. Qed.
Lemma split_on_single x (l : list Z) : Forall (λ b, b ≠ x) l → split_on x l = [l].
Proof. induction 1 as [|b l Hb _ IH]; [done|]. simpl. rewrite IH. by destruct (Z.eqb_spec b x). Qed.
Lemma safe_name_component n : safe_name n → components n = [Normal n].
Proof.
  intros [Hn Hb]. unfold components. rewrite split_on_single by (eapply Forall_impl; [|exact Hb]; intros b H; by apply not_eq_sym, (root_byte_not b)).
  assert (Hdot : ∀ l, n ≠ 46 :: l) by (intros l ->; by apply list.Forall_cons in Hb as [Hx _]).
  cbn [omap list_omap]. unfold component_of. rewrite !bool_decide_eq_false_2 by auto. simpl. repeat case_match; simplify_eq; try done; exfalso; by eapply Hdot.
Qed.

Lemma encode_byte_root b : Hex.is_byte b → Forall (λ x, root_byte x = true) (encode_byte b) ∧ encode_byte b ≠ [].
Proof.
  intros Hb. unfold encode_byte. destruct (safe_byte b) eqn:Es; (split; [|done]); [constructor; [|constructor]; unfold root_byte; by rewrite Es|].
  destruct (Hex.nibbles b Hb) as (H1 & H2 & _). assert (Hd : ∀ x, 0 ≤ x < 16 → root_byte (Hex.hex_digit x) = true).
  { intros x Hx. pose proof (proj2 (Hex.hex_digit_ok true x Hx)) as H; unfold root_byte, safe_byte, Partition.is_ascii_alphanumeric; unfold Hex.is_hex_byte in *; unfold in_range in *; lia. }
  constructor; [done|]. constructor; [by apply Hd|]. constructor; [by apply Hd|constructor].
Qed.
Lemma encode_byte_inj b b' x x' : Hex.is_byte b → Hex.is_byte b' → encode_byte b ++ x = encode_byte b' ++ x' → b = b' ∧ x = x'.
Proof.
  intros Hb Hb'. destruct (Hex.nibbles b Hb) as (H1 & H2 & H3), (Hex.nibbles b' Hb') as (H1' & H2' & H3').
  assert (Hinj : ∀ a c, 0 ≤ a < 16 → 0 ≤ c < 16 → Hex.hex_digit a = Hex.hex_digit c → a = c).
  { intros a c Ha Hc E. pose proof (proj1 (Hex.hex_digit_ok true a Ha)) as Ea. rewrite E, (proj1 (Hex.hex_digit_ok true c Hc)) in Ea. congruence. }
  unfold encode_byte. destruct (safe_byte b) eqn:Es, (safe_byte b') eqn:Es'; cbn [app]; intros E; inversion E; subst; try done.
  split; [|done]. rewrite <-H3, <-H3'. f_equal; [f_equal|]; by apply Hinj.
Qed.
Lemma encode_inj (v w : list Z) : Forall Hex.is_byte v → Forall Hex.is_byte w → v ≫= encode_byte = w ≫= encode_byte → v = w.
Proof.
  intros Hv. revert w. induction Hv as [|b v Hb _ IH]; intros w Hw; destruct Hw as [|b' w Hb' Hw]; try done.
  - intros E. symmetry in E. by apply app_eq_nil in E as [[]%encode_byte_root _].
  - intros E. by apply app_eq_nil in E as [[]%encode_byte_root _].
  - intros [-> E]%encode_byte_inj; [|done..]. f_equal. auto.
Qed.

Lemma chunks_spec n (l : list Z) : 0 < n → concat (chunks n l) = l ∧ Forall (λ c, c ≠ [] ∧ zlen c ≤ n ∧ ∀ P : Z → Prop, Forall P l → Forall P c) (chunks n l).
Proof.
  intros Hn. unfold chunks. assert (Hlen : (length l ≤ length l)%nat) by done. revert Hlen. generalize (length l) at 2 3 4 as f. intros f. revert l.
  induction f as [|f IH]; intros [|x l] Hf; simpl in *; try done; [lia|]. destruct (Z.to_nat n) as [|k] eqn:Ek; [lia|]. simpl.
  destruct (IH (drop k l)) as [H1 H2]; [rewrite length_drop; lia|]. split; [by rewrite H1, take_drop|]. constructor.
  - split; [done|]. split; [unfold zlen; simpl; rewrite length_take; lia|]. intros P [Hx Hl]%list.Forall_cons. constructor; [done|]. by apply Forall_take.
  - eapply Forall_impl; [|exact H2]. intros c (Hc & Hz & HP). split; [done|]. split; [done|]. intros P [_ Hl]%list.Forall_cons. by apply HP, Forall_drop.
Qed.

Lemma encoded_symbol_names v : Forall Hex.is_byte v → Forall safe_name (encoded_symbol_path v) ∧ Forall (λ c, zlen c ≤ SYMBOL_COMPONENT_CHARS) (encoded_symbol_path v).
Proof.
  intros Hv. destruct (chunks_spec SYMBOL_COMPONENT_CHARS (v ≫= encode_byte)) as [_ Hc]; [done|].
  split; (eapply Forall_impl; [|exact Hc]); intros c (Hn & Hl & HP); [|done]. split; [done|]. apply HP. clear -Hv.
  induction Hv as [|b v Hb _ IH]; [constructor|]. cbn. apply Forall_app. split; [by apply encode_byte_root|done].
Qed.
Lemma encoded_symbol_inj v w : Forall Hex.is_byte v → Forall Hex.is_byte w → encoded_symbol_path v = encoded_symbol_path w → v = w.
Proof.
  intros Hv Hw E. apply encode_inj; [done..|]. unfold encoded_symbol_path in E.
  rewrite <-(proj1 (chunks_spec SYMBOL_COMPONENT_CHARS (v ≫= encode_byte) eq_refl)), E. by apply chunks_spec.
Qed.

(** ** Roots *)

Section keys.
Context {B : Event.Blake3}.

(** A key that the planner built for a well-formed instrument, with identities of 32 bytes. *)
Record proper_key (k : SourcePartitionKey) : Prop := {
  proper_built : built_key k; proper_instrument : Instrument.wf (instrument k);
  proper_plan : Hex.is_digest (session_plan_identity k); proper_identity : Hex.is_digest (identity k) }.

Lemma proper_symbol k : proper_key k → Forall Hex.is_byte (Symbol.as_bytes (Instrument.symbol (instrument k))).
Proof. intros H. apply Utf8.valid_u8, H. Qed.
Lemma built_source k : built_key k → Partition.new_source (source_bytes (source k)) = Ok (source k).
Proof. intros (_ & n & Hs & _). by destruct (Partition.new_source_Ok _ _ Hs) as [-> _]. Qed.
Lemma market_name_inj i j : market_name i = market_name j → Instrument.market i = Instrument.market j.
Proof. unfold market_name. by destruct (Instrument.market i), (Instrument.market j). Qed.

Lemma keyed_root_inj data prefix k l : proper_key k → proper_key l → keyed_root data prefix k = keyed_root data prefix l →
  source k = source l ∧ instrument k = instrument l ∧ trading_date k = trading_date l.
Proof.
  intros Hk Hl E. unfold keyed_root in E. apply app_inv_head, app_inv_head in E.
  injection E as Es Em Ed Ey. apply encoded_symbol_inj in Ey; [|by apply proper_symbol..]. apply market_name_inj in Em. split; [|split].
  - pose proof (built_source k (proper_built k Hk)) as H1. rewrite Es, (built_source l (proper_built l Hl)) in H1. congruence.
  - destruct (instrument k) as [m [y]], (instrument l) as [m' [y']]. simpl in *. congruence.
  - destruct (proper_built k Hk) as (? & ? & _ & H1 & _), (proper_built l Hl) as (? & ? & _ & H2 & _).
    pose proof (TradingDate.date_parse_display _ H1) as P. rewrite Ed, TradingDate.date_parse_display in P by done. congruence.
Qed.

Lemma display_safe d : TradingDate.wf d → safe_name (TradingDate.display d).
Proof.
  intros Hd. unfold TradingDate.display. destruct (Civil.civil_from_days (TradingDate.as_epoch_days d)) as [[y m] dd] eqn:Hc.
  pose proof (Civil.civil_from_days_bounds _ _ _ _ Hd Hc) as Hy. destruct (Civil.days_from_civil_from_days _ _ _ _ Hc) as [Hv _].
  destruct (TradingDate.valid_date_bounds _ _ _ Hv) as [Hm Hdd]. rewrite TradingDate.display_digits by lia.
  assert (Hf : ∀ w n, Forall (λ b, root_byte b = true) (fixed_digits w n)).
  { intros w n. eapply Forall_impl; [|apply fixed_digits_digits]. unfold is_digit_byte, is_ascii_digit, root_byte, safe_byte, Partition.is_ascii_alphanumeric. by intros b ->. }
  split; [done|]. rewrite !Forall_app, !list.Forall_cons, !Forall_app, !list.Forall_cons. auto 10.
Qed.
Lemma keyed_root_names data prefix k : proper_key k → ∃ names, keyed_root data prefix k = data ++ prefix ++ names ∧ Forall safe_name names.
Proof.
  intros Hk. eexists. split; [done|]. apply Forall_app. split; [|by apply encoded_symbol_names, proper_symbol].
  destruct (proper_built k Hk) as (? & n & Hs & Hd & _). destruct (Partition.new_source_Ok _ _ Hs) as (-> & Hne & _ & Hsafe).
  constructor; [split; [done|]; eapply Forall_impl; [|exact Hsafe]; intros b H; unfold root_byte; by rewrite H|].
  constructor; [unfold market_name; by destruct (Instrument.market _); apply (bool_decide_unpack _); vm_compute|].
  constructor; [by apply display_safe|constructor].
Qed.

(** C29: the root of a partition is below the data directory, by plain names, and
    tells its source, instrument and trading date. *)
Theorem partition_root_identifies data k l : proper_key k → proper_key l →
  (∃ names, partition_root data k = data ++ bytes_of "source" :: names ∧ Forall (λ n, components n = [Normal n]) names) ∧
  (partition_root data k = partition_root data l ↔ source k = source l ∧ instrument k = instrument l ∧ trading_date k = trading_date l).
Proof.
  intros Hk Hl. split.
  - destruct (keyed_root_names data [bytes_of "source"] k Hk) as (ns & E & Hn). exists ns. split; [done|].
    eapply Forall_impl; [|exact Hn]. intros n. apply safe_name_component.
  - split; [by apply keyed_root_inj|]. intros (E1 & E2 & E3). unfold partition_root, keyed_root. by rewrite E1, E2, E3.
Qed.

(** ** The key file *)

Definition key_file (root : Path) : Path := root ++ [PARTITION_MANIFEST_FILE].
Definition key_file_tmp (root : Path) : Path := root ++ [bytes_of "partition.tmp"].
Record partition_wf (m : SourcePartitionManifest) : Prop := {
  wf_version : 0 ≤ layout_version m ≤ u16_max; wf_market : is_u8 (instrument_market m); wf_date : is_i32 (trading_date_epoch_days m);
  wf_kinds : Forall is_u8 (manifest_session_kinds m);
  wf_partition_texts : Forall is_str [manifest_source m; instrument_symbol m; manifest_plan_identity m; partition_identity m] }.

Lemma from_key_wf k : proper_key k → partition_wf (from_key k).
Proof.
  intros [(? & n & Hs & Hd & _) Hi [_ Hp] [_ Hid]]. constructor; simpl.
  - by split.
  - apply Market.discriminant_u8.
  - unfold TradingDate.wf, TradingDate.MIN_EPOCH_DAYS, TradingDate.MAX_EPOCH_DAYS in Hd. unfold is_i32, i32_max. lia.
  - apply Forall_fmap, Forall_true. by intros [].
  - destruct (Partition.new_source_Ok _ _ Hs) as (-> & _ & _ & Hsafe). rewrite !list.Forall_cons. split_and!; [|apply Hi|by apply hex_str|by apply hex_str|constructor].
    apply ascii_str. eapply Forall_impl; [|exact Hsafe]. intros b. unfold safe_byte, Partition.is_ascii_alphanumeric, in_range. lia.
Qed.
Lemma from_key_inj k l : proper_key k → proper_key l → from_key k = from_key l → k = l.
Proof.
  intros Hk Hl E. unfold from_key in E. injection E as Es Em Ey Ed Ek Ep _.
  apply (inj _) in Ek. apply Hex.hex_inj in Ep; [|apply proper_plan; done..].
  assert (Hs : source k = source l).
  { pose proof (built_source k (proper_built k Hk)) as H1. rewrite Es, (built_source l (proper_built l Hl)) in H1. congruence. }
  assert (Hi : instrument k = instrument l).
  { destruct (instrument k) as [m [y]], (instrument l) as [m' [y']]. simpl in *. f_equal; [|congruence]. by destruct m, m'. }
  assert (Hd : trading_date k = trading_date l) by (destruct (trading_date k), (trading_date l); simpl in *; congruence).
  destruct (proper_built k Hk) as (ks & _ & _ & _ & _ & (_ & Hc & Ek')%PlanningLaws.new_key_Ok), (proper_built l Hl) as (ls & _ & _ & _ & _ & (_ & Hc' & El')%PlanningLaws.new_key_Ok).
  rewrite Ek' in Ek. rewrite El' in Ek. simpl in Ek. rewrite Hs, Hi, Hd, Ek, Ep, Hc' in Hc. injection Hc as Hc. rewrite Ek', El'. congruence.
Qed.

Section owner.
Context {J : Json} {SK : Serde SourcePartitionManifest} {SM : Serde SourceManifest} {ZS : Zstd} {SH : Sha256}.
Context {SKL : SerdeLaws SourcePartitionManifest partition_wf}.

(** The key file of a root is that of a key. *)
Definition owned (d : Disk) (root : Path) (k : SourcePartitionKey) : Prop :=
  ∃ bytes, entry d (key_file root) = Some (File bytes) ∧ from_slice bytes = Some (from_key k).

Lemma wp_read_key_file path C d : C d → wp (read_key_file path) C (λ m d', d' = d ∧ ∃ b, entry d path = Some (File b) ∧ from_slice b = Some m) d.
Proof.
  intros HC. unfold read_key_file. apply wp_do, wp_read; [done|]. intros b Hb. apply wp_try; [done|].
  intros m Hm. split; [done|]. exists b. split; [done|]. by destruct (from_slice b); simplify_eq/=.
Qed.

(** The layout of a root changes only the key file, and never one that is there. *)
Definition layout_changes (root : Path) (d d' : Disk) : Prop :=
  changes (λ p, p = key_file root ∨ p = key_file_tmp root) d d' ∧
  ∀ e, entry d (key_file root) = Some e → entry d' (key_file root) = Some e.
Lemma key_file_ext root : with_extension (key_file root) (bytes_of "tmp") = key_file_tmp root.
Proof. unfold key_file. by rewrite with_extension_snoc. Qed.
Lemma layout_changes_tmp root d d' : changes (λ p, p = key_file_tmp root) d d' → layout_changes root d d'.
Proof.
  intros H. split; [eapply changes_mono; [|exact H]; by right|]. intros e He.
  destruct (H (key_file root)) as [E|(E & _)]; [intros E; by apply app_inv_head in E|by rewrite E|congruence].
Qed.

Lemma wp_write_key_file root bytes d d0 : entry d (key_file root) = None → changes (λ p, p = key_file_tmp root) d0 d →
  entry d0 (key_file root) = None →
  wp (write_atomic (key_file root) bytes) (layout_changes root d0) (λ _ d', entry d' (key_file root) = Some (File bytes)) d.
Proof.
  intros Hn Hd Hn0. unfold write_atomic. rewrite key_file_ext. assert (Hne : key_file_tmp root ≠ key_file root) by (intros E; by apply app_inv_head in E).
  assert (Hnil : key_file_tmp root ≠ [] ∧ key_file root ≠ []) by (by destruct root). destruct Hnil as [Hnil Hnil'].
  assert (Hins : ∀ c, changes (λ p, p = key_file_tmp root) d0 (<[key_file_tmp root := File c]> d)) by (intros c; eapply changes_trans; [exact Hd|by apply changes_insert]).
  assert (HC : ∀ c, layout_changes root d0 (<[key_file_tmp root := File c]> d)) by (intros c; apply layout_changes_tmp, Hins).
  apply wp_do, wp_sys; [by apply layout_changes_tmp|done|]. intros [] d1 Hd1. assert (Hd1' : d1 = <[key_file_tmp root := File []]> d).
  { simpl in Hd1. unfold create_at in Hd1. by repeat case_match; simplify_eq. }
  rewrite Hd1'. split; [apply HC|]. apply wp_do. eapply (wp_write _ _ []); [by apply entry_insert|apply HC|intros; rewrite insert_insert_eq; apply HC|].
  rewrite insert_insert_eq. simpl app. eapply wp_rename_file; [by apply entry_insert|done|apply HC|]. split; [|by apply entry_insert].
  split; [|intros e He; congruence]. eapply changes_trans; [eapply changes_mono; [|apply Hins]; by right|].
  eapply changes_trans; [apply changes_delete; by right|]. apply changes_insert. by left.
Qed.

Lemma wp_ensure_layout data k d : proper_key k → let r := partition_root data k in
  wp (ensure_layout (new_partitioned data k)) (layout_changes r d) (λ _ d', owned d' r k) d.
Proof.
  intros Hk r. unfold ensure_layout. change (root (new_partitioned data k)) with r. change (partition_manifest_path (new_partitioned data k)) with (key_file r).
  change (repository_key (new_partitioned data k)) with k.
  assert (Hdir : ∀ q x, r = q ++ x → changes (λ p, p = key_file_tmp r) d (make_dirs d q)).
  { intros q x Hq. apply (changes_make_dirs _ _ _ (key_file_tmp r)); [done|]. exists (x ++ [bytes_of "partition.tmp"]). unfold key_file_tmp. by rewrite Hq, app_assoc. }
  assert (H1 : changes (λ p, p = key_file_tmp r) d (make_dirs d r)) by (apply (Hdir r []); by rewrite app_nil_r).
  apply wp_do, wp_create_dirs; [intros q x Hq; by eapply layout_changes_tmp, Hdir|apply layout_changes_tmp, changes_refl|]. intros _.
  apply wp_do, wp_try; [by apply layout_changes_tmp|]. intros bytes Hbytes. apply wp_do, wp_exists; [by apply layout_changes_tmp|].
  assert (Hser : from_slice bytes = Some (from_key k)) by (apply (serde_round_trip (from_key k)); [by apply from_key_wf|]; by destruct (to_vec_pretty (from_key k)); simplify_eq/=).
  case_bool_decide as Hthere.
  - apply wp_do. eapply wp_conseq; [apply wp_read_key_file; by apply layout_changes_tmp|done|]. intros m d' _ (-> & b & Hb & Hm).
    apply wp_try; [by apply layout_changes_tmp|]. unfold matches. intros [] Hok. exists b. split; [done|]. case_bool_decide; simplify_eq/=. by rewrite Hm.
  - assert (Hnone : entry (make_dirs d r) (key_file r) = None) by by apply eq_None_not_Some.
    eapply wp_conseq; [apply (wp_write_key_file r bytes _ d Hnone H1)|done|].
    + apply eq_None_not_Some. intros [e He]. by rewrite (make_dirs_keeps _ _ _ _ He) in Hnone.
    + intros [] d' _ Hd'. by exists bytes.
Qed.

(** C28: a root belongs to the key whose layout was written first: the layout of
    another key is refused and leaves the key file, and an inspection for the
    other key finds a reference that does not match. *)
Theorem root_has_one_owner data k l d d1 o d2 : proper_key k → proper_key l → partition_root data l = partition_root data k → k ≠ l →
  runs (ensure_layout (new_partitioned data k)) d (Some (Ok ())) d1 → runs (ensure_layout (new_partitioned data l)) d1 o d2 →
  o ≠ Some (Ok ()) ∧ owned d2 (partition_root data k) k ∧
  run (inspect_partition (new_partitioned data l)) d2 = (Ok (corrupt PartitionKeyMismatch), d2).
Proof.
  intros Hk Hl Er Hne H1 H2. destruct (proj2 (wp_ensure_layout data k d Hk _ _ H1) () eq_refl) as (b & Hb & Hs).
  destruct (wp_ensure_layout data l d1 Hl _ _ H2) as [[_ Hkeep] Hown]. rewrite Er in Hkeep, Hown. pose proof (Hkeep _ Hb) as Hb2.
  assert (Hm : from_key k ≠ from_key l) by (intros E; by apply Hne, from_key_inj).
  split; [|split; [by exists b|]].
  - intros ->. destruct (Hown () eq_refl) as (b' & Hb' & Hs'). rewrite Hb2 in Hb'. injection Hb' as <-. rewrite Hs in Hs'. congruence.
  - unfold inspect_partition, attempt, read_manifest, exists_, read_key_file. unfold partition_manifest_path, new_partitioned, root, repository_key. rewrite Er.
    change (partition_root data k ++ [PARTITION_MANIFEST_FILE]) with (key_file (partition_root data k)).
    simpl. rewrite Hb2. simpl. rewrite Hb2. simpl. rewrite Hs. simpl. unfold matches. by rewrite bool_decide_eq_false_2.
Qed.

End owner.
End keys.
End LayoutLaws.

(** * LayoutDemo

    Partitions of a data directory: an instance of the serialisation of key
    files, keys that share a root, and keys whose roots are nested. *)

Module LayoutDemo.
Import Files FilesLaws Storage Verify VerifyLaws Layout LayoutLaws SourceDemo.
Import Partition(SourcePartitionKey, new_key, mk_key, new_source, mk_source).

Definition put_partition (m : SourcePartitionManifest) : list Z :=
  layout_version m :: instrument_market m :: trading_date_epoch_days m :: put_text (manifest_source m) ++ put_text (instrument_symbol m) ++
  put_text (manifest_session_kinds m) ++ put_text (manifest_plan_identity m) ++ put_text (partition_identity m).
#[export] Instance demo_partition_serde : Serde SourcePartitionManifest := {|
  to_vec_pretty m := Some (put_partition m);
  from_slice l :=
    match l with
    | v :: m :: d :: l =>
        '(s, l) ← get_text l; '(y, l) ← get_text l; '(k, l) ← get_text l; '(p, l) ← get_text l; '(i, l) ← get_text l;
        Some (mk_partition v s m y d k p i)
    | _ => None
    end |}.
#[export] Instance demo_partition_laws : SerdeLaws SourcePartitionManifest partition_wf.
Proof.
  intros m bytes _ E. assert (bytes = put_partition m) as -> by (unfold to_vec_pretty, demo_partition_serde in E; congruence). clear E. destruct m as [v s m y d k p i].
  unfold from_slice, demo_partition_serde, put_partition. cbn [layout_version instrument_market trading_date_epoch_days manifest_source instrument_symbol
    manifest_session_kinds manifest_plan_identity partition_identity]. do 4 (rewrite get_put; cbn [mbind option_bind]).
  rewrite <-(app_nil_r (put_text i)), get_put. done.
Qed.

(** A day of an instrument at a source. *)
Definition archive : Partition.SourceId := value_of (mk_source [] 0) (new_source (bytes_of "archive")).
Definition made_key (symbol : list Z) (kinds : list Trading.SessionKind) : result Partition.SourcePartitionKeyError SourcePartitionKey :=
  new_key archive (Instrument.new Market.Twse (Symbol.mk symbol)) (TradingDate.mk 20000) kinds (be_bytes 32 5).
Definition demo_key (symbol : list Z) (kinds : list Trading.SessionKind) : SourcePartitionKey :=
  value_of (mk_key archive (Instrument.new Market.Twse (Symbol.mk symbol)) (TradingDate.mk 20000) kinds [] [] []) (made_key symbol kinds).
Lemma demo_key_proper symbol kinds : is_ok (made_key symbol kinds) = true → Symbol.wf (Symbol.mk symbol) → proper_key (demo_key symbol kinds).
Proof.
  intros Hok Hs. assert (Hk : made_key symbol kinds = Ok (demo_key symbol kinds)) by (unfold demo_key; by destruct (made_key symbol kinds)).
  pose proof Hk as (_ & _ & E)%PlanningLaws.new_key_Ok.
  assert (Hparts : Partition.source (demo_key symbol kinds) = archive ∧ Partition.instrument (demo_key symbol kinds) = Instrument.new Market.Twse (Symbol.mk symbol) ∧
    Partition.trading_date (demo_key symbol kinds) = TradingDate.mk 20000 ∧ Partition.session_plan_identity (demo_key symbol kinds) = be_bytes 32 5 ∧
    Hex.is_digest (Partition.identity (demo_key symbol kinds))).
  { rewrite E. do 4 (split; [reflexivity|]). split; [apply length_be_bytes|apply be_bytes_u8]. }
  destruct Hparts as (H1 & H2 & H3 & H4 & H5). constructor; [|by rewrite H2|rewrite H4; split; [done|apply be_bytes_u8]|done].
  exists kinds, (bytes_of "archive"). rewrite H1, H2, H3, H4. split; [done|]. split; [by split|]. split; [done|exact Hk].
Qed.

Definition data : Path := [bytes_of "data"].
Definition day : SourcePartitionKey := demo_key (bytes_of "2330") [Trading.RegularSession].
Definition night : SourcePartitionKey := demo_key (bytes_of "2330") [Trading.AfterHours].
Lemma day_proper : proper_key day.
Proof. apply demo_key_proper; [vm_compute; reflexivity|by split]. Qed.
Lemma night_proper : proper_key night.
Proof. apply demo_key_proper; [vm_compute; reflexivity|by split]. Qed.
Lemma day_night : day ≠ night.
Proof. intros E. assert (H : bool_decide (Partition.session_kinds day = Partition.session_kinds night) = true) by by rewrite E; apply bool_decide_eq_true. by vm_compute in H. Qed.

(** ** Witnesses *)

Lemma partition_root_identifies_witness :
  (∃ names, partition_root data day = data ++ bytes_of "source" :: names ∧ Forall (λ n, components n = [Normal n]) names) ∧
  (partition_root data day = partition_root data night ↔ Partition.source day = Partition.source night ∧ Partition.instrument day = Partition.instrument night ∧
    Partition.trading_date day = Partition.trading_date night).
Proof. exact (partition_root_identifies data day night day_proper night_proper). Defined.

Definition day_layout : IO PartitionRepositoryError () := ensure_layout (new_partitioned data day).
Definition day_disk : Disk := (run day_layout ∅).2.
Definition night_layout : IO PartitionRepositoryError () := ensure_layout (new_partitioned data night).
Lemma day_layout_runs : runs day_layout ∅ (Some (Ok ())) day_disk.
Proof. apply run_to_runs. eapply (run_value _ _ ()); [by destruct (value_of () _)|unfold day_disk; reflexivity|]. vm_compute. reflexivity. Qed.
Lemma night_root : partition_root data night = partition_root data day.
Proof. vm_compute. reflexivity. Qed.
Lemma root_has_one_owner_witness : owned (run night_layout day_disk).2 (partition_root data day) day ∧
  run (inspect_partition (new_partitioned data night)) (run night_layout day_disk).2 = (Ok (corrupt PartitionKeyMismatch), (run night_layout day_disk).2).
Proof.
  exact (proj2 (root_has_one_owner data day night ∅ day_disk _ _ day_proper night_proper night_root day_night day_layout_runs (run_runs night_layout day_disk))).
Defined.

(** ** Nested roots

    A symbol whose encoding fills a component and continues with the name of
    a directory of the layout has its root inside that of the shorter symbol. *)

Definition long : SourcePartitionKey := demo_key (replicate 180 120) [Trading.RegularSession].
Definition longer : SourcePartitionKey := demo_key (replicate 180 120 ++ bytes_of "staging") [Trading.RegularSession].
Definition longer_disk : Disk := (run (ensure_layout (new_partitioned data longer)) ∅).2.
Definition state_of (k : SourcePartitionKey) (d : Disk) : option Partition.SourceState :=
  match (run (inspect_partition (new_partitioned data k)) d).1 with Ok i => Some (state i) | Err _ => None end.

(** The layout of one partition makes another, of which nothing is on disk,
    look as if it were being built. *)
Theorem partition_roots_nest : proper_key long ∧ proper_key longer ∧ partition_root data longer = partition_root data long ++ [bytes_of "staging"] ∧
  state_of long ∅ = Some Partition.Missing ∧ state_of long longer_disk = Some Partition.Building.
Proof.
  split; [apply demo_key_proper; [vm_compute; reflexivity|by split]|]. split; [apply demo_key_proper; [vm_compute; reflexivity|by split]|].
  split; [vm_compute; reflexivity|]. split; vm_compute; reflexivity.
Qed.

End LayoutDemo.
