(* ===== verification/Cursor.v ===== *)
(** Paging through the source archive (providers/teralion/src/cursor.rs): the
    cursor state machine, the pages it accepts, and the checkpoint it keeps
    on disk. *)
From S2P Require Import Prelude Order Text Identity Event Effects Output Query Files Storage.

(** More of serde_json: two accessors, and the objects the source builds with
    [json!] and prints. *)
Inductive Field : Set := FNull | FBool (b : bool) | FNumber (n : Z) | FText (t : list Z) | FTexts (l : list (list Z)).
Definition Document : Set := list (string * Field).
Class Documents {J : Json} := {
  value_as_u64 : Value → option Z;
  value_as_bool : Value → option bool;
  document_to_vec_pretty : Document → option (list Z) }.

Module Cursor.
Import Files Storage Effects Query Output.Output(btree_set).

(** ** Requests *)

(** The fields a tick must have. *)
Inductive Action : Set := RequestNext | RequestFailed | AcceptResponse | CommitPage.
Inductive CursorState : Set := Ready | RequestInFlight | AwaitingDurableCommit | Terminal | Invalid.
#[global] Instance CursorState_eq_dec : EqDecision CursorState.
Proof. solve_decision. Defined.
Inductive CursorError : Set :=
| QueryIsNotPaged | EmptyCursor | QueryDrift | CursorDrift | CursorDidNotAdvance | DuplicatePage | InvalidEnvelope | InvalidTickEnvelope
| MissingTickField (field : string) | TickIdentityMismatch (field : string) | InvalidPageJson | CommitReceiptMismatch
| InvalidTransition (state : CursorState) (action : Action).

Record TeralionCursor : Set := mk_cursor { cursor_text : list Z }.
#[global] Instance TeralionCursor_eq_dec : EqDecision TeralionCursor.
Proof. solve_decision. Defined.
Definition new_cursor (value : list Z) : result CursorError TeralionCursor :=
  reject bool_decide (value = []) with EmptyCursor;; Ok (mk_cursor value).
Definition digest {B : Blake3} (c : TeralionCursor) : list Z := blake3 (cursor_text c).

Record TeralionRequest : Set := mk_request { request_query : TeralionQuery; request_identity : list Z; request_cursor : option TeralionCursor }.
Definition first {B : Blake3} (q : TeralionQuery) : TeralionRequest := mk_request q (identity q) None.

(** ** Pages *)

Record PendingPage : Set := mk_pending {
  pending_ordinal : Z; pending_query : list Z; pending_body : list Z; body_fingerprint : list Z; pending_records : Z;
  pending_next : option TeralionCursor }.
Definition pending_receipt (p : PendingPage) : PageCommitReceipt := mk_receipt (pending_ordinal p) (body_fingerprint p).
Definition source_page {B : Blake3} (p : PendingPage) : SourcePage :=
  new_page (pending_ordinal p) (pending_query p) (pending_body p) (pending_records p).

Record ParsedPage : Set := mk_parsed { parsed_records : Z; parsed_next : option TeralionCursor }.

Section pages.
Context {J : Json} {DC : Documents}.

Definition as_object (v : Value) : option Value := if value_is_object v then Some v else None.
Definition required_string (object : Value) (field : string) : result CursorError (list Z) :=
  ok_or (value_get object field ≫= value_as_str) (MissingTickField field).
Definition validate_tick (item : Value) (i : Instrument.InstrumentId) (kinds : list ArchiveKind) (m : ArchiveMarket) : result CursorError () :=
  item ← ok_or (as_object item) InvalidTickEnvelope;
  kind ← required_string item "type";
  reject negb (existsb (λ expected, bool_decide (slug expected = kind)) kinds) with TickIdentityMismatch "type";;
  market ← required_string item "market";
  reject bool_decide (market ≠ wire_market m) with TickIdentityMismatch "market";;
  symbol ← required_string item "symbol";
  reject bool_decide (symbol ≠ Symbol.as_bytes (Instrument.symbol i)) with TickIdentityMismatch "symbol";;
  _ ← collect_results (λ field, text ← required_string item field; if bool_decide (text = []) then Err InvalidTickEnvelope else Ok ())
        ["format"; "match_time"; "received_at"]%string;
  Ok ().

(** The market of a tick query is there ([archive_market_ticks]). *)
Definition validate_items (q : TeralionQuery) (items : list Value) : result CursorError () :=
  match q, archive_market q with
  | Ticks i _ _ kinds _ _, Some m => _ ← collect_results (λ item, validate_tick item i kinds m) items; Ok ()
  | _, _ => Ok ()
  end.
(** A page without a next cursor says so with a null. *)
Definition page_cursor (object : Value) : result CursorError (option TeralionCursor) :=
  v ← ok_or (value_get object "next_cursor") InvalidEnvelope;
  if value_is_null v then Ok None
  else text ← ok_or (value_as_str v) InvalidEnvelope; c ← new_cursor text; Ok (Some c).
Definition parse_page (q : TeralionQuery) (body : list Z) : result CursorError ParsedPage :=
  value ← ok_or (from_json body) InvalidPageJson;
  object ← ok_or (as_object value) InvalidEnvelope;
  items ← ok_or (value_get object "items" ≫= value_as_array) InvalidEnvelope;
  _ ← validate_items q items;
  next ← page_cursor object;
  Ok (mk_parsed (zlen items) next).

(** ** The checkpoint *)

(** The sets are in the order of a BTreeSet. *)
Record CursorCheckpoint : Set := mk_checkpoint {
  checkpoint_query : list Z; committed_pages : Z; next_cursor : option TeralionCursor; seen_cursor_digests : list (list Z);
  seen_page_fingerprints : list (list Z); terminal : bool }.
Definition btree_insert (x : list Z) (l : list (list Z)) : list (list Z) := btree_set (x :: l).

Definition checkpoint_document (c : CursorCheckpoint) : Document :=
  [ ("query_identity", FText (Hex.hex (checkpoint_query c)));
    ("committed_pages", FNumber (committed_pages c));
    ("next_cursor", match next_cursor c with Some n => FText (cursor_text n) | None => FNull end);
    ("seen_cursor_digests", FTexts (Hex.hex <$> seen_cursor_digests c));
    ("seen_page_fingerprints", FTexts (Hex.hex <$> seen_page_fingerprints c));
    ("terminal", FBool (terminal c))]%string.
Definition save (c : CursorCheckpoint) (path : Path) : IO IoError () :=
  bytes ← Files.lift (ok_or (document_to_vec_pretty (checkpoint_document c)) OtherError);
  let temporary := with_extension path (bytes_of "tmp") in
  _ ← sys id (CreateNew temporary);
  _ ← sys id (Write temporary bytes);
  _ ← sys id (Sync temporary);
  _ ← sys id (Rename temporary path);
  sys id (Sync (parent path)).

Definition required_text (value : Value) (field : string) : result IoError (list Z) :=
  ok_or (value_get value field ≫= value_as_str) InvalidData.
Definition digest_set (value : Value) (field : string) : result IoError (list (list Z)) :=
  items ← ok_or (value_get value field ≫= value_as_array) InvalidData;
  digests ← collect_results (λ item, ok_or (value_as_str item ≫= Hex.decode_hex_32 false) InvalidData) items;
  Ok (btree_set digests).
Definition read_next (value : Value) : result IoError (option TeralionCursor) :=
  match value_get value "next_cursor" ≫= value_as_str with
  | Some text => c ← map_err (λ _, OtherError) (new_cursor text); Ok (Some c)
  | None => Ok None
  end.
Definition read_checkpoint (value : Value) : result IoError CursorCheckpoint :=
  query_text ← required_text value "query_identity";
  query ← ok_or (Hex.decode_hex_32 false query_text) InvalidData;
  committed ← ok_or (n ← value_get value "committed_pages" ≫= value_as_u64; to_u32 n) InvalidData;
  next ← read_next value;
  cursors ← digest_set value "seen_cursor_digests";
  fingerprints ← digest_set value "seen_page_fingerprints";
  terminal ← ok_or (value_get value "terminal" ≫= value_as_bool) InvalidData;
  Ok (mk_checkpoint query committed next cursors fingerprints terminal).
Definition load (path : Path) : IO IoError CursorCheckpoint :=
  bytes ← sys id (Read path);
  value ← Files.lift (ok_or (from_json bytes) OtherError);
  Files.lift (read_checkpoint value).

(** ** The state machine *)

Record CursorStateMachine : Set := mk_machine { query : TeralionQuery; checkpoint : CursorCheckpoint; state : CursorState; pending : option PendingPage }.
Definition set_state (m : CursorStateMachine) (s : CursorState) : CursorStateMachine := mk_machine (query m) (checkpoint m) s (pending m).
Definition set_pending (m : CursorStateMachine) (p : option PendingPage) : CursorStateMachine := mk_machine (query m) (checkpoint m) (state m) p.
Definition Op (A : Type) : Type := M CursorStateMachine CursorError A.

Context {B : Blake3}.

Definition new_machine (q : TeralionQuery) : result CursorError CursorStateMachine :=
  reject negb (is_paged q) with QueryIsNotPaged;;
  Ok (mk_machine q (mk_checkpoint (identity q) 0 None [] [] false) Ready None).
Definition resume_machine (q : TeralionQuery) (c : CursorCheckpoint) : result CursorError CursorStateMachine :=
  reject bool_decide (identity q ≠ checkpoint_query c) with QueryDrift;;
  Ok (mk_machine q c (if terminal c then Terminal else Ready) None).

Definition expect_state (s : CursorState) (a : Action) : Op () :=
  m ← get; if bool_decide (state m ≠ s) then fail (InvalidTransition (state m) a) else mret ().
Definition invalidate {A} (e : CursorError) : Op A := _ ← modify (λ m, set_state m Invalid); fail e.

Definition request_next : Op TeralionRequest :=
  _ ← expect_state Ready RequestNext;
  _ ← modify (λ m, set_state m RequestInFlight);
  m ← get;
  mret (mk_request (query m) (checkpoint_query (checkpoint m)) (next_cursor (checkpoint m))).

Definition validate_request (r : TeralionRequest) : Op () :=
  c ← gets checkpoint;
  if bool_decide (request_identity r ≠ checkpoint_query c) || bool_decide (identity (request_query r) ≠ checkpoint_query c)
  then invalidate QueryDrift
  else if bool_decide (request_cursor r ≠ next_cursor c) then invalidate CursorDrift else mret ().
Definition request_failed (r : TeralionRequest) : Op () :=
  _ ← validate_request r;
  _ ← expect_state RequestInFlight RequestFailed;
  modify (λ m, set_state m Ready).

(** The next cursor is the one asked with, or one seen before. *)
Definition cursor_repeats (r : TeralionRequest) (c : CursorCheckpoint) (next : TeralionCursor) : bool :=
  bool_decide (request_cursor r = Some next) || bool_decide (digest next ∈ seen_cursor_digests c).
Definition accept_response (r : TeralionRequest) (body : list Z) : Op PendingPage :=
  _ ← validate_request r;
  _ ← expect_state RequestInFlight AcceptResponse;
  m ← get;
  parsed ← Effects.lift (map_err Returned (parse_page (query m) body));
  let fingerprint := blake3 body in
  _ ← (if bool_decide (fingerprint ∈ seen_page_fingerprints (checkpoint m)) then invalidate DuplicatePage else mret ());
  _ ← match parsed_next parsed with
      | Some next => if cursor_repeats r (checkpoint m) next then invalidate CursorDidNotAdvance else mret ()
      | None => mret ()
      end;
  let page := mk_pending (committed_pages (checkpoint m)) (checkpoint_query (checkpoint m)) body fingerprint (parsed_records parsed) (parsed_next parsed) in
  _ ← modify (λ m, set_state (set_pending m (Some page)) AwaitingDurableCommit);
  mret page.

(** [committed_pages += 1]. *)
Definition advance (c : CursorCheckpoint) (p : PendingPage) : result (Failure CursorError) CursorCheckpoint :=
  let cursors := match pending_next p with Some n => btree_insert (digest n) (seen_cursor_digests c) | None => seen_cursor_digests c end in
  committed ← ok_or (to_u32 (committed_pages c + 1)) Panicked;
  Ok (mk_checkpoint (checkpoint_query c) committed (pending_next p) cursors (btree_insert (body_fingerprint p) (seen_page_fingerprints c))
        (if pending_next p is Some _ then false else true)).
Definition commit_page (r : PageCommitReceipt) : Op () :=
  _ ← expect_state AwaitingDurableCommit CommitPage;
  m ← get;
  p ← expect (pending m);
  if negb (receipt_ordinal r =? pending_ordinal p) || bool_decide (receipt_fingerprint r ≠ body_fingerprint p)
  then fail CommitReceiptMismatch
  else
    _ ← modify (λ m, set_pending m None);
    c ← Effects.lift (advance (checkpoint m) p);
    modify (λ m, mk_machine (query m) c (if terminal c then Terminal else Ready) (pending m)).

End pages.
End Cursor.
