(* ===== verification/CursorLaws.v ===== *)
(** What the cursor promises: pages follow one another without repetition,
    and a checkpoint reads back as it was saved. *)
From S2P Require Import Prelude Order Text Identity Event Effects Output OrderedSets Query Files Storage Verify VerifyLaws StagingLaws Cursor.

Module CursorLaws.
Import Effects(Failure, Returned, Panicked, M, get, gets, modify, fail, expect).
#[local] Existing Instances Effects.M_ret Effects.M_bind.
Import Files FilesLaws Storage Query StorageLaws StagingLaws Cursor Output.Output(btree_set) OrderedSets.OrderedSets.

(** ** What is relied on of serde_json

    Texts are UTF-8, and an object reads back as the fields it was built of. *)

Section documents.
Context {J : Json} {DC : Documents}.

Definition shows_field (v : Value) (f : Field) : Prop :=
  match f with
  | FNull => value_as_str v = None
  | FBool b => value_as_bool v = Some b
  | FNumber n => value_as_u64 v = Some n
  | FText t => value_as_str v = Some t
  | FTexts l => ∃ vs, value_as_array v = Some vs ∧ Forall2 (λ v t, value_as_str v = Some t) vs l
  end.
Definition shows (v : Value) (doc : Document) : Prop := Forall (λ '(name, f), ∃ w, value_get v name = Some w ∧ shows_field w f) doc.
Definition field_wf (f : Field) : Prop :=
  match f with FNull | FBool _ => True | FNumber n => is_u64 n | FText t => is_str t | FTexts l => Forall is_str l end.
Class DocumentsLaws : Prop := {
  json_text v t : value_as_str v = Some t → is_str t;
  document_round_trip doc bytes : NoDup doc.*1 → Forall (λ '(_, f), field_wf f) doc → document_to_vec_pretty doc = Some bytes →
    ∃ v, from_json bytes = Some v ∧ shows v doc }.

End documents.

(** Hashes have 32 bytes. *)
Class Blake3Laws {B : Blake3} : Prop := blake3_digest x : Hex.is_digest (blake3 x).

Section cursor.
Context {J : Json} {DC : Documents} {DL : DocumentsLaws} {B : Blake3} {BL : Blake3Laws}.

(** ** Pages *)

Lemma collect_results_unit {E A C} (f : A → result E C) (l : list A) ys : collect_results f l = Ok ys → Forall (λ x, ∃ y, f x = Ok y) l.
Proof. intros H%collect_results_Ok. eapply Forall2_Forall_l; [exact H|]. apply list.Forall_forall. intros y _ x Hx. by exists y. Qed.

(** What an accepted page holds. *)
Record page_of (q : TeralionQuery) (body : list Z) (p : ParsedPage) : Prop := {
  page_value : ∃ v items, from_json body = Some v ∧ value_is_object v = true ∧ value_get v "items" ≫= value_as_array = Some items ∧
    parsed_records p = zlen items ∧ validate_items q items = Ok () ;
  page_next c : parsed_next p = Some c → cursor_text c ≠ [] ∧ is_str (cursor_text c) }.

Lemma parse_page_Ok q body p : parse_page q body = Ok p → page_of q body p.
Proof.
  unfold parse_page, as_object. intros (v & Hv & H)%bind_Ok. apply bind_Ok in H as (o & Ho & H). apply bind_Ok in H as (items & Hi & H).
  apply bind_Ok in H as ([] & Hval & H). apply bind_Ok in H as (next & Hn & [= <-]).
  destruct (from_json body) as [v'|] eqn:Ev; [|done]. injection Hv as ->. destruct (value_is_object v) eqn:Eo; [|done]. injection Ho as <-.
  destruct (value_get v "items" ≫= value_as_array) as [items'|] eqn:Ei; [|done]. injection Hi as ->. constructor; simpl.
  - by exists v, items.
  - intros c ->. unfold page_cursor in Hn. apply bind_Ok in Hn as (w & _ & Hn). destruct (value_is_null w); [done|].
    apply bind_Ok in Hn as (text & Ht & Hn). apply bind_Ok in Hn as (c' & Hc & [= ->]). unfold new_cursor in Hc. case_bool_decide; [done|].
    injection Hc as <-. simpl. split; [done|]. destruct (value_as_str w) eqn:E; [|done]. injection Ht as <-. by eapply json_text.
Qed.
Lemma page_genuine q body p : page_of q body p → genuine TickPage (parsed_records p) body.
Proof. intros [(v & items & Hv & _ & Hi & -> & _) _]. exists v. split; [done|]. unfold Verify.actual_records. by rewrite Hi. Qed.

(** ** Checkpoints *)

Record checkpoint_wf (c : CursorCheckpoint) : Prop := {
  wf_query : Hex.is_digest (checkpoint_query c);
  wf_committed : is_u32 (committed_pages c);
  wf_next n : next_cursor c = Some n → cursor_text n ≠ [] ∧ is_str (cursor_text n);
  wf_cursors : Forall Hex.is_digest (seen_cursor_digests c) ∧ btree_set (seen_cursor_digests c) = seen_cursor_digests c;
  wf_fingerprints : Forall Hex.is_digest (seen_page_fingerprints c) ∧ btree_set (seen_page_fingerprints c) = seen_page_fingerprints c }.

Lemma hex_texts l : Forall Hex.is_digest l → Forall is_str (Hex.hex <$> l).
Proof. intros Hl. apply Forall_fmap. eapply Forall_impl; [|exact Hl]. intros x [_ Hx]. by apply hex_str. Qed.
Lemma digest_set_shown v f w l : value_get v f = Some w → shows_field w (FTexts (Hex.hex <$> l)) → Forall Hex.is_digest l → btree_set l = l →
  digest_set v f = Ok l.
Proof.
  intros Hw (vs & Hvs & Hall) Hl Hs. unfold digest_set. rewrite Hw. cbn [mbind option_bind]. rewrite Hvs. cbn [ok_or mbind result_bind].
  assert (Hc : collect_results (λ item, ok_or (value_as_str item ≫= Hex.decode_hex_32 false) InvalidData) vs = Ok l); [|rewrite Hc; cbn [mbind result_bind]; by rewrite Hs].
  apply collect_results_Ok. apply Forall2_fmap_r in Hall. apply Forall2_same_length_lookup. split; [by eapply Forall2_length|].
  intros i x y Hx Hy. pose proof (Forall2_lookup_lr _ _ _ _ _ _ Hall Hx Hy) as E. simpl in E. rewrite E. cbn [mbind option_bind].
  rewrite Hex.decode_hex; [done|]. by eapply Forall_lookup_1.
Qed.

(** Reading a checkpoint gives the one that was printed. *)
Lemma checkpoint_round_trip c bytes : checkpoint_wf c → document_to_vec_pretty (checkpoint_document c) = Some bytes →
  ∃ v, from_json bytes = Some v ∧ read_checkpoint v = Ok c.
Proof.
  intros [Hq Hc Hn [Hd Hds] [Hp Hps]] Hb. apply document_round_trip in Hb as (v & Hv & Hs).
  - exists v. split; [done|]. unfold shows, checkpoint_document in Hs. rewrite !list.Forall_cons in Hs.
    destruct Hs as ((w1 & G1 & S1) & (w2 & G2 & S2) & (w3 & G3 & S3) & (w4 & G4 & S4) & (w5 & G5 & S5) & (w6 & G6 & S6) & _). simpl in S1, S2, S6.
    unfold read_checkpoint, required_text. rewrite G1. cbn [mbind option_bind]. rewrite S1. cbn [ok_or mbind result_bind].
    rewrite Hex.decode_hex by done. cbn [ok_or mbind result_bind]. rewrite G2. cbn [mbind option_bind]. rewrite S2. cbn [mbind option_bind].
    unfold to_u32. rewrite checked_in by done. cbn [ok_or mbind result_bind].
    assert (Hnext : read_next v = Ok (next_cursor c)).
    { unfold read_next. rewrite G3. cbn [mbind option_bind]. destruct (next_cursor c) as [n|] eqn:En; simpl in S3; rewrite S3; [|done].
      unfold new_cursor. rewrite bool_decide_eq_false_2 by by apply Hn. by destruct n. }
    rewrite Hnext. cbn [mbind result_bind]. rewrite (digest_set_shown _ _ _ _ G4 S4 Hd Hds). cbn [mbind result_bind].
    rewrite (digest_set_shown _ _ _ _ G5 S5 Hp Hps). cbn [mbind result_bind]. rewrite G6. cbn [mbind option_bind]. rewrite S6. by destruct c.
  - apply (bool_decide_unpack _). by vm_compute.
  - unfold checkpoint_document. rewrite !list.Forall_cons. split_and!; simpl; [by apply hex_str, Hq|unfold is_u32, is_u64, u32_max, u64_max in *; lia| |by apply hex_texts..|done|done].
    destruct (next_cursor c) as [n|]; [by apply Hn|done].
Qed.

(** ** The checkpoint file *)

Definition CHECKPOINT_TMP : Name := bytes_of "checkpoint.tmp".
Definition saved (d : Disk) (path : Path) (c : CursorCheckpoint) : Prop :=
  ∃ bytes v, entry d path = Some (File bytes) ∧ from_json bytes = Some v ∧ read_checkpoint v = Ok c.
Definition checkpoint_file (a p : Path) : Prop := p = a ++ [CHECKPOINT] ∨ p = a ++ [CHECKPOINT_TMP].

Lemma wp_load d path c : saved d path c → wp (load path) (λ d', d' = d) (λ c' d', d' = d ∧ c' = c) d.
Proof.
  intros (bytes & v & He & Hv & Hr). unfold load. apply wp_do, wp_read; [done|]. intros b Hb. rewrite He in Hb. injection Hb as <-.
  rewrite Hv. apply wp_do, wp_try; [done|]. intros v' [= <-]. rewrite Hr. apply wp_try; [done|]. by intros c' [= <-].
Qed.

(** Until the new checkpoint is in place the old one is. *)
Lemma wp_save a c d : checkpoint_wf c → wp (save c (a ++ [CHECKPOINT]))
  (λ d', changes (checkpoint_file a) d d' ∧ (entry d' (a ++ [CHECKPOINT]) = entry d (a ++ [CHECKPOINT]) ∨ saved d' (a ++ [CHECKPOINT]) c))
  (λ _ d', saved d' (a ++ [CHECKPOINT]) c) d.
Proof.
  intros Hwf. set (path := a ++ [CHECKPOINT]). set (tmp := a ++ [CHECKPOINT_TMP]). set (C := λ d', _ ∧ _). unfold save.
  assert (Ht : with_extension path (bytes_of "tmp") = tmp) by (unfold path; by rewrite with_extension_snoc). cbv zeta. rewrite Ht.
  assert (Hne : tmp ≠ path) by (intros E; by apply app_inv_head in E). assert (Hnil : tmp ≠ [] ∧ path ≠ []) by (unfold tmp, path; by destruct a). destruct Hnil as [Htn Hpn].
  assert (HC : C d) by (split; [apply changes_refl|by left]).
  assert (Hins : ∀ b, C (<[tmp := File b]> d)) by (intros b; split; [apply changes_insert; by right|left; by apply entry_insert_ne]).
  apply wp_do, wp_try; [done|]. intros bytes Hb. apply wp_do, wp_create_new; [done|]. intros Hnone _. split; [apply Hins|].
  apply wp_do. eapply (wp_write _ _ []); [by apply entry_insert|apply Hins|intros; rewrite insert_insert_eq; apply Hins|]. rewrite insert_insert_eq. simpl app.
  apply wp_do, wp_sync; [apply Hins|]. set (d1 := <[path := File bytes]> (delete tmp (<[tmp := File bytes]> d))).
  assert (Hs : saved d1 path c).
  { destruct (document_to_vec_pretty (checkpoint_document c)) as [bytes'|] eqn:E; [|done]. injection Hb as ->.
    destruct (checkpoint_round_trip c bytes Hwf E) as (v & Hv & Hr). exists bytes, v. split; [by apply entry_insert|done]. }
  assert (H1 : C d1).
  { split; [|by right]. eapply changes_trans; [apply (changes_insert _ _ tmp (File bytes)); by right|]. eapply changes_trans; [apply (changes_delete _ _ tmp); by right|]. apply changes_insert. by left. }
  apply wp_do. eapply wp_rename_file; [by apply entry_insert|done|apply Hins|]. split; [done|]. by apply wp_sync.
Qed.

(** A temporary file that was left behind is in the way of every save. *)
Lemma wp_save_blocked a c d : entry d (a ++ [CHECKPOINT_TMP]) ≠ None → wp (save c (a ++ [CHECKPOINT])) (λ _, True) (λ _ _, False) d.
Proof.
  intros Ht. unfold save. assert (E : with_extension (a ++ [CHECKPOINT]) (bytes_of "tmp") = a ++ [CHECKPOINT_TMP]) by by rewrite with_extension_snoc.
  cbv zeta. rewrite E.
  apply wp_do, wp_try; [done|]. intros bytes _. by apply wp_do, wp_create_new.
Qed.

(** ** The machine *)

Lemma op_bind_Ok {A C} (o : M CursorStateMachine CursorError A) (f : A → M CursorStateMachine CursorError C) m y m' : (o ≫= f) m = (Ok y, m') → ∃ x m1, o m = (Ok x, m1) ∧ f x m1 = (Ok y, m').
Proof. unfold mbind, Effects.M_bind. destruct (o m) as [[x|] m1]; [|done]. by exists x, m1. Qed.
Lemma expect_state_Ok s a m u m' : expect_state s a m = (Ok u, m') → state m = s ∧ m' = m.
Proof. unfold expect_state. intros (m1 & m2 & [= <- <-] & H)%op_bind_Ok. case_bool_decide as E; [done|]. injection H as _ <-. done. Qed.
Lemma invalidate_fails {A} e m (x : A) m' : invalidate e m ≠ (Ok x, m').
Proof. done. Qed.
Lemma validate_request_Ok r m u m' : validate_request r m = (Ok u, m') → request_cursor r = next_cursor (checkpoint m) ∧ m' = m.
Proof.
  unfold validate_request. intros (c & m1 & [= <- <-] & H)%op_bind_Ok. destruct (_ || _); [by apply invalidate_fails in H|].
  case_bool_decide as E; [by apply invalidate_fails in H|]. injection H as _ <-. done.
Qed.

Lemma request_next_Ok m r m' : request_next m = (Ok r, m') →
  state m = Ready ∧ r = mk_request (query m) (checkpoint_query (checkpoint m)) (next_cursor (checkpoint m)) ∧ m' = set_state m RequestInFlight.
Proof.
  unfold request_next. intros (u & m1 & [Hs ->]%expect_state_Ok & H)%op_bind_Ok. split; [done|]. by injection H as <- <-.
Qed.

(** The page a response becomes. *)
Definition page_for (c : CursorCheckpoint) (body : list Z) (p : ParsedPage) : PendingPage :=
  mk_pending (committed_pages c) (checkpoint_query c) body (blake3 body) (parsed_records p) (parsed_next p).

Lemma accept_response_Ok r body m page m' : accept_response r body m = (Ok page, m') →
  state m = RequestInFlight ∧ request_cursor r = next_cursor (checkpoint m) ∧
  ∃ p, parse_page (query m) body = Ok p ∧ (blake3 body ∉ seen_page_fingerprints (checkpoint m)) ∧
    (∀ n, parsed_next p = Some n → (digest n ∉ seen_cursor_digests (checkpoint m))) ∧
    page = page_for (checkpoint m) body p ∧ m' = set_state (set_pending m (Some page)) AwaitingDurableCommit.
Proof.
  unfold accept_response. intros (u & m1 & [Hc ->]%validate_request_Ok & H)%op_bind_Ok. apply op_bind_Ok in H as (u1 & m2 & [Hs ->]%expect_state_Ok & H).
  apply op_bind_Ok in H as (m0 & m3 & [= <- <-] & H). apply op_bind_Ok in H as (p & m4 & Hp & H).
  destruct (parse_page (query m) body) as [p'|] eqn:Ep; [|done]. injection Hp as -> <-.
  apply op_bind_Ok in H as (u2 & m5 & Hf & H). destruct (bool_decide (blake3 body ∈ _)) eqn:Ef; [by apply invalidate_fails in Hf|]. injection Hf as _ <-.
  apply bool_decide_eq_false in Ef. apply op_bind_Ok in H as (u3 & m6 & Hn & H). split; [done|]. split; [done|]. exists p. split; [done|]. split; [done|].
  assert (Hm : m6 = m ∧ ∀ n, parsed_next p = Some n → digest n ∉ seen_cursor_digests (checkpoint m)).
  { destruct (parsed_next p) as [n|]; [|by injection Hn as _ <-]. unfold cursor_repeats in Hn. destruct (_ || _) eqn:Er; [by apply invalidate_fails in Hn|].
    injection Hn as _ <-. apply orb_false_iff in Er as [_ Er%bool_decide_eq_false]. split; [done|]. by intros n' [= <-]. }
  destruct Hm as [-> Hd]. split; [done|]. by injection H as <- <-.
Qed.

Lemma commit_page_Ok r m u m' : commit_page r m = (Ok u, m') →
  state m = AwaitingDurableCommit ∧ ∃ p c, pending m = Some p ∧ r = pending_receipt p ∧ advance (checkpoint m) p = Ok c ∧
    m' = mk_machine (query m) c (if terminal c then Terminal else Ready) None.
Proof.
  unfold commit_page. intros (u1 & m1 & [Hs ->]%expect_state_Ok & H)%op_bind_Ok. apply op_bind_Ok in H as (m0 & m2 & [= <- <-] & H).
  apply op_bind_Ok in H as (p & m3 & Hp & H). unfold expect, Effects.lift in Hp. destruct (pending m) as [p'|] eqn:Ep; [|done]. injection Hp as -> <-.
  destruct (negb _ || bool_decide _) eqn:Er; [done|]. apply orb_false_iff in Er as [Er1 Er2]. apply negb_false_iff, Z.eqb_eq in Er1.
  apply bool_decide_eq_false in Er2. apply dec_stable in Er2. apply op_bind_Ok in H as (u2 & m4 & [= _ <-] & H). apply op_bind_Ok in H as (c & m5 & Hc & H).
  unfold Effects.lift in Hc. injection Hc as Hc <-. split; [done|]. exists p, c. split; [done|]. split; [unfold pending_receipt; destruct r; simpl in *; congruence|].
  split; [done|]. by injection H as _ <-.
Qed.

End cursor.
End CursorLaws.
