(* ===== verification/Sync.v ===== *)
(** Synchronisation with the archive (providers/teralion/src/sync.rs and the
    source runtime of provider.rs): single responses, the loop over the pages
    of a query, and a partition from its plan to its published revision. *)
From S2P Require Import Prelude Order Text Calendar Identity Event Effects Sessions Partition Query Provider Files Storage Layout Cursor.

(** The transport is third-party code: what it answers depends on its state. *)
Record TransportError : Set := mk_transport_error { retryable : bool }.
Class TeralionTransport (T : Type) :=
  execute : T → Cursor.TeralionRequest → Query.TeralionCredential → result TransportError (list Z) * T.

Module Sync.
Import Files Storage Layout Effects Query Cursor.
Import InstrumentClass Sessions(SessionPlan) Partition(SourcePartitionKey).

Inductive SyncError : Set :=
| Transport (e : TransportError) | CursorFailed (e : CursorError) | Staging (e : StagingError) | SyncIo (k : IoError) | ExpectedSingleResponse.

Record PagedSyncReport : Set := mk_report { page_count : Z; report_terminal : bool }.

Section sync.
Context {J : Json} {DC : Documents} {SP : Serde PageMetadata} {SM : Serde SourceManifest} {SK : Serde SourcePartitionManifest}
  {ZS : Zstd} {SH : Sha256} {B : Blake3} {T : Type} {TT : TeralionTransport T}.

(** The programs that may panic. *)
Definition P (A : Type) : Type := IO (Failure SyncError) A.
Definition cursor_failure (f : Failure CursorError) : Failure SyncError := match f with Returned e => Returned (CursorFailed e) | Panicked => Panicked end.
Definition of_cursor {A} (r : result CursorError A) : P A := Files.lift (map_err (Returned ∘ CursorFailed) r).
(** An operation of the machine, with the machine it leaves. *)
Definition of_machine {A} (o : Op A) (m : CursorStateMachine) : P (A * CursorStateMachine) :=
  match o m with (Ok x, m) => mret (x, m) | (Err f, m) => Files.lift (Err (cursor_failure f)) end.

Definition fetch_single (t : T) (q : TeralionQuery) (credential : TeralionCredential) : P (list Z * T) :=
  if is_paged q then Files.lift (Err (Returned ExpectedSingleResponse))
  else match execute t (first q) credential with
       | (Ok body, t) => mret (body, t)
       | (Err e, t) => Files.lift (Err (Returned (Transport e)))
       end.

(** One round of the loop. *)
Definition sync_page (credential : TeralionCredential) (checkpoint_path : Path) (t : T) (m : CursorStateMachine) (s : StagingRevision) :
    P (T * CursorStateMachine * StagingRevision) :=
  '(request, m) ← of_machine request_next m;
  '(body, t) ← match execute t request credential with
    | (Ok body, t) => mret (body, t)
    | (Err e, t) => _ ← of_machine (request_failed request) m; Files.lift (Err (Returned (Transport e)))
    end;
  '(page, m) ← of_machine (accept_response request body) m;
  '(sp, s) ← io_map_err (Returned ∘ Staging) (stage_page s (source_page page));
  '(_, m) ← of_machine (commit_page (receipt sp)) m;
  _ ← io_map_err (Returned ∘ SyncIo) (save (checkpoint m) checkpoint_path);
  mret (t, m, s).
(** The loop, with rounds: [None] when it used them up. *)
Fixpoint sync_loop (rounds : nat) (credential : TeralionCredential) (checkpoint_path : Path) (t : T) (m : CursorStateMachine) (s : StagingRevision) :
    P (option (T * CursorStateMachine * StagingRevision)) :=
  if bool_decide (state m = Terminal) then mret (Some (t, m, s))
  else match rounds with
       | O => mret None
       | S rounds => '(t, m, s) ← sync_page credential checkpoint_path t m s; sync_loop rounds credential checkpoint_path t m s
       end.
Definition start_machine (q : TeralionQuery) (checkpoint_path : Path) : P CursorStateMachine :=
  there ← exists_ checkpoint_path;
  if there : bool then
    c ← io_map_err (Returned ∘ SyncIo) (load checkpoint_path);
    of_cursor (resume_machine q c)
  else of_cursor (new_machine q).
Definition sync_pages (rounds : nat) (t : T) (q : TeralionQuery) (credential : TeralionCredential) (s : StagingRevision) :
    P (option (PagedSyncReport * T * StagingRevision)) :=
  let checkpoint_path := attempt_path s ++ [CHECKPOINT] in
  m ← start_machine q checkpoint_path;
  finished ← sync_loop rounds credential checkpoint_path t m s;
  mret ('(t, m, s) ← finished; Some (mk_report (committed_pages (checkpoint m)) (terminal (checkpoint m)), t, s)).

(** ** A partition (provider.rs) *)

(** The causes of the errors the source keeps as texts. *)
Inductive SourceRuntimeError : Set :=
| PlanFailed (e : Provider.ProviderError) | QueryFailed (e : QueryError) | SyncFailed (e : SyncError) | InvalidResponse | Storage (k : IoError)
| StagingFailed (e : StagingError).
Record SourceSyncResult : Set := mk_sync_result { synced_pages : Z; synced_revision : list Z }.

Definition in_provider (f : Failure SyncError) : Failure SourceRuntimeError := match f with Returned e => Returned (SyncFailed e) | Panicked => Panicked end.
Definition plan_failure (f : Failure Provider.ProviderError) : Failure SourceRuntimeError :=
  match f with Returned e => Returned (PlanFailed e) | Panicked => Panicked end.
Definition validate_json (bytes : list Z) : IO (Failure SourceRuntimeError) () :=
  _ ← Files.lift (ok_or (from_json bytes) (Returned InvalidResponse)); mret ().

Definition fetch_valid (t : T) (q : TeralionQuery) (credential : TeralionCredential) : IO (Failure SourceRuntimeError) (list Z * T) :=
  '(body, t) ← io_map_err in_provider (fetch_single t q credential);
  _ ← validate_json body;
  mret (body, t).
(** The revision to stage into: that of the checkpoint, or a new one. *)
Definition open_staging (data_root : Path) (key : SourcePartitionKey) : IO (Failure SourceRuntimeError) StagingRevision :=
  let attempt := Provider.attempt_id key in
  let checkpoint := attempt_root (root (new_partitioned data_root key)) attempt ++ [CHECKPOINT] in
  there ← exists_ checkpoint;
  if there : bool then
    c ← io_map_err (Returned ∘ Storage) (load checkpoint);
    io_map_err (Returned ∘ StagingFailed) (resume_for_partition data_root key attempt (committed_pages c))
  else io_map_err (Returned ∘ StagingFailed) (create_for_partition data_root key attempt).
(** With all pages staged. *)
Definition publish_partition (plan : Provider.TeralionPartitionPlan) (s : StagingRevision) (daily : list Z) (terminal : bool) :
    IO (Failure SourceRuntimeError) PublishedRevision :=
  '(_, s) ← io_map_err (Returned ∘ StagingFailed) (stage_daily_instrument s (identity (Provider.daily_instrument plan)) daily);
  io_map_err (Returned ∘ StagingFailed) (publish s (identity (Provider.ticks plan)) terminal).
Definition sync_teralion_partition (rounds : nat) (t : T) (credential : TeralionCredential) (data_root : Path) (key : SourcePartitionKey)
    (class : InstrumentClass) (shape : option ContractShape) (session_plan : SessionPlan) :
    IO (Failure SourceRuntimeError) (option (SourceSyncResult * T)) :=
  plan ← Files.lift (map_err plan_failure (Provider.teralion_partition_plan_for (Partition.source key) key class shape session_plan));
  covered ← Files.lift (map_err (Returned ∘ QueryFailed) (coverage (Partition.trading_date key) (Partition.trading_date key)));
  '(_, t) ← fetch_valid t covered credential;
  '(_, t) ← fetch_valid t (symbol_range (Partition.instrument key)) credential;
  '(daily, t) ← fetch_valid t (Provider.daily_instrument plan) credential;
  s ← open_staging data_root key;
  synced ← io_map_err in_provider (sync_pages rounds t (Provider.ticks plan) credential s);
  match synced with
  | None => mret None
  | Some (report, t, s) =>
      revision ← publish_partition plan s daily (report_terminal report);
      mret (Some (mk_sync_result (page_count report) (revision_identity (manifest revision)), t))
  end.

End sync.
End Sync.
