(* ===== verification/SyncLaws.v ===== *)
(** What a synchronisation promises: however often it is interrupted and
    resumed, what it commits are the pages of the archive, in order and
    without repetition, and what it publishes verifies. *)
From S2P Require Import Prelude Order Text Calendar Identity Event Effects Output OrderedSets Sessions Partition Query Provider Files Storage Verify VerifyLaws StagingLaws PublishLaws SourceLaws Layout LayoutLaws Cursor CursorLaws Sync.

Module SyncLaws.
Import Effects(Failure, Returned, Panicked).
Import Files FilesLaws Storage StorageLaws StagingLaws ResumeLaws PublishLaws Query Cursor CursorLaws Sync.
Import Output.Output(btree_set) OrderedSets.OrderedSets.

Section sync.
Context {J : Json} {DC : Documents} {DL : DocumentsLaws} {SP : Serde PageMetadata} {SM : Serde SourceManifest}
  {ZS : Zstd} {SH : Sha256} {B : Blake3} {BL : Blake3Laws} {T : Type} {TT : TeralionTransport T}.
Context {SPL : SerdeLaws PageMetadata metadata_wf} {SHL : Sha256Laws}.
Variable credential : TeralionCredential.
Hypothesis Hversion : is_str zstd_version_string.
(** A response is held in memory, as its items are, and compressing it does
    not exceed 64 bits. *)
Definition response_fits (body : list Z) : Prop :=
  body_fits body ∧ ∀ v items, from_json body = Some v → value_get v "items" ≫= value_as_array = Some items → is_u64 (zlen items).
Hypothesis Hfits : ∀ t r body t', execute t r credential = (Ok body, t') → response_fits body.

Section query.
Variable q : TeralionQuery.

(** ** The pages of a query *)

(** A body the archive answered the request for [cursor] with. *)
Definition served (cursor : option TeralionCursor) (body : list Z) : Prop :=
  ∃ t t', execute t (mk_request q (identity q) cursor) credential = (Ok body, t').
(** The bodies fetched one after the other, the cursor that comes next and
    those that were followed. *)
Inductive chain : list (list Z) → option TeralionCursor → list TeralionCursor → Prop :=
| chain_start : chain [] None []
| chain_page bodies cursor seen body p :
    chain bodies cursor seen → bodies = [] ∨ cursor ≠ None → served cursor body → parse_page q body = Ok p →
    chain (bodies ++ [body]) (parsed_next p) (seen ++ option_list (parsed_next p)).

(** A checkpoint of the pages fetched. *)
Record describes (bodies : list (list Z)) (seen : list TeralionCursor) (c : CursorCheckpoint) : Prop := {
  desc_query : checkpoint_query c = identity q;
  desc_count : committed_pages c = zlen bodies;
  desc_chain : chain bodies (next_cursor c) seen;
  desc_pages : seen_page_fingerprints c = btree_set (blake3 <$> bodies) ∧ NoDup (blake3 <$> bodies);
  desc_cursors : seen_cursor_digests c = btree_set (digest <$> seen) ∧ NoDup (digest <$> seen);
  desc_terminal : terminal c = true ↔ bodies ≠ [] ∧ next_cursor c = None }.

Lemma chain_texts bodies cursor seen : chain bodies cursor seen →
  Forall (λ c, cursor_text c ≠ [] ∧ is_str (cursor_text c)) seen ∧ ∀ n, cursor = Some n → n ∈ seen.
Proof.
  induction 1 as [|bodies cursor seen body p _ [IH _] _ _ Hp]; [by split|]. apply parse_page_Ok in Hp as [_ Hn]. split.
  - apply Forall_app. split; [done|]. destruct (parsed_next p) as [n|]; repeat constructor; by apply Hn.
  - intros n ->. apply elem_of_app. right. by left.
Qed.
Lemma digests_all {A} (f : A → list Z) (l : list A) : (∀ x, Hex.is_digest (f x)) → Forall Hex.is_digest (btree_set (f <$> l)).
Proof. intros Hf. apply list.Forall_forall. intros x Hx. rewrite elem_of_btree_set in Hx. by apply list_elem_of_fmap in Hx as (y & -> & _). Qed.
Lemma btree_set_again (l : list (list Z)) : btree_set (btree_set l) = btree_set l.
Proof. apply btree_set_ext. intros x. apply elem_of_btree_set. Qed.

Lemma describes_wf bodies seen c : zlen bodies ≤ PAGE_LIMIT → describes bodies seen c → checkpoint_wf c.
Proof.
  intros Hlen [Hq Hn Hc [Hp _] [Hd _] _]. destruct (chain_texts _ _ _ Hc) as [Ht Hin]. constructor.
  - rewrite Hq. apply blake3_digest.
  - rewrite Hn. unfold is_u32, zlen, PAGE_LIMIT, u32_max in *. lia.
  - intros n Hnext. apply (proj1 (list.Forall_forall _ _) Ht). by apply Hin.
  - rewrite Hd. split; [apply digests_all; intros; apply blake3_digest|apply btree_set_again].
  - rewrite Hp. split; [apply digests_all; intros; apply blake3_digest|apply btree_set_again].
Qed.

Lemma chain_next bodies seen c body p : describes bodies seen c → terminal c = false → served (next_cursor c) body → parse_page q body = Ok p →
  chain (bodies ++ [body]) (parsed_next p) (seen ++ option_list (parsed_next p)).
Proof.
  intros [_ _ Hc _ _ Ht] Hterm Hserved Hparse. econstructor; [exact Hc| |done|done]. destruct (decide (bodies = [])) as [|Hne]; [by left|right]. intros Hnone.
  by rewrite (proj2 Ht) in Hterm.
Qed.
Lemma describes_start : describes [] [] (mk_checkpoint (identity q) 0 None [] [] false).
Proof. constructor; simpl; [done|done|constructor|split; [done|constructor]|split; [done|constructor]|]. split; [done|by intros []]. Qed.

Lemma btree_insert_set (x : list Z) (l : list (list Z)) : btree_insert x (btree_set l) = btree_set (l ++ [x]).
Proof. apply btree_set_ext. intros y. rewrite elem_of_cons, elem_of_btree_set, elem_of_app, list_elem_of_singleton. tauto. Qed.

(** A set of hashes with a fresh one. *)
Lemma fresh_set {A} (f : A → list Z) l x s : s = btree_set (f <$> l) ∧ NoDup (f <$> l) → (f x ∉ s) →
  btree_insert (f x) s = btree_set (f <$> (l ++ [x])) ∧ NoDup (f <$> (l ++ [x])).
Proof.
  intros [-> Hn] Hx. rewrite elem_of_btree_set in Hx. rewrite btree_insert_set, fmap_app. split; [done|]. apply list.NoDup_app. split; [done|].
  split; [|repeat constructor; by apply not_elem_of_nil]. intros y Hy Hin%list_elem_of_singleton. by subst y.
Qed.

(** A page that may come after those of a checkpoint. *)
Record fresh_page (c : CursorCheckpoint) (body : list Z) (p : ParsedPage) : Prop := {
  fresh_served : served (next_cursor c) body;
  fresh_parsed : parse_page q body = Ok p;
  fresh_body : blake3 body ∉ seen_page_fingerprints c;
  fresh_cursor n : parsed_next p = Some n → digest n ∉ seen_cursor_digests c }.

(** The pages with it, and the checkpoint after it. *)
Lemma fresh_chain bodies seen c body p : describes bodies seen c → terminal c = false → fresh_page c body p →
  let seen' := seen ++ option_list (parsed_next p) in chain (bodies ++ [body]) (parsed_next p) seen' ∧
  (btree_insert (blake3 body) (seen_page_fingerprints c) = btree_set (blake3 <$> (bodies ++ [body])) ∧ NoDup (blake3 <$> (bodies ++ [body]))) ∧
  (match parsed_next p with Some n => btree_insert (digest n) (seen_cursor_digests c) | None => seen_cursor_digests c end = btree_set (digest <$> seen') ∧
   NoDup (digest <$> seen')).
Proof.
  intros [Hq Hn Hc Hp Hd Ht] Hterm [Hserved Hparse Hbody Hcur] seen'. split; [|split; [by apply (fresh_set blake3)|]].
  - econstructor; [exact Hc| |done|done]. destruct (decide (bodies = [])) as [|Hne]; [by left|right]. intros Hnone. by rewrite (proj2 Ht) in Hterm.
  - unfold seen'. destruct (parsed_next p) as [n|]; simpl; [by apply (fresh_set digest), Hcur|by rewrite app_nil_r].
Qed.
Lemma describes_advance bodies seen c body p c' : describes bodies seen c → terminal c = false → fresh_page c body p →
  advance c (page_for c body p) = Ok c' → describes (bodies ++ [body]) (seen ++ option_list (parsed_next p)) c'.
Proof.
  intros Hdesc Hterm Hf Ha. destruct (fresh_chain _ _ _ _ _ Hdesc Hterm Hf) as (Hc & Hb & Hs). unfold advance in Ha. cbn [pending_next page_for body_fingerprint] in Ha.
  apply bind_Ok in Ha as (n & Hn' & Ha). destruct (to_u32 (committed_pages c + 1)) eqn:Eu; [|done]. injection Hn' as ->. apply checked_Some in Eu as [-> _].
  injection Ha as <-. constructor; simpl; [apply Hdesc| |exact Hc|exact Hb|exact Hs|].
  - rewrite (desc_count _ _ _ Hdesc). unfold zlen. rewrite length_app. simpl. lia.
  - destruct (parsed_next p) as [n|]; [split; [done|by intros [_ ?]]|]. split; [|done]. intros _. split; [by destruct bodies|done].
Qed.

(** The archive ends: there are at most [limit] distinct pages behind distinct
    cursors. *)
Definition archive_fits (limit : Z) : Prop :=
  ∀ bodies cursor seen, chain bodies cursor seen → NoDup (blake3 <$> bodies) → NoDup (digest <$> seen) → zlen bodies ≤ limit.
Lemma describes_fits limit bodies seen c : archive_fits limit → describes bodies seen c → zlen bodies ≤ limit.
Proof. intros Hl [_ _ Hc [_ Hp] [_ Hs] _]. by eapply Hl. Qed.
Lemma fresh_fits limit bodies seen c body p : archive_fits limit → describes bodies seen c → terminal c = false → fresh_page c body p → zlen bodies < limit.
Proof.
  intros Hl Hd Ht Hf. destruct (fresh_chain _ _ _ _ _ Hd Ht Hf) as (Hc & [_ Hb] & [_ Hs]). specialize (Hl _ _ _ Hc Hb Hs).
  unfold zlen in *. rewrite length_app in Hl. simpl in Hl. lia.
Qed.

(** ** What an attempt holds *)

Section attempt.
Variable a : Path.
Variable limit : Z.

(** The metadata of a page is about the body the archive served. *)
Definition body_about (m : PageMetadata) (body : list Z) : Prop :=
  ∃ p, parse_page q body = Ok p ∧ record_count m = parsed_records p ∧ uncompressed_bytes m = zlen body ∧
    uncompressed_sha256 m = Hex.hex (sha256 body).
(** The checkpoint on disk is about the pages fetched; there is none before
    the first. *)
Definition checkpointed (d : Disk) (bodies : list (list Z)) : Prop :=
  (bodies = [] ∧ entry d (a ++ [CHECKPOINT]) = None) ∨
  bodies ≠ [] ∧ ∃ c seen, saved d (a ++ [CHECKPOINT]) c ∧ describes bodies seen c.
Record progress (d : Disk) (bodies : list (list Z)) (k : Z) : Prop := {
  progress_committed : committed d a k;
  progress_count : zlen bodies ≤ k;
  progress_pages i body : bodies !! i = Some body → ∃ m, recorded d a (Z.of_nat i) m ∧ body_about m body;
  progress_checkpoint : checkpointed d bodies }.
(** A staged revision of those pages; its daily instrument may be an old one. *)
Record at_pages (s : StagingRevision) (d : Disk) (bodies : list (list Z)) : Prop := {
  at_attempt : attempt_path s = a;
  at_staged : staged (forget_daily s) d;
  at_about : Forall2 body_about (staged_pages s) bodies }.

Lemma at_pages_length s d bodies : at_pages s d bodies → zlen (staged_pages s) = zlen bodies.
Proof. intros [_ _ H]. apply Forall2_length in H. unfold zlen. by rewrite H. Qed.

(** Changes that leave the directory of the pages alone. *)
Definition off_pages (W : Path → Prop) : Prop := ∀ p x, W p → ¬ (a ++ PAGES ++ [x]) `prefix_of` p.
Lemma off_pages_other W (n : Name) : n ≠ bytes_of "ticks" → (∀ p, W p → below (a ++ [n]) p) → off_pages W.
Proof. intros Hn HW p x Hp Hx. pose proof (prefix_weak_total _ _ _ (HW p Hp) Hx) as [H|H]; by apply prefix_app_inv, prefix_cons_inv_1 in H. Qed.
Lemma checkpoint_off : off_pages (checkpoint_file a).
Proof. intros p x [->| ->] H%prefix_app_inv; by apply prefix_cons_inv_1 in H. Qed.
Lemma daily_off : off_pages (daily_file a).
Proof. intros p x [n ->] H%prefix_app_inv. by apply prefix_cons_inv_1 in H. Qed.

Section off.
Variables (W : Path → Prop) (d d' : Disk).
Hypothesis Hoff : off_pages W.
Hypothesis Hc : changes W d d'.

Lemma page_untouched n : entry d' (a ++ PAGES ++ [n]) = entry d (a ++ PAGES ++ [n]).
Proof. destruct (Hc (a ++ PAGES ++ [n])) as [E|(_ & _ & p & Hw & Hp)]; [|done|]; [intros Hw; by apply (Hoff _ n Hw)|by apply (Hoff _ n) in Hp]. Qed.
Lemma page_not_off i x : ¬ W (page_path a i x).
Proof. intros Hw. by apply (Hoff _ (page_name i x) Hw). Qed.
Lemma staged_off s : attempt_path s = a → staged (forget_daily s) d → staged (forget_daily s) d'.
Proof. intros Ha Hs. apply (staged_elsewhere _ _ _ _ Hs Hc). intros i x. simpl. rewrite Ha. apply page_not_off. Qed.
Lemma metadata_off : metadata_sound d a → metadata_sound d' a.
Proof. intros Hm. assert (Hs : staged (mk_staging [] a [] None) d) by by constructor. apply (staged_off (mk_staging [] a [] None) eq_refl Hs). Qed.
Lemma committed_off k : committed d a k → committed d' a k.
Proof.
  intros [Hm Hk Ht Ho]. constructor; [by apply metadata_off|done| |].
  - intros i Hi. unfold page_path. rewrite page_untouched. by apply Ht.
  - intros n Hn. rewrite page_untouched. by apply Ho.
Qed.
Lemma recorded_off i m : recorded d a i m → recorded d' a i m.
Proof. intros (b & Hb & Hm). exists b. split; [|done]. eapply changes_file; [exact Hc|apply page_not_off|done]. Qed.
Lemma progress_off bodies k : entry d' (a ++ [CHECKPOINT]) = entry d (a ++ [CHECKPOINT]) → progress d bodies k → progress d' bodies k.
Proof.
  intros He [H1 H2 H3 H4]. constructor; [by apply committed_off|done| |].
  - intros i b Hb. destruct (H3 i b Hb) as (m & Hr & Hm). exists m. split; [by apply recorded_off|done].
  - unfold checkpointed, saved. by rewrite He.
Qed.

End off.

Lemma progress_new d d' bodies k body m c seen : progress d bodies k → zlen bodies < k → recorded d a (zlen bodies) m → body_about m body →
  changes (checkpoint_file a) d d' → saved d' (a ++ [CHECKPOINT]) c → describes (bodies ++ [body]) seen c → progress d' (bodies ++ [body]) k.
Proof.
  intros [H1 H2 H3 _] Hlt Hr Hb Hc Hs Hd. constructor; [by eapply committed_off, H1; [apply checkpoint_off|]| | |].
  - unfold zlen in *. rewrite length_app. simpl. lia.
  - intros i b [Hi|[Hi Hx]]%lookup_app_Some.
    + destruct (H3 i b Hi) as (m' & Hr' & Hm'). exists m'. split; [|done]. by eapply recorded_off, Hr'; [apply checkpoint_off|].
    + apply list_lookup_singleton_Some in Hx as [Hz <-]. replace (Z.of_nat i) with (zlen bodies) by (unfold zlen; lia).
      exists m. split; [|done]. by eapply recorded_off, Hr; [apply checkpoint_off|].
  - right. split; [by destruct bodies|]. by exists c, seen.
Qed.

(** Only the files of the next page change. *)
Lemma progress_page d d' bodies k : progress d bodies k → is_page (zlen bodies) → metadata_sound d' a → changes (page_file a (zlen bodies)) d d' →
  (entry d (page_path a (zlen bodies) YAML) ≠ None → d' = d) →
  ∃ k', progress d' bodies k' ∧ (entry d' (page_path a (zlen bodies) YAML) ≠ None → zlen bodies < k').
Proof.
  intros [H1 H2 H3 H4] Hi Hm Hc Hsame. destruct (committed_step d d' a k (zlen bodies)) as (k' & Hk & Hck & Hf); [done|unfold zlen in *; lia|done..|].
  exists k'. split; [|done]. constructor; [done|lia| |].
  - intros i b Hb. destruct (H3 i b Hb) as (m & (by_ & Hr & Hs) & Hab). exists m. split; [|done]. exists by_. split; [|done].
    eapply changes_file; [exact Hc| |exact Hr]. apply page_path_other; [done|..]; apply lookup_lt_Some in Hb; unfold is_page, zlen in *; lia.
  - assert (He : entry d' (a ++ [CHECKPOINT]) = entry d (a ++ [CHECKPOINT])); [|unfold checkpointed, saved; by rewrite He].
    destruct (Hc (a ++ [CHECKPOINT])) as [E|(_ & _ & p & (x & _ & ->) & r & E)]; [|done|exfalso].
    + intros (x & _ & E). unfold page_path in E. apply app_inv_head in E. discriminate E.
    + unfold page_path in E. rewrite <-app_assoc in E. apply app_inv_head in E. discriminate E.
Qed.

(** ** One round *)

(** However a run ends, it has at most added pages. *)
Definition kept (bodies : list (list Z)) (d d' : Disk) : Prop :=
  changes (below a) d d' ∧ ∃ more k, progress d' (bodies ++ more) k.
(** Between rounds. *)
Record round (m : CursorStateMachine) (s : StagingRevision) (d : Disk) (bodies : list (list Z)) : Prop := {
  round_query : query m = q;
  round_state : state m = if terminal (checkpoint m) then Terminal else Ready;
  round_describes : ∃ seen, describes bodies seen (checkpoint m);
  round_pages : at_pages s d bodies;
  round_progress : ∃ k, progress d bodies k }.

Lemma kept_now bodies d d' k : changes (below a) d d' → progress d' bodies k → kept bodies d d'.
Proof. intros Hc Hp. split; [done|]. exists [], k. by rewrite app_nil_r. Qed.
Lemma page_file_below i p : page_file a i p → below a p.
Proof. intros (x & _ & ->). apply below_app. Qed.
Lemma checkpoint_below p : checkpoint_file a p → below a p.
Proof. intros [->| ->]; apply below_app. Qed.

(** A response the machine accepts is a fresh page of the archive. *)
Lemma accepted_body m s d bodies t t' body page m' r m1 : round m s d bodies → request_next m = (Ok r, m1) → execute t r credential = (Ok body, t') →
  accept_response r body m1 = (Ok page, m') → terminal (checkpoint m) = false ∧ ∃ p, fresh_page (checkpoint m) body p ∧
    page = page_for (checkpoint m) body p ∧ m' = set_state (set_pending m (Some page)) AwaitingDurableCommit.
Proof.
  intros [Hq Hst (seen & Hd) _ _] (Hr & -> & ->)%request_next_Ok Ht (_ & _ & p & Hp & Hb & Hn & -> & ->)%accept_response_Ok.
  rewrite Hst in Hr. cbn [set_state query checkpoint] in *. rewrite Hq in *. rewrite (desc_query _ _ _ Hd) in Ht. split; [by destruct (terminal _)|]. exists p.
  split; [|done]. constructor; [by exists t, t'|done|done|done].
Qed.
Lemma accepted_ok c body p : served c body → parse_page q body = Ok p → ∀ n,
  page_body_ok (new_page n (identity q) body (parsed_records p)).
Proof.
  intros (t & t' & Ht) Hp n. apply parse_page_Ok in Hp. destruct (Hfits _ _ _ _ Ht) as [Hb Hi]. constructor; simpl; [by apply page_genuine in Hp| |done|apply blake3_digest].
  destruct (page_value _ _ _ Hp) as (v & items & Hv & _ & Hit & -> & _). by apply (Hi v).
Qed.

Lemma wp_machine {A} (o : Op A) m C (Q : A * CursorStateMachine → Disk → Prop) d : C d → (∀ x m', o m = (Ok x, m') → Q (x, m') d) → wp (of_machine o m) C Q d.
Proof. intros HC HQ. unfold of_machine. destruct (o m) as [[x|f] m'] eqn:E; [apply wp_done; [done|by apply HQ]|by apply wp_try]. Qed.

Hypothesis Hlimit : limit ≤ PAGE_LIMIT.
Hypothesis Harchive : archive_fits limit.

(** Staging the next page of the archive. *)
Definition staged_next (s : StagingRevision) (d : Disk) (bodies : list (list Z)) (body : list Z) (s' : StagingRevision) : Prop :=
  publish_root s' = publish_root s ∧ at_pages s' d (bodies ++ [body]) ∧
  ∃ m k, progress d bodies k ∧ zlen bodies < k ∧ recorded d a (zlen bodies) m ∧ body_about m body.
Lemma wp_stage_next s d bodies k c body p n : at_pages s d bodies → progress d bodies k → zlen bodies < PAGE_LIMIT → served c body → parse_page q body = Ok p →
  let page := new_page n (identity q) body (parsed_records p) in
  wp (stage_page s page) (kept bodies d) (λ '(sp, s') d', changes (page_file a (zlen bodies)) d d' ∧ receipt sp = commit_receipt page ∧ staged_next s d' bodies body s') d.
Proof.
  intros Hat Hp Hlen Hserved Hparse page. pose proof (accepted_ok _ _ _ Hserved Hparse n) as Hok. pose proof (at_pages_length _ _ _ Hat) as Hsl. destruct Hat as [Ha Hs Habout].
  assert (Hi : is_page (zlen bodies)) by (unfold is_page, zlen in *; lia). unfold stage_page. apply wp_do.
  pose proof (wp_stage_object Hversion (forget_daily s) d page Hs) as Hwp. cbn [forget_daily attempt_path staged_pages] in Hwp. rewrite Hsl in *.
  specialize (Hwp Hlen Hok). rewrite Ha in *. cbv zeta in Hwp.
  assert (Hpage : ∀ d', staged (forget_daily s) d' → changes (page_file a (zlen bodies)) d d' → (entry d (page_path a (zlen bodies) YAML) ≠ None → d' = d) →
    ∃ k', progress d' bodies k' ∧ (entry d' (page_path a (zlen bodies) YAML) ≠ None → zlen bodies < k')).
  { intros d' Hs' Hc Hsame. apply (progress_page d d' bodies k Hp Hi); [|done..]. rewrite <-Ha. apply Hs'. }
  eapply wp_conseq; [exact Hwp| |].
  - intros d' (Hs' & Hc & Hsame). destruct (Hpage _ Hs' Hc Hsame) as (k' & Hk' & _). eapply kept_now; [|exact Hk']. eapply changes_mono; [apply page_file_below|exact Hc].
  - intros m d' (Hs' & Hc & Hsame) (_ & Hpush & (A1 & A2 & A3) & Hr). destruct (Hpage _ Hs' Hc Hsame) as (k' & Hk' & Hlt).
    assert (Hm : body_about m body) by by exists p.
    apply wp_done; [eapply kept_now; [eapply changes_mono; [apply page_file_below|exact Hc]|exact Hk']|]. split; [done|]. split; [done|]. split; [done|]. split.
    + constructor; [done|exact Hpush|]. simpl. apply Forall2_app; [done|]. by repeat constructor.
    + exists m, k'. split; [done|]. split; [|done]. apply Hlt. destruct Hr as (b & Hb & _). by rewrite Hb.
Qed.

(** Saving the checkpoint of the next page. *)
Lemma wp_save_next s s' d bodies body c seen : staged_next s d bodies body s' → describes (bodies ++ [body]) seen c →
  wp (save c (a ++ [CHECKPOINT])) (kept bodies d) (λ _ d', changes (below a) d d' ∧ at_pages s' d' (bodies ++ [body]) ∧ ∃ k, progress d' (bodies ++ [body]) k) d.
Proof.
  intros (_ & [Ha Hs Hab] & m & k & Hp & Hk & Hr & Hm) Hd.
  assert (Hwf : checkpoint_wf c) by (eapply describes_wf; [|exact Hd]; pose proof (describes_fits _ _ _ _ Harchive Hd); lia).
  assert (Hnew : ∀ d', changes (checkpoint_file a) d d' → saved d' (a ++ [CHECKPOINT]) c → progress d' (bodies ++ [body]) k).
  { intros d' Hc Hsv. by eapply (progress_new d d' bodies k body m c seen). }
  eapply wp_conseq; [by apply wp_save| |].
  - intros d' [Hc [He|Hsv]]; (split; [eapply changes_mono; [apply checkpoint_below|exact Hc]|]).
    + exists [], k. rewrite app_nil_r. by apply (progress_off _ _ _ checkpoint_off Hc).
    + exists [body], k. by apply Hnew.
  - intros _ d' [Hc _] Hsv. split; [eapply changes_mono; [apply checkpoint_below|exact Hc]|]. split; [|exists k; by apply Hnew].
    constructor; [done| |done]. by apply (staged_off _ _ _ checkpoint_off Hc).
Qed.
Lemma kept_after bodies d d1 d2 : changes (below a) d d1 → kept bodies d1 d2 → kept bodies d d2.
Proof. intros H [Hc Hk]. split; [by eapply changes_trans|done]. Qed.

(** A round comes to staging a fresh page of the archive and then to saving
    the checkpoint after it. *)
Lemma wp_sync_page_from t m s d bodies (C : Disk → Prop) Q : round m s d bodies → C d →
  (∀ body p t', terminal (checkpoint m) = false → fresh_page (checkpoint m) body p →
    wp (stage_page s (new_page (committed_pages (checkpoint m)) (identity q) body (parsed_records p))) C
      (λ '(_, s') d1, ∀ c, advance (checkpoint m) (page_for (checkpoint m) body p) = Ok c →
         wp (_ ← io_map_err (Returned ∘ SyncIo) (save c (a ++ [CHECKPOINT]));
             mret (t', mk_machine (query m) c (if terminal c then Terminal else Ready) None, s')) C Q d1) d) →
  wp (sync_page credential (a ++ [CHECKPOINT]) t m s) C Q d.
Proof.
  intros Hround HC Hrest. pose proof Hround as [Hq Hst (seen & Hd) _ _].
  unfold sync_page. apply wp_do, wp_machine; [done|]. intros r m1 Hr. destruct (execute t r credential) as [[body|e] t'] eqn:Et.
  2:{ apply wp_do, wp_do, wp_machine; [done|]. intros [] m2 _. by apply wp_try. }
  apply wp_do, wp_done; [done|]. apply wp_do, wp_machine; [done|]. intros page m2 Ha.
  destruct (accepted_body m s d bodies t t' body page m2 r m1 Hround Hr Et Ha) as (Hterm & p & Hfresh & -> & ->).
  apply wp_do, wp_map_err. unfold source_page. cbn [page_for pending_ordinal pending_query pending_body pending_records]. rewrite (desc_query _ _ _ Hd).
  eapply wp_conseq; [exact (Hrest body p t' Hterm Hfresh)|done|]. intros [sp s'] d1 HC1 Hnext. apply wp_do, wp_machine; [done|].
  intros u m3 (_ & p' & c & Epend & _ & Hadv & ->)%commit_page_Ok. apply (inj Some) in Epend. subst p'. by apply Hnext.
Qed.

Lemma wp_sync_page t m s d bodies : round m s d bodies →
  wp (sync_page credential (a ++ [CHECKPOINT]) t m s) (kept bodies d)
    (λ '(t', m', s') d', changes (below a) d d' ∧ publish_root s' = publish_root s ∧ ∃ body, round m' s' d' (bodies ++ [body])) d.
Proof.
  intros Hround. pose proof Hround as [Hq _ (seen & Hd) Hat (k & Hp)].
  apply (wp_sync_page_from t m s d bodies); [done|by eapply kept_now; [apply changes_refl|]|]. intros body p t' Hterm Hfresh.
  pose proof (fresh_fits _ _ _ _ _ _ Harchive Hd Hterm Hfresh) as Hlen.
  eapply wp_conseq; [by apply (wp_stage_next s d bodies k _ body p _ Hat Hp ltac:(lia) (fresh_served _ _ _ Hfresh) (fresh_parsed _ _ _ Hfresh))|done|].
  intros [sp s'] d1 HC1 (Hpf & _ & Hnext) c Hadv. assert (Hc1 : changes (below a) d d1) by (eapply changes_mono; [apply page_file_below|exact Hpf]).
  pose proof (describes_advance _ _ _ _ _ _ Hd Hterm Hfresh Hadv) as Hd'. apply wp_do, wp_map_err.
  eapply wp_conseq; [by apply (wp_save_next s s' d1 bodies body c _ Hnext Hd')|intros d'; by apply kept_after|].
  intros _ d2 HC2 (Hc2 & Hat2 & Hp2). apply wp_done; [by eapply kept_after|]. split; [by eapply changes_trans|]. split; [apply Hnext|].
  exists body. by constructor; [..|eexists|done|].
Qed.

(** *** Temporary files in the way *)

(** What an interrupted write of the next page or of the checkpoint leaves. *)
Definition in_the_way (d : Disk) (n : Z) : Prop :=
  entry d (a ++ [CHECKPOINT_TMP]) ≠ None ∨ entry d (page_path a n YAML) = None ∧ entry d (page_path a n OBJECT_TMP) ≠ None.
Lemma wp_sync_page_blocked t m s d bodies : round m s d bodies → in_the_way d (zlen bodies) →
  wp (sync_page credential (a ++ [CHECKPOINT]) t m s) (λ _, True) (λ _ _, False) d.
Proof.
  intros Hround Hway. pose proof Hround as [Hq _ (seen & Hd) Hat (k & Hp)].
  apply (wp_sync_page_from t m s d bodies); [done|done|]. intros body p t' Hterm Hfresh.
  pose proof (fresh_fits _ _ _ _ _ _ Harchive Hd Hterm Hfresh) as Hlen. destruct Hway as [Hway|[Hy Ht]].
  - eapply wp_conseq; [by apply (wp_stage_next s d bodies k _ body p _ Hat Hp ltac:(lia) (fresh_served _ _ _ Hfresh) (fresh_parsed _ _ _ Hfresh))|done|].
    intros [sp s'] d1 _ (Hpf & _) c _. apply wp_do, wp_map_err. eapply wp_conseq; [apply wp_save_blocked|done|done].
    destruct (Hpf (a ++ [CHECKPOINT_TMP])) as [->|(? & _)]; [|done..]. intros (x & _ & E). unfold page_path in E. by apply app_inv_head in E.
  - pose proof (at_pages_length _ _ _ Hat) as Hsl. eapply wp_conseq; [apply SourceLaws.wp_stage_blocked; rewrite ?Hsl, ?(at_attempt _ _ _ Hat); [|apply Hd|done..]|done|by intros []].
    unfold is_page, zlen in *. lia.
Qed.

(** ** The loop *)

Definition complete (bodies : list (list Z)) : Prop :=
  bodies ≠ [] ∧ NoDup (blake3 <$> bodies) ∧ ∃ seen, chain bodies None seen ∧ NoDup (digest <$> seen).
Lemma round_complete m s d bodies : round m s d bodies → state m = Terminal → complete bodies ∧ committed_pages (checkpoint m) = zlen bodies ∧ terminal (checkpoint m) = true.
Proof.
  intros [_ Hs (seen & [_ Hn Hc [_ Hp] [_ Hd] Ht]) _ _] Hst. rewrite Hs in Hst. destruct (terminal (checkpoint m)); [|done]. destruct (proj1 Ht eq_refl) as [Hne Hnext].
  split; [|done]. split; [done|]. split; [done|]. exists seen. by rewrite Hnext in Hc.
Qed.
Lemma kept_more bodies body d d1 d2 : changes (below a) d d1 → kept (bodies ++ [body]) d1 d2 → kept bodies d d2.
Proof. intros H (Hc & more & k & Hp). split; [by eapply changes_trans|]. exists (body :: more), k. by rewrite <-app_assoc in Hp. Qed.

Lemma wp_sync_loop rounds t m s d bodies : round m s d bodies →
  wp (sync_loop rounds credential (a ++ [CHECKPOINT]) t m s) (kept bodies d)
    (λ o d', match o with
       | Some (t', m', s') => changes (below a) d d' ∧ publish_root s' = publish_root s ∧ state m' = Terminal ∧ ∃ more, round m' s' d' (bodies ++ more)
       | None => zlen bodies + Z.of_nat rounds ≤ limit
       end) d.
Proof.
  revert t m s d bodies. induction rounds as [|rounds IH]; intros t m s d bodies Hr; simpl; case_bool_decide as Et.
  1,3: apply wp_done; [|split; [apply changes_refl|split; [done|split; [done|exists []; by rewrite app_nil_r]]]].
  1,2,3: pose proof Hr as [_ _ (seen & Hd) _ (k & Hp)]; try (eapply kept_now; [apply changes_refl|done]).
  - apply wp_done; [eapply kept_now; [apply changes_refl|done]|]. pose proof (describes_fits _ _ _ _ Harchive Hd). lia.
  - apply wp_do. eapply wp_conseq; [by apply wp_sync_page|done|]. intros [[t' m'] s'] d1 _ (Hc & Hpub & body & Hr'). eapply wp_conseq; [by apply IH|intros d'; by apply kept_more|].
    intros [[[t2 m2] s2]|] d2 _.
    + intros (Hc2 & Hp2 & Ht2 & more & Hr2). split; [by eapply changes_trans|]. split; [congruence|]. split; [done|]. exists (body :: more). by rewrite <-app_assoc in Hr2.
    + unfold zlen. rewrite length_app. simpl. lia.
Qed.

Lemma wp_sync_loop_blocked rounds t m s d bodies : round m s d bodies → state m ≠ Terminal → in_the_way d (zlen bodies) →
  wp (sync_loop rounds credential (a ++ [CHECKPOINT]) t m s) (λ _, True) (λ o _, o = None) d.
Proof.
  intros Hr Ht Hway. destruct rounds; simpl; rewrite (bool_decide_eq_false_2 _ Ht); [by apply wp_done|].
  apply wp_do. by eapply wp_conseq; [by apply (wp_sync_page_blocked t m s d bodies)|..].
Qed.

(** There are pages to fetch after the first [n]. *)
Definition unfinished (d : Disk) (n : Z) : Prop :=
  entry d (a ++ [CHECKPOINT]) = None ∧ n = 0 ∨ ∃ c, saved d (a ++ [CHECKPOINT]) c ∧ terminal c = false ∧ committed_pages c = n.
Lemma saved_unique d p c c' : saved d p c → saved d p c' → c = c'.
Proof. intros (b & v & H1 & H2 & H3) (b' & v' & H1' & H2' & H3'). congruence. Qed.
Lemma unfinished_describes d bodies n : unfinished d n → checkpointed d bodies → n = zlen bodies ∧
  ∀ c, bodies = [] ∨ saved d (a ++ [CHECKPOINT]) c → (∃ seen, describes bodies seen c) → terminal c = false.
Proof.
  intros Hu Hc. split.
  - destruct Hu as [[He ->]|(c & Hs & _ & <-)], Hc as [[-> He']|(Hne & c' & seen & Hs' & Hd)]; [done| | |].
    + destruct Hs' as (b & v & Hb & _). congruence.
    + destruct Hs as (b & v & Hb & _). congruence.
    + rewrite (saved_unique _ _ _ _ Hs Hs'). apply Hd.
  - intros c [->|Hs] (seen & Hd); [destruct (terminal c) eqn:Et; [|done]; by apply (desc_terminal _ _ _ Hd) in Et as [? _]|].
    destruct Hu as [[He _]|(c' & Hs' & Ht & _)]; [destruct Hs as (b & v & Hb & _); congruence|].
    by rewrite (saved_unique _ _ _ _ Hs Hs').
Qed.

Lemma wp_start s d bodies k C : is_paged q = true → at_pages s d bodies → progress d bodies k → C d →
  wp (start_machine q (a ++ [CHECKPOINT])) C (λ m d', d' = d ∧ round m s d bodies ∧ (bodies = [] ∨ saved d (a ++ [CHECKPOINT]) (checkpoint m))) d.
Proof.
  intros Hpaged Hat Hp HC. unfold start_machine. apply wp_do, wp_exists; [done|]. pose proof (progress_checkpoint _ _ _ Hp) as [[-> He]|(Hne & c & seen & Hs & Hd)].
  - rewrite He, bool_decide_eq_false_2 by by intros []. apply wp_try; [done|]. intros m Hm. unfold new_machine in Hm. rewrite Hpaged in Hm. injection Hm as <-.
    split; [done|]. split; [|by left]. constructor; [done|done|exists []; apply describes_start|done|by exists k].
  - pose proof Hs as (b & v & He & _). rewrite He, bool_decide_eq_true_2 by done. apply wp_do, wp_map_err. eapply wp_conseq; [by apply wp_load|by intros d' ->|].
    intros c' d' _ [-> ->]. apply wp_try; [done|]. intros m Hm. unfold resume_machine in Hm. rewrite bool_decide_eq_false_2 in Hm; [|rewrite (desc_query _ _ _ Hd); by intros []].
    injection Hm as <-. split; [done|]. split; [|by right]. constructor; [done|done|by exists seen|done|by exists k].
Qed.

(** However it ends, what was fetched is kept; when it returns, the pages are
    the whole archive. *)
Lemma wp_sync_pages rounds t s d bodies k : is_paged q = true → at_pages s d bodies → progress d bodies k →
  wp (sync_pages rounds t q credential s) (kept bodies d)
    (λ o d', match o with
       | Some (report, t', s') => changes (below a) d d' ∧ publish_root s' = publish_root s ∧ ∃ more, let all := bodies ++ more in
           complete all ∧ report = Sync.mk_report (zlen all) true ∧ at_pages s' d' all ∧ ∃ k', progress d' all k'
       | None => zlen bodies + Z.of_nat rounds ≤ limit
       end) d.
Proof.
  intros Hpaged Hat Hp. assert (HC : kept bodies d d) by (eapply kept_now; [apply changes_refl|done]). unfold sync_pages. cbv zeta. rewrite (at_attempt _ _ _ Hat).
  apply wp_do. eapply wp_conseq; [by apply (wp_start s d bodies k (kept bodies d))|done|]. intros m d1 _ (-> & Hr & _). apply wp_do.
  eapply wp_conseq; [by apply wp_sync_loop|done|]. intros [[[t' m'] s']|] d2 HC2; [|by intros; apply wp_done].
  intros (Hc & Hpub & Ht & more & Hr'). apply wp_done; [done|]. split; [done|]. split; [done|]. exists more.
  destruct (round_complete _ _ _ _ Hr' Ht) as (Hcomp & Hcount & Hterm). cbv zeta. rewrite Hcount, Hterm. split; [done|]. split; [done|]. split; apply Hr'.
Qed.

(** With a temporary file in the way, nothing more is ever fetched. *)
Lemma wp_sync_pages_blocked rounds t s d bodies k n : is_paged q = true → at_pages s d bodies → progress d bodies k → unfinished d n → in_the_way d n →
  wp (sync_pages rounds t q credential s) (λ _, True) (λ o _, o = None) d.
Proof.
  intros Hpaged Hat Hp Hu Hway. destruct (unfinished_describes _ _ _ Hu (progress_checkpoint _ _ _ Hp)) as [-> Hterm].
  unfold sync_pages. cbv zeta. rewrite (at_attempt _ _ _ Hat). apply wp_do.
  eapply wp_conseq; [by apply (wp_start s d bodies k (λ _, True))|done|]. intros m d1 _ (-> & Hr & Hs). apply wp_do.
  eapply wp_conseq; [apply (wp_sync_loop_blocked rounds t m s d bodies Hr)|done|].
  - rewrite (round_state _ _ _ _ Hr), (Hterm _ Hs (round_describes _ _ _ _ Hr)). done.
  - done.
  - intros o d2 _ ->. by apply wp_done.
Qed.

End attempt.
End query.
End sync.
End SyncLaws.
