(* ===== verification/SyncRuns.v ===== *)
(** Synchronising a partition: what a run of the source runtime leaves behind,
    however it ends, and what it has published when it returns. *)
From S2P Require Import Prelude Order Text Calendar Identity Event MarketState Orders Effects Output OrderedSets Sessions Partition Planning PlanningLaws Query Provider Files Storage Verify VerifyLaws StagingLaws PublishLaws SourceLaws Layout LayoutLaws Cursor CursorLaws Sync SyncLaws.

Module SyncRuns.
Import Effects(Failure, Returned, Panicked).
Import Files FilesLaws Storage Verify VerifyLaws StorageLaws StagingLaws ResumeLaws PublishLaws PublishRuns SourceLaws Layout LayoutLaws Query Cursor CursorLaws Sync SyncLaws.
Import Partition(SourcePartitionKey).

Section runs.
Context {J : Json} {DC : Documents} {DL : DocumentsLaws} {SP : Serde PageMetadata} {SM : Serde SourceManifest} {SK : Serde SourcePartitionManifest}
  {ZS : Zstd} {SH : Sha256} {B : Blake3} {BL : Blake3Laws} {T : Type} {TT : TeralionTransport T}.
Context {SPL : SerdeLaws PageMetadata metadata_wf} {SML : SerdeLaws SourceManifest manifest_wf} {SKL : SerdeLaws SourcePartitionManifest partition_wf}
  {SHL : Sha256Laws}.
Variables (credential : TeralionCredential) (q : TeralionQuery).

(** ** An attempt that is published *)

Section attempt.
Variable a : Path.

(** An attempt without a checkpoint. *)
Record idle (d : Disk) : Prop := {
  idle_sound : metadata_sound d a;
  idle_only n : extension n = Some (bytes_of "yaml") → entry d (a ++ PAGES ++ [n]) ≠ None → ∃ i, is_page i ∧ n = page_name i YAML;
  idle_start : entry d (a ++ [CHECKPOINT]) = None }.
Definition attempted (d : Disk) : Prop := ∃ bodies k, progress credential q a d bodies k.

Lemma idle_progress d : idle d → progress credential q a d [] 0.
Proof. intros [H1 H2 H3]. constructor; [|done|done|by left]. constructor; [done|by split|intros; lia|done]. Qed.
Lemma idle_attempted d : idle d → attempted d.
Proof. intros H%idle_progress. by exists [], 0. Qed.
Lemma idle_off W d d' : off_pages a W → changes W d d' → entry d' (a ++ [CHECKPOINT]) = entry d (a ++ [CHECKPOINT]) → idle d → idle d'.
Proof.
  intros Hoff Hc He [H1 H2 H3]. constructor; [by eapply metadata_off| |by rewrite He]. intros n Hn. rewrite (page_untouched a W d d') by done. by apply H2.
Qed.
(** Changes away from the attempt. *)
Lemma progress_away W d d' bodies k : (∀ p, W p → ¬ below a p) → changes W d d' → progress credential q a d bodies k → progress credential q a d' bodies k.
Proof.
  intros Haway Hc. apply (progress_off _ _ _ W); [|done|].
  - intros p x Hw Hp. apply (Haway p Hw). by eapply below_trans; [apply below_app|].
  - destruct (Hc (a ++ [CHECKPOINT])) as [E|(_ & _ & p & Hw & Hp)]; [intros Hw; by apply (Haway _ Hw), below_app|done|].
    exfalso. apply (Haway p Hw). by eapply below_trans; [apply below_app|].
Qed.
Lemma attempted_away W d d' : (∀ p, W p → ¬ below a p) → changes W d d' → attempted d → attempted d'.
Proof. intros Haway Hc (bodies & k & Hp). exists bodies, k. by eapply progress_away. Qed.
Lemma idle_gone d : (∀ x, entry d (a ++ x) = None) → idle d.
Proof. intros H. constructor; [|intros n _ He; by rewrite H in He|apply H]. intros i b _ He. unfold page_path in He. by rewrite H in He. Qed.

(** Sealing removes the checkpoint first, then metadata. *)
Lemma sealed_ne p : sealed_file a p → p ≠ [].
Proof. unfold page_path. by intros [->|[->|[->|[->|(i & _ & ->)]]]]; destruct a. Qed.
Lemma entry_deleted d p r e : p ≠ [] → entry (delete p d) r = Some e → p ≠ r ∧ entry d r = Some e.
Proof. intros Hp He. destruct (decide (p = r)) as [->|Hne]; [by rewrite entry_delete in He|]. by rewrite entry_delete_ne in He. Qed.
Lemma metadata_removed d p : sealed_file a p → metadata_sound d a → metadata_sound (delete p d) a.
Proof.
  intros Hp Hm j b Hj [Hne He]%entry_deleted; [|by apply sealed_ne]. destruct (Hm j b Hj He) as (m & Hs & Hpm). exists m. split; [done|].
  eapply page_sound_changes; [done|by apply (changes_delete (λ r, r = p))| |done]. intros E. apply (object_not_sealed a (page_path a j OBJECT)); [left; by exists j|by rewrite E].
Qed.
Lemma idle_removed d p : sealed_file a p → idle d → idle (delete p d).
Proof.
  intros Hp [H1 H2 H3]. pose proof (sealed_ne p Hp) as Hn. constructor; [by apply metadata_removed| |].
  - intros n Hx He. apply H2; [done|]. destruct (entry (delete p d) _) eqn:E; [|done]. apply entry_deleted in E as [_ ->]; done.
  - destruct (entry (delete p d) _) eqn:E; [|done]. apply entry_deleted in E as [_ E]; [congruence|done].
Qed.
Lemma checkpoint_removed d : attempted d → idle (delete (a ++ [CHECKPOINT]) d).
Proof.
  intros (bodies & k & [[H1 _ _ H2] _ _ _]). assert (Hs : sealed_file a (a ++ [CHECKPOINT])) by by left. constructor; [by apply metadata_removed| |].
  - intros n Hx He. apply H2; [done|]. destruct (entry (delete _ d) _) eqn:E; [|done]. apply entry_deleted in E as [_ ->]; [done|by apply sealed_ne].
  - apply entry_delete. by apply sealed_ne.
Qed.
Lemma no_checkpoint d : attempted d → entry d (a ++ [CHECKPOINT]) = None → idle d.
Proof. by intros (bodies & k & [[H1 _ _ H2] _ _ _]) He. Qed.

Lemma wp_remove_idle p d : sealed_file a p → idle d → wp (remove_if_there p) attempted (λ _ d', idle d') d.
Proof.
  intros Hp Hi. unfold remove_if_there. assert (Ha : attempted d) by by apply idle_attempted. apply wp_do, wp_exists; [done|]. unfold when.
  destruct (bool_decide _); [|by apply wp_done]. by apply wp_remove; [done|apply idle_attempted, idle_removed|apply idle_removed].
Qed.
Lemma wp_seal_idle s m d : attempt_path s = a → (∀ p, p ∈ pages m → is_page (ordinal p)) → attempted d → wp (seal s m) attempted (λ _ d', idle d') d.
Proof.
  intros Es Hp Ha. unfold seal. rewrite Es. apply wp_do. eapply wp_conseq; [instantiate (1 := λ _ d', idle d'); instantiate (1 := attempted)|done|].
  { unfold remove_if_there. apply wp_do, wp_exists; [done|]. unfold when. case_bool_decide as He.
    - apply wp_remove; [done|apply idle_attempted|]; by apply checkpoint_removed.
    - apply wp_done; [done|]. apply no_checkpoint; [done|]. by apply eq_None_not_Some. }
  intros u1 d1 _ H1. apply wp_do. eapply wp_conseq; [apply (wp_remove_idle (a ++ DAILY_METADATA) d1); [by right; left|done]|done|]. intros u2 d2 _ H2.
  apply wp_do. eapply wp_conseq; [apply (wp_traverse _ _ _ idle); [apply idle_attempted| |exact H2]|done|].
  { intros p d3 Hin H3. apply wp_remove_idle; [|done]. rewrite metadata_names by by apply Hp. do 4 right. exists (ordinal p). split; [by apply Hp|done]. }
  intros u3 d3 _ H3. apply wp_do, wp_try; [by apply idle_attempted|]. intros bytes _. apply wp_do.
  assert (Ht : with_extension (a ++ [MANIFEST]) (bytes_of "tmp") = a ++ [bytes_of "manifest.tmp"]) by (rewrite with_extension_snoc; done).
  assert (Hidle : ∀ W d4, changes W d3 d4 → (∀ p, W p → p = a ++ [bytes_of "manifest.tmp"] ∨ p = a ++ [MANIFEST]) → idle d4).
  { intros W d4 Hc HW. apply (idle_off W d3); [|done| |done].
    - intros p x [->| ->]%HW H%prefix_app_inv; by apply prefix_cons_inv_1 in H.
    - destruct (Hc (a ++ [CHECKPOINT])) as [E|(_ & _ & p & [->| ->]%HW & Hx)]; [intros [E|E]%HW; by apply app_inv_head in E|done|exfalso..];
        apply prefix_app_inv, prefix_cons_inv_1 in Hx; done. }
  apply wp_write_atomic; rewrite Ht; [intros E; by apply app_inv_head in E| |].
  - intros d4 H4. eapply idle_attempted, Hidle; [exact H4|]. intros p ->. by left.
  - intros d4 H4 _ _. assert (H5 : idle d4) by by eapply Hidle. pose proof (idle_attempted _ H5). split; [done|]. by apply wp_sync.
Qed.

(** ** Publication *)

Variable root : Path.
Hypothesis Hsep : separate root a.
Definition published_file (p : Path) : Prop := below a p ∨ below (root ++ [REVISIONS]) p ∨ p = root ++ [CURRENT_TMP] ∨ p = root ++ [CURRENT].
Lemma published_apart p : below (root ++ [REVISIONS]) p ∨ p = root ++ [CURRENT_TMP] ∨ p = root ++ [CURRENT] → ¬ below a p.
Proof.
  destruct Hsep as [H1 H2 H3]. intros Hp Ha.
  assert (Hx : ∀ q, disjoint a q → below q p → False) by (intros q' Hd Hq'; by eapply (below_disjoint a q' p p)).
  destruct Hp as [Hp|[->| ->]]; [by apply (Hx _ H1)|apply (Hx _ H3), below_refl|apply (Hx _ H2), below_refl].
Qed.

Lemma wp_publish_attempted s query terminal d : publish_root s = root → attempt_path s = a → staged s d → attempted d →
  wp (publish s query terminal) (λ d', attempted d' ∧ changes published_file d d') (λ _ _, True) d.
Proof.
  intros Er Es Hs Hd. set (C := λ d', _ ∧ _). assert (H0 : C d) by (split; [done|apply changes_refl]). unfold publish. rewrite Er.
  apply wp_do, wp_try; [done|]. intros daily Hdaily. apply wp_do, wp_try; [done|]. intros m Hm.
  assert (Hcont : ∀ i p, staged_pages s !! i = Some p → kind p = TickPage ∧ ordinal p = Z.of_nat i) by (intros i p Hi; by destruct (staged_page_sound _ _ Hs i p Hi)).
  apply build_staged in Hm as (_ & semantic & Hm); [|apply staged_limit in Hs; unfold PAGE_LIMIT, u32_max in *; lia|done].
  assert (Hpages : ∀ p, p ∈ pages m → is_page (ordinal p)).
  { rewrite (of_pages _ _ _ _ _ Hm). intros p (i & Hi)%list_elem_of_lookup. rewrite (proj2 (Hcont i p Hi)). by eapply staged_index. }
  pose proof (wp_and _ _ _ _ _ _ (wp_seal s m d Hpages) (wp_seal_idle s m d Es Hpages Hd)) as Hseal. cbv zeta in Hseal. rewrite Es in Hseal.
  assert (Hin : ∀ d1, changes (sealed_file a) d d1 → changes (below a) d d1) by (intros d1; apply changes_mono, sealed_below).
  assert (Hpub : ∀ d1, changes (below a) d d1 → changes published_file d d1) by (intros d1; apply changes_mono; by left).
  apply wp_do. eapply wp_conseq; [exact Hseal|intros d1 [Hc Ha]; split; [done|by apply Hpub, Hin]|].
  intros u1 d1 _ [(Hc1 & Ha1 & _) Hidle]. clear u1. apply wp_do.
  assert (Hat1 : attempted d1) by by apply idle_attempted. assert (HC1 : C d1) by (split; [done|by apply Hpub, Hin]).
  assert (Hmoved : ∀ d2, changes (moved_file root a m) d d2 → changes published_file d d2).
  { intros d2. apply changes_mono. intros p [Hp|[Hp|Hp]]; [by left|right; left; by eapply below_pub|by right; right; left]. }
  apply (wp_move_to_revisions root a m Hsep s d d1); [done|done|by apply Hin|done|done| | |].
  - intros d2 Hc2 _ Hgone. split; [by apply idle_attempted, idle_gone|by apply Hmoved].
  - intros d2 Hc2 _ Hgone _. assert (Hat2 : attempted d2) by by apply idle_attempted, idle_gone. apply wp_do.
    assert (Ht : with_extension (root ++ [CURRENT]) (bytes_of "tmp") = root ++ [CURRENT_TMP]) by (rewrite with_extension_snoc; done).
    assert (Hout : ∀ W d3, changes W d2 d3 → (∀ p, W p → p = root ++ [CURRENT_TMP] ∨ p = root ++ [CURRENT]) → C d3).
    { intros W d3 Hc HW. split; [eapply attempted_away, Hat2; [|exact Hc]; intros p Hp%HW; by apply published_apart; right|].
      eapply changes_trans; [by apply Hmoved|]. eapply changes_mono; [|exact Hc]. intros p Hp%HW. by do 2 right. }
    apply wp_write_atomic; rewrite Ht; [intros E; by apply app_inv_head in E| |].
    + intros d3 H3. eapply Hout; [exact H3|]. intros p ->. by left.
    + intros d3 H3 _ _. assert (HC3 : C d3) by by eapply Hout. split; [done|]. by apply wp_done.
  - intros q' r Hq. assert (Hmk : changes (λ p, p = root ++ [REVISIONS]) d1 (make_dirs d1 q')) by (apply (changes_make_dirs _ _ _ (root ++ [REVISIONS])); [done|by exists r]).
    split; [eapply attempted_away, Hat1; [|exact Hmk]; intros p ->; apply published_apart; left; apply below_refl|].
    eapply changes_trans; [apply HC1|]. eapply changes_mono; [|exact Hmk]. intros p ->. right. left. apply below_refl.
Qed.

End attempt.

(** ** A partition *)

Hypothesis Hversion : is_str zstd_version_string.
Hypothesis Hfits : ∀ t r body t', execute t r credential = (Ok body, t') → response_fits body.
Variable limit : Z.
Hypothesis Hlimit : limit ≤ PAGE_LIMIT.
Hypothesis Harchive : archive_fits credential q limit.

Section partition.
Variables (data : Path) (key : SourcePartitionKey).
Hypothesis Hkey : proper_key key.
Let r : Path := partition_root data key.
Let a : Path := attempt_root r (Provider.attempt_id key).

Lemma attempt_separate : separate r a.
Proof. apply (proj1 (separate_layouts r (Provider.attempt_id key))). Qed.

(** What a run leaves of the partition's attempt: pages of the archive, under
    the root of the partition. *)
Definition held (d : Disk) (bodies : list (list Z)) : Prop :=
  (∃ k, progress credential q a d bodies k) ∧ (bodies ≠ [] → owned d r key).
Definition partly_fetched (d : Disk) : Prop := ∃ bodies, held d bodies.

Definition staging_file (p : Path) : Prop := below a p ∨ p = key_file r ∨ p = key_file_tmp r.
(** What opening the staged revision changes: directories are made. *)
Definition opening_file (p : Path) : Prop := p = a ++ PAGES ∨ p = a ++ INSTRUMENT ∨ p = key_file r ∨ p = key_file_tmp r.
Lemma opening_staging d d' : changes opening_file d d' → changes staging_file d d'.
Proof. apply changes_mono. intros p [->|[->|Hp]]; [left; apply below_app..|by right]. Qed.
Lemma key_not_below n : n ≠ bytes_of "staging" → ¬ below a (r ++ [n]).
Proof. intros Hn H%prefix_app_inv%prefix_cons_inv_1. congruence. Qed.
Lemma owned_kept W d d' : changes W d d' → ¬ W (key_file r) → owned d r key → owned d' r key.
Proof. intros Hc HW (b & Hb & Hs). exists b. split; [|done]. by eapply changes_file. Qed.
Lemma owned_below d d' : changes (below a) d d' → owned d r key → owned d' r key.
Proof. intros Hc. eapply owned_kept; [exact Hc|]. by apply key_not_below. Qed.
Lemma owned_published d d' : changes (published_file a r) d d' → owned d r key → owned d' r key.
Proof.
  intros Hc. eapply owned_kept; [exact Hc|]. intros [H|[H|[H|H]]]; [by apply key_not_below in H|by apply prefix_app_inv, prefix_cons_inv_1 in H|by apply app_inv_head in H..].
Qed.
Lemma old_kept_staging d d' old : changes staging_file d d' → verifies d r old → verifies d' r old.
Proof.
  intros Hc Hv. pose proof Hv as (bytes & mb & _ & _ & _ & Hr & _). pose proof attempt_separate as Hsep. eapply verifies_kept; [exact Hc| | |done].
  - intros [H|[H|H]]; [|by apply app_inv_head in H..]. by eapply (below_disjoint _ _ _ _ (separate_current _ _ Hsep)); [exact H|apply below_refl|].
  - intros p Hp [H|H].
    + eapply (below_disjoint _ _ p p (separate_revisions _ _ Hsep)); [exact H| |done]. eapply below_trans; [|exact Hp]. rewrite Hr. exists [trim bytes]. by rewrite <-app_assoc.
    + rewrite Hr in Hp. by destruct H as [->| ->]; apply prefix_app_inv, prefix_cons_inv_1 in Hp.
Qed.

Lemma wp_open_staging d bodies : held d bodies →
  wp (open_staging data key) (λ d', changes staging_file d d' ∧ held d' bodies)
    (λ s d', changes opening_file d d' ∧ publish_root s = r ∧ at_pages q a s d' bodies ∧ owned d' r key ∧ ∃ k, progress credential q a d' bodies k) d.
Proof.
  intros Hheld. pose proof Hheld as [(k & Hp) Hown]. set (C := λ d', _ ∧ _). assert (HC : C d) by (split; [apply changes_refl|done]).
  unfold open_staging. cbv zeta. change (attempt_root (root (new_partitioned data key)) (Provider.attempt_id key)) with a.
  apply wp_do, wp_exists; [done|]. pose proof (progress_checkpoint _ _ _ _ _ _ Hp) as [[-> He]|(Hne & c & seen & Hs & Hd)].
  - rewrite He, bool_decide_eq_false_2 by by intros []. apply wp_map_err. unfold create_for_partition. apply wp_do, wp_try; [done|]. intros _ _.
    apply wp_do, wp_map_err.
    assert (Hlay : ∀ d1, layout_changes r d d1 → changes opening_file d d1 ∧ progress credential q a d1 [] k).
    { intros d1 [Hc _]. split; [eapply changes_mono; [|exact Hc]; by intros p Hx; do 2 right|]. eapply progress_away; [|exact Hc|exact Hp].
      intros p [->| ->]; by apply key_not_below. }
    pose proof (wp_ensure_layout data key d Hkey) as Hens. cbv zeta in Hens. fold r in Hens.
    eapply wp_conseq; [exact Hens|intros d1 [Hc Hp1]%Hlay; split; [by apply opening_staging|split; [by exists k|done]]|].
    intros u d1 Hl Hown1. destruct (Hlay d1 Hl) as [Hc1 Hp1]. pose proof (progress_committed _ _ _ _ _ _ Hp1) as Hcm.
    change (attempt_root (root (new_partitioned data key)) (Provider.attempt_id key)) with a. change (root (new_partitioned data key)) with r.
    pose proof (wp_create r a d1 (committed_sound _ _ _ Hcm)) as Hcr. cbv zeta in Hcr.
    assert (Hmade : ∀ d2, changes (λ p, p = a ++ PAGES ∨ p = a ++ INSTRUMENT) d1 d2 → changes opening_file d d2 ∧ progress credential q a d2 [] k).
    { intros d2 Hc. split; [eapply changes_trans; [exact Hc1|]; eapply changes_mono; [|exact Hc]; intros p [->| ->]; [by left|by right; left]|].
      eapply progress_off; [|exact Hc| |exact Hp1].
      - intros p x [->| ->] Hx; apply prefix_app_inv in Hx; [apply prefix_length in Hx; simpl in Hx; lia|by apply prefix_cons_inv_1 in Hx].
      - destruct (Hc (a ++ [CHECKPOINT])) as [E|(_ & _ & p & [->| ->] & Hx)]; [intros [E|E]; by apply app_inv_head in E|done|exfalso..];
          apply prefix_app_inv, prefix_cons_inv_1 in Hx; done. }
    eapply wp_conseq; [exact Hcr|intros d2 [Hc _]; destruct (Hmade d2 Hc); split; [by apply opening_staging|split; [by exists k|done]]|].
    intros s d2 [Hc _] [-> Hst]. destruct (Hmade d2 Hc) as [Hc2 Hp2]. split; [done|]. split; [done|]. split; [constructor; [done|by apply staged_forget|constructor]|].
    split; [|by exists k]. eapply owned_kept; [exact Hc| |done]. intros [E|E]; unfold a, attempt_root, key_file in E; rewrite <-app_assoc in E; by apply app_inv_head in E.
  - pose proof Hs as (b & v & He & _). rewrite He, bool_decide_eq_true_2 by done. apply wp_do, wp_map_err. eapply wp_conseq; [by apply wp_load|by intros d' ->|].
    intros c' d' _ [-> ->]. apply wp_map_err. unfold resume_for_partition. apply wp_do, wp_try; [done|]. intros _ _.
    change (attempt_root (root (new_partitioned data key)) (Provider.attempt_id key)) with a. change (root (new_partitioned data key)) with r.
    assert (Hck : 0 ≤ committed_pages c ≤ k) by (rewrite (desc_count _ _ _ _ _ Hd); pose proof (progress_count _ _ _ _ _ _ Hp); unfold zlen in *; lia).
    eapply wp_conseq; [by apply (wp_resume r a d k _ (progress_committed _ _ _ _ _ _ Hp) Hck)|by intros d' ->|].
    intros s d' _ (-> & Er & Ea & Hlen & Hst & Hrec). rewrite (desc_count _ _ _ _ _ Hd) in Hlen. split; [apply changes_refl|]. split; [done|]. split; [|split; [by apply Hown|by exists k]].
    constructor; [done|done|]. apply Forall2_same_length_lookup. split; [unfold zlen in Hlen; lia|]. intros i m body Hm Hb.
    destruct (progress_pages _ _ _ _ _ _ Hp i body Hb) as (m' & (b1 & Hb1 & Hs1) & Hab). destruct (Hrec i m Hm) as (b2 & Hb2 & Hs2). congruence.
Qed.

(** ** A run *)

(** A published revision of all pages of the archive. *)
Record fetched (d : Disk) (rep : VerificationReport) (bodies : list (list Z)) : Prop := {
  fetched_verifies : verified d r rep;
  fetched_complete : complete credential q bodies;
  fetched_pages : Forall2 (body_about q) (pages (report_manifest rep)) bodies;
  fetched_query : query_identity (report_manifest rep) = Hex.hex (identity q) }.
Definition synced (d d' : Disk) : Prop :=
  partly_fetched d' ∧ ((∀ old, verified d r old → verified d' r old) ∨ ∃ rep bodies, fetched d' rep bodies).

Lemma wp_fetch_valid t query (C : Disk → Prop) (Q : list Z * T → Disk → Prop) d : C d → (∀ body t', response_fits body → Q (body, t') d) →
  wp (fetch_valid t query credential) C Q d.
Proof.
  intros HC HQ. unfold fetch_valid. apply wp_do, wp_map_err. unfold fetch_single. destruct (is_paged query); [by apply wp_try|].
  destruct (execute t (first query) credential) as [[body|e] t'] eqn:Et; [|by apply wp_try]. apply wp_done; [done|]. apply wp_do. unfold validate_json.
  apply wp_do, wp_try; [done|]. intros v _. apply wp_done; [done|]. apply wp_done; [done|]. apply HQ. by eapply Hfits.
Qed.

(** The end of a run: the publication and, before it, the daily instrument. *)
Lemma wp_publish_synced d d2 s bodies : tree d2 → changes staging_file d d2 → publish_root s = r → attempt_path s = a → staged s d2 →
  Forall2 (body_about q) (staged_pages s) bodies → complete credential q bodies → owned d2 r key → attempted a d2 →
  wp (publish s (identity q) true) (synced d)
    (λ p d', owned d' r key ∧ ∃ rep, fetched d' rep bodies ∧ revision_identity (manifest p) = revision_identity (report_manifest rep)) d2.
Proof.
  intros Htree Hc Er Ea Hs Hab Hcomp Hown Hat. pose proof attempt_separate as Hsep.
  assert (Hne : staged_pages s ≠ []) by (destruct Hcomp as [Hne _]; intros E; rewrite E in Hab; by apply Forall2_nil_inv_l in Hab).
  assert (Hready : ∀ x, entry d2 (publish_root s ++ [REVISIONS; x; MANIFEST]) ≠ None → entry d2 (publish_root s ++ [REVISIONS; x]) = Some Dir).
  { intros x Hx. apply (Htree _ MANIFEST). by rewrite <-app_assoc. }
  pose proof (wp_publish s (identity q) d2) as Hpub. rewrite Er, Ea in *. specialize (Hpub Hsep Hs Hne (blake3_digest _) Hready true).
  pose proof (wp_publish_attempted a r Hsep s (identity q) true d2 Er Ea Hs Hat) as Hatt.
  assert (Hfetched : ∀ d' m semantic daily, manifest_of (identity q) (staged_pages s) daily m semantic → verifies d' r (report_of r m semantic) → fetched d' (report_of r m semantic) bodies).
  { intros d' m semantic daily Hm Hv. constructor; [by apply verified_iff|done|simpl; by rewrite (of_pages _ _ _ _ _ Hm)|apply Hm]. }
  eapply wp_conseq; [apply (wp_and _ _ _ _ _ _ Hpub Hatt)| |].
  - intros d' [Hnew [(bs & k & Hp) Hch]]. split; [exists bs; split; [by exists k|intros _; by eapply owned_published]|].
    destruct Hnew as [Hold|(m & sem & daily & Hm & _ & Hv)]; [left|right].
    + intros old. rewrite !verified_iff. intros Hv. by eapply Hold, old_kept_staging.
    + eexists _, bodies. by eapply Hfetched.
  - intros p d' [_ [_ Hch]] [(_ & sem & daily & Hm & _ & _ & Hv) _]. split; [by eapply owned_published|]. exists (report_of r (manifest p) sem).
    split; [by eapply Hfetched|done].
Qed.

Lemma wp_publish_partition d d1 s bodies daily plan : q = Provider.ticks plan → tree d1 → changes staging_file d d1 → publish_root s = r → at_pages q a s d1 bodies →
  complete credential q bodies → owned d1 r key → (∃ k, progress credential q a d1 bodies k) → body_fits daily →
  wp (publish_partition plan s daily true) (synced d) (λ p d', owned d' r key ∧ ∃ rep, fetched d' rep bodies ∧ revision_identity (manifest p) = revision_identity (report_manifest rep)) d1.
Proof.
  intros Eq Htree Hc Er [Ea Hst Hab] Hcomp Hown (k & Hp) Hdf. set (dq := identity (Provider.daily_instrument plan)).
  assert (Hdq : Forall Hex.is_byte dq) by apply blake3_digest. unfold publish_partition. rewrite <-Eq. fold dq.
  pose proof (wp_stage_daily (forget_daily s) d1 dq daily Hversion Hst Hdf Hdq) as Hdaily. cbv zeta in Hdaily. cbn [forget_daily attempt_path publish_root staged_pages] in Hdaily. rewrite Ea in Hdaily.
  assert (Hstep : ∀ d2, changes (daily_file a) d1 d2 → owned d2 r key ∧ progress credential q a d2 bodies k ∧ changes staging_file d d2).
  { intros d2 Hc2. assert (Hb : changes (below a) d1 d2) by (eapply changes_mono; [|exact Hc2]; intros p [n ->]; apply below_app).
    split; [by eapply owned_below|]. split; [|eapply changes_trans; [exact Hc|]; eapply changes_mono; [|exact Hb]; by left].
    eapply progress_off; [apply daily_off|exact Hc2| |exact Hp].
    destruct (Hc2 (a ++ [CHECKPOINT])) as [E|(_ & _ & p & [n ->] & Hx)]; [intros [n E]; unfold daily_path in E; by apply app_inv_head in E|done|].
    by apply prefix_app_inv, prefix_cons_inv_1 in Hx. }
  apply wp_do, wp_map_err. eapply wp_conseq; [apply (wp_tree _ _ _ _ Htree Hdaily)| |].
  - intros d2 [[_ Hc2] _]. destruct (Hstep _ Hc2) as (Ho & Hp2 & Hs2). split; [exists bodies; split; [by exists k|done]|].
    left. intros old. rewrite !verified_iff. by apply old_kept_staging.
  - intros [m s'] d2 [[_ Hc2] _] [[E Hs'] Htree2]. injection E as -> ->. destruct (Hstep _ Hc2) as (Ho2 & Hp2 & Hs2). apply wp_map_err.
    apply wp_publish_synced; try done. by exists bodies, k.
Qed.

Lemma wp_sync_partition rounds t class shape sp plan d : tree d → partly_fetched d →
  Provider.teralion_partition_plan_for (Partition.source key) key class shape sp = Ok plan → q = Provider.ticks plan → is_paged q = true →
  wp (sync_teralion_partition rounds t credential data key class shape sp) (synced d)
    (λ o d', match o with
       | Some (res, _) => owned d' r key ∧ ∃ rep bodies, fetched d' rep bodies ∧ res = mk_sync_result (zlen bodies) (revision_identity (report_manifest rep))
       | None => Z.of_nat rounds ≤ limit
       end) d.
Proof.
  intros Htree Hres Hplan Eq Hpaged. assert (Hstep : ∀ d1 bodies, changes staging_file d d1 → held d1 bodies → synced d d1).
  { intros d1 bodies Hc Hh. split; [by exists bodies|]. left. intros old. rewrite !verified_iff. by apply old_kept_staging. }
  destruct Hres as [bodies Hheld]. assert (HC : synced d d) by (eapply Hstep; [apply changes_refl|done]).
  unfold sync_teralion_partition. apply wp_do, wp_try; [done|]. rewrite Hplan. intros plan' [= <-]. apply wp_do, wp_try; [done|]. intros covered _.
  apply wp_do, wp_fetch_valid; [done|]. intros b1 t1 _. apply wp_do, wp_fetch_valid; [done|]. intros b2 t2 _. apply wp_do, wp_fetch_valid; [done|]. intros daily t3 [Hdf _].
  apply wp_do. eapply wp_conseq; [apply (wp_tree _ _ _ _ Htree (wp_open_staging d bodies Hheld))|intros d1 [[Hc Hh] _]; by eapply Hstep|].
  intros s d1 _ [(Hc1%opening_staging & Er & Hat & Hown & k & Hp) Htree1]. apply wp_do, wp_map_err. rewrite <-Eq.
  assert (Hbelow : ∀ d2, changes (below a) d1 d2 → changes staging_file d d2) by (intros d2 Hc; eapply changes_trans; [exact Hc1|]; eapply changes_mono; [|exact Hc]; by left).
  pose proof (wp_sync_pages credential Hversion Hfits q a limit Hlimit Harchive rounds t3 s d1 bodies k Hpaged Hat Hp) as Hsync.
  eapply wp_conseq; [apply (wp_tree _ _ _ _ Htree1 Hsync)| |].
  - intros d2 [(Hc & more & k' & Hp') _]. eapply Hstep; [by apply Hbelow|]. split; [by exists k'|]. intros _. by eapply owned_below.
  - intros [[[rep t4] s2]|] d2 [(Hc' & more' & k'' & Hp'') _].
    + intros [(Hc2 & Er2 & more & Hcomp & -> & Hat2 & Hp2) Htree2]. apply wp_do.
      assert (Hpp : wp (publish_partition plan s2 daily true) (synced d) (λ p d', owned d' r key ∧ ∃ rep, fetched d' rep (bodies ++ more) ∧ revision_identity (manifest p) = revision_identity (report_manifest rep)) d2).
      { apply wp_publish_partition; try done; [by apply Hbelow|congruence|by eapply owned_below]. }
      eapply wp_conseq; [exact Hpp|done|]. intros p d3 HC3 (Ho & rep & Hf & Hid). apply wp_done; [done|]. split; [done|]. exists rep, (bodies ++ more). by rewrite Hid.
    + intros [Hr _]. apply wp_done; [|unfold zlen in Hr; lia]. eapply Hstep; [by apply Hbelow|]. split; [by exists k''|]. intros _. by eapply owned_below.
Qed.

(** Opening leaves what is in the way, and the checkpoint. *)
Lemma opening_kept d d' (l : Path) n : changes opening_file d d' → ¬ (l ++ [n]) `prefix_of` PAGES → ¬ (l ++ [n]) `prefix_of` INSTRUMENT →
  entry d' (a ++ l ++ [n]) = entry d (a ++ l ++ [n]).
Proof.
  intros Hc H1 H2. assert (Hkey' : ∀ p, p = key_file r ∨ p = key_file_tmp r → ¬ below a p) by (intros p [->| ->]; by apply key_not_below).
  assert (Hno : ∀ p, opening_file p → ¬ (a ++ l ++ [n]) `prefix_of` p).
  { intros p [->|[->|Hp%Hkey']] Hx; [by apply prefix_app_inv in Hx..|]. apply Hp. eapply below_trans; [apply below_app|exact Hx]. }
  destruct (Hc (a ++ l ++ [n])) as [->|(_ & _ & p & Hp & Hx)]; [by intros H%Hno|done|by apply Hno in Hp].
Qed.
Lemma opening_unfinished d d' n : changes opening_file d d' → unfinished a d n → unfinished a d' n.
Proof.
  intros Hc. assert (E : entry d' (a ++ [CHECKPOINT]) = entry d (a ++ [CHECKPOINT])) by (apply (opening_kept d d' [] CHECKPOINT Hc); by intros H%prefix_cons_inv_1).
  unfold unfinished, saved. by rewrite E.
Qed.
Lemma opening_in_the_way d d' n : changes opening_file d d' → in_the_way a d n → in_the_way a d' n.
Proof.
  intros Hc. assert (E : entry d' (a ++ [CHECKPOINT_TMP]) = entry d (a ++ [CHECKPOINT_TMP])) by (apply (opening_kept d d' [] CHECKPOINT_TMP Hc); by intros H%prefix_cons_inv_1).
  assert (Ep : ∀ x, entry d' (page_path a n x) = entry d (page_path a n x))
    by (intros x; apply (opening_kept d d' PAGES (page_name n x) Hc); [by intros H%prefix_length; simpl in H; lia|by intros H%prefix_cons_inv_1]).
  unfold in_the_way. by rewrite E, !Ep.
Qed.

(** A partition with pages to fetch and a temporary file in the way. *)
Definition stuck (d : Disk) : Prop := ∃ n, unfinished a d n ∧ in_the_way a d n.
Lemma wp_sync_partition_stuck rounds t class shape sp plan d : partly_fetched d → stuck d →
  Provider.teralion_partition_plan_for (Partition.source key) key class shape sp = Ok plan → q = Provider.ticks plan → is_paged q = true →
  wp (sync_teralion_partition rounds t credential data key class shape sp) (λ _, True) (λ o _, o = None) d.
Proof.
  intros [bodies Hheld] (n & Hu & Hway) Hplan Eq Hpaged. unfold sync_teralion_partition. apply wp_do, wp_try; [done|]. rewrite Hplan. intros plan' [= <-].
  apply wp_do, wp_try; [done|]. intros covered _. do 3 (apply wp_do, wp_fetch_valid; [done|]; intros ? ? _).
  apply wp_do. eapply wp_conseq; [apply (wp_open_staging d bodies Hheld)|done|]. intros s d1 _ (Hc & _ & Hat & _ & k & Hp).
  apply wp_do, wp_map_err. rewrite <-Eq.
  eapply wp_conseq; [apply (wp_sync_pages_blocked credential Hversion Hfits q a limit Hlimit Harchive rounds _ s d1 bodies k n Hpaged Hat Hp)|done|].
  - by eapply opening_unfinished.
  - by eapply opening_in_the_way.
  - intros o d2 _ ->. by apply wp_done.
Qed.

End partition.

Lemma planned_is_paged src key class shape sp plan : Provider.teralion_partition_plan_for src key class shape sp = Ok plan → is_paged (Provider.ticks plan) = true.
Proof.
  unfold Provider.teralion_partition_plan_for. intros (c & _ & H)%bind_Ok. apply bind_Ok in H as (t1 & _ & H). apply bind_Ok in H as (t2 & _ & H).
  apply bind_Ok in H as (s1 & _ & H). apply bind_Ok in H as (s2 & _ & H). cbv zeta in H. apply bind_Ok in H as (tq & Ht & [= <-]). simpl.
  assert (Hp : ∀ i ks n m, Query.ticks_with_archive_market i s1 s2 ks n m = Ok tq → is_paged tq = true) by (intros i ks n m Hm; by apply ticks_with_archive_market_Ok in Hm as (-> & _)).
  destruct class; apply map_err_Ok in Ht; unfold Query.ticks, Query.ticks_for_market in Ht; try (case_bool_decide; [done|]); by eapply Hp.
Qed.

End runs.

(** ** The partition *)

Section partition.
Context {J : Json} {DC : Documents} {DL : DocumentsLaws} {SP : Serde PageMetadata} {SM : Serde SourceManifest} {SK : Serde SourcePartitionManifest}
  {ZS : Zstd} {SH : Sha256} {B : Blake3} {BL : Blake3Laws} {T : Type} {TT : TeralionTransport T}.
Context {SPL : SerdeLaws PageMetadata metadata_wf} {SML : SerdeLaws SourceManifest manifest_wf} {SKL : SerdeLaws SourcePartitionManifest partition_wf}
  {SHL : Sha256Laws}.

(** The archive as a run meets it: a response fits into memory, and there are
    at most [limit] distinct pages of a query behind distinct cursors. *)
Record archive_ok (credential : TeralionCredential) (q : TeralionQuery) (limit : Z) : Prop := {
  ok_version : is_str zstd_version_string;
  ok_responses t r body t' : execute t r credential = (Ok body, t') → response_fits body;
  ok_limit : limit ≤ PAGE_LIMIT;
  ok_pages : archive_fits credential q limit }.

(** A partition of which nothing is staged is one to be synchronised. *)
Lemma nothing_fetched credential q data key d :
  (∀ x, entry d (attempt_root (partition_root data key) (Provider.attempt_id key) ++ x) = None) → partly_fetched credential q data key d.
Proof. intros H. exists []. split; [exists 0; by apply idle_progress, idle_gone|done]. Qed.

(** C17: a partition is synchronised across interruptions: however a run ends,
    cut short anywhere, with any calls failing, the attempt holds the pages
    fetched so far, each of the archive and in order, the source verifies as
    before or as the whole archive, and a new run may start from there; when a
    run returns, the source verifies as a revision of all pages of the query,
    each once, in the order of their cursors, under a root that is the
    partition's own; it is never out of rounds beyond the number of pages; and
    no run returns from a partition that an interruption left unfinished with
    a temporary file of the checkpoint or of the next page. *)
Theorem partition_synchronised credential data key class shape sp plan limit rounds t d o d' : proper_key key →
  Provider.teralion_partition_plan_for (Partition.source key) key class shape sp = Ok plan → archive_ok credential (Provider.ticks plan) limit →
  tree d → partly_fetched credential (Provider.ticks plan) data key d →
  runs (sync_teralion_partition rounds t credential data key class shape sp) d o d' →
  let root := partition_root data key in let q := Provider.ticks plan in
  (tree d' ∧ partly_fetched credential q data key d' ∧
   ((∀ old, verified d root old → verified d' root old) ∨ ∃ rep bodies, fetched credential q data key d' rep bodies)) ∧
  (∀ res t', o = Some (Ok (Some (res, t'))) → owned d' root key ∧
     ∃ rep bodies, fetched credential q data key d' rep bodies ∧ res = mk_sync_result (zlen bodies) (revision_identity (report_manifest rep))) ∧
  (limit < Z.of_nat rounds → o ≠ Some (Ok None)) ∧
  (stuck data key d → ∀ res, o ≠ Some (Ok (Some res))).
Proof.
  intros Hkey Hplan [H1 H2 H3 H4] Htree Hres Hruns root q. pose proof (planned_is_paged _ _ _ _ _ _ Hplan) as Hpaged.
  pose proof (wp_sync_partition credential q H1 H2 limit H3 H4 data key Hkey rounds t class shape sp plan d Htree Hres Hplan eq_refl Hpaged) as Hwp.
  destruct (Hwp _ _ Hruns) as [[Hr Hold] Hret]. split; [split; [by eapply runs_tree|done]|]. split_and!.
  - intros res t' ->. by apply (Hret _ eq_refl).
  - intros Hlt ->. specialize (Hret _ eq_refl). simpl in Hret. lia.
  - intros Hst res ->.
    pose proof (wp_sync_partition_stuck credential q H1 H2 limit H3 H4 data key Hkey rounds t class shape sp plan d Hres Hst Hplan eq_refl Hpaged) as Hno.
    by specialize (proj2 (Hno _ _ Hruns) _ eq_refl).
Qed.

End partition.
End SyncRuns.

(** * SyncDemo

    An archive with two pages, and a partition synchronised from it. *)

Module SyncDemo.
Import Files FilesLaws Storage Verify StorageLaws StagingLaws SourceLaws SourceDemo Layout LayoutLaws LayoutDemo Query Cursor CursorLaws Sync SyncLaws SyncRuns.
Import Partition(SourcePartitionKey).

(** ** JSON

    Documents are numbered; the bodies of the archive are [1], [2] and [3]. *)

Inductive ArchiveValue : Set := VField (f : Field) | VDoc (d : Document) | VDocs (l : list Document) | VPage (items : list Document) (next : option (list Z)).

Definition field_code (f : Field) : () + bool + Z + list Z + list (list Z) :=
  match f with FNull => inl (inl (inl (inl ()))) | FBool b => inl (inl (inl (inr b))) | FNumber n => inl (inl (inr n)) | FText t => inl (inr t) | FTexts l => inr l end.
Definition field_of (c : () + bool + Z + list Z + list (list Z)) : Field :=
  match c with inl (inl (inl (inl _))) => FNull | inl (inl (inl (inr b))) => FBool b | inl (inl (inr n)) => FNumber n | inl (inr t) => FText t | inr l => FTexts l end.
#[local] Instance Field_eq_dec : EqDecision Field.
Proof. solve_decision. Defined.
#[local] Instance Field_countable : Countable Field := inj_countable' field_code field_of ltac:(by intros []).

Definition tick : Document :=
  [("type", FText (bytes_of "quote")); ("market", FText (bytes_of "twse")); ("symbol", FText (bytes_of "2330")); ("format", FText (bytes_of "6"));
   ("match_time", FText (bytes_of "09:00:00")); ("received_at", FText (bytes_of "09:00:01"))]%string.
Definition next : list Z := bytes_of "next".
Definition get_field (v : ArchiveValue) (name : string) : option ArchiveValue :=
  match v with
  | VDoc d => VField <$> (list_to_map d : gmap string Field) !! name
  | VPage items n =>
      if String.eqb name "items" then Some (VDocs items)
      else if String.eqb name "next_cursor" then Some (VField (match n with Some t => FText t | None => FNull end)) else None
  | _ => None
  end.
#[export] Instance archive_json : Json := {|
  Value := ArchiveValue;
  from_json l :=
    match l with
    | [1] => Some (VPage [tick; tick] (Some next))
    | [2] => Some (VPage [tick] None)
    | [3] => Some (VDoc [])
    | [0; Zpos n] => VDoc <$> decode (A:=list (string * Field)) n
    | _ => None
    end;
  to_json v := Some [];
  value_get := get_field;
  value_is_object v := match v with VDoc _ | VPage _ _ => true | _ => false end;
  value_is_null v := match v with VField FNull => true | _ => false end;
  value_as_array v := match v with VDocs l => Some (VDoc <$> l) | VField (FTexts l) => Some ((VField ∘ FText) <$> l) | _ => None end;
  value_as_str v := match v with VField (FText t) => if Utf8.valid t then Some t else None | _ => None end |}.
#[export] Instance archive_documents : Documents := {|
  value_as_u64 v := match v with VField (FNumber n) => Some n | _ => None end;
  value_as_bool v := match v with VField (FBool b) => Some b | _ => None end;
  document_to_vec_pretty d := Some [0; Zpos (encode (A:=list (string * Field)) d)] |}.
#[export] Instance archive_documents_laws : DocumentsLaws.
Proof.
  split.
  - intros v t. destruct v as [[]| | |]; simpl; try done. destruct (Utf8.valid t0) eqn:E; [|done]. by intros [= <-].
  - intros doc bytes Hn Hw [= <-]. exists (VDoc doc). split; [simpl; by rewrite decode_encode|]. apply list.Forall_forall. intros [name f] Hin. exists (VField f). split.
    + simpl. by rewrite (elem_of_list_to_map_1 (M:=gmap string) doc name f Hn Hin).
    + pose proof (proj1 (list.Forall_forall _ _) Hw _ Hin) as Hf. simpl in Hf. destruct f as [|b|n|t|l]; simpl in *; try done; [by rewrite Hf|].
      eexists. split; [reflexivity|]. apply Forall2_fmap_l, Forall_Forall2_diag. eapply Forall_impl; [|exact Hf]. intros t Ht. simpl. by rewrite Ht.
Qed.
#[export] Instance archive_blake3_laws : Blake3Laws.
Proof. intros x. split; [apply length_be_bytes|apply be_bytes_u8]. Qed.

(** ** The archive *)

#[export] Instance archive_transport : TeralionTransport () := λ _ r _,
  (if is_paged (request_query r)
   then match request_cursor r with
        | None => Ok [1]
        | Some c => if bool_decide (cursor_text c = next) then Ok [2] else Err (mk_transport_error false)
        end
   else Ok [3], ()).

Lemma archive_chain credential q bodies cursor seen : is_paged q = true → chain credential q bodies cursor seen →
  bodies = [] ∧ cursor = None ∨ bodies = [[1]] ∧ cursor = Some (mk_cursor next) ∨ bodies = [[1]; [2]] ∧ cursor = None.
Proof.
  intros Hq. induction 1 as [|bodies cursor seen body p _ IH Hnext (t & t' & Ht) Hp]; [by left|right]. unfold execute, archive_transport in Ht. cbn [request_query request_cursor] in Ht. rewrite Hq in Ht.
  destruct IH as [[-> ->]|[[-> ->]|[-> ->]]]; [left|right|by destruct Hnext].
  - injection Ht as <-. split; [done|]. unfold parse_page in Hp. apply bind_Ok in Hp as (v & [= <-] & Hp). apply bind_Ok in Hp as (o & [= <-] & Hp).
    apply bind_Ok in Hp as (items & _ & Hp). apply bind_Ok in Hp as (u & _ & Hp). apply bind_Ok in Hp as (n & Hn & [= <-]). vm_compute in Hn. by injection Hn as <-.
  - rewrite bool_decide_eq_true_2 in Ht by done. injection Ht as <-. split; [done|]. unfold parse_page in Hp. apply bind_Ok in Hp as (v & [= <-] & Hp). apply bind_Ok in Hp as (o & [= <-] & Hp).
    apply bind_Ok in Hp as (items & _ & Hp). apply bind_Ok in Hp as (u & _ & Hp). apply bind_Ok in Hp as (n & Hn & [= <-]). vm_compute in Hn. by injection Hn as <-.
Qed.
Lemma archive_is_ok credential q : is_paged q = true → archive_ok credential q 2.
Proof.
  intros Hq. constructor; [reflexivity| |done|].
  - intros t r body t' Ht. assert (Hb : body ∈ [[1]; [2]; [3]]).
    { unfold execute, archive_transport in Ht. repeat case_match; simplify_eq; set_solver. }
    revert Hb. rewrite !elem_of_cons. intros [->|[->|[->|[]%not_elem_of_nil]]]; (split; [by split|]); intros v items [= <-] Hi; vm_compute in Hi; by simplify_eq; split.
  - intros bodies cursor seen Hc _ _. apply archive_chain in Hc as [[-> _]|[[-> _]|[-> _]]]; done.
Qed.

(** ** A run *)

Definition monday : TradingDate.TradingDate := TradingDate.mk 20654.
Definition stock : Instrument.InstrumentId := Instrument.new Market.Twse (Symbol.mk (bytes_of "2330")).
Definition teralion : Partition.SourceId := value_of (Partition.mk_source [] 0) (Partition.new_source (bytes_of "teralion")).
Definition made_plan : result Sessions.SessionPlanError Sessions.SessionPlan := Sessions.with_profile stock monday Sessions.TwseRegular [Trading.RegularSession].
Definition session_plan : Sessions.SessionPlan := value_of (Sessions.mk_plan stock monday Sessions.TwseRegular 0 0 0 [] []) made_plan.
Definition made : result Partition.SourcePartitionKeyError SourcePartitionKey := Partition.new_key teralion stock monday [Trading.RegularSession] (Sessions.identity session_plan).
Definition key : SourcePartitionKey := value_of (Partition.mk_key teralion stock monday [] [] [] []) made.
Definition made_query : result (Effects.Failure Provider.ProviderError) Provider.TeralionPartitionPlan :=
  Provider.teralion_partition_plan_for (Partition.source key) key InstrumentClass.Equity None session_plan.
Definition secret : TeralionCredential := mk_credential [1].
Definition sync_once : IO (Effects.Failure SourceRuntimeError) (option (SourceSyncResult * ())) :=
  sync_teralion_partition 3 () secret data key InstrumentClass.Equity None session_plan.
Definition synced_d : Disk := (run sync_once ∅).2.
Definition synced_result : SourceSyncResult := match (run sync_once ∅).1 with Ok (Some (res, _)) => res | _ => mk_sync_result 0 [] end.

Lemma key_made : made = Ok key.
Proof. assert (H : is_ok made = true) by (vm_compute; reflexivity). unfold key. by destruct made. Qed.
Lemma digest_checked l : (length l =? 32)%nat && forallb (λ b, (0 <=? b) && (b <=? u8_max)) l = true → Hex.is_digest l.
Proof.
  intros [Hl Hb]%andb_true_iff. split; [by apply Nat.eqb_eq|]. apply list.Forall_forall. intros x Hx%list_elem_of_In. rewrite forallb_forall in Hb.
  specialize (Hb x Hx). unfold Hex.is_byte. lia.
Qed.
Lemma key_proper : proper_key key.
Proof.
  pose proof key_made as (_ & _ & E)%PlanningLaws.new_key_Ok.
  assert (Hparts : Partition.source key = teralion ∧ Partition.instrument key = stock ∧ Partition.trading_date key = monday ∧
    Partition.session_plan_identity key = Sessions.identity session_plan ∧ Hex.is_digest (Partition.identity key)).
  { rewrite E. do 4 (split; [reflexivity|]). apply blake3_digest. }
  destruct Hparts as (H1 & H2 & H3 & H4 & H5).
  assert (Hplan : Hex.is_digest (Sessions.identity session_plan)).
  { apply digest_checked. vm_compute. reflexivity. }
  constructor; [|rewrite H2; split; [discriminate|reflexivity]|rewrite H4; exact Hplan|exact H5].
  exists [Trading.RegularSession], (bytes_of "teralion"). rewrite H1, H2, H3, H4. split; [done|]. split; [by split|]. split; [done|exact key_made].
Qed.
Lemma query_made : ∃ plan, made_query = Ok plan ∧ is_paged (Provider.ticks plan) = true.
Proof.
  assert (H : is_ok made_query = true) by (vm_compute; reflexivity). destruct made_query as [plan|] eqn:E; [|discriminate H]. exists plan. split; [reflexivity|].
  unfold made_query in E. exact (planned_is_paged _ _ _ _ _ _ E).
Qed.
Lemma sync_once_runs : runs sync_once ∅ (Some (Ok (Some (synced_result, ())))) synced_d.
Proof.
  apply run_to_runs. assert (H : match (run sync_once ∅).1 with Ok (Some _) => true | _ => false end = true) by (vm_compute; reflexivity).
  unfold synced_d, synced_result. destruct (run sync_once ∅) as [[[[res []]|]|] d]; done.
Qed.
Lemma nothing_staged credential q : partly_fetched credential q data key ∅ ∧ tree ∅.
Proof.
  split; [apply nothing_fetched|intros p n H; exfalso; apply H; by destruct p]. intros x. unfold attempt_root.
  set (p := _ ++ [_; _]). assert (Hp : p ++ x ≠ []) by (unfold p; intros [[_ E]%app_eq_nil _]%app_eq_nil; discriminate E). unfold entry. by destruct (p ++ x).
Qed.

(** Interrupted at some point, the run leaves a partition no run completes. *)
Fixpoint cut_when {A} (p : Disk → bool) (m : io A) (d : Disk) : option Disk :=
  match m with
  | Ret _ => None
  | Do c k => if p d then Some d else let '(r, d1) := perform c d in cut_when p (k r) d1
  end.
Lemma cut_when_runs {A} p (m : io A) d d' : cut_when p m d = Some d' → runs m d None d' ∧ p d' = true.
Proof.
  revert d. induction m as [x|X c k IH]; intros d; cbn [cut_when]; [done|]. destruct (p d) eqn:Ep; [intros [= <-]; split; [left; by split; [|left]|done]|].
  destruct (perform c d) as [r d1] eqn:E. intros [H Hp]%IH. split; [|done]. right. exists r, d1. split; [by left|done].
Qed.
Definition stuck_at (a : Path) (d : Disk) : bool :=
  bool_decide (entry d (a ++ [CHECKPOINT]) = None) && is_some (entry d (a ++ [CHECKPOINT_TMP])).
Lemma stuck_at_spec a d : stuck_at a d = true → unfinished a d 0 ∧ in_the_way a d 0.
Proof. intros [H1%bool_decide_eq_true H2]%andb_true_iff. split; [left; by split|]. left. intros Hn. by rewrite Hn in H2. Qed.
Definition stuck_here : Disk → bool := stuck_at (attempt_root (partition_root data key) (Provider.attempt_id key)).
Lemma is_some_exists {A} (o : option A) : is_some o = true → ∃ x, o = Some x.
Proof. destruct o as [x|]; [by exists x|done]. Qed.
Lemma stuck_reached : is_some (cut_when stuck_here sync_once ∅) = true.
Proof. vm_compute. reflexivity. Qed.
Lemma interrupted_gets_stuck : ∃ d', runs sync_once ∅ None d' ∧ stuck data key d'.
Proof.
  destruct (is_some_exists _ stuck_reached) as [d' E]. apply cut_when_runs in E as [Hr Hs]. exists d'. split; [exact Hr|]. exists 0. exact (stuck_at_spec _ _ Hs).
Qed.

Lemma partition_synchronised_witness : ∃ plan, made_query = Ok plan ∧ owned synced_d (partition_root data key) key ∧
  ∃ rep bodies, fetched secret (Provider.ticks plan) data key synced_d rep bodies ∧ synced_result = mk_sync_result (zlen bodies) (revision_identity (report_manifest rep)) ∧
    synced_pages synced_result = 2.
Proof.
  destruct query_made as (plan & Hplan & Hpaged). exists plan. split; [exact Hplan|]. pose proof (archive_is_ok secret _ Hpaged) as Hok.
  pose proof (nothing_staged secret (Provider.ticks plan)) as [Hn Ht]. pose proof sync_once_runs as Hr. unfold sync_once in Hr. unfold made_query in Hplan.
  pose proof (partition_synchronised secret data key InstrumentClass.Equity None session_plan plan 2 3 () ∅) as H1.
  specialize (H1 _ _ key_proper Hplan Hok Ht Hn Hr). destruct H1 as (_ & Hret & _).
  destruct (Hret synced_result () eq_refl) as (Hown & rep & bodies & Hf & Hres). split; [exact Hown|]. exists rep, bodies. split; [exact Hf|]. split; [exact Hres|].
  vm_compute. reflexivity.
Defined.

End SyncDemo.
