(* ===== verification/Cache.v ===== *)
(** The replay cache (data-sync/src/cache.rs): normalized events written next
    to a description of what they were made of, the catalogue of a partition's
    caches, the reader that replay streams from, and the preparation of a
    cache by a provider (provider.rs). *)
From S2P Require Import Prelude Order Text Calendar Identity Codec Event EventCodec MarketState Ordering OrderingLaws Effects Orders Output Partition EquityQuote Taifex Provider.
From S2P Require Import Files Storage Verify VerifyLaws StagingLaws PublishLaws SourceLaws Layout LayoutLaws CursorLaws SyncRuns.

Module Cache.
Import Files Storage Verify Layout Effects(Failure, Returned, Panicked).
Import Ordering(order_events, OrderingKey, OrderingError, for_event, ORDERING_RULE_VERSION).
Import Event(DomainEvent, EVENT_SCHEMA_VERSION, CANONICAL_EVENT_VERSION, to_canonical_bytes, from_canonical_bytes).
Import Provider(NormalizerMappingIdentity, PartitionNormalizerConfig, name, version) Partition(SourcePartitionKey, SourceId).
Import Instrument(InstrumentId) TradingDate(TradingDate).

Definition CACHE_MAGIC : list Z := bytes_of "OSMCACHE1".
Definition CACHE_FORMAT_VERSION : Z := 3.
Definition MAX_CACHE_EVENT_RECORD_BYTES : Z := 16 * 1024 * 1024.
Definition MARKET_TYPES_VERSION : Z := 11.

Record CacheDescriptor : Set := mk_descriptor {
  cache_format_version : Z; cache_identity : list Z; source_revision_identity : list Z; instrument_market : Z;
  instrument_symbol : list Z; trading_date_epoch_days : Z; event_count : Z; first_match_time_micros : option Z;
  last_match_time_micros : option Z; payload_sha256 : list Z; market_types_version : Z; event_schema_version : Z;
  canonical_event_version : Z; ordering_rule_version : Z; partition_identity : option (list Z);
  normalizer_mapping_name : list Z; normalizer_mapping_version : Z }.
Record PublishedCache : Set := mk_published { path : Path; descriptor : CacheDescriptor }.

(** The texts of errors are kept as their causes, or not at all. *)
Inductive CacheBuildError : Set :=
| BuildIo (kind : IoError) | Verification (e : VerificationError) | SourceManifestMismatch | BuildOrdering (e : OrderingError)
| BuildCanonical (e : Writer.CanonicalEncodingError) | BuildDescriptor | BuildEventTooLarge | BuildAlreadyExists
| CacheAlreadyExists (identity : list Z).
Inductive CacheCatalogError : Set := CatalogIo (kind : IoError) | CatalogDescriptor.
Inductive CacheReadError : Set :=
| ReadIo (kind : IoError) | ReadDescriptor | ReadHeader | IncompatibleDescriptor | StaleSourceLineage
| ReadCanonical (e : Parser.CanonicalDecodingError) | ReadOrdering (e : OrderingError) | OrderingRegression | CoverageMismatch
| BindingMismatch | PayloadChecksum | BoundsMismatch | ReadEventTooLarge | TrailingBytes.

Section operations.
Context {J : Json} {SM : Serde SourceManifest} {SC : Serde CacheDescriptor} {ZS : Zstd} {SH : Sha256} {B : Blake3}.

(** ** Building *)

(** The function [cache_identity] of the source. *)
Definition identity_of (source : VerificationReport) (i : InstrumentId) (d : TradingDate) (mapping : NormalizerMappingIdentity)
    (partition : option (list Z)) (payload_sha256 : list Z) (count : Z) : list Z :=
  Hex.hex (blake3
    (bytes_of "OSCI" ++ be_bytes 2 CACHE_FORMAT_VERSION ++ revision source ++ [Market.discriminant (Instrument.market i)] ++
     Symbol.as_bytes (Instrument.symbol i) ++ TradingDate.to_canonical_bytes d ++ be_bytes 4 (zlen (name mapping)) ++ name mapping ++
     be_bytes 2 (version mapping) ++ be_bytes 2 MARKET_TYPES_VERSION ++ be_bytes 2 EVENT_SCHEMA_VERSION ++
     be_bytes 2 CANONICAL_EVENT_VERSION ++ be_bytes 2 ORDERING_RULE_VERSION ++ default [] partition ++ be_bytes 8 count ++ payload_sha256)).

Definition write_atomic (path : Path) (bytes : list Z) : IO CacheBuildError () :=
  let tmp := with_extension path (bytes_of "tmp") in
  _ ← sys BuildIo (CreateNew tmp);
  _ ← sys BuildIo (Write tmp bytes);
  _ ← sys BuildIo (Sync tmp);
  sys BuildIo (Rename tmp path).

(** The loop over the events, with the bytes that were hashed. *)
Fixpoint write_events (file : Path) (hashed : list Z) (events : list DomainEvent) : IO CacheBuildError (list Z) :=
  match events with
  | [] => mret hashed
  | event :: events =>
      bytes ← lift (map_err BuildCanonical (to_canonical_bytes event));
      length ← lift (ok_or (to_u32 (zlen bytes)) BuildEventTooLarge);
      _ ← lift (if MAX_CACHE_EVENT_RECORD_BYTES <? length then Err BuildEventTooLarge else Ok ());
      _ ← sys BuildIo (Write file (be_bytes 4 length));
      _ ← sys BuildIo (Write file bytes);
      write_events file (hashed ++ be_bytes 4 length ++ bytes) events
  end.
Definition micros (e : DomainEvent) : Z := MatchTime.as_unix_microseconds (Event.match_time e).
Definition EVENTS : Name := bytes_of "events.bin".
Definition DESCRIPTOR : Name := bytes_of "descriptor.yaml".
Definition BUILD : Name := bytes_of "cache-build".
Definition write_payload (attempt : Path) (events : list DomainEvent) : IO CacheBuildError (list Z) :=
  let events_tmp := attempt ++ [bytes_of "events.bin.tmp"] in
  _ ← sys BuildIo (CreateNew events_tmp);
  _ ← sys BuildIo (Write events_tmp CACHE_MAGIC);
  _ ← sys BuildIo (Write events_tmp (be_bytes 2 CACHE_FORMAT_VERSION));
  _ ← sys BuildIo (Write events_tmp (be_bytes 8 (zlen events)));
  hashed ← write_events events_tmp [] events;
  _ ← sys BuildIo (Sync events_tmp);
  _ ← sys BuildIo (Rename events_tmp (attempt ++ [EVENTS]));
  mret hashed.
Definition describe (source : VerificationReport) (i : InstrumentId) (d : TradingDate) (partition : option (list Z))
    (mapping : NormalizerMappingIdentity) (events : list DomainEvent) (hashed : list Z) : CacheDescriptor :=
  let payload_sha256 := Hex.hex (sha256 hashed) in
  mk_descriptor CACHE_FORMAT_VERSION (identity_of source i d mapping partition payload_sha256 (zlen events))
    (Storage.revision_identity (report_manifest source)) (Market.discriminant (Instrument.market i)) (Symbol.as_bytes (Instrument.symbol i))
    (TradingDate.as_epoch_days d) (zlen events) (option_map micros (list.head events)) (option_map micros (list.last events)) payload_sha256
    MARKET_TYPES_VERSION EVENT_SCHEMA_VERSION CANONICAL_EVENT_VERSION ORDERING_RULE_VERSION partition (name mapping) (version mapping).
Definition publish_events (source : VerificationReport) (staging_root cache_root : Path) (i : InstrumentId) (d : TradingDate)
    (partition : option (list Z)) (mapping : NormalizerMappingIdentity) (events : list DomainEvent) : IO CacheBuildError PublishedCache :=
  let attempt := staging_root ++ [BUILD] in
  there ← exists_ attempt;
  _ ← lift (if there : bool then Err BuildAlreadyExists else Ok ());
  _ ← sys BuildIo (CreateDirAll attempt);
  hashed ← write_payload attempt events;
  let descriptor := describe source i d partition mapping events hashed in
  descriptor_bytes ← lift (ok_or (to_vec_pretty descriptor) BuildDescriptor);
  _ ← write_atomic (attempt ++ [DESCRIPTOR]) descriptor_bytes;
  _ ← sys BuildIo (Sync attempt);
  _ ← sys BuildIo (CreateDirAll cache_root);
  let published_path := cache_root ++ [cache_identity descriptor] in
  published ← exists_ published_path;
  _ ← lift (if published : bool then Err (CacheAlreadyExists (cache_identity descriptor)) else Ok ());
  _ ← sys BuildIo (Rename attempt published_path);
  _ ← sys BuildIo (Sync cache_root);
  mret (mk_published published_path descriptor).

Definition covers (i : InstrumentId) (d : TradingDate) (events : list DomainEvent) : bool :=
  negb (existsb (λ e, bool_decide (Event.instrument e ≠ i) || bool_decide (Event.trading_date e ≠ d)) events).
Definition build_external_current (data_root : Path) (i : InstrumentId) (d : TradingDate) (mapping : NormalizerMappingIdentity)
    (events : list DomainEvent) : IO CacheBuildError PublishedCache :=
  source ← io_map_err Verification (verify_current (new_repository data_root));
  events ← lift (map_err BuildOrdering (order_events events));
  _ ← lift (if negb (covers i d events) then Err SourceManifestMismatch else Ok ());
  publish_events source (data_root ++ [bytes_of "derived"; bytes_of "staging"]) (data_root ++ [bytes_of "derived"; bytes_of "cache"])
    i d None mapping events.
Definition build_external_partition (data_root : Path) (key : SourcePartitionKey) (mapping : NormalizerMappingIdentity)
    (events : list DomainEvent) : IO CacheBuildError PublishedCache :=
  source ← io_map_err Verification (verify_current_partition (new_partitioned data_root key));
  let cache_root := cache_partition_root data_root key in
  events ← lift (map_err BuildOrdering (order_events events));
  _ ← lift (if negb (covers (Partition.instrument key) (Partition.trading_date key) events) then Err SourceManifestMismatch else Ok ());
  publish_events source cache_root cache_root (Partition.instrument key) (Partition.trading_date key) (Some (Hex.hex (Partition.identity key)))
    mapping events.

(** ** The catalogue of a partition *)

Definition validate_descriptor (d : CacheDescriptor) : result CacheReadError () :=
  if negb (cache_format_version d =? CACHE_FORMAT_VERSION) || negb (market_types_version d =? MARKET_TYPES_VERSION) ||
     negb (event_schema_version d =? EVENT_SCHEMA_VERSION) || negb (canonical_event_version d =? CANONICAL_EVENT_VERSION) ||
     negb (ordering_rule_version d =? ORDERING_RULE_VERSION)
  then Err IncompatibleDescriptor else Ok ().
Record PartitionCacheEntry : Set := mk_entry { entry_path : Path; entry_descriptor : CacheDescriptor }.
Inductive PartitionCacheInspection : Set := MissingCache | Current (e : PartitionCacheEntry) | Stale.

(** One directory of the root, with what was seen before: a stale cache and
    the current one. *)
Definition inspect_entry (key : SourcePartitionKey) (source_revision : list Z) (expected : NormalizerMappingIdentity) (root : Path)
    (seen : bool * option PartitionCacheEntry) (n : Name) : IO CacheCatalogError (bool * option PartitionCacheEntry) :=
  let path := root ++ [n] in
  described ← is_regular (path ++ [DESCRIPTOR]);
  if negb described then mret seen
  else
    bytes ← sys CatalogIo (Read (path ++ [DESCRIPTOR]));
    d ← lift (ok_or (from_slice bytes) CatalogDescriptor);
    if bool_decide (source_revision_identity d = source_revision) && bool_decide (partition_identity d = Some (Hex.hex (Partition.identity key)))
    then
      if negb (is_ok (validate_descriptor d)) || bool_decide (normalizer_mapping_name d ≠ name expected) ||
         negb (normalizer_mapping_version d =? version expected)
      then mret (true, seen.2)
      else if negb (instrument_market d =? Market.discriminant (Instrument.market (Partition.instrument key))) ||
              bool_decide (instrument_symbol d ≠ Symbol.as_bytes (Instrument.symbol (Partition.instrument key))) ||
              negb (trading_date_epoch_days d =? TradingDate.as_epoch_days (Partition.trading_date key)) ||
              bool_decide (n ≠ cache_identity d)
      then lift (Err CatalogDescriptor)
      else if seen.2 is Some _ then lift (Err CatalogDescriptor) else mret (seen.1, Some (mk_entry path d))
    else mret seen.
Definition inspect_cache (data_root : Path) (key : SourcePartitionKey) (source_revision : list Z) (expected : NormalizerMappingIdentity) :
    IO CacheCatalogError PartitionCacheInspection :=
  let root := cache_partition_root data_root key in
  there ← is_dir root;
  if negb there then mret MissingCache
  else
    entries ← sys CatalogIo (ReadDir root);
    seen ← fold_io (inspect_entry key source_revision expected root) (false, None) (sort_on id entries);
    mret match seen with (_, Some e) => Current e | (true, None) => Stale | (false, None) => MissingCache end.

(** ** Reading

    A reader is a place in a file. Each read may fail. *)

Record CacheReader : Set := mk_reader {
  file : Path; position : Z; reader_descriptor : CacheDescriptor; remaining : Z; reader_ordinal : Z; hasher : list Z;
  previous_key : option OrderingKey; first_match_time : option Z; last_match_time : option Z; finished : bool }.
Record CacheRecord : Set := mk_record { record_ordinal : Z; event : DomainEvent }.

Definition read_exact (file : Path) (position n : Z) : IO CacheReadError (list Z) :=
  content ← sys ReadIo (Read file);
  let bytes := take (Z.to_nat n) (drop (Z.to_nat position) content) in
  lift (if zlen bytes =? n then Ok bytes else Err (ReadIo UnexpectedEof)).

Definition open_inner (path : Path) (expected_source_revision : option (list Z)) : IO CacheReadError CacheReader :=
  bytes ← sys ReadIo (Read (path ++ [DESCRIPTOR]));
  d ← lift (ok_or (from_slice bytes) ReadDescriptor);
  _ ← lift (validate_descriptor d);
  _ ← lift (if match expected_source_revision with Some e => bool_decide (source_revision_identity d ≠ e) | None => false end
            then Err StaleSourceLineage else Ok ());
  let file := path ++ [EVENTS] in
  _ ← sys ReadIo (Open file);
  magic ← read_exact file 0 9;
  _ ← lift (if bool_decide (magic ≠ CACHE_MAGIC) then Err ReadHeader else Ok ());
  format ← read_exact file 9 2;
  count ← read_exact file 11 8;
  _ ← lift (if negb (from_be format =? CACHE_FORMAT_VERSION) || negb (from_be count =? event_count d) then Err ReadHeader else Ok ());
  mret (mk_reader file 19 d (from_be count) 0 [] None None None false).
Definition open_bound (path : Path) (expected_source_revision : list Z) : IO CacheReadError CacheReader :=
  open_inner path (Some expected_source_revision).

Definition validate_event_record_length (length : Z) : result CacheReadError Z :=
  if MAX_CACHE_EVENT_RECORD_BYTES <? length then Err ReadEventTooLarge else Ok length.
Definition validate_event (d : CacheDescriptor) (e : DomainEvent) : result CacheReadError () :=
  if negb (Market.discriminant (Instrument.market (Event.instrument e)) =? instrument_market d) ||
     bool_decide (Symbol.as_bytes (Instrument.symbol (Event.instrument e)) ≠ instrument_symbol d) ||
     negb (TradingDate.as_epoch_days (Event.trading_date e) =? trading_date_epoch_days d)
  then Err CoverageMismatch else Ok ().

(** At the last record. *)
Definition read_end (r : CacheReader) : IO CacheReadError (option CacheRecord * CacheReader) :=
  content ← sys ReadIo (Read (file r));
  _ ← lift (if negb (zlen (drop (Z.to_nat (position r)) content) =? 0) then Err TrailingBytes else Ok ());
  _ ← lift (if bool_decide (Hex.hex (sha256 (hasher r)) ≠ payload_sha256 (reader_descriptor r)) then Err PayloadChecksum else Ok ());
  _ ← lift (if bool_decide (first_match_time r ≠ first_match_time_micros (reader_descriptor r)) ||
               bool_decide (last_match_time r ≠ last_match_time_micros (reader_descriptor r)) then Err BoundsMismatch else Ok ());
  mret (None, mk_reader (file r) (position r) (reader_descriptor r) (remaining r) (reader_ordinal r) (hasher r) (previous_key r)
                (first_match_time r) (last_match_time r) true).
(** The checks of a record that was read, and the reader after it. *)
Definition accept_record (r : CacheReader) (length bytes : list Z) : result CacheReadError (CacheRecord * CacheReader) :=
  event ← map_err ReadCanonical (from_canonical_bytes bytes);
  _ ← validate_event (reader_descriptor r) event;
  key ← map_err ReadOrdering (for_event event);
  reject match previous_key r with Some previous => bool_decide (ord_lt key previous) | None => false end with OrderingRegression;;
  Ok (mk_record (reader_ordinal r) event,
      mk_reader (file r) (position r + 4 + zlen bytes) (reader_descriptor r) (remaining r - 1) (reader_ordinal r + 1)
        (hasher r ++ length ++ bytes) (Some key) (Some (default (micros event) (first_match_time r))) (Some (micros event)) (finished r)).
(** An error ends the use of a reader: what it has moved past is not kept. *)
Definition next_record (r : CacheReader) : IO CacheReadError (option CacheRecord * CacheReader) :=
  if finished r then mret (None, r)
  else if remaining r =? 0 then read_end r
  else
    length ← read_exact (file r) (position r) 4;
    n ← lift (validate_event_record_length (from_be length));
    bytes ← read_exact (file r) (position r + 4) n;
    '(record, r) ← lift (accept_record r length bytes);
    mret (Some record, r).

(** ** Streams of a plan

    The variable that asks for a log of the streams opened is taken to be
    unset. *)

Record LocalCacheFactory : Set := mk_factory { data_root : Path; partitioned_source : option SourceId; opened_bindings : list Plan.ReplayStreamBinding }.
Definition open_stream (f : LocalCacheFactory) (b : Plan.ReplayStreamBinding) : IO CacheReadError (CacheReader * LocalCacheFactory) :=
  let identity := Hex.hex (Plan.cache_identity b) in
  let source_revision := Hex.hex (Plan.source_revision_identity b) in
  let cache_root := match partitioned_source f with
    | Some source => cache_instrument_root (data_root f) source (Plan.instrument b) (Plan.trading_date b)
    | None => data_root f ++ [bytes_of "derived"; bytes_of "cache"]
    end in
  reader ← open_bound (cache_root ++ [identity]) source_revision;
  let d := reader_descriptor reader in
  _ ← lift (if bool_decide (cache_identity d ≠ identity) ||
               negb (instrument_market d =? Market.discriminant (Instrument.market (Plan.instrument b))) ||
               bool_decide (instrument_symbol d ≠ Symbol.as_bytes (Instrument.symbol (Plan.instrument b))) ||
               negb (trading_date_epoch_days d =? TradingDate.as_epoch_days (Plan.trading_date b))
            then Err BindingMismatch else Ok ());
  mret (reader, mk_factory (data_root f) (partitioned_source f) (opened_bindings f ++ [b])).

(** ** Preparation (provider.rs) *)

Inductive PreparationError : Set :=
| SourceUnverified (e : VerificationError) | Normalization (e : Provider.NormalizationFailure) | ForeignOutput | CacheNotBuilt (e : CacheBuildError).
Definition preparation_failure (f : Failure Provider.NormalizationFailure) : Failure PreparationError :=
  match f with Returned e => Returned (Normalization e) | Panicked => Panicked end.
Definition prepare_cache {QJ : Wire.QuoteJson} {TJ : TaifexWire.TaifexJson} (data_root : Path) (key : SourcePartitionKey) (config : PartitionNormalizerConfig) :
    IO (Failure PreparationError) PublishedCache :=
  report ← io_map_err (Returned ∘ SourceUnverified) (verify_current_partition (new_partitioned data_root key));
  lines ← io_map_err (Returned ∘ SourceUnverified) (read_tick_records report);
  mapping ← lift (Provider.mapping_identity config);
  '(i, d, events) ← lift (map_err preparation_failure (Provider.normalize config lines));
  _ ← lift (if bool_decide (i ≠ Partition.instrument key) || bool_decide (d ≠ Partition.trading_date key) then Err (Returned ForeignOutput) else Ok ());
  io_map_err (Returned ∘ CacheNotBuilt) (build_external_partition data_root key mapping events).

End operations.
End Cache.

(** * CacheLaws

    What a cache promises: the reader hands out the events of a file that
    holds them in order under their own checksum, and the builder writes such
    a file and leaves the caches that are there alone. *)

Module CacheLaws.
Import Files FilesLaws Storage Verify VerifyLaws StorageLaws PublishLaws Layout Cache Effects(Failure, Returned, Panicked).
Import Ordering(order_events, OrderingKey, for_event, ORDERING_RULE_VERSION) Event(DomainEvent, EVENT_SCHEMA_VERSION, CANONICAL_EVENT_VERSION, to_canonical_bytes, from_canonical_bytes).
Import Partition(SourcePartitionKey) CursorLaws(Blake3Laws, blake3_digest) LayoutLaws(proper_key).

(** ** Files of events *)

Definition record_bytes (b : list Z) : list Z := be_bytes 4 (zlen b) ++ b.
Definition payload (bs : list (list Z)) : list Z := concat (record_bytes <$> bs).
Definition header (n : Z) : list Z := CACHE_MAGIC ++ be_bytes 2 CACHE_FORMAT_VERSION ++ be_bytes 8 n.
Definition record_fits (b : list Z) : Prop := zlen b ≤ MAX_CACHE_EVENT_RECORD_BYTES.

Section reading.
Context {J : Json} {SM : Serde SourceManifest} {SC : Serde CacheDescriptor} {ZS : Zstd} {SH : Sha256} {B : Blake3}.

Lemma gives_read_exact d file content position n bytes : entry d file = Some (File content) → 0 ≤ n →
  gives (read_exact file position n) d bytes ↔ ∃ rest, drop (Z.to_nat position) content = bytes ++ rest ∧ zlen bytes = n.
Proof.
  intros He Hn. unfold read_exact. rewrite gives_bind by auto with osmium. setoid_rewrite gives_read. setoid_rewrite gives_lift. split.
  - intros (c & Hc & H). rewrite He in Hc. injection Hc as <-. destruct (zlen _ =? n) eqn:E; [|done]. injection H as <-. apply Z.eqb_eq in E.
    eexists. split; [symmetry; apply take_drop|done].
  - intros (rest & Hd & Hl). exists content. split; [done|]. rewrite Hd. assert (Hlen : Z.to_nat n = length bytes) by (unfold zlen in Hl; lia).
    rewrite Hlen, take_app_length. by rewrite (proj2 (Z.eqb_eq _ _) Hl).
Qed.
Lemma quiet_read_exact file position n : quiet (read_exact file position n).
Proof. unfold read_exact. auto with osmium. Qed.
Lemma quiet_next_record r : quiet (next_record r).
Proof.
  unfold next_record, read_end. destruct (finished r); [done|]. destruct (_ =? 0).
  - repeat (apply quiet_bind; [auto with osmium|]; intros ?). done.
  - do 3 (apply quiet_bind; [auto using quiet_read_exact with osmium|]; intros ?). apply quiet_bind; [auto with osmium|]. intros [record r']. done.
Qed.

(** The bytes of the file that a reader has not read. *)
Definition ahead (d : Disk) (r : CacheReader) (rest : list Z) : Prop :=
  ∃ content, entry d (file r) = Some (File content) ∧ drop (Z.to_nat (position r)) content = rest ∧ 0 ≤ position r.

Definition end_reader (r : CacheReader) : CacheReader :=
  mk_reader (file r) (position r) (reader_descriptor r) (remaining r) (reader_ordinal r) (hasher r) (previous_key r) (first_match_time r) (last_match_time r) true.
Record ends (r : CacheReader) : Prop := {
  ends_checksum : payload_sha256 (reader_descriptor r) = Hex.hex (sha256 (hasher r));
  ends_first : first_match_time_micros (reader_descriptor r) = first_match_time r;
  ends_last : last_match_time_micros (reader_descriptor r) = last_match_time r }.

Lemma gives_end d r rest x r' : ahead d r rest → finished r = false → remaining r = 0 →
  gives (next_record r) d (x, r') ↔ rest = [] ∧ ends r ∧ x = None ∧ r' = end_reader r.
Proof.
  intros (content & He & Hd & _) Hf Hr. unfold next_record. rewrite Hf, Hr. change (0 =? 0) with true. cbv iota. unfold read_end. rewrite Hr.
  rewrite gives_bind by auto with osmium. setoid_rewrite gives_read. split.
  - intros (c & Hc & H). rewrite He in Hc. injection Hc as <-. rewrite Hd in H. apply gives_bind in H as (u & Hu%gives_lift & H); [|auto with osmium].
    destruct (negb (zlen rest =? 0)) eqn:E1; [done|]. apply negb_false_iff, Z.eqb_eq in E1.
    apply gives_bind in H as (u2 & H2%gives_check & H); [|auto with osmium]. apply bool_decide_eq_false, dec_stable in H2.
    apply gives_bind in H as (u3 & H3%gives_check & H%gives_ret); [|auto with osmium]. apply orb_false_iff in H3 as [H3%bool_decide_eq_false%dec_stable H4%bool_decide_eq_false%dec_stable].
    injection H as <- <-. split; [by destruct rest|]. split; [by constructor|]. split; [done|]. unfold end_reader. by rewrite Hr.
  - intros (-> & [H2 H3 H4] & -> & ->). exists content. split; [done|]. rewrite Hd. apply gives_bind; [auto with osmium|]. exists (). split; [by apply gives_lift|].
    apply gives_bind; [auto with osmium|]. exists (). split; [by apply gives_check, bool_decide_eq_false; rewrite H2; intros []|].
    apply gives_bind; [auto with osmium|]. exists (). split; [|apply gives_ret; unfold end_reader; by rewrite Hr].
    apply gives_check. rewrite H3, H4, !bool_decide_eq_false_2 by (by intros []). done.
Qed.

Definition next_is (r : CacheReader) (rest : list Z) (x : option CacheRecord) (r' : CacheReader) : Prop :=
  ∃ b rest' rec, rest = record_bytes b ++ rest' ∧ record_fits b ∧ accept_record r (be_bytes 4 (zlen b)) b = Ok (rec, r') ∧ x = Some rec.
Lemma gives_record d r rest x r' : ahead d r rest → finished r = false → remaining r ≠ 0 →
  (Forall is_u8 rest → gives (next_record r) d (x, r') → next_is r rest x r') ∧ (next_is r rest x r' → gives (next_record r) d (x, r')).
Proof.
  intros (content & He & Hd & Hpos) Hf Hr. unfold next_is. unfold next_record. rewrite Hf, (proj2 (Z.eqb_neq _ _) Hr).
  assert (Hnext : ∀ len rest1, rest = len ++ rest1 → zlen len = 4 → drop (Z.to_nat (position r + 4)) content = rest1).
  { intros len rest1 -> Hlen. replace (Z.to_nat (position r + 4)) with (Z.to_nat (position r) + length len)%nat by (unfold zlen in Hlen; lia).
    by rewrite <-drop_drop, Hd, drop_app_length. }
  split.
  - intros Hu (len & Hl & H)%gives_bind; [|apply quiet_read_exact]. apply (gives_read_exact d _ content) in Hl as (rest1 & Erest & Hlen); [|done|lia]. rewrite Hd in Erest. apply gives_bind in H as (n & Hn%gives_lift & H); [|auto with osmium]. unfold validate_event_record_length in Hn.
    destruct (_ <? _) eqn:Efit; [done|]. injection Hn as <-. apply Z.ltb_ge in Efit. rewrite Erest in Hu. apply Forall_app in Hu as [Hul _].
    apply gives_bind in H as (b & Hb & H); [|apply quiet_read_exact]. pose proof (from_be_range len Hul) as Hrange.
    apply (gives_read_exact d _ content) in Hb as (rest2 & Hb & Hlb); [|done|lia]. rewrite (Hnext len rest1 Erest Hlen) in Hb.
    apply gives_bind in H as ([rec r2] & Ha%gives_lift & H%gives_ret); [|auto with osmium]. injection H as <- <-. exists b, rest2, rec.
    assert (El : be_bytes 4 (zlen b) = len) by (rewrite Hlb; unfold zlen in Hlen; replace 4%nat with (length len) by lia; by apply be_bytes_from_be).
    unfold record_bytes. rewrite El, Erest, Hb, app_assoc. split; [done|]. split; [unfold record_fits; lia|done].
  - intros (b & rest' & rec & -> & Hfit & Ha & ->). apply gives_bind; [apply quiet_read_exact|]. exists (be_bytes 4 (zlen b)). unfold record_bytes in *. rewrite <-app_assoc in *.
    assert (Hlen : zlen (be_bytes 4 (zlen b)) = 4) by (unfold zlen; by rewrite length_be_bytes).
    split; [apply (gives_read_exact d _ content); [done|lia|]; rewrite Hd; by exists (b ++ rest')|].
    assert (Hb : from_be (be_bytes 4 (zlen b)) = zlen b) by (apply from_be_be_bytes; unfold record_fits, MAX_CACHE_EVENT_RECORD_BYTES, zlen in *; lia).
    rewrite Hb. unfold validate_event_record_length. rewrite (proj2 (Z.ltb_ge _ _) Hfit). apply gives_bind; [auto with osmium|]. exists (zlen b). split; [by apply gives_lift|].
    apply gives_bind; [apply quiet_read_exact|]. exists b. split; [|apply gives_bind; [auto with osmium|]; exists (rec, r'); split; [by apply gives_lift|by apply gives_ret]].
    apply (gives_read_exact d _ content); [done|unfold zlen; lia|]. exists rest'. split; [|done]. by apply (Hnext (be_bytes 4 (zlen b))).
Qed.

(** ** All records *)

(** Reading to the end, with rounds. *)
Fixpoint drain (rounds : nat) (r : CacheReader) : IO CacheReadError (option (list CacheRecord)) :=
  match rounds with
  | O => mret None
  | S rounds => next ← next_record r;
      match next with (None, _) => mret (Some []) | (Some record, r) => records ← drain rounds r; mret (option_map (cons record) records) end
  end.
Lemma quiet_drain rounds r : quiet (drain rounds r).
Proof.
  revert r. induction rounds as [|n IH]; intros r; simpl; [done|]. apply quiet_bind; [apply quiet_next_record|]. intros [[record|] r']; [|done].
  apply quiet_bind; [apply IH|]. intros. done.
Qed.
Fixpoint numbered (o : Z) (es : list DomainEvent) : list CacheRecord :=
  match es with [] => [] | e :: es => mk_record o e :: numbered (o + 1) es end.
(** The records ahead of a reader are the events. *)
Fixpoint holds (r : CacheReader) (bs : list (list Z)) (es : list DomainEvent) : Prop :=
  match bs, es with
  | [], [] => remaining r = 0 ∧ ends r
  | b :: bs, e :: es => remaining r ≠ 0 ∧ record_fits b ∧ ∃ r', accept_record r (be_bytes 4 (zlen b)) b = Ok (mk_record (reader_ordinal r) e, r') ∧ holds r' bs es
  | _, _ => False
  end.

Definition after (r : CacheReader) (b : list Z) (e : DomainEvent) (k : OrderingKey) : CacheReader :=
  mk_reader (file r) (position r + 4 + zlen b) (reader_descriptor r) (remaining r - 1) (reader_ordinal r + 1) (hasher r ++ record_bytes b) (Some k)
    (Some (default (micros e) (first_match_time r))) (Some (micros e)) (finished r).
Lemma accept_record_Ok r b rec r' : accept_record r (be_bytes 4 (zlen b)) b = Ok (rec, r') ↔
  ∃ e k, from_canonical_bytes b = Ok e ∧ validate_event (reader_descriptor r) e = Ok () ∧ for_event e = Ok k ∧ (∀ p, previous_key r = Some p → ord_le p k) ∧
    rec = mk_record (reader_ordinal r) e ∧ r' = after r b e k.
Proof.
  unfold accept_record. split.
  - intros (e & He%map_err_Ok & H)%bind_Ok. apply bind_Ok in H as ([] & Hv & H). apply bind_Ok in H as (k & Hk%map_err_Ok & H). exists e, k. do 3 (split; [done|]).
    destruct (previous_key r) as [p|]; [|by injection H as <- <-]. case_bool_decide as Hlt; [done|]. injection H as <- <-. split; [|done].
    intros p' [= <-]. by apply ord_not_lt.
  - intros (e & k & He & Hv & Hk & Hle & -> & ->). apply bind_Ok. exists e. rewrite He. split; [done|]. apply bind_Ok. exists (). split; [done|].
    apply bind_Ok. exists k. rewrite Hk. split; [done|].
    destruct (previous_key r) as [p|]; [|done]. by rewrite bool_decide_eq_false_2 by by apply ord_not_lt, Hle.
Qed.
Lemma ahead_after d r b e k rest : ahead d r (record_bytes b ++ rest) → ahead d (after r b e k) rest.
Proof.
  intros (c & Hc & Hd & Hp). exists c. split; [done|]. simpl. split; [|unfold zlen; lia].
  replace (Z.to_nat (position r + 4 + zlen b)) with (Z.to_nat (position r) + length (record_bytes b))%nat by (unfold record_bytes; rewrite length_app, length_be_bytes; unfold zlen; lia).
  by rewrite <-drop_drop, Hd, drop_app_length.
Qed.

Definition drained (r : CacheReader) (n : nat) (rest : list Z) (l : list CacheRecord) : Prop :=
  ∃ bs es, (length es < n)%nat ∧ l = numbered (reader_ordinal r) es ∧ rest = payload bs ∧ holds r bs es.
Lemma drain_iff d n r rest l : ahead d r rest → finished r = false →
  (Forall is_u8 rest → gives (drain n r) d (Some l) → drained r n rest l) ∧ (drained r n rest l → gives (drain n r) d (Some l)).
Proof.
  revert r rest l. induction n as [|n IH]; intros r rest l Ha Hf; simpl.
  { rewrite gives_ret. split; [done|]. intros (? & ? & ? & _). lia. }
  rewrite gives_bind by apply quiet_next_record. destruct (decide (remaining r = 0)) as [Hr|Hr].
  - split.
    + intros Hu ([x r'] & H & Hx). apply (gives_end d r rest) in H as (-> & Hends & -> & ->); [|done..]. apply gives_ret in Hx. injection Hx as <-. exists [], []. simpl. split; [lia|]. done.
    + intros (bs & es & _ & -> & -> & Hh). destruct bs as [|b bs], es as [|e es]; simpl in Hh; try done; [|by destruct Hh as [? _]].
      exists (None, end_reader r). split; [by apply (gives_end d r []); [..|by destruct Hh]|by apply gives_ret].
  - split.
    + intros Hu ([x r'] & H & Hx). apply (gives_record d r rest x r' Ha Hf Hr) in H as (b & rest' & rec & -> & Hfit & Hacc & ->); [|done].
      apply gives_bind in Hx as (o & Ho & Hx%gives_ret); [|apply quiet_drain]. destruct o as [l'|]; [|done]. simpl in Hx. injection Hx as <-.
      pose proof Hacc as (e & k & _ & _ & _ & _ & -> & ->)%accept_record_Ok. apply Forall_app in Hu as [_ Hu]. apply ahead_after with (e := e) (k := k) in Ha.
      apply (proj1 (IH _ _ l' Ha Hf) Hu) in Ho as (bs & es & Hlen & -> & -> & Hh). exists (b :: bs), (e :: es). split; [simpl; lia|]. split; [done|]. split; [done|].
      simpl. split; [done|]. split; [done|]. by exists (after r b e k).
    + intros (bs & es & Hlen & -> & -> & Hh). destruct bs as [|b bs], es as [|e es]; simpl in Hh; try done; [by destruct Hh|]. destruct Hh as (_ & Hfit & r' & Hacc & Hh).
      change (payload (b :: bs)) with (record_bytes b ++ payload bs) in *. exists (Some (mk_record (reader_ordinal r) e), r'). split; [apply (gives_record d r (record_bytes b ++ payload bs)); [done..|]; by exists b, (payload bs), (mk_record (reader_ordinal r) e)|].
      pose proof Hacc as (e' & k & _ & _ & _ & _ & Erec & ->)%accept_record_Ok. injection Erec as <-. apply ahead_after with (e := e) (k := k) in Ha.
      apply gives_bind; [apply quiet_drain|]. exists (Some (numbered (reader_ordinal r + 1) es)). split; [|by apply gives_ret].
      apply (proj2 (IH _ _ _ Ha Hf)). exists bs, es. simpl in Hlen. split; [lia|done].
Qed.

(** ** The contents of a cache *)

Fixpoint in_order (previous : option OrderingKey) (es : list DomainEvent) : Prop :=
  match es with
  | [] => True
  | e :: es => ∃ k, for_event e = Ok k ∧ (∀ p, previous = Some p → ord_le p k) ∧ in_order (Some k) es
  end.
(** The versions are those of the program. *)
Definition of_this_version (dsc : CacheDescriptor) : Prop :=
  cache_format_version dsc = CACHE_FORMAT_VERSION ∧ market_types_version dsc = MARKET_TYPES_VERSION ∧
  event_schema_version dsc = EVENT_SCHEMA_VERSION ∧ canonical_event_version dsc = CANONICAL_EVENT_VERSION ∧
  ordering_rule_version dsc = ORDERING_RULE_VERSION.
(** The event is one of the described instrument and trading date. *)
Definition about (dsc : CacheDescriptor) (e : DomainEvent) : Prop :=
  Market.discriminant (Instrument.market (Event.instrument e)) = instrument_market dsc ∧
  Symbol.as_bytes (Instrument.symbol (Event.instrument e)) = instrument_symbol dsc ∧
  TradingDate.as_epoch_days (Event.trading_date e) = trading_date_epoch_days dsc.
Lemma validate_descriptor_iff dsc : validate_descriptor dsc = Ok () ↔ of_this_version dsc.
Proof.
  unfold validate_descriptor, of_this_version. destruct (_ || _) eqn:E.
  - split; [done|]. intros (H1 & H2 & H3 & H4 & H5). by rewrite H1, H2, H3, H4, H5, !Z.eqb_refl in E.
  - split; [intros _|done]. rewrite !orb_false_iff, !negb_false_iff, !Z.eqb_eq in E. tauto.
Qed.
Lemma validate_event_iff dsc e : validate_event dsc e = Ok () ↔ about dsc e.
Proof.
  unfold validate_event, about. destruct (_ || _) eqn:E.
  - split; [done|]. intros (H1 & H2 & H3). by rewrite H1, H2, H3, !Z.eqb_refl, bool_decide_eq_false_2 in E by by intros [].
  - split; [intros _|done]. rewrite !orb_false_iff, !negb_false_iff, !Z.eqb_eq, bool_decide_eq_false in E. destruct E as [[? ?%dec_stable] ?]. done.
Qed.
Definition record_of (dsc : CacheDescriptor) (b : list Z) (e : DomainEvent) : Prop :=
  record_fits b ∧ from_canonical_bytes b = Ok e ∧ about dsc e.
Definition last_micros (t : option Z) (es : list DomainEvent) : option Z := match list.last es with Some e => Some (micros e) | None => t end.
Definition first_micros (t : option Z) (es : list DomainEvent) : option Z := match t with Some t => Some t | None => option_map micros (list.head es) end.

Lemma holds_spec r bs es : holds r bs es ↔
  remaining r = zlen es ∧ Forall2 (record_of (reader_descriptor r)) bs es ∧ in_order (previous_key r) es ∧
  payload_sha256 (reader_descriptor r) = Hex.hex (sha256 (hasher r ++ payload bs)) ∧
  first_match_time_micros (reader_descriptor r) = first_micros (first_match_time r) es ∧
  last_match_time_micros (reader_descriptor r) = last_micros (last_match_time r) es.
Proof.
  revert r bs. induction es as [|e es IH]; intros r [|b bs]; cbn [holds].
  - rewrite app_nil_r. split.
    + intros (-> & [H1 H2 H3]). split; [done|]. split; [constructor|]. split; [done|]. split; [done|]. split; [|done]. rewrite H2. by destruct (first_match_time r).
    + intros (-> & _ & _ & H1 & H2 & H3). split; [done|]. split; [done| |done]. rewrite H2. by destruct (first_match_time r).
  - split; [done|]. intros (_ & H & _). inversion H.
  - split; [done|]. intros (_ & H & _). inversion H.
  - assert (Hlast : ∀ t, last_micros t (e :: es) = last_micros (Some (micros e)) es) by (intros t; unfold last_micros; rewrite last_cons; by destruct (list.last es)).
    assert (Hfirst : first_micros (first_match_time r) (e :: es) = Some (default (micros e) (first_match_time r))) by (by destruct (first_match_time r)).
    rewrite Hlast, Hfirst. cbn [in_order]. split.
    + intros (Hr & Hfit & r' & (e' & k & He & Hv%validate_event_iff & Hk & Hle & Erec & ->)%accept_record_Ok & (H1 & H2 & H3 & H4 & H5 & H6)%IH). injection Erec as <-. cbn [after] in *.
      simpl in H1, H2, H3, H4, H5, H6. split; [unfold zlen in *; simpl; lia|]. split; [by constructor|]. split; [by exists k|]. rewrite <-app_assoc in H4. done.
    + intros (H1 & H2 & (k & Hk & Hle & H3) & H4 & H5 & H6). inversion H2 as [|? ? ? ? (Hfit & He & Hv%validate_event_iff) H2']; subst. split; [unfold zlen in H1; simpl in H1; lia|].
      split; [done|]. exists (after r b e k). split; [apply accept_record_Ok; by exists e, k|]. apply IH. simpl. split; [unfold zlen in *; simpl in H1; lia|].
      split; [done|]. split; [done|]. by rewrite <-app_assoc.
Qed.

(** A cache that holds the events under a source revision. *)
Record cached (d : Disk) (path : Path) (dsc : CacheDescriptor) (es : list DomainEvent) : Prop := {
  cached_descriptor : ∃ bytes, entry d (path ++ [DESCRIPTOR]) = Some (File bytes) ∧ from_slice bytes = Some dsc;
  cached_versions : of_this_version dsc;
  cached_file : ∃ bs, entry d (path ++ [EVENTS]) = Some (File (header (event_count dsc) ++ payload bs)) ∧ Forall2 (record_of dsc) bs es ∧
    payload_sha256 dsc = Hex.hex (sha256 (payload bs));
  cached_count : event_count dsc = zlen es ∧ is_u64 (event_count dsc);
  cached_order : in_order None es;
  cached_bounds : first_match_time_micros dsc = option_map micros (list.head es) ∧ last_match_time_micros dsc = option_map micros (list.last es) }.

Definition load_cache (rounds : nat) (path : Path) (revision : list Z) : IO CacheReadError (option (CacheDescriptor * list CacheRecord)) :=
  r ← open_bound path revision;
  records ← drain rounds r;
  mret (option_map (pair (reader_descriptor r)) records).
Lemma quiet_open_bound path revision : quiet (open_bound path revision).
Proof.
  unfold open_bound, open_inner. do 4 (apply quiet_bind; [auto with osmium|]; intros ?). cbv zeta. apply quiet_bind; [auto with osmium|]. intros ?.
  apply quiet_bind; [apply quiet_read_exact|]. intros ?. apply quiet_bind; [auto with osmium|]. intros ?.
  do 2 (apply quiet_bind; [apply quiet_read_exact|]; intros ?). apply quiet_bind; [auto with osmium|]. intros ?. done.
Qed.

Definition opened (d : Disk) (path : Path) (revision : list Z) (r : CacheReader) : Prop :=
  ∃ bytes dsc rest, entry d (path ++ [DESCRIPTOR]) = Some (File bytes) ∧ from_slice bytes = Some dsc ∧
    validate_descriptor dsc = Ok () ∧ source_revision_identity dsc = revision ∧ is_u64 (event_count dsc) ∧
    entry d (path ++ [EVENTS]) = Some (File (header (event_count dsc) ++ rest)) ∧
    r = mk_reader (path ++ [EVENTS]) 19 dsc (event_count dsc) 0 [] None None None false.
(** The bytes of the events file. *)
Definition events_u8 (d : Disk) (path : Path) : Prop := ∀ b, entry d (path ++ [EVENTS]) = Some (File b) → Forall is_u8 b.
Lemma gives_open_bound d path revision r :
  (events_u8 d path → gives (open_bound path revision) d r → opened d path revision r) ∧ (opened d path revision r → gives (open_bound path revision) d r).
Proof.
  unfold open_bound, open_inner, opened, events_u8. split.
  - intros Hu (bytes & Hb%gives_read & H)%gives_bind; [|auto with osmium]. apply gives_bind in H as (dsc & Hdsc%gives_ok_or & H); [|auto with osmium].
    apply gives_bind in H as ([] & Hv%gives_lift & H); [|auto with osmium]. apply gives_bind in H as (u & Hrev%gives_check & H); [|auto with osmium].
    apply bool_decide_eq_false, dec_stable in Hrev. cbv zeta in H. apply gives_bind in H as (u1 & Ho%gives_open & H); [|auto with osmium].
    destruct (entry d (path ++ [EVENTS])) as [[|content]|] eqn:Ec; [| |done].
    { apply gives_bind in H as (m & Hm & _); [|apply quiet_read_exact]. unfold read_exact in Hm. apply gives_bind in Hm as (c & Hc%gives_read & _); [congruence|auto with osmium]. }
    apply gives_bind in H as (m & Hm & H); [|apply quiet_read_exact]. apply (gives_read_exact d _ content) in Hm as (r1 & Hm & Hlm); [|done..].
    apply gives_bind in H as (u2 & Hmagic%gives_check & H); [|auto with osmium]. apply bool_decide_eq_false, dec_stable in Hmagic.
    apply gives_bind in H as (f & Hf & H); [|apply quiet_read_exact]. apply (gives_read_exact d _ content) in Hf as (r2 & Hf & Hlf); [|done..].
    apply gives_bind in H as (n & Hn & H); [|apply quiet_read_exact]. apply (gives_read_exact d _ content) in Hn as (r3 & Hn & Hln); [|done..].
    apply gives_bind in H as (u3 & Hh%gives_check & <-%gives_ret); [|auto with osmium]. apply orb_false_iff in Hh as [Hh1%negb_false_iff%Z.eqb_eq Hh2%negb_false_iff%Z.eqb_eq].
    specialize (Hu content eq_refl). subst m. change (drop (Z.to_nat 0) content) with content in Hm. rewrite Hm in Hf, Hn, Hu.
    change (drop (Z.to_nat 9) (CACHE_MAGIC ++ r1)) with r1 in Hf. change (drop (Z.to_nat 11) (CACHE_MAGIC ++ r1)) with (drop 2 r1) in Hn.
    apply Forall_app in Hu as [_ Hu]. rewrite Hf in Hn, Hu. assert (Hlf' : length f = 2%nat) by (unfold zlen in Hlf; lia). assert (Hln' : length n = 8%nat) by (unfold zlen in Hln; lia).
    rewrite <-Hlf', drop_app_length in Hn. apply Forall_app in Hu as [Huf Hu]. rewrite Hn in Hu. apply Forall_app in Hu as [Hun _].
    assert (Ef : f = be_bytes 2 CACHE_FORMAT_VERSION) by (rewrite <-Hh1, <-Hlf'; symmetry; by apply be_bytes_from_be).
    assert (En : n = be_bytes 8 (event_count dsc)) by (rewrite <-Hh2, <-Hln'; symmetry; by apply be_bytes_from_be).
    exists bytes, dsc, r3. do 4 (split; [done|]). split; [rewrite <-Hh2; pose proof (from_be_range n Hun) as Hr; rewrite Hln' in Hr; unfold is_u64, u64_max; lia|].
    split; [|by rewrite Hh2]. unfold header. by rewrite Hm, Hf, Hn, Ef, En, <-!app_assoc.
  - intros (bytes & dsc & rest & Hb & Hdsc & Hv & Hrev & Hc & He & ->).
    assert (Hread : ∀ p n x r1, drop (Z.to_nat p) (header (event_count dsc) ++ rest) = x ++ r1 → zlen x = n → 0 ≤ n → gives (read_exact (path ++ [EVENTS]) p n) d x).
    { intros p n x r1 Hd Hx Hn. eapply gives_read_exact; [exact He|done|]. by exists r1. }
    assert (Hz : ∀ w z, zlen (be_bytes w z) = Z.of_nat w) by (intros; unfold zlen; by rewrite length_be_bytes). unfold header in Hread. rewrite <-!app_assoc in Hread.
    apply gives_bind; [auto with osmium|]. exists bytes. split; [by apply gives_read|]. apply gives_bind; [auto with osmium|]. exists dsc. split; [by apply gives_ok_or|].
    apply gives_bind; [auto with osmium|]. exists (). split; [by apply gives_lift|]. apply gives_bind; [auto with osmium|]. exists (). split; [by apply gives_check, bool_decide_eq_false; intros []|].
    cbv zeta. apply gives_bind; [auto with osmium|]. exists (). split; [apply gives_open; by rewrite He|]. apply gives_bind; [apply quiet_read_exact|]. exists CACHE_MAGIC.
    split; [by eapply Hread|]. apply gives_bind; [auto with osmium|]. exists (). split; [by apply gives_check, bool_decide_eq_false; intros []|].
    apply gives_bind; [apply quiet_read_exact|]. exists (be_bytes 2 CACHE_FORMAT_VERSION). split; [by eapply Hread|]. apply gives_bind; [apply quiet_read_exact|]. exists (be_bytes 8 (event_count dsc)).
    assert (Hcount : from_be (be_bytes 8 (event_count dsc)) = event_count dsc) by (apply from_be_be_bytes; unfold is_u64, u64_max in Hc; lia).
    split; [by eapply (Hread 11 8); [|apply Hz|]|]. apply gives_bind; [auto with osmium|]. exists ().
    assert (Hformat : from_be (be_bytes 2 CACHE_FORMAT_VERSION) = CACHE_FORMAT_VERSION) by (vm_compute; reflexivity).
    rewrite Hcount, Hformat, !Z.eqb_refl. split; [by apply gives_check|]. by apply gives_ret.
Qed.

Lemma ahead_opened d path dsc rest : entry d (path ++ [EVENTS]) = Some (File (header (event_count dsc) ++ rest)) →
  ahead d (mk_reader (path ++ [EVENTS]) 19 dsc (event_count dsc) 0 [] None None None false) rest.
Proof.
  intros He. eexists. split; [exact He|]. split; [|done]. simpl position.
  replace (Z.to_nat 19) with (length (header (event_count dsc))) by (unfold header; rewrite !length_app, !length_be_bytes; reflexivity). by rewrite drop_app_length.
Qed.
(** Loading a cache to its end gives events exactly when it holds them. *)
Lemma load_cached n path d dsc es : cached d path dsc es → (length es < n)%nat →
  gives (load_cache n path (source_revision_identity dsc)) d (Some (dsc, numbered 0 es)).
Proof.
  intros [(bytes & Hb & Hs) Hv%validate_descriptor_iff (bs & He & Hbs & Hsum) [Hc Hc64] Ho [H5 H6]] Hlen. apply gives_bind; [apply quiet_open_bound|].
  eexists. split; [apply gives_open_bound; by exists bytes, dsc, (payload bs)|]. apply gives_bind; [apply quiet_drain|]. exists (Some (numbered 0 es)).
  split; [|by apply gives_ret]. apply (drain_iff d n _ (payload bs)); [by apply ahead_opened|done|]. exists bs, es. do 3 (split; [done|]). by apply holds_spec.
Qed.
Lemma cached_loaded n path revision d dsc l : events_u8 d path → gives (load_cache n path revision) d (Some (dsc, l)) →
  ∃ es, cached d path dsc es ∧ source_revision_identity dsc = revision ∧ (length es < n)%nat ∧ l = numbered 0 es.
Proof.
  intros Hu H. apply gives_bind in H as (r & Hr & H); [|apply quiet_open_bound]. apply (proj1 (gives_open_bound _ _ _ _) Hu) in Hr as (bytes & dsc' & rest & Hb & Hs & Hv%validate_descriptor_iff & Hrev & Hc & He & ->).
  assert (Hrest : Forall is_u8 rest) by by apply Hu, Forall_app in He as [_ He].
  apply gives_bind in H as ([l'|] & Hl & [= <- <-]%gives_ret); [|apply quiet_drain].
  apply (proj1 (drain_iff d n _ rest l' (ahead_opened d path dsc' rest He) eq_refl) Hrest) in Hl as (bs & es & Hlen & -> & -> & Hh).
  apply holds_spec in Hh as (H1 & H2 & H3 & H4 & H5 & H6). simpl in *. exists es. split; [|done]. constructor; [by exists bytes|done| |done|done|done]. by exists bs.
Qed.

(** C19: Loading a cache to its end succeeds exactly when its descriptor is of the
    versions of the program and the asked revision, and its file is the header
    with the described number of records, each decoding to an event of the
    described instrument and date, in replay order, with the described
    checksum and first and last match times; it gives exactly these events. *)
Theorem cache_verified n path revision d dsc l : events_u8 d path →
  run (load_cache n path revision) d = (Ok (Some (dsc, l)), d) ↔
  ∃ es, cached d path dsc es ∧ source_revision_identity dsc = revision ∧ (length es < n)%nat ∧ l = numbered 0 es.
Proof.
  intros Hu. split; [by apply cached_loaded|]. intros (es & Hc & <- & Hlen & ->). by apply load_cached.
Qed.

(** ** Streams of a plan *)

Lemma about_iff dsc e i dt : instrument_market dsc = Market.discriminant (Instrument.market i) → instrument_symbol dsc = Symbol.as_bytes (Instrument.symbol i) →
  trading_date_epoch_days dsc = TradingDate.as_epoch_days dt → about dsc e ↔ Event.instrument e = i ∧ Event.trading_date e = dt.
Proof.
  intros Hm Hs Hd. unfold about. rewrite Hm, Hs, Hd. split; [|by intros [-> ->]]. intros (E1 & E2 & E3).
  destruct (Event.instrument e) as [m [y]], i as [m' [y']], (Event.trading_date e) as [x], dt as [x']. simpl in *. subst. split; [|done]. f_equal. by apply (inj _).
Qed.

(** C21: a stream that was opened for a binding of a plan and read to its end gives
    the events of the cache the binding names, all of its instrument and
    trading date and in replay order, and the factory has noted the binding. *)
Theorem streams_are_bound f b d reader f' n l : run (open_stream f b) d = (Ok (reader, f'), d) → events_u8 d (parent (file reader)) →
  run (drain n reader) d = (Ok (Some l), d) →
  opened_bindings f' = opened_bindings f ++ [b] ∧ cache_identity (reader_descriptor reader) = Hex.hex (Plan.cache_identity b) ∧
  source_revision_identity (reader_descriptor reader) = Hex.hex (Plan.source_revision_identity b) ∧
  ∃ es, l = numbered 0 es ∧ cached d (parent (file reader)) (reader_descriptor reader) es ∧
    Forall (λ e, Event.instrument e = Plan.instrument b ∧ Event.trading_date e = Plan.trading_date b) es.
Proof.
  intros Ho Hu Hl. unfold open_stream in Ho. cbv zeta in Ho. set (path := _ ++ [Hex.hex (Plan.cache_identity b)]) in Ho.
  apply (gives_bind (open_bound _ _)) in Ho as (r & Hr & Ho); [|apply quiet_open_bound]. apply gives_bind in Ho as (u & Hb%gives_check & [= -> <-]%gives_ret); [|done].
  apply orb_false_iff in Hb as [[[B1%bool_decide_eq_false%dec_stable B2%negb_false_iff%Z.eqb_eq]%orb_false_iff B3%bool_decide_eq_false%dec_stable]%orb_false_iff B4%negb_false_iff%Z.eqb_eq].
  assert (Hfile : file reader = path ++ [EVENTS]).
  { unfold open_bound, open_inner in Hr. do 4 (apply gives_bind in Hr as (? & _ & Hr); [|done]). cbv zeta in Hr. apply gives_bind in Hr as (? & _ & Hr); [|done].
    apply gives_bind in Hr as (? & _ & Hr); [|apply quiet_read_exact]. apply gives_bind in Hr as (? & _ & Hr); [|done].
    do 2 (apply gives_bind in Hr as (? & _ & Hr); [|apply quiet_read_exact]). by apply gives_bind in Hr as (? & _ & <-%gives_ret). }
  rewrite Hfile, parent_snoc in *.
  assert (Hload : gives (load_cache n path (Hex.hex (Plan.source_revision_identity b))) d (Some (reader_descriptor reader, l))).
  { apply gives_bind; [apply quiet_open_bound|]. exists reader. split; [exact Hr|]. apply gives_bind; [apply quiet_drain|]. exists (Some l). split; [exact Hl|by apply gives_ret]. }
  destruct (cached_loaded n path _ d _ _ Hu Hload) as (es & Hc & Hrev & _ & ->). split; [done|]. split; [done|]. split; [done|]. exists es. split; [done|]. split; [done|].
  destruct Hc as [_ _ (bs & _ & Hbs & _) _ _ _]. clear -Hbs B2 B3 B4. induction Hbs as [|x e bs es (_ & _ & Hv) _ IH]; constructor; [|exact IH].
  by eapply about_iff.
Qed.

(** ** The catalogue *)

Section catalogue.
Context (data : Path) (key : SourcePartitionKey) (revision : list Z) (expected : Provider.NormalizerMappingIdentity) (d : Disk).
Let root : Path := cache_partition_root data key.

Definition described (n : Name) (dsc : CacheDescriptor) : Prop :=
  ∃ b, entry d (root ++ [n; DESCRIPTOR]) = Some (File b) ∧ from_slice b = Some dsc.
(** A cache of the partition made of the revision. *)
Definition of_revision (dsc : CacheDescriptor) : Prop :=
  source_revision_identity dsc = revision ∧ partition_identity dsc = Some (Hex.hex (Partition.identity key)).
(** It is what the program would build now. *)
Definition up_to_date (dsc : CacheDescriptor) : Prop :=
  of_this_version dsc ∧ normalizer_mapping_name dsc = Provider.name expected ∧ normalizer_mapping_version dsc = Provider.version expected.
Definition bound (n : Name) (dsc : CacheDescriptor) : Prop :=
  instrument_market dsc = Market.discriminant (Instrument.market (Partition.instrument key)) ∧
  instrument_symbol dsc = Symbol.as_bytes (Instrument.symbol (Partition.instrument key)) ∧
  trading_date_epoch_days dsc = TradingDate.as_epoch_days (Partition.trading_date key) ∧ n = cache_identity dsc.
Definition candidate (n : Name) (dsc : CacheDescriptor) : Prop := described n dsc ∧ of_revision dsc.

Lemma described_functional n x y : described n x → described n y → x = y.
Proof. intros (b & Hb & Hx) (c & Hc & Hy). congruence. Qed.

Lemma quiet_inspect_entry r seen n : quiet (inspect_entry key revision expected r seen n).
Proof.
  unfold inspect_entry. apply quiet_bind; [by repeat split|]. intros []; [|done]. do 2 (apply quiet_bind; [done|]; intros ?).
  apply quiet_if; [|done]. apply quiet_if; [done|]. apply quiet_if; [done|]. by destruct seen.2.
Qed.
(** One directory is the current cache, or it is not and the current one stays. *)
Lemma gives_inspect_entry seen n seen' : gives (inspect_entry key revision expected root seen n) d seen' →
  (∃ dsc, candidate n dsc ∧ up_to_date dsc ∧ bound n dsc ∧ seen.2 = None ∧ seen' = (seen.1, Some (mk_entry (root ++ [n]) dsc))) ∨
  (∀ dsc, candidate n dsc → ¬ up_to_date dsc) ∧ seen'.2 = seen.2 ∧ (seen'.1 = true ↔ seen.1 = true ∨ ∃ dsc, candidate n dsc).
Proof.
  unfold inspect_entry. rewrite <-app_assoc. simpl app. intros (there & Hthere & H)%gives_bind; [|by repeat split].
  assert (Ethere : there = match entry d (root ++ [n; DESCRIPTOR]) with Some (File _) => true | _ => false end).
  { unfold gives, is_regular in Hthere. simpl in Hthere. destruct (entry d (root ++ [n; DESCRIPTOR])) as [[]|]; by injection Hthere as <-. }
  destruct (entry d (root ++ [n; DESCRIPTOR])) as [[|b]|] eqn:Eb; subst there; simpl in H.
  1,3: apply gives_ret in H as <-; right; split; [by intros dsc [(b & Hb & _) _]; rewrite Eb in Hb|]; split; [done|]; split; [auto|intros [?|(dsc & (b & Hb & _) & _)]; [done|]; by rewrite Eb in Hb].
  apply gives_bind in H as (c & Hc%gives_read & H); [|done]. rewrite Eb in Hc. injection Hc as <-. apply gives_bind in H as (dsc & Hdsc%gives_ok_or & H); [|done].
  assert (Hdesc : described n dsc) by by exists b.
  assert (Honly : ∀ x, described n x → x = dsc) by (intros x Hx; by eapply described_functional).
  destruct (_ && _) eqn:Erev.
  - apply andb_true_iff in Erev as [E1%bool_decide_eq_true E2%bool_decide_eq_true]. assert (Hcand : candidate n dsc) by by split.
    destruct (negb (is_ok _) || _ || _) eqn:Eup.
    + apply gives_ret in H as <-. right. split; [|split; [done|split; [by right; exists dsc|done]]]. intros x [Hx _] (Hv%validate_descriptor_iff & Hn & Hver). apply Honly in Hx as ->.
      rewrite Hv, Hn, Hver, Z.eqb_refl, bool_decide_eq_false_2 in Eup by by intros []. done.
    + apply orb_false_iff in Eup as [[Ev%negb_false_iff En%bool_decide_eq_false%dec_stable]%orb_false_iff Ever%negb_false_iff%Z.eqb_eq].
      assert (Hup : up_to_date dsc). { split; [|done]. apply validate_descriptor_iff. by destruct (validate_descriptor dsc) as [[]|]. }
      destruct (negb (_ =? _) || _ || _ || _) eqn:Eb'; [by apply gives_lift in H|]. destruct seen.2 eqn:Es; [by apply gives_lift in H|]. apply gives_ret in H as <-.
      left. exists dsc. split; [done|]. split; [done|]. split; [|done].
      apply orb_false_iff in Eb' as [[[M1%negb_false_iff%Z.eqb_eq M2%bool_decide_eq_false%dec_stable]%orb_false_iff M3%negb_false_iff%Z.eqb_eq]%orb_false_iff M4%bool_decide_eq_false%dec_stable].
      by repeat split.
  - apply gives_ret in H as <-. assert (Hno : ∀ x, ¬ candidate n x).
    { intros x [Hx [H1 H2]]. apply Honly in Hx as ->. by rewrite H1, H2, !bool_decide_eq_true_2 in Erev. }
    right. split; [by intros x Hx; destruct (Hno x)|]. split; [done|]. split; [auto|]. intros [?|[x Hx]]; [done|]. by destruct (Hno x).
Qed.

(** What is known once some directories were seen. *)
Record surveyed (ns : list Name) (seen : bool * option PartitionCacheEntry) : Prop := {
  surveyed_none : seen.2 = None → ∀ n dsc, n ∈ ns → candidate n dsc → ¬ up_to_date dsc;
  surveyed_current e : seen.2 = Some e → ∃ n dsc, candidate n dsc ∧ up_to_date dsc ∧ bound n dsc ∧ e = mk_entry (root ++ [n]) dsc ∧
    ∀ n' dsc', n' ∈ ns → candidate n' dsc' → up_to_date dsc' → n' = n;
  surveyed_stale : seen.1 = true ↔ ∃ n dsc, n ∈ ns ∧ candidate n dsc ∧ ¬ up_to_date dsc }.

Lemma surveyed_step ns seen n seen' : surveyed ns seen → gives (inspect_entry key revision expected root seen n) d seen' → surveyed (ns ++ [n]) seen'.
Proof.
  intros [Hn Hc Hs] H. assert (Hin : ∀ m, m ∈ ns ++ [n] ↔ m ∈ ns ∨ m = n) by (intros m; by rewrite elem_of_app, list_elem_of_singleton).
  apply gives_inspect_entry in H as [(dsc & Hcand & Hup & Hb & Hnone & ->)|(Hold & E2 & E1)].
  - assert (Honly : ∀ x, candidate n x → x = dsc) by (intros x [Hx _]; eapply described_functional; [exact Hx|apply Hcand]). constructor; simpl; [done| |].
    + intros e [= <-]. exists n, dsc. do 4 (split; [done|]). intros m x [Hm| ->]%Hin Hx Hux; [|done]. by destruct (Hn Hnone m x Hm Hx).
    + rewrite Hs. split; [intros (m & x & Hm & Hx); exists m, x; split; [apply Hin; by left|done]|].
      intros (m & x & [Hm| ->]%Hin & Hx & Hux); [by exists m, x|]. by rewrite (Honly x Hx) in Hux.
  - constructor; rewrite ?E2; [| |rewrite E1, Hs].
    + intros E m x [Hm| ->]%Hin Hx; [by eapply Hn|by apply Hold].
    + intros e He. destruct (Hc e He) as (m & x & H1 & H2 & H3 & H4 & H5). exists m, x. do 4 (split; [done|]). intros m' x' [Hm'| ->]%Hin Hx' Hu'; [by eapply H5|].
      by destruct (Hold x' Hx').
    + split.
      * intros [(m & x & Hm & Hx)|(x & Hx)]; [exists m, x; split; [apply Hin; by left|done]|]. exists n, x. split; [apply Hin; by right|]. split; [done|by apply Hold].
      * intros (m & x & [Hm| ->]%Hin & Hx); [left; by exists m, x|right]. exists x. apply Hx.
Qed.
Lemma surveyed_all l ns seen seen' : surveyed ns seen → gives (fold_io (inspect_entry key revision expected root) seen l) d seen' → surveyed (ns ++ l) seen'.
Proof.
  revert ns seen. induction l as [|n l IH]; intros ns seen Hs; cbn [fold_io]; [intros <-%gives_ret; by rewrite app_nil_r|].
  intros (s1 & H1 & H)%gives_bind.
  - apply (surveyed_step _ _ _ _ Hs) in H1. apply (IH _ _ H1) in H. by rewrite <-app_assoc in H.
  - apply quiet_inspect_entry.
Qed.
End catalogue.

(** C20: The catalogue of a partition answers with the only cache of the
    revision that the program would still build, bound to the partition and
    in the directory of its identity; it answers that the cache is stale
    when all caches of the revision are out of date, and that it is missing
    when there are none. *)
Theorem cache_catalogue data key revision expected d r : tree d → run (inspect_cache data key revision expected) d = (Ok r, d) →
  let candidate := candidate data key revision d in
  match r with
  | Current e => ∃ n dsc, candidate n dsc ∧ up_to_date expected dsc ∧ bound key n dsc ∧ e = mk_entry (cache_partition_root data key ++ [n]) dsc ∧
      ∀ n' dsc', candidate n' dsc' → up_to_date expected dsc' → n' = n
  | Stale => (∃ n dsc, candidate n dsc) ∧ ∀ n dsc, candidate n dsc → ¬ up_to_date expected dsc
  | MissingCache => ∀ n dsc, ¬ candidate n dsc
  end.
Proof.
  intros Ht Hr. set (root := cache_partition_root data key) in *. set (cand := candidate data key revision d). intros candidate.
  assert (Hthere : ∀ n dsc, cand n dsc → n ∈ names d root).
  { intros n dsc [(b & Hb & _) _]. fold root in Hb. apply elem_of_names. change [n; DESCRIPTOR] with ([n] ++ [DESCRIPTOR]) in Hb. rewrite app_assoc in Hb. rewrite (Ht (root ++ [n]) DESCRIPTOR); [done|by rewrite Hb]. }
  unfold inspect_cache in Hr. fold root in Hr. apply (gives_bind (is_dir root)) in Hr as (there & Hthere' & Hr); [|by repeat split].
  assert (Ethere : there = match entry d root with Some Dir => true | _ => false end).
  { unfold gives, is_dir in Hthere'. simpl in Hthere'. destruct (entry d root) as [[]|]; by injection Hthere' as <-. }
  destruct there; simpl in Hr.
  - apply (gives_bind (sys _ _)) in Hr as (ns & Hns & Hr); [|done]. assert (Ens : ns = names d root).
    { unfold gives in Hns. simpl in Hns. destruct (entry d root) as [[]|]; cbn in Hns; congruence. }
    subst ns. apply (gives_bind (fold_io _ _ _)) in Hr as (seen & Hseen & <-%gives_ret).
    + apply (surveyed_all data key revision expected d _ []) in Hseen; [|by split; simpl; [intros _ n dsc []%not_elem_of_nil|done|split; [done|intros (n & dsc & []%not_elem_of_nil & _)]]].
      simpl in Hseen. destruct Hseen as [Hn Hc Hs]. assert (Hall : ∀ n dsc, cand n dsc → n ∈ sort_on id (names d root)) by (intros n dsc Hx; apply elem_of_sort_on; by eapply Hthere).
      destruct seen as [stale [e|]]; simpl in *.
      * destruct (Hc e eq_refl) as (n & dsc & H1 & H2 & H3 & H4 & H5). assert (Hcur : ∃ n dsc, cand n dsc ∧ up_to_date expected dsc ∧ bound key n dsc ∧
          e = mk_entry (root ++ [n]) dsc ∧ ∀ n' dsc', cand n' dsc' → up_to_date expected dsc' → n' = n); [|by destruct stale].
        exists n, dsc. do 4 (split; [done|]). intros n' dsc' Hx. apply (H5 n' dsc'); [by eapply Hall|done].
      * assert (Hno : ∀ n dsc, cand n dsc → ¬ up_to_date expected dsc) by (intros n dsc Hx; apply (Hn eq_refl n dsc); [by eapply Hall|done]).
        destruct stale; simpl.
        -- split; [|done]. destruct (proj1 Hs eq_refl) as (n & dsc & _ & Hx & _). by exists n, dsc.
        -- intros n dsc Hx. assert (false = true); [|done]. apply Hs. exists n, dsc. split; [by eapply Hall|]. split; [done|by apply (Hno n)].
    + apply quiet_fold. intros seen n. apply quiet_inspect_entry.
  - apply gives_ret in Hr as <-. intros n dsc Hx. apply Hthere, elem_of_names in Hx. apply Ht in Hx. by rewrite Hx in Ethere.
Qed.

End reading.

(** ** The revision a cache is made of *)

Lemma decoded_ascii u n text l : length text = (2 * n)%nat → Hex.decode_pairs u text = Some l → Forall (λ b, 0 ≤ b ≤ 127) text.
Proof.
  revert text l. induction n as [|n IH]; intros [|x [|y text]] l Hlen; simpl in *; try lia; [by constructor|].
  destruct (Hex.decode_nibble u x) as [a|] eqn:Ea; [|done]. destruct (Hex.decode_nibble u y) as [b|] eqn:Eb; [|done]. simpl.
  destruct (Hex.decode_pairs u text) as [rest|] eqn:Er; [|done]. intros _.
  assert (Hnib : ∀ v w, Hex.decode_nibble u v = Some w → 0 ≤ v ≤ 127) by (unfold Hex.decode_nibble, in_range; intros v w; repeat case_match; try done; destruct u; simpl in *; lia).
  constructor; [by eapply Hnib|]. constructor; [by eapply Hnib|]. eapply IH; [|done]. lia.
Qed.
Lemma decoded_str u text l : Hex.decode_hex_32 u text = Some l → is_str text.
Proof.
  unfold Hex.decode_hex_32. destruct (zlen text =? 64) eqn:E; [|done]. apply Z.eqb_eq in E. intros H. apply ascii_str.
  eapply (decoded_ascii u 32); [unfold zlen in E; lia|exact H].
Qed.

Section verifying.
Context {J : Json} {SM : Serde SourceManifest} {ZS : Zstd} {SH : Sha256}.
(** A report names its revision by a text. *)
Lemma wp_verify_current r C d : C d →
  wp (verify_current r) C (λ rep d', d' = d ∧ is_str (Storage.revision_identity (report_manifest rep))) d.
Proof.
  intros HC. unfold verify_current. apply wp_do, wp_quiet; [apply quiet_read_to_string|done|]. intros text. cbv zeta.
  apply wp_do, wp_try; [done|]. intros rev Hrev. destruct (Hex.decode_hex_32 true (trim text)) as [rev'|] eqn:Et; [|done]. apply decoded_str in Et.
  apply wp_do, wp_quiet; [auto with osmium|done|]. intros bytes. apply wp_do, wp_try; [done|]. intros m _. apply wp_do. unfold verify_manifest at 1.
  apply wp_do, wp_try; [done|]. intros u Hu. destruct (_ || _) eqn:E; [done|]. apply orb_false_iff in E as [[_ E]%orb_false_iff _]. apply bool_decide_eq_false, dec_stable in E.
  apply wp_quiet; [|done|].
  - apply quiet_bind; [apply quiet_lift|]. intros _. apply quiet_bind; [apply quiet_fold, quiet_verify_page|]. intros n. apply quiet_bind; [apply quiet_lift|]. intros _.
    apply quiet_bind; [apply quiet_verify_object|]. intros _. repeat (apply quiet_bind; [apply quiet_lift|]; intros ?). apply quiet_lift.
  - intros _. apply wp_done; [done|]. simpl. by rewrite E.
Qed.
End verifying.

(** ** Writing *)

Record descriptor_wf (d : CacheDescriptor) : Prop := {
  wf_versions : Forall (λ v, 0 ≤ v ≤ u16_max) [cache_format_version d; market_types_version d; event_schema_version d; canonical_event_version d;
                                              ordering_rule_version d; normalizer_mapping_version d];
  wf_numbers : is_u8 (instrument_market d) ∧ is_i32 (trading_date_epoch_days d) ∧ is_u64 (event_count d);
  wf_times : ∀ t, first_match_time_micros d = Some t ∨ last_match_time_micros d = Some t → is_i64 t;
  wf_partition : ∀ t, partition_identity d = Some t → is_str t;
  wf_texts : Forall is_str [cache_identity d; source_revision_identity d; instrument_symbol d; payload_sha256 d; normalizer_mapping_name d] }.

(** The records of the events in the order they are written. *)
Definition encoded (bs : list (list Z)) (es : list DomainEvent) : Prop := Forall2 (λ b e, record_fits b ∧ to_canonical_bytes e = Ok b) bs es.

Section writing.
Context (dir : Path) (d0 : Disk).
(** Only entries below the directory change. *)
Let C : Disk → Prop := changes (below dir) d0.

Lemma within_insert d n e : C d → C (<[dir ++ [n] := e]> d).
Proof. intros Hd. eapply changes_trans; [exact Hd|]. apply changes_insert, below_app. Qed.
Lemma entry_insert_name (d : Disk) n e : entry (<[dir ++ [n] := e]> d) (dir ++ [n]) = Some e.
Proof. apply entry_insert. by destruct dir. Qed.
(** A file of the directory holds the bytes, and all other entries are as they were. *)
Definition rewritten (n : Name) (d d' : Disk) (c : list Z) : Prop :=
  C d' ∧ entry d' (dir ++ [n]) = Some (File c) ∧ ∀ p, p ≠ dir ++ [n] → entry d' p = entry d p.
Lemma rewritten_insert n d d' a c : rewritten n d d' a → rewritten n d (<[dir ++ [n] := File c]> d') c.
Proof.
  intros (HC & _ & Hp). split; [by apply within_insert|]. split; [apply entry_insert_name|]. intros p Hne. rewrite entry_insert_ne by congruence. auto.
Qed.
Lemma wp_append {E} (f : IoError → E) n a b (Q : () → Disk → Prop) d d1 : rewritten n d d1 a →
  (∀ d2, rewritten n d d2 (a ++ b) → Q () d2) → wp (sys f (Write (dir ++ [n]) b)) C Q d1.
Proof.
  intros Hr HQ. eapply wp_write; [apply Hr|apply Hr|intros; by apply within_insert, Hr|]. by apply HQ, (rewritten_insert _ _ _ a).
Qed.
Lemma wp_write_events n a hashed es d d1 : rewritten n d d1 a →
  wp (write_events (dir ++ [n]) hashed es) C (λ h d', ∃ bs, encoded bs es ∧ h = hashed ++ payload bs ∧ rewritten n d d' (a ++ payload bs)) d1.
Proof.
  revert a hashed d1. induction es as [|e es IH]; intros a hashed d1 Hr; cbn [write_events].
  - apply wp_done; [apply Hr|]. exists []. rewrite !app_nil_r. by split; [constructor|].
  - pose proof (proj1 Hr) as HC. apply wp_do, wp_try; [done|]. intros b Hb%map_err_Ok. apply wp_do, wp_try; [done|]. intros len Hlen.
    assert (len = zlen b) as ->. { unfold to_u32, checked in Hlen. destruct (in_range _ _ _); [|done]. by injection Hlen. }
    apply wp_do, wp_try; [done|]. intros u Hfit. destruct (_ <? _) eqn:E; [done|]. apply Z.ltb_ge in E.
    apply wp_do. eapply wp_append; [exact Hr|]. intros d2 H2. apply wp_do. eapply wp_append; [exact H2|]. intros d3 H3.
    eapply wp_conseq; [apply IH, H3|done|]. clear d2 d3 H2 H3. intros h d2 _ (bs & Hbs & -> & H2). exists (b :: bs). split; [by constructor|].
    change (payload (b :: bs)) with (record_bytes b ++ payload bs). unfold record_bytes. by rewrite <-!app_assoc in *.
Qed.
(** A temporary file is written and given its name. *)
Lemma renamed (t n : Name) d d1 c : t ≠ n → rewritten t d d1 c →
  let d2 := <[dir ++ [n] := File c]> (delete (dir ++ [t]) d1) in
  C d2 ∧ entry d2 (dir ++ [n]) = Some (File c) ∧ ∀ p, p ≠ dir ++ [t] → p ≠ dir ++ [n] → entry d2 p = entry d p.
Proof.
  intros Hne (HC & He & Hp) d2. split; [|split; [apply entry_insert_name|]].
  - eapply changes_trans; [exact HC|]. eapply changes_trans; [apply changes_delete; apply (below_app dir [t])|apply changes_insert, below_app].
  - intros p H1 H2. unfold d2. rewrite entry_insert_ne, entry_delete_ne by congruence. auto.
Qed.
Lemma wp_rename_within {E} (f : IoError → E) (t n : Name) c (Q : () → Disk → Prop) d d1 : t ≠ n → rewritten t d d1 c →
  (∀ d2, C d2 → entry d2 (dir ++ [n]) = Some (File c) → (∀ p, p ≠ dir ++ [t] → p ≠ dir ++ [n] → entry d2 p = entry d p) → Q () d2) →
  wp (sys f (Rename (dir ++ [t]) (dir ++ [n]))) C Q d1.
Proof.
  intros Hne Hr HQ. pose proof (renamed t n d d1 c Hne Hr) as (H1 & H2 & H3). eapply wp_rename_file; [apply Hr|intros E'; by apply app_inj_tail in E' as [_ E']|apply Hr|].
  split; [done|]. auto.
Qed.
Definition EVENTS_TMP : Name := bytes_of "events.bin.tmp".
Definition DESCRIPTOR_TMP : Name := bytes_of "descriptor.tmp".
Lemma created {E} (f : IoError → E) (t : Name) (Q : () → Disk → Prop) d : C d → (∀ d1, rewritten t d d1 [] → Q () d1) → wp (sys f (CreateNew (dir ++ [t]))) C Q d.
Proof.
  intros HC HQ. apply wp_create_new; [done|]. intros _ _. split; [by apply within_insert|]. apply HQ. split; [by apply within_insert|]. split; [apply entry_insert_name|].
  intros p Hp. by rewrite entry_insert_ne.
Qed.

Lemma wp_write_payload es d : C d →
  wp (write_payload dir es) C (λ h d', C d' ∧ ∃ bs, encoded bs es ∧ h = payload bs ∧ entry d' (dir ++ [EVENTS]) = Some (File (header (zlen es) ++ payload bs)) ∧
    entry d' dir = entry d dir) d.
Proof.
  intros HC. unfold write_payload. cbv zeta. fold EVENTS_TMP. apply wp_do, created; [done|]. intros d1 Hr.
  do 3 (apply wp_do; eapply wp_append; [exact Hr|]; clear d1 Hr; intros d1 Hr). apply wp_do. eapply wp_conseq; [by apply wp_write_events|done|].
  intros h d2 _ (bs & Hbs & -> & H2). clear d1 Hr. apply wp_do, wp_sync; [apply H2|]. apply wp_do. eapply wp_rename_within; [done|exact H2|].
  intros d3 HC3 He Hp. apply wp_done; [done|]. split; [done|]. exists bs. split; [done|]. split; [done|]. split.
  - rewrite He. unfold header. by rewrite <-!app_assoc.
  - apply Hp; apply snoc_ne.
Qed.
Lemma wp_write_descriptor bytes d : C d →
  wp (write_atomic (dir ++ [DESCRIPTOR]) bytes) C (λ _ d', C d' ∧ entry d' (dir ++ [DESCRIPTOR]) = Some (File bytes) ∧
    entry d' (dir ++ [EVENTS]) = entry d (dir ++ [EVENTS]) ∧ entry d' dir = entry d dir) d.
Proof.
  intros HC. unfold write_atomic. cbv zeta. rewrite with_extension_snoc. change ((stem_extension DESCRIPTOR).1 ++ 46 :: bytes_of "tmp") with DESCRIPTOR_TMP.
  apply wp_do, created; [done|]. intros d1 Hr. apply wp_do. eapply wp_append; [exact Hr|]. clear d1 Hr. intros d1 Hr. apply wp_do, wp_sync; [apply Hr|].
  eapply wp_rename_within; [done|exact Hr|]. intros d2 HC2 He Hp. split; [done|]. split; [done|]. split; [|apply Hp; apply snoc_ne].
  apply Hp; intros E; by apply app_inj_tail in E as [_ E].
Qed.
End writing.

(** ** A cache that was written *)

Lemma sorted_in_order {B : Blake3} es previous : (∀ e, e ∈ es → ∃ k, for_event e = Ok k) → StronglySorted OrderingLaws.event_le es →
  (∀ p e k, previous = Some p → list.head es = Some e → for_event e = Ok k → ord_le p k) → in_order previous es.
Proof.
  intros Hk Hs. revert previous. induction Hs as [|e es Hs IH He]; intros previous Hp; [done|]. destruct (Hk e) as [k Hek]; [by left|].
  exists k. split; [done|]. split; [intros p Hpp; by eapply Hp|]. apply IH; [intros e' He'; apply Hk; by right|].
  intros p e' k' [= <-] Hh Hek'. rewrite list.Forall_forall in He. destruct (He e') as (x & y & Hx & Hy & Hxy); [|congruence].
  destruct es; [done|]. injection Hh as ->. by left.
Qed.

Section described.
Context {SM : Serde SourceManifest} {SC : Serde CacheDescriptor} {SCL : SerdeLaws CacheDescriptor descriptor_wf}.
Context {SH : Sha256} {SHL : Sha256Laws} {B : Blake3} {BL : Blake3Laws}.

(** What a cache is made for. *)
Record buildable (i : Instrument.InstrumentId) (dt : TradingDate.TradingDate) (partition : option (list Z)) (mapping : Provider.NormalizerMappingIdentity) : Prop := {
  buildable_instrument : Instrument.wf i; buildable_date : TradingDate.wf dt; buildable_partition : ∀ t, partition = Some t → is_str t;
  buildable_mapping : is_str (Provider.name mapping) ∧ 0 ≤ Provider.version mapping ≤ u16_max }.

Lemma describe_wf source i dt partition mapping es h : buildable i dt partition mapping → is_str (Storage.revision_identity (report_manifest source)) →
  Forall OrderingLaws.event_fits es → zlen es ≤ isize_max → descriptor_wf (describe source i dt partition mapping es h).
Proof.
  intros [[_ Hi] Hd Hp [Hm Hv]] Hs Hes Hlen. constructor; simpl.
  - repeat constructor; try done; apply Hv.
  - split; [apply Market.discriminant_u8|]. split; [unfold TradingDate.wf, TradingDate.MIN_EPOCH_DAYS, TradingDate.MAX_EPOCH_DAYS in Hd; unfold is_i32, i32_max; lia|].
    unfold is_u64, isize_max, i64_max, u64_max, zlen in *. lia.
  - assert (Ht : ∀ e t, e ∈ es → Some (micros e) = Some t → is_i64 t) by (intros e t He [= <-]; rewrite list.Forall_forall in Hes; apply (Hes e He)).
    intros t [Ht'|Ht'].
    + destruct es as [|e es]; [done|]. eapply (Ht e); [by left|done].
    + destruct (list.last es) as [e|] eqn:E; [|done]. eapply (Ht e); [|done]. by apply last_Some_elem_of.
  - done.
  - repeat constructor; try done; apply hex_str; [apply blake3_digest|apply sha256_digest].
Qed.

Lemma covers_Forall i dt es : covers i dt es = true → Forall (λ e, Event.instrument e = i ∧ Event.trading_date e = dt) es.
Proof.
  unfold covers. intros H. apply list.Forall_forall. intros e He. destruct (decide (Event.instrument e = i ∧ Event.trading_date e = dt)) as [|Hn]; [done|].
  exfalso. apply negb_true_iff in H. assert (Hx : existsb (λ e, bool_decide (Event.instrument e ≠ i) || bool_decide (Event.trading_date e ≠ dt)) es = true); [|congruence].
  apply existsb_exists. exists e. split; [by apply list_elem_of_In|]. apply orb_true_iff. rewrite !bool_decide_eq_true. destruct (decide (Event.instrument e = i)), (decide (Event.trading_date e = dt)); auto; tauto.
Qed.

Lemma describe_cached d path source i dt partition mapping events out bs bytes : let dsc := describe source i dt partition mapping out (payload bs) in
  descriptor_wf dsc → Forall OrderingLaws.event_fits events → order_events events = Ok out → covers i dt out = true → encoded bs out →
  to_vec_pretty dsc = Some bytes → entry d (path ++ [DESCRIPTOR]) = Some (File bytes) →
  entry d (path ++ [EVENTS]) = Some (File (header (zlen out) ++ payload bs)) → cached d path dsc out.
Proof.
  intros dsc Hwf Hfit Hord Hcov%covers_Forall Henc Hser Hd He. destruct (OrderingLaws.order_events_unique_sorted _ _ Hfit Hord) as (Hperm & Hsorted & _).
  destruct (OrderingLaws.order_events_keys _ _ Hfit Hord) as [Hkeys _]. assert (Hout : Forall OrderingLaws.event_fits out) by by rewrite Hperm.
  constructor.
  - exists bytes. split; [done|]. by eapply serde_round_trip.
  - by repeat split.
  - exists bs. split; [done|]. split; [|done]. assert (Hval : ∀ e, Event.instrument e = i → Event.trading_date e = dt → about dsc e).
    { intros e Hi Hdt. unfold about, dsc. simpl. by rewrite Hi, Hdt. }
    clearbody dsc. clear -Henc Hcov Hout Hval. revert Hcov Hout. induction Henc as [|b e bs' es' [Hb1 Hb2] _ IH]; intros Hcov Hout; constructor.
    + apply list.Forall_cons in Hcov as [[Hi Hdt] _], Hout as [[Hw Hl] _]. split; [done|]. split; [apply EventCodec.frame_decode_encode; auto|auto].
    + apply list.Forall_cons in Hcov as [_ Hcov], Hout as [_ Hout]. auto.
  - split; [done|]. apply Hwf.
  - apply sorted_in_order; [|done|done]. intros e Hin. destruct (Hkeys e) as (k & c & Hk); [by rewrite <-Hperm|]. exists k. unfold for_event. by rewrite Hk.
  - done.
Qed.

(** ** Publication *)

Section publishing.
Context (staging_root cache_root : Path).
Let attempt : Path := staging_root ++ [BUILD].
(** The attempt is apart from all caches but, perhaps, the one of its name. *)
Hypothesis apart : ∀ n, cache_root ++ [n] ≠ attempt → disjoint attempt (cache_root ++ [n]).

Definition others_kept (d d' : Disk) : Prop := ∀ n x, cache_root ++ [n] ≠ attempt → entry d' (cache_root ++ n :: x) = entry d (cache_root ++ n :: x).
(** A cache is there as a whole or not at all, and none that was there changes. *)
Definition whole_caches (es : list DomainEvent) (d d' : Disk) : Prop := ∀ n, cache_root ++ [n] ≠ attempt →
  (∀ x, entry d' (cache_root ++ n :: x) = entry d (cache_root ++ n :: x)) ∨
  entry d (cache_root ++ [n]) = None ∧ ∃ dsc, n = cache_identity dsc ∧ cached d' (cache_root ++ [n]) dsc es.
Lemma others_whole es d d' : others_kept d d' → whole_caches es d d'.
Proof. intros H n Hn. left. intros x. by apply H. Qed.
Lemma below_cache n x : below (cache_root ++ [n]) (cache_root ++ n :: x).
Proof. exists x. by rewrite <-app_assoc. Qed.
Lemma attempt_others d d' : changes (below attempt) d d' → others_kept d d'.
Proof.
  intros H n x Hn. destruct (H (cache_root ++ n :: x)) as [E|(_ & _ & q & Hq & Hp)]; [|done|exfalso].
  - intros Hb. by eapply (below_disjoint attempt (cache_root ++ [n])); [by apply apart|exact Hb|apply below_cache|].
  - eapply (below_disjoint attempt (cache_root ++ [n])); [by apply apart|exact Hq| |done]. eapply below_trans; [apply below_cache|exact Hp].
Qed.
Lemma root_others d d' q r : cache_root = q ++ r → others_kept d d' → others_kept d (make_dirs d' q).
Proof.
  intros Hq H n x Hn. rewrite make_dirs_ne; [by apply H|]. intros [z Hz]. apply (f_equal length) in Hz. rewrite Hq, !length_app in Hz. simpl in Hz. lia.
Qed.

Lemma published_whole n dsc es d d1 : others_kept d d1 → cache_root ++ [n] ≠ attempt → entry d1 (cache_root ++ [n]) = None → n = cache_identity dsc →
  cached d1 attempt dsc es →
  whole_caches es d (move attempt (cache_root ++ [n]) d1) ∧ cached (move attempt (cache_root ++ [n]) d1) (cache_root ++ [n]) dsc es.
Proof.
  intros Hk Hne Hnone En [(bytes & Hb & Hs) H2 (bs & He & Hbs) H4 H5 H6]. set (d2 := move attempt (cache_root ++ [n]) d1).
  assert (Hmoved : ∀ m e, entry d1 (attempt ++ [m]) = Some e → entry d2 ((cache_root ++ [n]) ++ [m]) = Some e).
  { intros m e Hm. assert (Hx : ∀ (p : Path) dd, entry dd (p ++ [m]) = dd !! (p ++ [m])) by by intros [].
    rewrite Hx in *. by apply move_below. }
  assert (Hc : cached d2 (cache_root ++ [n]) dsc es).
  { constructor; [|done| |done..]; [exists bytes; split; [by apply Hmoved|done]|]. exists bs. split; [by apply Hmoved|done]. }
  split; [|done]. intros m Hm. destruct (decide (m = n)) as [->|Hmn].
  - right. split; [|by exists dsc]. by rewrite <-(Hk n []).
  - left. intros x. rewrite <-(Hk m x Hm). assert (Hx : ∀ dd, entry dd (cache_root ++ m :: x) = dd !! (cache_root ++ m :: x)) by (by destruct cache_root).
    rewrite !Hx. apply move_elsewhere.
    + intros Hb'. by eapply (below_disjoint attempt (cache_root ++ [m])); [by apply apart|exact Hb'|apply below_cache|].
    + intros [z Hz]. rewrite <-app_assoc in Hz. apply app_inv_head in Hz. injection Hz as E _. congruence.
Qed.

Lemma wp_publish_events source i dt partition mapping events out d : buildable i dt partition mapping →
  is_str (Storage.revision_identity (report_manifest source)) → Forall OrderingLaws.event_fits events → order_events events = Ok out →
  zlen out ≤ isize_max → covers i dt out = true →
  wp (publish_events source staging_root cache_root i dt partition mapping out) (whole_caches out d)
    (λ p d', path p = cache_root ++ [cache_identity (descriptor p)] ∧ cached d' (path p) (descriptor p) out ∧
       source_revision_identity (descriptor p) = Storage.revision_identity (report_manifest source) ∧ partition_identity (descriptor p) = partition) d.
Proof.
  intros Hbld Hstr Hfit Hord Hlen Hcov. unfold publish_events. fold attempt. cbv zeta.
  assert (HC : ∀ d', changes (below attempt) d d' → whole_caches out d d') by (intros d' H; by apply others_whole, attempt_others).
  assert (Hd : whole_caches out d d) by apply HC, changes_refl.
  apply wp_do, wp_exists; [done|]. apply wp_do, wp_try; [done|]. intros _ _.
  assert (Hmk : ∀ q r, attempt = q ++ r → changes (below attempt) d (make_dirs d q)).
  { intros q r Hq. apply (changes_make_dirs _ _ _ attempt); [apply below_refl|by exists r]. }
  apply wp_do, wp_create_dirs; [intros q r Hq; eapply HC, Hmk, Hq|done|]. intros Hdir.
  apply wp_do. eapply wp_conseq; [apply (wp_write_payload attempt d out); apply (Hmk attempt []); by rewrite app_nil_r|by intros d'; apply HC|].
  intros h d1 _ (HC1 & bs & Henc & -> & He1 & Hdir1). rewrite Hdir in Hdir1. apply wp_do, wp_try; [by apply HC|]. intros bytes Hbytes.
  set (dsc := describe source i dt partition mapping out (payload bs)) in *. assert (Hser : to_vec_pretty dsc = Some bytes) by (destruct (to_vec_pretty dsc); by simplify_eq/=).
  apply wp_do. eapply wp_conseq; [by apply wp_write_descriptor|by intros d'; apply HC|]. intros _ d2 _ (HC2 & Hd2 & He2 & Hdir2). rewrite He1 in He2. rewrite Hdir1 in Hdir2.
  apply wp_do, wp_sync; [by apply HC|]. assert (Hout : Forall OrderingLaws.event_fits out) by by rewrite (proj1 (OrderingLaws.order_events_unique_sorted _ _ Hfit Hord)).
  assert (Hk : ∀ q r, cache_root = q ++ r → others_kept d (make_dirs d2 q)) by (intros q r Hq; eapply root_others; [exact Hq|by apply attempt_others]).
  apply wp_do, wp_create_dirs; [intros q r Hq; by eapply others_whole, Hk|by apply HC|]. intros _. set (d3 := make_dirs d2 cache_root).
  assert (Hk3 : others_kept d d3) by (apply (Hk _ []); by rewrite app_nil_r). assert (Hkeep : ∀ p e, entry d2 p = Some e → entry d3 p = Some e) by (intros; by apply make_dirs_keeps).
  assert (Hc3 : cached d3 attempt dsc out).
  { eapply describe_cached; [by apply describe_wf|exact Hfit|exact Hord|exact Hcov|exact Henc|exact Hser|by apply Hkeep|by apply Hkeep]. }
  pose proof (others_whole out d d3 Hk3) as HC3. apply wp_do, wp_exists; [done|]. apply wp_do, wp_try; [done|]. intros u Hu.
  destruct (bool_decide _) eqn:Hex; [done|]. clear Hu u. apply bool_decide_eq_false in Hex. set (pub := cache_root ++ [cache_identity dsc]) in *.
  assert (Hnone : entry d3 pub = None) by (destruct (entry d3 pub) eqn:E; [destruct Hex; by eexists|done]).
  assert (Hne : pub ≠ attempt) by (intros E; rewrite E, (Hkeep _ _ Hdir2) in Hnone; done).
  destruct (published_whole (cache_identity dsc) dsc out d d3 Hk3 Hne Hnone eq_refl Hc3) as [Hw Hcp].
  apply wp_do, wp_rename_dir; [by apply Hkeep|by apply not_eq_sym|done|]. intros _ _. split; [done|].
  apply wp_do, wp_sync; [done|]. by apply wp_done.
Qed.
End publishing.

Lemma partition_apart root n : root ++ [n] ≠ root ++ [BUILD] → disjoint (root ++ [BUILD]) (root ++ [n]).
Proof.
  intros Hne. split; intros H%prefix_app_inv; apply prefix_cons_inv_1 in H; congruence.
Qed.

Context {J : Json} {ZS : Zstd}.

(** C18: A cache of a partition is published as a whole or not at all, however the
    builder is interrupted, and no cache that was there changes. When the
    builder returns, reading the cache it names under the verified revision
    gives the events in replay order and ends without an error. *)
Theorem cache_round_trip data key mapping events d o d' : proper_key key → is_str (Provider.name mapping) → 0 ≤ Provider.version mapping ≤ u16_max →
  Forall OrderingLaws.event_fits events → zlen events ≤ isize_max →
  runs (build_external_partition data key mapping events) d o d' → let root := cache_partition_root data key in
  (∀ n, n ≠ BUILD → (∀ x, entry d' (root ++ n :: x) = entry d (root ++ n :: x)) ∨
     entry d (root ++ [n]) = None ∧ ∃ dsc out, order_events events = Ok out ∧ n = cache_identity dsc ∧ cached d' (root ++ [n]) dsc out) ∧
  ∀ p, o = Some (Ok p) → ∃ out, order_events events = Ok out ∧ path p = root ++ [cache_identity (descriptor p)] ∧
    partition_identity (descriptor p) = Some (Hex.hex (Partition.identity key)) ∧
    run (load_cache (S (length out)) (path p) (source_revision_identity (descriptor p))) d' = (Ok (Some (descriptor p, numbered 0 out)), d').
Proof.
  intros Hkey Hname Hver Hfit Hlen Hruns root. revert o d' Hruns.
  set (kept := λ d', ∀ n, n ≠ BUILD → (∀ x, entry d' (root ++ n :: x) = entry d (root ++ n :: x)) ∨
     entry d (root ++ [n]) = None ∧ ∃ dsc out, order_events events = Ok out ∧ n = cache_identity dsc ∧ cached d' (root ++ [n]) dsc out).
  assert (Hd : kept d) by (intros n _; by left).
  cut (wp (build_external_partition data key mapping events) kept (λ p d', ∃ out, order_events events = Ok out ∧ path p = root ++ [cache_identity (descriptor p)] ∧
    partition_identity (descriptor p) = Some (Hex.hex (Partition.identity key)) ∧ cached d' (path p) (descriptor p) out) d).
  { intros Hwp o d' Hruns. destruct (Hwp o d' Hruns) as [HC HQ]. split; [exact HC|]. intros p Hp. destruct (HQ p Hp) as (out & H1 & H2 & H3 & H4).
    exists out. do 3 (split; [done|]). apply (load_cached _ _ _ _ _ H4). lia. }
  unfold build_external_partition. cbv zeta. fold root. apply wp_do, wp_map_err. eapply wp_conseq; [by apply (wp_verify_current _ kept)|done|]. intros source d1 _ [-> Hstr].
  apply wp_do, wp_try; [done|]. intros out Hord%map_err_Ok. apply wp_do, wp_try; [done|]. intros u Hcov.
  destruct (covers _ _ _) eqn:Ec; [|done]. clear Hcov u. pose proof (OrderingLaws.order_events_unique_sorted _ _ Hfit Hord) as (Hperm & _).
  assert (Hbld : buildable (Partition.instrument key) (Partition.trading_date key) (Some (Hex.hex (Partition.identity key))) mapping).
  { pose proof Hkey as [(? & ? & _ & Hdate & _) Hi _ [_ Hid]]. constructor; [done|done| |done]. intros t [= <-]. by apply hex_str. }
  eapply wp_conseq; [eapply (wp_publish_events root root (partition_apart root)); [exact Hbld|exact Hstr|exact Hfit|exact Hord| |exact Ec]; unfold zlen in *; by rewrite Hperm| |].
  - intros d' Hw n Hn. destruct (Hw n) as [Hs|(Hnone & dsc & En & Hc)]; [intros E; apply app_inv_head in E; congruence|by left|right]. split; [done|]. by exists dsc, out.
  - intros p d' _ (Hp & Hc & Hrev & Hpi). by exists out.
Qed.

(** What an interrupted builder leaves in the cache root stops every later one. *)
Lemma interrupted_build_blocks data key mapping events d o d' : entry d (cache_partition_root data key ++ [BUILD]) ≠ None →
  runs (build_external_partition data key mapping events) d o d' → d' = d ∧ ∀ p, o ≠ Some (Ok p).
Proof.
  intros He Hruns. cut (wp (build_external_partition data key mapping events) (λ d', d' = d) (λ _ _, False) d).
  { intros Hwp. destruct (Hwp o d' Hruns) as [-> HQ]. split; [done|]. intros p ->. by apply (HQ p). }
  unfold build_external_partition. cbv zeta. apply wp_do, wp_map_err, wp_quiet; [apply quiet_verify_current|done|]. intros source.
  apply wp_do, wp_try; [done|]. intros out _. apply wp_do, wp_try; [done|]. intros u _. unfold publish_events. cbv zeta.
  apply wp_do, wp_exists; [done|]. apply wp_do, wp_try; [done|]. intros u' Hu. rewrite bool_decide_eq_true_2 in Hu; [done|].
  by apply not_eq_None_Some.
Qed.
End described.

End CacheLaws.

(** * CacheDemo

    A cache of the partition that SyncDemo fetches. *)

Module CacheDemo.
Import Files FilesLaws Storage Verify VerifyLaws StorageLaws SourceDemo Layout LayoutLaws LayoutDemo CursorLaws SyncDemo Cache CacheLaws.
Import Ordering(order_events) Event(DomainEvent).

Definition put_option (o : option (list Z)) : list Z := match o with Some t => 1 :: put_text t | None => [0] end.
Definition get_option (l : list Z) : option (option (list Z) * list Z) :=
  match l with 1 :: l => '(t, l) ← get_text l; Some (Some t, l) | 0 :: l => Some (None, l) | _ => None end.
Lemma get_put_option o l : get_option (put_option o ++ l) = Some (o, l).
Proof. destruct o as [t|]; [|done]. unfold put_option, get_option. rewrite <-app_comm_cons. cbv iota beta. by rewrite get_put. Qed.
Definition single (o : option Z) : option (list Z) := (λ t, [t]) <$> o.
Definition put_descriptor (d : CacheDescriptor) : list Z :=
  cache_format_version d :: instrument_market d :: trading_date_epoch_days d :: event_count d :: market_types_version d :: event_schema_version d ::
  canonical_event_version d :: ordering_rule_version d :: normalizer_mapping_version d ::
  put_text (cache_identity d) ++ put_text (source_revision_identity d) ++ put_text (instrument_symbol d) ++ put_text (payload_sha256 d) ++
  put_text (normalizer_mapping_name d) ++ put_option (partition_identity d) ++ put_option (single (first_match_time_micros d)) ++
  put_option (single (last_match_time_micros d)).
#[export] Instance descriptor_serde : Serde CacheDescriptor := {|
  to_vec_pretty d := Some (put_descriptor d);
  from_slice l :=
    match l with
    | f :: m :: t :: n :: mt :: es :: ce :: o :: v :: l =>
        '(i, l) ← get_text l; '(r, l) ← get_text l; '(y, l) ← get_text l; '(p, l) ← get_text l; '(nm, l) ← get_text l;
        '(pi, l) ← get_option l; '(ft, l) ← get_option l; '(lt, l) ← get_option l;
        Some (mk_descriptor f i r m y t n (ft ≫= list.head) (lt ≫= list.head) p mt es ce o pi nm v)
    | _ => None
    end |}.
#[export] Instance descriptor_laws : SerdeLaws CacheDescriptor descriptor_wf.
Proof.
  intros d bytes _ E. assert (bytes = put_descriptor d) as -> by (unfold to_vec_pretty, descriptor_serde in E; congruence). clear E. destruct d as [f i r m y t n ft lt p mt es ce o pi nm v].
  unfold from_slice, descriptor_serde, put_descriptor. cbn [cache_format_version cache_identity source_revision_identity instrument_market instrument_symbol trading_date_epoch_days
    event_count first_match_time_micros last_match_time_micros payload_sha256 market_types_version event_schema_version canonical_event_version ordering_rule_version
    partition_identity normalizer_mapping_name normalizer_mapping_version].
  do 5 (rewrite get_put; cbn [mbind option_bind]). do 2 (rewrite get_put_option; cbn [mbind option_bind]). rewrite <-(app_nil_r (put_option (single lt))), get_put_option.
  by destruct ft, lt.
Qed.

(** Two batches of a stock, the later one first. *)
Definition print (t : Z) : DomainEvent :=
  Event.new stock monday (Event.source_format (EventCodec.sample_at t)) (MatchTime.from_unix_microseconds t) None (Event.payload (EventCodec.sample_at t)).
Definition early : DomainEvent := print 1784509200000000.
Definition late : DomainEvent := print 1784509260000000.
Definition mapping : Provider.NormalizerMappingIdentity := Provider.mk_mapping (bytes_of "TeralionTwseQuote") 11.
Definition build_once : IO CacheBuildError PublishedCache := build_external_partition data key mapping [late; early].
Definition built : PublishedCache :=
  value_of (mk_published [] (mk_descriptor 0 [] [] 0 [] 0 0 None None [] 0 0 0 0 None [] 0)) (run build_once synced_d).1.
Definition built_d : Disk := (run build_once synced_d).2.

Lemma built_runs : runs build_once synced_d (Some (Ok built)) built_d.
Proof.
  apply run_to_runs. eapply run_value; [unfold built; reflexivity|unfold built_d; reflexivity|]. vm_compute. reflexivity.
Qed.
Lemma print_fits t : is_i64 t → (∀ b, Event.to_canonical_bytes (print t) = Ok b → zlen b ≤ isize_max) → OrderingLaws.event_fits (print t).
Proof.
  intros Ht Hl. split; [|exact Hl]. destruct (EventCodec.sample_at_wf t Ht) as (_ & _ & Hf & Hm & _ & Hp). split; [by split|].
  split; [unfold TradingDate.wf, TradingDate.MIN_EPOCH_DAYS, TradingDate.MAX_EPOCH_DAYS; simpl; lia|]. by split.
Qed.
Definition short (e : DomainEvent) : bool := match Event.to_canonical_bytes e with Ok b => zlen b <=? isize_max | Err _ => true end.
Lemma short_le e : short e = true → ∀ b, Event.to_canonical_bytes e = Ok b → zlen b ≤ isize_max.
Proof. unfold short. intros H b Hb. rewrite Hb in H. by apply Z.leb_le. Qed.
Lemma batches_fit : Forall OrderingLaws.event_fits [late; early].
Proof.
  apply (Forall_cons_2 OrderingLaws.event_fits); [|apply (Forall_cons_2 OrderingLaws.event_fits); [|apply Forall_nil_2]];
    (apply print_fits; [unfold is_i64, i64_max; lia|apply short_le; vm_compute; reflexivity]).
Qed.
Lemma batches_ordered : order_events [late; early] = Ok [early; late].
Proof. vm_compute. reflexivity. Qed.

Lemma cache_round_trip_witness : proper_key key ∧ runs build_once synced_d (Some (Ok built)) built_d ∧
  path built = cache_partition_root data key ++ [cache_identity (descriptor built)] ∧
  run (load_cache 3 (path built) (source_revision_identity (descriptor built))) built_d = (Ok (Some (descriptor built, numbered 0 [early; late])), built_d).
Proof.
  split; [apply key_proper|]. split; [apply built_runs|].
  pose proof (cache_round_trip data key mapping [late; early] synced_d (Some (Ok built)) built_d key_proper eq_refl) as H.
  destruct H as [_ H]; [simpl; unfold u16_max; lia|apply batches_fit|unfold isize_max, i64_max, zlen; simpl; lia|exact built_runs|].
  destruct (H built eq_refl) as (out & Hord & Hpath & _ & Hload). rewrite batches_ordered in Hord. injection Hord as <-. split; [exact Hpath|exact Hload].
Defined.

Lemma quiet_gives {E A} (m : IO E A) d x : quiet m → (run m d).1 = Ok x → run m d = (Ok x, d).
Proof. intros Hq Hx. pose proof (quiet_run m d Hq) as Hd. destruct (run m d). simpl in *. congruence. Qed.
Definition file_u8 (e : option Entry) : bool := match e with Some (File b) => forallb (in_range 0 u8_max) b | _ => true end.
Lemma file_u8_events d p : file_u8 (entry d (p ++ [EVENTS])) = true → events_u8 d p.
Proof. intros H b Hb. rewrite Hb in H. by apply forallb_u8. Qed.

Lemma cache_verified_witness : ∃ es, cached built_d (path built) (descriptor built) es ∧ numbered 0 [early; late] = numbered 0 es.
Proof.
  assert (H : ∃ es, cached built_d (path built) (descriptor built) es ∧ source_revision_identity (descriptor built) = source_revision_identity (descriptor built) ∧
    (length es < 3)%nat ∧ numbered 0 [early; late] = numbered 0 es).
  { apply (proj1 (cache_verified 3 (path built) (source_revision_identity (descriptor built)) built_d (descriptor built) (numbered 0 [early; late])
      (file_u8_events built_d (path built) ltac:(vm_compute; reflexivity)))).
    apply quiet_gives; [apply quiet_bind; [apply quiet_open_bound|]; intros r; apply quiet_bind; [apply quiet_drain|done]|]. vm_compute. reflexivity. }
  destruct H as (es & Hc & _ & _ & He). exists es. split; [exact Hc|exact He].
Defined.

(** The catalogue finds it, and a plan that names it is given its events. *)
Definition look : IO CacheCatalogError PartitionCacheInspection := inspect_cache data key (source_revision_identity (descriptor built)) mapping.
Definition found : PartitionCacheEntry := mk_entry (path built) (descriptor built).
Lemma quiet_look : quiet look.
Proof.
  unfold look, inspect_cache. apply quiet_bind; [by repeat split|]. intros []; [|done]. apply quiet_bind; [done|]. intros ns.
  apply quiet_bind; [|done]. apply quiet_fold. intros seen n. apply quiet_inspect_entry.
Qed.
Lemma built_tree : tree built_d.
Proof.
  assert (Ht : tree ∅) by (intros p n H; exfalso; apply H; unfold entry; by destruct (p ++ [n]) eqn:E; [by apply app_eq_nil in E as [_ E]|]).
  eapply runs_tree; [|exact built_runs]. eapply runs_tree; [exact Ht|exact sync_once_runs].
Qed.

Lemma cache_catalogue_witness : ∃ n dsc, candidate data key (source_revision_identity (descriptor built)) built_d n dsc ∧ up_to_date mapping dsc ∧ bound key n dsc ∧
  found = mk_entry (cache_partition_root data key ++ [n]) dsc.
Proof.
  assert (Hr : run look built_d = (Ok (Current found), built_d)) by (apply quiet_gives; [apply quiet_look|vm_compute; reflexivity]).
  destruct (cache_catalogue data key (source_revision_identity (descriptor built)) mapping built_d (Current found) built_tree Hr) as (n & dsc & H1 & H2 & H3 & H4 & _).
  exists n, dsc. split; [exact H1|]. split; [exact H2|]. split; [exact H3|exact H4].
Defined.

Definition digest_of (text : list Z) : list Z := default [] (Hex.decode_hex_32 true text).
Definition binding : Plan.ReplayStreamBinding :=
  Plan.new_binding [] stock monday (digest_of (source_revision_identity (descriptor built))) (digest_of (cache_identity (descriptor built))).
Definition factory : LocalCacheFactory := mk_factory data (Some teralion) [].
Definition stream : CacheReader * LocalCacheFactory :=
  value_of (mk_reader [] 0 (descriptor built) 0 0 [] None None None true, factory) (run (open_stream factory binding) built_d).1.
Lemma quiet_open_stream f b : quiet (open_stream f b).
Proof. unfold open_stream. cbv zeta. apply quiet_bind; [apply quiet_open_bound|]. intros r. by apply quiet_bind. Qed.

Lemma streams_are_bound_witness : opened_bindings stream.2 = [binding] ∧
  ∃ es, numbered 0 [early; late] = numbered 0 es ∧ Forall (λ e, Event.instrument e = stock ∧ Event.trading_date e = monday) es.
Proof.
  assert (Ho : run (open_stream factory binding) built_d = (Ok stream, built_d)).
  { eapply run_quiet; [apply quiet_open_stream|unfold stream; reflexivity|]. vm_compute. reflexivity. }
  assert (Hu : events_u8 built_d (parent (file stream.1))) by (apply file_u8_events; vm_compute; reflexivity).
  assert (Hl : run (drain 3 stream.1) built_d = (Ok (Some (numbered 0 [early; late])), built_d)) by (apply quiet_gives; [apply quiet_drain|vm_compute; reflexivity]).
  destruct stream as [reader f'] eqn:E. destruct (streams_are_bound factory binding built_d reader f' 3 (numbered 0 [early; late]) Ho Hu Hl) as (H1 & _ & _ & es & H2 & _ & H3).
  split; [exact H1|]. exists es. split; [exact H2|exact H3].
Defined.

End CacheDemo.
